(* ===== verification/_CoqProject ===== *)
-Q . S2P
Prelude.v
Zle.v
Lzjb.v
ZioCompress.v
Fletcher.v
Galois.v
RaidzMap.v
RaidzParity.v
RaidzReconstruct.v
RaidzGeneral.v
RaidzMatrix.v
RaidzSolve.v
RaidzRepair.v
RaidzLayout.v
RaidzIo.v
RaidzState.v
RaidzComb.v
RaidzDone.v
RaidzRead.v
RaidzTrip.v
RaidzReport.v
Avl.v
AvlPcb.v
AvlTree.v
AvlHeap.v
AvlInsert.v
AvlWalk.v
AvlSwap.v
AvlRemove.v
AvlDestroy.v
AvlSet.v
AvlSpec.v
OrdTree.v
SpaceMap.v
SpaceSet.v
SpaceMapOk.v
SpaceMapWalk.v
SpaceMapRanges.v
SpaceMapSpec.v
SpaceLog.v
SpaceSync.v
SpaceLoad.v
SpaceLogSpec.v
SpaceRef.v
SpaceRefOk.v
Metaslab.v
MetaslabOk.v
MetaslabSpec.v
TxgList.v
MetaslabSync.v
MetaslabInv.v
MetaslabCycle.v
Blkptr.v
MetaslabGroup.v
MetaslabTree.v
MetaslabPool.v
MetaslabBlock.v
MetaslabPass.v
MetaslabFinish.v
MetaslabRotor.v
MetaslabCircle.v
MetaslabSystem.v
MetaslabLedger.v
MetaslabOpen.v
MetaslabImage.v
MetaslabTheorems.v
VdevDtl.v
VdevDtlOk.v
VdevDtlSpec.v
Rrwlock.v
RrwlockOk.v
RangeLock.v
RangeLockSet.v
RangeLockOk.v
RangeLockAdd.v
RangeLockGrant.v
RangeLockFree.v
RangeLockSys.v
RangeLockSpec.v
