(* ===== verification/Prelude.v ===== *)
(** * Verification of parts of ZFS for OS X

    This library models parts of the ZFS kernel code under src/ as Rocq functions
    and proves that they do what their users rely on.  This file is its root: it
    documents the library and holds what all other files share.

    ** The program's parts and how they interact

    - Blocks are compressed ([zio_compress.c], which calls [lzjb.c], [zle.c] and
      [gzip.c]) and checksummed ([zfs_fletcher.c]) on their way to the disks.
    - [vdev_raidz.c] spreads a block over the children of a RAID-Z vdev with up to
      three columns of parity, and puts it together again when children fail or
      return wrong data.
    - [space_map.c] keeps sets of integers: the free space of a metaslab, from
      which the allocators of [metaslab.c] pick blocks, and the transaction groups
      that a vdev is missing, which the dirty time logs of [vdev.c] are made of.
      In memory a space map is a tree of segments, on disk a log.
    - [metaslab.c] and the parts of [vdev.c] and [spa.c] that call it manage the space
      of a pool: a block is allocated from a metaslab of a group on the circle of its
      class, its addresses are written into a block pointer ([spa.h]), and when a
      transaction group is synced the metaslabs on its lists ([txg.c]) write what has
      changed to their logs.  Space that is freed is kept back for two groups.
    - [avl.c] is the tree below space maps, allocators, reference trees and range
      locks.
    - [zfs_rlock.c] locks ranges of a file, [rrwlock.c] is the lock around
      operations on a file system.

    ** How the code is modelled

    A C routine is a function into [res]: [Ok] with the result and the new state,
    or [Fault] with what went wrong, a read out of bounds or an access through a
    dangling pointer ([FOob]), a write out of bounds ([FWrite]), a panic ([FPanic]) or the end of the fuel ([FFuel]).  Integers
    are [Z] with the wrap-around of their width written out ([u64], [u32]), buffers
    are lists of bytes, objects that are linked by pointers are cells of a finite
    map from addresses.  Loops are [loop] or [for_range].  The fuel of [loop] is
    taken from the data that bounds the loop: the length of a buffer, the number of
    nodes of a tree ([tr_fuel]), the number of combinations of columns.  Because a
    loop that runs out of fuel is a fault, the theorems, which state that routines
    return [Ok], also state that the loops end and that the fuel is enough.
    ASSERT is compiled out of release builds and is not modelled; VERIFY is
    [verify].

    ** Files

    Compression and checksums:
    - [Zle], [Lzjb]: zle.c and lzjb.c.  Both compressors stay within their buffers
      and what they return decompresses to the source.  Both decompressors leave their
      buffers on bad input: every ZLE stream with a run that does not fit, and every
      LZJB stream that is cut short.
    - [ZioCompress]: zio_compress.c and gzip.c.  Whatever [zio_compress_data] calls
      compressed decompresses to the source.  zlib is a parameter.
    - [Fletcher]: zfs_fletcher.c.  The checksums as series, their incremental and
      byte-swapped forms, and the errors that they detect.

    RAID-Z (vdev_raidz.c):
    - [Galois]: the field of 256 elements, its tables, and doubling of eight bytes
      at once.
    - [RaidzMap], [RaidzLayout]: [vdev_raidz_map_alloc] and [vdev_raidz_asize].
      Maps are well formed and maps of disjoint ranges share no sector.
    - [RaidzParity], [RaidzReconstruct], [RaidzGeneral], [RaidzMatrix], [RaidzSolve],
      [RaidzRepair]: parity, and its use by every routine of reconstruction.  All
      sets of at most as many bad columns as there are parity columns are recovered.
    - [RaidzIo], [RaidzState], [RaidzComb], [RaidzDone], [RaidzRead], [RaidzTrip]:
      [vdev_raidz_io_start], [vdev_raidz_io_done] and [vdev_raidz_combrec].  A block
      written is read back as written with up to nparity children that fail or lie.
      A read that is not a resilver and has no parity left to check against repairs
      the parity that failed with what its buffer happened to hold.
    - [RaidzReport]: checksum reports, which outlive their I/O, and opening a vdev.

    AVL trees (avl.c, avl_impl.h):
    - [Avl]: the routines on nodes in memory; [AvlPcb]: the packed word of 64-bit
      machines, shown to implement the fields that [Avl] uses.
    - [AvlTree]: trees as data, with a zipper; [AvlHeap], [AvlInsert] (modules
      [AvlRotate] and [AvlInsert]), [AvlWalk], [AvlSwap], [AvlRemove], [AvlDestroy]: each routine in memory follows
      its counterpart on trees.
    - [AvlSet], [AvlSpec]: trees as sorted sequences, and the theorems.
    - [OrdTree]: the classes [Tree] and [TreeLaws], which state what users of trees
      rely on.  Space maps, allocators and range locks are proved against them, and
      the pointer code of [Avl] is the instance.

    Space (space_map.c, metaslab.c, vdev.c):
    - [SpaceMap], [SpaceSet], [SpaceMapOk], [SpaceMapWalk] (modules [SpaceMapCut] and
      [SpaceMapWalk]), [SpaceMapRanges], [SpaceMapSpec]: maps in memory.  The operations are union and
      difference with a range, keep every invariant, and panic on overlaps.
    - [SpaceLog], [SpaceSync] (modules [SpaceEntry] and [SpaceSync]), [SpaceLoad],
      [SpaceLogSpec]: the log.
      What [space_map_sync] writes [space_map_load] reads back; read errors leave an
      empty map.  The object that holds the log is the class [Dmu] with its laws.
    - [SpaceRef], [SpaceRefOk]: reference trees, which count how many maps hold an
      integer.
    - [Metaslab], [MetaslabOk] (modules [MetaslabPick] and [MetaslabOk]),
      [MetaslabSpec]: the four allocators.
      They hand out free space only; the built-in one fails only when there is no
      free range of the size.
    - [VdevDtl], [VdevDtlOk], [VdevDtlSpec]: the dirty time logs.  A reassessment
      gives each vdev of a tree the logs that their definition asks for;
      [vdev_dtl_required] and [vdev_resilver_needed] answer accordingly.

    The space of a pool (metaslab.c, vdev.c, spa.c, txg.c, spa.h):
    - [TxgList]: the lists of what is dirty in a transaction group.
    - [Blkptr]: the words of block pointers and addresses.  Fields do not overlap, and
      what is stored is read back.
    - [MetaslabSync]: the records of metaslabs, groups, classes, top-level vdevs and
      the pool; weights, activation, [metaslab_sync], [metaslab_sync_done], [vdev_sync],
      [vdev_remove], [vdev_sync_done] and the two loops of [spa_sync] that call them.
    - [MetaslabGroup]: [metaslab_group_activate] and its counterpart,
      [vdev_metaslab_init], [metaslab_alloc], [metaslab_free], [metaslab_claim] and what
      they call, and fast writes.  [MetaslabOpen]: [vdev_load].
    - [MetaslabInv] (modules [SpaceFrame], [MetaslabSlab], [MetaslabInv]): the invariant of
      a metaslab.  Each byte of it has an owner: free, deferred, freed, allocated in a
      group that is not synced yet, or in the log; the maps in memory and the log are
      determined by the owners.  [MetaslabCycle] (modules [MetaslabWrite],
      [MetaslabTurn], [MetaslabTake]): what syncing, the end of a group, allocation and
      freeing do to the owners.
    - [MetaslabTree], [MetaslabPool] (modules [MetaslabPool], [MetaslabState]): the tree of
      the metaslabs of a group by weight, and the invariant of a pool.
      [MetaslabBlock] (modules [MetaslabUse], [MetaslabPlace], [MetaslabBlock]): allocating
      from a group, freeing and claiming an address.  [MetaslabPass] (modules
      [MetaslabRound], [MetaslabPass]): a pass over the dirty vdevs.  [MetaslabFinish]
      (modules [MetaslabDone], [MetaslabFinish]): the end of a group.  [MetaslabRotor]
      (modules [MetaslabRing], [MetaslabRotor]): the circle of groups.  [MetaslabCircle]
      (modules [MetaslabChoose], [MetaslabCircle]): an address from the groups of a class
      in turn, with the proof that the search ends.
    - [MetaslabSystem] (modules [MetaslabAlloc], [MetaslabSystem]): blocks of several
      addresses, and the pool as a system: its calls, when they may be made ([allowed]),
      what each does to the owners ([spec]), and what is known of earlier groups.
    - [MetaslabLedger]: the callers' side.  They keep a ledger of the addresses that calls
      returned ([book]) and free only what is in it ([obeys]); sequences of calls are
      executed by the code alone ([execute]) and are shown to follow the specification.
    - [MetaslabImage] (modules [MetaslabImage], [MetaslabExample]): opening a pool from its
      objects, and a concrete pool.  [MetaslabTheorems]: every call returns and refines
      its specification; after any sequence of calls no two addresses that are held share
      a byte; what is on disk is not reused before four groups later; a pool that is opened again has the space it
      had; a group ends; the circle is kept.  Two theorems show code without
      effect: the bonus of low metaslabs, and the check that a metaslab is still active.

    Locks (rrwlock.c, zfs_rlock.c), as step relations on threads in which each
    stretch of code that holds the mutex is one step:
    - [Rrwlock], [RrwlockOk]: mutual exclusion and progress of the re-entrant
      locks, and the case in which writers are shut out for good, because the lists
      of nodes are commented out of this port.
    - [RangeLock], [RangeLockSet], [RangeLockOk], [RangeLockAdd], [RangeLockGrant],
      [RangeLockFree]: the routines, and the invariant that ties the tree of locks
      and proxies to the ranges that are held; [RangeLockSys], [RangeLockSpec]: the
      threads, exclusion, memory safety, termination and progress.

    ** What is assumed of code that is not modelled

    Memory allocators return fresh addresses ([KmemLaws]) or buffers of the size
    asked for; reads and writes of objects obey [DmuLaws], and new objects, bonus buffers
    and the truncation of an object obey [DmuObjectLaws]; the freeze of a pool, whether it
    is writeable, the limit of allocation failures and the clock are arbitrary ([SpaEnv]), as
    is [zfs_recover] ([Kmem]), while the other tunables of metaslab.c have their initial values; zlib inverts itself; a checksum
    is a function of the data.  Each is a parameter of the definitions, and
    each theorem that depends on one has a witness with a concrete instance.
    Appends to a file are of less than 2^63 bytes to a file of less than 2^63 bytes, and
    fewer than 2^32 locks on a file are held at a time.  Steps of a re-entrant lock
    are counted, and less than 2^64.
    A pool is taken from the point where the array of the objects of each of its vdevs
    exists and none of its vdevs is being removed or has a time log to be stored
    ([pool_live]); the pass that creates the arrays of a new pool is modelled but not
    covered by the theorems.  A vdev has at most 2^62 bytes in metaslabs of whole sectors
    of 512 bytes or more, a log has at most 2^62 bytes before it is written ([log_room]), and
    transaction groups are less than 2^63.  Calls follow one another: what the locks of
    the pool keep apart is a sequence of calls.

    ** What is not modelled

    - The release of memory and the closing of children in vdev_raidz.c, and the
      content of error reports.
    - The threads of [txg.c] and the rest of [spa_sync]; [metaslab_prefetch], which is a
      hint, and the functions of metaslab.c that only assert, read a field or free
      memory; the rest of vdev.c, and [vdev_dtl_load] and [vdev_dtl_sync]:
      [vdev_sync] is a fault where it would call the latter.
    - The debugging variant of reference counts; the initialization and destruction
      of mutexes and condition variables.
    - The zio pipeline, the cache (arc.c, dbuf.c), the data management unit, datasets
      and snapshots, the rest of the storage pool allocator, the POSIX layer and the intent log:
      they are built on kernel threads, on the memory management and the file system
      interface of the operating system, and on one another.
    - Mirrors, the I/O queue, labels, ZAP objects, name/value lists, SHA-256, and the
      tables of properties.
    - Disk and file vdevs, commands and libraries, which are wrappers of system
      calls; the Linux interface (zpl_*.c), which is not built on OS X. *)

From stdpp Require Export base tactics list list_numbers numbers option.
From Stdlib Require Export ZArith Lia.
#[export] Set Default Goal Selector "!".
Open Scope Z_scope.

(** ** Tactics *)

(** Linear arithmetic with division and remainder by constants. *)
Ltac dlia := Z.to_euclidean_division_equations; lia.

(** The cases of boolean tests in modelled code, as propositions. *)
Ltac zbool :=
  repeat match goal with
  | H : andb _ _ = true |- _ => apply andb_prop in H as [? ?]
  | H : andb _ _ = false |- _ =>
      apply andb_false_iff in H; rewrite ?Z.leb_gt, ?Z.ltb_ge, ?Z.eqb_neq in H
  | H : orb _ _ = true |- _ =>
      apply orb_true_iff in H; rewrite ?Z.leb_le, ?Z.ltb_lt, ?Z.eqb_eq in H
  | H : orb _ _ = false |- _ => apply orb_false_iff in H as [? ?]
  | H : negb _ = true |- _ => apply negb_true_iff in H
  | H : negb _ = false |- _ => apply negb_false_iff in H
  | H : Z.eqb _ _ = true |- _ => apply Z.eqb_eq in H
  | H : Z.eqb _ _ = false |- _ => apply Z.eqb_neq in H
  | H : Z.ltb _ _ = true |- _ => apply Z.ltb_lt in H
  | H : Z.ltb _ _ = false |- _ => apply Z.ltb_ge in H
  | H : Z.leb _ _ = true |- _ => apply Z.leb_le in H
  | H : Z.leb _ _ = false |- _ => apply Z.leb_gt in H
  end.

(** Split on the test of the [if] in the goal. *)
Tactic Notation "case_if" "as" ident(H) :=
  match goal with |- context [if ?b then _ else _] => destruct b eqn:H; zbool end.

Ltac case_ifs := repeat (let H := fresh "E" in case_if as H).

(** ** Outcomes of C code *)

(** What can go wrong in a modelled routine: a read outside a buffer or an
    access through a dangling pointer, a write outside a buffer, a failed
    VERIFY (kernel panic), or the model's own fuel running out. *)
Inductive fault := FOob | FWrite | FPanic | FFuel.

Inductive res (A : Type) := Ok (a : A) | Fault (f : fault).
Arguments Ok {A} _.
Arguments Fault {A} _.

#[export] Instance res_ret : MRet res := fun A a => Ok a.
#[export] Instance res_bind : MBind res := fun A B k m =>
  match m with Ok a => k a | Fault f => Fault f end.

(** A VERIFY of the source: the kernel panics when the condition is false. *)
Definition verify (b : bool) : res unit := if b then Ok tt else Fault FPanic.

(** ** Loops

    Every C loop is an instance of [loop]: the body returns [inl s] to go
    round again with state [s] and [inr r] to leave the loop with [r] (a
    [break], a [return] or the loop condition turning false). *)
Fixpoint loop {S R : Type} (fuel : nat) (body : S -> res (S + R)) (s : S) : res R :=
  match fuel with
  | O => Fault FFuel
  | Datatypes.S fuel' =>
      match body s with
      | Ok (inl s') => loop fuel' body s'
      | Ok (inr r) => Ok r
      | Fault f => Fault f
      end
  end.

(** ** Total correctness

    [wp m Q]: [m] returns without a fault, with a result that satisfies [Q]. *)
Definition wp {A} (m : res A) (Q : A -> Prop) : Prop :=
  match m with Ok a => Q a | Fault _ => False end.

Lemma wp_elim {A} (m : res A) Q : wp m Q -> exists a, m = Ok a /\ Q a.
Proof. destruct m; simpl; [eauto|done]. Qed.

Lemma wp_intro {A} (m : res A) (Q : A -> Prop) a : m = Ok a -> Q a -> wp m Q.
Proof. by intros ->. Qed.

Lemma wp_mono {A} (m : res A) (P Q : A -> Prop) :
  wp m P -> (forall a, P a -> Q a) -> wp m Q.
Proof. destruct m; simpl; auto. Qed.

Lemma wp_bind {A B} (m : res A) (k : A -> res B) Q :
  wp m (fun a => wp (k a) Q) -> wp (m ≫= k) Q.
Proof. destruct m; simpl; auto. Qed.

Lemma wp_bind_Ok {A B} (m : res A) (k : A -> res B) a : m = Ok a -> m ≫= k = k a.
Proof. by intros ->. Qed.

Lemma bind_Ok {A B} (a : A) (k : A -> res B) : Ok a ≫= k = k a.
Proof. done. Qed.

(** Run the steps whose outcome is known. *)
Ltac bnd := rewrite ?bind_Ok; cbv beta iota zeta; rewrite ?bind_Ok; cbv beta iota zeta.

(** A loop with an invariant, a measure that decreases on each round, and a
    postcondition on exit. *)
Lemma wp_loop {S R : Type} (I : S -> Prop) (m : S -> nat)
    (body : S -> res (S + R)) (Q : R -> Prop) fuel s :
  (forall s, I s -> wp (body s) (fun o =>
      match o with inl s' => I s' /\ (m s' < m s)%nat | inr r => Q r end)) ->
  I s -> (m s < fuel)%nat -> wp (loop fuel body s) Q.
Proof.
  intros Hbody. revert s. induction fuel as [|fuel IH]; intros s HI Hm; [lia|].
  specialize (Hbody s HI). simpl. destruct (body s) as [[s'|r]|f]; simpl in *; [|done|done].
  destruct Hbody. apply IH; [done|lia].
Qed.

(** A round of a loop, and a fault in one. *)
Lemma loop_next {S R : Type} fuel (body : S -> res (S + R)) s s' : body s = Ok (inl s') -> loop (Datatypes.S fuel) body s = loop fuel body s'.
Proof. intros E. cbn. by rewrite E. Qed.

Lemma loop_fault {S R : Type} fuel (body : S -> res (S + R)) s f : body s = Fault f -> loop (Datatypes.S fuel) body s = Fault f.
Proof. intros E. cbn. by rewrite E. Qed.

(** What a computation that has returned went through. *)
Lemma bind_inv {A B} (m : res A) (k : A -> res B) b : m ≫= k = Ok b -> exists a, m = Ok a /\ k a = Ok b.
Proof. destruct m as [a|]; [|done]. by exists a. Qed.

(** An invariant of a loop that has returned. *)
Lemma loop_keeps {S R : Type} (I : S -> Prop) (Q : R -> Prop) fuel (body : S -> res (S + R)) s r :
  (forall s x, I s -> body s = Ok x -> match x with inl s' => I s' | inr r => Q r end) -> I s -> loop fuel body s = Ok r -> Q r.
Proof.
  intros Hb. revert s. induction fuel as [|fuel IH]; intros s Hs; [done|]. cbn. specialize (Hb s). destruct (body s) as [x|]; [|done].
  specialize (Hb x Hs eq_refl). destruct x as [s'|r']; [by apply IH|by intros [= <-]].
Qed.

(** Run backwards through the binds of a hypothesis [m = Ok r]. *)
Ltac binv H :=
  repeat match type of H with
  | _ ≫= _ = Ok _ => let E := fresh "E" in let a := fresh "a" in apply bind_inv in H as (a & E & H)
  end.


(** A counting loop, [for (i = lo; i < hi; i++)], whose body neither breaks
    nor changes its counter. *)
Fixpoint for_n {S : Type} (n : nat) (i : Z) (f : Z -> S -> res S) (s : S) : res S :=
  match n with
  | O => Ok s
  | Datatypes.S n => f i s ≫= for_n n (i + 1) f
  end.

Definition for_range {S : Type} (lo hi : Z) (f : Z -> S -> res S) (s : S) : res S :=
  for_n (Z.to_nat (hi - lo)) lo f s.

(** A counting loop whose state before round [i] is [g i]. *)
Lemma for_range_fun {S : Type} (g : Z -> S) lo hi f s r :
  lo <= hi -> (forall i, lo <= i < hi -> f i (g i) = Ok (g (i + 1))) ->
  s = g lo -> r = g hi -> for_range lo hi f s = Ok r.
Proof.
  intros Hle Hf -> ->. unfold for_range. remember (Z.to_nat (hi - lo)) as n eqn:En.
  revert lo Hle Hf En. induction n as [|n IH]; intros lo Hle Hf En; simpl.
  - by replace hi with lo by lia.
  - rewrite Hf by lia. simpl. rewrite IH; [done|lia|intros; apply Hf; lia|lia].
Qed.

(** A counting loop with an invariant. *)
Lemma wp_for_range {S : Type} (I : Z -> S -> Prop) lo hi f (s : S) (Q : S -> Prop) :
  lo <= hi -> I lo s ->
  (forall i s, lo <= i < hi -> I i s -> wp (f i s) (I (i + 1))) ->
  (forall s, I hi s -> Q s) -> wp (for_range lo hi f s) Q.
Proof.
  intros Hle HI Hf HQ. unfold for_range. remember (Z.to_nat (hi - lo)) as n eqn:En.
  revert lo s Hle HI Hf En. induction n as [|n IH]; intros lo s Hle HI Hf En; cbn [for_n].
  - apply HQ. by replace hi with lo by lia.
  - apply wp_bind. eapply wp_mono; [apply Hf; [lia|done]|]. intros s' Hs'.
    apply IH; [lia|done|intros; apply Hf; [lia|done]|lia].
Qed.

Lemma for_range_nil {S : Type} lo hi f (s : S) : hi <= lo -> for_range lo hi f s = Ok s.
Proof. intros. unfold for_range. by replace (Z.to_nat (hi - lo)) with 0%nat by lia. Qed.

Lemma for_range_S {S : Type} lo hi f (s : S) :
  lo < hi -> for_range lo hi f s = f lo s ≫= for_range (lo + 1) hi f.
Proof.
  intros. unfold for_range. replace (Z.to_nat (hi - lo)) with (Datatypes.S (Z.to_nat (hi - (lo + 1)))) by lia.
  done.
Qed.

Lemma wp_verify (b : bool) (Q : unit -> Prop) : b = true -> Q tt -> wp (verify b) Q.
Proof. by intros ->. Qed.

(** ** Machine integers *)

Abbreviation u8 x := (x mod 2 ^ 8).
Abbreviation u16 x := (x mod 2 ^ 16).
Abbreviation u32 x := (x mod 2 ^ 32).
Abbreviation u64 x := (x mod 2 ^ 64).

(** sysmacros.h: alignment macros on 64-bit unsigned values. *)
Definition P2PHASE (x align : Z) : Z := Z.land x (align - 1).
Definition P2ALIGN (x align : Z) : Z := Z.land x (u64 (- align)).
Definition P2ROUNDUP (x align : Z) : Z := u64 (- (Z.land (u64 (- x)) (u64 (- align)))).
Definition roundup (x y : Z) : Z := u64 (u64 (x + (y - 1)) / y * y).

(** spa.h: bit fields of a 64-bit word. *)
Definition BF64_DECODE (x low len : Z) : Z := P2PHASE (Z.shiftr x low) (u64 (Z.shiftl 1 len)).
Definition BF64_ENCODE (x low len : Z) : Z := u64 (Z.shiftl (P2PHASE x (u64 (Z.shiftl 1 len))) low).

Lemma land_pred_pow2 x k : 0 <= k -> Z.land x (2 ^ k - 1) = x mod 2 ^ k.
Proof. intros. rewrite <- Z.land_ones by done. by rewrite Z.ones_equiv, Z.sub_1_r. Qed.

Lemma P2PHASE_pow2 x k : 0 <= k -> P2PHASE x (2 ^ k) = x mod 2 ^ k.
Proof. apply land_pred_pow2. Qed.

Lemma land_neg_pow2 x k : 0 <= k -> Z.land x (- 2 ^ k) = x - x mod 2 ^ k.
Proof.
  intros Hk. rewrite <- (Z.land_ones x k) by done.
  replace (- 2 ^ k) with (Z.lnot (Z.ones k))
    by (rewrite Z.ones_equiv; unfold Z.lnot; lia).
  rewrite <- Z.ldiff_land, Z.sub_nocarry_ldiff.
  - apply Z.bits_inj'. intros i Hi. rewrite !Z.ldiff_spec, Z.land_spec.
    by destruct (Z.testbit x i), (Z.testbit (Z.ones k) i).
  - apply Z.bits_inj'. intros i Hi. rewrite Z.ldiff_spec, Z.land_spec, Z.bits_0.
    by destruct (Z.testbit x i), (Z.testbit (Z.ones k) i).
Qed.

Lemma pow2_split a b : 0 <= a <= b -> 2 ^ b = 2 ^ (b - a) * 2 ^ a.
Proof. intros. rewrite <- Z.pow_add_r by lia. f_equal. lia. Qed.

Lemma u64_neg_pow2 k : 0 <= k < 64 -> u64 (- 2 ^ k) = 2 ^ 64 - 2 ^ k.
Proof.
  intros. assert (0 < 2 ^ k < 2 ^ 64)
    by (split; [apply Z.pow_pos_nonneg; lia|apply Z.pow_lt_mono_r; lia]).
  rewrite <- (Z.mod_add _ 1) by lia. rewrite Z.mod_small; lia.
Qed.

Lemma land_u64_neg_pow2 x k :
  0 <= k < 64 -> 0 <= x < 2 ^ 64 -> Z.land x (u64 (- 2 ^ k)) = x - x mod 2 ^ k.
Proof.
  intros Hk Hx. rewrite <- land_neg_pow2 by lia.
  rewrite <- (Z.land_ones (- 2 ^ k)), Z.land_comm, <- Z.land_assoc, Z.land_comm by lia.
  f_equal. rewrite Z.land_comm, Z.land_ones by lia. by apply Z.mod_small.
Qed.

Lemma P2ALIGN_pow2 x k :
  0 <= k < 64 -> 0 <= x < 2 ^ 64 -> P2ALIGN x (2 ^ k) = x - x mod 2 ^ k.
Proof. apply land_u64_neg_pow2. Qed.

Lemma P2ROUNDUP_pow2 x k :
  0 <= k < 64 -> 0 <= x -> x + 2 ^ k <= 2 ^ 64 ->
  P2ROUNDUP x (2 ^ k) = (x + (2 ^ k - 1)) / 2 ^ k * 2 ^ k.
Proof.
  intros Hk Hx Hb. unfold P2ROUNDUP.
  assert (Hp : 0 < 2 ^ k) by (apply Z.pow_pos_nonneg; lia).
  rewrite land_u64_neg_pow2; [|lia|apply Z.mod_pos_bound; lia].
  rewrite (pow2_split k 64) at 2 by lia.
  rewrite Z.mod_mod_divide by (apply Z.divide_factor_r).
  replace (u64 (- (u64 (- x) - (- x) mod 2 ^ k)))
    with (u64 (x + (- x) mod 2 ^ k)).
  2: { rewrite <- (Z.mod_add _ ((- x) / 2 ^ 64)) by lia. f_equal.
       rewrite (Z.mod_eq (- x) (2 ^ 64)) by lia. lia. }
  pose proof (Z.mod_pos_bound (- x) (2 ^ k) Hp).
  pose proof (Z.div_mod (- x) (2 ^ k) ltac:(lia)) as Hd.
  assert (E : (x + (2 ^ k - 1)) / 2 ^ k = - (- x / 2 ^ k)).
  { symmetry. apply Z.div_unique with (2 ^ k - 1 - - x mod 2 ^ k); lia. }
  rewrite E. rewrite Z.mod_small; lia.
Qed.

(** *** Bits of bounded integers *)

Lemma testbit_small a k i : 0 <= a < 2 ^ k -> 0 <= k <= i -> Z.testbit a i = false.
Proof. intros Ha Hk. rewrite <- (Z.mod_small a (2 ^ k)) by done. by apply Z.mod_pow2_bits_high. Qed.

Lemma lor_disjoint a b : Z.land a b = 0 -> Z.lor a b = a + b.
Proof. intros H. by rewrite Z.add_nocarry_lxor, Z.lxor_lor. Qed.

(** A low field and a multiple of [2 ^ k] do not overlap. *)
Lemma land_low_high a b k : 0 <= k -> 0 <= a < 2 ^ k -> Z.land a (b * 2 ^ k) = 0.
Proof.
  intros Hk Ha. apply Z.bits_inj'. intros i Hi. rewrite Z.land_spec, Z.bits_0.
  destruct (Z.lt_ge_cases i k).
  - by rewrite (Z.mul_pow2_bits_low b k i), andb_false_r by lia.
  - by rewrite (testbit_small a k i) by lia.
Qed.

Lemma lor_low_high a b k : 0 <= k -> 0 <= a < 2 ^ k -> Z.lor a (b * 2 ^ k) = a + b * 2 ^ k.
Proof. intros. by apply lor_disjoint, land_low_high. Qed.

(** A non-negative integer with no bit from [k] on is below [2 ^ k]. *)
Lemma bits_bound a k : 0 <= k -> (forall i, k <= i -> Z.testbit a i = false) -> 0 <= a < 2 ^ k.
Proof.
  intros Hk H. replace a with (a mod 2 ^ k); [apply Z.mod_pos_bound; lia|].
  apply Z.bits_inj'. intros i Hi. destruct (Z.lt_ge_cases i k).
  - by apply Z.mod_pow2_bits_low.
  - rewrite H by done. by apply Z.mod_pow2_bits_high.
Qed.

Lemma lxor_bound a b k : 0 <= k -> 0 <= a < 2 ^ k -> 0 <= b < 2 ^ k -> 0 <= Z.lxor a b < 2 ^ k.
Proof.
  intros Hk Ha Hb. apply bits_bound; [done|]. intros i Hi.
  rewrite Z.lxor_spec, !(testbit_small _ k i) by lia. done.
Qed.

Lemma land_bound a b k : 0 <= k -> 0 <= a < 2 ^ k -> 0 <= Z.land a b < 2 ^ k.
Proof.
  intros Hk Ha. apply bits_bound; [done|]. intros i Hi.
  rewrite Z.land_spec, (testbit_small a k i) by lia. done.
Qed.

Lemma lor_bound a b k : 0 <= k -> 0 <= a < 2 ^ k -> 0 <= b < 2 ^ k -> 0 <= Z.lor a b < 2 ^ k.
Proof.
  intros Hk Ha Hb. apply bits_bound; [done|]. intros i Hi.
  rewrite Z.lor_spec, !(testbit_small _ k i) by lia. done.
Qed.

Lemma pow2_pos k : 0 <= k -> 0 < 2 ^ k.
Proof. intros. by apply Z.pow_pos_nonneg. Qed.

(** [bits]: bounds of powers of two and of bit operations. *)
Create HintDb bits.
#[export] Hint Resolve pow2_pos lxor_bound land_bound lor_bound : bits.
#[export] Hint Extern 1 (0 <= _) => lia : bits.
#[export] Hint Extern 1 (0 <= _ < _) => lia : bits.

(** ** Byte and word buffers

    A C buffer is the list of its cells; an access outside it faults. *)
Abbreviation zlen l := (Z.of_nat (length l)).

Definition rd {A} (buf : list A) (i : Z) : res A :=
  if 0 <=? i then
    match buf !! Z.to_nat i with Some v => Ok v | None => Fault FOob end
  else Fault FOob.

Definition wr {A} (buf : list A) (i : Z) (v : A) : res (list A) :=
  if (0 <=? i) && (i <? zlen buf) then Ok (<[Z.to_nat i := v]> buf) else Fault FWrite.

Definition is_byte (b : Z) : Prop := 0 <= b < 256.

Section buffers.
Context {A : Type}.
Implicit Types (l pre post : list A) (v x : A) (i : Z).

Lemma rd_app pre v post i : i = zlen pre -> rd (pre ++ v :: post) i = Ok v.
Proof.
  intros ->. unfold rd. rewrite (proj2 (Z.leb_le 0 _)) by lia.
  by rewrite Nat2Z.id, list_lookup_middle.
Qed.

Lemma wr_app pre x post i v :
  i = zlen pre -> wr (pre ++ x :: post) i v = Ok (pre ++ v :: post).
Proof.
  intros ->. unfold wr. rewrite length_app; simpl.
  rewrite (proj2 (Z.leb_le 0 _)), (proj2 (Z.ltb_lt _ _)) by lia. simpl.
  rewrite Nat2Z.id, insert_app_r_alt by lia. by rewrite Nat.sub_diag.
Qed.

Lemma rd_Some l i v : 0 <= i -> l !! Z.to_nat i = Some v -> rd l i = Ok v.
Proof. intros Hi Hl. unfold rd. rewrite (proj2 (Z.leb_le 0 _)) by lia. by rewrite Hl. Qed.

Lemma rd_ok_inv l i v :
  rd l i = Ok v -> 0 <= i < zlen l /\ l !! Z.to_nat i = Some v.
Proof.
  unfold rd. destruct (Z.leb_spec 0 i); [|done].
  destruct (l !! Z.to_nat i) as [w|] eqn:E; [|done]. intros [= ->].
  apply lookup_lt_Some in E as ?. split; [lia|done].
Qed.

Lemma rd_in_bounds l i : 0 <= i < zlen l -> exists v, rd l i = Ok v /\ l !! Z.to_nat i = Some v.
Proof.
  intros. destruct (lookup_lt_is_Some_2 l (Z.to_nat i)) as [v Hv]; [lia|].
  exists v. split; [by apply rd_Some; [lia|]|done].
Qed.

Lemma wp_rd l i (Q : A -> Prop) :
  0 <= i < zlen l -> (forall v, l !! Z.to_nat i = Some v -> Q v) -> wp (rd l i) Q.
Proof. intros Hi HQ. destruct (rd_in_bounds l i Hi) as (v & -> & ?). by apply HQ. Qed.

Lemma wr_in_bounds l i v : 0 <= i < zlen l -> wr l i v = Ok (<[Z.to_nat i := v]> l).
Proof.
  intros. unfold wr.
  by rewrite (proj2 (Z.leb_le 0 _)), (proj2 (Z.ltb_lt _ _)) by lia.
Qed.

Lemma insert_alter (f : A -> A) l k v : l !! k = Some v -> <[k := f v]> l = alter f k l.
Proof.
  intros Hk. apply list_eq. intros j. destruct (decide (k = j)) as [<-|].
  - rewrite list_lookup_alter_eq, Hk, list_lookup_insert_eq; [done|by eapply lookup_lt_Some].
  - by rewrite list_lookup_alter_ne, list_lookup_insert_ne by done.
Qed.

(** A buffer split at a position inside it. *)
Lemma split_at l i :
  0 <= i < zlen l -> exists pre v post, l = pre ++ v :: post /\ zlen pre = i.
Proof.
  intros. destruct (lookup_lt_is_Some_2 l (Z.to_nat i)) as [v Hv]; [lia|].
  exists (take (Z.to_nat i) l), v, (drop (S (Z.to_nat i)) l).
  split; [by rewrite take_drop_middle|]. rewrite length_take. lia.
Qed.
End buffers.

(** A buffer whose first cells have been overwritten by [out]. *)
Definition ovr {A} (out d : list A) : list A := out ++ drop (length out) d.

Section overwrite.
Context {A : Type}.
Implicit Types (out d : list A) (v x : A).

Lemma ovr_nil d : ovr [] d = d.
Proof. done. Qed.

Lemma ovr_snoc out d v :
  zlen out < zlen d -> wr (ovr out d) (zlen out) v = Ok (ovr (out ++ [v]) d).
Proof.
  intros. unfold ovr.
  destruct (lookup_lt_is_Some_2 d (length out)) as [y Hy]; [lia|].
  rewrite (drop_S _ y) by done. rewrite wr_app by done.
  by rewrite length_app, <- app_assoc, Nat.add_1_r.
Qed.

(** Reserving a cell: the cursor moves over it, its old content stays. *)
Lemma ovr_reserve out d :
  zlen out < zlen d -> exists x, ovr out d = ovr (out ++ [x]) d.
Proof.
  intros. destruct (lookup_lt_is_Some_2 d (length out)) as [y Hy]; [lia|].
  exists y. unfold ovr. rewrite (drop_S _ y) by done.
  by rewrite length_app, <- app_assoc, Nat.add_1_r.
Qed.

Lemma ovr_patch o1 x o2 d v i :
  i = zlen o1 -> wr (ovr (o1 ++ x :: o2) d) i v = Ok (ovr (o1 ++ v :: o2) d).
Proof.
  intros ->. unfold ovr. rewrite <- !app_assoc, <- !app_comm_cons.
  rewrite wr_app by done. do 2 f_equal. by rewrite !length_app.
Qed.

Lemma rd_ovr out d i v :
  0 <= i < zlen out -> out !! Z.to_nat i = Some v -> rd (ovr out d) i = Ok v.
Proof. intros Hi Hv. apply rd_Some; [lia|]. unfold ovr. by apply lookup_app_l_Some. Qed.

Lemma rd_ovr_mid o1 v o2 d i : i = zlen o1 -> rd (ovr (o1 ++ v :: o2) d) i = Ok v.
Proof. intros ->. unfold ovr. rewrite <- app_assoc. by apply rd_app. Qed.

Lemma length_ovr out d : (length out <= length d)%nat -> length (ovr out d) = length d.
Proof. intros. unfold ovr. rewrite length_app, length_drop. lia. Qed.

Lemma take_ovr out d : take (length out) (ovr out d) = out.
Proof. apply take_app_length. Qed.

Lemma drop_ovr out d k :
  (length out <= k)%nat -> drop k (ovr out d) = drop k d.
Proof.
  intros. unfold ovr. rewrite drop_app_ge by done. rewrite drop_drop. f_equal. lia.
Qed.
End overwrite.

(** *** Words in memory

    The machines the code runs on are little-endian: a word is the value of
    its bytes, least significant first. *)
Fixpoint le_val (bs : list Z) : Z :=
  match bs with [] => 0 | b :: bs => b + 256 * le_val bs end.

(** The [k]-byte word at byte position [p]. *)
Definition rd_word {k : nat} (buf : list Z) (p : Z) : res Z :=
  if (0 <=? p) && (p + Z.of_nat k <=? zlen buf)
  then Ok (le_val (take k (drop (Z.to_nat p) buf))) else Fault FOob.
Arguments rd_word k buf p : clear implicits.

(** The [k] bytes of a word. *)
Fixpoint le_bytes (k : nat) (w : Z) : list Z :=
  match k with O => [] | S k => w mod 256 :: le_bytes k (w / 256) end.

Definition wr_word (k : nat) (buf : list Z) (p w : Z) : res (list Z) :=
  if (0 <=? p) && (p + Z.of_nat k <=? zlen buf)
  then Ok (take (Z.to_nat p) buf ++ le_bytes k w ++ drop (Z.to_nat p + k) buf) else Fault FWrite.

Lemma length_le_bytes k w : length (le_bytes k w) = k.
Proof. revert w. induction k as [|k IH]; intros w; simpl; [done|]. by rewrite IH. Qed.

Lemma le_bytes_val bs : Forall is_byte bs -> le_bytes (length bs) (le_val bs) = bs.
Proof.
  induction 1 as [|b bs Hb Hbs IH]; [done|]. cbn [le_val length le_bytes]. unfold is_byte in Hb.
  replace ((b + 256 * le_val bs) mod 256) with b by dlia.
  replace ((b + 256 * le_val bs) / 256) with (le_val bs) by dlia. by rewrite IH.
Qed.

Lemma le_val_bytes k w : 0 <= w < 256 ^ Z.of_nat k -> le_val (le_bytes k w) = w.
Proof.
  revert w. induction k as [|k IH]; intros w Hw; [simpl in *; lia|].
  rewrite Nat2Z.inj_succ, Z.pow_succ_r in Hw by lia. cbn [le_bytes le_val].
  rewrite IH; [dlia|]. split; [apply Z.div_pos; lia|]. apply Z.div_lt_upper_bound; lia.
Qed.

Lemma le_val_bound bs : Forall is_byte bs -> 0 <= le_val bs < 256 ^ zlen bs.
Proof.
  induction 1 as [|b bs Hb Hbs IH]; [simpl; lia|]. cbn [le_val length].
  rewrite Nat2Z.inj_succ, Z.pow_succ_r by lia. unfold is_byte in Hb. lia.
Qed.

Lemma le_val_zero bs : Forall is_byte bs -> le_val bs = 0 <-> Forall (eq 0) bs.
Proof.
  induction 1 as [|b bs Hb Hbs IH]; [done|]. cbn [le_val].
  pose proof (le_val_bound bs Hbs). unfold is_byte in Hb. rewrite Forall_cons_iff, <- IH. lia.
Qed.

(** Bitwise operations on words act byte by byte. *)
Lemma testbit_byte_cons b w i :
  is_byte b -> 0 <= i ->
  Z.testbit (b + 256 * w) i = if i <? 8 then Z.testbit b i else Z.testbit w (i - 8).
Proof.
  unfold is_byte. intros Hb Hi. change 256 with (2 ^ 8) in *.
  rewrite (Z.mul_comm _ w), <- lor_low_high, Z.lor_spec by lia.
  destruct (Z.ltb_spec i 8).
  - by rewrite (Z.mul_pow2_bits_low w 8 i), orb_false_r by lia.
  - by rewrite (testbit_small b 8 i), Z.mul_pow2_bits by lia.
Qed.

Lemma lxor_byte a b : is_byte a -> is_byte b -> is_byte (Z.lxor a b).
Proof. unfold is_byte. change 256 with (2 ^ 8). auto with bits. Qed.

Lemma land_byte a b : is_byte a -> is_byte (Z.land a b).
Proof. unfold is_byte. change 256 with (2 ^ 8). auto with bits. Qed.

Lemma lxor_le_cons a b v w :
  is_byte a -> is_byte b ->
  Z.lxor (a + 256 * v) (b + 256 * w) = Z.lxor a b + 256 * Z.lxor v w.
Proof.
  intros Ha Hb. apply Z.bits_inj'. intros i Hi.
  rewrite testbit_byte_cons by auto using lxor_byte.
  rewrite !Z.lxor_spec, !testbit_byte_cons by done. by destruct (i <? 8).
Qed.

Lemma land_le_cons a b v w :
  is_byte a -> is_byte b ->
  Z.land (a + 256 * v) (b + 256 * w) = Z.land a b + 256 * Z.land v w.
Proof.
  intros Ha Hb. apply Z.bits_inj'. intros i Hi.
  rewrite testbit_byte_cons by auto using land_byte.
  rewrite !Z.land_spec, !testbit_byte_cons by done. by destruct (i <? 8).
Qed.

Lemma lxor_le_val k l :
  Forall is_byte k -> Forall is_byte l -> length k = length l ->
  Z.lxor (le_val k) (le_val l) = le_val (zip_with Z.lxor k l).
Proof.
  intros Hk. revert l. induction Hk as [|a k Ha Hk IH]; intros [|b l] Hl E; try done.
  apply Forall_cons_1 in Hl as [Hb Hl]. injection E as E.
  cbn [le_val zip_with]. by rewrite lxor_le_cons, IH.
Qed.

Lemma land_le_val k l :
  Forall is_byte k -> Forall is_byte l -> length k = length l ->
  Z.land (le_val k) (le_val l) = le_val (zip_with Z.land k l).
Proof.
  intros Hk. revert l. induction Hk as [|a k Ha Hk IH]; intros [|b l] Hl E; try done.
  apply Forall_cons_1 in Hl as [Hb Hl]. injection E as E.
  cbn [le_val zip_with]. by rewrite land_le_cons, IH.
Qed.

(** *** Lists given by their cells *)

(** The list of [n] cells whose [j]-th is [f j]. *)
Definition tab {A} (n : nat) (f : nat -> A) : list A := map f (seq 0 n).

Lemma length_tab {A} n (f : nat -> A) : length (tab n f) = n.
Proof. unfold tab. by rewrite length_map, length_seq. Qed.

Lemma nth_tab n (f : nat -> Z) j : nth j (tab n f) 0 = if decide (j < n)%nat then f j else 0.
Proof.
  destruct (decide _).
  - unfold tab. rewrite nth_indep with (d' := f 0%nat) by (rewrite length_map, length_seq; done).
    rewrite map_nth, seq_nth by done. done.
  - apply nth_overflow. rewrite length_tab. lia.
Qed.

Lemma list_eq_nth (k l : list Z) :
  length k = length l -> (forall j, (j < length l)%nat -> nth j k 0 = nth j l 0) -> k = l.
Proof. intros. by apply (nth_ext _ _ 0 0); [|intros; apply H0; lia]. Qed.

Lemma tab_nth (l : list Z) : tab (length l) (fun j => nth j l 0) = l.
Proof.
  apply list_eq_nth; [apply length_tab|]. intros j Hj. rewrite nth_tab. by destruct (decide _).
Qed.

Lemma tab_ext {A} n (f g : nat -> A) : (forall j, (j < n)%nat -> f j = g j) -> tab n f = tab n g.
Proof. intros H. apply map_ext_in. intros j Hj%in_seq. apply H. lia. Qed.

Lemma tab_S {A} n (f : nat -> A) : tab (S n) f = tab n f ++ [f n].
Proof. unfold tab. by rewrite seq_S, map_app. Qed.

Lemma Forall_tab {A} (P : A -> Prop) n (f : nat -> A) : (forall j, (j < n)%nat -> P (f j)) -> Forall P (tab n f).
Proof. intros H. apply Forall_map, Forall_seq. intros j [? ?]. apply H. lia. Qed.

Lemma nth_byte l j : Forall is_byte l -> is_byte (nth j l 0).
Proof.
  intros Hl. destruct (Nat.lt_ge_cases j (length l)) as [H|H].
  - by apply Forall_nth.
  - by rewrite nth_overflow by done.
Qed.

(** [len]: lengths of lists built from others. *)
Create Rewrite HintDb len.
#[export] Hint Rewrite @length_app @length_take @length_drop @length_replicate @length_insert @length_tab @length_map : len.

Ltac len := autorewrite with len in *; cbn [length] in *; lia.

(** A decidable test on a range of integers, for proofs by evaluation. *)
Fixpoint forallZ (f : Z -> bool) (lo : Z) (n : nat) : bool :=
  match n with O => true | S n => f lo && forallZ f (lo + 1) n end.

Lemma forallZ_spec f lo n : forallZ f lo n = true -> forall i, lo <= i < lo + Z.of_nat n -> f i = true.
Proof.
  revert lo. induction n as [|n IH]; intros lo H i Hi; [lia|].
  simpl in H. apply andb_prop in H as [Hlo Hn].
  destruct (decide (i = lo)) as [->|]; [done|]. apply (IH _ Hn). lia.
Qed.

