(* ===== verification/Zle.v ===== *)
(** Zero-length encoding (module/zfs/zle.c): the compressor and the
    decompressor as loops over byte buffers, their memory safety and the
    round trip between them. *)

From S2P Require Import Prelude.

Module Zle.

(** ** The code *)

Section code.
(** Source buffer, source and destination lengths, and the level [n]: the
    largest literal run. *)
Context (s : list Z) (s_len d_len n : Z).

(** The scan over a run of zero bytes, up to [last]. *)
Definition zle_scan (last : Z) : Z -> res Z :=
  loop (S (length s)) (fun src =>
    if src <? Z.min last s_len then
      b ← rd s src;
      Ok (if b =? 0 then inl (src + 1) else inr src)
    else Ok (inr src)).

(** The copy of a literal run: it stops one byte before the limit, or in
    front of two zero bytes. *)
Definition zle_copy (last : Z) : Z * Z * list Z -> res (Z * Z * list Z) :=
  loop (S (length s)) (fun '(src, dst, d) =>
    if src <? Z.min last s_len - 1 then
      a ← rd s src;
      b ← rd s (src + 1);
      if negb (Z.lor a b =? 0) then
        d ← wr d dst a;
        Ok (inl (src + 1, dst + 1, d))
      else Ok (inr (src, dst, d))
    else Ok (inr (src, dst, d))).

Definition zle_compress (d : list Z) : res (Z * list Z) :=
  '(src, dst, d) ← loop (S (length s)) (fun '(src, dst, d) =>
    if (src <? s_len) && (dst <? d_len - 1) then
      let first := src in
      let len := dst in
      let dst := dst + 1 in
      b ← rd s src;
      if b =? 0 then
        src ← zle_scan (src + (256 - n)) src;
        d ← wr d len (u8 (src - first - 1 + n));
        Ok (inl (src, dst, d))
      else if d_len - dst <? n then Ok (inr (src, dst, d))
      else
        '(src, dst, d) ← zle_copy (src + n) (src, dst, d);
        b ← rd s src;
        '(src, dst, d) ← (if negb (b =? 0) then
           d ← wr d dst b; Ok (src + 1, dst + 1, d)
         else Ok (src, dst, d));
        d ← wr d len (u8 (src - first - 1));
        Ok (inl (src, dst, d))
    else Ok (inr (src, dst, d))) (0, 0, d);
  Ok (if src =? s_len then dst else s_len, d).

(** [while (len-- != 0) *dst++ = *src++], with no check against either
    buffer's end. *)
Definition zle_lits_out (len src dst : Z) (d : list Z) : res (Z * Z * list Z) :=
  loop (S (Z.to_nat len)) (fun '(len, src, dst, d) =>
    if len =? 0 then Ok (inr (src, dst, d)) else
    b ← rd s src; d ← wr d dst b;
    Ok (inl (len - 1, src + 1, dst + 1, d))) (len, src, dst, d).

(** [while (len-- != 0) *dst++ = 0], likewise. *)
Definition zle_zeros_out (len dst : Z) (d : list Z) : res (Z * list Z) :=
  loop (S (Z.to_nat len)) (fun '(len, dst, d) =>
    if len =? 0 then Ok (inr (dst, d)) else
    d ← wr d dst 0;
    Ok (inl (len - 1, dst + 1, d))) (len, dst, d).

(** One run; the ends of the buffers are only looked at in between. *)
Definition zle_round (st : Z * Z * list Z) : res (Z * Z * list Z + Z * Z * list Z) :=
  let '(src, dst, d) := st in
  if (src <? s_len) && (dst <? d_len) then
    b ← rd s src;
    let len := 1 + b in
    let src := src + 1 in
    if len <=? n then
      '(src, dst, d) ← zle_lits_out len src dst d;
      Ok (inl (src, dst, d))
    else
      '(dst, d) ← zle_zeros_out (len - n) dst d;
      Ok (inl (src, dst, d))
  else Ok (inr (src, dst, d)).

Definition zle_decompress (d : list Z) : res (Z * list Z) :=
  '(src, dst, d) ← loop (S (length s)) zle_round (0, 0, d);
  Ok (if dst =? d_len then 0 else -1, d).
End code.

(** A small run: five zeros, two literals, at level 64. *)
Example zle_compress_ex :
  zle_compress [0; 0; 0; 0; 0; 7; 9] 7 100 64 (replicate 100 0)
  = Ok (4, [68; 1; 7; 9] ++ replicate 96 0).
Proof. vm_compute. reflexivity. Qed.

(** ** The format: a block is a sequence of chunks *)

Inductive chunk := Zeros (k : nat) | Lits (l : list Z).

Definition dec (c : chunk) : list Z :=
  match c with Zeros k => replicate k 0 | Lits l => l end.

Definition enc (n : Z) (c : chunk) : list Z :=
  match c with
  | Zeros k => [Z.of_nat k - 1 + n]
  | Lits l => (zlen l - 1) :: l
  end.

Definition chunk_ok (n : Z) (c : chunk) : Prop :=
  match c with
  | Zeros k => 1 <= Z.of_nat k <= 256 - n
  | Lits l => 1 <= zlen l <= n
  end.

Lemma dec_length n c : chunk_ok n c -> 1 <= zlen (dec c).
Proof. destruct c; simpl; rewrite ?length_replicate; lia. Qed.

(** ** The compressor emits chunks *)

Section compress.
Context (s : list Z) (d_len n : Z).
Context (Hn : 1 <= n <= 255).

(** The run scanned is a maximal prefix of zeros below the limit. *)
Lemma zle_scan_spec pre rem last :
  s = pre ++ rem -> zlen pre < last ->
  wp (zle_scan s (zlen s) last (zlen pre)) (fun p =>
    exists k rem', p = zlen pre + Z.of_nat k /\ rem = replicate k 0 ++ rem' /\
      p <= last /\ (hd_error rem = Some 0 -> (0 < k)%nat)).
Proof.
  intros Hs Hlast. unfold zle_scan.
  apply (wp_loop (fun p => exists k rem', p = zlen pre + Z.of_nat k /\
           rem = replicate k 0 ++ rem' /\ p <= last)
         (fun p => Z.to_nat (zlen s - p))).
  - intros p (k & rem' & -> & Hrem & Hp). case_if as Hc.
    + subst s. rewrite length_app in Hc.
      destruct rem' as [|b rem']; [rewrite Hrem, app_nil_r, length_replicate in Hc; lia|].
      rewrite Hrem at 1. rewrite app_assoc, rd_app by len.
      simpl. destruct (b =? 0) eqn:Eb; zbool; simpl.
      * subst b. split.
        -- exists (S k), rem'. split_and!; [lia| |lia].
           by rewrite Hrem, replicate_S_end, <- app_assoc.
        -- rewrite !length_app, Hrem, length_app, length_replicate. simpl. lia.
      * exists k, (b :: rem'). split_and!; auto.
        destruct k; [|lia]. subst rem. simpl. congruence.
    + exists k, rem'. split_and!; auto.
      intros Hhd. destruct k; [|lia]. exfalso. subst s rem. simpl in *.
      destruct rem'; [done|]. rewrite length_app in Hc. simpl in Hc. lia.
  - exists 0%nat, rem. split_and!; [lia|done|lia].
  - lia.
Qed.

Lemma zle_copy_spec pre rem o d :
  s = pre ++ rem -> rem <> [] -> zlen o + n <= zlen d ->
  wp (zle_copy s (zlen s) (zlen pre + n) (zlen pre, zlen o, ovr o d)) (fun '(src, dst, d') =>
    exists lit b rem', rem = lit ++ b :: rem' /\ src = zlen pre + zlen lit /\
      dst = zlen o + zlen lit /\ d' = ovr (o ++ lit) d /\ zlen lit <= n - 1).
Proof.
  intros Hs Hne Hcap. unfold zle_copy.
  apply (wp_loop (fun '(src, dst, d') => exists lit b rem',
           rem = lit ++ b :: rem' /\ src = zlen pre + zlen lit /\
           dst = zlen o + zlen lit /\ d' = ovr (o ++ lit) d /\ zlen lit <= n - 1)
         (fun '(src, _, _) => Z.to_nat (zlen s - src))).
  - intros [[src dst] d'] (lit & b & rem' & Hrem & -> & -> & -> & Hlen).
    case_if as Hc; [|by exists lit, b, rem'].
    subst rem. rewrite Hs, !length_app in Hc. simpl in Hc.
    destruct rem' as [|b' rem']; [simpl in Hc; lia|].
    apply wp_bind. rewrite Hs, app_assoc. rewrite rd_app by len. simpl.
    apply wp_bind. rewrite (cons_middle b), app_assoc.
    rewrite rd_app by len. simpl.
    case_if as Hz; [|by exists lit, b, (b' :: rem')].
    replace (zlen o + zlen lit) with (zlen (o ++ lit)) by len.
    rewrite ovr_snoc by len. simpl. split.
    + exists (lit ++ [b]), b', rem'. rewrite !length_app, <- !app_assoc. simpl.
      split_and!; auto; lia.
    + rewrite !length_app. simpl. lia.
  - destruct rem as [|b rem']; [done|]. exists [], b, rem'. rewrite app_nil_r.
    simpl. split_and!; auto; lia.
  - subst s. destruct rem; [done|]. rewrite length_app. simpl. lia.
Qed.

(** What the compressor's main loop maintains: the cells written so far are
    the encoding of the bytes consumed so far. *)
Definition enc_inv (d : list Z) (src dst : Z) (d' : list Z) : Prop :=
  exists cs pre rem out, s = pre ++ rem /\ src = zlen pre /\ pre = cs ≫= dec /\
    out = cs ≫= enc n /\ Forall (chunk_ok n) cs /\ dst = zlen out /\
    d' = ovr out d /\ dst <= d_len.

Lemma enc_inv_step d pre rem out cs c d' :
  s = pre ++ dec c ++ rem -> pre = cs ≫= dec -> out = cs ≫= enc n ->
  Forall (chunk_ok n) cs -> chunk_ok n c ->
  d' = ovr (out ++ enc n c) d -> zlen (out ++ enc n c) <= d_len ->
  enc_inv d (zlen pre + zlen (dec c)) (zlen (out ++ enc n c)) d'.
Proof.
  intros Hs Hpre Hout Hcs Hc Hd' Hlen.
  exists (cs ++ [c]), (pre ++ dec c), rem, (out ++ enc n c).
  rewrite !bind_app, <- Hpre, <- Hout. simpl. rewrite !app_nil_r, !length_app, <- app_assoc.
  split_and!; auto; try lia.
  - apply Forall_app; auto.
  - rewrite length_app in Hlen. lia.
Qed.

Lemma enc_inv_progress d src dst d' : enc_inv d src dst d' -> src <= zlen s.
Proof. intros (cs & pre & rem & out & -> & -> & _). rewrite length_app. lia. Qed.

(** One round of the main loop on a run of zeros. *)
Lemma zle_zeros_round d cs pre rem out :
  s = pre ++ 0 :: rem -> pre = cs ≫= dec -> out = cs ≫= enc n -> Forall (chunk_ok n) cs ->
  zlen out < d_len - 1 -> d_len <= zlen d ->
  wp (src ← zle_scan s (zlen s) (zlen pre + (256 - n)) (zlen pre);
      d' ← wr (ovr out d) (zlen out) (u8 (src - zlen pre - 1 + n));
      Ok (inl (src, zlen out + 1, d')))
    (fun o : Z * Z * list Z + Z * Z * list Z =>
       exists src dst d', o = inl (src, dst, d') /\ enc_inv d src dst d' /\ zlen pre < src).
Proof.
  intros Hs Hpre Hout Hcs Hdst Hd. apply wp_bind.
  eapply wp_mono; [apply (zle_scan_spec pre (0 :: rem)); [done|lia]|].
  intros p (k & rem' & -> & Hrem & Hle & Hk). specialize (Hk eq_refl).
  replace (zlen pre + Z.of_nat k - zlen pre - 1 + n) with (Z.of_nat k - 1 + n) by lia.
  rewrite Z.mod_small by lia. rewrite ovr_snoc by lia. simpl.
  do 3 eexists; split; [done|]. split; [|lia].
  pose proof (enc_inv_step d pre rem' out cs (Zeros k) (ovr (out ++ [Z.of_nat k - 1 + n]) d)) as H.
  simpl in H. rewrite length_replicate, length_app in H. simpl in H.
  replace (zlen out + 1) with (Z.of_nat (length out + 1)) by lia.
  apply H; auto; [by rewrite Hs, Hrem|lia..].
Qed.

(** One round of the main loop on a literal run. *)
Lemma zle_lits_round d cs pre b0 rem out x :
  s = pre ++ b0 :: rem -> b0 <> 0 -> pre = cs ≫= dec -> out = cs ≫= enc n ->
  Forall (chunk_ok n) cs -> n <= d_len - (zlen out + 1) -> d_len <= zlen d ->
  wp ('(src, dst, d') ← zle_copy s (zlen s) (zlen pre + n) (zlen pre, zlen out + 1, ovr (out ++ [x]) d);
      b ← rd s src;
      '(src, dst, d') ← (if negb (b =? 0) then
           d' ← wr d' dst b; Ok (src + 1, dst + 1, d')
         else Ok (src, dst, d'));
      d' ← wr d' (zlen out) (u8 (src - zlen pre - 1));
      Ok (inl (src, dst, d')))
    (fun o : Z * Z * list Z + Z * Z * list Z =>
       exists src dst d', o = inl (src, dst, d') /\ enc_inv d src dst d' /\ zlen pre < src).
Proof.
  intros Hs Hb0 Hpre Hout Hcs Hroom Hd.
  assert (Hfin : forall lit rem' : list Z, s = pre ++ lit ++ rem' -> 1 <= zlen lit <= n ->
    wp (d' ← wr (ovr (out ++ [x] ++ lit) d) (zlen out) (u8 (zlen pre + zlen lit - zlen pre - 1));
        Ok (inl (zlen pre + zlen lit, zlen out + 1 + zlen lit, d')))
    (fun o : Z * Z * list Z + Z * Z * list Z =>
       exists src dst d', o = inl (src, dst, d') /\ enc_inv d src dst d' /\ zlen pre < src)).
  { intros lit rem' Hs' Hl.
    replace (zlen pre + zlen lit - zlen pre - 1) with (zlen lit - 1) by lia.
    rewrite Z.mod_small by lia. simpl. rewrite ovr_patch by done. simpl.
    do 3 eexists; split; [done|]. split; [|lia].
    pose proof (enc_inv_step d pre rem' out cs (Lits lit) (ovr (out ++ (zlen lit - 1) :: lit) d)) as H.
    simpl in H. rewrite length_app in H. simpl in H.
    replace (zlen out + 1 + zlen lit) with (Z.of_nat (length out + S (length lit))) by lia.
    apply H; auto. lia. }
  apply wp_bind. replace (zlen out + 1) with (zlen (out ++ [x])) by len.
  eapply wp_mono.
  { apply (zle_copy_spec pre (b0 :: rem)); auto. rewrite length_app. simpl. lia. }
  intros [[src dst] d'] (lit & b & rem' & Hrem & -> & -> & -> & Hlit).
  assert (Hs' : s = (pre ++ lit) ++ b :: rem') by (by rewrite <- app_assoc, Hs, Hrem).
  apply wp_bind. rewrite Hs' at 1. rewrite rd_app by len. simpl.
  rewrite !length_app. simpl. case_if as Hb.
  - replace (zlen out + zlen [x]) with (zlen (out ++ [x])) by len.
    replace (Z.of_nat (length out + 1) + zlen lit) with (zlen ((out ++ [x]) ++ lit))
      by len.
    rewrite ovr_snoc by len. simpl.
    specialize (Hfin (lit ++ [b]) rem'). rewrite !length_app in Hfin. simpl in Hfin.
    rewrite <- !app_assoc, !length_app. simpl.
    replace (zlen pre + zlen lit + 1) with (zlen pre + Z.of_nat (length lit + 1)) by lia.
    replace (Z.of_nat (length out + S (length lit)) + 1) with
      (zlen out + 1 + Z.of_nat (length lit + 1)) by lia.
    apply Hfin; [by rewrite Hs', <- !app_assoc|lia].
  - simpl. specialize (Hfin lit (b :: rem')).
    replace (Z.of_nat (length out + 1) + zlen lit) with (zlen out + 1 + zlen lit) by lia.
    rewrite <- app_assoc. apply Hfin; [by rewrite Hs', <- app_assoc|].
    destruct lit; [|simpl in *; lia]. simpl in Hrem. congruence.
Qed.

Lemma zle_compress_spec d :
  0 <= d_len <= zlen d ->
  wp (zle_compress s (zlen s) d_len n d) (fun '(ret, d') =>
    (exists out, d' = ovr out d /\ zlen out <= d_len) /\
    (ret = zlen s \/
     exists cs, s = cs ≫= dec /\ Forall (chunk_ok n) cs /\
       d' = ovr (cs ≫= enc n) d /\ ret = zlen (cs ≫= enc n) /\ ret <= d_len)).
Proof.
  intros Hd. unfold zle_compress. apply wp_bind.
  eapply wp_mono with (P := fun '(src, dst, d') => enc_inv d src dst d' \/
    src < zlen s /\ exists out, d' = ovr out d /\ zlen out <= d_len).
  - apply (wp_loop (fun '(src, dst, d') => enc_inv d src dst d')
             (fun '(src, _, _) => Z.to_nat (zlen s - src))).
    + intros [[src dst] d'] Hinv. case_if as Hc; [|by left].
      destruct Hinv as (cs & pre & rem & out & Hs & -> & Hpre & Hout & Hcs & -> & -> & Hle).
      destruct rem as [|b rem]; [rewrite Hs, app_nil_r in *; lia|].
      apply wp_bind. rewrite Hs at 1. rewrite rd_app by done. simpl.
      case_if as Hb; [|case_if as Hroom].
      * subst b. eapply wp_mono; [by eapply zle_zeros_round; eauto; lia|].
        intros o (src & dst & d' & -> & Hinv & ?). split; [done|].
        apply enc_inv_progress in Hinv. lia.
      * right. split; [lia|]. exists out. split; [done|lia].
      * destruct (ovr_reserve out d) as [x ->]; [lia|].
        eapply wp_mono; [by eapply zle_lits_round; eauto; lia|].
        intros o (src & dst & d' & -> & Hinv & ?). split; [done|].
        apply enc_inv_progress in Hinv. lia.
    + exists [], [], s, []. simpl. split_and!; auto; lia.
    + lia.
  - intros [[src dst] d'] [Hinv|[Hsrc Hout]]; simpl.
    + destruct Hinv as (cs & pre & rem & out & Hs & -> & Hpre & Hout & Hcs & -> & -> & Hle).
      split; [by exists out|]. case_if as Heq; [|by left]. right.
      rewrite Hs, length_app in Heq. destruct rem; [|simpl in Heq; lia].
      exists cs. rewrite app_nil_r in Hs. rewrite <- Hout. split_and!; auto. congruence.
    + split; [done|]. case_if as Heq; [lia|by left].
Qed.
End compress.

(** ** The decompressor replays chunks *)

Section decompress.
Context (n : Z) (Hn : 1 <= n <= 255).

Lemma zle_zeros_out_spec o k e :
  zlen o + Z.of_nat k <= zlen e ->
  zle_zeros_out (Z.of_nat k) (zlen o) (ovr o e)
  = Ok (zlen o + Z.of_nat k, ovr (o ++ replicate k 0) e).
Proof.
  intros Hroom. unfold zle_zeros_out.
  match goal with |- ?m = Ok ?r => assert (wp m (fun x => x = r)) as H end.
  2: { apply wp_elim in H as (? & -> & ->). done. }
  apply (wp_loop (fun '(len, dst, d) => exists j : nat, len = Z.of_nat k - Z.of_nat j /\
       (j <= k)%nat /\ dst = zlen o + Z.of_nat j /\ d = ovr (o ++ replicate j 0) e)
       (fun '(len, _, _) => Z.to_nat len)).
  - intros [[len dst] d] (j & -> & Hj & -> & ->). case_if as Hz.
    + simpl. by replace k with j by lia.
    + replace (zlen o + Z.of_nat j) with (zlen (o ++ replicate j 0))
        by len.
      rewrite ovr_snoc by len.
      simpl. split; [|lia]. exists (S j).
      rewrite length_app, length_replicate, replicate_S_end, <- app_assoc.
      split_and!; auto; lia.
  - exists 0%nat. rewrite app_nil_r. split_and!; auto; lia.
  - lia.
Qed.

Lemma zle_lits_out_spec s pre l post o e :
  s = pre ++ l ++ post -> zlen o + zlen l <= zlen e ->
  zle_lits_out s (zlen l) (zlen pre) (zlen o) (ovr o e)
  = Ok (zlen pre + zlen l, zlen o + zlen l, ovr (o ++ l) e).
Proof.
  intros Hs Hroom. unfold zle_lits_out.
  match goal with |- ?m = Ok ?r => assert (wp m (fun x => x = r)) as H end.
  2: { apply wp_elim in H as (? & -> & ->). done. }
  apply (wp_loop (fun '(len, src, dst, d) => exists l1 l2, l = l1 ++ l2 /\
       len = zlen l2 /\ src = zlen pre + zlen l1 /\ dst = zlen o + zlen l1 /\
       d = ovr (o ++ l1) e) (fun '(len, _, _, _) => Z.to_nat len)).
  - intros [[[len src] dst] d] (l1 & l2 & -> & -> & -> & -> & ->). case_if as Hz.
    + destruct l2; [|simpl in Hz; lia]. by rewrite app_nil_r.
    + destruct l2 as [|b l2]; [simpl in Hz; lia|]. apply wp_bind.
      replace s with ((pre ++ l1) ++ b :: l2 ++ post) by (by rewrite Hs, <- !app_assoc).
      rewrite rd_app by len. simpl.
      rewrite length_app in Hroom. simpl in Hroom.
      replace (zlen o + zlen l1) with (zlen (o ++ l1)) by len.
      rewrite ovr_snoc by len. simpl. split; [|lia].
      exists (l1 ++ [b]), l2. rewrite !length_app, <- !app_assoc. simpl.
      split_and!; auto; lia.
  - exists [], l. rewrite app_nil_r. simpl. split_and!; auto; lia.
  - lia.
Qed.

(** One round of the decompressor replays one chunk. *)
Lemma zle_round_chunk s pre c post o e : s = pre ++ enc n c ++ post -> chunk_ok n c -> zlen o + zlen (dec c) <= zlen e ->
  zle_round s (zlen s) (zlen e) n (zlen pre, zlen o, ovr o e) = Ok (inl (zlen (pre ++ enc n c), zlen (o ++ dec c), ovr (o ++ dec c) e)).
Proof using Hn.
  intros Hs Hok Hroom. apply dec_length in Hok as Hdec. assert (Hlen : zlen pre < zlen s) by (rewrite Hs, !length_app; destruct c; simpl; lia).
  unfold zle_round. rewrite (proj2 (Z.ltb_lt (zlen pre) _)), (proj2 (Z.ltb_lt (zlen o) _)) by lia. cbn [andb]. rewrite !length_app.
  destruct c as [k|l]; simpl in *.
  - rewrite Hs at 1. rewrite rd_app by done. simpl. rewrite (proj2 (Z.leb_gt _ n)) by lia. replace (1 + (Z.of_nat k - 1 + n) - n) with (Z.of_nat k) by lia.
    rewrite length_replicate in *. rewrite zle_zeros_out_spec by lia. simpl. repeat f_equal; lia.
  - rewrite Hs at 1. rewrite rd_app by done. simpl. rewrite (proj2 (Z.leb_le _ n)) by lia. replace (1 + (zlen l - 1)) with (zlen l) by lia.
    replace (zlen pre + 1) with (zlen (pre ++ [zlen l - 1])) by len. rewrite (zle_lits_out_spec s _ l post) by (rewrite ?Hs, <- ?app_assoc; simpl; done || lia).
    simpl. rewrite length_app. simpl. repeat f_equal; lia.
Qed.

Lemma enc_length cs : Forall (chunk_ok n) cs -> zlen cs <= zlen (cs ≫= enc n).
Proof. induction 1 as [|c l Hc _ IH]; [done|]. change ((c :: l) ≫= enc n) with (enc n c ++ (l ≫= enc n)). rewrite length_app. assert (1 <= zlen (enc n c)) by (destruct c; simpl; lia). cbn [length]. lia. Qed.

(** The rounds of the chunks [cs], which leave room in the destination. *)
Lemma zle_rounds s post cs e : forall pre o fuel, s = pre ++ (cs ≫= enc n) ++ post -> Forall (chunk_ok n) cs -> zlen (o ++ (cs ≫= dec)) <= zlen e ->
  loop (length cs + fuel) (zle_round s (zlen s) (zlen e) n) (zlen pre, zlen o, ovr o e) =
  loop fuel (zle_round s (zlen s) (zlen e) n) (zlen (pre ++ (cs ≫= enc n)), zlen (o ++ (cs ≫= dec)), ovr (o ++ (cs ≫= dec)) e).
Proof using Hn.
  induction cs as [|c cs IH]; intros pre o fuel Hs Hcs Hroom; [cbn [length Nat.add]; by rewrite !app_nil_r|]. apply Forall_cons_1 in Hcs as [Hc Hcs].
  change ((c :: cs) ≫= enc n) with (enc n c ++ (cs ≫= enc n)) in *. change ((c :: cs) ≫= dec) with (dec c ++ (cs ≫= dec)) in *. change (length (c :: cs) + fuel)%nat with (S (length cs + fuel)).
  rewrite !app_assoc in Hroom |- *. assert (Hr : zlen (o ++ dec c) <= zlen e) by (rewrite length_app in Hroom; lia).
  erewrite loop_next; [|apply (zle_round_chunk s pre c ((cs ≫= enc n) ++ post) o e); [by rewrite Hs, <- !app_assoc|done|rewrite length_app in Hr; lia]].
  rewrite (IH (pre ++ enc n c) (o ++ dec c)) by (done || by rewrite Hs, <- !app_assoc). by rewrite <- !app_assoc.
Qed.

(** Runs of zeros and of literals that do not fit. *)
Lemma zle_zeros_over e : forall (k : nat) o, zlen o <= zlen e < zlen o + Z.of_nat k -> zle_zeros_out (Z.of_nat k) (zlen o) (ovr o e) = Fault FWrite.
Proof.
  unfold zle_zeros_out. intros k. rewrite Nat2Z.id. induction k as [|k IH]; intros o Ho; [lia|]. destruct (decide (zlen o = zlen e)) as [E|E].
  - apply loop_fault. cbn -[wr]. unfold wr. by rewrite length_ovr, (proj2 (Z.ltb_ge _ _)), andb_false_r by lia.
  - erewrite loop_next; [|rewrite (proj2 (Z.eqb_neq _ 0)), ovr_snoc by lia; reflexivity]. replace (Z.of_nat (S k) - 1) with (Z.of_nat k) by lia. replace (zlen o + 1) with (zlen (o ++ [0])) by len.
    apply IH. rewrite length_app. cbn. lia.
Qed.

Lemma zle_lits_over s e post : forall l pre o, s = pre ++ l ++ post -> zlen o <= zlen e < zlen o + zlen l -> zle_lits_out s (zlen l) (zlen pre) (zlen o) (ovr o e) = Fault FWrite.
Proof.
  unfold zle_lits_out. intros l. rewrite Nat2Z.id. induction l as [|b l IH]; intros pre o Hs Ho; [cbn in Ho; lia|]. cbn [length] in Ho |- *.
  assert (Hb : rd s (zlen pre) = Ok b) by (rewrite Hs; by apply rd_app). destruct (decide (zlen o = zlen e)) as [E|E].
  - apply loop_fault. rewrite (proj2 (Z.eqb_neq _ 0)), Hb by lia. cbn -[wr]. unfold wr. by rewrite length_ovr, (proj2 (Z.ltb_ge (zlen o) _)), andb_false_r by lia.
  - erewrite loop_next; [|rewrite (proj2 (Z.eqb_neq _ 0)), Hb by lia; cbn -[wr]; rewrite ovr_snoc by lia; reflexivity]. replace (Z.of_nat (S (length l)) - 1) with (zlen l) by lia.
    replace (zlen o + 1) with (zlen (o ++ [b])) by len. replace (zlen pre + 1) with (zlen (pre ++ [b])) by len. apply IH; [by rewrite Hs, <- app_assoc|rewrite length_app; cbn; lia].
Qed.

(** A run of literals that is longer than what is left of the source. *)
Lemma zle_lits_short s e len : forall l pre o, s = pre ++ l -> zlen l < len -> zlen o + zlen l <= zlen e -> zle_lits_out s len (zlen pre) (zlen o) (ovr o e) = Fault FOob.
Proof.
  unfold zle_lits_out. intros l pre o Hs Hl Ho. remember (Z.to_nat len) as k eqn:Ek. assert (Hk : len = Z.of_nat k) by lia. clear Ek. revert len l pre o Hk Hs Hl Ho.
  induction k as [|k IH]; intros len l pre o -> Hs Hl Ho; [lia|]. destruct l as [|b l].
  - apply loop_fault. rewrite (proj2 (Z.eqb_neq _ 0)) by lia. rewrite Hs, app_nil_r. unfold rd. by rewrite (proj2 (Z.leb_le 0 _)), Nat2Z.id, lookup_ge_None_2 by lia.
  - cbn [length] in Hl, Ho. erewrite loop_next; [|rewrite (proj2 (Z.eqb_neq _ 0)) by lia; rewrite Hs at 1; rewrite rd_app by done; cbn -[wr]; rewrite ovr_snoc by lia; reflexivity].
    replace (zlen o + 1) with (zlen (o ++ [b])) by len. replace (zlen pre + 1) with (zlen (pre ++ [b])) by len. apply (IH _ l); [lia|by rewrite Hs, <- app_assoc|lia|rewrite length_app; cbn; lia].
Qed.

(** A block that starts with the encoding of the chunks [cs] decodes to
    their bytes, whatever follows it. *)
Lemma zle_decompress_spec cs pad e :
  Forall (chunk_ok n) cs -> zlen e = zlen (cs ≫= dec) ->
  let s := (cs ≫= enc n) ++ pad in
  zle_decompress s (zlen s) (zlen e) n e = Ok (0, cs ≫= dec).
Proof.
  intros Hcs He s. unfold zle_decompress. pose proof (enc_length cs Hcs) as Hlen. assert (Hf : S (length s) = (length cs + S (length s - length cs))%nat) by (unfold s; rewrite length_app; lia).
  rewrite Hf. pose proof (zle_rounds s pad cs e [] [] (S (length s - length cs)) eq_refl Hcs) as Hr. cbn [app length] in Hr. change (ovr [] e) with e in Hr. change (Z.of_nat 0) with 0 in Hr. rewrite Hr by lia. clear Hr.
  rewrite <- He. cbn [loop zle_round]. rewrite Z.ltb_irrefl, andb_false_r. cbn. rewrite Z.eqb_refl. unfold ovr. rewrite drop_ge by lia. by rewrite app_nil_r.
Qed.

(** A fault in the round after the chunks [cs]. *)
Lemma zle_faults cs e s post f : s = (cs ≫= enc n) ++ post -> Forall (chunk_ok n) cs -> zlen (cs ≫= dec) <= zlen e -> post <> [] ->
  zle_round s (zlen s) (zlen e) n (zlen (cs ≫= enc n), zlen (cs ≫= dec), ovr (cs ≫= dec) e) = Fault f -> zle_decompress s (zlen s) (zlen e) n e = Fault f.
Proof using Hn.
  intros Hs Hcs Hroom Hne Hf. unfold zle_decompress. pose proof (enc_length cs Hcs) as Hl. assert (Ef : S (length s) = (length cs + S (length s - length cs))%nat) by (rewrite Hs, length_app; lia).
  rewrite Ef. pose proof (zle_rounds s post cs e [] [] (S (length s - length cs)) Hs Hcs Hroom) as Hr. cbn [app length] in Hr. change (ovr [] e) with e in Hr. change (Z.of_nat 0) with 0 in Hr. rewrite Hr. by erewrite loop_fault by exact Hf.
Qed.
End decompress.

(** ** Properties *)

(** C28: for every source block, destination buffer and level between 1 and
    255, [zle_compress] returns without reading or writing out of bounds, leaves
    the destination beyond [d_len] alone, and either gives up by returning the
    source length or returns a length within [d_len] whose bytes, followed by
    any padding, [zle_decompress] turns back into the source. *)
Theorem zle_roundtrip s d d_len n :
  1 <= n <= 255 -> 0 <= d_len <= zlen d ->
  exists ret d', zle_compress s (zlen s) d_len n d = Ok (ret, d') /\
    length d' = length d /\ drop (Z.to_nat d_len) d' = drop (Z.to_nat d_len) d /\
    (ret = zlen s \/
     0 < ret <= d_len /\ forall pad e, zlen e = zlen s ->
       let c := take (Z.to_nat ret) d' ++ pad in
       zle_decompress c (zlen c) (zlen e) n e = Ok (0, s)).
Proof.
  intros Hn Hd. destruct (wp_elim _ _ (zle_compress_spec s d_len n Hn d Hd))
    as ([ret d'] & Hrun & (out & -> & Hout) & Hcase).
  exists ret, (ovr out d). split_and!; auto.
  - apply length_ovr. lia.
  - apply drop_ovr. lia.
  - destruct Hcase as [->|(cs & Hs & Hcs & -> & -> & Hret)]; [by left|].
    destruct cs as [|c cs]; [by left; rewrite Hs|right].
    split; [destruct c; simpl in *; lia|]. intros pad e He. rewrite Nat2Z.id, take_ovr.
    rewrite Hs in He |- *. by apply zle_decompress_spec.
Qed.

Lemma zle_roundtrip_witness :
  let s := replicate 70 0 ++ [5; 6] in
  exists ret d', zle_compress s 72 70 64 (replicate 80 1) = Ok (ret, d') /\
    length d' = 80%nat /\ drop 70 d' = replicate 10 1 /\
    (ret = 72 \/
     0 < ret <= 70 /\ forall pad e, zlen e = 72 ->
       let c := take (Z.to_nat ret) d' ++ pad in
       zle_decompress c (zlen c) (zlen e) 64 e = Ok (0, s)).
Proof. apply (zle_roundtrip (replicate 70 0 ++ [5; 6]) (replicate 80 1) 70 64); simpl; lia. Defined.

(** C37: [zle_decompress] trusts the run lengths in the block, because it looks at the
    ends of the buffers only between runs.  After any well-formed beginning [cs] of a
    block that leaves room in the destination, a run that is longer than this room is
    written past the end of the destination; and a literal run that is longer than what
    is left of the block, where the destination has room for it, is read past the end of
    the source. *)
Theorem zle_decompress_overrun n cs e : 1 <= n <= 255 -> Forall (chunk_ok n) cs -> zlen (cs ≫= dec) < zlen e ->
  (forall c pad, chunk_ok n c -> zlen e < zlen (cs ≫= dec) + zlen (dec c) -> let s := (cs ≫= enc n) ++ enc n c ++ pad in zle_decompress s (zlen s) (zlen e) n e = Fault FWrite) /\
  (forall b l, 0 <= b < n -> zlen l < 1 + b -> zlen (cs ≫= dec) + zlen l <= zlen e -> let s := (cs ≫= enc n) ++ b :: l in zle_decompress s (zlen s) (zlen e) n e = Fault FOob).
Proof.
  intros Hn Hcs He. split.
  - intros c pad Hc Hover s. apply (zle_faults n Hn cs e s (enc n c ++ pad) FWrite); [done|done|lia|destruct c; done|].
    unfold zle_round. rewrite (proj2 (Z.ltb_lt (zlen (cs ≫= enc n)) _)), (proj2 (Z.ltb_lt (zlen (cs ≫= dec)) _)) by (unfold s; rewrite ?length_app; destruct c; simpl; lia). cbn [andb].
    destruct c as [k|l]; simpl in Hc, Hover; unfold s; simpl enc; rewrite <- app_comm_cons, rd_app by done; rewrite bind_Ok; cbv zeta.
    + rewrite length_replicate in Hover. rewrite (proj2 (Z.leb_gt _ n)) by lia. replace (1 + (Z.of_nat k - 1 + n) - n) with (Z.of_nat k) by lia. by rewrite zle_zeros_over by lia.
    + rewrite (proj2 (Z.leb_le _ n)) by lia. replace (1 + (zlen l - 1)) with (zlen l) by lia. replace (zlen (cs ≫= enc n) + 1) with (zlen ((cs ≫= enc n) ++ [zlen l - 1])) by len.
      by rewrite (zle_lits_over _ e pad) by (rewrite <- ?app_assoc; done || lia).
  - intros b l Hb Hl Hroom s. apply (zle_faults n Hn cs e s (b :: l) FOob); [done|done|lia|done|].
    unfold zle_round. rewrite (proj2 (Z.ltb_lt (zlen (cs ≫= enc n)) _)), (proj2 (Z.ltb_lt (zlen (cs ≫= dec)) _)) by (unfold s; rewrite ?length_app; simpl; lia). cbn [andb].
    unfold s. rewrite rd_app, bind_Ok by done. cbv zeta. rewrite (proj2 (Z.leb_le _ n)) by lia. replace (zlen (cs ≫= enc n) + 1) with (zlen ((cs ≫= enc n) ++ [b])) by len.
    by rewrite (zle_lits_short _ e _ l) by (rewrite <- ?app_assoc; done || lia).
Qed.

Lemma zle_decompress_overrun_witness : zle_decompress [64; 1; 7; 9; 255; 5] 6 5 64 (replicate 5 1) = Fault FWrite /\ zle_decompress [64; 1; 7; 9; 3; 8] 6 8 64 (replicate 8 1) = Fault FOob.
Proof.
  split.
  - apply (proj1 (zle_decompress_overrun 64 [Zeros 1; Lits [7; 9]] (replicate 5 1) ltac:(lia) ltac:(repeat constructor; simpl; lia) ltac:(simpl; lia)) (Zeros 192) [5]); simpl; lia.
  - apply (proj2 (zle_decompress_overrun 64 [Zeros 1; Lits [7; 9]] (replicate 8 1) ltac:(lia) ltac:(repeat constructor; simpl; lia) ltac:(simpl; lia)) 3 [8]); simpl; lia.
Defined.
End Zle.
