(* ===== verification/Lzjb.v ===== *)
(** LZJB (module/zfs/lzjb.c): the compressor with its hash table and the
    decompressor as loops over byte buffers, their memory safety and the round
    trip between them. *)

From S2P Require Import Prelude.

Module Lzjb.

Definition NBBY : Z := 8.
Definition MATCH_BITS : Z := 6.
Definition MATCH_MIN : Z := 3.
Definition MATCH_MAX : Z := Z.shiftl 1 MATCH_BITS + (MATCH_MIN - 1).
Definition OFFSET_MASK : Z := Z.shiftl 1 (16 - MATCH_BITS) - 1.
Definition LEMPEL_SIZE : Z := 1024.

(** ** The code *)

(** The compressor's locals: positions in the two buffers, the destination,
    the position of the current copy map, the mask of the current item in it,
    and the hash table. *)
Record cstate := CState {
  c_src : Z; c_dst : Z; c_d : list Z; c_copymap : Z; c_copymask : Z; c_lempel : list Z
}.

Record dstate := DState {
  d_src : Z; d_dst : Z; d_d : list Z; d_copymap : Z; d_copymask : Z
}.

Section code.
(** [base] is the address of the source buffer, whose low bits go through
    the hash table. *)
Context (base : Z) (s : list Z) (s_len d_len : Z).

(** [for (mlen = MATCH_MIN; mlen < MATCH_MAX; mlen++) if (src[mlen] != cpy[mlen]) break] *)
Definition lzjb_match_len (src cpy : Z) : res Z :=
  loop (S (Z.to_nat MATCH_MAX)) (fun mlen =>
    if mlen <? MATCH_MAX then
      x ← rd s (src + mlen);
      y ← rd s (cpy + mlen);
      Ok (if negb (x =? y) then inr mlen else inl (mlen + 1))
    else Ok (inr mlen)) MATCH_MIN.

Definition lzjb_hash (b0 b1 b2 : Z) : Z :=
  let hash := Z.shiftl b0 16 + Z.shiftl b1 8 + b2 in
  let hash := hash + Z.shiftr hash 9 in
  hash + Z.shiftr hash 5.

(** One item of the current group: a literal or a copy. *)
Definition lzjb_emit (st : cstate) : res cstate :=
  let '(CState src dst d copymap copymask lempel) := st in
  if s_len - MATCH_MAX <? src then
    b ← rd s src;
    d ← wr d dst b;
    Ok (CState (src + 1) (dst + 1) d copymap copymask lempel)
  else
    b0 ← rd s src;
    b1 ← rd s (src + 1);
    b2 ← rd s (src + 2);
    let hp := Z.land (lzjb_hash b0 b1 b2) (LEMPEL_SIZE - 1) in
    h ← rd lempel hp;
    let offset := Z.land (base + src - h) OFFSET_MASK in
    lempel ← wr lempel hp (u16 (base + src));
    let cpy := src - offset in
    m ← (if (0 <=? cpy) && negb (cpy =? src) then
           c0 ← rd s cpy;
           c1 ← rd s (cpy + 1);
           c2 ← rd s (cpy + 2);
           Ok ((b0 =? c0) && (b1 =? c1) && (b2 =? c2))
         else Ok false);
    if (m : bool) then
      v ← rd d copymap;
      d ← wr d copymap (u8 (Z.lor v copymask));
      mlen ← lzjb_match_len src cpy;
      d ← wr d dst (u8 (Z.lor (Z.shiftl (mlen - MATCH_MIN) (NBBY - MATCH_BITS))
                              (Z.shiftr offset NBBY)));
      d ← wr d (dst + 1) (u8 offset);
      Ok (CState (src + mlen) (dst + 2) d copymap copymask lempel)
    else
      d ← wr d dst b0;
      Ok (CState (src + 1) (dst + 1) d copymap copymask lempel).

Definition lzjb_compress_body (st : cstate) : res (cstate + Z * list Z) :=
  let '(CState src dst d copymap copymask lempel) := st in
  if src <? s_len then
    let copymask := Z.shiftl copymask 1 in
    if copymask =? Z.shiftl 1 NBBY then
      if d_len - 1 - 2 * NBBY <=? dst then Ok (inr (s_len, d))
      else
        d' ← wr d dst 0;
        st ← lzjb_emit (CState src (dst + 1) d' dst 1 lempel);
        Ok (inl st)
    else
      st ← lzjb_emit (CState src dst d copymap copymask lempel);
      Ok (inl st)
  else Ok (inr (dst, d)).

(** [copymap] is NULL until the first group: position -1. *)
Definition lzjb_compress (d : list Z) : res (Z * list Z) :=
  loop (S (length s)) lzjb_compress_body
    (CState 0 0 d (-1) (Z.shiftl 1 (NBBY - 1)) (replicate (Z.to_nat LEMPEL_SIZE) 0)).

(** [while (--mlen >= 0 && dst < d_end) *dst++ = *cpy++]; the copy reads the
    destination, and may read what it has just written. *)
Definition lzjb_copy_out (mlen dst cpy : Z) (d : list Z) : res (Z * list Z) :=
  loop (S (Z.to_nat mlen)) (fun '(mlen, dst, cpy, d) =>
    let mlen := mlen - 1 in
    if (0 <=? mlen) && (dst <? d_len) then
      b ← rd d cpy;
      d ← wr d dst b;
      Ok (inl (mlen, dst + 1, cpy + 1, d))
    else Ok (inr (dst, d))) (mlen, dst, cpy, d).

(** One item: [inr] is the early [return (-1)]. *)
Definition lzjb_item (st : dstate) : res (dstate + Z * list Z) :=
  let '(DState src dst d copymap copymask) := st in
  if negb (Z.land copymap copymask =? 0) then
    b0 ← rd s src;
    b1 ← rd s (src + 1);
    let mlen := Z.shiftr b0 (NBBY - MATCH_BITS) + MATCH_MIN in
    let offset := Z.land (Z.lor (Z.shiftl b0 NBBY) b1) OFFSET_MASK in
    let src := src + 2 in
    let cpy := dst - offset in
    if cpy <? 0 then Ok (inr (-1, d))
    else
      '(dst, d) ← lzjb_copy_out mlen dst cpy d;
      Ok (inl (DState src dst d copymap copymask))
  else
    b ← rd s src;
    d ← wr d dst b;
    Ok (inl (DState (src + 1) (dst + 1) d copymap copymask)).

Definition lzjb_decompress_body (st : dstate) : res (dstate + Z * list Z) :=
  let '(DState src dst d copymap copymask) := st in
  if dst <? d_len then
    let copymask := Z.shiftl copymask 1 in
    if copymask =? Z.shiftl 1 NBBY then
      copymap ← rd s src;
      lzjb_item (DState (src + 1) dst d copymap 1)
    else lzjb_item (DState src dst d copymap copymask)
  else Ok (inr (0, d)).

Definition lzjb_decompress (d : list Z) : res (Z * list Z) :=
  loop (S (length d)) lzjb_decompress_body
    (DState 0 0 d 0 (Z.shiftl 1 (NBBY - 1))).
End code.

(** A periodic block: the repetition becomes copies. *)
Example lzjb_ex :
  let src := concat (replicate 40 [1; 2; 3]) in
  match lzjb_compress 4096 src 120 105 (replicate 120 0) with
  | Ok (ret, d) => ret = 63 /\ lzjb_decompress (take 63 d) 120 (replicate 120 9) = Ok (0, src)
  | _ => False
  end.
Proof. vm_compute. split; reflexivity. Qed.

(** ** The format

    A block is a sequence of groups of up to eight items, each group led by a
    byte whose bit [i] tells whether item [i] is a copy. *)
Inductive item := Lit (b : Z) | Cpy (off len : Z).

Definition is_cpy (it : item) : bool := match it with Lit _ => false | Cpy _ _ => true end.

Definition item_enc (it : item) : list Z :=
  match it with
  | Lit b => [b]
  | Cpy off len => [(len - 3) * 4 + off / 256; off mod 256]
  end.

Fixpoint map_byte (g : list item) : Z :=
  match g with
  | [] => 0
  | it :: g => (if is_cpy it then 1 else 0) + 2 * map_byte g
  end.

Definition group_enc (g : list item) : list Z := map_byte g :: (g ≫= item_enc).

(** A copy appends [len] bytes, each read [off] positions back. *)
Fixpoint copy_back (h : list Z) (off : Z) (len : nat) : list Z :=
  match len with
  | O => h
  | S len => copy_back (h ++ [default 0 (h !! Z.to_nat (zlen h - off))]) off len
  end.

Definition item_run (h : list Z) (it : item) : list Z :=
  match it with
  | Lit b => h ++ [b]
  | Cpy off len => copy_back h off (Z.to_nat len)
  end.

Definition item_ok (h : list Z) (it : item) : Prop :=
  match it with
  | Lit _ => True
  | Cpy off len => 1 <= off <= zlen h /\ off < 1024 /\ 3 <= len <= 66
  end.

(** Valid item sequences from history [h], with the history they produce. *)
Inductive items_run : list Z -> list item -> list Z -> Prop :=
| run_nil h : items_run h [] h
| run_cons h it its h' :
    item_ok h it -> items_run (item_run h it) its h' -> items_run h (it :: its) h'.

(** *** Facts about the format *)

Lemma items_run_app h its1 h1 its2 h2 :
  items_run h its1 h1 -> items_run h1 its2 h2 -> items_run h (its1 ++ its2) h2.
Proof. induction 1; simpl; eauto using items_run. Qed.

Lemma items_run_app_inv h its1 its2 h2 :
  items_run h (its1 ++ its2) h2 -> exists h1, items_run h its1 h1 /\ items_run h1 its2 h2.
Proof.
  revert h. induction its1 as [|it its1 IH]; simpl; intros h Hr; [eauto using items_run|].
  inversion Hr; subst. edestruct IH as (h1 & ? & ?); eauto using items_run.
Qed.

Lemma length_copy_back h off len : length (copy_back h off len) = (length h + len)%nat.
Proof. revert h. induction len; intros h; simpl; [lia|]. rewrite IHlen, length_app. simpl. lia. Qed.

Lemma copy_back_prefix h off len : exists t, copy_back h off len = h ++ t.
Proof.
  revert h. induction len as [|len IH]; intros h; simpl; [exists []; by rewrite app_nil_r|].
  destruct (IH (h ++ [default 0 (h !! Z.to_nat (zlen h - off))])) as [t ->].
  rewrite <- app_assoc. eauto.
Qed.

Lemma item_run_longer h it : item_ok h it -> zlen h < zlen (item_run h it).
Proof.
  destruct it; simpl; intros Hok; [rewrite length_app; simpl; lia|].
  rewrite length_copy_back. lia.
Qed.

Lemma items_run_longer h its h' : items_run h its h' -> zlen h + zlen its <= zlen h'.
Proof.
  induction 1 as [|h it its h' Hok Hr IH]; simpl; [lia|].
  apply item_run_longer in Hok. lia.
Qed.

Lemma map_byte_bound g : 0 <= map_byte g < 2 ^ zlen g.
Proof.
  induction g as [|it g IH]; [simpl; lia|]. cbn [map_byte length].
  rewrite Nat2Z.inj_succ, Z.pow_succ_r by lia. destruct (is_cpy it); lia.
Qed.

Lemma map_byte_testbit g1 it g2 :
  Z.testbit (map_byte (g1 ++ it :: g2)) (zlen g1) = is_cpy it.
Proof.
  induction g1 as [|x g1 IH].
  - cbn [map_byte app length]. change (Z.of_nat 0) with 0.
    rewrite Z.bit0_odd, Z.odd_add_mul_2. by destruct (is_cpy it).
  - cbn [map_byte app length]. rewrite Nat2Z.inj_succ.
    rewrite Z.add_comm. destruct (is_cpy x).
    + rewrite Z.testbit_odd_succ by lia. done.
    + rewrite Z.add_0_r, Z.testbit_even_succ by lia. done.
Qed.

Lemma map_byte_snoc g it :
  map_byte (g ++ [it]) = map_byte g + (if is_cpy it then 2 ^ zlen g else 0).
Proof.
  induction g as [|x g IH]; [simpl; destruct (is_cpy it); lia|].
  cbn [map_byte app length]. rewrite IH, Nat2Z.inj_succ, Z.pow_succ_r by lia.
  destruct (is_cpy it); lia.
Qed.

Lemma map_byte_set g off len :
  Z.lor (map_byte g) (2 ^ zlen g) = map_byte (g ++ [Cpy off len]).
Proof.
  pose proof (map_byte_bound g). rewrite map_byte_snoc. simpl.
  rewrite <- (Z.mul_1_l (2 ^ zlen g)) at 1. rewrite lor_low_high by lia. lia.
Qed.

Lemma map_byte_test g1 it g2 :
  negb (Z.land (map_byte (g1 ++ it :: g2)) (2 ^ zlen g1) =? 0) = is_cpy it.
Proof.
  rewrite <- (map_byte_testbit g1 it g2). set (m := map_byte _).
  destruct (Z.testbit m (zlen g1)) eqn:E.
  - apply negb_true_iff, Z.eqb_neq. intros H0.
    apply (f_equal (fun x => Z.testbit x (zlen g1))) in H0.
    rewrite Z.land_spec, E, Z.pow2_bits_true, Z.bits_0 in H0 by lia. done.
  - apply negb_false_iff, Z.eqb_eq, Z.bits_inj'. intros i Hi.
    rewrite Z.land_spec, Z.bits_0, Z.pow2_bits_eqb by lia.
    destruct (Z.eqb_spec (zlen g1) i); [by subst; rewrite E|by rewrite andb_false_r].
Qed.

(** ** The decompressor replays items *)

Lemma lzjb_copy_out_spec (len : nat) h off e :
  1 <= off <= zlen h -> zlen h + Z.of_nat len <= zlen e ->
  lzjb_copy_out (zlen e) (Z.of_nat len) (zlen h) (zlen h - off) (ovr h e)
  = Ok (zlen h + Z.of_nat len, ovr (copy_back h off len) e).
Proof.
  unfold lzjb_copy_out. rewrite Nat2Z.id.
  revert h. induction len as [|len IH]; intros h Hoff Hroom.
  { cbn [loop]. rewrite (proj2 (Z.leb_gt 0 (Z.of_nat 0 - 1))) by lia. simpl.
    do 2 f_equal. lia. }
  cbn [loop].
  rewrite (proj2 (Z.leb_le 0 (Z.of_nat (S len) - 1))), (proj2 (Z.ltb_lt (zlen h) (zlen e))) by lia.
  destruct (lookup_lt_is_Some_2 h (Z.to_nat (zlen h - off))) as [b Hb]; [lia|].
  rewrite (rd_ovr h e _ b) by (done || lia). cbn.
  rewrite ovr_snoc by lia. cbn.
  replace (Z.of_nat (S len) - 1) with (Z.of_nat len) by lia.
  specialize (IH (h ++ [b])). rewrite length_app in IH. simpl in IH.
  replace (zlen h + 1) with (Z.of_nat (length h + 1)) by lia.
  replace (zlen h - off + 1) with (Z.of_nat (length h + 1) - off) by lia.
  cbn [loop] in IH |- *. rewrite IH by lia. rewrite Hb. simpl. do 2 f_equal. lia.
Qed.

Lemma cpy_fields off len :
  0 <= off < 1024 -> 3 <= len <= 66 ->
  let b0 := (len - 3) * 4 + off / 256 in
  Z.shiftr b0 (NBBY - MATCH_BITS) + MATCH_MIN = len /\
  Z.land (Z.lor (Z.shiftl b0 NBBY) (off mod 256)) OFFSET_MASK = off.
Proof.
  intros Hoff Hlen b0. unfold OFFSET_MASK, NBBY, MATCH_BITS, MATCH_MIN.
  change (Z.shiftl 1 (16 - 6) - 1) with (2 ^ 10 - 1). split.
  - rewrite Z.shiftr_div_pow2 by lia. unfold b0. change (2 ^ (8 - 6)) with 4.
    rewrite Z.div_add_l by lia. rewrite (Z.div_small (off / 256)); [lia|].
    split; [apply Z.div_pos; lia|apply Z.div_lt_upper_bound; lia].
  - rewrite land_pred_pow2, Z.shiftl_mul_pow2, Z.lor_comm by lia.
    rewrite lor_low_high by (try apply Z.mod_pos_bound; lia).
    unfold b0. rewrite Z.mul_add_distr_r, Z.add_comm, <- Z.add_assoc.
    replace ((len - 3) * 4 * 2 ^ 8) with ((len - 3) * 2 ^ 10) by lia.
    rewrite Z.add_comm, Z.mod_add by lia.
    change (2 ^ 8) with 256. rewrite (Z.mul_comm (off / 256)), <- Z.div_mod by lia.
    apply Z.mod_small. lia.
Qed.

Lemma lzjb_item_spec s pre it post h e copymap copymask :
  s = pre ++ item_enc it ++ post -> item_ok h it -> zlen (item_run h it) <= zlen e ->
  negb (Z.land copymap copymask =? 0) = is_cpy it ->
  lzjb_item s (zlen e) (DState (zlen pre) (zlen h) (ovr h e) copymap copymask)
  = Ok (inl (DState (zlen pre + zlen (item_enc it)) (zlen (item_run h it))
               (ovr (item_run h it) e) copymap copymask)).
Proof.
  intros Hs Hok Hroom Hbit. unfold lzjb_item. rewrite Hbit. destruct it as [b|off len]; simpl in *.
  - rewrite Hs, rd_app by done. cbn. rewrite length_app in Hroom. simpl in Hroom.
    rewrite ovr_snoc by lia. cbn. rewrite length_app. simpl. repeat f_equal; lia.
  - destruct Hok as (Hoff & Hoff' & Hlen).
    erewrite wp_bind_Ok; [|rewrite Hs; by apply rd_app].
    erewrite wp_bind_Ok; [|rewrite Hs, (cons_middle _ pre), app_assoc; apply rd_app;
                           rewrite length_app; simpl; lia].
    destruct (cpy_fields off len) as [-> ->]; [lia|lia|].
    rewrite (proj2 (Z.ltb_ge (zlen h - off) 0)) by lia.
    rewrite length_copy_back in Hroom.
    replace len with (Z.of_nat (Z.to_nat len)) at 1 by lia.
    rewrite lzjb_copy_out_spec by lia. cbn. rewrite length_copy_back.
    repeat f_equal; lia.
Qed.

(** Every group is full, except the last. *)
Fixpoint groups_ok (gs : list (list item)) : Prop :=
  match gs with
  | [] => True
  | g :: gs => (1 <= length g <= 8)%nat /\ (gs <> [] -> length g = 8%nat) /\ groups_ok gs
  end.

Lemma groups_ok_app gs1 gs2 :
  groups_ok (gs1 ++ gs2) -> groups_ok gs2.
Proof. induction gs1; simpl; tauto. Qed.

Section decompress.
Context (gs : list (list item)) (pad h e : list Z).
Context (Hgs : groups_ok gs) (Hrun : items_run [] (concat gs) h) (He : zlen e = zlen h).
Let s := (gs ≫= group_enc) ++ pad.

(** The decoder in front of item [length g1] of a group. *)
Definition dec_at (gs1 : list (list item)) (g1 g2 : list item) (gs2 : list (list item))
    (src dst : Z) (d : list Z) : Prop :=
  gs = gs1 ++ (g1 ++ g2) :: gs2 /\
  exists h1, items_run [] (concat gs1 ++ g1) h1 /\ items_run h1 (g2 ++ concat gs2) h /\
    src = zlen ((gs1 ≫= group_enc) ++ map_byte (g1 ++ g2) :: (g1 ≫= item_enc)) /\
    dst = zlen h1 /\ d = ovr h1 e.

Definition dec_inv (st : dstate) : Prop :=
  let '(DState src dst d copymap copymask) := st in
  (copymask = 128 /\ exists gs1 gs2 h1, gs = gs1 ++ gs2 /\
     items_run [] (concat gs1) h1 /\ items_run h1 (concat gs2) h /\
     src = zlen (gs1 ≫= group_enc) /\ dst = zlen h1 /\ d = ovr h1 e) \/
  (exists gs1 g1 g2 gs2, (1 <= length g1 < 8)%nat /\ copymask = 2 ^ (zlen g1 - 1) /\
     copymap = map_byte (g1 ++ g2) /\ dec_at gs1 g1 g2 gs2 src dst d).

Lemma dec_item gs1 g1 it g2 gs2 src dst d :
  (length g1 < 8)%nat -> dec_at gs1 g1 (it :: g2) gs2 src dst d ->
  wp (lzjb_item s (zlen e) (DState src dst d (map_byte (g1 ++ it :: g2)) (2 ^ zlen g1)))
    (fun o => exists st, o = inl st /\ dec_inv st /\ dst < d_dst st <= zlen e).
Proof.
  intros Hlen (Hgs' & h1 & Hrun1 & Hrun2 & -> & -> & ->).
  inversion Hrun2 as [|? ? ? ? Hok Hrun3]; subst. apply item_run_longer in Hok as Hlt.
  apply items_run_longer in Hrun3 as Hle.
  eapply wp_intro.
  { apply (lzjb_item_spec s _ it ((g2 ≫= item_enc) ++ (gs2 ≫= group_enc) ++ pad));
      [|done|lia|apply map_byte_test].
    unfold s. rewrite Hgs', bind_app. simpl. unfold group_enc at 2. rewrite bind_app. simpl.
    rewrite <- !app_assoc. simpl. by rewrite <- !app_assoc. }
  eexists. split; [done|]. split; [|simpl; lia]. unfold dec_inv.
  assert (Hrun1' : items_run [] (concat gs1 ++ g1 ++ [it]) (item_run h1 it)).
  { rewrite app_assoc. eapply items_run_app; [done|]. eauto using items_run. }
  assert (Hsrc : forall m, zlen ((gs1 ≫= group_enc) ++ m :: (g1 ≫= item_enc)) + zlen (item_enc it)
    = zlen ((gs1 ≫= group_enc) ++ m :: ((g1 ++ [it]) ≫= item_enc))).
  { intros m. rewrite bind_app, !length_app. simpl. rewrite !length_app. simpl. lia. }
  rewrite Hsrc. destruct (decide (length g1 = 7%nat)) as [H7|H7].
  - left. rewrite H7. split; [done|].
    rewrite Hgs' in Hgs. apply groups_ok_app in Hgs as [Hg _].
    rewrite length_app in Hg. simpl in Hg. destruct g2; [|simpl in Hg; lia].
    exists (gs1 ++ [g1 ++ [it]]), gs2, (item_run h1 it).
    rewrite concat_app, !bind_app. simpl. rewrite !app_nil_r. simpl in *.
    split_and!; auto; [by rewrite Hgs', <- app_assoc|].
    rewrite bind_app. simpl. by rewrite app_nil_r.
  - right. exists gs1, (g1 ++ [it]), g2, gs2. rewrite length_app. simpl.
    rewrite <- app_assoc. simpl. split_and!; auto; [lia|lia|f_equal; lia|].
    split; [by rewrite Hgs', <- app_assoc|]. exists (item_run h1 it).
    rewrite <- app_assoc. split_and!; auto.
Qed.

(** One round, while the destination is not full. *)
Lemma dec_step st : dec_inv st -> d_dst st < zlen e -> exists st', lzjb_decompress_body s (zlen e) st = Ok (inl st') /\ dec_inv st' /\ d_dst st < d_dst st' <= zlen e.
Proof using Hgs He.
  destruct st as [src dst d copymap copymask]. cbn [d_dst]. intros Hinv Hgo. unfold lzjb_decompress_body. rewrite (proj2 (Z.ltb_lt _ _) Hgo).
  assert (Hout : forall m : res (dstate + Z * list Z), wp m (fun o => exists st, o = inl st /\ dec_inv st /\ dst < d_dst st <= zlen e) -> exists st', m = Ok (inl st') /\ dec_inv st' /\ dst < d_dst st' <= zlen e)
    by (intros m (o & -> & st & -> & H)%wp_elim; by exists st).
  apply Hout. destruct Hinv as [[-> Hb]|Hm].
  - destruct Hb as (gs1 & gs2 & h1 & Hgs' & Hr1 & Hr2 & -> & -> & ->).
    assert (Hgs2 : groups_ok gs2) by (apply (groups_ok_app gs1); by rewrite <- Hgs').
    destruct gs2 as [|g gs2]; [inversion Hr2; subst; lia|].
    destruct Hgs2 as [Hg _]. destruct g as [|it g2]; [simpl in Hg; lia|].
    change (Z.shiftl 128 1 =? Z.shiftl 1 NBBY) with true. cbn iota.
    assert (Hmap : rd s (zlen (gs1 ≫= group_enc)) = Ok (map_byte (it :: g2))).
    { unfold s. rewrite Hgs', bind_app, <- app_assoc. by apply rd_app. }
    erewrite wp_bind_Ok by done. apply (dec_item gs1 [] it g2 gs2); [simpl; lia|].
    split; [done|]. exists h1. rewrite app_nil_r. simpl.
    split_and!; auto. rewrite length_app. simpl. lia.
  - destruct Hm as (gs1 & g1 & g2 & gs2 & Hg1 & -> & -> & Hat).
    assert (Hmask : Z.shiftl (2 ^ (zlen g1 - 1)) 1 = 2 ^ zlen g1).
    { rewrite Z.shiftl_mul_pow2, <- Z.pow_add_r by lia. f_equal. lia. }
    cbv zeta. rewrite Hmask. assert (Hne : 2 ^ zlen g1 <> 2 ^ 8).
    { pose proof (Z.pow_lt_mono_r 2 (zlen g1) 8). lia. }
    change (Z.shiftl 1 NBBY) with (2 ^ 8). rewrite (proj2 (Z.eqb_neq _ _) Hne).
    destruct g2 as [|it g2]; [|eapply dec_item; [lia|exact Hat]].
    exfalso. destruct Hat as (Hgs' & h1 & Hr1 & Hr2 & _ & -> & _).
    assert (Hgs2 : groups_ok ((g1 ++ []) :: gs2)) by (apply (groups_ok_app gs1); by rewrite <- Hgs').
    destruct Hgs2 as (_ & Hfull & _). rewrite app_nil_r in Hfull. destruct gs2; [|specialize (Hfull ltac:(done)); lia].
    inversion Hr2; subst. lia.
Qed.

(** When the destination is full, all items have been replayed and all their bytes read. *)
Lemma dec_end st : dec_inv st -> d_dst st = zlen e -> d_d st = h /\ d_src st = zlen (gs ≫= group_enc).
Proof using Hgs He.
  assert (Hend : forall h1 its, items_run h1 its h -> zlen h1 = zlen e -> its = [] /\ ovr h1 e = h).
  { intros h1 its Hr Hl. apply items_run_longer in Hr as Hlen. destruct its; [|simpl in Hlen; lia]. inversion Hr; subst. split; [done|]. unfold ovr. rewrite drop_ge by lia. by rewrite app_nil_r. }
  assert (Hnil : forall gs2, groups_ok gs2 -> concat gs2 = [] -> gs2 = []) by (intros [|[|it g] gs2]; [done|intros [Hg _]; simpl in Hg; lia|done]).
  destruct st as [src dst d copymap copymask]. cbn [d_dst d_d d_src]. intros [[_ (gs1 & gs2 & h1 & Hgs' & _ & Hr & -> & -> & ->)]|(gs1 & g1 & g2 & gs2 & _ & _ & _ & Hgs' & h1 & _ & Hr & -> & -> & ->)] Hd; destruct (Hend _ _ Hr Hd) as [Hits Hov]; (split; [exact Hov|]).
  - assert (gs2 = []) as -> by (apply Hnil; [apply (groups_ok_app gs1); by rewrite <- Hgs'|done]). by rewrite Hgs', app_nil_r.
  - apply app_eq_nil in Hits as [-> Hc]. assert (gs2 = []) as -> by (apply Hnil; [apply (groups_ok_app (gs1 ++ [g1 ++ []])); rewrite <- app_assoc; cbn [app]; by rewrite <- Hgs'|done]).
    rewrite Hgs', bind_app. simpl. unfold group_enc at 2. by rewrite !app_nil_r.
Qed.

Lemma dec_init : dec_inv (DState 0 0 e 0 (Z.shiftl 1 (NBBY - 1))).
Proof using Hrun. left. split; [done|]. exists [], gs, []. split_and!; auto using items_run. Qed.

Lemma lzjb_decompress_spec : lzjb_decompress s (zlen e) e = Ok (0, h).
Proof using Hgs Hrun He.
  assert (Hwp : wp (lzjb_decompress s (zlen e) e) (fun r => r = (0, h))).
  2: { apply wp_elim in Hwp as (r & -> & ->). done. }
  apply (wp_loop (fun st => dec_inv st /\ d_dst st <= zlen e)
           (fun st => Z.to_nat (zlen e - d_dst st))); [|simpl; split; [apply dec_init|lia]|simpl; lia].
  intros st [Hinv Hle]. destruct (decide (d_dst st = zlen e)) as [E|E].
  - destruct (dec_end st Hinv E) as [Ed _]. destruct st as [src dst d copymap copymask]. cbn [d_dst d_d] in *. unfold lzjb_decompress_body. rewrite (proj2 (Z.ltb_ge _ _)) by lia. cbn. by rewrite Ed.
  - destruct (dec_step st Hinv ltac:(lia)) as (st' & -> & Hst & Hlt). cbn. split; [split; [done|lia]|lia].
Qed.

(** A block that is cut short. *)
Lemma rd_cut (m : nat) i : 0 <= i -> rd (take m s) i = if i <? Z.of_nat m then rd s i else Fault FOob.
Proof. intros Hi. unfold rd. rewrite (proj2 (Z.leb_le 0 i) Hi). destruct (Z.ltb_spec i (Z.of_nat m)); [by rewrite lookup_take_lt by lia|by rewrite lookup_take_ge by lia]. Qed.

Lemma item_cut m st : 0 <= d_src st -> lzjb_item (take m s) (zlen e) st = Fault FOob \/
  (lzjb_item (take m s) (zlen e) st = lzjb_item s (zlen e) st /\ forall st', lzjb_item s (zlen e) st = Ok (inl st') -> 0 <= d_src st' <= Z.of_nat m).
Proof.
  destruct st as [src dst d copymap copymask]. cbn [d_src]. intros Hsrc. unfold lzjb_item. destruct (negb _).
  - rewrite !rd_cut by lia. destruct (Z.ltb_spec src (Z.of_nat m)); [|by left]. destruct (rd s src) as [b0|f]; [|right; split; [done|by intros st'; cbn]]. cbn [mbind res_bind].
    destruct (Z.ltb_spec (src + 1) (Z.of_nat m)); [|by left]. right. split; [done|]. intros st' Hr. binv Hr. cbv zeta in Hr. destruct (_ <? 0); [done|]. binv Hr. destruct a0 as [dst' d']. injection Hr as <-. cbn. lia.
  - rewrite rd_cut by lia. destruct (Z.ltb_spec src (Z.of_nat m)); [|by left]. right. split; [done|]. intros st' H'. binv H'. injection H' as <-. cbn. lia.
Qed.

Lemma body_cut m st : 0 <= d_src st -> lzjb_decompress_body (take m s) (zlen e) st = Fault FOob \/
  (lzjb_decompress_body (take m s) (zlen e) st = lzjb_decompress_body s (zlen e) st /\ forall st', lzjb_decompress_body s (zlen e) st = Ok (inl st') -> 0 <= d_src st' <= Z.of_nat m).
Proof.
  destruct st as [src dst d copymap copymask]. cbn [d_src]. intros Hsrc. unfold lzjb_decompress_body. destruct (dst <? zlen e); [|right; by split]. cbv zeta. destruct (_ =? _); [|by apply item_cut].
  rewrite rd_cut by lia. destruct (Z.ltb_spec src (Z.of_nat m)); [|by left]. destruct (rd s src) as [b|f]; [|right; by split]. cbn [mbind res_bind]. apply item_cut. cbn. lia.
Qed.

Lemma lzjb_cut_short (m : nat) : Z.of_nat m < zlen (gs ≫= group_enc) -> lzjb_decompress (take m s) (zlen e) e = Fault FOob.
Proof using Hgs Hrun He.
  intros Hm. unfold lzjb_decompress. cut (forall fuel st, dec_inv st -> 0 <= d_src st <= Z.of_nat m -> d_dst st <= zlen e -> (Z.to_nat (zlen e - d_dst st) < fuel)%nat -> loop fuel (lzjb_decompress_body (take m s) (zlen e)) st = Fault FOob).
  { intros H. apply H; [apply dec_init|cbn; lia|cbn; lia|cbn; lia]. }
  induction fuel as [|fuel IH]; intros st Hinv Hsrc Hdst Hf; [lia|]. destruct (decide (d_dst st = zlen e)) as [E|E]; [destruct (dec_end st Hinv E) as [_ Es]; lia|].
  destruct (body_cut m st ltac:(lia)) as [F|[Eb Hnext]]; [by apply loop_fault|]. destruct (dec_step st Hinv ltac:(lia)) as (st' & Es & Hst & Hlt). rewrite Es in Eb. rewrite (loop_next _ _ _ _ Eb). apply IH; [done|by apply Hnext|lia|lia].
Qed.
End decompress.

(** ** The compressor emits items *)

(** A match found in the source is a copy of the history. *)
Lemma copy_back_take s src off (len : nat) :
  0 < off <= src -> src + Z.of_nat len <= zlen s ->
  (forall i, 0 <= i < Z.of_nat len ->
     s !! Z.to_nat (src + i) = s !! Z.to_nat (src - off + i)) ->
  copy_back (take (Z.to_nat src) s) off len = take (Z.to_nat (src + Z.of_nat len)) s.
Proof.
  revert src. induction len as [|len IH]; intros src Hoff Hlen Heq.
  { simpl. by rewrite Z.add_0_r. }
  cbn [copy_back]. rewrite length_take, Nat.min_l by lia.
  rewrite lookup_take_lt by lia.
  replace (Z.of_nat (Z.to_nat src) - off) with (src - off + 0) by lia.
  rewrite <- (Heq 0), Z.add_0_r by lia.
  destruct (lookup_lt_is_Some_2 s (Z.to_nat src)) as [b Hb]; [lia|]. rewrite Hb. simpl default.
  rewrite <- take_S_r by done. replace (S (Z.to_nat src)) with (Z.to_nat (src + 1)) by lia.
  rewrite IH; [f_equal; lia|lia|lia|].
  intros i Hi. replace (src + 1 + i) with (src + (i + 1)) by lia.
  replace (src + 1 - off + i) with (src - off + (i + 1)) by lia. apply Heq. lia.
Qed.

Section compress.
Context (base : Z) (s : list Z) (d_len : Z) (d : list Z).
Context (Hd : 0 <= d_len <= zlen d).

Lemma lzjb_match_len_spec src cpy :
  0 <= cpy < src -> src + MATCH_MAX <= zlen s ->
  (forall i, 0 <= i < 3 -> s !! Z.to_nat (src + i) = s !! Z.to_nat (cpy + i)) ->
  wp (lzjb_match_len s src cpy) (fun mlen => 3 <= mlen <= 66 /\
    forall i, 0 <= i < mlen -> s !! Z.to_nat (src + i) = s !! Z.to_nat (cpy + i)).
Proof.
  change MATCH_MAX with 66. intros Hcpy Hsrc H3. unfold lzjb_match_len.
  apply (wp_loop (fun mlen => 3 <= mlen <= 66 /\
    forall i, 0 <= i < mlen -> s !! Z.to_nat (src + i) = s !! Z.to_nat (cpy + i))
    (fun mlen => Z.to_nat (66 - mlen))); change MATCH_MAX with 66; change MATCH_MIN with 3.
  - intros mlen [Hm Heq]. case_if as Hlt; [|by split].
    apply wp_bind, wp_rd; [lia|]. intros x Hx. apply wp_bind, wp_rd; [lia|]. intros y Hy.
    destruct (x =? y) eqn:Exy; simpl; zbool; [|by split].
    subst y. split; [split; [lia|]|lia]. intros i Hi.
    destruct (decide (i = mlen)) as [->|]; [congruence|apply Heq; lia].
  - split; [lia|done].
  - lia.
Qed.

(** The compressor inside a group: [g] holds the items emitted so far. *)
Definition enc_at (pre : list Z) (g : list item) (src dst : Z) (d' : list Z) : Prop :=
  d' = ovr (pre ++ group_enc g) d /\ dst = zlen (pre ++ group_enc g) /\ 0 <= src <= zlen s.

Definition emit_post (pre : list Z) (g : list item) (st st' : cstate) : Prop :=
  exists it, item_ok (take (Z.to_nat (c_src st)) s) it /\
    item_run (take (Z.to_nat (c_src st)) s) it = take (Z.to_nat (c_src st')) s /\
    c_src st < c_src st' /\ enc_at pre (g ++ [it]) (c_src st') (c_dst st') (c_d st') /\
    c_copymap st' = c_copymap st /\ c_copymask st' = c_copymask st /\
    length (c_lempel st') = length (c_lempel st).

Lemma emit_lit pre g src dst d' copymap copymask lempel lempel' b :
  enc_at pre g src dst d' -> zlen (pre ++ group_enc g) < zlen d ->
  s !! Z.to_nat src = Some b -> length lempel' = length lempel ->
  wp (d' ← wr d' dst b; Ok (CState (src + 1) (dst + 1) d' copymap copymask lempel'))
     (emit_post pre g (CState src dst d' copymap copymask lempel)).
Proof.
  intros (-> & -> & Hsrc) Hroom Hb Hlem.
  rewrite ovr_snoc by lia. simpl. exists (Lit b). simpl.
  apply lookup_lt_Some in Hb as Hlt.
  assert (Hout : group_enc (g ++ [Lit b]) = group_enc g ++ [b]).
  { unfold group_enc. by rewrite map_byte_snoc, bind_app, Z.add_0_r. }
  split_and!; auto; try lia.
  - rewrite <- take_S_r by done. f_equal. lia.
  - unfold enc_at. rewrite Hout, app_assoc. split_and!; auto; try lia.
    rewrite (length_app _ [b]). simpl. lia.
Qed.

Lemma emit_cpy pre g src dst d' lempel lempel' off mlen :
  enc_at pre g src dst d' -> zlen (pre ++ group_enc g) + 2 <= zlen d ->
  (length g < 8)%nat -> 0 < off <= src -> off < 1024 -> 3 <= mlen <= 66 ->
  src + mlen <= zlen s -> length lempel' = length lempel ->
  (forall i, 0 <= i < mlen -> s !! Z.to_nat (src + i) = s !! Z.to_nat (src - off + i)) ->
  wp (v ← rd d' (zlen pre); d' ← wr d' (zlen pre) (u8 (Z.lor v (2 ^ zlen g)));
      d' ← wr d' dst (u8 (Z.lor (Z.shiftl (mlen - MATCH_MIN) (NBBY - MATCH_BITS))
                                (Z.shiftr off NBBY)));
      d' ← wr d' (dst + 1) (u8 off);
      Ok (CState (src + mlen) (dst + 2) d' (zlen pre) (2 ^ zlen g) lempel'))
     (emit_post pre g (CState src dst d' (zlen pre) (2 ^ zlen g) lempel)).
Proof.
  intros (-> & -> & Hsrc) Hroom Hg Hoff Hoff' Hmlen Hend Hlem Heq.
  pose proof (map_byte_bound (g ++ [Cpy off mlen])) as Hmb.
  rewrite length_app in Hmb. simpl in Hmb.
  pose proof (Z.pow_le_mono_r 2 (Z.of_nat (length g + 1)) 8).
  erewrite wp_bind_Ok; [|by apply rd_ovr_mid].
  rewrite (map_byte_set g off mlen), (Z.mod_small (map_byte _)) by lia.
  erewrite wp_bind_Ok; [|by apply ovr_patch].
  set (out := pre ++ map_byte (g ++ [Cpy off mlen]) :: (g ≫= item_enc)).
  assert (Hlen : zlen (pre ++ group_enc g) = zlen out) by (unfold out; by rewrite !length_app).
  rewrite Hlen in Hroom |- *.
  set (b0 := u8 (Z.lor _ (Z.shiftr off NBBY))).
  erewrite wp_bind_Ok; [|apply ovr_snoc; lia].
  replace (zlen out + 1) with (zlen (out ++ [b0])) by len.
  erewrite wp_bind_Ok; [|apply ovr_snoc; rewrite length_app; simpl; lia].
  simpl. exists (Cpy off mlen). simpl. rewrite length_take, Nat.min_l by lia.
  split_and!; auto; try lia.
  - replace mlen with (Z.of_nat (Z.to_nat mlen)) at 2 by lia.
    apply copy_back_take; [lia|lia|]. intros i Hi. apply Heq. lia.
  - assert (Hb0 : b0 = (mlen - 3) * 4 + off / 256).
    { unfold b0, MATCH_MIN, NBBY, MATCH_BITS. rewrite Z.shiftl_mul_pow2, Z.shiftr_div_pow2 by lia.
      assert (0 <= off / 2 ^ 8 < 4) by (split; [apply Z.div_pos|apply Z.div_lt_upper_bound]; lia).
      rewrite Z.lor_comm. change (8 - 6) with 2. rewrite lor_low_high by lia.
      rewrite Z.mod_small by lia. change (2 ^ 8) with 256. lia. }
    rewrite Hb0. unfold enc_at.
    replace (group_enc (g ++ [Cpy off mlen])) with
      (map_byte (g ++ [Cpy off mlen]) :: (g ≫= item_enc) ++ [(mlen - 3) * 4 + off / 256; off mod 256])
      by (unfold group_enc; by rewrite bind_app).
    unfold out. rewrite !app_comm_cons, !app_assoc.
    split_and!; [|rewrite !length_app; simpl; lia|lia|lia].
    by rewrite <- !app_assoc.
Qed.

Lemma land_mask_range x k : 0 <= k -> 0 <= Z.land x (2 ^ k - 1) < 2 ^ k.
Proof. intros. rewrite land_pred_pow2 by done. apply Z.mod_pos_bound. lia. Qed.

(** Each iteration emits one valid item and consumes its bytes. *)
Lemma lzjb_emit_spec pre g src dst d' lempel :
  enc_at pre g src dst d' -> src < zlen s -> zlen (pre ++ group_enc g) + 2 <= zlen d ->
  (length g < 8)%nat -> length lempel = 1024%nat ->
  let st := CState src dst d' (zlen pre) (2 ^ zlen g) lempel in
  wp (lzjb_emit base s (zlen s) st) (emit_post pre g st).
Proof.
  intros Hat Hsrc Hroom Hg Hlem st. unfold lzjb_emit, st.
  pose proof (proj2 (proj2 Hat)) as Hsrc0.
  change MATCH_MAX with 66. change (LEMPEL_SIZE - 1) with (2 ^ 10 - 1).
  change OFFSET_MASK with (2 ^ 10 - 1).
  case_if as Hshort.
  { apply wp_bind, wp_rd; [lia|]. intros b Hb. apply emit_lit; auto. lia. }
  apply wp_bind, wp_rd; [lia|]. intros b0 Hb0. apply wp_bind, wp_rd; [lia|]. intros b1 Hb1.
  apply wp_bind, wp_rd; [lia|]. intros b2 Hb2.
  pose proof (land_mask_range (lzjb_hash b0 b1 b2) 10 ltac:(lia)) as Hhp.
  apply wp_bind, wp_rd; [lia|]. intros h _.
  set (off := Z.land (base + src - h) (2 ^ 10 - 1)).
  pose proof (land_mask_range (base + src - h) 10 ltac:(lia)) as Hoff. fold off in Hoff.
  erewrite wp_bind_Ok; [|apply wr_in_bounds; lia]. set (lempel' := <[_:=_]> lempel).
  assert (Hlem' : length lempel' = length lempel) by apply length_insert.
  apply wp_bind. case_if as Hc; [|simpl; by apply emit_lit; auto; lia].
  apply wp_bind, wp_rd; [lia|]. intros c0 Hc0. apply wp_bind, wp_rd; [lia|]. intros c1 Hc1.
  apply wp_bind, wp_rd; [lia|]. intros c2 Hc2. simpl.
  case_if as Heq; [|by apply emit_lit; auto; lia].
  assert (Hpre3 : forall i, 0 <= i < 3 ->
    s !! Z.to_nat (src + i) = s !! Z.to_nat (src - off + i)).
  { intros i Hi. assert (i = 0 \/ i = 1 \/ i = 2) as [->|[->| ->]] by lia;
      rewrite ?Z.add_0_r; congruence. }
  destruct (wp_elim _ _ (lzjb_match_len_spec src (src - off) ltac:(lia)
    ltac:(change MATCH_MAX with 66; lia) Hpre3)) as (mlen & Hml & Hmlen & Heqs).
  pose proof (emit_cpy pre g src dst d' lempel lempel' off mlen Hat Hroom Hg
    ltac:(lia) ltac:(lia) Hmlen ltac:(lia) Hlem' Heqs) as Hfin.
  rewrite Hml. destruct (rd d' (zlen pre)) as [v|]; simpl in *; [|done].
  by destruct (wr d' _ _).
Qed.

(** The main loop's invariant: what is written encodes full groups and the
    group in progress, whose items produce the bytes consumed. *)
Definition comp_inv (st : cstate) : Prop :=
  let '(CState src dst d' copymap copymask lempel) := st in
  length lempel = 1024%nat /\ 0 <= src <= zlen s /\
  exists gs, Forall (fun g => length g = 8%nat) gs /\
  ((copymask = 128 /\ items_run [] (concat gs) (take (Z.to_nat src) s) /\
    dst = zlen (gs ≫= group_enc) /\ d' = ovr (gs ≫= group_enc) d /\ dst <= d_len) \/
   exists g, (1 <= length g < 8)%nat /\ copymask = 2 ^ (zlen g - 1) /\
    copymap = zlen (gs ≫= group_enc) /\
    items_run [] (concat gs ++ g) (take (Z.to_nat src) s) /\
    enc_at (gs ≫= group_enc) g src dst d' /\ dst <= d_len - 17 + 2 * zlen g).

Lemma group_enc_snoc g it : (zlen (group_enc (g ++ [it])) <= zlen (group_enc g) + 2).
Proof.
  unfold group_enc. rewrite bind_app. simpl. rewrite length_app, app_nil_r.
  destruct it; simpl; lia.
Qed.

(** Closing one round: the group grows by one item, or is complete. *)
Lemma comp_inv_step gs g st st' :
  Forall (fun g => length g = 8%nat) gs -> (length g < 8)%nat ->
  items_run [] (concat gs ++ g) (take (Z.to_nat (c_src st)) s) ->
  c_dst st = zlen ((gs ≫= group_enc) ++ group_enc g) ->
  c_dst st <= d_len - 17 + 2 * zlen g ->
  c_copymap st = zlen (gs ≫= group_enc) -> c_copymask st = 2 ^ zlen g ->
  length (c_lempel st) = 1024%nat ->
  emit_post (gs ≫= group_enc) g st st' -> comp_inv st' /\ c_src st < c_src st' <= zlen s.
Proof.
  intros Hgs Hg Hrun Hdst Hroom Hmap Hmask Hlem (it & Hok & Hnext & Hlt & Hat & Hmap' & Hmask' & Hlem').
  destruct st' as [src' dst' d' copymap' copymask' lempel']. simpl in *.
  pose proof Hat as (Hd' & Hdst' & Hsrc'). split; [|lia].
  split; [lia|]. split; [lia|].
  assert (Hrun' : items_run [] (concat gs ++ g ++ [it]) (take (Z.to_nat src') s)).
  { rewrite app_assoc. eapply items_run_app; [done|]. rewrite <- Hnext. eauto using items_run. }
  assert (Hroom' : dst' <= d_len - 17 + 2 * zlen (g ++ [it])).
  { pose proof (group_enc_snoc g it). rewrite !length_app in *. simpl in *. lia. }
  destruct (decide (length g = 7%nat)) as [H7|H7].
  - exists (gs ++ [g ++ [it]]). rewrite !bind_app, concat_app. simpl. rewrite !app_nil_r.
    rewrite length_app in Hroom'. simpl in Hroom'.
    split; [apply Forall_app; split; [done|]; constructor; [rewrite length_app; simpl; lia|done]|].
    left. split_and!; auto; [|lia]. rewrite Hmask', Hmask, H7. done.
  - exists gs. split; [done|]. right. exists (g ++ [it]).
    rewrite Hmask', Hmask, Hmap', Hmap.
    split_and!; auto; rewrite length_app; simpl; try lia. f_equal. lia.
Qed.

Lemma comp_inv_result st :
  comp_inv st -> c_src st = zlen s ->
  exists gs, groups_ok gs /\ items_run [] (concat gs) s /\
    c_d st = ovr (gs ≫= group_enc) d /\ c_dst st = zlen (gs ≫= group_enc) /\
    c_dst st <= d_len.
Proof.
  destruct st as [src dst d' copymap copymask lempel]. simpl.
  intros (_ & _ & gs & Hgs & Hcase) ->. rewrite take_ge in Hcase by lia.
  assert (Hok : forall gs', (gs' = [] \/ exists g, (1 <= length g < 8)%nat /\ gs' = [g]) ->
    groups_ok (gs ++ gs')).
  { clear Hcase. intros gs' Hgs'. induction Hgs as [|g gs Hg Hgs IH]; simpl.
    - destruct Hgs' as [->|(g & Hg & ->)]; simpl; [done|]. split; [lia|done].
    - split_and!; auto; lia. }
  destruct Hcase as [(_ & Hrun & -> & -> & Hle)|(g & Hg & _ & _ & Hrun & (-> & -> & _) & Hle)].
  - exists gs. rewrite <- (app_nil_r gs) at 1. split_and!; auto.
  - exists (gs ++ [g]). rewrite concat_app, bind_app. simpl. rewrite !app_nil_r.
    split_and!; eauto. lia.
Qed.

Lemma comp_inv_written st :
  comp_inv st -> exists out, c_d st = ovr out d /\ zlen out <= d_len.
Proof using Hd.
  destruct st as [src dst d' copymap copymask lempel]. simpl.
  intros (_ & _ & gs & _ & [(_ & _ & -> & -> & ?)|(g & ? & _ & _ & _ & (-> & -> & _) & ?)]);
    eexists; (split; [done|lia]).
Qed.

Definition comp_post (r : Z * list Z) : Prop :=
  let '(ret, d') := r in
  (exists out, d' = ovr out d /\ zlen out <= d_len) /\
  (ret = zlen s \/
   exists gs, groups_ok gs /\ items_run [] (concat gs) s /\
     d' = ovr (gs ≫= group_enc) d /\ ret = zlen (gs ≫= group_enc) /\ ret <= d_len).

Lemma lzjb_compress_spec : wp (lzjb_compress base s (zlen s) d_len d) comp_post.
Proof using Hd.
  unfold lzjb_compress.
  apply (wp_loop comp_inv (fun st => Z.to_nat (zlen s - c_src st))).
  - intros st Hinv. pose proof (comp_inv_written st Hinv) as Hw.
    pose proof (comp_inv_result st Hinv) as Hres.
    destruct st as [src dst d' copymap copymask lempel]. simpl in *.
    destruct Hinv as (Hlem & Hsrc & gs & Hgs & Hcase).
    case_if as Hgo; [|split; [done|]; right; apply Hres; lia].
    destruct Hcase as [(-> & Hrun & -> & -> & Hle)|(g & Hg & -> & -> & Hrun & Hat & Hle)].
    + change (Z.shiftl 128 1 =? Z.shiftl 1 NBBY) with true. cbn iota.
      change (2 * NBBY) with 16. case_if as Hfull; [simpl; auto|].
      erewrite wp_bind_Ok; [|apply ovr_snoc; lia].
      apply wp_bind. eapply wp_mono; [apply (lzjb_emit_spec (gs ≫= group_enc) []); auto; try (simpl; lia)|].
      * unfold enc_at. rewrite length_app. simpl. split_and!; auto; lia.
      * rewrite length_app. simpl. lia.
      * intros st' Hst'. simpl. eapply comp_inv_step in Hst'; simpl; auto; try lia.
        -- simpl in Hst'. split; [tauto|lia].
        -- by rewrite app_nil_r.
        -- rewrite length_app. simpl. lia.
    + assert (Hmask : Z.shiftl (2 ^ (zlen g - 1)) 1 = 2 ^ zlen g).
      { rewrite Z.shiftl_mul_pow2, <- Z.pow_add_r by lia. f_equal. lia. }
      rewrite Hmask. assert (Hne : 2 ^ zlen g <> 2 ^ 8).
      { pose proof (Z.pow_lt_mono_r 2 (zlen g) 8). lia. }
      change (Z.shiftl 1 NBBY) with (2 ^ 8). rewrite (proj2 (Z.eqb_neq _ _) Hne).
      pose proof Hat as (_ & -> & _).
      apply wp_bind. eapply wp_mono; [apply (lzjb_emit_spec (gs ≫= group_enc) g); auto; lia|].
      intros st' Hst'. simpl. eapply comp_inv_step in Hst'; simpl; auto; try lia.
      simpl in Hst'. split; [tauto|lia].
  - unfold comp_inv. split; [by rewrite length_replicate|]. split; [lia|].
    exists []. split; [done|]. left. split_and!; auto using items_run. simpl. lia.
  - simpl. lia.
Qed.
End compress.

(** ** Properties *)

(** C27: for every source block, buffer address and destination buffer,
    [lzjb_compress] returns without reading or writing out of bounds, leaves the
    destination beyond [d_len] alone, and either gives up by returning the
    source length or returns a length within [d_len] whose bytes, followed by
    any padding, [lzjb_decompress] turns back into the source. *)
Theorem lzjb_roundtrip base s d d_len :
  0 <= d_len <= zlen d ->
  exists ret d', lzjb_compress base s (zlen s) d_len d = Ok (ret, d') /\
    length d' = length d /\ drop (Z.to_nat d_len) d' = drop (Z.to_nat d_len) d /\
    (ret = zlen s \/
     0 < ret <= d_len /\ forall pad e, zlen e = zlen s ->
       lzjb_decompress (take (Z.to_nat ret) d' ++ pad) (zlen e) e = Ok (0, s)).
Proof.
  intros Hd. destruct (wp_elim _ _ (lzjb_compress_spec base s d_len d Hd))
    as ([ret d'] & Hrun & (out & -> & Hout) & Hcase).
  exists ret, (ovr out d). split_and!; auto.
  - apply length_ovr. lia.
  - apply drop_ovr. lia.
  - destruct Hcase as [->|(gs & Hgs & Hr & -> & -> & Hret)]; [by left|].
    destruct gs as [|g gs]; [by left; inversion Hr|right].
    split; [simpl in *; lia|]. intros pad e He. rewrite Nat2Z.id, take_ovr.
    by apply lzjb_decompress_spec.
Qed.

Lemma lzjb_roundtrip_witness :
  let s := concat (replicate 40 [1; 2; 3]) in
  exists ret d', lzjb_compress 8192 s 120 105 (replicate 120 7) = Ok (ret, d') /\
    length d' = 120%nat /\ drop 105 d' = replicate 15 7 /\
    (ret = 120 \/
     0 < ret <= 105 /\ forall pad e, zlen e = 120 ->
       lzjb_decompress (take (Z.to_nat ret) d' ++ pad) (zlen e) e = Ok (0, s)).
Proof.
  apply (lzjb_roundtrip 8192 (concat (replicate 40 [1; 2; 3])) (replicate 120 7) 105).
  simpl. lia.
Defined.

(** C38: [lzjb_decompress] never looks at the source length.  Whenever [lzjb_compress] has
    compressed a block to [ret] bytes, these bytes decompress to the block, and of every
    shorter piece of them, handed over with the size of the block as the size of the
    destination, the decompressor reads past the end. *)
Theorem lzjb_decompress_overread base s d d_len ret d' e : 0 <= d_len <= zlen d -> lzjb_compress base s (zlen s) d_len d = Ok (ret, d') -> ret <> zlen s -> zlen e = zlen s ->
  lzjb_decompress (take (Z.to_nat ret) d') (zlen e) e = Ok (0, s) /\
  forall m, 0 <= m < ret -> lzjb_decompress (take (Z.to_nat m) d') (zlen e) e = Fault FOob.
Proof.
  intros Hd Hc Hne He. pose proof (lzjb_compress_spec base s d_len d Hd) as H. rewrite Hc in H. destruct H as [_ [?|(gs & Hgs & Hr & -> & -> & Hle)]]; [done|]. split.
  - rewrite Nat2Z.id, take_ovr. rewrite <- (app_nil_r (gs ≫= group_enc)). by apply lzjb_decompress_spec.
  - intros m Hm. pose proof (lzjb_cut_short gs [] s e Hgs Hr He (Z.to_nat m) ltac:(lia)) as Hs. rewrite app_nil_r in Hs. unfold ovr. by rewrite take_app_le by lia.
Qed.

Lemma lzjb_decompress_overread_witness : exists d', lzjb_compress 4096 (concat (replicate 40 [1; 2; 3])) 120 105 (replicate 120 0) = Ok (63, d') /\ lzjb_decompress (take 40 d') 120 (replicate 120 9) = Fault FOob.
Proof.
  eexists. split; [vm_compute; reflexivity|]. apply (proj2 (lzjb_decompress_overread 4096 (concat (replicate 40 [1; 2; 3])) (replicate 120 0) 105 63 _ (replicate 120 9) ltac:(simpl; lia) ltac:(vm_compute; reflexivity) ltac:(simpl; lia) eq_refl) 40). lia.
Defined.
End Lzjb.
