(* ===== verification/ZioCompress.v ===== *)
(** Compression dispatch (module/zfs/zio_compress.c, module/zfs/gzip.c): the
    vector of compressors, the choice of an effective compressor, and the
    routines that compress a block into whole sectors and back.  The dispatch is
    proved against an interface, [CodecOk], which LZJB, ZLE and gzip meet. *)

From S2P Require Import Prelude Zle Lzjb.
From stdpp Require Import strings.
Open Scope Z_scope.

Module ZioCompress.

(** ** The code *)

Definition SPA_MINBLOCKSHIFT : Z := 9.
Definition SPA_MINBLOCKSIZE : Z := Z.shiftl 1 SPA_MINBLOCKSHIFT.
Definition EINVAL : Z := 22.

(** [enum zio_compress] *)
Inductive zio_compress :=
  ZIO_COMPRESS_INHERIT | ZIO_COMPRESS_ON | ZIO_COMPRESS_OFF | ZIO_COMPRESS_LZJB
| ZIO_COMPRESS_EMPTY
| ZIO_COMPRESS_GZIP_1 | ZIO_COMPRESS_GZIP_2 | ZIO_COMPRESS_GZIP_3 | ZIO_COMPRESS_GZIP_4
| ZIO_COMPRESS_GZIP_5 | ZIO_COMPRESS_GZIP_6 | ZIO_COMPRESS_GZIP_7 | ZIO_COMPRESS_GZIP_8
| ZIO_COMPRESS_GZIP_9
| ZIO_COMPRESS_ZLE.

#[export] Instance zio_compress_eq_dec : EqDecision zio_compress.
Proof. solve_decision. Defined.

Definition ZIO_COMPRESS_ON_VALUE := ZIO_COMPRESS_LZJB.

(** Arguments: source, source length, destination length, level, destination. *)
Definition zio_compress_func := list Z -> Z -> Z -> Z -> list Z -> res (Z * list Z).

Record zio_compress_info := ZioCompressInfo {
  ci_compress : option zio_compress_func;
  ci_decompress : option zio_compress_func;
  ci_level : Z;
  ci_name : string
}.

Definition zio_compress_select (child parent : zio_compress) : zio_compress :=
  match child with
  | ZIO_COMPRESS_INHERIT => parent
  | ZIO_COMPRESS_ON => ZIO_COMPRESS_ON_VALUE
  | _ => child
  end.

Section code.
(** zlib is a parameter: [compress_func dst dstlen src level] and
    [uncompress_func dst dstlen src] return a status, 0 for [Z_OK], the new
    [dstlen] and the destination. *)
Context (compress_func : list Z -> Z -> list Z -> Z -> Z * Z * list Z).
Context (uncompress_func : list Z -> Z -> list Z -> Z * Z * list Z).
(** The address of the source buffer, which LZJB's hash table sees. *)
Context (base : Z).

(** [bcopy(s_start, d_start, s_len)] *)
Definition bcopy (s d : list Z) (len : Z) : res (list Z) :=
  if len <=? zlen s then
    if len <=? zlen d then Ok (take (Z.to_nat len) s ++ drop (Z.to_nat len) d) else Fault FWrite
  else Fault FOob.

Definition gzip_compress (s : list Z) (s_len d_len n : Z) (d : list Z) : res (Z * list Z) :=
  let '(status, dstlen, d') := compress_func d d_len s n in
  if negb (status =? 0) then
    if negb (d_len =? s_len) then Ok (s_len, d')
    else d'' ← bcopy s d' s_len; Ok (s_len, d'')
  else Ok (dstlen, d').

Definition gzip_decompress (s : list Z) (s_len d_len n : Z) (d : list Z) : res (Z * list Z) :=
  let '(status, dstlen, d') := uncompress_func d d_len s in
  if negb (status =? 0) then Ok (-1, d') else Ok (0, d').

Definition lzjb_comp : zio_compress_func := fun s s_len d_len _ d =>
  Lzjb.lzjb_compress base s s_len d_len d.
Definition lzjb_decomp : zio_compress_func := fun s _ d_len _ d =>
  Lzjb.lzjb_decompress s d_len d.
Definition zle_comp : zio_compress_func := fun s s_len d_len n d =>
  Zle.zle_compress s s_len d_len n d.
Definition zle_decomp : zio_compress_func := fun s s_len d_len n d =>
  Zle.zle_decompress s s_len d_len n d.

Definition zio_compress_table (c : zio_compress) : zio_compress_info :=
  let gzip n name := ZioCompressInfo (Some gzip_compress) (Some gzip_decompress) n name in
  match c with
  | ZIO_COMPRESS_INHERIT => ZioCompressInfo None None 0 "inherit"
  | ZIO_COMPRESS_ON => ZioCompressInfo None None 0 "on"
  | ZIO_COMPRESS_OFF => ZioCompressInfo None None 0 "uncompressed"
  | ZIO_COMPRESS_LZJB => ZioCompressInfo (Some lzjb_comp) (Some lzjb_decomp) 0 "lzjb"
  | ZIO_COMPRESS_EMPTY => ZioCompressInfo None None 0 "empty"
  | ZIO_COMPRESS_GZIP_1 => gzip 1 "gzip-1"
  | ZIO_COMPRESS_GZIP_2 => gzip 2 "gzip-2"
  | ZIO_COMPRESS_GZIP_3 => gzip 3 "gzip-3"
  | ZIO_COMPRESS_GZIP_4 => gzip 4 "gzip-4"
  | ZIO_COMPRESS_GZIP_5 => gzip 5 "gzip-5"
  | ZIO_COMPRESS_GZIP_6 => gzip 6 "gzip-6"
  | ZIO_COMPRESS_GZIP_7 => gzip 7 "gzip-7"
  | ZIO_COMPRESS_GZIP_8 => gzip 8 "gzip-8"
  | ZIO_COMPRESS_GZIP_9 => gzip 9 "gzip-9"
  | ZIO_COMPRESS_ZLE => ZioCompressInfo (Some zle_comp) (Some zle_decomp) 64 "zle"
  end.

(** The scan for a non-zero 64-bit word: the position where it stops. *)
Definition zero_scan (src : list Z) (s_len : Z) : res Z :=
  loop (S (length src)) (fun word =>
    if word <? s_len then
      w ← rd_word 8 src word;
      Ok (if negb (w =? 0) then inr word else inl (word + 8))
    else Ok (inr word)) 0.

(** [bzero] of [len] bytes at [dst + off] *)
Definition bzero (d : list Z) (off len : Z) : res (list Z) :=
  if (0 <=? off) && (off + len <=? zlen d)
  then Ok (take (Z.to_nat off) d ++ replicate (Z.to_nat len) 0 ++ drop (Z.to_nat (off + len)) d)
  else Fault FWrite.

(** Calling a null function pointer panics. *)
Definition zio_compress_data (c : zio_compress) (src dst : list Z) (s_len : Z) :
    res (Z * list Z) :=
  let ci := zio_compress_table c in
  word ← zero_scan src s_len;
  if word =? s_len then Ok (0, dst) else
  if decide (c = ZIO_COMPRESS_EMPTY) then Ok (s_len, dst) else
  let d_len := P2ALIGN (s_len - Z.shiftr s_len 3) SPA_MINBLOCKSIZE in
  if d_len =? 0 then Ok (s_len, dst) else
  match ci_compress ci with
  | None => Fault FPanic
  | Some f =>
      '(c_len, dst) ← f src s_len d_len (ci_level ci) dst;
      if d_len <? c_len then Ok (s_len, dst) else
      let r_len := P2ROUNDUP c_len SPA_MINBLOCKSIZE in
      if c_len <? r_len then
        dst ← bzero dst c_len (r_len - c_len); Ok (r_len, dst)
      else Ok (c_len, dst)
  end.

Definition zio_decompress_data (c : zio_compress) (src dst : list Z) (s_len d_len : Z) :
    res (Z * list Z) :=
  let ci := zio_compress_table c in
  match ci_decompress ci with
  | None => Ok (EINVAL, dst)
  | Some f => f src s_len d_len (ci_level ci) dst
  end.
End code.

(** ** The interface between the dispatch and the compressors

    A compressor and its decompressor at some level: compression is total and
    stays inside the destination; a length other than the source's is positive,
    within [d_len], and decompression recovers the source from it, whatever
    padding follows. *)
Class CodecOk (comp decomp : zio_compress_func) (level : Z) : Prop := codec_ok :
  forall s d d_len, 0 <= d_len <= zlen d -> d_len < zlen s ->
    exists ret d', comp s (zlen s) d_len level d = Ok (ret, d') /\ length d' = length d /\
      (ret = zlen s \/
       0 < ret <= d_len /\ forall pad e, zlen e = zlen s ->
         let c := take (Z.to_nat ret) d' ++ pad in
         decomp c (zlen c) (zlen e) level e = Ok (0, s)).

#[export] Instance lzjb_codec base : CodecOk (lzjb_comp base) lzjb_decomp 0.
Proof.
  intros s d d_len Hd _. destruct (wp_elim _ _ (Lzjb.lzjb_compress_spec base s d_len d Hd))
    as ([ret d'] & Hrun & (out & -> & Hout) & Hcase).
  exists ret, (ovr out d). split_and!; [done|apply length_ovr; lia|].
  destruct Hcase as [->|(gs & Hgs & Hr & -> & -> & Hret)]; [by left|].
  destruct gs as [|g gs]; [by left; inversion Hr|right].
  split; [simpl in *; lia|]. intros pad e He. rewrite Nat2Z.id, take_ovr.
  by apply Lzjb.lzjb_decompress_spec.
Qed.

#[export] Instance zle_codec n : 1 <= n <= 255 -> CodecOk zle_comp zle_decomp n.
Proof.
  intros Hn s d d_len Hd _. destruct (wp_elim _ _ (Zle.zle_compress_spec s d_len n Hn d Hd))
    as ([ret d'] & Hrun & (out & -> & Hout) & Hcase).
  exists ret, (ovr out d). split_and!; [done|apply length_ovr; lia|].
  destruct Hcase as [->|(cs & Hs & Hcs & -> & -> & Hret)]; [by left|].
  destruct cs as [|c cs]; [by left; rewrite Hs|right].
  split; [destruct c; simpl in *; lia|]. intros pad e He. rewrite Nat2Z.id, take_ovr.
  rewrite Hs in He |- *. by apply Zle.zle_decompress_spec.
Qed.

(** What the code relies on from zlib: the calls keep the destination's size;
    a stream reported as complete fits and is not empty; and decompressing it,
    with anything after it, into a buffer of the source's size gives the source. *)
Class ZlibOk (compress_func : list Z -> Z -> list Z -> Z -> Z * Z * list Z)
    (uncompress_func : list Z -> Z -> list Z -> Z * Z * list Z) : Prop := {
  zlib_size d d_len s n status len d' :
    compress_func d d_len s n = (status, len, d') -> length d' = length d;
  zlib_fits d d_len s n len d' :
    compress_func d d_len s n = (0, len, d') -> 0 < len <= d_len;
  zlib_inverse d d_len s n len d' pad e :
    compress_func d d_len s n = (0, len, d') -> zlen e = zlen s ->
    exists len', uncompress_func e (zlen e) (take (Z.to_nat len) d' ++ pad) = (0, len', s)
}.

#[export] Instance gzip_codec cf uf n `{!ZlibOk cf uf} :
  CodecOk (gzip_compress cf) (gzip_decompress uf) n.
Proof.
  intros s d d_len Hd Hlt. unfold gzip_compress, gzip_decompress.
  destruct (cf d d_len s n) as [[status len] d'] eqn:Hcf.
  pose proof (zlib_size _ _ _ _ _ _ _ Hcf) as Hsize.
  destruct (status =? 0) eqn:Est; zbool; simpl.
  - subst status. exists len, d'. split_and!; auto. right.
    split; [by eapply zlib_fits|]. intros pad e He.
    destruct (zlib_inverse _ _ _ _ _ _ pad e Hcf He) as [len' ->]. done.
  - exists (zlen s), d'. rewrite (proj2 (Z.eqb_neq d_len (zlen s))) by lia.
    simpl. auto.
Qed.

(** Every entry of the vector that has a compressor meets the interface. *)
Lemma table_codec cf uf base c comp : ZlibOk cf uf ->
  ci_compress (zio_compress_table cf uf base c) = Some comp ->
  exists decomp, ci_decompress (zio_compress_table cf uf base c) = Some decomp /\
    CodecOk comp decomp (ci_level (zio_compress_table cf uf base c)).
Proof.
  intros Hz Hc. destruct c; simplify_eq/=; eexists; (split; [done|]);
    solve [apply _ | by apply gzip_codec | apply zle_codec; lia].
Qed.

(** ** The block-level routines *)

(** The scan reaches the end exactly when every byte is zero. *)
Lemma zero_scan_spec src :
  Forall is_byte src -> zlen src mod 8 = 0 ->
  wp (zero_scan src (zlen src)) (fun word => word = zlen src <-> Forall (eq 0) src).
Proof.
  intros Hb H8. unfold zero_scan.
  apply (wp_loop (fun p => 0 <= p <= zlen src /\ p mod 8 = 0 /\ Forall (eq 0) (take (Z.to_nat p) src))
           (fun p => Z.to_nat (zlen src - p))); [|split_and!; [lia|lia|done|constructor]|lia].
  intros p (Hp & Hp8 & Hz). case_if as Hgo.
  2: { assert (Hend : p = zlen src) by lia. rewrite Hend, Nat2Z.id, firstn_all in Hz. by split. }
  assert (Hroom : p + 8 <= zlen src) by dlia.
  unfold rd_word. rewrite (proj2 (Z.leb_le 0 p)), (proj2 (Z.leb_le (p + Z.of_nat 8) _)) by lia.
  cbn [andb]. set (w := take 8 (drop (Z.to_nat p) src)).
  assert (Hw : Forall is_byte w) by (by apply Forall_take, Forall_drop).
  simpl. destruct (le_val w =? 0) eqn:Ez; zbool; simpl.
  - split; [|lia]. split_and!; [lia|lia| |].
    + rewrite Z.add_mod, Hp8 by lia. done.
    + apply le_val_zero in Ez; [|done].
      replace (Z.to_nat (p + 8)) with (Z.to_nat p + 8)%nat by lia.
      rewrite <- take_take_drop. apply Forall_app. done.
  - rewrite le_val_zero in Ez by done. split; [lia|]. intros Hall. exfalso.
    apply Ez. by apply Forall_take, Forall_drop.
Qed.

Lemma P2ALIGN_block x :
  0 <= x < 2 ^ 63 -> P2ALIGN x SPA_MINBLOCKSIZE = 512 * (x / 512) /\ P2ALIGN x SPA_MINBLOCKSIZE <= x.
Proof.
  intros. change SPA_MINBLOCKSIZE with (2 ^ 9). rewrite P2ALIGN_pow2 by lia.
  change (2 ^ 9) with 512. pose proof (Z.div_mod x 512). pose proof (Z.mod_pos_bound x 512). lia.
Qed.

Lemma P2ROUNDUP_block x :
  0 <= x < 2 ^ 63 -> P2ROUNDUP x SPA_MINBLOCKSIZE = 512 * ((x + 511) / 512).
Proof.
  intros. change SPA_MINBLOCKSIZE with (2 ^ 9). rewrite P2ROUNDUP_pow2 by lia.
  change (2 ^ 9) with 512. replace (x + (512 - 1)) with (x + 511) by lia. lia.
Qed.

Lemma take_bzero d (off r : Z) d' :
  0 <= off <= r -> bzero d off (r - off) = Ok d' ->
  take (Z.to_nat r) d' = take (Z.to_nat off) d ++ replicate (Z.to_nat (r - off)) 0 /\
  length d' = length d.
Proof.
  intros Hr. unfold bzero. case_if as Hc; [|done]. intros [= <-]. split.
  - rewrite app_assoc, take_app_le by len.
    apply take_ge. rewrite length_app, length_take, length_replicate. lia.
  - rewrite !length_app, length_take, length_replicate, length_drop. lia.
Qed.

(** C26: compressing any block of whole sectors, with any compressor of the
    vector, returns without a fault; it returns 0 exactly for an all-zero block;
    otherwise either the source length (store uncompressed) or a positive whole
    number of sectors that saves at least one eighth, from which
    [zio_decompress_data] with the same compressor recovers the block. *)
Theorem zio_compress_data_roundtrip cf uf base c comp src dst :
  ZlibOk cf uf -> ci_compress (zio_compress_table cf uf base c) = Some comp ->
  Forall is_byte src -> zlen src mod 512 = 0 -> zlen src < 2 ^ 32 -> length dst = length src ->
  exists psize dst', zio_compress_data cf uf base c src dst (zlen src) = Ok (psize, dst') /\
    (psize = 0 <-> Forall (eq 0) src) /\
    (psize = 0 \/ psize = zlen src \/
     0 < psize <= zlen src - zlen src / 8 /\ psize mod 512 = 0 /\
     forall lbuf, zlen lbuf = zlen src ->
       zio_decompress_data cf uf base c (take (Z.to_nat psize) dst') lbuf psize (zlen src)
       = Ok (0, src)).
Proof.
  intros Hz Hcomp Hb H512 Hbig Hdst. unfold zio_compress_data, zio_decompress_data.
  assert (H8 : zlen src mod 8 = 0).
  { rewrite <- (Z.mod_mod_divide (zlen src) 512 8), H512; [done|]. exists 64. done. }
  destruct (wp_elim _ _ (zero_scan_spec src Hb H8)) as (word & -> & Hzero). cbn -[P2ALIGN P2ROUNDUP].
  case_if as Hw; [exists 0, dst; rewrite <- Hzero; split_and!; auto; tauto|].
  assert (Hnz : ~ Forall (eq 0) src) by tauto.
  assert (Hne : zlen src <> 0).
  { intros ?. apply Hnz. destruct src; [constructor|simpl in *; lia]. }
  destruct (decide (c = ZIO_COMPRESS_EMPTY)) as [->|Hc]; [done|].
  set (x := zlen src - Z.shiftr (zlen src) 3).
  assert (Hx : x = zlen src - zlen src / 8) by (unfold x; by rewrite Z.shiftr_div_pow2).
  destruct (P2ALIGN_block x) as [Hal Hal']; [dlia|].
  assert (Hraw : zlen src = 0 <-> Forall (eq 0) src) by tauto.
  case_if as Hd0; [exists (zlen src), dst; auto|].
  destruct (table_codec cf uf base c comp Hz Hcomp) as (decomp & Hdecomp & Hcodec).
  rewrite Hcomp, Hdecomp. set (d_len := P2ALIGN x SPA_MINBLOCKSIZE) in *.
  assert (Hdl : 0 < d_len < zlen src /\ d_len <= zlen src - zlen src / 8) by dlia.
  destruct (Hcodec src dst d_len) as (c_len & d' & -> & Hlen & Hcase); [lia|lia|].
  cbn -[P2ROUNDUP]. case_if as Hfit; [exists (zlen src), d'; auto|].
  destruct Hcase as [->|[Hret Hdec]]; [lia|].
  rewrite P2ROUNDUP_block by lia. set (r_len := 512 * ((c_len + 511) / 512)).
  assert (Hr : c_len <= r_len <= d_len /\ r_len mod 512 = 0).
  { unfold r_len. rewrite Z.mul_comm, Z.mod_mul by lia. rewrite Hal in *. dlia. }
  destruct Hr as [Hr Hr512]. clearbody r_len.
  case_if as Hpad.
  - destruct (bzero d' c_len (r_len - c_len)) as [d''|f] eqn:Hbz.
    2: { unfold bzero in Hbz. destruct (_ && _) eqn:E in Hbz; [done|]. zbool. lia. }
    apply take_bzero in Hbz as [Htake Hlen'']; [|lia]. cbn.
    exists r_len, d''. split; [done|]. split; [split; [lia|tauto]|].
    right; right. split_and!; [lia|lia|done|]. intros lbuf Hl. rewrite Htake, <- Hl.
    rewrite <- (Hdec (replicate (Z.to_nat (r_len - c_len)) 0) lbuf Hl). cbn. f_equal.
    rewrite length_app, length_take, length_replicate. lia.
  - replace r_len with c_len in * by lia.
    exists c_len, d'. split; [done|]. split; [split; [lia|tauto]|].
    right; right. split_and!; [lia|lia|done|]. intros lbuf Hl. rewrite <- Hl.
    rewrite <- (Hdec [] lbuf Hl). rewrite app_nil_r. cbn. f_equal.
    rewrite length_take. lia.
Qed.

(** A library that stores the source behind a marker byte meets [ZlibOk]. *)
Definition stored_compress (d : list Z) (d_len : Z) (s : list Z) (n : Z) : Z * Z * list Z :=
  if (zlen s + 1 <=? d_len) && (d_len <=? zlen d) then (0, zlen s + 1, ovr (1 :: s) d)
  else (-5, d_len, d).

Definition stored_uncompress (d : list Z) (d_len : Z) (s : list Z) : Z * Z * list Z :=
  (0, d_len, take (Z.to_nat d_len) (drop 1 s)).

#[export] Instance stored_ok : ZlibOk stored_compress stored_uncompress.
Proof.
  constructor; intros d d_len s n; unfold stored_compress.
  - intros status len d'. case_if as Hc; intros [= <- <- <-]; [|done].
    apply length_ovr. simpl. lia.
  - intros len d'. case_if as Hc; intros [= <- <-]. lia.
  - intros len d' pad e. case_if as Hc; intros [= <- <-] He.
    exists (zlen e). unfold stored_uncompress.
    replace (Z.to_nat (zlen s + 1)) with (length (1 :: s)) by (simpl; lia).
    rewrite take_ovr, He, Nat2Z.id.
    change (drop 1 ((1 :: s) ++ pad)) with (s ++ pad). by rewrite take_app_length.
Qed.

Lemma zio_compress_data_roundtrip_witness :
  let src := replicate 1024 0 ++ replicate 512 1 in
  let table := zio_compress_table stored_compress stored_uncompress 4096 in
  exists psize dst', zio_compress_data stored_compress stored_uncompress 4096
      ZIO_COMPRESS_LZJB src (replicate 1536 0) 1536 = Ok (psize, dst') /\
    (psize = 0 <-> Forall (eq 0) src) /\
    (psize = 0 \/ psize = 1536 \/
     0 < psize <= 1344 /\ psize mod 512 = 0 /\
     forall lbuf, zlen lbuf = 1536 ->
       zio_decompress_data stored_compress stored_uncompress 4096 ZIO_COMPRESS_LZJB
         (take (Z.to_nat psize) dst') lbuf psize 1536 = Ok (0, src)).
Proof.
  apply (zio_compress_data_roundtrip stored_compress stored_uncompress 4096 ZIO_COMPRESS_LZJB
    (lzjb_comp 4096) (replicate 1024 0 ++ replicate 512 1) (replicate 1536 0)).
  - apply stored_ok.
  - reflexivity.
  - apply Forall_app. split; apply Forall_replicate; unfold is_byte; lia.
  - reflexivity.
  - vm_compute. reflexivity.
  - reflexivity.
Defined.
End ZioCompress.
