(* ===== verification/Fletcher.v ===== *)
(** Fletcher checksums (module/zcommon/zfs_fletcher.c): the six routines as
    loops over byte buffers with 64-bit accumulators, the series they compute,
    the incremental forms, the byte-swapped forms, and the errors fletcher-4
    detects. *)

From S2P Require Import Prelude.

Module Fletcher.

(** ** The code *)

Record zio_cksum := ZioCksum { zc_word0 : Z; zc_word1 : Z; zc_word2 : Z; zc_word3 : Z }.

#[export] Instance zio_cksum_eq_dec : EqDecision zio_cksum.
Proof. solve_decision. Defined.

(** byteorder.h *)
Definition BSWAP_8 (x : Z) : Z := Z.land x 255.
Definition BSWAP_16 (x : Z) : Z := Z.lor (Z.shiftl (BSWAP_8 x) 8) (BSWAP_8 (Z.shiftr x 8)).
Definition BSWAP_32 (x : Z) : Z := Z.lor (Z.shiftl (BSWAP_16 x) 16) (BSWAP_16 (Z.shiftr x 16)).
Definition BSWAP_64 (x : Z) : Z := Z.lor (Z.shiftl (BSWAP_32 x) 32) (BSWAP_32 (Z.shiftr x 32)).

(** The common loop of the fletcher-2 routines; [f] is how a word is read. *)
Definition fletcher_2_loop (f : Z -> Z) (buf : list Z) (size : Z) : res zio_cksum :=
  let ipend := size / 8 in
  loop (S (length buf)) (fun '(ip, ZioCksum a0 a1 b0 b1) =>
    if ip <? ipend then
      x0 ← rd_word 8 buf (8 * ip);
      x1 ← rd_word 8 buf (8 * (ip + 1));
      let a0 := u64 (a0 + f x0) in
      let a1 := u64 (a1 + f x1) in
      let b0 := u64 (b0 + a0) in
      let b1 := u64 (b1 + a1) in
      Ok (inl (ip + 2, ZioCksum a0 a1 b0 b1))
    else Ok (inr (ZioCksum a0 a1 b0 b1))) (0, ZioCksum 0 0 0 0).

Definition fletcher_2_native (buf : list Z) (size : Z) : res zio_cksum :=
  fletcher_2_loop (fun x => x) buf size.

Definition fletcher_2_byteswap (buf : list Z) (size : Z) : res zio_cksum :=
  fletcher_2_loop BSWAP_64 buf size.

(** The common loop of the fletcher-4 routines, from the accumulators [zc]. *)
Definition fletcher_4_loop (f : Z -> Z) (buf : list Z) (size : Z) (zc : zio_cksum) :
    res zio_cksum :=
  let ipend := size / 4 in
  loop (S (length buf)) (fun '(ip, ZioCksum a b c d) =>
    if ip <? ipend then
      x ← rd_word 4 buf (4 * ip);
      let a := u64 (a + f x) in
      let b := u64 (b + a) in
      let c := u64 (c + b) in
      let d := u64 (d + c) in
      Ok (inl (ip + 1, ZioCksum a b c d))
    else Ok (inr (ZioCksum a b c d))) (0, zc).

Definition fletcher_4_native (buf : list Z) (size : Z) : res zio_cksum :=
  fletcher_4_loop (fun x => x) buf size (ZioCksum 0 0 0 0).

Definition fletcher_4_byteswap (buf : list Z) (size : Z) : res zio_cksum :=
  fletcher_4_loop BSWAP_32 buf size (ZioCksum 0 0 0 0).

Definition fletcher_4_incremental_native (buf : list Z) (size : Z) (zcp : zio_cksum) :
    res zio_cksum :=
  fletcher_4_loop (fun x => x) buf size zcp.

Definition fletcher_4_incremental_byteswap (buf : list Z) (size : Z) (zcp : zio_cksum) :
    res zio_cksum :=
  fletcher_4_loop BSWAP_32 buf size zcp.

Example fletcher_4_ex :
  fletcher_4_native [1; 0; 0; 0; 2; 0; 0; 0; 255; 255; 255; 255] 12
  = Ok (ZioCksum (2 ^ 32 + 2) (2 ^ 32 + 6) (2 ^ 32 + 11) (2 ^ 32 + 17)).
Proof. vm_compute. reflexivity. Qed.

(** ** Words of a buffer *)

(** The [k]-byte words of a buffer, trailing bytes dropped. *)
Fixpoint words (k n : nat) (buf : list Z) : list Z :=
  match n with
  | O => []
  | S n => le_val (take k buf) :: words k n (drop k buf)
  end.

Lemma length_words k n buf : length (words k n buf) = n.
Proof. revert buf. induction n; simpl; auto. Qed.

Lemma words_lookup k n buf i :
  (i < n)%nat -> words k n buf !! i = Some (le_val (take k (drop (k * i) buf))).
Proof.
  revert n buf. induction i as [|i IH]; intros [|n] buf Hi; try lia; simpl.
  - by rewrite Nat.mul_0_r, drop_0.
  - rewrite IH by lia. rewrite drop_drop. do 4 f_equal. lia.
Qed.

Lemma rd_word_words k buf n i w :
  (0 < k)%nat -> (k * n <= length buf)%nat -> words k n buf !! i = Some w ->
  rd_word k buf (Z.of_nat k * Z.of_nat i) = Ok w.
Proof.
  intros Hk Hn Hw. apply lookup_lt_Some in Hw as Hi. rewrite length_words in Hi.
  rewrite words_lookup in Hw by done. injection Hw as <-. unfold rd_word.
  rewrite (proj2 (Z.leb_le 0 _)), (proj2 (Z.leb_le (_ + _) _)) by nia. simpl.
  do 4 f_equal. lia.
Qed.

(** ** The accumulators as a fold over the words *)

Definition acc4 (zc : zio_cksum) (x : Z) : zio_cksum :=
  let '(ZioCksum a b c d) := zc in
  let a := u64 (a + x) in let b := u64 (b + a) in let c := u64 (c + b) in
  let d := u64 (d + c) in ZioCksum a b c d.

Definition nwords (k : nat) (buf : list Z) : nat := Z.to_nat (zlen buf / Z.of_nat k).

Lemma fletcher_4_fold f buf zc :
  fletcher_4_loop f buf (zlen buf) zc = Ok (foldl acc4 zc (f <$> words 4 (nwords 4 buf) buf)).
Proof.
  set (n := nwords 4 buf). set (ws := words 4 n buf).
  assert (Hn : Z.of_nat n = zlen buf / 4) by (unfold n, nwords; dlia).
  assert (Hwp : wp (fletcher_4_loop f buf (zlen buf) zc)
    (fun r => r = foldl acc4 zc (f <$> ws))).
  2: { apply wp_elim in Hwp as (? & -> & ->). done. }
  apply (wp_loop (fun '(ip, zc') => exists i : nat, ip = Z.of_nat i /\ (i <= n)%nat /\
           zc' = foldl acc4 zc (f <$> take i ws)) (fun '(ip, _) => Z.to_nat (zlen buf - ip))).
  - intros [ip zc'] (i & -> & Hi & ->). rewrite <- Hn.
    destruct (foldl acc4 zc (f <$> take i ws)) as [a b c d] eqn:Hacc. case_if as Hlt.
    + destruct (lookup_lt_is_Some_2 ws i) as [w Hw]; [unfold ws; rewrite length_words; lia|].
      erewrite wp_bind_Ok; [|apply (rd_word_words 4 buf n i w); [lia|dlia|done]].
      simpl. split; [|dlia]. exists (S i). split; [lia|]. split; [lia|].
      rewrite (take_S_r _ _ _ Hw), fmap_app, foldl_app, Hacc. done.
    + simpl. rewrite <- Hacc. rewrite take_ge; [done|]. unfold ws. rewrite length_words. lia.
  - exists 0%nat. split_and!; [done|lia|done].
  - lia.
Qed.

(** ** The series *)

(** Triangular and tetrahedral numbers. *)
Definition tri (i : Z) : Z := i * (i + 1) / 2.
Definition tet (i : Z) : Z := i * (i + 1) * (i + 2) / 6.

Lemma tri_mul i : i * (i + 1) = 2 * tri i.
Proof.
  unfold tri. pose proof (Z.div_mod (i * (i + 1)) 2). pose proof (Z.mod_pos_bound (i * (i + 1)) 2).
  enough ((i * (i + 1)) mod 2 = 0) by lia.
  rewrite Z.mul_mod, (Z.add_mod i 1) by lia.
  assert (i mod 2 = 0 \/ i mod 2 = 1) as [-> | ->] by dlia; done.
Qed.

Lemma tet_mul i : i * (i + 1) * (i + 2) = 6 * tet i.
Proof.
  unfold tet. set (p := i * (i + 1) * (i + 2)). pose proof (Z.div_mod p 6).
  enough (p mod 6 = 0) by lia. unfold p.
  rewrite Z.mul_mod, (Z.mul_mod i), (Z.add_mod i 1), (Z.add_mod i 2) by lia.
  assert (i mod 6 = 0 \/ i mod 6 = 1 \/ i mod 6 = 2 \/ i mod 6 = 3 \/ i mod 6 = 4 \/ i mod 6 = 5)
    as Hi by dlia.
  by destruct Hi as [->|[->|[->|[->|[->| ->]]]]].
Qed.

Lemma tri_succ i : tri (i + 1) = tri i + (i + 1).
Proof.
  generalize (tri_mul i), (tri_mul (i + 1)). generalize (tri i), (tri (i + 1)). intros. lia.
Qed.

Lemma tet_succ i : tet (i + 1) = tet i + tri (i + 1).
Proof.
  generalize (tet_mul i), (tet_mul (i + 1)), (tri_mul (i + 1)).
  generalize (tet i), (tet (i + 1)), (tri (i + 1)). intros. lia.
Qed.

(** [series k ws]: each word weighted by [k] of its distance from the end. *)
Fixpoint series (k : Z -> Z) (ws : list Z) : Z :=
  match ws with [] => 0 | w :: ws' => k (zlen ws) * w + series k ws' end.

(** The accumulators with unbounded integers. *)
Definition acc4_exact (zc : Z * Z * Z * Z) (x : Z) : Z * Z * Z * Z :=
  let '(a, b, c, d) := zc in
  let a := a + x in let b := b + a in let c := c + b in let d := d + c in (a, b, c, d).

Definition wrap4 (zc : Z * Z * Z * Z) : zio_cksum :=
  let '(a, b, c, d) := zc in ZioCksum (u64 a) (u64 b) (u64 c) (u64 d).

Lemma acc4_wrap zc x : acc4 (wrap4 zc) x = wrap4 (acc4_exact zc x).
Proof.
  destruct zc as [[[a b] c] d]. unfold acc4, wrap4, acc4_exact.
  repeat first [rewrite Zplus_mod_idemp_l | rewrite Zplus_mod_idemp_r]. done.
Qed.

Lemma foldl_acc4_wrap zc ws : foldl acc4 (wrap4 zc) ws = wrap4 (foldl acc4_exact zc ws).
Proof. revert zc. induction ws as [|w ws IH]; intros zc; simpl; [done|]. by rewrite acc4_wrap. Qed.

Lemma quad_eq (a b c d a' b' c' d' : Z) :
  a = a' -> b = b' -> c = c' -> d = d' -> (a, b, c, d) = (a', b', c', d').
Proof. by intros -> -> -> ->. Qed.

Lemma foldl_acc4_exact ws a b c d :
  let n := zlen ws in
  foldl acc4_exact (a, b, c, d) ws =
  (a + series (fun _ => 1) ws, b + n * a + series (fun i => i) ws,
   c + n * b + tri n * a + series tri ws,
   d + n * c + tri n * b + tet n * a + series tet ws).
Proof.
  revert a b c d. induction ws as [|w ws IH]; intros a b c d n; subst n.
  { cbn [length series foldl]. change (tri (Z.of_nat 0)) with 0.
    change (tet (Z.of_nat 0)) with 0. apply quad_eq; lia. }
  cbn [foldl acc4_exact]. rewrite IH. cbn [series length].
  rewrite Nat2Z.inj_succ, <- Z.add_1_r, tet_succ, tri_succ.
  generalize (tri (zlen ws)), (tet (zlen ws)). intros. apply quad_eq; lia.
Qed.

(** *** Divisibility by powers of two *)

Lemma odd_cancel (m : nat) k x :
  Z.odd k = true -> (2 ^ Z.of_nat m | k * x) -> (2 ^ Z.of_nat m | x).
Proof.
  intros Hk. revert x. induction m as [|m IH]; intros x Hd; [apply Z.divide_1_l|].
  rewrite Nat2Z.inj_succ, Z.pow_succ_r in * by lia. destruct Hd as [q Hq].
  assert (Hx : Z.even x = true).
  { apply (f_equal Z.even) in Hq. rewrite Z.mul_assoc, !Z.even_mul in Hq.
    rewrite <- Z.negb_odd, Hk in Hq. simpl in Hq. by rewrite Hq, !orb_true_r. }
  apply Z.even_spec in Hx as [y ->]. destruct (IH y) as [r Hr].
  - exists q. lia.
  - exists r. lia.
Qed.

(** If [2 ^ (n + 1)] does not divide [k], a product [k * x] divisible by
    [2 ^ (n + m)] makes [x] divisible by [2 ^ m]. *)
Lemma pow2_cancel (n m : nat) k x :
  ~ (2 ^ Z.of_nat (S n) | k) -> (2 ^ Z.of_nat (n + m) | k * x) -> (2 ^ Z.of_nat m | x).
Proof.
  revert k. induction n as [|n IH]; intros k Hk Hd; destruct (Z.odd k) eqn:Hodd.
  - by apply (odd_cancel m k).
  - exfalso. apply Hk. rewrite <- Z.negb_even in Hodd. apply negb_false_iff, Z.even_spec in Hodd.
    destruct Hodd as [y ->]. exists y. lia.
  - apply (odd_cancel _ k) in Hd; [|done]. destruct Hd as [q ->].
    exists (q * 2 ^ Z.of_nat (S n)). rewrite Nat2Z.inj_add, Z.pow_add_r by lia. lia.
  - rewrite <- Z.negb_even in Hodd. apply negb_false_iff, Z.even_spec in Hodd.
    destruct Hodd as [k' ->]. apply (IH k').
    + intros [q ->]. apply Hk. exists q.
      rewrite (Nat2Z.inj_succ (S n)), Z.pow_succ_r by lia. lia.
    + destruct Hd as [q Hq]. exists q.
      rewrite Nat.add_succ_l, Nat2Z.inj_succ, Z.pow_succ_r in Hq by lia. lia.
Qed.

(** The weights of a 128k block keep at most fifteen factors of two. *)
Definition weights_ok (i : Z) : bool :=
  negb (tri i mod 2 ^ 16 =? 0) && negb (tet i mod 2 ^ 16 =? 0) && negb (i mod 2 ^ 16 =? 0).

(** Of two consecutive integers one is odd, so a power of two that divides
    their product divides the other. *)
Lemma consecutive_pow2 (m : nat) i :
  (2 ^ Z.of_nat m | i * (i + 1)) -> (2 ^ Z.of_nat m | i) \/ (2 ^ Z.of_nat m | i + 1).
Proof.
  intros Hd. destruct (Z.odd i) eqn:Hi.
  - right. by apply (odd_cancel m i).
  - left. apply (odd_cancel m (i + 1)); [|by rewrite Z.mul_comm].
    by rewrite Z.odd_add, Hi.
Qed.

Lemma weights_128k i : 1 <= i <= 32768 -> weights_ok i = true.
Proof.
  intros Hi. unfold weights_ok. rewrite !andb_true_iff, !negb_true_iff, !Z.eqb_neq.
  assert (Hsmall : forall (m : nat) x, (2 ^ Z.of_nat m | x) -> 0 < x -> 2 ^ Z.of_nat m <= x)
    by (intros; by apply Z.divide_pos_le).
  split_and!; intros H0; apply Z.mod_divide in H0 as [q Hq]; try lia.
  - pose proof (tri_mul i) as Ht. rewrite Hq in Ht.
    destruct (consecutive_pow2 17 i) as [H|H]; [exists q; change (Z.of_nat 17) with 17; lia|..];
      apply Hsmall in H; change (Z.of_nat 17) with 17 in H; lia.
  - pose proof (tet_mul i) as Ht. rewrite Hq in Ht. destruct (Z.odd i) eqn:Hodd.
    + assert (H : (2 ^ Z.of_nat 17 | i + 1)).
      { apply (odd_cancel 17 (i * (i + 2))).
        - rewrite Z.odd_mul, Z.odd_add, Hodd. done.
        - exists (3 * q). change (Z.of_nat 17) with 17. lia. }
      apply Hsmall in H; change (Z.of_nat 17) with 17 in H; lia.
    + rewrite <- Z.negb_even in Hodd. apply negb_false_iff, Z.even_spec in Hodd as [j ->].
      assert (H : (2 ^ Z.of_nat 15 | j * (j + 1))).
      { apply (odd_cancel 15 (2 * j + 1)); [by rewrite Z.add_comm, Z.odd_add_mul_2|].
        exists (3 * q). change (Z.of_nat 15) with 15. lia. }
      apply consecutive_pow2 in H as [H|H]; apply Hsmall in H;
        change (Z.of_nat 15) with 15 in H; lia.
Qed.

(** A non-zero difference of 32-bit words survives such a weight mod 2^64. *)
Lemma weight_survives k x :
  k mod 2 ^ 16 <> 0 -> x <> 0 -> - 2 ^ 32 < x < 2 ^ 32 -> ~ (2 ^ 64 | k * x).
Proof.
  intros Hk Hx Hb Hd. apply (pow2_cancel 15 49 k x) in Hd.
  - destruct Hd as [q ->]. change (Z.of_nat 49) with 49 in *. assert (q = 0) by lia. lia.
  - intros Hdiv. apply Hk, Z.mod_divide; [lia|done].
Qed.

(** ** Byte swapping *)

Lemma land_255 x : Z.land x 255 = x mod 256.
Proof. exact (land_pred_pow2 x 8 ltac:(lia)). Qed.

Lemma bytes4_val b0 b1 b2 b3 :
  is_byte b0 -> is_byte b1 -> is_byte b2 -> is_byte b3 ->
  BSWAP_32 (le_val [b0; b1; b2; b3]) = le_val [b3; b2; b1; b0].
Proof.
  unfold is_byte. intros H0 H1 H2 H3. cbn [le_val].
  assert (H16 : forall x, BSWAP_16 x = x mod 256 * 256 + x / 256 mod 256).
  { intros x. unfold BSWAP_16, BSWAP_8. rewrite !land_255.
    rewrite Z.shiftl_mul_pow2, Z.shiftr_div_pow2, Z.lor_comm by lia.
    rewrite lor_low_high by (lia || apply Z.mod_pos_bound; lia). change (2 ^ 8) with 256. lia. }
  unfold BSWAP_32. rewrite !H16, Z.shiftl_mul_pow2, Z.shiftr_div_pow2, Z.lor_comm by lia.
  rewrite lor_low_high by (lia || dlia). change (2 ^ 16) with 65536. dlia.
Qed.

(** The buffer with the bytes of every 32-bit word reversed. *)
Fixpoint swap_words (n : nat) (buf : list Z) : list Z :=
  match n with
  | O => buf
  | S n => rev (take 4 buf) ++ swap_words n (drop 4 buf)
  end.

Lemma length_swap_words n buf : (4 * n <= length buf)%nat -> length (swap_words n buf) = length buf.
Proof.
  revert buf. induction n as [|n IH]; intros buf Hn; [done|].
  cbn [swap_words]. rewrite length_app, length_rev, IH, length_take, length_drop;
    [lia|rewrite length_drop; lia].
Qed.

Lemma words_swap n buf :
  Forall is_byte buf -> (4 * n <= length buf)%nat ->
  words 4 n (swap_words n buf) = BSWAP_32 <$> words 4 n buf.
Proof.
  revert buf. induction n as [|n IH]; intros buf Hb Hn; [done|].
  destruct buf as [|b0 [|b1 [|b2 [|b3 buf]]]]; simpl in Hn; try lia.
  repeat match goal with H : Forall is_byte (_ :: _) |- _ => apply Forall_cons_1 in H as [? ?] end.
  cbn [words swap_words]. rewrite !fmap_cons.
  change (take 4 (b0 :: b1 :: b2 :: b3 :: buf)) with [b0; b1; b2; b3].
  change (drop 4 (b0 :: b1 :: b2 :: b3 :: buf)) with buf.
  change (rev [b0; b1; b2; b3]) with [b3; b2; b1; b0].
  change (take 4 ([b3; b2; b1; b0] ++ ?l)) with [b3; b2; b1; b0].
  rewrite bytes4_val by done.
  change (drop 4 ([b3; b2; b1; b0] ++ swap_words n buf)) with (swap_words n buf).
  rewrite IH by (done || lia). done.
Qed.

(** ** Properties *)

(** On every buffer [fletcher_4_native] returns, and its four words are the
    series of the recurrence, modulo 2^64: the word [i] places from the end is
    weighted by 1, [i], [i*(i+1)/2] and [i*(i+1)*(i+2)/6]. *)
Theorem fletcher_4_series buf :
  let ws := words 4 (nwords 4 buf) buf in
  fletcher_4_native buf (zlen buf) =
  Ok (ZioCksum (u64 (series (fun _ => 1) ws)) (u64 (series (fun i => i) ws))
               (u64 (series tri ws)) (u64 (series tet ws))).
Proof.
  intros ws. unfold fletcher_4_native. rewrite fletcher_4_fold, list_fmap_id.
  change (ZioCksum 0 0 0 0) with (wrap4 (0, 0, 0, 0)).
  rewrite foldl_acc4_wrap, foldl_acc4_exact. unfold wrap4. fold ws. do 2 f_equal; f_equal; lia.
Qed.

Lemma words_app k n1 n2 b1 b2 :
  length b1 = (k * n1)%nat -> words k (n1 + n2) (b1 ++ b2) = words k n1 b1 ++ words k n2 b2.
Proof.
  revert b1. induction n1 as [|n1 IH]; intros b1 Hb.
  { rewrite Nat.mul_0_r in Hb. apply nil_length_inv in Hb. by subst. }
  cbn [words plus app]. rewrite take_app_le by lia. f_equal.
  rewrite drop_app_le by lia. apply IH. rewrite length_drop. lia.
Qed.

(** checksumming a buffer piecewise with the incremental routine, native or
    byte-swapped, gives the checksum of the whole, wherever a piece ends on a
    word boundary. *)
Theorem fletcher_4_incremental_compose b1 b2 zc :
  zlen b1 mod 4 = 0 ->
  (fletcher_4_incremental_native b1 (zlen b1) zc ≫=
     fletcher_4_incremental_native b2 (zlen b2)) =
  fletcher_4_incremental_native (b1 ++ b2) (zlen (b1 ++ b2)) zc /\
  (fletcher_4_incremental_byteswap b1 (zlen b1) zc ≫=
     fletcher_4_incremental_byteswap b2 (zlen b2)) =
  fletcher_4_incremental_byteswap (b1 ++ b2) (zlen (b1 ++ b2)) zc.
Proof.
  intros H4. unfold fletcher_4_incremental_native, fletcher_4_incremental_byteswap.
  assert (Hn : nwords 4 (b1 ++ b2) = (nwords 4 b1 + nwords 4 b2)%nat).
  { unfold nwords. rewrite length_app. dlia. }
  assert (Hb1 : length b1 = (4 * nwords 4 b1)%nat) by (unfold nwords; dlia).
  rewrite !fletcher_4_fold, Hn, words_app by done.
  unfold mbind, res_bind. by rewrite !fletcher_4_fold, !fmap_app, !foldl_app.
Qed.

Lemma fletcher_4_incremental_compose_witness :
  (fletcher_4_incremental_native [1; 2; 3; 4] 4 (ZioCksum 0 0 0 0) ≫=
     fletcher_4_incremental_native [5; 6; 7; 8] 4) =
  fletcher_4_incremental_native [1; 2; 3; 4; 5; 6; 7; 8] 8 (ZioCksum 0 0 0 0) /\
  (fletcher_4_incremental_byteswap [1; 2; 3; 4] 4 (ZioCksum 0 0 0 0) ≫=
     fletcher_4_incremental_byteswap [5; 6; 7; 8] 4) =
  fletcher_4_incremental_byteswap [1; 2; 3; 4; 5; 6; 7; 8] 8 (ZioCksum 0 0 0 0).
Proof.
  apply (fletcher_4_incremental_compose [1; 2; 3; 4] [5; 6; 7; 8] (ZioCksum 0 0 0 0)).
  reflexivity.
Defined.

(** the byte-swapping routine computes the checksum that a machine of the
    other endianness computes natively: the native checksum of the buffer with
    the bytes of every word reversed. *)
Theorem fletcher_4_byteswap_native buf :
  Forall is_byte buf ->
  let buf' := swap_words (nwords 4 buf) buf in
  fletcher_4_byteswap buf (zlen buf) = fletcher_4_native buf' (zlen buf').
Proof.
  intros Hb buf'. unfold fletcher_4_byteswap, fletcher_4_native.
  assert (Hn : (4 * nwords 4 buf <= length buf)%nat) by (unfold nwords; dlia).
  assert (Hlen : nwords 4 buf' = nwords 4 buf).
  { unfold nwords, buf'. by rewrite length_swap_words. }
  rewrite !fletcher_4_fold, Hlen, list_fmap_id. unfold buf'. by rewrite words_swap.
Qed.

Lemma fletcher_4_byteswap_native_witness :
  fletcher_4_byteswap [1; 2; 3; 4; 5; 6; 7; 8] 8 = fletcher_4_native [4; 3; 2; 1; 8; 7; 6; 5] 8.
Proof.
  apply (fletcher_4_byteswap_native [1; 2; 3; 4; 5; 6; 7; 8]).
  repeat constructor; unfold is_byte; lia.
Defined.

Lemma le_val_inj bs bs' :
  Forall is_byte bs -> Forall is_byte bs' -> length bs = length bs' ->
  le_val bs = le_val bs' -> bs = bs'.
Proof.
  intros Hb. revert bs'. induction Hb as [|b bs Hb Hbs IH]; intros [|b' bs'] Hb' Hl Hv; try done.
  apply Forall_cons_1 in Hb' as [Hb' Hbs']. unfold is_byte in *. cbn [le_val] in Hv.
  assert (b = b' /\ le_val bs = le_val bs') as [-> Hv'] by lia.
  f_equal. apply IH; auto.
Qed.

Lemma series_diff k pre w w' post :
  series k (pre ++ w :: post) - series k (pre ++ w' :: post) = k (zlen (w :: post)) * (w - w').
Proof.
  induction pre as [|x pre IH]; cbn [series app]; [simpl length; lia|].
  rewrite <- IH. cbn [length]. rewrite !length_app. cbn [length]. lia.
Qed.

Lemma u64_neq_weight k x y :
  k mod 2 ^ 16 <> 0 -> - 2 ^ 32 < y < 2 ^ 32 -> y <> 0 -> forall x',
  x - x' = k * y -> u64 x <> u64 x'.
Proof.
  intros Hk Hy Hy0 x' Hx Heq. apply (weight_survives k y); auto.
  rewrite <- Hx. apply Z.mod_divide; [lia|]. rewrite Zminus_mod, Heq, Z.sub_diag. done.
Qed.

(** C33: in a block of up to 128 kilobytes, any corruption confined to one
    aligned 32-bit word changes all four words of the fletcher-4 checksum. *)
Theorem fletcher_4_detects_word p x x' q :
  Forall is_byte x -> Forall is_byte x' -> length x = 4%nat -> length x' = 4%nat -> x <> x' ->
  zlen p mod 4 = 0 -> zlen q mod 4 = 0 -> zlen (p ++ x ++ q) <= 131072 ->
  exists zc zc', fletcher_4_native (p ++ x ++ q) (zlen (p ++ x ++ q)) = Ok zc /\
    fletcher_4_native (p ++ x' ++ q) (zlen (p ++ x' ++ q)) = Ok zc' /\
    zc_word0 zc <> zc_word0 zc' /\ zc_word1 zc <> zc_word1 zc' /\
    zc_word2 zc <> zc_word2 zc' /\ zc_word3 zc <> zc_word3 zc'.
Proof.
  intros Hx Hx' Hlx Hlx' Hne Hp Hq Hsize.
  assert (Hser : forall y, length y = 4%nat ->
    let ws := words 4 (nwords 4 p) p ++ le_val y :: words 4 (nwords 4 q) q in
    fletcher_4_native (p ++ y ++ q) (zlen (p ++ y ++ q)) =
    Ok (wrap4 (series (fun _ => 1) ws, series (fun i => i) ws, series tri ws, series tet ws))).
  { intros y Hy ws. unfold fletcher_4_native. rewrite fletcher_4_fold, list_fmap_id.
    replace (nwords 4 (p ++ y ++ q)) with (nwords 4 p + (1 + nwords 4 q))%nat
      by (unfold nwords; rewrite !length_app, Hy; dlia).
    rewrite words_app by (unfold nwords; dlia). rewrite (words_app 4 1) by lia.
    cbn [words]. rewrite (take_ge y) by lia. change (ZioCksum 0 0 0 0) with (wrap4 (0, 0, 0, 0)).
    rewrite foldl_acc4_wrap, foldl_acc4_exact. fold ws.
    change ([le_val y] ++ words 4 (nwords 4 q) q) with (le_val y :: words 4 (nwords 4 q) q).
    fold ws. do 2 f_equal. apply quad_eq; lia. }
  rewrite (Hser x Hlx), (Hser x' Hlx').
  pose proof (le_val_bound x Hx) as Hv. pose proof (le_val_bound x' Hx') as Hv'.
  rewrite Hlx in Hv. rewrite Hlx' in Hv'. change (256 ^ Z.of_nat 4) with (2 ^ 32) in *.
  assert (Hd : le_val x - le_val x' <> 0).
  { intros H0. apply Hne, le_val_inj; auto; [congruence|lia]. }
  set (post := words 4 (nwords 4 q) q).
  assert (Hi : 1 <= zlen (le_val x :: post) <= 32768).
  { unfold post. cbn [length]. rewrite length_words. unfold nwords.
    rewrite !length_app, Hlx in Hsize. dlia. }
  pose proof (weights_128k _ Hi) as Hw. unfold weights_ok in Hw. zbool.
  do 2 eexists; split; [done|]. split; [done|]. unfold wrap4. cbn [zc_word0 zc_word1 zc_word2 zc_word3].
  split_and!; (eapply u64_neq_weight; [| |exact Hd|apply series_diff]; [|lia]); auto; lia.
Qed.

Lemma fletcher_4_detects_word_witness :
  exists zc zc', fletcher_4_native [1; 1; 1; 1; 2; 0; 0; 0; 3; 3; 3; 3] 12 = Ok zc /\
    fletcher_4_native [1; 1; 1; 1; 2; 0; 0; 128; 3; 3; 3; 3] 12 = Ok zc' /\
    zc_word0 zc <> zc_word0 zc' /\ zc_word1 zc <> zc_word1 zc' /\
    zc_word2 zc <> zc_word2 zc' /\ zc_word3 zc <> zc_word3 zc'.
Proof.
  apply (fletcher_4_detects_word [1; 1; 1; 1] [2; 0; 0; 0] [2; 0; 0; 128] [3; 3; 3; 3]);
    try reflexivity; try done; try (simpl; lia); repeat constructor; unfold is_byte; lia.
Defined.
End Fletcher.
