(* ===== verification/Galois.v ===== *)
(** Arithmetic of the Galois field GF(2^8) used by RAID-Z
    (module/zfs/vdev_raidz.c): multiplication by 2 on a byte and on the eight
    bytes of a 64-bit word at once, the tables of powers and logarithms, and
    [vdev_raidz_exp2].  The tables are related to a reference multiplication,
    under which bytes form a field. *)

From S2P Require Import Prelude.
From Stdlib Require Import Ring Field.
Open Scope Z_scope.

Module Galois.

(** ** The code *)

(** Multiplication by 2 of a [uint8_t]. *)
Definition VDEV_RAIDZ_MUL_2 (x : Z) : Z :=
  u8 (Z.lxor (Z.shiftl x 1) (if Z.land x 128 =? 0 then 0 else 29)).

Definition VDEV_RAIDZ_MUL_4 (x : Z) : Z := VDEV_RAIDZ_MUL_2 (VDEV_RAIDZ_MUL_2 x).

(** Multiplication by 2 of each byte of a 64-bit word: the top bits are spread
    into byte masks by a shift and a subtraction. *)
Definition VDEV_RAIDZ_64MUL_2 (x : Z) : Z :=
  let mask := Z.land x 0x8080808080808080 in
  let mask := u64 (u64 (Z.shiftl mask 1) - Z.shiftr mask 7) in
  Z.lxor (Z.land (u64 (Z.shiftl x 1)) 0xfefefefefefefefe) (Z.land mask 0x1d1d1d1d1d1d1d1d).

Definition VDEV_RAIDZ_64MUL_4 (x : Z) : Z := VDEV_RAIDZ_64MUL_2 (VDEV_RAIDZ_64MUL_2 x).

Definition vdev_raidz_pow2 : list Z :=
  [1; 2; 4; 8; 16; 32; 64; 128; 29; 58; 116; 232; 205; 135; 19; 38;
   76; 152; 45; 90; 180; 117; 234; 201; 143; 3; 6; 12; 24; 48; 96; 192;
   157; 39; 78; 156; 37; 74; 148; 53; 106; 212; 181; 119; 238; 193; 159; 35;
   70; 140; 5; 10; 20; 40; 80; 160; 93; 186; 105; 210; 185; 111; 222; 161;
   95; 190; 97; 194; 153; 47; 94; 188; 101; 202; 137; 15; 30; 60; 120; 240;
   253; 231; 211; 187; 107; 214; 177; 127; 254; 225; 223; 163; 91; 182; 113; 226;
   217; 175; 67; 134; 17; 34; 68; 136; 13; 26; 52; 104; 208; 189; 103; 206;
   129; 31; 62; 124; 248; 237; 199; 147; 59; 118; 236; 197; 151; 51; 102; 204;
   133; 23; 46; 92; 184; 109; 218; 169; 79; 158; 33; 66; 132; 21; 42; 84;
   168; 77; 154; 41; 82; 164; 85; 170; 73; 146; 57; 114; 228; 213; 183; 115;
   230; 209; 191; 99; 198; 145; 63; 126; 252; 229; 215; 179; 123; 246; 241; 255;
   227; 219; 171; 75; 150; 49; 98; 196; 149; 55; 110; 220; 165; 87; 174; 65;
   130; 25; 50; 100; 200; 141; 7; 14; 28; 56; 112; 224; 221; 167; 83; 166;
   81; 162; 89; 178; 121; 242; 249; 239; 195; 155; 43; 86; 172; 69; 138; 9;
   18; 36; 72; 144; 61; 122; 244; 245; 247; 243; 251; 235; 203; 139; 11; 22;
   44; 88; 176; 125; 250; 233; 207; 131; 27; 54; 108; 216; 173; 71; 142; 1].

Definition vdev_raidz_log2 : list Z :=
  [0; 0; 1; 25; 2; 50; 26; 198; 3; 223; 51; 238; 27; 104; 199; 75;
   4; 100; 224; 14; 52; 141; 239; 129; 28; 193; 105; 248; 200; 8; 76; 113;
   5; 138; 101; 47; 225; 36; 15; 33; 53; 147; 142; 218; 240; 18; 130; 69;
   29; 181; 194; 125; 106; 39; 249; 185; 201; 154; 9; 120; 77; 228; 114; 166;
   6; 191; 139; 98; 102; 221; 48; 253; 226; 152; 37; 179; 16; 145; 34; 136;
   54; 208; 148; 206; 143; 150; 219; 189; 241; 210; 19; 92; 131; 56; 70; 64;
   30; 66; 182; 163; 195; 72; 126; 110; 107; 58; 40; 84; 250; 133; 186; 61;
   202; 94; 155; 159; 10; 21; 121; 43; 78; 212; 229; 172; 115; 243; 167; 87;
   7; 112; 192; 247; 140; 128; 99; 13; 103; 74; 222; 237; 49; 197; 254; 24;
   227; 165; 153; 119; 38; 184; 180; 124; 17; 68; 146; 217; 35; 32; 137; 46;
   55; 63; 209; 91; 149; 188; 207; 205; 144; 135; 151; 178; 220; 252; 190; 97;
   242; 86; 211; 171; 20; 42; 93; 158; 132; 60; 57; 83; 71; 109; 65; 162;
   31; 45; 67; 216; 183; 123; 164; 118; 196; 23; 73; 236; 127; 12; 111; 246;
   108; 161; 59; 82; 41; 157; 85; 170; 251; 96; 134; 177; 187; 204; 62; 90;
   203; 89; 95; 176; 156; 169; 160; 81; 11; 245; 22; 235; 122; 117; 44; 215;
   79; 174; 213; 233; 230; 231; 173; 232; 116; 214; 244; 234; 168; 80; 88; 175].

(** Multiplication of [a] by 2 to the power [exp]. *)
Definition vdev_raidz_exp2 (a exp : Z) : res Z :=
  if a =? 0 then Ok 0 else
  l ← rd vdev_raidz_log2 a;
  let exp := exp + l in
  let exp := if 255 <? exp then exp - 255 else exp in
  rd vdev_raidz_pow2 exp.

(** ** A reference multiplication

    [gmul a b] is the sum of the [2^i * b] over the bits [i] of [a]. *)
Abbreviation mul2 := VDEV_RAIDZ_MUL_2.

Definition mulp (k : nat) (b : Z) : Z := Nat.iter k mul2 b.

Definition gterm (a b : Z) (i : nat) : Z := if Z.testbit a (Z.of_nat i) then mulp i b else 0.

Fixpoint gsum (n : nat) (f : nat -> Z) : Z :=
  match n with O => 0 | S n => Z.lxor (gsum n f) (f n) end.

Definition gmul (a b : Z) : Z := gsum 8 (gterm a b).

Lemma byte_ind (f : Z -> bool) : forallZ f 0 256 = true -> forall b, is_byte b -> f b = true.
Proof. intros H b Hb. apply (forallZ_spec _ _ _ H). unfold is_byte in Hb. lia. Qed.

Lemma mul2_byte b : is_byte (mul2 b).
Proof. unfold is_byte, VDEV_RAIDZ_MUL_2. apply Z.mod_pos_bound. lia. Qed.

(** The reduction as a bit: 29 is added when bit 7 is set. *)
Lemma mul2_bit b : mul2 b = u8 (Z.lxor (Z.shiftl b 1) (if Z.testbit b 7 then 29 else 0)).
Proof.
  unfold VDEV_RAIDZ_MUL_2. do 2 f_equal.
  destruct (Z.testbit b 7) eqn:E, (Z.eqb_spec (Z.land b 128) 0) as [H|H]; try done.
  - assert (C : Z.testbit (Z.land b 128) 7 = false) by (rewrite H; apply Z.bits_0).
    by rewrite Z.land_spec, E in C.
  - destruct H. apply Z.bits_inj'. intros i Hi. rewrite Z.land_spec, Z.bits_0.
    change 128 with (2 ^ 7). rewrite Z.pow2_bits_eqb by lia.
    destruct (Z.eqb_spec 7 i) as [<-|]; [by rewrite E|by rewrite andb_false_r].
Qed.

Lemma mul2_lxor a b : mul2 (Z.lxor a b) = Z.lxor (mul2 a) (mul2 b).
Proof.
  rewrite !mul2_bit. apply Z.bits_inj'. intros i Hi. rewrite !Z.lxor_spec.
  destruct (Z.lt_ge_cases i 8).
  - assert (L : forall z, Z.testbit (u8 z) i = Z.testbit z i) by (intros; apply Z.mod_pow2_bits_low; lia).
    rewrite !L.
    rewrite !Z.lxor_spec, Z.shiftl_lxor, Z.lxor_spec.
    destruct (Z.testbit a 7), (Z.testbit b 7); cbn [xorb]; rewrite ?Z.bits_0;
      destruct (Z.testbit (Z.shiftl a 1) i), (Z.testbit (Z.shiftl b 1) i), (Z.testbit 29 i); done.
  - by rewrite !Z.mod_pow2_bits_high by lia.
Qed.

Lemma mulp_S k b : mulp (S k) b = mul2 (mulp k b).
Proof. done. Qed.

Lemma mulp_add j k b : mulp (j + k) b = mulp j (mulp k b).
Proof. apply Nat.iter_add. Qed.

Lemma mulp_lxor k a b : mulp k (Z.lxor a b) = Z.lxor (mulp k a) (mulp k b).
Proof. induction k as [|k IH]; [done|]. by rewrite !mulp_S, IH, mul2_lxor. Qed.

Lemma mulp_0 k : mulp k 0 = 0.
Proof. induction k as [|k IH]; [done|]. by rewrite mulp_S, IH. Qed.

Lemma mulp_byte k b : is_byte b -> is_byte (mulp k b).
Proof. intros Hb. destruct k; [done|]. rewrite mulp_S. apply mul2_byte. Qed.

(** Regrouping of a sum of sums. *)
Lemma lxor_swap a b c d : Z.lxor (Z.lxor a b) (Z.lxor c d) = Z.lxor (Z.lxor a c) (Z.lxor b d).
Proof. rewrite !Z.lxor_assoc. f_equal. rewrite <- !Z.lxor_assoc. f_equal. apply Z.lxor_comm. Qed.

Lemma gsum_lxor n f g : gsum n (fun i => Z.lxor (f i) (g i)) = Z.lxor (gsum n f) (gsum n g).
Proof. induction n as [|n IH]; [done|]. simpl. by rewrite IH, lxor_swap. Qed.

Lemma gsum_ext n f g : (forall i, f i = g i) -> gsum n f = gsum n g.
Proof. intros H. induction n as [|n IH]; [done|]. simpl. by rewrite IH, H. Qed.

Lemma gsum_byte n f : (forall i, is_byte (f i)) -> is_byte (gsum n f).
Proof.
  intros H. induction n as [|n IH]; [done|]. simpl. by apply lxor_byte.
Qed.

Lemma gmul_byte a b : is_byte b -> is_byte (gmul a b).
Proof.
  intros Hb. apply gsum_byte. intros i. unfold gterm.
  destruct (Z.testbit _ _); [by apply mulp_byte|done].
Qed.

Lemma gmul_lxor_l a b c : gmul (Z.lxor a b) c = Z.lxor (gmul a c) (gmul b c).
Proof.
  unfold gmul. rewrite <- gsum_lxor. apply gsum_ext. intros i. unfold gterm.
  rewrite Z.lxor_spec. destruct (Z.testbit a _), (Z.testbit b _); cbn [xorb];
    by rewrite ?Z.lxor_nilpotent, ?Z.lxor_0_r, ?Z.lxor_0_l.
Qed.

Lemma gmul_lxor_r a b c : gmul a (Z.lxor b c) = Z.lxor (gmul a b) (gmul a c).
Proof.
  unfold gmul. rewrite <- gsum_lxor. apply gsum_ext. intros i. unfold gterm.
  destruct (Z.testbit a _); [by apply mulp_lxor|done].
Qed.

Lemma gmul_1_l b : gmul 1 b = b.
Proof. unfold gmul. cbn -[mulp Z.lxor]. by rewrite !Z.lxor_0_r, Z.lxor_0_l. Qed.

Lemma gmul_0_l b : gmul 0 b = 0.
Proof. done. Qed.

Lemma mul2_if (t : bool) x : mul2 (if t then x else 0) = if t then mul2 x else 0.
Proof. by destruct t. Qed.

Lemma mulp_8 b : is_byte b -> mulp 8 b = gmul 29 b.
Proof.
  intros Hb. apply Z.eqb_eq.
  refine (byte_ind (fun b => mulp 8 b =? gmul 29 b) _ b Hb). by vm_compute.
Qed.

Lemma shifted_bit a i :
  (i < 8)%nat ->
  Z.testbit (u8 (Z.shiftl a 1)) (Z.of_nat i) =
    match i with O => false | S j => Z.testbit a (Z.of_nat j) end.
Proof.
  intros Hi. rewrite Z.mod_pow2_bits_low by lia. destruct i as [|j].
  - by rewrite Z.shiftl_spec_low by lia.
  - rewrite Z.shiftl_spec by lia. f_equal. lia.
Qed.

(** The reference multiplication commutes with doubling of its first
    argument: the reduction polynomial is the one of [VDEV_RAIDZ_MUL_2]. *)
Lemma gmul_mul2_l a b : is_byte b -> gmul (mul2 a) b = mul2 (gmul a b).
Proof.
  intros Hb.
  assert (E : mul2 a = Z.lxor (u8 (Z.shiftl a 1)) (if Z.testbit a 7 then 29 else 0)).
  { rewrite mul2_bit. apply Z.bits_inj'. intros i Hi. rewrite Z.lxor_spec.
    destruct (Z.lt_ge_cases i 8).
    - by rewrite !Z.mod_pow2_bits_low, Z.lxor_spec by lia.
    - rewrite !Z.mod_pow2_bits_high by lia.
      destruct (Z.testbit a 7); [by rewrite (testbit_small 29 8 i) by lia|by rewrite Z.bits_0]. }
  rewrite E, gmul_lxor_l.
  replace (gmul (if Z.testbit a 7 then 29 else 0) b)
    with (if Z.testbit a 7 then mulp 8 b else 0)
    by (destruct (Z.testbit a 7); [by apply mulp_8|done]).
  unfold gmul. cbn [gsum]. unfold gterm. rewrite !mul2_lxor, !mul2_if, !shifted_bit by lia.
  rewrite <- !mulp_S. change (mul2 0) with 0. change (Z.of_nat 7) with 7.
  by rewrite !Z.lxor_0_l.
Qed.

Lemma gmul_mulp_l k a b : is_byte b -> gmul (mulp k a) b = mulp k (gmul a b).
Proof. intros Hb. induction k as [|k IH]; [done|]. by rewrite !mulp_S, gmul_mul2_l, IH. Qed.

(** ** The tables *)

(** The tables as total functions. *)
Definition pow2 (i : Z) : Z := nth (Z.to_nat i) vdev_raidz_pow2 0.
Definition log2 (a : Z) : Z := nth (Z.to_nat a) vdev_raidz_log2 0.

Lemma rd_nth (l : list Z) i : 0 <= i < zlen l -> rd l i = Ok (nth (Z.to_nat i) l 0).
Proof.
  intros Hi. destruct (rd_in_bounds l i Hi) as (v & -> & Hv). f_equal. symmetry.
  by apply nth_lookup_Some.
Qed.

Lemma rd_pow2 i : 0 <= i < 256 -> rd vdev_raidz_pow2 i = Ok (pow2 i).
Proof. intros. by apply rd_nth. Qed.

Lemma rd_log2 a : is_byte a -> rd vdev_raidz_log2 a = Ok (log2 a).
Proof. intros. by apply rd_nth. Qed.

Lemma pow2_step i : 0 <= i < 255 -> pow2 (i + 1) = mul2 (pow2 i).
Proof.
  intros. apply Z.eqb_eq, (forallZ_spec (fun i => pow2 (i + 1) =? mul2 (pow2 i)) 0 255); [by vm_compute|lia].
Qed.

(** The powers table holds the powers of 2. *)
Lemma pow2_mulp (i : nat) : (i <= 255)%nat -> pow2 (Z.of_nat i) = mulp i 1.
Proof.
  induction i as [|i IH]; intros Hi; [done|].
  rewrite Nat2Z.inj_succ, <- Z.add_1_r, pow2_step, IH by lia. done.
Qed.

(** 2 has order dividing 255. *)
Lemma mulp_255 b : is_byte b -> mulp 255 b = b.
Proof.
  intros Hb. rewrite <- (gmul_1_l b) at 1. rewrite <- gmul_mulp_l by done.
  rewrite <- pow2_mulp by lia. apply gmul_1_l.
Qed.

Lemma log2_pow2 a : is_byte a -> a <> 0 -> 0 <= log2 a < 255 /\ pow2 (log2 a) = a.
Proof.
  intros Ha Ha0.
  pose proof (byte_ind (fun a => (a =? 0) || ((0 <=? log2 a) && (log2 a <? 255) && (pow2 (log2 a) =? a)))
    ltac:(by vm_compute) a Ha) as H. cbv beta in H. apply orb_true_iff in H as [H|H]; zbool; [done|lia].
Qed.

Lemma pow2_log2 i : 0 <= i < 255 -> log2 (pow2 i) = i.
Proof.
  intros. apply Z.eqb_eq, (forallZ_spec (fun i => log2 (pow2 i) =? i) 0 255); [by vm_compute|lia].
Qed.

Lemma pow2_byte i : 0 <= i < 256 -> is_byte (pow2 i) /\ pow2 i <> 0.
Proof.
  intros Hi.
  pose proof (forallZ_spec (fun i => (0 <? pow2 i) && (pow2 i <? 256)) 0 256 ltac:(by vm_compute) i ltac:(lia)) as H.
  cbv beta in H. zbool. unfold is_byte. lia.
Qed.

Lemma log_form a : is_byte a -> a <> 0 -> a = mulp (Z.to_nat (log2 a)) 1.
Proof.
  intros Ha Ha0. destruct (log2_pow2 a Ha Ha0) as [Hl E].
  rewrite <- pow2_mulp, Z2Nat.id by lia. done.
Qed.

Lemma gmul_log a b : is_byte a -> is_byte b -> a <> 0 -> gmul a b = mulp (Z.to_nat (log2 a)) b.
Proof.
  intros Ha Hb Ha0. rewrite (log_form a) at 1 by done. by rewrite gmul_mulp_l, gmul_1_l.
Qed.

Lemma gmul_0_r a : gmul a 0 = 0.
Proof.
  unfold gmul. cbn [gsum]. unfold gterm. rewrite !mulp_0.
  repeat match goal with |- context [if ?t then 0 else 0] => destruct t end; done.
Qed.

Lemma gmul_comm a b : is_byte a -> is_byte b -> gmul a b = gmul b a.
Proof.
  intros Ha Hb. destruct (Z.eq_dec a 0) as [->|Ha0]; [by rewrite gmul_0_r|].
  destruct (Z.eq_dec b 0) as [->|Hb0]; [by rewrite gmul_0_r|].
  rewrite (gmul_log a b), (gmul_log b a) by done.
  rewrite (log_form b) at 1 by done. rewrite (log_form a) at 2 by done.
  rewrite <- !mulp_add. f_equal. lia.
Qed.

Lemma gmul_assoc a b c : is_byte a -> is_byte b -> is_byte c ->
  gmul a (gmul b c) = gmul (gmul a b) c.
Proof.
  intros Ha Hb Hc. destruct (Z.eq_dec a 0) as [->|Ha0]; [by rewrite !gmul_0_l|].
  rewrite (gmul_log a b), (gmul_log a (gmul b c)) by auto using gmul_byte.
  by rewrite gmul_mulp_l.
Qed.

(** [vdev_raidz_exp2] multiplies by a power of 2; the table index never leaves
    the tables for exponents up to 255. *)
Lemma exp2_mulp a e :
  is_byte a -> 0 <= e <= 255 -> vdev_raidz_exp2 a e = Ok (mulp (Z.to_nat e) a).
Proof.
  intros Ha He. unfold vdev_raidz_exp2.
  destruct (Z.eqb_spec a 0) as [->|Ha0]; [by rewrite mulp_0|].
  rewrite rd_log2 by done. unfold mbind, res_bind.
  destruct (log2_pow2 a Ha Ha0) as [Hl _]. rewrite (log_form a) at 4 by done.
  rewrite <- mulp_add. destruct (Z.ltb_spec 255 (e + log2 a)).
  - rewrite rd_pow2 by lia. f_equal.
    replace (Z.to_nat e + Z.to_nat (log2 a))%nat
      with (255 + Z.to_nat (e + log2 a - 255))%nat by lia.
    rewrite mulp_add, mulp_255 by (by apply mulp_byte).
    rewrite <- pow2_mulp, Z2Nat.id by lia. done.
  - rewrite rd_pow2 by lia. f_equal. rewrite <- Z2Nat.inj_add by lia.
    rewrite <- pow2_mulp, Z2Nat.id by lia. done.
Qed.

Lemma mulp_gmul e a : is_byte a -> mulp e a = gmul (mulp e 1) a.
Proof. intros. by rewrite gmul_mulp_l, gmul_1_l. Qed.

(** For every byte [a] and every exponent up to 255, the table-driven
    [vdev_raidz_exp2] stays inside its tables and returns the product of [a]
    by the [e]-th power of 2 of the reference field multiplication. *)
Theorem exp2_correct a e (Ha : is_byte a) (He : 0 <= e <= 255) :
  vdev_raidz_exp2 a e = Ok (gmul (mulp (Z.to_nat e) 1) a).
Proof. rewrite exp2_mulp by done. by rewrite mulp_gmul. Qed.

Lemma exp2_correct_witness : vdev_raidz_exp2 143 200 = Ok (gmul (mulp 200 1) 143).
Proof. apply (exp2_correct 143 200); unfold is_byte; lia. Defined.

(** Eight bytes doubled at once. *)
Lemma mul2_split b :
  is_byte b -> exists t l, b = 128 * t + l /\ 0 <= t <= 1 /\ 0 <= l < 128 /\
    mul2 b = Z.lxor (2 * l) (29 * t).
Proof.
  intros Hb. exists (b / 128), (b mod 128). unfold is_byte in Hb.
  repeat split; try dlia.
  apply Z.eqb_eq.
  by refine (byte_ind (fun b => mul2 b =? Z.lxor (2 * (b mod 128)) (29 * (b / 128))) _ b Hb); vm_compute.
Qed.

Lemma land_top t l : 0 <= t <= 1 -> 0 <= l < 128 -> Z.land (128 * t + l) 128 = 128 * t.
Proof.
  intros Ht Hl. rewrite Z.add_comm, (Z.mul_comm 128).
  change (t * 128) with (t * 2 ^ 7). rewrite <- (lor_low_high l t 7) by lia.
  rewrite Z.land_lor_distr_l. change 128 with (1 * 2 ^ 7).
  rewrite (land_low_high l 1 7) by lia.
  by assert (t = 0 \/ t = 1) as [-> | ->] by lia.
Qed.

Lemma land_even t l : 0 <= t <= 1 -> 0 <= l < 128 -> Z.land (t + 2 * l) 254 = 2 * l.
Proof.
  intros Ht Hl. change 254 with (127 * 2 ^ 1). rewrite (Z.mul_comm 2 l).
  change (l * 2) with (l * 2 ^ 1). rewrite <- (lor_low_high t l 1) by lia.
  rewrite Z.land_lor_distr_l, land_low_high by lia.
  rewrite <- !Z.shiftl_mul_pow2, <- Z.shiftl_land by lia. rewrite Z.lor_0_l. f_equal.
  change 127 with (Z.ones 7). rewrite Z.land_ones by lia. by apply Z.mod_small.
Qed.

Lemma land_mask t : 0 <= t <= 1 -> Z.land (255 * t) 29 = 29 * t.
Proof. intros. by assert (t = 0 \/ t = 1) as [-> | ->] by lia. Qed.

Abbreviation is_bit t := (0 <= t <= 1).
Abbreviation is_low l := (0 <= l < 128).

Lemma mul2_split_list bs :
  Forall is_byte bs -> exists ts ls, length ts = length bs /\ length ls = length bs /\
    Forall (fun t => is_bit t) ts /\ Forall (fun l => is_low l) ls /\
    bs = zip_with (fun t l => 128 * t + l) ts ls /\
    map mul2 bs = zip_with (fun t l => Z.lxor (2 * l) (29 * t)) ts ls.
Proof.
  induction 1 as [|b bs Hb Hbs (ts & ls & Ht & Hl & Hts & Hls & E & E')].
  { by exists [], []. }
  destruct (mul2_split b Hb) as (t & l & Eb & Hb1 & Hb2 & Em).
  exists (t :: ts), (l :: ls). cbn [length zip_with map].
  rewrite <- E, <- E', <- Eb, <- Em, Ht, Hl. auto 10 using Forall_cons.
Qed.

Lemma land_tops ts ls :
  length ts = length ls -> Forall (fun t => is_bit t) ts -> Forall (fun l => is_low l) ls ->
  Z.land (le_val (zip_with (fun t l => 128 * t + l) ts ls)) (le_val (replicate (length ts) 128))
  = 128 * le_val ts.
Proof.
  intros E Hts. revert ls E. induction Hts as [|t ts Ht Hts IH]; intros [|l ls] E Hls; try done.
  apply Forall_cons_1 in Hls as [Hl Hls]. injection E as E.
  cbn [zip_with le_val replicate length].
  rewrite land_le_cons, land_top, IH by (unfold is_byte; auto; lia). lia.
Qed.

Lemma land_masks ts :
  Forall (fun t => is_bit t) ts ->
  Z.land (255 * le_val ts) (le_val (replicate (length ts) 29)) = le_val (map (Z.mul 29) ts).
Proof.
  induction 1 as [|t ts Ht Hts IH]; [done|]. cbn [map le_val replicate length].
  replace (255 * (t + 256 * le_val ts)) with (255 * t + 256 * (255 * le_val ts)) by lia.
  by rewrite land_le_cons, land_mask, IH by (unfold is_byte; lia).
Qed.

(** [c] is the bit shifted out of the byte below; what is shifted out of the
    top byte is reduced away. *)
Lemma land_evens c ts ls :
  length ts = length ls -> is_bit c -> Forall (fun t => is_bit t) ts -> Forall (fun l => is_low l) ls ->
  Z.land (c + 2 * le_val (zip_with (fun t l => 128 * t + l) ts ls))
    (le_val (replicate (length ts) 254)) = le_val (map (Z.mul 2) ls).
Proof.
  intros E Hc Hts. revert c Hc ls E.
  induction Hts as [|t ts Ht Hts IH]; intros c Hc [|l ls] E Hls; try done.
  { by rewrite Z.land_0_r. }
  apply Forall_cons_1 in Hls as [Hl Hls]. injection E as E.
  cbn [map zip_with le_val replicate length]. set (w := le_val (zip_with _ _ _)).
  replace (c + 2 * (128 * t + l + 256 * w)) with (c + 2 * l + 256 * (t + 2 * w)) by lia.
  subst w. by rewrite land_le_cons, land_even, (IH t) by (unfold is_byte; auto; lia).
Qed.

Lemma u64_mask T : 0 <= T <= 0x0101010101010101 ->
  u64 (u64 (Z.shiftl (128 * T) 1) - Z.shiftr (128 * T) 7) = 255 * T.
Proof.
  intros HT. rewrite Z.shiftl_mul_pow2, Z.shiftr_div_pow2 by lia.
  change (2 ^ 1) with 2. change (2 ^ 7) with 128.
  rewrite (Z.mul_comm 128 T), Z.div_mul by lia.
  change (2 ^ 64) with 18446744073709551616. rewrite Zminus_mod_idemp_l, Z.mod_small; lia.
Qed.

Lemma land_u64 x c : 0 <= c < 2 ^ 64 -> Z.land (u64 x) c = Z.land x c.
Proof.
  intros. rewrite <- Z.land_ones, <- Z.land_assoc by lia. f_equal.
  rewrite Z.land_comm, Z.land_ones by lia. by apply Z.mod_small.
Qed.

Lemma le_val_bits ts : Forall (fun t => is_bit t) ts -> length ts = 8%nat -> 0 <= le_val ts <= 0x0101010101010101.
Proof.
  intros H E. do 8 (destruct ts as [|? ts]; [done|]). destruct ts; [|done].
  repeat (apply Forall_cons_1 in H as [? H]). cbn [le_val]. lia.
Qed.

Lemma mul64_le_val bs :
  Forall is_byte bs -> length bs = 8%nat ->
  VDEV_RAIDZ_64MUL_2 (le_val bs) = le_val (map VDEV_RAIDZ_MUL_2 bs).
Proof.
  intros Hbs Hlen. destruct (mul2_split_list bs Hbs) as (ts & ls & Ht & Hl & Hts & Hls & E & ->).
  rewrite Hlen in *. unfold VDEV_RAIDZ_64MUL_2. rewrite E.
  pose proof (land_tops ts ls ltac:(lia) Hts Hls) as H1.
  pose proof (land_masks ts Hts) as H2.
  pose proof (land_evens 0 ts ls ltac:(lia) ltac:(lia) Hts Hls) as H3.
  rewrite Ht in *.
  change (le_val (replicate 8 128)) with 0x8080808080808080 in H1.
  change (le_val (replicate 8 29)) with 0x1d1d1d1d1d1d1d1d in H2.
  change (le_val (replicate 8 254)) with 0xfefefefefefefefe in H3.
  rewrite H1. cbv zeta. rewrite u64_mask by (by apply le_val_bits). rewrite H2.
  rewrite land_u64, Z.shiftl_mul_pow2, Z.mul_comm by lia. change (2 ^ 1) with 2.
  rewrite Z.add_0_l in H3. rewrite H3, lxor_le_val.
  - f_equal. rewrite zip_with_fmap_l, zip_with_fmap_r. symmetry.
    apply (zip_with_flip (fun l t => Z.lxor (2 * l) (29 * t))).
  - clear - Hls. induction Hls; constructor; [unfold is_byte; lia|done].
  - clear - Hts. induction Hts; constructor; [unfold is_byte; lia|done].
  - rewrite !length_map. lia.
Qed.

Lemma Forall_mul2 bs : Forall is_byte (map mul2 bs).
Proof. induction bs; constructor; [apply mul2_byte|done]. Qed.

Lemma mul64_4_le_val bs :
  Forall is_byte bs -> length bs = 8%nat ->
  VDEV_RAIDZ_64MUL_4 (le_val bs) = le_val (map VDEV_RAIDZ_MUL_4 bs).
Proof.
  intros Hbs Hlen. unfold VDEV_RAIDZ_64MUL_4. rewrite mul64_le_val by done.
  rewrite mul64_le_val by (rewrite ?length_map; auto using Forall_mul2). by rewrite map_map.
Qed.

(** The 64-bit [VDEV_RAIDZ_64MUL_2] and [VDEV_RAIDZ_64MUL_4] multiply each
    of the eight bytes of a word by 2 (by 4) in the field, independently: no
    carry crosses a byte. *)
Theorem mul64_bytewise bs (Hbs : Forall is_byte bs) (Hlen : length bs = 8%nat) :
  VDEV_RAIDZ_64MUL_2 (le_val bs) = le_val (map (gmul 2) bs) /\
  VDEV_RAIDZ_64MUL_4 (le_val bs) = le_val (map (gmul 4) bs).
Proof.
  rewrite mul64_le_val, mul64_4_le_val by done.
  split; f_equal; apply map_ext_Forall; (eapply Forall_impl; [|exact Hbs]); intros b Hb.
  - apply (mulp_gmul 1 b Hb).
  - apply (mulp_gmul 2 b Hb).
Qed.

Lemma mul64_bytewise_witness :
  VDEV_RAIDZ_64MUL_2 (le_val [1; 128; 255; 127; 200; 64; 3; 129])
  = le_val (map (gmul 2) [1; 128; 255; 127; 200; 64; 3; 129]) /\
  VDEV_RAIDZ_64MUL_4 (le_val [1; 128; 255; 127; 200; 64; 3; 129])
  = le_val (map (gmul 4) [1; 128; 255; 127; 200; 64; 3; 129]).
Proof.
  apply (mul64_bytewise [1; 128; 255; 127; 200; 64; 3; 129]).
  - repeat constructor; unfold is_byte; lia.
  - reflexivity.
Defined.

(** ** Horner sums

    [horner k d n] is the sum of the [2^(k*(n-1-i)) * d i] for [i < n], the
    value of a parity byte over [n] data bytes. *)
Fixpoint horner (k : nat) (d : nat -> Z) (n : nat) : Z :=
  match n with O => 0 | S n => Z.lxor (mulp k (horner k d n)) (d n) end.

Lemma horner_ext k d e n : (forall i, (i < n)%nat -> d i = e i) -> horner k d n = horner k e n.
Proof. induction n as [|n IH]; intros H; [done|]. cbn [horner]. rewrite IH, H by auto. done. Qed.

Lemma horner_lxor k d e n :
  horner k (fun i => Z.lxor (d i) (e i)) n = Z.lxor (horner k d n) (horner k e n).
Proof. induction n as [|n IH]; [done|]. cbn [horner]. by rewrite IH, mulp_lxor, lxor_swap. Qed.

Lemma horner_0 k n : horner k (fun _ => 0) n = 0.
Proof. induction n as [|n IH]; [done|]. cbn [horner]. by rewrite IH, mulp_0. Qed.

Lemma horner_byte k d n : (forall i, (i < n)%nat -> is_byte (d i)) -> is_byte (horner k d n).
Proof.
  induction n as [|n IH]; intros H; [done|]. cbn [horner].
  apply lxor_byte; [apply mulp_byte, IH|]; auto with lia.
Qed.

(** One term alone. *)
Lemma horner_single k v a n : (a < n)%nat ->
  horner k (fun i => if decide (i = a) then v else 0) n = mulp (k * (n - 1 - a)) v.
Proof.
  intros Ha. induction n as [|n IH]; [lia|]. cbn [horner]. destruct (decide (n = a)) as [->|Hn].
  - rewrite (horner_ext k _ (fun _ => 0)), horner_0, mulp_0, Z.lxor_0_l.
    + replace (S a - 1 - a)%nat with 0%nat by lia. by rewrite Nat.mul_0_r.
    + intros i Hi. by destruct (decide _); [lia|].
  - rewrite IH, Z.lxor_0_r by lia. rewrite <- mulp_add. f_equal.
    replace (S n - 1 - a)%nat with (S (n - 1 - a)) by lia. lia.
Qed.

(** Separating one term. *)
Lemma horner_split k d a n : (a < n)%nat ->
  horner k d n = Z.lxor (horner k (fun i => if decide (i = a) then 0 else d i) n)
                        (mulp (k * (n - 1 - a)) (d a)).
Proof.
  intros Ha. rewrite <- horner_single by done. rewrite <- horner_lxor. apply horner_ext.
  intros i Hi. destruct (decide (i = a)) as [->|]; by rewrite ?Z.lxor_0_l, ?Z.lxor_0_r.
Qed.

(** The sum the source documents. *)
Lemma horner_sum k d n : (forall i, (i < n)%nat -> is_byte (d i)) ->
  horner k d n = gsum n (fun i => gmul (mulp (k * (n - 1 - i)) 1) (d i)).
Proof.
  intros Hd. enough (H : forall e m, (e + m = n)%nat ->
    mulp (k * e) (horner k d m) = gsum m (fun i => gmul (mulp (k * (n - 1 - i)) 1) (d i))).
  { specialize (H 0%nat n). rewrite Nat.mul_0_r in H. by apply H. }
  intros e m. revert e. induction m as [|m IH]; intros e He; cbn [horner gsum]; [apply mulp_0|].
  rewrite mulp_lxor, <- mulp_add. f_equal.
  - rewrite <- (IH (S e)) by lia. f_equal. lia.
  - rewrite mulp_gmul by (apply Hd; lia). f_equal. f_equal. f_equal. lia.
Qed.

(** ** The field

    Bytes with their bound, so that the [ring] and [field] tactics apply. *)
Definition byteb (v : Z) : bool := (0 <=? v) && (v <? 256).

Record gf := GF { gval : Z; gok : byteb gval = true }.

Lemma byteb_spec v : byteb v = true <-> is_byte v.
Proof. unfold byteb, is_byte. split; intros; zbool; [lia|]. by apply andb_true_intro; split; [apply Z.leb_le|apply Z.ltb_lt]; lia. Qed.

Lemma gval_byte (x : gf) : is_byte (gval x).
Proof. apply byteb_spec, gok. Qed.

Lemma gf_eq (x y : gf) : gval x = gval y -> x = y.
Proof. destruct x as [a Ha], y as [b Hb]; cbn. intros ->. f_equal. apply proof_irrel. Qed.

Definition gf_of (v : Z) : gf :=
  match decide (byteb v = true) with
  | left H => GF v H
  | right _ => GF 0 eq_refl
  end.

Lemma gval_of v : is_byte v -> gval (gf_of v) = v.
Proof. intros Hv%byteb_spec. unfold gf_of. by destruct (decide _). Qed.

Lemma gf_of_val x : gf_of (gval x) = x.
Proof. apply gf_eq, gval_of, gval_byte. Qed.

Definition gf_0 : gf := gf_of 0.
Definition gf_1 : gf := gf_of 1.
Definition gf_2 : gf := gf_of 2.
Definition gf_add (x y : gf) : gf := gf_of (Z.lxor (gval x) (gval y)).
Definition gf_mul (x y : gf) : gf := gf_of (gmul (gval x) (gval y)).
Definition gf_inv (x : gf) : gf := gf_of (mulp (Z.to_nat (255 - log2 (gval x))) 1).
Definition gf_opp (x : gf) : gf := x.
Definition gf_div (x y : gf) : gf := gf_mul x (gf_inv y).

Lemma gval_0 : gval gf_0 = 0.
Proof. done. Qed.
Lemma gval_1 : gval gf_1 = 1.
Proof. done. Qed.
Lemma gval_add x y : gval (gf_add x y) = Z.lxor (gval x) (gval y).
Proof. apply gval_of, lxor_byte; apply gval_byte. Qed.
Lemma gval_mul x y : gval (gf_mul x y) = gmul (gval x) (gval y).
Proof. apply gval_of, gmul_byte, gval_byte. Qed.
Lemma gval_inv x : gval (gf_inv x) = mulp (Z.to_nat (255 - log2 (gval x))) 1.
Proof. by apply gval_of, mulp_byte. Qed.

Ltac gfs := intros; apply gf_eq; unfold gf_div, gf_opp;
  rewrite ?gval_add, ?gval_mul, ?gval_add, ?gval_mul, ?gval_0, ?gval_1.

Lemma gf_ring : ring_theory gf_0 gf_1 gf_add gf_mul gf_add gf_opp eq.
Proof.
  constructor; gfs; auto using gmul_1_l, Z.lxor_comm, gval_byte, gmul_comm, gmul_assoc, gmul_lxor_l, Z.lxor_nilpotent.
  by rewrite Z.lxor_assoc.
Qed.

Lemma gf_mul_inv x : x <> gf_0 -> gf_mul (gf_inv x) x = gf_1.
Proof.
  intros Hx. assert (gval x <> 0) by (intros E; apply Hx, gf_eq; done).
  pose proof (gval_byte x) as Hb. destruct (log2_pow2 _ Hb ltac:(done)) as [Hl _]. gfs.
  rewrite gval_inv, gmul_mulp_l, gmul_1_l by done. rewrite (log_form (gval x)) at 2 by done.
  rewrite <- mulp_add. replace (_ + _)%nat with 255%nat by lia. by apply mulp_255.
Qed.

Lemma gf_field : field_theory gf_0 gf_1 gf_add gf_mul gf_add gf_opp gf_div gf_inv eq.
Proof. constructor; [apply gf_ring|done|done|apply gf_mul_inv]. Qed.

Lemma gf_add_self x : gf_add x x = gf_0.
Proof. apply gf_eq. by rewrite gval_add, Z.lxor_nilpotent. Qed.

(** Coefficients of polynomials are bits: the field has characteristic 2. *)
Definition gf_bit (b : bool) : gf := if b then gf_1 else gf_0.

Lemma gf_morph :
  ring_morph gf_0 gf_1 gf_add gf_mul gf_add gf_opp eq
    false true xorb andb xorb (fun b => b) Bool.eqb gf_bit.
Proof.
  constructor; try done.
  - intros [] []; by apply gf_eq.
  - intros [] []; by apply gf_eq.
  - intros [] []; by apply gf_eq.
  - by intros x y ->%Bool.eqb_prop.
Qed.

Ltac gf_cst t := match t with gf_0 => constr:(false) | gf_1 => constr:(true) | _ => constr:(NotConstant) end.

Add Field gf_field_inst : gf_field (morphism gf_morph, constants [gf_cst]).

(** Powers of 2 as field elements. *)
Definition gpow (k : nat) : gf := gf_of (mulp k 1).

Lemma gval_gpow k : gval (gpow k) = mulp k 1.
Proof. by apply gval_of, mulp_byte. Qed.

Lemma gpow_mul k x : gval (gf_mul (gpow k) x) = mulp k (gval x).
Proof. rewrite gval_mul, gval_gpow, <- mulp_gmul; auto using gval_byte. Qed.

Lemma gpow_add j k : gpow (j + k) = gf_mul (gpow j) (gpow k).
Proof. apply gf_eq. by rewrite gpow_mul, !gval_gpow, mulp_add. Qed.

Lemma gpow_0 : gpow 0 = gf_1.
Proof. by apply gf_eq. Qed.

Lemma gpow_255 : gpow 255 = gf_1.
Proof. apply gf_eq. rewrite gval_gpow. by apply mulp_255. Qed.

Lemma gpow_pow2 (i : Z) : 0 <= i <= 255 -> gf_of (pow2 i) = gpow (Z.to_nat i).
Proof. intros. apply gf_eq. rewrite gval_gpow, <- pow2_mulp, Z2Nat.id by lia. apply gval_of, pow2_byte. lia. Qed.

(** 2 generates the multiplicative group: its powers below 255 differ. *)
Lemma gpow_inj j k : (j < 255)%nat -> (k < 255)%nat -> gpow j = gpow k -> j = k.
Proof.
  intros Hj Hk E%(f_equal gval). rewrite !gval_gpow, <- !pow2_mulp in E by lia.
  apply (f_equal log2) in E. rewrite !pow2_log2 in E by lia. lia.
Qed.

Lemma gpow_nz k : gpow k <> gf_0.
Proof.
  intros E. assert (H : gf_mul (gpow (254 * k)) (gpow k) = gf_0) by (rewrite E; ring).
  rewrite <- gpow_add in H. replace (254 * k + k)%nat with (255 * k)%nat in H by lia.
  assert (H1 : gpow (255 * k) = gf_1).
  { clear. induction k as [|k IH]; [by apply gf_eq|].
    replace (255 * S k)%nat with (255 + 255 * k)%nat by lia.
    rewrite gpow_add, gpow_255, IH. ring. }
  rewrite H1 in H. apply (f_equal gval) in H. done.
Qed.

(** Multiplication through logarithms. *)
Lemma mulp_log a v : is_byte a -> a <> 0 -> is_byte v ->
  mulp (Z.to_nat (log2 a)) v = gval (gf_mul (gf_of a) (gf_of v)).
Proof. intros. by rewrite gval_mul, !gval_of, gmul_log by done. Qed.

Lemma gf_of_nz a : is_byte a -> a <> 0 -> gf_of a <> gf_0.
Proof. intros Ha Hn E%(f_equal gval). rewrite gval_of in E by done. done. Qed.

Lemma gval_nz x : x <> gf_0 -> gval x <> 0.
Proof. intros Hx E. apply Hx, gf_eq. done. Qed.

(** [exp2] by the complement of a logarithm divides. *)
Lemma mulp_inv a v : is_byte a -> a <> 0 -> is_byte v ->
  mulp (Z.to_nat (255 - log2 a)) v = gval (gf_div (gf_of v) (gf_of a)).
Proof.
  intros Ha Hn Hv. unfold gf_div. rewrite (Rmul_comm gf_ring), gval_mul, gval_inv, gval_of by done.
  rewrite gval_of by done. rewrite <- mulp_gmul; auto.
Qed.

Lemma gf_of_lxor a b : is_byte a -> is_byte b -> gf_of (Z.lxor a b) = gf_add (gf_of a) (gf_of b).
Proof. intros. apply gf_eq. rewrite gval_add, !gval_of; auto using lxor_byte. Qed.

Lemma gf_of_mulp k a : is_byte a -> gf_of (mulp k a) = gf_mul (gpow k) (gf_of a).
Proof. intros. apply gf_eq. rewrite gpow_mul, !gval_of; auto using mulp_byte. Qed.

Lemma gf_add_eq_0 x y : gf_add x y = gf_0 -> x = y.
Proof. intros H. transitivity (gf_add (gf_add x y) y); [ring|]. rewrite H. ring. Qed.

Lemma gf_mul_nz x y : x <> gf_0 -> y <> gf_0 -> gf_mul x y <> gf_0.
Proof.
  intros Hx Hy E. apply Hy. transitivity (gf_mul (gf_inv x) (gf_mul x y)); [field; done|].
  rewrite E. ring.
Qed.

Lemma gf_1_nz : gf_1 <> gf_0.
Proof. intros E%(f_equal gval). done. Qed.

Lemma gf_inv_nz x : x <> gf_0 -> gf_inv x <> gf_0.
Proof.
  intros Hx E. apply gf_1_nz. transitivity (gf_mul (gf_inv x) x); [field; done|]. rewrite E. ring.
Qed.

#[global] Opaque gf_0 gf_1 gf_of gf_add gf_mul gf_inv gpow gmul mulp.
End Galois.
