(* ===== verification/RaidzMap.v ===== *)
(** RAID-Z maps (module/zfs/vdev_raidz.c): the columns a logical I/O is spread
    over, their allocation, and the allocated size of a block. *)

From S2P Require Import Prelude.
Open Scope Z_scope.

Module RaidzMap.

(** ** Data *)

(** A column.  Its buffer [rc_data] is the list of its bytes: the data columns
    of the source are disjoint slices of the caller's buffer, the parity
    columns have buffers of their own, and a skipped column has none. *)
Record raidz_col := RC {
  rc_devidx : Z;
  rc_offset : Z;
  rc_size : Z;
  rc_data : list Z;
  rc_gdata : option (list Z);
  rc_error : Z;
  rc_tried : bool;
  rc_skipped : bool }.

Record raidz_map := RM {
  rm_cols : Z;
  rm_scols : Z;
  rm_bigcols : Z;
  rm_asize : Z;
  rm_missingdata : Z;
  rm_missingparity : Z;
  rm_firstdatacol : Z;
  rm_nskip : Z;
  rm_skipstart : Z;
  rm_datacopy : option (list Z);
  rm_reports : Z;
  rm_freed : bool;
  rm_ecksuminjected : bool;
  rm_col : list raidz_col }.

Definition VDEV_RAIDZ_P := 0.
Definition VDEV_RAIDZ_Q := 1.
Definition VDEV_RAIDZ_R := 2.

(** Updates of one field. *)
Definition set_rc_data (d : list Z) (c : raidz_col) : raidz_col :=
  RC (rc_devidx c) (rc_offset c) (rc_size c) d (rc_gdata c) (rc_error c) (rc_tried c) (rc_skipped c).
Definition set_rc_size (n : Z) (c : raidz_col) : raidz_col :=
  RC (rc_devidx c) (rc_offset c) n (rc_data c) (rc_gdata c) (rc_error c) (rc_tried c) (rc_skipped c).
Definition set_rc_error (e : Z) (c : raidz_col) : raidz_col :=
  RC (rc_devidx c) (rc_offset c) (rc_size c) (rc_data c) (rc_gdata c) e (rc_tried c) (rc_skipped c).
Definition set_rc_status (e : Z) (t s : bool) (c : raidz_col) : raidz_col :=
  RC (rc_devidx c) (rc_offset c) (rc_size c) (rc_data c) (rc_gdata c) e t s.
Definition set_rc_where (dev off : Z) (c : raidz_col) : raidz_col :=
  RC dev off (rc_size c) (rc_data c) (rc_gdata c) (rc_error c) (rc_tried c) (rc_skipped c).

Definition set_rm_col (cols : list raidz_col) (rm : raidz_map) : raidz_map :=
  RM (rm_cols rm) (rm_scols rm) (rm_bigcols rm) (rm_asize rm) (rm_missingdata rm)
    (rm_missingparity rm) (rm_firstdatacol rm) (rm_nskip rm) (rm_skipstart rm)
    (rm_datacopy rm) (rm_reports rm) (rm_freed rm) (rm_ecksuminjected rm) cols.

(** [rm->rm_col[c].field = v]. *)
Definition upd_col (rm : raidz_map) (c : Z) (f : raidz_col -> raidz_col) : res raidz_map :=
  rc ← rd (rm_col rm) c;
  cols ← wr (rm_col rm) c (f rc);
  Ok (set_rm_col cols rm).

(** ** Allocation of a map *)

(** What an allocator promises: a buffer of the size asked for. *)
Definition allocates (alloc : Z -> list Z) : Prop :=
  forall n, 0 <= n -> zlen (alloc n) = n /\ Forall is_byte (alloc n).

Section alloc.
(** [zio_buf_alloc]: a buffer of the given size, its content unspecified. *)
Variable zio_buf_alloc : Z -> list Z.

(** The column [c] as the first loop of [vdev_raidz_map_alloc] sets it. *)
Definition map_alloc_col (unit_shift dcols f o q bc acols c : Z) : raidz_col :=
  let col := f + c in
  let '(col, coff) := if dcols <=? col then (col - dcols, u64 (o + u64 (Z.shiftl 1 unit_shift))) else (col, o) in
  let size := if acols <=? c then 0
              else if c <? bc then u64 (Z.shiftl (q + 1) unit_shift)
              else u64 (Z.shiftl q unit_shift) in
  RC col coff size [] None 0 false false.

(** The buffers: parity columns get their own, data columns follow each other
    in the caller's buffer from byte [off] on, and the columns from [acols] on
    keep no buffer. *)
Fixpoint map_alloc_data (nparity acols c off : Z) (io_data : list Z) (cols : list raidz_col) : list raidz_col :=
  match cols with
  | [] => []
  | rc :: cols =>
      if c <? nparity then
        set_rc_data (zio_buf_alloc (rc_size rc)) rc
          :: map_alloc_data nparity acols (c + 1) off io_data cols
      else if (c =? nparity) || (c <? acols) then
        set_rc_data (take (Z.to_nat (rc_size rc)) (drop (Z.to_nat off) io_data)) rc
          :: map_alloc_data nparity acols (c + 1) (off + rc_size rc) io_data cols
      else rc :: map_alloc_data nparity acols (c + 1) off io_data cols
  end.

Definition vdev_raidz_map_alloc (io_offset io_size : Z) (io_data : list Z)
    (unit_shift dcols nparity : Z) : res raidz_map :=
  let b := Z.shiftr io_offset unit_shift in
  let s := Z.shiftr io_size unit_shift in
  let f := b mod dcols in
  let o := u64 (Z.shiftl (b / dcols) unit_shift) in
  let q := s / (dcols - nparity) in
  let r := s - q * (dcols - nparity) in
  let bc := if r =? 0 then 0 else r + nparity in
  let tot := u64 (s + u64 (nparity * (q + (if r =? 0 then 0 else 1)))) in
  let '(acols, scols) :=
    if q =? 0 then (bc, Z.min dcols (roundup bc (nparity + 1))) else (dcols, dcols) in
  '(cols, asize) ← for_range 0 scols (fun c '(cols, asize) =>
      let rc := map_alloc_col unit_shift dcols f o q bc acols c in
      Ok (cols ++ [rc], u64 (asize + rc_size rc))) ([], 0);
  let rm_asize := roundup asize (u64 (Z.shiftl (nparity + 1) unit_shift)) in
  let rm_nskip := u64 (roundup tot (nparity + 1) - tot) in
  _ ← rd cols nparity;
  let cols := map_alloc_data nparity acols 0 0 io_data cols in
  '(cols, skipstart) ←
    (if (nparity =? 1) && negb (Z.land io_offset (Z.shiftl 1 20) =? 0) then
       c0 ← rd cols 0;
       c1 ← rd cols 1;
       cols ← wr cols 0 (set_rc_where (rc_devidx c1) (rc_offset c1) c0);
       cols ← wr cols 1 (set_rc_where (rc_devidx c0) (rc_offset c0) c1);
       Ok (cols, if bc =? 0 then 1 else bc)
     else Ok (cols, bc));
  Ok (RM acols scols bc rm_asize 0 0 nparity rm_nskip skipstart None 0 false false cols).
End alloc.

(** The allocated size of a block of [psize] bytes. *)
Definition vdev_raidz_asize (ashift cols nparity psize : Z) : Z :=
  let asize := u64 (Z.shiftr (u64 (psize - 1)) ashift + 1) in
  let asize := u64 (asize + u64 (nparity * (u64 (asize + cols - nparity - 1) / (cols - nparity)))) in
  u64 (Z.shiftl (roundup asize (nparity + 1)) ashift).
End RaidzMap.
