(* ===== verification/RaidzParity.v ===== *)
(** RAID-Z parity (module/zfs/vdev_raidz.c): generation of the P, Q and R
    columns a 64-bit word at a time, and its meaning as sums in the field. *)

From S2P Require Import Prelude Galois RaidzMap.
Import Galois RaidzMap.
Open Scope Z_scope.

Module RaidzParity.

(** ** The code *)

(** The [i]-th [uint64_t] of a buffer. *)
Abbreviation rd64 buf i := (rd_word 8 buf (8 * i)).
Abbreviation wr64 buf i w := (wr_word 8 buf (8 * i) w).

Definition col_data (rm : raidz_map) (c : Z) : res (list Z) := rc ← rd (rm_col rm) c; Ok (rc_data rc).
Definition col_size (rm : raidz_map) (c : Z) : res Z := rc ← rd (rm_col rm) c; Ok (rc_size rc).
Definition set_col_data (rm : raidz_map) (c : Z) (d : list Z) : res raidz_map := upd_col rm c (set_rc_data d).
Definition set_col_size (rm : raidz_map) (c : Z) (n : Z) : res raidz_map := upd_col rm c (set_rc_size n).

Definition vdev_raidz_generate_parity_p (rm : raidz_map) : res raidz_map :=
  for_range (rm_firstdatacol rm) (rm_cols rm) (fun c rm =>
    src ← col_data rm c;
    p ← col_data rm VDEV_RAIDZ_P;
    csize ← col_size rm c;
    let ccount := csize / 8 in
    p ← (if c =? rm_firstdatacol rm then
           for_range 0 ccount (fun i p => s ← rd64 src i; wr64 p i s) p
         else
           for_range 0 ccount (fun i p => s ← rd64 src i; x ← rd64 p i; wr64 p i (Z.lxor x s)) p);
    set_col_data rm VDEV_RAIDZ_P p) rm.

(** The first data column initialises P and Q; a later one is added, after
    the previous Q has been doubled. *)
Definition pq_first (src : list Z) (ccnt pcnt : Z) (pq : list Z * list Z) : res (list Z * list Z) :=
  pq ← for_range 0 ccnt (fun i '(p, q) =>
    s ← rd64 src i; p ← wr64 p i s; q ← wr64 q i s; Ok (p, q)) pq;
  for_range ccnt pcnt (fun i '(p, q) =>
    p ← wr64 p i 0; q ← wr64 q i 0; Ok (p, q)) pq.

Definition pq_next (src : list Z) (ccnt pcnt : Z) (pq : list Z * list Z) : res (list Z * list Z) :=
  '(p, q) ← for_range 0 ccnt (fun i '(p, q) =>
    s ← rd64 src i;
    x ← rd64 p i; p ← wr64 p i (Z.lxor x s);
    y ← rd64 q i; q ← wr64 q i (Z.lxor (VDEV_RAIDZ_64MUL_2 y) s);
    Ok (p, q)) pq;
  q ← for_range ccnt pcnt (fun i q =>
    y ← rd64 q i; wr64 q i (VDEV_RAIDZ_64MUL_2 y)) q;
  Ok (p, q).

Definition vdev_raidz_generate_parity_pq (rm : raidz_map) : res raidz_map :=
  psize ← col_size rm VDEV_RAIDZ_P;
  let pcnt := psize / 8 in
  for_range (rm_firstdatacol rm) (rm_cols rm) (fun c rm =>
    src ← col_data rm c;
    p ← col_data rm VDEV_RAIDZ_P;
    q ← col_data rm VDEV_RAIDZ_Q;
    csize ← col_size rm c;
    let ccnt := csize / 8 in
    '(p, q) ←
      (if c =? rm_firstdatacol rm then pq_first src ccnt pcnt (p, q)
       else pq_next src ccnt pcnt (p, q));
    rm ← set_col_data rm VDEV_RAIDZ_P p;
    set_col_data rm VDEV_RAIDZ_Q q) rm.

Definition pqr_first (src : list Z) (ccnt pcnt : Z) (pqr : list Z * list Z * list Z) :
    res (list Z * list Z * list Z) :=
  pqr ← for_range 0 ccnt (fun i '(p, q, r) =>
    s ← rd64 src i; p ← wr64 p i s; q ← wr64 q i s; r ← wr64 r i s; Ok (p, q, r)) pqr;
  for_range ccnt pcnt (fun i '(p, q, r) =>
    p ← wr64 p i 0; q ← wr64 q i 0; r ← wr64 r i 0; Ok (p, q, r)) pqr.

Definition pqr_next (src : list Z) (ccnt pcnt : Z) (pqr : list Z * list Z * list Z) :
    res (list Z * list Z * list Z) :=
  '(p, q, r) ← for_range 0 ccnt (fun i '(p, q, r) =>
    s ← rd64 src i;
    x ← rd64 p i; p ← wr64 p i (Z.lxor x s);
    y ← rd64 q i; q ← wr64 q i (Z.lxor (VDEV_RAIDZ_64MUL_2 y) s);
    z ← rd64 r i; r ← wr64 r i (Z.lxor (VDEV_RAIDZ_64MUL_4 z) s);
    Ok (p, q, r)) pqr;
  '(q, r) ← for_range ccnt pcnt (fun i '(q, r) =>
    y ← rd64 q i; q ← wr64 q i (VDEV_RAIDZ_64MUL_2 y);
    z ← rd64 r i; r ← wr64 r i (VDEV_RAIDZ_64MUL_4 z);
    Ok (q, r)) (q, r);
  Ok (p, q, r).

Definition vdev_raidz_generate_parity_pqr (rm : raidz_map) : res raidz_map :=
  psize ← col_size rm VDEV_RAIDZ_P;
  let pcnt := psize / 8 in
  for_range (rm_firstdatacol rm) (rm_cols rm) (fun c rm =>
    src ← col_data rm c;
    p ← col_data rm VDEV_RAIDZ_P;
    q ← col_data rm VDEV_RAIDZ_Q;
    r ← col_data rm VDEV_RAIDZ_R;
    csize ← col_size rm c;
    let ccnt := csize / 8 in
    '(p, q, r) ←
      (if c =? rm_firstdatacol rm then pqr_first src ccnt pcnt (p, q, r)
       else pqr_next src ccnt pcnt (p, q, r));
    rm ← set_col_data rm VDEV_RAIDZ_P p;
    rm ← set_col_data rm VDEV_RAIDZ_Q q;
    set_col_data rm VDEV_RAIDZ_R r) rm.

(** An unknown parity count is a panic ([CE_PANIC]). *)
Definition vdev_raidz_generate_parity (rm : raidz_map) : res raidz_map :=
  if rm_firstdatacol rm =? 1 then vdev_raidz_generate_parity_p rm
  else if rm_firstdatacol rm =? 2 then vdev_raidz_generate_parity_pq rm
  else if rm_firstdatacol rm =? 3 then vdev_raidz_generate_parity_pqr rm
  else Fault FPanic.

(** One data column added to the recomputed Q of the others. *)
Definition q_add (first : bool) (src : list Z) (count xcount : Z) (dst : list Z) : res (list Z) :=
  if first then
    dst ← for_range 0 count (fun i dst => s ← rd64 src i; wr64 dst i s) dst;
    for_range count xcount (fun i dst => wr64 dst i 0) dst
  else
    dst ← for_range 0 count (fun i dst =>
      d ← rd64 dst i; s ← rd64 src i; wr64 dst i (Z.lxor (VDEV_RAIDZ_64MUL_2 d) s)) dst;
    for_range count xcount (fun i dst => d ← rd64 dst i; wr64 dst i (VDEV_RAIDZ_64MUL_2 d)) dst.

(** ** Word loops as updates of bytes *)

(** Bytes [lo..hi) of [buf] combined with the same bytes of [src]. *)
Definition upd (f : Z -> Z -> Z) (src : list Z) (lo hi : Z) (buf : list Z) : list Z :=
  tab (length buf) (fun j =>
    if (lo <=? Z.of_nat j) && (Z.of_nat j <? hi) then f (nth j buf 0) (nth j src 0) else nth j buf 0).

(** [F] on words acts as [f] on each of their bytes. *)
Class Bytewise (F f : Z -> Z -> Z) : Prop := {
  bw_val : forall bs cs, Forall is_byte bs -> Forall is_byte cs ->
    length bs = 8%nat -> length cs = 8%nat ->
    F (le_val bs) (le_val cs) = le_val (zip_with f bs cs);
  bw_byte : forall b c, is_byte b -> is_byte c -> is_byte (f b c) }.

Lemma length_upd f src lo hi buf : length (upd f src lo hi buf) = length buf.
Proof. apply length_tab. Qed.

Lemma upd_nil f src lo hi buf : hi <= lo -> upd f src lo hi buf = buf.
Proof.
  intros. rewrite <- (tab_nth buf) at 2. apply tab_ext. intros j Hj. case_if as E; [lia|done].
Qed.

Lemma upd_byte f src lo hi buf :
  (forall b c, is_byte b -> is_byte c -> is_byte (f b c)) ->
  Forall is_byte src -> Forall is_byte buf -> Forall is_byte (upd f src lo hi buf).
Proof.
  intros Hf Hs Hb. apply Forall_tab. intros j Hj.
  destruct (_ && _); [apply Hf|]; by apply nth_byte.
Qed.

Lemma nth_upd f src lo hi buf j : (j < length buf)%nat ->
  nth j (upd f src lo hi buf) 0 =
    if (lo <=? Z.of_nat j) && (Z.of_nat j <? hi) then f (nth j buf 0) (nth j src 0) else nth j buf 0.
Proof. intros. unfold upd. rewrite nth_tab. by destruct (decide _). Qed.

(** The bytes of word [i]. *)
Definition seg (buf : list Z) (i : Z) : list Z := tab 8 (fun k => nth (Z.to_nat (8 * i) + k) buf 0).

Lemma seg_byte buf i : Forall is_byte buf -> Forall is_byte (seg buf i).
Proof. intros. apply Forall_tab. intros. by apply nth_byte. Qed.

Lemma rd64_seg buf i : 0 <= i -> 8 * i + 8 <= zlen buf -> rd64 buf i = Ok (le_val (seg buf i)).
Proof.
  intros Hi Hb. unfold rd_word. change (Z.of_nat 8) with 8.
  rewrite (proj2 (Z.leb_le 0 (8 * i))), (proj2 (Z.leb_le (8 * i + 8) _)) by lia. cbn [andb].
  do 2 f_equal. unfold seg. apply list_eq_nth.
  - rewrite length_take, length_drop, length_tab. lia.
  - rewrite length_tab. intros j Hj. rewrite nth_tab. destruct (decide _); [|lia].
    rewrite nth_firstn, nth_skipn. by rewrite (proj2 (Nat.ltb_lt j 8)).
Qed.

Lemma wr64_tab buf i bs : 0 <= i -> 8 * i + 8 <= zlen buf -> Forall is_byte bs -> length bs = 8%nat ->
  wr64 buf i (le_val bs) = Ok (tab (length buf) (fun j =>
    if (8 * i <=? Z.of_nat j) && (Z.of_nat j <? 8 * (i + 1)) then nth (j - Z.to_nat (8 * i)) bs 0
    else nth j buf 0)).
Proof.
  intros Hi Hb Hbs Hl. unfold wr_word. change (Z.of_nat 8) with 8.
  rewrite (proj2 (Z.leb_le 0 (8 * i))), (proj2 (Z.leb_le (8 * i + 8) _)) by lia. cbn [andb].
  f_equal. rewrite <- Hl at 1. rewrite le_bytes_val by done. apply list_eq_nth.
  - rewrite !length_app, length_take, length_drop, length_tab. lia.
  - rewrite length_tab. intros j Hj. rewrite nth_tab. destruct (decide _); [|lia].
    case_if as E.
    + rewrite app_nth2, app_nth1; rewrite ?length_take; [f_equal|..]; lia.
    + destruct E as [E|E]; zbool.
      * rewrite app_nth1 by len. rewrite nth_firstn.
        by rewrite (proj2 (Nat.ltb_lt j _)) by lia.
      * rewrite !app_nth2 by len. rewrite nth_skipn. f_equal.
        rewrite length_take. lia.
Qed.

Lemma rd64_upd f src lo i buf :
  0 <= i -> 8 * i + 8 <= zlen buf -> rd64 (upd f src lo (8 * i) buf) i = Ok (le_val (seg buf i)).
Proof.
  intros Hi Hb. rewrite rd64_seg by (rewrite ?length_upd; lia). do 2 f_equal.
  apply tab_ext. intros k Hk. rewrite nth_upd by lia. case_if as E; [lia|done].
Qed.

Lemma nth_zip_seg f b c i k : (k < 8)%nat ->
  nth k (zip_with f (seg b i) (seg c i)) 0 =
    f (nth (Z.to_nat (8 * i) + k) b 0) (nth (Z.to_nat (8 * i) + k) c 0).
Proof. intros Hk. do 8 (destruct k as [|k]; [done|]). lia. Qed.

Lemma wr64_upd F f `{!Bytewise F f} src lo i buf :
  0 <= i -> lo <= 8 * i -> 8 * i + 8 <= zlen buf -> Forall is_byte buf -> Forall is_byte src ->
  wr64 (upd f src lo (8 * i) buf) i (F (le_val (seg buf i)) (le_val (seg src i)))
  = Ok (upd f src lo (8 * (i + 1)) buf).
Proof.
  intros Hi Hlo Hb Hbuf Hsrc.
  rewrite bw_val by (auto using seg_byte; apply length_tab).
  rewrite wr64_tab; [|done|rewrite length_upd; lia| |by rewrite length_zip_with; unfold seg; rewrite !length_tab].
  - f_equal. rewrite length_upd. apply tab_ext. intros j Hj. case_if as E.
    + rewrite nth_zip_seg by lia.
      replace (Z.to_nat (8 * i) + (j - Z.to_nat (8 * i)))%nat with j by lia.
      case_if as E'; [done|lia].
    + rewrite nth_upd by done. case_if as E1; case_if as E2; try done; lia.
  - clear - Hbuf Hsrc Bytewise0.
    assert (Hs := seg_byte buf i Hbuf). assert (Ht := seg_byte src i Hsrc).
    remember (seg buf i) as u eqn:Eu. remember (seg src i) as v eqn:Ev.
    assert (El : length u = length v) by (subst; unfold seg; by rewrite !length_tab). clear Eu Ev.
    revert v El Ht. induction Hs as [|a u Ha Hu IH]; intros [|b v] El Ht; try done; constructor.
    + apply Forall_cons_1 in Ht as [Hb _]. by apply bw_byte.
    + apply IH; [by injection El|by apply Forall_cons_1 in Ht as [_ ?]].
Qed.

#[export] Instance bw_assign : Bytewise (fun _ y => y) (fun _ c => c).
Proof.
  constructor; [|done]. intros bs cs _ _ Hb Hc. f_equal.
  revert cs Hc. rewrite <- Hb. clear Hb. induction bs as [|b bs IH]; intros [|c cs] Hc; try done.
  simpl. f_equal. apply IH. by injection Hc.
Qed.

#[export] Instance bw_xor : Bytewise Z.lxor Z.lxor.
Proof. constructor; [|apply lxor_byte]. intros. apply lxor_le_val; congruence. Qed.

#[export] Instance bw_zero : Bytewise (fun _ _ => 0) (fun _ _ => 0).
Proof.
  constructor; [|done]. intros bs cs _ _ Hb Hc. symmetry. apply le_val_zero.
  - clear. revert cs. induction bs as [|b bs IH]; intros [|c cs]; by constructor.
  - clear. revert cs. induction bs as [|b bs IH]; intros [|c cs]; by constructor.
Qed.

(** Multiplying the accumulator before combining it. *)
Lemma bw_pre G g F f :
  (forall bs, Forall is_byte bs -> length bs = 8%nat -> G (le_val bs) = le_val (map g bs)) ->
  (forall b, is_byte b -> is_byte (g b)) -> Bytewise F f ->
  Bytewise (fun x y => F (G x) y) (fun b c => f (g b) c).
Proof.
  intros HG Hg HF. constructor; [|intros; apply bw_byte; auto].
  intros bs cs Hb Hc Lb Lc. rewrite HG by done.
  rewrite bw_val; [|by rewrite Forall_map; eapply Forall_impl; [|exact Hb]|done|by rewrite length_map|done].
  by rewrite zip_with_fmap_l.
Qed.

Lemma bw_fst G g :
  (forall bs, Forall is_byte bs -> length bs = 8%nat -> G (le_val bs) = le_val (map g bs)) ->
  (forall b, is_byte b -> is_byte (g b)) -> Bytewise (fun x _ => G x) (fun b _ => g b).
Proof.
  intros HG Hg. constructor; [|auto]. intros bs cs Hb Hc Lb Lc. rewrite HG by done. f_equal.
  clear HG Hb Hc. assert (El : length bs = length cs) by congruence. clear Lb Lc.
  revert cs El. induction bs as [|b bs IH]; intros [|c cs] El; try done.
  cbn [map zip_with]. f_equal. apply IH. by injection El.
Qed.

Lemma mul4_byte b : is_byte (VDEV_RAIDZ_MUL_4 b).
Proof. apply mul2_byte. Qed.

#[export] Instance bw_mul2xor : Bytewise (fun x y => Z.lxor (VDEV_RAIDZ_64MUL_2 x) y) (fun b c => Z.lxor (mul2 b) c).
Proof. apply (bw_pre _ mul2 Z.lxor Z.lxor); auto using mul64_le_val, mul2_byte, bw_xor. Qed.
#[export] Instance bw_mul4xor : Bytewise (fun x y => Z.lxor (VDEV_RAIDZ_64MUL_4 x) y) (fun b c => Z.lxor (VDEV_RAIDZ_MUL_4 b) c).
Proof. apply (bw_pre _ VDEV_RAIDZ_MUL_4 Z.lxor Z.lxor); auto using mul64_4_le_val, mul4_byte, bw_xor. Qed.
#[export] Instance bw_mul2 : Bytewise (fun x _ => VDEV_RAIDZ_64MUL_2 x) (fun b _ => mul2 b).
Proof. apply (bw_fst _ mul2); auto using mul64_le_val, mul2_byte. Qed.
#[export] Instance bw_mul4 : Bytewise (fun x _ => VDEV_RAIDZ_64MUL_4 x) (fun b _ => VDEV_RAIDZ_MUL_4 b).
Proof. apply (bw_fst _ VDEV_RAIDZ_MUL_4); auto using mul64_4_le_val, mul4_byte. Qed.

(** The same a byte at a time. *)
Lemma rd_upd f src lo i buf : 0 <= i < zlen buf -> rd (upd f src lo i buf) i = Ok (nth (Z.to_nat i) buf 0).
Proof.
  intros Hi. rewrite rd_nth by (by rewrite length_upd). f_equal. rewrite nth_upd by lia.
  case_if as E; [lia|done].
Qed.

Lemma wr_upd f src lo i buf : 0 <= i < zlen buf -> lo <= i ->
  wr (upd f src lo i buf) i (f (nth (Z.to_nat i) buf 0) (nth (Z.to_nat i) src 0)) = Ok (upd f src lo (i + 1) buf).
Proof.
  intros Hi Hlo. rewrite wr_in_bounds by (by rewrite length_upd). f_equal. apply list_eq_nth.
  - by rewrite length_insert, !length_upd.
  - rewrite length_upd. intros j Hj. rewrite (nth_upd _ _ _ (i + 1)) by done.
    destruct (decide (j = Z.to_nat i)) as [->|Hne].
    + case_if as E; [|lia].
      apply nth_lookup_Some, list_lookup_insert_eq. rewrite length_upd. lia.
    + rewrite !nth_lookup, list_lookup_insert_ne by done. rewrite <- !nth_lookup, nth_upd by done.
      case_ifs; try lia; done.
Qed.

(** Loops over the words of one, two or three buffers. *)
Section loops.
Context (lo hi : Z) (src : list Z) (Hlo : 0 <= lo <= hi) (Hsrc : Forall is_byte src).
Context F1 f1 `{B1 : !Bytewise F1 f1} F2 f2 `{B2 : !Bytewise F2 f2} F3 f3 `{B3 : !Bytewise F3 f3}.

Abbreviation good b := (8 * hi <= zlen b /\ Forall is_byte b).
Abbreviation here b i := (le_val (seg b i)).

Lemma loop_upd1 a body :
  good a ->
  (forall i b, lo <= i < hi -> rd64 b i = Ok (here a i) ->
    body i b = wr64 b i (F1 (here a i) (here src i))) ->
  for_range lo hi body a = Ok (upd f1 src (8 * lo) (8 * hi) a).
Proof using Hlo Hsrc B1.
  intros [Ha Ba] Hbody. apply (for_range_fun (fun i => upd f1 src (8 * lo) (8 * i) a)); [lia| |by rewrite upd_nil|done].
  intros i Hi. rewrite Hbody by (auto; apply rd64_upd; lia). apply wr64_upd; auto; lia.
Qed.

Lemma loop_upd2 a b body :
  good a -> good b ->
  (forall i x y, lo <= i < hi -> rd64 x i = Ok (here a i) -> rd64 y i = Ok (here b i) ->
    body i (x, y) = (x ← wr64 x i (F1 (here a i) (here src i));
                     y ← wr64 y i (F2 (here b i) (here src i)); Ok (x, y))) ->
  for_range lo hi body (a, b) =
    Ok (upd f1 src (8 * lo) (8 * hi) a, upd f2 src (8 * lo) (8 * hi) b).
Proof using Hlo Hsrc B1 B2.
  intros [Ha Ba] [Hb Bb] Hbody.
  apply (for_range_fun (fun i => (upd f1 src (8 * lo) (8 * i) a, upd f2 src (8 * lo) (8 * i) b)));
    [lia| |by rewrite !upd_nil|done].
  intros i Hi. rewrite Hbody by (auto; apply rd64_upd; lia).
  rewrite (wr64_upd F1 f1) by (auto; lia). bnd.
  by rewrite (wr64_upd F2 f2) by (auto; lia).
Qed.

Lemma loop_upd3 a b c body :
  good a -> good b -> good c ->
  (forall i x y z, lo <= i < hi -> rd64 x i = Ok (here a i) -> rd64 y i = Ok (here b i) ->
      rd64 z i = Ok (here c i) ->
    body i (x, y, z) = (x ← wr64 x i (F1 (here a i) (here src i));
                        y ← wr64 y i (F2 (here b i) (here src i));
                        z ← wr64 z i (F3 (here c i) (here src i)); Ok (x, y, z))) ->
  for_range lo hi body (a, b, c) =
    Ok (upd f1 src (8 * lo) (8 * hi) a, upd f2 src (8 * lo) (8 * hi) b,
        upd f3 src (8 * lo) (8 * hi) c).
Proof using Hlo Hsrc B1 B2 B3.
  intros [Ha Ba] [Hb Bb] [Hc Bc] Hbody.
  apply (for_range_fun (fun i => (upd f1 src (8 * lo) (8 * i) a, upd f2 src (8 * lo) (8 * i) b,
                                  upd f3 src (8 * lo) (8 * i) c)));
    [lia| |by rewrite !upd_nil|done].
  intros i Hi. rewrite Hbody by (auto; apply rd64_upd; lia).
  rewrite (wr64_upd F1 f1) by (auto; lia). bnd.
  rewrite (wr64_upd F2 f2) by (auto; lia). bnd.
  by rewrite (wr64_upd F3 f3) by (auto; lia).
Qed.
End loops.

(** ** Columns of a map *)

Definition dat (rm : raidz_map) (c : Z) : list Z :=
  match rm_col rm !! Z.to_nat c with Some rc => rc_data rc | None => [] end.
Definition siz (rm : raidz_map) (c : Z) : Z :=
  match rm_col rm !! Z.to_nat c with Some rc => rc_size rc | None => 0 end.

(** [upd_col] inside the map. *)
Definition ualt (rm : raidz_map) (c : Z) (f : raidz_col -> raidz_col) : raidz_map :=
  set_rm_col (alter f (Z.to_nat c) (rm_col rm)) rm.

Abbreviation wdat rm c d := (ualt rm c (set_rc_data d)).
Abbreviation wsiz rm c n := (ualt rm c (set_rc_size n)).
Abbreviation in_map rm c := (0 <= c < zlen (rm_col rm)).

Section columns.
Implicit Types (rm : raidz_map) (c x : Z) (d : list Z).

Lemma upd_col_ok rm c f : in_map rm c -> upd_col rm c f = Ok (ualt rm c f).
Proof.
  intros Hc. unfold upd_col. destruct (rd_in_bounds (rm_col rm) c Hc) as (rc & -> & Hrc).
  bnd. rewrite wr_in_bounds by done. unfold ualt. bnd.
  f_equal. f_equal. by apply insert_alter.
Qed.

Lemma col_data_ok rm c : in_map rm c -> col_data rm c = Ok (dat rm c).
Proof.
  intros Hc. unfold col_data, dat. by destruct (rd_in_bounds (rm_col rm) c Hc) as (rc & -> & ->).
Qed.

Lemma col_size_ok rm c : in_map rm c -> col_size rm c = Ok (siz rm c).
Proof.
  intros Hc. unfold col_size, siz. by destruct (rd_in_bounds (rm_col rm) c Hc) as (rc & -> & ->).
Qed.

Lemma length_ualt rm c f : length (rm_col (ualt rm c f)) = length (rm_col rm).
Proof. apply length_alter. Qed.

Lemma dat_ualt_ne rm c x f : 0 <= c -> 0 <= x -> c <> x -> dat (ualt rm x f) c = dat rm c.
Proof. intros. unfold dat. cbn. by rewrite list_lookup_alter_ne by lia. Qed.

Lemma siz_ualt_ne rm c x f : 0 <= c -> 0 <= x -> c <> x -> siz (ualt rm x f) c = siz rm c.
Proof. intros. unfold siz. cbn. by rewrite list_lookup_alter_ne by lia. Qed.

Lemma siz_wdat rm c x d : siz (wdat rm x d) c = siz rm c.
Proof.
  unfold siz. cbn. destruct (decide (Z.to_nat c = Z.to_nat x)) as [->|].
  - rewrite list_lookup_alter_eq. by destruct (rm_col rm !! _).
  - by rewrite list_lookup_alter_ne by done.
Qed.

Lemma dat_wsiz rm c x n : dat (wsiz rm x n) c = dat rm c.
Proof.
  unfold dat. cbn. destruct (decide (Z.to_nat c = Z.to_nat x)) as [->|].
  - rewrite list_lookup_alter_eq. by destruct (rm_col rm !! _).
  - by rewrite list_lookup_alter_ne by done.
Qed.

Lemma dat_wdat rm c d : in_map rm c -> dat (wdat rm c d) c = d.
Proof.
  intros Hc. unfold dat. cbn. rewrite list_lookup_alter_eq.
  by destruct (rd_in_bounds (rm_col rm) c Hc) as (rc & _ & ->).
Qed.

Lemma siz_wsiz rm c n : in_map rm c -> siz (wsiz rm c n) c = n.
Proof.
  intros Hc. unfold siz. cbn. rewrite list_lookup_alter_eq.
  by destruct (rd_in_bounds (rm_col rm) c Hc) as (rc & _ & ->).
Qed.

Lemma ualt_ualt rm c f g : ualt (ualt rm c f) c g = ualt rm c (g ∘ f).
Proof.
  unfold ualt, set_rm_col. cbn. f_equal.
  apply list_eq. intros i. destruct (decide (Z.to_nat c = i)) as [<-|].
  - rewrite !list_lookup_alter_eq. by destruct (rm_col rm !! _).
  - by rewrite !list_lookup_alter_ne by done.
Qed.

Lemma wdat_wdat rm c d d' : wdat (wdat rm c d) c d' = wdat rm c d'.
Proof. apply ualt_ualt. Qed.

Lemma ualt_comm rm c x f g : 0 <= c -> 0 <= x -> c <> x -> ualt (ualt rm c f) x g = ualt (ualt rm x g) c f.
Proof.
  intros. unfold ualt, set_rm_col. cbn. f_equal.
  apply list_eq. intros i. rewrite !list_lookup_alter. repeat case_decide; subst; try lia; done.
Qed.

(** Maps that differ at most in their columns. *)
Lemma rm_ext rm rm' : set_rm_col [] rm = set_rm_col [] rm' ->
  (forall i, rm_col rm !! i = rm_col rm' !! i) -> rm = rm'.
Proof.
  destruct rm, rm'. unfold set_rm_col. cbn. intros Hh Hl. apply list_eq in Hl.
  injection Hh. intros. subst. done.
Qed.

Lemma cols_ualt rm c f : rm_cols (ualt rm c f) = rm_cols rm.
Proof. done. Qed.

Lemma first_ualt rm c f : rm_firstdatacol (ualt rm c f) = rm_firstdatacol rm.
Proof. done. Qed.

Lemma hdr_ualt rm c f : set_rm_col [] (ualt rm c f) = set_rm_col [] rm.
Proof. done. Qed.

Lemma lookup_ualt_eq rm c f : rm_col (ualt rm c f) !! Z.to_nat c = f <$> rm_col rm !! Z.to_nat c.
Proof. apply list_lookup_alter_eq. Qed.

Lemma lookup_ualt_ne rm c f i : Z.to_nat c <> i -> rm_col (ualt rm c f) !! i = rm_col rm !! i.
Proof. apply list_lookup_alter_ne. Qed.

Lemma wdat_id rm c : wdat rm c (dat rm c) = rm.
Proof.
  destruct rm as [? ? ? ? ? ? ? ? ? ? ? ? ? cols]. unfold ualt, dat, set_rm_col. cbn. f_equal.
  apply list_eq. intros i. destruct (decide (Z.to_nat c = i)) as [<-|].
  - rewrite list_lookup_alter_eq. destruct (cols !! Z.to_nat c) as [[]|]; done.
  - by rewrite list_lookup_alter_ne by done.
Qed.
End columns.

(** ** Parity as field sums

    Byte [j] of column [c], zero past its end, and the [k]-th parity of the
    first [n] data columns at byte [j], by Horner's rule in the field. *)
Definition cbyte (rm : raidz_map) (c : Z) (j : nat) : Z :=
  if Z.of_nat j <? siz rm c then nth j (dat rm c) 0 else 0.

Definition par (k : nat) (rm : raidz_map) (n j : nat) : Z :=
  horner k (fun i => cbyte rm (rm_firstdatacol rm + Z.of_nat i) j) n.

Definition ndata (rm : raidz_map) : nat := Z.to_nat (rm_cols rm - rm_firstdatacol rm).

(** The parity column [k] of the data columns of [rm]. *)
Definition parity_col (k : nat) (rm : raidz_map) : list Z :=
  tab (Z.to_nat (siz rm VDEV_RAIDZ_P)) (par k rm (ndata rm)).

(** What parity generation needs: [np] parity columns of one size, data
    columns of whole words no longer than them. *)
Record gen_ok (np : Z) (rm : raidz_map) : Prop := {
  go_first : np <= rm_firstdatacol rm < rm_cols rm;
  go_cols : rm_cols rm <= zlen (rm_col rm);
  go_psize : 0 <= siz rm 0 /\ siz rm 0 mod 8 = 0;
  go_parity : forall k, 0 <= k < np -> zlen (dat rm k) = siz rm 0 /\ Forall is_byte (dat rm k);
  go_data : forall c, rm_firstdatacol rm <= c < rm_cols rm ->
    0 <= siz rm c <= siz rm 0 /\ siz rm c mod 8 = 0 /\ siz rm c <= zlen (dat rm c) /\
    Forall is_byte (dat rm c) }.

Lemma cbyte_byte rm c j : Forall is_byte (dat rm c) -> is_byte (cbyte rm c j).
Proof. intros. unfold cbyte. case_if as E; [by apply nth_byte|done]. Qed.

Lemma par_byte k rm n j :
  (forall c, rm_firstdatacol rm <= c < rm_firstdatacol rm + Z.of_nat n -> Forall is_byte (dat rm c)) ->
  is_byte (par k rm n j).
Proof. intros H. apply horner_byte. intros i Hi. apply cbyte_byte, H. lia. Qed.

Section generate.
Context (np : Z) (rm : raidz_map) (Hnp : 1 <= np) (Hok : gen_ok np rm).
Abbreviation first := (rm_firstdatacol rm).
Abbreviation psz := (siz rm 0).

(** Parity column [k] after the columns before [c] have been added. *)
Definition pcol (k c : Z) : list Z :=
  if c =? first then dat rm k
  else tab (Z.to_nat psz) (par (Z.to_nat k) rm (Z.to_nat (c - first))).

Lemma length_pcol k c : 0 <= k < np -> zlen (pcol k c) = psz.
Proof using Hok.
  intros Hk. unfold pcol. pose proof (go_psize _ _ Hok). case_if as E; [by apply (go_parity _ _ Hok)|].
  rewrite length_tab. lia.
Qed.

Lemma pcol_byte k c : 0 <= k < np -> first <= c <= rm_cols rm -> Forall is_byte (pcol k c).
Proof using Hok.
  intros Hk Hc. unfold pcol. case_if as E; [by apply (go_parity _ _ Hok)|].
  apply Forall_tab. intros. apply par_byte. intros. apply (go_data _ _ Hok). lia.
Qed.

Lemma pcol_next k c : first <= c -> pcol k (c + 1) =
  tab (Z.to_nat psz) (fun j => Z.lxor (mulp (Z.to_nat k) (par (Z.to_nat k) rm (Z.to_nat (c - first)) j)) (cbyte rm c j)).
Proof.
  intros Hc. unfold pcol. case_if as E; [lia|].
  replace (Z.to_nat (c + 1 - first)) with (S (Z.to_nat (c - first))) by lia.
  apply tab_ext. intros j Hj. unfold par. cbn [horner]. by replace (first + Z.of_nat (Z.to_nat (c - first))) with c by lia.
Qed.

(** The first data column initialises the parity. *)
Lemma pcol_init k d : 0 <= k < np ->
  upd (fun _ _ => 0) d (siz rm first) psz (upd (fun _ c => c) (dat rm first) 0 (siz rm first) (pcol k first))
  = pcol k (first + 1).
Proof using Hok.
  intros Hk. rewrite pcol_next by lia. rewrite Z.sub_diag. unfold par. cbn [horner Z.to_nat].
  pose proof (length_pcol k first Hk) as Hl. pose proof (go_first _ _ Hok).
  destruct (go_data _ _ Hok first) as (Hs & _); [lia|].
  unfold upd at 1. rewrite length_upd. replace (Z.to_nat psz) with (length (pcol k first)) by lia.
  apply tab_ext. intros j Hj. rewrite nth_upd by done. unfold cbyte. rewrite mulp_0, Z.lxor_0_l.
  case_ifs; try lia; done.
Qed.

Lemma pcol_step k c g d : 0 <= k < np -> first < c < rm_cols rm ->
  (forall b, g b = mulp (Z.to_nat k) b) ->
  upd (fun b _ => g b) d (siz rm c) psz (upd (fun b s => Z.lxor (g b) s) (dat rm c) 0 (siz rm c) (pcol k c))
  = pcol k (c + 1).
Proof using Hok.
  intros Hk Hc Hg. rewrite pcol_next by lia. pose proof (length_pcol k c Hk) as Hl.
  destruct (go_data _ _ Hok c) as (Hs & _); [lia|].
  unfold upd at 1. rewrite length_upd. replace (Z.to_nat psz) with (length (pcol k c)) by lia.
  apply tab_ext. intros j Hj. rewrite nth_upd by done. rewrite !Hg. unfold cbyte.
  assert (E : nth j (pcol k c) 0 = par (Z.to_nat k) rm (Z.to_nat (c - first)) j).
  { unfold pcol. case_if as E; [lia|]. rewrite nth_tab. by destruct (decide _); [|lia]. }
  rewrite E. case_ifs; try lia; by rewrite ?Z.lxor_0_r.
Qed.
End generate.

(** The closed forms of storing and of adding a column. *)
Lemma stored_tab src n m a : zlen a = m -> 0 <= n <= m ->
  upd (fun _ _ => 0) [] n m (upd (fun _ c => c) src 0 n a)
  = tab (Z.to_nat m) (fun j => if Z.of_nat j <? n then nth j src 0 else 0).
Proof.
  intros Ha Hn. unfold upd at 1. rewrite length_upd. replace (Z.to_nat m) with (length a) by lia.
  apply tab_ext. intros j Hj. rewrite nth_upd by done. case_ifs; try lia; done.
Qed.

Lemma added_tab src n m g a : zlen a = m -> 0 <= n <= m ->
  upd (fun b _ => g b) [] n m (upd (fun b s => Z.lxor (g b) s) src 0 n a)
  = tab (Z.to_nat m) (fun j => Z.lxor (g (nth j a 0)) (if Z.of_nat j <? n then nth j src 0 else 0)).
Proof.
  intros Ha Hn. unfold upd at 1. rewrite length_upd. replace (Z.to_nat m) with (length a) by lia.
  apply tab_ext. intros j Hj. rewrite nth_upd by done. case_ifs; try lia; by rewrite ?Z.lxor_0_r.
Qed.

(** Evaluation of column accesses: the side conditions are on indices. *)
Ltac inmap := rewrite ?length_ualt; lia.
Ltac col1 :=
  first [ rewrite col_data_ok by inmap | rewrite col_size_ok by inmap | rewrite upd_col_ok by inmap ];
  bnd.
Ltac cols :=
  unfold set_col_data, set_col_size; repeat col1;
  repeat first [ rewrite dat_wsiz | rewrite siz_wdat
               | rewrite dat_wdat by inmap | rewrite siz_wsiz by inmap
               | rewrite dat_ualt_ne by lia | rewrite siz_ualt_ne by lia ].

Lemma words_of n : n mod 8 = 0 -> 8 * (n / 8) = n.
Proof. intros. dlia. Qed.

(** One data column of [n] bytes added to buffers of [m] bytes. *)
Section add_column.
Context (src : list Z) (n m : Z) (Hsrc : Forall is_byte src).
Context (Hn : 0 <= n <= m) (Hn8 : n mod 8 = 0) (Hm8 : m mod 8 = 0) (Hns : n <= zlen src).
Abbreviation buf_ok a := (zlen a = m /\ Forall is_byte a).

(** The bytes after the column was stored, or added to [g] of the old ones. *)
Definition stored (a : list Z) : list Z :=
  upd (fun _ _ => 0) [] n m (upd (fun _ c => c) src 0 n a).
Definition added (g : Z -> Z) (a : list Z) : list Z :=
  upd (fun b _ => g b) [] n m (upd (fun b s => Z.lxor (g b) s) src 0 n a).

Lemma buf_upd f d lo hi a : (forall b c, is_byte b -> is_byte c -> is_byte (f b c)) ->
  Forall is_byte d -> buf_ok a -> buf_ok (upd f d lo hi a).
Proof. intros Hf Hd [? ?]. rewrite length_upd. split; [done|by apply upd_byte]. Qed.

Lemma added_id a : buf_ok a -> added (fun b => b) a = upd Z.lxor src 0 n a.
Proof using Hn.
  intros [Ha _]. unfold added. rewrite <- (tab_nth (upd Z.lxor src 0 n a)).
  unfold upd at 1. rewrite !length_upd. apply tab_ext. intros j Hj. by destruct (_ && _).
Qed.

Lemma words_le : 0 <= 0 <= n / 8 /\ 0 <= n / 8 <= m / 8 /\ 8 * (n / 8) = n /\ 8 * (m / 8) = m.
Proof using Hn Hn8 Hm8. clear Hns. dlia. Qed.

Ltac side := split; [rewrite ?length_upd; lia|auto using upd_byte, lxor_byte, mul2_byte, mul4_byte].
Ltac rds := repeat (bnd;
  match goal with
  | H : rd64 ?b ?i = Ok _ |- context [rd64 ?b ?i ≫= _] => rewrite H
  | |- context [rd64 src ?i] => rewrite (rd64_seg src i) by lia
  end).

Lemma p_first_ok a : buf_ok a ->
  for_range 0 (n / 8) (fun i p => s ← rd64 src i; wr64 p i s) a = Ok (upd (fun _ c => c) src 0 n a).
Proof using Hsrc Hn Hn8 Hm8 Hns.
  intros [La Ba]. destruct words_le as (H1 & H2 & W & WM).
  rewrite (loop_upd1 0 (n / 8) src H1 Hsrc (fun _ y => y) (fun _ c => c)); [by rewrite W|side|].
  intros i b Hi Hb. by rds.
Qed.

Lemma p_next_ok a : buf_ok a ->
  for_range 0 (n / 8) (fun i p => s ← rd64 src i; x ← rd64 p i; wr64 p i (Z.lxor x s)) a
  = Ok (added (fun b => b) a).
Proof using Hsrc Hn Hn8 Hm8 Hns.
  intros [La Ba]. rewrite added_id by done. destruct words_le as (H1 & H2 & W & WM).
  rewrite (loop_upd1 0 (n / 8) src H1 Hsrc Z.lxor Z.lxor); [by rewrite W|side|].
  intros i b Hi Hb. by rds.
Qed.

Lemma q_add_ok first a : buf_ok a ->
  q_add first src (n / 8) (m / 8) a = Ok (if first then stored a else added mul2 a).
Proof using Hsrc Hn Hn8 Hm8 Hns.
  intros [La Ba]. destruct words_le as (H1 & H2 & W & WM). unfold q_add. destruct first.
  - rewrite (loop_upd1 0 (n / 8) src H1 Hsrc (fun _ y => y) (fun _ c => c)); [|side|].
    2: { intros i b Hi Hb. by rds. }
    bnd. rewrite (loop_upd1 _ _ [] H2 ltac:(constructor) (fun _ _ => 0) (fun _ _ => 0)); [|side|done].
    by rewrite W, WM.
  - rewrite (loop_upd1 0 (n / 8) src H1 Hsrc (fun x y => Z.lxor (VDEV_RAIDZ_64MUL_2 x) y) (fun b c => Z.lxor (mul2 b) c)); [|side|].
    2: { intros i b Hi Hb. by rds. }
    bnd.
    rewrite (loop_upd1 _ _ [] H2 ltac:(constructor) (fun x _ => VDEV_RAIDZ_64MUL_2 x) (fun b _ => mul2 b)); [|side|].
    2: { intros i b Hi Hb. by rds. }
    by rewrite W, WM.
Qed.

Lemma pq_first_ok a b : buf_ok a -> buf_ok b ->
  pq_first src (n / 8) (m / 8) (a, b) = Ok (stored a, stored b).
Proof using Hsrc Hn Hn8 Hm8 Hns.
  intros [La Ba] [Lb Bb]. destruct words_le as (H1 & H2 & W & WM). unfold pq_first.
  rewrite (loop_upd2 0 (n / 8) src H1 Hsrc (fun _ y => y) (fun _ c => c) (fun _ y => y) (fun _ c => c)); [|side..|].
  2: { intros i x y Hi Hx Hy. by rds. }
  bnd.
  rewrite (loop_upd2 _ _ [] H2 ltac:(constructor) (fun _ _ => 0) (fun _ _ => 0) (fun _ _ => 0) (fun _ _ => 0)); [|side..|done].
  by rewrite W, WM.
Qed.

Lemma pq_next_ok a b : buf_ok a -> buf_ok b ->
  pq_next src (n / 8) (m / 8) (a, b) = Ok (added (fun b => b) a, added mul2 b).
Proof using Hsrc Hn Hn8 Hm8 Hns.
  intros [La Ba] [Lb Bb]. destruct words_le as (H1 & H2 & W & WM). unfold pq_next.
  rewrite added_id by done.
  rewrite (loop_upd2 0 (n / 8) src H1 Hsrc Z.lxor Z.lxor (fun x y => Z.lxor (VDEV_RAIDZ_64MUL_2 x) y)
    (fun b c => Z.lxor (mul2 b) c)); [|side..|].
  2: { intros i x y Hi Hx Hy. by rds. }
  bnd.
  rewrite (loop_upd1 _ _ [] H2 ltac:(constructor) (fun x _ => VDEV_RAIDZ_64MUL_2 x) (fun b _ => mul2 b)); [|side|].
  2: { intros i x Hi Hx. by rds. }
  by rewrite W, WM.
Qed.

Lemma pqr_first_ok a b c : buf_ok a -> buf_ok b -> buf_ok c ->
  pqr_first src (n / 8) (m / 8) (a, b, c) = Ok (stored a, stored b, stored c).
Proof using Hsrc Hn Hn8 Hm8 Hns.
  intros [La Ba] [Lb Bb] [Lc Bc]. destruct words_le as (H1 & H2 & W & WM). unfold pqr_first.
  rewrite (loop_upd3 0 (n / 8) src H1 Hsrc (fun _ y => y) (fun _ c => c) (fun _ y => y) (fun _ c => c)
    (fun _ y => y) (fun _ c => c)); [|side..|].
  2: { intros i x y z Hi Hx Hy Hz. by rds. }
  bnd.
  rewrite (loop_upd3 _ _ [] H2 ltac:(constructor) (fun _ _ => 0) (fun _ _ => 0) (fun _ _ => 0) (fun _ _ => 0)
    (fun _ _ => 0) (fun _ _ => 0)); [|side..|done].
  by rewrite W, WM.
Qed.

Lemma pqr_next_ok a b c : buf_ok a -> buf_ok b -> buf_ok c ->
  pqr_next src (n / 8) (m / 8) (a, b, c) = Ok (added (fun b => b) a, added mul2 b, added VDEV_RAIDZ_MUL_4 c).
Proof using Hsrc Hn Hn8 Hm8 Hns.
  intros [La Ba] [Lb Bb] [Lc Bc]. destruct words_le as (H1 & H2 & W & WM). unfold pqr_next.
  rewrite added_id by done.
  rewrite (loop_upd3 0 (n / 8) src H1 Hsrc Z.lxor Z.lxor (fun x y => Z.lxor (VDEV_RAIDZ_64MUL_2 x) y)
    (fun b c => Z.lxor (mul2 b) c) (fun x y => Z.lxor (VDEV_RAIDZ_64MUL_4 x) y)
    (fun b c => Z.lxor (VDEV_RAIDZ_MUL_4 b) c)); [|side..|].
  2: { intros i x y z Hi Hx Hy Hz. by rds. }
  bnd.
  rewrite (loop_upd2 _ _ [] H2 ltac:(constructor) (fun x _ => VDEV_RAIDZ_64MUL_2 x) (fun b _ => mul2 b)
    (fun x _ => VDEV_RAIDZ_64MUL_4 x) (fun b _ => VDEV_RAIDZ_MUL_4 b)); [|side..|].
  2: { intros i x y Hi Hx Hy. by rds. }
  by rewrite W, WM.
Qed.
End add_column.

(** *** Parity generation *)

Section generate_ok.
Context (np : Z) (rm : raidz_map) (Hnp : 1 <= np) (Hok : gen_ok np rm).

Lemma pcol_stored k : 0 <= k < np ->
  stored (dat rm (rm_firstdatacol rm)) (siz rm (rm_firstdatacol rm)) (siz rm 0) (pcol rm k (rm_firstdatacol rm))
  = pcol rm k (rm_firstdatacol rm + 1).
Proof using Hok. intros. by apply (pcol_init np). Qed.

Lemma pcol_added k c g : 0 <= k < np -> rm_firstdatacol rm < c < rm_cols rm ->
  (forall b, g b = mulp (Z.to_nat k) b) ->
  added (dat rm c) (siz rm c) (siz rm 0) g (pcol rm k c) = pcol rm k (c + 1).
Proof using Hok. intros. by apply (pcol_step np). Qed.

Lemma pcol_buf k c : 0 <= k < np -> rm_firstdatacol rm <= c <= rm_cols rm ->
  zlen (pcol rm k c) = siz rm 0 /\ Forall is_byte (pcol rm k c).
Proof using Hok. intros. split; [by apply (length_pcol np)|by apply (pcol_byte np)]. Qed.

Lemma pcol_first k : wdat rm k (pcol rm k (rm_firstdatacol rm)) = rm.
Proof. unfold pcol. rewrite Z.eqb_refl. apply wdat_id. Qed.

Lemma pcol_last k : pcol rm k (rm_cols rm) = parity_col (Z.to_nat k) rm.
Proof using Hok. unfold pcol. pose proof (go_first _ _ Hok). case_if as E; [lia|done]. Qed.
End generate_ok.

Ltac gen_facts Hok :=
  pose proof (go_first _ _ Hok); pose proof (go_cols _ _ Hok);
  pose proof (go_psize _ _ Hok) as [Hp Hp8].

Lemma generate_p_ok rm :
  gen_ok 1 rm -> siz rm (rm_firstdatacol rm) = siz rm 0 ->
  vdev_raidz_generate_parity_p rm = Ok (wdat rm 0 (parity_col 0 rm)).
Proof.
  intros Hok Hfull. gen_facts Hok. unfold vdev_raidz_generate_parity_p, VDEV_RAIDZ_P.
  apply (for_range_fun (fun c => wdat rm 0 (pcol rm 0 c))); [lia| | |].
  2: by rewrite pcol_first. 2: by rewrite (pcol_last 1).
  intros c Hc. cols. destruct (go_data _ _ Hok c) as (Hs & Hs8 & Hlen & Hb); [lia|].
  pose proof (pcol_buf 1 rm Hok 0 c ltac:(lia) ltac:(lia)) as B0.
  change (rm_firstdatacol (wdat rm 0 _)) with (rm_firstdatacol rm). case_if as Hf.
  - subst c. rewrite p_first_ok with (m := siz rm 0) by done. bnd. cols.
    rewrite wdat_wdat, <- (pcol_stored 1) by (done || lia). unfold stored.
    by rewrite (upd_nil _ [] (siz rm (rm_firstdatacol rm))) by lia.
  - rewrite p_next_ok with (m := siz rm 0) by done. bnd. cols.
    by rewrite wdat_wdat, (pcol_added 1) by (done || lia).
Qed.

Lemma generate_pq_ok rm :
  gen_ok 2 rm ->
  vdev_raidz_generate_parity_pq rm = Ok (wdat (wdat rm 0 (parity_col 0 rm)) 1 (parity_col 1 rm)).
Proof.
  intros Hok. gen_facts Hok. unfold vdev_raidz_generate_parity_pq, VDEV_RAIDZ_P, VDEV_RAIDZ_Q. col1.
  apply (for_range_fun (fun c => wdat (wdat rm 0 (pcol rm 0 c)) 1 (pcol rm 1 c))); [lia| | |].
  2: by rewrite !pcol_first. 2: by rewrite !(pcol_last 2).
  intros c Hc. cols. destruct (go_data _ _ Hok c) as (Hs & Hs8 & Hlen & Hb); [lia|].
  pose proof (pcol_buf 2 rm Hok 0 c ltac:(lia) ltac:(lia)) as B0.
  pose proof (pcol_buf 2 rm Hok 1 c ltac:(lia) ltac:(lia)) as B1.
  change (rm_firstdatacol (wdat _ 1 _)) with (rm_firstdatacol rm).
  assert (E : (if c =? rm_firstdatacol rm
      then pq_first (dat rm c) (siz rm c / 8) (siz rm 0 / 8) (pcol rm 0 c, pcol rm 1 c)
      else pq_next (dat rm c) (siz rm c / 8) (siz rm 0 / 8) (pcol rm 0 c, pcol rm 1 c))
    = Ok (pcol rm 0 (c + 1), pcol rm 1 (c + 1))).
  { case_if as Hf.
    - subst c. rewrite pq_first_ok by done. by rewrite !(pcol_stored 2) by (done || lia).
    - rewrite pq_next_ok by done. by rewrite !(pcol_added 2) by (done || lia). }
  rewrite E. bnd. cols.
  rewrite (ualt_comm _ 1 0) by lia. by rewrite !wdat_wdat.
Qed.

Lemma generate_pqr_ok rm :
  gen_ok 3 rm ->
  vdev_raidz_generate_parity_pqr rm =
    Ok (wdat (wdat (wdat rm 0 (parity_col 0 rm)) 1 (parity_col 1 rm)) 2 (parity_col 2 rm)).
Proof.
  intros Hok. gen_facts Hok.
  unfold vdev_raidz_generate_parity_pqr, VDEV_RAIDZ_P, VDEV_RAIDZ_Q, VDEV_RAIDZ_R. col1.
  apply (for_range_fun (fun c => wdat (wdat (wdat rm 0 (pcol rm 0 c)) 1 (pcol rm 1 c)) 2 (pcol rm 2 c))); [lia| | |].
  2: by rewrite !pcol_first. 2: by rewrite !(pcol_last 3).
  intros c Hc. cols. destruct (go_data _ _ Hok c) as (Hs & Hs8 & Hlen & Hb); [lia|].
  pose proof (pcol_buf 3 rm Hok 0 c ltac:(lia) ltac:(lia)) as B0.
  pose proof (pcol_buf 3 rm Hok 1 c ltac:(lia) ltac:(lia)) as B1.
  pose proof (pcol_buf 3 rm Hok 2 c ltac:(lia) ltac:(lia)) as B2.
  change (rm_firstdatacol (wdat _ 2 _)) with (rm_firstdatacol rm).
  assert (E : (if c =? rm_firstdatacol rm
      then pqr_first (dat rm c) (siz rm c / 8) (siz rm 0 / 8) (pcol rm 0 c, pcol rm 1 c, pcol rm 2 c)
      else pqr_next (dat rm c) (siz rm c / 8) (siz rm 0 / 8) (pcol rm 0 c, pcol rm 1 c, pcol rm 2 c))
    = Ok (pcol rm 0 (c + 1), pcol rm 1 (c + 1), pcol rm 2 (c + 1))).
  { case_if as Hf.
    - subst c. rewrite pqr_first_ok by done. by rewrite !(pcol_stored 3) by (done || lia).
    - rewrite pqr_next_ok by done. by rewrite !(pcol_added 3) by (done || lia). }
  rewrite E. bnd. cols.
  rewrite (ualt_comm _ 2 0), (ualt_comm _ 1 0), (ualt_comm _ 2 1) by lia. by rewrite !wdat_wdat.
Qed.

(** ** Well-formed maps *)

(** What [vdev_raidz_map_alloc] establishes: one to three parity columns of
    equal size, at most 255 columns, whole words, data columns no longer than
    the ones before them, the first as long as the parity. *)
Record rm_wf (rm : raidz_map) : Prop := {
  wf_np : 1 <= rm_firstdatacol rm <= 3;
  wf_first : rm_firstdatacol rm < rm_cols rm <= 255;
  wf_cols : rm_cols rm <= zlen (rm_col rm);
  wf_psize : forall c, 0 <= c <= rm_firstdatacol rm -> siz rm c = siz rm 0;
  wf_col : forall c, 0 <= c < rm_cols rm ->
    0 <= siz rm c /\ siz rm c mod 8 = 0 /\ zlen (dat rm c) = siz rm c /\ Forall is_byte (dat rm c);
  wf_desc : forall x y, 0 <= x <= y -> y < rm_cols rm -> siz rm y <= siz rm x }.

(** Every parity column holds the parity of the data columns. *)
Definition parity_ok (rm : raidz_map) : Prop :=
  forall k, 0 <= k < rm_firstdatacol rm -> dat rm k = parity_col (Z.to_nat k) rm.

Lemma wf_gen np rm : np <= rm_firstdatacol rm -> rm_wf rm -> gen_ok np rm.
Proof.
  intros Hnp [Hn Hf Hc Hp Hcol Hd]. split; [lia|lia| | |].
  - destruct (Hcol 0) as (? & ? & _); lia.
  - intros k Hk. destruct (Hcol k) as (_ & _ & -> & ?); [lia|]. split; [apply Hp; lia|done].
  - intros c Hc'. destruct (Hcol c) as (? & ? & ? & ?); [lia|].
    specialize (Hd 0 c). repeat split; try done; lia.
Qed.

(** Parity only reads the data columns. *)
Lemma par_wdat k rm x d n j : 0 <= x < rm_firstdatacol rm -> par k (wdat rm x d) n j = par k rm n j.
Proof.
  intros Hx. apply horner_ext. intros i Hi. unfold cbyte. rewrite siz_wdat.
  change (rm_firstdatacol (wdat rm x d)) with (rm_firstdatacol rm). by rewrite dat_ualt_ne by lia.
Qed.

Lemma parity_col_wdat k rm x d : 0 <= x < rm_firstdatacol rm -> parity_col k (wdat rm x d) = parity_col k rm.
Proof.
  intros Hx. unfold parity_col, VDEV_RAIDZ_P. rewrite siz_wdat. apply tab_ext. intros. by apply par_wdat.
Qed.

(** Replacing a column's bytes by as many bytes. *)
Lemma wf_wdat rm x d : rm_wf rm -> 0 <= x < rm_cols rm -> zlen d = siz rm x -> Forall is_byte d ->
  rm_wf (wdat rm x d).
Proof.
  intros [Hn Hf Hc Hp Hcol Hd] Hx Hl Hb. split; try done.
  - by rewrite length_ualt.
  - intros c ?. rewrite !siz_wdat. by apply Hp.
  - intros c ?. rewrite siz_wdat. destruct (Hcol c) as (? & ? & ? & ?); [done|].
    destruct (decide (c = x)) as [->|]; [by rewrite dat_wdat by lia|by rewrite dat_ualt_ne by lia].
  - intros. rewrite !siz_wdat. by apply Hd.
Qed.

Lemma length_parity_col k rm : rm_wf rm -> zlen (parity_col k rm) = siz rm 0.
Proof. intros H. destruct (wf_col _ H 0) as (? & _); [destruct H; lia|]. unfold parity_col, VDEV_RAIDZ_P. rewrite length_tab. lia. Qed.

Lemma parity_col_byte k rm : rm_wf rm -> Forall is_byte (parity_col k rm).
Proof.
  intros [Hn Hf Hc Hp Hcol Hd]. apply Forall_tab. intros j Hj. apply par_byte. intros c Hc'.
  unfold ndata in Hc'. apply Hcol. lia.
Qed.

(** A test for well-formed maps. *)
Definition rm_wfb (rm : raidz_map) : bool :=
  let np := rm_firstdatacol rm in let n := rm_cols rm in
  (1 <=? np) && (np <=? 3) && (np <? n) && (n <=? 255) && (n <=? zlen (rm_col rm)) &&
  forallZ (fun c => siz rm c =? siz rm 0) 0 (Z.to_nat (np + 1)) &&
  forallZ (fun c => (0 <=? siz rm c) && (siz rm c mod 8 =? 0) && (zlen (dat rm c) =? siz rm c) &&
                    forallb byteb (dat rm c)) 0 (Z.to_nat n) &&
  forallZ (fun x => forallZ (fun y => (y <? x) || (siz rm y <=? siz rm x)) 0 (Z.to_nat n)) 0 (Z.to_nat n).

Lemma rm_wfb_wf rm : rm_wfb rm = true -> rm_wf rm.
Proof.
  unfold rm_wfb. intros H. apply andb_prop in H as [H Hdesc]. apply andb_prop in H as [H Hcol].
  apply andb_prop in H as [H Hp]. zbool. split; try lia.
  - intros c Hc. apply Z.eqb_eq, (forallZ_spec _ 0 _ Hp). lia.
  - intros c Hc. pose proof (forallZ_spec _ 0 _ Hcol c ltac:(lia)) as Hb.
    cbv beta in Hb. zbool. split_and!; [lia|lia|lia|].
    apply Forall_forall. intros b Hin. apply byteb_spec. by eapply forallb_forall.
  - intros x y Hx Hy. pose proof (forallZ_spec _ 0 _ Hdesc x ltac:(lia)) as Hb. cbv beta in Hb.
    pose proof (forallZ_spec _ 0 _ Hb y ltac:(lia)) as Hc. cbv beta in Hc. zbool. destruct Hc; zbool; lia.
Qed.

(** The map with its first [n] parity columns computed. *)
Fixpoint setpar (n : nat) (rm : raidz_map) : raidz_map :=
  match n with
  | O => rm
  | S n => wdat (setpar n rm) (Z.of_nat n) (parity_col n rm)
  end.

Lemma generate_ok rm : rm_wf rm ->
  vdev_raidz_generate_parity rm = Ok (setpar (Z.to_nat (rm_firstdatacol rm)) rm).
Proof.
  intros H. pose proof (wf_np _ H). unfold vdev_raidz_generate_parity. case_ifs.
  - rewrite E, generate_p_ok; [done|by apply wf_gen; [lia|]|by apply wf_psize; [|lia]].
  - rewrite E0, generate_pq_ok; [done|by apply wf_gen; [lia|]].
  - rewrite E1, generate_pqr_ok; [done|by apply wf_gen; [lia|]].
  - lia.
Qed.

Lemma setpar_first n rm : rm_firstdatacol (setpar n rm) = rm_firstdatacol rm.
Proof. induction n; done. Qed.

Lemma setpar_cols n rm : rm_cols (setpar n rm) = rm_cols rm.
Proof. induction n; done. Qed.

Lemma setpar_siz n rm c : siz (setpar n rm) c = siz rm c.
Proof. induction n as [|n IH]; [done|]. cbn [setpar]. by rewrite siz_wdat. Qed.

Lemma setpar_length n rm : length (rm_col (setpar n rm)) = length (rm_col rm).
Proof. induction n as [|n IH]; [done|]. cbn [setpar]. by rewrite length_ualt. Qed.

Lemma setpar_data n rm c : Z.of_nat n <= c -> rm_col (setpar n rm) !! Z.to_nat c = rm_col rm !! Z.to_nat c.
Proof.
  induction n as [|n IH]; intros Hc; [done|]. cbn [setpar ualt set_rm_col rm_col].
  rewrite list_lookup_alter_ne by lia. apply IH. lia.
Qed.

Lemma setpar_parity n rm k : (k < n)%nat -> Z.of_nat n <= zlen (rm_col rm) ->
  dat (setpar n rm) (Z.of_nat k) = parity_col k rm.
Proof.
  induction n as [|n IH]; intros Hk Hn; [lia|]. cbn [setpar].
  destruct (decide (k = n)) as [->|].
  - apply dat_wdat. rewrite setpar_length. lia.
  - rewrite dat_ualt_ne by lia. apply IH; lia.
Qed.

Lemma setpar_wf n rm : rm_wf rm -> Z.of_nat n <= rm_firstdatacol rm -> rm_wf (setpar n rm).
Proof.
  intros H. induction n as [|n IH]; intros Hn; [done|]. cbn [setpar].
  pose proof (wf_first _ H). apply wf_wdat.
  - apply IH. lia.
  - rewrite setpar_cols. lia.
  - rewrite length_parity_col, setpar_siz by done. symmetry. apply (wf_psize _ H). lia.
  - by apply parity_col_byte.
Qed.

Lemma setpar_par n k rm : Z.of_nat n <= rm_firstdatacol rm -> parity_col k (setpar n rm) = parity_col k rm.
Proof.
  induction n as [|n IH]; intros Hn; [done|]. cbn [setpar].
  rewrite parity_col_wdat by (rewrite setpar_first; lia). apply IH. lia.
Qed.

Lemma setpar_parity_ok rm : rm_wf rm -> parity_ok (setpar (Z.to_nat (rm_firstdatacol rm)) rm).
Proof.
  intros H k Hk. rewrite setpar_first in Hk. rewrite setpar_par by lia.
  pose proof (wf_first _ H). pose proof (wf_cols _ H).
  rewrite <- (Z2Nat.id k) at 1 by lia. apply setpar_parity; lia.
Qed.

(** Parity that is already right is left as it is. *)
Lemma setpar_id n rm : parity_ok rm -> Z.of_nat n <= rm_firstdatacol rm -> setpar n rm = rm.
Proof.
  intros H. induction n as [|n IH]; intros Hn; [done|]. cbn [setpar]. rewrite IH by lia.
  rewrite <- (Nat2Z.id n) at 2. rewrite <- H by lia. apply wdat_id.
Qed.

(** C9: [vdev_raidz_generate_parity] on a well-formed map stores in parity
    column [k] at every byte [j] the field sum
    [2^(k*(n-1)) * D_0 + ... + 2^k * D_(n-2) + D_(n-1)] of the data columns'
    bytes (columns that are too short count as zero), leaves the data columns
    as they were, and never leaves a buffer. *)
Theorem generate_parity_correct rm (Hwf : rm_wf rm) :
  exists rm', vdev_raidz_generate_parity rm = Ok rm' /\
    (forall k j, 0 <= k < rm_firstdatacol rm -> Z.of_nat j < siz rm 0 ->
      nth j (dat rm' k) 0 = gsum (ndata rm) (fun i =>
        gmul (mulp (Z.to_nat k * (ndata rm - 1 - i)) 1) (cbyte rm (rm_firstdatacol rm + Z.of_nat i) j))) /\
    (forall c, rm_firstdatacol rm <= c -> rm_col rm' !! Z.to_nat c = rm_col rm !! Z.to_nat c) /\
    rm_wf rm'.
Proof.
  pose proof (wf_np _ Hwf). pose proof (wf_first _ Hwf). pose proof (wf_cols _ Hwf).
  exists (setpar (Z.to_nat (rm_firstdatacol rm)) rm). split; [by apply generate_ok|].
  split; [|split; [intros; apply setpar_data; lia|apply setpar_wf; [done|lia]]].
  intros k j Hk Hj. rewrite <- (Z2Nat.id k) at 1 by lia. rewrite setpar_parity by lia.
  unfold parity_col, VDEV_RAIDZ_P. rewrite nth_tab. destruct (decide _); [|lia]. apply horner_sum.
  intros i Hi. apply cbyte_byte, (wf_col _ Hwf). unfold ndata in Hi. lia.
Qed.

(** Three parity columns, three data columns, the last one short. *)
Definition ex_col (n : Z) (d : list Z) : raidz_col := RC 0 0 n d None 0 false false.
Definition ex_map : raidz_map :=
  RM 6 6 5 0 0 0 3 0 0 None 0 false false
    [ex_col 16 (replicate 16 0); ex_col 16 (replicate 16 0); ex_col 16 (replicate 16 0);
     ex_col 16 [1; 2; 3; 4; 5; 6; 7; 8; 9; 10; 11; 12; 13; 14; 15; 16];
     ex_col 16 [255; 254; 253; 252; 251; 250; 249; 248; 128; 64; 32; 16; 8; 4; 2; 1];
     ex_col 8 [170; 85; 204; 51; 240; 15; 129; 126]].

Lemma generate_parity_correct_witness :
  exists rm', vdev_raidz_generate_parity ex_map = Ok rm' /\ rm_wf rm'.
Proof.
  destruct (generate_parity_correct ex_map) as (rm' & H & _ & _ & Hw).
  - apply rm_wfb_wf. vm_compute. reflexivity.
  - exists rm'. split; [exact H|exact Hw].
Defined.
End RaidzParity.
