(* ===== verification/RaidzReconstruct.v ===== *)
(** RAID-Z reconstruction (module/zfs/vdev_raidz.c): the optimised routines for
    one lost data column (from P or from Q) and for two (from P and Q). *)

From S2P Require Import Prelude Galois RaidzMap RaidzParity.
From Stdlib Require Import Ring Field.
Import Galois RaidzMap RaidzParity.
Open Scope Z_scope.

Module RaidzReconstruct.

(** The reconstruction routines take the target columns and return the map
    with the targets recomputed and the code of the parity columns used. *)
Definition vdev_raidz_reconstruct_p (rm : raidz_map) (tgts : list Z) : res (raidz_map * Z) :=
  x ← rd tgts 0;
  xsize ← col_size rm x;
  let xcount := xsize / 8 in
  src ← col_data rm VDEV_RAIDZ_P;
  dst ← col_data rm x;
  dst ← for_range 0 xcount (fun i dst => s ← rd64 src i; wr64 dst i s) dst;
  rm ← set_col_data rm x dst;
  rm ← for_range (rm_firstdatacol rm) (rm_cols rm) (fun c rm =>
    src ← col_data rm c;
    dst ← col_data rm x;
    if c =? x then Ok rm else
    csize ← col_size rm c;
    let count := Z.min (csize / 8) xcount in
    dst ← for_range 0 count (fun i dst =>
      d ← rd64 dst i; s ← rd64 src i; wr64 dst i (Z.lxor d s)) dst;
    set_col_data rm x dst) rm;
  Ok (rm, Z.shiftl 1 VDEV_RAIDZ_P).

Definition vdev_raidz_reconstruct_q (rm : raidz_map) (tgts : list Z) : res (raidz_map * Z) :=
  x ← rd tgts 0;
  xsize ← col_size rm x;
  let xcount := xsize / 8 in
  rm ← for_range (rm_firstdatacol rm) (rm_cols rm) (fun c rm =>
    src ← col_data rm c;
    dst ← col_data rm x;
    csize ← col_size rm c;
    let ccount := if c =? x then 0 else csize / 8 in
    let count := Z.min ccount xcount in
    dst ← q_add (c =? rm_firstdatacol rm) src count xcount dst;
    set_col_data rm x dst) rm;
  src ← col_data rm VDEV_RAIDZ_Q;
  dst ← col_data rm x;
  let exp := 255 - (rm_cols rm - 1 - x) in
  dst ← for_range 0 xcount (fun i dst =>
    d ← rd64 dst i; s ← rd64 src i;
    dst ← wr64 dst i (Z.lxor d s);
    for_range 0 8 (fun j dst =>
      b ← rd dst (8 * i + j);
      v ← vdev_raidz_exp2 b exp;
      wr dst (8 * i + j) v) dst) dst;
  rm ← set_col_data rm x dst;
  Ok (rm, Z.shiftl 1 VDEV_RAIDZ_Q).

(** The logarithms of the coefficients [A] and [B] of the solution. *)
Definition pq_exps (cols x y : Z) : res (Z * Z) :=
  a ← rd vdev_raidz_pow2 (255 + x - y);
  b ← rd vdev_raidz_pow2 (255 - (cols - 1 - x));
  l ← rd vdev_raidz_log2 (Z.lxor a 1);
  let tmp := u8 (255 - l) in
  ea ← vdev_raidz_exp2 a tmp;
  aexp ← rd vdev_raidz_log2 ea;
  eb ← vdev_raidz_exp2 b tmp;
  bexp ← rd vdev_raidz_log2 eb;
  Ok (aexp, bexp).

(** The loop over the bytes of the two columns. *)
Definition pq_bytes (aexp bexp xsize ysize : Z) (pdata qdata pxy qxy : list Z)
    (xyd : list Z * list Z) : res (list Z * list Z) :=
  for_range 0 xsize (fun i '(xd, yd) =>
    p ← rd pdata i; pxy ← rd pxy i; q ← rd qdata i; qxy ← rd qxy i;
    v ← vdev_raidz_exp2 (Z.lxor p pxy) aexp;
    w ← vdev_raidz_exp2 (Z.lxor q qxy) bexp;
    xd ← wr xd i (Z.lxor v w);
    if i <? ysize then
      xv ← rd xd i;
      yd ← wr yd i (Z.lxor (Z.lxor p pxy) xv);
      Ok (xd, yd)
    else Ok (xd, yd)) xyd.

Section pq.
Variable zio_buf_alloc : Z -> list Z.

Definition vdev_raidz_reconstruct_pq (rm : raidz_map) (tgts : list Z) : res (raidz_map * Z) :=
  x ← rd tgts 0;
  y ← rd tgts 1;
  pdata ← col_data rm VDEV_RAIDZ_P;
  qdata ← col_data rm VDEV_RAIDZ_Q;
  xsize ← col_size rm x;
  ysize ← col_size rm y;
  psize ← col_size rm VDEV_RAIDZ_P;
  rm ← set_col_data rm VDEV_RAIDZ_P (zio_buf_alloc psize);
  qsize ← col_size rm VDEV_RAIDZ_Q;
  rm ← set_col_data rm VDEV_RAIDZ_Q (zio_buf_alloc qsize);
  rm ← set_col_size rm x 0;
  rm ← set_col_size rm y 0;
  rm ← vdev_raidz_generate_parity_pq rm;
  rm ← set_col_size rm x xsize;
  rm ← set_col_size rm y ysize;
  pxy ← col_data rm VDEV_RAIDZ_P;
  qxy ← col_data rm VDEV_RAIDZ_Q;
  xd ← col_data rm x;
  yd ← col_data rm y;
  '(aexp, bexp) ← pq_exps (rm_cols rm) x y;
  '(xd, yd) ← pq_bytes aexp bexp xsize ysize pdata qdata pxy qxy (xd, yd);
  rm ← set_col_data rm x xd;
  rm ← set_col_data rm y yd;
  rm ← set_col_data rm VDEV_RAIDZ_P pdata;
  rm ← set_col_data rm VDEV_RAIDZ_Q qdata;
  Ok (rm, Z.lor (Z.shiftl 1 VDEV_RAIDZ_P) (Z.shiftl 1 VDEV_RAIDZ_Q)).
End pq.

(** ** Single-column reconstruction *)

(** Parity [k] of the first [n] data columns but the excluded ones. *)
Definition parx (k : nat) (rm : raidz_map) (ex : Z -> bool) (n j : nat) : Z :=
  horner k (fun i => if ex (rm_firstdatacol rm + Z.of_nat i) then 0
                     else cbyte rm (rm_firstdatacol rm + Z.of_nat i) j) n.

Lemma parx_S k rm ex c j : rm_firstdatacol rm <= c ->
  parx k rm ex (Z.to_nat (c + 1 - rm_firstdatacol rm)) j =
    Z.lxor (mulp k (parx k rm ex (Z.to_nat (c - rm_firstdatacol rm)) j)) (if ex c then 0 else cbyte rm c j).
Proof.
  intros Hc. replace (Z.to_nat (c + 1 - _)) with (S (Z.to_nat (c - rm_firstdatacol rm))) by lia.
  unfold parx. cbn [horner]. by replace (_ + Z.of_nat (Z.to_nat (c - _))) with c by lia.
Qed.

Section single.
Context (rm : raidz_map) (x : Z) (Hwf : rm_wf rm) (Hx : rm_firstdatacol rm <= x < rm_cols rm).
Abbreviation first := (rm_firstdatacol rm).
Abbreviation xs := (siz rm x).
Abbreviation isx := (fun c => c =? x).

(** The target after the columns before [c] were added to [P]. *)
Definition pdst (c : Z) : list Z :=
  tab (Z.to_nat xs) (fun j => Z.lxor (nth j (dat rm 0) 0) (parx 0 rm isx (Z.to_nat (c - first)) j)).

Lemma parx_byte k ex n j : Z.of_nat n <= rm_cols rm - first -> is_byte (parx k rm ex n j).
Proof using Hwf.
  intros Hn. apply horner_byte. intros i Hi. pose proof (wf_np _ Hwf). destruct (ex _); [done|].
  apply cbyte_byte, (wf_col _ Hwf). lia.
Qed.

Lemma xs_facts : 0 <= xs /\ xs mod 8 = 0 /\ zlen (dat rm x) = xs /\ Forall is_byte (dat rm x).
Proof using Hwf Hx. apply (wf_col _ Hwf). pose proof (wf_np _ Hwf). lia. Qed.

Lemma pdst_step c : first <= c < rm_cols rm -> c <> x ->
  for_range 0 (Z.min (siz rm c / 8) (xs / 8)) (fun i dst =>
      d ← rd64 dst i; s ← rd64 (dat rm c) i; wr64 dst i (Z.lxor d s)) (pdst c)
  = Ok (pdst (c + 1)).
Proof using Hwf Hx.
  intros Hc Hcx. destruct xs_facts as (Hxs & Hx8 & Hxl & Hxb). pose proof (wf_np _ Hwf).
  destruct (wf_col _ Hwf c) as (Hs & Hs8 & Hl & Hb); [lia|].
  assert (Hd : Forall is_byte (pdst c)).
  { apply Forall_tab. intros. apply lxor_byte; [apply nth_byte, (wf_col _ Hwf); lia|apply parx_byte; lia]. }
  rewrite (loop_upd1 0 (Z.min (siz rm c / 8) (xs / 8)) (dat rm c) ltac:(dlia) Hb Z.lxor Z.lxor).
  - f_equal. unfold upd, pdst. rewrite length_tab. apply tab_ext. intros j Hj.
    rewrite nth_tab. destruct (decide _); [|lia]. rewrite parx_S by lia. rewrite (proj2 (Z.eqb_neq c x)) by done.
    unfold cbyte. rewrite <- Z.lxor_assoc. change (mulp 0 ?a) with a. case_ifs; try dlia; by rewrite ?Z.lxor_0_r.
  - split; [|done]. unfold pdst. rewrite length_tab. dlia.
  - intros i b Hi Hb'. rewrite Hb'. bnd. by rewrite rd64_seg by dlia.
Qed.
Lemma pdst_skip : pdst (x + 1) = pdst x.
Proof using Hx.
  apply tab_ext. intros j Hj. rewrite parx_S, Z.eqb_refl by lia. by rewrite Z.lxor_0_r.
Qed.

Lemma pdst_first :
  for_range 0 (xs / 8) (fun i dst => s ← rd64 (dat rm 0) i; wr64 dst i s) (dat rm x) = Ok (pdst first).
Proof using Hwf Hx.
  destruct xs_facts as (Hxs & Hx8 & Hxl & Hxb). pose proof (wf_np _ Hwf).
  destruct (wf_col _ Hwf 0) as (Hs & Hs8 & Hl & Hb); [lia|].
  pose proof (wf_desc _ Hwf 0 x ltac:(lia) ltac:(lia)).
  rewrite p_first_ok with (m := xs) by (done || lia). f_equal.
  unfold upd, pdst. replace (length (dat rm x)) with (Z.to_nat xs) by lia.
  apply tab_ext. intros j Hj. rewrite Z.sub_diag. cbn [Z.to_nat parx horner].
  rewrite Z.lxor_0_r. case_ifs; [done|lia].
Qed.

Lemma reconstruct_p_val tgts : rd tgts 0 = Ok x ->
  vdev_raidz_reconstruct_p rm tgts = Ok (wdat rm x (pdst (rm_cols rm)), 1).
Proof using Hwf Hx.
  intros Ht. pose proof (wf_np _ Hwf). pose proof (wf_first _ Hwf). pose proof (wf_cols _ Hwf).
  unfold vdev_raidz_reconstruct_p, VDEV_RAIDZ_P. rewrite Ht.
  bnd. cols. rewrite pdst_first. bnd. cols.
  erewrite (for_range_fun (fun c => wdat rm x (pdst c))); [|cbn; lia| |done|done]; [done|].
  intros c Hc. cbn in Hc. destruct (Z.eqb_spec c x) as [->|Hcx].
  - cols. by rewrite pdst_skip.
  - cols. rewrite pdst_step by done. bnd. cols. by rewrite wdat_wdat.
Qed.

(** The target as the recomputed [Q] of the columns before [c]. *)
Definition qdst (c : Z) : list Z :=
  if c =? first then dat rm x
  else tab (Z.to_nat xs) (parx 1 rm isx (Z.to_nat (c - first))).

Lemma qdst_buf c : first <= c <= rm_cols rm -> zlen (qdst c) = xs /\ Forall is_byte (qdst c).
Proof using Hwf Hx.
  intros Hc. destruct xs_facts as (Hxs & Hx8 & Hxl & Hxb). unfold qdst. case_if as E; [done|].
  split; [rewrite length_tab; lia|]. apply Forall_tab. intros. apply parx_byte. lia.
Qed.

Lemma qdst_step c src : first <= c < rm_cols rm ->
  src = (if c =? x then qdst c else dat rm c) ->
  q_add (c =? first) src (Z.min (if c =? x then 0 else siz rm c / 8) (xs / 8)) (xs / 8) (qdst c)
  = Ok (qdst (c + 1)).
Proof using Hwf Hx.
  intros Hc ->. destruct xs_facts as (Hxs & Hx8 & Hxl & Hxb). pose proof (wf_np _ Hwf).
  destruct (wf_col _ Hwf c) as (Hs & Hs8 & Hl & Hb); [lia|]. destruct (qdst_buf c) as [Hql Hqb]; [lia|].
  set (n := if c =? x then 0 else Z.min (siz rm c) xs).
  replace (Z.min (if c =? x then 0 else siz rm c / 8) (xs / 8)) with (n / 8)
    by (unfold n; case_if as E; dlia).
  assert (Hn : 0 <= n <= xs /\ n mod 8 = 0) by (unfold n; case_if as E; dlia).
  rewrite q_add_ok with (n := n); [|destruct (c =? x); done|lia|lia|done|unfold n; case_if as E; lia|done].
  f_equal. unfold stored, added. rewrite stored_tab, added_tab by lia.
  transitivity (tab (Z.to_nat xs) (fun j => Z.lxor (mul2 (parx 1 rm isx (Z.to_nat (c - first)) j))
    (if c =? x then 0 else cbyte rm c j))).
  - case_if as Hf.
    + subst c. apply tab_ext. intros j Hj. rewrite Z.sub_diag. cbn [Z.to_nat parx horner].
      change (mul2 0) with 0. rewrite Z.lxor_0_l. unfold n, cbyte. case_ifs; try lia; done.
    + apply tab_ext. intros j Hj. f_equal.
      * f_equal. unfold qdst. rewrite (proj2 (Z.eqb_neq c first)), nth_tab by done. by destruct (decide _); [|lia].
      * unfold n, cbyte. case_ifs; try lia; done.
  - unfold qdst. rewrite (proj2 (Z.eqb_neq (c + 1) first)) by lia.
    apply tab_ext. intros j Hj. by rewrite parx_S by lia.
Qed.

(** The bytes of one word divided by a power of 2. *)
Lemma exp2_word e i dst : 0 <= e <= 255 -> 0 <= i -> 8 * i + 8 <= zlen dst -> Forall is_byte dst ->
  for_range 0 8 (fun j dst => b ← rd dst (8 * i + j); v ← vdev_raidz_exp2 b e; wr dst (8 * i + j) v) dst
  = Ok (upd (fun b _ => mulp (Z.to_nat e) b) [] (8 * i) (8 * (i + 1)) dst).
Proof.
  intros He Hi Hl Hb.
  apply (for_range_fun (fun j => upd (fun b _ => mulp (Z.to_nat e) b) [] (8 * i) (8 * i + j) dst));
    [lia| |by rewrite upd_nil by lia|f_equal; lia].
  intros j Hj. rewrite rd_upd by lia. bnd.
  rewrite exp2_mulp by (try apply nth_byte; auto). bnd.
  rewrite (wr_upd (fun b _ => mulp (Z.to_nat e) b) []) by lia. do 2 f_equal. lia.
Qed.

Lemma q_divide e q dst : 0 <= e <= 255 -> Forall is_byte q -> Forall is_byte dst ->
  zlen dst = xs -> xs <= zlen q ->
  for_range 0 (xs / 8) (fun i dst =>
    d ← rd64 dst i; s ← rd64 q i;
    dst ← wr64 dst i (Z.lxor d s);
    for_range 0 8 (fun j dst =>
      b ← rd dst (8 * i + j); v ← vdev_raidz_exp2 b e; wr dst (8 * i + j) v) dst) dst
  = Ok (tab (Z.to_nat xs) (fun j => mulp (Z.to_nat e) (Z.lxor (nth j dst 0) (nth j q 0)))).
Proof using Hwf Hx.
  intros He Hq Hd Hl Hlq. destruct xs_facts as (Hxs & Hx8 & _). pose proof (words_of _ Hx8) as W.
  set (f := fun d s => mulp (Z.to_nat e) (Z.lxor d s)).
  assert (Hf : forall b c, is_byte b -> is_byte c -> is_byte (f b c)) by (intros; by apply mulp_byte, lxor_byte).
  apply (for_range_fun (fun i => upd f q 0 (8 * i) dst)); [lia| |by rewrite upd_nil by lia|].
  - intros i Hi. set (B := upd f q 0 (8 * i) dst).
    assert (HB : zlen B = xs) by (unfold B; by rewrite length_upd).
    assert (Bb : Forall is_byte B) by (by apply upd_byte).
    rewrite !rd64_seg by lia. bnd.
    replace (wr64 B i _) with (Ok (upd Z.lxor q (8 * i) (8 * (i + 1)) B))
      by (rewrite <- (wr64_upd Z.lxor Z.lxor) by (done || lia); by rewrite upd_nil by lia).
    bnd.
    rewrite exp2_word by (rewrite ?length_upd; auto using upd_byte, lxor_byte; lia).
    f_equal. unfold upd at 1. rewrite length_upd. unfold B. rewrite length_upd.
    apply tab_ext. intros j Hj. rewrite nth_upd by (rewrite ?length_upd; done).
    rewrite nth_upd by done. unfold f. case_ifs; try lia; done.
  - unfold upd. replace (length dst) with (Z.to_nat xs) by lia. apply tab_ext. intros j Hj.
    case_if as E; [done|lia].
Qed.

Lemma reconstruct_q_val tgts : rd tgts 0 = Ok x -> 2 <= first ->
  vdev_raidz_reconstruct_q rm tgts = Ok (wdat rm x (tab (Z.to_nat xs) (fun j =>
    mulp (Z.to_nat (255 - (rm_cols rm - 1 - x)))
      (Z.lxor (parx 1 rm isx (ndata rm) j) (nth j (dat rm 1) 0)))), 2).
Proof using Hwf Hx.
  intros Ht H2. pose proof (wf_np _ Hwf). pose proof (wf_first _ Hwf). pose proof (wf_cols _ Hwf).
  destruct xs_facts as (Hxs & Hx8 & Hxl & Hxb). destruct (qdst_buf (rm_cols rm)) as [Hql Hqb]; [lia|].
  destruct (wf_col _ Hwf 1) as (Hs & Hs8 & Hl & Hb); [lia|].
  pose proof (wf_desc _ Hwf 1 x ltac:(lia) ltac:(lia)).
  unfold vdev_raidz_reconstruct_q, VDEV_RAIDZ_Q. rewrite Ht. bnd. cols.
  erewrite (for_range_fun (fun c => wdat rm x (qdst c))); [|lia| | |done].
  - bnd. cols. cbn [rm_cols ualt set_rm_col].
    rewrite q_divide by (done || lia). bnd. cols. rewrite wdat_wdat.
    erewrite tab_ext; [done|]. intros j Hj. cbv beta. do 2 f_equal.
    unfold qdst. case_if as E; [lia|]. rewrite nth_tab. by destruct (decide _); [|lia].
  - intros c Hc. cols. cbn [rm_firstdatacol ualt set_rm_col]. rewrite qdst_step; [|lia|].
    + bnd. cols. by rewrite wdat_wdat.
    + case_if as E; [subst c; by rewrite dat_wdat by lia|by rewrite dat_ualt_ne by lia].
  - unfold qdst. by rewrite Z.eqb_refl, wdat_id.
Qed.
End single.

(** ** Correctness of the single-column routines *)

(** [rm] is [o] with the data columns in [ex] damaged: their bytes are
    arbitrary. *)
Record damaged (ex : Z -> bool) (o rm : raidz_map) : Prop := {
  dm_cols : rm_cols rm = rm_cols o;
  dm_first : rm_firstdatacol rm = rm_firstdatacol o;
  dm_siz : forall c, siz rm c = siz o c;
  dm_dat : forall c, rm_firstdatacol o <= c < rm_cols o -> ex c = false -> dat rm c = dat o c }.

Lemma parx_damaged k ex o rm n j : damaged ex o rm -> rm_wf o -> (n <= ndata o)%nat -> parx k rm ex n j = parx k o ex n j.
Proof.
  intros [Hc Hf Hs Hd] Hwf Hn. unfold parx. rewrite Hf. apply horner_ext. intros i Hi.
  destruct (ex _) eqn:E; [done|]. unfold cbyte. rewrite Hs, Hd; [done| |done]. unfold ndata in Hn. lia.
Qed.

(** Parity with one column set apart. *)
Lemma par_split k o x j : rm_wf o -> rm_firstdatacol o <= x < rm_cols o ->
  par k o (ndata o) j = Z.lxor (parx k o (fun c => c =? x) (ndata o) j)
    (mulp (k * Z.to_nat (rm_cols o - 1 - x)) (cbyte o x j)).
Proof.
  intros Hwf Hx. unfold par. rewrite (horner_split k _ (Z.to_nat (x - rm_firstdatacol o))) by (unfold ndata; lia).
  f_equal.
  - apply horner_ext. intros i Hi. destruct (decide _) as [->|Hne].
    + by rewrite (proj2 (Z.eqb_eq _ x)) by lia.
    + by rewrite (proj2 (Z.eqb_neq _ x)) by lia.
  - replace (rm_firstdatacol o + Z.of_nat (Z.to_nat (x - rm_firstdatacol o))) with x by lia.
    f_equal. unfold ndata. f_equal. lia.
Qed.

Lemma nth_parity k o j : (j < Z.to_nat (siz o 0))%nat -> nth j (parity_col k o) 0 = par k o (ndata o) j.
Proof. intros Hj. unfold parity_col, VDEV_RAIDZ_P. rewrite nth_tab. by destruct (decide _). Qed.

Lemma tab_cbyte o x : zlen (dat o x) = siz o x -> tab (Z.to_nat (siz o x)) (cbyte o x) = dat o x.
Proof.
  intros Hl. rewrite <- (tab_nth (dat o x)). replace (length (dat o x)) with (Z.to_nat (siz o x)) by lia.
  apply tab_ext. intros j Hj. unfold cbyte. by case_if as E; [|lia].
Qed.

Section correct1.
Context (o rm : raidz_map) (x : Z) (tgts : list Z).
Context (Hwfo : rm_wf o) (Hwf : rm_wf rm) (Hdam : damaged (fun c => c =? x) o rm).
Context (Hx : rm_firstdatacol o <= x < rm_cols o) (Ht : rd tgts 0 = Ok x).

Lemma x_facts : zlen (dat o x) = siz o x /\ Forall is_byte (dat o x) /\ siz o x <= siz o 0.
Proof using Hwfo Hx.
  pose proof (wf_np _ Hwfo). destruct (wf_col _ Hwfo x) as (_ & _ & ? & ?); [lia|].
  split_and!; [done|done|]. apply (wf_desc _ Hwfo); lia.
Qed.

Lemma reconstruct_p_ok : dat rm 0 = parity_col 0 o ->
  vdev_raidz_reconstruct_p rm tgts = Ok (wdat rm x (dat o x), 1).
Proof using All.
  intros HP. pose proof (dm_first _ _ _ Hdam) as Ef. pose proof (dm_cols _ _ _ Hdam) as Ec.
  destruct x_facts as (Hl & _ & Hle).
  rewrite (reconstruct_p_val rm x) by (done || lia). do 3 f_equal.
  unfold pdst. rewrite Ec, Ef, HP, (dm_siz _ _ _ Hdam). rewrite <- (tab_cbyte o x) by done.
  f_equal. apply tab_ext. intros j Hj. rewrite nth_parity by lia.
  rewrite (parx_damaged 0 _ o) by (done || unfold ndata; lia).
  change (Z.to_nat (rm_cols o - rm_firstdatacol o)) with (ndata o).
  rewrite (par_split 0 o x) by done. cbn [Nat.mul]. change (mulp 0 ?v) with v.
  rewrite Z.lxor_comm, <- Z.lxor_assoc, Z.lxor_nilpotent. apply Z.lxor_0_l.
Qed.

Lemma reconstruct_q_ok : dat rm 1 = parity_col 1 o -> 2 <= rm_firstdatacol o ->
  vdev_raidz_reconstruct_q rm tgts = Ok (wdat rm x (dat o x), 2).
Proof using All.
  intros HQ H2. pose proof (dm_first _ _ _ Hdam) as Ef. pose proof (dm_cols _ _ _ Hdam) as Ec.
  destruct x_facts as (Hl & Hb & Hle). pose proof (wf_np _ Hwfo). pose proof (wf_first _ Hwfo).
  rewrite (reconstruct_q_val rm x) by (done || lia). do 3 f_equal.
  rewrite Ec, HQ, (dm_siz _ _ _ Hdam). rewrite <- (tab_cbyte o x) by done.
  f_equal. apply tab_ext. intros j Hj. rewrite nth_parity by lia.
  replace (ndata rm) with (ndata o) by (unfold ndata; lia).
  rewrite (parx_damaged 1 _ o) by done. rewrite (par_split 1 o x) by done.
  rewrite <- Z.lxor_assoc, Z.lxor_nilpotent, Z.lxor_0_l, <- mulp_add.
  replace (_ + _)%nat with 255%nat by lia. by apply mulp_255, cbyte_byte.
Qed.
End correct1.

(** ** Two columns from P and Q *)

(** Solving for [D_x]: [A] and [B] as the routine computes them, with
    [al = 2^(x-y)], [be = 2^-(n-1-x)], [ia = 2^(n-1-x)] and [ga = 2^(n-1-y)]. *)
Lemma pq_solve al be ia ga dx dy :
  gf_add al gf_1 <> gf_0 -> gf_mul ia be = gf_1 -> gf_mul ga be = al ->
  gf_add (gf_mul (gf_div al (gf_add al gf_1)) (gf_add (gf_mul gf_1 dx) (gf_mul gf_1 dy)))
    (gf_mul (gf_div be (gf_add al gf_1)) (gf_add (gf_mul ia dx) (gf_mul ga dy))) = dx.
Proof.
  intros Ha H1 H2.
  transitivity (gf_div (gf_add (gf_mul (gf_add al (gf_mul ia be)) dx)
                               (gf_mul (gf_add al (gf_mul ga be)) dy)) (gf_add al gf_1)); [field; done|].
  rewrite H1, H2. field. done.
Qed.

Section coefficients.
Context (i l : Z) (Hi : 0 < i < 255) (Hl : 0 <= l <= 255).
(** [i = y - x], [l = n - 1 - x]. *)

Lemma pow_ne_1 : pow2 (255 - i) <> 1.
Proof using Hi. intros E. apply (f_equal log2) in E. rewrite pow2_log2 in E by lia. change (log2 1) with 0 in E. lia. Qed.

Lemma coef_facts :
  let a := pow2 (255 - i) in
  is_byte (Z.lxor a 1) /\ Z.lxor a 1 <> 0 /\ gf_of (Z.lxor a 1) = gf_add (gpow (Z.to_nat (255 - i))) gf_1.
Proof using Hi.
  intros a. destruct (pow2_byte (255 - i)) as [Ha _]; [lia|]. fold a in Ha. split_and!.
  - by apply lxor_byte.
  - intros E%Z.lxor_eq. by apply pow_ne_1.
  - rewrite gf_of_lxor by done. f_equal. apply gpow_pow2. lia.
Qed.

(** [255 - log2 (a ^ 1)] as an exponent divides by [a + 1]. *)
Lemma coef_div k :
  0 <= k <= 255 ->
  exists e, vdev_raidz_exp2 (pow2 k) (u8 (255 - log2 (Z.lxor (pow2 (255 - i)) 1))) = Ok e /\
    is_byte e /\ e <> 0 /\
    gf_of e = gf_div (gpow (Z.to_nat k)) (gf_add (gpow (Z.to_nat (255 - i))) gf_1).
Proof using Hi.
  intros Hk. destruct coef_facts as (Hb & Hn & E). destruct (pow2_byte k) as [Hpb Hpn]; [lia|].
  destruct (log2_pow2 _ Hb Hn) as [Hlog _].
  assert (Hnz : gf_add (gpow (Z.to_nat (255 - i))) gf_1 <> gf_0) by (rewrite <- E; by apply gf_of_nz).
  rewrite Z.mod_small by lia. rewrite exp2_mulp by lia || done.
  eexists; split; [done|]. rewrite mulp_inv by done. rewrite E, gpow_pow2 by lia.
  split_and!; [apply gval_byte| |apply gf_of_val].
  apply gval_nz. apply gf_mul_nz; [apply gpow_nz|]. intros C.
  assert (D : gf_mul (gf_inv (gf_add (gpow (Z.to_nat (255 - i))) gf_1)) (gf_add (gpow (Z.to_nat (255 - i))) gf_1) = gf_1)
    by (by apply gf_mul_inv).
  rewrite C in D. apply (f_equal gval) in D. rewrite gval_mul, gval_0, gmul_0_l in D. done.
Qed.
End coefficients.

Lemma exp2_log a v : is_byte a -> a <> 0 -> is_byte v ->
  vdev_raidz_exp2 v (log2 a) = Ok (gval (gf_mul (gf_of a) (gf_of v))).
Proof.
  intros Ha Hn Hv. destruct (log2_pow2 a Ha Hn) as [Hl _].
  rewrite exp2_mulp by (done || lia). by rewrite mulp_log.
Qed.

Lemma pq_exps_ok n x y : 0 <= x < y -> y < n -> n <= 255 ->
  exists ea eb, pq_exps n x y = Ok (log2 ea, log2 eb) /\
    (is_byte ea /\ ea <> 0) /\ (is_byte eb /\ eb <> 0) /\
    let d := gf_add (gpow (Z.to_nat (255 - (y - x)))) gf_1 in
    d <> gf_0 /\ gf_of ea = gf_div (gpow (Z.to_nat (255 - (y - x)))) d /\
    gf_of eb = gf_div (gpow (Z.to_nat (255 - (n - 1 - x)))) d.
Proof.
  intros Hx Hy Hn. unfold pq_exps.
  replace (255 + x - y) with (255 - (y - x)) by lia.
  destruct (coef_facts (y - x)) as (Hb & Hz & E); [lia|].
  destruct (coef_div (y - x) ltac:(lia) (255 - (y - x)) ltac:(lia)) as (ea & E1 & Ba & Na & Ga).
  destruct (coef_div (y - x) ltac:(lia) (255 - (n - 1 - x)) ltac:(lia)) as (eb & E2 & Bb & Nb & Gb).
  rewrite !rd_pow2 by lia. bnd. rewrite rd_log2 by done. bnd.
  rewrite E1. bnd. rewrite rd_log2 by done. bnd.
  rewrite E2. bnd. rewrite rd_log2 by done. bnd.
  exists ea, eb. split_and!; try done. rewrite <- E. by apply gf_of_nz.
Qed.

(** The byte loop stores a function of the four parity bytes in [x], and the
    difference to P in [y]. *)
Section pq_bytes.
Context (ea eb xs ys : Z) (P Q PX QX : list Z).
Context (Ha : is_byte ea /\ ea <> 0) (Hb : is_byte eb /\ eb <> 0) (Hys : 0 <= ys <= xs).
Context (LP : xs <= zlen P) (LQ : xs <= zlen Q) (LPX : xs <= zlen PX) (LQX : xs <= zlen QX).
Context (BP : Forall is_byte P) (BQ : Forall is_byte Q) (BPX : Forall is_byte PX) (BQX : Forall is_byte QX).

Definition sol (j : nat) : gf :=
  gf_add (gf_mul (gf_of ea) (gf_of (Z.lxor (nth j P 0) (nth j PX 0))))
         (gf_mul (gf_of eb) (gf_of (Z.lxor (nth j Q 0) (nth j QX 0)))).
Definition soly (j : nat) : Z := Z.lxor (Z.lxor (nth j P 0) (nth j PX 0)) (gval (sol j)).

Lemma sol_eq j :
  gf_add (gf_mul (gf_of ea) (gf_of (Z.lxor (nth j P 0) (nth j PX 0))))
         (gf_mul (gf_of eb) (gf_of (Z.lxor (nth j Q 0) (nth j QX 0)))) = sol j.
Proof. done. Qed.

Lemma soly_eq j : Z.lxor (Z.lxor (nth j P 0) (nth j PX 0)) (gval (sol j)) = soly j.
Proof. done. Qed.

Lemma upd_all f (xd : list Z) n : zlen xd = n -> 0 <= n <= xs ->
  upd (fun _ s => s) (tab (Z.to_nat xs) f) 0 n xd = tab (Z.to_nat n) f.
Proof using Hys.
  clear LP LQ LPX LQX. intros Hl Hn. unfold upd. replace (length xd) with (Z.to_nat n) by lia. apply tab_ext.
  intros j Hj. case_if as E; [|lia]. rewrite nth_tab. by destruct (decide _); [|lia].
Qed.

Lemma pq_bytes_ok xd yd : zlen xd = xs -> zlen yd = ys ->
  pq_bytes (log2 ea) (log2 eb) xs ys P Q PX QX (xd, yd)
  = Ok (tab (Z.to_nat xs) (fun j => gval (sol j)), tab (Z.to_nat ys) soly).
Proof using All.
  intros Lx Ly. unfold pq_bytes.
  apply (for_range_fun (fun i =>
    (upd (fun _ s => s) (tab (Z.to_nat xs) (fun j => gval (sol j))) 0 i xd,
     upd (fun _ s => s) (tab (Z.to_nat xs) soly) 0 (Z.min i ys) yd))); [lia| |by rewrite !upd_nil by lia|].
  2: { rewrite Z.min_r by lia. by rewrite !upd_all by lia. }
  intros i Hi. rewrite !rd_nth by lia. bnd.
  rewrite !exp2_log by (try tauto; apply lxor_byte; by apply nth_byte). bnd.
  rewrite <- gval_add, sol_eq.
  assert (N : forall g, nth (Z.to_nat i) (tab (Z.to_nat xs) g) 0 = g (Z.to_nat i))
    by (intros; rewrite nth_tab; by destruct (decide _); [|lia]).
  rewrite <- (N (fun j => gval (sol j))) at 1. rewrite wr_upd by lia. bnd. case_if as E.
  - rewrite rd_nth by (rewrite length_upd; lia). bnd.
    rewrite nth_upd by lia. rewrite N. case_if as E'; [|lia].
    rewrite soly_eq, <- (N soly). rewrite Z.min_l by lia.
    rewrite wr_upd by lia. bnd. by rewrite Z.min_l by lia.
  - by rewrite !Z.min_r by lia.
Qed.
End pq_bytes.

(** Parity with two columns set apart. *)
Lemma par_split2 k o x y j : rm_wf o -> rm_firstdatacol o <= x < y -> y < rm_cols o ->
  par k o (ndata o) j = Z.lxor (parx k o (fun c => (c =? x) || (c =? y)) (ndata o) j)
    (Z.lxor (mulp (k * Z.to_nat (rm_cols o - 1 - x)) (cbyte o x j))
            (mulp (k * Z.to_nat (rm_cols o - 1 - y)) (cbyte o y j))).
Proof.
  intros Hwf Hx Hy. rewrite (par_split k o x) by (done || lia).
  rewrite (Z.lxor_comm (mulp _ (cbyte o x j))), <- Z.lxor_assoc. f_equal.
  unfold parx. rewrite (horner_split k _ (Z.to_nat (y - rm_firstdatacol o))) by (unfold ndata; lia).
  f_equal.
  - apply horner_ext. intros i Hi. destruct (decide _) as [->|Hne].
    + by rewrite (proj2 (Z.eqb_eq _ y)), orb_true_r by lia.
    + by rewrite (proj2 (Z.eqb_neq _ y)), orb_false_r by lia.
  - replace (rm_firstdatacol o + Z.of_nat (Z.to_nat (y - rm_firstdatacol o))) with y by lia.
    rewrite (proj2 (Z.eqb_neq y x)) by lia. f_equal. unfold ndata. f_equal. lia.
Qed.

Section correct2.
Context (zio_buf_alloc : Z -> list Z).
Context (Halloc : forall n, 0 <= n -> zlen (zio_buf_alloc n) = n /\ Forall is_byte (zio_buf_alloc n)).
Context (rm : raidz_map) (x y : Z) (Hwf : rm_wf rm).
Context (Hx : rm_firstdatacol rm <= x < y) (Hy : y < rm_cols rm) (H2 : 2 <= rm_firstdatacol rm).
Abbreviation isxy := (fun c => (c =? x) || (c =? y)).

(** The map whose parity is recomputed: fresh parity buffers, empty targets. *)
Definition rmxy : raidz_map :=
  wsiz (wsiz (wdat (wdat rm 0 (zio_buf_alloc (siz rm 0))) 1 (zio_buf_alloc (siz rm 1))) x 0) y 0.

Ltac facts := pose proof (wf_np _ Hwf); pose proof (wf_first _ Hwf); pose proof (wf_cols _ Hwf);
  pose proof (wf_psize _ Hwf 1 ltac:(lia)).

Lemma rmxy_siz c : 0 <= c -> siz rmxy c = if isxy c then 0 else siz rm c.
Proof using Hwf Hx Hy H2.
  intros Hc. facts. unfold rmxy. destruct (Z.eqb_spec c y) as [->|].
  { rewrite orb_true_r. apply siz_wsiz. rewrite !length_ualt. lia. }
  rewrite orb_false_r, siz_ualt_ne by lia. destruct (Z.eqb_spec c x) as [->|].
  { apply siz_wsiz. rewrite !length_ualt. lia. }
  by rewrite siz_ualt_ne, !siz_wdat by lia.
Qed.

Lemma rmxy_dat c : rm_firstdatacol rm <= c -> dat rmxy c = dat rm c.
Proof using H2. intros Hc. unfold rmxy. by rewrite !dat_wsiz, !dat_ualt_ne by lia. Qed.

Lemma rmxy_parity : dat rmxy 0 = zio_buf_alloc (siz rm 0) /\ dat rmxy 1 = zio_buf_alloc (siz rm 1).
Proof using Hwf Hx Hy H2.
  facts. unfold rmxy. rewrite !dat_wsiz, dat_ualt_ne, !dat_wdat by (rewrite ?length_ualt; lia). done.
Qed.

Lemma rmxy_gen : gen_ok 2 rmxy.
Proof using Halloc Hwf Hx Hy H2.
  facts. destruct (wf_col _ Hwf 0) as (Hp & Hp8 & _); [lia|].
  assert (E0 : siz rmxy 0 = siz rm 0) by (rewrite rmxy_siz by lia; case_if as E; [lia|done]).
  split; rewrite ?E0; cbn [rm_firstdatacol rm_cols rmxy ualt set_rm_col]; [lia| |done| |].
  - unfold rmxy. rewrite !length_ualt. lia.
  - intros k Hk. destruct rmxy_parity as [D0 D1].
    assert (k = 0 \/ k = 1) as [-> | ->] by lia; rewrite ?D0, ?D1.
    + by apply Halloc.
    + replace (siz rm 0) with (siz rm 1). apply Halloc. lia.
  - intros c Hc. rewrite rmxy_siz, rmxy_dat by lia.
    destruct (wf_col _ Hwf c) as (? & ? & ? & ?); [lia|].
    pose proof (wf_desc _ Hwf 0 c ltac:(lia) ltac:(lia)).
    case_if as E; repeat split; try done; lia.
Qed.

Lemma rmxy_par k : parity_col k rmxy = tab (Z.to_nat (siz rm 0)) (parx k rm isxy (ndata rm)).
Proof using Hwf Hx Hy H2.
  facts. unfold parity_col, VDEV_RAIDZ_P. rewrite rmxy_siz by lia.
  replace (isxy 0) with false by (symmetry; apply orb_false_iff; rewrite !Z.eqb_neq; lia).
  apply tab_ext. intros j Hj. apply horner_ext. intros i Hi.
  cbn [rm_firstdatacol rmxy ualt set_rm_col]. unfold cbyte.
  rewrite rmxy_siz, rmxy_dat by lia. destruct (_ || _); [|done]. case_if as E; [lia|done].
Qed.


(** After the parity buffers and the sizes are put back, only the targets
    have changed. *)
Lemma pq_restore PX QX X Y :
  wdat (wdat (wdat (wdat (wsiz (wsiz (wdat (wdat rmxy 0 PX) 1 QX) x (siz rm x)) y (siz rm y)) x X) y Y)
    0 (dat rm 0)) 1 (dat rm 1)
  = wdat (wdat rm x X) y Y.
Proof using Hwf Hx Hy H2.
  facts. unfold rmxy. apply rm_ext; [by rewrite !hdr_ualt|]. intros i.
  assert (C : i = Z.to_nat 1 \/ i = Z.to_nat 0 \/ i = Z.to_nat x \/ i = Z.to_nat y \/
    (Z.to_nat 1 <> i /\ Z.to_nat 0 <> i /\ Z.to_nat x <> i /\ Z.to_nat y <> i)) by lia.
  destruct C as [-> | [-> | [-> | [-> | (? & ? & ? & ?)]]]];
    repeat first [ rewrite lookup_ualt_ne by lia | rewrite lookup_ualt_eq ];
    unfold dat, siz; by destruct (rm_col rm !! _) as [[]|].
Qed.

Lemma rmxy_length : length (rm_col rmxy) = length (rm_col rm).
Proof. unfold rmxy. by rewrite !length_ualt. Qed.

Lemma rmxy_cols : rm_cols rmxy = rm_cols rm.
Proof. unfold rmxy. by rewrite !cols_ualt. Qed.

Abbreviation pxy k := (tab (Z.to_nat (siz rm 0)) (parx k rm isxy (ndata rm))).

Lemma reconstruct_pq_val tgts ea eb : rd tgts 0 = Ok x -> rd tgts 1 = Ok y ->
  pq_exps (rm_cols rm) x y = Ok (log2 ea, log2 eb) ->
  is_byte ea /\ ea <> 0 -> is_byte eb /\ eb <> 0 ->
  vdev_raidz_reconstruct_pq zio_buf_alloc rm tgts
  = Ok (wdat (wdat rm x (tab (Z.to_nat (siz rm x)) (fun j => gval (sol ea eb (dat rm 0) (dat rm 1) (pxy 0) (pxy 1) j))))
         y (tab (Z.to_nat (siz rm y)) (soly ea eb (dat rm 0) (dat rm 1) (pxy 0) (pxy 1))), 3).
Proof using All.
  intros Tx Ty He Ha Hb. facts. pose proof rmxy_length.
  destruct (wf_col _ Hwf 0) as (Hp & Hp8 & Lp & Bp); [lia|].
  destruct (wf_col _ Hwf 1) as (_ & _ & Lq & Bq); [lia|].
  destruct (wf_col _ Hwf x) as (Hxs & _ & Lx & Bx); [lia|].
  destruct (wf_col _ Hwf y) as (Hys & _ & Ly & By); [lia|].
  pose proof (wf_desc _ Hwf 0 x ltac:(lia) ltac:(lia)). pose proof (wf_desc _ Hwf x y ltac:(lia) ltac:(lia)).
  unfold vdev_raidz_reconstruct_pq, VDEV_RAIDZ_P, VDEV_RAIDZ_Q. rewrite Tx, Ty. bnd.
  cols. fold rmxy. rewrite generate_pq_ok by apply rmxy_gen. bnd. rewrite !rmxy_par.
  cols. rewrite !rmxy_dat by lia.
  rewrite !cols_ualt, rmxy_cols, He. bnd.
  assert (Bt : forall k, Forall is_byte (pxy k))
    by (intros; apply Forall_tab; intros; apply parx_byte; [done|unfold ndata; lia]).
  rewrite pq_bytes_ok by (done || (rewrite ?length_tab; lia)).
  bnd. cols. rewrite pq_restore.
  change (Z.lor (Z.shiftl 1 0) (Z.shiftl 1 1)) with 3. reflexivity.
Qed.
End correct2.

Section correct_pq.
Context (zio_buf_alloc : Z -> list Z).
Context (Halloc : forall n, 0 <= n -> zlen (zio_buf_alloc n) = n /\ Forall is_byte (zio_buf_alloc n)).
Context (o rm : raidz_map) (x y : Z) (tgts : list Z).
Context (Hwfo : rm_wf o) (Hwf : rm_wf rm) (Hdam : damaged (fun c => (c =? x) || (c =? y)) o rm).
Context (Hx : rm_firstdatacol o <= x < y) (Hy : y < rm_cols o) (H2 : 2 <= rm_firstdatacol o).
Context (Tx : rd tgts 0 = Ok x) (Ty : rd tgts 1 = Ok y).
Context (HP : dat rm 0 = parity_col 0 o) (HQ : dat rm 1 = parity_col 1 o).

(** The parity bytes less those of the intact columns. *)
Lemma pq_residue k j : (j < Z.to_nat (siz o 0))%nat ->
  Z.lxor (nth j (parity_col k o) 0) (nth j (tab (Z.to_nat (siz rm 0)) (parx k rm (fun c => (c =? x) || (c =? y)) (ndata rm))) 0)
  = Z.lxor (mulp (k * Z.to_nat (rm_cols o - 1 - x)) (cbyte o x j))
           (mulp (k * Z.to_nat (rm_cols o - 1 - y)) (cbyte o y j)).
Proof using Hwfo Hdam Hx Hy.
  intros Hj. rewrite nth_parity, nth_tab by done. rewrite (dm_siz _ _ _ Hdam). destruct (decide _); [|lia].
  replace (ndata rm) with (ndata o)
    by (unfold ndata; by rewrite (dm_first _ _ _ Hdam), (dm_cols _ _ _ Hdam)).
  rewrite (parx_damaged k _ o) by done. rewrite (par_split2 k o x y) by done.
  rewrite Z.lxor_comm, <- Z.lxor_assoc, Z.lxor_nilpotent. apply Z.lxor_0_l.
Qed.

Lemma reconstruct_pq_ok :
  vdev_raidz_reconstruct_pq zio_buf_alloc rm tgts = Ok (wdat (wdat rm x (dat o x)) y (dat o y), 3).
Proof using All.
  pose proof (dm_first _ _ _ Hdam) as Ef. pose proof (dm_cols _ _ _ Hdam) as Ec.
  pose proof (wf_np _ Hwfo). pose proof (wf_first _ Hwfo).
  destruct (wf_col _ Hwfo x) as (_ & _ & Lx & Bx); [lia|].
  destruct (wf_col _ Hwfo y) as (_ & _ & Ly & By); [lia|].
  pose proof (wf_desc _ Hwfo 0 x ltac:(lia) ltac:(lia)).
  pose proof (wf_desc _ Hwfo x y ltac:(lia) ltac:(lia)).
  destruct (pq_exps_ok (rm_cols rm) x y) as (ea & eb & He & Ha & Hb & Hd & Ga & Gb); [lia..|].
  rewrite (reconstruct_pq_val _ Halloc rm x y Hwf ltac:(lia) ltac:(lia) ltac:(lia) tgts ea eb) by done.
  rewrite HP, HQ, (dm_siz _ _ _ Hdam x), (dm_siz _ _ _ Hdam y).
  assert (S : forall j, (j < Z.to_nat (siz o x))%nat ->
    sol ea eb (parity_col 0 o) (parity_col 1 o)
      (tab (Z.to_nat (siz rm 0)) (parx 0 rm (fun c => (c =? x) || (c =? y)) (ndata rm)))
      (tab (Z.to_nat (siz rm 0)) (parx 1 rm (fun c => (c =? x) || (c =? y)) (ndata rm))) j
    = gf_of (cbyte o x j)).
  { intros j Hj. unfold sol. rewrite !pq_residue by lia. rewrite Ga, Gb, Ec, !Nat.mul_1_l.
    rewrite !gf_of_lxor, !gf_of_mulp by auto using mulp_byte, cbyte_byte. rewrite !Nat.mul_0_l, gpow_0.
    apply pq_solve; [done|rewrite <- gpow_add|rewrite <- gpow_add].
    - replace (_ + _)%nat with 255%nat by lia. apply gpow_255.
    - f_equal. lia. }
  do 3 f_equal.
  - f_equal. f_equal. rewrite <- (tab_cbyte o x) by done. apply tab_ext. intros j Hj. rewrite S by done.
    by apply gval_of, cbyte_byte.
  - f_equal. rewrite <- (tab_cbyte o y) by done. apply tab_ext. intros j Hj. unfold soly.
    rewrite S, pq_residue, !Nat.mul_0_l by lia. rewrite gval_of by (by apply cbyte_byte).
    rewrite (Z.lxor_comm (mulp 0 (cbyte o x j))), Z.lxor_assoc.
    change (mulp 0 ?v) with v. by rewrite Z.lxor_nilpotent, Z.lxor_0_r.
Qed.
End correct_pq.
End RaidzReconstruct.
