(* ===== verification/RaidzGeneral.v ===== *)
(** General RAID-Z reconstruction (module/zfs/vdev_raidz.c): the rows of the
    dispersal matrix are inverted by Gauss-Jordan elimination and the missing
    columns recomputed from the inverse; [vdev_raidz_reconstruct] chooses
    between this and the optimised routines. *)

From S2P Require Import Prelude Galois RaidzMap RaidzParity RaidzReconstruct.
From Stdlib Require Import Ring Field.
Import Galois RaidzMap RaidzParity RaidzReconstruct.
Open Scope Z_scope.

Module RaidzGeneral.

(** ** The code *)

(** [m[i][j]] for an array of rows. *)
Definition rd2 (m : list (list Z)) (i j : Z) : res Z := row ← rd m i; rd row j.
Definition wr2 (m : list (list Z)) (i j v : Z) : res (list (list Z)) :=
  row ← rd m i; row ← wr row j v; wr m i row.

(** The rows of the parity columns [map] in the dispersal matrix. *)
Definition vdev_raidz_matrix_init (n nmap : Z) (map : list Z) (rows : list (list Z)) : res (list (list Z)) :=
  for_range 0 nmap (fun i rows =>
    m ← rd map i;
    let pow := m * n in
    let pow := if 255 <? pow then pow - 255 else pow in
    '(rows, _) ← for_range 0 n (fun j '(rows, pow) =>
      let pow := pow - m in
      let pow := if pow <? 0 then pow + 255 else pow in
      v ← rd vdev_raidz_pow2 pow;
      rows ← wr2 rows i j v;
      Ok (rows, pow)) (rows, pow);
    Ok rows) rows.

(** The steps of the inversion: the initial inverse rows, moving the columns
    of the intact data over, and the elimination proper. *)
Definition invert_init (n nmissing : Z) (invrows : list (list Z)) : res (list (list Z)) :=
  for_range 0 nmissing (fun i invrows =>
    for_range 0 n (fun j invrows => wr2 invrows i j (if i =? j then 1 else 0)) invrows) invrows.

Definition invert_move (first n nmissing : Z) (used : list Z) (m : list (list Z) * list (list Z)) :
    res (list (list Z) * list (list Z)) :=
  for_range 0 nmissing (fun i m =>
    for_range nmissing n (fun j '(rows, invrows) =>
      u ← rd used j;
      let jj := u - first in
      v ← rd2 rows i jj;
      invrows ← wr2 invrows i j v;
      rows ← wr2 rows i jj 0;
      Ok (rows, invrows)) m) m.

Definition invert_scale (n i log : Z) (m : list (list Z) * list (list Z)) :
    res (list (list Z) * list (list Z)) :=
  for_range 0 n (fun j '(rows, invrows) =>
    a ← rd2 rows i j; a ← vdev_raidz_exp2 a log; rows ← wr2 rows i j a;
    b ← rd2 invrows i j; b ← vdev_raidz_exp2 b log; invrows ← wr2 invrows i j b;
    Ok (rows, invrows)) m.

Definition invert_sub (n i ii log : Z) (m : list (list Z) * list (list Z)) :
    res (list (list Z) * list (list Z)) :=
  for_range 0 n (fun j '(rows, invrows) =>
    a ← rd2 rows i j; a ← vdev_raidz_exp2 a log;
    x ← rd2 rows ii j; rows ← wr2 rows ii j (Z.lxor x a);
    b ← rd2 invrows i j; b ← vdev_raidz_exp2 b log;
    y ← rd2 invrows ii j; invrows ← wr2 invrows ii j (Z.lxor y b);
    Ok (rows, invrows)) m.

Definition vdev_raidz_matrix_invert (first n nmissing : Z) (missing : list Z)
    (rows invrows : list (list Z)) (used : list Z) : res (list (list Z) * list (list Z)) :=
  invrows ← invert_init n nmissing invrows;
  m ← invert_move first n nmissing used (rows, invrows);
  for_range 0 nmissing (fun i '(rows, invrows) =>
    mi ← rd missing i;
    piv ← rd2 rows i mi;
    l ← rd vdev_raidz_log2 piv;
    m ← invert_scale n i (u8 (255 - l)) (rows, invrows);
    for_range 0 nmissing (fun ii '(rows, invrows) =>
      if i =? ii then Ok (rows, invrows) else
      v ← rd2 rows ii mi;
      log ← rd vdev_raidz_log2 v;
      invert_sub n i ii log (rows, invrows)) m) m.

(** The contribution of the column [used[i]], [src], to the targets. *)
Definition matrix_reconstruct_col (nmissing i : Z) (src : list Z) (ccount : Z)
    (dcount : list Z) (invlog : list (list Z)) (st : list (list Z) * Z) : res (list (list Z) * Z) :=
  for_range 0 ccount (fun x '(dst, log) =>
    s ← rd src x;
    log ← (if s =? 0 then Ok log else rd vdev_raidz_log2 s);
    dst ← for_range 0 nmissing (fun cc dst =>
      dc ← rd dcount cc;
      if dc <=? x then Ok dst else
      val ← (if s =? 0 then Ok 0 else
               il ← rd2 invlog cc i;
               let ll := log + il in
               rd vdev_raidz_pow2 (if 255 <=? ll then ll - 255 else ll));
      if i =? 0 then wr2 dst cc x val
      else d ← rd2 dst cc x; wr2 dst cc x (Z.lxor d val)) dst;
    Ok (dst, log)) st.

Fixpoint col_datas (rm : raidz_map) (cs : list Z) : res (list (list Z)) :=
  match cs with [] => Ok [] | c :: cs => d ← col_data rm c; ds ← col_datas rm cs; Ok (d :: ds) end.
Fixpoint col_sizes (rm : raidz_map) (cs : list Z) : res (list Z) :=
  match cs with [] => Ok [] | c :: cs => d ← col_size rm c; ds ← col_sizes rm cs; Ok (d :: ds) end.
Fixpoint set_col_datas (rm : raidz_map) (cs : list Z) (ds : list (list Z)) : res raidz_map :=
  match cs, ds with
  | c :: cs, d :: ds => rm ← set_col_data rm c d; set_col_datas rm cs ds
  | _, _ => Ok rm
  end.

(** The targets [dst[j]] are the buffers of the missing columns; they are read
    and written back around the loop over the bytes of a source column. *)
Definition vdev_raidz_matrix_reconstruct (rm : raidz_map) (n nmissing : Z) (missing : list Z)
    (invrows : list (list Z)) (used : list Z) : res raidz_map :=
  invlog ← for_range 0 nmissing (fun i invlog =>
    row ← for_range 0 n (fun j row => v ← rd2 invrows i j; l ← rd vdev_raidz_log2 v; Ok (row ++ [l])) [];
    Ok (invlog ++ [row])) [];
  let ccs := map (fun m => m + rm_firstdatacol rm) (take (Z.to_nat nmissing) missing) in
  '(rm, _) ← for_range 0 n (fun i '(rm, log) =>
    c ← rd used i;
    src ← col_data rm c;
    ccount ← col_size rm c;
    dst ← col_datas rm ccs;
    dcount ← col_sizes rm ccs;
    '(dst, log) ← matrix_reconstruct_col nmissing i src ccount dcount invlog (dst, log);
    rm ← set_col_datas rm ccs dst;
    Ok (rm, log)) (rm, 0);
  Ok rm.

Definition VDEV_RAIDZ_MAXPARITY := 3.

(** [a[n++] = v] on an array of [cap] cells. *)
Definition push {A} (cap : Z) (a : list A) (v : A) : res (list A) :=
  if zlen a <? cap then Ok (a ++ [v]) else Fault FWrite.

(** The data columns among the targets. *)
Definition general_missing (first ntgts : Z) (tgts : list Z) : res (list Z) :=
  for_range 0 ntgts (fun t missing =>
    tgt ← rd tgts t;
    if first <=? tgt then push VDEV_RAIDZ_MAXPARITY missing (tgt - first) else Ok missing) [].

(** The first parity columns that are not targets, as many as there are
    missing data columns, and their code.  Each round moves to the next target
    or adds a parity column: at most six rounds. *)
Definition general_parity (nmissing : Z) (tgts : list Z) : res (list Z * Z) :=
  loop 8 (fun '(t_, c, code, parity_map) =>
    if zlen parity_map <? nmissing then
      tgt ← rd tgts t_;
      if c =? tgt then Ok (inl (t_ + 1, c + 1, code, parity_map))
      else
        parity_map ← push VDEV_RAIDZ_MAXPARITY parity_map c;
        Ok (inl (t_, c + 1, Z.lor code (Z.shiftl 1 c), parity_map))
    else Ok (inr (parity_map, code))) (0, 0, 0, []).

(** The columns used: the chosen parity, then the intact data columns. *)
Definition general_used (first cols n nmissing : Z) (missing parity_map : list Z) : res (list Z) :=
  '(used, _) ← for_range first cols (fun c '(used, t_) =>
    hit ← (if t_ <? nmissing then m ← rd missing t_; Ok (c =? m + first) else Ok false);
    if (hit : bool) then Ok (used, t_ + 1)
    else used ← push n used (u8 c); Ok (used, t_)) (map (fun c => u8 c) parity_map, 0);
  Ok used.

Section general.
(** [kmem_alloc], [zio_buf_alloc]: buffers with unspecified content. *)
Variable kmem_alloc : Z -> list Z.
Variable zio_buf_alloc : Z -> list Z.
Variable vdev_raidz_default_to_general : bool.

Definition vdev_raidz_reconstruct_general (rm : raidz_map) (tgts : list Z) (ntgts : Z) :
    res (raidz_map * Z) :=
  let first := rm_firstdatacol rm in
  let n := rm_cols rm - first in
  missing_rows ← general_missing first ntgts tgts;
  let nmissing_rows := zlen missing_rows in
  '(parity_map, code) ← general_parity nmissing_rows tgts;
  let p := kmem_alloc (2 * nmissing_rows * n + n) in
  let slice k := take (Z.to_nat n) (drop (Z.to_nat (k * n)) p) in
  let rows := map (fun i => slice (2 * i)) (seqZ 0 nmissing_rows) in
  let invrows := map (fun i => slice (2 * i + 1)) (seqZ 0 nmissing_rows) in
  used ← general_used first (rm_cols rm) n nmissing_rows missing_rows parity_map;
  rows ← vdev_raidz_matrix_init n nmissing_rows parity_map rows;
  '(rows, invrows) ← vdev_raidz_matrix_invert first n nmissing_rows missing_rows rows invrows used;
  rm ← vdev_raidz_matrix_reconstruct rm n nmissing_rows missing_rows invrows used;
  Ok (rm, code).

(** The scan of the columns: the targets (given or failed), the parity columns
    that are valid, and the counts of bad parity and data columns. *)
Definition reconstruct_scan (rm : raidz_map) (t : list Z) (nt : Z) :
    res (list Z * list bool * Z * Z) :=
  let first := rm_firstdatacol rm in
  '(tgts, parity_valid, nbadparity, nbaddata, _) ←
    for_range 0 (rm_cols rm) (fun c '(tgts, parity_valid, nbadparity, nbaddata, i) =>
      parity_valid ← (if c <? first then push VDEV_RAIDZ_MAXPARITY parity_valid false else Ok parity_valid);
      hit ← (if i <? nt then ti ← rd t i; Ok (c =? ti) else Ok false);
      if (hit : bool) then
        tgts ← push VDEV_RAIDZ_MAXPARITY tgts c;
        Ok (tgts, parity_valid, nbadparity, nbaddata, i + 1)
      else
        rc ← rd (rm_col rm) c;
        if negb (rc_error rc =? 0) then
          tgts ← push VDEV_RAIDZ_MAXPARITY tgts c;
          Ok (tgts, parity_valid, nbadparity, nbaddata, i)
        else if first <=? c then Ok (tgts, parity_valid, nbadparity, nbaddata - 1, i)
        else
          parity_valid ← wr parity_valid c true;
          Ok (tgts, parity_valid, nbadparity - 1, nbaddata, i))
      ([], [], first, rm_cols rm - first, 0);
  Ok (tgts, parity_valid, nbadparity, nbaddata).

Definition vdev_raidz_reconstruct (rm : raidz_map) (t : list Z) (nt : Z) : res (raidz_map * Z) :=
  '(tgts, parity_valid, nbadparity, nbaddata) ← reconstruct_scan rm t nt;
  let dt := drop (Z.to_nat nbadparity) tgts in
  let general := vdev_raidz_reconstruct_general rm tgts (zlen tgts) in
  if vdev_raidz_default_to_general then general
  else if nbaddata =? 1 then
    pv ← rd parity_valid VDEV_RAIDZ_P;
    if (pv : bool) then vdev_raidz_reconstruct_p rm dt
    else
      qv ← rd parity_valid VDEV_RAIDZ_Q;
      if (qv : bool) then vdev_raidz_reconstruct_q rm dt else general
  else if nbaddata =? 2 then
    pv ← rd parity_valid VDEV_RAIDZ_P;
    qv ← (if (pv : bool) then rd parity_valid VDEV_RAIDZ_Q else Ok false);
    if (qv : bool) then vdev_raidz_reconstruct_pq zio_buf_alloc rm dt else general
  else general.
End general.
End RaidzGeneral.
