(* ===== verification/RaidzMatrix.v ===== *)
(** Matrices over the field as the RAID-Z code stores them, and the effect of
    each step of its Gauss-Jordan elimination on the matrix. *)

From S2P Require Import Prelude Galois RaidzMap RaidzParity RaidzReconstruct RaidzGeneral.
From Stdlib Require Import Ring Field.
Import Galois RaidzMap RaidzParity RaidzReconstruct RaidzGeneral.
Open Scope Z_scope.

Module RaidzMatrix.

(** ** Matrices of bytes *)

Abbreviation matrix := (nat -> nat -> gf).

(** The array of [t] rows of [n] bytes that holds [M]. *)
Definition mat (t n : nat) (M : matrix) : list (list Z) :=
  tab t (fun i => tab n (fun j => gval (M i j))).

Lemma mat_ext t n M N :
  (forall i j, (i < t)%nat -> (j < n)%nat -> M i j = N i j) -> mat t n M = mat t n N.
Proof. intros H. apply tab_ext. intros i Hi. apply tab_ext. intros j Hj. by rewrite H. Qed.

Lemma lookup_tab {A} n (f : nat -> A) j : (j < n)%nat -> tab n f !! j = Some (f j).
Proof.
  intros Hj. unfold tab. rewrite list_lookup_fmap, lookup_seq_lt by done. done.
Qed.

Lemma insert_tab {A} n (f : nat -> A) j v :
  <[j := v]> (tab n f) = tab n (fun k => if decide (k = j) then v else f k).
Proof.
  apply list_eq. intros k. destruct (decide (k < n)%nat) as [Hk|Hk].
  - rewrite (lookup_tab n (fun k => if decide (k = j) then v else f k)) by done.
    destruct (decide (k = j)) as [->|Hne].
    + by rewrite list_lookup_insert_eq by (by rewrite length_tab).
    + by rewrite list_lookup_insert_ne, lookup_tab by done.
  - rewrite !lookup_ge_None_2; [done|rewrite length_tab; lia|rewrite length_insert, length_tab; lia].
Qed.

Definition mset (M : matrix) (i j : nat) (v : gf) : matrix :=
  fun i' j' => if decide (i' = i /\ j' = j) then v else M i' j'.

Section access.
Context (t n : nat) (M : matrix).

Lemma rd_mat i : 0 <= i < Z.of_nat t -> rd (mat t n M) i = Ok (tab n (fun j => gval (M (Z.to_nat i) j))).
Proof. intros Hi. apply rd_Some; [lia|]. unfold mat. by rewrite lookup_tab by lia. Qed.

Lemma rd2_mat i j : 0 <= i < Z.of_nat t -> 0 <= j < Z.of_nat n ->
  rd2 (mat t n M) i j = Ok (gval (M (Z.to_nat i) (Z.to_nat j))).
Proof.
  intros Hi Hj. unfold rd2. rewrite rd_mat by done. bnd. apply rd_Some; [lia|].
  by rewrite lookup_tab by lia.
Qed.

Lemma wr2_mat i j v : 0 <= i < Z.of_nat t -> 0 <= j < Z.of_nat n ->
  wr2 (mat t n M) i j (gval v) = Ok (mat t n (mset M (Z.to_nat i) (Z.to_nat j) v)).
Proof.
  intros Hi Hj. unfold wr2. rewrite rd_mat by done. bnd.
  rewrite wr_in_bounds by len. bnd.
  unfold mat. rewrite wr_in_bounds by len. f_equal.
  rewrite insert_tab. rewrite insert_tab. apply tab_ext. intros i' Hi'. unfold mset. destruct (decide (i' = Z.to_nat i)) as [->|].
  - apply tab_ext. intros j' Hj'. destruct (decide (j' = Z.to_nat j)) as [->|].
    + by rewrite decide_True by done.
    + by rewrite decide_False by (intros [? ?]; done).
  - apply tab_ext. intros j' Hj'. by rewrite decide_False by (intros [? ?]; done).
Qed.
End access.

(** ** The steps of the elimination *)

Definition mscale (M : matrix) (i : nat) (s : gf) : matrix :=
  fun i' j => if decide (i' = i) then gf_mul s (M i j) else M i' j.
Definition msub (M : matrix) (i ii : nat) (s : gf) : matrix :=
  fun i' j => if decide (i' = ii) then gf_add (M ii j) (gf_mul s (M i j)) else M i' j.

(** Solve goals on matrix entries that differ in their case distinctions. *)
Ltac mcase := repeat case_decide; subst; try lia; try done; try (exfalso; intuition lia).

Lemma exp2_gval (x : gf) (k : Z) : 0 <= k <= 255 ->
  vdev_raidz_exp2 (gval x) k = Ok (gval (gf_mul (gpow (Z.to_nat k)) x)).
Proof. intros. rewrite exp2_mulp by (try apply gval_byte; lia). by rewrite gpow_mul. Qed.

(** Run the accesses to matrices and the table multiplications. *)
Ltac mrun := repeat (first [ rewrite rd2_mat by lia | rewrite wr2_mat by lia | rewrite exp2_gval by lia
                           | rewrite <- gval_add ]; bnd).

Section steps.
Context (t n : nat).

Lemma invert_scale_ok M N i k : 0 <= i < Z.of_nat t -> 0 <= k <= 255 ->
  invert_scale (Z.of_nat n) i k (mat t n M, mat t n N) =
    Ok (mat t n (mscale M (Z.to_nat i) (gpow (Z.to_nat k))), mat t n (mscale N (Z.to_nat i) (gpow (Z.to_nat k)))).
Proof.
  intros Hi Hk. unfold invert_scale.
  set (part := fun (X : matrix) (c : Z) (i' j : nat) =>
    if decide (i' = Z.to_nat i /\ Z.of_nat j < c) then gf_mul (gpow (Z.to_nat k)) (X (Z.to_nat i) j) else X i' j).
  apply (for_range_fun (fun c => (mat t n (part M c), mat t n (part N c)))); [lia| | |].
  - intros j Hj. mrun.
    do 2 f_equal; apply mat_ext; intros i' j' Hi' Hj'; unfold mset, part; mcase.
    all: replace j' with (Z.to_nat j) in * by lia; mcase.
  - f_equal; apply mat_ext; intros; unfold part; mcase.
  - f_equal; apply mat_ext; intros; unfold part, mscale; mcase.
Qed.

Lemma invert_sub_ok M N i ii k : 0 <= i < Z.of_nat t -> 0 <= ii < Z.of_nat t -> i <> ii -> 0 <= k <= 255 ->
  invert_sub (Z.of_nat n) i ii k (mat t n M, mat t n N) =
    Ok (mat t n (msub M (Z.to_nat i) (Z.to_nat ii) (gpow (Z.to_nat k))),
        mat t n (msub N (Z.to_nat i) (Z.to_nat ii) (gpow (Z.to_nat k)))).
Proof.
  intros Hi Hii Hne Hk. unfold invert_sub.
  set (part := fun (X : matrix) (c : Z) (i' j : nat) =>
    if decide (i' = Z.to_nat ii /\ Z.of_nat j < c)
    then gf_add (X (Z.to_nat ii) j) (gf_mul (gpow (Z.to_nat k)) (X (Z.to_nat i) j)) else X i' j).
  apply (for_range_fun (fun c => (mat t n (part M c), mat t n (part N c)))); [lia| | |].
  - intros j Hj. mrun.
    do 2 f_equal; apply mat_ext; intros i' j' Hi' Hj'; unfold mset, part; mcase.
    all: replace j' with (Z.to_nat j) in * by lia; mcase.
  - f_equal; apply mat_ext; intros; unfold part; mcase.
  - f_equal; apply mat_ext; intros; unfold part, msub; mcase.
Qed.

Definition mid : matrix := fun i j => if decide (i = j) then gf_1 else gf_0.

Lemma gval_mid i j : (if i =? j then 1 else 0) = gval (if decide (i = j) then gf_1 else gf_0).
Proof. case_decide; case_if as E; try lia; done. Qed.

Lemma invert_init_ok N :
  invert_init (Z.of_nat n) (Z.of_nat t) (mat t n N) = Ok (mat t n mid).
Proof.
  unfold invert_init.
  apply (for_range_fun (fun c => mat t n (fun i j => if decide (Z.of_nat i < c) then mid i j else N i j))); [lia| | |].
  - intros i Hi.
    apply (for_range_fun (fun c => mat t n (fun i' j => if decide (Z.of_nat i' < i \/ (Z.of_nat i' = i /\ Z.of_nat j < c))
      then mid i' j else N i' j))); [lia| | |].
    + intros j Hj. rewrite gval_mid. mrun. f_equal. apply mat_ext. intros i' j' Hi' Hj'. unfold mset, mid. mcase.
    + apply mat_ext. intros. mcase.
    + apply mat_ext. intros. mcase.
  - apply mat_ext. intros. mcase.
  - apply mat_ext. intros. mcase.
Qed.

(** Moving the columns [uj j] of the intact data, [t <= j < n]. *)
Section move.
Context (uj : nat -> nat) (first : Z) (used : list Z).
Context (Hused : forall j, (t <= j < n)%nat -> rd used (Z.of_nat j) = Ok (first + Z.of_nat (uj j))).
Context (Huj : forall j, (t <= j < n)%nat -> (uj j < n)%nat).
Context (Hinj : forall j k, (t <= j < n)%nat -> (t <= k < n)%nat -> uj j = uj k -> j = k).
Context (Htn : (t <= n)%nat).

Definition moved (c : nat) (jj : nat) : Prop := exists j, (t <= j < c)%nat /\ uj j = jj.
#[global] Instance moved_dec c jj : Decision (moved c jj).
Proof using.
  clear Hused Huj Hinj Htn. refine (cast_if (decide (Exists (fun j => uj j = jj) (seq t (c - t)))));
    rewrite Exists_exists in *.
  - destruct e as (j & Hj%in_seq & E). exists j. split; [lia|done].
  - intros (j & Hj & E). apply n0. exists j. split; [apply in_seq; lia|done].
Defined.

Lemma moved_S c jj : (t <= c)%nat -> moved (S c) jj <-> moved c jj \/ jj = uj c.
Proof using.
  clear Hused Huj Hinj Htn. intros Hc. split.
  - intros (j & Hj & E). destruct (decide (j = c)) as [->|]; [by right|left; exists j; split; [lia|done]].
  - intros [(j & Hj & E)| ->]; [exists j|exists c]; (split; [lia|done]).
Qed.

Lemma not_moved c : (t <= c < n)%nat -> ~ moved c (uj c).
Proof using Hinj. clear Htn. intros Hc (j & Hj & E). apply Hinj in E; lia. Qed.

Definition move_rows (M : matrix) (i c : nat) : matrix := fun i' jj =>
  if decide ((i' < i)%nat /\ moved n jj \/ i' = i /\ moved c jj) then gf_0 else M i' jj.
Definition move_inv (M N : matrix) (i c : nat) : matrix := fun i' j =>
  if decide ((t <= j)%nat /\ ((i' < i)%nat \/ i' = i /\ (j < c)%nat)) then M i' (uj j) else N i' j.

Lemma move_row M N i : (i < t)%nat ->
  for_range (Z.of_nat t) (Z.of_nat n) (fun j '(rows, invrows) =>
      u ← rd used j;
      let jj := u - first in
      v ← rd2 rows (Z.of_nat i) jj;
      invrows ← wr2 invrows (Z.of_nat i) j v;
      rows ← wr2 rows (Z.of_nat i) jj 0;
      Ok (rows, invrows)) (mat t n (move_rows M i t), mat t n (move_inv M N i t))
  = Ok (mat t n (move_rows M i n), mat t n (move_inv M N i n)).
Proof using Hused Huj Hinj Htn.
  intros Hi.
  apply (for_range_fun (fun c => (mat t n (move_rows M i (Z.to_nat c)), mat t n (move_inv M N i (Z.to_nat c)))));
    [lia| |by rewrite Nat2Z.id|by rewrite Nat2Z.id].
  intros j Hj. assert (exists c, j = Z.of_nat c) as [c ->] by (exists (Z.to_nat j); lia).
  assert (Hc : (t <= c < n)%nat) by lia. rewrite Nat2Z.id, Hused by done. bnd. pose proof (Huj c Hc).
  replace (first + Z.of_nat (uj c) - first) with (Z.of_nat (uj c)) by lia.
  mrun. change 0 with (gval gf_0) at 1. mrun. rewrite !Nat2Z.id.
  replace (Z.to_nat (Z.of_nat c + 1)) with (S c) by lia. pose proof (not_moved c Hc) as Hnm.
  do 2 f_equal; apply mat_ext; intros i' j' Hi' Hj'; unfold mset, move_rows, move_inv.
  - pose proof (moved_S c j' (proj1 Hc)) as HS.
    repeat case_decide; try done; exfalso; intuition (subst; auto; lia).
  - repeat case_decide; try done; try (exfalso; intuition lia).
    destruct_and?; subst. done.
Qed.

Lemma invert_move_ok M N :
  invert_move first (Z.of_nat n) (Z.of_nat t) used (mat t n M, mat t n N) =
    Ok (mat t n (fun i jj => if decide (moved n jj) then gf_0 else M i jj),
        mat t n (fun i j => if decide (t <= j)%nat then M i (uj j) else N i j)).
Proof using Hused Huj Hinj Htn.
  unfold invert_move.
  apply (for_range_fun (fun c => (mat t n (move_rows M (Z.to_nat c) t), mat t n (move_inv M N (Z.to_nat c) t)))); [lia| | |].
  - intros i Hi. assert (exists c, i = Z.of_nat c) as [c ->] by (exists (Z.to_nat i); lia).
    rewrite Nat2Z.id, move_row by lia. replace (Z.to_nat (Z.of_nat c + 1)) with (S c) by lia.
    do 2 f_equal; apply mat_ext; intros i' j' Hi' Hj'; unfold move_rows, move_inv.
    + assert (~ moved t j') by (intros (k & Hk & _); lia).
      apply decide_ext. split.
      * intros [[? ?]|[? ?]]; left; (split; [lia|done]).
      * intros [[? ?]|[? ?]]; [|done]. destruct (decide (i' < c)%nat); [left|right]; (split; [lia|done]).
    + repeat case_decide; try done; exfalso; intuition lia.
  - f_equal; apply mat_ext; intros i' j' Hi' Hj'; unfold move_rows, move_inv; cbn [Z.to_nat].
    + assert (~ moved t j') by (intros (k & Hk & _); lia). repeat case_decide; try done; exfalso; intuition lia.
    + repeat case_decide; try done; exfalso; intuition lia.
  - rewrite Nat2Z.id. f_equal; apply mat_ext; intros i' j' Hi' Hj'; unfold move_rows, move_inv;
      repeat case_decide; try done; exfalso; intuition lia.
Qed.
End move.

(** The dispersal matrix: row [k] of column [j] is [2^(k*(n-1-j))]. *)
Definition disp (pm : nat -> nat) : matrix := fun i j => gpow (pm i * (n - 1 - j)).

(** The exponent the code carries along, before column [j]. *)
Definition powat (m j : Z) : Z :=
  let e := m * (Z.of_nat n - j) in if (255 <? m * Z.of_nat n) && (255 <=? e) then e - 255 else e.

Lemma powat_step m j : 0 <= m <= 2 -> 0 <= j < Z.of_nat n -> Z.of_nat n <= 255 ->
  (if powat m j - m <? 0 then powat m j - m + 255 else powat m j - m) = powat m (j + 1).
Proof. intros Hm Hj Hn. unfold powat. case_ifs; nia. Qed.

Lemma gpow_powat m j : 0 <= m <= 2 -> 0 <= j < Z.of_nat n -> Z.of_nat n <= 255 ->
  0 <= powat m (j + 1) <= 255 /\
  gpow (Z.to_nat (powat m (j + 1))) = gpow (Z.to_nat m * (n - 1 - Z.to_nat j)).
Proof.
  intros Hm Hj Hn.
  assert (Em : (Z.to_nat m * (n - 1 - Z.to_nat j))%nat = Z.to_nat (m * (Z.of_nat n - (j + 1))))
    by (rewrite Z2Nat.inj_mul by lia; f_equal; lia).
  unfold powat. case_ifs.
  - split; [nia|]. rewrite Em.
    replace (Z.to_nat (m * _)) with (255 + Z.to_nat (m * (Z.of_nat n - (j + 1)) - 255))%nat by lia.
    rewrite gpow_add, gpow_255. ring.
  - rewrite Em. split; [nia|done].
Qed.

Lemma matrix_init_ok (pm : nat -> nat) (map : list Z) M :
  Z.of_nat n <= 255 ->
  (forall i, (i < t)%nat -> (pm i <= 2)%nat /\ rd map (Z.of_nat i) = Ok (Z.of_nat (pm i))) ->
  vdev_raidz_matrix_init (Z.of_nat n) (Z.of_nat t) map (mat t n M) = Ok (mat t n (disp pm)).
Proof.
  intros Hn Hmap. unfold vdev_raidz_matrix_init.
  apply (for_range_fun (fun c => mat t n (fun i j => if decide (Z.of_nat i < c) then disp pm i j else M i j))); [lia| | |].
  2: { apply mat_ext. intros. mcase. } 2: { apply mat_ext. intros. mcase. }
  intros i Hi. assert (exists c, i = Z.of_nat c) as [c ->] by (exists (Z.to_nat i); lia).
  destruct (Hmap c) as [Hp ->]; [lia|]. bnd.
  erewrite (for_range_fun (fun k => (mat t n (fun i' j =>
      if decide (Z.of_nat i' < Z.of_nat c \/ (i' = c /\ Z.of_nat j < k)) then disp pm i' j else M i' j),
      powat (Z.of_nat (pm c)) k))); [|lia| | |done].
  - bnd. f_equal. apply mat_ext. intros. mcase.
  - intros j Hj. rewrite powat_step by lia.
    destruct (gpow_powat (Z.of_nat (pm c)) j) as [Hr E]; [lia..|].
    rewrite rd_pow2 by lia. bnd. rewrite <- (gval_of (pow2 _)) by (apply pow2_byte; lia).
    rewrite gpow_pow2, E by lia. mrun. rewrite !Nat2Z.id. do 2 f_equal. apply mat_ext.
    intros i' j' Hi' Hj'. unfold mset. mcase. destruct_and?; subst. done.
  - f_equal; [apply mat_ext; intros; mcase|]. unfold powat. case_ifs; nia.
Qed.

(** ** The elimination *)

Lemma gpow_log (x : gf) : x <> gf_0 -> gpow (Z.to_nat (log2 (gval x))) = x.
Proof.
  intros Hx. apply gf_eq. rewrite gval_gpow. symmetry. apply log_form; [apply gval_byte|by apply gval_nz].
Qed.

Lemma log_gval (x : gf) : x <> gf_0 -> 0 <= log2 (gval x) < 255.
Proof. intros Hx. apply log2_pow2; [apply gval_byte|by apply gval_nz]. Qed.

Lemma gpow_inv (x : gf) : x <> gf_0 -> gpow (Z.to_nat (u8 (255 - log2 (gval x)))) = gf_inv x.
Proof.
  intros Hx. pose proof (log_gval x Hx). apply gf_eq. rewrite gval_gpow, gval_inv.
  by rewrite Z.mod_small by lia.
Qed.

Lemma u8_range x : 0 <= u8 x <= 255.
Proof. pose proof (Z.mod_pos_bound x (2 ^ 8)). lia. Qed.

(** Row [ii] reduced by row [i], whose pivot is in column [mi i]; the pivot
    row scaled; all rows in turn. *)
Definition elim_row (mi : nat -> nat) (i : nat) (MN : matrix * matrix) (ii : nat) : matrix * matrix :=
  if decide (i = ii) then MN else
  let v := MN.1 ii (mi i) in (msub MN.1 i ii v, msub MN.2 i ii v).
Definition elim_scale (mi : nat -> nat) (MN : matrix * matrix) (i : nat) : matrix * matrix :=
  let s := gf_inv (MN.1 i (mi i)) in (mscale MN.1 i s, mscale MN.2 i s).
Definition elim_rows (mi : nat -> nat) (MN : matrix * matrix) (i k : nat) : matrix * matrix :=
  fold_left (elim_row mi i) (seq 0 k) (elim_scale mi MN i).
Definition elim (mi : nat -> nat) (MN : matrix * matrix) (k : nat) : matrix * matrix :=
  fold_left (fun MN i => elim_rows mi MN i t) (seq 0 k) MN.

(** No entry whose logarithm is taken is zero. *)
Definition elim_ok (mi : nat -> nat) (MN : matrix * matrix) : Prop :=
  forall i, (i < t)%nat -> (elim mi MN i).1 i (mi i) <> gf_0 /\
    forall ii, (ii < t)%nat -> ii <> i -> (elim_rows mi (elim mi MN i) i ii).1 ii (mi i) <> gf_0.

Definition matP (MN : matrix * matrix) : list (list Z) * list (list Z) := (mat t n MN.1, mat t n MN.2).

Lemma elim_row_ok mi i ii MN : (i < t)%nat -> (ii < t)%nat -> (mi i < n)%nat ->
  (ii <> i -> MN.1 ii (mi i) <> gf_0) ->
  (let '(rows, invrows) := matP MN in
   if Z.of_nat i =? Z.of_nat ii then Ok (rows, invrows) else
   v ← rd2 rows (Z.of_nat ii) (Z.of_nat (mi i));
   log ← rd vdev_raidz_log2 v;
   invert_sub (Z.of_nat n) (Z.of_nat i) (Z.of_nat ii) log (rows, invrows)) = Ok (matP (elim_row mi i MN ii)).
Proof.
  intros Hi Hii Hm Hnz. unfold elim_row, matP. case_if as E; case_decide; try lia; [done|].
  pose proof (log_gval _ (Hnz ltac:(lia))) as Hl.
  mrun. rewrite rd_log2 by apply gval_byte. bnd. rewrite !Nat2Z.id.
  rewrite invert_sub_ok by lia. rewrite !Nat2Z.id, gpow_log by (apply Hnz; lia). done.
Qed.

Lemma elim_step_ok mi i MN : (i < t)%nat -> (mi i < n)%nat -> MN.1 i (mi i) <> gf_0 ->
  (forall ii, (ii < t)%nat -> ii <> i -> (elim_rows mi MN i ii).1 ii (mi i) <> gf_0) ->
  (let '(rows, invrows) := matP MN in
   piv ← rd2 rows (Z.of_nat i) (Z.of_nat (mi i));
   l ← rd vdev_raidz_log2 piv;
   m ← invert_scale (Z.of_nat n) (Z.of_nat i) (u8 (255 - l)) (rows, invrows);
   for_range 0 (Z.of_nat t) (fun ii '(rows, invrows) =>
      if Z.of_nat i =? ii then Ok (rows, invrows) else
      v ← rd2 rows ii (Z.of_nat (mi i));
      log ← rd vdev_raidz_log2 v;
      invert_sub (Z.of_nat n) (Z.of_nat i) ii log (rows, invrows)) m) = Ok (matP (elim_rows mi MN i t)).
Proof.
  intros Hi Hm Hp Hs. unfold matP at 1. pose proof (log_gval _ Hp).
  mrun. rewrite rd_log2 by apply gval_byte. bnd. rewrite !Nat2Z.id.
  rewrite invert_scale_ok by (apply u8_range || lia). bnd. rewrite !Nat2Z.id, gpow_inv by done.
  apply (for_range_fun (fun c => matP (elim_rows mi MN i (Z.to_nat c)))); [lia| |done|by rewrite Nat2Z.id].
  intros c Hc. assert (exists k, c = Z.of_nat k) as [k ->] by (exists (Z.to_nat c); lia).
  rewrite elim_row_ok; [|lia|lia|done|rewrite Nat2Z.id; intros; apply Hs; [lia|done]]. do 2 f_equal.
  rewrite Nat2Z.id. replace (Z.to_nat (Z.of_nat k + 1)) with (S k) by lia.
  unfold elim_rows. by rewrite seq_S, fold_left_app.
Qed.

Lemma elim_S mi MN k : elim mi MN (S k) = elim_rows mi (elim mi MN k) k t.
Proof. unfold elim. by rewrite seq_S, fold_left_app. Qed.

(** The whole inversion, for rows [M] and columns [mi i] missing. *)
Section invert.
Context (mi uj : nat -> nat) (first : Z) (missing used : list Z) (M N : matrix).
Context (Hmiss : forall i, (i < t)%nat -> (mi i < n)%nat /\ rd missing (Z.of_nat i) = Ok (Z.of_nat (mi i))).
Context (Hused : forall j, (t <= j < n)%nat -> rd used (Z.of_nat j) = Ok (first + Z.of_nat (uj j))).
Context (Huj : forall j, (t <= j < n)%nat -> (uj j < n)%nat).
Context (Hinj : forall j k, (t <= j < n)%nat -> (t <= k < n)%nat -> uj j = uj k -> j = k).
Context (Htn : (t <= n)%nat).

(** The rows after the columns of the intact data were moved over. *)
Definition start : matrix * matrix :=
  ((fun i jj => if decide (moved uj n jj) then gf_0 else M i jj),
   (fun i j => if decide (t <= j)%nat then M i (uj j) else mid i j)).

Lemma matrix_invert_ok : elim_ok mi start ->
  vdev_raidz_matrix_invert first (Z.of_nat n) (Z.of_nat t) missing (mat t n M) (mat t n N) used
  = Ok (matP (elim mi start t)).
Proof using All.
  intros Hok. unfold vdev_raidz_matrix_invert. rewrite invert_init_ok. bnd.
  rewrite (invert_move_ok uj) by done. bnd. fold (matP start).
  apply (for_range_fun (fun c => matP (elim mi start (Z.to_nat c)))); [lia| |done|by rewrite Nat2Z.id].
  intros c Hc. assert (exists k, c = Z.of_nat k) as [k ->] by (exists (Z.to_nat c); lia).
  rewrite Nat2Z.id. destruct (Hmiss k) as [Hm E]; [lia|]. destruct (Hok k) as [Hp Hs]; [lia|].
  pose proof (elim_step_ok mi k (elim mi start k) ltac:(lia) Hm Hp Hs) as Hstep.
  unfold matP at 1 in Hstep. unfold matP at 1. rewrite E. bnd. rewrite Hstep.
  replace (Z.to_nat (Z.of_nat k + 1)) with (S k) by lia. by rewrite elim_S.
Qed.
End invert.
End steps.

(** ** What the elimination preserves *)

Fixpoint fsum (n : nat) (f : nat -> gf) : gf :=
  match n with O => gf_0 | S n => gf_add (fsum n f) (f n) end.

Lemma fsum_ext n f g : (forall i, (i < n)%nat -> f i = g i) -> fsum n f = fsum n g.
Proof. induction n as [|n IH]; intros H; [done|]. cbn [fsum]. rewrite IH, H by auto. done. Qed.

Lemma fsum_scale n s f : fsum n (fun j => gf_mul s (f j)) = gf_mul s (fsum n f).
Proof. induction n as [|n IH]; cbn [fsum]; [ring|]. rewrite IH. ring. Qed.

Lemma fsum_add n f g : fsum n (fun j => gf_add (f j) (g j)) = gf_add (fsum n f) (fsum n g).
Proof. induction n as [|n IH]; cbn [fsum]; [ring|]. rewrite IH. ring. Qed.

Lemma fsum_0 n : fsum n (fun _ => gf_0) = gf_0.
Proof. induction n as [|n IH]; cbn [fsum]; [done|]. rewrite IH. ring. Qed.

Lemma fsum_single n a v : (a < n)%nat -> fsum n (fun j => if decide (j = a) then v else gf_0) = v.
Proof.
  intros Ha. induction n as [|n IH]; [lia|]. cbn [fsum]. destruct (decide (n = a)) as [->|].
  - rewrite (fsum_ext a _ (fun _ => gf_0)); [rewrite fsum_0; ring|]. intros i Hi. case_decide; [lia|done].
  - rewrite IH by lia. ring.
Qed.

(** Every row of [M] evaluated at [D] equals the row of [N] at [U]. *)
Definition rows_eq (t n : nat) (D U : nat -> gf) (MN : matrix * matrix) : Prop :=
  forall i, (i < t)%nat -> fsum n (fun j => gf_mul (MN.1 i j) (D j)) = fsum n (fun j => gf_mul (MN.2 i j) (U j)).

Lemma rows_eq_scale t n D U mi i MN : (i < t)%nat -> rows_eq t n D U MN -> rows_eq t n D U (elim_scale mi MN i).
Proof.
  intros Hi H i' Hi'. unfold elim_scale, mscale. cbn. destruct (decide (i' = i)); [|by apply H].
  set (s := gf_inv (MN.1 i (mi i))).
  transitivity (gf_mul s (fsum n (fun j => gf_mul (MN.1 i j) (D j)))).
  - rewrite <- fsum_scale. apply fsum_ext. intros. ring.
  - rewrite H, <- fsum_scale by done. apply fsum_ext. intros. ring.
Qed.

Lemma rows_eq_row t n D U mi i ii MN : (i < t)%nat -> (ii < t)%nat ->
  rows_eq t n D U MN -> rows_eq t n D U (elim_row mi i MN ii).
Proof.
  intros Hi Hii H. unfold elim_row. destruct (decide (i = ii)); [done|]. intros i' Hi'. unfold msub. cbn.
  destruct (decide (i' = ii)); [|by apply H]. set (v := MN.1 ii (mi i)).
  transitivity (gf_add (fsum n (fun j => gf_mul (MN.1 ii j) (D j)))
                       (gf_mul v (fsum n (fun j => gf_mul (MN.1 i j) (D j))))).
  - rewrite <- fsum_scale, <- fsum_add. apply fsum_ext. intros. ring.
  - rewrite !H, <- fsum_scale, <- fsum_add by done. apply fsum_ext. intros. ring.
Qed.

(** A column of zeros stays one. *)
Definition col_zero (c : nat) (MN : matrix * matrix) : Prop := forall i, MN.1 i c = gf_0.

Lemma col_zero_scale c mi i MN : col_zero c MN -> col_zero c (elim_scale mi MN i).
Proof. intros H i'. unfold elim_scale, mscale. cbn. case_decide; rewrite H; ring. Qed.

Lemma col_zero_row c mi i ii MN : col_zero c MN -> col_zero c (elim_row mi i MN ii).
Proof.
  intros H i'. unfold elim_row, msub. case_decide; [apply H|]. cbn. case_decide; rewrite !H; ring.
Qed.

(** An invariant of both kinds of steps is one of the elimination. *)
Lemma elim_inv t mi (P : matrix * matrix -> Prop) :
  (forall i MN, (i < t)%nat -> P MN -> P (elim_scale mi MN i)) ->
  (forall i ii MN, (i < t)%nat -> (ii < t)%nat -> P MN -> P (elim_row mi i MN ii)) ->
  forall k MN, (k <= t)%nat -> P MN -> P (elim t mi MN k).
Proof.
  intros Hs Hr k MN Hk H. induction k as [|k IH]; [done|]. rewrite elim_S.
  assert (Hj : forall j, (j <= t)%nat -> P (elim_rows mi (elim t mi MN k) k j)).
  { induction j as [|j IHj]; intros Hj; [apply Hs; [lia|apply IH; lia]|].
    unfold elim_rows. rewrite seq_S, fold_left_app. apply Hr; [lia|lia|]. apply IHj. lia. }
  by apply Hj.
Qed.

(** ** Blocks of one, two and three missing columns

    The pivot columns evolve on their own: [blk t mi MN l] says that they hold
    the [t x t] block [l]. *)
Definition ent (l : list (list gf)) (i k : nat) : gf := nth k (nth i l []) gf_0.
Definition blk (t : nat) (mi : nat -> nat) (MN : matrix * matrix) (l : list (list gf)) : Prop :=
  forall i k, (i < t)%nat -> (k < t)%nat -> MN.1 i (mi k) = ent l i k.

Lemma blk_scale t mi MN l l' c : (c < t)%nat -> blk t mi MN l ->
  (forall i k, (i < t)%nat -> (k < t)%nat ->
    (if decide (i = c) then gf_mul (gf_inv (ent l c c)) (ent l c k) else ent l i k) = ent l' i k) ->
  blk t mi (elim_scale mi MN c) l'.
Proof.
  intros Hc H H' i k Hi Hk. rewrite <- H' by done. unfold elim_scale, mscale. cbn.
  rewrite !(H c) by done. case_decide; [done|by apply H].
Qed.

Lemma blk_row t mi MN l l' c r : (c < t)%nat -> (r < t)%nat -> blk t mi MN l ->
  (forall i k, (i < t)%nat -> (k < t)%nat ->
    (if decide (c = r) then ent l i k else
     if decide (i = r) then gf_add (ent l r k) (gf_mul (ent l r c) (ent l c k)) else ent l i k) = ent l' i k) ->
  blk t mi (elim_row mi c MN r) l'.
Proof.
  intros Hc Hr H H' i k Hi Hk. rewrite <- H' by done. unfold elim_row, msub.
  case_decide; [by apply H|]. cbn. case_decide; [|by apply H]. by rewrite !(H r), !(H c) by done.
Qed.

Lemma elim_rows_S mi MN i k : elim_rows mi MN i (S k) = elim_row mi i (elim_rows mi MN i k) k.
Proof. unfold elim_rows. by rewrite seq_S, fold_left_app. Qed.

Definition id_blk (t : nat) (mi : nat -> nat) (MN : matrix * matrix) : Prop :=
  forall i k, (i < t)%nat -> (k < t)%nat -> MN.1 i (mi k) = if decide (i = k) then gf_1 else gf_0.

(** Enumerate the entries of a small block. *)
Ltac entries := let i := fresh "i" in let k := fresh "k" in let Hi := fresh in let Hk := fresh in
  intros i k Hi Hk;
  destruct i as [|[|[|i]]]; try lia; destruct k as [|[|[|k]]]; try lia; cbn;
  repeat case_decide; try lia; try ring; try (field; repeat split; done).

Lemma elim_1 mi MN p : p <> gf_0 -> blk 1 mi MN [[p]] ->
  elim_ok 1 mi MN /\ id_blk 1 mi (elim 1 mi MN 1).
Proof.
  intros Hp H0.
  assert (H1 : blk 1 mi (elim_scale mi MN 0) [[gf_1]]) by (eapply blk_scale; [lia|exact H0|entries]).
  assert (H2 : blk 1 mi (elim_row mi 0 (elim_scale mi MN 0) 0) [[gf_1]])
    by (eapply blk_row; [lia|lia|exact H1|entries]).
  split.
  - intros i Hi. replace i with 0%nat by lia. split; [by rewrite H0 by lia|]. lia.
  - intros i k Hi Hk. rewrite elim_S, elim_rows_S. replace i with 0%nat by lia. replace k with 0%nat by lia.
    rewrite H2 by lia. by case_decide.
Qed.

Lemma elim_2 mi MN p q r u : p <> gf_0 -> q <> gf_0 -> r <> gf_0 ->
  gf_add (gf_mul p u) (gf_mul q r) <> gf_0 -> blk 2 mi MN [[p; q]; [r; u]] ->
  elim_ok 2 mi MN /\ id_blk 2 mi (elim 2 mi MN 2).
Proof.
  intros Hp Hq Hr Hd H0. set (d := gf_add (gf_mul p u) (gf_mul q r)) in *.
  assert (Hqp : gf_div q p <> gf_0) by (apply gf_mul_nz; [done|by apply gf_inv_nz]).
  assert (Hdp : gf_div d p <> gf_0) by (apply gf_mul_nz; [done|by apply gf_inv_nz]).
  assert (H1 : blk 2 mi (elim_rows mi MN 0 0) [[gf_1; gf_div q p]; [r; u]])
    by (eapply blk_scale; [lia|exact H0|entries]).
  assert (H2 : blk 2 mi (elim_rows mi MN 0 1) [[gf_1; gf_div q p]; [r; u]])
    by (rewrite elim_rows_S; eapply blk_row; [lia|lia|exact H1|entries]).
  assert (H3 : blk 2 mi (elim 2 mi MN 1) [[gf_1; gf_div q p]; [gf_0; gf_div d p]])
    by (rewrite elim_S, elim_rows_S; eapply blk_row; [lia|lia|exact H2|unfold d; entries]).
  assert (H4 : blk 2 mi (elim_rows mi (elim 2 mi MN 1) 1 0) [[gf_1; gf_div q p]; [gf_0; gf_1]])
    by (eapply blk_scale; [lia|exact H3|entries]).
  assert (H5 : blk 2 mi (elim_rows mi (elim 2 mi MN 1) 1 1) [[gf_1; gf_0]; [gf_0; gf_1]])
    by (rewrite elim_rows_S; eapply blk_row; [lia|lia|exact H4|entries]).
  assert (H6 : blk 2 mi (elim 2 mi MN 2) [[gf_1; gf_0]; [gf_0; gf_1]])
    by (rewrite elim_S, elim_rows_S; eapply blk_row; [lia|lia|exact H5|entries]).
  split.
  - intros [|[|i]] Hi; [| |lia].
    + split; [by rewrite H0 by lia|]. intros [|[|ii]] Hii Hne; try lia. by rewrite H2 by lia.
    + split; [by rewrite H3 by lia|]. intros [|[|ii]] Hii Hne; try lia. by rewrite H4 by lia.
  - intros i k Hi Hk. rewrite H6 by done. revert i k Hi Hk. entries.
Qed.

Lemma elim_3 mi MN a b c : a <> gf_0 -> b <> gf_0 -> c <> gf_0 ->
  gf_add a b <> gf_0 -> gf_add a c <> gf_0 -> gf_add b c <> gf_0 ->
  blk 3 mi MN [[gf_1; gf_1; gf_1]; [a; b; c]; [gf_mul a a; gf_mul b b; gf_mul c c]] ->
  elim_ok 3 mi MN /\ id_blk 3 mi (elim 3 mi MN 3).
Proof.
  intros Ha Hb Hc Hab Hac Hbc B0. pose proof gf_1_nz.
  set (ab := gf_add a b) in *. set (ac := gf_add a c) in *. set (bc := gf_add b c) in *.
  assert (E : bc = gf_add ab ac) by (unfold ab, ac, bc; ring).
  assert (gf_mul a a <> gf_0) by (by apply gf_mul_nz).
  assert (gf_mul ab ab <> gf_0) by (by apply gf_mul_nz).
  assert (gf_mul ac bc <> gf_0) by (by apply gf_mul_nz).
  assert (gf_div ac ab <> gf_0) by (apply gf_mul_nz; [done|by apply gf_inv_nz]).
  assert (gf_div bc ab <> gf_0) by (apply gf_mul_nz; [done|by apply gf_inv_nz]).
  set (r0 := [gf_1; gf_1; gf_1]). set (r2 := [gf_mul a a; gf_mul b b; gf_mul c c]).
  assert (B1 : blk 3 mi (elim_rows mi MN 0 1) [r0; [a; b; c]; r2])
    by (rewrite elim_rows_S; eapply blk_row; [lia|lia|eapply blk_scale; [lia|exact B0|instantiate (1 := [r0; [a; b; c]; r2]); entries]|entries]).
  assert (B2 : blk 3 mi (elim_rows mi MN 0 2) [r0; [gf_0; ab; ac]; r2])
    by (rewrite elim_rows_S; eapply blk_row; [lia|lia|exact B1|unfold ab, ac; entries]).
  assert (B3 : blk 3 mi (elim 3 mi MN 1) [r0; [gf_0; ab; ac]; [gf_0; gf_mul ab ab; gf_mul ac ac]])
    by (rewrite elim_S, elim_rows_S; eapply blk_row; [lia|lia|exact B2|unfold ab, ac; entries]).
  set (s1 := [gf_0; gf_1; gf_div ac ab]). set (s2 := [gf_0; gf_mul ab ab; gf_mul ac ac]) in *.
  assert (B4 : blk 3 mi (elim_rows mi (elim 3 mi MN 1) 1 0) [r0; s1; s2])
    by (eapply blk_scale; [lia|exact B3|entries]).
  assert (B5 : blk 3 mi (elim_rows mi (elim 3 mi MN 1) 1 2) [[gf_1; gf_0; gf_div bc ab]; s1; s2]).
  { rewrite elim_rows_S; eapply blk_row; [lia|lia| |].
    - rewrite elim_rows_S; eapply blk_row; [lia|lia|exact B4|].
      instantiate (1 := [[gf_1; gf_0; gf_div bc ab]; s1; s2]). rewrite E. entries.
    - entries. }
  assert (B6 : blk 3 mi (elim 3 mi MN 2) [[gf_1; gf_0; gf_div bc ab]; s1; [gf_0; gf_0; gf_mul ac bc]])
    by (rewrite elim_S, elim_rows_S; eapply blk_row; [lia|lia|exact B5|rewrite E; entries]).
  assert (B7 : blk 3 mi (elim_rows mi (elim 3 mi MN 2) 2 0) [[gf_1; gf_0; gf_div bc ab]; s1; [gf_0; gf_0; gf_1]])
    by (eapply blk_scale; [lia|exact B6|entries]).
  assert (B8 : blk 3 mi (elim_rows mi (elim 3 mi MN 2) 2 1) [[gf_1; gf_0; gf_0]; s1; [gf_0; gf_0; gf_1]])
    by (rewrite elim_rows_S; eapply blk_row; [lia|lia|exact B7|entries]).
  assert (B9 : blk 3 mi (elim 3 mi MN 3) [[gf_1; gf_0; gf_0]; [gf_0; gf_1; gf_0]; [gf_0; gf_0; gf_1]]).
  { rewrite elim_S, elim_rows_S; eapply blk_row; [lia|lia| |].
    - rewrite elim_rows_S; eapply blk_row; [lia|lia|exact B8|].
      instantiate (1 := [[gf_1; gf_0; gf_0]; [gf_0; gf_1; gf_0]; [gf_0; gf_0; gf_1]]). entries.
    - entries. }
  split.
  - intros [|[|[|i]]] Hi; [| | |lia].
    + split; [by rewrite B0 by lia|]. intros [|[|[|ii]]] Hii Hne; try lia; [by rewrite B1 by lia|by rewrite B2 by lia].
    + split; [by rewrite B3 by lia|]. intros [|[|[|ii]]] Hii Hne; try lia; [by rewrite B4 by lia|by rewrite B5 by lia].
    + split; [by rewrite B6 by lia|]. intros [|[|[|ii]]] Hii Hne; try lia; [by rewrite B7 by lia|by rewrite B8 by lia].
  - intros i k Hi Hk. rewrite B9 by done. revert i k Hi Hk. entries.
Qed.

(** ** Polynomials with few terms *)

Definition pw (p : nat) (z : gf) : gf := match p with O => gf_1 | 1%nat => z | _ => gf_mul z z end.

Lemma gpow_pw p k : (p <= 2)%nat -> gpow (p * k) = pw p (gpow k).
Proof.
  intros Hp. destruct p as [|[|[|p]]]; [| | |lia]; cbn [pw].
  - apply gpow_0.
  - by rewrite Nat.mul_1_l.
  - replace (2 * k)%nat with (k + k)%nat by lia. apply gpow_add.
Qed.

Lemma pw_nz p z : z <> gf_0 -> pw p z <> gf_0.
Proof. intros Hz. destruct p as [|[|p]]; cbn; [apply gf_1_nz|done|by apply gf_mul_nz]. Qed.

(** The parity columns the code picks: at most three, in ascending order. *)
Definition pm_ok (t : nat) (pm : nat -> nat) : Prop :=
  (t <= 3)%nat /\ (forall i, (i < t)%nat -> (pm i <= 2)%nat) /\
  (forall i j, (i < j)%nat -> (j < t)%nat -> (pm i < pm j)%nat).

(** Two distinct elements have non-zero [2 x 2] minors. *)
Lemma pw_minor p q x y : (p < q)%nat -> (q <= 2)%nat -> x <> gf_0 -> y <> gf_0 -> gf_add x y <> gf_0 ->
  gf_add (gf_mul (pw p x) (pw q y)) (gf_mul (pw p y) (pw q x)) <> gf_0.
Proof.
  intros Hp Hq Hx Hy Hxy.
  assert (p = 0 /\ q = 1 \/ p = 0 /\ q = 2 \/ p = 1 /\ q = 2)%nat as [[-> ->]|[[-> ->]|[-> ->]]] by lia; cbn [pw].
  - replace (gf_add _ _) with (gf_add x y) by ring. done.
  - replace (gf_add _ _) with (gf_mul (gf_add x y) (gf_add x y)) by ring. by apply gf_mul_nz.
  - replace (gf_add _ _) with (gf_mul (gf_mul x y) (gf_add x y)) by ring. apply gf_mul_nz; [by apply gf_mul_nz|done].
Qed.

(** The value at [z] of the polynomial with coefficients [cf] at the chosen
    exponents. *)
Definition peval (t : nat) (pm : nat -> nat) (cf : nat -> gf) (z : gf) : gf :=
  fsum t (fun j => gf_mul (cf j) (pw (pm j) z)).

Lemma mul_zero_l x y : x <> gf_0 -> gf_mul y x = gf_0 -> y = gf_0.
Proof.
  intros Hx E. transitivity (gf_mul (gf_mul y x) (gf_inv x)); [field; done|]. rewrite E. ring.
Qed.

Lemma poly2_nz p q c0 c1 v w : (p < q)%nat -> (q <= 2)%nat -> w <> gf_0 ->
  gf_add (gf_mul c0 (pw p w)) (gf_mul c1 (pw q w)) = gf_0 ->
  gf_add (gf_mul c0 (pw p v)) (gf_mul c1 (pw q v)) = gf_1 ->
  c0 <> gf_0 /\ c1 <> gf_0 /\
  forall z, z <> gf_0 -> gf_add z w <> gf_0 -> gf_add (gf_mul c0 (pw p z)) (gf_mul c1 (pw q z)) <> gf_0.
Proof.
  intros Hp Hq Hw E0 E1.
  assert (N : c0 = gf_0 -> c1 = gf_0 -> False).
  { intros -> ->. apply gf_1_nz. rewrite <- E1. ring. }
  assert (N0 : c0 <> gf_0).
  { intros ->. apply N; [done|]. apply (mul_zero_l (pw q w)); [by apply pw_nz|]. rewrite <- E0. ring. }
  assert (N1 : c1 <> gf_0).
  { intros ->. apply N; [|done]. apply (mul_zero_l (pw p w)); [by apply pw_nz|]. rewrite <- E0. ring. }
  split_and!; [done|done|]. intros z Hz Hzw Ez. apply N1.
  apply (mul_zero_l (gf_add (gf_mul (pw p z) (pw q w)) (gf_mul (pw p w) (pw q z)))); [by apply pw_minor|].
  transitivity (gf_add (gf_mul (pw p z) (gf_add (gf_mul c0 (pw p w)) (gf_mul c1 (pw q w))))
                       (gf_mul (pw p w) (gf_add (gf_mul c0 (pw p z)) (gf_mul c1 (pw q z))))); [ring|].
  rewrite E0, Ez. ring.
Qed.

Lemma poly3_nz c0 c1 c2 v w u : w <> gf_0 -> u <> gf_0 -> gf_add w u <> gf_0 ->
  gf_add (gf_add c0 (gf_mul c1 w)) (gf_mul c2 (gf_mul w w)) = gf_0 ->
  gf_add (gf_add c0 (gf_mul c1 u)) (gf_mul c2 (gf_mul u u)) = gf_0 ->
  gf_add (gf_add c0 (gf_mul c1 v)) (gf_mul c2 (gf_mul v v)) = gf_1 ->
  c0 <> gf_0 /\ c1 <> gf_0 /\ c2 <> gf_0 /\
  forall z, gf_add z w <> gf_0 -> gf_add z u <> gf_0 ->
    gf_add (gf_add c0 (gf_mul c1 z)) (gf_mul c2 (gf_mul z z)) <> gf_0.
Proof.
  intros Hw Hu Hwu Ew Eu Ev.
  assert (C1 : c1 = gf_mul c2 (gf_add w u)).
  { apply gf_add_eq_0, (mul_zero_l (gf_add w u)); [done|].
    transitivity (gf_add (gf_add (gf_add c0 (gf_mul c1 w)) (gf_mul c2 (gf_mul w w)))
                         (gf_add (gf_add c0 (gf_mul c1 u)) (gf_mul c2 (gf_mul u u)))); [ring|].
    rewrite Ew, Eu. ring. }
  assert (C0 : c0 = gf_mul c2 (gf_mul u w)).
  { apply gf_add_eq_0.
    transitivity (gf_add (gf_add c0 (gf_mul c1 w)) (gf_mul c2 (gf_mul w w))); [rewrite C1; ring|done]. }
  assert (N2 : c2 <> gf_0).
  { intros ->. apply gf_1_nz. rewrite <- Ev, C1, C0. ring. }
  split_and!; [| |done|].
  - rewrite C0. apply gf_mul_nz; [done|by apply gf_mul_nz].
  - rewrite C1. by apply gf_mul_nz.
  - intros z Hzw Hzu. replace (gf_add _ _) with (gf_mul c2 (gf_mul (gf_add z w) (gf_add z u)))
      by (rewrite C1, C0; ring).
    apply gf_mul_nz; [done|by apply gf_mul_nz].
Qed.

(** A polynomial that is 1 at one of [t] points and 0 at the others has no zero
    coefficient and no other zero. *)
Section interpolation.
Context (t : nat) (pm : nat -> nat) (x cf : nat -> gf) (i : nat).
Context (Hpm : pm_ok t pm) (Hi : (i < t)%nat).
Context (Hx : forall k, (k < t)%nat -> x k <> gf_0).
Context (Hd : forall j k, (j < t)%nat -> (k < t)%nat -> j <> k -> gf_add (x j) (x k) <> gf_0).
Context (Hcf : forall k, (k < t)%nat -> peval t pm cf (x k) = if decide (i = k) then gf_1 else gf_0).

Lemma interp_nz :
  (forall j, (j < t)%nat -> cf j <> gf_0) /\
  (forall z, z <> gf_0 -> (forall k, (k < t)%nat -> gf_add z (x k) <> gf_0) -> peval t pm cf z <> gf_0).
Proof using All.
  destruct Hpm as (Ht & Hle & Hlt).
  assert (t = 1 \/ t = 2 \/ t = 3)%nat as [E|[E|E]] by lia.
  - assert (E0 : i = 0%nat) by lia. subst t i. specialize (Hcf 0%nat ltac:(lia)).
    unfold peval in *. cbn [fsum] in *. case_decide; [|lia].
    assert (N : cf 0%nat <> gf_0) by (intros C; apply gf_1_nz; rewrite <- Hcf, C; ring).
    split; [intros j Hj; by replace j with 0%nat by lia|]. intros z Hz _.
    replace (gf_add _ _) with (gf_mul (cf 0%nat) (pw (pm 0%nat) z)) by ring.
    apply gf_mul_nz; [done|by apply pw_nz].
  - subst t.
    assert (exists l, (l < 2)%nat /\ i <> l) as (l & Hl & Hil) by (destruct (decide (i = 0%nat)); [exists 1%nat|exists 0%nat]; lia).
    pose proof (Hcf i Hi) as Ev. pose proof (Hcf l Hl) as Ew. rewrite decide_True in Ev by done.
    rewrite decide_False in Ew by done.
    destruct (poly2_nz (pm 0%nat) (pm 1%nat) (cf 0%nat) (cf 1%nat) (x i) (x l)) as (N0 & N1 & Nz);
      [apply Hlt; lia|apply Hle; lia|by apply Hx|rewrite <- Ew; unfold peval; cbn [fsum]; ring|
       rewrite <- Ev; unfold peval; cbn [fsum]; ring|].
    split; [intros [|[|j]] Hj; [done|done|lia]|]. intros z Hz Hzx.
    unfold peval. cbn [fsum]. replace (gf_add _ _) with (gf_add (gf_mul (cf 0%nat) (pw (pm 0%nat) z)) (gf_mul (cf 1%nat) (pw (pm 1%nat) z))) by ring.
    by apply Nz; [|apply Hzx].
  - subst t. pose proof (Hlt 0 1 ltac:(lia) ltac:(lia))%nat. pose proof (Hlt 1 2 ltac:(lia) ltac:(lia))%nat.
    pose proof (Hle 2%nat ltac:(lia)). assert (P0 : pm 0%nat = 0%nat) by lia.
    assert (P1 : pm 1%nat = 1%nat) by lia. assert (P2 : pm 2%nat = 2%nat) by lia.
    assert (F : forall z, peval 3 pm cf z = gf_add (gf_add (cf 0%nat) (gf_mul (cf 1%nat) z)) (gf_mul (cf 2%nat) (gf_mul z z)))
      by (intros z; unfold peval; cbn [fsum]; rewrite P0, P1, P2; cbn [pw]; ring).
    assert (exists l m, (l < 3)%nat /\ (m < 3)%nat /\ i <> l /\ i <> m /\ l <> m) as (l & m & Hl & Hm & Hil & Him & Hlm).
    { destruct i as [|[|i']]; [exists 1%nat, 2%nat|exists 0%nat, 2%nat|exists 0%nat, 1%nat]; lia. }
    pose proof (Hcf i Hi) as Ev. pose proof (Hcf l Hl) as Ew. pose proof (Hcf m Hm) as Eu.
    rewrite decide_True in Ev by done. rewrite decide_False in Ew by done. rewrite decide_False in Eu by done.
    rewrite F in Ev, Ew, Eu.
    destruct (poly3_nz _ _ _ _ _ _ (Hx l Hl) (Hx m Hm) (Hd l m Hl Hm Hlm) Ew Eu Ev) as (N0 & N1 & N2 & Nz).
    split; [intros [|[|[|j]]] Hj; [done|done|done|lia]|]. intros z Hz Hzx. rewrite F.
    by apply Nz; apply Hzx.
Qed.
End interpolation.

(** ** The solution of the system *)

Section solve.
Context (t n : nat) (mi uj pm : nat -> nat).
Context (Hn : (n <= 255)%nat) (Htn : (t <= n)%nat) (Hpm : pm_ok t pm).
Context (Hmi : forall k, (k < t)%nat -> (mi k < n)%nat).
Context (Hmiinj : forall j k, (j < t)%nat -> (k < t)%nat -> mi j = mi k -> j = k).
Context (Huj : forall j, (t <= j < n)%nat -> (uj j < n)%nat).
Context (Hujinj : forall j k, (t <= j < n)%nat -> (t <= k < n)%nat -> uj j = uj k -> j = k).
Context (Hcov : forall c, (c < n)%nat -> moved t uj n c <-> forall k, (k < t)%nat -> mi k <> c).

Abbreviation base c := (gpow (n - 1 - c)).
Abbreviation MN0 := (start t n uj (disp n pm)).

(** The values the solution is computed from, for data [D]. *)
Definition uvec (D : nat -> gf) (j : nat) : gf :=
  if decide (j < t)%nat then fsum n (fun c => gf_mul (disp n pm j c) (D c)) else D (uj j).

Lemma base_ne c d : (c < n)%nat -> (d < n)%nat -> c <> d -> gf_add (base c) (base d) <> gf_0.
Proof using Hn Htn. intros Hc Hd Hne E%gf_add_eq_0. apply gpow_inj in E; lia. Qed.

Lemma disp_pw i c : (i < t)%nat -> disp n pm i c = pw (pm i) (base c).
Proof using Hpm. intros Hi. apply gpow_pw. by apply Hpm. Qed.

Lemma start_missing i k : (i < t)%nat -> (k < t)%nat -> MN0.1 i (mi k) = pw (pm i) (base (mi k)).
Proof using Hpm Hmi Hcov.
  intros Hi Hk. cbn. rewrite disp_pw by done. case_decide as Hm; [|done].
  exfalso. by apply (proj1 (Hcov (mi k) (Hmi k Hk)) Hm k Hk).
Qed.

Lemma elim_solves : elim_ok t mi MN0 /\ id_blk t mi (elim t mi MN0 t).
Proof using All.
  pose proof Hpm as (Ht & Hle & Hlt).
  assert (B : forall c, base c <> gf_0) by (intros; apply gpow_nz).
  assert (S := start_missing).
  assert (D : forall j k, (j < t)%nat -> (k < t)%nat -> j <> k -> gf_add (base (mi j)) (base (mi k)) <> gf_0)
    by (intros; apply base_ne; auto).
  assert (t = 0 \/ t = 1 \/ t = 2 \/ t = 3)%nat as [E|[E|[E|E]]] by lia; subst t.
  - split; intros ? ?; lia.
  - apply (elim_1 _ _ (pw (pm 0%nat) (base (mi 0%nat)))); [by apply pw_nz|].
    intros i k Hi Hk. rewrite S by done. by replace i with 0%nat by lia; replace k with 0%nat by lia.
  - apply (elim_2 _ _ (pw (pm 0%nat) (base (mi 0%nat))) (pw (pm 0%nat) (base (mi 1%nat)))
      (pw (pm 1%nat) (base (mi 0%nat))) (pw (pm 1%nat) (base (mi 1%nat)))); try (by apply pw_nz).
    + apply pw_minor; auto.
    + intros i k Hi Hk. rewrite S by done. destruct i as [|[|i]]; [| |lia]; (destruct k as [|[|k]]; [done|done|lia]).
  - assert (P : pm 0%nat = 0%nat /\ pm 1%nat = 1%nat /\ pm 2%nat = 2%nat).
    { pose proof (Hlt 0 1 ltac:(lia) ltac:(lia))%nat. pose proof (Hlt 1 2 ltac:(lia) ltac:(lia))%nat.
      pose proof (Hle 2%nat ltac:(lia)). lia. }
    destruct P as (P0 & P1 & P2).
    apply (elim_3 _ _ (base (mi 0%nat)) (base (mi 1%nat)) (base (mi 2%nat))); try done; try (apply D; lia).
    intros i k Hi Hk. rewrite S by done.
    destruct i as [|[|[|i]]]; [rewrite P0|rewrite P1|rewrite P2|lia]; (destruct k as [|[|[|k]]]; [done|done|done|lia]).
Qed.

(** The terms of the moved columns, summed in either order. *)
Lemma fsum_moved f k : (t <= k <= n)%nat ->
  fsum n (fun c => if decide (moved t uj k c) then f c else gf_0)
  = fsum k (fun j => if decide (t <= j)%nat then f (uj j) else gf_0).
Proof using Hn Huj Hujinj Htn.
  induction k as [|k IH]; intros Hk.
  - cbn [fsum]. transitivity (fsum n (fun _ => gf_0)); [|apply fsum_0].
    apply fsum_ext. intros c Hc. case_decide as E; [|done]. destruct E as (j & Hj & _). lia.
  - cbn [fsum]. destruct (decide (t <= k)%nat) as [Htk|Htk].
    + rewrite <- IH by lia. rewrite <- (fsum_single n (uj k) (f (uj k))) by (apply Huj; lia).
      rewrite <- fsum_add. apply fsum_ext. intros c Hc.
      pose proof (not_moved t n uj Hujinj k ltac:(lia)) as Hnm.
      pose proof (moved_S t uj k c Htk) as HS.
      destruct (decide (c = uj k)) as [->|Hne].
      * rewrite decide_True by tauto. rewrite decide_False by done. ring.
      * destruct (decide (moved t uj k c)); [rewrite decide_True by tauto|rewrite decide_False by tauto]; ring.
    + rewrite (fsum_ext n _ (fun _ => gf_0)), (fsum_ext k _ (fun _ => gf_0)), !fsum_0; [ring| |].
      * intros j Hj. case_decide; [lia|done].
      * intros c Hc. case_decide as E; [|done]. destruct E as (j & Hj & _). lia.
Qed.

Lemma start_rows_eq D : rows_eq t n D (uvec D) MN0.
Proof using Hn Huj Hujinj Htn.
  intros i Hi. cbn. set (f := fun c => gf_mul (disp n pm i c) (D c)).
  transitivity (gf_add (fsum n f) (fsum n (fun c => if decide (moved t uj n c) then f c else gf_0))).
  { rewrite <- fsum_add. apply fsum_ext. intros c Hc. unfold f. case_decide; ring. }
  rewrite fsum_moved by lia.
  transitivity (gf_add (fsum n (fun j => if decide (j = i) then fsum n f else gf_0))
                       (fsum n (fun j => if decide (t <= j)%nat then f (uj j) else gf_0))).
  { by rewrite fsum_single by lia. }
  rewrite <- fsum_add. apply fsum_ext. intros j Hj. unfold uvec, mid.
  destruct (decide (t <= j)%nat).
  - rewrite (decide_False (P := (j < t)%nat)) by lia. rewrite decide_False by lia. unfold f. ring.
  - rewrite (decide_True (P := (j < t)%nat)) by lia. destruct (decide (j = i)) as [->|].
    + rewrite decide_True by done. fold f. ring.
    + rewrite decide_False by done. ring.
Qed.

Abbreviation inv := ((elim t mi MN0 t).2).

(** Every data vector is recovered at the missing columns. *)
Lemma inv_solves D i : (i < t)%nat -> fsum n (fun j => gf_mul (inv i j) (uvec D j)) = D (mi i).
Proof using All.
  intros Hi. destruct elim_solves as [_ Hid].
  pose proof (elim_inv t mi (rows_eq t n D (uvec D)) (fun i MN H => rows_eq_scale t n D _ mi i MN H)
    (fun i ii MN H H' => rows_eq_row t n D _ mi i ii MN H H') t MN0 ltac:(lia) (start_rows_eq D) i Hi) as R.
  rewrite <- R. transitivity (fsum n (fun c => if decide (c = mi i) then D (mi i) else gf_0)).
  2: by apply fsum_single, Hmi.
  apply fsum_ext. intros c Hc. destruct (decide (moved t uj n c)) as [Hm|Hm].
  - assert (Z : col_zero c (elim t mi MN0 t)).
    { apply (elim_inv t mi (col_zero c)); [intros; by apply col_zero_scale|intros; by apply col_zero_row|lia|].
      intros i'. cbn. by rewrite decide_True. }
    rewrite Z, decide_False; [ring|]. intros ->. by apply (proj1 (Hcov _ Hc) Hm i Hi).
  - destruct (decide (moved 0 mi t c)) as [(k & [_ Hk] & <-)|He].
    + rewrite Hid by done. destruct (decide (i = k)) as [->|Hne].
      * rewrite decide_True by done. ring.
      * rewrite decide_False by (intros E; apply Hmiinj in E; auto). ring.
    + exfalso. apply Hm, (Hcov c Hc). intros k Hk E. apply He. exists k. split; [lia|done].
Qed.

Lemma fsum_trunc g : fsum n (fun j => if decide (j < t)%nat then g j else gf_0) = fsum t g.
Proof using Htn.
  clear - Htn. induction n as [|m IH]; [by replace t with 0%nat by lia|].
  destruct (decide (t = S m)) as [->|].
  - apply fsum_ext. intros. by rewrite decide_True.
  - cbn [fsum]. rewrite IH, decide_False by lia. ring.
Qed.

(** The [c]-th unit vector. *)
Definition unit (c c' : nat) : gf := if decide (c' = c) then gf_1 else gf_0.

Lemma uvec_unit c j : (c < n)%nat -> (j < t)%nat -> uvec (unit c) j = pw (pm j) (base c).
Proof using Hpm.
  intros Hc Hj. unfold uvec. rewrite decide_True by done.
  rewrite (fsum_ext n _ (fun c' => if decide (c' = c) then disp n pm j c else gf_0)).
  - rewrite fsum_single by done. by apply disp_pw.
  - intros c' Hc'. unfold unit. case_decide; [subst; ring|ring].
Qed.

Lemma peval_missing cf k : (k < t)%nat ->
  fsum n (fun j => gf_mul (cf j) (uvec (unit (mi k)) j)) = peval t pm cf (base (mi k)).
Proof using All.
  intros Hk. unfold peval. rewrite <- fsum_trunc. apply fsum_ext. intros j Hj.
  destruct (decide (j < t)%nat); [by rewrite uvec_unit by auto|].
  unfold uvec, unit. rewrite decide_False by done. rewrite decide_False; [ring|]. intros E.
  apply (proj1 (Hcov (uj j) ltac:(apply Huj; lia)) ltac:(exists j; split; [lia|done]) k Hk). done.
Qed.

Lemma peval_intact cf j0 : (t <= j0 < n)%nat ->
  fsum n (fun j => gf_mul (cf j) (uvec (unit (uj j0)) j)) = gf_add (peval t pm cf (base (uj j0))) (cf j0).
Proof using All.
  intros Hj0. unfold peval. rewrite <- fsum_trunc. rewrite <- (fsum_single n j0 (cf j0)) by lia.
  rewrite <- fsum_add. apply fsum_ext. intros j Hj. destruct (decide (j < t)%nat).
  - rewrite uvec_unit by auto. rewrite decide_False by lia. ring.
  - unfold uvec, unit. rewrite decide_False by done. destruct (decide (j = j0)) as [->|].
    + rewrite decide_True by done. ring.
    + rewrite decide_False by (intros E; apply Hujinj in E; lia). ring.
Qed.

(** The inverse has no zero entry. *)
Lemma inv_nz i j : (i < t)%nat -> (j < n)%nat -> inv i j <> gf_0.
Proof using All.
  intros Hi Hj. destruct (interp_nz t pm (fun k => base (mi k)) (inv i) i Hpm Hi) as [Ncf Nz].
  - intros. apply gpow_nz.
  - intros. apply base_ne; auto.
  - intros k Hk. rewrite <- peval_missing, inv_solves by done. unfold unit.
    destruct (decide (i = k)) as [->|]; [by rewrite decide_True|]. rewrite decide_False; [done|].
    intros E. apply Hmiinj in E; auto.
  - destruct (decide (j < t)%nat); [by apply Ncf|].
    assert (Hm : moved t uj n (uj j)) by (exists j; split; [lia|done]).
    assert (Hne : forall k, (k < t)%nat -> mi k <> uj j) by (apply Hcov; [apply Huj; lia|done]).
    intros E. apply (Nz (base (uj j))); [apply gpow_nz| |].
    + intros k Hk. apply base_ne; [apply Huj; lia|auto|]. intros C. by apply (Hne k).
    + transitivity (gf_add (peval t pm (inv i) (base (uj j))) (inv i j)); [rewrite E; ring|].
      rewrite <- peval_intact, inv_solves by (done || lia). unfold unit. apply decide_False. auto.
Qed.
End solve.
End RaidzMatrix.
