(* ===== verification/RaidzSolve.v ===== *)
(** Correctness of general RAID-Z reconstruction and of the choice between the
    routines: every set of at most as many bad columns as there are parity
    columns is recovered. *)

From S2P Require Import Prelude Galois RaidzMap RaidzParity RaidzReconstruct RaidzGeneral RaidzMatrix.
From Stdlib Require Import Ring Field Sorted.
Import Galois RaidzMap RaidzParity RaidzReconstruct RaidzGeneral RaidzMatrix.
Open Scope Z_scope.

Module RaidzSolve.

(** ** Several columns at once *)

Fixpoint wdats (rm : raidz_map) (cs : list Z) (ds : list (list Z)) : raidz_map :=
  match cs, ds with
  | c :: cs, d :: ds => wdats (wdat rm c d) cs ds
  | _, _ => rm
  end.

Section wdats.
Implicit Types (rm : raidz_map) (cs : list Z) (ds : list (list Z)).

Lemma length_wdats rm cs ds : length (rm_col (wdats rm cs ds)) = length (rm_col rm).
Proof. revert rm ds. induction cs as [|c cs IH]; intros rm [|d ds]; cbn; try done. rewrite IH. apply length_ualt. Qed.

Lemma siz_wdats rm cs ds c : siz (wdats rm cs ds) c = siz rm c.
Proof. revert rm ds. induction cs as [|c' cs IH]; intros rm [|d ds]; cbn [wdats]; try done. rewrite IH. apply siz_wdat. Qed.

Lemma first_wdats rm cs ds : rm_firstdatacol (wdats rm cs ds) = rm_firstdatacol rm.
Proof. revert rm ds. induction cs as [|c cs IH]; intros rm [|d ds]; cbn [wdats]; try done. by rewrite IH. Qed.

Lemma cols_wdats rm cs ds : rm_cols (wdats rm cs ds) = rm_cols rm.
Proof. revert rm ds. induction cs as [|c cs IH]; intros rm [|d ds]; cbn [wdats]; try done. by rewrite IH. Qed.

Lemma dat_wdats_ne rm cs ds c : 0 <= c -> Forall (fun x => 0 <= x /\ x <> c) cs -> dat (wdats rm cs ds) c = dat rm c.
Proof.
  intros Hc Hcs. revert rm ds. induction Hcs as [|x cs [Hx Hne] Hcs IH]; intros rm [|d ds]; cbn [wdats]; try done.
  rewrite IH. apply dat_ualt_ne; lia.
Qed.

Lemma set_col_datas_ok rm cs ds : Forall (fun c => in_map rm c) cs ->
  set_col_datas rm cs ds = Ok (wdats rm cs ds).
Proof.
  intros Hcs. revert rm ds Hcs. induction cs as [|c cs IH]; intros rm [|d ds] Hcs; cbn [set_col_datas wdats]; try done.
  apply Forall_cons_1 in Hcs as [Hc Hcs]. unfold set_col_data. rewrite upd_col_ok by done. bnd. apply IH.
  by rewrite length_ualt.
Qed.

Lemma col_datas_ok rm cs : Forall (fun c => in_map rm c) cs -> col_datas rm cs = Ok (map (dat rm) cs).
Proof. induction 1 as [|c cs Hc Hcs IH]; cbn [col_datas]; [done|]. rewrite col_data_ok by done. bnd. by rewrite IH. Qed.

Lemma col_sizes_ok rm cs : Forall (fun c => in_map rm c) cs -> col_sizes rm cs = Ok (map (siz rm) cs).
Proof. induction 1 as [|c cs Hc Hcs IH]; cbn [col_sizes]; [done|]. rewrite col_size_ok by done. bnd. by rewrite IH. Qed.

Definition distinct (cs : list Z) : Prop := NoDup cs /\ Forall (Z.le 0) cs.

Lemma distinct_cons c cs : distinct (c :: cs) -> 0 <= c /\ Forall (fun x => 0 <= x /\ x <> c) cs /\ distinct cs.
Proof.
  intros [Hn Hp]. pose proof (NoDup_cons_1_1 _ _ Hn) as Hc. apply NoDup_cons_1_2 in Hn. apply Forall_cons_1 in Hp as [H0 Hp].
  split_and!; [done| |done]. rewrite Forall_forall in *. intros x Hx. split; [by apply Hp|].
  intros ->. apply Hc. by apply list_elem_of_In.
Qed.

Lemma wdats_wdat rm cs ds c d : 0 <= c -> Forall (fun x => 0 <= x /\ x <> c) cs ->
  wdats (wdat rm c d) cs ds = wdat (wdats rm cs ds) c d.
Proof.
  intros Hc Hcs. revert rm ds. induction Hcs as [|x cs [Hx Hne] Hcs IH]; intros rm [|e ds]; cbn [wdats]; try done.
  rewrite ualt_comm by lia. by rewrite IH.
Qed.

Lemma map_dat_wdats rm cs ds : distinct cs -> Forall (fun c => in_map rm c) cs -> length ds = length cs ->
  map (dat (wdats rm cs ds)) cs = ds.
Proof.
  revert rm ds. induction cs as [|c cs IH]; intros rm [|d ds] Hd Hin Hl; try done.
  apply distinct_cons in Hd as (Hc & Hne & Hd). apply Forall_cons_1 in Hin as [Hic Hin].
  cbn [wdats map]. f_equal.
  - rewrite dat_wdats_ne by done. by apply dat_wdat.
  - apply IH; [done|by rewrite length_ualt|by injection Hl].
Qed.

Lemma wdats_wdats rm cs ds ds' : distinct cs -> length ds = length cs -> length ds' = length cs ->
  wdats (wdats rm cs ds) cs ds' = wdats rm cs ds'.
Proof.
  revert rm ds ds'. induction cs as [|c cs IH]; intros rm [|d ds] [|d' ds'] Hd Hl Hl'; try done.
  apply distinct_cons in Hd as (Hc & Hne & Hd). cbn [wdats].
  rewrite (wdats_wdat rm cs ds c d) by done. rewrite wdat_wdat, <- wdats_wdat by done.
  apply IH; [done|by injection Hl|by injection Hl'].
Qed.

Lemma wdats_id rm cs : distinct cs -> wdats rm cs (map (dat rm) cs) = rm.
Proof.
  intros Hd. induction cs as [|c cs IH]; [done|]. apply distinct_cons in Hd as (Hc & Hne & Hd).
  cbn [map wdats]. rewrite wdat_id. by apply IH.
Qed.
End wdats.

(** ** The contribution of one column *)

(** Multiplication through the sum of logarithms. *)
Lemma pow2_log_sum x y : x <> gf_0 -> y <> gf_0 ->
  let ll := log2 (gval x) + log2 (gval y) in
  rd vdev_raidz_pow2 (if 255 <=? ll then ll - 255 else ll) = Ok (gval (gf_mul y x)).
Proof.
  intros Hx Hy ll. pose proof (log_gval x Hx). pose proof (log_gval y Hy).
  assert (E : gf_mul y x = gpow (Z.to_nat ll)).
  { rewrite <- (gpow_log x) at 1 by done. rewrite <- (gpow_log y) at 1 by done.
    rewrite <- gpow_add. f_equal. lia. }
  rewrite E, rd_pow2 by (case_if as L; lia). f_equal.
  rewrite <- (gval_of (pow2 _)) by (apply pow2_byte; case_if as L; lia).
  rewrite gpow_pow2 by (case_if as L; lia). f_equal. case_if as L; [|done].
  replace (Z.to_nat ll) with (255 + Z.to_nat (ll - 255))%nat by lia. rewrite gpow_add, gpow_255. ring.
Qed.

Lemma rd_tab {A} t (f : nat -> A) c : 0 <= c < Z.of_nat t -> rd (tab t f) c = Ok (f (Z.to_nat c)).
Proof. intros Hc. apply rd_Some; [lia|]. by rewrite lookup_tab by lia. Qed.

Lemma wr2_tab t (bufs : nat -> list Z) c x v b : 0 <= c < Z.of_nat t -> wr (bufs (Z.to_nat c)) x v = Ok b ->
  wr2 (tab t bufs) c x v = Ok (tab t (fun k => if decide (k = Z.to_nat c) then b else bufs k)).
Proof.
  intros Hc Hw. unfold wr2. rewrite rd_tab by done. bnd. rewrite Hw. bnd.
  rewrite wr_in_bounds by len. by rewrite insert_tab.
Qed.

Section column.
Context (t n : nat) (N : matrix) (i : Z) (src : list Z) (ccount : Z) (dc : nat -> Z) (bufs : nat -> list Z).
Context (Hi : 0 <= i < Z.of_nat n) (HN : forall c j, (c < t)%nat -> (j < n)%nat -> N c j <> gf_0).
Context (Hsrc : Forall is_byte src) (Hcc : 0 <= ccount <= zlen src).
Context (Hdc : forall c, (c < t)%nat -> 0 <= dc c <= zlen (bufs c)).

Abbreviation invlog := (tab t (fun c => tab n (fun j => log2 (gval (N c j))))).

(** The new byte of a target. *)
Definition contrib (c : nat) (d s : Z) : Z :=
  let v := gval (gf_mul (N c (Z.to_nat i)) (gf_of s)) in if i =? 0 then v else Z.lxor d v.

Definition bufs_at (c x : Z) (k : nat) : list Z :=
  upd (contrib k) src 0 (Z.min (if Z.of_nat k <? c then x + 1 else x) (dc k)) (bufs k).

Lemma column_byte c x s log :
  0 <= c < Z.of_nat t -> 0 <= x < zlen src -> s = nth (Z.to_nat x) src 0 -> (s <> 0 -> log = log2 s) ->
  (dcc ← rd (tab t dc) c;
   if dcc <=? x then Ok (tab t (bufs_at c x)) else
   val ← (if s =? 0 then Ok 0 else
            il ← rd2 invlog c i;
            let ll := log + il in
            rd vdev_raidz_pow2 (if 255 <=? ll then ll - 255 else ll));
   if i =? 0 then wr2 (tab t (bufs_at c x)) c x val
   else d ← rd2 (tab t (bufs_at c x)) c x; wr2 (tab t (bufs_at c x)) c x (Z.lxor d val))
  = Ok (tab t (bufs_at (c + 1) x)).
Proof using Hi HN Hsrc Hdc.
  intros Hc Hx Es Hlog. rewrite rd_tab by done. bnd. pose proof (Hdc (Z.to_nat c) ltac:(lia)) as Hd.
  assert (Same : forall k, k <> Z.to_nat c -> bufs_at (c + 1) x k = bufs_at c x k)
    by (intros k Hk; unfold bufs_at; case_ifs; try done; lia).
  case_if as L.
  { f_equal. apply tab_ext. intros k Hk. destruct (decide (k = Z.to_nat c)) as [->|]; [|by rewrite Same].
    unfold bufs_at. case_ifs; try lia. by rewrite !Z.min_r by lia. }
  assert (Sb : is_byte s) by (subst s; by apply nth_byte).
  assert (V : (if s =? 0 then Ok 0 else il ← rd2 invlog c i;
      let ll := log + il in rd vdev_raidz_pow2 (if 255 <=? ll then ll - 255 else ll))
    = Ok (gval (gf_mul (N (Z.to_nat c) (Z.to_nat i)) (gf_of s)))).
  { case_if as E.
    - rewrite E. change (gf_of 0) with gf_0. replace (gf_mul _ gf_0) with gf_0 by ring. done.
    - unfold rd2. rewrite rd_tab by done. bnd. rewrite rd_tab by done. bnd.
      rewrite (Hlog E).
      pose proof (pow2_log_sum (gf_of s) (N (Z.to_nat c) (Z.to_nat i)) ltac:(by apply gf_of_nz) ltac:(apply HN; lia)) as P.
      rewrite gval_of in P by done. exact P. }
  cbv zeta in V. rewrite V. bnd.
  assert (B : bufs_at c x (Z.to_nat c) = upd (contrib (Z.to_nat c)) src 0 x (bufs (Z.to_nat c)))
    by (unfold bufs_at; case_if as E; [lia|by rewrite Z.min_l by lia]).
  pose proof (wr_upd (contrib (Z.to_nat c)) src 0 x (bufs (Z.to_nat c)) ltac:(lia) ltac:(lia)) as W.
  rewrite <- B in W.
  assert (F : Ok (tab t (fun k => if decide (k = Z.to_nat c)
      then upd (contrib (Z.to_nat c)) src 0 (x + 1) (bufs (Z.to_nat c)) else bufs_at c x k))
    = Ok (tab t (bufs_at (c + 1) x))).
  { f_equal. apply tab_ext. intros k Hk. case_decide as E; [subst k|by rewrite Same].
    unfold bufs_at. case_if as E; [by rewrite Z.min_l by lia|lia]. }
  rewrite <- F. unfold contrib in W at 1. cbv zeta in W. rewrite <- Es in W.
  revert W. case_if as I0; intros W.
  - by apply wr2_tab.
  - unfold rd2. rewrite rd_tab by done. bnd. rewrite B, rd_upd by lia. bnd. by apply wr2_tab.
Qed.

Lemma column_ok log : exists log',
  matrix_reconstruct_col (Z.of_nat t) i src ccount (tab t dc) invlog (tab t bufs, log)
  = Ok (tab t (fun k => upd (contrib k) src 0 (Z.min ccount (dc k)) (bufs k)), log').
Proof using Hi HN Hsrc Hdc Hcc.
  assert (W : wp (matrix_reconstruct_col (Z.of_nat t) i src ccount (tab t dc) invlog (tab t bufs, log))
    (fun r => r.1 = tab t (bufs_at 0 ccount))).
  { apply wp_for_range with (I := fun x r => r.1 = tab t (bufs_at 0 x)); [lia| | |done].
    - cbn. rewrite <- (tab_ext t bufs (bufs_at 0 0)); [done|]. intros k Hk. unfold bufs_at.
      pose proof (Hdc k Hk). case_if as E; [lia|]. by rewrite upd_nil by lia.
    - intros x [dst l] Hx E. cbn in E. subst dst. rewrite rd_nth by lia. bnd.
      set (s := nth (Z.to_nat x) src 0).
      assert (L : exists l', (if s =? 0 then Ok l else rd vdev_raidz_log2 s) = Ok l' /\ (s <> 0 -> l' = log2 s)).
      { case_if as E; [by exists l|]. exists (log2 s). split; [|done]. apply rd_log2. by apply nth_byte. }
      destruct L as (l' & -> & Hl). bnd.
      erewrite (for_range_fun (fun c => tab t (bufs_at c x))); [|lia| |done|done].
      + bnd. cbn. apply tab_ext. intros k Hk. unfold bufs_at. case_ifs; try lia; done.
      + intros c Hc. apply column_byte; auto; lia. }
  apply wp_elim in W as ([dst l] & -> & E). cbn in E. exists l. rewrite E. do 2 f_equal.
  apply tab_ext. intros k Hk. unfold bufs_at. case_if as C; [lia|done].
Qed.
End column.

(** ** The missing columns recomputed *)

Section reconstruct.
Context (rm : raidz_map) (t n : nat) (N : matrix) (mi : nat -> nat) (ucol : nat -> Z) (missing used : list Z).
Abbreviation cc k := (Z.of_nat (mi k) + rm_firstdatacol rm).
Context (HN : forall c j, (c < t)%nat -> (j < n)%nat -> N c j <> gf_0).
Context (Hmiss : missing = tab t (fun k => Z.of_nat (mi k))).
Context (Hfirst : 0 <= rm_firstdatacol rm).
Context (Hcc : forall k, (k < t)%nat -> cc k < zlen (rm_col rm) /\ 0 <= siz rm (cc k) /\ zlen (dat rm (cc k)) = siz rm (cc k)).
Context (Hinj : forall j k, (j < t)%nat -> (k < t)%nat -> mi j = mi k -> j = k).
Context (Hused : forall i, (i < n)%nat -> rd used (Z.of_nat i) = Ok (ucol i)).
Context (Hucol : forall i, (i < n)%nat -> in_map rm (ucol i) /\ (forall k, (k < t)%nat -> cc k <> ucol i) /\
  0 <= siz rm (ucol i) <= zlen (dat rm (ucol i)) /\ Forall is_byte (dat rm (ucol i))).
Context (Hfull : forall k, (k < t)%nat -> (0 < n)%nat -> siz rm (cc k) <= siz rm (ucol 0%nat)).

(** Target [k] after [i] source columns. *)
Definition target (i k : nat) : list Z :=
  if decide (i = 0%nat) then dat rm (cc k)
  else tab (Z.to_nat (siz rm (cc k))) (fun j =>
    gval (fsum i (fun i' => gf_mul (N k i') (gf_of (cbyte rm (ucol i') j))))).

Lemma target_length i k : (k < t)%nat -> zlen (target i k) = siz rm (cc k).
Proof using Hcc.
  intros Hk. unfold target. destruct (Hcc k Hk) as (_ & ? & ?). case_decide; [done|]. rewrite length_tab. lia.
Qed.

Lemma target_step i k : (i < n)%nat -> (k < t)%nat ->
  upd (contrib N (Z.of_nat i) k) (dat rm (ucol i)) 0 (Z.min (siz rm (ucol i)) (siz rm (cc k))) (target i k)
  = target (S i) k.
Proof using Hcc Hucol Hfull.
  intros Hi Hk. pose proof (target_length i k Hk) as Hl. unfold upd.
  replace (length (target i k)) with (Z.to_nat (siz rm (cc k))) by lia.
  unfold target at 3. rewrite decide_False by done. apply tab_ext. intros j Hj.
  destruct (Hucol i Hi) as (_ & _ & Hs & Hb). unfold contrib. rewrite Nat2Z.id. cbn [fsum].
  destruct (decide (i = 0%nat)) as [->|Hne].
  - pose proof (Hfull k Hk ltac:(lia)). rewrite Z.eqb_refl. case_if as E; [|lia]. f_equal. cbn [fsum].
    unfold cbyte. case_if as E'; [ring|lia].
  - rewrite (proj2 (Z.eqb_neq (Z.of_nat i) 0)) by lia.
    assert (T : nth j (target i k) 0 = gval (fsum i (fun i' => gf_mul (N k i') (gf_of (cbyte rm (ucol i') j))))).
    { unfold target. rewrite decide_False by done. rewrite nth_tab. by rewrite decide_True. }
    rewrite T. case_if as E.
    + rewrite <- gval_add. f_equal. f_equal. unfold cbyte. case_if as E'; [done|lia].
    + assert (cbyte rm (ucol i) j = 0) as -> by (unfold cbyte; case_if as E'; [lia|done]).
      f_equal. change (gf_of 0) with gf_0. ring.
Qed.

Abbreviation ccs := (tab t (fun k => cc k)).

Lemma ccs_distinct : distinct ccs.
Proof using Hfirst Hinj.
  split.
  - apply NoDup_alt. intros i j x Ei Ej.
    apply lookup_lt_Some in Ei as Li. apply lookup_lt_Some in Ej as Lj. rewrite length_tab in Li, Lj.
    rewrite lookup_tab in Ei, Ej by done. apply Hinj; [done|done|]. congruence || (injection Ei; injection Ej; lia).
  - apply Forall_tab. intros. lia.
Qed.

Abbreviation logs := (tab t (fun i => tab n (fun j => log2 (gval (N i j))))).

(** The logarithms of the matrix, tabulated before the columns are walked. *)
Lemma logs_ok : for_range 0 (Z.of_nat t) (fun i acc =>
    row ← for_range 0 (Z.of_nat n) (fun j row => x ← rd2 (mat t n N) i j; l ← rd vdev_raidz_log2 x; Ok (row ++ [l])) [];
    Ok (acc ++ [row])) [] = Ok logs.
Proof using All.
  erewrite (for_range_fun (fun c => tab (Z.to_nat c) (fun i => tab n (fun j => log2 (gval (N i j))))));
    [|lia| |done|done]; [by rewrite Nat2Z.id|].
  intros i Hi.
  erewrite (for_range_fun (fun c => tab (Z.to_nat c) (fun j => log2 (gval (N (Z.to_nat i) j))))); [|lia| |done|done].
  - bnd. rewrite Nat2Z.id. replace (Z.to_nat (i + 1)) with (S (Z.to_nat i)) by lia.
    by rewrite tab_S.
  - intros j Hj. rewrite rd2_mat by lia. bnd. rewrite rd_log2 by apply gval_byte. bnd.
    replace (Z.to_nat (j + 1)) with (S (Z.to_nat j)) by lia. by rewrite tab_S.
Qed.

(** One known column added to the targets. *)
Lemma column_step k log : (k < n)%nat -> exists log',
  (let rm0 := wdats rm ccs (tab t (target k)) in
   c ← rd used (Z.of_nat k); src ← col_data rm0 c; ccount ← col_size rm0 c; dst ← col_datas rm0 ccs; dcount ← col_sizes rm0 ccs;
   '(dst0, log0) ← matrix_reconstruct_col (Z.of_nat t) (Z.of_nat k) src ccount dcount logs (dst, log);
   rm1 ← set_col_datas rm0 ccs dst0; Ok (rm1, log0)) = Ok (wdats rm ccs (tab t (target (S k))), log').
Proof using All.
  intros Hk. cbv zeta. assert (In : Forall (fun c => in_map rm c) ccs).
  { apply Forall_tab. intros m Hm. destruct (Hcc m Hm) as (? & _). lia. }
  rewrite Hused by lia. bnd.
  destruct (Hucol k ltac:(lia)) as (Hin & Hne & Hs & Hb).
  rewrite col_data_ok, col_size_ok by (rewrite length_wdats; done). bnd.
  rewrite col_datas_ok, col_sizes_ok by (rewrite length_wdats; done). bnd.
  rewrite map_dat_wdats by (auto using ccs_distinct; by rewrite !length_tab).
  rewrite siz_wdats, dat_wdats_ne; [|lia|].
  2: { apply Forall_tab. intros m Hm. split; [lia|by apply Hne]. }
  replace (map (siz (wdats rm ccs (tab t (target k)))) ccs) with (tab t (fun k => siz rm (cc k)))
    by (unfold tab; rewrite map_map; apply map_ext; intros; by rewrite siz_wdats).
  destruct (column_ok t n N (Z.of_nat k) (dat rm (ucol k)) (siz rm (ucol k)) (fun k => siz rm (cc k))
    (target k) ltac:(lia) HN Hb Hs) with (log := log) as (log' & ->).
  { intros c Hc. rewrite target_length by done. destruct (Hcc c Hc) as (_ & ? & _). lia. }
  bnd. rewrite set_col_datas_ok by (by rewrite length_wdats). bnd.
  exists log'. f_equal. f_equal.
  rewrite wdats_wdats by (auto using ccs_distinct; by rewrite !length_tab).
  f_equal. apply tab_ext. intros m Hm. apply target_step; [lia|done].
Qed.

Lemma matrix_reconstruct_ok :
  vdev_raidz_matrix_reconstruct rm (Z.of_nat n) (Z.of_nat t) missing (mat t n N) used
  = Ok (wdats rm ccs (tab t (target n))).
Proof using All.
  unfold vdev_raidz_matrix_reconstruct. rewrite logs_ok. bnd.
  rewrite firstn_all2 by (subst; rewrite length_tab; lia).
  replace (map (fun m => m + rm_firstdatacol rm) missing) with ccs by (subst; unfold tab; by rewrite map_map).
  match goal with |- context [for_range 0 (Z.of_nat n) ?b (rm, 0)] => set (body := b) end.
  assert (W : wp (for_range 0 (Z.of_nat n) body (rm, 0)) (fun r => r.1 = wdats rm ccs (tab t (target n)))).
  { apply wp_for_range with (I := fun i r => r.1 = wdats rm ccs (tab t (target (Z.to_nat i)))); [lia| | |].
    - change (rm = wdats rm ccs (tab t (target 0))).
      rewrite (tab_ext t (target 0) (fun k => dat rm (cc k))) by done.
      replace (tab t (fun k => dat rm (cc k))) with (map (dat rm) ccs) by (unfold tab; by rewrite map_map).
      symmetry. apply wdats_id, ccs_distinct.
    - intros i [rm0 log] Hi E. cbn [fst] in E. subst rm0.
      assert (exists k, i = Z.of_nat k) as [k ->] by (exists (Z.to_nat i); lia). rewrite Nat2Z.id.
      replace (Z.to_nat (Z.of_nat k + 1)) with (S k) by lia.
      destruct (column_step k log ltac:(lia)) as (log' & E). unfold body. cbv beta iota zeta in E |- *. by rewrite E.
    - intros r ->. by rewrite Nat2Z.id. }
  apply wp_elim in W as ([rm1 log] & -> & E). cbn [fst] in E. subst rm1. by bnd.
Qed.
End reconstruct.

(** ** Choosing the columns *)

(** The integers [lo..hi) that satisfy a test. *)
Definition those (p : Z -> bool) (lo hi : Z) : list Z := List.filter p (seqZ lo (hi - lo)).

Lemma those_nil p lo hi : hi <= lo -> those p lo hi = [].
Proof. intros. unfold those. by rewrite seqZ_nil by lia. Qed.

Lemma those_snoc p lo hi : lo <= hi -> those p lo (hi + 1) = those p lo hi ++ (if p hi then [hi] else []).
Proof.
  intros H. unfold those. replace (hi + 1 - lo) with (hi - lo + 1) by lia.
  rewrite seqZ_app, List.filter_app by lia. f_equal. replace (lo + (hi - lo)) with hi by lia.
  rewrite seqZ_cons, seqZ_nil by lia. cbn. by destruct (p hi).
Qed.

Lemma those_split p lo mid hi : lo <= mid <= hi -> those p lo hi = those p lo mid ++ those p mid hi.
Proof.
  intros H. unfold those. replace (hi - lo) with ((mid - lo) + (hi - mid)) by lia.
  rewrite seqZ_app, List.filter_app by lia. do 3 f_equal. lia.
Qed.

Lemma in_those p lo hi c : In c (those p lo hi) <-> lo <= c < hi /\ p c = true.
Proof.
  unfold those. rewrite List.filter_In. rewrite <- list_elem_of_In, elem_of_seqZ. intuition lia.
Qed.

Lemma those_sorted p lo hi : StronglySorted Z.lt (those p lo hi).
Proof.
  destruct (Z.le_gt_cases hi lo) as [H|H]; [rewrite those_nil by done; constructor|].
  remember (Z.to_nat (hi - lo)) as n eqn:E. revert lo H E. induction n as [|n IH]; intros lo H E; [lia|].
  rewrite (those_split p lo (lo + 1) hi) by lia. rewrite (those_snoc p lo lo), (those_nil p lo lo) by lia. cbn [app].
  assert (S : StronglySorted Z.lt (those p (lo + 1) hi)).
  { destruct (Z.le_gt_cases hi (lo + 1)); [rewrite those_nil by done; constructor|apply IH; lia]. }
  destruct (p lo); [|done]. cbn [app]. constructor; [done|].
  apply List.Forall_forall. intros x Hx%in_those. lia.
Qed.

Lemma sorted_nth l i j : StronglySorted Z.lt l -> (i < j)%nat -> (j < length l)%nat -> nth i l 0 < nth j l 0.
Proof.
  intros Hs. revert i j. induction Hs as [|x l Hs IH Hf]; intros i j Hij Hj; [cbn in Hj; lia|].
  destruct j as [|j]; [lia|]. cbn [length] in Hj. destruct i as [|i]; cbn.
  - rewrite List.Forall_forall in Hf. apply Hf, nth_In. lia.
  - apply IH; lia.
Qed.

(** Lengths add up: what satisfies the test and what does not. *)
Lemma those_length p lo hi : lo <= hi -> zlen (those p lo hi) + zlen (those (fun c => negb (p c)) lo hi) = hi - lo.
Proof.
  intros H. unfold those. rewrite <- (Z2Nat.id (hi - lo)) at 3 by lia. rewrite <- (length_seqZ lo (hi - lo)).
  induction (seqZ lo (hi - lo)) as [|x l IH]; [done|]. cbn [List.filter]. destruct (p x); cbn [negb length]; lia.
Qed.

Lemma those_mono p lo mid hi : lo <= mid < hi -> p mid = true -> zlen (those p lo mid) < zlen (those p lo hi).
Proof.
  intros H Hp. rewrite (those_split p lo (mid + 1) hi), those_snoc, Hp by lia.
  rewrite !length_app. cbn [length]. lia.
Qed.

Lemma push_ok {A} cap (l : list A) v : zlen l < cap -> push cap l v = Ok (l ++ [v]).
Proof. intros H. unfold push. by rewrite (proj2 (Z.ltb_lt _ _)). Qed.

(** A pointer that moves along a sorted list of targets. *)
Definition below (c : Z) (l : list Z) : Z := zlen (List.filter (fun x => x <? c) l).
Definition memb (c : Z) (l : list Z) : bool := existsb (Z.eqb c) l.

Lemma memb_In c l : memb c l = true <-> In c l.
Proof.
  unfold memb. rewrite existsb_exists. split.
  - intros (x & Hx & ->%Z.eqb_eq). done.
  - intros Hc. exists c. by rewrite Z.eqb_refl.
Qed.

Lemma below_none c l : Forall (Z.le c) l -> below c l = 0.
Proof.
  unfold below. induction 1 as [|x l Hx Hl IH]; [done|]. cbn [List.filter].
  rewrite (proj2 (Z.ltb_ge x c)) by done. done.
Qed.

Lemma rd_cons {A} (x : A) l i : 0 <= i -> rd (x :: l) (i + 1) = rd l i.
Proof.
  intros Hi. unfold rd. rewrite !(proj2 (Z.leb_le 0 _)) by lia.
  replace (Z.to_nat (i + 1)) with (S (Z.to_nat i)) by lia. done.
Qed.

Lemma pointer_hit c l : StronglySorted Z.lt l ->
  (if below c l <? zlen l then ti ← rd l (below c l); Ok (c =? ti) else Ok false) = Ok (memb c l).
Proof.
  induction 1 as [|x l Hs IH Hf]; [done|].
  destruct (Z.lt_ge_cases x c) as [Hx|Hx].
  - assert (B : below c (x :: l) = below c l + 1).
    { unfold below. cbn [List.filter]. rewrite (proj2 (Z.ltb_lt x c)) by done. cbn [length]. lia. }
    rewrite B, rd_cons by (unfold below; lia). cbn [length memb existsb].
    rewrite (proj2 (Z.eqb_neq c x)) by lia. cbn [orb]. fold (memb c l). rewrite <- IH.
    replace (below c l + 1 <? Z.of_nat (S (length l))) with (below c l <? zlen l); [done|].
    destruct (Z.ltb_spec (below c l) (zlen l)), (Z.ltb_spec (below c l + 1) (Z.of_nat (S (length l)))); lia || done.
  - assert (Hl : Forall (Z.lt x) l) by done.
    rewrite below_none by (constructor; [done|eapply List.Forall_impl; [|exact Hl]; intros; lia]).
    cbn [length]. rewrite (proj2 (Z.ltb_lt 0 _)) by lia. change (rd (x :: l) 0) with (Ok x). bnd. f_equal.
    cbn [memb existsb]. destruct (c =? x) eqn:E; [done|]. symmetry. cbn [orb].
    apply not_true_is_false. intros Hin%memb_In. rewrite List.Forall_forall in Hl. apply Hl in Hin. lia.
Qed.

Lemma below_next c l : StronglySorted Z.lt l -> below (c + 1) l = if memb c l then below c l + 1 else below c l.
Proof.
  induction 1 as [|x l Hs IH Hf]; [done|]. assert (Hl : Forall (Z.lt x) l) by done.
  destruct (Z.lt_ge_cases x c) as [Hx|Hx].
  - unfold below in *. cbn [List.filter memb existsb].
    rewrite (proj2 (Z.ltb_lt x c)), (proj2 (Z.ltb_lt x (c + 1))), (proj2 (Z.eqb_neq c x)) by lia. cbn [orb length].
    unfold memb in IH. destruct (existsb (Z.eqb c) l); lia.
  - rewrite (below_none c) by (constructor; [done|eapply List.Forall_impl; [|exact Hl]; intros; lia]).
    cbn [memb existsb]. destruct (Z.eqb_spec c x) as [->|Hne]; cbn [orb].
    + unfold below. cbn [List.filter]. rewrite (proj2 (Z.ltb_lt x (x + 1))) by lia. cbn [length].
      fold (below (x + 1) l). change (zlen (List.filter (fun x0 => x0 <? x + 1) l)) with (below (x + 1) l).
      enough (below (x + 1) l = 0) by (unfold below in *; lia).
      apply below_none. eapply List.Forall_impl; [|exact Hl]. intros; lia.
    + rewrite (below_none (c + 1)) by (constructor; [lia|eapply List.Forall_impl; [|exact Hl]; intros; lia]).
      destruct (existsb (Z.eqb c) l) eqn:E; [|done].
      apply memb_In in E. rewrite List.Forall_forall in Hl. apply Hl in E. lia.
Qed.

(** ** The scan for bad columns *)

(** Equality of outcomes that are tuples, component by component. *)
Ltac pairs := repeat match goal with
  | |- Ok _ = Ok _ => f_equal
  | |- (_, _) = (_, _) => f_equal
  end; try done.

Definition err (rm : raidz_map) (c : Z) : Z :=
  match rm_col rm !! Z.to_nat c with Some rc => rc_error rc | None => 0 end.

(** Column [c] is bad: it is a target, or its I/O failed. *)
Definition bad (rm : raidz_map) (tgts : list Z) (c : Z) : bool := memb c tgts || negb (err rm c =? 0).

Section scan.
Context (rm : raidz_map) (t : list Z).
Context (Hnp : 0 <= rm_firstdatacol rm <= 3) (Hcols : rm_firstdatacol rm <= rm_cols rm <= zlen (rm_col rm)).
Context (Hsort : StronglySorted Z.lt t) (Hpos : Forall (Z.le 0) t).
Abbreviation first := (rm_firstdatacol rm).
Abbreviation cols := (rm_cols rm).
Abbreviation isbad := (bad rm t).
Abbreviation good := (fun c => negb (bad rm t c)).
Context (Hfew : zlen (those isbad 0 cols) <= 3).

Definition valid (c : Z) : list bool := map good (seqZ 0 c).

Lemma valid_snoc c : 0 <= c -> valid (c + 1) = valid c ++ [good c].
Proof.
  intros Hc. unfold valid. rewrite seqZ_app by lia. by rewrite map_app.
Qed.

Lemma length_valid c : 0 <= c -> zlen (valid c) = c.
Proof. intros. unfold valid. rewrite length_map, length_seqZ. lia. Qed.

Lemma rd_err c : in_map rm c -> exists rc, rd (rm_col rm) c = Ok rc /\ rc_error rc = err rm c.
Proof.
  intros Hc. destruct (rd_in_bounds (rm_col rm) c Hc) as (rc & E & El). exists rc. unfold err. by rewrite E, El.
Qed.

Lemma reconstruct_scan_ok :
  reconstruct_scan rm t (zlen t) =
    Ok (those isbad 0 cols, valid first, zlen (those isbad 0 first), zlen (those isbad first cols)).
Proof using All.
  unfold reconstruct_scan.
  erewrite (for_range_fun (fun c => (those isbad 0 c, valid (Z.min c first),
    first - zlen (those good 0 (Z.min c first)), cols - first - zlen (those good first c), below c t)));
    [|lia| | |done].
  - bnd. rewrite Z.min_r by lia. pose proof (those_length isbad 0 first ltac:(lia)).
    pose proof (those_length isbad first cols ltac:(lia)). pairs; lia.
  - intros c Hc. rewrite pointer_hit, below_next by done.
    assert (P : (if c <? first then push VDEV_RAIDZ_MAXPARITY (valid (Z.min c first)) false
      else Ok (valid (Z.min c first))) = Ok (if c <? first then valid c ++ [false] else valid first)).
    { case_if as E; [|by rewrite Z.min_r by lia]. rewrite Z.min_l by lia. apply push_ok.
      rewrite length_valid by lia. unfold VDEV_RAIDZ_MAXPARITY. lia. }
    rewrite P. bnd. clear P. destruct (rd_err c) as (rc & Hrc & He); [lia|].
    assert (Push : isbad c = true -> push VDEV_RAIDZ_MAXPARITY (those isbad 0 c) c = Ok (those isbad 0 (c + 1))).
    { intros Hb. rewrite those_snoc, Hb by lia. apply push_ok. unfold VDEV_RAIDZ_MAXPARITY.
      pose proof (those_mono isbad 0 c cols ltac:(lia) Hb). lia. }
    assert (Vb : isbad c = true -> (if c <? first then valid c ++ [false] else valid first) = valid (Z.min (c + 1) first)
      /\ zlen (those good 0 (Z.min (c + 1) first)) = zlen (those good 0 (Z.min c first))
      /\ zlen (those good first (c + 1)) = zlen (those good first c)).
    { intros Hb. split_and!.
      - case_if as E; [rewrite Z.min_l, valid_snoc, Hb by lia; done|by rewrite Z.min_r by lia].
      - destruct (Z.lt_ge_cases c first); [|by rewrite !Z.min_r by lia].
        rewrite !Z.min_l, those_snoc, Hb by lia. cbn. by rewrite app_nil_r.
      - destruct (Z.lt_ge_cases c first); [by rewrite !those_nil by lia|].
        rewrite those_snoc, Hb by lia. cbn. by rewrite app_nil_r. }
    destruct (memb c t) eqn:M.
    + assert (Hb : isbad c = true) by (unfold bad; by rewrite M).
      rewrite Push by done. bnd. destruct Vb as (-> & -> & ->); done.
    + rewrite Hrc. bnd. rewrite He. destruct (err rm c =? 0) eqn:Z0; cbn [negb orb].
      2: { assert (Hb : isbad c = true) by (unfold bad; by rewrite Z0, orb_true_r).
           rewrite Push by done. bnd. destruct Vb as (-> & -> & ->); done. }
      assert (Hg : isbad c = false) by (unfold bad; by rewrite M, Z0).
      rewrite those_snoc, Hg, app_nil_r by lia. case_if as F.
      * rewrite (proj2 (Z.ltb_ge c first)), !Z.min_r by lia.
        rewrite (those_snoc good first), Hg, length_app by lia. cbn [negb length]. pairs; lia.
      * rewrite (proj2 (Z.ltb_lt c first)), !Z.min_l by lia.
        rewrite wr_app by (by rewrite length_valid by lia). bnd. rewrite valid_snoc, Hg by lia.
        rewrite (those_snoc good 0), Hg, !(those_nil good first) by lia. rewrite length_app. cbn [negb length].
        pairs; lia.
  - rewrite Z.min_l by lia. rewrite !those_nil by lia. cbn [length]. rewrite below_none.
    + pairs; lia.
    + done.
Qed.
End scan.

(** ** The choice of rows for the general method *)

Lemma take_snoc {A} (l : list A) i v : l !! i = Some v -> take (S i) l = take i l ++ [v].
Proof. intros H. by apply take_S_r. Qed.

Lemma general_missing_ok first l : zlen l <= 3 ->
  general_missing first (zlen l) l = Ok (map (fun c => c - first) (List.filter (fun c => first <=? c) l)).
Proof.
  intros Hl. unfold general_missing.
  apply (for_range_fun (fun c => map (fun c => c - first) (List.filter (fun c => first <=? c) (take (Z.to_nat c) l))));
    [lia| |done|by rewrite Nat2Z.id, firstn_all].
  intros i Hi. destruct (rd_in_bounds l i Hi) as (v & -> & Hv). bnd.
  replace (Z.to_nat (i + 1)) with (S (Z.to_nat i)) by lia. rewrite (take_snoc _ _ v) by done.
  rewrite List.filter_app, map_app. cbn [List.filter]. destruct (first <=? v); [|by rewrite app_nil_r].
  apply push_ok. unfold VDEV_RAIDZ_MAXPARITY. rewrite length_map.
  pose proof (List.filter_length_le (fun c => first <=? c) (take (Z.to_nat i) l)) as Hle.
  rewrite length_take in Hle. lia.
Qed.

Lemma filter_none {A} (f : A -> bool) l : (forall x, In x l -> f x = false) -> List.filter f l = [].
Proof. induction l as [|x l IH]; intros H; [done|]. cbn. rewrite H by (by left). apply IH. intros. apply H. by right. Qed.

Lemma filter_all {A} (f : A -> bool) l : (forall x, In x l -> f x = true) -> List.filter f l = l.
Proof. induction l as [|x l IH]; intros H; [done|]. cbn. rewrite H by (by left). f_equal. apply IH. intros. apply H. by right. Qed.

Lemma filter_those p lo mid hi : lo <= mid <= hi ->
  List.filter (fun c => mid <=? c) (those p lo hi) = those p mid hi.
Proof.
  intros H. rewrite (those_split p lo mid hi) by done. rewrite List.filter_app.
  rewrite (filter_none _ (those p lo mid)), (filter_all _ (those p mid hi)); [done| |].
  - intros x Hx%in_those. apply Z.leb_le. lia.
  - intros x Hx%in_those. apply Z.leb_gt. lia.
Qed.

Lemma below_those p c lo hi : lo <= c <= hi -> below c (those p lo hi) = zlen (those p lo c).
Proof.
  intros H. unfold below. rewrite (those_split p lo c hi) by done. rewrite List.filter_app.
  rewrite (filter_all _ (those p lo c)), (filter_none _ (those p c hi)); [by rewrite app_nil_r| |].
  - intros x Hx%in_those. apply Z.ltb_ge. lia.
  - intros x Hx%in_those. apply Z.ltb_lt. lia.
Qed.

Lemma memb_those p c lo hi : lo <= c < hi -> memb c (those p lo hi) = p c.
Proof.
  intros H. destruct (p c) eqn:E.
  - apply memb_In, in_those. done.
  - apply not_true_is_false. intros [_ C]%memb_In%in_those. congruence.
Qed.

Lemma take_those p lo mid hi : lo <= mid <= hi ->
  take (length (those p lo mid)) (those p lo hi) = those p lo mid.
Proof. intros H. rewrite (those_split p lo mid hi) by done. by rewrite take_app_length. Qed.

(** As many intact parity columns as there are bad data columns are found,
    the first ones. *)
(** A code names parity columns that are not bad, and some when data columns are. *)
Definition code_ok (p : Z -> bool) (missing : Z) (code : Z) : Prop :=
  0 <= code < 8 /\ (forall i, 0 <= i -> Z.testbit code i = true -> p i = false) /\ (0 < missing -> 0 < code).

Lemma code_ok_lor p n code c : code_ok p n code -> 0 <= c < 3 -> p c = false -> code_ok p (n + 1) (Z.lor code (Z.shiftl 1 c)).
Proof.
  intros (Hb & Hp & Hn) Hc Pc. pose proof (Z.pow_pos_nonneg 2 c ltac:(lia) ltac:(lia)).
  assert (L : Z.shiftl 1 c = 2 ^ c) by (by rewrite Z.shiftl_mul_pow2, Z.mul_1_l by lia). rewrite L.
  assert (Hl : 2 ^ c < 2 ^ 3) by (apply Z.pow_lt_mono_r; lia). split_and!.
  - apply (lor_bound _ _ 3); lia.
  - apply (lor_bound _ _ 3); lia.
  - intros i Hi. rewrite Z.lor_spec, orb_true_iff. intros [Hi'|Hi']; [by apply Hp|].
    rewrite Z.pow2_bits_eqb in Hi' by lia. apply Z.eqb_eq in Hi' as <-. done.
  - intros _. assert (0 <= Z.lor code (2 ^ c)) by (apply Z.lor_nonneg; lia).
    assert (Z.lor code (2 ^ c) <> 0); [|lia]. intros E%Z.lor_eq_0_iff. lia.
Qed.

Lemma general_parity_ok (p : Z -> bool) first cols :
  1 <= first <= 3 -> first <= cols -> zlen (those p 0 cols) <= first ->
  let t := zlen (those p first cols) in
  exists code, general_parity t (those p 0 cols) =
    Ok (take (Z.to_nat t) (those (fun c => negb (p c)) 0 first), code) /\ code_ok p t code.
Proof.
  intros Hf Hcols Hl t. set (good := fun c => negb (p c)).
  assert (Hsplit : zlen (those p 0 cols) = zlen (those p 0 first) + t)
    by (rewrite (those_split p 0 first cols), length_app by lia; lia).
  pose proof (those_length p 0 first ltac:(lia)) as Hg. fold good in Hg.
  assert (W : wp (general_parity t (those p 0 cols)) (fun r => r.1 = take (Z.to_nat t) (those good 0 first) /\ code_ok p t r.2)).
  { unfold general_parity. apply wp_loop with (m := fun '(_, c, _, _) => Z.to_nat (first - c))
      (I := fun '(tt0, c, code, pm) => code_ok p (zlen pm) code /\ 0 <= c <= first /\ tt0 = zlen (those p 0 c) /\ pm = those good 0 c /\ zlen pm <= t).
    - intros [[[tt0 c] code] pm] (Hcode & Hc & -> & -> & Ht). case_if as E.
      + assert (Hcf : c < first) by (destruct (decide (c = first)); [subst c; lia|lia]).
        pose proof (those_length p 0 c ltac:(lia)) as Hgc. fold good in Hgc.
        pose proof (pointer_hit c (those p 0 cols) (those_sorted p 0 cols)) as Hp.
        rewrite below_those, memb_those in Hp by lia.
        assert (Hlt : zlen (those p 0 c) < zlen (those p 0 cols)).
        { rewrite (those_split p 0 c first) in Hsplit by lia. rewrite length_app in Hsplit. lia. }
        rewrite (proj2 (Z.ltb_lt _ _)) in Hp by done.
        destruct (rd_in_bounds (those p 0 cols) (zlen (those p 0 c)) ltac:(lia)) as (ti & Hti & _).
        rewrite Hti in Hp |- *. rewrite bind_Ok in Hp. injection Hp as Hp. bnd. rewrite Hp.
        destruct (p c) eqn:Pc.
        * cbn [wp]. rewrite (those_snoc p 0 c), (those_snoc good 0 c) by lia.
          change (good c) with (negb (p c)). rewrite Pc. cbn [negb].
          rewrite !app_nil_r, length_app. cbn [length].
          split; [|lia]. split; [exact Hcode|]. split_and!; try done; lia.
        * rewrite push_ok by (unfold VDEV_RAIDZ_MAXPARITY; lia). bnd. cbn [wp].
          rewrite (those_snoc p 0 c), (those_snoc good 0 c) by lia.
          change (good c) with (negb (p c)). rewrite Pc. cbn [negb].
          rewrite !app_nil_r, length_app. cbn [length]. 
          pose proof (code_ok_lor p _ code c Hcode ltac:(lia) Pc) as Hcode'. rewrite Nat2Z.inj_add.
          split; [|lia]. split; [exact Hcode'|]. split_and!; try done; lia.
      + cbn [wp fst snd]. assert (Ht' : zlen (those good 0 c) = t) by lia. split; [|by rewrite <- Ht']. rewrite <- Ht', Nat2Z.id.
        symmetry. by apply take_those.
    - rewrite !those_nil by lia. cbn [length]. unfold t. split; [|split_and!; lia || done].
      split_and!; [lia|lia| |lia]. intros i _. by rewrite Z.bits_0.
    - lia. }
  apply wp_elim in W as ([pm code] & E & Hpm & Hcode). exists code. split; [|exact Hcode]. rewrite E. do 2 f_equal. exact Hpm.
Qed.

Lemma rd_map {A B} (f : A -> B) l i : rd (map f l) i = (x ← rd l i; Ok (f x)).
Proof.
  unfold rd. destruct (0 <=? i); [|done]. rewrite list_lookup_fmap. by destruct (l !! Z.to_nat i).
Qed.

Lemma map_u8_id l : Forall (fun c => 0 <= c < 256) l -> map (fun c => u8 c) l = l.
Proof. induction 1 as [|c l Hc Hl IH]; [done|]. cbn [map]. rewrite IH, Z.mod_small by lia. done. Qed.

Lemma general_used_ok p first cols pm : 0 <= first <= cols -> cols <= 255 ->
  zlen pm = zlen (those p first cols) -> Forall (fun c => 0 <= c < 256) pm ->
  general_used first cols (cols - first) (zlen (those p first cols))
    (map (fun c => c - first) (those p first cols)) pm
  = Ok (pm ++ those (fun c => negb (p c)) first cols).
Proof.
  intros Hf Hcols Hpm Hb. unfold general_used. rewrite map_u8_id by done.
  pose proof (those_length p first cols ltac:(lia)) as Hlen.
  erewrite (for_range_fun (fun c => (pm ++ those (fun c => negb (p c)) first c, zlen (those p first c)))); [|lia| | |done].
  - by bnd.
  - intros c Hc.
    pose proof (pointer_hit c (those p first cols) (those_sorted p first cols)) as Hp.
    rewrite below_those, memb_those in Hp by lia. rewrite rd_map.
    replace (if _ <? _ then _ else _) with (Ok (p c) : res bool).
    2: { rewrite <- Hp. case_if as E; [|done].
         destruct (rd (those p first cols) (zlen (those p first c))) as [ti|]; [|done]. bnd. f_equal.
         destruct (Z.eqb_spec c ti), (Z.eqb_spec c (ti - first + first)); lia || done. }
    bnd. rewrite !those_snoc by lia. destruct (p c) eqn:Pc; cbn [negb].
    + rewrite app_nil_r, length_app. cbn [length]. pairs; lia.
    + rewrite app_nil_r, Z.mod_small by lia. rewrite push_ok.
      * bnd. by rewrite app_assoc.
      * rewrite length_app. pose proof (those_mono (fun c => negb (p c)) first c cols ltac:(lia) ltac:(cbv beta; by rewrite Pc)). lia.
  - rewrite !those_nil by lia. by rewrite app_nil_r.
Qed.

(** ** The general method *)

Lemma gf_of_horner k d n : (forall i, (i < n)%nat -> is_byte (d i)) ->
  gf_of (horner k d n) = fsum n (fun i => gf_mul (gpow (k * (n - 1 - i))) (gf_of (d i))).
Proof.
  intros Hd. enough (H : forall e m, (e + m = n)%nat ->
    gf_mul (gpow (k * e)) (gf_of (horner k d m)) = fsum m (fun i => gf_mul (gpow (k * (n - 1 - i))) (gf_of (d i)))).
  { specialize (H 0%nat n eq_refl). rewrite Nat.mul_0_r, gpow_0 in H. rewrite <- H. ring. }
  intros e m. revert e. induction m as [|m IH]; intros e He; cbn [horner fsum].
  - change (gf_of 0) with gf_0. ring.
  - rewrite <- (IH (S e)) by lia.
    rewrite gf_of_lxor, gf_of_mulp;
      [|apply horner_byte; intros; apply Hd; lia|apply mulp_byte, horner_byte; intros; apply Hd; lia|apply Hd; lia].
    replace (n - 1 - m)%nat with e by lia. replace (k * S e)%nat with (k * e + k)%nat by lia. rewrite gpow_add. ring.
Qed.

(** Any array of rows of bytes is a matrix. *)
Lemma tab_mat t n (f : nat -> list Z) :
  (forall i, (i < t)%nat -> length (f i) = n /\ Forall is_byte (f i)) ->
  tab t f = mat t n (fun i j => gf_of (nth j (f i) 0)).
Proof.
  intros H. unfold mat. apply tab_ext. intros i Hi. destruct (H i Hi) as [Hl Hb].
  rewrite <- (tab_nth (f i)) at 1. rewrite Hl. apply tab_ext. intros j Hj. by rewrite gval_of by (by apply nth_byte).
Qed.

Lemma Forall2_tab {A B} (P : A -> B -> Prop) n f g : (forall k, (k < n)%nat -> P (f k) (g k)) -> Forall2 P (tab n f) (tab n g).
Proof.
  intros H. unfold tab. apply Forall2_fmap_2. apply Forall_Forall2_diag. apply List.Forall_forall. intros k Hk%in_seq. apply H. lia.
Qed.

Lemma map_seqZ {A} (f : Z -> A) t : map f (seqZ 0 (Z.of_nat t)) = tab t (fun i => f (Z.of_nat i)).
Proof.
  unfold seqZ, tab. rewrite Nat2Z.id. rewrite <- list_fmap_compose. apply map_ext. intros i. cbn. f_equal. lia.
Qed.

Lemma tab_list (l : list Z) : l = tab (length l) (fun i => nth i l 0).
Proof. symmetry. apply tab_nth. Qed.

Section general.
Context (kmem_alloc : Z -> list Z).
Context (Hkmem : forall n, 0 <= n -> zlen (kmem_alloc n) = n /\ Forall is_byte (kmem_alloc n)).
Context (o rm : raidz_map) (p : Z -> bool).
Context (Hwfo : rm_wf o) (Hwf : rm_wf rm) (Hdam : damaged p o rm).
Abbreviation first := (rm_firstdatacol o).
Abbreviation cols := (rm_cols o).
Abbreviation good := (fun c => negb (p c)).
Context (Hfew : zlen (those p 0 cols) <= first).

Abbreviation bd := (those p first cols).
Abbreviation t := (length bd).
Abbreviation n := (Z.to_nat (cols - first)).
Definition gp : list Z := those good 0 first.
Definition gd : list Z := those good first cols.
Definition mi (k : nat) : nat := Z.to_nat (nth k bd 0 - first).
Definition pm (i : nat) : nat := Z.to_nat (nth i gp 0).
Definition uj (j : nat) : nat := Z.to_nat (nth (j - t) gd 0 - first).
Definition ucol (i : nat) : Z := if decide (i < t)%nat then Z.of_nat (pm i) else first + Z.of_nat (uj i).

Lemma counts : (t <= length gp)%nat /\ (t + length gd)%nat = n /\ 1 <= first <= 3 /\ first < cols <= 255.
Proof using Hwfo Hfew.
  pose proof (wf_np _ Hwfo). pose proof (wf_first _ Hwfo).
  pose proof (those_length p 0 first ltac:(lia)) as H1. pose proof (those_length p first cols ltac:(lia)) as H2.
  rewrite (those_split p 0 first cols), length_app in Hfew by lia. unfold gp, gd. lia.
Qed.

Lemma nth_bd k : (k < t)%nat -> nth k bd 0 = first + Z.of_nat (mi k) /\ (mi k < n)%nat /\ p (first + Z.of_nat (mi k)) = true.
Proof.
  intros Hk. assert (H : In (nth k bd 0) bd) by (by apply nth_In). apply in_those in H as [H Hp].
  unfold mi. replace (first + Z.of_nat (Z.to_nat (nth k bd 0 - first))) with (nth k bd 0) by lia. split_and!; [done|lia|done].
Qed.

Lemma nth_gp i : (i < length gp)%nat -> nth i gp 0 = Z.of_nat (pm i) /\ Z.of_nat (pm i) < first /\ p (Z.of_nat (pm i)) = false.
Proof.
  intros Hi. assert (H : In (nth i gp 0) gp) by (by apply nth_In). apply in_those in H as [H Hp].
  unfold pm. rewrite Z2Nat.id by lia. split_and!; [done|lia|]. cbv beta in Hp. by apply negb_true_iff.
Qed.

Lemma nth_gd j : (t <= j < n)%nat -> (t + length gd)%nat = n ->
  nth (j - t) gd 0 = first + Z.of_nat (uj j) /\ (uj j < n)%nat /\ p (first + Z.of_nat (uj j)) = false.
Proof.
  intros Hj Hn. assert (H : In (nth (j - t) gd 0) gd) by (apply nth_In; lia). apply in_those in H as [H Hp].
  unfold uj. replace (first + Z.of_nat (Z.to_nat (nth (j - t) gd 0 - first))) with (nth (j - t) gd 0) by lia.
  split_and!; [done|lia|]. cbv beta in Hp. by apply negb_true_iff.
Qed.

Lemma pm_sorted : pm_ok t pm.
Proof using Hwfo Hfew.
  destruct counts as (Ht & Hn & Hf & Hc). rewrite (those_split p 0 first cols), length_app in Hfew by lia.
  split_and!.
  - lia.
  - intros i Hi. destruct (nth_gp i) as (_ & ? & _); lia.
  - intros i j Hij Hj. destruct (nth_gp i) as (Ei & _); [lia|]. destruct (nth_gp j) as (Ej & _); [lia|].
    pose proof (sorted_nth gp i j (those_sorted _ _ _) Hij ltac:(lia)). lia.
Qed.

Lemma sorted_inj l i j : StronglySorted Z.lt l -> (i < length l)%nat -> (j < length l)%nat -> nth i l 0 = nth j l 0 -> i = j.
Proof.
  intros Hs Hi Hj E. destruct (Nat.lt_trichotomy i j) as [H|[H|H]]; [|done|];
    [pose proof (sorted_nth l i j Hs H Hj)|pose proof (sorted_nth l j i Hs H Hi)]; lia.
Qed.

Lemma mi_inj j k : (j < t)%nat -> (k < t)%nat -> mi j = mi k -> j = k.
Proof.
  intros Hj Hk E. apply (sorted_inj bd); [apply those_sorted|done|done|].
  destruct (nth_bd j Hj) as (-> & _). destruct (nth_bd k Hk) as (-> & _). lia.
Qed.

Lemma uj_inj j k : (t <= j < n)%nat -> (t <= k < n)%nat -> uj j = uj k -> j = k.
Proof using Hwfo Hfew.
  intros Hj Hk E. destruct counts as (_ & Hn & _).
  enough (j - t = k - t)%nat by lia. apply (sorted_inj gd); [apply those_sorted|lia|lia|].
  destruct (nth_gd j Hj Hn) as (-> & _). destruct (nth_gd k Hk Hn) as (-> & _). lia.
Qed.

Lemma uj_cover c : (c < n)%nat -> moved t uj n c <-> forall k, (k < t)%nat -> mi k <> c.
Proof using Hwfo Hfew.
  intros Hc. destruct counts as (_ & Hn & _). split.
  - intros (j & Hj & <-) k Hk E. destruct (nth_gd j Hj Hn) as (_ & _ & P1). destruct (nth_bd k Hk) as (_ & _ & P2).
    rewrite E in P2. congruence.
  - intros Hne. assert (Pc : p (first + Z.of_nat c) = false).
    { apply not_true_is_false. intros Pc. assert (Hin : In (first + Z.of_nat c) bd) by (apply in_those; split; [lia|done]).
      apply (In_nth _ _ 0) in Hin as (k & Hk & E). apply (Hne k Hk). unfold mi. lia. }
    assert (Hin : In (first + Z.of_nat c) gd) by (apply in_those; split; [lia|cbv beta; by rewrite Pc]).
    apply (In_nth _ _ 0) in Hin as (k & Hk & E). exists (t + k)%nat. split; [lia|].
    unfold uj. replace (t + k - t)%nat with k by lia. lia.
Qed.

Lemma used_ucol : exists used, general_used first cols (cols - first) (zlen bd) (map (fun c => c - first) bd) (take t gp) = Ok used /\
  forall i, (i < n)%nat -> rd used (Z.of_nat i) = Ok (ucol i).
Proof using Hwfo Hfew.
  destruct counts as (Ht & Hn & Hf & Hc). exists (take t gp ++ gd). split.
  - apply general_used_ok; [lia|lia|rewrite length_take; lia|].
    apply List.Forall_forall. intros x Hx. assert (In x gp) as Hg by (rewrite <- (firstn_skipn t gp); apply in_or_app; by left).
    apply in_those in Hg. lia.
  - intros i Hi. rewrite rd_nth by len. rewrite Nat2Z.id. f_equal. unfold ucol.
    destruct (decide (i < t)%nat).
    + rewrite app_nth1 by len. rewrite nth_firstn, (proj2 (Nat.ltb_lt i t)) by done.
      apply nth_gp. lia.
    + rewrite app_nth2 by len. rewrite length_take, Nat.min_l by lia. apply nth_gd; lia.
Qed.


Abbreviation start0 := (start t n uj (disp n pm)).
Abbreviation inv := ((elim t mi start0 t).2).


Lemma missing_tab : map (fun c => c - first) bd = tab t (fun k => Z.of_nat (mi k)).
Proof.
  rewrite (tab_list bd) at 1. unfold tab. rewrite map_map. apply map_ext_in. intros k Hk%in_seq.
  destruct (nth_bd k) as (-> & _); lia.
Qed.

Lemma bd_tab : bd = tab t (fun k => first + Z.of_nat (mi k)).
Proof.
  rewrite (tab_list bd) at 1. apply tab_ext. intros k Hk. by destruct (nth_bd k Hk) as (-> & _).
Qed.

(** The rows the allocated buffer is cut into. *)
Lemma slice_ok k : 0 <= k <= 2 * zlen bd ->
  let q := kmem_alloc (2 * zlen bd * (cols - first) + (cols - first)) in
  let s := take n (drop (Z.to_nat (k * (cols - first))) q) in length s = n /\ Forall is_byte s.
Proof using Hkmem Hwfo Hfew.
  intros Hk q s. destruct counts as (_ & _ & _ & Hc). destruct (Hkmem (2 * zlen bd * (cols - first) + (cols - first))) as [Hl Hb]; [nia|].
  fold q in Hl, Hb. split.
  - unfold s. rewrite length_take, length_drop. nia.
  - by apply Forall_take, Forall_drop.
Qed.

(** The columns the elimination reads are live ones. *)
Lemma ucol_good i : (i < n)%nat -> 0 <= ucol i < cols /\ p (ucol i) = false.
Proof using Hwfo Hfew.
  intros Hi. destruct counts as (Ht & Hn & Hf & Hc). unfold ucol. destruct (decide (i < t)%nat).
  - destruct (nth_gp i) as (_ & ? & ?); [lia|]. split; [lia|done].
  - destruct (nth_gd i) as (_ & ? & ?); [lia|done|]. split; [lia|done].
Qed.

Lemma rm_column c : 0 <= c < cols ->
  in_map rm c /\ 0 <= siz rm c /\ zlen (dat rm c) = siz rm c /\ Forall is_byte (dat rm c).
Proof using Hwf Hdam.
  intros Hc. pose proof (wf_cols _ Hwf). pose proof (dm_cols _ _ _ Hdam).
  destruct (wf_col _ Hwf c) as (? & _ & ? & ?); [lia|]. split_and!; try done; lia.
Qed.

Lemma siz_first : (0 < n)%nat -> (0 < t)%nat -> siz rm (ucol 0) = siz o 0.
Proof using Hwfo Hdam Hfew.
  intros Hn Ht. destruct counts as (Htg & _ & Hf & Hc). rewrite (dm_siz _ _ _ Hdam).
  destruct (nth_gp 0) as (_ & ? & _); [lia|]. unfold ucol. rewrite decide_True by done.
  apply (wf_psize _ Hwfo). lia.
Qed.

(** What the routine computes, whatever the parity columns hold. *)
Lemma reconstruct_general_val : exists code,
  vdev_raidz_reconstruct_general kmem_alloc rm (those p 0 cols) (zlen (those p 0 cols))
  = Ok (wdats rm bd (tab t (target rm inv mi ucol n)), code) /\ code_ok p (zlen bd) code.
Proof using All.
  destruct counts as (Ht & Hn & Hf & Hc). unfold vdev_raidz_reconstruct_general.
  rewrite (dm_first _ _ _ Hdam), (dm_cols _ _ _ Hdam).
  rewrite general_missing_ok, filter_those by lia. bnd. rewrite !length_map.
  destruct (general_parity_ok p first cols ltac:(lia) ltac:(lia) Hfew) as (code & -> & Hcode). bnd.
  rewrite Nat2Z.id. fold gp. destruct used_ucol as (used & -> & Hused). bnd.
  rewrite !map_seqZ. rewrite !(tab_mat t n) by (intros; apply slice_ok; lia).
  pose proof (matrix_init_ok t n pm (take t gp)) as Hinit.
  pose proof (fun M N => matrix_invert_ok t n mi uj first (tab t (fun k => Z.of_nat (mi k))) used M N) as Hinvert.
  pose proof (matrix_reconstruct_ok rm t n inv mi ucol (tab t (fun k => Z.of_nat (mi k))) used) as Hrec.
  rewrite Z2Nat.id in Hinit, Hinvert, Hrec by lia. rewrite Hinit.
  2: lia.
  2: { intros i Hi. split; [by apply pm_sorted|]. rewrite rd_nth by len.
       rewrite Nat2Z.id, nth_firstn, (proj2 (Nat.ltb_lt i t)) by done. f_equal. apply nth_gp. lia. }
  bnd. assert (Hmi : forall j, (j < t)%nat -> (mi j < n)%nat) by (intros j Hj; by apply nth_bd).
  assert (Huj : forall j, (t <= j < n)%nat -> (uj j < n)%nat) by (intros j Hj; by apply nth_gd).
  destruct (elim_solves t n mi uj pm) as [Hok _]; try lia; auto using pm_sorted, mi_inj, uj_inj, uj_cover.
  rewrite missing_tab. rewrite Hinvert; [|..|done]; try lia; auto using uj_inj.
  2: { intros i Hi. split; [auto|]. by rewrite rd_tab, Nat2Z.id by lia. }
  2: { intros j Hj. rewrite Hused by lia. unfold ucol. by rewrite decide_False by lia. }
  bnd. exists code. split; [|done]. unfold matP. bnd. rewrite Hrec.
  - bnd. do 3 f_equal. etransitivity; [|symmetry; apply bd_tab].
    apply tab_ext. intros k Hk. rewrite (dm_first _ _ _ Hdam). lia.
  - intros. apply inv_nz; try lia; auto using pm_sorted, mi_inj, uj_inj, uj_cover.
  - done.
  - rewrite (dm_first _ _ _ Hdam). lia.
  - intros k Hk. rewrite (dm_first _ _ _ Hdam). specialize (Hmi k Hk).
    destruct (rm_column (Z.of_nat (mi k) + first)) as (? & ? & ? & _); [lia|]. split_and!; done || lia.
  - apply mi_inj.
  - done.
  - intros i Hi. destruct (ucol_good i Hi) as [Hu Hp]. destruct (rm_column (ucol i) Hu) as (? & ? & ? & ?).
    split_and!; try done; try lia. intros k Hk E. rewrite (dm_first _ _ _ Hdam) in E.
    destruct (nth_bd k Hk) as (_ & _ & Hb). rewrite Z.add_comm, E in Hb. congruence.
  - intros k Hk Hn0. rewrite siz_first, !(dm_siz _ _ _ Hdam), (dm_first _ _ _ Hdam) by lia.
    specialize (Hmi k Hk). apply (wf_desc _ Hwfo); lia.
Qed.

Context (Hpar : forall k, 0 <= k < rm_firstdatacol o -> p k = false -> dat rm k = parity_col (Z.to_nat k) o).

(** Byte [x] of the data columns, as field elements. *)
Definition dvec (x c : nat) : gf := gf_of (cbyte o (first + Z.of_nat c) x).

Lemma uvec_bytes x j : (j < n)%nat -> Z.of_nat x < siz o 0 ->
  uvec t n uj pm (dvec x) j = gf_of (cbyte rm (ucol j) x).
Proof using Hwfo Hdam Hpar Hfew.
  intros Hj Hx. destruct counts as (Ht & Hn & Hf & Hc). unfold uvec, ucol.
  destruct (decide (j < t)%nat) as [Hjt|Hjt].
  - destruct (nth_gp j ltac:(lia)) as (_ & Hlt & Hp).
    unfold cbyte. rewrite (dm_siz _ _ _ Hdam), (wf_psize _ Hwfo) by lia. case_if as E; [|lia].
    rewrite Hpar by (done || lia). rewrite Nat2Z.id, nth_parity by lia.
    unfold par, ndata, disp, dvec. rewrite gf_of_horner; [done|].
    intros i Hi. apply cbyte_byte, (wf_col _ Hwfo). lia.
  - destruct (nth_gd j ltac:(lia) Hn) as (_ & Hlt & Hp). unfold dvec, cbyte.
    rewrite (dm_siz _ _ _ Hdam), (dm_dat _ _ _ Hdam); [done|lia|done].
Qed.

Lemma target_dat k : (k < t)%nat -> target rm inv mi ucol n k = dat o (first + Z.of_nat (mi k)).
Proof using Hwfo Hdam Hpar Hfew.
  intros Hk. destruct counts as (Ht & Hn & Hf & Hc). destruct (nth_bd k Hk) as (_ & Hm & _).
  destruct (wf_col _ Hwfo (first + Z.of_nat (mi k))) as (_ & _ & Hl & Hb); [lia|].
  pose proof (wf_desc _ Hwfo 0 (first + Z.of_nat (mi k)) ltac:(lia) ltac:(lia)) as Hd.
  unfold target. rewrite decide_False by lia. rewrite (dm_first _ _ _ Hdam), (dm_siz _ _ _ Hdam).
  rewrite (Z.add_comm _ first). rewrite <- (tab_cbyte o (first + Z.of_nat (mi k))) by done.
  apply tab_ext. intros x Hx. rewrite <- (gval_of (cbyte o _ x)) by (by apply cbyte_byte). f_equal.
  change (gf_of (cbyte o (first + Z.of_nat (mi k)) x)) with (dvec x (mi k)).
  rewrite <- (inv_solves t n mi uj pm) with (D := dvec x); try done; try lia.
  - apply fsum_ext. intros i Hi. f_equal. symmetry. apply uvec_bytes; [done|lia].
  - apply pm_sorted.
  - intros j Hj. by apply nth_bd.
  - apply mi_inj.
  - intros j Hj. by apply nth_gd.
  - apply uj_inj.
  - apply uj_cover.
Qed.

Lemma reconstruct_general_ok : exists code,
  vdev_raidz_reconstruct_general kmem_alloc rm (those p 0 cols) (zlen (those p 0 cols))
  = Ok (wdats rm bd (map (dat o) bd), code) /\ code_ok p (zlen bd) code.
Proof using All.
  destruct reconstruct_general_val as (code & -> & Hcode). exists code. split; [|exact Hcode]. do 3 f_equal.
  transitivity (map (dat o) (tab t (fun k => first + Z.of_nat (mi k)))); [|f_equal; symmetry; apply bd_tab].
  unfold tab. rewrite map_map. apply map_ext_in. intros k Hk%in_seq. apply target_dat. lia.
Qed.
End general.
End RaidzSolve.
