(* ===== verification/RaidzRepair.v ===== *)
(** The choice between the RAID-Z reconstruction routines, and the correctness
    of [vdev_raidz_reconstruct]: every set of at most as many bad columns as
    there are parity columns is recovered, whichever routine is picked. *)

From S2P Require Import Prelude Galois RaidzMap RaidzParity RaidzReconstruct RaidzGeneral RaidzSolve.
From Stdlib Require Import Sorted.
Import Galois RaidzMap RaidzParity RaidzReconstruct RaidzGeneral RaidzSolve.
Open Scope Z_scope.

Module RaidzRepair.

(** [rm] is the stripe [o] as read back: the same layout, and the same contents
    in every column, parity included, that is neither a target nor failed. *)
Definition readback (o rm : raidz_map) (t : list Z) : Prop :=
  rm_cols rm = rm_cols o /\ rm_firstdatacol rm = rm_firstdatacol o /\ (forall c, siz rm c = siz o c) /\
  forall c, 0 <= c < rm_cols o -> bad rm t c = false -> dat rm c = dat o c.

Lemma drop_those p lo mid hi : lo <= mid <= hi -> drop (Z.to_nat (zlen (those p lo mid))) (those p lo hi) = those p mid hi.
Proof. intros H. rewrite (those_split p lo mid hi) by lia. rewrite Nat2Z.id. apply drop_app_length. Qed.

Lemma sorted_distinct l : StronglySorted Z.lt l -> Forall (Z.le 0) l -> distinct l.
Proof.
  intros Hs Hp. split; [|done]. clear Hp. induction Hs as [|x l Hs IH Hf]; [constructor|]. constructor; [|done].
  intros Hx%list_elem_of_In. rewrite List.Forall_forall in Hf. apply Hf in Hx. lia.
Qed.

(** ** The choice of a routine *)

Section dispatch.
Context (kmem_alloc zio_buf_alloc : Z -> list Z) (default_to_general : bool).
Context (rm : raidz_map) (t : list Z) (Hwf : rm_wf rm).
Context (Hsort : StronglySorted Z.lt t) (Hpos : Forall (Z.le 0) t).
Abbreviation first := (rm_firstdatacol rm).
Abbreviation cols := (rm_cols rm).
Abbreviation p := (bad rm t).
Context (Hfew : zlen (those p 0 cols) <= first).
Abbreviation bd := (those p first cols).

Lemma rd_valid k : 0 <= k < first -> rd (valid rm t first) k = Ok (negb (p k)).
Proof.
  intros Hk. pose proof (length_valid rm t first ltac:(lia)) as L.
  destruct (rd_in_bounds (valid rm t first) k) as (v & -> & Hv); [lia|]. f_equal. unfold valid in Hv.
  change (map ?f ?l) with (f <$> l) in Hv. rewrite list_lookup_fmap, lookup_seqZ_lt in Hv by lia.
  cbn in Hv. injection Hv as <-. by rewrite Z2Nat.id by lia.
Qed.

Lemma in_bd x : In x bd -> first <= x < cols /\ p x = true.
Proof. by intros Hx%in_those. Qed.

Lemma two_bad x y : bd = [x; y] -> first <= x < y /\ y < cols.
Proof.
  intros E. pose proof (those_sorted p first cols) as S. rewrite E in S.
  destruct (in_bd x) as [Hx _]; [rewrite E; by left|]. destruct (in_bd y) as [Hy _]; [rewrite E; by right; left|].
  apply StronglySorted_inv in S as [_ S]. apply Forall_inv in S. lia.
Qed.

(** At least as many bad columns as were found in a part of the stripe. *)
Lemma bad_parity : zlen bd + zlen (those p 0 first) <= first.
Proof using Hwf Hfew.
  pose proof (wf_np _ Hwf). pose proof (wf_first _ Hwf).
  rewrite (those_split p 0 first cols), length_app in Hfew by lia. lia.
Qed.

Lemma bad_counts k : 0 <= k < first -> p k = true -> zlen bd + 1 <= first.
Proof using Hwf Hfew.
  intros Hk Hp. pose proof bad_parity. pose proof (those_mono p 0 k first ltac:(lia) Hp). lia.
Qed.

(** The routine picked, and what is known of the bad columns when it is. *)
Lemma reconstruct_dispatch (P : res (raidz_map * Z) -> Prop) :
  P (vdev_raidz_reconstruct_general kmem_alloc rm (those p 0 cols) (zlen (those p 0 cols))) ->
  (forall x, bd = [x] -> p 0 = false -> P (vdev_raidz_reconstruct_p rm [x])) ->
  (forall x, bd = [x] -> 2 <= first -> p 1 = false -> P (vdev_raidz_reconstruct_q rm [x])) ->
  (forall x y, bd = [x; y] -> 2 <= first -> p 0 = false -> p 1 = false ->
    P (vdev_raidz_reconstruct_pq zio_buf_alloc rm [x; y])) ->
  P (vdev_raidz_reconstruct kmem_alloc zio_buf_alloc default_to_general rm t (zlen t)).
Proof using All.
  intros Hg Hp Hq Hpq. pose proof (wf_np _ Hwf). pose proof (wf_first _ Hwf). pose proof (wf_cols _ Hwf).
  pose proof bad_parity as Hbp. unfold vdev_raidz_reconstruct.
  rewrite reconstruct_scan_ok by (done || lia). bnd. rewrite drop_those by lia.
  destruct default_to_general; [exact Hg|].
  case_if as E1; [|case_if as E2; [|exact Hg]].
  - destruct bd as [|x [|? ?]] eqn:Eb; cbn [length] in E1; try lia.
    rewrite (rd_valid VDEV_RAIDZ_P) by (unfold VDEV_RAIDZ_P; lia). bnd.
    destruct (p VDEV_RAIDZ_P) eqn:P0; cbn [negb]; [|by apply Hp].
    pose proof (bad_counts 0 ltac:(lia) P0) as Hc. rewrite Eb in Hc. cbn [length] in Hc.
    rewrite (rd_valid VDEV_RAIDZ_Q) by (unfold VDEV_RAIDZ_Q; lia). bnd.
    destruct (p VDEV_RAIDZ_Q) eqn:P1; cbn [negb]; [exact Hg|]. apply Hq; done || lia.
  - destruct bd as [|x [|y [|? ?]]] eqn:Eb; cbn [length] in E2, Hbp; try lia.
    rewrite (rd_valid VDEV_RAIDZ_P) by (unfold VDEV_RAIDZ_P; lia). bnd.
    destruct (p VDEV_RAIDZ_P) eqn:P0; cbn [negb]; bnd; [exact Hg|].
    rewrite (rd_valid VDEV_RAIDZ_Q) by (unfold VDEV_RAIDZ_Q; lia). bnd.
    destruct (p VDEV_RAIDZ_Q) eqn:P1; cbn [negb]; [exact Hg|]. apply Hpq; done || lia.
Qed.

Lemma code_p : p 0 = false -> code_ok p 1 1.
Proof. intros H0. split_and!; try lia. intros i Hi Hb. destruct i as [|[]|]; done || lia. Qed.
Lemma code_q : p 1 = false -> code_ok p 1 2.
Proof. intros H0. split_and!; try lia. intros i Hi Hb. destruct i as [|[[]|[]|]|]; done || lia. Qed.
Lemma code_pq : p 0 = false -> p 1 = false -> code_ok p 2 3.
Proof. intros H0 H1. split_and!; try lia. intros i Hi Hb. destruct i as [|[[]|[]|]|]; done || lia. Qed.
End dispatch.

Section repair.
Context (kmem_alloc zio_buf_alloc : Z -> list Z) (default_to_general : bool).
Context (Hkmem : allocates kmem_alloc) (Hzio : allocates zio_buf_alloc).
Context (rm : raidz_map) (t : list Z) (Hwf : rm_wf rm).
Context (Hsort : StronglySorted Z.lt t) (Hpos : Forall (Z.le 0) t).
Abbreviation p := (bad rm t).
Abbreviation bdr := (those p (rm_firstdatacol rm) (rm_cols rm)).
Context (Hfewr : zlen (those p 0 (rm_cols rm)) <= rm_firstdatacol rm).

(** Reconstruction returns whatever the columns hold, and changes nothing but
    the content of the bad data columns. *)
Lemma reconstruct_total : exists ds code,
  vdev_raidz_reconstruct kmem_alloc zio_buf_alloc default_to_general rm t (zlen t) = Ok (wdats rm bdr ds, code) /\
  Forall2 (fun c d => zlen d = siz rm c /\ Forall is_byte d) bdr ds /\ code_ok p (zlen bdr) code.
Proof using All.
  pose proof (wf_np _ Hwf). pose proof (wf_first _ Hwf).
  assert (Hsz : forall c, 0 <= c < rm_cols rm -> 0 <= siz rm c) by (intros; by apply (wf_col _ Hwf)).
  assert (Htab : forall c f, 0 <= c < rm_cols rm -> (forall j, is_byte (f j)) ->
    zlen (tab (Z.to_nat (siz rm c)) f) = siz rm c /\ Forall is_byte (tab (Z.to_nat (siz rm c)) f)).
  { intros c f Hc Hf. specialize (Hsz c Hc). rewrite length_tab. split; [lia|]. apply Forall_tab. auto. }
  assert (Hn : forall c j, 0 <= c < rm_cols rm -> is_byte (nth j (dat rm c) 0))
    by (intros c j Hc; apply nth_byte; by apply (wf_col _ Hwf)).
  assert (Hpx : forall k ex j, is_byte (parx k rm ex (ndata rm) j))
    by (intros; apply parx_byte; [done|unfold ndata; lia]).
  apply reconstruct_dispatch; try done.
  - destruct (reconstruct_general_val kmem_alloc Hkmem rm rm p Hwf Hwf) as (code & E & Hcode); [by split|done|].
    eexists _, code. split; [exact E|]. split; [|exact Hcode].
    rewrite (bd_tab rm p) at 1. apply Forall2_tab. intros k Hk. destruct (nth_bd rm p k Hk) as (_ & Hm & _).
    unfold target. rewrite decide_False by lia. rewrite Z.add_comm. apply Htab; [lia|]. intros; apply gval_byte.
  - intros x Eb P0. destruct (in_bd rm t x) as [Hx _]; [rewrite Eb; by left|].
    rewrite (reconstruct_p_val rm x) by (done || lia). rewrite Eb. eexists [_], 1. split; [done|].
    split; [|by apply code_p]. constructor; [|constructor]. apply Htab; [lia|].
    intros j. apply lxor_byte; [apply Hn; lia|apply Hpx].
  - intros x Eb H2 P1. destruct (in_bd rm t x) as [Hx _]; [rewrite Eb; by left|].
    rewrite (reconstruct_q_val rm x) by (done || lia). rewrite Eb. eexists [_], 2. split; [done|].
    split; [|by apply code_q]. constructor; [|constructor]. apply Htab; [lia|].
    intros j. apply mulp_byte, lxor_byte; [apply Hpx|apply Hn; lia].
  - intros x y Eb H2 P0 P1. destruct (two_bad rm t x y Eb) as [Hx Hy].
    destruct (pq_exps_ok (rm_cols rm) x y) as (ea & eb & He & Ha & Hb & _); [lia..|].
    rewrite (reconstruct_pq_val _ Hzio rm x y Hwf ltac:(lia) ltac:(lia) ltac:(lia) [x; y] ea eb) by done.
    rewrite Eb. eexists [_; _], 3. split; [done|]. split; [|by apply code_pq].
    constructor; [|constructor; [|constructor]]; (apply Htab; [lia|]); intros j.
    + apply gval_byte.
    + unfold soly. apply lxor_byte; [|apply gval_byte]. apply lxor_byte; [apply Hn; lia|].
      apply nth_byte, Forall_tab. intros; apply Hpx.
Qed.

(** ** Correctness *)

Context (o : raidz_map) (Hwfo : rm_wf o) (Hpo : parity_ok o) (Hrb : readback o rm t).
Abbreviation first := (rm_firstdatacol o).
Abbreviation cols := (rm_cols o).
Abbreviation bd := (those p first cols).

Lemma readback_damaged q : (forall c, first <= c < cols -> p c = true -> q c = true) -> damaged q o rm.
Proof using Hrb Hwfo.
  destruct Hrb as (Hc & Hf & Hs & Hd). intros Hq. split; try done. intros c Hr Ec. pose proof (wf_np _ Hwfo).
  apply Hd; [lia|]. destruct (p c) eqn:E; [|done]. apply Hq in E; [congruence|done].
Qed.

Lemma readback_parity k : 0 <= k < first -> p k = false -> dat rm k = parity_col (Z.to_nat k) o.
Proof using Hrb Hpo Hwfo.
  intros Hk Hp. pose proof (wf_first _ Hwfo). destruct Hrb as (_ & _ & _ & Hd). rewrite Hd by (done || lia). by apply Hpo.
Qed.

Lemma reconstruct_ok : exists code,
  vdev_raidz_reconstruct kmem_alloc zio_buf_alloc default_to_general rm t (zlen t) = Ok (wdats rm bd (map (dat o) bd), code) /\
  code_ok p (zlen bd) code.
Proof using All.
  pose proof (wf_np _ Hwfo). pose proof (wf_first _ Hwfo). pose proof Hrb as (Ec & Ef & Es & Hd).
  assert (Eb : those p (rm_firstdatacol rm) (rm_cols rm) = bd) by (by rewrite Ec, Ef).
  apply reconstruct_dispatch; try done; rewrite ?Eb.
  - rewrite Ec. apply reconstruct_general_ok; auto using readback_damaged, readback_parity. by rewrite Ec, Ef in Hfewr.
  - intros x E P0. destruct (in_bd rm t x) as [Hx _]; [rewrite Eb, E; by left|]. rewrite E. exists 1.
    split; [|by apply code_p]. rewrite (reconstruct_p_ok o rm x); try done; try lia.
    + apply readback_damaged. intros c Hc Hp. apply Z.eqb_eq. assert (Hin : In c bd) by (by apply in_those).
      rewrite E in Hin. by destruct Hin as [->|[]].
    + by rewrite readback_parity by (done || lia).
  - intros x E H2 P1. destruct (in_bd rm t x) as [Hx _]; [rewrite Eb, E; by left|]. rewrite E. exists 2.
    split; [|by apply code_q]. rewrite (reconstruct_q_ok o rm x); try done; try lia.
    + apply readback_damaged. intros c Hc Hp. apply Z.eqb_eq. assert (Hin : In c bd) by (by apply in_those).
      rewrite E in Hin. by destruct Hin as [->|[]].
    + by rewrite readback_parity by (done || lia).
  - intros x y E H2 P0 P1. destruct (two_bad rm t x y) as [Hx Hy]; [by rewrite Eb|]. rewrite E. exists 3.
    split; [|by apply code_pq]. rewrite (reconstruct_pq_ok _ Hzio o rm x y); try done; try lia.
    + apply readback_damaged. intros c Hc Hp. assert (Hin : In c bd) by (by apply in_those).
      rewrite E in Hin. destruct Hin as [->|[->|[]]]; rewrite Z.eqb_refl; [done|apply orb_true_r].
    + by rewrite readback_parity by (done || lia).
    + by rewrite readback_parity by (done || lia).
Qed.

(** The data columns of the outcome are those of the original. *)
Lemma dat_result c : 0 <= c < cols ->
  dat (wdats rm bd (map (dat o) bd)) c = if first <=? c then dat o c else dat rm c.
Proof using Hwfo Hwf Hrb.
  intros Hc. pose proof (wf_np _ Hwfo). pose proof (wf_cols _ Hwf). destruct Hrb as (Ec & _ & _ & Hd).
  destruct (in_dec Z.eq_dec c bd) as [Hin|Hout].
  - assert (D : distinct bd).
    { apply sorted_distinct; [apply those_sorted|]. apply List.Forall_forall. intros x Hx%in_those. lia. }
    pose proof Hin as Hr. apply in_those in Hr as [Hr _]. rewrite (proj2 (Z.leb_le _ _)) by lia.
    assert (E : map (dat (wdats rm bd (map (dat o) bd))) bd = map (dat o) bd).
    { apply map_dat_wdats; [done| |by rewrite length_map]. apply List.Forall_forall. intros x Hx%in_those. lia. }
    by apply (ext_in_map E).
  - rewrite dat_wdats_ne; [|lia|].
    + case_if as F; [|done]. apply Hd; [done|]. apply not_true_is_false. intros Hp. apply Hout, in_those. split; [lia|done].
    + apply List.Forall_forall. intros x Hx. pose proof Hx as Hr. apply in_those in Hr. split; [lia|]. by intros ->.
Qed.
End repair.

(** C6: RAID-Z recovers from every loss it is built for.  Let [o] be a stripe
    whose parity is right, and [rm] the stripe as read back with any contents
    in its bad columns, the given targets and those whose I/O failed.  If there
    are no more bad columns than parity columns, [vdev_raidz_reconstruct]
    returns, with every data column as it was in [o] and every parity column as
    it was read, whichever of the routines it selects or is told to use; the
    code it returns is an index of the statistics array. *)
Theorem vdev_raidz_reconstruct_correct kmem_alloc zio_buf_alloc default_to_general o rm t :
  allocates kmem_alloc -> allocates zio_buf_alloc ->
  rm_wf o -> parity_ok o -> rm_wf rm -> readback o rm t ->
  StronglySorted Z.lt t -> Forall (Z.le 0) t ->
  zlen (those (bad rm t) 0 (rm_cols o)) <= rm_firstdatacol o ->
  exists rm' code,
    vdev_raidz_reconstruct kmem_alloc zio_buf_alloc default_to_general rm t (zlen t) = Ok (rm', code) /\
    0 <= code < Z.shiftl 1 VDEV_RAIDZ_MAXPARITY /\
    (forall c, rm_firstdatacol o <= c < rm_cols o -> dat rm' c = dat o c) /\
    (forall c, 0 <= c < rm_firstdatacol o -> dat rm' c = dat rm c) /\
    (forall c, siz rm' c = siz rm c).
Proof.
  intros Hk Hz Hwfo Hpo Hwf Hrb Hs Hp Hfew. pose proof (wf_np _ Hwfo). pose proof (wf_first _ Hwfo).
  assert (Hfew' : zlen (those (bad rm t) 0 (rm_cols rm)) <= rm_firstdatacol rm)
    by (by destruct Hrb as (-> & -> & _)).
  destruct (reconstruct_ok kmem_alloc zio_buf_alloc default_to_general Hk Hz rm t Hwf Hs Hp Hfew' o Hwfo Hpo Hrb)
    as (code & E & Hcode & _).
  eexists _, code. split; [exact E|]. split_and!; [lia|exact (proj2 Hcode)|..]; intros c; [intros Hc..|apply siz_wdats];
    rewrite (dat_result rm t Hwf o Hwfo Hrb) by (done || lia).
  - by rewrite (proj2 (Z.leb_le _ _)) by lia.
  - by rewrite (proj2 (Z.leb_gt _ _)) by lia.
Qed.

(** The example stripe with its parity, and the same stripe with two data
    columns garbled and a parity column that could not be read. *)
Definition ex_full : raidz_map :=
  match vdev_raidz_generate_parity ex_map with Ok rm => rm | Fault _ => ex_map end.
Definition ex_lost : raidz_map :=
  ualt (wdat (wdat ex_full 3 (replicate 16 7)) 5 (replicate 8 9)) 1
    (fun rc => set_rc_error 5 (set_rc_data (replicate 16 1) rc)).
Definition ex_alloc (n : Z) : list Z := replicate (Z.to_nat n) 90.

Lemma ex_alloc_ok : allocates ex_alloc.
Proof.
  intros n Hn. unfold ex_alloc. rewrite length_replicate. split; [lia|]. apply Forall_replicate. by vm_compute.
Qed.

(** A map and a damaged copy of it, compared column by column. *)
Definition readbackb (o rm : raidz_map) (t : list Z) : bool :=
  (rm_cols rm =? rm_cols o) && (rm_firstdatacol rm =? rm_firstdatacol o) &&
  bool_decide (map rc_size (rm_col rm) = map rc_size (rm_col o)) &&
  forallb (fun c => bad rm t c || bool_decide (dat rm c = dat o c)) (seqZ 0 (rm_cols o)).

Lemma siz_map rm c : siz rm c = match map rc_size (rm_col rm) !! Z.to_nat c with Some n => n | None => 0 end.
Proof. unfold siz. change (map rc_size ?l) with (rc_size <$> l). rewrite list_lookup_fmap. by destruct (_ !! _). Qed.

Lemma readbackb_ok o rm t : readbackb o rm t = true -> readback o rm t.
Proof.
  unfold readbackb. rewrite !andb_true_iff, !Z.eqb_eq, bool_decide_eq_true, forallb_forall.
  intros [[[Hc Hf] Hs] Hd]. split_and!; [done|done|intros c; by rewrite !siz_map, Hs|].
  intros c Hr Hb. specialize (Hd c). rewrite Hb in Hd. cbn [orb] in Hd.
  apply bool_decide_eq_true in Hd; [done|]. apply list_elem_of_In, elem_of_seqZ. lia.
Qed.

Definition parity_okb (rm : raidz_map) : bool :=
  forallb (fun k => bool_decide (dat rm k = parity_col (Z.to_nat k) rm)) (seqZ 0 (rm_firstdatacol rm)).

Lemma parity_okb_ok rm : parity_okb rm = true -> parity_ok rm.
Proof.
  unfold parity_okb. rewrite forallb_forall. intros H k Hk. eapply bool_decide_eq_true_1, H.
  apply list_elem_of_In, elem_of_seqZ. lia.
Qed.

Lemma vdev_raidz_reconstruct_correct_witness : exists rm' code,
  vdev_raidz_reconstruct ex_alloc ex_alloc false ex_lost [3; 5] 2 = Ok (rm', code) /\
  (forall c, 3 <= c < 6 -> dat rm' c = dat ex_full c).
Proof.
  destruct (vdev_raidz_reconstruct_correct ex_alloc ex_alloc false ex_full ex_lost [3; 5]) as (rm' & code & E & _ & H & _).
  - exact ex_alloc_ok.
  - exact ex_alloc_ok.
  - apply rm_wfb_wf. vm_compute. reflexivity.
  - apply parity_okb_ok. vm_compute. reflexivity.
  - apply rm_wfb_wf. vm_compute. reflexivity.
  - apply readbackb_ok. vm_compute. reflexivity.
  - repeat constructor.
  - repeat constructor; vm_compute; discriminate.
  - vm_compute. discriminate.
  - exists rm', code. split; [exact E|exact H].
Defined.

End RaidzRepair.
