(* ===== verification/RaidzLayout.v ===== *)
(** The layout of a RAID-Z I/O (module/zfs/vdev_raidz.c): the map
    [vdev_raidz_map_alloc] builds is well formed, splits the caller's buffer,
    accounts for exactly the space [vdev_raidz_asize] reserves, and touches the
    device sectors of its own address range only. *)

From S2P Require Import Prelude RaidzMap RaidzParity.
Import RaidzMap RaidzParity.
Open Scope Z_scope.

Module RaidzLayout.

Lemma sector_size sh : 3 <= sh <= 30 -> 8 <= 2 ^ sh <= 2 ^ 30 /\ 2 ^ sh mod 8 = 0.
Proof.
  intros Hsh.
  replace sh with (3 + (sh - 3)) by lia. rewrite Z.pow_add_r by lia. change (2 ^ 3) with 8.
  assert (1 <= 2 ^ (sh - 3)) by (apply (Z.pow_le_mono_r 2 0); lia).
  assert (2 ^ (sh - 3) <= 2 ^ 27) by (apply Z.pow_le_mono_r; lia).
  split; [lia|]. rewrite Z.mul_comm. apply Z.mod_mul. lia.
Qed.

Lemma small x : 0 <= x < 2 ^ 64 -> u64 x = x.
Proof. intros. by apply Z.mod_small. Qed.

Lemma roundup_small x y : 0 <= x < 2 ^ 62 -> 0 < y < 2 ^ 62 -> roundup x y = (x + (y - 1)) / y * y /\ x <= roundup x y < x + y.
Proof.
  intros Hx Hy. unfold roundup. rewrite (small (x + (y - 1))) by lia.
  pose proof (Z.div_mod (x + (y - 1)) y ltac:(lia)). pose proof (Z.mod_pos_bound (x + (y - 1)) y ltac:(lia)).
  rewrite small by nia. split; [done|]. nia.
Qed.

Section layout.
Context (sh dcols np b s : Z).
Context (Hsh : 3 <= sh <= 30) (Hnp : 1 <= np <= 3) (Hdc : np < dcols <= 255).
Abbreviation U := (2 ^ sh).
Context (Hb : 0 <= b) (Hoff : b * U < 2 ^ 62) (Hs : 0 < s) (Hsize : s * U <= 2 ^ 32).

(** The quantities of the source. *)
Abbreviation n := (dcols - np).
Definition q : Z := s / n.
Definition r : Z := s - q * n.
Definition bc : Z := if r =? 0 then 0 else r + np.
Definition acols : Z := if q =? 0 then bc else dcols.
Definition scols : Z := if q =? 0 then Z.min dcols (roundup bc (np + 1)) else dcols.
(** The sectors of column [c], and those of the columns before it. *)
Definition sec (c : Z) : Z := if acols <=? c then 0 else if c <? bc then q + 1 else q.
Definition secs (c : Z) : Z := q * Z.min c acols + Z.min c bc.
Abbreviation tot := (secs acols).

Lemma unit_facts : 8 <= U <= 2 ^ 30 /\ U mod 8 = 0.
Proof using Hsh. by apply sector_size. Qed.

Lemma q_facts : 0 <= q <= s /\ 0 <= r < n /\ s = q * n + r /\ (q = 0 -> r = s).
Proof using All.
  unfold r, q. pose proof (Z.div_mod s n ltac:(lia)). pose proof (Z.mod_pos_bound s n ltac:(lia)).
  assert (0 <= s / n) by (apply Z.div_pos; lia). assert (s / n <= s) by (apply Z.div_le_upper_bound; nia).
  split_and!; nia.
Qed.

Lemma bc_facts : (bc = 0 /\ r = 0 /\ 0 < q) \/ (bc = r + np /\ 0 < r).
Proof using All. destruct q_facts as (? & ? & ? & ?). unfold bc. case_if as E; lia. Qed.

Lemma cols_facts : np < acols <= scols /\ scols <= dcols /\ bc <= acols /\ (acols = dcols \/ (acols = bc /\ q = 0)).
Proof using All.
  destruct q_facts as (? & ? & ? & ?). destruct bc_facts as [?|?]; unfold acols, scols; case_if as E;
    destruct (roundup_small bc (np + 1)) as [_ ?]; try lia; split_and!; lia.
Qed.

Lemma tot_eq : tot = s + np * (q + (if r =? 0 then 0 else 1)).
Proof using All.
  destruct q_facts as (? & ? & E & ?). destruct cols_facts as (? & ? & ? & Hac). unfold secs.
  rewrite Z.min_id, Z.min_r by lia. destruct bc_facts as [(-> & Er & ?)|(-> & ?)]; case_if as F; try lia;
  destruct Hac as [->|(-> & Eq)]; nia.
Qed.

Lemma secs_step c : 0 <= c -> secs (c + 1) = secs c + sec c.
Proof using All.
  intros Hc. destruct cols_facts as (? & ? & ? & ?). unfold secs, sec. case_ifs.
  - rewrite !(Z.min_r _ acols), !(Z.min_r _ bc) by lia. lia.
  - rewrite !(Z.min_l _ acols), !(Z.min_l _ bc) by lia. lia.
  - rewrite !(Z.min_l _ acols), !(Z.min_r _ bc) by lia. lia.
Qed.

Lemma tot_bound : 0 < tot /\ tot <= 4 * s + 3.
Proof using All. rewrite tot_eq. destruct q_facts as (? & ? & ? & ?). case_if as E; nia. Qed.

(** Column [c] without its buffer: sector [b + c] of the vdev, row-major. *)
Definition col0 (c : Z) : raidz_col :=
  RC ((b + c) mod dcols) ((b + c) / dcols * U) (sec c * U) [] None 0 false false.

Lemma sec_bound c : 0 <= sec c <= s + 1.
Proof using All. destruct q_facts as (? & _). unfold sec. case_ifs; lia. Qed.

Lemma alloc_col c : 0 <= c < scols ->
  map_alloc_col sh dcols (b mod dcols) (u64 (Z.shiftl (b / dcols) sh)) q bc acols c = col0 c.
Proof using All.
  intros Hc. destruct cols_facts as (_ & ? & _ & _). destruct unit_facts as [HU _]. destruct q_facts as (Hq & _).
  pose proof (Z.div_mod b dcols ltac:(lia)) as Eb. pose proof (Z.mod_pos_bound b dcols ltac:(lia)) as Hm.
  set (f := b mod dcols) in *. set (e := b / dcols) in *. assert (He : 0 <= e <= b) by nia.
  assert (Hsz : forall x, 0 <= x <= s + 1 -> u64 (Z.shiftl x sh) = x * U)
    by (intros; rewrite Z.shiftl_mul_pow2, small by nia; done).
  assert (Ho : u64 (Z.shiftl e sh) = e * U) by (rewrite Z.shiftl_mul_pow2, small by nia; done).
  assert (H1 : u64 (Z.shiftl 1 sh) = U) by (rewrite Z.shiftl_mul_pow2, Z.mul_1_l by lia; apply small; lia).
  assert (Hsec : (if acols <=? c then 0 else if c <? bc then u64 (Z.shiftl (q + 1) sh) else u64 (Z.shiftl q sh)) = sec c * U)
    by (unfold sec; case_ifs; [done|apply Hsz; lia..]).
  unfold map_alloc_col, col0. rewrite Hsec, Ho, H1.
  case_if as E; f_equal.
  - apply (Z.mod_unique _ _ (e + 1)); [left|]; lia.
  - rewrite small by nia. rewrite <- (Z.div_unique (b + c) dcols (e + 1) (f + c - dcols)) by lia. ring.
  - apply (Z.mod_unique _ _ e); [left|]; lia.
  - rewrite <- (Z.div_unique (b + c) dcols e (f + c)) by lia. done.
Qed.

(** The parity of a single-parity vdev changes places with the first data
    column in every second megabyte. *)
Definition swapped : bool := (np =? 1) && negb (Z.land (b * U) (Z.shiftl 1 20) =? 0).
Definition place (c : Z) : Z := if swapped then (if c =? 0 then 1 else if c =? 1 then 0 else c) else c.

Lemma place_ge c : 2 <= c -> place c = c.
Proof. intros. unfold place. rewrite (proj2 (Z.eqb_neq c 0)), (proj2 (Z.eqb_neq c 1)) by lia. by destruct swapped. Qed.

Lemma cols_two g : map g (seqZ 0 scols) = g 0 :: g 1 :: map (A := Z) (B := raidz_col) g (seqZ 2 (scols - 2)).
Proof using All.
  destruct cols_facts as (? & _). rewrite (seqZ_cons 0) by lia. rewrite seqZ_cons by lia. cbn [map].
  do 4 f_equal; lia.
Qed.

Lemma round_up_units : roundup (u64 (tot * U)) (u64 (Z.shiftl (np + 1) sh)) = roundup tot (np + 1) * U.
Proof using All.
  destruct unit_facts as [HU _]. destruct tot_bound as [? ?]. rewrite Z.shiftl_mul_pow2 by lia.
  rewrite !small by nia. destruct (roundup_small (tot * U) ((np + 1) * U)) as [-> _]; [nia..|].
  destruct (roundup_small tot (np + 1)) as [-> _]; [nia..|].
  replace (tot * U + ((np + 1) * U - 1)) with ((tot + np) * U + (U - 1)) by ring.
  rewrite (Z.mul_comm (np + 1) U), <- Z.div_div by lia.
  rewrite Z.div_add_l, (Z.div_small (U - 1)) by lia. replace (tot + np + 0) with (tot + (np + 1 - 1)) by ring. ring.
Qed.

Abbreviation rawcol c := (map_alloc_col sh dcols (b mod dcols) (u64 (Z.shiftl (b / dcols) sh)) q bc acols c).

Lemma cols_loop :
  for_range 0 scols (fun c '(cols, asize) =>
    Ok (cols ++ [rawcol c], u64 (asize + rc_size (rawcol c)))) ([], 0) = Ok (map col0 (seqZ 0 scols), u64 (tot * U)).
Proof using All.
  destruct cols_facts as (? & ? & ? & _). destruct q_facts as (Hq & _). destruct unit_facts as [? _].
  apply (for_range_fun (fun c => (map col0 (seqZ 0 c), u64 (secs c * U)))); [lia|..].
  - intros c Hc. cbv zeta. rewrite alloc_col by done. f_equal. f_equal.
    + rewrite seqZ_app, map_app by lia. done.
    + rewrite secs_step by lia. change (rc_size (col0 c)) with (sec c * U).
      rewrite Z.add_mod_idemp_l by lia. f_equal. ring.
  - rewrite seqZ_nil by lia. f_equal. unfold secs. destruct bc_facts; rewrite !Z.min_l by lia; by rewrite Z.mul_0_r.
  - f_equal. unfold secs. by rewrite !Z.min_r by lia.
Qed.

Lemma secs_mono c c' : 0 <= c <= c' -> secs c <= secs c'.
Proof using All. intros Hc. destruct q_facts as (? & _). unfold secs. nia. Qed.

(** The data columns hold all of the caller's buffer. *)
Lemma data_secs : secs acols - secs np = s.
Proof using All.
  rewrite tot_eq. destruct cols_facts as (? & ? & ? & _). unfold secs. rewrite (Z.min_l np acols) by lia.
  destruct bc_facts as [(-> & -> & _)|(-> & ?)]; [rewrite Z.min_r by lia|rewrite Z.min_l by lia]; case_if as E; nia.
Qed.

Lemma sec_desc x y : x <= y -> sec y <= sec x.
Proof using All. intros. destruct q_facts as (? & _). unfold sec. case_ifs; lia. Qed.

Lemma sec_head c : 0 <= c <= np -> sec c = sec 0.
Proof using All.
  intros Hc. destruct cols_facts as (? & _). unfold sec. rewrite !(proj2 (Z.leb_gt acols _)) by lia.
  destruct bc_facts as [(-> & _)|(-> & ?)]; case_ifs; lia.
Qed.

Lemma place_ok c : 0 <= c < acols -> 0 <= place c < acols /\ sec (place c) = sec c /\ place (place c) = c.
Proof using All.
  intros Hc. destruct cols_facts as (? & _). assert (sec 1 = sec 0) by (apply sec_head; lia).
  destruct (Z.le_gt_cases 2 c); [by rewrite !place_ge by lia|].
  assert (c = 0 \/ c = 1) as [-> | ->] by lia; unfold place; destruct swapped; cbn; split_and!; done || lia.
Qed.

Lemma sec_row c j : 0 <= c < acols -> 0 <= j -> j < sec c <-> c + j * dcols < tot.
Proof using All.
  intros Hc Hj. destruct cols_facts as (? & ? & ? & Hac). destruct q_facts as (Hq & _ & _ & _).
  assert (0 <= bc) by (destruct bc_facts; lia).
  unfold secs, sec. rewrite Z.min_id, Z.min_r, (proj2 (Z.leb_gt acols c)) by lia.
  destruct Hac as [Ea|[Ea E0]]; rewrite Ea in *; [|rewrite E0]; case_if as E; nia.
Qed.

Context (zio_buf_alloc : Z -> list Z).
Context (Halloc : forall n, 0 <= n -> zlen (zio_buf_alloc n) = n /\ Forall is_byte (zio_buf_alloc n)).
Context (io_data : list Z).
Context (Hdata : zlen io_data = s * U) (Hbytes : Forall is_byte io_data).

(** The buffer of column [c]. *)
Definition buf (c : Z) : list Z :=
  if c <? np then zio_buf_alloc (sec c * U)
  else take (Z.to_nat (sec c * U)) (drop (Z.to_nat ((secs c - secs np) * U)) io_data).
Definition col1 (c : Z) : raidz_col := set_rc_data (buf c) (col0 c).

Lemma alloc_data k c : 0 <= c -> Z.of_nat k = scols - c ->
  map_alloc_data zio_buf_alloc np acols c ((secs (Z.max c np) - secs np) * U) io_data (map col0 (seqZ c (scols - c)))
  = map col1 (seqZ c (scols - c)).
Proof using All.
  destruct cols_facts as (? & _). revert c. induction k as [|k IH]; intros c Hc Hk.
  - by rewrite seqZ_nil by lia.
  - rewrite seqZ_cons by lia. cbn [map map_alloc_data]. replace (Z.pred (scols - c)) with (scols - Z.succ c) by lia.
    unfold col1 at 1, buf. change (rc_size (col0 c)) with (sec c * U). unfold Z.succ. case_if as E.
    + f_equal. rewrite <- IH by lia. f_equal. rewrite !Z.max_r by lia. done.
    + rewrite Z.max_l by lia. case_if as F.
      * f_equal. rewrite <- IH by lia. f_equal. rewrite Z.max_l, secs_step by lia. ring.
      * assert (Z0 : sec c = 0) by (unfold sec; case_if as G; [done|lia]).
        rewrite Z0. f_equal.
        rewrite <- IH by lia. f_equal. rewrite Z.max_l, secs_step, Z0 by lia. ring.
Qed.

Definition col (c : Z) : raidz_col := set_rc_where ((b + place c) mod dcols) ((b + place c) / dcols * U) (col1 c).
Definition the_map : raidz_map :=
  RM acols scols bc (roundup tot (np + 1) * U) 0 0 np (roundup tot (np + 1) - tot)
    (if swapped then (if bc =? 0 then 1 else bc) else bc) None 0 false false (map col (seqZ 0 scols)).

Lemma col_same : swapped = false -> map col (seqZ 0 scols) = map col1 (seqZ 0 scols).
Proof. intros E. apply map_ext. intros c. unfold col, place. by rewrite E. Qed.

Lemma col_swap : swapped = true ->
  map col (seqZ 0 scols) = set_rc_where (rc_devidx (col1 1)) (rc_offset (col1 1)) (col1 0)
    :: set_rc_where (rc_devidx (col1 0)) (rc_offset (col1 0)) (col1 1) :: map col1 (seqZ 2 (scols - 2)).
Proof using All.
  intros E. rewrite cols_two. unfold col at 1 2, place. rewrite E. f_equal. f_equal.
  apply map_ext_in. intros c Hc%list_elem_of_In%elem_of_seqZ. unfold col. by rewrite place_ge by lia.
Qed.

Lemma alloc_ok : vdev_raidz_map_alloc zio_buf_alloc (b * U) (s * U) io_data sh dcols np = Ok the_map.
Proof using All.
  destruct cols_facts as (? & ? & ? & _). destruct q_facts as (? & ? & ? & _). destruct tot_bound as [? ?].
  destruct unit_facts as [? _]. unfold vdev_raidz_map_alloc.
  rewrite !Z.shiftr_div_pow2, !Z.div_mul by lia. fold n q r bc.
  assert (Et : u64 (s + u64 (np * (q + (if r =? 0 then 0 else 1)))) = tot).
  { rewrite tot_eq in *. rewrite (small (np * _)) by (case_if as E; nia). apply small. case_if as E; nia. }
  rewrite Et. cbv zeta. assert (Ea : (if q =? 0 then (bc, Z.min dcols (roundup bc (np + 1))) else (dcols, dcols)) = (acols, scols))
    by (unfold acols, scols; by destruct (q =? 0)).
  rewrite Ea, cols_loop. bnd. rewrite round_up_units.
  destruct (roundup_small tot (np + 1)) as [_ Hru]; [nia|lia|]. rewrite (small (roundup tot (np + 1) - tot)) by nia.
  destruct (rd_in_bounds (map col0 (seqZ 0 scols)) np) as (x & -> & _); [rewrite length_map, length_seqZ; lia|]. bnd.
  pose proof (alloc_data (Z.to_nat scols) 0 ltac:(lia) ltac:(lia)) as Hd.
  rewrite Z.sub_0_r, Z.max_r, Z.sub_diag, Z.mul_0_l in Hd by lia. rewrite Hd. fold swapped. unfold the_map.
  destruct swapped eqn:E; [|by rewrite col_same by done].
  rewrite col_swap, cols_two by done. change (rd (?x :: ?l) 0) with (Ok x). change (rd (?x :: ?y :: ?l) 1) with (Ok y). bnd.
  rewrite wr_in_bounds by (cbn [length]; lia). bnd. rewrite wr_in_bounds by (rewrite length_insert; cbn [length]; lia). bnd. done.
Qed.

Lemma lookup_col c : 0 <= c < scols -> rm_col the_map !! Z.to_nat c = Some (col c).
Proof.
  intros Hc. unfold the_map. cbn [rm_col]. change (map ?f ?l) with (f <$> l).
  rewrite list_lookup_fmap, lookup_seqZ_lt by lia. cbn. by rewrite Z2Nat.id by lia.
Qed.

Lemma siz_col c : 0 <= c < scols -> siz the_map c = sec c * U.
Proof. intros Hc. unfold siz. by rewrite lookup_col. Qed.

Lemma dat_col c : 0 <= c < scols -> dat the_map c = buf c.
Proof. intros Hc. unfold dat. by rewrite lookup_col. Qed.

Lemma buf_ok c : 0 <= c < acols -> zlen (buf c) = sec c * U /\ Forall is_byte (buf c).
Proof using All.
  intros Hc. destruct unit_facts as [? _]. pose proof (sec_bound c). unfold buf. case_if as E; [apply Halloc; nia|].
  pose proof (secs_mono np c ltac:(lia)). pose proof (secs_mono (c + 1) acols ltac:(lia)). pose proof data_secs.
  rewrite secs_step in * by lia. split; [|by apply Forall_take, Forall_drop].
  rewrite length_take, length_drop. nia.
Qed.

Lemma the_map_wf : rm_wf the_map.
Proof using All.
  destruct cols_facts as (? & ? & ? & _). destruct unit_facts as [? HU]. split; cbn [rm_firstdatacol rm_cols the_map].
  - done.
  - lia.
  - unfold the_map. cbn [rm_col]. rewrite length_map, length_seqZ. lia.
  - intros c Hc. rewrite !siz_col by lia. by rewrite sec_head by lia.
  - intros c Hc. rewrite siz_col, dat_col by lia. destruct (buf_ok c Hc) as [-> ?]. pose proof (sec_bound c).
    split_and!; [nia| |done|done]. by rewrite Z.mul_mod, HU, Z.mul_0_r by lia.
  - intros x y Hx Hy. rewrite !siz_col by lia. pose proof (sec_desc x y ltac:(lia)). nia.
Qed.

Lemma data_prefix k : np + Z.of_nat k <= acols ->
  mjoin (map (dat the_map) (seqZ np (Z.of_nat k))) = take (Z.to_nat ((secs (np + Z.of_nat k) - secs np) * U)) io_data.
Proof using All.
  destruct cols_facts as (? & ? & _). destruct unit_facts as [? _]. induction k as [|k IH]; intros Hk.
  - rewrite seqZ_nil by lia. rewrite Z.add_0_r, Z.sub_diag. done.
  - replace (Z.of_nat (S k)) with (Z.of_nat k + 1) by lia. rewrite seqZ_app, map_app, join_app, IH by lia.
    rewrite seqZ_cons, seqZ_nil by lia. cbn [map mjoin list_join]. rewrite app_nil_r.
    rewrite dat_col by lia. unfold buf. rewrite (proj2 (Z.ltb_ge _ _)) by lia.
    rewrite take_take_drop. f_equal. rewrite Z.add_assoc, secs_step by lia.
    pose proof (secs_mono np (np + Z.of_nat k) ltac:(lia)). pose proof (sec_bound (np + Z.of_nat k)). nia.
Qed.

Lemma data_all : mjoin (map (dat the_map) (seqZ np (acols - np))) = io_data.
Proof using All.
  destruct cols_facts as (? & ? & _). pose proof (data_prefix (Z.to_nat (acols - np)) ltac:(lia)) as H'.
  rewrite Z2Nat.id in H' by lia. rewrite H'. replace (np + (acols - np)) with acols by ring.
  rewrite data_secs, <- Hdata, Nat2Z.id. apply firstn_all.
Qed.

Lemma asize_eq : vdev_raidz_asize sh dcols np (s * U) = rm_asize the_map.
Proof using All.
  destruct unit_facts as [? _]. destruct tot_bound as [? ?]. destruct q_facts as (? & ? & Es & _).
  unfold vdev_raidz_asize. rewrite (small (s * U - 1)) by nia. rewrite Z.shiftr_div_pow2 by lia.
  rewrite <- (Z.div_unique (s * U - 1) U (s - 1) (U - 1)) by lia. replace (s - 1 + 1) with s by ring.
  rewrite (small s) by nia. rewrite (small (s + dcols - np - 1)) by nia.
  assert (E : (s + dcols - np - 1) / n = q + (if r =? 0 then 0 else 1)).
  { case_if as E; symmetry; [apply (Z.div_unique _ _ _ (n - 1))|apply (Z.div_unique _ _ _ (r - 1))]; try lia; nia. }
  rewrite E. pose proof tot_eq as Et. rewrite (small (np * _)) by (case_if as F; nia).
  rewrite <- Et, (small tot) by nia. destruct (roundup_small tot (np + 1)) as [_ ?]; [nia|lia|].
  rewrite Z.shiftl_mul_pow2, small by nia. done.
Qed.

(** Sector [j] of column [c] is sector [b + place c + j * dcols] of the vdev. *)
Lemma sector_place c j : 0 <= c < acols -> 0 <= j ->
  rc_devidx (col c) = (b + (place c + j * dcols)) mod dcols /\
  rc_offset (col c) / U + j = (b + (place c + j * dcols)) / dcols.
Proof using All.
  intros Hc Hj. destruct unit_facts as [? _]. cbn [rc_devidx rc_offset col set_rc_where].
  rewrite Z.add_assoc, Z.mod_add, Z.div_add, Z.div_mul by lia. done.
Qed.

End layout.

(** ** The contract *)

(** What the I/O pipeline asks of the vdev: a buffer of whole sectors at a
    sector boundary, on a vdev of a supported shape. *)
Record io_ok (sh dcols np io_offset io_size : Z) (io_data : list Z) : Prop := {
  io_shift : 3 <= sh <= 30;
  io_parity : 1 <= np <= 3;
  io_width : np < dcols <= 255;
  io_start : 0 <= io_offset < 2 ^ 62;
  io_start_aligned : io_offset mod 2 ^ sh = 0;
  io_length : 0 < io_size <= 2 ^ 32;
  io_length_aligned : io_size mod 2 ^ sh = 0;
  io_buffer : zlen io_data = io_size;
  io_bytes : Forall is_byte io_data }.

Section contract.
Context (zio_buf_alloc : Z -> list Z) (Halloc : allocates zio_buf_alloc).

(** The column [c] of a map covers sector [sec] of child [dev]. *)
Definition covers (sh : Z) (rm : raidz_map) (c dev sec : Z) : Prop :=
  exists rc j, 0 <= c < rm_cols rm /\ rm_col rm !! Z.to_nat c = Some rc /\ 0 <= j < rc_size rc / 2 ^ sh /\
    dev = rc_devidx rc /\ sec = rc_offset rc / 2 ^ sh + j.

Context (sh dcols np io_offset io_size : Z) (io_data : list Z) (Hio : io_ok sh dcols np io_offset io_size io_data).
Abbreviation b := (io_offset / 2 ^ sh).
Abbreviation s := (io_size / 2 ^ sh).
Abbreviation rm := (the_map sh dcols np b s zio_buf_alloc io_data).

Lemma io_units : io_offset = b * 2 ^ sh /\ io_size = s * 2 ^ sh /\ 0 <= b /\ 0 < s /\ 8 <= 2 ^ sh.
Proof using Hio.
  destruct Hio. destruct (sector_size sh) as [? _]; [done|]. pose proof (Z.div_mod io_offset (2 ^ sh) ltac:(lia)).
  pose proof (Z.div_mod io_size (2 ^ sh) ltac:(lia)). split_and!; nia.
Qed.

Lemma io_alloc : vdev_raidz_map_alloc zio_buf_alloc io_offset io_size io_data sh dcols np = Ok rm.
Proof using Halloc Hio.
  destruct io_units as (Eo & Es & ? & ? & ?). destruct Hio. rewrite Eo at 1. rewrite Es at 1. apply alloc_ok; done || lia.
Qed.

Abbreviation total := (secs dcols np s (acols dcols np s)).

Lemma padding : total <= roundup total (np + 1) <= total + np.
Proof using Hio.
  destruct io_units as (Eo & Es & ? & ? & ?). destruct Hio.
  destruct (tot_bound sh dcols np b s); [done || lia..|]. destruct (roundup_small total (np + 1)); [nia|lia|lia].
Qed.

Lemma covers_place c dev sec : covers sh rm c dev sec <->
  exists j, 0 <= c < acols dcols np s /\ 0 <= j < RaidzLayout.sec dcols np s c /\
    dev = (b + (place sh np b c + j * dcols)) mod dcols /\ sec = (b + (place sh np b c + j * dcols)) / dcols.
Proof using Halloc Hio.
  destruct io_units as (Eo & Es & ? & ? & ?). pose proof Hio as [].
  assert (D : forall c, rc_size (col sh dcols np b s zio_buf_alloc io_data c) / 2 ^ sh = RaidzLayout.sec dcols np s c)
    by (intros; cbn; by rewrite Z.div_mul by lia).
  destruct (cols_facts sh dcols np b s) as (? & ? & _); [done || lia..|].
  split.
  - intros (rc & j & Hc & Hl & Hj & -> & ->). cbn [rm_cols the_map] in Hc.
    rewrite lookup_col in Hl by lia. injection Hl as <-. rewrite D in Hj.
    exists j. split; [done|]. split; [done|]. apply sector_place; done || lia.
  - intros (j & Hc & Hj & -> & ->). eexists _, j. split; [done|]. rewrite lookup_col by lia. rewrite D.
    split; [done|]. split; [done|]. destruct (sector_place sh dcols np b s ltac:(done) ltac:(done) ltac:(done)
      ltac:(lia) ltac:(lia) ltac:(lia) ltac:(lia) zio_buf_alloc Halloc io_data ltac:(lia) ltac:(done) c j) as [-> ->]; [done|lia|done].
Qed.

(** The sectors of an I/O are those of its address range, in row-major order. *)
Lemma covers_range dev sec : (exists c, covers sh rm c dev sec) <->
  exists k, 0 <= k < total /\ dev = (b + k) mod dcols /\ sec = (b + k) / dcols.
Proof using Halloc Hio.
  destruct io_units as (Eo & Es & ? & ? & ?). pose proof Hio as [].
  destruct (cols_facts sh dcols np b s) as (? & ? & ? & Hac); [done || lia..|]. split.
  - intros (c & (j & Hc & Hj & -> & ->)%covers_place). exists (place sh np b c + j * dcols).
    destruct (place_ok sh dcols np b s) with (c := c) as (Hp & Hs & _); [done || lia..|].
    split; [|done]. split; [nia|]. rewrite <- Hs in Hj. apply (sec_row sh dcols np b s); done || lia.
  - intros (k & Hk & -> & ->). set (c := k mod dcols). set (j := k / dcols).
    pose proof (Z.div_mod k dcols ltac:(lia)) as Ek. pose proof (Z.mod_pos_bound k dcols ltac:(lia)) as Hm.
    fold c j in Ek, Hm. assert (0 <= j) by (apply Z.div_pos; lia).
    assert (Hc : 0 <= c < acols dcols np s).
    { destruct Hac as [->|[Ea E0]]; [lia|]. unfold secs in Hk. rewrite Z.min_id, Ea, E0, Z.min_id in Hk.
      assert (j = 0) by (apply Z.div_small; lia). lia. }
    assert (Hj : j < sec dcols np s c) by (apply (sec_row sh dcols np b s); done || lia).
    destruct (place_ok sh dcols np b s) with (c := c) as (Hp & Hs & Hpp); [done || lia..|].
    exists (place sh np b c). apply covers_place. exists j. rewrite Hpp, Hs. replace (c + j * dcols) with k by lia. done.
Qed.

Lemma covers_once c c' dev sec : covers sh rm c dev sec -> covers sh rm c' dev sec -> c = c'.
Proof using Halloc Hio.
  destruct io_units as (Eo & Es & ? & ? & ?). pose proof Hio as [].
  destruct (cols_facts sh dcols np b s) as (? & ? & _); [done || lia..|].
  intros (j & Hc & Hj & Ed & Ee)%covers_place (j' & Hc' & Hj' & Ed' & Ee')%covers_place.
  destruct (place_ok sh dcols np b s) with (c := c) as (Hp & _ & <-); [done || lia..|].
  destruct (place_ok sh dcols np b s) with (c := c') as (Hp' & _ & <-); [done || lia..|]. f_equal.
  set (k := place sh np b c + j * dcols) in *. set (k' := place sh np b c' + j' * dcols) in *.
  pose proof (Z.div_mod (b + k) dcols ltac:(lia)). pose proof (Z.div_mod (b + k') dcols ltac:(lia)).
  assert (E : k mod dcols = k' mod dcols) by (f_equal; congruence || lia).
  unfold k, k' in E. by rewrite !Z.mod_add, !Z.mod_small in E by lia.
Qed.
End contract.

(** C8: [vdev_raidz_map_alloc] returns a well-formed map for every aligned I/O:
    the data columns, one after the other, are the caller's buffer; the map's
    allocated size is the one [vdev_raidz_asize] reserves for the block; and
    at most [nparity] sectors of it are padding. *)
Theorem vdev_raidz_map_alloc_correct zio_buf_alloc sh dcols np io_offset io_size io_data :
  allocates zio_buf_alloc -> io_ok sh dcols np io_offset io_size io_data ->
  exists rm, vdev_raidz_map_alloc zio_buf_alloc io_offset io_size io_data sh dcols np = Ok rm /\
    rm_wf rm /\ rm_firstdatacol rm = np /\
    mjoin (map (dat rm) (seqZ np (rm_cols rm - np))) = io_data /\
    rm_asize rm = vdev_raidz_asize sh dcols np io_size /\ 0 <= rm_nskip rm <= np.
Proof.
  intros Ha Hio. eexists. split; [by apply io_alloc|].
  destruct (io_units sh dcols np io_offset io_size io_data Hio) as (Eo & Es & ? & ? & ?). pose proof Hio as [].
  split_and!.
  - apply the_map_wf; done || lia.
  - done.
  - apply data_all; done || lia.
  - rewrite Es at 2. symmetry. apply asize_eq; done || lia.
  - cbn [rm_nskip the_map]. pose proof (padding _ _ _ _ _ _ Hio). lia.
  - cbn [rm_nskip the_map]. pose proof (padding _ _ _ _ _ _ Hio). lia.
Qed.

(** C7: no two I/Os on disjoint address ranges of a RAID-Z vdev ever meet on a
    device: if the space reserved for the first ends where the second starts or
    before, no column of the one covers a sector of a child that a column of
    the other covers.  Within one I/O, no two columns cover the same sector. *)
Theorem map_alloc_disjoint zio_buf_alloc sh dcols np off1 size1 data1 off2 size2 data2 rm1 rm2 :
  allocates zio_buf_alloc ->
  io_ok sh dcols np off1 size1 data1 -> io_ok sh dcols np off2 size2 data2 ->
  vdev_raidz_map_alloc zio_buf_alloc off1 size1 data1 sh dcols np = Ok rm1 ->
  vdev_raidz_map_alloc zio_buf_alloc off2 size2 data2 sh dcols np = Ok rm2 ->
  off1 + vdev_raidz_asize sh dcols np size1 <= off2 ->
  (forall c1 c2 dev sec, covers sh rm1 c1 dev sec -> ~ covers sh rm2 c2 dev sec) /\
  (forall c c' dev sec, covers sh rm1 c dev sec -> covers sh rm1 c' dev sec -> c = c').
Proof.
  intros Ha H1 H2 E1 E2 Hle. rewrite io_alloc in E1, E2 by done. injection E1 as <-. injection E2 as <-.
  split; [|exact (covers_once zio_buf_alloc Ha _ _ _ _ _ _ H1)].
  intros c1 c2 dev sec C1 C2. pose proof (io_width _ _ _ _ _ _ H1). pose proof (io_parity _ _ _ _ _ _ H1).
  destruct (proj1 (covers_range zio_buf_alloc Ha _ _ _ _ _ _ H1 dev sec) (ex_intro _ c1 C1)) as (k1 & Hk1 & Ed1 & Es1).
  destruct (proj1 (covers_range zio_buf_alloc Ha _ _ _ _ _ _ H2 dev sec) (ex_intro _ c2 C2)) as (k2 & Hk2 & Ed2 & Es2).
  assert (E : off1 / 2 ^ sh + k1 = off2 / 2 ^ sh + k2).
  { rewrite (Z.div_mod (off1 / 2 ^ sh + k1) dcols), (Z.div_mod (off2 / 2 ^ sh + k2) dcols) by lia. congruence. }
  destruct (io_units _ _ _ _ _ _ H1) as (Eo1 & Ez1 & ? & ? & ?), (io_units _ _ _ _ _ _ H2) as (Eo2 & _).
  pose proof (padding _ _ _ _ _ _ H1). destruct H1.
  rewrite Ez1 in Hle. rewrite (asize_eq sh dcols np (off1 / 2 ^ sh) _) with (zio_buf_alloc := zio_buf_alloc) (io_data := data1) in Hle
    by (done || lia).
  cbn [rm_asize the_map] in Hle. nia.
Qed.

(** Three sectors on a five-wide double-parity vdev. *)
Definition ex_buf (n : Z) : list Z := replicate (Z.to_nat n) 7.

Lemma ex_buf_ok : allocates ex_buf.
Proof. intros n Hn. unfold ex_buf. rewrite length_replicate. split; [lia|]. by apply Forall_replicate. Qed.

Lemma ex_io_ok off : 0 <= off < 2 ^ 62 -> off mod 512 = 0 -> io_ok 9 5 2 off 1536 (ex_buf 1536).
Proof. intros Ho Hm. split; try lia; try done; by apply ex_buf_ok. Qed.

Lemma vdev_raidz_map_alloc_correct_witness : exists rm,
  vdev_raidz_map_alloc ex_buf 1024 1536 (ex_buf 1536) 9 5 2 = Ok rm /\ rm_wf rm /\ rm_asize rm = 3072.
Proof.
  destruct (vdev_raidz_map_alloc_correct ex_buf 9 5 2 1024 1536 (ex_buf 1536) ex_buf_ok) as (rm & E & Hw & _ & _ & Ha & _).
  - apply ex_io_ok; [lia|reflexivity].
  - exists rm. split; [exact E|]. split; [exact Hw|]. rewrite Ha. reflexivity.
Defined.

Lemma map_alloc_disjoint_witness : exists rm1 rm2,
  vdev_raidz_map_alloc ex_buf 1024 1536 (ex_buf 1536) 9 5 2 = Ok rm1 /\
  vdev_raidz_map_alloc ex_buf 4096 1536 (ex_buf 1536) 9 5 2 = Ok rm2 /\
  forall c1 c2 dev sec, covers 9 rm1 c1 dev sec -> ~ covers 9 rm2 c2 dev sec.
Proof.
  assert (H1 : io_ok 9 5 2 1024 1536 (ex_buf 1536)) by (apply ex_io_ok; [lia|reflexivity]).
  assert (H2 : io_ok 9 5 2 4096 1536 (ex_buf 1536)) by (apply ex_io_ok; [lia|reflexivity]).
  eexists _, _. split; [by apply io_alloc, H1; apply ex_buf_ok|]. split; [by apply io_alloc, H2; apply ex_buf_ok|].
  eapply (map_alloc_disjoint ex_buf 9 5 2 1024 1536 (ex_buf 1536) 4096 1536 (ex_buf 1536)).
  - exact ex_buf_ok.
  - exact H1.
  - exact H2.
  - apply io_alloc, H1. exact ex_buf_ok.
  - apply io_alloc, H2. exact ex_buf_ok.
  - vm_compute. discriminate.
Defined.
End RaidzLayout.
