(* ===== verification/RaidzIo.v ===== *)
(** RAID-Z I/O (module/zfs/vdev_raidz.c): the vdev operations that issue the
    child I/Os of a block and put its data together when they are done,
    combinatorial reconstruction, the checksum reports that outlive an I/O,
    opening a vdev and its state changes. *)

From S2P Require Import Prelude Galois RaidzMap RaidzParity RaidzReconstruct RaidzGeneral.
Import Galois RaidzMap RaidzParity RaidzReconstruct RaidzGeneral.
Open Scope Z_scope.

Module RaidzIo.

(** The error numbers of the code; all that matters is that they differ. *)
Definition EIO := 5.
Definition ENXIO := 6.
Definition EINVAL := 22.
Definition ESTALE := 70.
Definition ECKSUM := 52.

(** ** Data *)

(** The fields of a map that the I/O routines update. *)
Definition set_rm_missing (md mp : Z) (rm : raidz_map) : raidz_map :=
  RM (rm_cols rm) (rm_scols rm) (rm_bigcols rm) (rm_asize rm) md mp (rm_firstdatacol rm) (rm_nskip rm)
    (rm_skipstart rm) (rm_datacopy rm) (rm_reports rm) (rm_freed rm) (rm_ecksuminjected rm) (rm_col rm).
Definition set_rm_reports (n : Z) (rm : raidz_map) : raidz_map :=
  RM (rm_cols rm) (rm_scols rm) (rm_bigcols rm) (rm_asize rm) (rm_missingdata rm) (rm_missingparity rm)
    (rm_firstdatacol rm) (rm_nskip rm) (rm_skipstart rm) (rm_datacopy rm) n (rm_freed rm)
    (rm_ecksuminjected rm) (rm_col rm).
Definition set_rm_datacopy (d : option (list Z)) (rm : raidz_map) : raidz_map :=
  RM (rm_cols rm) (rm_scols rm) (rm_bigcols rm) (rm_asize rm) (rm_missingdata rm) (rm_missingparity rm)
    (rm_firstdatacol rm) (rm_nskip rm) (rm_skipstart rm) d (rm_reports rm) (rm_freed rm)
    (rm_ecksuminjected rm) (rm_col rm).
Definition set_rm_freed (rm : raidz_map) : raidz_map :=
  RM (rm_cols rm) (rm_scols rm) (rm_bigcols rm) (rm_asize rm) (rm_missingdata rm) (rm_missingparity rm)
    (rm_firstdatacol rm) (rm_nskip rm) (rm_skipstart rm) (rm_datacopy rm) (rm_reports rm) true
    (rm_ecksuminjected rm) (rm_col rm).
Definition set_rm_injected (rm : raidz_map) : raidz_map :=
  RM (rm_cols rm) (rm_scols rm) (rm_bigcols rm) (rm_asize rm) (rm_missingdata rm) (rm_missingparity rm)
    (rm_firstdatacol rm) (rm_nskip rm) (rm_skipstart rm) (rm_datacopy rm) (rm_reports rm) (rm_freed rm)
    true (rm_col rm).
Definition set_rc_gdata (g : option (list Z)) (c : raidz_col) : raidz_col :=
  RC (rc_devidx c) (rc_offset c) (rc_size c) (rc_data c) g (rc_error c) (rc_tried c) (rc_skipped c).

(** A child I/O, as handed to [zio_vdev_child_io]: [ci_col] is the column whose
    [vdev_raidz_child_done] runs on completion, [ci_data] what a write writes. *)
Record child_io := CIO {
  ci_devidx : Z;
  ci_offset : Z;
  ci_size : Z;
  ci_write : bool;
  ci_data : option (list Z);
  ci_repair : bool;
  ci_self_heal : bool;
  ci_col : option Z }.

(** What the routines do to the rest of the system: issue a child I/O, count
    and post a checksum error of a child, start a checksum report for a column,
    count a successful correction. *)
Inductive event :=
| EIssue (io : child_io)
| ECksumError (devidx : Z) (good bad : list Z)
| EReport (c : Z)
| ECorrected (code : Z).

(** The fields of a [zio_t] the vdev consults. *)
Record zio_flags := ZF {
  zf_write : bool;
  zf_scrub : bool;
  zf_resilver : bool;
  zf_speculative : bool }.

(** [bcopy] of [n] bytes out of a buffer, and over the start of one. *)
Definition rdbuf (d : list Z) (n : Z) : res (list Z) :=
  if (0 <=? n) && (n <=? zlen d) then Ok (take (Z.to_nat n) d) else Fault FOob.
Definition wrbuf (d s : list Z) (n : Z) : res (list Z) :=
  s ← rdbuf s n;
  if n <=? zlen d then Ok (s ++ drop (Z.to_nat n) d) else Fault FWrite.

(** The caller's buffer [zio->io_data], which the data columns make up. *)
Definition io_buffer (rm : raidz_map) : list Z :=
  mjoin (map rc_data (drop (Z.to_nat (rm_firstdatacol rm)) (take (Z.to_nat (rm_cols rm)) (rm_col rm)))).

(** [zio_worst_error] of module/zfs/zio.c. *)
Definition zio_error_rank : list Z := [0; ENXIO; ECKSUM; EIO].
Fixpoint error_rank (e : Z) (ranks : list Z) : Z :=
  match ranks with [] => 0 | x :: ranks => if e =? x then 0 else 1 + error_rank e ranks end.
Definition zio_worst_error (e1 e2 : Z) : Z :=
  if error_rank e2 zio_error_rank <? error_rank e1 zio_error_rank then e1 else e2.

(** ** Child I/Os *)

Section io.
Variables (kmem_alloc zio_buf_alloc : Z -> list Z) (vdev_raidz_default_to_general : bool).
(** [zio_checksum_error] on the current content of the caller's buffer: its
    return value and whether the error was an injected one. *)
Variable zio_checksum_error : list Z -> Z * bool.
(** The state of the children: [vdev_readable], and whether the block's birth
    txg is in the child's [DTL_MISSING] map. *)
Variables (vdev_readable vdev_dtl_missing : Z -> bool).

(** [vdev_raidz_child_done]: the outcome of a child I/O. *)
Definition vdev_raidz_child_done (rm : raidz_map) (c error : Z) : res raidz_map :=
  upd_col rm c (set_rc_status error true false).

Definition col_io (write repair self_heal : bool) (cb : option Z) (rc : raidz_col) : child_io :=
  CIO (rc_devidx rc) (rc_offset rc) (rc_size rc) write (if write then Some (rc_data rc) else None) repair self_heal cb.

(** Mark a column that is not worth reading. *)
Definition skip_col (rm : raidz_map) (c error : Z) (tried : bool) : res raidz_map :=
  let '(md, mp) := if rm_firstdatacol rm <=? c then (rm_missingdata rm + 1, rm_missingparity rm)
                   else (rm_missingdata rm, rm_missingparity rm + 1) in
  upd_col (set_rm_missing md mp rm) c (fun rc => set_rc_status error (tried || rc_tried rc) true rc).

(** The body of the loop over the columns of a read, which runs from the last
    column down. *)
Definition io_start_read_col (z : zio_flags) (c : Z) (s : raidz_map * list event) : res (raidz_map * list event) :=
  let '(rm, ev) := s in
  rc ← rd (rm_col rm) c;
  if negb (vdev_readable (rc_devidx rc)) then
    rm ← skip_col rm c ENXIO true; Ok (rm, ev)
  else if vdev_dtl_missing (rc_devidx rc) then
    rm ← skip_col rm c ESTALE false; Ok (rm, ev)
  else if (rm_firstdatacol rm <=? c) || (0 <? rm_missingdata rm) || zf_scrub z || zf_resilver z then
    Ok (rm, ev ++ [EIssue (col_io false false false (Some c) rc)])
  else Ok (rm, ev).

(** The optional I/Os for the sectors skipped as padding. *)
Definition io_start_skip (ashift : Z) (rm : raidz_map) : res (list event) :=
  '(_, ev) ← for_range 0 (rm_nskip rm) (fun _ '(c, ev) =>
    let c := if c =? rm_scols rm then 0 else c in
    rc ← rd (rm_col rm) c;
    Ok (c + 1, ev ++ [EIssue (CIO (rc_devidx rc) (u64 (rc_offset rc + rc_size rc)) (Z.shiftl 1 ashift) true None false false None)]))
    (rm_skipstart rm, []);
  Ok ev.

Definition vdev_raidz_io_start (z : zio_flags) (io_offset io_size : Z) (io_data : list Z)
    (ashift children nparity : Z) : res (raidz_map * list event) :=
  rm ← vdev_raidz_map_alloc zio_buf_alloc io_offset io_size io_data ashift children nparity;
  if zf_write z then
    rm ← vdev_raidz_generate_parity rm;
    ev ← for_range 0 (rm_cols rm) (fun c ev =>
      rc ← rd (rm_col rm) c;
      Ok (ev ++ [EIssue (col_io true false false (Some c) rc)])) [];
    ev' ← io_start_skip ashift rm;
    Ok (rm, ev ++ ev')
  else
    for_range 0 (rm_cols rm) (fun i => io_start_read_col z (rm_cols rm - 1 - i)) (rm, []).

(** ** Checksums *)

(** [raidz_checksum_error]. *)
Definition raidz_checksum_error (z : zio_flags) (rc : raidz_col) (bad_data : list Z) : list event :=
  if zf_speculative z then [] else [ECksumError (rc_devidx rc) (rc_data rc) bad_data].

(** [raidz_checksum_verify]: the error, and the map with the injection noted. *)
Definition raidz_checksum_verify (rm : raidz_map) : Z * raidz_map :=
  let '(ret, injected) := zio_checksum_error (io_buffer rm) in
  (ret, if negb (ret =? 0) && injected then set_rm_injected rm else rm).

(** A parity column that was read and can be compared. *)
Definition parity_read (rc : raidz_col) : bool := rc_tried rc && (rc_error rc =? 0).

Definition raidz_parity_verify (z : zio_flags) (rm : raidz_map) : res (raidz_map * list event * Z) :=
  orig ← for_range 0 (rm_firstdatacol rm) (fun c orig =>
    rc ← rd (rm_col rm) c;
    if parity_read rc then
      d ← rdbuf (rc_data rc) (rc_size rc); push VDEV_RAIDZ_MAXPARITY orig (Some d)
    else push VDEV_RAIDZ_MAXPARITY orig None) [];
  rm ← vdev_raidz_generate_parity rm;
  for_range 0 (rm_firstdatacol rm) (fun c '(rm, ev, ret) =>
    rc ← rd (rm_col rm) c;
    if parity_read rc then
      o ← rd orig c;
      match o with
      | Some d =>
          d' ← rdbuf (rc_data rc) (rc_size rc);
          if bool_decide (d = d') then Ok (rm, ev, ret)
          else
            rm ← upd_col rm c (set_rc_error ECKSUM);
            Ok (rm, ev ++ raidz_checksum_error z rc d, ret + 1)
      | None => Fault FOob
      end
    else Ok (rm, ev, ret)) (rm, [], 0).

Definition vdev_raidz_worst_error (rm : raidz_map) : res Z :=
  for_range 0 (rm_cols rm) (fun c error =>
    rc ← rd (rm_col rm) c; Ok (zio_worst_error error (rc_error rc))) 0.

(** ** Combinatorial reconstruction *)

(** [while (rm->rm_col[c].rc_error != 0) c++]. *)
Definition skip_errors (rm : raidz_map) (c : Z) : res Z :=
  loop (S (length (rm_col rm))) (fun c =>
    rc ← rd (rm_col rm) c; Ok (if negb (rc_error rc =? 0) then inl (c + 1) else inr c)) c.

(** [for (next = c; next < rm->rm_cols && rm->rm_col[next].rc_error != 0; next++)]. *)
Definition next_valid (rm : raidz_map) (c : Z) : res Z :=
  loop (S (length (rm_col rm))) (fun c =>
    if c <? rm_cols rm then
      rc ← rd (rm_col rm) c; Ok (if negb (rc_error rc =? 0) then inl (c + 1) else inr c)
    else Ok (inr c)) c.

(** The array [tstore], whose cell [i + 1] is [tgts[i]]. *)
Abbreviation tget ts i := (rd ts (i + 1)).
Abbreviation tset ts i v := (wr ts (i + 1) v).

(** The first combination of [n] columns. *)
Definition comb_init (rm : raidz_map) (n data_errors : Z) (ts : list Z) : res (list Z) :=
  let first := rm_firstdatacol rm in
  '(_, ts) ← for_range 0 n (fun i '(c, ts) =>
    let c := if (i =? n - 1) && (data_errors =? 0) && (c <? first) then first else c in
    c ← skip_errors rm c;
    ts ← tset ts i c;
    Ok (c + 1, ts)) (0, ts);
  tset ts n (rm_cols rm).

(** The step to the next combination: the position to change and its value;
    position [n] when there is none. *)
Definition comb_next (rm : raidz_map) (n : Z) (ts : list Z) : res (list Z * Z * Z) :=
  loop (S (Z.to_nat n)) (fun '(ts, curr) =>
    t ← tget ts curr;
    next ← next_valid rm (t + 1);
    t1 ← tget ts (curr + 1);
    if negb (next =? t1) then Ok (inr (ts, curr, next))
    else
      p ← tget ts (curr - 1);
      c ← skip_errors rm (p + 1);
      ts ← tset ts curr c;
      Ok (if curr + 1 =? n then inr (ts, curr + 1, next) else inl (ts, curr + 1))) (ts, 0).

(** Save the columns about to be reconstructed, and put them back. *)
Definition comb_save (rm : raidz_map) (n : Z) (ts : list Z) (orig : list (list Z)) : res (list (list Z)) :=
  for_range 0 n (fun i orig =>
    c ← tget ts i;
    rc ← rd (rm_col rm) c;
    b ← rd orig i;
    b ← wrbuf b (rc_data rc) (rc_size rc);
    wr orig i b) orig.

Definition comb_restore (n : Z) (ts : list Z) (orig : list (list Z)) (rm : raidz_map) : res raidz_map :=
  for_range 0 n (fun i rm =>
    c ← tget ts i;
    rc ← rd (rm_col rm) c;
    b ← rd orig i;
    d ← wrbuf (rc_data rc) b (rc_size rc);
    set_col_data rm c d) rm.

(** Note the columns found bad. *)
Definition comb_blame (z : zio_flags) (n : Z) (ts : list Z) (orig : list (list Z)) (rm : raidz_map) :
    res (raidz_map * list event) :=
  for_range 0 n (fun i '(rm, ev) =>
    c ← tget ts i;
    rc ← rd (rm_col rm) c;
    b ← rd orig i;
    rm ← upd_col rm c (set_rc_error ECKSUM);
    Ok (rm, ev ++ (if rc_tried rc then raidz_checksum_error z rc b else []))) (rm, []).

(** The attempts with [n] targets: the code and the events of a success. *)
Definition comb_attempts (z : zio_flags) (n : Z) (rm : raidz_map) (ts : list Z) (orig : list (list Z)) :
    res (raidz_map * list Z * list (list Z) * option (Z * list event)) :=
  t0 ← tget ts 0;
  loop (S (Z.to_nat ((rm_cols rm + 1) ^ n))) (fun '(rm, ts, orig, curr, next) =>
    if curr =? n then Ok (inr (rm, ts, orig, None))
    else
      ts ← tset ts curr next;
      orig ← comb_save rm n ts orig;
      '(rm, code) ← vdev_raidz_reconstruct kmem_alloc zio_buf_alloc vdev_raidz_default_to_general rm
                      (take (Z.to_nat n) (drop 1 ts)) n;
      let '(ret, rm) := raidz_checksum_verify rm in
      if ret =? 0 then
        '(rm, ev) ← comb_blame z n ts orig rm;
        Ok (inr (rm, ts, orig, Some (code, ECorrected code :: ev)))
      else
        rm ← comb_restore n ts orig rm;
        '(ts, curr, next) ← comb_next rm n ts;
        Ok (inl (rm, ts, orig, curr, next))) (rm, ts, orig, 0, t0).

(** [tstore0] is what the stack held. *)
Definition vdev_raidz_combrec (z : zio_flags) (tstore0 : list Z) (rm : raidz_map) (total_errors data_errors : Z) :
    res (raidz_map * list event * Z) :=
  let first := rm_firstdatacol rm in
  ts ← wr tstore0 0 (-1);
  loop (S (Z.to_nat (first - total_errors))) (fun '(rm, ts, orig, n) =>
    if n <=? first - total_errors then
      ts ← comb_init rm n data_errors ts;
      size ← col_size rm 0;
      orig ← push VDEV_RAIDZ_MAXPARITY orig (zio_buf_alloc size);
      '(rm, ts, orig, found) ← comb_attempts z n rm ts orig;
      match found with
      | Some (code, ev) => Ok (inr (rm, ev, code))
      | None => Ok (inl (rm, ts, orig, n + 1))
      end
    else Ok (inr (rm, [], 0))) (rm, ts, [], 1).

(** ** Completion *)

(** The errors of the columns: unexpected ones, those of parity columns, parity
    columns not tried, those of data columns, all of them. *)
Record counts := Counts {
  unexpected_errors : Z;
  parity_errors : Z;
  parity_untried : Z;
  data_errors : Z;
  total_errors : Z }.

Definition io_done_count (rm : raidz_map) : res counts :=
  for_range 0 (rm_cols rm) (fun c '(Counts ue pe pu de te) =>
    rc ← rd (rm_col rm) c;
    if negb (rc_error rc =? 0) then
      let '(pe, de) := if c <? rm_firstdatacol rm then (pe + 1, de) else (pe, de + 1) in
      Ok (Counts (if negb (rc_skipped rc) then ue + 1 else ue) pe pu de (te + 1))
    else if (c <? rm_firstdatacol rm) && negb (rc_tried rc) then Ok (Counts ue pe (pu + 1) de te)
    else Ok (Counts ue pe pu de te)) (Counts 0 0 0 0 0).

(** The data columns that reported an error. *)
Definition io_done_targets (rm : raidz_map) : res (list Z) :=
  for_range (rm_firstdatacol rm) (rm_cols rm) (fun c tgts =>
    rc ← rd (rm_col rm) c;
    if negb (rc_error rc =? 0) then push VDEV_RAIDZ_MAXPARITY tgts c else Ok tgts) [].

(** The first phase, when the errors can be corrected with the parity that was
    read: [Some] with the errors added to the unexpected ones when it yields
    data with a valid checksum. *)
Definition io_done_correct (z : zio_flags) (k : counts) (rm : raidz_map) :
    res (raidz_map * list event * option Z) :=
  let first := rm_firstdatacol rm in
  if total_errors k <=? first - parity_untried k then
    if data_errors k =? 0 then
      let '(ret, rm) := raidz_checksum_verify rm in
      if ret =? 0 then
        if (parity_errors k + parity_untried k <? first) || zf_resilver z then
          '(rm, ev, n) ← raidz_parity_verify z rm; Ok (rm, ev, Some n)
        else Ok (rm, [], Some 0)
      else Ok (rm, [], None)
    else
      tgts ← io_done_targets rm;
      '(rm, code) ← vdev_raidz_reconstruct kmem_alloc zio_buf_alloc vdev_raidz_default_to_general rm tgts (zlen tgts);
      let '(ret, rm) := raidz_checksum_verify rm in
      if ret =? 0 then
        if (parity_errors k <? first - zlen tgts) || zf_resilver z then
          '(rm, ev, n) ← raidz_parity_verify z rm; Ok (rm, ECorrected code :: ev, Some n)
        else Ok (rm, [ECorrected code], Some 0)
      else Ok (rm, [], None)
  else Ok (rm, [], None).

(** The second phase: read every column not tried yet. *)
Definition io_done_retry (rm : raidz_map) : res (list event) :=
  for_range 0 (rm_cols rm) (fun c ev =>
    rc ← rd (rm_col rm) c;
    Ok (if rc_tried rc then ev else ev ++ [EIssue (col_io false false false (Some c) rc)])) [].

(** [vdev_raidz_cksum_report], started for a column by
    [zfs_ereport_start_checksum]: hold the map, and copy the data columns aside
    the first time. *)
Definition vdev_raidz_cksum_report (rm : raidz_map) : res raidz_map :=
  let rm := set_rm_reports (rm_reports rm + 1) rm in
  match rm_datacopy rm with
  | Some _ => Ok rm
  | None =>
      size ← for_range (rm_firstdatacol rm) (rm_cols rm) (fun c size => n ← col_size rm c; Ok (size + n)) 0;
      '(rm, buf, _) ← for_range (rm_firstdatacol rm) (rm_cols rm) (fun c '(rm, buf, off) =>
        d ← col_data rm c;
        n ← col_size rm c;
        d ← rdbuf d n;
        if off + n <=? zlen buf then
          rm ← set_col_data rm c d;
          Ok (rm, take (Z.to_nat off) buf ++ d ++ drop (Z.to_nat (off + n)) buf, off + n)
        else Fault FWrite) (rm, zio_buf_alloc size, 0);
      Ok (set_rm_datacopy (Some buf) rm)
  end.

(** Start checksum reports for the children that did not fail. *)
Definition io_done_report (z : zio_flags) (rm : raidz_map) : res (raidz_map * list event) :=
  if zf_speculative z then Ok (rm, [])
  else
    for_range 0 (rm_cols rm) (fun c '(rm, ev) =>
      rc ← rd (rm_col rm) c;
      if rc_error rc =? 0 then
        rm ← vdev_raidz_cksum_report rm; Ok (rm, ev ++ [EReport c])
      else Ok (rm, ev)) (rm, []).

(** The third phase, when everything has been read: the map, the events and
    the error of the I/O. *)
Definition io_done_combine (z : zio_flags) (tstore0 : list Z) (k : counts) (io_error : Z) (rm : raidz_map) :
    res (raidz_map * list event * Z) :=
  let first := rm_firstdatacol rm in
  if first <? total_errors k then
    e ← vdev_raidz_worst_error rm; Ok (rm, [], e)
  else
    '(rm, ev, code) ←
      (if total_errors k <? first then vdev_raidz_combrec z tstore0 rm (total_errors k) (data_errors k)
       else Ok (rm, [], 0));
    if negb (code =? 0) then
      if negb (code =? Z.shiftl 1 first - 1) then
        '(rm, ev', _) ← raidz_parity_verify z rm; Ok (rm, ev ++ ev', io_error)
      else Ok (rm, ev, io_error)
    else
      '(rm, ev') ← io_done_report z rm; Ok (rm, ev ++ ev', ECKSUM).

(** Write good data back to the columns in error. *)
Definition io_done_repair (unexpected : bool) (rm : raidz_map) : res (list event) :=
  for_range 0 (rm_cols rm) (fun c ev =>
    rc ← rd (rm_col rm) c;
    Ok (if rc_error rc =? 0 then ev else ev ++ [EIssue (col_io true true unexpected None rc)])) [].

(** Outcome of [vdev_raidz_io_done]: done with the error of the I/O, or to be
    called again when the I/Os it issued are done. *)
Inductive done := Done (io_error : Z) | Redone.

Definition io_done_finish (z : zio_flags) (writeable : bool) (unexpected io_error : Z) (rm : raidz_map) (ev : list event) :
    res (raidz_map * list event * done) :=
  if (io_error =? 0) && writeable && (negb (unexpected =? 0) || zf_resilver z) then
    ev' ← io_done_repair (negb (unexpected =? 0)) rm; Ok (rm, ev ++ ev', Done io_error)
  else Ok (rm, ev, Done io_error).

(** [io_error] is the error the zio has when its children are done, zero unless
    the pipeline recorded one; [writeable] is [spa_writeable]. *)
Definition vdev_raidz_io_done (z : zio_flags) (writeable : bool) (tstore0 : list Z) (io_error : Z) (rm : raidz_map) :
    res (raidz_map * list event * done) :=
  k ← io_done_count rm;
  if zf_write z then
    if rm_firstdatacol rm <? total_errors k then
      e ← vdev_raidz_worst_error rm; Ok (rm, [], Done e)
    else Ok (rm, [], Done io_error)
  else
    '(rm, ev, ok) ← io_done_correct z k rm;
    match ok with
    | Some n => io_done_finish z writeable (unexpected_errors k + n) io_error rm ev
    | None =>
        let rm := set_rm_missing 0 0 rm in
        ev' ← io_done_retry rm;
        if negb (bool_decide (ev' = [])) then Ok (rm, ev ++ ev', Redone)
        else
          '(rm, ev', io_error) ← io_done_combine z tstore0 k io_error rm;
          io_done_finish z writeable 1 io_error rm (ev ++ ev')
    end.

(** ** Checksum reports *)

(** Point the columns of a map at consecutive pieces of a buffer. *)
Definition cols_from (buf : list Z) (rm : raidz_map) : res raidz_map :=
  '(rm, _) ← for_range (rm_firstdatacol rm) (rm_cols rm) (fun c '(rm, off) =>
    n ← col_size rm c;
    rm ← set_col_data rm c (take (Z.to_nat n) (drop (Z.to_nat off) buf));
    Ok (rm, off + n)) (rm, 0);
  Ok rm.

(** [vdev_raidz_cksum_finish]: what the report of column [c] is finished with
    when the good data of the I/O is known, the good and the bad content. *)
Definition vdev_raidz_cksum_finish (rm : raidz_map) (c : Z) (good_data : option (list Z)) :
    res (raidz_map * option (list Z * list Z)) :=
  bad ← col_data rm c;
  match good_data with
  | None => Ok (rm, None)
  | Some good_data =>
      if c <? rm_firstdatacol rm then
        c0 ← rd (rm_col rm) 0;
        rm ← match rc_gdata c0 with
             | Some _ => Ok rm
             | None =>
                 '(rm', bad_parity) ← for_range 0 (rm_firstdatacol rm) (fun x '(rm, bad_parity) =>
                   d ← col_data rm x;
                   n ← col_size rm x;
                   bad_parity ← push VDEV_RAIDZ_MAXPARITY bad_parity d;
                   rm ← set_col_data rm x (zio_buf_alloc n);
                   Ok (rm, bad_parity)) (rm, []);
                 rm' ← cols_from good_data rm';
                 rm' ← vdev_raidz_generate_parity rm';
                 rm' ← for_range 0 (rm_firstdatacol rm') (fun x rm =>
                   g ← col_data rm x;
                   rm ← upd_col rm x (set_rc_gdata (Some g));
                   d ← rd bad_parity x;
                   set_col_data rm x d) rm';
                 match rm_datacopy rm' with
                 | Some buf => cols_from buf rm'
                 | None => Fault FOob
                 end
             end;
        rc ← rd (rm_col rm) c;
        match rc_gdata rc with
        | Some good => Ok (rm, Some (good, bad))
        | None => Fault FOob
        end
      else
        off ← for_range (rm_firstdatacol rm) c (fun x off => n ← col_size rm x; Ok (off + n)) 0;
        Ok (rm, Some (drop (Z.to_nat off) good_data, bad))
  end.

(** [vdev_raidz_map_free_vsd] and [vdev_raidz_cksum_free]: the map, and whether
    [vdev_raidz_map_free] was called on it. *)
Definition vdev_raidz_map_free_vsd (rm : raidz_map) : raidz_map * bool :=
  let rm := set_rm_freed rm in (rm, rm_reports rm =? 0).
Definition vdev_raidz_cksum_free (rm : raidz_map) : raidz_map * bool :=
  let rm := set_rm_reports (rm_reports rm - 1) rm in (rm, (rm_reports rm =? 0) && rm_freed rm).
End io.

(** ** Opening, and changes of state *)

(** A child as [vdev_open_children] leaves it. *)
Record child := Child { vdev_open_error : Z; vdev_asize : Z; vdev_max_asize : Z; vdev_ashift : Z }.

Inductive vdev_aux := VDEV_AUX_NONE | VDEV_AUX_BAD_LABEL | VDEV_AUX_NO_REPLICAS.
Inductive vdev_state := VDEV_STATE_CANT_OPEN | VDEV_STATE_DEGRADED | VDEV_STATE_HEALTHY.

(** One child of the loop. *)
Definition open_child (acc : Z * Z * Z * Z * Z) (cvd : child) : Z * Z * Z * Z * Z :=
  let '(asize, max_asize, ashift, lasterror, numerrors) := acc in
  if negb (vdev_open_error cvd =? 0) then (asize, max_asize, ashift, vdev_open_error cvd, numerrors + 1)
  else (u64 (Z.min (u64 (asize - 1)) (u64 (vdev_asize cvd - 1)) + 1),
        u64 (Z.min (u64 (max_asize - 1)) (u64 (vdev_max_asize cvd - 1)) + 1),
        Z.max ashift (vdev_ashift cvd), lasterror, numerrors).

(** Error, [vs_aux] when it is set, and the three sizes through the pointers. *)
Definition vdev_raidz_open (nparity : Z) (children : list child) (asize max_asize ashift : Z) :
    Z * option vdev_aux * (Z * Z * Z) :=
  if (VDEV_RAIDZ_MAXPARITY <? nparity) || (zlen children <? nparity + 1) then
    (EINVAL, Some VDEV_AUX_BAD_LABEL, (asize, max_asize, ashift))
  else
    let '(asize, max_asize, ashift, lasterror, numerrors) :=
      fold_left open_child children (asize, max_asize, ashift, 0, 0) in
    let asize := u64 (asize * zlen children) in
    let max_asize := u64 (max_asize * zlen children) in
    if nparity <? numerrors then (lasterror, Some VDEV_AUX_NO_REPLICAS, (asize, max_asize, ashift))
    else (0, None, (asize, max_asize, ashift)).

Definition vdev_raidz_state_change (nparity faulted degraded : Z) : vdev_state * vdev_aux :=
  if nparity <? faulted then (VDEV_STATE_CANT_OPEN, VDEV_AUX_NO_REPLICAS)
  else if negb (degraded + faulted =? 0) then (VDEV_STATE_DEGRADED, VDEV_AUX_NONE)
  else (VDEV_STATE_HEALTHY, VDEV_AUX_NONE).
End RaidzIo.
