(* ===== verification/RaidzState.v ===== *)
(** RAID-Z maps in the course of an I/O: maps that differ in the contents of
    their columns only, and the caller's buffer as the data columns make it up. *)

From S2P Require Import Prelude Galois RaidzMap RaidzParity RaidzReconstruct RaidzGeneral RaidzSolve RaidzRepair RaidzIo.
Import Galois RaidzMap RaidzParity RaidzReconstruct RaidzGeneral RaidzSolve RaidzRepair RaidzIo.
Open Scope Z_scope.

Module RaidzState.

(** ** The shape of a map: everything but contents *)

Definition skel (rc : raidz_col) : raidz_col := set_rc_data [] rc.
Definition shape (rm : raidz_map) : Z * Z * list raidz_col := (rm_cols rm, rm_firstdatacol rm, map skel (rm_col rm)).

Section shape.
Implicit Types rm : raidz_map.

Lemma shape_cols rm rm' : shape rm = shape rm' -> rm_cols rm = rm_cols rm'.
Proof. unfold shape. congruence. Qed.

Lemma shape_first rm rm' : shape rm = shape rm' -> rm_firstdatacol rm = rm_firstdatacol rm'.
Proof. unfold shape. congruence. Qed.

Lemma shape_skel rm rm' i : shape rm = shape rm' -> skel <$> rm_col rm !! i = skel <$> rm_col rm' !! i.
Proof.
  unfold shape. intros [= _ _ E]. rewrite <- !list_lookup_fmap. change (skel <$> ?l) with (map skel l). by rewrite E.
Qed.

Lemma shape_length rm rm' : shape rm = shape rm' -> length (rm_col rm) = length (rm_col rm').
Proof. unfold shape. intros [= _ _ E]. rewrite <- (length_map skel (rm_col rm)), E. apply length_map. Qed.

Lemma shape_siz rm rm' c : shape rm = shape rm' -> siz rm c = siz rm' c.
Proof.
  intros E. pose proof (shape_skel rm rm' (Z.to_nat c) E) as H. unfold siz.
  destruct (rm_col rm !! _) as [[]|], (rm_col rm' !! _) as [[]|]; unfold skel, set_rc_data in H; cbn in *; congruence.
Qed.

Lemma shape_err rm rm' c : shape rm = shape rm' -> err rm c = err rm' c.
Proof.
  intros E. pose proof (shape_skel rm rm' (Z.to_nat c) E) as H. unfold err.
  destruct (rm_col rm !! _) as [[]|], (rm_col rm' !! _) as [[]|]; unfold skel, set_rc_data in H; cbn in *; congruence.
Qed.

Lemma shape_wdat rm c d : shape (wdat rm c d) = shape rm.
Proof.
  unfold shape. cbn. f_equal. apply list_eq. intros i. change (map skel ?l) with (skel <$> l).
  rewrite !list_lookup_fmap. destruct (decide (i = Z.to_nat c)) as [->|].
  - rewrite list_lookup_alter_eq. by destruct (rm_col rm !! _) as [[]|].
  - by rewrite list_lookup_alter_ne by done.
Qed.

Lemma shape_wdats rm cs ds : shape (wdats rm cs ds) = shape rm.
Proof. revert rm ds. induction cs as [|c cs IH]; intros rm [|d ds]; cbn [wdats]; try done. rewrite IH. apply shape_wdat. Qed.

Lemma shape_injected rm : shape (set_rm_injected rm) = shape rm.
Proof. done. Qed.

(** *** The outline: errors left out as well *)

Definition outline rm : Z * Z * list raidz_col :=
  (rm_cols rm, rm_firstdatacol rm, map (fun rc => set_rc_error 0 (skel rc)) (rm_col rm)).

Lemma shape_outline rm rm' : shape rm = shape rm' -> outline rm = outline rm'.
Proof.
  unfold shape, outline. intros [= -> -> E]. f_equal. rewrite <- !(map_map skel (set_rc_error 0)). by rewrite E.
Qed.

Lemma outline_cols rm rm' : outline rm = outline rm' -> rm_cols rm = rm_cols rm'.
Proof. unfold outline. congruence. Qed.

Lemma outline_first rm rm' : outline rm = outline rm' -> rm_firstdatacol rm = rm_firstdatacol rm'.
Proof. unfold outline. congruence. Qed.

Lemma outline_length rm rm' : outline rm = outline rm' -> length (rm_col rm) = length (rm_col rm').
Proof.
  unfold outline. intros [= _ _ E]. rewrite <- (length_map (fun rc => set_rc_error 0 (skel rc)) (rm_col rm)), E. apply length_map.
Qed.

Lemma outline_siz rm rm' c : outline rm = outline rm' -> siz rm c = siz rm' c.
Proof.
  unfold outline. intros [= _ _ E]. apply (f_equal (fun l => l !! Z.to_nat c)) in E.
  change (map ?f ?l) with (f <$> l) in E. rewrite !list_lookup_fmap in E. unfold siz.
  destruct (rm_col rm !! _) as [[]|], (rm_col rm' !! _) as [[]|]; unfold skel, set_rc_data, set_rc_error in E; cbn in *; congruence.
Qed.

Lemma outline_error rm c x : outline (ualt rm c (set_rc_error x)) = outline rm.
Proof.
  unfold outline. cbn. f_equal. apply list_eq. intros i. change (map ?f ?l) with (f <$> l).
  rewrite !list_lookup_fmap. destruct (decide (i = Z.to_nat c)) as [->|].
  - rewrite list_lookup_alter_eq. by destruct (rm_col rm !! _) as [[]|].
  - by rewrite list_lookup_alter_ne by done.
Qed.

Lemma dat_error rm c x x' : dat (ualt rm x (set_rc_error x')) c = dat rm c.
Proof.
  unfold dat. cbn. destruct (decide (Z.to_nat c = Z.to_nat x)) as [->|].
  - rewrite list_lookup_alter_eq. by destruct (rm_col rm !! _).
  - by rewrite list_lookup_alter_ne by done.
Qed.

(** A map of the outline of a well-formed one, its columns filled. *)
Lemma outline_wf rm rm' : rm_wf rm' -> outline rm = outline rm' ->
  (forall c, 0 <= c < rm_cols rm' -> zlen (dat rm c) = siz rm' c /\ Forall is_byte (dat rm c)) -> rm_wf rm.
Proof.
  intros [Hn Hf Hc Hp Hcol Hd] E Hdat. pose proof (outline_cols _ _ E) as Ec. pose proof (outline_first _ _ E) as Ef.
  split; rewrite ?Ec, ?Ef; try done.
  - by rewrite (outline_length _ _ E).
  - intros c Hr. rewrite !(outline_siz _ _ _ E). by apply Hp.
  - intros c Hr. rewrite (outline_siz _ _ _ E). destruct (Hcol c Hr) as (? & ? & _). destruct (Hdat c Hr). done.
  - intros x y Hx Hy. rewrite !(outline_siz _ _ _ E). by apply Hd.
Qed.

Lemma shape_wf rm rm' : rm_wf rm' -> shape rm = shape rm' ->
  (forall c, 0 <= c < rm_cols rm' -> zlen (dat rm c) = siz rm' c /\ Forall is_byte (dat rm c)) -> rm_wf rm.
Proof. intros Hw E%shape_outline. by apply outline_wf. Qed.

Lemma wf_error rm c x : rm_wf rm -> rm_wf (ualt rm c (set_rc_error x)).
Proof.
  intros Hw. apply (outline_wf _ rm); [done|apply outline_error|]. intros c' Hc'. rewrite dat_error.
  by destruct (wf_col _ Hw c' Hc') as (_ & _ & ? & ?).
Qed.

Lemma rd_col rm c : in_map rm c -> exists rc, rd (rm_col rm) c = Ok rc /\ rm_col rm !! Z.to_nat c = Some rc /\
  rc_data rc = dat rm c /\ rc_size rc = siz rm c /\ rc_error rc = err rm c.
Proof.
  intros Hc. destruct (rd_in_bounds (rm_col rm) c Hc) as (rc & E & El). exists rc.
  unfold dat, siz, err. by rewrite E, El.
Qed.

(** ** The caller's buffer *)

Lemma io_buffer_dat rm : rm_wf rm ->
  io_buffer rm = mjoin (map (dat rm) (seqZ (rm_firstdatacol rm) (rm_cols rm - rm_firstdatacol rm))).
Proof.
  intros [Hn Hf Hc _ _ _]. unfold io_buffer. f_equal. apply list_eq. intros i.
  change (map ?f ?l) with (f <$> l). rewrite !list_lookup_fmap, lookup_drop.
  destruct (decide (Z.of_nat i < rm_cols rm - rm_firstdatacol rm)) as [Hi|Hi].
  - rewrite lookup_take_lt, lookup_seqZ_lt by lia. cbn. unfold dat.
    replace (Z.to_nat (rm_firstdatacol rm + Z.of_nat i)) with (Z.to_nat (rm_firstdatacol rm) + i)%nat by lia.
    destruct (lookup_lt_is_Some_2 (rm_col rm) (Z.to_nat (rm_firstdatacol rm) + i)) as [rc ->]; [lia|done].
  - rewrite lookup_take_ge, lookup_seqZ_ge by lia. done.
Qed.

(** The buffer determines the data columns. *)
Lemma mjoin_inj (f g : Z -> list Z) l : (forall c, In c l -> length (f c) = length (g c)) ->
  mjoin (map f l) = mjoin (map g l) -> forall c, In c l -> f c = g c.
Proof.
  induction l as [|x l IH]; intros Hl E c Hc; [done|]. cbn in E.
  apply app_inj_1 in E as [E1 E2]; [|apply Hl; by left]. destruct Hc as [->|Hc]; [done|].
  apply IH; [|done|done]. intros; apply Hl; by right.
Qed.

Lemma io_buffer_inj rm rm' : rm_wf rm -> rm_wf rm' -> rm_cols rm = rm_cols rm' -> rm_firstdatacol rm = rm_firstdatacol rm' ->
  (forall c, siz rm c = siz rm' c) -> io_buffer rm = io_buffer rm' ->
  forall c, rm_firstdatacol rm <= c < rm_cols rm -> dat rm c = dat rm' c.
Proof.
  intros Hw Hw' Ec Ef Es. rewrite !io_buffer_dat, <- Ec, <- Ef by done.
  intros Hj c Hc. eapply mjoin_inj; [|exact Hj|apply list_elem_of_In, elem_of_seqZ; lia].
  intros x Hx%list_elem_of_In%elem_of_seqZ. pose proof (wf_np _ Hw). specialize (Es x).
  destruct (wf_col _ Hw x) as (_ & _ & L & _); [lia|]. destruct (wf_col _ Hw' x) as (_ & _ & L' & _); lia.
Qed.

Lemma io_buffer_ext rm rm' : rm_wf rm -> rm_wf rm' -> rm_cols rm = rm_cols rm' -> rm_firstdatacol rm = rm_firstdatacol rm' ->
  (forall c, rm_firstdatacol rm <= c < rm_cols rm -> dat rm c = dat rm' c) -> io_buffer rm = io_buffer rm'.
Proof.
  intros Hw Hw' Ec Ef Hd. rewrite !io_buffer_dat, <- Ec, <- Ef by done. f_equal. apply map_ext_in.
  intros c Hc%list_elem_of_In%elem_of_seqZ. apply Hd. lia.
Qed.
End shape.

(** ** Events *)

(** Events that issue no I/O. *)
Definition quiet (ev : list event) : Prop := forall io, ~ In (EIssue io) ev.

Lemma quiet_nil : quiet [].
Proof. intros io []. Qed.

Lemma quiet_app ev ev' : quiet ev -> quiet ev' -> quiet (ev ++ ev').
Proof. intros H H' io [?|?]%in_app_iff; [by apply (H io)|by apply (H' io)]. Qed.

Lemma quiet_cons e ev : quiet [e] -> quiet ev -> quiet (e :: ev).
Proof. apply (quiet_app [e]). Qed.

Lemma quiet_cksum z rc d : quiet (raidz_checksum_error z rc d).
Proof. intros io. unfold raidz_checksum_error. destruct (zf_speculative z); cbn; [tauto|]. intros [?|[]]. done. Qed.

Lemma quiet_corrected code : quiet [ECorrected code].
Proof. intros io [?|[]]. done. Qed.

Create HintDb quiet.
#[export] Hint Resolve quiet_nil quiet_app quiet_cons quiet_cksum quiet_corrected : quiet.

(** ** Verification of parity *)

Lemma rdbuf_ok d n : n = zlen d -> rdbuf d n = Ok d.
Proof.
  intros ->. unfold rdbuf. rewrite (proj2 (Z.leb_le 0 _)), Z.leb_refl by lia. cbn. by rewrite Nat2Z.id, firstn_all.
Qed.

(** The map with its parity recomputed; only parity columns are touched. *)
Definition reparity (rm rm' : raidz_map) : Prop :=
  rm_wf rm' /\ outline rm' = outline rm /\
  (forall c, rm_firstdatacol rm <= c -> rm_col rm' !! Z.to_nat c = rm_col rm !! Z.to_nat c) /\
  (forall c, 0 <= c < rm_firstdatacol rm -> dat rm' c = parity_col (Z.to_nat c) rm) /\
  (forall c, 0 <= c -> err rm c <> 0 -> err rm' c = err rm c).

Section parity.
Context (z : zio_flags) (rm : raidz_map) (Hwf : rm_wf rm).
Abbreviation first := (rm_firstdatacol rm).

(** The copies of the parity columns that were read. *)
Definition copies (k : Z) : list (option (list Z)) :=
  map (fun c => match rm_col rm !! Z.to_nat c with Some rc => if parity_read rc then Some (dat rm c) else None | None => None end) (seqZ 0 k).

Lemma copies_ok :
  for_range 0 first (fun c orig =>
    rc ← rd (rm_col rm) c;
    if parity_read rc then d ← rdbuf (rc_data rc) (rc_size rc); push VDEV_RAIDZ_MAXPARITY orig (Some d)
    else push VDEV_RAIDZ_MAXPARITY orig None) [] = Ok (copies first).
Proof using Hwf.
  pose proof (wf_np _ Hwf). pose proof (wf_first _ Hwf). pose proof (wf_cols _ Hwf).
  apply (for_range_fun copies); [lia| |done|done]. intros c Hc.
  destruct (rd_col rm c) as (rc & -> & El & Ed & Es & _); [lia|]. bnd. rewrite Ed, Es.
  destruct (wf_col _ Hwf c) as (_ & _ & L & _); [lia|]. rewrite rdbuf_ok by done. bnd.
  assert (Hl : zlen (copies c) < VDEV_RAIDZ_MAXPARITY)
    by (unfold copies, VDEV_RAIDZ_MAXPARITY; rewrite length_map, length_seqZ; lia).
  rewrite !push_ok by done. unfold copies. rewrite seqZ_app, map_app by lia.
  rewrite (seqZ_cons (0 + c) 1), (seqZ_nil _ (Z.pred 1)) by lia. cbn [map]. rewrite Z.add_0_l, El. by destruct (parity_read rc).
Qed.

Lemma rd_copies c : 0 <= c < first -> rd (copies first) c =
  Ok (match rm_col rm !! Z.to_nat c with Some rc => if parity_read rc then Some (dat rm c) else None | None => None end).
Proof.
  intros Hc. apply rd_Some; [lia|]. unfold copies. change (map ?f ?l) with (f <$> l).
  rewrite list_lookup_fmap, lookup_seqZ_lt by lia. cbn. by rewrite Z2Nat.id by lia.
Qed.

Lemma shape_setpar n rm' : shape (setpar n rm') = shape rm'.
Proof. induction n as [|n IH]; [done|]. cbn [setpar]. by rewrite shape_wdat. Qed.

(** The comparison: parity columns that differ from what was read are marked. *)
Lemma parity_compare rm1 : shape rm1 = shape rm -> rm_wf rm1 ->
  wp (for_range 0 first (fun c '(rm', ev, ret) =>
    rc ← rd (rm_col rm') c;
    if parity_read rc then
      o ← rd (copies first) c;
      match o with
      | Some d =>
          d' ← rdbuf (rc_data rc) (rc_size rc);
          if bool_decide (d = d') then Ok (rm', ev, ret)
          else rm' ← upd_col rm' c (set_rc_error ECKSUM); Ok (rm', ev ++ raidz_checksum_error z rc d, ret + 1)
      | None => Fault FOob
      end
    else Ok (rm', ev, ret)) (rm1, [], 0))
  (fun '(rm2, ev, _) => quiet ev /\ rm_wf rm2 /\ outline rm2 = outline rm1 /\ (forall c, dat rm2 c = dat rm1 c) /\
    (forall c, first <= c -> rm_col rm2 !! Z.to_nat c = rm_col rm1 !! Z.to_nat c) /\
    (forall c, 0 <= c -> err rm1 c <> 0 -> err rm2 c = err rm1 c)).
Proof using Hwf.
  intros Hs1 Hw1. pose proof (wf_np _ Hwf). pose proof (wf_first _ Hwf). pose proof (wf_cols _ Hw1).
  pose proof (shape_cols _ _ Hs1) as Ec.
  apply (wp_for_range (fun i '(rm2, ev, _) => quiet ev /\ rm_wf rm2 /\ outline rm2 = outline rm1 /\ (forall c, dat rm2 c = dat rm1 c) /\
    (forall c, i <= c -> rm_col rm2 !! Z.to_nat c = rm_col rm1 !! Z.to_nat c) /\
    (forall c, 0 <= c -> err rm1 c <> 0 -> err rm2 c = err rm1 c))).
  - lia.
  - split; [apply quiet_nil|by split_and!].
  - intros c [[rm2 ev] ret] Hc (Hq & Hw2 & Ho2 & Hd2 & Hcol2 & He2).
    assert (Hnext : forall c', c + 1 <= c' -> rm_col rm2 !! Z.to_nat c' = rm_col rm1 !! Z.to_nat c') by (intros; apply Hcol2; lia).
    pose proof (outline_length _ _ Ho2). destruct (rd_col rm2 c) as (rc & -> & El & Ed & Es & _); [lia|]. bnd.
    destruct (parity_read rc) eqn:P; [|by split_and!]. rewrite rd_copies by lia. bnd.
    rewrite Hcol2 in El by lia. pose proof (shape_skel _ _ (Z.to_nat c) Hs1) as Sk. rewrite El in Sk.
    destruct (rm_col rm !! Z.to_nat c) as [rc0|] eqn:El0; [|done]. cbn in Sk.
    assert (P0 : parity_read rc0 = true).
    { rewrite <- P. unfold parity_read. unfold skel, set_rc_data in Sk. destruct rc, rc0; cbn in *. congruence. }
    rewrite P0. destruct (wf_col _ Hw2 c) as (_ & _ & L & _); [rewrite (outline_cols _ _ Ho2); lia|].
    rewrite Ed, Es, rdbuf_ok by done. bnd. case_bool_decide; [by split_and!|].
    rewrite upd_col_ok by lia. bnd. cbn [wp]. split_and!.
    + auto with quiet.
    + by apply wf_error.
    + by rewrite outline_error.
    + intros c'. by rewrite dat_error.
    + intros c' Hc'. rewrite lookup_ualt_ne by lia. by apply Hnext.
    + intros c' Hc' He. unfold err. destruct (decide (Z.to_nat c = Z.to_nat c')) as [E|E].
      * exfalso. apply He. unfold err. rewrite <- E, El. unfold parity_read in P. apply andb_prop in P as [_ P].
        by apply Z.eqb_eq in P.
      * rewrite lookup_ualt_ne by done. by apply He2.
  - by intros [[rm2 ev] ret] H'.
Qed.

Lemma parity_verify_ok : wp (raidz_parity_verify z rm) (fun '(rm', ev, _) => quiet ev /\ reparity rm rm').
Proof using Hwf.
  pose proof (wf_np _ Hwf). pose proof (wf_first _ Hwf). pose proof (wf_cols _ Hwf).
  unfold raidz_parity_verify. rewrite copies_ok. bnd. rewrite generate_ok by done. bnd. rewrite setpar_first.
  set (rm1 := setpar (Z.to_nat first) rm). assert (Hs1 : shape rm1 = shape rm) by apply shape_setpar.
  eapply wp_mono; [apply (parity_compare rm1 Hs1); apply setpar_wf; [done|lia]|].
  intros [[rm2 ev] ret] (Hq & Hw2 & Ho2 & Hd2 & Hcol2 & He2). split; [done|]. split_and!; [done| | | |].
  - by rewrite Ho2, (shape_outline _ _ Hs1).
  - intros c Hc. rewrite Hcol2 by done. apply setpar_data. lia.
  - intros c Hc. rewrite Hd2. unfold rm1. rewrite <- (Z2Nat.id c) at 1 by lia. apply setpar_parity; lia.
  - intros c Hc He. rewrite <- (shape_err _ _ c Hs1) in *. by apply He2.
Qed.
End parity.
End RaidzState.
