(* ===== verification/RaidzComb.v ===== *)
(** Combinatorial reconstruction (module/zfs/vdev_raidz.c): the loops of
    [vdev_raidz_combrec] try every admissible set of columns, leave the columns
    they did not blame as they found them, and stop at the first set whose
    reconstruction passes the checksum. *)

From S2P Require Import Prelude Galois RaidzMap RaidzParity RaidzReconstruct RaidzGeneral RaidzSolve RaidzRepair RaidzIo RaidzState.
From Stdlib Require Import Sorted.
Import Galois RaidzMap RaidzParity RaidzReconstruct RaidzGeneral RaidzSolve RaidzRepair RaidzIo RaidzState.
Open Scope Z_scope.

Module RaidzComb.

(** ** Sets of columns in colexicographic order *)

Section colex.
Context (good : Z -> bool) (cols : Z) (n : nat).
Implicit Types s t : nat -> Z.

(** A set of [n] good columns, in increasing order. *)
Definition combo s : Prop :=
  (forall i, (i < n)%nat -> 0 <= s i < cols /\ good (s i) = true) /\
  (forall i j, (i < j)%nat -> (j < n)%nat -> s i < s j).

(** The order in which sets are tried: the highest difference decides. *)
Definition clt s t : Prop :=
  exists j, (j < n)%nat /\ s j < t j /\ forall i, (j < i)%nat -> (i < n)%nat -> s i = t i.

(** [d] is the first good column from [c] on, or the end. *)
Definition is_next (c d : Z) : Prop :=
  c <= d <= cols /\ (forall x, c <= x < d -> good x = false) /\ (d < cols -> good d = true).

Lemma is_next_le c d x : is_next c d -> c <= x < cols -> good x = true -> d <= x.
Proof. intros (_ & Hn & _) Hx Hg. destruct (Z.lt_ge_cases x d); [|lia]. rewrite Hn in Hg by lia. done. Qed.

(** The lowest good columns. *)
Fixpoint lowest (f : Z -> Z) (i : nat) : Z := match i with O => f 0 | S i => f (lowest f i + 1) end.

Lemma combo_ext s t : (forall i, (i < n)%nat -> s i = t i) -> combo s -> combo t.
Proof.
  intros E [Hg Hs]. split.
  - intros i Hi. rewrite <- E by done. by apply Hg.
  - intros i j Hij Hj. rewrite <- !E by lia. by apply Hs.
Qed.

Lemma clt_ext s s' t t' : (forall i, (i < n)%nat -> s i = s' i) -> (forall i, (i < n)%nat -> t i = t' i) -> clt s t -> clt s' t'.
Proof.
  intros Es Et (j & Hj & Hlt & He). exists j. rewrite <- Es, <- Et by done. split; [done|]. split; [done|].
  intros i Hi Hin. rewrite <- Es, <- Et by done. by apply He.
Qed.

(** Equal, or decided at some position. *)
Lemma clt_cases s t : (forall i, (i < n)%nat -> s i = t i) \/ clt s t \/ clt t s.
Proof.
  enough (H : forall m, (m <= n)%nat -> (forall i, (n - m <= i)%nat -> (i < n)%nat -> s i = t i) \/ clt s t \/ clt t s).
  { destruct (H n) as [E|E]; [done| |by right]. left. intros i Hi. apply E; lia. }
  induction m as [|m IH]; intros Hm; [left; intros; lia|]. destruct IH as [E|E]; [lia| |by right].
  set (j := (n - S m)%nat). destruct (Z.lt_trichotomy (s j) (t j)) as [L|[L|L]].
  - right; left. exists j. split; [lia|]. split; [done|]. intros i Hi Hin. apply E; lia.
  - left. intros i Hi Hin. destruct (decide (i = j)) as [->|]; [done|]. apply E; lia.
  - right; right. exists j. split; [lia|]. split; [done|]. intros i Hi Hin. symmetry. apply E; lia.
Qed.

(** Nothing below a set that is least at every position. *)
Lemma clt_least s t : (forall i, (i < n)%nat -> t i <= s i) -> ~ clt s t.
Proof. intros H (j & Hj & Hlt & _). specialize (H j Hj). lia. Qed.

(** The set after [t]: the low positions, up to [k], hold runs of consecutive
    good columns and start over; position [k] moves on. *)
Definition after (k : nat) (low : nat -> Z) (next : Z) t : nat -> Z :=
  fun i => if decide (i < k)%nat then low i else if decide (i = k) then next else t i.

Section next.
Context (t low : nat -> Z) (k : nat) (next : Z).
Context (Ht : combo t) (Hk : (k < n)%nat).
Abbreviation succ i := (if decide (S i < n)%nat then t (S i) else cols).
Context (Hrun : forall i, (i < k)%nat -> is_next (t i + 1) (succ i)).
Context (Hnext : is_next (t k + 1) next) (Hroom : next <> succ k).
Context (Hlow : forall s i, combo s -> (i < k)%nat -> low i <= s i).
Context (Hlc : forall i, (i < k)%nat -> 0 <= low i < cols /\ good (low i) = true).
Context (Hls : forall i j, (i < j)%nat -> (j < k)%nat -> low i < low j).

Lemma next_room : next < succ k.
Proof using Ht Hk Hnext Hroom.
  destruct Ht as [Hg Hs]. pose proof Hnext as (Hr & _). enough (next <= succ k) by lia. destruct (decide _).
  - destruct (Hg (S k)) as [? ?]; [done|]. pose proof (Hs k (S k)). apply (is_next_le (t k + 1)); [done|lia|done].
  - lia.
Qed.

Lemma combo_after : combo (after k low next t).
Proof using All.
  pose proof next_room as Hroom'. destruct Ht as [Hg Hs]. pose proof Hnext as (Hr & _ & Hgn). split.
  - intros i Hi. unfold after. destruct (decide (i < k)%nat); [by apply Hlc|]. destruct (decide (i = k)) as [->|]; [|by apply Hg].
    destruct (Hg k Hk). assert (next < cols); [|split; [lia|by apply Hgn]].
    destruct (decide (S k < n)%nat); [|done]. destruct (Hg (S k)); [done|]. lia.
  - intros i j Hij Hj. unfold after.
    assert (Hbelow : (i < k)%nat -> low i < t k) by (intros; pose proof (Hlow t i Ht); pose proof (Hs i k); lia).
    destruct (decide (i < k)%nat), (decide (j < k)%nat); try lia; [by apply Hls|..].
    + destruct (decide (j = k)) as [->|]; [lia|]. pose proof (Hs k j). lia.
    + destruct (decide (i = k)) as [->|]; destruct (decide (j = k)) as [->|]; try lia; [|by apply Hs].
      rewrite decide_True in Hroom' by lia. destruct (decide (j = S k)) as [->|]; [done|]. pose proof (Hs (S k) j). lia.
Qed.

Lemma clt_after : clt t (after k low next t).
Proof using Hk Hnext.
  pose proof Hnext as (Hr & _). exists k. split; [done|]. unfold after. rewrite decide_False, decide_True by lia. split; [lia|].
  intros i Hi Hn. by rewrite !decide_False by lia.
Qed.

(** No set lies between. *)
Lemma after_next s : combo s -> clt t s -> ~ clt s (after k low next t).
Proof using All.
  intros Hcs (j & Hj & Hlt & He) (m & Hm & Hltm & Hem). destruct Hcs as [Hgs Hss].
  assert (Habove : forall i, (k < i)%nat -> after k low next t i = t i) by (intros; unfold after; by rewrite !decide_False by lia).
  assert (Hat : after k low next t k = next) by (unfold after; by rewrite decide_False, decide_True by lia).
  destruct (Nat.lt_trichotomy j k) as [H|[->|H]].
  - (* below the moved position: the columns there are consecutive *)
    pose proof (Hrun j H) as Hn. destruct (Hgs j Hj) as [? ?].
    pose proof (is_next_le _ _ (s j) Hn ltac:(lia) ltac:(done)) as Hle.
    rewrite decide_True in Hle by lia. rewrite He in Hle by lia. pose proof (Hss j (S j)). lia.
  - destruct (Hgs k Hj) as [? ?]. pose proof (is_next_le _ _ (s k) Hnext ltac:(lia) ltac:(done)) as Hle.
    destruct (Nat.lt_trichotomy m k) as [H'|[->|H']].
    + unfold after in Hltm. rewrite decide_True in Hltm by done. pose proof (Hlow s m (conj Hgs Hss) H'). lia.
    + lia.
    + rewrite Habove, He in Hltm by lia. lia.
  - destruct (Nat.lt_trichotomy m j) as [H'|[->|H']].
    + rewrite Hem, Habove in Hlt by lia. lia.
    + rewrite Habove in Hltm by done. lia.
    + rewrite Habove, He in Hltm by lia. lia.
Qed.
End next.

(** The last set: every position is followed at once by the one above it. *)
Lemma clt_last t s : combo t ->
  (forall i, (i < n)%nat -> is_next (t i + 1) (if decide (S i < n)%nat then t (S i) else cols)) ->
  combo s -> ~ clt t s.
Proof.
  intros [Hg Hs] Hrun [Hgs Hss] (j & Hj & Hlt & He). destruct (Hgs j Hj) as [? ?]. destruct (Hg j Hj).
  pose proof (is_next_le _ _ (s j) (Hrun j Hj) ltac:(lia) ltac:(done)) as Hle.
  destruct (decide _); [|lia]. rewrite He in Hle by lia. pose proof (Hss j (S j)). lia.
Qed.

(** A bound on the number of sets below one. *)
Fixpoint cval (t : nat -> Z) (m : nat) : Z := match m with O => 0 | S m => cval t m + t m * (cols + 1) ^ Z.of_nat m end.

Lemma cval_bound t m : (forall i, (i < m)%nat -> 0 <= t i < cols) -> 0 <= cval t m < (cols + 1) ^ Z.of_nat m.
Proof.
  induction m as [|m IH]; intros H; [cbn; lia|]. cbn [cval]. rewrite Nat2Z.inj_succ, Z.pow_succ_r by lia.
  destruct (H m) as [? ?]; [lia|]. specialize (IH ltac:(intros; apply H; lia)). nia.
Qed.

Lemma cval_ext s t m : (forall i, (i < m)%nat -> s i = t i) -> cval s m = cval t m.
Proof. induction m as [|m IH]; intros H; [done|]. cbn [cval]. rewrite IH, H by (intros; try apply H; lia). done. Qed.

Lemma clt_cval s t : combo s -> combo t -> clt s t -> cval s n < cval t n.
Proof.
  intros [Hs _] [Ht _] (j & Hj & Hlt & He).
  enough (H : forall m, (j < m)%nat -> (m <= n)%nat -> cval s m < cval t m) by (apply H; lia).
  induction m as [|m IH]; intros Hm Hn; [lia|]. cbn [cval]. destruct (decide (m = j)) as [->|].
  - pose proof (cval_bound s j ltac:(intros; apply Hs; lia)). pose proof (cval_bound t j ltac:(intros; apply Ht; lia)). nia.
  - rewrite He by lia. specialize (IH ltac:(lia) ltac:(lia)). lia.
Qed.
End colex.

(** ** The loops over the columns *)

Section loops.
Context (e : Z -> Z) (cols : Z).
Abbreviation good := (fun c => e c =? 0).
Abbreviation isnext := (is_next good cols).

(** A map with these errors. *)
Definition shows (rm : raidz_map) : Prop :=
  rm_cols rm = cols /\ cols <= zlen (rm_col rm) /\ forall c, 0 <= c < cols -> err rm c = e c.

Definition nextg (c : Z) : Z := hd cols (those good c cols).

Lemma those_cons (p : Z -> bool) lo hi : lo < hi -> those p lo hi = (if p lo then [lo] else []) ++ those p (lo + 1) hi.
Proof.
  intros H. rewrite (those_split p lo (lo + 1) hi) by lia. f_equal.
  rewrite (those_snoc p lo lo) by lia. by rewrite those_nil by lia.
Qed.

Lemma nextg_step c : c < cols -> nextg c = if good c then c else nextg (c + 1).
Proof. intros Hc. unfold nextg. rewrite those_cons by done. by destruct (good c). Qed.

Lemma nextg_end c : cols <= c -> nextg c = cols.
Proof. intros Hc. unfold nextg. by rewrite those_nil by lia. Qed.

Lemma nextg_next c : c <= cols -> isnext c (nextg c).
Proof.
  intros Hc. remember (Z.to_nat (cols - c)) as k eqn:Ek. revert c Hc Ek. induction k as [|k IH]; intros c Hc Ek.
  - rewrite nextg_end by lia. split; [lia|]. split; [lia|]. lia.
  - rewrite nextg_step by lia. destruct (good c) eqn:G; [split; [lia|]; split; [lia|done]|].
    destruct (IH (c + 1)) as (H1 & H2 & H3); [lia|lia|]. split; [lia|]. split; [|done].
    intros x Hx. destruct (decide (x = c)) as [->|]; [done|]. apply H2. lia.
Qed.

Lemma rd_shows rm c : shows rm -> 0 <= c < cols -> exists rc, rd (rm_col rm) c = Ok rc /\ rc_error rc = e c.
Proof.
  intros (Hc & Hl & He) Hr. destruct (rd_in_bounds (rm_col rm) c) as (rc & E & El); [lia|]. exists rc.
  split; [done|]. rewrite <- He by done. unfold err. by rewrite El.
Qed.

Lemma next_valid_ok rm c : shows rm -> 0 <= c <= cols -> next_valid rm c = Ok (nextg c).
Proof.
  intros Hs Hc. pose proof Hs as (Hcols & Hl & He). unfold next_valid. rewrite Hcols.
  remember (S (length (rm_col rm))) as fuel eqn:Ef. assert (Hf : (Z.to_nat (cols - c) < fuel)%nat) by lia.
  clear Ef. revert c Hc Hf. induction fuel as [|fuel IH]; intros c Hc Hf; [lia|]. cbn [loop].
  case_if as L; [|rewrite nextg_end by lia; f_equal; lia].
  destruct (rd_shows rm c) as (rc & -> & Ee); [done|lia|]. bnd. rewrite Ee.
  rewrite nextg_step by done. destruct (e c =? 0); cbn [negb]; [done|]. apply IH; lia.
Qed.

Lemma skip_errors_ok rm c : shows rm -> 0 <= c -> nextg c < cols -> skip_errors rm c = Ok (nextg c).
Proof.
  intros Hs Hc Hn. pose proof Hs as (Hcols & Hl & He). unfold skip_errors.
  remember (S (length (rm_col rm))) as fuel eqn:Ef. assert (Hf : (Z.to_nat (cols - c) < fuel)%nat) by lia.
  clear Ef. revert c Hc Hn Hf. induction fuel as [|fuel IH]; intros c Hc Hn Hf; [lia|]. cbn [loop].
  assert (Hlt : c < cols) by (destruct (Z.lt_ge_cases c cols); [done|rewrite nextg_end in Hn by lia; lia]).
  destruct (rd_shows rm c) as (rc & -> & Ee); [done|lia|]. bnd. rewrite Ee.
  rewrite nextg_step in * by done. destruct (e c =? 0); cbn [negb]; [done|]. apply IH; lia.
Qed.

(** The lowest columns are below those of any set. *)
Abbreviation low := (lowest nextg).

Lemma low_le n s i : combo good cols n s -> (i < n)%nat -> low i <= s i.
Proof.
  intros [Hg Hs] Hi. induction i as [|i IH]; cbn [lowest].
  - destruct (Hg 0%nat Hi). apply (is_next_le good cols 0); [|done|done]. apply nextg_next. lia.
  - specialize (IH ltac:(lia)). destruct (Hg (S i) Hi). pose proof (Hs i (S i) ltac:(lia) Hi).
    destruct (Hg i) as [? _]; [lia|].
    apply (is_next_le good cols (low i + 1)); [apply nextg_next; lia|lia|done].
Qed.

Lemma low_good i : low i < cols -> 0 <= low i /\ good (low i) = true.
Proof.
  intros Hl. induction i as [|i IH]; cbn [lowest] in *.
  - destruct (nextg_next 0) as (? & _ & Hg); [|split; [lia|by apply Hg]].
    destruct (Z.lt_ge_cases cols 0); [rewrite nextg_end in Hl by lia; lia|lia].
  - destruct (Z.lt_ge_cases (low i) cols) as [L|L]; [|rewrite nextg_end in Hl by lia; lia].
    destruct (nextg_next (low i + 1)) as (? & _ & Hg); [lia|]. destruct (IH L). split; [lia|by apply Hg].
Qed.

Lemma low_step i : low (S i) < cols -> low i < low (S i).
Proof.
  cbn [lowest]. intros Hl. destruct (Z.lt_ge_cases (low i) cols) as [L|L]; [|rewrite nextg_end in Hl by lia; lia].
  destruct (nextg_next (low i + 1)) as (? & _); lia.
Qed.

Lemma low_lt i j : (i < j)%nat -> low j < cols -> low i < low j.
Proof.
  induction 1 as [|j Hj IH]; intros Hl; [by apply low_step|]. pose proof (low_step j Hl). specialize (IH ltac:(lia)). lia.
Qed.

(** ** The array of targets *)

(** Target [i], and the cells around the targets. *)
Definition tgt (ts : list Z) (i : nat) : Z := nth (S i) ts 0.
Definition frame (n : nat) (ts : list Z) : Prop := length ts = 5%nat /\ nth 0 ts 0 = -1 /\ tgt ts n = cols.

Lemma nth_insert (l : list Z) i j v : (i < length l)%nat ->
  nth j (<[i := v]> l) 0 = if decide (i = j) then v else nth j l 0.
Proof.
  intros Hi. rewrite !nth_lookup. destruct (decide (i = j)) as [<-|].
  - by rewrite list_lookup_insert_eq.
  - by rewrite list_lookup_insert_ne.
Qed.

Lemma tget_ok n ts i : frame n ts -> (i <= 3)%nat -> rd ts (Z.of_nat i + 1) = Ok (tgt ts i).
Proof. intros (Hl & _) Hi. rewrite rd_nth by lia. unfold tgt. do 2 f_equal. lia. Qed.

Lemma tset_ok n ts i v : frame n ts -> (i < n)%nat -> (n <= 3)%nat ->
  exists ts', wr ts (Z.of_nat i + 1) v = Ok ts' /\ frame n ts' /\
    forall j, tgt ts' j = if decide (i = j) then v else tgt ts j.
Proof.
  intros (Hl & H0 & Hn) Hi Hi3. eexists. split; [by rewrite wr_in_bounds by lia|].
  replace (Z.to_nat (Z.of_nat i + 1)) with (S i) by lia.
  assert (G : forall j, nth j (<[S i := v]> ts) 0 = if decide (S i = j) then v else nth j ts 0) by (intros; apply nth_insert; lia).
  split.
  - split_and!.
    + by rewrite length_insert.
    + rewrite G. by rewrite decide_False by lia.
    + unfold tgt. rewrite G. by rewrite decide_False by lia.
  - intros j. unfold tgt. rewrite G. destruct (decide (i = j)) as [->|]; [by rewrite decide_True|by rewrite decide_False by lia].
Qed.

Lemma tprev_ok n ts i : frame n ts -> (i < n)%nat -> (n <= 3)%nat ->
  rd ts (Z.of_nat i - 1 + 1) = Ok (match i with O => -1 | S i => tgt ts i end).
Proof.
  intros (Hl & H0 & _) Hi Hn. rewrite rd_nth by lia. replace (Z.to_nat (Z.of_nat i - 1 + 1)) with i by lia.
  destruct i; [by rewrite H0|done].
Qed.

Section step.
Context (rm : raidz_map) (n : nat) (ts : list Z).
Context (Hrm : shows rm) (Hn : (n <= 3)%nat) (Hf : frame n ts) (Ht : combo good cols n (tgt ts)).
Abbreviation t := (tgt ts).
Abbreviation succ i := (if decide (S i < n)%nat then t (S i) else cols).

Definition step_inv (st : list Z * Z) : Prop :=
  exists k, st.2 = Z.of_nat k /\ (k < n)%nat /\ frame n st.1 /\
    (forall i, (i < k)%nat -> tgt st.1 i = low i /\ nextg (t i + 1) = succ i) /\
    (forall i, (k <= i)%nat -> (i < n)%nat -> tgt st.1 i = t i).

Definition step_post (r : list Z * Z * Z) : Prop :=
  let '(ts', curr, next) := r in frame n ts' /\
  exists k, curr = Z.of_nat k /\ (k <= n)%nat /\
    (k = n -> forall s, combo good cols n s -> ~ clt n t s) /\
    ((k < n)%nat -> let t' := fun i => if decide (k = i) then next else tgt ts' i in
      combo good cols n t' /\ clt n t t' /\ forall s, combo good cols n s -> clt n t s -> ~ clt n s t').

Lemma low_ok k : (k < n)%nat -> low k < cols.
Proof using Hn Ht. intros Hk. pose proof (low_le n t k Ht Hk). destruct Ht as [Hg _]. destruct (Hg k Hk). lia. Qed.

Lemma low_prev ts' k : frame n ts' -> (k < n)%nat -> (forall i, (i < k)%nat -> tgt ts' i = low i) ->
  (match k with O => -1 | S i => tgt ts' i end) + 1 = match k with O => 0 | S i => low i + 1 end.
Proof. intros _ Hk H. destruct k; [done|]. by rewrite H by lia. Qed.

Lemma next_after k : (k < n)%nat -> isnext (t k + 1) (nextg (t k + 1)).
Proof using Hn Ht. intros Hk. apply nextg_next. destruct Ht as [Hg _]. destruct (Hg k Hk). lia. Qed.

(** The position found: all below it are consecutive, and there is room. *)
Lemma step_found ts' k : frame n ts' -> (k < n)%nat ->
  (forall i, (i < k)%nat -> tgt ts' i = low i /\ nextg (t i + 1) = succ i) ->
  (forall i, (k <= i)%nat -> (i < n)%nat -> tgt ts' i = t i) ->
  nextg (t k + 1) <> succ k -> step_post (ts', Z.of_nat k, nextg (t k + 1)).
Proof using Hn Ht.
  intros Hf' Hk Hlow Hsame Hne. split; [done|]. exists k. split; [done|]. split; [lia|]. split; [lia|]. intros _ t'.
  assert (E : forall i, (i < n)%nat -> after k low (nextg (t k + 1)) t i = t' i).
  { intros i Hi. unfold after, t'. destruct (decide (i < k)%nat); [rewrite decide_False by lia; symmetry; by apply Hlow|].
    destruct (decide (i = k)) as [->|]; [by rewrite decide_True|]. rewrite decide_False by done. symmetry. apply Hsame; lia. }
  assert (Hrun : forall i, (i < k)%nat -> isnext (t i + 1) (succ i))
    by (intros i Hi; rewrite <- (proj2 (Hlow i Hi)); apply next_after; lia).
  assert (Hl : forall s i, combo good cols n s -> (i < k)%nat -> low i <= s i) by (intros; apply (low_le n); [done|lia]).
  assert (Hlc : forall i, (i < k)%nat -> 0 <= low i < cols /\ good (low i) = true).
  { intros i Hi. pose proof (low_ok i ltac:(lia)). destruct (low_good i); [done|]. split; [lia|done]. }
  assert (Hls : forall i j, (i < j)%nat -> (j < k)%nat -> low i < low j) by (intros; apply low_lt; [done|]; apply low_ok; lia).
  pose proof (next_after k Hk) as Hnx. split_and!.
  - eapply combo_ext; [exact E|]. by apply (combo_after good cols n).
  - eapply clt_ext; [done|exact E|]. by apply (clt_after good cols n).
  - intros s Hs Hlt Hlt'. apply (after_next good cols n t low k (nextg (t k + 1)) Ht Hk Hrun Hnx Hne Hl Hlc Hls s Hs Hlt).
    eapply clt_ext; [done| |exact Hlt']. intros; symmetry; by apply E.
Qed.

Lemma comb_next_ok : (0 < n)%nat -> wp (comb_next rm (Z.of_nat n) ts) step_post.
Proof using All.
  intros H0. unfold comb_next. apply wp_loop with (I := step_inv) (m := fun st => (n - Z.to_nat st.2)%nat).
  - intros [ts' curr] (k & Ek & Hk & Hf' & Hlow & Hsame). cbn [fst snd] in *. subst curr.
    assert (Htk : tgt ts' k = t k) by (apply Hsame; lia). destruct Ht as [Hg _]. destruct (Hg k Hk) as [? _].
    rewrite (tget_ok n ts' k) by (done || lia). bnd. rewrite Htk, next_valid_ok by (done || lia). bnd.
    replace (Z.of_nat k + 1 + 1) with (Z.of_nat (S k) + 1) by lia. rewrite (tget_ok n ts' (S k)) by (done || lia). bnd.
    assert (Hs : tgt ts' (S k) = succ k).
    { destruct (decide (S k < n)%nat); [apply Hsame; lia|]. replace (S k) with n by lia. apply Hf'. }
    rewrite Hs. case_if as E; [by apply step_found|].
    rewrite (tprev_ok n ts' k) by (done || lia). bnd.
    rewrite (low_prev ts' k Hf' Hk) by (intros; by apply Hlow).
    assert (Hsk : skip_errors rm (match k with O => 0 | S i => low i + 1 end) = Ok (low k)).
    { pose proof (low_ok k Hk). destruct k as [|k']; (rewrite skip_errors_ok; [done|done| |done]); [lia|].
      pose proof (low_ok k' ltac:(lia)). destruct (low_good k'); [done|lia]. }
    rewrite Hsk. bnd. destruct (tset_ok n ts' k (low k) Hf' Hk Hn) as (ts2 & -> & Hf2 & G). bnd.
    assert (Hlow2 : forall i, (i < S k)%nat -> tgt ts2 i = low i /\ nextg (t i + 1) = succ i).
    { intros i Hi. rewrite G. destruct (decide (k = i)) as [<-|]; [done|]. apply Hlow. lia. }
    case_if as L; cbn [wp].
    + split; [done|]. exists (S k). split; [lia|]. split; [lia|]. split; [|lia]. intros _ s Hs'.
      apply (clt_last good cols n); [done| |done]. intros i Hi. destruct (Hlow2 i ltac:(lia)) as [_ <-]. by apply next_after.
    + split; [|cbn; lia]. exists (S k). cbn [fst snd]. split; [lia|]. split; [lia|]. split; [done|]. split; [done|].
      intros i Hi Hin. rewrite G. rewrite decide_False by lia. apply Hsame; lia.
  - exists 0%nat. cbn [fst snd]. split_and!; try done; intros; lia.
  - cbn. lia.
Qed.
End step.

Section init.
Context (rm : raidz_map) (m : nat) (de first : Z) (s0 : nat -> Z).
Abbreviation n := (S m).
Context (Hrm : shows rm) (Hfirst : rm_firstdatacol rm = first) (Hn : (n <= 3)%nat) (H0 : 0 <= first).
Definition admissible (s : nat -> Z) : Prop := combo good cols n s /\ (de = 0 -> first <= s m).
Context (Hs0 : admissible s0).

(** The least admissible set. *)
Definition start_from : Z :=
  let c := match m with O => 0 | S j => low j + 1 end in if (de =? 0) && (c <? first) then first else c.
Definition least (i : nat) : Z := if decide (i = m) then nextg start_from else low i.

Lemma start_bounds s : admissible s -> 0 <= start_from <= s m.
Proof using Hn H0.
  intros [Hc Hd]. unfold start_from.
  assert (L : 0 <= match m with O => 0 | S j => low j + 1 end <= s m).
  { destruct Hc as [Hg Hs] eqn:E. clear E. destruct m as [|j] eqn:Em; [destruct (Hg 0%nat); lia|].
    pose proof (low_le (S (S j)) s j Hc ltac:(lia)). pose proof (Hs j (S j)). destruct (Hg j) as [? _]; [lia|].
    destruct (low_good j); lia. }
  case_if as E; [|done]. specialize (Hd ltac:(done)). lia.
Qed.

Lemma least_le s i : admissible s -> (i < n)%nat -> least i <= s i.
Proof using Hn H0.
  intros Hs Hi. unfold least. destruct (decide (i = m)) as [->|]; [|apply (low_le (S m)); [apply Hs|done]].
  destruct (start_bounds s Hs). destruct Hs as [[Hg _] _]. destruct (Hg m) as [? ?]; [lia|].
  apply (is_next_le good cols start_from); [apply nextg_next; lia|lia|done].
Qed.

Lemma least_cols i : (i < n)%nat -> least i < cols.
Proof using Hn H0 Hs0. intros Hi. pose proof (least_le s0 i Hs0 Hi). destruct Hs0 as [[Hg _] _]. destruct (Hg i Hi). lia. Qed.

Lemma least_admissible : admissible least.
Proof using Hn H0 Hs0.
  destruct (start_bounds s0 Hs0) as [Hst Hle]. pose proof (least_cols m ltac:(lia)) as Hm. unfold least in Hm.
  rewrite decide_True in Hm by done. destruct (nextg_next start_from) as (Hr & _ & Hgl).
  { destruct Hs0 as [[Hg _] _]. destruct (Hg m); lia. }
  assert (Hlow : forall i, (i < m)%nat -> low i < cols).
  { intros i Hi. pose proof (least_cols i ltac:(lia)) as L. unfold least in L. by rewrite decide_False in L by lia. }
  split; [split|].
  - intros i Hi. unfold least. destruct (decide (i = m)) as [->|]; [split; [lia|by apply Hgl]|].
    pose proof (Hlow i ltac:(lia)). destruct (low_good i); [done|]. split; [lia|done].
  - intros i j Hij Hj. unfold least. rewrite (decide_False (P := i = m)) by lia.
    destruct (decide (j = m)) as [->|]; [|apply low_lt; [done|apply Hlow; lia]].
    enough (low i < start_from) by lia. unfold start_from.
    assert (L : low i < match m with O => 0 | S j => low j + 1 end).
    { destruct m as [|j]; [lia|]. destruct (decide (i = j)) as [->|]; [lia|]. pose proof (low_lt i j ltac:(lia) ltac:(apply Hlow; lia)). lia. }
    case_if as E; lia.
  - intros Hd. unfold least. rewrite decide_True by done. enough (first <= start_from) by lia.
    unfold start_from. case_if as E; [lia|]. destruct E; lia.
Qed.

Lemma start_at k : (k < n)%nat ->
  let c := match k with O => 0 | S j => least j + 1 end in
  let c := if (Z.of_nat k =? Z.of_nat n - 1) && (de =? 0) && (c <? first) then first else c in
  nextg c = least k /\ 0 <= c.
Proof using Hn H0 Hs0.
  intros Hk. assert (E : match k with O => 0 | S j => least j + 1 end = match k with O => 0 | S j => low j + 1 end).
  { destruct k as [|j]; [done|]. unfold least. by rewrite decide_False by lia. }
  cbv zeta. rewrite E. destruct (decide (k = m)) as [->|].
  - rewrite (proj2 (Z.eqb_eq _ _)) by lia. cbn [andb]. fold start_from. unfold least. rewrite decide_True by done.
    split; [done|]. by apply (start_bounds s0).
  - rewrite (proj2 (Z.eqb_neq _ _)) by lia. cbn [andb]. unfold least. rewrite decide_False by done.
    destruct k as [|j]; [done|]. split; [done|]. pose proof (least_cols j ltac:(lia)) as L. unfold least in L.
    rewrite decide_False in L by lia. destruct (low_good j); lia.
Qed.

Lemma comb_init_ok ts : length ts = 5%nat -> nth 0 ts 0 = -1 ->
  wp (comb_init rm (Z.of_nat n) de ts) (fun ts' => frame n ts' /\ forall i, (i < n)%nat -> tgt ts' i = least i).
Proof using All.
  intros Hl Hz. unfold comb_init. rewrite Hfirst. pose proof Hrm as (Hcols & _). apply wp_bind.
  apply (wp_for_range (fun i '(c, ts') => length ts' = 5%nat /\ nth 0 ts' 0 = -1 /\
    c = match Z.to_nat i with O => 0 | S j => least j + 1 end /\
    forall j, (j < Z.to_nat i)%nat -> tgt ts' j = least j)).
  - lia.
  - cbn. split_and!; try done. intros; lia.
  - intros i [c ts'] Hi (Hl' & Hz' & -> & Hj). set (k := Z.to_nat i) in *. assert (Ei : i = Z.of_nat k) by lia. rewrite Ei.
    pose proof (start_at k ltac:(lia)) as Ec.
    destruct Ec as [Ec Ec0]. pose proof (least_cols k ltac:(lia)) as Hlt.
    rewrite skip_errors_ok; [|done|done|by rewrite Ec]. bnd. rewrite Ec.
    rewrite wr_in_bounds by lia. bnd. cbn [wp]. replace (Z.to_nat (Z.of_nat k + 1)) with (S k) by lia.
    split_and!; [by rewrite length_insert| |done|].
    + rewrite nth_insert by lia. by rewrite decide_False.
    + intros j Hj'. unfold tgt. rewrite nth_insert by lia. destruct (decide (S k = S j)) as [E|]; [by injection E as ->|].
      apply Hj. lia.
  - intros [c ts'] (Hl' & Hz' & -> & Hj). bnd. rewrite wr_in_bounds by lia. cbn [wp].
    replace (Z.to_nat (Z.of_nat n + 1)) with (S n) by lia. rewrite Nat2Z.id in Hj. split; [split_and!|].
    + by rewrite length_insert.
    + rewrite nth_insert by lia. by rewrite decide_False.
    + unfold tgt. rewrite nth_insert by lia. by rewrite decide_True.
    + intros i Hi. unfold tgt. rewrite nth_insert by lia. rewrite decide_False by lia. by apply Hj.
Qed.
End init.
End loops.

(** ** One attempt *)

(** The targets are blamed for the error. *)
Definition blamed (T : list Z) (rm1 rm2 : raidz_map) : Prop :=
  rm2 = set_rm_col (rm_col rm2) rm1 /\
  forall c, 0 <= c -> rm_col rm2 !! Z.to_nat c =
    if memb c T then set_rc_error ECKSUM <$> rm_col rm1 !! Z.to_nat c else rm_col rm1 !! Z.to_nat c.

Lemma in_tab {A} (x : A) n f : In x (tab n f) <-> exists i, (i < n)%nat /\ f i = x.
Proof.
  unfold tab. rewrite in_map_iff. split; [intros (i & E & Hi%in_seq)|intros (i & Hi & E)]; exists i; [split; [lia|done]|].
  split; [done|]. apply in_seq. lia.
Qed.

Lemma sorted_tab n (f : nat -> Z) : (forall i j, (i < j)%nat -> (j < n)%nat -> f i < f j) -> StronglySorted Z.lt (tab n f).
Proof.
  intros H. unfold tab. enough (G : forall k a, (a + k <= n)%nat -> StronglySorted Z.lt (map f (seq a k))) by (apply G; lia).
  induction k as [|k IH]; intros a Ha; cbn [seq map]; [constructor|]. constructor; [apply IH; lia|].
  apply List.Forall_forall. intros x (j & <- & Hj%in_seq)%in_map_iff. apply H; lia.
Qed.

Section attempts.
Context (rm0 : raidz_map) (Hwf0 : rm_wf rm0).
Abbreviation cols := (rm_cols rm0).
Abbreviation first := (rm_firstdatacol rm0).
Abbreviation e := (err rm0).
Abbreviation good := (fun c => e c =? 0).

(** The map still has the columns without an error as they were read. *)
Definition keeps (rm : raidz_map) : Prop :=
  rm_wf rm /\ shape rm = shape rm0 /\ forall c, 0 <= c < cols -> e c = 0 -> dat rm c = dat rm0 c.

Lemma keeps_refl : keeps rm0.
Proof using Hwf0. by split_and!. Qed.

Lemma keeps_shows rm : keeps rm -> shows e cols rm.
Proof using Hwf0.
  intros (Hw & Hs & _). pose proof (wf_cols _ Hw). pose proof (shape_cols _ _ Hs).
  split_and!; [done|lia|]. intros. by apply shape_err.
Qed.

Lemma keeps_injected rm : keeps rm -> keeps (set_rm_injected rm).
Proof. intros ([Hn Hf Hc Hp Hcol Hd] & Hs & Hk). by split_and!. Qed.

Section targets.
Context (n : nat) (ts : list Z) (Hn : (n <= 3)%nat) (Hf : frame cols n ts) (Ht : combo good cols n (tgt ts)).
Abbreviation t := (tgt ts).
Abbreviation T := (tab n t).

Lemma tgt_good i : (i < n)%nat -> 0 <= t i < cols /\ e (t i) = 0.
Proof using All. intros Hi. destruct Ht as [Hg _]. destruct (Hg i Hi) as [? G]. by apply Z.eqb_eq in G. Qed.

Lemma tgt_inj i j : (i < n)%nat -> (j < n)%nat -> t i = t j -> i = j.
Proof using All.
  intros Hi Hj E. destruct Ht as [_ Hs].
  destruct (Nat.lt_trichotomy i j) as [H|[H|H]]; [|done|]; [pose proof (Hs i j H Hj)|pose proof (Hs j i H Hi)]; lia.
Qed.

Lemma targets_eq : take n (drop 1 ts) = T.
Proof using All.
  destruct Hf as (Hl & _). apply list_eq_nth; [rewrite length_take, length_drop, length_tab; lia|].
  intros i Hi. rewrite ?length_take, ?length_drop, ?length_tab in Hi. rewrite nth_tab, decide_True by lia.
  rewrite nth_firstn, (proj2 (Nat.ltb_lt i n)) by lia. rewrite nth_skipn. done.
Qed.

Lemma targets_sorted : StronglySorted Z.lt T.
Proof using All. apply sorted_tab. intros. by apply Ht. Qed.

Lemma targets_pos : Forall (Z.le 0) T.
Proof using All. apply Forall_tab. intros j Hj. destruct (tgt_good j Hj). lia. Qed.

(** The saved copies: buffers that hold the targets' contents. *)
Definition bufs (orig : list (list Z)) : Prop := length orig = n /\ Forall (fun b => siz rm0 0 <= zlen b) orig.
Definition saved (k : nat) (orig : list (list Z)) : Prop :=
  forall i, (i < k)%nat -> exists b, orig !! i = Some b /\ take (Z.to_nat (siz rm0 (t i))) b = dat rm0 (t i).

Lemma wrbuf_ok d src m : 0 <= m <= zlen src -> m <= zlen d ->
  wrbuf d src m = Ok (take (Z.to_nat m) src ++ drop (Z.to_nat m) d).
Proof.
  intros Hm Hd. unfold wrbuf, rdbuf. rewrite (proj2 (Z.leb_le 0 m)), (proj2 (Z.leb_le m _)) by lia. cbn [andb]. bnd.
  by rewrite (proj2 (Z.leb_le m _)) by lia.
Qed.

Lemma col_facts rm c : keeps rm -> 0 <= c < cols ->
  in_map rm c /\ siz rm c = siz rm0 c /\ 0 <= siz rm0 c <= siz rm0 0 /\ zlen (dat rm c) = siz rm0 c /\ Forall is_byte (dat rm c).
Proof using All.
  intros (Hw & Hs & _) Hc. pose proof (wf_cols _ Hw). pose proof (shape_cols _ _ Hs) as Ec.
  destruct (wf_col _ Hw c) as (? & _ & L & B); [lia|]. rewrite (shape_siz _ _ c Hs) in *.
  pose proof (wf_desc _ Hwf0 0 c ltac:(lia) ltac:(lia)). split_and!; try done; lia.
Qed.

Lemma comb_save_ok rm orig : keeps rm -> bufs orig ->
  wp (comb_save rm (Z.of_nat n) ts orig) (fun orig' => bufs orig' /\ saved n orig').
Proof using All.
  intros Hk Hb. unfold comb_save.
  apply (wp_for_range (fun i orig' => bufs orig' /\ saved (Z.to_nat i) orig')).
  - lia.
  - split; [done|]. intros i Hi. cbn in Hi. lia.
  - intros i orig' Hi [[Hl Hbs] Hsv]. set (k := Z.to_nat i) in *. assert (Ei : i = Z.of_nat k) by lia. rewrite Ei.
    destruct (tgt_good k) as [Hr He]; [lia|]. destruct (col_facts rm (t k) Hk Hr) as (Hin & Esz & Hsz & L & _).
    rewrite (tget_ok cols n ts k) by (done || lia). bnd.
    destruct (rd_col rm (t k) Hin) as (rc & -> & _ & Ed & Es & _). bnd.
    destruct (rd_in_bounds orig' (Z.of_nat k)) as (b & -> & Elb); [lia|]. bnd. rewrite Nat2Z.id in Elb.
    assert (Hbl : siz rm0 0 <= zlen b) by (rewrite Forall_lookup in Hbs; by apply (Hbs k)).
    rewrite Ed, Es, Esz, wrbuf_ok by lia. bnd. rewrite wr_in_bounds by lia. cbn [wp]. rewrite Nat2Z.id.
    destruct Hk as (_ & _ & Hkd). rewrite Hkd in * by done.
    assert (Etk : take (Z.to_nat (siz rm0 (t k))) (dat rm0 (t k)) = dat rm0 (t k)) by (apply take_ge; lia).
    rewrite Etk. replace (Z.to_nat (Z.of_nat k + 1)) with (S k) by lia. split; [split|].
    + by rewrite length_insert.
    + apply Forall_insert; [done|]. rewrite length_app, length_drop. lia.
    + intros j Hj. destruct (decide (j = k)) as [->|].
      * eexists. rewrite list_lookup_insert_eq by lia. split; [done|]. rewrite take_app_le by lia. apply take_ge. lia.
      * rewrite list_lookup_insert_ne by done. apply Hsv. lia.
  - intros orig' H. by rewrite Nat2Z.id in H.
Qed.

Lemma comb_restore_ok rm1 orig : shape rm1 = shape rm0 -> rm_wf rm1 -> bufs orig -> saved n orig ->
  wp (comb_restore (Z.of_nat n) ts orig rm1) (fun rm2 => shape rm2 = shape rm0 /\ rm_wf rm2 /\
    (forall i, (i < n)%nat -> dat rm2 (t i) = dat rm0 (t i)) /\
    forall c, 0 <= c -> (forall i, (i < n)%nat -> t i <> c) -> dat rm2 c = dat rm1 c).
Proof using All.
  intros Hs1 Hw1 [Hl Hbs] Hsv. unfold comb_restore.
  apply (wp_for_range (fun i rm2 => shape rm2 = shape rm0 /\ rm_wf rm2 /\
    (forall j, (j < Z.to_nat i)%nat -> dat rm2 (t j) = dat rm0 (t j)) /\
    forall c, 0 <= c -> (forall j, (j < Z.to_nat i)%nat -> t j <> c) -> dat rm2 c = dat rm1 c)).
  - lia.
  - split_and!; try done. intros j Hj. cbn in Hj. lia.
  - intros i rm2 Hi (Hs & Hw & Hd & Ho). set (k := Z.to_nat i) in *. assert (Ei : i = Z.of_nat k) by lia. rewrite Ei.
    destruct (tgt_good k) as [Hr He]; [lia|]. destruct (col_facts rm0 (t k) keeps_refl Hr) as (_ & _ & Hsz & L & B).
    pose proof (wf_cols _ Hw). pose proof (shape_cols _ _ Hs) as Ec.
    destruct (wf_col _ Hw (t k)) as (_ & _ & L2 & _); [lia|]. rewrite (shape_siz _ _ _ Hs) in L2.
    rewrite (tget_ok cols n ts k) by (done || lia). bnd.
    destruct (rd_col rm2 (t k)) as (rc & -> & _ & Ed & Es & _); [lia|]. bnd.
    destruct (Hsv k) as (b & Elb & Etk); [lia|].
    assert (Hbl : siz rm0 0 <= zlen b) by (rewrite Forall_lookup in Hbs; by apply (Hbs k)).
    rewrite (rd_Some orig (Z.of_nat k) b) by (rewrite ?Nat2Z.id; done || lia). bnd.
    rewrite Ed, Es, (shape_siz _ _ _ Hs), wrbuf_ok by lia. bnd.
    rewrite Etk, drop_ge, app_nil_r by lia. unfold set_col_data. rewrite upd_col_ok by lia. cbn [wp].
    replace (Z.to_nat (Z.of_nat k + 1)) with (S k) by lia. split_and!.
    + by rewrite shape_wdat.
    + apply wf_wdat; [done|lia|by rewrite (shape_siz _ _ _ Hs)|done].
    + intros j Hj. destruct (decide (j = k)) as [->|]; [by rewrite dat_wdat by lia|].
      destruct (tgt_good j) as [? _]; [lia|]. rewrite dat_ualt_ne; [apply Hd; lia|lia|lia|].
      intros E. apply tgt_inj in E; lia.
    + intros c Hc Hne. rewrite dat_ualt_ne; [apply Ho; [done|intros; apply Hne; lia]|done|lia|].
      intros ->. by apply (Hne k); [lia|].
  - intros rm2 H. by rewrite Nat2Z.id in H.
Qed.

Lemma comb_blame_ok z rm1 orig : shape rm1 = shape rm0 -> rm_wf rm1 -> length orig = n ->
  wp (comb_blame z (Z.of_nat n) ts orig rm1) (fun '(rm2, ev) => quiet ev /\ blamed T rm1 rm2).
Proof using All.
  intros Hs1 Hw1 Hl. unfold comb_blame.
  apply (wp_for_range (fun i '(rm2, ev) => quiet ev /\ rm2 = set_rm_col (rm_col rm2) rm1 /\ length (rm_col rm2) = length (rm_col rm1) /\
    (forall j, (j < Z.to_nat i)%nat -> rm_col rm2 !! Z.to_nat (t j) = set_rc_error ECKSUM <$> rm_col rm1 !! Z.to_nat (t j)) /\
    forall c, 0 <= c -> (forall j, (j < Z.to_nat i)%nat -> t j <> c) -> rm_col rm2 !! Z.to_nat c = rm_col rm1 !! Z.to_nat c)).
  - lia.
  - split; [apply quiet_nil|]. split_and!; try done; [by destruct rm1|]. intros j Hj. cbn in Hj. lia.
  - intros i [rm2 ev] Hi (Hq & Hh & Hlen & Hd & Ho). set (k := Z.to_nat i) in *. assert (Ei : i = Z.of_nat k) by lia. rewrite Ei.
    destruct (tgt_good k) as [Hr _]; [lia|]. pose proof (wf_cols _ Hw1). pose proof (shape_cols _ _ Hs1) as Ec.
    rewrite (tget_ok cols n ts k) by (done || lia). bnd.
    destruct (rd_col rm2 (t k)) as (rc & -> & _); [lia|]. bnd.
    destruct (rd_in_bounds orig (Z.of_nat k)) as (b & -> & _); [lia|]. bnd.
    rewrite upd_col_ok by lia. bnd. cbn [wp]. replace (Z.to_nat (Z.of_nat k + 1)) with (S k) by lia. split_and!.
    + destruct (rc_tried rc); auto with quiet.
    + rewrite Hh. done.
    + by rewrite length_ualt.
    + intros j Hj. destruct (decide (j = k)) as [->|].
      * rewrite lookup_ualt_eq. f_equal. apply Ho; [lia|]. intros j' Hj' E. apply tgt_inj in E; lia.
      * destruct (tgt_good j) as [? _]; [lia|]. rewrite lookup_ualt_ne; [apply Hd; lia|].
        intros E. assert (E' : t k = t j) by lia. apply tgt_inj in E'; lia.
    + intros c Hc Hne. rewrite lookup_ualt_ne; [apply Ho; [done|intros; apply Hne; lia]|].
      specialize (Hne k ltac:(lia)). lia.
  - intros [rm2 ev] (Hq & Hh & _ & Hd & Ho). rewrite Nat2Z.id in Hd, Ho. split; [done|]. split; [done|]. intros c Hc.
    destruct (memb c T) eqn:M.
    + apply memb_In, in_tab in M as (k & Hk & <-). by apply Hd.
    + apply Ho; [done|]. intros k Hk E. assert (M' : memb c T = true); [|congruence]. apply memb_In, in_tab. by exists k.
Qed.
End targets.

Lemma those_or (p q : Z -> bool) lo hi : lo <= hi ->
  zlen (those (fun c => p c || q c) lo hi) <= zlen (those p lo hi) + zlen (those q lo hi).
Proof.
  intros H. replace hi with (lo + Z.of_nat (Z.to_nat (hi - lo))) by lia. generalize (Z.to_nat (hi - lo)) as k.
  induction k as [|k IH]; [by rewrite !those_nil by lia|].
  replace (lo + Z.of_nat (S k)) with (lo + Z.of_nat k + 1) by lia. rewrite !those_snoc, !length_app by lia.
  destruct (p _), (q _); cbn [orb length]; lia.
Qed.

Lemma those_memb T lo hi : zlen (those (fun c => memb c T) lo hi) <= zlen T.
Proof.
  apply Nat2Z.inj_le, NoDup_incl_length.
  - apply NoDup_ListNoDup. pose proof (those_sorted (fun c => memb c T) lo hi) as S. induction S as [|x l S IH Hf]; constructor; [|done].
    intros Hx%list_elem_of_In. rewrite List.Forall_forall in Hf. apply Hf in Hx. lia.
  - intros x [_ Hx]%in_those. by apply memb_In.
Qed.

Lemma few_bad rm T : keeps rm -> zlen T + zlen (those (fun c => negb (e c =? 0)) 0 cols) <= first ->
  zlen (those (bad rm T) 0 (rm_cols rm)) <= rm_firstdatacol rm.
Proof using Hwf0.
  intros (Hw & Hs & _) Hc. pose proof (wf_np _ Hw). pose proof (wf_first _ Hw).
  rewrite (shape_cols _ _ Hs), (shape_first _ _ Hs) in *.
  assert (E : those (bad rm T) 0 cols = those (fun c => memb c T || negb (e c =? 0)) 0 cols).
  { apply filter_ext. intros c. unfold bad. by rewrite (shape_err _ _ _ Hs). }
  rewrite E. pose proof (those_or (fun c => memb c T) (fun c => negb (e c =? 0)) 0 cols ltac:(lia)).
  pose proof (those_memb T 0 cols). lia.
Qed.

(** ** All attempts *)

Section run.
Context (kmem_alloc zio_buf_alloc : Z -> list Z) (general : bool) (zio_checksum_error : list Z -> Z * bool) (z : zio_flags).
Context (Hkmem : allocates kmem_alloc) (Hzio : allocates zio_buf_alloc).
Abbreviation reconstruct := (vdev_raidz_reconstruct kmem_alloc zio_buf_alloc general).
Abbreviation badcols T rm := (those (bad rm T) (rm_firstdatacol rm) (rm_cols rm)).
Abbreviation nerr := (zlen (those (fun c => negb (e c =? 0)) 0 cols)).

(** The reconstruction of the columns [T] and how its checksum came out. *)
Definition attempt (T : list Z) (rm1 : raidz_map) (code : Z) : Prop :=
  exists rm ds, keeps rm /\ rm1 = wdats rm (badcols T rm) ds /\ reconstruct rm T (zlen T) = Ok (rm1, code) /\
    Forall2 (fun c d => zlen d = siz rm c /\ Forall is_byte d) (badcols T rm) ds /\
    code_ok (bad rm0 T) (zlen (badcols T rm0)) code.
Definition passes (rm1 : raidz_map) : Prop := (zio_checksum_error (io_buffer rm1)).1 = 0.
Definition tried (T : list Z) : Prop := exists rm1 code, attempt T rm1 code /\ ~ passes rm1.
Definition found (T : list Z) (rm2 : raidz_map) (code : Z) : Prop :=
  exists rm1, attempt T rm1 code /\ passes rm1 /\ blamed T rm1 rm2.

Lemma bad_shape rm T c : shape rm = shape rm0 -> bad rm T c = bad rm0 T c.
Proof. intros Hs. unfold bad. by rewrite (shape_err _ _ _ Hs). Qed.

Lemma badcols_shape rm T : shape rm = shape rm0 -> badcols T rm = badcols T rm0.
Proof.
  intros Hs. rewrite (shape_cols _ _ Hs), (shape_first _ _ Hs). apply filter_ext. intros. by apply bad_shape.
Qed.

(** An attempt rewrites the bad data columns and nothing else. *)
Lemma attempt_facts rm T ds : keeps rm -> Forall2 (fun c d => zlen d = siz rm c /\ Forall is_byte d) (badcols T rm) ds ->
  let rm1 := wdats rm (badcols T rm) ds in
  shape rm1 = shape rm0 /\ rm_wf rm1 /\ forall c, 0 <= c < cols -> bad rm0 T c = false -> dat rm1 c = dat rm c.
Proof using Hwf0.
  intros (Hw & Hsh & _) Hds rm1. pose proof (wf_np _ Hw) as Hnp. pose proof (wf_first _ Hw) as Hfc.
  assert (Hsh1 : shape rm1 = shape rm0) by (unfold rm1; by rewrite shape_wdats).
  assert (Hout : forall c, 0 <= c -> ~ In c (badcols T rm) -> dat rm1 c = dat rm c).
  { intros c Hr Hn. apply dat_wdats_ne; [lia|]. apply List.Forall_forall. intros x Hx. split; [apply in_those in Hx; lia|]. by intros ->. }
  split; [done|]. split.
  - apply (shape_wf _ rm0); [done|done|]. intros c Hr.
    rewrite <- (shape_siz _ _ c Hsh). destruct (in_dec Z.eq_dec c (badcols T rm)) as [Hin|Hin].
    + assert (Hdist : distinct (badcols T rm)).
      { apply sorted_distinct; [apply those_sorted|]. apply List.Forall_forall. intros x Hx%in_those. lia. }
      pose proof (map_dat_wdats rm (badcols T rm) ds Hdist) as Em. rewrite <- Em in Hds; [|..|symmetry; by eapply Forall2_length].
      2: { apply List.Forall_forall. intros x Hx%in_those. pose proof (wf_cols _ Hw). lia. }
      apply Forall2_fmap_r, Forall2_same_length_lookup in Hds as [_ Hds].
      apply list_elem_of_In, list_elem_of_lookup in Hin as [i Hi]. by apply (Hds i).
    + rewrite Hout by (done || lia). destruct (wf_col _ Hw c) as (_ & _ & ? & ?); [by rewrite (shape_cols _ _ Hsh)|done].
  - intros c Hr Hb. apply Hout; [lia|]. intros [_ Hbx]%in_those. rewrite bad_shape in Hbx by done. congruence.
Qed.

Lemma attempt_wf T rm1 code : attempt T rm1 code -> shape rm1 = shape rm0 /\ rm_wf rm1.
Proof using Hwf0. intros (rm & ds & Hk & -> & _ & Hds & _). by destruct (attempt_facts rm T ds Hk Hds) as (? & ? & _). Qed.

Lemma attempt_exists rm T : keeps rm -> StronglySorted Z.lt T -> Forall (Z.le 0) T ->
  zlen (those (bad rm T) 0 (rm_cols rm)) <= rm_firstdatacol rm ->
  exists rm1 code, reconstruct rm T (zlen T) = Ok (rm1, code) /\ attempt T rm1 code /\
    shape rm1 = shape rm0 /\ rm_wf rm1 /\ forall c, 0 <= c < cols -> bad rm0 T c = false -> dat rm1 c = dat rm c.
Proof using Hkmem Hzio Hwf0.
  intros Hk Hs Hp Hc. pose proof Hk as (Hw & Hsh & _).
  destruct (reconstruct_total kmem_alloc zio_buf_alloc general Hkmem Hzio rm T Hw Hs Hp Hc) as (ds & code & E & Hds & Hcode).
  eexists _, code. split; [exact E|]. split; [|by apply attempt_facts].
  exists rm, ds. split; [done|]. split; [done|]. split; [done|]. split; [done|].
  rewrite badcols_shape in Hcode by done. destruct Hcode as (? & Hb & ?). split; [done|]. split; [|done].
  intros i Hi Hi'. rewrite <- (bad_shape rm) by done. by apply Hb.
Qed.

Section size.
Context (m : nat) (de : Z) (Hn : (S m <= 3)%nat) (Hcount : Z.of_nat (S m) + nerr <= first).
Abbreviation n := (S m).
Abbreviation adm := (admissible e cols m de first).

(** The set the loop is about to try. *)
Definition upcoming (curr next : Z) (ts : list Z) : nat -> Z :=
  fun i => if decide (curr = Z.of_nat i) then next else tgt ts i.

Definition all_tried (P : (nat -> Z) -> Prop) : Prop := forall s, adm s -> P s -> tried (tab n s).

Definition run_inv (st : raidz_map * list Z * list (list Z) * Z * Z) : Prop :=
  let '(rm, ts, orig, curr, next) := st in
  keeps rm /\ frame cols n ts /\ bufs n orig /\ 0 <= curr <= Z.of_nat n /\
  (curr = Z.of_nat n -> all_tried (fun _ => True)) /\
  (curr < Z.of_nat n -> adm (upcoming curr next ts) /\ all_tried (fun s => clt n s (upcoming curr next ts))).

Definition run_measure (st : raidz_map * list Z * list (list Z) * Z * Z) : nat :=
  let '(rm, ts, orig, curr, next) := st in
  if curr =? Z.of_nat n then 0%nat
  else Z.to_nat ((cols + 1) ^ Z.of_nat n - cval cols (upcoming curr next ts) n).

Definition run_post (r : raidz_map * list Z * list (list Z) * option (Z * list event)) : Prop :=
  let '(rm, ts, orig, res) := r in
  match res with
  | None => keeps rm /\ frame cols n ts /\ bufs n orig /\ all_tried (fun _ => True)
  | Some (code, ev) => quiet ev /\ exists s, adm s /\ found (tab n s) rm code
  end.

Lemma tab_upcoming ts s : (forall i, (i < n)%nat -> tgt ts i = s i) -> tab n (tgt ts) = tab n s.
Proof. intros H. by apply tab_ext. Qed.

(** Past the set [t]: what comes next in the order. *)
Lemma run_advance ts ts' curr next rm orig :
  keeps rm -> bufs n orig -> adm (tgt ts) ->
  all_tried (fun s => clt n s (tgt ts)) -> tried (tab n (tgt ts)) ->
  step_post e cols n ts (ts', curr, next) ->
  run_inv (rm, ts', orig, curr, next) /\
  (run_measure (rm, ts', orig, curr, next) < Z.to_nat ((cols + 1) ^ Z.of_nat n - cval cols (tgt ts) n))%nat.
Proof using Hn Hwf0 Hcount.
  intros Hk Hb [Hc Hd] Hbelow Hthis (Hf' & k & -> & Hkn & Hlast & Hnext).
  assert (Hcv : cval cols (tgt ts) n < (cols + 1) ^ Z.of_nat n) by (apply cval_bound; intros; by apply Hc).
  assert (Hle : forall s, adm s -> ~ clt n (tgt ts) s -> tried (tab n s)).
  { intros s Hs Hnl. destruct (clt_cases n s (tgt ts)) as [E|[L|L]]; [by rewrite (tab_ext n s (tgt ts) E)|by apply Hbelow|done]. }
  unfold run_measure. destruct (decide (k = n)) as [->|Hne].
  - rewrite Z.eqb_refl. split; [|lia]. split_and!; try done; try lia. intros _ s Hs _. apply Hle; [done|]. apply Hlast, Hs. done.
  - rewrite (proj2 (Z.eqb_neq _ _)) by lia. destruct (Hnext ltac:(lia)) as (Hc' & Hlt & Hno). cbv zeta in Hc', Hlt, Hno.
    assert (E : forall i, (i < n)%nat -> (if decide (k = i) then next else tgt ts' i) = upcoming (Z.of_nat k) next ts' i).
    { intros i Hi. unfold upcoming. destruct (decide (k = i)) as [->|]; [by rewrite decide_True|by rewrite decide_False by lia]. }
    pose proof (combo_ext _ _ _ _ _ E Hc') as Hcu. pose proof (clt_ext n _ _ _ _ (fun i _ => eq_refl) E Hlt) as Hltu.
    split.
    + split_and!; try done; try lia. intros _. split.
      * split; [done|]. intros H0. specialize (Hd H0). destruct Hltu as (j & Hj & Hl & He).
        destruct (decide (j = m)) as [->|]; [lia|]. rewrite <- He by lia. done.
      * intros s Hs Hls. destruct (clt_cases n s (tgt ts)) as [E'|[L|L]];
          [by rewrite (tab_ext n s (tgt ts) E')|by apply Hbelow|]. exfalso.
        apply (Hno s (proj1 Hs) L). eapply clt_ext; [done| |exact Hls]. intros; symmetry; by apply E.
    + pose proof (clt_cval _ _ _ _ _ Hc Hcu Hltu). lia.
Qed.

Lemma verify_map rm : (raidz_checksum_verify zio_checksum_error rm).1 = (zio_checksum_error (io_buffer rm)).1 /\
  ((raidz_checksum_verify zio_checksum_error rm).1 = 0 -> (raidz_checksum_verify zio_checksum_error rm).2 = rm) /\
  ((raidz_checksum_verify zio_checksum_error rm).2 = rm \/ (raidz_checksum_verify zio_checksum_error rm).2 = set_rm_injected rm).
Proof.
  unfold raidz_checksum_verify. destruct (zio_checksum_error (io_buffer rm)) as [ret inj]. cbn [fst snd].
  split; [done|]. split; [by intros ->|]. destruct (negb _ && inj); auto.
Qed.

(** The next set is written into the frame. *)
Lemma run_set rm ts orig curr next : run_inv (rm, ts, orig, curr, next) -> curr <> Z.of_nat n ->
  exists ts1, wr ts (curr + 1) next = Ok ts1 /\ frame cols n ts1 /\ adm (tgt ts1) /\ all_tried (fun s => clt n s (tgt ts1)) /\
    run_measure (rm, ts, orig, curr, next) = Z.to_nat ((cols + 1) ^ Z.of_nat n - cval cols (tgt ts1) n).
Proof using All.
  intros (Hk & Hf & Hb & Hc & _ & Hnext) E.
  destruct (Hnext ltac:(lia)) as [Hadm Hbelow]. set (k := Z.to_nat curr). assert (Ek : curr = Z.of_nat k) by lia.
  destruct (tset_ok cols n ts k next Hf ltac:(lia) Hn) as (ts1 & Ew & Hf1 & G). exists ts1. split; [by rewrite Ek|].
  assert (Eu : forall i, (i < n)%nat -> upcoming curr next ts i = tgt ts1 i).
  { intros i Hi. unfold upcoming. rewrite G, Ek. destruct (decide (k = i)) as [->|]; [by rewrite decide_True|by rewrite decide_False by lia]. }
  split_and!; [done| | |].
  - destruct Hadm as [Hcc Hd]. split; [by eapply combo_ext|]. rewrite <- Eu by lia. done.
  - intros s Hs Hl. apply Hbelow; [done|]. eapply clt_ext; [done| |exact Hl]. intros; symmetry; by apply Eu.
  - unfold run_measure. rewrite (proj2 (Z.eqb_neq _ _)) by lia. do 2 f_equal. by apply cval_ext.
Qed.

(** The search starts at the least set. *)
Lemma run_start rm ts orig : keeps rm -> frame cols n ts -> bufs n orig -> adm (tgt ts) -> (forall s, adm s -> ~ clt n s (tgt ts)) ->
  run_inv (rm, ts, orig, 0%Z, tgt ts 0) /\ (run_measure (rm, ts, orig, 0%Z, tgt ts 0) < S (Z.to_nat ((cols + 1) ^ Z.of_nat n)))%nat.
Proof using All.
  intros Hk Hf Hb Hadm Hleast. split.
  - split_and!; try done; try lia. intros _.
    assert (Eu : forall i, (i < n)%nat -> tgt ts i = upcoming 0 (tgt ts 0) ts i).
    { intros i Hi. unfold upcoming. destruct (decide _) as [E|]; [|done]. f_equal. lia. }
    split.
    + destruct Hadm as [Hcc Hd]. split; [by eapply combo_ext|]. rewrite <- Eu by lia. done.
    + intros s Hs Hl. exfalso. apply (Hleast s Hs). eapply clt_ext; [done| |exact Hl]. intros; symmetry; by apply Eu.
  - unfold run_measure. case_if as E; [lia|].
    assert (0 <= cval cols (upcoming 0 (tgt ts 0) ts) n).
    { apply cval_bound. intros i Hi. unfold upcoming. destruct (decide _) as [E'|]; [|by apply Hadm].
      replace 0%nat with i by lia. by apply Hadm. }
    lia.
Qed.

Lemma comb_attempts_ok rm ts orig : keeps rm -> frame cols n ts -> bufs n orig -> adm (tgt ts) ->
  (forall s, adm s -> ~ clt n s (tgt ts)) ->
  wp (comb_attempts kmem_alloc zio_buf_alloc general zio_checksum_error z (Z.of_nat n) rm ts orig) run_post.
Proof using All.
  intros Hk Hf Hb Hadm Hleast. unfold comb_attempts. pose proof Hk as (_ & Hsh & _).
  rewrite (tget_ok cols n ts 0 Hf ltac:(lia) : rd ts (0 + 1) = _). bnd. rewrite (shape_cols _ _ Hsh).
  apply wp_loop with (I := run_inv) (m := run_measure).
  - clear rm ts orig Hk Hf Hb Hadm Hleast Hsh. intros [[[[rm ts] orig] curr] next] Hinv. pose proof Hinv as (Hk & Hf & Hb & Hc & Hdone & _).
    case_if as E; [cbn [wp run_post]; split_and!; try done; by apply Hdone|].
    destruct (run_set _ _ _ _ _ Hinv E) as (ts1 & -> & Hf1 & Hadm1 & Hbelow1 & ->). bnd.
    pose proof Hadm1 as [Hcombo _]. apply wp_bind. eapply wp_mono; [by apply comb_save_ok|]. intros orig1 [Hb1 Hsv].
    rewrite Nat2Z.id, targets_eq by done. set (T := tab n (tgt ts1)).
    assert (ET : zlen T = Z.of_nat n) by (unfold T; by rewrite length_tab).
    rewrite <- ET. destruct (attempt_exists rm T Hk) as (rm1 & code & Er & Hat & Hsh1 & Hw1 & Hsame1);
      [by apply targets_sorted|by apply targets_pos|apply few_bad; [done|by rewrite ET]|]. rewrite Er. bnd.
    destruct (verify_map rm1) as (Ev1 & Ev0 & Ev2). destruct (raidz_checksum_verify zio_checksum_error rm1) as [ret rm1'].
    cbn [fst snd] in *. case_if as Eret.
    + rewrite (Ev0 Eret), ET. apply wp_bind. eapply wp_mono; [apply comb_blame_ok; try done; by destruct Hb1|].
      intros [rm2 ev] [Hq Hbl]. cbn [wp run_post]. split; [auto with quiet|]. exists (tgt ts1). split; [done|]. exists rm1. split; [done|].
      split; [unfold passes; congruence|done].
    + assert (Hfail : tried T) by (exists rm1, code; split; [done|unfold passes; congruence]).
      assert (H1' : shape rm1' = shape rm0 /\ rm_wf rm1' /\ forall c, dat rm1' c = dat rm1 c).
      { destruct Ev2 as [->| ->]; [done|]. split; [done|]. split; [|done]. by destruct Hw1; split. }
      destruct H1' as (Hsh1' & Hw1' & Hd1'). rewrite ET. apply wp_bind.
      eapply wp_mono; [by apply comb_restore_ok|]. intros rm2 (Hsh2 & Hw2 & Hin2 & Hout2).
      assert (Hk2 : keeps rm2).
      { split; [done|]. split; [done|]. intros c Hr He. destruct (memb c T) eqn:M.
        - apply memb_In, in_tab in M as (i & Hi & <-). by apply Hin2.
        - rewrite Hout2, Hd1', Hsame1; [by apply Hk|done| |lia|].
          + unfold bad. rewrite M, He. done.
          + intros i Hi Ei. assert (M' : memb c T = true); [|congruence]. apply memb_In, in_tab. by exists i. }
      apply wp_bind. eapply wp_mono; [apply (comb_next_ok e cols rm2 n ts1); [by apply keeps_shows|done|done|done|lia]|].
      intros [[ts2 curr2] next2] Hp. cbn [wp]. by apply (run_advance ts1).
  - by apply run_start.
  - by apply run_start.
Qed.
End size.

(** ** [vdev_raidz_combrec] *)

Abbreviation de := (zlen (those (fun c => negb (e c =? 0)) first cols)).
Abbreviation adm m := (admissible e cols m de first).

(** There are enough good columns for a set of every size in question. *)
Lemma adm_exists m : Z.of_nat (S m) + nerr <= first -> exists s, adm m s.
Proof using Hwf0.
  intros Hc. pose proof (wf_np _ Hwf0). pose proof (wf_first _ Hwf0). set (G := those good 0 cols).
  assert (HG : zlen G + nerr = cols).
  { pose proof (those_length good 0 cols ltac:(lia)). unfold G. lia. }
  set (s := fun i : nat => nth (length G - S m + i) G 0). exists s.
  assert (Hin : forall i, (i < S m)%nat -> In (s i) G) by (intros; apply nth_In; lia).
  split; [split|].
  - intros i Hi. specialize (Hin i Hi). apply in_those in Hin as [? ?]. split; [lia|done].
  - intros i j Hij Hj. apply sorted_nth; [apply those_sorted|lia|lia].
  - intros Hde. assert (Hlast : good (cols - 1) = true).
    { destruct (good (cols - 1)) eqn:E; [done|]. assert (Hx : In (cols - 1) (those (fun c => negb (e c =? 0)) first cols))
        by (apply in_those; split; [lia|by rewrite E]). by destruct (those _ first cols). }
    assert (EG : G = those good 0 (cols - 1) ++ [cols - 1]).
    { unfold G. replace cols with (cols - 1 + 1) at 1 by lia. rewrite those_snoc by lia. by rewrite Hlast. }
    assert (L : length G = S (length (those good 0 (cols - 1)))) by (rewrite EG, length_app; cbn; lia).
    unfold s. rewrite EG at 2. rewrite app_nth2 by lia.
    replace (length G - S m + m - length (those good 0 (cols - 1)))%nat with 0%nat by lia. cbn. lia.
Qed.

Lemma found_code m s rm code : adm m s -> found (tab (S m) s) rm code -> 0 < code.
Proof using Hwf0.
  intros [[Hg _] Hd] (rm1 & (rm' & ds & _ & _ & _ & _ & _ & _ & Hcode) & _). apply Hcode.
  assert (H : exists x, In x (badcols (tab (S m) s) rm0)).
  { destruct (those (fun c => negb (e c =? 0)) first cols) as [|x l] eqn:E.
    - exists (s m). destruct (Hg m) as [? _]; [lia|]. specialize (Hd eq_refl). apply in_those. split; [lia|].
      unfold bad. replace (memb (s m) (tab (S m) s)) with true; [done|]. symmetry. apply memb_In, in_tab. exists m. split; [lia|done].
    - exists x. assert (Hx : In x (x :: l)) by (by left). rewrite <- E in Hx. apply in_those in Hx as [? Hx].
      apply in_those. split; [done|]. unfold bad. rewrite Hx. apply orb_true_r. }
  destruct H as [x Hx]. destruct (badcols _ rm0); [done|cbn; lia].
Qed.

Definition combrec_post (r : raidz_map * list event * Z) : Prop :=
  let '(rm, ev, code) := r in quiet ev /\
  ((code = 0 /\ keeps rm /\ forall m s, Z.of_nat (S m) + nerr <= first -> adm m s -> tried (tab (S m) s)) \/
  (0 < code /\ exists m s, Z.of_nat (S m) + nerr <= first /\ adm m s /\ found (tab (S m) s) rm code)).

Lemma combrec_ok tstore0 : length tstore0 = 5%nat ->
  wp (vdev_raidz_combrec kmem_alloc zio_buf_alloc general zio_checksum_error z tstore0 rm0 nerr de) combrec_post.
Proof using Hwf0 Hkmem Hzio.
  intros Hl. unfold vdev_raidz_combrec. rewrite wr_in_bounds by lia. bnd. pose proof (wf_np _ Hwf0). pose proof (wf_first _ Hwf0).
  apply wp_loop with (m := fun '(_, _, _, n) => Z.to_nat (first - nerr + 1 - n))
    (I := fun '(rm, ts, orig, n) => keeps rm /\ length ts = 5%nat /\ nth 0 ts 0 = -1 /\ 1 <= n <= Z.max 1 (first - nerr + 1) /\
      bufs (Z.to_nat (n - 1)) orig /\ forall m s, Z.of_nat (S m) < n -> adm m s -> tried (tab (S m) s)).
  - intros [[[rm ts] orig] n] (Hk & Hlt & Hz & Hn & Hb & Htried). case_if as E.
    + set (m := Z.to_nat (n - 1)). assert (En : n = Z.of_nat (S m)) by lia. fold m in Hb. rewrite En.
      destruct (adm_exists m ltac:(lia)) as [s0 Hs0]. pose proof Hk as (Hw & Hsh & _).
      apply wp_bind. eapply wp_mono.
      { apply (comb_init_ok e cols rm m de first s0); try done; try lia; [by apply keeps_shows|by apply shape_first]. }
      intros ts1 [Hf1 Hts1]. rewrite col_size_ok by (pose proof (wf_cols _ Hw); pose proof (wf_first _ Hw); pose proof (wf_np _ Hw); lia). bnd. rewrite (shape_siz _ _ _ Hsh).
      destruct Hb as [Hbl Hbs]. rewrite push_ok by (rewrite Hbl; unfold VDEV_RAIDZ_MAXPARITY; lia). bnd.
      destruct (wf_col _ Hwf0 0) as (Hs0' & _); [lia|]. destruct (Hzio (siz rm0 0) Hs0') as [Hal _].
      pose proof (least_admissible e cols m de first s0 ltac:(lia) ltac:(lia) Hs0) as Hleast.
      assert (Hadm1 : adm m (tgt ts1)).
      { destruct Hleast as [Hcc Hd]. split; [eapply combo_ext; [|exact Hcc]; intros; symmetry; by apply Hts1|].
        rewrite Hts1 by lia. done. }
      apply wp_bind. eapply wp_mono.
      { apply (comb_attempts_ok m de); try done; try lia.
        - split; [rewrite length_app; cbn; lia|]. apply Forall_app. split; [done|]. constructor; [lia|constructor].
        - intros s Hs. apply clt_least. intros i Hi. rewrite Hts1 by done. apply (least_le e cols m de first); done || lia. }
      intros [[[rm' ts'] orig'] [[code ev]|]]; cbn [run_post].
      * intros (Hq & s & Hs & Hfound). cbn [wp]. split; [done|]. right. split; [by eapply found_code|]. exists m, s. split_and!; try done; lia.
      * intros (Hk' & (Hl' & Hz' & _) & Hb' & Htr). cbn [wp]. split; [|lia].
        split_and!; try done; try lia.
        -- by replace (Z.to_nat (Z.of_nat (S m) + 1 - 1)) with (S m) by lia.
        -- intros m' s Hm' Hs. destruct (decide (m' = m)) as [->|]; [by apply Htr|]. apply Htried; [lia|done].
    + cbn [wp combrec_post]. split; [apply quiet_nil|]. left. split; [done|]. split; [done|]. intros m s Hm Hs. apply Htried; [lia|done].
  - split; [by apply keeps_refl|]. split; [by rewrite length_insert|]. split; [by rewrite nth_insert by lia|].
    split; [lia|]. split; [split; [done|constructor]|]. intros; lia.
  - lia.
Qed.
End run.
End attempts.
End RaidzComb.
