(* ===== verification/RaidzDone.v ===== *)
(** Completion of a RAID-Z read: what each part of [vdev_raidz_io_done] makes of
    a map whose child I/Os have finished. *)

From S2P Require Import Prelude Galois RaidzMap RaidzParity RaidzReconstruct RaidzGeneral RaidzSolve RaidzRepair RaidzIo RaidzState RaidzComb.
Import Galois RaidzMap RaidzParity RaidzReconstruct RaidzGeneral RaidzSolve RaidzRepair RaidzIo RaidzState RaidzComb.
Open Scope Z_scope.

Module RaidzDone.

(** ** Observers *)

Definition no_col : raidz_col := RC 0 0 0 [] None 0 false false.
Definition colat (rm : raidz_map) (c : Z) : raidz_col := nth (Z.to_nat c) (rm_col rm) no_col.
Definition trd (rm : raidz_map) (c : Z) : bool := rc_tried (colat rm c).
Definition failed (rm : raidz_map) (c : Z) : bool := negb (err rm c =? 0).
Definition unread (rm : raidz_map) (c : Z) : bool := (err rm c =? 0) && negb (trd rm c).
Definition unexpected (rm : raidz_map) (c : Z) : bool := failed rm c && negb (rc_skipped (colat rm c)).

Lemma rd_colat rm c : in_map rm c -> rd (rm_col rm) c = Ok (colat rm c) /\ rm_col rm !! Z.to_nat c = Some (colat rm c) /\
  rc_data (colat rm c) = dat rm c /\ rc_size (colat rm c) = siz rm c /\ rc_error (colat rm c) = err rm c.
Proof.
  intros Hc. destruct (rd_col rm c Hc) as (rc & E & El & Hrc).
  assert (Ec : colat rm c = rc) by (unfold colat; by apply nth_lookup_Some). by rewrite Ec.
Qed.

Lemma those_ext p q lo hi : (forall c, lo <= c < hi -> p c = q c) -> those p lo hi = those q lo hi.
Proof. intros H. apply filter_ext_in. intros c Hc%list_elem_of_In%elem_of_seqZ. apply H. lia. Qed.

Lemma outline_trd rm rm' c : outline rm = outline rm' -> trd rm c = trd rm' c.
Proof.
  unfold outline, trd, colat. intros [= _ _ E].
  assert (G : forall l, rc_tried (nth (Z.to_nat c) (map (fun rc => set_rc_error 0 (skel rc)) l) (set_rc_error 0 (skel no_col))) =
    rc_tried (nth (Z.to_nat c) l no_col)) by (intros l; by rewrite (map_nth (fun rc => set_rc_error 0 (skel rc)))).
  by rewrite <- (G (rm_col rm)), <- (G (rm_col rm')), E.
Qed.

(** ** The loops over the columns *)

Section loops.
Context (rm : raidz_map) (Hwf : rm_wf rm).
Abbreviation cols := (rm_cols rm).
Abbreviation first := (rm_firstdatacol rm).
Abbreviation count p lo hi := (zlen (those p lo hi)).

Lemma count_snoc p lo i : lo <= i -> count p lo (i + 1) = count p lo i + (if p i then 1 else 0).
Proof. intros Hi. rewrite those_snoc by done. destruct (p i); rewrite length_app; cbn; lia. Qed.

Lemma count_nil p lo hi : hi <= lo -> count p lo hi = 0.
Proof. intros H. by rewrite those_nil. Qed.

Lemma io_done_count_ok : io_done_count rm = Ok (Counts (count (unexpected rm) 0 cols) (count (failed rm) 0 first)
  (count (unread rm) 0 first) (count (failed rm) first cols) (count (failed rm) 0 cols)).
Proof using Hwf.
  pose proof (wf_np _ Hwf). pose proof (wf_first _ Hwf). pose proof (wf_cols _ Hwf).
  apply for_range_fun with (g := fun i => Counts (count (unexpected rm) 0 i) (count (failed rm) 0 (Z.min i first))
    (count (unread rm) 0 (Z.min i first)) (count (failed rm) first i) (count (failed rm) 0 i)).
  - lia.
  - intros i Hi. destruct (rd_colat rm i) as (-> & _ & _ & _ & Ee); [lia|]. bnd.
    assert (EU : unexpected rm i = negb (err rm i =? 0) && negb (rc_skipped (colat rm i))) by done.
    assert (ER : unread rm i = (err rm i =? 0) && negb (rc_tried (colat rm i))) by done.
    assert (EF : failed rm i = negb (err rm i =? 0)) by done.
    rewrite !(count_snoc _ 0 i) by lia.
    assert (Hlow : i < first -> Z.min i first = i /\ Z.min (i + 1) first = i + 1) by lia.
    assert (Hhigh : first <= i -> Z.min i first = first /\ Z.min (i + 1) first = first) by lia.
    destruct (Z.ltb_spec i first) as [Hlt|Hge].
    + destruct (Hlow Hlt) as [-> ->]. rewrite !(count_snoc _ 0 i), !(count_nil _ first), EU, ER, EF, Ee by lia.
      destruct (err rm i =? 0); cbn [negb andb]; [destruct (rc_tried _)|destruct (rc_skipped _)]; cbn [negb]; by rewrite ?Z.add_0_r.
    + destruct (Hhigh Hge) as [-> ->]. rewrite (count_snoc _ first i), EU, EF, Ee by lia.
      destruct (err rm i =? 0); cbn [negb andb]; [|destruct (rc_skipped _)]; cbn [negb]; by rewrite ?Z.add_0_r.
  - by rewrite !count_nil by lia.
  - by rewrite Z.min_r by lia.
Qed.

Lemma io_done_targets_ok : count (failed rm) first cols <= 3 -> io_done_targets rm = Ok (those (failed rm) first cols).
Proof using Hwf.
  intros H3. pose proof (wf_np _ Hwf). pose proof (wf_first _ Hwf). pose proof (wf_cols _ Hwf).
  apply for_range_fun with (g := fun i => those (failed rm) first i).
  - lia.
  - intros i Hi. destruct (rd_colat rm i) as (-> & _ & _ & _ & Ee); [lia|]. bnd. rewrite those_snoc, Ee by lia.
    assert (EF : failed rm i = negb (err rm i =? 0)) by done. rewrite EF.
    destruct (err rm i =? 0) eqn:E0; cbn [negb] in *; [by rewrite app_nil_r|].
    assert (count (failed rm) first i < count (failed rm) first cols) by (by apply those_mono).
    apply push_ok. unfold VDEV_RAIDZ_MAXPARITY. lia.
  - by rewrite those_nil by lia.
  - done.
Qed.

(** A loop that issues an I/O for some columns. *)
Lemma issue_loop (p : Z -> bool) (io : Z -> event) (f : Z -> list event -> res (list event)) :
  (forall c ev, 0 <= c < cols -> f c ev = Ok (if p c then ev ++ [io c] else ev)) ->
  for_range 0 cols f [] = Ok (map io (those p 0 cols)).
Proof using Hwf.
  intros Hf. pose proof (wf_np _ Hwf). pose proof (wf_first _ Hwf).
  apply for_range_fun with (g := fun i => map io (those p 0 i)); [lia| |by rewrite those_nil by lia|done].
  intros i Hi. rewrite Hf, those_snoc, map_app by lia. by destruct (p i); cbn; rewrite ?app_nil_r.
Qed.

Definition read_io (c : Z) : event := EIssue (col_io false false false (Some c) (colat rm c)).
Definition repair_io (heal : bool) (c : Z) : event := EIssue (col_io true true heal None (colat rm c)).

Lemma io_done_retry_ok : io_done_retry rm = Ok (map read_io (those (fun c => negb (trd rm c)) 0 cols)).
Proof using Hwf.
  pose proof (wf_cols _ Hwf). apply issue_loop. intros c ev Hc. destruct (rd_colat rm c) as (-> & _); [lia|]. bnd.
  unfold trd, read_io. by destruct (rc_tried (colat rm c)).
Qed.

Lemma io_done_repair_ok heal : io_done_repair heal rm = Ok (map (repair_io heal) (those (failed rm) 0 cols)).
Proof using Hwf.
  pose proof (wf_cols _ Hwf). apply issue_loop. intros c ev Hc. destruct (rd_colat rm c) as (-> & _ & _ & _ & Ee); [lia|]. bnd.
  rewrite Ee. unfold failed, repair_io. by destruct (err rm c =? 0).
Qed.
End loops.

(** ** The worst error *)

Lemma error_rank_pos e : e <> 0 <-> 0 < error_rank e zio_error_rank.
Proof.
  cbn [error_rank zio_error_rank]. unfold ENXIO, ECKSUM, EIO. case_ifs; zbool; subst; lia.
Qed.

Lemma worst_zero e1 e2 : zio_worst_error e1 e2 = 0 <-> e1 = 0 /\ e2 = 0.
Proof.
  unfold zio_worst_error. pose proof (error_rank_pos e1). pose proof (error_rank_pos e2).
  assert (error_rank 0 zio_error_rank = 0) by done. case_if as E; split; intros; subst; try lia.
Qed.

Lemma worst_error_ok rm : rm_wf rm -> exists e, vdev_raidz_worst_error rm = Ok e /\ (e = 0 <-> those (failed rm) 0 (rm_cols rm) = []).
Proof.
  intros Hwf. pose proof (wf_np _ Hwf). pose proof (wf_first _ Hwf). pose proof (wf_cols _ Hwf).
  apply wp_elim. unfold vdev_raidz_worst_error.
  apply (wp_for_range (fun i e => e = 0 <-> those (failed rm) 0 i = [])).
  - lia.
  - by rewrite those_nil by lia.
  - intros i e Hi IH. destruct (rd_colat rm i) as (-> & _ & _ & _ & Ee); [lia|]. bnd. cbn [wp].
    rewrite Ee, worst_zero, IH, those_snoc by lia.
    assert (EF : failed rm i = negb (err rm i =? 0)) by done. rewrite EF. split.
    + intros [-> ->]. by rewrite Z.eqb_refl.
    + intros [-> E]%app_eq_nil. split; [done|]. destruct (err rm i =? 0) eqn:E0; [lia|done].
  - done.
Qed.

(** ** Checksum reports *)

Section report.
Context (zio_buf_alloc : Z -> list Z) (Hzio : allocates zio_buf_alloc).

Lemma wf_reports rm n : rm_wf rm -> rm_wf (set_rm_reports n rm).
Proof. by intros [Hn Hf Hc Hp Hcol Hd]. Qed.

Lemma wf_datacopy rm d : rm_wf rm -> rm_wf (set_rm_datacopy d rm).
Proof. by intros [Hn Hf Hc Hp Hcol Hd]. Qed.

(** The data columns before column [i]. *)
Definition upto (rm : raidz_map) (i : Z) : list Z := mjoin (map (dat rm) (seqZ (rm_firstdatacol rm) (i - rm_firstdatacol rm))).

Lemma upto_first rm : upto rm (rm_firstdatacol rm) = [].
Proof. unfold upto. by rewrite Z.sub_diag. Qed.

Lemma upto_snoc rm i : rm_firstdatacol rm <= i -> upto rm (i + 1) = upto rm i ++ dat rm i.
Proof.
  intros Hi. unfold upto. replace (i + 1 - rm_firstdatacol rm) with (i - rm_firstdatacol rm + 1) by lia.
  rewrite seqZ_app, map_app, join_app, Zplus_minus, (seqZ_cons i 1), (seqZ_nil _ (Z.pred 1)) by lia. cbn. by rewrite app_nil_r.
Qed.

Lemma upto_cols rm : rm_wf rm -> upto rm (rm_cols rm) = io_buffer rm.
Proof. intros. by rewrite io_buffer_dat. Qed.

Section copy.
Context (rm : raidz_map) (Hwf : rm_wf rm).

Lemma upto_len i : rm_firstdatacol rm <= i < rm_cols rm -> zlen (upto rm (i + 1)) = zlen (upto rm i) + siz rm i.
Proof using Hwf.
  intros Hi. pose proof (wf_np _ Hwf). rewrite upto_snoc, length_app by lia.
  destruct (wf_col _ Hwf i) as (_ & _ & ? & _); lia.
Qed.

Lemma upto_le k i : rm_firstdatacol rm <= i -> i + Z.of_nat k <= rm_cols rm ->
  zlen (upto rm i) <= zlen (upto rm (i + Z.of_nat k)).
Proof using Hwf.
  intros Hi. induction k as [|k IH]; intros Hk; [by rewrite Z.add_0_r|].
  replace (i + Z.of_nat (S k)) with (i + Z.of_nat k + 1) by lia. rewrite upto_snoc, length_app by lia. lia.
Qed.

Lemma data_size : for_range (rm_firstdatacol rm) (rm_cols rm) (fun c size => n ← col_size rm c; Ok (size + n)) 0 =
  Ok (zlen (upto rm (rm_cols rm))).
Proof using Hwf.
  pose proof (wf_np _ Hwf). pose proof (wf_first _ Hwf). pose proof (wf_cols _ Hwf).
  apply for_range_fun with (g := fun i => zlen (upto rm i)); [lia| |by rewrite upto_first|done].
  intros i Hi. rewrite col_size_ok by lia. bnd. by rewrite upto_len.
Qed.

Lemma copy_data buf : zlen buf = zlen (upto rm (rm_cols rm)) ->
  for_range (rm_firstdatacol rm) (rm_cols rm) (fun c '(rm, buf, off) =>
    d ← col_data rm c;
    n ← col_size rm c;
    d ← rdbuf d n;
    if off + n <=? zlen buf then
      rm ← set_col_data rm c d;
      Ok (rm, take (Z.to_nat off) buf ++ d ++ drop (Z.to_nat (off + n)) buf, off + n)
    else Fault FWrite) (rm, buf, 0) = Ok (rm, upto rm (rm_cols rm), zlen (upto rm (rm_cols rm))).
Proof using Hwf.
  intros Hb. pose proof (wf_np _ Hwf). pose proof (wf_first _ Hwf). pose proof (wf_cols _ Hwf).
  apply for_range_fun with (g := fun i => (rm, upto rm i ++ drop (length (upto rm i)) buf, zlen (upto rm i))).
  - lia.
  - intros i Hi. destruct (wf_col _ Hwf i) as (? & _ & L & _); [lia|].
    pose proof (upto_len i Hi) as El. pose proof (upto_le (Z.to_nat (rm_cols rm - (i + 1))) (i + 1) ltac:(lia) ltac:(lia)) as Hle.
    replace (i + 1 + Z.of_nat (Z.to_nat (rm_cols rm - (i + 1)))) with (rm_cols rm) in Hle by lia.
    rewrite col_data_ok, col_size_ok by lia. bnd. rewrite rdbuf_ok by done. bnd.
    rewrite length_app, length_drop, (proj2 (Z.leb_le _ _)) by lia. unfold set_col_data. rewrite upd_col_ok by lia. bnd.
    rewrite wdat_id, El, Nat2Z.id, take_app_length, (upto_snoc rm i) by lia. do 3 f_equal.
    rewrite <- app_assoc. do 2 f_equal. rewrite drop_app_ge, drop_drop, length_app by lia. f_equal. lia.
  - by rewrite upto_first.
  - rewrite drop_ge, app_nil_r by lia. done.
Qed.
End copy.

(** A report holds the map, and the data columns are kept in the copy. *)
Lemma cksum_report_ok rm : rm_wf rm -> vdev_raidz_cksum_report zio_buf_alloc rm =
  Ok (set_rm_datacopy (Some (default (io_buffer rm) (rm_datacopy rm))) (set_rm_reports (rm_reports rm + 1) rm)).
Proof using Hzio.
  intros Hw. unfold vdev_raidz_cksum_report. change (io_buffer rm) with (io_buffer (set_rm_reports (rm_reports rm + 1) rm)).
  change (rm_datacopy rm) with (rm_datacopy (set_rm_reports (rm_reports rm + 1) rm)).
  apply (wf_reports _ (rm_reports rm + 1)) in Hw. set (rm1 := set_rm_reports (rm_reports rm + 1) rm) in *.
  destruct (rm_datacopy rm1) as [d|] eqn:Ed; cbn [default].
  { f_equal. destruct rm1. cbn in Ed. by subst. }
  rewrite data_size by done. bnd. rewrite copy_data by (done || apply Hzio; lia). bnd. by rewrite upto_cols.
Qed.

(** Reports leave the columns alone. *)
Lemma io_done_report_ok z rm : rm_wf rm -> exists rm' ev, io_done_report zio_buf_alloc z rm = Ok (rm', ev) /\
  rm_wf rm' /\ rm_cols rm' = rm_cols rm /\ rm_firstdatacol rm' = rm_firstdatacol rm /\ rm_col rm' = rm_col rm /\
  rm_reports rm' = rm_reports rm + (if zf_speculative z then 0 else zlen ev) /\
  ev = (if zf_speculative z then [] else map EReport (those (fun c => err rm c =? 0) 0 (rm_cols rm))).
Proof using Hzio.
  intros Hw. pose proof (wf_np _ Hw). pose proof (wf_first _ Hw). pose proof (wf_cols _ Hw).
  unfold io_done_report. destruct (zf_speculative z); [by exists rm, []; rewrite Z.add_0_r|].
  enough (W : wp (for_range 0 (rm_cols rm) (fun c '(rm, ev) =>
      rc ← rd (rm_col rm) c;
      if rc_error rc =? 0 then rm ← vdev_raidz_cksum_report zio_buf_alloc rm; Ok (rm, ev ++ [EReport c]) else Ok (rm, ev)) (rm, []))
    (fun '(rm', ev) => rm_wf rm' /\ rm_cols rm' = rm_cols rm /\ rm_firstdatacol rm' = rm_firstdatacol rm /\ rm_col rm' = rm_col rm /\
      rm_reports rm' = rm_reports rm + zlen ev /\ ev = map EReport (those (fun c => err rm c =? 0) 0 (rm_cols rm)))).
  { apply wp_elim in W as ([rm' ev] & -> & W). by exists rm', ev. }
  apply (wp_for_range (fun i '(rm', ev) => rm_wf rm' /\ rm_cols rm' = rm_cols rm /\ rm_firstdatacol rm' = rm_firstdatacol rm /\ rm_col rm' = rm_col rm /\
      rm_reports rm' = rm_reports rm + zlen ev /\ ev = map EReport (those (fun c => err rm c =? 0) 0 i))).
  - lia.
  - rewrite those_nil by lia. split_and!; try done. cbn. lia.
  - intros i [rm' ev] Hi (Hw' & Ec & Ef & Ecol & Er & ->). rewrite Ecol.
    destruct (rd_colat rm i) as (-> & _ & _ & _ & Ee); [lia|]. bnd. rewrite Ee, those_snoc, map_app by lia.
    destruct (err rm i =? 0).
    + rewrite cksum_report_ok by done. bnd. cbn [wp]. split_and!; try done; [by apply wf_datacopy, wf_reports|].
      cbn [rm_reports set_rm_datacopy set_rm_reports]. rewrite Er, length_app. cbn. lia.
    + rewrite app_nil_r. cbn [wp]. by split_and!.
  - by intros [rm' ev].
Qed.
End report.

(** ** Parity of the same data *)

Lemma parity_col_ext k rm rm' : rm_wf rm -> rm_cols rm' = rm_cols rm -> rm_firstdatacol rm' = rm_firstdatacol rm -> (forall c, siz rm' c = siz rm c) ->
  (forall c, rm_firstdatacol rm <= c < rm_cols rm -> dat rm' c = dat rm c) -> parity_col k rm' = parity_col k rm.
Proof.
  intros Hw Ec Ef Es Hd. pose proof (wf_np _ Hw). pose proof (wf_first _ Hw).
  unfold parity_col, VDEV_RAIDZ_P, ndata. rewrite Ec, Ef, Es. apply tab_ext. intros j Hj.
  apply horner_ext. intros i Hi. unfold cbyte. by rewrite Ef, Es, Hd by lia.
Qed.

(** ** The first phase *)

Section done.
Context (kmem_alloc zio_buf_alloc : Z -> list Z) (general : bool) (zio_checksum_error : list Z -> Z * bool) (z : zio_flags).
Context (Hkmem : allocates kmem_alloc) (Hzio : allocates zio_buf_alloc).
Context (rm0 : raidz_map) (Hwf : rm_wf rm0).
Abbreviation cols := (rm_cols rm0).
Abbreviation first := (rm_firstdatacol rm0).
Abbreviation ok := (passes zio_checksum_error).
Abbreviation reconstruct := (vdev_raidz_reconstruct kmem_alloc zio_buf_alloc general).
Abbreviation nfailed := (zlen (those (failed rm0) 0 cols)).
Abbreviation nunread := (zlen (those (unread rm0) 0 first)).

(** What a read has to leave behind: a map like the one it was given, with data
    that has a valid checksum. *)
Definition settled (rm' : raidz_map) : Prop := rm_wf rm' /\ outline rm' = outline rm0 /\ ok rm'.

(** Every parity column that is to be rewritten holds the parity of the data. *)
Definition mended (rm' : raidz_map) : Prop :=
  forall c, 0 <= c < first -> err rm' c <> 0 -> dat rm' c = parity_col (Z.to_nat c) rm'.

(** Some parity column is left that was read and is not needed. *)
Definition spare : Prop := zf_resilver z = true \/ zlen (those (failed rm0) 0 first) = 0 \/ nfailed + nunread < first.

Lemma passes_ext rm rm' : rm_wf rm -> rm_wf rm' -> rm_cols rm' = rm_cols rm -> rm_firstdatacol rm' = rm_firstdatacol rm ->
  (forall c, rm_firstdatacol rm <= c < rm_cols rm -> dat rm' c = dat rm c) -> ok rm -> ok rm'.
Proof.
  intros Hw Hw' Ec Ef Hd. unfold passes. rewrite (io_buffer_ext rm rm'); [done..| |].
  all: congruence || (intros; symmetry; by apply Hd).
Qed.

(** Verification of the parity of settled data. *)
Lemma reparity_settled rm1 rm2 : settled rm1 -> reparity rm1 rm2 -> settled rm2 /\ mended rm2.
Proof using Hwf.
  intros (Hw1 & Ho1 & Hok) (Hw2 & Ho2 & Hd & Hp & _).
  pose proof (outline_cols _ _ Ho1) as Ec1. pose proof (outline_first _ _ Ho1) as Ef1.
  pose proof (outline_cols _ _ Ho2) as Ec2. pose proof (outline_first _ _ Ho2) as Ef2.
  assert (Hdat : forall c, rm_firstdatacol rm1 <= c < rm_cols rm1 -> dat rm2 c = dat rm1 c).
  { intros c Hc. unfold dat. by rewrite Hd by lia. }
  split; [split_and!; [done|congruence|by apply (passes_ext rm1)]|].
  intros c Hc _. rewrite Hp by lia. symmetry. by apply parity_col_ext; [| | |intros; apply outline_siz|].
Qed.

Lemma verify_settled rm1 : settled rm1 -> wp (raidz_parity_verify z rm1) (fun '(rm2, ev, _) => quiet ev /\ settled rm2 /\ mended rm2).
Proof using Hwf.
  intros Hs. eapply wp_mono; [apply parity_verify_ok, Hs|]. intros [[rm2 ev] n] [Hq Hr]. split; [done|]. by apply (reparity_settled rm1).
Qed.

(** Why the first phase gives up. *)
Abbreviation bdata := (those (failed rm0) first cols).
Definition hopeless : Prop :=
  first - nunread < nfailed \/ (zlen bdata = 0 /\ ~ ok rm0) \/
  (0 < zlen bdata /\ exists rm1 code, reconstruct rm0 bdata (zlen bdata) = Ok (rm1, code) /\ ~ ok rm1).

Abbreviation tally := (Counts (zlen (those (unexpected rm0) 0 cols)) (zlen (those (failed rm0) 0 first)) nunread (zlen bdata) nfailed).

Lemma tally_split : nfailed = zlen (those (failed rm0) 0 first) + zlen bdata.
Proof using Hwf. pose proof (wf_np _ Hwf). pose proof (wf_first _ Hwf). rewrite (those_split _ 0 first cols), length_app by lia. lia. Qed.

Lemma bad_bdata c : 0 <= c < cols -> bad rm0 bdata c = failed rm0 c.
Proof using Hwf.
  intros Hc. unfold bad. change (negb (err rm0 c =? 0)) with (failed rm0 c). destruct (memb c bdata) eqn:M; [|done].
  apply memb_In, in_those in M as [_ M]. by rewrite M.
Qed.

Lemma no_parity_errors rm' : shape rm' = shape rm0 -> zlen (those (failed rm0) 0 first) = 0 -> mended rm'.
Proof.
  intros Hs H0 c Hc He. rewrite (shape_err _ _ _ Hs) in He. exfalso.
  assert (Hin : In c (those (failed rm0) 0 first)) by (apply in_those; split; [done|unfold failed; by apply negb_true_iff, Z.eqb_neq]).
  destruct (those _ 0 first); [done|cbn in H0; lia].
Qed.

Definition correct_post (r : raidz_map * list event * option Z) : Prop :=
  let '(rm', ev, o) := r in
  match o with
  | Some _ => quiet ev /\ settled rm' /\ (spare -> mended rm')
  | None => ev = [] /\ keeps rm0 rm' /\ hopeless
  end.

(** The tail of the phase: parity is verified when [b] says so. *)
Lemma verify_tail (b : bool) ev rm1 : quiet ev -> settled rm1 -> shape rm1 = shape rm0 ->
  (b = false -> spare -> zlen (those (failed rm0) 0 first) = 0) ->
  wp (if b then '(rm, ev', n) ← raidz_parity_verify z rm1; Ok (rm, ev ++ ev', Some n) else Ok (rm1, ev, Some 0))
    correct_post.
Proof using Hwf.
  intros Hq Hs Hsh Hb. destruct b.
  - apply wp_bind. eapply wp_mono; [by apply verify_settled|]. intros [[rm2 ev'] n] (? & ? & ?). split; [auto with quiet|by split].
  - cbn [wp]. split; [done|]. split; [done|]. intros Hsp. apply no_parity_errors; auto.
Qed.

Lemma io_done_correct_ok :
  wp (io_done_correct kmem_alloc zio_buf_alloc general zio_checksum_error z tally rm0)
    correct_post.
Proof using Hkmem Hzio Hwf.
  pose proof (wf_np _ Hwf). pose proof (wf_first _ Hwf). pose proof tally_split as Ht.
  unfold io_done_correct. cbn [total_errors parity_untried data_errors parity_errors].
  case_if as E; [|cbn [wp]; split; [done|split; [by apply keeps_refl|left; lia]]]. case_if as E0.
  - destruct (verify_map zio_checksum_error rm0) as (Ev1 & Ev0 & Ev2).
    destruct (raidz_checksum_verify zio_checksum_error rm0) as [ret rm0']. cbn [fst snd] in *. case_if as Eret.
    + rewrite (Ev0 Eret). apply (verify_tail _ []); [auto with quiet|split_and!; [done..|unfold passes; congruence]|done|].
      intros Hb%orb_false_elim [Hr|[Hz|Hl]]; [destruct Hb; congruence|done|]. destruct Hb as [Hb _]. zbool. lia.
    + split; [done|]. split; [|right; left; split; [done|unfold passes; congruence]].
      destruct Ev2 as [->| ->]; [|apply keeps_injected]; by apply keeps_refl.
  - rewrite io_done_targets_ok by (done || lia). bnd.
    destruct (attempt_exists rm0 Hwf kmem_alloc zio_buf_alloc general Hkmem Hzio rm0 bdata)
      as (rm1 & code & Er & _ & Hsh1 & Hw1 & Hd1).
    { by apply keeps_refl. }
    { apply those_sorted. }
    { apply List.Forall_forall. intros c Hc%in_those. lia. }
    { rewrite (those_ext _ (failed rm0)); [lia|]. intros; by apply bad_bdata. }
    rewrite Er. bnd. destruct (verify_map zio_checksum_error rm1) as (Ev1 & Ev0 & Ev2).
    destruct (raidz_checksum_verify zio_checksum_error rm1) as [ret rm1']. cbn [fst snd] in *. case_if as Eret.
    + rewrite (Ev0 Eret). apply (verify_tail _ [ECorrected code]); [auto with quiet| |done|].
      * split_and!; [done|by apply shape_outline|unfold passes; congruence].
      * intros Hb%orb_false_elim [Hr|[Hz|Hl]]; [destruct Hb; congruence|done|]. destruct Hb as [Hb _]. zbool. lia.
    + assert (Hk : keeps rm0 rm1).
      { split; [done|]. split; [done|]. intros c Hc He. apply Hd1; [done|]. rewrite bad_bdata by done. unfold failed. by rewrite He. }
      split; [done|]. split; [destruct Ev2 as [->| ->]; [done|by apply keeps_injected]|]. right. right. split; [lia|].
      exists rm1, code. split; [done|unfold passes; congruence].
Qed.

(** When as many columns have failed as there is parity, nothing is left to compare: the
    phase does not touch the parity columns unless it is a resilver. *)
Lemma correct_stale rm1 ev n : nfailed = first -> nunread = 0 -> zf_resilver z = false ->
  io_done_correct kmem_alloc zio_buf_alloc general zio_checksum_error z tally rm0 = Ok (rm1, ev, Some n) ->
  n = 0 /\ shape rm1 = shape rm0 /\ rm_wf rm1 /\ forall c, 0 <= c < first -> dat rm1 c = dat rm0 c.
Proof using Hkmem Hzio Hwf.
  intros Hf Hu Hr H. pose proof (wf_np _ Hwf). pose proof (wf_first _ Hwf). pose proof tally_split as Ht.
  unfold io_done_correct in H. cbn [total_errors parity_untried data_errors parity_errors] in H. rewrite (proj2 (Z.leb_le nfailed _)), Hr, !orb_false_r in H by lia.
  destruct (zlen bdata =? 0) eqn:E0; zbool.
  - destruct (verify_map zio_checksum_error rm0) as (_ & Ev & _). destruct (raidz_checksum_verify zio_checksum_error rm0) as [ret rm']. cbn [fst snd] in *. destruct (ret =? 0) eqn:Er; [|done]. zbool.
    rewrite (Ev Er), (proj2 (Z.ltb_ge _ _)) in H by lia. injection H as <- <- <-. done.
  - rewrite io_done_targets_ok in H by (done || lia). rewrite bind_Ok in H.
    destruct (reconstruct_total kmem_alloc zio_buf_alloc general Hkmem Hzio rm0 bdata Hwf) as (ds & code & Erec & Hds & _).
    { apply those_sorted. }
    { apply List.Forall_forall. intros c Hc%in_those. lia. }
    { rewrite (those_ext _ (failed rm0)); [lia|]. intros; by apply bad_bdata. }
    rewrite Erec, bind_Ok in H. set (rm2 := wdats rm0 _ ds) in *. destruct (verify_map zio_checksum_error rm2) as (_ & Ev & _). destruct (raidz_checksum_verify zio_checksum_error rm2) as [ret rm']. cbn [fst snd] in *. destruct (ret =? 0) eqn:Er; [|done]. zbool.
    rewrite (Ev Er), (proj2 (Z.ltb_ge _ _)) in H by lia. injection H as <- <- <-. split; [done|]. split; [apply shape_wdats|].
    destruct (attempt_exists rm0 Hwf kmem_alloc zio_buf_alloc general Hkmem Hzio rm0 bdata) as (rm3 & code3 & E3 & _ & _ & Hw3 & _); [by apply keeps_refl|apply those_sorted|apply List.Forall_forall; intros c Hc%in_those; lia|rewrite (those_ext _ (failed rm0)); [lia|]; intros; by apply bad_bdata|].
    rewrite Erec in E3. injection E3 as <- <-. split; [done|]. intros c Hc. apply dat_wdats_ne; [lia|]. apply List.Forall_forall. intros x [Hx _]%in_those. lia.
Qed.

(** ** The third phase *)

Lemma blamed_facts T rm1 rm2 : rm_wf rm1 -> blamed T rm1 rm2 ->
  rm_wf rm2 /\ outline rm2 = outline rm1 /\ (forall c, 0 <= c -> dat rm2 c = dat rm1 c) /\
  (forall c, 0 <= c -> memb c T = false -> err rm2 c = err rm1 c).
Proof.
  intros Hw1 [E Hc]. assert (Hd : forall c, 0 <= c -> dat rm2 c = dat rm1 c).
  { intros c Hr. unfold dat. rewrite Hc by done. destruct (memb c T); [|done]. by destruct (rm_col rm1 !! _). }
  assert (Ho : outline rm2 = outline rm1).
  { unfold outline. rewrite E. cbn. f_equal. apply list_eq. intros i. change (map ?f ?l) with (f <$> l).
    rewrite !list_lookup_fmap. specialize (Hc (Z.of_nat i) ltac:(lia)). rewrite Nat2Z.id in Hc. rewrite Hc.
    destruct (memb _ T); [|done]. by destruct (rm_col rm1 !! i). }
  split.
  - apply (outline_wf _ rm1); [done|done|]. intros c Hr. rewrite Hd by lia. by destruct (wf_col _ Hw1 c Hr) as (_ & _ & ? & ?).
  - split; [done|]. split; [done|]. intros c Hr M. unfold err. by rewrite Hc, M.
Qed.

Lemma testbit_ones n c : 0 <= c < n -> Z.testbit (Z.shiftl 1 n - 1) c = true.
Proof. intros Hc. rewrite Z.sub_1_r. change (Z.pred (Z.shiftl 1 n)) with (Z.ones n). by apply Z.ones_spec_low. Qed.

Lemma found_settled T rm2 code : found rm0 kmem_alloc zio_buf_alloc general zio_checksum_error T rm2 code ->
  settled rm2 /\ (code = Z.shiftl 1 first - 1 -> mended rm2).
Proof using Hwf.
  intros (rm1 & Ha & Hp & Hb). destruct (attempt_wf rm0 Hwf kmem_alloc zio_buf_alloc general T rm1 code Ha) as [Hsh1 Hw1].
  destruct (blamed_facts T rm1 rm2 Hw1 Hb) as (Hw2 & Ho2 & Hd2 & He2).
  pose proof (wf_np _ Hwf). pose proof (shape_first _ _ Hsh1). split.
  - split; [done|]. split; [by rewrite Ho2, (shape_outline _ _ Hsh1)|].
    apply (passes_ext rm1); try done; [by apply outline_cols|by apply outline_first|]. intros; apply Hd2. lia.
  - intros -> c Hc He. destruct Ha as (rm & ds & _ & _ & _ & _ & _ & Hcode & _).
    specialize (Hcode c ltac:(lia) (testbit_ones first c Hc)). exfalso. apply He.
    unfold bad in Hcode. apply orb_false_elim in Hcode as [M E%negb_false_iff%Z.eqb_eq].
    rewrite He2, (shape_err _ _ c Hsh1) by (done || lia). done.
Qed.

(** No set of further columns to blame helps. *)
Definition stuck : Prop := forall m s, Z.of_nat (S m) + nfailed <= first ->
  admissible (err rm0) cols m (zlen bdata) first s -> tried rm0 kmem_alloc zio_buf_alloc general zio_checksum_error (tab (S m) s).

Definition same_layout (rm' : raidz_map) : Prop := rm_wf rm' /\ outline rm' = outline rm0.

Definition combine_post (io_error : Z) (r : raidz_map * list event * Z) : Prop :=
  let '(rm', ev, e) := r in
  quiet ev /\ same_layout rm' /\ ((e = io_error /\ settled rm' /\ mended rm') \/ (e <> 0 /\ (nfailed <= first -> stuck))).

Lemma outline_same_cols rm rm' : rm_cols rm' = rm_cols rm -> rm_firstdatacol rm' = rm_firstdatacol rm -> rm_col rm' = rm_col rm ->
  outline rm' = outline rm.
Proof. unfold outline. by intros -> -> ->. Qed.

(** Reports at the end of an I/O that failed. *)
Lemma report_tail io_error ev rm1 : quiet ev -> same_layout rm1 -> (nfailed <= first -> stuck) ->
  wp ('(rm, ev') ← io_done_report zio_buf_alloc z rm1; Ok (rm, ev ++ ev', ECKSUM)) (combine_post io_error).
Proof using Hzio Hwf.
  intros Hq [Hw Ho] Hs. destruct (io_done_report_ok zio_buf_alloc Hzio z rm1 Hw) as (rm' & ev' & -> & Hw' & Ec & Ef & Ecol & _ & Eev).
  bnd. cbn [wp combine_post]. split; [|split; [|right; by split]].
  - apply quiet_app; [done|]. rewrite Eev. destruct (zf_speculative z); [apply quiet_nil|]. intros io (x & ? & _)%in_map_iff. done.
  - split; [done|]. rewrite <- Ho. by apply outline_same_cols.
Qed.

Lemma io_done_combine_ok k tstore0 io_error : length tstore0 = 5%nat -> total_errors k = nfailed -> data_errors k = zlen bdata ->
  wp (io_done_combine kmem_alloc zio_buf_alloc general zio_checksum_error z tstore0 k io_error rm0) (combine_post io_error).
Proof using Hkmem Hzio Hwf.
  intros Hl Ete Ede. pose proof (wf_np _ Hwf). unfold io_done_combine. rewrite Ete, Ede. case_if as E.
  - destruct (worst_error_ok rm0 Hwf) as (e & -> & He). bnd. cbn [wp combine_post].
    split; [apply quiet_nil|]. split; [by split|]. right. split; [|lia]. rewrite He. intros E0. rewrite E0 in E. cbn in E. lia.
  - case_if as E1.
    + apply wp_bind. eapply wp_mono; [by apply (combrec_ok rm0 Hwf)|].
      intros [[rm1 ev] code] (Hq & [(-> & Hk & Htried)|(Hc & m & s & Hm & Hs & Hfound)]).
      * cbn [negb Z.eqb]. destruct Hk as (Hw & Hsh & _). apply report_tail; [done| |done]. split; [done|by apply shape_outline].
      * rewrite (proj2 (Z.eqb_neq code 0)) by lia. cbn [negb]. destruct (found_settled _ _ _ Hfound) as [Hset Hmend].
        case_if as Ecode.
        -- apply wp_bind. eapply wp_mono; [by apply verify_settled|]. intros [[rm2 ev'] n] (? & Hset' & ?). cbn [wp combine_post].
           split; [auto with quiet|]. split; [split; apply Hset'|by left].
        -- cbn [wp combine_post]. split; [done|]. split; [split; apply Hset|left]. split_and!; try done. by apply Hmend.
    + bnd. cbn [negb Z.eqb]. apply report_tail; [apply quiet_nil|by split|]. intros _ m s Hm. lia.
Qed.
End done.

(** ** Completion of a read *)

Section read.
Context (kmem_alloc zio_buf_alloc : Z -> list Z) (general : bool) (zio_checksum_error : list Z -> Z * bool) (z : zio_flags).
Context (Hkmem : allocates kmem_alloc) (Hzio : allocates zio_buf_alloc).
Context (rm0 : raidz_map) (Hwf : rm_wf rm0).
Abbreviation cols := (rm_cols rm0).
Abbreviation first := (rm_firstdatacol rm0).
Abbreviation untried := (those (fun c => negb (trd rm0 c)) 0 cols).
Abbreviation stuck rm := (stuck kmem_alloc zio_buf_alloc general zio_checksum_error rm).
Abbreviation settled := (settled zio_checksum_error rm0).

(** Only repairs are issued, and only for columns in error. *)
Definition repairs (rm' : raidz_map) (ev : list event) : Prop :=
  forall io, In (EIssue io) ev -> exists c heal, 0 <= c < cols /\ err rm' c <> 0 /\ io = col_io true true heal None (colat rm' c).

Definition done_post (io_error : Z) (r : raidz_map * list event * done) : Prop :=
  let '(rm', ev, d) := r in
  same_layout rm0 rm' /\
  match d with
  | Done e => repairs rm' ev /\
      ((e = io_error /\ settled rm' /\ (spare z rm0 -> mended rm0 rm')) \/
       (e <> 0 /\ untried = [] /\ hopeless kmem_alloc zio_buf_alloc general zio_checksum_error rm0 /\
        exists rm1, keeps rm0 rm1 /\ (zlen (those (failed rm0) 0 cols) <= first -> stuck rm1)))
  | Redone => keeps rm0 rm' /\ untried <> [] /\ ev = map (read_io rm') untried
  end.

Lemma tally_shape rm : shape rm = shape rm0 -> forall lo hi, those (failed rm) lo hi = those (failed rm0) lo hi.
Proof. intros Hs lo hi. apply filter_ext. intros c. unfold failed. by rewrite (shape_err _ _ _ Hs). Qed.

Lemma finish_ok writeable n e io_error rm' ev : same_layout rm0 rm' -> quiet ev ->
  ((e = io_error /\ settled rm' /\ (spare z rm0 -> mended rm0 rm')) \/
   (e <> 0 /\ untried = [] /\ hopeless kmem_alloc zio_buf_alloc general zio_checksum_error rm0 /\
    exists rm1, keeps rm0 rm1 /\ (zlen (those (failed rm0) 0 cols) <= first -> stuck rm1))) ->
  wp (io_done_finish z writeable n e rm' ev) (done_post io_error).
Proof.
  intros Hlay Hq H. unfold io_done_finish. case_if as E; cbn [wp done_post].
  - destruct Hlay as [Hw Ho]. rewrite io_done_repair_ok by done. bnd. cbn [wp done_post]. split; [by split|]. split; [|done].
    intros io [Hin|Hin]%in_app_iff; [by destruct (Hq io)|]. apply in_map_iff in Hin as (c & Ec & [Hc Hf]%in_those).
    injection Ec as <-. exists c. eexists. rewrite <- (outline_cols _ _ Ho). split; [done|]. split; [|done].
    unfold failed in Hf. by apply negb_true_iff, Z.eqb_neq in Hf.
  - split; [done|]. split; [|done]. intros io Hin. by destruct (Hq io).
Qed.

Lemma keeps_missing rm md mp : keeps rm0 rm -> keeps rm0 (set_rm_missing md mp rm).
Proof. intros ([Hn Hf Hc Hp Hcol Hd] & Hs & Hk). by split_and!. Qed.

Lemma io_done_read writeable tstore0 io_error : zf_write z = false -> length tstore0 = 5%nat ->
  wp (vdev_raidz_io_done kmem_alloc zio_buf_alloc general zio_checksum_error z writeable tstore0 io_error rm0) (done_post io_error).
Proof using Hkmem Hzio Hwf.
  intros Hz Hl. unfold vdev_raidz_io_done. rewrite io_done_count_ok, Hz by done. bnd.
  apply wp_bind. eapply wp_mono; [by apply io_done_correct_ok|]. intros [[rm1 ev] [n|]].
  - intros (Hq & Hset & Hm). apply finish_ok; [split; apply Hset|done|by left].
  - intros (-> & Hk1 & Hno). apply (keeps_missing _ 0 0) in Hk1. set (rm2 := set_rm_missing 0 0 rm1) in *.
    pose proof Hk1 as (Hw2 & Hsh & Hd). pose proof (shape_outline _ _ Hsh) as Ho.
    assert (Eu : those (fun c => negb (trd rm2 c)) 0 (rm_cols rm2) = untried).
    { rewrite (shape_cols _ _ Hsh). apply filter_ext. intros c. by rewrite (outline_trd _ _ _ Ho). }
    rewrite io_done_retry_ok, Eu by done. bnd. cbn [app]. case_bool_decide as E; cbn [negb].
    + assert (E0 : untried = []) by (by destruct untried).
      apply wp_bind. eapply wp_mono.
      { apply (io_done_combine_ok kmem_alloc zio_buf_alloc general zio_checksum_error z Hkmem Hzio rm2 Hw2); [done|..];
          cbn [total_errors data_errors]; by rewrite (tally_shape rm2 Hsh), (shape_cols _ _ Hsh), ?(shape_first _ _ Hsh). }
      intros [[rm3 ev3] e] (Hq & [Hw3 Ho3] & H3). apply finish_ok; [split; congruence|done|].
      unfold RaidzDone.settled, mended in *. rewrite Ho3, Ho, (tally_shape rm2 Hsh), (shape_cols _ _ Hsh), (shape_first _ _ Hsh) in * by done.
      destruct H3 as [(-> & H3 & Hm)|[He Hst]]; [by left|]. right. split_and!; try done. by exists rm2.
    + cbn [wp done_post]. split; [by split|]. split; [done|]. split; [by intros E0; rewrite E0 in E|done].
Qed.

(** A read that succeeds although as many columns have failed as there is parity writes the
    parity columns that failed back as they are. *)
Lemma done_stale tstore0 rm' ev : zf_write z = false -> zf_resilver z = false -> zlen (those (failed rm0) 0 cols) = first -> zlen (those (unread rm0) 0 first) = 0 -> those (unexpected rm0) 0 cols <> [] ->
  vdev_raidz_io_done kmem_alloc zio_buf_alloc general zio_checksum_error z true tstore0 0 rm0 = Ok (rm', ev, Done 0) ->
  shape rm' = shape rm0 /\ rm_wf rm' /\ (forall c, 0 <= c < first -> dat rm' c = dat rm0 c) /\ forall c, 0 <= c < cols -> err rm0 c <> 0 -> In (repair_io rm' true c) ev.
Proof using Hkmem Hzio Hwf.
  intros Hz Hr Hf Hu Hx H. unfold vdev_raidz_io_done in H. rewrite io_done_count_ok, Hz, bind_Ok in H by done. cbn [unexpected_errors] in H.
  destruct (io_done_correct _ _ _ _ _ _ _) as [[[rm1 ev1] [n|]]|] eqn:Ec; [| |done]; rewrite bind_Ok in H.
  - destruct (correct_stale kmem_alloc zio_buf_alloc general zio_checksum_error z Hkmem Hzio rm0 Hwf rm1 ev1 n Hf Hu Hr Ec) as (-> & Hsh & Hw & Hd).
    unfold io_done_finish in H. rewrite (proj2 (Z.eqb_neq (zlen (those (unexpected rm0) 0 cols) + 0) 0)) in H by (destruct (those (unexpected rm0) 0 cols); [done|cbn; lia]). cbn [Z.eqb andb negb orb] in H. rewrite io_done_repair_ok in H by done. injection H as <- <-.
    split; [done|]. split; [done|]. split; [done|]. intros c Hc He. apply in_app_iff. right. apply in_map_iff. exists c. split; [done|]. apply in_those. rewrite (shape_cols _ _ Hsh). split; [done|]. unfold failed. rewrite (shape_err _ _ _ Hsh). by apply negb_true_iff, Z.eqb_neq.
  - exfalso. cbv zeta in H. binv H. destruct (negb (bool_decide _)); [done|]. binv H. destruct a0 as [[rm3 ev3] e]. unfold io_done_combine in E0. cbn [total_errors] in E0.
    assert (Ef : rm_firstdatacol (set_rm_missing 0 0 rm1) = first).
    { pose proof (io_done_correct_ok kmem_alloc zio_buf_alloc general zio_checksum_error z Hkmem Hzio rm0 Hwf) as Hp. rewrite Ec in Hp. destruct Hp as (_ & (_ & Hs & _) & _). exact (shape_first _ _ Hs). }
    rewrite Ef, Hf, Z.ltb_irrefl, bind_Ok in E0. cbn [Z.eqb negb] in E0. binv E0. destruct a0 as [rm4 ev4]. injection E0 as <- <- <-. done.
Qed.
End read.
End RaidzDone.
