(* ===== verification/RaidzRead.v ===== *)
(** Reading back what was written to a RAID-Z vdev: with at most [nparity]
    children that fail or return wrong data, a read returns the block. *)

From S2P Require Import Prelude Galois RaidzMap RaidzParity RaidzReconstruct RaidzGeneral RaidzSolve RaidzRepair RaidzLayout RaidzIo RaidzState RaidzComb RaidzDone.
From Stdlib Require Import Sorting.Sorted Permutation.
Import Galois RaidzMap RaidzParity RaidzReconstruct RaidzGeneral RaidzSolve RaidzRepair RaidzLayout RaidzIo RaidzState RaidzComb RaidzDone.
Open Scope Z_scope.

Module RaidzRead.

(** ** Completion when every column has been read *)

Section recover.
Context (kmem_alloc zio_buf_alloc : Z -> list Z) (general : bool) (zio_checksum_error : list Z -> Z * bool).
Context (Hkmem : allocates kmem_alloc) (Hzio : allocates zio_buf_alloc).
(** The stripe as it was written. *)
Context (o : raidz_map) (Hwfo : rm_wf o) (Hpo : parity_ok o).
Context (Hck : forall b, zlen b = zlen (io_buffer o) -> (zio_checksum_error b).1 = 0 <-> b = io_buffer o).
Abbreviation ok := (passes zio_checksum_error).
Abbreviation reconstruct := (vdev_raidz_reconstruct kmem_alloc zio_buf_alloc general).

(** A map laid out like the stripe. *)
Definition fits (rm : raidz_map) : Prop :=
  rm_wf rm /\ rm_cols rm = rm_cols o /\ rm_firstdatacol rm = rm_firstdatacol o /\ forall c, siz rm c = siz o c.

Lemma outline_fits rm rm' : outline rm' = outline rm -> rm_wf rm' -> fits rm -> fits rm'.
Proof.
  intros Ho Hw (_ & Ec & Ef & Es). split; [done|]. rewrite (outline_cols _ _ Ho), (outline_first _ _ Ho).
  split_and!; try done. intros c. by rewrite (outline_siz _ _ c Ho).
Qed.

Lemma fits_length rm : fits rm -> zlen (io_buffer rm) = zlen (io_buffer o).
Proof using Hwfo.
  intros (Hw & Ec & Ef & Es). pose proof (wf_np _ Hwfo). rewrite !io_buffer_dat, Ec, Ef by done.
  assert (G : forall l, (forall c, In c l -> zlen (dat rm c) = zlen (dat o c)) ->
    length (mjoin (map (dat rm) l)) = length (mjoin (map (dat o) l))).
  { induction l as [|x l IH]; intros Hl; [done|]. cbn. rewrite !length_app. f_equal; [|by apply IH; intros; apply Hl; right].
    specialize (Hl x (or_introl eq_refl)). lia. }
  rewrite G; [done|]. intros c Hc%list_elem_of_In%elem_of_seqZ.
  destruct (wf_col _ Hw c) as (_ & _ & -> & _); [lia|]. destruct (wf_col _ Hwfo c) as (_ & _ & -> & _); [lia|done].
Qed.

Lemma right_passes rm : fits rm -> (forall c, rm_firstdatacol o <= c < rm_cols o -> dat rm c = dat o c) -> ok rm.
Proof using Hck Hwfo.
  intros Hf Hd. unfold passes. rewrite Hck by (by apply fits_length). destruct Hf as (Hw & Ec & Ef & _).
  apply io_buffer_ext; try done. by rewrite Ec, Ef.
Qed.

Lemma passes_right rm : fits rm -> ok rm -> io_buffer rm = io_buffer o /\ forall c, rm_firstdatacol o <= c < rm_cols o -> dat rm c = dat o c.
Proof using Hck Hwfo.
  intros Hf Hp. assert (E : io_buffer rm = io_buffer o) by (apply Hck; [by apply fits_length|done]). split; [done|].
  destruct Hf as (Hw & Ec & Ef & Es). rewrite <- Ec, <- Ef. by apply io_buffer_inj.
Qed.

(** Reconstruction of a set of columns that has all the wrong ones. *)
Lemma reconstruct_passes rm T : fits rm -> StronglySorted Z.lt T -> Forall (Z.le 0) T ->
  zlen (those (bad rm T) 0 (rm_cols rm)) <= rm_firstdatacol rm ->
  (forall c, 0 <= c < rm_cols o -> bad rm T c = false -> dat rm c = dat o c) ->
  forall rm1 code, reconstruct rm T (zlen T) = Ok (rm1, code) -> ok rm1.
Proof using All.
  intros Hf Hs Hp Hfew Hd rm1 code. pose proof Hf as (Hw & Ec & Ef & Es).
  assert (Hrb : readback o rm T) by (by split_and!).
  destruct (reconstruct_ok kmem_alloc zio_buf_alloc general Hkmem Hzio rm T Hw Hs Hp Hfew o Hwfo Hpo Hrb) as (code' & -> & _).
  intros [= <- _]. pose proof (dat_result rm T Hw o Hwfo Hrb) as Hr.
  set (bd := those (bad rm T) (rm_firstdatacol o) (rm_cols o)) in *. set (rm1 := wdats rm bd (map (dat o) bd)) in *. pose proof (wf_np _ Hwfo).
  assert (Hsh : shape rm1 = shape rm) by apply shape_wdats.
  assert (Hw1 : rm_wf rm1).
  { apply (shape_wf _ rm); [done|done|]. intros c Hc. rewrite Hr, Es by lia. rewrite Ec in Hc.
    destruct (wf_col _ Hwfo c Hc) as (_ & _ & ? & ?). case_if as E; [done|]. rewrite <- Ec in Hc.
    destruct (wf_col _ Hw c Hc) as (_ & _ & ? & ?). by rewrite <- Es. }
  apply right_passes; [by apply (outline_fits rm), Hf; [apply shape_outline|]|].
  intros c Hc. rewrite Hr by lia. by rewrite (proj2 (Z.leb_le _ _)) by lia.
Qed.

Lemma those_disjoint (p q : Z -> bool) lo hi : (forall c, p c = true -> q c = false) ->
  zlen (those (fun c => p c || q c) lo hi) = zlen (those p lo hi) + zlen (those q lo hi).
Proof.
  intros H. unfold those. induction (seqZ lo (hi - lo)) as [|c l IH]; [done|]. cbn. specialize (H c).
  destruct (p c); [rewrite H by done|destruct (q c)]; cbn [orb length]; lia.
Qed.

(** The columns read without an error but not as written. *)
Definition silent (rm : raidz_map) (c : Z) : bool := (err rm c =? 0) && negb (bool_decide (dat rm c = dat o c)).

Section complete.
Context (rm0 : raidz_map) (Hf0 : fits rm0).
Context (Hfew : zlen (those (fun c => failed rm0 c || silent rm0 c) 0 (rm_cols o)) <= rm_firstdatacol o).
Abbreviation cols := (rm_cols rm0).
Abbreviation first := (rm_firstdatacol rm0).
Abbreviation lies := (those (silent rm0) 0 cols).

Lemma few_split : zlen (those (failed rm0) 0 cols) + zlen lies <= first.
Proof using Hfew Hf0.
  destruct Hf0 as (_ & Ec & Ef & _). rewrite <- those_disjoint; [by rewrite Ec, Ef|].
  intros c. unfold failed, silent. by destruct (err rm0 c =? 0).
Qed.

Lemma not_silent c : 0 <= c < cols -> err rm0 c = 0 -> ~ In c lies -> dat rm0 c = dat o c.
Proof.
  intros Hc He Hn. destruct (decide (dat rm0 c = dat o c)) as [|Hne]; [done|]. destruct Hn. apply in_those. split; [done|].
  unfold silent. rewrite He. cbn. by rewrite bool_decide_false.
Qed.

(** A map with the good columns of [rm0], in which a set of columns with the
    lying ones is reconstructed. *)
Lemma cover_passes rm T : shape rm = shape rm0 -> rm_wf rm -> (forall c, 0 <= c < cols -> err rm0 c = 0 -> dat rm c = dat rm0 c) ->
  StronglySorted Z.lt T -> Forall (Z.le 0) T -> incl lies T ->
  zlen (those (bad rm0 T) 0 cols) <= first -> forall rm1 code, reconstruct rm T (zlen T) = Ok (rm1, code) -> ok rm1.
Proof using All.
  intros Hsh Hw Hd Hs Hp Hin Hc. pose proof Hf0 as (_ & Ec & _).
  apply reconstruct_passes; try done; [by apply (outline_fits rm0), Hf0; [apply shape_outline|]|..].
  - rewrite (shape_cols _ _ Hsh), (shape_first _ _ Hsh), (those_ext _ (bad rm0 T)); [done|]. intros; by apply bad_shape.
  - intros c Hr Hb. rewrite (bad_shape rm0) in Hb by done. unfold bad in Hb. apply orb_false_elim in Hb as [M E%negb_false_iff%Z.eqb_eq].
    rewrite Hd by (done || lia). apply not_silent; [lia|done|]. intros Hl%Hin%memb_In. congruence.
Qed.

(** If no column lies, the first phase succeeds. *)
Lemma honest_not_hopeless : lies = [] -> zlen (those (unread rm0) 0 first) = 0 ->
  ~ hopeless kmem_alloc zio_buf_alloc general zio_checksum_error rm0.
Proof using All.
  intros El Hu. pose proof few_split as Hc. rewrite El, Z.add_0_r in Hc. pose proof Hf0 as (Hw & Ec & Ef & _).
  pose proof (wf_np _ Hw). intros [Hh|[[H0 Hh]|(H0 & rm1 & code & Er & Hh)]]; [lia|..]; apply Hh.
  - apply right_passes; [done|]. intros c Hr. rewrite <- Ec, <- Ef in Hr. apply not_silent; [lia| |by rewrite El; intros []].
    destruct (err rm0 c =? 0) eqn:E; [lia|]. assert (Hin : In c (those (failed rm0) first cols)).
    { apply in_those. split; [lia|]. unfold failed. by rewrite E. }
    destruct (those _ first cols); [done|cbn in H0; lia].
  - apply (cover_passes rm0 (those (failed rm0) first cols)) with (code := code); try done; [apply those_sorted| |by rewrite El; intros ? []|].
    + apply List.Forall_forall. intros c Hr%in_those. lia.
    + rewrite (those_ext _ (failed rm0)); [lia|]. intros; by apply bad_bdata.
Qed.

Lemma lies_bad : zlen (those (bad rm0 lies) 0 cols) <= first.
Proof using Hfew Hf0.
  destruct Hf0 as (_ & Ec & Ef & _). rewrite (those_ext _ (fun c => failed rm0 c || silent rm0 c)); [by rewrite Ec, Ef|].
  intros c Hc. unfold bad. rewrite memb_those by done. apply orb_comm.
Qed.

(** Blaming the lying columns is one of the attempts. *)
Lemma lies_admissible m s : length lies = S m -> s = (fun i => nth i lies 0) ->
  zlen (those (unread rm0) 0 first) = 0 -> hopeless kmem_alloc zio_buf_alloc general zio_checksum_error rm0 ->
  admissible (err rm0) cols m (zlen (those (failed rm0) first cols)) first s.
Proof using All.
  intros El -> Hu Hh. pose proof few_split as Hc. pose proof Hf0 as (Hw & Ec & Ef & _). pose proof (wf_np _ Hw).
  assert (Hin : forall i, (i < S m)%nat -> In (nth i lies 0) lies) by (intros; apply nth_In; lia).
  split; [split|].
  - intros i Hi. specialize (Hin i Hi). apply in_those in Hin as [? Hs]. split; [lia|]. unfold silent in Hs. by apply andb_prop in Hs as [? _].
  - intros i j Hij Hj. apply sorted_nth; [apply those_sorted|lia|lia].
  - intros H0. destruct (Z.le_gt_cases first (nth m lies 0)) as [|Hlt]; [done|]. exfalso.
    destruct Hh as [Hh|[[_ Hh]|(H1 & _)]]; [lia| |lia]. apply Hh, right_passes; [done|].
    intros c Hr. rewrite <- Ec, <- Ef in Hr. apply not_silent; [lia|..].
    + destruct (err rm0 c =? 0) eqn:E; [lia|]. assert (Hin' : In c (those (failed rm0) first cols)).
      { apply in_those. split; [lia|]. unfold failed. by rewrite E. }
      destruct (those _ first cols); [done|cbn in H0; lia].
    + intros (i & Hi & Ei)%(In_nth _ _ 0). destruct (decide (i = m)) as [->|]; [lia|].
      pose proof (sorted_nth lies i m (those_sorted _ _ _) ltac:(lia) ltac:(lia)). lia.
Qed.

Lemma not_stuck rm1 : lies <> [] -> zlen (those (unread rm0) 0 first) = 0 ->
  hopeless kmem_alloc zio_buf_alloc general zio_checksum_error rm0 -> keeps rm0 rm1 ->
  ~ stuck kmem_alloc zio_buf_alloc general zio_checksum_error rm1.
Proof using All.
  intros Hne Hu Hh (Hw1 & Hsh1 & Hd1) Hst. pose proof few_split as Hc. pose proof Hf0 as (Hw & _). pose proof (wf_np _ Hw).
  destruct (length lies) as [|m] eqn:El; [by destruct lies|]. set (s := fun i => nth i lies 0).
  assert (Es : tab (S m) s = lies) by (unfold s; rewrite <- El; apply tab_nth).
  pose proof (lies_admissible m s El eq_refl Hu Hh) as [Hcombo Hlast].
  specialize (Hst m s). rewrite !(tally_shape rm0 rm1 Hsh1), (shape_cols _ _ Hsh1), (shape_first _ _ Hsh1), Es in Hst.
  destruct Hst as (rm' & code & (rm & ds & (Hw' & Hsh' & Hd') & _ & Er & _) & Hno); [lia| |].
  - split; [|done]. destruct Hcombo as [Hg Hi]. split; [|done]. intros i Hl. rewrite (shape_err _ _ _ Hsh1). by apply Hg.
  - apply Hno. rewrite (shape_cols _ _ Hsh1) in Hd'.
    apply (cover_passes rm lies) with (code := code); try done.
    + congruence.
    + intros c Hr He. rewrite Hd'; [by apply Hd1|done|by rewrite (shape_err _ _ _ Hsh1)].
    + apply those_sorted.
    + apply List.Forall_forall. intros c Hr%in_those. lia.
    + apply incl_refl.
    + apply lies_bad.
Qed.

(** With every column read, completion finds the block. *)
Lemma done_recovers z writeable tstore0 : zf_write z = false -> length tstore0 = 5%nat ->
  those (fun c => negb (trd rm0 c)) 0 cols = [] ->
  wp (vdev_raidz_io_done kmem_alloc zio_buf_alloc general zio_checksum_error z writeable tstore0 0 rm0)
    (fun '(rm', ev, d) => d = Done 0 /\ repairs rm0 rm' ev /\ settled zio_checksum_error rm0 rm' /\ (spare z rm0 -> mended rm0 rm')).
Proof using All.
  intros Hz Hl Hu. pose proof Hf0 as (Hw & Ec & Ef & _). pose proof few_split as Hc. pose proof (wf_np _ Hw). pose proof (wf_first _ Hw).
  assert (Hun : zlen (those (unread rm0) 0 first) = 0).
  { destruct (those (unread rm0) 0 first) as [|c l] eqn:E; [done|]. exfalso.
    assert (Hin : In c (those (unread rm0) 0 first)) by (rewrite E; by left). apply in_those in Hin as [Hr Hur].
    unfold unread in Hur. apply andb_prop in Hur as [_ Hur]. assert (Hin : In c []); [|done].
    rewrite <- Hu. apply in_those. split; [lia|done]. }
  eapply wp_mono; [by apply io_done_read|]. intros [[rm' ev] [e|]] [Hlay H'].
  - destruct H' as (Hrep & [(-> & Hset & Hm)|(He & _ & Hh & rm1 & Hk & Hst)]); [done|]. exfalso.
    destruct (decide (lies = [])) as [El|El]; [by apply honest_not_hopeless in Hh|].
    apply (not_stuck rm1); try done. apply Hst. lia.
  - destruct H' as (_ & Hne & _). done.
Qed.
End complete.
End recover.

(** ** The run of a read *)

(** The children: what reading [size] bytes at an offset of a child gives, the
    error of the child I/O and what the buffer holds then. *)
Definition children_io := Z -> Z -> Z -> Z * list Z.

(** Completion of child I/Os one after the other: the buffer of the column is
    filled, and [vdev_raidz_child_done] runs. *)
Fixpoint deliver (answer : children_io) (ios : list child_io) (rm : raidz_map) : res raidz_map :=
  match ios with
  | [] => Ok rm
  | io :: ios =>
      match ci_col io with
      | None => deliver answer ios rm
      | Some c =>
          let '(e, d) := answer (ci_devidx io) (ci_offset io) (ci_size io) in
          rm ← set_col_data rm c d;
          rm ← vdev_raidz_child_done rm c e;
          deliver answer ios rm
      end
  end.

Fixpoint issued (ev : list event) : list child_io :=
  match ev with [] => [] | EIssue io :: ev => io :: issued ev | _ :: ev => issued ev end.

Section pipeline.
Context (kmem_alloc zio_buf_alloc : Z -> list Z) (general : bool) (zio_checksum_error : list Z -> Z * bool).
Context (vdev_readable vdev_dtl_missing : Z -> bool) (answer : children_io).
(** The order in which child I/Os complete. *)
Context (sched : list child_io -> list child_io).

(** A read: start, completion of the children, [vdev_raidz_io_done], and once
    more when it has issued further reads. *)
Definition raidz_read (z : zio_flags) (writeable : bool) (ts1 ts2 : list Z) (off size : Z) (buf : list Z) (ashift children nparity : Z) :
    res (raidz_map * list event * done) :=
  '(rm, ev) ← vdev_raidz_io_start zio_buf_alloc vdev_readable vdev_dtl_missing z off size buf ashift children nparity;
  rm ← deliver answer (sched (issued ev)) rm;
  '(rm, ev, d) ← vdev_raidz_io_done kmem_alloc zio_buf_alloc general zio_checksum_error z writeable ts1 0 rm;
  match d with
  | Done e => Ok (rm, ev, Done e)
  | Redone =>
      rm ← deliver answer (sched (issued ev)) rm;
      vdev_raidz_io_done kmem_alloc zio_buf_alloc general zio_checksum_error z writeable ts2 0 rm
  end.
End pipeline.

(** *** Where the columns lie *)

Definition spot (rc : raidz_col) : Z * Z * Z := (rc_devidx rc, rc_offset rc, rc_size rc).
Definition spots (rm : raidz_map) : Z * Z * list (Z * Z * Z) := (rm_cols rm, rm_firstdatacol rm, map spot (rm_col rm)).

Lemma outline_spots rm rm' : outline rm = outline rm' -> spots rm = spots rm'.
Proof.
  unfold outline, spots. intros [= -> -> E]. f_equal. apply (f_equal (map spot)) in E. rewrite !map_map in E. exact E.
Qed.

Lemma spots_colat rm rm' c : spots rm = spots rm' -> spot (colat rm c) = spot (colat rm' c).
Proof.
  unfold spots, colat. intros [= _ _ E]. rewrite <- !(map_nth spot). by rewrite E.
Qed.

Lemma spots_length rm rm' : spots rm = spots rm' -> length (rm_col rm) = length (rm_col rm').
Proof. unfold spots. intros [= _ _ E]. rewrite <- (length_map spot (rm_col rm)), E. apply length_map. Qed.

Lemma siz_colat rm c : siz rm c = rc_size (colat rm c).
Proof. unfold siz, colat. rewrite nth_lookup. by destruct (rm_col rm !! _). Qed.

Lemma dat_colat rm c : dat rm c = rc_data (colat rm c).
Proof. unfold dat, colat. rewrite nth_lookup. by destruct (rm_col rm !! _). Qed.

Lemma err_colat rm c : err rm c = rc_error (colat rm c).
Proof. unfold err, colat. rewrite nth_lookup. by destruct (rm_col rm !! _). Qed.

Lemma spots_siz rm rm' c : spots rm = spots rm' -> siz rm c = siz rm' c.
Proof. intros E%(spots_colat _ _ c). rewrite !siz_colat. unfold spot in E. congruence. Qed.

Lemma spots_wf rm rm' : rm_wf rm' -> spots rm = spots rm' ->
  (forall c, 0 <= c < rm_cols rm' -> zlen (dat rm c) = siz rm' c /\ Forall is_byte (dat rm c)) -> rm_wf rm.
Proof.
  intros [Hn Hf Hc Hp Hcol Hd] E Hdat. pose proof (spots_length _ _ E) as El.
  assert (Ec : rm_cols rm = rm_cols rm') by (unfold spots in E; congruence).
  assert (Ef : rm_firstdatacol rm = rm_firstdatacol rm') by (unfold spots in E; congruence).
  split; rewrite ?Ec, ?Ef; try done.
  - lia.
  - intros c Hr. rewrite !(spots_siz _ _ _ E). by apply Hp.
  - intros c Hr. rewrite (spots_siz _ _ _ E). destruct (Hcol c Hr) as (? & ? & _). destruct (Hdat c Hr). done.
  - intros x y Hx Hy. rewrite !(spots_siz _ _ _ E). by apply Hd.
Qed.

Lemma colat_ualt_eq rm c f : in_map rm c -> colat (ualt rm c f) c = f (colat rm c).
Proof.
  intros Hc. destruct (rd_colat rm c Hc) as (_ & E & _). unfold colat at 1. apply nth_lookup_Some. by rewrite lookup_ualt_eq, E.
Qed.

Lemma colat_ualt_ne rm c f x : 0 <= c -> 0 <= x -> c <> x -> colat (ualt rm c f) x = colat rm x.
Proof. intros. unfold colat. rewrite !nth_lookup, lookup_ualt_ne by lia. done. Qed.

Lemma spots_ualt rm c f : (forall rc, spot (f rc) = spot rc) -> spots (ualt rm c f) = spots rm.
Proof.
  intros Hf. unfold spots. cbn. f_equal. apply list_eq. intros i. change (map spot ?l) with (spot <$> l).
  rewrite !list_lookup_fmap. destruct (decide (i = Z.to_nat c)) as [->|].
  - rewrite list_lookup_alter_eq. destruct (rm_col rm !! _); cbn; [by rewrite Hf|done].
  - by rewrite list_lookup_alter_ne by done.
Qed.

(** *** Completion of the children *)

Definition ask (rm : raidz_map) (c : Z) : child_io := col_io false false false (Some c) (colat rm c).

Lemma spots_ask rm rm' c : spots rm = spots rm' -> ask rm c = ask rm' c.
Proof. intros E%(spots_colat _ _ c). unfold ask, col_io, spot in *. by injection E as -> -> ->. Qed.

Section completion.
Context (answer : children_io).
Context (Hans : forall dev off n, 0 <= n -> zlen (answer dev off n).2 = n /\ Forall is_byte (answer dev off n).2).

(** What the children answer for a column, and the column then. *)
Definition reply (rc : raidz_col) : Z * list Z := answer (rc_devidx rc) (rc_offset rc) (rc_size rc).
Definition replied (rc : raidz_col) : raidz_col := set_rc_status (reply rc).1 true false (set_rc_data (reply rc).2 rc).

Lemma replied_wf rm c : rm_wf rm -> 0 <= c < rm_cols rm -> rm_wf (ualt rm c replied).
Proof using Hans.
  intros Hw Hc. pose proof (wf_cols _ Hw). apply (spots_wf _ rm); [done|by apply spots_ualt|]. intros x Hx.
  destruct (wf_col _ Hw x Hx) as (? & _ & ? & ?). rewrite dat_colat. destruct (decide (c = x)) as [->|].
  - rewrite colat_ualt_eq by lia. cbn. rewrite siz_colat. apply Hans. by rewrite <- siz_colat.
  - rewrite colat_ualt_ne, <- dat_colat by lia. done.
Qed.

Lemma deliver_one rm c : in_map rm c ->
  (rm' ← set_col_data rm c (reply (colat rm c)).2; vdev_raidz_child_done rm' c (reply (colat rm c)).1) = Ok (ualt rm c replied).
Proof.
  intros Hc. unfold set_col_data, vdev_raidz_child_done. rewrite upd_col_ok by done. bnd.
  rewrite upd_col_ok by (by rewrite length_ualt). f_equal. unfold ualt, set_rm_col. cbn. f_equal.
  destruct (rd_colat rm c Hc) as (_ & E & _). apply list_eq. intros i. destruct (decide (i = Z.to_nat c)) as [->|].
  - rewrite !list_lookup_alter_eq, E. done.
  - by rewrite !list_lookup_alter_ne by done.
Qed.

Lemma deliver_ok cs : forall rm, rm_wf rm -> List.NoDup cs -> (forall c, In c cs -> 0 <= c < rm_cols rm) ->
  wp (deliver answer (map (ask rm) cs) rm) (fun rm' => rm_wf rm' /\ spots rm' = spots rm /\
    (forall c, In c cs -> colat rm' c = replied (colat rm c)) /\ (forall c, 0 <= c -> ~ In c cs -> colat rm' c = colat rm c)).
Proof using Hans.
  induction cs as [|c cs IH]; intros rm Hw Hnd Hin; [by split_and!|]. inversion Hnd as [|? ? Hnc Hnd']; subst.
  assert (Hc : 0 <= c < rm_cols rm) by (apply Hin; by left). pose proof (wf_cols _ Hw).
  cbn [map deliver ask col_io ci_col ci_devidx ci_offset ci_size].
  pose proof (deliver_one rm c ltac:(lia)) as E1. unfold reply in E1.
  destruct (answer (rc_devidx (colat rm c)) (rc_offset (colat rm c)) (rc_size (colat rm c))) as [e d] eqn:Ea.
  cbn [fst snd] in E1. set (rm1 := ualt rm c replied) in *.
  assert (Hsp : spots rm1 = spots rm) by (by apply spots_ualt).
  assert (Hw1 : rm_wf rm1) by (by apply replied_wf).
  unfold set_col_data in *. rewrite upd_col_ok in * by lia. rewrite bind_Ok in E1. bnd. rewrite E1. bnd.
  rewrite (map_ext (ask rm) (ask rm1)) by (intros; by apply spots_ask).
  eapply wp_mono; [apply IH; [done|done|]|].
  - intros x Hx. change (rm_cols rm1) with (rm_cols rm). apply Hin. by right.
  - intros rm' (Hw' & Hsp' & Hyes & Hno). split_and!; [done|congruence|..].
    + intros x [<-|Hx].
      * rewrite Hno by (done || lia). apply colat_ualt_eq. lia.
      * rewrite Hyes by done. f_equal. apply colat_ualt_ne; [lia|apply Hin; by right|]. by intros ->.
    + intros x Hx Hnx. rewrite Hno; [|done|by intros ?; apply Hnx; right]. apply colat_ualt_ne; [lia|done|].
      intros ->. apply Hnx. by left.
Qed.
End completion.

(** *** Issue of the reads *)

Section start.
Context (vdev_readable vdev_dtl_missing : Z -> bool) (z : zio_flags) (rm0 : raidz_map) (Hw0 : rm_wf rm0).
Abbreviation cols := (rm_cols rm0).

(** The state once the columns from [lo] on have been seen. *)
Definition started (lo : Z) (s : raidz_map * list event) : Prop :=
  let '(rm, ev) := s in
  spots rm = spots rm0 /\ (forall c, 0 <= c -> dat rm c = dat rm0 c) /\
  (forall c, 0 <= c < lo -> colat rm c = colat rm0 c) /\
  (forall c, 0 <= c < cols -> trd rm c = true -> trd rm0 c = true \/ vdev_readable (rc_devidx (colat rm0 c)) = false) /\
  exists cs, ev = map (fun c => EIssue (ask rm0 c)) cs /\ List.NoDup cs /\ forall c, In c cs -> lo <= c < cols.

Lemma started_skip rm ev c e t : 0 <= c < cols -> started (c + 1) (rm, ev) ->
  (t = true -> vdev_readable (rc_devidx (colat rm0 c)) = false) ->
  wp (rm ← skip_col rm c e t; Ok (rm, ev)) (started c).
Proof using Hw0.
  intros Hc (Hsp & Hd & Hlow & Ht & cs & -> & Hnd & Hcs) Hrd. pose proof (wf_cols _ Hw0). pose proof (spots_length _ _ Hsp).
  unfold skip_col. destruct (if rm_firstdatacol rm <=? c then _ else _) as [md mp].
  rewrite upd_col_ok by (cbn; lia). bnd. cbn [wp started]. set (f := fun rc => set_rc_status e (t || rc_tried rc) true rc).
  set (rm' := ualt (set_rm_missing md mp rm) c f).
  assert (Hat : forall x, 0 <= x -> colat rm' x = if decide (c = x) then f (colat rm x) else colat rm x).
  { intros x Hx. unfold rm'. destruct (decide (c = x)) as [->|]; [rewrite colat_ualt_eq by (cbn; lia)|rewrite colat_ualt_ne by lia]; done. }
  split_and!.
  - unfold rm'. rewrite spots_ualt by done. done.
  - intros x Hx. rewrite dat_colat, Hat by done. destruct (decide (c = x)); cbn; by rewrite <- dat_colat, Hd.
  - intros x Hx. rewrite Hat, decide_False by lia. apply Hlow. lia.
  - intros x Hx. unfold trd at 1. rewrite Hat by lia. destruct (decide (c = x)) as [<-|]; [|by apply Ht]. cbn.
    intros [->|E]%orb_prop; [right; auto|by apply Ht].
  - exists cs. split_and!; try done. intros x Hx%Hcs. lia.
Qed.

Lemma started_issue rm ev c : 0 <= c < cols -> started (c + 1) (rm, ev) ->
  started c (rm, ev ++ [EIssue (col_io false false false (Some c) (colat rm0 c))]).
Proof using Hw0.
  intros Hc (Hsp & Hd & Hlow & Ht & cs & -> & Hnd & Hcs). split_and!; try done.
  - intros x Hx. apply Hlow. lia.
  - exists (cs ++ [c]). rewrite map_app. split; [done|]. split.
    + apply List.NoDup_app; [done|by constructor; [intros []|constructor]|]. intros x Hx%Hcs [<-|[]]. lia.
    + intros x [Hx%Hcs|[<-|[]]]%in_app_iff; lia.
Qed.

Lemma io_start_reads_ok : wp (for_range 0 cols (fun i => io_start_read_col vdev_readable vdev_dtl_missing z (cols - 1 - i)) (rm0, [])) (started 0).
Proof using Hw0.
  pose proof (wf_np _ Hw0). pose proof (wf_first _ Hw0). pose proof (wf_cols _ Hw0).
  apply (wp_for_range (fun i => started (cols - i))).
  - lia.
  - split_and!; try done; [by left|]. exists []. split_and!; [done|constructor|by intros ? []].
  - intros i [rm ev] Hi Hs. set (c := cols - 1 - i) in *. replace (cols - i) with (c + 1) in Hs by lia.
    replace (cols - (i + 1)) with c by lia. assert (Hc : 0 <= c < cols) by lia. clearbody c. clear i Hi.
    pose proof Hs as (Hsp & Hd & Hlow & Ht & cs & Eev & Hnd & Hcs). pose proof (spots_length _ _ Hsp).
    unfold io_start_read_col. destruct (rd_colat rm c) as (-> & _); [lia|]. bnd. rewrite Hlow by lia.
    destruct (vdev_readable _) eqn:Er; cbn [negb]; [|by apply started_skip].
    destruct (vdev_dtl_missing _); [by apply started_skip|]. case_if as E; cbn [wp].
    + by apply started_issue.
    + split_and!; try done; [intros x Hx; apply Hlow; lia|]. exists cs. split_and!; try done. intros x Hx%Hcs. lia.
  - intros s. by rewrite Z.sub_diag.
Qed.
End start.

(** *** Rounds *)

Lemma those_incl (p q : Z -> bool) lo hi : (forall c, lo <= c < hi -> p c = true -> q c = true) -> zlen (those p lo hi) <= zlen (those q lo hi).
Proof.
  intros H. assert (N : List.NoDup (those p lo hi)).
  { apply NoDup_filter. apply NoDup_ListNoDup, NoDup_seqZ. }
  pose proof (NoDup_incl_length N (l' := those q lo hi)) as L. enough (incl (those p lo hi) (those q lo hi)) by (specialize (L ltac:(done)); lia).
  intros c [Hc Hp]%in_those. apply in_those. auto.
Qed.

Section rounds.
Context (kmem_alloc zio_buf_alloc : Z -> list Z) (general : bool) (zio_checksum_error : list Z -> Z * bool).
Context (Hkmem : allocates kmem_alloc) (Hzio : allocates zio_buf_alloc).
Context (o : raidz_map) (Hwfo : rm_wf o) (Hpo : parity_ok o).
Context (Hck : forall b, zlen b = zlen (io_buffer o) -> (zio_checksum_error b).1 = 0 <-> b = io_buffer o).
Context (answer : children_io).
Context (Hans : forall dev off n, 0 <= n -> zlen (answer dev off n).2 = n /\ Forall is_byte (answer dev off n).2).
(** The columns on faulty children. *)
Context (faulty : Z -> bool).
Abbreviation cols := (rm_cols o).
Context (Hfew : zlen (those faulty 0 cols) <= rm_firstdatacol o).
Context (Hgood : forall c, 0 <= c < cols -> faulty c = false -> reply answer (colat o c) = (0, dat o c)).
Context (z : zio_flags) (Hz : zf_write z = false) (sched : list child_io -> list child_io) (Hsched : forall l, Permutation l (sched l)).
Abbreviation io_done := (vdev_raidz_io_done kmem_alloc zio_buf_alloc general zio_checksum_error z).

(** What was read from children that work is what was written. *)
Definition honest (rm : raidz_map) : Prop :=
  rm_wf rm /\ spots rm = spots o /\
  forall c, 0 <= c < cols -> faulty c = false -> trd rm c = true -> err rm c = 0 /\ dat rm c = dat o c.

Lemma spots_fits rm : rm_wf rm -> spots rm = spots o -> fits o rm.
Proof.
  intros Hw Hs. split; [done|]. split_and!; [unfold spots in Hs; congruence..|]. intros. by apply spots_siz.
Qed.

Definition round_post (rm : raidz_map) (r : raidz_map * list event * done) : Prop :=
  let '(rm', ev, d) := r in
  match d with
  | Done e => e = 0 /\ repairs rm rm' ev /\ settled zio_checksum_error rm rm' /\ (spare z rm -> mended rm rm')
  | Redone => keeps rm rm' /\ those (fun c => negb (trd rm c)) 0 cols <> [] /\ ev = map (read_io rm') (those (fun c => negb (trd rm c)) 0 cols)
  end.

Lemma round_ok rm writeable ts : honest rm -> length ts = 5%nat -> wp (io_done writeable ts 0 rm) (round_post rm).
Proof using All.
  intros (Hw & Hs & Hh) Hl. pose proof (spots_fits rm Hw Hs) as Hf. assert (Ec : rm_cols rm = cols) by apply Hf.
  destruct (decide (those (fun c => negb (trd rm c)) 0 cols = [])) as [Hu|Hu].
  - eapply wp_mono; [eapply (done_recovers kmem_alloc zio_buf_alloc general zio_checksum_error Hkmem Hzio o); try done|].
    + etrans; [|exact Hfew]. apply those_incl. intros c Hc Hb. destruct (faulty c) eqn:Ef; [done|]. exfalso.
      destruct (Hh c Hc Ef) as [He Hd].
      { destruct (trd rm c) eqn:Et; [done|]. assert (Hin : In c []); [|done]. rewrite <- Hu. apply in_those. by rewrite Et. }
      unfold failed, silent in Hb. rewrite He, Hd, bool_decide_true in Hb by done. done.
    + by rewrite Ec.
    + intros [[rm' ev] d] (-> & H'). by split.
  - eapply wp_mono; [by apply io_done_read|]. intros [[rm' ev] [e|]] [_ H']; cbn [round_post]; rewrite Ec in H'.
    + destruct H' as (Hr & [(-> & H')|(_ & H0 & _)]); [by split|done].
    + by destruct H' as (? & ? & ?).
Qed.

(** Delivery of the answers for a set of columns keeps the map honest. *)
Lemma deliver_honest rm cs : rm_wf rm -> spots rm = spots o -> List.NoDup cs -> (forall c, In c cs -> 0 <= c < cols) ->
  (forall c, 0 <= c < cols -> faulty c = false -> ~ In c cs -> trd rm c = true -> err rm c = 0 /\ dat rm c = dat o c) ->
  wp (deliver answer (sched (issued (map (fun c => EIssue (ask rm c)) cs))) rm)
    (fun rm' => honest rm' /\ forall c, In c cs \/ (0 <= c /\ trd rm c = true) -> trd rm' c = true).
Proof using All.
  intros Hw Hs Hnd Hin Hh. assert (Ec : rm_cols rm = cols) by (unfold spots in Hs; congruence).
  assert (E : issued (map (fun c => EIssue (ask rm c)) cs) = map (ask rm) cs) by (clear; induction cs; cbn; congruence).
  rewrite E. destruct (Permutation_map_inv (ask rm) cs (Permutation_sym (Hsched (map (ask rm) cs)))) as (cs' & -> & Hp).
  assert (Hin' : forall c, In c cs' <-> In c cs) by (intros; split; apply Permutation_in; [by symmetry|done]).
  eapply wp_mono; [apply (deliver_ok answer Hans); [done|by eapply Permutation_NoDup|]|].
  - intros c Hc%Hin'. rewrite Ec. auto.
  - intros rm' (Hw' & Hs' & Hyes & Hno). split; [split; [done|]; split; [congruence|]|].
    + intros c Hc Hf. rewrite err_colat, dat_colat. unfold trd. destruct (in_dec Z.eq_dec c cs') as [Hc'|Hc'].
      * rewrite Hyes by done. intros _. unfold replied. cbn.
        assert (Er : reply answer (colat rm c) = reply answer (colat o c)).
        { pose proof (spots_colat _ _ c Hs) as Esp. unfold spot in Esp. unfold reply. by injection Esp as -> -> ->. }
        by rewrite Er, Hgood.
      * rewrite Hno by (done || lia). rewrite <- err_colat, <- dat_colat. apply Hh; [done|done|]. by rewrite <- Hin'.
    + intros c Ht. unfold trd. destruct (in_dec Z.eq_dec c cs') as [Hc'|Hc']; [by rewrite Hyes|].
      destruct Ht as [Ht%Hin'|[Hc Ht]]; [done|]. by rewrite Hno.
Qed.

(** Writes of what the stripe has in a column, where the column lies. *)
Definition heals (ev : list event) : Prop :=
  forall io, In (EIssue io) ev -> exists c heal, 0 <= c < cols /\ io = col_io true true heal None (colat o c).

Definition run_post (r : raidz_map * list event * done) : Prop :=
  let '(rm', ev, d) := r in d = Done 0 /\ io_buffer rm' = io_buffer o /\ (zf_resilver z = true -> heals ev).

Lemma round_run rm r : honest rm -> round_post rm r -> r.2 <> Redone -> run_post r.
Proof using Hwfo Hpo Hck.
  intros (Hw & Hs & _) Hr Hd. destruct r as [[rm' ev] [e|]]; [|done]. destruct Hr as (-> & Hrep & (Hw' & Ho & Hp) & Hm).
  pose proof (outline_fits o rm rm' Ho Hw' (spots_fits rm Hw Hs)) as Hf. pose proof (wf_np _ Hwfo). pose proof (wf_first _ Hwfo).
  destruct (passes_right zio_checksum_error o Hwfo Hck rm' Hf Hp) as [Eb Hdat]. split; [done|]. split; [done|].
  intros Hres io Hio. destruct (Hrep io Hio) as (c & heal & Hc & He & ->).
  destruct (spots_fits rm Hw Hs) as (_ & Ec & Ef & Es). rewrite Ec in Hc. exists c, heal. split; [done|].
  assert (Hd' : dat rm' c = dat o c).
  { destruct (Z.le_gt_cases (rm_firstdatacol o) c); [apply Hdat; lia|].
    unfold mended in Hm. rewrite Ef in Hm. rewrite Hm by (done || by left || lia).
    destruct Hf as (_ & Ec' & Ef' & Es'). rewrite (parity_col_ext _ o) by done. symmetry. apply Hpo. lia. }
  pose proof (spots_colat rm' o c) as Esp. rewrite (outline_spots _ _ Ho), Hs in Esp. specialize (Esp eq_refl).
  rewrite !dat_colat in Hd'. unfold col_io. unfold spot in Esp. injection Esp as -> -> ->. by rewrite Hd'.
Qed.

Lemma rounds_ok rm writeable ts1 ts2 : honest rm -> length ts1 = 5%nat -> length ts2 = 5%nat ->
  wp ('(rm, ev, d) ← io_done writeable ts1 0 rm;
      match d with
      | Done e => Ok (rm, ev, Done e)
      | Redone => rm ← deliver answer (sched (issued ev)) rm; io_done writeable ts2 0 rm
      end) run_post.
Proof using All.
  intros Hh Hl1 Hl2. apply wp_bind. eapply wp_mono; [by apply round_ok|]. intros [[rm1 ev] [e|]] Hr.
  - by apply (round_run rm _ Hh Hr).
  - destruct Hr as ((Hw1 & Hsh & Hk) & _ & ->). destruct Hh as (Hw & Hs & Hh). pose proof (shape_outline _ _ Hsh) as Ho.
    assert (Ec : rm_cols rm = cols) by (unfold spots in Hs; congruence). rewrite Ec in Hk.
    set (cs := those (fun c => negb (trd rm c)) 0 cols).
    assert (Htried : forall c, 0 <= c < cols -> ~ In c cs -> trd rm1 c = true).
    { intros c Hc Hn. rewrite (outline_trd _ _ _ Ho). destruct (trd rm c) eqn:Et; [done|]. destruct Hn. apply in_those. by rewrite Et. }
    apply wp_bind. eapply wp_mono; [apply (deliver_honest rm1 cs)|].
    + done.
    + by rewrite (outline_spots _ _ Ho).
    + apply NoDup_filter, NoDup_ListNoDup, NoDup_seqZ.
    + by intros c [? _]%in_those.
    + intros c Hc Hf Hn Ht. rewrite (outline_trd _ _ _ Ho) in Ht. destruct (Hh c Hc Hf Ht) as [He Hd].
      rewrite (shape_err _ _ _ Hsh), Hk by done. done.
    + intros rm2 [Hh2 Ht2]. eapply wp_mono; [by apply round_ok|]. intros r Hr. apply (round_run rm2); [done|done|].
      destruct r as [[rm3 ev3] [e|]]; [done|]. destruct Hr as (_ & Hne & _). destruct Hne.
      destruct (those (fun c => negb (trd rm2 c)) 0 cols) as [|c l] eqn:E; [done|]. assert (Hc : In c (c :: l)) by (by left).
      rewrite <- E in Hc. apply in_those in Hc as [Hc Hn]. rewrite Ht2 in Hn; [done|].
      destruct (in_dec Z.eq_dec c cs); [by left|right]. split; [lia|auto].
Qed.
End rounds.
End RaidzRead.
