(* ===== verification/RaidzTrip.v ===== *)
(** Writes to a RAID-Z vdev, and reading back what was written. *)

From S2P Require Import Prelude Galois RaidzMap RaidzParity RaidzReconstruct RaidzGeneral RaidzSolve RaidzRepair RaidzLayout RaidzIo RaidzState RaidzComb RaidzDone RaidzRead.
From Stdlib Require Import Sorting.Sorted Permutation.
Import Galois RaidzMap RaidzParity RaidzReconstruct RaidzGeneral RaidzSolve RaidzRepair RaidzLayout RaidzIo RaidzState RaidzComb RaidzDone RaidzRead.
Open Scope Z_scope.

Module RaidzTrip.

(** ** The padding sectors *)

Section skip.
Context (sh dcols np b s : Z).
Context (Hsh : 3 <= sh <= 30) (Hnp : 1 <= np <= 3) (Hdc : np < dcols <= 255).
Abbreviation U := (2 ^ sh).
Context (Hb : 0 <= b) (Hoff : b * U < 2 ^ 62) (Hs : 0 < s) (Hsize : s * U <= 2 ^ 32).
Context (zio_buf_alloc : Z -> list Z) (Halloc : allocates zio_buf_alloc) (io_data : list Z).
Abbreviation rm := (the_map sh dcols np b s zio_buf_alloc io_data).
Abbreviation col := (col sh dcols np b s zio_buf_alloc io_data).
Abbreviation scols := (scols dcols np s).
Abbreviation bc := (bc dcols np s).
Abbreviation q := (q dcols np s).
Abbreviation tot := (secs dcols np s (acols dcols np s)).

Lemma tot_rows : tot = q * dcols + bc.
Proof using All.
  destruct (cols_facts sh dcols np b s) as (? & ? & ? & Hac); [done || lia..|]. unfold secs. rewrite Z.min_id, Z.min_r by done.
  destruct Hac as [->|[-> ->]]; lia.
Qed.

Lemma bc_width : 0 <= bc < dcols.
Proof using All.
  destruct (q_facts sh dcols np b s) as (? & ? & ? & _); [done || lia..|].
  destruct (bc_facts sh dcols np b s) as [(-> & _)|(-> & ?)]; [done || lia..|lia|lia].
Qed.

Lemma pad_bound : 0 <= roundup tot (np + 1) - tot <= np.
Proof using All.
  destruct (unit_facts sh Hsh) as [? _]. destruct (tot_bound sh dcols np b s); [done || lia..|].
  destruct (roundup_small tot (np + 1)); [nia|lia|lia].
Qed.

(** The column the [k]-th padding sector belongs to. *)
Definition skipcol (start k : Z) : Z := if start + k <? scols then start + k else start + k - scols.

(** When the padding runs over the last column, the map has all columns. *)
Lemma pad_wrap k : 0 <= k < rm_nskip rm -> scols <= bc + k -> scols = dcols /\ 1 < np.
Proof using All.
  intros Hk Hw. pose proof tot_rows as Et. pose proof pad_bound. pose proof bc_width. cbn [rm_nskip the_map] in Hk.
  assert (E : scols = dcols).
  { unfold RaidzLayout.scols in *. case_if as E; [|done]. rewrite E, Z.mul_0_l, Z.add_0_l in Et. rewrite Et in Hk. lia. }
  split; [done|]. rewrite E in Hw. lia.
Qed.

Lemma sec_pad c : 0 <= c < scols -> sec dcols np s c = if c <? bc then q + 1 else q.
Proof using All.
  intros Hc. destruct (cols_facts sh dcols np b s) as (? & ? & ? & Hac); [done || lia..|]. unfold sec. case_ifs; lia.
Qed.

Lemma col_end c p x : 0 <= c < scols -> p = place sh np b c -> b + x = b + p + sec dcols np s c * dcols ->
  rc_devidx (col c) = (b + x) mod dcols /\ rc_offset (col c) + rc_size (col c) = (b + x) / dcols * U.
Proof using All.
  intros Hc -> ->. rewrite Z.mod_add, Z.div_add by lia. cbn. split; [done|lia].
Qed.

Lemma skip_sector k : 0 <= k < rm_nskip rm ->
  let c := skipcol (rm_skipstart rm) k in
  0 <= rm_skipstart rm < scols /\ 0 <= c < scols /\ rc_devidx (col c) = (b + (tot + k)) mod dcols /\
  rc_offset (col c) + rc_size (col c) = (b + (tot + k)) / dcols * U.
Proof using All.
  intros Hk c. pose proof tot_rows as Et. pose proof pad_bound as Hpb. pose proof bc_width. pose proof (pad_wrap k Hk) as Hw.
  pose proof (pad_wrap 0 ltac:(lia)) as Hw0. cbn [rm_nskip the_map] in Hk.
  destruct (cols_facts sh dcols np b s) as (? & ? & ? & _); [done || lia..|].
  destruct (bc_facts sh dcols np b s) as [Hbc|Hbc]; [done || lia..| |]; cbn [rm_skipstart the_map] in c |- *;
    unfold c, skipcol; destruct (swapped sh np b) eqn:Esw; pose proof Esw as Hnp1; unfold swapped in Hnp1;
    try (apply andb_prop in Hnp1 as [Hnp1%Z.eqb_eq _]).
  - destruct Hbc as (Ebc & _). rewrite Ebc. change (0 =? 0) with true. cbn iota. rewrite (proj2 (Z.ltb_lt _ _)) by lia.
    split; [lia|]. split; [lia|]. apply (col_end (1 + k) 0); [lia| |].
    + unfold place. rewrite Esw. replace k with 0 by lia. done.
    + rewrite sec_pad, (proj2 (Z.ltb_ge _ _)) by lia. lia.
  - assert (Hp : forall x, x = place sh np b x) by (intros; unfold place; by rewrite Esw).
    rewrite (proj2 (Z.ltb_lt _ _)) by lia. split; [lia|]. split; [lia|]. apply (col_end _ (bc + k)); [lia|apply Hp|].
    rewrite sec_pad, (proj2 (Z.ltb_ge _ _)) by lia. lia.
  - rewrite (proj2 (Z.eqb_neq bc 0)) by lia. rewrite (proj2 (Z.ltb_lt _ _)) by lia. split; [lia|]. split; [lia|].
    apply (col_end _ (bc + k)); [lia|by rewrite place_ge by lia|]. rewrite sec_pad, (proj2 (Z.ltb_ge _ _)) by lia. lia.
  - assert (Hp : forall x, x = place sh np b x) by (intros; unfold place; by rewrite Esw).
    split; [lia|]. case_if as E.
    + split; [lia|]. apply (col_end _ (bc + k)); [lia|apply Hp|]. rewrite sec_pad, (proj2 (Z.ltb_ge _ _)) by lia. lia.
    + destruct Hw as [Ew _]; [lia|]. split; [lia|]. apply (col_end _ (bc + k - scols)); [lia|apply Hp|].
      rewrite sec_pad, (proj2 (Z.ltb_lt _ _)) by lia. lia.
Qed.

(** The optional I/O for the [k]-th padding sector of the block. *)
Definition skip_io (k : Z) : child_io := CIO ((b + (tot + k)) mod dcols) ((b + (tot + k)) / dcols * U) U true None false false None.

Lemma skip_offset k : 0 <= k < rm_nskip rm -> 0 <= (b + (tot + k)) / dcols * U < 2 ^ 64.
Proof using All.
  intros Hk. pose proof pad_bound as Hpb. cbn [rm_nskip the_map] in Hk. destruct (unit_facts sh Hsh) as [? _].
  destruct (tot_bound sh dcols np b s); [done || lia..|]. assert (0 <= (b + (tot + k)) / dcols <= b + (tot + k)); [|nia].
  split; [apply Z.div_pos; lia|apply Z.div_le_upper_bound; nia].
Qed.

Lemma io_start_skip_ok w : spots w = spots rm -> rm_nskip w = rm_nskip rm -> rm_scols w = scols -> rm_skipstart w = rm_skipstart rm ->
  io_start_skip sh w = Ok (map (fun k => EIssue (skip_io k)) (seqZ 0 (rm_nskip rm))).
Proof using All.
  intros Hsp En Esc Est. unfold io_start_skip. rewrite En, Esc, Est. pose proof pad_bound as Hpb. clear En Esc Est.
  change (roundup tot (np + 1) - tot) with (rm_nskip rm) in Hpb.
  destruct (decide (rm_nskip rm = 0)) as [->|E0]; [by rewrite for_range_nil by lia|].
  pose proof (spots_length _ _ Hsp) as El. cbn [rm_col the_map] in El. rewrite length_map, length_seqZ in El.
  set (cur := fun i => if rm_skipstart rm + i <=? scols then rm_skipstart rm + i else rm_skipstart rm + i - scols).
  rewrite (for_range_fun (fun i => (cur i, map (fun k => EIssue (skip_io k)) (seqZ 0 i)))) with (r := (cur (rm_nskip rm), map (fun k => EIssue (skip_io k)) (seqZ 0 (rm_nskip rm)))); [done|lia| | |done].
  - intros k Hk. destruct (skip_sector k Hk) as (Hst & Hc & Hdev & Hoff'). pose proof (skip_offset k Hk).
    assert (Hlt : k < scols).
    { destruct (cols_facts sh dcols np b s) as (? & ? & _); [done || lia..|]. lia. }
    assert (Ec : (if cur k =? scols then 0 else cur k) = skipcol (rm_skipstart rm) k) by (unfold cur, skipcol; destruct (Z.leb_spec (rm_skipstart rm + k) scols), (Z.ltb_spec (rm_skipstart rm + k) scols); case_ifs; lia).
    rewrite Ec. set (c := skipcol _ k) in *. assert (En : cur (k + 1) = c + 1) by (unfold c, cur, skipcol; destruct (Z.leb_spec (rm_skipstart rm + (k + 1)) scols), (Z.ltb_spec (rm_skipstart rm + k) scols); lia).
    destruct (rd_colat w c) as (-> & _); [lia|]. bnd. rewrite En. do 2 f_equal.
    rewrite seqZ_app, map_app, (seqZ_cons _ 1), (seqZ_nil _ (Z.pred 1)) by lia. cbn [map]. do 3 f_equal.
    assert (Esp : spot (colat w c) = spot (col c)).
    { rewrite (spots_colat _ _ c Hsp). f_equal. unfold colat. apply nth_lookup_Some. by apply lookup_col. }
    assert (E1 : rc_devidx (colat w c) = rc_devidx (col c)) by (unfold spot in Esp; congruence).
    assert (E2 : rc_offset (colat w c) = rc_offset (col c)) by (unfold spot in Esp; congruence).
    assert (E3 : rc_size (colat w c) = rc_size (col c)) by (unfold spot in Esp; congruence).
    unfold skip_io. rewrite E1, E2, E3, Hdev, Hoff', Z.shiftl_1_l, small, Z.add_0_l by lia. done.
  - unfold cur. rewrite Z.add_0_r. destruct (skip_sector 0) as ((_ & ?) & _); [lia|]. by rewrite (proj2 (Z.leb_le _ _)) by lia.
Qed.
End skip.

(** ** Writes *)

Lemma setpar_col n rm : setpar n rm = set_rm_col (rm_col (setpar n rm)) rm.
Proof. induction n as [|n IH]; [by destruct rm|]. cbn [setpar]. rewrite IH at 1. done. Qed.

Lemma those_all lo hi : those (fun _ => true) lo hi = seqZ lo (hi - lo).
Proof. unfold those. induction (seqZ lo (hi - lo)) as [|x l IH]; cbn; congruence. Qed.

(** The sectors an I/O touches. *)
Definition touches (sh : Z) (io : child_io) (dev sec : Z) : Prop :=
  ci_devidx io = dev /\ ci_offset io / 2 ^ sh <= sec < (ci_offset io + ci_size io) / 2 ^ sh.

Section write.
Context (zio_buf_alloc : Z -> list Z) (Halloc : allocates zio_buf_alloc) (vdev_readable vdev_dtl_missing : Z -> bool) (z : zio_flags).
Context (sh dcols np io_offset io_size : Z) (io_data : list Z) (Hio : io_ok sh dcols np io_offset io_size io_data).
Abbreviation b := (io_offset / 2 ^ sh).
Abbreviation s := (io_size / 2 ^ sh).
Abbreviation rm0 := (the_map sh dcols np b s zio_buf_alloc io_data).
Definition stripe : raidz_map := setpar (Z.to_nat np) rm0.
Abbreviation skip := (skip_io sh dcols np b s).

Lemma map_ok : rm_wf rm0 /\ rm_firstdatacol rm0 = np /\ io_buffer rm0 = io_data.
Proof using Halloc Hio.
  destruct (io_units _ _ _ _ _ _ Hio) as (Eo & Es & ? & ? & ?). pose proof Hio as [].
  assert (Hw : rm_wf rm0) by (apply the_map_wf; done || lia). split; [done|]. split; [done|].
  rewrite io_buffer_dat by done. apply data_all; done || lia.
Qed.

Lemma stripe_ok : rm_wf stripe /\ parity_ok stripe /\ io_buffer stripe = io_data /\ spots stripe = spots rm0 /\
  rm_firstdatacol stripe = np /\ rm_nskip stripe = rm_nskip rm0 /\ rm_asize stripe = rm_asize rm0.
Proof using Halloc Hio.
  destruct map_ok as (Hw & Ef & Eb). pose proof (wf_np _ Hw).
  assert (Hsh : shape stripe = shape rm0) by apply shape_setpar.
  assert (Hws : rm_wf stripe) by (apply setpar_wf; [done|lia]). split; [done|].
  split; [unfold stripe; rewrite <- Ef; by apply setpar_parity_ok|]. split; [|split].
  - rewrite <- Eb. apply io_buffer_ext; try done; [by apply shape_cols|by apply shape_first|].
    intros c Hc. rewrite (shape_first _ _ Hsh) in Hc. unfold dat, stripe. rewrite setpar_data; [done|lia].
  - by apply outline_spots, shape_outline.
  - unfold stripe. rewrite setpar_col. done.
Qed.

Definition write_event (c : Z) : event := EIssue (col_io true false false (Some c) (colat stripe c)).

Lemma io_start_write : zf_write z = true ->
  vdev_raidz_io_start zio_buf_alloc vdev_readable vdev_dtl_missing z io_offset io_size io_data sh dcols np =
  Ok (stripe, map write_event (seqZ 0 (rm_cols stripe)) ++ map (fun k => EIssue (skip k)) (seqZ 0 (rm_nskip stripe))).
Proof using Halloc Hio.
  intros Hz. unfold vdev_raidz_io_start. rewrite (io_alloc zio_buf_alloc Halloc _ _ _ _ _ _ Hio), Hz. bnd.
  destruct map_ok as (Hw & Ef & _). rewrite generate_ok, Ef by done. bnd. fold stripe.
  destruct stripe_ok as (Hws & _ & _ & Hsp & _ & En & _). pose proof (wf_cols _ Hws).
  rewrite (issue_loop stripe Hws (fun _ => true) write_event).
  2: { intros c ev Hc. destruct (rd_colat stripe c) as (-> & _); [lia|]. done. }
  bnd. rewrite those_all, Z.sub_0_r, En.
  destruct (io_units _ _ _ _ _ _ Hio) as (Eo & Es & ? & ? & ?). pose proof Hio as [].
  rewrite (io_start_skip_ok sh dcols np b s) with (zio_buf_alloc := zio_buf_alloc) (io_data := io_data); [done|done || lia..| |].
  all: unfold stripe; by rewrite setpar_col.
Qed.

Lemma touches_col c dev sec : 0 <= c < rm_cols stripe ->
  touches sh (col_io true false false (Some c) (colat stripe c)) dev sec <-> covers sh rm0 c dev sec.
Proof using Halloc Hio.
  intros Hc. destruct stripe_ok as (Hws & _ & _ & Hsp & _). destruct map_ok as (Hw & _).
  assert (Ec : rm_cols stripe = rm_cols rm0) by (unfold spots in Hsp; congruence). pose proof (wf_cols _ Hw).
  pose proof (spots_colat _ _ c Hsp) as Esp. unfold spot in Esp. destruct (rd_colat rm0 c) as (_ & El & _); [lia|].
  destruct (io_units _ _ _ _ _ _ Hio) as (_ & _ & _ & _ & HU).
  assert (Hdiv : exists x, rc_offset (colat rm0 c) = x * 2 ^ sh).
  { unfold colat. cbn [rm_col the_map]. destruct (nth_in_or_default (Z.to_nat c) (map (col sh dcols np b s zio_buf_alloc io_data) (seqZ 0 (scols dcols np s))) no_col) as [Hin| ->].
    - apply in_map_iff in Hin as (x & <- & _). by eexists.
    - by exists 0. }
  destruct Hdiv as (x & Ex). unfold touches, covers, col_io. cbn [ci_devidx ci_offset ci_size].
  injection Esp as -> -> ->. rewrite Ex, Z.div_mul, Z.div_add_l by lia. split.
  - intros [<- Hs]. exists (colat rm0 c), (sec - x). rewrite Ex, Z.div_mul by lia. rewrite <- Ec. split_and!; try done; lia.
  - intros (rc & j & _ & El' & Hj & -> & ->). assert (rc = colat rm0 c) as -> by congruence. rewrite Ex, Z.div_mul by lia. split; [done|lia].
Qed.

Lemma touches_skip k dev sec : touches sh (skip k) dev sec <->
  dev = (b + (secs dcols np s (acols dcols np s) + k)) mod dcols /\ sec = (b + (secs dcols np s (acols dcols np s) + k)) / dcols.
Proof using Hio.
  destruct (io_units _ _ _ _ _ _ Hio) as (_ & _ & _ & _ & HU). unfold touches, skip_io. cbn [ci_devidx ci_offset ci_size].
  set (x := _ / dcols). rewrite Z.div_add_l, Z.div_mul, Z.div_same by lia. split; [intros [<- ?]; split; [done|lia]|intros [-> ->]; split; [done|lia]].
Qed.

(** The I/Os of a write touch the sectors reserved for it, and no others. *)
Lemma write_touches dev sec :
  (exists io, In (EIssue io) (map write_event (seqZ 0 (rm_cols stripe)) ++ map (fun k => EIssue (skip k)) (seqZ 0 (rm_nskip stripe))) /\ touches sh io dev sec) <->
  exists k, 0 <= k < vdev_raidz_asize sh dcols np io_size / 2 ^ sh /\ dev = (b + k) mod dcols /\ sec = (b + k) / dcols.
Proof using Halloc Hio.
  destruct stripe_ok as (Hws & _ & _ & Hsp & _ & En & _). assert (Ec : rm_cols stripe = rm_cols rm0) by (unfold spots in Hsp; congruence).
  destruct (io_units _ _ _ _ _ _ Hio) as (Eo & Es & ? & ? & HU). pose proof (padding _ _ _ _ _ _ Hio) as Hpad.
  assert (Ea : vdev_raidz_asize sh dcols np io_size / 2 ^ sh = roundup (secs dcols np s (acols dcols np s)) (np + 1)).
  { pose proof Hio as []. rewrite Es at 1. rewrite (asize_eq sh dcols np b s) with (zio_buf_alloc := zio_buf_alloc) (io_data := io_data) by (done || lia).
    cbn [rm_asize the_map]. by rewrite Z.div_mul by lia. }
  rewrite Ea, En. cbn [rm_nskip the_map] in *. set (tot := secs dcols np s (acols dcols np s)) in *.
  assert (Ht0 : 0 < tot) by (destruct Hio; apply (tot_bound sh dcols np b s); done || lia).
  pose proof (covers_range zio_buf_alloc Halloc _ _ _ _ _ _ Hio dev sec) as Hcr. split.
  - intros (io & [Hin|Hin]%in_app_iff & Ht); apply in_map_iff in Hin as (c & [= <-] & Hc%list_elem_of_In%elem_of_seqZ).
    + apply touches_col in Ht; [|lia]. destruct (proj1 Hcr (ex_intro _ c Ht)) as (k & Hk & Hd). exists k. split; [lia|done].
    + apply touches_skip in Ht. exists (tot + c). split; [lia|done].
  - intros (k & Hk & Hd). destruct (Z.lt_ge_cases k tot) as [Hlt|Hge].
    + destruct (proj2 Hcr) as [c Hc]; [exists k; split; [lia|done]|]. assert (Hr : 0 <= c < rm_cols stripe) by (rewrite Ec; by destruct Hc as (? & ? & ? & _)).
      exists (col_io true false false (Some c) (colat stripe c)). split; [|by apply touches_col].
      apply in_app_iff. left. apply in_map_iff. exists c. split; [done|]. apply list_elem_of_In, elem_of_seqZ. lia.
    + exists (skip (k - tot)). split; [|apply touches_skip; fold tot; by replace (tot + (k - tot)) with k by lia].
      apply in_app_iff. right. apply in_map_iff. exists (k - tot). split; [done|]. apply list_elem_of_In, elem_of_seqZ. lia.
Qed.
End write.

(** C23: starting a write issues, for every column, one write of the column's
    content: the data columns are the caller's buffer cut up, the parity
    columns the parity of the data.  Together with the optional I/Os for the
    padding, the I/Os touch exactly the sectors of the children that belong to
    the address range reserved for the block. *)
Theorem vdev_raidz_io_start_write_correct zio_buf_alloc vdev_readable vdev_dtl_missing z sh dcols np io_offset io_size io_data :
  allocates zio_buf_alloc -> io_ok sh dcols np io_offset io_size io_data -> zf_write z = true ->
  exists rm ios ev, vdev_raidz_io_start zio_buf_alloc vdev_readable vdev_dtl_missing z io_offset io_size io_data sh dcols np = Ok (rm, ev) /\
    rm_wf rm /\ parity_ok rm /\ io_buffer rm = io_data /\
    ev = map (fun c => EIssue (col_io true false false (Some c) (colat rm c))) (seqZ 0 (rm_cols rm)) ++ map EIssue ios /\
    (forall io, In io ios -> ci_data io = None) /\
    forall dev sec, (exists io, In (EIssue io) ev /\ touches sh io dev sec) <->
      exists k, 0 <= k < vdev_raidz_asize sh dcols np io_size / 2 ^ sh /\
        dev = (io_offset / 2 ^ sh + k) mod dcols /\ sec = (io_offset / 2 ^ sh + k) / dcols.
Proof.
  intros Ha Hio Hz. destruct (stripe_ok zio_buf_alloc Ha _ _ _ _ _ _ Hio) as (Hw & Hp & Hb & _).
  eexists _, (map (skip_io sh dcols np (io_offset / 2 ^ sh) (io_size / 2 ^ sh)) _), _. split; [by apply io_start_write|].
  split; [done|]. split; [done|]. split; [done|]. rewrite map_map. split; [done|]. split; [by intros io (k & <- & _)%in_map_iff|].
  by apply write_touches.
Qed.

(** ** Reading back *)

Section back.
Context (kmem_alloc zio_buf_alloc : Z -> list Z) (general : bool) (zio_checksum_error : list Z -> Z * bool).
Context (Hkmem : allocates kmem_alloc) (Halloc : allocates zio_buf_alloc).
Context (vdev_readable vdev_dtl_missing : Z -> bool) (answer : children_io) (sched : list child_io -> list child_io).
Context (sh dcols np io_offset io_size : Z) (io_data buf : list Z).
Context (Hio : io_ok sh dcols np io_offset io_size io_data) (Hbuf : io_ok sh dcols np io_offset io_size buf).
Context (Hck : forall d, zlen d = io_size -> (zio_checksum_error d).1 = 0 <-> d = io_data).
Context (Hans : forall dev off n, 0 <= n -> zlen (answer dev off n).2 = n /\ Forall is_byte (answer dev off n).2).
Context (Hsched : forall l, Permutation l (sched l)).
Context (sick : Z -> bool) (Hsick : zlen (those sick 0 dcols) <= np).
Context (Hread : forall dev, sick dev = false -> vdev_readable dev = true).
Abbreviation b := (io_offset / 2 ^ sh).
Abbreviation s := (io_size / 2 ^ sh).
Abbreviation w := (stripe zio_buf_alloc sh dcols np io_offset io_size io_data).
Abbreviation rmr := (the_map sh dcols np b s zio_buf_alloc buf).
Abbreviation cols := (rm_cols w).
Abbreviation child c := (rc_devidx (colat w c)).
Context (Hgood : forall c, 0 <= c < cols -> sick (child c) = false -> reply answer (colat w c) = (0, dat w c)).

Lemma spots_buf : spots rmr = spots w.
Proof using All.
  destruct (stripe_ok zio_buf_alloc Halloc _ _ _ _ _ _ Hio) as (_ & _ & _ & -> & _). unfold spots. f_equal.
  cbn [rm_col the_map]. by rewrite !map_map.
Qed.

Lemma child_place c : 0 <= c < cols -> child c = (b + place sh np b c) mod dcols.
Proof using All.
  intros Hc. pose proof spots_buf as Hsp. pose proof (spots_colat _ _ c Hsp) as E. unfold spot in E. injection E as <- _ _.
  assert (Ec : cols = acols dcols np s) by (unfold spots in Hsp; cbn [rm_cols the_map] in Hsp; congruence).
  destruct (io_units _ _ _ _ _ _ Hio) as (Eo & Es & ? & ? & ?). pose proof Hio as [].
  destruct (cols_facts sh dcols np b s) as (? & ? & _); [done || lia..|].
  assert (El : rm_col rmr !! Z.to_nat c = Some (col sh dcols np b s zio_buf_alloc buf c)) by (apply lookup_col; done || lia).
  unfold colat. by rewrite (nth_lookup_Some _ _ _ _ El).
Qed.

(** The columns lie on different children. *)
Lemma child_inj c c' : 0 <= c < cols -> 0 <= c' < cols -> child c = child c' -> c = c'.
Proof using All.
  intros Hc Hc'. rewrite !child_place by done. pose proof spots_buf as Hsp.
  assert (Ec : cols = acols dcols np s) by (unfold spots in Hsp; cbn [rm_cols the_map] in Hsp; congruence). rewrite Ec in *.
  destruct (io_units _ _ _ _ _ _ Hio) as (Eo & Es & ? & ? & ?). pose proof Hio as [].
  destruct (cols_facts sh dcols np b s) as (? & ? & _); [done || lia..|].
  destruct (place_ok sh dcols np b s) with (c := c) as (Hp & _ & E1); [done || lia..|].
  destruct (place_ok sh dcols np b s) with (c := c') as (Hp' & _ & E2); [done || lia..|]. intros E.
  assert (Ep : place sh np b c = place sh np b c'); [|by rewrite <- E1, <- E2, Ep].
  set (x := place sh np b c) in *. set (y := place sh np b c') in *.
  pose proof (Z.div_mod (b + x) dcols ltac:(lia)). pose proof (Z.div_mod (b + y) dcols ltac:(lia)).
  assert (Exy : x mod dcols = y mod dcols).
  { replace x with (b + x - b) by lia. replace y with (b + y - b) by lia. by rewrite Zminus_mod, E, <- Zminus_mod. }
  by rewrite !Z.mod_small in Exy by lia.
Qed.

Lemma few_sick : zlen (those (fun c => sick (child c)) 0 cols) <= rm_firstdatacol w.
Proof using All.
  destruct (stripe_ok zio_buf_alloc Halloc _ _ _ _ _ _ Hio) as (Hw & _ & _ & _ & -> & _). etrans; [|exact Hsick].
  set (l := those (fun c => sick (child c)) 0 cols).
  assert (N : List.NoDup (map (fun c => child c) l)).
  { apply NoDup_ListNoDup. change (map ?f l) with (f <$> l). apply NoDup_fmap_2_strong.
    - intros c c' [Hc _]%list_elem_of_In%in_those [Hc' _]%list_elem_of_In%in_those. by apply child_inj.
    - apply NoDup_ListNoDup, NoDup_filter, NoDup_ListNoDup, NoDup_seqZ. }
  pose proof (NoDup_incl_length N (l' := those sick 0 dcols)) as L. rewrite length_map in L.
  enough (incl (map (fun c => child c) l) (those sick 0 dcols)) by (specialize (L ltac:(done)); lia).
  intros x (c & <- & [Hc Hs]%in_those)%in_map_iff. apply in_those. split; [|done]. rewrite child_place by done.
  pose proof (io_width _ _ _ _ _ _ Hio). pose proof (io_parity _ _ _ _ _ _ Hio). apply Z.mod_pos_bound. lia.
Qed.

Lemma fresh_untried c : trd rmr c = false.
Proof.
  unfold trd, colat. cbn [rm_col the_map].
  destruct (nth_in_or_default (Z.to_nat c) (map (col sh dcols np b s zio_buf_alloc buf) (seqZ 0 (scols dcols np s))) no_col) as [Hin| ->]; [|done].
  by apply in_map_iff in Hin as (x & <- & _).
Qed.

Lemma read_back z writeable ts1 ts2 : zf_write z = false -> length ts1 = 5%nat -> length ts2 = 5%nat ->
  wp (raidz_read kmem_alloc zio_buf_alloc general zio_checksum_error vdev_readable vdev_dtl_missing answer sched z writeable ts1 ts2
      io_offset io_size buf sh dcols np) (run_post w z).
Proof using All.
  intros Hz Hl1 Hl2. unfold raidz_read, vdev_raidz_io_start. rewrite (io_alloc zio_buf_alloc Halloc _ _ _ _ _ _ Hbuf), Hz. bnd.
  destruct (stripe_ok zio_buf_alloc Halloc _ _ _ _ _ _ Hio) as (Hw & Hp & Hb & _).
  destruct (map_ok zio_buf_alloc Halloc _ _ _ _ _ _ Hbuf) as (Hwr & _). pose proof spots_buf as Hsp.
  assert (Ec : rm_cols rmr = cols) by (unfold spots in Hsp; congruence).
  assert (Hck' : forall d, zlen d = zlen (io_buffer w) -> (zio_checksum_error d).1 = 0 <-> d = io_buffer w).
  { rewrite Hb. intros d Hd. apply Hck. by rewrite Hd, (RaidzLayout.io_buffer _ _ _ _ _ _ Hio). }
  apply wp_bind. eapply wp_mono; [by apply (io_start_reads_ok vdev_readable vdev_dtl_missing z rmr)|].
  intros [rm1 ev] (Hsp1 & Hd1 & _ & Ht1 & cs & -> & Hnd & Hcs). rewrite Ec in Ht1, Hcs.
  assert (Hw1 : rm_wf rm1).
  { apply (spots_wf _ rmr); [done|done|]. intros c Hc. rewrite Hd1 by lia. by destruct (wf_col _ Hwr c Hc) as (_ & _ & ? & ?). }
  rewrite (map_ext (fun c => EIssue (ask rmr c)) (fun c => EIssue (ask rm1 c))) by (intros c; by rewrite (spots_ask rm1 rmr)).
  apply wp_bind. eapply wp_mono.
  { apply (deliver_honest kmem_alloc zio_buf_alloc general zio_checksum_error Hkmem Halloc w Hw Hp Hck' answer Hans
      (fun c => sick (child c)) few_sick Hgood z Hz sched Hsched rm1 cs); try done; [congruence|].
    intros c Hc Hf Hn Ht. exfalso. destruct (Ht1 c Hc Ht) as [Ht'|Hr]; [by rewrite fresh_untried in Ht'|].
    pose proof (spots_colat _ _ c Hsp) as E. unfold spot in E. injection E as E _ _. rewrite E, Hread in Hr; done. }
  intros rm2 [Hh _].
  by apply (rounds_ok kmem_alloc zio_buf_alloc general zio_checksum_error Hkmem Halloc w Hw Hp Hck' answer Hans
    (fun c => sick (child c)) few_sick Hgood z Hz sched Hsched).
Qed.
End back.

(** C1: a block written to a RAID-Z vdev is read back as it was written as
    long as at most [nparity] children fail, whatever these do: whether they
    cannot be read, return errors, or return wrong data without an error, in
    whatever order the child I/Os complete, and whatever the buffers held
    before.  The read ends without an error, and on a resilver everything it
    writes is the content of a column of the stripe, written where that column
    lies. *)
Theorem raidz_read_back kmem_alloc zio_buf_alloc general zio_checksum_error vdev_readable vdev_dtl_missing answer sched sick
    zw zr writeable ts1 ts2 sh dcols np io_offset io_size io_data buf w evw :
  allocates kmem_alloc -> allocates zio_buf_alloc ->
  io_ok sh dcols np io_offset io_size io_data -> io_ok sh dcols np io_offset io_size buf ->
  zf_write zw = true -> zf_write zr = false -> length ts1 = 5%nat -> length ts2 = 5%nat ->
  vdev_raidz_io_start zio_buf_alloc vdev_readable vdev_dtl_missing zw io_offset io_size io_data sh dcols np = Ok (w, evw) ->
  zlen (those sick 0 dcols) <= np -> (forall dev, sick dev = false -> vdev_readable dev = true) ->
  (forall io d, In (EIssue io) evw -> sick (ci_devidx io) = false -> ci_data io = Some d ->
    answer (ci_devidx io) (ci_offset io) (ci_size io) = (0, d)) ->
  (forall dev off n, 0 <= n -> zlen (answer dev off n).2 = n /\ Forall is_byte (answer dev off n).2) ->
  (forall d, zlen d = io_size -> (zio_checksum_error d).1 = 0 <-> d = io_data) ->
  (forall l, Permutation l (sched l)) ->
  exists rm ev, raidz_read kmem_alloc zio_buf_alloc general zio_checksum_error vdev_readable vdev_dtl_missing answer sched
      zr writeable ts1 ts2 io_offset io_size buf sh dcols np = Ok (rm, ev, Done 0) /\
    RaidzIo.io_buffer rm = io_data /\
    (zf_resilver zr = true -> forall io, In (EIssue io) ev ->
      exists c heal, 0 <= c < rm_cols w /\ io = col_io true true heal None (colat w c)).
Proof.
  intros Hk Ha Hio Hbuf Hzw Hzr Hl1 Hl2 E Hsick Hread Hgood Hans Hck Hsched.
  rewrite (io_start_write zio_buf_alloc Ha _ _ _ _ _ _ _ _ _ Hio Hzw) in E. injection E as <- <-.
  destruct (stripe_ok zio_buf_alloc Ha _ _ _ _ _ _ Hio) as (_ & _ & Hb & _).
  assert (W : wp (raidz_read kmem_alloc zio_buf_alloc general zio_checksum_error vdev_readable vdev_dtl_missing answer sched
      zr writeable ts1 ts2 io_offset io_size buf sh dcols np)
    (run_post (stripe zio_buf_alloc sh dcols np io_offset io_size io_data) zr)).
  { apply (read_back kmem_alloc zio_buf_alloc general zio_checksum_error Hk Ha vdev_readable vdev_dtl_missing answer sched
      sh dcols np io_offset io_size io_data buf Hio Hbuf Hck Hans Hsched sick Hsick Hread); try done.
    intros c Hc Hs. rewrite dat_colat. apply (Hgood (col_io true false false (Some c) (colat _ c))); [|done|done].
    apply in_app_iff. left. apply in_map_iff. exists c. split; [done|]. apply list_elem_of_In, elem_of_seqZ. lia. }
  apply wp_elim in W as ([[rm ev] d] & E & -> & Hbuf' & Hheal). exists rm, ev. rewrite Hbuf', Hb. done.
Qed.

(** Two sectors on a three-wide single-parity vdev whose second child lies. *)
Definition ex_data : list Z := seqZ 1 16.
Definition ex_ck (d : list Z) : Z * bool := (if bool_decide (d = ex_data) then 0 else ECKSUM, false).
Definition ex_zw : zio_flags := ZF true false false false.
Definition ex_zr : zio_flags := ZF false false true false.
Definition ex_sick (dev : Z) : bool := dev =? 1.
Definition ex_start : raidz_map * list event :=
  match vdev_raidz_io_start ex_buf (fun _ => true) (fun _ => false) ex_zw 8 16 ex_data 3 3 1 with Ok r => r | Fault _ => (RM 0 0 0 0 0 0 0 0 0 None 0 false false [], []) end.
Definition ex_answer : children_io := fun dev off n =>
  match List.find (fun io => (ci_devidx io =? dev) && (ci_offset io =? off) && (ci_size io =? n)) (issued ex_start.2) with
  | Some io => if ex_sick dev then (0, ex_buf n)
               else match ci_data io with
                    | Some d => if (zlen d =? n) && forallb (fun x => (0 <=? x) && (x <? 256)) d then (0, d) else (EIO, ex_buf n)
                    | None => (EIO, ex_buf n)
                    end
  | None => (EIO, ex_buf n)
  end.

Lemma bytes_check d : forallb (fun x => (0 <=? x) && (x <? 256)) d = true -> Forall is_byte d.
Proof. intros E. rewrite forallb_forall in E. apply List.Forall_forall. intros x Hx%E. unfold is_byte. lia. Qed.

Lemma ex_answer_ok dev off n : 0 <= n -> zlen (ex_answer dev off n).2 = n /\ Forall is_byte (ex_answer dev off n).2.
Proof.
  intros Hn. pose proof (ex_buf_ok n Hn). unfold ex_answer. destruct (find _ _) as [io|]; [|done].
  destruct (ex_sick dev); [done|]. destruct (ci_data io) as [d|]; [|done]. destruct (_ && _) eqn:E; [|done].
  apply andb_prop in E as [El%Z.eqb_eq Eb]. cbn [snd]. split; [done|]. by apply bytes_check.
Qed.

Lemma ex_trip_ok : io_ok 3 3 1 8 16 ex_data /\ io_ok 3 3 1 8 16 (ex_buf 16).
Proof.
  split; split; try lia; try reflexivity; [|by apply ex_buf_ok].
  apply List.Forall_forall. intros x Hx%list_elem_of_In%elem_of_seqZ. unfold is_byte. lia.
Qed.

Lemma raidz_read_back_witness : exists rm ev,
  raidz_read ex_buf ex_buf false ex_ck (fun _ => true) (fun _ => false) ex_answer (@rev child_io) ex_zr true [0;0;0;0;0] [0;0;0;0;0]
    8 16 (ex_buf 16) 3 3 1 = Ok (rm, ev, Done 0) /\ RaidzIo.io_buffer rm = ex_data.
Proof.
  destruct ex_trip_ok as [H1 H2].
  destruct (raidz_read_back ex_buf ex_buf false ex_ck (fun _ => true) (fun _ => false) ex_answer (@rev child_io) ex_sick ex_zw ex_zr true
    [0;0;0;0;0] [0;0;0;0;0] 3 3 1 8 16 ex_data (ex_buf 16) ex_start.1 ex_start.2) as (rm & ev & E & Hb & _).
  - exact ex_buf_ok.
  - exact ex_buf_ok.
  - exact H1.
  - exact H2.
  - reflexivity.
  - reflexivity.
  - reflexivity.
  - reflexivity.
  - vm_compute. reflexivity.
  - vm_compute. discriminate.
  - reflexivity.
  - assert (C : forallb (fun e => match e with
      | EIssue io => match ci_data io with
          | Some d => ex_sick (ci_devidx io) || bool_decide (ex_answer (ci_devidx io) (ci_offset io) (ci_size io) = (0, d)) | None => true end
      | _ => true end) ex_start.2 = true) by (vm_compute; reflexivity).
    intros io d Hin Hs Hd. rewrite forallb_forall in C. specialize (C _ Hin). cbn beta iota in C. rewrite Hd, Hs in C.
    exact (bool_decide_eq_true_1 _ C).
  - exact ex_answer_ok.
  - intros d _. unfold ex_ck. cbn [fst]. case_bool_decide as E; split; intros H; done.
  - intros l. apply Permutation_rev.
  - exists rm, ev. split; [exact E|exact Hb].
Defined.

Lemma vdev_raidz_io_start_write_correct_witness : exists rm ev,
  vdev_raidz_io_start ex_buf (fun _ => true) (fun _ => false) ex_zw 8 16 ex_data 3 3 1 = Ok (rm, ev) /\ RaidzIo.io_buffer rm = ex_data /\
  exists io, In (EIssue io) ev /\ touches 3 io 1 1.
Proof.
  destruct (vdev_raidz_io_start_write_correct ex_buf (fun _ => true) (fun _ => false) ex_zw 3 3 1 8 16 ex_data)
    as (rm & ios & ev & E & _ & _ & Hb & _ & _ & Ht).
  - exact ex_buf_ok.
  - exact (proj1 ex_trip_ok).
  - reflexivity.
  - exists rm, ev. split; [exact E|]. split; [exact Hb|]. apply Ht. exists 3. vm_compute. split; [|done]. split; [discriminate|done].
Defined.

(** ** Completion of any read *)

(** C22: completion of a read always returns.  When it reports success, the
    caller's buffer has a valid checksum.  All it writes are repairs: for a
    column in error, the content of that column; and if some parity column was
    neither needed nor lost, every parity column repaired holds the parity of
    the verified data.  When it asks to be called again, it has issued a read
    for exactly the columns not tried before, and the columns read without an
    error are as they were. *)
Theorem vdev_raidz_io_done_read kmem_alloc zio_buf_alloc general zio_checksum_error z writeable ts io_error rm :
  allocates kmem_alloc -> allocates zio_buf_alloc -> rm_wf rm -> zf_write z = false -> length ts = 5%nat ->
  exists rm' ev d, vdev_raidz_io_done kmem_alloc zio_buf_alloc general zio_checksum_error z writeable ts io_error rm = Ok (rm', ev, d) /\
    rm_wf rm' /\ outline rm' = outline rm /\
    (d = Done 0 -> (zio_checksum_error (RaidzIo.io_buffer rm')).1 = 0 /\
      (spare z rm -> forall c, 0 <= c < rm_firstdatacol rm -> err rm' c <> 0 -> dat rm' c = parity_col (Z.to_nat c) rm')) /\
    (forall io, In (EIssue io) ev -> ci_write io = true ->
      exists c heal, 0 <= c < rm_cols rm /\ err rm' c <> 0 /\ io = col_io true true heal None (colat rm' c)) /\
    (d = Redone -> keeps rm rm' /\ forall io, In (EIssue io) ev <-> exists c, 0 <= c < rm_cols rm /\ trd rm c = false /\ io = ask rm' c).
Proof.
  intros Hk Ha Hw Hz Hl.
  destruct (wp_elim _ _ (io_done_read kmem_alloc zio_buf_alloc general zio_checksum_error z Hk Ha rm Hw writeable ts io_error Hz Hl))
    as ([[rm' ev] d] & E & [Hw' Ho] & Hd). exists rm', ev, d. split; [done|]. split; [done|]. split; [done|]. destruct d as [e|].
  - destruct Hd as [Hr Hd]. split; [|split; [|done]].
    + intros [= ->]. destruct Hd as [(_ & (_ & _ & Hp) & Hm)|(He & _)]; [by split|done].
    + intros io Hin _. by apply Hr.
  - destruct Hd as (Hkp & _ & ->). split; [done|]. split.
    + intros io (c & [= <-] & _)%in_map_iff Hwr. done.
    + intros _. split; [done|]. intros io. rewrite in_map_iff. split.
      * intros (c & [= <-] & [Hc Ht]%in_those). exists c. by apply negb_true_iff in Ht.
      * intros (c & Hc & Ht & ->). exists c. split; [done|]. apply in_those. by rewrite Ht.
Qed.

(** A single-parity stripe with a data column lost. *)
Definition ex_rm : raidz_map :=
  match upd_col ex_start.1 1 (set_rc_status EIO true false) with Ok rm => set_rm_col (map (fun rc => set_rc_status (rc_error rc) true false rc) (rm_col rm)) rm | Fault _ => ex_start.1 end.

Lemma ex_rm_ok : rm_wf ex_rm.
Proof.
  apply (spots_wf _ (stripe ex_buf 3 3 1 8 16 ex_data)).
  - apply stripe_ok; [exact ex_buf_ok|exact (proj1 ex_trip_ok)].
  - vm_compute. reflexivity.
  - intros c Hc. change (rm_cols _) with 3 in Hc. assert (H : c = 0 \/ c = 1 \/ c = 2) by lia.
    destruct H as [->|[->| ->]]; (split; [vm_compute; reflexivity|]); apply bytes_check; vm_compute; reflexivity.
Qed.

Lemma vdev_raidz_io_done_read_witness : exists rm' ev d,
  vdev_raidz_io_done ex_buf ex_buf false ex_ck ex_zr true [0;0;0;0;0] 0 ex_rm = Ok (rm', ev, d) /\ d = Done 0 /\
  (ex_ck (RaidzIo.io_buffer rm')).1 = 0.
Proof.
  destruct (vdev_raidz_io_done_read ex_buf ex_buf false ex_ck ex_zr true [0;0;0;0;0] 0 ex_rm) as (rm' & ev & d & E & _ & _ & Hd & _).
  - exact ex_buf_ok.
  - exact ex_buf_ok.
  - exact ex_rm_ok.
  - reflexivity.
  - reflexivity.
  - exists rm', ev, d. split; [exact E|]. assert (Ed : d = Done 0).
    { revert E. vm_compute. congruence. }
    split; [exact Ed|]. exact (proj1 (Hd Ed)).
Defined.

(** ** Parity that is not regenerated *)

(** C32: a repair may write parity that was never computed.  Take any read that is not a
    resilver, a scrub for instance, for which as many columns have failed as there is
    parity, one of them unexpectedly, and all parity columns have been tried.  Its completion
    returns; it succeeds if no data column has failed and the checksum is right; and
    whenever it succeeds, it issues for every parity column that failed a repair that
    writes what the buffer of the column held when the children were done, whatever that
    is, and not the parity of the data. *)
Theorem scrub_repairs_with_stale_parity kmem_alloc zio_buf_alloc general zio_checksum_error z ts rm :
  allocates kmem_alloc -> allocates zio_buf_alloc -> rm_wf rm -> zf_write z = false -> zf_resilver z = false -> length ts = 5%nat ->
  zlen (those (failed rm) 0 (rm_cols rm)) = rm_firstdatacol rm -> those (unread rm) 0 (rm_firstdatacol rm) = [] -> those (unexpected rm) 0 (rm_cols rm) <> [] ->
  exists rm' ev d, vdev_raidz_io_done kmem_alloc zio_buf_alloc general zio_checksum_error z true ts 0 rm = Ok (rm', ev, d) /\
    (those (failed rm) (rm_firstdatacol rm) (rm_cols rm) = [] -> (zio_checksum_error (RaidzIo.io_buffer rm)).1 = 0 -> d = Done 0) /\
    (d = Done 0 -> forall c, 0 <= c < rm_firstdatacol rm -> err rm c <> 0 ->
      exists io, In (EIssue io) ev /\ ci_write io = true /\ ci_repair io = true /\ (ci_devidx io, ci_offset io, ci_size io) = spot (colat rm c) /\ ci_data io = Some (dat rm c)).
Proof.
  intros Hk Ha Hw Hz Hr Hl Hf Hu Hx. assert (Hu0 : zlen (those (unread rm) 0 (rm_firstdatacol rm)) = 0) by (by rewrite Hu).
  destruct (wp_elim _ _ (io_done_read kmem_alloc zio_buf_alloc general zio_checksum_error z Hk Ha rm Hw true ts 0 Hz Hl)) as ([[rm' ev] d] & E & _ & _). exists rm', ev, d. split; [done|]. split.
  - intros Hd Hck. revert E. unfold vdev_raidz_io_done. rewrite io_done_count_ok, Hz, bind_Ok by done. unfold io_done_correct. cbn [total_errors parity_untried data_errors parity_errors unexpected_errors]. rewrite Hd, Hf, Hu0, Z.sub_0_r, Z.leb_refl. cbn [length Z.of_nat Z.eqb].
    destruct (verify_map zio_checksum_error rm) as (Ev & _ & _). destruct (raidz_checksum_verify zio_checksum_error rm) as [ret rm1]. cbn [fst] in Ev. rewrite Ev, Hck. cbn [Z.eqb]. intros E. binv E. destruct a as [[rm2 ev2] o].
    change (Z.of_nat 0 =? 0) with true in E0. cbv iota in E0. assert (exists n, o = Some n) as [n ->] by (destruct (_ || _); [binv E0; destruct a as [[? ?] ?]|]; injection E0 as <- <- <-; by eexists).
    unfold io_done_finish in E. destruct (_ && _); [binv E|]; by injection E as <- <- <-.
  - intros -> c Hc He. pose proof (wf_first _ Hw). pose proof (wf_cols _ Hw). destruct (done_stale kmem_alloc zio_buf_alloc general zio_checksum_error z Hk Ha rm Hw ts rm' ev Hz Hr Hf Hu0 Hx E) as (Hsh & Hw' & Hd & Hrep).
    eexists. split; [apply (Hrep c); [lia|done]|]. split; [done|]. split; [done|]. pose proof (wf_cols _ Hw'). rewrite (shape_cols _ _ Hsh) in *.
    destruct (rd_colat rm' c ltac:(lia)) as (_ & L' & D' & _). destruct (rd_colat rm c ltac:(lia)) as (_ & L & _). pose proof (shape_skel _ _ (Z.to_nat c) Hsh) as Sk. rewrite L, L' in Sk. cbn in Sk.
    destruct (colat rm' c), (colat rm c). injection Sk as -> -> ->. split; [done|]. cbn in D' |- *. by rewrite D', Hd by lia.
Qed.

(** A scrub of a single-parity stripe whose parity could not be read. *)
Definition ex_scrub : zio_flags := ZF false true false false.
Definition ex_lost : raidz_map :=
  match upd_col ex_start.1 0 (set_rc_status EIO true false) with Ok rm => set_rm_col (map (fun rc => set_rc_status (rc_error rc) true false (if rc_error rc =? 0 then rc else set_rc_data (ex_buf 8) rc)) (rm_col rm)) rm | Fault _ => ex_start.1 end.

Lemma ex_lost_ok : rm_wf ex_lost.
Proof.
  apply (spots_wf _ (stripe ex_buf 3 3 1 8 16 ex_data)).
  - apply stripe_ok; [exact ex_buf_ok|exact (proj1 ex_trip_ok)].
  - vm_compute. reflexivity.
  - intros c Hc. change (rm_cols _) with 3 in Hc. assert (H : c = 0 \/ c = 1 \/ c = 2) by lia.
    destruct H as [->|[->| ->]]; (split; [vm_compute; reflexivity|]); apply bytes_check; vm_compute; reflexivity.
Qed.

Lemma scrub_repairs_with_stale_parity_witness : exists rm' ev io, vdev_raidz_io_done ex_buf ex_buf false ex_ck ex_scrub true [0;0;0;0;0] 0 ex_lost = Ok (rm', ev, Done 0) /\
  In (EIssue io) ev /\ ci_write io = true /\ ci_data io = Some (ex_buf 8) /\ ex_buf 8 <> parity_col 0 ex_lost.
Proof.
  destruct (scrub_repairs_with_stale_parity ex_buf ex_buf false ex_ck ex_scrub [0;0;0;0;0] ex_lost) as (rm' & ev & d & E & H1 & H2).
  - exact ex_buf_ok.
  - exact ex_buf_ok.
  - exact ex_lost_ok.
  - reflexivity.
  - reflexivity.
  - reflexivity.
  - vm_compute. reflexivity.
  - vm_compute. reflexivity.
  - vm_compute. discriminate.
  - assert (Ed : d = Done 0) by (apply H1; vm_compute; reflexivity). subst d. destruct (H2 eq_refl 0) as (io & I1 & I2 & _ & _ & I3); [vm_compute; split; [discriminate|done]|vm_compute; discriminate|].
    exists rm', ev, io. split; [exact E|]. split; [exact I1|]. split; [exact I2|]. split; [exact I3|]. vm_compute. discriminate.
Defined.
End RaidzTrip.
