(* ===== verification/RaidzReport.v ===== *)
(** Checksum reports of a RAID-Z vdev, which outlive the I/O they are about, and
    opening a vdev. *)

From S2P Require Import Prelude Galois RaidzMap RaidzParity RaidzReconstruct RaidzGeneral RaidzSolve RaidzRepair RaidzLayout RaidzIo RaidzState RaidzComb RaidzDone RaidzRead RaidzTrip.
From Stdlib Require Import Permutation.
Import Galois RaidzMap RaidzParity RaidzReconstruct RaidzGeneral RaidzSolve RaidzRepair RaidzLayout RaidzIo RaidzState RaidzComb RaidzDone RaidzRead RaidzTrip.
Open Scope Z_scope.

Module RaidzReport.

(** ** Pointing columns into a buffer *)

Lemma ualt_head rm c f : ualt rm c f = set_rm_col (rm_col (ualt rm c f)) rm.
Proof. done. Qed.

Lemma slice o i : rm_wf o -> rm_firstdatacol o <= i < rm_cols o ->
  take (Z.to_nat (siz o i)) (drop (length (upto o i)) (io_buffer o)) = dat o i.
Proof.
  intros Hw Hi. pose proof (wf_np _ Hw). destruct (wf_col _ Hw i) as (_ & _ & L & _); [lia|].
  assert (E : exists l, io_buffer o = upto o (i + 1) ++ l).
  { rewrite io_buffer_dat by done. exists (mjoin (map (dat o) (seqZ (i + 1) (rm_cols o - (i + 1))))). unfold upto.
    rewrite <- join_app, <- map_app. do 2 f_equal.
    replace (seqZ (i + 1) (rm_cols o - (i + 1))) with (seqZ (rm_firstdatacol o + (i + 1 - rm_firstdatacol o)) (rm_cols o - (i + 1))) by (f_equal; lia).
    rewrite <- seqZ_app by lia. f_equal. lia. }
  destruct E as [l ->]. rewrite upto_snoc, <- app_assoc, drop_app_length by lia.
  apply take_app_length'. lia.
Qed.

Section report.
Context (zio_buf_alloc : Z -> list Z) (Halloc : allocates zio_buf_alloc).

(** The columns of [o] as the data columns of [rm]. *)
Definition with_data (o rm rm' : raidz_map) : Prop :=
  rm' = set_rm_col (rm_col rm') rm /\ length (rm_col rm') = length (rm_col rm) /\
  forall x, 0 <= x -> colat rm' x =
    if (rm_firstdatacol rm <=? x) && (x <? rm_cols rm) then set_rc_data (dat o x) (colat rm x) else colat rm x.

Lemma cols_from_ok o rm : fits o o -> rm_cols rm = rm_cols o -> rm_firstdatacol rm = rm_firstdatacol o ->
  (forall c, siz rm c = siz o c) -> rm_cols rm <= zlen (rm_col rm) ->
  wp (cols_from (io_buffer o) rm) (with_data o rm).
Proof.
  intros (Hw & _) Ec Ef Es Hlen. pose proof (wf_np _ Hw). pose proof (wf_first _ Hw). unfold cols_from. apply wp_bind.
  apply (wp_for_range (fun i '(rm', off) => off = zlen (upto o i) /\ rm' = set_rm_col (rm_col rm') rm /\
    length (rm_col rm') = length (rm_col rm) /\
    forall x, 0 <= x -> colat rm' x = if (rm_firstdatacol rm <=? x) && (x <? i) then set_rc_data (dat o x) (colat rm x) else colat rm x)).
  - lia.
  - rewrite Ef, upto_first. split_and!; [done|by destruct rm|done|]. intros x Hx. by case_if as E; [lia|].
  - intros i [rm' off] Hi (-> & Eh & El & Hat). rewrite col_size_ok by lia. bnd.
    assert (Esi : siz rm' i = siz o i).
    { rewrite siz_colat, Hat by lia. rewrite (proj2 (Z.ltb_ge i i)), andb_false_r, <- siz_colat by lia. apply Es. }
    unfold set_col_data. rewrite upd_col_ok by lia. bnd. cbn [wp]. rewrite Esi, upto_len by (done || lia).
    rewrite Nat2Z.id, slice by (done || lia). split_and!; [done|by rewrite Eh|by rewrite length_ualt|].
    intros x Hx. destruct (decide (i = x)) as [<-|Hne].
    + rewrite colat_ualt_eq, Hat by lia. rewrite (proj2 (Z.ltb_ge i i)), andb_false_r by lia.
      by rewrite (proj2 (Z.leb_le _ _)), (proj2 (Z.ltb_lt _ _)) by lia.
    + rewrite colat_ualt_ne, Hat by lia. by replace (x <? i + 1) with (x <? i) by (destruct (Z.ltb_spec x i), (Z.ltb_spec x (i + 1)); lia).
  - intros [rm' off] (_ & Eh & El & Hat). cbn [wp]. by split_and!.
Qed.

Section finish.
Context (rm : raidz_map) (Hwf : rm_wf rm).
Abbreviation first := (rm_firstdatacol rm).
Abbreviation cols := (rm_cols rm).

(** Save the parity buffers, and put new ones in their place. *)
Definition fresh_parity (rm1 : raidz_map) : Prop :=
  rm1 = set_rm_col (rm_col rm1) rm /\ length (rm_col rm1) = length (rm_col rm) /\
  forall x, 0 <= x -> colat rm1 x = if x <? first then set_rc_data (zio_buf_alloc (siz rm x)) (colat rm x) else colat rm x.

Lemma save_parity :
  wp (for_range 0 first (fun x '(rm, bad_parity) =>
       d ← col_data rm x;
       n ← col_size rm x;
       bad_parity ← push VDEV_RAIDZ_MAXPARITY bad_parity d;
       rm ← set_col_data rm x (zio_buf_alloc n);
       Ok (rm, bad_parity)) (rm, []))
    (fun '(rm1, bad) => bad = map (dat rm) (seqZ 0 first) /\ fresh_parity rm1).
Proof using Hwf.
  pose proof (wf_np _ Hwf). pose proof (wf_first _ Hwf). pose proof (wf_cols _ Hwf).
  apply (wp_for_range (fun i '(rm1, bad) => bad = map (dat rm) (seqZ 0 i) /\ rm1 = set_rm_col (rm_col rm1) rm /\
    length (rm_col rm1) = length (rm_col rm) /\
    forall x, 0 <= x -> colat rm1 x = if x <? i then set_rc_data (zio_buf_alloc (siz rm x)) (colat rm x) else colat rm x)).
  - lia.
  - split_and!; [done|by destruct rm|done|]. intros x Hx. by rewrite (proj2 (Z.ltb_ge _ _)) by lia.
  - intros i [rm1 bad] Hi (-> & Eh & El & Hat). rewrite col_data_ok, col_size_ok by lia. bnd.
    rewrite push_ok by (rewrite length_map, length_seqZ; unfold VDEV_RAIDZ_MAXPARITY; lia). bnd.
    rewrite siz_colat, dat_colat, Hat, (proj2 (Z.ltb_ge i i)), <- siz_colat, <- dat_colat by lia.
    unfold set_col_data. rewrite upd_col_ok by lia. bnd. cbn [wp]. split_and!.
    + rewrite seqZ_app, map_app, (seqZ_cons _ 1), (seqZ_nil _ (Z.pred 1)), Z.add_0_l by lia. done.
    + by rewrite Eh.
    + by rewrite length_ualt.
    + intros x Hx. destruct (decide (i = x)) as [<-|Hne].
      * rewrite colat_ualt_eq, Hat, (proj2 (Z.ltb_ge i i)), (proj2 (Z.ltb_lt i (i + 1))) by lia. done.
      * rewrite colat_ualt_ne, Hat by lia. by replace (x <? i + 1) with (x <? i) by (destruct (Z.ltb_spec x i), (Z.ltb_spec x (i + 1)); lia).
  - by intros [rm1 bad] H'.
Qed.

(** Keep the good parity, and put the parity buffers back. *)
Lemma restore_parity rm1 : rm_firstdatacol rm1 = first -> length (rm_col rm1) = length (rm_col rm) ->
  wp (for_range 0 (rm_firstdatacol rm1) (fun x rm' =>
       g ← col_data rm' x;
       rm' ← upd_col rm' x (set_rc_gdata (Some g));
       d ← rd (map (dat rm) (seqZ 0 first)) x;
       set_col_data rm' x d) rm1)
    (fun rm2 => rm2 = set_rm_col (rm_col rm2) rm1 /\ length (rm_col rm2) = length (rm_col rm) /\
      forall x, 0 <= x -> colat rm2 x =
        if x <? first then set_rc_data (dat rm x) (set_rc_gdata (Some (dat rm1 x)) (colat rm1 x)) else colat rm1 x).
Proof using Hwf.
  intros Ef El. pose proof (wf_np _ Hwf). pose proof (wf_first _ Hwf). pose proof (wf_cols _ Hwf). rewrite Ef.
  apply (wp_for_range (fun i rm2 => rm2 = set_rm_col (rm_col rm2) rm1 /\ length (rm_col rm2) = length (rm_col rm) /\
      forall x, 0 <= x -> colat rm2 x =
        if x <? i then set_rc_data (dat rm x) (set_rc_gdata (Some (dat rm1 x)) (colat rm1 x)) else colat rm1 x)).
  - lia.
  - split_and!; [by destruct rm1|done|]. intros x Hx. by rewrite (proj2 (Z.ltb_ge _ _)) by lia.
  - intros i rm2 Hi (Eh & El2 & Hat). rewrite col_data_ok by lia. bnd. rewrite upd_col_ok by lia. bnd.
    rewrite (rd_Some (map (dat rm) (seqZ 0 first)) i (dat rm i)).
    2: lia. 2: { change (map ?f ?l) with (f <$> l). rewrite list_lookup_fmap, lookup_seqZ_lt by lia. cbn. by rewrite Z2Nat.id by lia. }
    bnd. unfold set_col_data. rewrite upd_col_ok by (rewrite length_ualt; lia). cbn [wp]. split_and!.
    + by rewrite Eh.
    + by rewrite !length_ualt.
    + intros x Hx. destruct (decide (i = x)) as [<-|Hne].
      * rewrite !colat_ualt_eq, (dat_colat rm2 i), Hat by (rewrite ?length_ualt; lia).
        rewrite (proj2 (Z.ltb_ge i i)), (proj2 (Z.ltb_lt i (i + 1))), <- (dat_colat rm1 i) by lia. done.
      * rewrite !colat_ualt_ne, Hat by lia. by replace (x <? i + 1) with (x <? i) by (destruct (Z.ltb_spec x i), (Z.ltb_spec x (i + 1)); lia).
  - by intros rm2 H'.
Qed.

(** The good stripe. *)
Context (o : raidz_map) (Hfit : fits rm o) (Hpo : parity_ok o).
(** The parity of the good data, kept with the parity columns. *)
Definition keep_good (rm' : raidz_map) : Prop := rm_wf rm' /\ rm_datacopy rm' = rm_datacopy rm /\ rm_cols rm' = cols /\ rm_firstdatacol rm' = first /\
  forall x, 0 <= x < cols -> colat rm' x = if x <? first then set_rc_gdata (Some (dat o x)) (colat rm x) else colat rm x.

Lemma set_data_skel d a b : skel a = skel b -> set_rc_data d a = set_rc_data d b.
Proof. destruct a, b. unfold skel, set_rc_data. cbn. congruence. Qed.

Lemma shape_colat a b x : shape a = shape b -> skel (colat a x) = skel (colat b x).
Proof. unfold shape, colat. intros [= _ _ E]. rewrite <- (map_nth skel (rm_col a)), <- (map_nth skel (rm_col b)). by rewrite E. Qed.

Lemma spots_intro a b : rm_cols a = rm_cols b -> rm_firstdatacol a = rm_firstdatacol b -> length (rm_col a) = length (rm_col b) ->
  (forall x, 0 <= x -> spot (colat a x) = spot (colat b x)) -> spots a = spots b.
Proof.
  intros Ec Ef El Hx. unfold spots. rewrite Ec, Ef. f_equal. apply nth_ext with (d := spot no_col) (d' := spot no_col); [by rewrite !length_map|].
  intros i _. rewrite !(map_nth spot). specialize (Hx (Z.of_nat i) ltac:(lia)). unfold colat in Hx. by rewrite Nat2Z.id in Hx.
Qed.

Lemma set_data_same rc : set_rc_data (rc_data rc) rc = rc.
Proof. by destruct rc. Qed.

(** With the good data in place, the map is the good stripe. *)
Lemma good_parity rm1 rm2 : fresh_parity rm1 -> with_data o rm1 rm2 ->
  vdev_raidz_generate_parity rm2 = Ok (setpar (Z.to_nat first) rm2) /\ rm_wf rm2 /\ rm_cols rm2 = cols /\ rm_firstdatacol rm2 = first /\
  length (rm_col rm2) = length (rm_col rm) /\ (forall x, 0 <= x < first -> dat (setpar (Z.to_nat first) rm2) x = dat o x) /\
  (forall x, 0 <= x < cols -> skel (colat rm2 x) = skel (colat rm x)) /\ spots rm2 = spots rm.
Proof using All.
  intros (E1 & L1 & H1) (E2 & L2 & H2). pose proof (wf_np _ Hwf). pose proof (wf_first _ Hwf). pose proof (wf_cols _ Hwf).
  assert (Ec : rm_cols rm2 = cols) by (by rewrite E2, E1). assert (Ef : rm_firstdatacol rm2 = first) by (by rewrite E2, E1).
  destruct Hfit as (Hwo & Eco & Efo & Eso).
  assert (Ec1 : rm_cols rm1 = cols) by (by rewrite E1). assert (Ef1 : rm_firstdatacol rm1 = first) by (by rewrite E1).
  assert (Hat : forall x, 0 <= x -> colat rm2 x =
    if x <? first then set_rc_data (zio_buf_alloc (siz rm x)) (colat rm x) else if x <? cols then set_rc_data (dat o x) (colat rm x) else colat rm x).
  { intros x Hx. rewrite H2, Ec1, Ef1, H1 by lia. destruct (Z.ltb_spec x first).
    - by rewrite (proj2 (Z.leb_gt _ _)) by lia.
    - by rewrite (proj2 (Z.leb_le _ _)) by lia. }
  assert (Hsp : spots rm2 = spots rm) by (apply spots_intro; [done|done|lia|]; intros x Hx; rewrite Hat by done; by case_ifs).
  assert (Hdat : forall x, first <= x < cols -> dat rm2 x = dat o x).
  { intros x Hx. by rewrite dat_colat, Hat, (proj2 (Z.ltb_ge _ _)), (proj2 (Z.ltb_lt _ _)) by lia. }
  assert (Hw2 : rm_wf rm2).
  { apply (spots_wf _ rm); [done|done|]. intros x Hx. destruct (wf_col _ Hwo x) as (_ & _ & ? & ?); [lia|].
    destruct (wf_col _ Hwf x Hx) as (? & _). destruct (Z.lt_ge_cases x first).
    - rewrite dat_colat, Hat, (proj2 (Z.ltb_lt _ _)) by lia. by apply Halloc.
    - rewrite Hdat, <- Eso by lia. done. }
  split_and!; try done; [rewrite generate_ok by done; by rewrite Ef|lia|..].
  - intros x Hx. rewrite <- (Z2Nat.id x) at 1 by lia. rewrite setpar_parity by lia.
    rewrite (parity_col_ext _ o) by (done || congruence || (intros; rewrite (spots_siz _ _ _ Hsp); done) || (intros; apply Hdat; lia)).
    symmetry. apply Hpo. lia.
  - intros x Hx. rewrite Hat by lia. by case_ifs.
Qed.

Lemma with_data_spots a b d : with_data d a b -> spots b = spots a.
Proof.
  intros (E & L & H). apply spots_intro; [by rewrite E|by rewrite E|done|]. intros x Hx. rewrite H by done. by case_if as F.
Qed.

Lemma fresh_spots rm1 : fresh_parity rm1 -> spots rm1 = spots rm.
Proof.
  intros (E & L & H). apply spots_intro; [by rewrite E|by rewrite E|done|]. intros x Hx. rewrite H by done. by case_ifs.
Qed.

(** The columns once everything is back in place. *)
Lemma back_in_place rm2 rm3 rm4 : let rms := setpar (Z.to_nat first) rm2 in
  rm_wf rm2 -> rm_cols rm2 = cols -> rm_firstdatacol rm2 = first ->
  (forall x, 0 <= x < first -> dat rms x = dat o x) -> (forall x, 0 <= x < cols -> skel (colat rm2 x) = skel (colat rm x)) ->
  (forall x, 0 <= x -> colat rm3 x = if x <? first then set_rc_data (dat rm x) (set_rc_gdata (Some (dat rms x)) (colat rms x)) else colat rms x) ->
  rm_cols rm3 = cols -> rm_firstdatacol rm3 = first -> with_data rm rm3 rm4 ->
  forall x, 0 <= x < cols -> colat rm4 x = if x <? first then set_rc_gdata (Some (dat o x)) (colat rm x) else colat rm x.
Proof.
  intros rms Hw2 Ec2 Ef2 Hp Hsk H3 Ec3 Ef3 (_ & _ & H4) x Hx. rewrite H4, Ec3, Ef3, H3 by lia.
  assert (Hd : set_rc_data (dat rm x) (colat rms x) = colat rm x).
  { rewrite (set_data_skel _ _ (colat rm x)), dat_colat; [apply set_data_same|]. rewrite <- Hsk by done.
    apply shape_colat, shape_setpar. }
  destruct (Z.ltb_spec x first).
  - rewrite (proj2 (Z.leb_gt _ _)), Hp by lia. cbn [andb]. by rewrite <- Hd.
  - rewrite (proj2 (Z.leb_le _ _)), (proj2 (Z.ltb_lt _ _)) by lia. done.
Qed.

Lemma finish_first : rc_gdata (colat rm 0) = None -> rm_datacopy rm = Some (io_buffer rm) -> forall c, 0 <= c < first ->
  wp (vdev_raidz_cksum_finish zio_buf_alloc rm c (Some (io_buffer o))) (fun '(rm', r) => keep_good rm' /\ spots rm' = spots rm /\ r = Some (dat o c, dat rm c)).
Proof using All.
  intros Hg Hcopy c Hc. pose proof (wf_np _ Hwf). pose proof (wf_first _ Hwf). pose proof (wf_cols _ Hwf). pose proof Hfit as (Hwo & Eco & Efo & Eso).
  unfold vdev_raidz_cksum_finish. rewrite col_data_ok by lia. bnd. rewrite (proj2 (Z.ltb_lt _ _)) by lia.
  destruct (rd_colat rm 0) as (-> & _); [lia|]. bnd. rewrite Hg. apply wp_bind, wp_bind.
  eapply wp_mono; [by apply save_parity|]. intros [rm1 bad] [-> Hf1]. apply wp_bind. pose proof Hf1 as (E1 & L1 & _).
  eapply wp_mono.
  { apply (cols_from_ok o rm1); [by split_and!|by rewrite E1|by rewrite E1| |rewrite E1; cbn; lia].
    intros x. by rewrite (spots_siz _ _ _ (fresh_spots rm1 Hf1)). }
  intros rm2 H2. destruct (good_parity rm1 rm2 Hf1 H2) as (-> & Hw2 & Ec2 & Ef2 & L2 & Hpar & Hsk & Hsp2). bnd.
  apply wp_bind. eapply wp_mono; [apply restore_parity; [by rewrite setpar_first|by rewrite setpar_length]|].
  intros rm3 (E3 & L3 & H3). assert (Ecopy : rm_datacopy rm3 = Some (io_buffer rm)).
  { destruct H2 as (E2 & _). by rewrite E3, setpar_col, E2, E1. }
  rewrite Ecopy. assert (Ec3 : rm_cols rm3 = cols) by (rewrite E3, setpar_col; done).
  assert (Ef3 : rm_firstdatacol rm3 = first) by (rewrite E3, setpar_col; done).
  assert (Hsp3 : spots rm3 = spots rm).
  { rewrite <- Hsp2, <- (outline_spots _ _ (shape_outline _ _ (shape_setpar (Z.to_nat first) rm2))).
    apply spots_intro; [by rewrite E3|by rewrite E3|by rewrite setpar_length, L3|]. intros x Hx. rewrite H3 by done. by case_if as F. }
  eapply wp_mono; [apply (cols_from_ok rm rm3); [by split_and!|done|done|intros; by rewrite (spots_siz _ _ _ Hsp3)|lia]|].
  intros rm4 H4. pose proof (back_in_place rm2 rm3 rm4 Hw2 Ec2 Ef2 Hpar Hsk H3 Ec3 Ef3 H4) as Hat. pose proof H4 as (E4 & L4 & _).
  destruct (rd_colat rm4 c) as (-> & _); [lia|]. bnd. rewrite Hat, (proj2 (Z.ltb_lt c first)) by lia. cbn [rc_gdata set_rc_gdata wp].
  assert (Hsp4 : spots rm4 = spots rm) by (by rewrite (with_data_spots _ _ _ H4)).
  split; [|done]. assert (Hw4 : rm_wf rm4).
  { apply (spots_wf _ rm); [done|done|]. intros x Hx. rewrite dat_colat, Hat by done.
    destruct (wf_col _ Hwf x Hx) as (_ & _ & ? & ?). case_ifs; cbn [rc_data set_rc_gdata]; by rewrite <- dat_colat. }
  split_and!; [done|rewrite E4; cbn [rm_datacopy set_rm_col]; congruence|by rewrite E4|by rewrite E4|exact Hat].
Qed.

Lemma offset_ok c : first <= c < cols ->
  for_range first c (fun x off => n ← col_size rm x; Ok (off + n)) 0 = Ok (zlen (upto o c)).
Proof using Hwf Hfit.
  intros Hc. pose proof (wf_np _ Hwf). pose proof (wf_cols _ Hwf). destruct Hfit as (Hwo & Eco & Efo & Eso).
  apply for_range_fun with (g := fun i => zlen (upto o i)); [lia| |by rewrite <- Efo, upto_first|done].
  intros i Hi. rewrite col_size_ok by lia. bnd. by rewrite upto_len, Eso by (done || lia).
Qed.
End finish.
End report.

(** A map whose reports can be finished: the data columns are kept aside, and
    the parity of the good data is either not known yet or kept as well. *)
Definition reportable (o rm : raidz_map) : Prop :=
  rm_wf rm /\ fits rm o /\ rm_datacopy rm = Some (io_buffer rm) /\
  (rc_gdata (colat rm 0) = None \/ forall x, 0 <= x < rm_firstdatacol rm -> rc_gdata (colat rm x) = Some (dat o x)).

Lemma fits_same rm rm' o : fits rm o -> rm_cols rm' = rm_cols rm -> rm_firstdatacol rm' = rm_firstdatacol rm ->
  (forall c, siz rm' c = siz rm c) -> fits rm' o.
Proof. intros (Hw & Ec & Ef & Es) Ec' Ef' Es'. split; [done|]. split; [congruence|]. split; [congruence|]. intros c. by rewrite Es, Es'. Qed.

Lemma keep_reportable rm o rm' : reportable o rm -> spots rm' = spots rm -> keep_good rm o rm' -> reportable o rm'.
Proof.
  intros (Hw & Hf & Hc & _) Hsp (Hw' & Ed & Ec & Ef & Hat). pose proof (wf_np _ Hw). pose proof (wf_first _ Hw).
  split; [done|]. split; [by apply (fits_same rm); [| | |intros; apply spots_siz]|]. split.
  - rewrite Ed, Hc. f_equal. apply io_buffer_ext; try done. intros c Hr. rewrite !dat_colat, Hat by lia. by case_if as F.
  - right. intros x Hx. rewrite Ef in Hx. rewrite Hat, (proj2 (Z.ltb_lt _ _)) by lia. done.
Qed.

(** C29: a checksum report is finished with the right pair of contents: for each
    column, data or parity, what it held when the report was started, and what
    it should have held given the good data.  The data of the columns is left as
    it was, and the map is still one whose reports can be finished, so that those
    of an I/O can be finished one after the other in any order. *)
Theorem vdev_raidz_cksum_finish_correct zio_buf_alloc rm o c :
  allocates zio_buf_alloc -> reportable o rm -> parity_ok o -> 0 <= c < rm_cols rm ->
  exists rm' good, vdev_raidz_cksum_finish zio_buf_alloc rm c (Some (io_buffer o)) = Ok (rm', Some (good, dat rm c)) /\
    take (Z.to_nat (siz rm c)) good = dat o c /\ reportable o rm' /\ forall x, 0 <= x < rm_cols rm -> dat rm' x = dat rm x.
Proof.
  intros Ha Hrep Hpo Hc. pose proof Hrep as (Hw & Hf & Hcopy & Hg). pose proof Hf as (Hwo & Eco & Efo & Eso).
  pose proof (wf_np _ Hw). pose proof (wf_cols _ Hw).
  assert (Htake : take (Z.to_nat (siz rm c)) (dat o c) = dat o c).
  { rewrite <- Eso. destruct (wf_col _ Hwo c) as (_ & _ & L & _); [lia|]. apply take_ge. lia. }
  destruct (Z.lt_ge_cases c (rm_firstdatacol rm)) as [Hlt|Hge].
  - destruct Hg as [Hg|Hg].
    + destruct (wp_elim _ _ (finish_first zio_buf_alloc Ha rm Hw o Hf Hpo Hg Hcopy c ltac:(lia))) as ([rm' r] & E & Hk & Hsp & ->).
      exists rm', (dat o c). split; [done|]. split; [done|]. split; [by apply (keep_reportable rm)|].
      intros x Hx. destruct Hk as (_ & _ & _ & _ & Hat). rewrite !dat_colat, Hat by done. by case_if as F.
    + exists rm, (dat o c). unfold vdev_raidz_cksum_finish. rewrite col_data_ok by lia. bnd. rewrite (proj2 (Z.ltb_lt _ _)) by lia.
      destruct (rd_colat rm 0) as (-> & _); [lia|]. bnd. rewrite Hg by lia. bnd.
      destruct (rd_colat rm c) as (-> & _); [lia|]. bnd. by rewrite Hg by lia.
  - exists rm. eexists. unfold vdev_raidz_cksum_finish. rewrite col_data_ok by lia. bnd. rewrite (proj2 (Z.ltb_ge _ _)) by lia.
    rewrite (offset_ok rm Hw o Hf) by lia. bnd. split; [done|]. split; [|done]. rewrite Nat2Z.id, <- Eso. apply slice; [done|lia].
Qed.

Definition ex_good : raidz_map := stripe ex_buf 3 3 1 8 16 ex_data.
Definition ex_rep : raidz_map := set_rm_datacopy (Some (io_buffer ex_rm)) ex_rm.

Lemma vdev_raidz_cksum_finish_correct_witness : exists rm' good,
  vdev_raidz_cksum_finish ex_buf ex_rep 0 (Some (io_buffer ex_good)) = Ok (rm', Some (good, dat ex_rep 0)) /\ take 8 good = dat ex_good 0.
Proof.
  destruct (stripe_ok ex_buf ex_buf_ok 3 3 1 8 16 ex_data (proj1 ex_trip_ok)) as (Hw & Hp & _).
  destruct (vdev_raidz_cksum_finish_correct ex_buf ex_rep ex_good 0) as (rm' & good & E & Ht & _).
  - exact ex_buf_ok.
  - split; [apply wf_datacopy; exact ex_rm_ok|]. split; [|split; [reflexivity|left; reflexivity]].
    split; [exact Hw|]. split; [reflexivity|]. split; [reflexivity|]. intros c. apply spots_siz. reflexivity.
  - exact Hp.
  - vm_compute. split; [discriminate|reflexivity].
  - exists rm', good. split; [exact E|exact Ht].
Defined.

(** ** Release of the map *)

(** The holders of a map: the I/O it belongs to, and each of its reports. *)
Inductive holder := HVsd | HReport.

Fixpoint release (hs : list holder) (rm : raidz_map) : list bool :=
  match hs with
  | [] => []
  | h :: hs => let '(rm, freed) := match h with HVsd => vdev_raidz_map_free_vsd rm | HReport => vdev_raidz_cksum_free rm end in
               freed :: release hs rm
  end.

Lemma release_reports n : forall rm, rm_reports rm = Z.of_nat (S n) -> rm_freed rm = true ->
  release (replicate (S n) HReport) rm = replicate n false ++ [true].
Proof.
  induction n as [|n IH]; intros rm Hr Hf.
  - cbn -[Z.sub]. by rewrite Hr, Hf.
  - change (replicate (S (S n)) HReport) with (HReport :: replicate (S n) HReport). cbn [release vdev_raidz_cksum_free].
    rewrite IH; cbn [rm_reports rm_freed set_rm_reports]; [|lia|done]. rewrite (proj2 (Z.eqb_neq _ 0)) by lia. done.
Qed.

(** A map is freed exactly once, by the last of its holders, in whatever
    order the I/O and its reports let go of it. *)
Theorem release_frees_once n : forall hs rm, rm_reports rm = Z.of_nat n -> rm_freed rm = false ->
  Permutation (HVsd :: replicate n HReport) hs -> release hs rm = replicate n false ++ [true].
Proof.
  induction n as [|n IH]; intros hs rm Hr Hf Hp.
  - apply Permutation_length_1_inv in Hp as ->. cbn. by rewrite Hr.
  - destruct hs as [|[] hs]; [by apply Permutation_length in Hp| |].
    + apply Permutation_cons_inv in Hp. assert (E : hs = replicate (S n) HReport).
      { symmetry. apply (replicate_Permutation _ _ _ Hp). }
      subst. cbn [release vdev_raidz_map_free_vsd]. rewrite release_reports by done. cbn [rm_reports set_rm_freed]. rewrite Hr. done.
    + assert (Hp' : Permutation (HVsd :: replicate n HReport) hs).
      { apply (Permutation_cons_inv (a := HReport)). rewrite <- Hp. constructor. }
      cbn [release vdev_raidz_cksum_free]. rewrite IH; cbn [rm_reports rm_freed set_rm_reports]; [|lia|done|done].
      rewrite Hf, andb_false_r. done.
Qed.

Lemma release_frees_once_witness : release [HReport; HVsd; HReport] (set_rm_reports 2 ex_rep) = [false; false; true].
Proof.
  apply (release_frees_once 2 [HReport; HVsd; HReport] (set_rm_reports 2 ex_rep)); [reflexivity|reflexivity|]. constructor.
Defined.

(** ** Opening *)

Definition opened (cvd : child) : bool := vdev_open_error cvd =? 0.
Definition attained {A} (le : Z -> Z -> Prop) (f : A -> Z) (l : list A) (v : Z) : Prop :=
  (forall x, In x l -> le v (f x)) /\ exists x, In x l /\ v = f x.

Definition sized (cvd : child) : Prop := opened cvd = true -> 0 < vdev_asize cvd < 2 ^ 64 /\ 0 < vdev_max_asize cvd < 2 ^ 64 /\ 0 <= vdev_ashift cvd.

(** [MIN(x - 1, y - 1) + 1] in unsigned arithmetic: zero counts as infinite. *)
Lemma min_pred (f : child -> Z) l x v : (forall y, In y l -> 0 < f y < 2 ^ 64) -> 0 < f x < 2 ^ 64 ->
  (l = [] /\ v = 0 \/ attained Z.le f l v) -> attained Z.le f (l ++ [x]) (u64 (Z.min (u64 (v - 1)) (u64 (f x - 1)) + 1)).
Proof.
  intros Hl Hx Hv. rewrite (small (f x - 1)) by lia. destruct Hv as [[-> ->]|[Hle (y & Hy & ->)]].
  - change (u64 (0 - 1)) with (2 ^ 64 - 1). rewrite Z.min_r, small by lia. cbn. split; [intros y [<-|[]]; lia|exists x; split; [by left|lia]].
  - specialize (Hl y Hy). rewrite (small (f y - 1)), small by lia. split.
    + intros y' [Hy'|[<-|[]]]%in_app_iff; [specialize (Hle y' Hy')|]; lia.
    + destruct (Z.le_gt_cases (f y) (f x)); [exists y|exists x]; rewrite in_app_iff; cbn; (split; [auto|lia]).
Qed.

Definition open_inv (l : list child) (acc : Z * Z * Z * Z * Z) : Prop :=
  let '(asize, max_asize, ashift, lasterror, numerrors) := acc in let g := List.filter opened l in
  (g = [] /\ asize = 0 \/ attained Z.le vdev_asize g asize) /\ (g = [] /\ max_asize = 0 \/ attained Z.le vdev_max_asize g max_asize) /\
  (g = [] /\ ashift = 0 \/ attained Z.ge vdev_ashift g ashift) /\ numerrors = zlen l - zlen g /\ (0 < numerrors -> lasterror <> 0).

Lemma open_children_ok l : Forall sized l -> open_inv l (fold_left open_child l (0, 0, 0, 0, 0)).
Proof.
  induction l as [|x l IH] using rev_ind; intros Hs.
  { split_and!; auto. }
  apply Forall_app in Hs as [Hs Hx%List.Forall_inv]. specialize (IH Hs). rewrite fold_left_app. cbn [fold_left].
  destruct (fold_left open_child l _) as [[[[a m] s] le] ne]. destruct IH as (Ha & Hm & Hsh & Hne & Hle).
  unfold open_inv, open_child. rewrite List.filter_app. cbn [List.filter].
  change (vdev_open_error x =? 0) with (opened x). destruct (opened x) eqn:Eo; cbn [negb].
  - destruct (Hx Eo) as (H1 & H2 & H3).
    assert (Hin : forall y, In y (List.filter opened l) -> 0 < vdev_asize y < 2 ^ 64 /\ 0 < vdev_max_asize y < 2 ^ 64).
    { intros y [Hy Hoy]%filter_In. rewrite List.Forall_forall in Hs. destruct (Hs y Hy Hoy) as (? & ? & _). done. }
    split; [right; apply min_pred; [intros y Hy; by apply Hin|done|done]|].
    split; [right; apply min_pred; [intros y Hy; by apply Hin|done|done]|].
    split; [right|by rewrite !length_app; cbn; split; [lia|]].
    destruct Hsh as [[-> ->]|[Hge (y & Hy & ->)]].
    + rewrite Z.max_r by done. split; [intros y [<-|[]]; lia|exists x; split; [by left|done]].
    + split; [intros y' [Hy'|[<-|[]]]%in_app_iff; [specialize (Hge y' Hy')|]; lia|].
      destruct (Z.le_gt_cases (vdev_ashift x) (vdev_ashift y)); [exists y|exists x]; rewrite in_app_iff; cbn; (split; [auto|lia]).
  - rewrite app_nil_r, length_app. cbn [length]. unfold opened in Eo. split_and!; try done; lia.
Qed.

(** Opening a RAID-Z vdev fails exactly when its configuration is invalid
    or more children than [nparity] cannot be opened; otherwise its size is the
    number of children times the size of the smallest child that opened, for
    the maximal size likewise, and its sectors are those of the child with the
    largest ones. *)
Theorem vdev_raidz_open_correct nparity children :
  Forall sized children -> 0 <= nparity ->
  (forall cvd, In cvd children -> vdev_asize cvd * zlen children < 2 ^ 64 /\ vdev_max_asize cvd * zlen children < 2 ^ 64) ->
  let good := List.filter opened children in
  let '(error, aux, (asize, max_asize, ashift)) := vdev_raidz_open nparity children 0 0 0 in
  if (nparity <=? VDEV_RAIDZ_MAXPARITY) && (nparity <? zlen children) && (zlen children - zlen good <=? nparity) then
    error = 0 /\ aux = None /\ (exists a, asize = a * zlen children /\ attained Z.le vdev_asize good a) /\
    (exists m, max_asize = m * zlen children /\ attained Z.le vdev_max_asize good m) /\ attained Z.ge vdev_ashift good ashift
  else error <> 0 /\ aux <> None.
Proof.
  intros Hs Hn Hb good. unfold vdev_raidz_open. destruct (Z.ltb_spec VDEV_RAIDZ_MAXPARITY nparity) as [H3|H3]; cbn [orb].
  { by rewrite (proj2 (Z.leb_gt _ _)) by lia. }
  rewrite (proj2 (Z.leb_le _ _)) by lia. cbn [andb]. destruct (Z.ltb_spec (zlen children) (nparity + 1)).
  { by rewrite (proj2 (Z.ltb_ge _ _)) by lia. }
  rewrite (proj2 (Z.ltb_lt nparity _)) by lia. cbn [andb].
  pose proof (open_children_ok children Hs) as Hinv.
  destruct (fold_left open_child children _) as [[[[a m] s] le] ne]. destruct Hinv as (Ha & Hm & Hsh & Hne & Hle). fold good in Ha, Hm, Hsh, Hne.
  rewrite Hne. destruct (Z.ltb_spec nparity (zlen children - zlen good)) as [Hbad|Hok].
  { rewrite (proj2 (Z.leb_gt _ _)) by lia. split; [apply Hle; lia|done]. }
  rewrite (proj2 (Z.leb_le _ _)) by lia. assert (Hg : good <> []) by (intros E; rewrite E in Hok; cbn in Hok; lia).
  destruct Ha as [[? _]|Ha]; [done|]. destruct Hm as [[? _]|Hm]; [done|]. destruct Hsh as [[? _]|Hsh]; [done|].
  assert (Hin : forall y, In y good -> 0 < vdev_asize y /\ 0 < vdev_max_asize y /\ vdev_asize y * zlen children < 2 ^ 64 /\ vdev_max_asize y * zlen children < 2 ^ 64).
  { intros y [Hy Hoy]%filter_In. rewrite List.Forall_forall in Hs. destruct (Hs y Hy Hoy) as (? & ? & _). destruct (Hb y Hy). lia. }
  split; [done|]. split; [done|]. split; [exists a|split; [exists m|done]]; (split; [|done]).
  - destruct Ha as (_ & y & Hy & ->). destruct (Hin y Hy) as (? & ? & ? & ?). apply small. nia.
  - destruct Hm as (_ & y & Hy & ->). destruct (Hin y Hy) as (? & ? & ? & ?). apply small. nia.
Qed.

Lemma vdev_raidz_open_correct_witness : let cs := [Child 0 100 110 9; Child EIO 0 0 0; Child 0 80 120 12] in
  vdev_raidz_open 1 cs 0 0 0 = (0, None, (240, 330, 12)) /\ attained Z.ge vdev_ashift (List.filter opened cs) 12.
Proof.
  intros cs. pose proof (vdev_raidz_open_correct 1 cs) as H. split; [vm_compute; reflexivity|].
  destruct H as (_ & _ & _ & _ & H).
  - repeat constructor; discriminate.
  - discriminate.
  - intros c Hc. repeat (destruct Hc as [<-|Hc]; [vm_compute; split; reflexivity|]). destruct Hc.
  - exact H.
Defined.
End RaidzReport.
