(* ===== verification/Avl.v ===== *)
(** AVL trees (module/avl/avl.c): nodes in memory, linked by pointers to their
    children and their parent. *)

From stdpp Require Export gmap.
From S2P Require Import Prelude.
Open Scope Z_scope.

Module Avl.

(** ** Data *)

(** An address; [AVL_NODE2DATA] and [AVL_DATA2NODE] shift it by a constant, so
    that a node stands for the datum it is part of. *)
Definition NULL : Z := 0.

(** Children are indexed by [0] and [1], here [false] and [true]. *)
Record avl_node := AvlNode {
  avl_child0 : Z;
  avl_child1 : Z;
  avl_parent : Z;
  avl_child_index : bool;
  avl_balance : Z }.

Definition avl_child (n : avl_node) (d : bool) : Z := if d then avl_child1 n else avl_child0 n.

(** A tree, and the memory its nodes lie in. *)
Record avl_tree := AvlTree {
  avl_root : Z;
  avl_numnodes : Z;
  avl_nodes : gmap Z avl_node }.

(** Where a node goes that is not in the tree: the parent it would have, and
    which child of it. *)
Definition avl_index : Type := Z * bool.

Definition AVL_BEFORE := false.
Definition AVL_AFTER := true.

Definition avl_child2balance (d : bool) : Z := if d then 1 else -1.
Definition avl_balance2child (i : Z) : bool := i =? 2.

(** ** Memory *)

Definition get (t : avl_tree) (p : Z) : res avl_node :=
  match avl_nodes t !! p with Some n => Ok n | None => Fault FOob end.
Definition mod_node (t : avl_tree) (p : Z) (f : avl_node -> avl_node) : res avl_tree :=
  match avl_nodes t !! p with
  | Some _ => Ok (AvlTree (avl_root t) (avl_numnodes t) (alter f p (avl_nodes t)))
  | None => Fault FOob
  end.
Definition set_root (t : avl_tree) (p : Z) : avl_tree := AvlTree p (avl_numnodes t) (avl_nodes t).
Definition set_numnodes (t : avl_tree) (k : Z) : avl_tree := AvlTree (avl_root t) k (avl_nodes t).
Definition set_nodes (t : avl_tree) (h : gmap Z avl_node) : avl_tree := AvlTree (avl_root t) (avl_numnodes t) h.

Definition node_child (d : bool) (x : Z) (n : avl_node) : avl_node :=
  if d then AvlNode (avl_child0 n) x (avl_parent n) (avl_child_index n) (avl_balance n)
  else AvlNode x (avl_child1 n) (avl_parent n) (avl_child_index n) (avl_balance n).
Definition node_parent (x : Z) (n : avl_node) : avl_node :=
  AvlNode (avl_child0 n) (avl_child1 n) x (avl_child_index n) (avl_balance n).
Definition node_index (d : bool) (n : avl_node) : avl_node :=
  AvlNode (avl_child0 n) (avl_child1 n) (avl_parent n) d (avl_balance n).
Definition node_balance (b : Z) (n : avl_node) : avl_node :=
  AvlNode (avl_child0 n) (avl_child1 n) (avl_parent n) (avl_child_index n) b.

Definition set_child (t : avl_tree) (p : Z) (d : bool) (x : Z) : res avl_tree := mod_node t p (node_child d x).
Definition AVL_SETPARENT (t : avl_tree) (p x : Z) : res avl_tree := mod_node t p (node_parent x).
Definition AVL_SETCHILD (t : avl_tree) (p : Z) (d : bool) : res avl_tree := mod_node t p (node_index d).
Definition AVL_SETBALANCE (t : avl_tree) (p b : Z) : res avl_tree := mod_node t p (node_balance b).

(** No walk along pointers visits more nodes than there are. *)
Definition fuel (t : avl_tree) : nat := S (size (avl_nodes t)).

(** ** Traversal *)

(** Follow the children on one side as far as possible. *)
Definition descend (t : avl_tree) (d : bool) (node : Z) : res Z :=
  loop (fuel t) (fun node => n ← get t node; Ok (if negb (avl_child n d =? NULL) then inl (avl_child n d) else inr node)) node.

Definition avl_walk (t : avl_tree) (node : Z) (left : bool) : res Z :=
  let right := negb left in
  if node =? NULL then Ok NULL
  else
    n ← get t node;
    if negb (avl_child n left =? NULL) then descend t right (avl_child n left)
    else
      loop (fuel t) (fun node =>
        n ← get t node;
        let was_child := avl_child_index n in
        let node := avl_parent n in
        Ok (if node =? NULL then inr NULL else if Bool.eqb was_child right then inr node else inl node)) node.

Definition avl_end (t : avl_tree) (d : bool) : res Z :=
  loop (fuel t) (fun '(node, prev) =>
    if negb (node =? NULL) then n ← get t node; Ok (inl (avl_child n d, node)) else Ok (inr prev)) (avl_root t, NULL).
Definition avl_first (t : avl_tree) : res Z := avl_end t false.
Definition avl_last (t : avl_tree) : res Z := avl_end t true.

Definition avl_nearest (t : avl_tree) (where_ : avl_index) (direction : bool) : res Z :=
  let '(node, child) := where_ in
  if node =? NULL then Ok NULL
  else if negb (Bool.eqb child direction) then Ok node
  else avl_walk t node direction.

(** [avl_find]: [compar] compares the value looked for with that of a node.  The
    node, or [NULL] and the place for it. *)
Definition avl_find (t : avl_tree) (compar : Z -> Z) : res (Z * avl_index) :=
  loop (fuel t) (fun '(node, prev, child) =>
    if negb (node =? NULL) then
      let diff := compar node in
      if diff =? 0 then Ok (inr (node, (NULL, false)))
      else
        n ← get t node;
        let child := avl_balance2child (1 + diff) in
        Ok (inl (avl_child n child, node, child))
    else Ok (inr (NULL, (prev, child)))) (avl_root t, NULL, false).

(** ** Rotation *)

(** Make [x], if there is one, the child [d] of [p]. *)
Definition adopt (t : avl_tree) (x p : Z) (d : bool) : res avl_tree :=
  if negb (x =? NULL) then t ← AVL_SETPARENT t x p; AVL_SETCHILD t x d else Ok t.

(** Point the parent, or the tree itself, at [x]. *)
Definition put_below (t : avl_tree) (parent : Z) (which_child : bool) (x : Z) : res avl_tree :=
  if negb (parent =? NULL) then set_child t parent which_child x else Ok (set_root t x).

(** The first case: the child is not heavy on the inner side. *)
Definition rotate_single (t : avl_tree) (node parent child cright : Z) (which_child left : bool) (child_bal right_heavy : Z) :
    res (avl_tree * bool) :=
  let right := negb left in
  let child_bal := child_bal + right_heavy in
  t ← set_child t node left cright;
  t ← adopt t cright node left;
  t ← set_child t child right node;
  t ← AVL_SETBALANCE t node (- child_bal);
  t ← AVL_SETCHILD t node right;
  t ← AVL_SETPARENT t node child;
  t ← AVL_SETBALANCE t child child_bal;
  t ← AVL_SETCHILD t child which_child;
  t ← AVL_SETPARENT t child parent;
  t ← put_below t parent which_child child;
  Ok (t, child_bal =? 0).

(** The second case: it is, and the grandchild moves up. *)
Definition rotate_double (t : avl_tree) (node parent child gchild : Z) (which_child left : bool) (left_heavy right_heavy : Z) :
    res (avl_tree * bool) :=
  let right := negb left in
  g ← get t gchild;
  let gleft := avl_child g left in
  let gright := avl_child g right in
  t ← set_child t node left gright;
  t ← adopt t gright node left;
  t ← set_child t child right gleft;
  t ← adopt t gleft child right;
  g ← get t gchild;
  let balance := avl_balance g in
  t ← set_child t gchild left child;
  t ← AVL_SETBALANCE t child (if balance =? right_heavy then left_heavy else 0);
  t ← AVL_SETPARENT t child gchild;
  t ← AVL_SETCHILD t child left;
  t ← set_child t gchild right node;
  t ← AVL_SETBALANCE t node (if balance =? left_heavy then right_heavy else 0);
  t ← AVL_SETPARENT t node gchild;
  t ← AVL_SETCHILD t node right;
  t ← AVL_SETBALANCE t gchild 0;
  t ← AVL_SETPARENT t gchild parent;
  t ← AVL_SETCHILD t gchild which_child;
  t ← put_below t parent which_child gchild;
  Ok (t, true).

(** The tree, and whether the subtree was reduced in height. *)
Definition avl_rotation (t : avl_tree) (node balance : Z) : res (avl_tree * bool) :=
  let left := negb (balance <? 0) in
  let right := negb left in
  let left_heavy := Z.shiftr balance 1 in
  let right_heavy := - left_heavy in
  n ← get t node;
  let parent := avl_parent n in
  let child := avl_child n left in
  let which_child := avl_child_index n in
  c ← get t child;
  if negb (avl_balance c =? right_heavy) then
    rotate_single t node parent child (avl_child c right) which_child left (avl_balance c) right_heavy
  else rotate_double t node parent child (avl_child c right) which_child left left_heavy right_heavy.

(** ** Insertion *)

Definition avl_insert (t : avl_tree) (node : Z) (where_ : avl_index) : res avl_tree :=
  let '(parent, which_child) := where_ in
  let t := set_numnodes t (u64 (avl_numnodes t + 1)) in
  let t := set_nodes t (<[node := AvlNode NULL NULL parent which_child 0]> (avl_nodes t)) in
  t ← put_below t parent which_child node;
  loop (fuel t) (fun '(t, parent, which_child) =>
    let node := parent in
    if node =? NULL then Ok (inr t)
    else
      n ← get t node;
      let old_balance := avl_balance n in
      let new_balance := old_balance + avl_child2balance which_child in
      if new_balance =? 0 then t ← AVL_SETBALANCE t node 0; Ok (inr t)
      else if negb (old_balance =? 0) then '(t, _) ← avl_rotation t node new_balance; Ok (inr t)
      else t ← AVL_SETBALANCE t node new_balance; Ok (inl (t, avl_parent n, avl_child_index n))) (t, parent, which_child).

Definition avl_insert_here (t : avl_tree) (new here : Z) (direction : bool) : res avl_tree :=
  n ← get t here;
  '(node, child) ←
    (if negb (avl_child n direction =? NULL) then
       node ← descend t (negb direction) (avl_child n direction); Ok (node, negb direction)
     else Ok (here, direction));
  avl_insert t new (node, child).

Definition avl_add (t : avl_tree) (compar : Z -> Z -> Z) (new : Z) : res avl_tree :=
  '(found, where_) ← avl_find t (compar new);
  if negb (found =? NULL) then Fault FPanic else avl_insert t new where_.

(** ** Removal *)

(** Bring a neighbour of a node with two children into its place.  The node
    moves, as [tmp], to where the neighbour was. *)
Definition remove_swap (t : avl_tree) (delete tmp : Z) (dn : avl_node) : res avl_tree :=
  let left := avl_balance2child (avl_balance dn + 1) in
  let right := negb left in
  node ← descend t right (avl_child dn left);
  n ← get t node;
  let t := set_nodes t (<[tmp := n]> (avl_nodes t)) in
  d ← get t delete;
  t ← mod_node t node (fun _ => d);
  t ← (if avl_child d left =? node then set_child t node left tmp else Ok t);
  n' ← get t node;
  t ← put_below t (avl_parent n') (avl_child_index n') node;
  t ← AVL_SETPARENT t (avl_child n' left) node;
  t ← AVL_SETPARENT t (avl_child n' right) node;
  d ← get t tmp;
  t ← set_child t (avl_parent d) (avl_child_index d) tmp;
  d ← get t tmp;
  let which_child := negb (avl_child d true =? NULL) in
  if negb (avl_child d which_child =? NULL) then AVL_SETPARENT t (avl_child d which_child) tmp else Ok t.

(** Restore the balance above a subtree that has become shorter. *)
Definition remove_rebalance (t : avl_tree) (parent : Z) (which_child : bool) : res avl_tree :=
  loop (fuel t) (fun '(t, parent, which_child) =>
    let node := parent in
    n ← get t node;
    let old_balance := avl_balance n in
    let new_balance := old_balance - avl_child2balance which_child in
    let parent := avl_parent n in
    let which_child := avl_child_index n in
    if old_balance =? 0 then t ← AVL_SETBALANCE t node new_balance; Ok (inr t)
    else
      '(t, stop) ←
        (if new_balance =? 0 then t ← AVL_SETBALANCE t node new_balance; Ok (t, false)
         else '(t, shorter) ← avl_rotation t node new_balance; Ok (t, negb shorter));
      Ok (if (stop : bool) then inr t else if negb (parent =? NULL) then inl (t, parent, which_child) else inr t)) (t, parent, which_child).

(** [tmp] is the address of the local variable of that name. *)
Definition avl_remove (t : avl_tree) (data tmp : Z) : res avl_tree :=
  dn ← get t data;
  '(t, delete) ←
    (if negb (avl_child dn false =? NULL) && negb (avl_child dn true =? NULL) then
       t ← remove_swap t data tmp dn; Ok (t, tmp)
     else Ok (t, data));
  _ ← verify (negb (avl_numnodes t =? 0));
  let t := set_numnodes t (avl_numnodes t - 1) in
  d ← get t delete;
  let parent := avl_parent d in
  let which_child := avl_child_index d in
  let node := if negb (avl_child d false =? NULL) then avl_child d false else avl_child d true in
  t ← adopt t node parent which_child;
  if parent =? NULL then Ok (set_root t node)
  else
    t ← set_child t parent which_child node;
    remove_rebalance t parent which_child.

Definition AVL_REINSERT (t : avl_tree) (compar : Z -> Z -> Z) (obj tmp : Z) : res avl_tree :=
  t ← avl_remove t obj tmp; avl_add t compar obj.

Section update.
Variables (t : avl_tree) (compar : Z -> Z -> Z) (obj tmp : Z).
Definition avl_update_lt : res (avl_tree * bool) :=
  neighbor ← avl_walk t obj AVL_BEFORE;
  if negb (neighbor =? NULL) && (compar obj neighbor <? 0) then t ← AVL_REINSERT t compar obj tmp; Ok (t, true) else Ok (t, false).
Definition avl_update_gt : res (avl_tree * bool) :=
  neighbor ← avl_walk t obj AVL_AFTER;
  if negb (neighbor =? NULL) && (0 <? compar obj neighbor) then t ← AVL_REINSERT t compar obj tmp; Ok (t, true) else Ok (t, false).
Definition avl_update : res (avl_tree * bool) :=
  neighbor ← avl_walk t obj AVL_BEFORE;
  if negb (neighbor =? NULL) && (compar obj neighbor <? 0) then t ← AVL_REINSERT t compar obj tmp; Ok (t, true)
  else
    neighbor ← avl_walk t obj AVL_AFTER;
    if negb (neighbor =? NULL) && (0 <? compar obj neighbor) then t ← AVL_REINSERT t compar obj tmp; Ok (t, true) else Ok (t, false).
End update.

(** ** Creation and destruction *)

Definition avl_create (h : gmap Z avl_node) : avl_tree := AvlTree NULL 0 h.
Definition avl_is_empty (t : avl_tree) : bool := avl_numnodes t =? 0.

(** The cookie of a walk: the parent of the node visited last, and which child
    it was; [(NULL, false)] to begin with, [(NULL, true)] after the root. *)
Definition avl_destroy_nodes (t : avl_tree) (cookie : avl_index) : res (avl_tree * avl_index * Z) :=
  let check_right_side (t : avl_tree) (node parent : Z) :=
    n ← get t node;
    (if negb (avl_child n true =? NULL) then Ok (t, avl_child n true, node) else Ok (t, node, parent) : res (avl_tree * Z * Z)) in
  let '(parent, child) := cookie in
  let next : res ((avl_tree * Z * Z) + (avl_tree * avl_index * Z)) :=
    (if (parent =? NULL) && negb child then
       first ← avl_first t;
       if first =? NULL then Ok (inr (t, (NULL, true), NULL))
       else n ← get t first; r ← check_right_side t first (avl_parent n); Ok (inl r)
     else if parent =? NULL then
       Ok (inr ((if negb (avl_root t =? NULL) then set_numnodes (set_root t NULL) 0 else t), cookie, NULL))
     else
       t ← set_child t parent child NULL;
       _ ← verify (negb (avl_numnodes t <=? 1));
       let t := set_numnodes t (avl_numnodes t - 1) in
       p ← get t parent;
       if child || (avl_child p true =? NULL) then Ok (inl (t, parent, avl_parent p))
       else
         '(node, parent) ← loop (fuel t) (fun '(node, parent) =>
           n ← get t node;
           Ok (if negb (avl_child n false =? NULL) then inl (avl_child n false, node) else inr (node, parent))) (avl_child p true, parent);
         r ← check_right_side t node parent; Ok (inl r)) in
  next ← next;
  match next with
  | inr r => Ok r
  | inl (t, node, parent) =>
      if parent =? NULL then Ok (t, (NULL, true), node)
      else n ← get t node; Ok (t, (parent, avl_child_index n), node)
  end.
End Avl.
