(* ===== verification/AvlPcb.v ===== *)
(** The packed word [avl_pcb] of an AVL node on 64-bit machines, and the packed
    places of [avl_find] (include/sys/avl_impl.h): words that stand for the fields
    of the nodes of [Avl]. *)

From S2P Require Import Prelude Avl.
Import Avl.
Open Scope Z_scope.

Module AvlPcb.

Definition XPARENT (pcb : Z) : Z := Z.land pcb (u64 (Z.lnot 7)).
Definition SETPARENT (pcb p : Z) : Z := Z.lor (Z.land pcb 7) p.
Definition XCHILD (pcb : Z) : Z := Z.land (Z.shiftr pcb 2) 1.
Definition SETCHILD (pcb c : Z) : Z := Z.lor (Z.land pcb (u64 (Z.lnot 4))) (Z.shiftl c 2).
Definition XBALANCE (pcb : Z) : Z := Z.land pcb 3 - 1.
Definition SETBALANCE (pcb b : Z) : Z := Z.lor (Z.land pcb (u64 (Z.lnot 3))) (b + 1).

Definition AVL_INDEX2NODE (x : Z) : Z := Z.land x (u64 (Z.lnot 1)).
Definition AVL_INDEX2CHILD (x : Z) : Z := Z.land x 1.
Definition AVL_MKINDEX (n c : Z) : Z := Z.lor n c.

(** ** Fields of a word *)

Lemma bits_split k a r i : 0 <= k -> 0 <= r < 2 ^ k -> 0 <= i -> Z.testbit (a * 2 ^ k + r) i = if i <? k then Z.testbit r i else Z.testbit a (i - k).
Proof.
  intros Hk Hr Hi. destruct (Z.ltb_spec i k).
  - rewrite <- (Z.mod_pow2_bits_low (a * 2 ^ k + r) k i), <- (Z.mod_pow2_bits_low r k i) by lia. f_equal. rewrite Z.add_comm. by rewrite Z.mod_add by lia.
  - replace (Z.testbit (a * 2 ^ k + r) i) with (Z.testbit (a * 2 ^ k + r) (i - k + k)) by (f_equal; lia). rewrite <- Z.div_pow2_bits by lia.
    by rewrite Z.div_add_l, Z.div_small, Z.add_0_r by lia.
Qed.

Lemma land_split k a r b s : 0 <= k -> 0 <= r < 2 ^ k -> 0 <= s < 2 ^ k -> Z.land (a * 2 ^ k + r) (b * 2 ^ k + s) = Z.land a b * 2 ^ k + Z.land r s.
Proof.
  intros Hk Hr Hs. assert (0 <= Z.land r s < 2 ^ k).
  { rewrite <- (Z.mod_small s (2 ^ k)), <- Z.land_ones, Z.land_assoc, Z.land_ones by lia. apply Z.mod_pos_bound. lia. }
  apply Z.bits_inj'. intros i Hi. rewrite Z.land_spec, !bits_split by lia. case_if as E; by rewrite Z.land_spec.
Qed.

Lemma lor_add k a r : 0 <= k -> 0 <= r < 2 ^ k -> Z.lor (a * 2 ^ k) r = a * 2 ^ k + r.
Proof.
  intros Hk Hr. apply Z.bits_inj'. intros i Hi. replace (a * 2 ^ k) with (a * 2 ^ k + 0) at 1 by lia. rewrite Z.lor_spec, !bits_split by lia.
  case_if as E; [by rewrite Z.bits_0|]. rewrite (proj2 (Z.testbit_false r i ltac:(lia))), orb_false_r; [done|].
  rewrite Z.div_small; [done|]. pose proof (Z.pow_le_mono_r 2 k i). lia.
Qed.

(** A word with the parent, the index and the balance (plus one). *)
Definition word (p : Z) (c : bool) (b : Z) : Z := p + 4 * Z.b2z c + (b + 1).

Definition valid (p b : Z) : Prop := 0 <= p < 2 ^ 64 /\ p mod 8 = 0 /\ -1 <= b <= 1.

(** The word of a node: what [Avl] keeps in three fields. *)
Definition packs (pcb : Z) (n : avl_node) : Prop :=
  pcb = word (avl_parent n) (avl_child_index n) (avl_balance n) /\ valid (avl_parent n) (avl_balance n).

Lemma land_low k a r : 0 <= k -> 0 <= r < 2 ^ k -> Z.land (a * 2 ^ k + r) (2 ^ k - 1) = r.
Proof. intros Hk Hr. replace (2 ^ k - 1) with (Z.ones k) by (rewrite Z.ones_equiv; lia). rewrite Z.land_ones by lia. rewrite Z.add_comm, Z.mod_add, Z.mod_small by lia. done. Qed.

Lemma land_high a m r s : 0 <= a < 2 ^ 61 -> m = (2 ^ 61 - 1) * 2 ^ 3 + s -> 0 <= r < 8 -> 0 <= s < 8 -> Z.land (a * 2 ^ 3 + r) m = a * 2 ^ 3 + Z.land r s.
Proof.
  intros Ha -> Hr Hs. rewrite land_split by lia. do 2 f_equal. change (2 ^ 61 - 1) with (Z.ones 61). rewrite Z.land_ones by lia. by apply Z.mod_small.
Qed.

(** C25: the packed word of a node behaves as the three fields of the unpacked one:
    each macro reads the field it names, and writes it without a change to the
    others, for parents aligned to eight bytes.  Likewise a packed place is the
    node and the child it was made of. *)
Theorem pcb_refines pcb n p c b : packs pcb n -> valid p b ->
  (XPARENT pcb = avl_parent n /\ XCHILD pcb = Z.b2z (avl_child_index n) /\ XBALANCE pcb = avl_balance n) /\
  packs (SETPARENT pcb p) (node_parent p n) /\ packs (SETCHILD pcb (Z.b2z c)) (node_index c n) /\ packs (SETBALANCE pcb b) (node_balance b n) /\
  AVL_INDEX2NODE (AVL_MKINDEX p (Z.b2z c)) = p /\ AVL_INDEX2CHILD (AVL_MKINDEX p (Z.b2z c)) = Z.b2z c.
Proof.
  intros [-> (Hq & Hq8 & Hbal)] (Hp & Hp8 & Hb). set (q := avl_parent n) in *. set (e := avl_balance n) in *.
  assert (Eq : exists m, q = m * 2 ^ 3 /\ 0 <= m < 2 ^ 61) by (exists (q / 8); dlia). destruct Eq as (m & Eq & Hm).
  assert (Ep : exists m', p = m' * 2 ^ 3 /\ 0 <= m' < 2 ^ 61) by (exists (p / 8); dlia). destruct Ep as (m' & Ep & Hm').
  set (r := 4 * Z.b2z (avl_child_index n) + (e + 1)). assert (Hr : 0 <= r < 8) by (unfold r; destruct (avl_child_index n); cbn [Z.b2z]; lia).
  assert (Ew : word q (avl_child_index n) e = m * 2 ^ 3 + r) by (unfold word, r; lia). rewrite Ew. unfold packs, node_parent, node_index, node_balance. cbn [avl_parent avl_child_index avl_balance]. fold q e.
  split_and!; try (unfold valid; split_and!; lia).
  - unfold XPARENT. rewrite (land_high m _ r 0) by (done || lia). rewrite Z.land_0_r. lia.
  - unfold XCHILD. rewrite Z.shiftr_div_pow2 by lia. replace ((m * 2 ^ 3 + r) / 2 ^ 2) with (m * 2 ^ 1 + Z.b2z (avl_child_index n)) by (unfold r; destruct (avl_child_index n); cbn [Z.b2z]; dlia).
    apply (land_low 1 m); [lia|]. destruct (avl_child_index n); cbn [Z.b2z]; lia.
  - unfold XBALANCE. replace (m * 2 ^ 3 + r) with ((m * 2 + Z.b2z (avl_child_index n)) * 2 ^ 2 + (e + 1)) by (unfold r; lia). pose proof (land_low 2 (m * 2 + Z.b2z (avl_child_index n)) (e + 1)) as L. change (2 ^ 2 - 1) with 3 in L. rewrite L by lia. lia.
  - unfold SETPARENT. pose proof (land_low 3 m r) as L. change (2 ^ 3 - 1) with 7 in L. rewrite L, Z.lor_comm, Ep, lor_add by lia. unfold word, r. lia.
  - unfold SETCHILD. rewrite (land_high m _ r 3) by (done || lia). replace (Z.land r 3) with (e + 1). 2: { unfold r. assert (e = -1 \/ e = 0 \/ e = 1) as [-> |[-> | ->]] by lia; by destruct (avl_child_index n). }
    rewrite Z.shiftl_mul_pow2 by lia.
    assert (L : Z.lor (m * 2 ^ 3 + (e + 1)) (Z.b2z c * 2 ^ 2) = m * 2 ^ 3 + (Z.b2z c * 2 ^ 2 + (e + 1))).
    { rewrite <- (lor_add 3 m (e + 1)), <- (lor_add 2 (Z.b2z c)), <- Z.lor_assoc, (Z.lor_comm (e + 1)) by lia. rewrite (lor_add 2), lor_add; [done|lia|destruct c; cbn [Z.b2z]; lia|lia|lia]. }
    rewrite L. unfold word. lia.
  - unfold SETBALANCE. rewrite (land_high m _ r 4) by (done || lia). replace (Z.land r 4) with (Z.b2z (avl_child_index n) * 4).
    2: { unfold r. assert (e = -1 \/ e = 0 \/ e = 1) as [-> |[-> | ->]] by lia; by destruct (avl_child_index n). }
    replace (m * 2 ^ 3 + Z.b2z (avl_child_index n) * 4) with ((m * 2 + Z.b2z (avl_child_index n)) * 2 ^ 2) by lia. rewrite lor_add by lia. unfold word. lia.
  - unfold AVL_INDEX2NODE, AVL_MKINDEX. rewrite Ep, lor_add, (land_high m' _ (Z.b2z c) 6) by (done || (destruct c; cbn [Z.b2z]; lia)).
    replace (Z.land (Z.b2z c) 6) with 0 by (by destruct c). lia.
  - unfold AVL_INDEX2CHILD, AVL_MKINDEX. rewrite Ep, lor_add by (destruct c; cbn [Z.b2z]; lia).
    replace (m' * 2 ^ 3 + Z.b2z c) with (m' * 4 * 2 ^ 1 + Z.b2z c) by lia. apply (land_low 1 (m' * 4)); [lia|destruct c; cbn [Z.b2z]; lia].
Qed.

Lemma pcb_refines_witness : packs (SETPARENT (word 4096 true (-1)) 8192) (node_parent 8192 (AvlNode NULL NULL 4096 true (-1))).
Proof. apply (pcb_refines (word 4096 true (-1)) (AvlNode NULL NULL 4096 true (-1)) 8192 true (-1)); repeat split; done. Defined.
End AvlPcb.
