(* ===== verification/AvlTree.v ===== *)
(** AVL trees as data: what the pointer routines of [Avl] compute.  A tree with a
    hole is a list of frames, from the hole up to the root. *)

From S2P Require Import Prelude Avl.
Import Avl.
Open Scope Z_scope.

Module AvlTree.

(** ** Trees of nodes *)

Inductive tree := E | T (l : tree) (p b : Z) (r : tree).

#[export] Instance tree_eq_dec : EqDecision tree.
Proof. solve_decision. Defined.

Definition root (t : tree) : Z := match t with E => NULL | T _ p _ _ => p end.
Definition kid (d : bool) (t : tree) : tree := match t with E => E | T l _ _ r => if d then r else l end.
Definition bal (t : tree) : Z := match t with E => 0 | T _ _ b _ => b end.
Definition mk (d : bool) (p b : Z) (x s : tree) : tree := if d then T s p b x else T x p b s.

Fixpoint inorder (t : tree) : list Z := match t with E => [] | T l p _ r => inorder l ++ p :: inorder r end.
Fixpoint height (t : tree) : Z := match t with E => 0 | T l _ _ r => 1 + Z.max (height l) (height r) end.
Fixpoint balanced (t : tree) : Prop :=
  match t with E => True | T l _ b r => b = height r - height l /\ -1 <= b <= 1 /\ balanced l /\ balanced r end.

(** ** Trees with a hole *)

(** Which child the hole is of, the node and its balance, the other child. *)
Definition frame : Type := bool * Z * Z * tree.
Definition ctx := list frame.

Fixpoint plug (c : ctx) (t : tree) : tree := match c with [] => t | (d, p, b, s) :: c => plug c (mk d p b t s) end.
Fixpoint lefts (c : ctx) : list Z := match c with [] => [] | (d, p, b, s) :: c => lefts c ++ (if d then inorder s ++ [p] else []) end.
Fixpoint rights (c : ctx) : list Z := match c with [] => [] | (d, p, b, s) :: c => (if d then [] else p :: inorder s) ++ rights c end.

(** The context is balanced around a subtree of height [h]. *)
Fixpoint around (c : ctx) (h : Z) : Prop :=
  match c with
  | [] => True
  | (d, p, b, s) :: c => b = avl_child2balance d * (h - height s) /\ -1 <= b <= 1 /\ balanced s /\ around c (1 + Z.max h (height s))
  end.

Lemma mk_inorder d p b x s : inorder (mk d p b x s) = if d then inorder s ++ p :: inorder x else inorder x ++ p :: inorder s.
Proof. by destruct d. Qed.

Lemma mk_height d p b x s : height (mk d p b x s) = 1 + Z.max (height x) (height s).
Proof. destruct d; cbn; lia. Qed.

Lemma mk_balanced d p b x s : balanced (mk d p b x s) <-> b = avl_child2balance d * (height x - height s) /\ -1 <= b <= 1 /\ balanced x /\ balanced s.
Proof. destruct d; cbn; intuition lia. Qed.

Lemma mk_kids d t : t <> E -> t = mk d (root t) (bal t) (kid d t) (kid (negb d) t).
Proof. by destruct t, d. Qed.

Lemma height_nonneg t : 0 <= height t.
Proof. induction t; cbn; lia. Qed.

Lemma height_pos t : 0 < height t <-> t <> E.
Proof. destruct t as [|l p b r]; cbn; [split; [lia|done]|]. pose proof (height_nonneg l). split; [done|lia]. Qed.

Lemma plug_inorder c : forall t, inorder (plug c t) = lefts c ++ inorder t ++ rights c.
Proof.
  induction c as [|[[[d p] b] s] c IH]; intros t; cbn [plug lefts rights]; [by rewrite app_nil_r|].
  rewrite IH, mk_inorder. destruct d; by rewrite <- ?app_assoc, ?app_nil_r, <- ?app_assoc.
Qed.

Lemma plug_balanced c : forall t, balanced (plug c t) <-> balanced t /\ around c (height t).
Proof.
  induction c as [|[[[d p] b] s] c IH]; intros t; cbn [plug around]; [tauto|]. rewrite IH, mk_balanced, mk_height. tauto.
Qed.

Lemma plug_app c c' t : plug (c ++ c') t = plug c' (plug c t).
Proof. revert t. induction c as [|[[[d p] b] s] c IH]; intros t; cbn; auto. Qed.

Lemma plug_height c : forall t t', height t = height t' -> height (plug c t) = height (plug c t').
Proof. induction c as [|[[[d p] b] s] c IH]; intros t t' H; cbn [plug]; [done|]. apply IH. rewrite !mk_height. lia. Qed.

(** ** Rotation *)

(** The side [d] of the node [p], where [x] is, is too tall. *)
Definition rotate (d : bool) (p : Z) (x s : tree) : tree * bool :=
  let lh := avl_child2balance d in let rh := - lh in
  let cb := bal x + rh in
  if negb (bal x =? rh) then (mk d (root x) cb (kid d x) (mk d p (- cb) (kid (negb d) x) s), cb =? 0)
  else
    let g := kid (negb d) x in
    (mk d (root g) 0 (mk d (root x) (if bal g =? rh then lh else 0) (kid d x) (kid d g))
       (mk d p (if bal g =? lh then rh else 0) (kid (negb d) g) s), true).

Lemma rotate_inorder d p b x s : x <> E -> (bal x = - avl_child2balance d -> kid (negb d) x <> E) ->
  inorder (rotate d p x s).1 = inorder (mk d p b x s).
Proof.
  intros Hx Hg. rewrite (mk_inorder d p b x s). unfold rotate. destruct (Z.eqb_spec (bal x) (- avl_child2balance d)) as [Hb|]; cbn [negb fst].
  - specialize (Hg Hb). destruct x as [|xl cp cb xr]; [done|].
    destruct d; cbn in *; [destruct xl as [|gl g gb gr]|destruct xr as [|gl g gb gr]]; try done; cbn; by rewrite <- ?app_assoc; cbn; rewrite <- ?app_assoc.
  - destruct x as [|xl cp cb xr]; [done|]. destruct d; cbn; by rewrite <- ?app_assoc; cbn; rewrite <- ?app_assoc.
Qed.

(** The tall side is two higher than the other. *)
Lemma rotate_balanced d p x s : balanced x -> balanced s -> height x = height s + 2 ->
  x <> E /\ (bal x = - avl_child2balance d -> kid (negb d) x <> E) /\ balanced (rotate d p x s).1 /\
  ((rotate d p x s).2 = true -> height (rotate d p x s).1 = height x) /\
  ((rotate d p x s).2 = false -> height (rotate d p x s).1 = height x + 1 /\ bal x = 0).
Proof.
  intros Bx Bs Hh. pose proof (height_nonneg s). destruct x as [|xl cp cb xr]; [cbn in Hh; lia|].
  pose proof (height_nonneg xl). pose proof (height_nonneg xr). cbn in Bx, Hh. destruct Bx as (Ecb & Hcb & Bl & Br).
  split; [done|]. unfold rotate. cbn [bal].
  destruct (Z.eqb_spec cb (- avl_child2balance d)) as [Hb|Hb]; cbn [negb fst snd].
  - assert (Hg : kid (negb d) (T xl cp cb xr) <> E) by (destruct d; cbn in *; apply height_pos; lia).
    split; [done|]. destruct (kid (negb d) (T xl cp cb xr)) as [|gl g gb gr] eqn:Ek; [done|].
    pose proof (height_nonneg gl). pose proof (height_nonneg gr).
    destruct d; cbn in *; subst; cbn in *; destruct Bl as (? & ? & ? & ?) || destruct Br as (? & ? & ? & ?);
      case_ifs; split_and!; try done; lia.
  - split; [done|]. destruct d; cbn in *; case_ifs; split_and!; try done; lia.
Qed.

(** ** Insertion *)

(** The subtree in the hole has become one higher. *)
Fixpoint grow (c : ctx) (t : tree) : tree :=
  match c with
  | [] => t
  | (d, p, b, s) :: c =>
      let nb := b + avl_child2balance d in
      if nb =? 0 then plug c (mk d p 0 t s)
      else if negb (b =? 0) then plug c (rotate d p t s).1
      else grow c (mk d p nb t s)
  end.

(** Subtrees that grow are new leaves or have become unbalanced. *)
Definition grown (t : tree) : Prop := balanced t /\ t <> E /\ (bal t <> 0 \/ height t = 1).

Lemma grow_step d p b t s : grown t -> b = avl_child2balance d * (height t - 1 - height s) -> -1 <= b <= 1 ->
  balanced s ->
  match Z.eq_dec (b + avl_child2balance d) 0, Z.eq_dec b 0 with
  | left _, _ => balanced (mk d p 0 t s) /\ height (mk d p 0 t s) = 1 + Z.max (height t - 1) (height s)
  | right _, right _ => height t = height s + 2 /\ balanced (rotate d p t s).1 /\ height (rotate d p t s).1 = 1 + Z.max (height t - 1) (height s)
  | right _, left _ => grown (mk d p (b + avl_child2balance d) t s) /\ height (mk d p (b + avl_child2balance d) t s) = 2 + Z.max (height t - 1) (height s)
  end.
Proof.
  intros (Bt & Ht & Hg) Hb Hr Bs. assert (0 < height t) by (by apply height_pos). pose proof (height_nonneg s).
  destruct (Z.eq_dec _ 0) as [E0|E0]; [|destruct (Z.eq_dec b 0) as [Eb|Eb]].
  - rewrite mk_balanced, mk_height. destruct d; cbn in *; split_and!; try done; lia.
  - rewrite mk_height. split; [|destruct d; cbn in *; lia]. split_and!; [|by destruct d|left; by destruct d].
    rewrite mk_balanced. destruct d; cbn in *; split_and!; try done; lia.
  - assert (Hh : height t = height s + 2) by (destruct d; cbn in *; lia).
    destruct (rotate_balanced d p t s Bt Bs Hh) as (_ & _ & Br & Hs & Hn). split_and!; [done|done|].
    destruct (rotate d p t s).2; [rewrite Hs by done; lia|]. destruct Hn as [_ Hn]; [done|]. lia.
Qed.

Lemma grow_balanced c : forall t, grown t -> around c (height t - 1) -> balanced (grow c t).
Proof.
  induction c as [|[[[d p] b] s] c IH]; intros t Hg Ha; cbn [grow around] in *; [apply Hg|].
  destruct Ha as (Hb & Hr & Bs & Ha). pose proof (grow_step d p b t s Hg Hb Hr Bs) as Hs.
  destruct (Z.eqb_spec (b + avl_child2balance d) 0) as [E0|E0]; destruct (Z.eq_dec (b + avl_child2balance d) 0); try done.
  - destruct Hs as [Bm Hm]. apply plug_balanced. by rewrite Hm.
  - destruct (Z.eqb_spec b 0) as [Eb|Eb]; destruct (Z.eq_dec b 0); try done; cbn [negb].
    + destruct Hs as [Hm Hh]. apply IH; [done|]. rewrite Hh. by replace (2 + Z.max (height t - 1) (height s) - 1) with (1 + Z.max (height t - 1) (height s)) by lia.
    + destruct Hs as (_ & Bm & Hm). apply plug_balanced. by rewrite Hm.
Qed.

Lemma grow_inorder c : forall t, grown t -> around c (height t - 1) -> inorder (grow c t) = lefts c ++ inorder t ++ rights c.
Proof.
  induction c as [|[[[d p] b] s] c IH]; intros t Hg Ha; cbn [grow around] in *; [by rewrite app_nil_r|].
  destruct Ha as (Hb & Hr & Bs & Ha). pose proof (grow_step d p b t s Hg Hb Hr Bs) as Hs.
  assert (Ei : forall b', lefts c ++ inorder (mk d p b' t s) ++ rights c = lefts ((d, p, b, s) :: c) ++ inorder t ++ rights ((d, p, b, s) :: c)).
  { intros b'. rewrite mk_inorder. cbn [lefts rights]. destruct d; by rewrite <- ?app_assoc, ?app_nil_r, <- ?app_assoc. }
  destruct (Z.eqb_spec (b + avl_child2balance d) 0) as [E0|E0]; destruct (Z.eq_dec (b + avl_child2balance d) 0); try done.
  - by rewrite plug_inorder, Ei.
  - destruct (Z.eqb_spec b 0) as [Eb|Eb]; destruct (Z.eq_dec b 0); try done; cbn [negb].
    + destruct Hs as [Hm Hh]. rewrite IH, Ei; [done|done|]. rewrite Hh. by replace (2 + Z.max (height t - 1) (height s) - 1) with (1 + Z.max (height t - 1) (height s)) by lia.
    + destruct Hs as (Hh & _). destruct (rotate_balanced d p t s (proj1 Hg) Bs Hh) as (Hne & Hk & _).
      by rewrite plug_inorder, (rotate_inorder d p 0), Ei.
Qed.

(** ** Removal *)

(** The subtree in the hole has become one lower. *)
Fixpoint shrink (c : ctx) (t : tree) : tree :=
  match c with
  | [] => t
  | (d, p, b, s) :: c =>
      let nb := b - avl_child2balance d in
      if b =? 0 then plug c (mk d p nb t s)
      else if nb =? 0 then shrink c (mk d p 0 t s)
      else let '(t', shorter) := rotate (negb d) p s t in if shorter then shrink c t' else plug c t'
  end.

Lemma shrink_ok c : forall t, balanced t -> around c (height t + 1) ->
  balanced (shrink c t) /\ inorder (shrink c t) = lefts c ++ inorder t ++ rights c.
Proof.
  induction c as [|[[[d p] b] s] c IH]; intros t Bt Ha; cbn [shrink around] in *; [by rewrite app_nil_r|].
  destruct Ha as (Hb & Hr & Bs & Ha). pose proof (height_nonneg s). pose proof (height_nonneg t).
  match goal with |- _ /\ _ = ?R => set (rhs := R) end.
  assert (Ei : forall b', lefts c ++ inorder (mk d p b' t s) ++ rights c = rhs).
  { intros b'. unfold rhs. rewrite mk_inorder. cbn [lefts rights]. destruct d; by rewrite <- ?app_assoc, ?app_nil_r, <- ?app_assoc. }
  destruct (Z.eqb_spec b 0) as [Eb|Eb]; [|destruct (Z.eqb_spec (b - avl_child2balance d) 0) as [En|En]].
  - rewrite plug_inorder, Ei, plug_balanced, mk_balanced, mk_height. split; [|done]. split.
    + destruct d; cbn in *; split_and!; try done; lia.
    + by replace (Z.max (height t) (height s)) with (Z.max (height t + 1) (height s)) by (destruct d; cbn in *; lia).
  - rewrite <- (Ei 0). apply IH; [rewrite mk_balanced; destruct d; cbn in *; split_and!; try done; lia|].
    rewrite mk_height. replace (1 + Z.max (height t) (height s) + 1) with (1 + Z.max (height t + 1) (height s)); [done|]. destruct d; cbn in *; lia.
  - assert (Hh : height s = height t + 2) by (destruct d; cbn in *; lia).
    destruct (rotate_balanced (negb d) p s t Bs Bt Hh) as (Hne & Hk & Br & Hs & Hn).
    pose proof (rotate_inorder (negb d) p b s t Hne Hk) as Eo.
    assert (Em : mk (negb d) p b s t = mk d p b t s) by (by destruct d). rewrite Em in Eo. rewrite <- (Ei b), <- Eo.
    destruct (rotate (negb d) p s t) as [t' sh]. cbn [fst snd] in *. destruct sh.
    + apply IH; [done|]. rewrite Hs by done. by replace (height s + 1) with (1 + Z.max (height t + 1) (height s)) by lia.
    + rewrite plug_inorder, plug_balanced. split; [|done]. split; [done|]. destruct Hn as [-> _]; [done|].
      by replace (height s + 1) with (1 + Z.max (height t + 1) (height s)) by lia.
Qed.
End AvlTree.
