(* ===== verification/AvlHeap.v ===== *)
(** The pointer routines of [Avl] on the trees of [AvlTree]: nodes in memory that
    represent a tree, and what each routine makes of it. *)

From S2P Require Import Prelude Avl AvlTree.
Import Avl AvlTree.
Open Scope Z_scope.

Module AvlHeap.

(** ** Representation *)

(** The node with children [x] on side [d] and [y] on the other. *)
Definition cell (d : bool) (x y par : Z) (idx : bool) (b : Z) : avl_node := if d then AvlNode y x par idx b else AvlNode x y par idx b.

Fixpoint repr (h : gmap Z avl_node) (t : tree) (par : Z) (idx : bool) : Prop :=
  match t with
  | E => True
  | T l p b r => p <> NULL /\ h !! p = Some (AvlNode (root l) (root r) par idx b) /\ repr h l p false /\ repr h r p true
  end.

Definition par_of (c : ctx) : Z := match c with [] => NULL | (d, p, b, s) :: _ => p end.
Definition idx_of (c : ctx) : bool := match c with [] => false | (d, p, b, s) :: _ => d end.

(** The context, with a subtree at [x] in the hole. *)
Fixpoint reprc (h : gmap Z avl_node) (top : Z) (c : ctx) (x : Z) : Prop :=
  match c with
  | [] => top = x
  | (d, p, b, s) :: c =>
      p <> NULL /\ h !! p = Some (cell d x (root s) (par_of c) (idx_of c) b) /\ repr h s p (negb d) /\ reprc h top c p
  end.

(** The tree [sub] in the context [c] is what [t] represents. *)
Definition view (t : avl_tree) (c : ctx) (sub : tree) : Prop :=
  reprc (avl_nodes t) (avl_root t) c (root sub) /\ repr (avl_nodes t) sub (par_of c) (idx_of c) /\ NoDup (inorder (plug c sub)).

Lemma repr_mk h d p b x s par idx : repr h (mk d p b x s) par idx <->
  p <> NULL /\ h !! p = Some (cell d (root x) (root s) par idx b) /\ repr h x p d /\ repr h s p (negb d).
Proof. destruct d; cbn; tauto. Qed.

Lemma root_mk d p b x s : root (mk d p b x s) = p.
Proof. by destruct d. Qed.

Lemma view_step t d p b s c x : view t ((d, p, b, s) :: c) x <-> view t c (mk d p b x s).
Proof. unfold view. cbn [reprc plug par_of idx_of]. rewrite repr_mk, root_mk. tauto. Qed.

Lemma view_app t c c' x : view t (c ++ c') x <-> view t c' (plug c x).
Proof. revert x. induction c as [|[[[d p] b] s] c IH]; intros x; [done|]. cbn [app plug]. by rewrite view_step, IH. Qed.

Lemma view_plug t c x : view t c x <-> view t [] (plug c x).
Proof. rewrite <- view_app. by rewrite app_nil_r. Qed.

(** ** Addresses *)

Definition caddrs (c : ctx) : list Z := lefts c ++ rights c.

Lemma mk_addrs d p b x s : inorder (mk d p b x s) ≡ₚ p :: inorder x ++ inorder s.
Proof. rewrite mk_inorder. destruct d; solve_Permutation. Qed.

Lemma plug_addrs c t : inorder (plug c t) ≡ₚ inorder t ++ caddrs c.
Proof. rewrite plug_inorder. unfold caddrs. solve_Permutation. Qed.

Lemma caddrs_cons d p b s c : caddrs ((d, p, b, s) :: c) ≡ₚ p :: inorder s ++ caddrs c.
Proof. unfold caddrs. cbn [lefts rights]. destruct d; cbn; solve_Permutation. Qed.

Lemma root_in t : t <> E -> root t ∈ inorder t.
Proof. destruct t; [done|]. intros _. cbn. set_solver. Qed.

Lemma root_null h t par idx : repr h t par idx -> root t = NULL <-> t = E.
Proof. destruct t; cbn; [done|]. intros (? & _). split; [done|by intros]. Qed.

Lemma par_in c : c <> [] -> par_of c ∈ caddrs c.
Proof. destruct c as [|[[[d p] b] s] c]; [done|]. intros _. rewrite caddrs_cons. set_solver. Qed.

Lemma par_null h top c x : reprc h top c x -> par_of c = NULL <-> c = [].
Proof. destruct c as [|[[[d p] b] s] c]; cbn; [done|]. intros (? & _). split; [done|by intros]. Qed.

(** ** Frames *)

Lemma repr_frame h h' t : forall par idx, (forall q, q ∈ inorder t -> h' !! q = h !! q) -> repr h t par idx -> repr h' t par idx.
Proof.
  induction t as [|l IHl p b r IHr]; intros par idx Hq; [done|]. cbn in *. intros (Hp & E & Hl & Hr).
  split_and!; [done|rewrite Hq; [done|set_solver]|apply IHl; [|done]|apply IHr; [|done]]; set_solver.
Qed.

Lemma reprc_frame h h' top c : forall x, (forall q, q ∈ caddrs c -> h' !! q = h !! q) -> reprc h top c x -> reprc h' top c x.
Proof.
  induction c as [|[[[d p] b] s] c IH]; intros x Hq; [done|]. cbn [reprc]. intros (Hp & E & Hs & Hc).
  assert (Hq' : forall q, q ∈ p :: inorder s ++ caddrs c -> h' !! q = h !! q) by (intros q Hin; apply Hq; by rewrite caddrs_cons).
  split_and!; [done|rewrite Hq'; [done|set_solver]|apply (repr_frame h); [|done]|apply IH; [|done]]; set_solver.
Qed.

(** A subtree put below another node. *)
Lemma repr_move h h' t par idx par' idx' : repr h t par idx -> NoDup (inorder t) ->
  (t <> E -> h' !! root t = (node_parent par' ∘ node_index idx') <$> h !! root t) ->
  (forall q, q ∈ inorder t -> q <> root t -> h' !! q = h !! q) -> repr h' t par' idx'.
Proof.
  destruct t as [|l p b r]; [done|]. cbn. intros (Hp & E & Hl & Hr) Hn Hroot Hq. rewrite E in Hroot.
  apply NoDup_app in Hn as (_ & Hlp & Hn). apply NoDup_cons in Hn as [Hrp _].
  split_and!; [done|by apply Hroot|apply (repr_frame h); [|done]|apply (repr_frame h); [|done]]; intros q Hin; apply Hq.
  - set_solver.
  - intros ->. set_solver.
  - set_solver.
  - by intros ->.
Qed.

(** The context with another subtree in the hole. *)
Lemma reprc_put h h' top top' c x y : reprc h top c x ->
  (c = [] -> top' = y) -> (c <> [] -> top' = top /\ h' !! par_of c = node_child (idx_of c) y <$> h !! par_of c) ->
  (forall q, q ∈ caddrs c -> q <> par_of c -> h' !! q = h !! q) -> NoDup (caddrs c) -> reprc h' top' c y.
Proof.
  destruct c as [|[[[d p] b] s] c]; cbn [reprc par_of idx_of]; [by auto|]. intros (Hp & E & Hs & Hc) _ Hput Hq Hn.
  destruct Hput as [-> Hput]; [done|]. rewrite caddrs_cons in Hn. apply NoDup_cons in Hn as [Hnp _].
  assert (Hq' : forall q, q ∈ inorder s ++ caddrs c -> h' !! q = h !! q).
  { intros q Hin. apply Hq; [rewrite caddrs_cons; set_solver|by intros ->]. }
  split_and!; [done|rewrite Hput, E; by destruct d|apply (repr_frame h); [|done]|apply (reprc_frame h); [|done]]; set_solver.
Qed.

(** ** Writes to memory *)

Lemma mod_node_ok t p f : is_Some (avl_nodes t !! p) -> mod_node t p f = Ok (set_nodes t (alter f p (avl_nodes t))).
Proof. intros [n E]. unfold mod_node. by rewrite E. Qed.

Lemma get_ok t p n : avl_nodes t !! p = Some n -> get t p = Ok n.
Proof. intros E. unfold get. by rewrite E. Qed.

Ltac present := cbn [avl_nodes set_nodes set_root]; rewrite ?lookup_alter_is_Some; eauto.
Ltac write := unfold set_child, AVL_SETPARENT, AVL_SETCHILD, AVL_SETBALANCE; rewrite mod_node_ok by present; bnd; cbn [avl_nodes set_nodes set_root avl_root avl_numnodes].
Ltac lookups := repeat first [rewrite lookup_alter_eq | rewrite lookup_alter_ne by congruence].

(** The memory in which [x], if there is one, has been put below [p]. *)
Definition adopted (x p : Z) (d : bool) (h : gmap Z avl_node) : gmap Z avl_node :=
  if negb (x =? NULL) then alter (node_index d) x (alter (node_parent p) x h) else h.

Lemma adopt_ok t x p d : (x <> NULL -> is_Some (avl_nodes t !! x)) -> adopt t x p d = Ok (set_nodes t (adopted x p d (avl_nodes t))).
Proof.
  intros Hx. unfold adopt, adopted. destruct (Z.eqb_spec x NULL); cbn [negb]; [by destruct t|].
  specialize (Hx ltac:(done)). write. write. done.
Qed.

Lemma lookup_adopted x p d h q : adopted x p d h !! q =
  if decide (q = x /\ x <> NULL) then (node_parent p ∘ node_index d) <$> h !! q else h !! q.
Proof.
  unfold adopted. destruct (Z.eqb_spec x NULL) as [->|]; cbn [negb]; [destruct (decide _) as [[? ?]|]; done|].
  destruct (decide _) as [[-> _]|Hn].
  - rewrite !lookup_alter_eq. by destruct (h !! x).
  - rewrite !lookup_alter_ne by (intros ->; tauto). done.
Qed.

Lemma adopted_is_Some x p d h q : is_Some (adopted x p d h !! q) <-> is_Some (h !! q).
Proof. rewrite lookup_adopted. destruct (decide _); [|done]. by rewrite fmap_is_Some. Qed.

(** Likewise with the place the subtree hangs from. *)
Definition put (parent : Z) (w : bool) (x : Z) (t : avl_tree) : avl_tree :=
  if negb (parent =? NULL) then set_nodes t (alter (node_child w x) parent (avl_nodes t)) else set_root t x.

Lemma put_below_ok t parent w x : (parent <> NULL -> is_Some (avl_nodes t !! parent)) -> put_below t parent w x = Ok (put parent w x t).
Proof.
  intros Hp. unfold put_below, put. destruct (Z.eqb_spec parent NULL); cbn [negb]; [done|]. specialize (Hp ltac:(done)).
  unfold set_child. by rewrite mod_node_ok.
Qed.

Lemma lookup_put parent w x t q : avl_nodes (put parent w x t) !! q =
  if decide (q = parent /\ parent <> NULL) then node_child w x <$> avl_nodes t !! q else avl_nodes t !! q.
Proof.
  unfold put. destruct (Z.eqb_spec parent NULL) as [->|]; cbn [negb]; [destruct (decide _) as [[? ?]|]; done|]. cbn [avl_nodes set_nodes].
  destruct (decide _) as [[-> _]|Hn]; [by rewrite lookup_alter_eq|]. by rewrite lookup_alter_ne by (intros ->; tauto).
Qed.

Lemma root_put parent w x t : avl_root (put parent w x t) = if parent =? NULL then x else avl_root t.
Proof. unfold put. by destruct (parent =? NULL). Qed.

Lemma numnodes_put parent w x t : avl_numnodes (put parent w x t) = avl_numnodes t.
Proof. unfold put. by destruct (parent =? NULL). Qed.

Section single.
Context (t : avl_tree) (node parent child cright : Z) (w left : bool) (child_bal right_heavy : Z) (n c : avl_node).
Abbreviation h := (avl_nodes t).
Context (Hn : h !! node = Some n) (Hc : h !! child = Some c) (Hnc : node <> child).
Context (Hr : cright <> NULL -> is_Some (h !! cright)) (Hp : parent <> NULL -> is_Some (h !! parent)).
Context (Hrn : cright <> node) (Hrc : cright <> child) (Hpn : parent <> node) (Hpc : parent <> child) (Hpr : parent <> NULL -> parent <> cright).
Abbreviation cb := (child_bal + right_heavy).

Lemma rotate_single_ok : exists t', rotate_single t node parent child cright w left child_bal right_heavy = Ok (t', cb =? 0) /\
  avl_numnodes t' = avl_numnodes t /\ avl_root t' = (if parent =? NULL then child else avl_root t) /\
  avl_nodes t' !! node = Some (node_parent child (node_index (negb left) (node_balance (- cb) (node_child left cright n)))) /\
  avl_nodes t' !! child = Some (node_parent parent (node_index w (node_balance cb (node_child (negb left) node c)))) /\
  (forall q, q <> node -> q <> child -> avl_nodes t' !! q =
    if decide (q = cright /\ cright <> NULL) then (node_parent node ∘ node_index left) <$> h !! q
    else if decide (q = parent /\ parent <> NULL) then node_child w child <$> h !! q else h !! q).
Proof using All.
  unfold rotate_single. write.
  rewrite adopt_ok by (intros; present). bnd. cbn [avl_nodes set_nodes set_root avl_root avl_numnodes].
  do 7 (unfold set_child, AVL_SETPARENT, AVL_SETCHILD, AVL_SETBALANCE; rewrite mod_node_ok by
    (cbn [avl_nodes set_nodes]; rewrite ?lookup_alter_is_Some, ?adopted_is_Some, ?lookup_alter_is_Some; eauto); bnd; cbn [avl_nodes set_nodes avl_root avl_numnodes]).
  rewrite put_below_ok by (intros; cbn [avl_nodes set_nodes]; rewrite ?lookup_alter_is_Some, ?adopted_is_Some, ?lookup_alter_is_Some; eauto). bnd.
  eexists. split; [done|]. rewrite numnodes_put, root_put. split; [done|]. split; [done|]. split_and!.
  - rewrite lookup_put, decide_False by (intros [? _]; congruence). cbn [avl_nodes set_nodes]. lookups.
    rewrite lookup_adopted, decide_False by (intros [? _]; congruence). by rewrite lookup_alter_eq, Hn.
  - rewrite lookup_put, decide_False by (intros [? _]; congruence). cbn [avl_nodes set_nodes]. lookups.
    rewrite lookup_adopted, decide_False by (intros [? _]; congruence). by rewrite lookup_alter_ne, Hc by done.
  - intros q Hqn Hqc. rewrite lookup_put. cbn [avl_nodes set_nodes]. lookups. rewrite lookup_adopted. lookups.
    destruct (decide (q = cright /\ cright <> NULL)) as [[H1 H1']|H1], (decide (q = parent /\ parent <> NULL)) as [[H2 H2']|H2]; try done.
    exfalso. apply Hpr; congruence.
Qed.
End single.

Ltac here := cbn [avl_nodes set_nodes]; rewrite ?lookup_alter_is_Some, ?adopted_is_Some, ?lookup_alter_is_Some, ?adopted_is_Some, ?lookup_alter_is_Some; eauto.
Ltac wstep := unfold set_child, AVL_SETPARENT, AVL_SETCHILD, AVL_SETBALANCE; rewrite mod_node_ok by here; bnd; cbn [avl_nodes set_nodes avl_root avl_numnodes].
Ltac look := repeat first [rewrite lookup_alter_eq | rewrite lookup_alter_ne by congruence | rewrite lookup_adopted, decide_False by (intros [? ?]; congruence)].

Section double.
Context (t : avl_tree) (node parent child gchild gleft gright : Z) (w left : bool) (lh rh : Z) (n c g : avl_node).
Abbreviation h := (avl_nodes t).
Context (Hn : h !! node = Some n) (Hc : h !! child = Some c) (Hg : h !! gchild = Some g).
Context (El : avl_child g left = gleft) (Er : avl_child g (negb left) = gright).
Context (Hl : gleft <> NULL -> is_Some (h !! gleft)) (Hr : gright <> NULL -> is_Some (h !! gright)) (Hp : parent <> NULL -> is_Some (h !! parent)).
Context (Hnc : node <> child) (Hng : node <> gchild) (Hcg : child <> gchild).
Context (Hln : gleft <> node) (Hlc : gleft <> child) (Hlg : gleft <> gchild) (Hrn : gright <> node) (Hrc : gright <> child) (Hrg : gright <> gchild).
Context (Hlr : gleft <> NULL -> gleft <> gright).
Context (Hpn : parent <> node) (Hpc : parent <> child) (Hpg : parent <> gchild) (Hpl : parent <> NULL -> parent <> gleft) (Hpr : parent <> NULL -> parent <> gright).
Abbreviation b := (avl_balance g).

Lemma rotate_double_ok : exists t', rotate_double t node parent child gchild w left lh rh = Ok (t', true) /\
  avl_numnodes t' = avl_numnodes t /\ avl_root t' = (if parent =? NULL then gchild else avl_root t) /\
  avl_nodes t' !! node = Some (node_index (negb left) (node_parent gchild (node_balance (if b =? lh then rh else 0) (node_child left gright n)))) /\
  avl_nodes t' !! child = Some (node_index left (node_parent gchild (node_balance (if b =? rh then lh else 0) (node_child (negb left) gleft c)))) /\
  avl_nodes t' !! gchild = Some (node_index w (node_parent parent (node_balance 0 (node_child (negb left) node (node_child left child g))))) /\
  (forall q, q <> node -> q <> child -> q <> gchild -> avl_nodes t' !! q =
    if decide (q = gleft /\ gleft <> NULL) then (node_parent child ∘ node_index (negb left)) <$> h !! q
    else if decide (q = gright /\ gright <> NULL) then (node_parent node ∘ node_index left) <$> h !! q
    else if decide (q = parent /\ parent <> NULL) then node_child w gchild <$> h !! q else h !! q).
Proof using All.
  unfold rotate_double. rewrite (get_ok t gchild g) by done. bnd. rewrite El, Er. wstep.
  rewrite adopt_ok by (intros; here). bnd. cbn [avl_nodes set_nodes avl_root avl_numnodes]. wstep.
  rewrite adopt_ok by (intros; here). bnd. cbn [avl_nodes set_nodes avl_root avl_numnodes].
  rewrite (get_ok _ gchild g). 2: { cbn [avl_nodes set_nodes]. by look. }
  bnd. do 11 wstep. rewrite put_below_ok by (intros; here). bnd.
  eexists. split; [done|]. rewrite numnodes_put, root_put. split; [done|]. split; [done|]. split_and!.
  - rewrite lookup_put, decide_False by (intros [? _]; congruence). cbn [avl_nodes set_nodes]. look. by rewrite Hn.
  - rewrite lookup_put, decide_False by (intros [? _]; congruence). cbn [avl_nodes set_nodes]. look. by rewrite Hc.
  - rewrite lookup_put, decide_False by (intros [? _]; congruence). cbn [avl_nodes set_nodes]. look. by rewrite Hg.
  - intros q Hqn Hqc Hqg. rewrite lookup_put. cbn [avl_nodes set_nodes].
    repeat (rewrite lookup_alter_ne by congruence). rewrite lookup_adopted.
    repeat (rewrite lookup_alter_ne by congruence). rewrite lookup_adopted. rewrite lookup_alter_ne by congruence.
    destruct (decide (q = gleft /\ gleft <> NULL)) as [[H1 H1']|H1], (decide (q = gright /\ gright <> NULL)) as [[H2 H2']|H2],
      (decide (q = parent /\ parent <> NULL)) as [[H3 H3']|H3]; try done; exfalso;
      solve [apply Hlr; congruence|apply Hpl; congruence|apply Hpr; congruence].
Qed.
End double.

(** ** Rotation of a tree *)

Lemma cell_child d x y par idx b : avl_child (cell d x y par idx b) d = x /\ avl_child (cell d x y par idx b) (negb d) = y.
Proof. by destruct d. Qed.

Lemma cell_fields d x y par idx b : avl_parent (cell d x y par idx b) = par /\ avl_child_index (cell d x y par idx b) = idx /\ avl_balance (cell d x y par idx b) = b.
Proof. by destruct d. Qed.

Lemma repr_present h t par idx q : repr h t par idx -> q ∈ inorder t -> is_Some (h !! q).
Proof.
  revert par idx. induction t as [|l IHl p b r IHr]; intros par idx; cbn; [set_solver|]. intros (_ & E & Hl & Hr).
  rewrite elem_of_app, elem_of_cons. intros [H|[->|H]]; eauto.
Qed.

Lemma reprc_present h top c x q : reprc h top c x -> q ∈ caddrs c -> is_Some (h !! q).
Proof.
  revert x. induction c as [|[[[d p] b] s] c IH]; intros x; [set_solver|]. cbn [reprc]. intros (_ & E & Hs & Hc).
  rewrite caddrs_cons, elem_of_cons, elem_of_app. intros [->|[H|H]]; eauto using repr_present.
Qed.

Lemma root_or t : root t <> NULL -> root t ∈ inorder t.
Proof. destruct t; [done|]. intros _. by apply root_in. Qed.

Lemma par_or c : par_of c <> NULL -> par_of c ∈ caddrs c.
Proof. destruct c; [done|]. intros _. by apply par_in. Qed.

(** Nodes of a tree and its context are all different. *)
Lemma view_nodup t c d p b x s : view t c (mk d p b x s) -> NoDup (p :: inorder x ++ inorder s ++ caddrs c).
Proof. intros (_ & _ & Hn). rewrite plug_addrs, mk_addrs in Hn. cbn [app] in Hn. by rewrite <- app_assoc in Hn. Qed.

Definition sided (nb : Z) (d : bool) : Prop := nb = 2 * avl_child2balance d.

Lemma sided_dir nb d : sided nb d -> negb (nb <? 0) = d /\ Z.shiftr nb 1 = avl_child2balance d.
Proof. unfold sided. intros ->. by destruct d. Qed.

Section rotate.
Context (t : avl_tree) (c : ctx) (d : bool) (p b0 : Z) (cp cb : Z) (co ci s : tree).
Abbreviation x := (mk d cp cb co ci).
Context (Hv : view t c (mk d p b0 x s)).
Abbreviation h := (avl_nodes t).
Abbreviation rh := (- avl_child2balance d).

(** The cells involved. *)
Lemma rotate_cells :
  h !! p = Some (cell d cp (root s) (par_of c) (idx_of c) b0) /\ h !! cp = Some (cell d (root co) (root ci) p d cb) /\
  reprc h (avl_root t) c p /\ p <> NULL /\ cp <> NULL /\ repr h co cp d /\ repr h ci cp (negb d) /\ repr h s p (negb d) /\
  NoDup (p :: cp :: inorder co ++ inorder ci ++ inorder s ++ caddrs c).
Proof using Hv.
  pose proof (view_nodup _ _ _ _ _ _ _ Hv) as Hn. destruct Hv as (Hc & Hr & _). rewrite root_mk in Hc.
  apply repr_mk in Hr as (Hp & Ep & Hx & Hs). apply repr_mk in Hx as (Hcp & Ecp & Hco & Hci). rewrite root_mk in Ep.
  split_and!; try done. rewrite mk_addrs in Hn. cbn [app] in Hn. by rewrite <- app_assoc in Hn.
Qed.

Lemma rotate_disjoint :
  (p <> cp /\ (p ∉ inorder co) /\ (p ∉ inorder ci) /\ (p ∉ inorder s) /\ (p ∉ caddrs c)) /\
  ((cp ∉ inorder co) /\ (cp ∉ inorder ci) /\ (cp ∉ inorder s) /\ (cp ∉ caddrs c)) /\
  (forall q, q ∈ inorder co -> (q ∉ inorder ci) /\ (q ∉ inorder s) /\ (q ∉ caddrs c)) /\
  (forall q, q ∈ inorder ci -> (q ∉ inorder s) /\ (q ∉ caddrs c)) /\ (forall q, q ∈ inorder s -> (q ∉ caddrs c)) /\
  NoDup (inorder ci) /\ NoDup (caddrs c).
Proof using Hv.
  destruct rotate_cells as (_ & _ & _ & _ & _ & _ & _ & _ & Hn). rewrite !NoDup_cons, !NoDup_app in Hn.
  destruct Hn as (Np & Ncp & _ & Dco & Nci & Dci & _ & Ds & Nc). split_and!; try done; try set_solver.
Qed.

Lemma rotate_single_view :
  exists t', rotate_single t p (par_of c) cp (root ci) (idx_of c) d cb rh = Ok (t', cb + rh =? 0) /\
    view t' c (mk d cp (cb + rh) co (mk d p (- (cb + rh)) ci s)) /\ avl_numnodes t' = avl_numnodes t.
Proof using Hv.
  destruct rotate_cells as (Ep & Ecp & Hc & Hp & Hcp & Hco & Hci & Hs & Hn). pose proof (root_or ci) as Hri. pose proof (par_or c) as Hpar.
  destruct rotate_disjoint as ((Np & Np1 & Np2 & Np3 & Np4) & (Nc1 & Nc2 & Nc3 & Nc4) & Dco & Dci & Ds & Nci & Nc).
  destruct (rotate_single_ok t p (par_of c) cp (root ci) (idx_of c) d cb rh _ _ Ep Ecp) as (t' & Et & En & Er & E1 & E2 & E3).
  - done.
  - intros H. apply (repr_present _ _ _ _ _ Hci). auto.
  - intros H. apply (reprc_present _ _ _ _ _ Hc). auto.
  - intros E. rewrite E in Hri. auto.
  - intros E. rewrite E in Hri. auto.
  - intros E. rewrite E in Hpar. auto.
  - intros E. rewrite E in Hpar. auto.
  - intros H E. rewrite <- E in Hri. apply (Dci (par_of c)); auto.
  - exists t'. split; [done|]. split; [|done].
    assert (Same : forall q, q <> p -> q <> cp -> q ∉ inorder ci -> (q ∈ caddrs c -> q <> par_of c) -> avl_nodes t' !! q = h !! q).
    { intros q Hq1 Hq2 Hq3 Hq4. rewrite E3 by done. rewrite decide_False by (intros [-> ?]; auto).
      rewrite decide_False; [done|]. intros [-> ?]. by apply Hq4; [apply par_or|]. }
    split; [|split].
    + rewrite root_mk. apply (reprc_put h _ (avl_root t) _ c p); [done| | | |done].
      * intros ->. by rewrite Er.
      * intros Hne. assert (Hnn : par_of c <> NULL) by (by rewrite (par_null _ _ _ _ Hc)).
        rewrite Er, (proj2 (Z.eqb_neq _ _)) by done. split; [done|]. specialize (Hpar Hnn).
        rewrite E3, decide_False, decide_True by (done || (intros [E ?]; rewrite <- E in Hri; set_solver) || set_solver). done.
      * intros q Hq Hne. apply Same; [set_solver..|done].
    + apply repr_mk. split; [done|]. rewrite root_mk. split; [rewrite E2; by destruct d|]. split.
      * apply (repr_frame h); [|done]. intros q Hq. destruct (Dco q Hq) as (? & ? & ?). apply Same; set_solver.
      * apply repr_mk. split; [done|]. split; [rewrite E1; by destruct d|]. split.
        -- apply (repr_move h _ ci cp (negb d)); [done|done| |].
           ++ intros Hne. assert (Hr : root ci <> NULL) by (by rewrite (root_null _ _ _ _ Hci)). specialize (Hri Hr).
              rewrite E3, decide_True by (done || set_solver). done.
           ++ intros q Hq Hne. destruct (Dci q Hq) as (? & ?). rewrite E3 by set_solver. rewrite decide_False by tauto.
              rewrite decide_False; [done|]. intros [-> ?]. auto.
        -- apply (repr_frame h); [|done]. intros q Hq. apply Same; set_solver.
    + rewrite plug_addrs, !mk_addrs. cbn [app]. rewrite <- !app_assoc. cbn [app]. rewrite <- !app_assoc.
      match goal with |- NoDup ?l => enough (P : l ≡ₚ p :: cp :: inorder co ++ inorder ci ++ inorder s ++ caddrs c) by (by rewrite P) end.
      solve_Permutation.
Qed.
End rotate.
End AvlHeap.
