(* ===== verification/AvlInsert.v ===== *)
(** Rotations of trees in memory.

    Insertion into a tree in memory. *)

From S2P Require Import Prelude Avl AvlTree AvlHeap.
Import Avl AvlTree AvlHeap.
Open Scope Z_scope.

Module AvlRotate.

(** ** Lists without a common element *)

Lemma parts_disjoint (Ps : list (list Z)) (i j : nat) A B q :
  NoDup (mjoin Ps) -> Ps !! i = Some A -> Ps !! j = Some B -> i <> j -> q ∈ A -> q ∈ B -> False.
Proof.
  revert i j. induction Ps as [|P Ps IH]; intros i j Hn Ei Ej Hij HA HB; [by rewrite lookup_nil in Ei|].
  cbn in Hn. apply NoDup_app in Hn as (_ & Hd & Hn).
  assert (Hin : forall k C, Ps !! k = Some C -> q ∈ C -> q ∈ mjoin Ps).
  { intros k C Ek HC. apply list_elem_of_join. exists C. split; [done|]. by apply list_elem_of_lookup_2 in Ek. }
  destruct i as [|i], j as [|j]; cbn in Ei, Ej; simplify_eq.
  - by apply (Hd q); [|eapply Hin].
  - by apply (Hd q); [|eapply Hin].
  - by eapply (IH i j); eauto.
Qed.

(** [clash Hn]: the goal [False] from an element of two different lists. *)
Ltac idx A Ps :=
  lazymatch Ps with
  | A :: _ => constr:(0%nat)
  | _ :: ?Ps => let i := idx A Ps in constr:(S i)
  end.
Ltac clash Hn :=
  exfalso;
  lazymatch type of Hn with
  | NoDup (mjoin ?Ps) =>
      match goal with
      | H1 : ?q ∈ ?A, H2 : ?q ∈ ?B |- False =>
          let i := idx A Ps in let j := idx B Ps in
          exact (parts_disjoint Ps i j A B q Hn eq_refl eq_refl ltac:(discriminate) H1 H2)
      end
  end.

(** Two addresses differ: one would be in two places of the tree. *)
Ltac differ Hn K H := let E := fresh in intros E; rewrite E in K; specialize (K H); clash Hn.
Ltac differ2 Hn K K' := let H := fresh in let E := fresh in intros H E; rewrite <- E in K'; specialize (K H); specialize (K' H); clash Hn.
Ltac other Hn K := let H := fresh in intros H ->; specialize (K H); clash Hn.

Section rotate.
Context (t : avl_tree) (c : ctx) (d : bool) (p b0 : Z) (cp cb : Z) (co : tree) (g gb : Z) (gl gr s : tree).
Abbreviation x := (mk d cp cb co (mk d g gb gl gr)).
Context (Hv : view t c (mk d p b0 x s)).
Abbreviation h := (avl_nodes t).
Abbreviation lh := (avl_child2balance d).
Abbreviation rh := (- avl_child2balance d).
Abbreviation cb' := (if gb =? rh then lh else 0).
Abbreviation nb' := (if gb =? lh then rh else 0).

Lemma double_nodup : NoDup (mjoin [[p]; [cp]; [g]; inorder co; inorder gl; inorder gr; inorder s; caddrs c]).
Proof using Hv.
  destruct (rotate_cells _ _ _ _ _ _ _ _ _ _ Hv) as (_ & _ & _ & _ & _ & _ & _ & _ & Hn). rewrite mk_addrs in Hn.
  match goal with |- NoDup ?l => enough (P : l ≡ₚ p :: cp :: inorder co ++ (g :: inorder gl ++ inorder gr) ++ inorder s ++ caddrs c) by (by rewrite P) end.
  cbn. rewrite ?app_nil_r, <- !app_assoc. solve_Permutation.
Qed.

Lemma rotate_double_view :
  exists t', rotate_double t p (par_of c) cp g (idx_of c) d lh rh = Ok (t', true) /\
    view t' c (mk d g 0 (mk d cp cb' co gl) (mk d p nb' gr s)) /\ avl_numnodes t' = avl_numnodes t.
Proof using Hv.
  destruct (rotate_cells _ _ _ _ _ _ _ _ _ _ Hv) as (Ep & Ecp & Hc & Hp & Hcp & Hco & Hci & Hs & _). pose proof double_nodup as Hn.
  apply repr_mk in Hci as (Hg & Eg & Hgl & Hgr). rewrite root_mk in Ecp.
  pose proof (root_or gl) as Hrl. pose proof (root_or gr) as Hrr. pose proof (par_or c) as Hpar.
  assert (Mp : p ∈ [p]) by set_solver. assert (Mcp : cp ∈ [cp]) by set_solver. assert (Mg : g ∈ [g]) by set_solver.
  destruct (cell_child d (root gl) (root gr) cp (negb d) gb) as [El Er]. destruct (cell_fields d (root gl) (root gr) cp (negb d) gb) as (_ & _ & Eb).
  destruct (rotate_double_ok t p (par_of c) cp g (root gl) (root gr) (idx_of c) d lh rh _ _ _ Ep Ecp Eg El Er) as (t' & Et & En & Ert & E1 & E2 & E3 & E4);
    [intros H; apply (repr_present _ _ _ _ _ Hgl); auto|intros H; apply (repr_present _ _ _ _ _ Hgr); auto|
     intros H; apply (reprc_present _ _ _ _ _ Hc); auto|intros E; assert (p ∈ [cp]) by (rewrite E; set_solver); clash Hn|
     intros E; assert (p ∈ [g]) by (rewrite E; set_solver); clash Hn|intros E; assert (cp ∈ [g]) by (rewrite E; set_solver); clash Hn|
     differ Hn Hrl Hp|differ Hn Hrl Hcp|differ Hn Hrl Hg|differ Hn Hrr Hp|differ Hn Hrr Hcp|differ Hn Hrr Hg|differ2 Hn Hrl Hrr|differ Hn Hpar Hp|
     differ Hn Hpar Hcp|differ Hn Hpar Hg|differ2 Hn Hpar Hrl|differ2 Hn Hpar Hrr|].
  exists t'. split; [done|]. split; [|done]. rewrite Eb in *.
  assert (Same : forall q, q <> p -> q <> cp -> q <> g -> (root gl <> NULL -> q <> root gl) -> (root gr <> NULL -> q <> root gr) ->
    (par_of c <> NULL -> q <> par_of c) -> avl_nodes t' !! q = h !! q).
  { intros q H1 H2 H3 H4 H5 H6. rewrite E4 by done.
    rewrite decide_False by (intros [? H]; by apply H4). rewrite decide_False by (intros [? H]; by apply H5). by rewrite decide_False by (intros [? H]; by apply H6). }
  assert (Far : forall q A, q ∈ A -> A ∈ [inorder co; inorder s] -> avl_nodes t' !! q = h !! q).
  { intros q A HA Hin. rewrite !elem_of_cons in Hin. destruct Hin as [->|[->|[]%not_elem_of_nil]].
    all: apply Same; [intros ->; clash Hn..|other Hn Hrl|other Hn Hrr|other Hn Hpar]. }
  split; [|split].
  + rewrite root_mk. apply (reprc_put h _ (avl_root t) _ c p); [done| | | |].
    * intros ->. by rewrite Ert.
    * intros Hne. assert (Hnn : par_of c <> NULL) by (by rewrite (par_null _ _ _ _ Hc)).
      rewrite Ert, (proj2 (Z.eqb_neq _ _)) by done. split; [done|]. specialize (Hpar Hnn).
      rewrite E4; [|intros E; rewrite E in Hpar; clash Hn..].
      rewrite decide_False by (intros [E H]; rewrite <- E in Hrl; specialize (Hrl Hnn); clash Hn).
      rewrite decide_False by (intros [E H]; rewrite <- E in Hrr; specialize (Hrr Hnn); clash Hn). by rewrite decide_True.
    * intros q Hq Hne. apply Same; [intros ->; clash Hn..|other Hn Hrl|other Hn Hrr|done].
    * cbn in Hn. rewrite ?app_nil_r in Hn. rewrite !NoDup_cons, !NoDup_app in Hn. apply Hn.
  + apply repr_mk. split; [done|]. rewrite !root_mk. split; [rewrite E3; by destruct d|]. split; apply repr_mk.
    * split; [done|]. split; [rewrite E2; by destruct d|]. split; [apply (repr_frame h); [|done]; intros q Hq; apply (Far q (inorder co)); set_solver|].
      apply (repr_move h _ gl g d); [done| | |].
      -- cbn in Hn. rewrite ?app_nil_r in Hn. rewrite !NoDup_cons, !NoDup_app in Hn. apply Hn.
      -- intros Hne. assert (Hr : root gl <> NULL) by (by rewrite (root_null _ _ _ _ Hgl)). specialize (Hrl Hr).
         rewrite E4; [by rewrite decide_True|intros E; rewrite E in Hrl; clash Hn..].
      -- intros q Hq Hne. apply Same; [intros ->; clash Hn..|done|other Hn Hrr|other Hn Hpar].
    * split; [done|]. split; [rewrite E1; by destruct d|]. split; [|apply (repr_frame h); [|done]; intros q Hq; apply (Far q (inorder s)); set_solver].
      apply (repr_move h _ gr g (negb d)); [done| | |].
      -- cbn in Hn. rewrite ?app_nil_r in Hn. rewrite !NoDup_cons, !NoDup_app in Hn. apply Hn.
      -- intros Hne. assert (Hr : root gr <> NULL) by (by rewrite (root_null _ _ _ _ Hgr)). specialize (Hrr Hr).
         rewrite E4; [|intros E; rewrite E in Hrr; clash Hn..].
         rewrite decide_False by (intros [E H]; rewrite <- E in Hrl; specialize (Hrl Hr); clash Hn). by rewrite decide_True.
      -- intros q Hq Hne. apply Same; [intros ->; clash Hn..|other Hn Hrl|done|other Hn Hpar].
  + match goal with |- NoDup ?l => enough (P : l ≡ₚ mjoin [[p]; [cp]; [g]; inorder co; inorder gl; inorder gr; inorder s; caddrs c]) by (by rewrite P) end.
    rewrite plug_addrs, !mk_addrs. cbn. rewrite ?app_nil_r, <- !app_assoc. cbn. rewrite <- ?app_assoc. solve_Permutation.
Qed.
End rotate.

(** [avl_rotation] is [rotate]. *)
Lemma avl_rotation_ok t c d p b0 x s nb : view t c (mk d p b0 x s) -> nb = 2 * avl_child2balance d -> x <> E ->
  (bal x = - avl_child2balance d -> kid (negb d) x <> E) ->
  exists t', avl_rotation t p nb = Ok (t', (rotate d p x s).2) /\ view t' c (rotate d p x s).1 /\ avl_numnodes t' = avl_numnodes t.
Proof.
  intros Hv Hnb Hx Hg. destruct (sided_dir nb d Hnb) as [Ed Elh]. unfold avl_rotation, rotate. rewrite Ed, Elh.
  rewrite (mk_kids d x Hx) in Hv. set (cp := root x) in *. set (cb := bal x) in *. set (co := kid d x) in *. set (ci := kid (negb d) x) in *.
  destruct (rotate_cells _ _ _ _ _ _ _ _ _ _ Hv) as (Ep & Ecp & _).
  rewrite (get_ok _ _ _ Ep). bnd. destruct (cell_child d cp (root s) (par_of c) (idx_of c) b0) as [-> _].
  destruct (cell_fields d cp (root s) (par_of c) (idx_of c) b0) as (-> & -> & _).
  rewrite (get_ok _ _ _ Ecp). bnd. destruct (cell_child d (root co) (root ci) p d cb) as [_ ->].
  destruct (cell_fields d (root co) (root ci) p d cb) as (_ & _ & ->).
  destruct (Z.eqb_spec cb (- avl_child2balance d)) as [E|E]; cbn [negb].
  - specialize (Hg E). cbn [fst snd]. rewrite (mk_kids d ci Hg) in Hv. by apply (rotate_double_view t c d p b0 cp cb).
  - cbn [fst snd]. by apply (rotate_single_view t c d p b0 cp cb).
Qed.
End AvlRotate.

Import AvlRotate.

Module AvlInsert.

(** ** Walks end *)

Lemma nodup_size (h : gmap Z avl_node) l : NoDup l -> (forall q, q ∈ l -> is_Some (h !! q)) -> (length l <= size h)%nat.
Proof.
  intros Hn Hin. rewrite <- size_dom. rewrite <- (size_list_to_set (C := gset Z) l Hn). apply subseteq_size.
  intros q Hq%elem_of_list_to_set. apply elem_of_dom. auto.
Qed.

Lemma length_caddrs c : (length c <= length (caddrs c))%nat.
Proof.
  induction c as [|[[[d p] b] s] c IH]; [cbn; lia|].
  pose proof (Permutation_length (caddrs_cons d p b s c)) as L. cbn [length] in L |- *. rewrite length_app in L.
  unfold ctx, frame in *. lia.
Qed.

Lemma view_size t c sub : view t c sub -> (length c + length (inorder sub) <= size (avl_nodes t))%nat.
Proof.
  intros (Hc & Hs & Hn). rewrite plug_addrs in Hn. pose proof (length_caddrs c).
  pose proof (nodup_size (avl_nodes t) _ Hn) as L. rewrite length_app in L.
  enough (length (inorder sub) + length (caddrs c) <= size (avl_nodes t))%nat by lia. apply L.
  intros q [Hq|Hq]%elem_of_app; [by eapply repr_present|by eapply reprc_present].
Qed.

(** ** Changes of a balance *)

Lemma view_balance t d p b s c sub nb : view t ((d, p, b, s) :: c) sub ->
  exists t', AVL_SETBALANCE t p nb = Ok t' /\ view t' c (mk d p nb sub s) /\ avl_numnodes t' = avl_numnodes t /\ avl_root t' = avl_root t.
Proof.
  intros Hv. pose proof (proj1 (view_step _ _ _ _ _ _ _) Hv) as Hv1. pose proof (view_nodup _ _ _ _ _ _ _ Hv1) as Hn.
  destruct Hv as ((Hp & E & Hs & Hc) & Hsub & Hall). unfold AVL_SETBALANCE. rewrite mod_node_ok by eauto.
  eexists. split; [done|]. split; [|done]. apply NoDup_cons in Hn as [Hnp _].
  assert (Same : forall q, q <> p -> alter (node_balance nb) p (avl_nodes t) !! q = avl_nodes t !! q) by (intros; by rewrite lookup_alter_ne).
  split; [|split]; cbn [avl_nodes set_nodes avl_root].
  - rewrite root_mk. apply (reprc_frame (avl_nodes t)); [|done]. intros q Hq. apply Same. set_solver.
  - apply repr_mk. split; [done|]. split; [rewrite lookup_alter_eq, E; by destruct d|]. split; (eapply repr_frame; [|done]); intros q Hq; apply Same; set_solver.
  - cbn [plug] in Hall. by rewrite plug_addrs, mk_addrs in Hall |- *.
Qed.

(** ** The new leaf *)

Lemma insert_leaf t c p : view t c E -> p <> NULL -> p ∉ caddrs c ->
  let t0 := set_nodes (set_numnodes t (u64 (avl_numnodes t + 1))) (<[p := AvlNode NULL NULL (par_of c) (idx_of c) 0]> (avl_nodes t)) in
  exists t1, put_below t0 (par_of c) (idx_of c) p = Ok t1 /\ view t1 c (T E p 0 E) /\ avl_numnodes t1 = u64 (avl_numnodes t + 1).
Proof.
  intros (Hc & _ & Hn) Hp Hpc t0. pose proof (par_or c) as Hpar. rewrite plug_addrs in Hn. cbn in Hn.
  rewrite put_below_ok.
  2: { intros H. unfold t0. cbn [avl_nodes set_nodes]. apply lookup_insert_is_Some'. right. apply (reprc_present _ _ _ _ _ Hc). auto. }
  eexists. split; [done|]. rewrite numnodes_put. split; [|done]. split; [|split].
  - cbn [root]. apply (reprc_put (avl_nodes t) _ (avl_root t) _ c NULL); [done| | | |done].
    + intros ->. by rewrite root_put.
    + intros Hne. assert (Hnn : par_of c <> NULL) by (by rewrite (par_null _ _ _ _ Hc)).
      rewrite root_put, (proj2 (Z.eqb_neq _ _)) by done. split; [done|]. rewrite lookup_put, decide_True by done.
      unfold t0. cbn [avl_nodes set_nodes]. rewrite lookup_insert_ne; [done|]. intros ->. auto.
    + intros q Hq Hne. rewrite lookup_put, decide_False by tauto. unfold t0. cbn [avl_nodes set_nodes]. rewrite lookup_insert_ne; [done|]. intros ->. auto.
  - cbn. split; [done|]. split; [|done]. rewrite lookup_put, decide_False by (intros [-> H]; auto). unfold t0. cbn [avl_nodes set_nodes].
    by rewrite lookup_insert_eq.
  - rewrite plug_addrs. cbn. by apply NoDup_cons.
Qed.

(** ** Rebalancing *)

Abbreviation insert_body := (fun '(t, parent, which_child) =>
    let node := parent in
    if node =? NULL then Ok (inr t)
    else
      n ← get t node;
      let old_balance := avl_balance n in
      let new_balance := old_balance + avl_child2balance which_child in
      if new_balance =? 0 then t ← AVL_SETBALANCE t node 0; Ok (inr t)
      else if negb (old_balance =? 0) then '(t, _) ← avl_rotation t node new_balance; Ok (inr t)
      else t ← AVL_SETBALANCE t node new_balance; Ok (inl (t, avl_parent n, avl_child_index n))).

Lemma insert_loop c : forall t sub k, view t c sub -> grown sub -> around c (height sub - 1) -> (length c < k)%nat ->
  exists t', loop k insert_body (t, par_of c, idx_of c) = Ok t' /\ view t' [] (grow c sub) /\ avl_numnodes t' = avl_numnodes t.
Proof.
  induction c as [|[[[d p] b] s] c IH]; intros t sub k Hv Hg Ha Hk; destruct k as [|k]; try (cbn in Hk; lia).
  { exists t. done. }
  cbn [around] in Ha. destruct Ha as (Hb & Hr & Bs & Ha). pose proof (grow_step d p b sub s Hg Hb Hr Bs) as Hst.
  pose proof Hv as ((Hp & E & _) & _). cbn [loop par_of idx_of grow]. rewrite (proj2 (Z.eqb_neq p NULL)) by done.
  rewrite (get_ok _ _ _ E). destruct (cell_fields d (root sub) (root s) (par_of c) (idx_of c) b) as (Ef1 & Ef2 & Ef3). bnd. rewrite Ef3.
  destruct (Z.eqb_spec (b + avl_child2balance d) 0) as [E0|E0]; destruct (Z.eq_dec (b + avl_child2balance d) 0); try done.
  - destruct (view_balance _ _ _ _ _ _ _ 0 Hv) as (t1 & -> & Hv1 & En & _). bnd. exists t1. split; [done|]. split; [by apply (proj1 (view_plug _ _ _))|done].
  - destruct (Z.eqb_spec b 0) as [Eb|Eb]; destruct (Z.eq_dec b 0); try done; cbn [negb].
    + destruct (view_balance _ _ _ _ _ _ _ (b + avl_child2balance d) Hv) as (t1 & -> & Hv1 & En & _). bnd. rewrite Ef1, Ef2.
      destruct Hst as [Hg' Hh]. destruct (IH t1 _ k Hv1 Hg') as (t2 & E2 & Hv2 & En2).
      * rewrite Hh. by replace (2 + Z.max (height sub - 1) (height s) - 1) with (1 + Z.max (height sub - 1) (height s)) by lia.
      * cbn in Hk. lia.
      * exists t2. split; [exact E2|]. split; [done|congruence].
    + destruct Hst as (Hh & _). destruct (rotate_balanced d p sub s (proj1 Hg) Bs Hh) as (Hne & Hk' & _).
      destruct (avl_rotation_ok t c d p b sub s (b + avl_child2balance d)) as (t1 & -> & Hv1 & En); [by apply view_step|destruct d; cbn in *; lia|done|done|].
      bnd. exists t1. split; [done|]. split; [by apply (proj1 (view_plug _ _ _))|done].
Qed.

Lemma avl_insert_ok t c p : view t c E -> p <> NULL -> p ∉ caddrs c -> around c 0 ->
  exists t', avl_insert t p (par_of c, idx_of c) = Ok t' /\ view t' [] (grow c (T E p 0 E)) /\ avl_numnodes t' = u64 (avl_numnodes t + 1).
Proof.
  intros Hv Hp Hpc Ha. unfold avl_insert. destruct (insert_leaf t c p Hv Hp Hpc) as (t1 & Et & Hv1 & En). cbv zeta in Et |- *.
  change (avl_nodes (set_numnodes t (u64 (avl_numnodes t + 1)))) with (avl_nodes t). rewrite Et. bnd.
  destruct (insert_loop c t1 (T E p 0 E) (fuel t1) Hv1) as (t2 & E2 & Hv2 & En2).
  - unfold grown. cbn. split_and!; first [done|lia|right; lia].
  - done.
  - pose proof (view_size _ _ _ Hv1). unfold fuel. cbn in *. lia.
  - exists t2. split; [exact E2|]. split; [done|congruence].
Qed.
End AvlInsert.
