(* ===== verification/AvlWalk.v ===== *)
(** Searches and walks in a tree in memory. *)

From stdpp Require Export sorting.
From S2P Require Import Prelude Avl AvlTree AvlHeap AvlInsert.
Import Avl AvlTree AvlHeap AvlInsert.
Open Scope Z_scope.

Module AvlWalk.

(** The last element of a sequence in direction [d]. *)
Definition edge (d : bool) (l : list Z) : Z := if d then List.last l NULL else hd NULL l.
(** What lies beyond a hole in direction [d]. *)
Definition beyond (d : bool) (c : ctx) : list Z := if d then rights c else lefts c.
(** Sequences one beyond the other in direction [d]. *)
Definition join (d : bool) (near far : list Z) : list Z := if d then near ++ far else far ++ near.

Lemma last_snoc (l : list Z) x : List.last (l ++ [x]) NULL = x.
Proof. apply List.last_last. Qed.

Lemma last_app (l l' : list Z) : l' <> [] -> List.last (l ++ l') NULL = List.last l' NULL.
Proof. intros H. destruct (exists_last H) as (k & x & ->). by rewrite app_assoc, !last_snoc. Qed.

Lemma edge_join d near far : edge d (join d near far) = match far with [] => edge d near | _ => edge d far end.
Proof.
  destruct d; cbn [edge join].
  - destruct far as [|x far]; [by rewrite app_nil_r|]. by apply last_app.
  - by destruct far.
Qed.

Lemma edge_join_near d near far : near <> [] -> edge (negb d) (join d near far) = edge (negb d) near.
Proof. intros H. destruct d; cbn [edge join negb]; [by destruct near|by apply last_app]. Qed.

Lemma join_assoc d x y z : join d (join d x y) z = join d x (join d y z).
Proof. destruct d; cbn; by rewrite app_assoc. Qed.

Lemma mk_join d p b x s : inorder (mk d p b x s) = join d (join d (inorder s) [p]) (inorder x).
Proof. destruct d; cbn; by rewrite <- ?app_assoc. Qed.

Lemma beyond_cons d d' p b s c : beyond d ((d', p, b, s) :: c) = if Bool.eqb d d' then beyond d c else join d (join d [p] (inorder s)) (beyond d c).
Proof. destruct d, d'; cbn; by rewrite ?app_nil_r, <- ?app_assoc. Qed.

Lemma beyond_app d c c' : beyond d (c ++ c') = join d (beyond d c) (beyond d c').
Proof.
  induction c as [|[[[d' p] b] s] c IH]; [by destruct d; cbn; rewrite ?app_nil_r|].
  cbn [app]. rewrite !beyond_cons, IH. destruct (Bool.eqb d d'); [done|]. by rewrite !join_assoc.
Qed.

Lemma plug_join d c x : inorder (plug c x) = join d (join d (beyond (negb d) c) (inorder x)) (beyond d c).
Proof. rewrite plug_inorder. destruct d; cbn; by rewrite <- ?app_assoc. Qed.

(** ** The end of a subtree *)

Abbreviation descend_body t d := (fun node => n ← get t node; Ok (if negb (avl_child n d =? NULL) then inl (avl_child n d) else inr node)).

Lemma descend_loop d x : forall t c k, view t c x -> x <> E -> (length (inorder x) <= k)%nat ->
  exists c' q b s, x = plug c' (mk d q b E s) /\ beyond d c' = [] /\ loop k (descend_body t d) (root x) = Ok q.
Proof.
  assert (Gen : forall m t c x k, (length (inorder x) <= m)%nat -> view t c x -> x <> E -> (length (inorder x) <= k)%nat ->
    exists c' q b s, x = plug c' (mk d q b E s) /\ beyond d c' = [] /\ loop k (descend_body t d) (root x) = Ok q).
  2: { intros. by eapply Gen. }
  clear x. induction m as [|m IH]; intros t c x k Hm Hv Hx Hk.
  { destruct x; [done|]. cbn in Hm. rewrite length_app in Hm. cbn in Hm. lia. }
  rewrite (mk_kids d x Hx) in Hv, Hm, Hk |- *. set (p := root x) in *. set (b := bal x) in *. set (y := kid d x) in *. set (s := kid (negb d) x) in *.
  rewrite (Permutation_length (mk_addrs _ _ _ _ _)) in Hm, Hk. cbn in Hm, Hk. rewrite length_app in Hm, Hk.
  pose proof Hv as (_ & Hr & _). apply repr_mk in Hr as (Hp & Ep & Hy & _). rewrite root_mk.
  destruct k as [|k]; [lia|]. cbn [loop]. rewrite (get_ok _ _ _ Ep). bnd.
  destruct (cell_child d (root y) (root s) (par_of c) (idx_of c) b) as [-> _].
  destruct (Z.eqb_spec (root y) NULL) as [Ey|Ey]; cbn [negb].
  - apply (root_null _ _ _ _ Hy) in Ey as ->. exists [], p, b, s. split_and!; [done|by destruct d|done].
  - assert (y <> E) by (intros ->; done). apply view_step in Hv as Hv'.
    destruct (IH t _ y k ltac:(lia) Hv') as (c' & q & bq & sq & -> & Hb & El); [done|lia|].
    exists (c' ++ [(d, p, b, s)]), q, bq, sq. split; [by rewrite plug_app|]. split; [|done].
    rewrite beyond_app, Hb. by destruct d.
Qed.

Lemma descend_ok d x t c : view t c x -> x <> E ->
  exists c' q b s, x = plug c' (mk d q b E s) /\ beyond d c' = [] /\ descend t d (root x) = Ok q.
Proof. intros Hv Hx. apply (descend_loop d x t c); [done|done|]. pose proof (view_size _ _ _ Hv). unfold fuel. lia. Qed.

Lemma end_edge d c q b s : beyond d c = [] -> edge d (inorder (plug c (mk d q b E s))) = q.
Proof.
  intros H. rewrite (plug_join d), H, mk_join. cbn [inorder]. rewrite !edge_join. destruct (inorder s); by destruct d.
Qed.

Lemma edge_nil d : edge d [] = NULL.
Proof. by destruct d. Qed.

Abbreviation end_body t d := (fun '(node, prev) =>
    if negb (node =? NULL) then n ← get t node; Ok (inl (avl_child n d, node)) else Ok (inr prev)).

Lemma end_loop d t : forall c x k, view t c x -> (length (inorder x) < k)%nat ->
  loop k (end_body t d) (root x, par_of c) = Ok (if decide (x = E) then par_of c else edge d (inorder x)).
Proof.
  assert (Gen : forall m c x k, (length (inorder x) <= m)%nat -> view t c x -> (length (inorder x) < k)%nat ->
    loop k (end_body t d) (root x, par_of c) = Ok (if decide (x = E) then par_of c else edge d (inorder x))).
  2: { intros. by eapply Gen. }
  induction m as [|m IH]; intros c x k Hm Hv Hk; (destruct k as [|k]; [lia|]); cbn [loop]; case_decide as Hx; [subst x; done| |subst x; done|].
  { destruct x; [done|]. cbn in Hm. rewrite length_app in Hm. cbn in Hm. lia. }
  rewrite (mk_kids d x Hx) in Hv, Hm, Hk |- *. set (p := root x) in *. set (b := bal x) in *. set (y := kid d x) in *. set (s := kid (negb d) x) in *.
  rewrite (Permutation_length (mk_addrs _ _ _ _ _)) in Hm, Hk. cbn in Hm, Hk. rewrite length_app in Hm, Hk.
  pose proof Hv as (_ & Hr & _). apply repr_mk in Hr as (Hp & Ep & Hy & _). rewrite root_mk.
  rewrite (proj2 (Z.eqb_neq p NULL)) by done. cbn [negb]. rewrite (get_ok _ _ _ Ep). bnd.
  destruct (cell_child d (root y) (root s) (par_of c) (idx_of c) b) as [-> _]. apply view_step in Hv.
  etrans; [apply (IH ((d, p, b, s) :: c) y k); [lia|done|lia]|]. rewrite mk_join, edge_join. f_equal.
  case_decide as Ey; [rewrite Ey; cbn [inorder]; rewrite edge_join; by destruct d|]. destruct (inorder y) eqn:E; [|done].
  pose proof (root_in y Ey) as H. rewrite E in H. set_solver.
Qed.

(** The first and the last node. *)
Lemma avl_end_ok d t x : view t [] x -> avl_end t d = Ok (edge d (inorder x)).
Proof.
  intros Hv. pose proof (view_size _ _ _ Hv). pose proof (end_loop d t [] x (fuel t) Hv) as L. unfold avl_end.
  assert (Er : avl_root t = root x) by apply Hv. rewrite Er. etrans; [apply L; unfold fuel; cbn in *; lia|].
  case_decide as Hx; [subst x; by rewrite edge_nil|done].
Qed.

(** ** The neighbours of a node *)

Abbreviation up_body t d := (fun node =>
        n ← get t node;
        let was_child := avl_child_index n in
        let node := avl_parent n in
        Ok (if node =? NULL then inr NULL else if Bool.eqb was_child (negb d) then inr node else inl node)).

Lemma up_loop d t : forall c x k, view t c x -> x <> E -> (length c < k)%nat ->
  loop k (up_body t d) (root x) = Ok (edge (negb d) (beyond d c)).
Proof.
  induction c as [|[[[d' p] b] s] c IH]; intros x k Hv Hx Hk; (destruct k as [|k]; [cbn in Hk; lia|]); cbn [loop];
    pose proof Hv as (Hc & Hr & _); destruct x as [|l q bq r]; try done; destruct Hr as (_ & Eq & _); cbn [root]; rewrite (get_ok _ _ _ Eq); bnd; cbn [avl_child_index avl_parent par_of idx_of].
  - by destruct d.
  - destruct Hc as (Hp & _). rewrite (proj2 (Z.eqb_neq p NULL)) by done. rewrite beyond_cons.
    pose proof (IH (mk d' p b (T l q bq r) s) k) as L. rewrite root_mk in L.
    destruct d, d'; cbn [Bool.eqb negb]; try done; try (apply L; [by apply view_step|done|cbn in Hk; lia]).
    cbn. by rewrite app_assoc, last_snoc.
Qed.

Lemma avl_walk_ok d t c x p b s : view t c (mk d p b x s) -> avl_walk t p d = Ok (edge (negb d) (join d (inorder x) (beyond d c))).
Proof.
  intros Hv. pose proof Hv as (_ & Hr & _). apply repr_mk in Hr as (Hp & Ep & Hx & _). unfold avl_walk.
  rewrite (proj2 (Z.eqb_neq p NULL)) by done. rewrite (get_ok _ _ _ Ep). bnd.
  destruct (cell_child d (root x) (root s) (par_of c) (idx_of c) b) as [-> _]. destruct (Z.eqb_spec (root x) NULL) as [E|E]; cbn [negb].
  - apply (root_null _ _ _ _ Hx) in E as ->. pose proof (view_size _ _ _ Hv). etrans; [|].
    + rewrite <- (root_mk d p b AvlTree.E s). apply (up_loop d t c); [done|by destruct d|unfold fuel; lia].
    + cbn [inorder]. by destruct d; cbn; rewrite ?app_nil_r.
  - assert (Hx0 : x <> AvlTree.E) by (by intros ->). apply view_step in Hv.
    destruct (descend_ok (negb d) x t _ Hv Hx0) as (c' & q & bq & sq & Ex & Hb & ->). f_equal.
    rewrite edge_join_near by (destruct x; [done|cbn; by destruct (inorder x1)]). rewrite Ex. by rewrite end_edge.
Qed.

(** The neighbours of a place. *)
Lemma avl_nearest_ok d t c : view t c E -> avl_nearest t (par_of c, idx_of c) d = Ok (edge (negb d) (beyond d c)).
Proof.
  intros Hv. unfold avl_nearest. destruct c as [|[[[d' p] b] s] c]; [by destruct d|]. pose proof Hv as ((Hp & _) & _).
  cbn [par_of idx_of]. rewrite (proj2 (Z.eqb_neq p NULL)) by done. rewrite beyond_cons. destruct (Bool.eqb d' d) eqn:Ed; cbn [negb].
  - apply Bool.eqb_prop in Ed as ->. rewrite Bool.eqb_reflx. apply view_step in Hv. rewrite (avl_walk_ok _ _ _ _ _ _ _ Hv). by destruct d; cbn; rewrite ?app_nil_r.
  - destruct d, d'; try done. cbn. by rewrite app_assoc, last_snoc.
Qed.

(** ** Search *)

(** The comparisons with the value looked for are those of a sorted sequence. *)
Definition sifts (compar : Z -> Z) (l : list Z) : Prop :=
  Forall (fun q => -1 <= compar q <= 1) l /\ StronglySorted (fun a b => compar b <= compar a) l.

(** A node on the wrong side puts all those beyond it there as well. *)
Lemma sifts_split compar l1 p l2 : sifts compar (l1 ++ p :: l2) ->
  -1 <= compar p <= 1 /\ (compar p = 1 -> Forall (fun q => compar q = 1) l1) /\ (compar p = -1 -> Forall (fun q => compar q = -1) l2).
Proof.
  intros [Hr Hs]. rewrite Forall_app, Forall_cons in Hr. destruct Hr as (H1 & Hp & H2).
  assert (HL : forall q, q ∈ l1 -> compar p <= compar q) by (intros q Hq; apply (StronglySorted_app_1_elem_of _ _ _ _ _ Hs); set_solver).
  assert (HR : forall q, q ∈ l2 -> compar q <= compar p).
  { intros q Hq. replace (l1 ++ p :: l2) with ((l1 ++ [p]) ++ l2) in Hs by (by rewrite <- app_assoc).
    apply (StronglySorted_app_1_elem_of _ _ _ _ _ Hs); set_solver. }
  rewrite Forall_forall in H1, H2. split; [done|]. split; intros E; apply Forall_forall; intros q Hq.
  - specialize (H1 q Hq). specialize (HL q Hq). lia.
  - specialize (H2 q Hq). specialize (HR q Hq). lia.
Qed.

Abbreviation find_body t compar := (fun '(node, prev, child) =>
    if negb (node =? NULL) then
      let diff := compar node in
      if diff =? 0 then Ok (inr (node, (NULL, false)))
      else
        n ← get t node;
        let child := avl_balance2child (1 + diff) in
        Ok (inl (avl_child n child, node, child))
    else Ok (inr (NULL, (prev, child)))).

(** The place a search has come to. *)
Definition placed (compar : Z -> Z) (c : ctx) : Prop :=
  Forall (fun q => compar q = 1) (lefts c) /\ Forall (fun q => compar q = -1) (rights c).

Lemma placed_step compar d c p b x s : sifts compar (inorder (plug c (mk d p b x s))) -> placed compar c ->
  compar p = avl_child2balance d -> placed compar ((d, p, b, s) :: c).
Proof.
  intros Hs [Hl Hr] Ep. rewrite plug_inorder, mk_inorder in Hs. unfold placed. cbn [lefts rights]. destruct d; cbn in Ep.
  - rewrite <- app_assoc in Hs. cbn in Hs. rewrite app_assoc in Hs. destruct (sifts_split _ _ _ _ Hs) as (_ & H1 & _). specialize (H1 Ep).
    rewrite Forall_app in H1. cbn [app]. rewrite !Forall_app, Forall_singleton. naive_solver.
  - rewrite <- app_assoc in Hs. cbn in Hs. rewrite app_assoc in Hs. destruct (sifts_split _ _ _ _ Hs) as (_ & _ & H1). specialize (H1 Ep).
    rewrite Forall_app in H1. rewrite app_nil_r. cbn [app]. rewrite Forall_cons, Forall_app. naive_solver.
Qed.

Lemma find_loop t compar : forall c x k, view t c x -> sifts compar (inorder (plug c x)) -> placed compar c -> (length (inorder x) < k)%nat ->
  (exists q w, loop k (find_body t compar) (root x, par_of c, idx_of c) = Ok (q, w) /\ q ∈ inorder (plug c x) /\ compar q = 0 /\ q <> NULL) \/
  (exists c', loop k (find_body t compar) (root x, par_of c, idx_of c) = Ok (NULL, (par_of c', idx_of c')) /\ plug c' E = plug c x /\ placed compar c').
Proof.
  assert (Gen : forall m c x k, (length (inorder x) <= m)%nat -> view t c x -> sifts compar (inorder (plug c x)) -> placed compar c -> (length (inorder x) < k)%nat ->
    (exists q w, loop k (find_body t compar) (root x, par_of c, idx_of c) = Ok (q, w) /\ q ∈ inorder (plug c x) /\ compar q = 0 /\ q <> NULL) \/
    (exists c', loop k (find_body t compar) (root x, par_of c, idx_of c) = Ok (NULL, (par_of c', idx_of c')) /\ plug c' E = plug c x /\ placed compar c')).
  2: { intros. by eapply Gen. }
  induction m as [|m IH]; intros c x k Hm Hv Hs Hp Hk; (destruct k as [|k]; [lia|]); cbn [loop]; destruct (decide (x = E)) as [->|Hx];
    [right; by exists c| |right; by exists c|].
  { destruct x; [done|]. cbn in Hm. rewrite length_app in Hm. cbn in Hm. lia. }
  destruct x as [|l p b r]; [done|]. cbn [root]. pose proof Hv as (_ & (Hn & Ep & _) & _). rewrite (proj2 (Z.eqb_neq p NULL)) by done. cbn [negb].
  assert (Hin : p ∈ inorder (plug c (T l p b r))) by (rewrite plug_inorder; cbn; set_solver).
  destruct (Z.eqb_spec (compar p) 0) as [E0|E0]; [left; by exists p, (NULL, false)|]. rewrite (get_ok _ _ _ Ep). bnd.
  assert (Hd : exists d, compar p = avl_child2balance d).
  { destruct Hs as [Hs _]. rewrite Forall_forall in Hs. specialize (Hs p Hin). assert (compar p = 1 \/ compar p = -1) as [->| ->] by lia; [by exists true|by exists false]. }
  destruct Hd as [d Ed]. replace (avl_balance2child (1 + compar p)) with d by (rewrite Ed; by destruct d).
  assert (Em : T l p b r = mk d p b (kid d (T l p b r)) (kid (negb d) (T l p b r))) by (by destruct d).
  assert (El : (length (inorder (kid d (T l p b r))) < length (inorder (T l p b r)))%nat) by (destruct d; cbn; rewrite length_app; cbn; lia).
  rewrite Em in Hs, Hv. apply view_step in Hv.
  destruct (IH ((d, p, b, kid (negb d) (T l p b r)) :: c) (kid d (T l p b r)) k ltac:(lia) Hv Hs (placed_step _ _ _ _ _ _ _ Hs Hp Ed) ltac:(lia)) as [(q & w & H1 & H2 & H3)|(c' & H1 & H2 & H3)].
  - left. exists q, w. split; [etrans; [|exact H1]; by destruct d|]. rewrite Em. done.
  - right. exists c'. split; [etrans; [|exact H1]; by destruct d|]. rewrite Em. done.
Qed.

Lemma avl_find_ok t x compar : view t [] x -> sifts compar (inorder x) ->
  (exists q w, avl_find t compar = Ok (q, w) /\ q ∈ inorder x /\ compar q = 0 /\ q <> NULL) \/
  (exists c, avl_find t compar = Ok (NULL, (par_of c, idx_of c)) /\ plug c E = x /\ placed compar c).
Proof.
  intros Hv Hs. pose proof (view_size _ _ _ Hv). assert (Er : avl_root t = root x) by apply Hv. unfold avl_find. rewrite Er.
  apply (find_loop t compar [] x); [done|done|by split|unfold fuel; cbn in *; lia].
Qed.
End AvlWalk.
