(* ===== verification/AvlSwap.v ===== *)
(** The exchange of a node in memory with its neighbour, with which [avl_remove]
    begins. *)

From S2P Require Import Prelude Avl AvlTree AvlHeap AvlInsert AvlWalk.
Import Avl AvlTree AvlHeap AvlRotate AvlInsert AvlWalk.
Open Scope Z_scope.

Module AvlSwap.

(** ** Another address for a node *)

Lemma view_frame t t' c sub : view t c sub -> avl_root t' = avl_root t ->
  (forall q, q ∈ inorder sub ++ caddrs c -> avl_nodes t' !! q = avl_nodes t !! q) -> view t' c sub.
Proof.
  intros (Hc & Hr & Hn) Et Hq. split; [|split; [|done]].
  - rewrite Et. apply (reprc_frame (avl_nodes t)); [|done]. set_solver.
  - apply (repr_frame (avl_nodes t)); [|done]. set_solver.
Qed.

(** The node at [p] with children [x] and [y] moved to [new]. *)
Definition renamed (new p x y par : Z) (idx : bool) (t : avl_tree) : avl_tree :=
  let h := match avl_nodes t !! p with Some n => <[new := n]> (avl_nodes t) | None => avl_nodes t end in
  let up x h := if x =? NULL then h else alter (node_parent new) x h in
  put par idx new (set_nodes t (up y (up x h))).

Lemma lookup_renamed new p x y par idx t n q : avl_nodes t !! p = Some n -> new <> NULL ->
  x <> new -> y <> new -> par <> new -> (x = NULL \/ x <> y) -> (par = NULL \/ (par <> x /\ par <> y)) ->
  avl_nodes (renamed new p x y par idx t) !! q =
    if decide (q = new) then Some n
    else if decide (q = NULL) then avl_nodes t !! q
    else if decide (q = x \/ q = y) then node_parent new <$> avl_nodes t !! q
    else if decide (q = par) then node_child idx new <$> avl_nodes t !! q
    else avl_nodes t !! q.
Proof.
  intros E Hn Hx Hy Hp Hxy Hpar. unfold renamed. rewrite E, lookup_put. cbn [avl_nodes set_nodes].
  assert (Hup : forall z (h : gmap Z avl_node), (if z =? NULL then h else alter (node_parent new) z h) !! q = if decide (q = z /\ q <> NULL) then node_parent new <$> h !! q else h !! q).
  { intros z h. destruct (Z.eqb_spec z NULL) as [->|Hz]; [by rewrite decide_False by tauto|].
    case_decide as Hq; [destruct Hq as [-> _]; by rewrite lookup_alter_eq|]. rewrite lookup_alter_ne; [done|]. intros <-. auto. }
  rewrite !Hup. destruct (decide (q = new)) as [->|Hqn].
  { repeat (rewrite decide_False by (intros [? ?]; congruence)). by rewrite lookup_insert_eq. }
  rewrite lookup_insert_ne by done. repeat case_decide; try done; try (exfalso; naive_solver).
Qed.

Section renamed.
Context (t : avl_tree) (c : ctx) (d : bool) (p b : Z) (x s : tree) (new : Z).
Context (Hv : view t c (mk d p b x s)) (Hnew : new <> NULL) (Hin : new ∉ p :: inorder x ++ inorder s ++ caddrs c).
Abbreviation t' := (renamed new p (root x) (root s) (par_of c) (idx_of c) t).
Abbreviation h := (avl_nodes t).

Lemma renamed_nodup : NoDup (mjoin [[p]; inorder x; inorder s; caddrs c]).
Proof using Hv. cbn. rewrite app_nil_r. by apply (view_nodup t c d p b x s). Qed.

Lemma renamed_fresh : (new ∉ inorder x) /\ (new ∉ inorder s) /\ new ∉ caddrs c.
Proof using Hin. clear -Hin. set_solver. Qed.

Lemma renamed_lookup q : avl_nodes t' !! q =
  if decide (q = new) then Some (cell d (root x) (root s) (par_of c) (idx_of c) b)
  else if decide (q = NULL) then h !! q
  else if decide (q = root x \/ q = root s) then node_parent new <$> h !! q
  else if decide (q = par_of c) then node_child (idx_of c) new <$> h !! q
  else h !! q.
Proof using All.
  pose proof renamed_nodup as Hn. destruct renamed_fresh as (F1 & F2 & F3). pose proof Hv as (_ & Hr & _). apply repr_mk in Hr as (_ & Ep & _).
  pose proof (root_or x) as Hrx. pose proof (root_or s) as Hrs. pose proof (par_or c) as Hpc. apply lookup_renamed; try done.
  - intros E. rewrite E in Hrx. auto.
  - intros E. rewrite E in Hrs. auto.
  - intros E. rewrite E in Hpc. auto.
  - destruct (decide (root x = NULL)) as [|H]; [by left|right]. intros E. specialize (Hrx H). rewrite <- E in Hrs. specialize (Hrs H). clash Hn.
  - destruct (decide (par_of c = NULL)) as [|H]; [by left|right]. specialize (Hpc H). split; intros E.
    + rewrite <- E in Hrx. specialize (Hrx H). clash Hn.
    + rewrite <- E in Hrs. specialize (Hrs H). clash Hn.
Qed.

(** Roots of the parts are not in other parts. *)
Lemma renamed_same q : q <> new -> (q ∈ inorder x -> q <> root x) -> (q ∈ inorder s -> q <> root s) -> (q ∈ caddrs c -> q <> par_of c) ->
  avl_nodes t' !! q = h !! q.
Proof using All.
  intros H1 H2 H3 H4. rewrite renamed_lookup, decide_False by done. destruct (decide (q = NULL)) as [|Hq]; [done|].
  rewrite decide_False; [rewrite decide_False; [done|]|].
  - intros E. apply H4; [|done]. rewrite E. apply par_or. congruence.
  - intros [E|E]; [apply H2; [|done]|apply H3; [|done]]; rewrite E; apply root_or; congruence.
Qed.

Lemma renamed_kid k i : k = x \/ k = s -> repr h k p i -> repr (avl_nodes t') k new i.
Proof using All.
  intros Hk Hr. pose proof renamed_nodup as Hn. destruct renamed_fresh as (F1 & F2 & F3).
  assert (F : new ∉ inorder k) by (destruct Hk as [-> | ->]; done).
  apply (repr_move h _ k p i); [done|destruct Hk as [-> | ->]; clear -Hn; cbn in Hn; rewrite NoDup_cons, !NoDup_app in Hn; tauto| |].
  - intros Hne. pose proof (root_in k Hne) as Hrk. rewrite renamed_lookup. rewrite decide_False by (intros E; rewrite E in Hrk; done).
    rewrite decide_False by (rewrite (root_null _ _ _ _ Hr); done). rewrite decide_True by (destruct Hk as [-> | ->]; auto).
    destruct k as [|? q ? ?]; [done|]. cbn. destruct Hr as (_ & E & _). by rewrite E.
  - intros q Hq Hne. apply renamed_same; [by intros ->| | |]; intros Hq'; destruct Hk as [-> | ->]; try done; clash Hn.
Qed.

Lemma renamed_ctx : reprc (avl_nodes t') (avl_root t') c new.
Proof using All.
  pose proof renamed_nodup as Hn. destruct renamed_fresh as (F1 & F2 & F3). pose proof Hv as (Hc & _). rewrite root_mk in Hc.
  apply (reprc_put h _ (avl_root t) _ c p); [done| | | |].
  - intros ->. unfold renamed. by rewrite root_put.
  - intros Hne. assert (Hnn : par_of c <> NULL) by (by rewrite (par_null _ _ _ _ Hc)). pose proof (par_or c Hnn) as Hpc.
    split; [unfold renamed; by rewrite root_put, (proj2 (Z.eqb_neq _ _))|]. rewrite renamed_lookup.
    rewrite decide_False by (intros E; rewrite E in Hpc; done). rewrite decide_False by done. rewrite decide_False; [by rewrite decide_True|].
    intros [E|E]; rewrite E in Hpc, Hnn; apply root_or in Hnn; clash Hn.
  - intros q Hq Hne. apply renamed_same; [by intros ->| | |done]; intros Hq'; clash Hn.
  - clear -Hn. cbn in Hn. rewrite app_nil_r, NoDup_cons, !NoDup_app in Hn. tauto.
Qed.

Lemma renamed_view : view t' c (mk d new b x s).
Proof using All.
  pose proof Hv as (_ & Hr & _). apply repr_mk in Hr as (_ & _ & Hx & Hs). pose proof renamed_nodup as Hn. cbn in Hn. rewrite app_nil_r in Hn.
  split; [|split].
  - rewrite root_mk. apply renamed_ctx.
  - apply repr_mk. split; [done|]. split; [by rewrite renamed_lookup, decide_True|]. split; apply renamed_kid; auto.
  - rewrite plug_addrs, mk_addrs. cbn. rewrite <- app_assoc. apply NoDup_cons. apply NoDup_cons in Hn as [_ Hn]. set_solver.
Qed.
End renamed.

(** ** The exchange with a neighbour *)

Lemma alter_insert_eq {A} (f : A -> A) i x (m : gmap Z A) : alter f i (<[i := x]> m) = <[i := f x]> m.
Proof. apply map_eq. intros j. destruct (decide (j = i)) as [->|]; [by rewrite lookup_alter_eq, !lookup_insert_eq|]. by rewrite lookup_alter_ne, !lookup_insert_ne. Qed.

(** The memory after the steps of [remove_swap]. *)
Section run.
Context (t : avl_tree) (d : bool) (p q tmp rx rs ry pc pq : Z) (ic iq : bool) (b bq : Z).
Abbreviation h := (avl_nodes t).
Context (Ed : avl_balance2child (b + 1) = d) (Ep : h !! p = Some (cell d rx rs pc ic b)) (Eq : h !! q = Some (cell (negb d) NULL ry pq iq bq)).
Context (Es : descend t (negb d) rx = Ok q) (Hnear : rx = q -> pq = p /\ iq = d).
Context (Hrx : is_Some (h !! rx)) (Hrs : is_Some (h !! rs)) (Hry : ry <> NULL -> is_Some (h !! ry)) (Hpq : is_Some (h !! pq)) (Hpc : pc <> NULL -> is_Some (h !! pc)).
Context (Hqp : q <> p) (Htp : tmp <> p) (Htq : tmp <> q) (Htx : tmp <> rx) (Hts : tmp <> rs) (Hty : tmp <> ry) (Htpq : tmp <> pq) (Htpc : tmp <> pc).
Context (Hqs : q <> rs) (Hqpc : q <> pc).
Abbreviation rx1 := (if rx =? q then tmp else rx).
Abbreviation pq1 := (if rx =? q then q else pq).

Definition swapped : gmap Z avl_node :=
  let h1 := avl_nodes (put pc ic q (set_nodes t (<[q := cell d rx1 rs pc ic b]> (<[tmp := cell (negb d) NULL ry pq iq bq]> h)))) in
  let h2 := alter (node_child iq tmp) pq1 (alter (node_parent q) rs (alter (node_parent q) rx1 h1)) in
  if negb (ry =? NULL) then alter (node_parent tmp) ry h2 else h2.

Lemma swap_child : (let d' := node_parent q (cell (negb d) NULL ry pq iq bq) in avl_child d' (negb (avl_child d' true =? NULL)) = ry) /\
  (let d' := cell (negb d) NULL ry pq iq bq in avl_child d' (negb (avl_child d' true =? NULL)) = ry).
Proof using d ry. clear. destruct d; cbn; [|done]. destruct (Z.eqb_spec ry NULL) as [->|]; done. Qed.

Lemma swap_copy :
  (let t0 := set_nodes t (<[tmp := cell (negb d) NULL ry pq iq bq]> h) in
   let t0 := set_nodes t0 (alter (fun _ => cell d rx rs pc ic b) q (avl_nodes t0)) in
   if rx =? q then set_child t0 q d tmp else Ok t0) =
  Ok (set_nodes t (<[q := cell d rx1 rs pc ic b]> (<[tmp := cell (negb d) NULL ry pq iq bq]> h))).
Proof using Eq Htq.
  clear -Eq Htq. cbv zeta. cbn [set_nodes avl_nodes avl_root avl_numnodes].
  replace (alter (fun _ => cell d rx rs pc ic b) q (<[tmp:=cell (negb d) NULL ry pq iq bq]> h))
    with (<[q := cell d rx rs pc ic b]> (<[tmp:=cell (negb d) NULL ry pq iq bq]> h)).
  - destruct (rx =? q); [|done]. unfold set_child. rewrite mod_node_ok by (cbn [avl_nodes set_nodes]; rewrite lookup_insert_eq; eauto).
    cbn [set_nodes avl_nodes avl_root avl_numnodes]. rewrite alter_insert_eq. by destruct d.
  - apply map_eq. intros j. destruct (decide (j = q)) as [->|]; [rewrite lookup_insert_eq, lookup_alter_eq, lookup_insert_ne, Eq by done; done|].
    by rewrite lookup_insert_ne, lookup_alter_ne by done.
Qed.

Lemma remove_swap_run : exists t', remove_swap t p tmp (cell d rx rs pc ic b) = Ok t' /\ avl_nodes t' = swapped /\
  avl_root t' = (if pc =? NULL then q else avl_root t) /\ avl_numnodes t' = avl_numnodes t.
Proof using All.
  unfold remove_swap. destruct (cell_fields d rx rs pc ic b) as (_ & _ & ->). rewrite Ed. destruct (cell_child d rx rs pc ic b) as [-> _]. rewrite Es. bnd.
  rewrite (get_ok _ _ _ Eq). bnd. rewrite (get_ok _ p (cell d rx rs pc ic b)) by (cbn [avl_nodes set_nodes]; by rewrite lookup_insert_ne). bnd.
  rewrite mod_node_ok by (cbn [avl_nodes set_nodes]; rewrite lookup_insert_ne by done; eauto). bnd. destruct (cell_child d rx rs pc ic b) as [-> _].
  pose proof swap_copy as Ecp. cbv zeta in Ecp. rewrite Ecp. clear Ecp. bnd. rewrite (get_ok _ q (cell d rx1 rs pc ic b)) by (cbn [avl_nodes set_nodes]; by rewrite lookup_insert_eq). bnd.
  destruct (cell_fields d rx1 rs pc ic b) as (-> & -> & _). destruct (cell_child d rx1 rs pc ic b) as [-> ->].
  set (t0 := set_nodes t _). assert (P0 : forall a, is_Some (h !! a) -> is_Some (avl_nodes t0 !! a)).
  { intros a Ha. unfold t0. cbn [avl_nodes set_nodes]. rewrite !lookup_insert_is_Some'. auto. }
  assert (Pt : is_Some (avl_nodes t0 !! tmp)) by (unfold t0; cbn [avl_nodes set_nodes]; rewrite lookup_insert_ne, lookup_insert_eq by done; eauto).
  rewrite put_below_ok by auto. bnd. set (t1 := put _ _ _ _). assert (P1 : forall a, is_Some (avl_nodes t0 !! a) -> is_Some (avl_nodes t1 !! a)).
  { intros a Ha. unfold t1. rewrite lookup_put. destruct (decide _); [by rewrite fmap_is_Some|done]. }
  unfold AVL_SETPARENT. rewrite mod_node_ok by (destruct (rx =? q); auto). bnd.
  rewrite mod_node_ok by (cbn [avl_nodes set_nodes]; rewrite lookup_alter_is_Some; auto). bnd. cbn [set_nodes avl_nodes avl_root avl_numnodes].
  set (h2 := alter (node_parent q) rs _).
  assert (Et : h2 !! tmp = Some (if rx =? q then node_parent q (cell (negb d) NULL ry pq iq bq) else cell (negb d) NULL ry pq iq bq)).
  { unfold h2. rewrite lookup_alter_ne by done. unfold t1. destruct (rx =? q); [rewrite lookup_alter_eq|rewrite lookup_alter_ne by done];
      rewrite lookup_put, decide_False by (intros [? ?]; congruence); unfold t0; cbn [avl_nodes set_nodes]; by rewrite lookup_insert_ne, lookup_insert_eq. }
  set (nt := if rx =? q then _ else _) in Et.
  assert (Ent : avl_parent nt = pq1 /\ avl_child_index nt = iq /\ avl_child nt (negb (avl_child nt true =? NULL)) = ry).
  { unfold nt. destruct swap_child as [K1 K2]. destruct (Z.eqb_spec rx q) as [E|E]; (split_and!; [by destruct d|by destruct d|done]). }
  destruct Ent as (Ent1 & Ent2 & Ent3). rewrite (get_ok _ tmp nt) by done. bnd. unfold set_child. rewrite Ent1, Ent2.
  assert (P2 : forall a, is_Some (avl_nodes t0 !! a) -> is_Some (h2 !! a)) by (intros a Ha; unfold h2; rewrite !lookup_alter_is_Some; auto).
  assert (Htq1 : pq1 <> tmp) by (destruct (rx =? q); congruence).
  rewrite mod_node_ok by (cbn [avl_nodes set_nodes]; apply P2; destruct (rx =? q); eauto). bnd. cbn [set_nodes avl_nodes avl_root avl_numnodes].
  rewrite (get_ok _ tmp nt) by (cbn [avl_nodes set_nodes]; by rewrite lookup_alter_ne). bnd. rewrite Ent3.
  assert (Er : avl_root t1 = (if pc =? NULL then q else avl_root t)) by exact (root_put pc ic q t0).
  assert (En : avl_numnodes t1 = avl_numnodes t) by exact (numnodes_put pc ic q t0).
  unfold swapped. cbv zeta. fold t0. fold t1. fold h2. destruct (Z.eqb_spec ry NULL) as [E|E]; cbn [negb]; [by eexists|].
  rewrite mod_node_ok by (cbn [avl_nodes set_nodes]; rewrite lookup_alter_is_Some; auto). by eexists.
Qed.
End run.

Lemma lookup_alter_dec {A} (f : A -> A) i (m : gmap Z A) j : alter f i m !! j = if decide (j = i) then f <$> m !! j else m !! j.
Proof. destruct (decide (j = i)) as [->|]; [by rewrite lookup_alter_eq|by rewrite lookup_alter_ne]. Qed.

Lemma root_plug c : c <> [] -> exists r, r ∈ caddrs c /\ forall x, root (plug c x) = r.
Proof.
  induction c as [|[[[d p] b] s] c IH]; [done|]. intros _. destruct c as [|f c].
  - exists p. split; [rewrite caddrs_cons; set_solver|]. intros x. cbn [plug]. by rewrite root_mk.
  - destruct IH as (r & Hr & E); [done|]. exists r. split; [rewrite caddrs_cons; set_solver|]. intros x. apply E.
Qed.

Lemma caddrs_app c1 c2 : caddrs (c1 ++ c2) ≡ₚ caddrs c1 ++ caddrs c2.
Proof. pose proof (plug_addrs (c1 ++ c2) E) as H. rewrite plug_app, plug_addrs, plug_addrs in H. cbn in H. by rewrite <- H. Qed.

Lemma repr_nonnull h x : forall par idx q, repr h x par idx -> q ∈ inorder x -> q <> NULL.
Proof.
  induction x as [|l IHl p b r IHr]; intros par idx q; cbn; [set_solver|]. intros (Hp & _ & Hl & Hr).
  rewrite elem_of_app, elem_of_cons. intros [H|[->|H]]; eauto.
Qed.

Lemma reprc_nonnull h top c : forall x q, reprc h top c x -> q ∈ caddrs c -> q <> NULL.
Proof.
  induction c as [|[[[d p] b] s] c IH]; intros x q; [set_solver|]. cbn [reprc]. intros (Hp & _ & Hs & Hc).
  rewrite caddrs_cons, elem_of_cons, elem_of_app. intros [->|[H|H]]; eauto using repr_nonnull.
Qed.

Ltac settle := first [congruence | split; congruence | intros [? ?]; congruence | intros [?|?]; congruence | left; congruence | right; congruence].
Ltac decs := repeat match goal with |- context [decide ?P] => first [rewrite (decide_True (P := P)) by settle | rewrite (decide_False (P := P)) by settle] end.

Section swap.
Context (t : avl_tree) (c c' : ctx) (d : bool) (p b q bq tmp : Z) (s y : tree).
Abbreviation low := (mk (negb d) q bq E y).
Abbreviation x := (plug c' low).
Context (Hv : view t c (mk d p b x s)) (Hs : s <> E) (Ed : avl_balance2child (b + 1) = d) (Es : descend t (negb d) (root x) = Ok q).
Context (Ht : tmp <> NULL) (Hin : tmp ∉ inorder (plug c (mk d p b x s))).
Abbreviation C := (c' ++ (d, p, b, s) :: c).
Abbreviation low1 := (mk (negb d) tmp bq E y).
Abbreviation x1 := (plug c' low1).
Abbreviation h := (avl_nodes t).

Definition swap1 : avl_tree := renamed tmp q NULL (root y) (par_of C) (idx_of C) t.
Definition swap2 : avl_tree := renamed q p (root x1) (root s) (par_of c) (idx_of c) swap1.

Lemma swap_low : view t C low.
Proof using Hv. by apply view_app, view_step. Qed.

Lemma swap_nodup : NoDup (mjoin [[p]; [q]; inorder y; caddrs c'; inorder s; caddrs c]).
Proof using Hv.
  pose proof (view_nodup _ _ _ _ _ _ _ Hv) as Hn. rewrite plug_addrs, mk_addrs in Hn. cbn in Hn |- *. rewrite app_nil_r. by rewrite <- !app_assoc in Hn.
Qed.

Lemma swap_fresh : tmp <> p /\ tmp <> q /\ (tmp ∉ inorder y) /\ (tmp ∉ caddrs c') /\ (tmp ∉ inorder s) /\ (tmp ∉ caddrs c).
Proof using Hin. clear -Hin. rewrite plug_addrs, mk_addrs, plug_addrs, mk_addrs in Hin. set_solver. Qed.

Lemma swap1_fresh : tmp ∉ q :: inorder E ++ inorder y ++ caddrs C.
Proof using Hin. destruct swap_fresh as (F1 & F2 & F3 & F4 & F5 & F6). clear -F1 F2 F3 F4 F5 F6. cbn [inorder]. rewrite caddrs_app, caddrs_cons. set_solver. Qed.

Lemma swap1_view : view swap1 c (mk d p b x1 s).
Proof using All. apply view_step, view_app. apply (renamed_view t C (negb d) q bq E y tmp swap_low Ht swap1_fresh). Qed.

Lemma swap2_fresh : q <> NULL /\ q ∉ p :: inorder x1 ++ inorder s ++ caddrs c.
Proof using All.
  pose proof swap_nodup as Hn. destruct swap_fresh as (F1 & F2 & F3 & F4 & F5 & F6). split.
  - pose proof swap_low as (_ & Hr & _). by apply repr_mk in Hr as (? & _).
  - rewrite plug_addrs, mk_addrs. cbn in Hn |- *. rewrite NoDup_cons, NoDup_cons in Hn. set_solver.
Qed.

Lemma swap2_view : view swap2 c (mk d q b x1 s).
Proof using All. destruct swap2_fresh. by apply renamed_view; [apply swap1_view|..]. Qed.

(** The addresses of the nodes that change are different. *)
Lemma swap_distinct : (p <> q /\ tmp <> p /\ tmp <> q) /\ (root s <> p /\ root s <> q /\ root s <> tmp) /\
  (root y <> p /\ root y <> q /\ root y <> tmp /\ root y <> root s) /\
  (par_of c <> p /\ par_of c <> q /\ par_of c <> tmp /\ par_of c <> root s /\ (par_of c <> NULL -> par_of c <> root y)) /\
  (p <> NULL /\ q <> NULL /\ root s <> NULL) /\
  (forall a, a ∈ caddrs c' -> a <> NULL /\ a <> p /\ a <> q /\ a <> tmp /\ a <> root s /\ a <> root y /\ a <> par_of c).
Proof using All.
  pose proof swap_nodup as Hn. destruct swap_fresh as (F1 & F2 & F3 & F4 & F5 & F6). pose proof (root_in s Hs) as Hrs.
  pose proof (root_or y) as Hry. pose proof (par_or c) as Hpc. assert (Mp : p ∈ [p]) by set_solver. assert (Mq : q ∈ [q]) by set_solver.
  assert (Np : p <> NULL) by (destruct Hv as (_ & Hr & _); by apply repr_mk in Hr as (? & _)).
  assert (Dpq : p <> q) by (clear -Hn; cbn in Hn; apply NoDup_cons in Hn; set_solver).
  destruct swap2_fresh as [Nq _]. assert (Ns : root s <> NULL).
  { destruct Hv as (_ & Hr & _). apply repr_mk in Hr as (_ & _ & _ & Hr). intros H. by apply (root_null _ _ _ _ Hr) in H. }
  assert (Ry : forall a, a <> NULL -> root y = a -> a ∈ inorder y) by (intros a Ha <-; auto).
  assert (Pc : forall a, a <> NULL -> par_of c = a -> a ∈ caddrs c) by (intros a Ha <-; auto).
  split_and!; try done; try (intros E; subst; clash Hn); try (intros E; rewrite E in Hrs; clash Hn || done);
    try (intros E; apply Ry in E; [clash Hn || done|done]); try (intros E; apply Pc in E; [clash Hn || done|done]).
  - intros H E. symmetry in E. apply Ry in E; [|done]. specialize (Hpc H). clash Hn.
  - intros a Ha. pose proof swap_low as (Hc & _ & _). assert (Na : a <> NULL) by (apply (reprc_nonnull _ _ _ _ a Hc); rewrite caddrs_app; set_solver).
    split_and!; [done|intros ->; clash Hn|intros ->; clash Hn|by intros ->|intros ->; clash Hn|intros E; symmetry in E; apply Ry in E; [clash Hn|done]|
      intros E; symmetry in E; apply Pc in E; [clash Hn|done]].
Qed.

(** On every other address the code has done what the two changes of address do. *)
Lemma swap_agree a : a <> p ->
  swapped t d q tmp (root x) (root s) (root y) (par_of c) (par_of C) (idx_of c) (idx_of C) b bq !! a = avl_nodes swap2 !! a.
Proof using All.
  intros Hap. destruct swap_distinct as ((D1 & D2 & D3) & (D4 & D5 & D6) & (D7 & D8 & D9 & D10) & (D11 & D12 & D13 & D14 & D15) & (N1 & N2 & N3) & Dc).
  unfold swap2. destruct swap2_fresh as [F1 F2]. rewrite (renamed_lookup swap1 c d p b x1 s q swap1_view F1 F2).
  unfold swap1. rewrite (renamed_lookup t C (negb d) q bq E y tmp swap_low Ht swap1_fresh).
  unfold swapped. cbv zeta.
  assert (Ey : forall (m : gmap Z avl_node), (if negb (root y =? NULL) then alter (node_parent tmp) (root y) m else m) !! a =
    if decide (a = root y /\ a <> NULL) then node_parent tmp <$> m !! a else m !! a).
  { intros m. destruct (Z.eqb_spec (root y) NULL) as [E0|E0]; cbn [negb]; [by decs|].
    rewrite lookup_alter_dec. destruct (decide (a = root y)); by decs. }
  rewrite Ey. clear Ey. rewrite !lookup_alter_dec, lookup_put. cbn [avl_nodes set_nodes root].
  assert (Hc : c' = [] /\ root x = q /\ root x1 = tmp /\ par_of C = p /\ idx_of C = d \/
    exists r, root x = r /\ root x1 = r /\ r <> NULL /\ r <> q /\ r <> tmp /\ r <> root s /\ r <> root y /\ r <> par_of c /\
      par_of C <> NULL /\ par_of C <> p /\ par_of C <> q /\ par_of C <> tmp /\ par_of C <> root s /\ par_of C <> root y /\ par_of C <> par_of c).
  { destruct (decide (c' = [])) as [->|Hne]; [left; cbn; by rewrite !root_mk|]. right. destruct (root_plug c' Hne) as (r & Hr & Er). exists r.
    rewrite !Er. assert (Ep : par_of C = par_of c') by (by destruct c' as [|[[[]]]]). rewrite Ep. pose proof (Dc _ Hr). pose proof (Dc _ (par_in c' Hne)). naive_solver. }
  destruct Hc as [(-> & -> & -> & -> & ->)|(r & -> & -> & Hr)].
  - rewrite Z.eqb_refl, !lookup_insert. clear -Ht Hap D1 D2 D3 D4 D5 D6 D7 D8 D9 D10 D11 D12 D13 D14 D15 N1 N2 N3.
    generalize dependent (root s). generalize dependent (root y). generalize dependent (par_of c). intros.
    destruct (decide (a = q)) as [->|A1]; [decs; by destruct d|]. destruct (decide (a = tmp)) as [->|A2]; [decs; by destruct d|].
    destruct (decide (a = NULL)) as [->|A3]; [by decs|]. destruct (decide (a = z1)) as [->|A4]; [by decs|].
    destruct (decide (a = z0)) as [->|A5]; [assert (z <> z0) by (intros ->; by apply D15); by decs|].
    destruct (decide (a = z)) as [->|A6]; by decs.
  - destruct Hr as (R1 & R2 & R3 & R4 & R5 & R6 & C1 & C2 & C3 & C4 & C5 & C6 & C7). rewrite (proj2 (Z.eqb_neq r q)), !lookup_insert by done.
    clear -Ht Hap D1 D2 D3 D4 D5 D6 D7 D8 D9 D10 D11 D12 D13 D14 D15 N1 N2 N3 R1 R2 R3 R4 R5 R6 C1 C2 C3 C4 C5 C6 C7.
    generalize dependent (root s). generalize dependent (root y). generalize dependent (par_of C). generalize dependent (par_of c). intros pc. intros.
    destruct (decide (a = q)) as [->|A1]; [decs; by destruct d|]. destruct (decide (a = tmp)) as [->|A2]; [decs; by destruct d|].
    destruct (decide (a = NULL)) as [->|A3]; [by decs|]. destruct (decide (a = z1)) as [->|A4]; [by decs|].
    destruct (decide (a = z0)) as [->|A5]; [assert (pc <> z0) by (intros ->; by apply D15); by decs|].
    destruct (decide (a = pc)) as [->|A6]; [by decs|]. destruct (decide (a = r)) as [E7|A7], (decide (a = z)) as [E8|A8]; decs; try done.
    destruct (avl_nodes t !! a); [|done]. by destruct (idx_of C).
Qed.

Lemma remove_swap_ok : exists t', remove_swap t p tmp (cell d (root x) (root s) (par_of c) (idx_of c) b) = Ok t' /\
  view t' (c' ++ (d, q, b, s) :: c) low1 /\ avl_numnodes t' = avl_numnodes t.
Proof using All.
  destruct swap_distinct as ((D1 & D2 & D3) & (D4 & D5 & D6) & (D7 & D8 & D9 & D10) & (D11 & D12 & D13 & D14 & D15) & (N1 & N2 & N3) & Dc).
  pose proof swap_low as (HC & Hl & _). pose proof Hv as (Hc & Hm & _). apply repr_mk in Hm as (_ & Ep & Hx & Hrs). apply repr_mk in Hl as (_ & Eq & _ & Hy).
  assert (Rx : c' = [] /\ root x = q \/ c' <> [] /\ root x ∈ caddrs c').
  { destruct (decide (c' = [])) as [->|Hne]; [left; cbn; by rewrite root_mk|right]. destruct (root_plug c' Hne) as (r & Hr & Er). split; [done|by rewrite Er]. }
  assert (Nx : x <> E) by (intros E0; rewrite E0 in Rx; cbn [root] in Rx; destruct Rx as [[_ ?]|[_ Hr]]; [congruence|apply Dc in Hr; naive_solver]).
  destruct (remove_swap_run t d p q tmp (root x) (root s) (root y) (par_of c) (par_of C) (idx_of c) (idx_of C) b bq Ed Ep Eq Es) as (t' & Et & En & Er & Ec); try done.
  - intros E0. destruct Rx as [[-> _]|[_ Hr]]; [done|]. rewrite E0 in Hr. apply Dc in Hr; naive_solver.
  - apply (repr_present _ _ _ _ _ Hx). by apply root_in.
  - apply (repr_present _ _ _ _ _ Hrs). by apply root_in.
  - intros H. apply (repr_present _ _ _ _ _ Hy). by apply root_or.
  - apply (reprc_present _ _ _ _ _ HC). apply par_in. by destruct c'.
  - intros H. apply (reprc_present _ _ _ _ _ Hc). by apply par_or.
  - intros E0. destruct Rx as [[_ Eq']|[_ Hr]]; [congruence|]. rewrite <- E0 in Hr. apply Dc in Hr; naive_solver.
  - destruct c' as [|[[[? pp] ?] ?] ?]; cbn; [done|]. intros E0. subst pp. destruct (Dc tmp) as (_ & _ & _ & ? & _); [rewrite caddrs_cons; by left|done].
  - exists t'. split; [done|]. split; [|done]. apply view_app, view_step. eapply view_frame; [apply swap2_view| |].
    + unfold swap2, swap1, renamed. rewrite Er, root_put. cbn [avl_root set_nodes]. rewrite root_put.
      rewrite (proj2 (Z.eqb_neq (par_of C) NULL)); [done|]. apply (reprc_nonnull _ _ _ _ _ HC). apply par_in. by destruct c'.
    + intros a Ha. rewrite En. apply swap_agree. intros ->. pose proof swap_nodup as Hn. rewrite mk_addrs, plug_addrs, mk_addrs in Ha.
      clear -Hn Ha D1 D2. cbn in Hn, Ha. rewrite NoDup_cons, NoDup_cons in Hn. set_solver.
Qed.
End swap.
End AvlSwap.
