(* ===== verification/AvlRemove.v ===== *)
(** Removal from a tree in memory. *)

From S2P Require Import Prelude Avl AvlTree AvlHeap AvlInsert AvlWalk AvlSwap.
Import Avl AvlTree AvlHeap AvlRotate AvlInsert AvlWalk AvlSwap.
Open Scope Z_scope.

Module AvlRemove.

(** ** A node with at most one child *)

Lemma unlink_ok t c d p b x : view t c (mk d p b x E) ->
  exists t1, adopt t (root x) (par_of c) (idx_of c) = Ok t1 /\ avl_numnodes t1 = avl_numnodes t /\
    view (put (par_of c) (idx_of c) (root x) t1) c x /\ (par_of c <> NULL -> is_Some (avl_nodes t1 !! par_of c)).
Proof.
  intros Hv. pose proof (view_nodup _ _ _ _ _ _ _ Hv) as Hn. cbn [inorder app] in Hn. destruct Hv as (Hc & Hr & _). rewrite root_mk in Hc.
  apply repr_mk in Hr as (Hp & Ep & Hx & _). pose proof (root_or x) as Hrx. pose proof (par_or c) as Hpc.
  assert (Hn' : NoDup (mjoin [[p]; inorder x; caddrs c])) by (cbn; by rewrite app_nil_r).
  rewrite adopt_ok by (intros H; apply (repr_present _ _ _ _ _ Hx); auto). eexists. split; [done|]. split; [done|].
  split; [|intros H; cbn [avl_nodes set_nodes]; rewrite adopted_is_Some; apply (reprc_present _ _ _ _ _ Hc); auto].
  assert (Hrp : forall q, q <> NULL -> q = root x -> q = par_of c -> False) by (intros q Hq -> E; specialize (Hrx Hq); rewrite E in Hrx, Hq; specialize (Hpc Hq); clash Hn').
  split; [|split].
  - apply (reprc_put (avl_nodes t) _ (avl_root t) _ c p); [done| | | |cbn in Hn'; rewrite app_nil_r, NoDup_cons, NoDup_app in Hn'; tauto].
    + intros ->. by rewrite root_put.
    + intros Hne. assert (Hnn : par_of c <> NULL) by (by rewrite (par_null _ _ _ _ Hc)). rewrite root_put, (proj2 (Z.eqb_neq _ _)) by done.
      split; [done|]. rewrite lookup_put, decide_True by done. cbn [avl_nodes set_nodes]. rewrite lookup_adopted, decide_False; [done|]. intros [E ?]. by apply (Hrp (par_of c)).
    + intros q Hq Hne. rewrite lookup_put, decide_False by tauto. cbn [avl_nodes set_nodes]. rewrite lookup_adopted, decide_False; [done|]. intros [-> H]. specialize (Hrx H). clash Hn'.
  - apply (repr_move (avl_nodes t) _ x p d); [done|cbn in Hn'; rewrite NoDup_cons, NoDup_app in Hn'; tauto| |].
    + intros Hne. assert (Hr0 : root x <> NULL) by (by rewrite (root_null _ _ _ _ Hx)). rewrite lookup_put, decide_False by (intros [E ?]; by apply (Hrp (root x))).
      cbn [avl_nodes set_nodes]. by rewrite lookup_adopted, decide_True.
    + intros q Hq Hne. rewrite lookup_put. cbn [avl_nodes set_nodes]. rewrite lookup_adopted, (decide_False (P := q = root x /\ _)) by tauto.
      rewrite decide_False; [done|]. intros [-> H]. specialize (Hpc H). clash Hn'.
  - rewrite plug_addrs. by apply NoDup_cons in Hn as [_ Hn].
Qed.

(** ** Rebalancing *)

Abbreviation shrink_body := (fun '(t, parent, which_child) =>
    let node := parent in
    n ← get t node;
    let old_balance := avl_balance n in
    let new_balance := old_balance - avl_child2balance which_child in
    let parent := avl_parent n in
    let which_child := avl_child_index n in
    if old_balance =? 0 then t ← AVL_SETBALANCE t node new_balance; Ok (inr t)
    else
      '(t, stop) ←
        (if new_balance =? 0 then t ← AVL_SETBALANCE t node new_balance; Ok (t, false)
         else '(t, shorter) ← avl_rotation t node new_balance; Ok (t, negb shorter));
      Ok (if (stop : bool) then inr t else if negb (parent =? NULL) then inl (t, parent, which_child) else inr t)).

Lemma shrink_body_ok t d p b s c sub : view t ((d, p, b, s) :: c) sub -> balanced sub -> around ((d, p, b, s) :: c) (height sub + 1) ->
  exists t1 sub1 (stop : bool), shrink_body (t, p, d) = Ok (if stop then inr t1 else if negb (par_of c =? NULL) then inl (t1, par_of c, idx_of c) else inr t1) /\
    view t1 c sub1 /\ avl_numnodes t1 = avl_numnodes t /\
    if stop then shrink ((d, p, b, s) :: c) sub = plug c sub1 else shrink ((d, p, b, s) :: c) sub = shrink c sub1 /\ balanced sub1 /\ around c (height sub1 + 1).
Proof.
  intros Hv Bt (Hb & Hr & Bs & Ha). pose proof Hv as ((Hp & E & _) & _). pose proof (height_nonneg s). pose proof (height_nonneg sub).
  cbv beta iota zeta. rewrite (get_ok _ _ _ E). destruct (cell_fields d (root sub) (root s) (par_of c) (idx_of c) b) as (Ef1 & Ef2 & Ef3). bnd. rewrite Ef1, Ef2, Ef3. cbn [shrink].
  destruct (Z.eqb_spec b 0) as [Eb|Eb]; [|destruct (Z.eqb_spec (b - avl_child2balance d) 0) as [En|En]].
  - destruct (view_balance _ _ _ _ _ _ _ (b - avl_child2balance d) Hv) as (t1 & -> & Hv1 & En & _). bnd. exists t1. by eexists _, true.
  - rewrite En. destruct (view_balance _ _ _ _ _ _ _ 0 Hv) as (t1 & -> & Hv1 & En1 & _). bnd. exists t1. eexists _, false. split; [done|]. split; [done|].
    split; [done|]. split; [done|]. split; [rewrite mk_balanced; destruct d; cbn in *; split_and!; try done; lia|].
    rewrite mk_height. replace (1 + Z.max (height sub) (height s) + 1) with (1 + Z.max (height sub + 1) (height s)); [done|]. destruct d; cbn in *; lia.
  - assert (Hh : height s = height sub + 2) by (destruct d; cbn in *; lia).
    destruct (rotate_balanced (negb d) p s sub Bs Bt Hh) as (Hne & Hk & Br & Hsh & Hn).
    assert (Em : mk (negb d) p b s sub = mk d p b sub s) by (by destruct d). apply view_step in Hv. rewrite <- Em in Hv.
    destruct (avl_rotation_ok t c (negb d) p b s sub (b - avl_child2balance d) Hv) as (t1 & -> & Hv1 & En1); [destruct d; cbn in *; lia|done|done|]. bnd.
    destruct (rotate (negb d) p s sub) as [t2 sh]. cbn [fst snd] in *. exists t1, t2, (negb sh). split; [done|]. split; [done|]. split; [done|]. destruct sh; cbn [negb]; [|done].
    split; [done|]. split; [done|]. rewrite Hsh by done. by replace (height s + 1) with (1 + Z.max (height sub + 1) (height s)) by lia.
Qed.

Lemma loop_step {S R} k (body : S -> res (S + R)) s o : body s = Ok o ->
  loop (Datatypes.S k) body s = match o with inl s' => loop k body s' | inr r => Ok r end.
Proof. intros E. cbn [loop]. rewrite E. by destruct o. Qed.

Lemma shrink_loop c : forall d p b s t sub k, view t ((d, p, b, s) :: c) sub -> balanced sub -> around ((d, p, b, s) :: c) (height sub + 1) -> (length c < k)%nat ->
  exists t', loop k shrink_body (t, p, d) = Ok t' /\ view t' [] (shrink ((d, p, b, s) :: c) sub) /\ avl_numnodes t' = avl_numnodes t.
Proof.
  induction c as [|[[[d' p'] b'] s'] c IH]; intros d p b s t sub k Hv Bt Ha Hk; (destruct k as [|k]; [lia|]);
    destruct (shrink_body_ok t d p b s _ sub Hv Bt Ha) as (t1 & sub1 & stop & E & Hv1 & En & Hst); rewrite (loop_step k shrink_body (t, p, d) _ E); clear E.
  - destruct stop; exists t1; (split; [done|]); [by rewrite Hst|]. destruct Hst as [-> _]. done.
  - destruct stop; [exists t1; split; [done|]; rewrite Hst; split; [by apply (proj1 (view_plug _ _ _))|done]|].
    destruct Hst as (Hst & Bs1 & Ha1). pose proof Hv1 as ((Hp' & _) & _). cbn [par_of idx_of]. rewrite (proj2 (Z.eqb_neq p' NULL)) by done. cbn [negb].
    destruct (IH _ _ _ _ t1 sub1 k Hv1 Bs1 Ha1) as (t' & E' & Hv' & En'); [cbn in Hk; lia|]. exists t'. split; [exact E'|]. rewrite Hst. split; [done|congruence].
Qed.

(** ** Removal *)

Abbreviation remove_rest t delete := (
  _ ← verify (negb (avl_numnodes t =? 0));
  let t := set_numnodes t (avl_numnodes t - 1) in
  d ← get t delete;
  let parent := avl_parent d in
  let which_child := avl_child_index d in
  let node := if negb (avl_child d false =? NULL) then avl_child d false else avl_child d true in
  t ← adopt t node parent which_child;
  if parent =? NULL then Ok (set_root t node)
  else
    t ← set_child t parent which_child node;
    remove_rebalance t parent which_child).

Lemma remove_rest_ok t c d p b x : view t c (mk d p b x E) -> balanced x -> around c (height x + 1) -> avl_numnodes t <> 0 ->
  exists t', remove_rest t p = Ok t' /\ view t' [] (shrink c x) /\ avl_numnodes t' = avl_numnodes t - 1.
Proof.
  intros Hv Bx Ha Hnn. rewrite (proj2 (Z.eqb_neq (avl_numnodes t) 0)) by done. cbn [negb verify]. bnd.
  set (t0 := set_numnodes t (avl_numnodes t - 1)). assert (Hv0 : view t0 c (mk d p b x E)) by exact Hv.
  pose proof Hv0 as (_ & Hr & _). apply repr_mk in Hr as (Hp & Ep & Hx & _). rewrite (get_ok _ _ _ Ep). bnd.
  destruct (cell_fields d (root x) (root E) (par_of c) (idx_of c) b) as (-> & -> & _).
  replace (if negb (avl_child _ false =? NULL) then _ else _) with (root x) by (destruct d; cbn; [done|]; by destruct (Z.eqb_spec (root x) NULL)).
  destruct (unlink_ok t0 c d p b x Hv0) as (t1 & -> & En & Hv1 & Hp1). bnd.
  destruct c as [|[[[d' p'] b'] s'] c]; [exists (set_root t1 (root x)); split; [done|]; split; [done|exact En]|].
  pose proof Hv1 as ((Hp' & _) & _). cbn [par_of idx_of] in *. rewrite (proj2 (Z.eqb_neq p' NULL)) by done. unfold set_child. rewrite mod_node_ok by auto. bnd.
  unfold put in Hv1. rewrite (proj2 (Z.eqb_neq p' NULL)) in Hv1 by done. cbn [negb] in Hv1. set (t2 := set_nodes _ _) in *.
  destruct (shrink_loop c d' p' b' s' t2 x (fuel t2) Hv1 Bx Ha) as (t3 & E3 & Hv3 & En3).
  - pose proof (view_size _ _ _ Hv1). unfold fuel. cbn [length] in *. unfold ctx, frame in *. lia.
  - exists t3. split; [exact E3|]. split; [done|]. rewrite En3. exact En.
Qed.

Lemma locate p X : p ∈ inorder X -> exists c l b r, X = plug c (T l p b r).
Proof.
  induction X as [|l IHl q b r IHr]; cbn; [set_solver|]. rewrite elem_of_app, elem_of_cons. intros [H|[->|H]].
  - destruct (IHl H) as (c & l' & b' & r' & ->). exists (c ++ [(false, q, b, r)]), l', b', r'. by rewrite plug_app.
  - by exists [], l, b, r.
  - destruct (IHr H) as (c & l' & b' & r' & ->). exists (c ++ [(true, q, b, l)]), l', b', r'. by rewrite plug_app.
Qed.

(** The order in which the nodes are after an exchange and a removal. *)
Lemma swap_order d (c c' : ctx) b q bq y s : beyond (negb d) c' = [] ->
  let C := c' ++ (d, q, b, s) :: c in let x := plug c' (mk (negb d) q bq E y) in
  lefts C ++ inorder y ++ rights C = lefts c ++ (if d then inorder s ++ inorder x else inorder x ++ inorder s) ++ rights c.
Proof.
  intros Hb C x. pose proof (beyond_app true c' ((d, q, b, s) :: c)) as R. pose proof (beyond_app false c' ((d, q, b, s) :: c)) as L.
  unfold beyond, join in L, R. fold C in L, R. rewrite L, R. unfold x. rewrite plug_inorder, mk_inorder.
  destruct d; cbn in Hb |- *; rewrite Hb; cbn; by rewrite ?app_nil_r, <- ?app_assoc; cbn; rewrite <- ?app_assoc.
Qed.

Lemma swap_balanced d c c' p b q bq (tmp : Z) y s : balanced (plug c (mk d p b (plug c' (mk (negb d) q bq E y)) s)) ->
  balanced y /\ around (c' ++ (d, q, b, s) :: c) (height y + 1).
Proof.
  set (x := plug c' (mk (negb d) q bq E y)). set (x1 := plug c' (mk (negb d) tmp bq E y)). intros Hb.
  assert (Hh : height x = height x1) by (apply plug_height; by rewrite !mk_height).
  assert (B : balanced (plug (c' ++ (d, q, b, s) :: c) (mk (negb d) tmp bq E y))).
  { rewrite plug_app. cbn [plug]. apply plug_balanced in Hb as [Hb Ha]. apply plug_balanced. rewrite mk_height in *. fold x1. rewrite <- Hh. split; [|done].
    apply mk_balanced in Hb as (E1 & E2 & Bx & Bs). apply mk_balanced. rewrite <- Hh. split_and!; try done; try lia.
    unfold x, x1 in *. apply plug_balanced in Bx as [Bx Ha']. apply plug_balanced. rewrite mk_height in *. split; [|done]. by rewrite mk_balanced in *. }
  apply plug_balanced in B as [B Ha]. apply mk_balanced in B as (_ & _ & _ & By). split; [done|]. rewrite mk_height in Ha. cbn in Ha.
  pose proof (height_nonneg y). by replace (1 + Z.max 0 (height y)) with (height y + 1) in Ha by lia.
Qed.

Lemma avl_remove_ok t c l p b r tmp : view t c (T l p b r) -> balanced (plug c (T l p b r)) -> tmp <> NULL -> tmp ∉ inorder (plug c (T l p b r)) ->
  avl_numnodes t <> 0 ->
  exists t' X, avl_remove t p tmp = Ok t' /\ view t' [] X /\ balanced X /\ inorder X = (lefts c ++ inorder l) ++ inorder r ++ rights c /\
    avl_numnodes t' = avl_numnodes t - 1.
Proof.
  intros Hv HB Ht Hin Hnn. pose proof Hv as (_ & (Hp & Ep & Hl & Hr) & _). unfold avl_remove. rewrite (get_ok _ _ _ Ep). bnd. cbn [avl_child avl_child0 avl_child1].
  destruct (Z.eqb_spec (root l) NULL) as [El|El]; [|destruct (Z.eqb_spec (root r) NULL) as [Er|Er]]; cbn [negb andb]; bnd.
  - apply (root_null _ _ _ _ Hl) in El as ->. change (T E p b r) with (mk true p b r E) in *. apply plug_balanced in HB as [Bm Ha].
    apply mk_balanced in Bm as (_ & _ & Br & _). rewrite mk_height in Ha. cbn [height] in Ha. pose proof (height_nonneg r).
    replace (1 + Z.max (height r) 0) with (height r + 1) in Ha by lia.
    destruct (remove_rest_ok t c true p b r Hv Br Ha Hnn) as (t' & E & Hv' & En). destruct (shrink_ok c r Br Ha) as [Bs Es].
    exists t', (shrink c r). split; [exact E|]. cbn [inorder]. by rewrite app_nil_r.
  - apply (root_null _ _ _ _ Hr) in Er as ->. change (T l p b E) with (mk false p b l E) in *. apply plug_balanced in HB as [Bm Ha].
    apply mk_balanced in Bm as (_ & _ & Bl & _). rewrite mk_height in Ha. cbn [height] in Ha. pose proof (height_nonneg l).
    replace (1 + Z.max (height l) 0) with (height l + 1) in Ha by lia.
    destruct (remove_rest_ok t c false p b l Hv Bl Ha Hnn) as (t' & E & Hv' & En). destruct (shrink_ok c l Bl Ha) as [Bs Es].
    exists t', (shrink c l). split; [exact E|]. cbn [inorder app]. by rewrite <- app_assoc.
  - set (d := avl_balance2child (b + 1)). assert (Hne : l <> E /\ r <> E) by (split; intros ->; done). destruct Hne as [Nl Nr].
    set (x := if d then r else l). set (s := if d then l else r). assert (Em : T l p b r = mk d p b x s) by (unfold x, s; by destruct d).
    assert (Nx : x <> E) by (unfold x; by destruct d). assert (Ns : s <> E) by (unfold s; by destruct d). rewrite Em in Hv, HB, Hin.
    assert (Ec : AvlNode (root l) (root r) (par_of c) (idx_of c) b = cell d (root x) (root s) (par_of c) (idx_of c) b) by (unfold x, s; by destruct d).
    destruct (descend_ok (negb d) x t _ (proj2 (view_step _ _ _ _ _ _ _) Hv) Nx) as (c' & q & bq & y & Ex & Hb & Ed).
    rewrite Ex in Hv, HB, Hin, Ed, Ec. rewrite Ec. destruct (remove_swap_ok t c c' d p b q bq tmp s y Hv Ns eq_refl Ed Ht Hin) as (t1 & -> & Hv1 & En1). bnd.
    destruct (swap_balanced d c c' p b q bq tmp y s HB) as [By Ha].
    assert (Em1 : mk (negb d) tmp bq E y = mk d tmp bq y E) by (by destruct d). rewrite Em1 in Hv1. rewrite <- En1 in Hnn.
    destruct (remove_rest_ok t1 _ d tmp bq y Hv1 By Ha Hnn) as (t' & E & Hv' & En). destruct (shrink_ok _ y By Ha) as [Bs Es].
    exists t', (shrink (c' ++ (d, q, b, s) :: c) y). split; [exact E|]. split; [done|]. split; [done|]. split; [|lia].
    rewrite Es, (swap_order d c c' b q bq y s Hb), <- Ex. unfold x, s. destruct d; by rewrite <- !app_assoc.
Qed.
End AvlRemove.
