(* ===== verification/AvlDestroy.v ===== *)
(** Tearing down a tree: [avl_destroy_nodes] hands out every node once, and does
    not look at one again that it has handed out. *)

From S2P Require Import Prelude Avl AvlTree AvlHeap AvlInsert AvlWalk AvlSwap AvlRemove.
Import Avl AvlTree AvlHeap AvlRotate AvlInsert AvlWalk AvlSwap AvlRemove.
Open Scope Z_scope.

Module AvlDestroy.

(** The caller frees each node it is given. *)
Definition free_node (t : avl_tree) (p : Z) : avl_tree := set_nodes t (delete p (avl_nodes t)).

Definition destroy_all (k : nat) (t : avl_tree) : res (avl_tree * list Z) :=
  loop k (fun '(t, cookie, seen) =>
    '(t, cookie, node) ← avl_destroy_nodes t cookie;
    Ok (if node =? NULL then inr (t, rev seen) else inl (free_node t node, cookie, node :: seen))) (t, (NULL, false), []).

(** ** The order of the visits *)

Fixpoint postorder (x : tree) : list Z := match x with E => [] | T l p _ r => postorder l ++ postorder r ++ [p] end.
(** What remains when all below the hole has been visited. *)
Fixpoint todo (c : ctx) : list Z := match c with [] => [] | (d, p, b, s) :: c => (if d then [] else postorder s) ++ p :: todo c end.

Lemma postorder_perm x : postorder x ≡ₚ inorder x.
Proof. induction x as [|l IHl p b r IHr]; cbn; [done|]. rewrite IHl, IHr. solve_Permutation. Qed.

Lemma todo_app c' : forall c z, beyond false c' = [] -> todo (c' ++ c) = todo c' ++ todo c /\ postorder (plug c' z) = postorder z ++ todo c'.
Proof.
  induction c' as [|[[[d p] b] s] c' IH]; intros c z Hb; cbn [app todo plug]; [by rewrite app_nil_r|].
  rewrite beyond_cons in Hb. destruct d; cbn [Bool.eqb] in Hb; [exfalso; cbn in Hb; by destruct (lefts c'), (inorder s)|].
  destruct (IH c (mk false p b z s) Hb) as [-> ->]. cbn. by rewrite <- !app_assoc.
Qed.

(** ** What is left of the tree *)

(** A hole with everything before it gone. *)
Fixpoint half (c : ctx) : Prop := match c with [] => True | (d, p, b, s) :: c => (if d then s = E else balanced s) /\ half c end.

Lemma half_app c' c : half (c' ++ c) <-> half c' /\ half c.
Proof. induction c' as [|[[[d p] b] s] c' IH]; cbn [app half]; [tauto|]. rewrite IH. tauto. Qed.

(** The node [x] below the hole has been handed out. *)
Definition torn (t : avl_tree) (c : ctx) (x : Z) (cookie : avl_index) : Prop :=
  reprc (avl_nodes t) (avl_root t) c x /\ NoDup (caddrs c) /\ half c /\ x <> NULL /\ (x ∉ caddrs c) /\
  avl_numnodes t = Z.of_nat (length (caddrs c)) + 1 /\ cookie = match c with [] => (NULL, true) | _ => (par_of c, idx_of c) end.

Lemma plug_half c x : balanced (plug c x) -> beyond false c = [] -> half c.
Proof.
  revert x. induction c as [|[[[d p] b] s] c IH]; intros x; [done|]. cbn [plug half]. rewrite beyond_cons. intros Hb.
  destruct d; cbn [Bool.eqb]; [intros Hc; exfalso; cbn in Hc; by destruct (lefts c), (inorder s)|]. intros Hc. split; [|by eapply IH].
  apply plug_balanced in Hb as [Hb _]. apply mk_balanced in Hb. tauto.
Qed.

(** ** A step down *)

Definition check_right_side (t : avl_tree) (node parent : Z) : res (avl_tree * Z * Z) :=
    n ← get t node;
    if negb (avl_child n true =? NULL) then Ok (t, avl_child n true, node) else Ok (t, node, parent).
Definition done_with (t : avl_tree) (node parent : Z) : res (avl_tree * avl_index * Z) :=
      if parent =? NULL then Ok (t, (NULL, true), node)
      else n ← get t node; Ok (t, (parent, avl_child_index n), node).

(** From the first node of a subtree to its right child, if it has one, which is
    a leaf then. *)
Lemma visit_first t c q bq y : view t c (mk false q bq E y) -> balanced (mk false q bq E y) -> half c -> avl_numnodes t = Z.of_nat (length (caddrs c)) + 1 + Z.of_nat (length (inorder y)) ->
  exists c2 x cookie, ('(t, node, parent) ← check_right_side t q (par_of c); done_with t node parent) = Ok (t, cookie, x) /\ torn t c2 x cookie /\
    postorder (mk false q bq E y) ++ todo c = x :: todo c2.
Proof.
  intros Hv Hb Hh Hnn. pose proof (view_nodup _ _ _ _ _ _ _ Hv) as Hn. cbn [inorder app] in Hn. pose proof Hv as (Hc & Hr & _). rewrite root_mk in Hc. unfold check_right_side, done_with.
  apply repr_mk in Hr as (Hq & Eq & _ & Hy). rewrite (get_ok _ _ _ Eq). bnd. cbn [cell avl_child avl_child1].
  destruct (Z.eqb_spec (root y) NULL) as [Ey|Ey]; cbn [negb]; bnd.
  - apply (root_null _ _ _ _ Hy) in Ey as ->. cbn [inorder app length] in Hnn, Hn. apply NoDup_cons in Hn as [Nq Hn].
    exists c, q. eexists. split.
    + instantiate (1 := match c with [] => (NULL, true) | _ => (par_of c, idx_of c) end).
      destruct (decide (c = [])) as [->|Hne]; [done|]. rewrite (proj2 (Z.eqb_neq (par_of c) NULL)) by (by rewrite (par_null _ _ _ _ Hc)).
      rewrite (get_ok _ _ _ Eq). bnd. by destruct c.
    + split; [|done]. repeat split; try done. lia.
  - destruct y as [|l p b r]; [done|]. apply mk_balanced in Hb as (E1 & E2 & _ & By). cbn [height] in E1. destruct By as (Eb & _ & _ & _).
    pose proof (height_nonneg l). pose proof (height_nonneg r). cbn in E1.
    assert (El : l = E) by (destruct (decide (l = E)); [done|]; assert (0 < height l) by (by apply height_pos); lia).
    assert (Er : r = E) by (destruct (decide (r = E)); [done|]; assert (0 < height r) by (by apply height_pos); lia). subst l r.
    destruct Hy as (Hp & Ep & _). cbn [root] in *. rewrite (proj2 (Z.eqb_neq q NULL)) by done. rewrite (get_ok _ _ _ Ep). bnd.
    exists ((true, q, bq, E) :: c), p. eexists. split; [done|]. split; [|done]. cbn in Hn, Hnn.
    assert (Pc : caddrs ((true, q, bq, E) :: c) ≡ₚ q :: caddrs c) by (rewrite caddrs_cons; done). unfold torn.
    rewrite (Permutation_length Pc), Pc. rewrite !NoDup_cons in Hn. destruct Hn as (N1 & N2 & N3). split_and!; try done.
    + apply NoDup_cons. set_solver.
    + set_solver.
    + cbn. lia.
Qed.

Abbreviation left_body t := (fun '(node, parent) =>
           n ← get t node;
           Ok (if negb (avl_child n false =? NULL) then inl (avl_child n false, node) else inr (node, parent))).

Lemma left_loop t m : forall c x k, (length (inorder x) <= m)%nat -> view t c x -> x <> E -> (length (inorder x) <= k)%nat ->
  exists c' q b y, x = plug c' (mk false q b E y) /\ beyond false c' = [] /\ loop k (left_body t) (root x, par_of c) = Ok (q, par_of (c' ++ c)).
Proof.
  induction m as [|m IH]; intros c x k Hm Hv Hx Hk; (destruct x as [|l p b r]; [done|]); cbn [inorder] in Hm, Hk; rewrite length_app in Hm, Hk; cbn [length] in Hm, Hk; [lia|].
  pose proof Hv as (_ & (Hp & Ep & Hl & _) & _). destruct k as [|k]; [lia|]. cbn [loop root]. rewrite (get_ok _ _ _ Ep). bnd. cbn [avl_child avl_child0].
  destruct (Z.eqb_spec (root l) NULL) as [El|El]; cbn [negb].
  - apply (root_null _ _ _ _ Hl) in El as ->. by exists [], p, b, r.
  - assert (Nl : l <> E) by (by intros ->). change (T l p b r) with (mk false p b l r) in Hv. apply view_step in Hv.
    destruct (IH _ l k ltac:(lia) Hv Nl) as (c' & q & bq & y & -> & Hb & E); [lia|].
    exists (c' ++ [(false, p, b, r)]), q, bq, y. split; [by rewrite plug_app|]. split; [by rewrite beyond_app, Hb|]. rewrite <- app_assoc. exact E.
Qed.

(** ** The calls *)

Lemma first_call t X : view t [] X -> balanced X -> X <> E -> avl_numnodes t = Z.of_nat (length (inorder X)) ->
  exists c x cookie, avl_destroy_nodes t (NULL, false) = Ok (t, cookie, x) /\ torn t c x cookie /\ postorder X = x :: todo c.
Proof.
  intros Hv HB HX Hnn. destruct (descend_ok false X t [] Hv HX) as (c & q & bq & y & -> & Hb & _). unfold avl_destroy_nodes, avl_first.
  rewrite (avl_end_ok false t _ Hv), end_edge by done. apply view_plug in Hv. pose proof Hv as (_ & Hr & _). apply repr_mk in Hr as (Hq & Eq & _).
  cbn [Z.eqb NULL negb andb]. bnd. rewrite (proj2 (Z.eqb_neq q NULL)) by done. rewrite (get_ok _ _ _ Eq). bnd. cbn [cell avl_parent].
  pose proof HB as HB'. apply plug_balanced in HB' as [Bm _]. rewrite (Permutation_length (plug_addrs _ _)), length_app, (Permutation_length (mk_addrs _ _ _ _ _)) in Hnn.
  cbn [inorder app length] in Hnn. destruct (visit_first t c q bq y Hv Bm (plug_half _ _ HB Hb)) as (c2 & x & ck & Eck & Ht & Ho); [lia|].
  exists c2, x, ck. split; [|split; [done|]].
  - revert Eck. unfold check_right_side, done_with. rewrite (get_ok _ _ _ Eq). bnd. cbn [cell avl_child avl_child1]. destruct (negb (root y =? NULL)); bnd; by intros.
  - rewrite <- Ho. by destruct (todo_app c [] (mk false q bq E y) Hb) as [_ ->].
Qed.

Lemma torn_free t c x ck : torn t c x ck -> torn (free_node t x) c x ck.
Proof.
  intros (Hc & Hn & Hh & Hx & Hin & Hnn & Hk). split; [|done]. apply (reprc_frame (avl_nodes t)); [|done].
  intros q Hq. cbn. apply lookup_delete_ne. by intros ->.
Qed.

(** The parent without the child handed out last. *)
Lemma torn_cut t d p b s c x ck : torn t ((d, p, b, s) :: c) x ck ->
  exists t1, set_child t p d NULL = Ok t1 /\ avl_numnodes t1 = avl_numnodes t /\ p <> NULL /\ avl_nodes t1 !! p = Some (cell d NULL (root s) (par_of c) (idx_of c) b) /\
    repr (avl_nodes t1) s p (negb d) /\ reprc (avl_nodes t1) (avl_root t1) c p.
Proof.
  intros ((Hp & Ep & Hs & Hc) & Hn & _). rewrite caddrs_cons in Hn. apply NoDup_cons in Hn as [Np _]. unfold set_child. rewrite mod_node_ok by eauto.
  eexists. split; [done|]. split; [done|]. split; [done|]. cbn [avl_nodes set_nodes avl_root]. split; [rewrite lookup_alter_eq, Ep; by destruct d|].
  split; [apply (repr_frame (avl_nodes t)); [|done]|apply (reprc_frame (avl_nodes t)); [|done]]; intros q Hq; rewrite lookup_alter_ne; try done; intros ->; set_solver.
Qed.

Lemma next_call t c x ck : torn t c x ck -> c <> [] ->
  exists t' c2 x2 ck2, avl_destroy_nodes t ck = Ok (t', ck2, x2) /\ torn t' c2 x2 ck2 /\ todo c = x2 :: todo c2.
Proof.
  intros Ht Hne. destruct c as [|[[[d p] b] s] c]; [done|]. destruct (torn_cut _ _ _ _ _ _ _ _ Ht) as (t1 & E1 & En1 & Hp & Ep & Hs & Hc).
  destruct Ht as (_ & Hn & (Hd & Hh) & _ & _ & Hnn & ->). rewrite (Permutation_length (caddrs_cons _ _ _ _ _)) in Hnn. cbn in Hnn. rewrite length_app in Hnn.
  rewrite caddrs_cons, NoDup_cons, NoDup_app in Hn. destruct Hn as (Np & Ns & Dsc & Nc).
  unfold avl_destroy_nodes. cbn [par_of idx_of]. rewrite (proj2 (Z.eqb_neq p NULL)) by done. cbn [andb]. rewrite E1. bnd. rewrite En1, Hnn.
  rewrite (proj2 (Z.leb_gt _ _)) by lia. cbn [negb verify]. bnd. set (t2 := set_numnodes t1 _). change (avl_nodes t1) with (avl_nodes t2) in *.
  change (avl_root t1) with (avl_root t2) in Hc. rewrite (get_ok _ _ _ Ep). bnd.
  destruct (d || (avl_child (cell d NULL (root s) (par_of c) (idx_of c) b) true =? NULL)) eqn:Ed; bnd.
  - destruct (cell_fields d NULL (root s) (par_of c) (idx_of c) b) as (-> & Ei & _).
    assert (Es : (if d then [] else postorder s) = [] /\ inorder s = []).
    { destruct d; [by rewrite Hd|]. cbn in Ed. apply Z.eqb_eq, (root_null _ _ _ _ Hs) in Ed as ->. done. }
    destruct Es as [Es1 Es2]. exists t2, c, p, (match c with [] => (NULL, true) | _ => (par_of c, idx_of c) end). split; [|split].
    + destruct (decide (c = [])) as [->|Hc0]; [done|]. rewrite (proj2 (Z.eqb_neq (par_of c) NULL)) by (by rewrite (par_null _ _ _ _ Hc)).
      rewrite (get_ok _ _ _ Ep). bnd. rewrite Ei. by destruct c.
    + rewrite Es2 in *. split_and!; try done. unfold t2. cbn [avl_numnodes set_numnodes]. rewrite Es2. cbn [length]. lia.
    + cbn [todo]. by rewrite Es1.
  - apply orb_false_iff in Ed as [-> Ed]. cbn [cell avl_child avl_child1 avl_child0] in *. apply Z.eqb_neq in Ed. assert (Nse : s <> E) by (by intros ->).
    assert (Hv : view t2 ((true, p, b, E) :: c) s).
    { split; [|split; [done|]]; [by repeat split|]. rewrite plug_addrs, caddrs_cons. cbn. apply NoDup_app. split; [done|]. rewrite NoDup_cons. set_solver. }
    pose proof (view_size _ _ _ Hv) as Hsz. destruct (left_loop t2 _ _ s (fuel t2) (le_n _) Hv Nse) as (c' & q & bq & y & Es & Hb & El); [unfold fuel; lia|].
    cbn [par_of avl_child] in El. rewrite El. bnd. rewrite Es in Hv, Hd. apply view_app in Hv. pose proof Hd as Bm. apply plug_balanced in Bm as [Bm _].
    destruct (visit_first t2 _ q bq y Hv Bm) as (c2 & x2 & ck2 & Eck & Ht2 & Ho).
    + apply half_app. split; [by eapply plug_half|]. done.
    + unfold t2. cbn [avl_numnodes set_numnodes]. rewrite (Permutation_length (caddrs_app _ _)), length_app, (Permutation_length (caddrs_cons _ _ _ _ _)).
      rewrite Es, (Permutation_length (plug_addrs _ _)), length_app, (Permutation_length (mk_addrs _ _ _ _ _)). cbn [inorder app length]. lia.
    + exists t2, c2, x2, ck2. split; [|split; [done|]].
      * pose proof Hv as (_ & Hr & _). apply repr_mk in Hr as (_ & Eq & _). rewrite (get_ok _ _ _ Eq). revert Eck. unfold check_right_side, done_with. rewrite (get_ok _ _ _ Eq). bnd.
        cbn [cell avl_child avl_child1]. destruct (negb (root y =? NULL)); bnd; by intros.
      * cbn [todo]. rewrite <- Ho, Es. destruct (todo_app c' ((true, p, b, E) :: c) (mk false q bq E y) Hb) as [-> ->]. cbn. by rewrite <- app_assoc.
Qed.

Abbreviation all_body := (fun '(t, cookie, seen) =>
    '(t, cookie, node) ← avl_destroy_nodes t cookie;
    Ok (if node =? NULL then inr (t, rev seen) else inl (free_node t node, cookie, node :: seen))).

Lemma all_loop n : forall t c x ck seen k, length (todo c) = n -> torn t c x ck -> (n < k)%nat ->
  exists t', loop k all_body (t, ck, seen) = Ok (t', rev seen ++ todo c) /\ avl_root t' = NULL /\ avl_numnodes t' = 0.
Proof.
  induction n as [|n IH]; intros t c x ck seen k Hn Ht Hk; (destruct k as [|k]; [lia|]).
  - destruct c as [|[[[d p] b] s] c]; [|cbn in Hn; rewrite length_app in Hn; cbn in Hn; lia]. destruct Ht as (Er & _ & _ & Hx & _ & _ & ->). cbn in Er.
    cbn [loop todo]. unfold avl_destroy_nodes. cbn [Z.eqb NULL negb andb]. bnd. rewrite Er, (proj2 (Z.eqb_neq x NULL)) by done. cbn [negb]. bnd.
    rewrite app_nil_r. by eexists.
  - assert (Hc : c <> []) by (by intros ->). destruct (next_call t c x ck Ht Hc) as (t1 & c2 & x2 & ck2 & E & Ht2 & Ho).
    pose proof Ht2 as (_ & _ & _ & Hx2 & _). cbn [loop]. rewrite E. bnd. rewrite (proj2 (Z.eqb_neq x2 NULL)) by done.
    rewrite Ho in Hn. cbn in Hn. destruct (IH (free_node t1 x2) c2 x2 ck2 (x2 :: seen) k) as (t' & E' & Hr); [lia|by apply torn_free|lia|].
    exists t'. split; [|done]. etrans; [exact E'|]. rewrite Ho. cbn. by rewrite <- app_assoc.
Qed.

Lemma destroy_all_ok t X k : view t [] X -> balanced X -> avl_numnodes t = Z.of_nat (length (inorder X)) -> (length (inorder X) < k)%nat ->
  exists t', destroy_all k t = Ok (t', postorder X) /\ avl_root t' = NULL /\ avl_numnodes t' = 0.
Proof.
  intros Hv HB Hnn Hk. unfold destroy_all. destruct (decide (X = E)) as [->|HX].
  - destruct k as [|k]; [cbn in Hk; lia|]. pose proof Hv as (Er & _). cbn in Er, Hnn. cbn [loop]. unfold avl_destroy_nodes, avl_first.
    rewrite (avl_end_ok false t _ Hv). cbn. by eexists.
  - destruct (first_call t X Hv HB HX Hnn) as (c & x & ck & E & Ht & Ho). pose proof Ht as (_ & _ & _ & Hx & _).
    destruct k as [|k]; [lia|]. cbn [loop]. rewrite E. bnd. rewrite (proj2 (Z.eqb_neq x NULL)) by done.
    pose proof (Permutation_length (postorder_perm X)) as Hl. rewrite Ho in Hl. cbn in Hl.
    destruct (all_loop _ (free_node t x) c x ck [x] k eq_refl) as (t' & E' & Hr); [by apply torn_free|lia|]. exists t'. split; [|done].
    etrans; [exact E'|]. by rewrite Ho.
Qed.
End AvlDestroy.
