(* ===== verification/AvlSet.v ===== *)
(** AVL trees as sorted sequences of nodes: what [avl.c] promises to those who
    use it. *)

From S2P Require Import Prelude Avl AvlTree AvlHeap AvlInsert AvlWalk AvlSwap AvlRemove AvlDestroy.
Import Avl AvlTree AvlHeap AvlRotate AvlInsert AvlWalk AvlSwap AvlRemove AvlDestroy.
Open Scope Z_scope.

Module AvlSet.

(** ** The sequence a tree holds *)

Definition seq (t : avl_tree) (l : list Z) : Prop :=
  exists X, view t [] X /\ balanced X /\ inorder X = l /\ avl_numnodes t = Z.of_nat (length l).

(** The place between [lo] and [hi]. *)
Definition gap (t : avl_tree) (w : avl_index) (lo hi : list Z) : Prop :=
  exists c, view t c E /\ balanced (plug c E) /\ w = (par_of c, idx_of c) /\ lefts c = lo /\ rights c = hi /\ avl_numnodes t = Z.of_nat (length (lo ++ hi)).

Lemma seq_nodup t l : seq t l -> NoDup l /\ (forall p, p ∈ l -> p <> NULL) /\ (length l <= size (avl_nodes t))%nat.
Proof.
  intros (X & Hv & _ & <- & _). pose proof (view_size _ _ _ Hv). destruct Hv as (_ & Hr & Hn). split; [done|]. split; [|by cbn in *].
  intros p. by apply (repr_nonnull _ _ _ _ p Hr).
Qed.

Lemma seq_create h : seq (avl_create h) [].
Proof. exists E. repeat split; try done. apply NoDup_nil_2. Qed.

Lemma nodup_split {A} (x : A) a : forall b a' b', NoDup (a' ++ x :: b') -> a ++ x :: b = a' ++ x :: b' -> a = a' /\ b = b'.
Proof.
  induction a as [|y a IH]; intros b [|z a'] b' Hn E; cbn in *; simplify_eq; try done.
  - exfalso. apply NoDup_cons in Hn as [Hn _]. set_solver.
  - exfalso. apply NoDup_cons in Hn as [Hn _]. set_solver.
  - apply NoDup_cons in Hn as [_ Hn]. destruct (IH b a' b' Hn ltac:(assumption)) as [-> ->]. done.
Qed.

Lemma seq_split t lo p hi : seq t (lo ++ p :: hi) ->
  exists c l b r, view t c (T l p b r) /\ balanced (plug c (T l p b r)) /\ lo = lefts c ++ inorder l /\ hi = inorder r ++ rights c /\
    avl_numnodes t = Z.of_nat (length (lo ++ p :: hi)).
Proof.
  intros (X & Hv & HB & Ho & Hn). destruct (locate p X) as (c & l & b & r & ->); [rewrite Ho; set_solver|].
  apply view_plug in Hv. exists c, l, b, r. pose proof Hv as (_ & _ & Hd). rewrite plug_inorder in Ho, Hd. cbn in Ho, Hd.
  rewrite <- !app_assoc in Ho, Hd. cbn in Ho, Hd. rewrite (app_assoc (lefts c)) in Ho, Hd. rewrite Ho in Hd.
  apply nodup_split in Ho as [E1 E2]; [|done]. done.
Qed.

Lemma seq_find t l compar : seq t l -> sifts compar l ->
  (exists q w, avl_find t compar = Ok (q, w) /\ q ∈ l /\ compar q = 0 /\ q <> NULL) \/
  (exists w lo hi, avl_find t compar = Ok (NULL, w) /\ l = lo ++ hi /\ Forall (fun q => compar q = 1) lo /\ Forall (fun q => compar q = -1) hi /\ gap t w lo hi).
Proof.
  intros (X & Hv & HB & Ho & Hn) Hs. rewrite <- Ho in Hs. destruct (avl_find_ok t X compar Hv Hs) as [(q & w & E & Hq)|(c & E & Hc & Hlo & Hhi)].
  - left. exists q, w. by rewrite <- Ho.
  - right. exists (par_of c, idx_of c), (lefts c), (rights c). subst X. rewrite plug_inorder in Ho. cbn in Ho. split_and!; try done.
    apply view_plug in Hv. exists c. by rewrite Ho.
Qed.

Lemma gap_insert t w lo hi p : gap t w lo hi -> p <> NULL -> (p ∉ lo ++ hi) -> Z.of_nat (length (lo ++ hi)) + 1 < 2 ^ 64 ->
  exists t', avl_insert t p w = Ok t' /\ seq t' (lo ++ p :: hi).
Proof.
  intros (c & Hv & HB & -> & <- & <- & Hn) Hp Hin Hsz. apply plug_balanced in HB as [_ Ha]. cbn in Ha.
  destruct (avl_insert_ok t c p Hv Hp Hin Ha) as (t' & E & Hv' & Hn'). exists t'. split; [done|].
  assert (Hg : grown (T AvlTree.E p 0 AvlTree.E)) by (unfold grown; cbn; split_and!; first [done|lia|right; lia]).
  exists (grow c (T AvlTree.E p 0 AvlTree.E)). split; [done|]. split; [by apply grow_balanced|]. split; [by rewrite grow_inorder|].
  rewrite Hn', Hn, Z.mod_small by lia. rewrite !length_app. cbn [length]. lia.
Qed.

Lemma seq_remove t lo p hi tmp : seq t (lo ++ p :: hi) -> tmp <> NULL -> (tmp ∉ lo ++ p :: hi) ->
  exists t', avl_remove t p tmp = Ok t' /\ seq t' (lo ++ hi).
Proof.
  intros Hs Ht Hin. destruct (seq_split _ _ _ _ Hs) as (c & l & b & r & Hv & HB & -> & -> & Hn).
  destruct (avl_remove_ok t c l p b r tmp Hv HB Ht) as (t' & X & E & Hv' & HB' & Ho' & Hn').
  - rewrite plug_inorder. cbn. by rewrite <- !app_assoc in *.
  - rewrite Hn, length_app. cbn [length]. lia.
  - exists t'. split; [done|]. exists X. split; [done|]. split; [done|]. split; [done|].
    rewrite Hn', Hn, !length_app. cbn [length]. rewrite !length_app. lia.
Qed.

Lemma seq_walk t lo p hi : seq t (lo ++ p :: hi) -> avl_walk t p AVL_BEFORE = Ok (List.last lo NULL) /\ avl_walk t p AVL_AFTER = Ok (hd NULL hi).
Proof.
  intros Hs. destruct (seq_split _ _ _ _ Hs) as (c & l & b & r & Hv & _ & -> & -> & _). split.
  - by apply (avl_walk_ok false t c l p b r).
  - by apply (avl_walk_ok true t c r p b l).
Qed.

Lemma seq_ends t l : seq t l -> avl_first t = Ok (hd NULL l) /\ avl_last t = Ok (List.last l NULL).
Proof. intros (X & Hv & _ & <- & _). split; [by apply (avl_end_ok false)|by apply (avl_end_ok true)]. Qed.

Lemma gap_nearest t w lo hi : gap t w lo hi -> avl_nearest t w AVL_BEFORE = Ok (List.last lo NULL) /\ avl_nearest t w AVL_AFTER = Ok (hd NULL hi).
Proof. intros (c & Hv & _ & -> & <- & <- & _). split; [by apply (avl_nearest_ok false)|by apply (avl_nearest_ok true)]. Qed.
End AvlSet.
