(* ===== verification/AvlSpec.v ===== *)
(** AVL trees sorted by a comparison function, and the theorems about [avl.c]. *)

From S2P Require Import Prelude Avl AvlTree AvlHeap AvlInsert AvlWalk AvlSwap AvlRemove AvlDestroy AvlSet.
Import Avl AvlTree AvlHeap AvlRotate AvlInsert AvlWalk AvlSwap AvlRemove AvlDestroy AvlSet.
Open Scope Z_scope.

Module AvlSpec.

(** ** Comparison functions *)

(** What [avl_create] asks of its argument. *)
Class Compares (compar : Z -> Z -> Z) : Prop := {
  compar_range a b : -1 <= compar a b <= 1;
  compar_sym a b : compar b a = - compar a b;
  compar_trans a b c : compar a b = -1 -> compar b c = -1 -> compar a c = -1 }.

Section ordered.
Context (compar : Z -> Z -> Z) `{!Compares compar}.

Definition sorted (l : list Z) : Prop := StronglySorted (fun a b => compar a b = -1) l.

Lemma sorted_sifts x l : sorted l -> sifts (compar x) l.
Proof using All.
  intros Hs. split; [apply Forall_forall; intros; apply compar_range|]. induction Hs as [|a l Hs IH Ha]; [constructor|].
  constructor; [done|]. eapply Forall_impl; [exact Ha|]. intros b Hb. cbn in Hb. pose proof (compar_range x a). pose proof (compar_range x b).
  destruct (decide (compar x b <= compar x a)) as [|Hn]; [done|exfalso].
  destruct (decide (compar x a = -1)) as [E|E]; [pose proof (compar_trans x a b E Hb); lia|].
  assert (Ex : compar x b = 1) by lia. pose proof (compar_sym x b) as S1. pose proof (compar_sym x a) as S2.
  pose proof (compar_trans a b x Hb ltac:(lia)). lia.
Qed.

Lemma sorted_insert x lo hi : sorted (lo ++ hi) -> Forall (fun q => compar x q = 1) lo -> Forall (fun q => compar x q = -1) hi -> sorted (lo ++ x :: hi).
Proof using All.
  intros Hs Hlo Hhi. apply StronglySorted_app in Hs as (H12 & H1 & H2). apply StronglySorted_app. split; [|split; [done|by constructor]].
  intros a b Ha Hb. apply elem_of_cons in Hb as [->|Hb]; [|by apply H12]. rewrite Forall_forall in Hlo. pose proof (compar_sym x a). rewrite (Hlo a Ha) in *. done.
Qed.

Lemma sorted_drop x lo hi : sorted (lo ++ x :: hi) -> sorted (lo ++ hi).
Proof using All.
  intros Hs. apply StronglySorted_app in Hs as (H12 & H1 & H2). apply StronglySorted_app. inversion H2; subst. split; [|done].
  intros a b Ha Hb. apply H12; [done|set_solver].
Qed.

Lemma add_ok t l x : seq t l -> sorted l -> x <> NULL -> (x ∉ l) -> Z.of_nat (length l) + 1 < 2 ^ 64 -> Forall (fun q => compar x q <> 0) l ->
  exists t' lo hi, avl_add t compar x = Ok t' /\ l = lo ++ hi /\ seq t' (lo ++ x :: hi) /\ sorted (lo ++ x :: hi).
Proof using All.
  intros Hq Hs Hx Hin Hsz Hne. unfold avl_add. destruct (seq_find t l (compar x) Hq (sorted_sifts x l Hs)) as [(q & w & _ & Hql & E & _)|(w & lo & hi & -> & -> & Hlo & Hhi & Hg)].
  - rewrite Forall_forall in Hne. by destruct (Hne q Hql).
  - bnd. cbn [Z.eqb NULL negb]. destruct (gap_insert t w lo hi x Hg Hx Hin Hsz) as (t' & E & Hs').
    exists t', lo, hi. split; [done|]. split; [done|]. split; [done|]. by apply sorted_insert.
Qed.

(** A node whose key has changed: only it may be out of place. *)
Lemma reinsert_ok t lo p hi tmp : seq t (lo ++ p :: hi) -> sorted (lo ++ hi) -> tmp <> NULL -> (tmp ∉ lo ++ p :: hi) ->
  Z.of_nat (length (lo ++ hi)) + 1 < 2 ^ 64 -> Forall (fun q => compar p q <> 0) (lo ++ hi) ->
  exists t' l, AVL_REINSERT t compar p tmp = Ok t' /\ seq t' l /\ sorted l /\ l ≡ₚ lo ++ p :: hi.
Proof using All.
  intros Hq Hs Ht Hin Hsz Hne. destruct (seq_nodup _ _ Hq) as (Hn & Hnn & _). destruct (seq_remove t lo p hi tmp Hq Ht Hin) as (t1 & E1 & Hq1).
  unfold AVL_REINSERT. rewrite E1. bnd. destruct (add_ok t1 (lo ++ hi) p Hq1 Hs) as (t2 & lo' & hi' & E2 & El & Hq2 & Hs2); [apply Hnn; set_solver| |done|done|].
  - apply NoDup_app in Hn as (_ & Hd & Hn). apply NoDup_cons in Hn as [Hn _]. set_solver.
  - exists t2, (lo' ++ p :: hi'). split_and!; try done. rewrite <- !Permutation_middle, El. done.
Qed.

Lemma sorted_last_lt lo p hi : sorted (lo ++ hi) -> Forall (fun q => compar p q <> 0) (lo ++ hi) ->
  (lo <> [] -> 0 <= compar p (List.last lo NULL)) -> (hi <> [] -> compar p (hd NULL hi) <= 0) -> sorted (lo ++ p :: hi).
Proof using All.
  intros Hs Hne Hl Hh. pose proof Hs as Hs'. apply StronglySorted_app in Hs as (H12 & H1 & H2). rewrite Forall_app, !Forall_forall in Hne. destruct Hne as [Ne1 Ne2].
  apply sorted_insert; [done| |].
  - destruct (decide (lo = [])) as [->|Hlo]; [done|]. specialize (Hl Hlo). destruct (exists_last Hlo) as (k & z & ->). rewrite last_snoc in Hl.
    assert (Ez : compar p z = 1) by (pose proof (compar_range p z); pose proof (Ne1 z ltac:(set_solver)); lia).
    apply StronglySorted_app in H1 as (H1 & _ & _). apply Forall_app. split; [|by constructor]. apply Forall_forall. intros a Ha.
    pose proof (compar_sym a p). pose proof (compar_sym z p). rewrite (compar_trans a z p) in *; [lia|apply H1; set_solver|lia].
  - destruct hi as [|z hi]; [done|]. specialize (Hh ltac:(done)). cbn in Hh. assert (Ez : compar p z = -1) by (pose proof (compar_range p z); pose proof (Ne2 z ltac:(set_solver)); lia).
    constructor; [done|]. apply Forall_forall. intros a Ha. apply (compar_trans p z a); [done|]. apply StronglySorted_inv in H2 as [_ H2]. by apply (proj1 (Forall_forall _ _) H2).
Qed.

Lemma last_in (l : list Z) : l <> [] -> List.last l NULL ∈ l.
Proof. intros H. destruct (exists_last H) as (k & z & ->). rewrite last_snoc. set_solver. Qed.

(** The tests of [avl_update]. *)
Lemma before_test lo p : (forall q, q ∈ lo -> q <> NULL) ->
  if negb (List.last lo NULL =? NULL) && (compar p (List.last lo NULL) <? 0) then lo <> [] /\ compar p (List.last lo NULL) < 0
  else lo <> [] -> 0 <= compar p (List.last lo NULL).
Proof.
  intros Hn. pose proof (last_in lo) as Hl. destruct (Z.eqb_spec (List.last lo NULL) NULL) as [E|E]; cbn [negb andb].
  - intros H. by destruct (Hn _ (Hl H)).
  - case_if as E1; [|lia]. split; [by intros ->|done].
Qed.

Lemma after_test hi p : (forall q, q ∈ hi -> q <> NULL) ->
  if negb (hd NULL hi =? NULL) && (0 <? compar p (hd NULL hi)) then hi <> [] /\ 0 < compar p (hd NULL hi)
  else hi <> [] -> compar p (hd NULL hi) <= 0.
Proof.
  intros Hn. destruct hi as [|z hi]; cbn [hd]; [rewrite Z.eqb_refl; cbn; intros H; by destruct H|]. rewrite (proj2 (Z.eqb_neq z NULL)) by (apply Hn; set_solver). cbn [negb andb].
  case_if as E1; [|lia]. done.
Qed.

Lemma sorted_around lo p hi : sorted (lo ++ p :: hi) -> (lo <> [] -> compar p (List.last lo NULL) = 1) /\ (hi <> [] -> compar p (hd NULL hi) = -1).
Proof using All.
  intros Hs. apply StronglySorted_app in Hs as (H12 & _ & H2). split.
  - intros H. pose proof (compar_sym (List.last lo NULL) p). rewrite (H12 (List.last lo NULL) p) in *; [lia|by apply last_in|set_solver].
  - destruct hi as [|z hi]; [done|]. intros _. apply StronglySorted_inv in H2 as [_ H2]. by apply Forall_cons in H2 as [? _].
Qed.
End ordered.

(** ** Places next to a node *)

Lemma insert_here_ok t lo here hi new d : seq t (lo ++ here :: hi) -> new <> NULL -> (new ∉ lo ++ here :: hi) -> Z.of_nat (length (lo ++ here :: hi)) + 1 < 2 ^ 64 ->
  exists t', avl_insert_here t new here d = Ok t' /\ seq t' (if d then lo ++ here :: new :: hi else lo ++ new :: here :: hi).
Proof.
  intros Hq Hn Hin Hsz. destruct (seq_split _ _ _ _ Hq) as (c & l & b & r & Hv & HB & -> & -> & Hnn). unfold avl_insert_here.
  set (x := if d then r else l). set (s := if d then l else r). assert (Em : T l here b r = mk d here b x s) by (unfold x, s; by destruct d).
  rewrite Em in Hv, HB. pose proof Hv as (_ & Hr & _). apply repr_mk in Hr as (Hp & Ep & Hx & _). rewrite (get_ok _ _ _ Ep). bnd.
  destruct (cell_child d (root x) (root s) (par_of c) (idx_of c) b) as [-> _]. apply view_step in Hv.
  set (lo := lefts c ++ inorder l) in *. set (hi := inorder r ++ rights c) in *.
  assert (G : exists w, (if negb (root x =? NULL) then node ← descend t (negb d) (root x); Ok (node, negb d) else Ok (here, d)) = Ok w /\
    gap t w (if d then lo ++ [here] else lo) (if d then hi else here :: hi)).
  { destruct (Z.eqb_spec (root x) NULL) as [E0|E0]; cbn [negb].
    - apply (root_null _ _ _ _ Hx) in E0. eexists. split; [done|]. rewrite E0 in Hv, HB. eexists. split; [exact Hv|]. split; [done|]. split; [done|]. unfold x, lo, hi in *.
      cbn [lefts rights]. unfold s. destruct d; subst; cbn; rewrite ?app_nil_r; (split_and!; [by rewrite <- ?app_assoc|done|]); rewrite Hnn; f_equal;
        rewrite !length_app; cbn [length]; rewrite ?length_app; cbn [length inorder]; lia.
    - assert (Nx : x <> E) by (intros E1; by rewrite E1 in E0). destruct (descend_ok (negb d) x t _ Hv Nx) as (c' & q & bq & y & Ex & Hb & ->). bnd.
      eexists. split; [done|]. rewrite Ex in Hv, HB. apply view_app in Hv. apply view_step in Hv. eexists. split; [exact Hv|].
      split; [by cbn [plug]; rewrite plug_app|]. split; [done|].
      pose proof (beyond_app true c' ((d, here, b, s) :: c)) as R. pose proof (beyond_app false c' ((d, here, b, s) :: c)) as L. unfold beyond, join in L, R.
      cbn [lefts rights]. rewrite L, R.
      assert (Eo : inorder x = lefts c' ++ (if d then q :: inorder y else inorder y ++ [q]) ++ rights c') by (rewrite Ex, plug_inorder, mk_inorder; by destruct d).
      unfold lo, hi in *. unfold x in Eo. unfold s. destruct d; cbn in Hb, Eo |- *; rewrite Hb in *; cbn in Eo |- *; rewrite Eo in *; rewrite ?app_nil_r in *;
        (split_and!; [by rewrite <- ?app_assoc|by cbn; rewrite <- ?app_assoc|]); rewrite Hnn; f_equal; rewrite !length_app; cbn [length]; rewrite ?length_app; cbn [length]; rewrite ?length_app; lia. }
  destruct G as ([w i] & -> & Hg). bnd. destruct (gap_insert t (w, i) _ _ new Hg Hn) as (t' & -> & Hs'); [destruct d; set_solver| |].
  - destruct d; rewrite ?length_app in *; cbn [length] in *; lia.
  - exists t'. split; [done|]. destruct d; [by rewrite <- app_assoc in Hs'|done].
Qed.

(** ** Examples *)

Definition zcmp (a b : Z) : Z := Z.sgn (a - b).

#[export] Instance zcmp_compares : Compares zcmp.
Proof. unfold zcmp. constructor; intros; lia. Qed.

Definition ex_tree : avl_tree :=
  match foldl (fun t p => t ← t; avl_add t zcmp p) (Ok (avl_create ∅)) [5; 2; 8; 1; 9; 3; 7] with Ok t => t | Fault _ => avl_create ∅ end.
Definition ex_shape : tree := T (T (T E 1 0 E) 2 0 (T E 3 0 E)) 5 0 (T (T E 7 0 E) 8 0 (T E 9 0 E)).

Lemma ex_seq : seq ex_tree [1; 2; 3; 5; 7; 8; 9].
Proof. exists ex_shape. split; [split; [by vm_compute|split; [|apply (bool_decide_unpack _); by vm_compute]]|]; vm_compute; repeat split; done || (intros; discriminate). Defined.

Lemma ex_sorted : sorted zcmp [1; 2; 3; 5; 7; 8; 9].
Proof. repeat constructor. Defined.

(** ** Theorems *)

(** C16: [avl_add] puts a node into its place: a balanced tree that holds a sorted
    sequence holds that sequence with the node added afterwards, sorted and
    balanced again.  If a node that compares equal is there already it panics. *)
Theorem avl_add_correct compar `{!Compares compar} t l x : seq t l -> sorted compar l -> x <> NULL -> (x ∉ l) -> Z.of_nat (length l) + 1 < 2 ^ 64 ->
  (Forall (fun q => compar x q <> 0) l -> exists t' l', avl_add t compar x = Ok t' /\ seq t' l' /\ sorted compar l' /\ l' ≡ₚ x :: l) /\
  (Exists (fun q => compar x q = 0) l -> avl_add t compar x = Fault FPanic).
Proof.
  intros Hq Hs Hx Hin Hsz. split.
  - intros Hne. destruct (add_ok compar t l x Hq Hs Hx Hin Hsz Hne) as (t' & lo & hi & E & -> & Hq' & Hs'). exists t', (lo ++ x :: hi). split_and!; try done.
    by rewrite Permutation_middle.
  - intros He. unfold avl_add. apply Exists_exists in He as (p & Hp & E0).
    destruct (seq_find t l (compar x) Hq (sorted_sifts compar x l Hs)) as [(q & w & -> & _ & _ & Hn)|(w & lo & hi & _ & -> & Hlo & Hhi & _)].
    + bnd. by rewrite (proj2 (Z.eqb_neq q NULL)).
    + rewrite Forall_forall in Hlo, Hhi. apply elem_of_app in Hp as [Hp|Hp]; [rewrite Hlo in E0 by done|rewrite Hhi in E0 by done]; lia.
Qed.

Lemma avl_add_correct_witness :
  (exists t' l', avl_add ex_tree zcmp 6 = Ok t' /\ seq t' l' /\ sorted zcmp l' /\ l' ≡ₚ 6 :: [1; 2; 3; 5; 7; 8; 9]).
Proof.
  apply (avl_add_correct zcmp ex_tree [1; 2; 3; 5; 7; 8; 9] 6 ex_seq ex_sorted); [done|apply (bool_decide_unpack _); by vm_compute|done|].
  apply (bool_decide_unpack _); by vm_compute.
Defined.

(** C15: [avl_remove] takes out one node, whatever its place in the tree: the
    others stay, in their order and balanced. *)
Theorem avl_remove_correct t lo p hi tmp : seq t (lo ++ p :: hi) -> tmp <> NULL -> (tmp ∉ lo ++ p :: hi) ->
  exists t', avl_remove t p tmp = Ok t' /\ seq t' (lo ++ hi).
Proof. apply seq_remove. Qed.

Lemma avl_remove_correct_witness : exists t', avl_remove ex_tree 5 100 = Ok t' /\ seq t' [1; 2; 3; 7; 8; 9].
Proof. apply (avl_remove_correct ex_tree [1; 2; 3] 5 [7; 8; 9] 100 ex_seq); [done|apply (bool_decide_unpack _); by vm_compute]. Defined.

(** After the key of one node has changed, [avl_update] restores the order,
    and says truly whether the node was out of place. *)
Theorem avl_update_correct compar `{!Compares compar} t lo p hi tmp : seq t (lo ++ p :: hi) -> sorted compar (lo ++ hi) -> tmp <> NULL -> (tmp ∉ lo ++ p :: hi) ->
  Z.of_nat (length (lo ++ hi)) + 1 < 2 ^ 64 -> Forall (fun q => compar p q <> 0) (lo ++ hi) ->
  exists t' l moved, avl_update t compar p tmp = Ok (t', moved) /\ seq t' l /\ sorted compar l /\ l ≡ₚ lo ++ p :: hi /\
    (moved = true -> ~ sorted compar (lo ++ p :: hi)) /\ (moved = false -> t' = t /\ l = lo ++ p :: hi).
Proof.
  intros Hq Hs Ht Hin Hsz Hne. destruct (seq_walk t lo p hi Hq) as [Eb Ea]. destruct (seq_nodup _ _ Hq) as (_ & Hnn & _).
  destruct (reinsert_ok compar t lo p hi tmp Hq Hs Ht Hin Hsz Hne) as (t1 & l & Er & Hq1 & Hs1 & Hp). unfold avl_update. rewrite Eb. bnd.
  pose proof (sorted_last_lt compar lo p hi Hs Hne) as Hkeep.
  assert (Hlo : forall q, q ∈ lo -> q <> NULL) by set_solver. assert (Hhi : forall q, q ∈ hi -> q <> NULL) by set_solver.
  pose proof (before_test compar lo p Hlo) as T1. pose proof (after_test compar hi p Hhi) as T2.
  destruct (negb (List.last lo NULL =? NULL) && (compar p (List.last lo NULL) <? 0)).
  - rewrite Er. bnd. exists t1, l, true. split_and!; try done. intros _ Hso. destruct T1 as [H1 H2]. pose proof (proj1 (sorted_around compar lo p hi Hso) H1). lia.
  - rewrite Ea. bnd. destruct (negb (hd NULL hi =? NULL) && (0 <? compar p (hd NULL hi))).
    + rewrite Er. bnd. exists t1, l, true. split_and!; try done. intros _ Hso. destruct T2 as [H1 H2]. pose proof (proj2 (sorted_around compar lo p hi Hso) H1). lia.
    + exists t, (lo ++ p :: hi), false. split_and!; try done. auto.
Qed.

Definition ex_key (p : Z) : Z := if p =? 3 then 10 else p.
Definition kcmp (a b : Z) : Z := zcmp (ex_key a) (ex_key b).

#[export] Instance kcmp_compares : Compares kcmp.
Proof. unfold kcmp, zcmp. constructor; intros; lia. Qed.

Lemma avl_update_correct_witness : exists t' l moved, avl_update ex_tree kcmp 3 100 = Ok (t', moved) /\ seq t' l /\ sorted kcmp l /\ l ≡ₚ [1; 2] ++ 3 :: [5; 7; 8; 9] /\
    (moved = true -> ~ sorted kcmp ([1; 2] ++ 3 :: [5; 7; 8; 9])) /\ (moved = false -> t' = ex_tree /\ l = [1; 2] ++ 3 :: [5; 7; 8; 9]).
Proof.
  apply (avl_update_correct kcmp ex_tree [1; 2] 3 [5; 7; 8; 9] 100 ex_seq); [repeat constructor|done|apply (bool_decide_unpack _); by vm_compute|done|].
  apply (bool_decide_unpack _); by vm_compute.
Defined.

(** The loop over a tree that uses [AVL_NEXT], or [AVL_PREV], to move on. *)
Definition avl_each (t : avl_tree) (d : bool) : res (list Z) :=
  p ← avl_end t (negb d);
  loop (fuel t) (fun '(p, seen) => if p =? NULL then Ok (inr (rev seen)) else q ← avl_walk t p d; Ok (inl (q, p :: seen))) (p, []).

Abbreviation each_body t d := (fun '(p, seen) => if p =? NULL then Ok (inr (rev seen)) else q ← avl_walk t p d; Ok (inl (q, p :: seen))).

Lemma each_after t hi : forall lo k, seq t (lo ++ hi) -> (length hi < k)%nat -> loop k (each_body t true) (hd NULL hi, rev lo) = Ok (lo ++ hi).
Proof.
  induction hi as [|p hi IH]; intros lo k Hs Hk; (destruct k as [|k]; [cbn in Hk; lia|]); cbn [loop hd].
  - by rewrite Z.eqb_refl, rev_involutive, app_nil_r.
  - destruct (seq_nodup _ _ Hs) as (_ & Hnn & _). rewrite (proj2 (Z.eqb_neq p NULL)) by (apply Hnn; set_solver). destruct (seq_walk t lo p hi Hs) as [_ Ew]. unfold AVL_AFTER in Ew. rewrite Ew. bnd.
    replace (p :: rev lo) with (rev (lo ++ [p])) by (by rewrite rev_app_distr). rewrite IH; [by rewrite <- app_assoc|by rewrite <- app_assoc|cbn in Hk; lia].
Qed.

Lemma each_before t hi k : seq t (rev k ++ hi) -> forall n, (length k < n)%nat -> loop n (each_body t false) (hd NULL k, hi) = Ok (rev hi ++ k).
Proof.
  revert hi. induction k as [|p k IH]; intros hi Hs n Hn; (destruct n as [|n]; [cbn in Hn; lia|]); cbn [loop hd].
  - by rewrite Z.eqb_refl, app_nil_r.
  - destruct (seq_nodup _ _ Hs) as (_ & Hnn & _). cbn [rev] in Hs, Hnn. rewrite <- app_assoc in Hs, Hnn. cbn in Hs, Hnn.
    rewrite (proj2 (Z.eqb_neq p NULL)) by (apply Hnn; set_solver). destruct (seq_walk t (rev k) p hi Hs) as [Ew _]. unfold AVL_BEFORE in Ew. rewrite Ew. bnd.
    replace (List.last (rev k) NULL) with (hd NULL k) by (destruct k; [done|]; cbn; by rewrite last_snoc).
    rewrite IH; [cbn; by rewrite <- app_assoc|done|cbn in Hn; lia].
Qed.

(** [avl_first] and [AVL_NEXT] run through all nodes of a tree in order,
    [avl_last] and [AVL_PREV] through them in the opposite order. *)
Theorem avl_each_correct t l : seq t l -> avl_each t true = Ok l /\ avl_each t false = Ok (rev l).
Proof.
  intros Hs. destruct (seq_nodup _ _ Hs) as (_ & _ & Hsz). destruct (seq_ends t l Hs) as [Ef El]. unfold avl_each. cbn [negb].
  unfold avl_first, avl_last in Ef, El. rewrite Ef, El. bnd. split.
  - apply (each_after t l [] (fuel t)); [done|unfold fuel; lia].
  - assert (E : List.last l NULL = hd NULL (rev l)) by (rewrite <- (rev_involutive l) at 1; destruct (rev l); [done|]; cbn; by rewrite last_snoc).
    rewrite E. apply (each_before t [] (rev l)); [by rewrite rev_involutive, app_nil_r|rewrite length_rev; unfold fuel; lia].
Qed.

Lemma avl_each_correct_witness : avl_each ex_tree true = Ok [1; 2; 3; 5; 7; 8; 9] /\ avl_each ex_tree false = Ok [9; 8; 7; 5; 3; 2; 1].
Proof. apply (avl_each_correct ex_tree [1; 2; 3; 5; 7; 8; 9] ex_seq). Defined.

(** The loop that calls [avl_destroy_nodes] until it returns [NULL], and frees
    each node it is given, comes to an end, is given every node once, never
    reads a node that has been freed, and leaves an empty tree. *)
Theorem avl_destroy_nodes_correct t l : seq t l ->
  exists t' order, destroy_all (S (length l)) t = Ok (t', order) /\ order ≡ₚ l /\ avl_root t' = NULL /\ avl_is_empty t' = true.
Proof.
  intros (X & Hv & HB & <- & Hn). destruct (destroy_all_ok t X (S (length (inorder X))) Hv HB Hn) as (t' & E & Hr & Hn'); [lia|].
  exists t', (postorder X). split; [done|]. split; [apply postorder_perm|]. split; [done|]. unfold avl_is_empty. by rewrite Hn'.
Qed.

Lemma avl_destroy_nodes_correct_witness : exists t' order, destroy_all 8 ex_tree = Ok (t', order) /\ order ≡ₚ [1; 2; 3; 5; 7; 8; 9] /\ avl_root t' = NULL /\ avl_is_empty t' = true.
Proof. apply (avl_destroy_nodes_correct ex_tree [1; 2; 3; 5; 7; 8; 9] ex_seq). Defined.

(** [avl_insert_here] puts a node directly before or after another one. *)
Theorem avl_insert_here_correct t lo here hi new direction : seq t (lo ++ here :: hi) -> new <> NULL -> (new ∉ lo ++ here :: hi) ->
  Z.of_nat (length (lo ++ here :: hi)) + 1 < 2 ^ 64 ->
  exists t', avl_insert_here t new here direction = Ok t' /\ seq t' (if direction then lo ++ here :: new :: hi else lo ++ new :: here :: hi).
Proof. apply insert_here_ok. Qed.

Lemma avl_insert_here_correct_witness : exists t', avl_insert_here ex_tree 4 3 AVL_AFTER = Ok t' /\ seq t' [1; 2; 3; 4; 5; 7; 8; 9].
Proof. apply (avl_insert_here_correct ex_tree [1; 2] 3 [5; 7; 8; 9] 4 AVL_AFTER ex_seq); [done|apply (bool_decide_unpack _); by vm_compute|done]. Defined.
End AvlSpec.
