(* ===== verification/OrdTree.v ===== *)
(** What the users of AVL trees rely on: the operations of [avl.c] as a class, the
    laws they obey, and the loops every user writes.  The instance at the end is
    the pointer code of [Avl]. *)

From S2P Require Import Prelude Avl AvlTree AvlHeap AvlInsert AvlWalk AvlSwap AvlRemove AvlDestroy AvlSet AvlSpec.
Export Avl(NULL, AVL_BEFORE, AVL_AFTER) AvlWalk(sifts).
Open Scope Z_scope.

(** ** Operations *)

(** Trees [T] of nodes known by their addresses, and places [I] in them. *)
Class Tree (T I : Type) := {
  tr_create : T;
  tr_numnodes : T -> Z;
  tr_fuel : T -> nat;
  tr_find : T -> (Z -> Z) -> res (Z * I);
  tr_nearest : T -> I -> bool -> res Z;
  tr_walk : T -> Z -> bool -> res Z;
  tr_first : T -> res Z;
  tr_last : T -> res Z;
  tr_insert : T -> Z -> I -> res T;
  tr_insert_here : T -> Z -> Z -> bool -> res T;
  tr_add : T -> (Z -> Z -> Z) -> Z -> res T;
  tr_remove : T -> Z -> res T;
  tr_start : I;
  tr_destroy_nodes : T -> I -> res (T * I * Z);
  (** The memory of a node is given back. *)
  tr_free : T -> Z -> T }.

(** ** Laws *)

(** Too many nodes for [avl_numnodes]. *)
Definition room (l : list Z) : Prop := Z.of_nat (length l) + 1 < 2 ^ 64.

Class TreeLaws (T I : Type) `{Tree T I} := {
  (** The tree holds a sequence. *)
  tr_seq : T -> list Z -> Prop;
  (** A place between two parts of the sequence. *)
  tr_gap : T -> I -> list Z -> list Z -> Prop;
  (** What is left of a tree that is being torn down. *)
  tr_left : T -> I -> list Z -> Prop;
  tr_seq_facts t l : tr_seq t l -> NoDup l /\ (forall p, p ∈ l -> p <> NULL) /\ (length l < tr_fuel t)%nat /\ tr_numnodes t = Z.of_nat (length l);
  tr_create_ok : tr_seq tr_create [];
  tr_find_ok t l compar : tr_seq t l -> sifts compar l ->
    (exists q w, tr_find t compar = Ok (q, w) /\ q ∈ l /\ compar q = 0 /\ q <> NULL) \/
    (exists w lo hi, tr_find t compar = Ok (NULL, w) /\ l = lo ++ hi /\ Forall (fun q => compar q = 1) lo /\ Forall (fun q => compar q = -1) hi /\ tr_gap t w lo hi);
  tr_nearest_ok t w lo hi : tr_gap t w lo hi -> tr_nearest t w AVL_BEFORE = Ok (List.last lo NULL) /\ tr_nearest t w AVL_AFTER = Ok (hd NULL hi);
  tr_walk_ok t lo p hi : tr_seq t (lo ++ p :: hi) -> tr_walk t p AVL_BEFORE = Ok (List.last lo NULL) /\ tr_walk t p AVL_AFTER = Ok (hd NULL hi);
  tr_ends_ok t l : tr_seq t l -> tr_first t = Ok (hd NULL l) /\ tr_last t = Ok (List.last l NULL);
  tr_insert_ok t w lo hi p : tr_gap t w lo hi -> p <> NULL -> (p ∉ lo ++ hi) -> room (lo ++ hi) -> exists t', tr_insert t p w = Ok t' /\ tr_seq t' (lo ++ p :: hi);
  tr_insert_here_ok t lo p hi q : tr_seq t (lo ++ p :: hi) -> q <> NULL -> (q ∉ lo ++ p :: hi) -> room (lo ++ p :: hi) ->
    exists t', tr_insert_here t q p AVL_AFTER = Ok t' /\ tr_seq t' (lo ++ p :: q :: hi);
  tr_add_ok t l compar p : tr_seq t l -> sifts (compar p) l -> Forall (fun q => compar p q <> 0) l -> p <> NULL -> (p ∉ l) -> room l ->
    exists t' lo hi, tr_add t compar p = Ok t' /\ l = lo ++ hi /\ Forall (fun q => compar p q = 1) lo /\ Forall (fun q => compar p q = -1) hi /\ tr_seq t' (lo ++ p :: hi);
  tr_remove_ok t lo p hi : tr_seq t (lo ++ p :: hi) -> exists t', tr_remove t p = Ok t' /\ tr_seq t' (lo ++ hi);
  tr_free_ok t l p : tr_seq t l -> (p ∉ l) -> tr_seq (tr_free t p) l;
  tr_start_ok t l : tr_seq t l -> exists todo, todo ≡ₚ l /\ tr_left t tr_start todo;
  tr_destroy_next t ck p todo : tr_left t ck (p :: todo) ->
    exists t' ck', tr_destroy_nodes t ck = Ok (t', ck', p) /\ p <> NULL /\ tr_left t' ck' todo /\ tr_left (tr_free t' p) ck' todo;
  tr_destroy_done t ck : tr_left t ck [] -> exists t' ck', tr_destroy_nodes t ck = Ok (t', ck', NULL) /\ tr_seq t' [] }.

(** ** Loops *)

(** A loop over a list that can fail. *)
Fixpoint each {A S} (f : A -> S -> res S) (l : list A) (s : S) : res S :=
  match l with [] => Ok s | p :: l => s ← f p s; each f l s end.

Lemma each_app {A S} (f : A -> S -> res S) l l' s : each f (l ++ l') s = s ← each f l s; each f l' s.
Proof. revert s. induction l as [|p l IH]; intros s; [done|]. cbn. destruct (f p s); [|done]. cbn. apply IH. Qed.

(** An invariant of such a loop. *)
Lemma each_ind {A S} (f : A -> S -> res S) (I : list A -> S -> Prop) l s : I [] s ->
  (forall done p todo s, l = done ++ p :: todo -> I done s -> exists s', f p s = Ok s' /\ I (done ++ [p]) s') -> exists s', each f l s = Ok s' /\ I l s'.
Proof.
  assert (Gen : forall todo done s, l = done ++ todo -> I done s ->
    (forall done p todo s, l = done ++ p :: todo -> I done s -> exists s', f p s = Ok s' /\ I (done ++ [p]) s') -> exists s', each f todo s = Ok s' /\ I l s').
  2: { intros H0 Hs. by apply (Gen l []). }
  induction todo as [|p todo IH]; intros done s' E Hd Hs; [exists s'; rewrite app_nil_r in E; by subst|].
  destruct (Hs _ _ _ _ E Hd) as (s1 & Ef & H1). cbn. rewrite Ef. cbn. apply (IH (done ++ [p])); [by rewrite <- app_assoc|done|done].
Qed.

Section loops.
Context {T I : Type} `{!Tree T I} {S : Type}.

(** [for (p = avl_first(t); p != NULL; p = AVL_NEXT(t, p))] *)
Definition tr_each (t : T) (f : Z -> S -> res S) (s : S) : res S :=
  p ← tr_first t;
  loop (tr_fuel t) (fun '(p, s) => if p =? NULL then Ok (inr s) else s ← f p s; p ← tr_walk t p AVL_AFTER; Ok (inl (p, s))) (p, s).

(** [while ((p = avl_destroy_nodes(t, &cookie)) != NULL)], with the nodes freed
    or not. *)
Definition tr_drain (freed : bool) (t : T) (f : Z -> S -> res S) (s : S) : res (T * S) :=
  loop (tr_fuel t) (fun '(t, ck, s) =>
    '(t, ck, p) ← tr_destroy_nodes t ck;
    if p =? NULL then Ok (inr (t, s)) else s ← f p s; Ok (inl (if freed then tr_free t p else t, ck, s))) (t, tr_start, s).

Context `{!TreeLaws T I}.

Lemma tr_each_ok t l f s : tr_seq t l -> tr_each t f s = each f l s.
Proof using All.
  intros Hs. destruct (tr_seq_facts t l Hs) as (_ & Hn & Hf & _). unfold tr_each. rewrite (proj1 (tr_ends_ok t l Hs)). bnd.
  assert (Gen : forall hi lo k s, l = lo ++ hi -> (length hi < k)%nat ->
    loop k (fun '(p, s) => if p =? NULL then Ok (inr s) else s ← f p s; p ← tr_walk t p AVL_AFTER; Ok (inl (p, s))) (hd NULL hi, s) = each f hi s).
  2: { by apply (Gen l []). }
  induction hi as [|p hi IH]; intros lo k s' E Hk; (destruct k as [|k]; [cbn in Hk; lia|]); cbn [loop hd each]; [by rewrite Z.eqb_refl|].
  rewrite (proj2 (Z.eqb_neq p NULL)) by (apply Hn; rewrite E; set_solver). destruct (f p s') as [s1|]; [|done]. bnd.
  rewrite E in Hs. rewrite (proj2 (tr_walk_ok t lo p hi Hs)). bnd. cbn [mbind res_bind]. apply (IH (lo ++ [p])); [by rewrite <- app_assoc|cbn in Hk; lia].
Qed.

Lemma tr_drain_ok freed t l f s : tr_seq t l ->
  exists todo t', todo ≡ₚ l /\ tr_seq t' [] /\ tr_drain freed t f s = s' ← each f todo s; Ok (t', s').
Proof using All.
  intros Hs. destruct (tr_seq_facts t l Hs) as (_ & _ & Hf & _). destruct (tr_start_ok t l Hs) as (todo & Hp & Hl). exists todo.
  rewrite <- (Permutation_length Hp) in Hf. unfold tr_drain. revert Hf. generalize (tr_fuel t). intros k Hf.
  enough (exists t', tr_seq t' [] /\ forall s, loop k (fun '(t, ck, s) =>
    '(t, ck, p) ← tr_destroy_nodes t ck;
    if p =? NULL then Ok (inr (t, s)) else s ← f p s; Ok (inl (if freed then tr_free t p else t, ck, s))) (t, tr_start, s) = s' ← each f todo s; Ok (t', s')) as (t' & H1 & H2) by (by exists t').
  clear Hs Hp l s. generalize dependent tr_start. revert t k Hf. induction todo as [|p todo IH]; intros t k Hf ck Hl; (destruct k as [|k]; [cbn in Hf; lia|]).
  - destruct (tr_destroy_done t ck Hl) as (t' & ck' & E & Hs'). exists t'. split; [done|]. intros s. cbn [loop each]. rewrite E. bnd. done.
  - destruct (tr_destroy_next t ck p todo Hl) as (t1 & ck1 & E & Hp & Hl1 & Hl2). cbn in Hf.
    destruct (IH (if freed then tr_free t1 p else t1) k ltac:(lia) ck1) as (t' & Hs' & Hr); [by destruct freed|]. exists t'. split; [done|].
    intros s. cbn [loop each]. rewrite E. bnd. rewrite (proj2 (Z.eqb_neq p NULL)) by done. destruct (f p s) as [s1|]; [|done]. bnd. cbn [mbind res_bind]. apply Hr.
Qed.
End loops.

(** ** The pointer trees *)

Import Avl AvlTree AvlHeap AvlRotate AvlInsert AvlWalk AvlSwap AvlRemove AvlDestroy AvlSet AvlSpec.

(** An address apart from those of the nodes, for a local variable. *)
Definition apart (h : gmap Z avl_node) : Z := 1 + map_fold (fun k _ m => Z.max k m) 0 h.

Lemma apart_spec h : apart h <> NULL /\ h !! apart h = None.
Proof.
  assert (H : 0 <= map_fold (fun k (_ : avl_node) m => Z.max k m) 0 h /\ forall k n, h !! k = Some n -> k <= map_fold (fun k (_ : avl_node) m => Z.max k m) 0 h).
  { apply (map_fold_weak_ind (fun r (m : gmap Z avl_node) => 0 <= r /\ forall k n, m !! k = Some n -> k <= r)).
    - split; [lia|]. intros k n. by rewrite lookup_empty.
    - intros i x m r Hi [IH1 IH2]. split; [lia|]. intros k n [[-> _]|[_ H]]%lookup_insert_Some; [lia|]. specialize (IH2 _ _ H). lia. }
  destruct H as [H0 H]. unfold apart, NULL. split; [lia|]. destruct (h !! _) as [n|] eqn:E; [|done]. specialize (H _ _ E). lia.
Qed.

#[export] Instance avl_Tree : Tree avl_tree avl_index := {
  tr_create := avl_create ∅;
  tr_numnodes := avl_numnodes;
  tr_fuel := fuel;
  tr_find := avl_find;
  tr_nearest := avl_nearest;
  tr_walk := avl_walk;
  tr_first := avl_first;
  tr_last := avl_last;
  tr_insert := avl_insert;
  tr_insert_here := avl_insert_here;
  tr_add := avl_add;
  tr_remove := fun t p => avl_remove t p (apart (avl_nodes t));
  tr_start := (NULL, false);
  tr_destroy_nodes := avl_destroy_nodes;
  tr_free := free_node }.

Definition avl_left (t : avl_tree) (ck : avl_index) (todo : list Z) : Prop :=
  (ck = (NULL, false) /\ exists X, view t [] X /\ balanced X /\ avl_numnodes t = Z.of_nat (length (inorder X)) /\ todo = postorder X) \/
  (exists c x, torn t c x ck /\ todo = AvlDestroy.todo c).

Lemma left_next t ck p todo : avl_left t ck (p :: todo) ->
  exists t' ck', avl_destroy_nodes t ck = Ok (t', ck', p) /\ p <> NULL /\ avl_left t' ck' todo /\ avl_left (free_node t' p) ck' todo.
Proof.
  intros [(-> & X & Hv & HB & Hn & E)|(c & x & Ht & E)].
  - assert (HX : X <> AvlTree.E) by (by intros ->). destruct (first_call t X Hv HB HX Hn) as (c & x & ck & Ed & Ht & Eo). rewrite <- E in Eo.
    injection Eo as -> ->. exists t, ck. split; [done|]. split; [apply Ht|]. split; right; exists c, x; [done|]. split; [by apply torn_free|done].
  - assert (Hc : c <> []) by (by intros ->). destruct (next_call t c x ck Ht Hc) as (t' & c2 & x2 & ck2 & Ed & Ht2 & Eo). rewrite <- E in Eo.
    injection Eo as -> ->. exists t', ck2. split; [done|]. split; [apply Ht2|]. split; right; exists c2, x2; [done|]. split; [by apply torn_free|done].
Qed.

Lemma left_done t ck : avl_left t ck [] -> exists t' ck', avl_destroy_nodes t ck = Ok (t', ck', NULL) /\ seq t' [].
Proof.
  intros [(-> & X & Hv & HB & Hn & E)|(c & x & Ht & E)].
  - destruct X as [|l p b r]; [|cbn in E; by destruct (postorder l), (postorder r)]. exists t, (NULL, true). unfold avl_destroy_nodes, avl_first.
    rewrite (avl_end_ok false t _ Hv). split; [done|]. by exists AvlTree.E.
  - destruct c as [|[[[d p] b] s] c]; [|cbn in E; destruct d; [done|]; by destruct (postorder s)]. destruct Ht as (Er & _ & _ & Hx & _ & _ & ->). cbn in Er.
    eexists _, (NULL, true). unfold avl_destroy_nodes. cbn [Z.eqb NULL negb andb]. bnd. rewrite Er, (proj2 (Z.eqb_neq x NULL)) by done. split; [done|].
    exists AvlTree.E. repeat split; try done. apply NoDup_nil_2.
Qed.

Lemma seq_free t l p : seq t l -> (p ∉ l) -> seq (free_node t p) l.
Proof.
  intros (X & Hv & HB & <- & Hn) Hp. exists X. split; [|done]. eapply view_frame; [done|done|]. intros q Hq. cbn. apply lookup_delete_ne. intros ->.
  apply Hp. cbn in Hq. by rewrite app_nil_r in Hq.
Qed.

Lemma seq_present t l : seq t l -> forall p, p ∈ l -> is_Some (avl_nodes t !! p).
Proof. intros (X & (_ & Hr & _) & _ & <- & _) p. by apply (repr_present _ _ _ _ p Hr). Qed.

Lemma add_at t l compar p : seq t l -> sifts (compar p) l -> Forall (fun q => compar p q <> 0) l -> p <> NULL -> (p ∉ l) -> room l ->
  exists t' lo hi, avl_add t compar p = Ok t' /\ l = lo ++ hi /\ Forall (fun q => compar p q = 1) lo /\ Forall (fun q => compar p q = -1) hi /\ seq t' (lo ++ p :: hi).
Proof.
  intros Hs Hf Hne Hp Hin Hr. unfold avl_add. destruct (seq_find t l (compar p) Hs Hf) as [(q & w & _ & Hq & E & _)|(w & lo & hi & -> & -> & Hlo & Hhi & Hg)].
  - rewrite Forall_forall in Hne. by destruct (Hne q Hq).
  - bnd. cbn [Z.eqb NULL negb]. destruct (gap_insert t w lo hi p Hg Hp Hin Hr) as (t' & E & Hs'). by exists t', lo, hi.
Qed.

#[export] Program Instance avl_TreeLaws : TreeLaws avl_tree avl_index := { tr_seq := seq; tr_gap := gap; tr_left := avl_left }.
Next Obligation.
  intros t l Hs. destruct (seq_nodup t l Hs) as (H1 & H2 & H3). split; [done|]. split; [done|]. split; [cbn; unfold fuel; lia|]. by destruct Hs as (X & _ & _ & _ & Hn).
Qed.
Next Obligation. apply seq_create. Qed.
Next Obligation. apply seq_find. Qed.
Next Obligation. apply gap_nearest. Qed.
Next Obligation. apply seq_walk. Qed.
Next Obligation. apply seq_ends. Qed.
Next Obligation. intros. by apply gap_insert. Qed.
Next Obligation. intros. by apply (insert_here_ok _ _ _ _ _ true). Qed.
Next Obligation. intros. by apply add_at. Qed.
Next Obligation.
  intros t lo p hi Hs. destruct (apart_spec (avl_nodes t)) as [Ha1 Ha2]. apply seq_remove; [done|done|]. intros Hin. destruct (seq_present _ _ Hs _ Hin) as [? E]. congruence.
Qed.
Next Obligation. apply seq_free. Qed.
Next Obligation.
  intros t l (X & Hv & HB & <- & Hn). exists (postorder X). split; [apply postorder_perm|]. left. split; [done|]. by exists X.
Qed.
Next Obligation. apply left_next. Qed.
Next Obligation. apply left_done. Qed.
