(* ===== verification/SpaceMap.v ===== *)
(** Space maps (module/zfs/space_map.c): sets of integers, kept as segments in an
    AVL tree.  This file holds the operations on the map in memory. *)

From stdpp Require Export gmap sorting.
From S2P Require Import Prelude OrdTree.
Open Scope Z_scope.

Module SpaceMap.

(** ** Segments *)

Record space_seg := SpaceSeg { ss_start : Z; ss_end : Z }.

#[export] Instance space_seg_inhabited : Inhabited space_seg := populate (SpaceSeg 0 0).
#[export] Instance space_seg_eq_dec : EqDecision space_seg.
Proof. solve_decision. Defined.

Definition space_map_seg_compare (s1 s2 : space_seg) : Z :=
  if ss_start s1 <? ss_start s2 then if ss_end s1 >? ss_start s2 then 0 else -1
  else if ss_start s1 >? ss_start s2 then if ss_start s1 <? ss_end s2 then 0 else 1
  else 0.

(** ** Maps *)

(** A tree, and the comparison function it was created with. *)
Record pp_tree (T : Type) := PpTree { pp_root : T; pp_compar : space_seg -> space_seg -> Z }.
Arguments PpTree {T}.
Arguments pp_root {T}.
Arguments pp_compar {T}.

(** [O] are the vectors of operations of block pickers.  [sm_segs] is the memory of
    the segments; the lock and the condition variable are left out. *)
Record space_map (T O : Type) := SpaceMap {
  sm_root : T;
  sm_segs : gmap Z space_seg;
  sm_space : Z;
  sm_start : Z;
  sm_size : Z;
  sm_shift : Z;
  sm_loaded : bool;
  sm_loading : bool;
  sm_ops : option O;
  sm_pp_root : option (pp_tree T);
  sm_ppd : option (list Z) }.
Arguments SpaceMap {T O}.
Arguments sm_root {T O}.
Arguments sm_segs {T O}.
Arguments sm_space {T O}.
Arguments sm_start {T O}.
Arguments sm_size {T O}.
Arguments sm_shift {T O}.
Arguments sm_loaded {T O}.
Arguments sm_loading {T O}.
Arguments sm_ops {T O}.
Arguments sm_pp_root {T O}.
Arguments sm_ppd {T O}.

(** What the code takes from its environment: an allocator that returns the
    address of an object not in use, and the tunable [zfs_recover]. *)
Class Kmem := { kmem_alloc : gset Z -> Z; zfs_recover : bool }.
Class KmemLaws `{Kmem} : Prop := { kmem_alloc_fresh used : kmem_alloc used <> NULL /\ kmem_alloc used ∉ used }.

Section map.
Context {T I O : Type} `{!Tree T I} `{!Kmem}.
Implicit Types (sm : space_map T O).

(** ** Fields *)

Definition with_root sm (t : T) := SpaceMap t (sm_segs sm) (sm_space sm) (sm_start sm) (sm_size sm) (sm_shift sm) (sm_loaded sm) (sm_loading sm) (sm_ops sm) (sm_pp_root sm) (sm_ppd sm).
Definition with_segs sm (h : gmap Z space_seg) := SpaceMap (sm_root sm) h (sm_space sm) (sm_start sm) (sm_size sm) (sm_shift sm) (sm_loaded sm) (sm_loading sm) (sm_ops sm) (sm_pp_root sm) (sm_ppd sm).
Definition with_space sm (n : Z) := SpaceMap (sm_root sm) (sm_segs sm) n (sm_start sm) (sm_size sm) (sm_shift sm) (sm_loaded sm) (sm_loading sm) (sm_ops sm) (sm_pp_root sm) (sm_ppd sm).
Definition with_loaded sm (b : bool) := SpaceMap (sm_root sm) (sm_segs sm) (sm_space sm) (sm_start sm) (sm_size sm) (sm_shift sm) b (sm_loading sm) (sm_ops sm) (sm_pp_root sm) (sm_ppd sm).
Definition with_loading sm (b : bool) := SpaceMap (sm_root sm) (sm_segs sm) (sm_space sm) (sm_start sm) (sm_size sm) (sm_shift sm) (sm_loaded sm) b (sm_ops sm) (sm_pp_root sm) (sm_ppd sm).
Definition with_ops sm (o : option O) := SpaceMap (sm_root sm) (sm_segs sm) (sm_space sm) (sm_start sm) (sm_size sm) (sm_shift sm) (sm_loaded sm) (sm_loading sm) o (sm_pp_root sm) (sm_ppd sm).
Definition with_pp sm (pp : option (pp_tree T)) := SpaceMap (sm_root sm) (sm_segs sm) (sm_space sm) (sm_start sm) (sm_size sm) (sm_shift sm) (sm_loaded sm) (sm_loading sm) (sm_ops sm) pp (sm_ppd sm).
Definition with_ppd sm (d : option (list Z)) := SpaceMap (sm_root sm) (sm_segs sm) (sm_space sm) (sm_start sm) (sm_size sm) (sm_shift sm) (sm_loaded sm) (sm_loading sm) (sm_ops sm) (sm_pp_root sm) d.

Definition seg sm (p : Z) : res space_seg := match sm_segs sm !! p with Some s => Ok s | None => Fault FOob end.
Definition set_seg sm (p : Z) (s : space_seg) : res (space_map T O) :=
  match sm_segs sm !! p with Some _ => Ok (with_segs sm (<[p := s]> (sm_segs sm))) | None => Fault FOob end.

(** Memory given back is memory of none of the trees. *)
Definition seg_free sm (p : Z) : space_map T O :=
  let sm := with_pp sm ((fun pp => PpTree (tr_free (pp_root pp) p) (pp_compar pp)) <$> sm_pp_root sm) in
  with_root (with_segs sm (delete p (sm_segs sm))) (tr_free (sm_root sm) p).

(** [avl_find] with a segment on the stack. *)
Definition seg_find sm (s : space_seg) : res (Z * I) := tr_find (sm_root sm) (fun q => space_map_seg_compare s (sm_segs sm !!! q)).

Definition unit_of sm : Z := u64 (Z.shiftl 1 (sm_shift sm)).

Definition zfs_panic_recover {A} (a : A) : res A := if zfs_recover then Ok a else Fault FPanic.

(** The picker's tree, if there is one. *)
Definition pp_remove sm (p : Z) : res (space_map T O) :=
  match sm_pp_root sm with
  | None => Ok sm
  | Some pp => t ← tr_remove (pp_root pp) p; Ok (with_pp sm (Some (PpTree t (pp_compar pp))))
  end.
Definition pp_add sm (p : Z) : res (space_map T O) :=
  match sm_pp_root sm with
  | None => Ok sm
  | Some pp =>
      t ← tr_add (pp_root pp) (fun a b => pp_compar pp (sm_segs sm !!! a) (sm_segs sm !!! b)) p;
      Ok (with_pp sm (Some (PpTree t (pp_compar pp))))
  end.

(** ** Creation *)

Definition space_map_create (start size shift : Z) : space_map T O :=
  SpaceMap tr_create ∅ 0 start size shift false false None None None.

Definition space_map_destroy sm : res unit := verify (sm_space sm =? 0).

(** ** Addition *)

(** Join a new segment with its neighbours, or insert it: the map, and the
    segment that has changed. *)
Definition add_merge sm (start end_ : Z) (where_ : I) : res (space_map T O * Z) :=
  ss_before ← tr_nearest (sm_root sm) where_ AVL_BEFORE;
  ss_after ← tr_nearest (sm_root sm) where_ AVL_AFTER;
  merge_before ← (if negb (ss_before =? NULL) then s ← seg sm ss_before; Ok (ss_end s =? start) else Ok false);
  merge_after ← (if negb (ss_after =? NULL) then s ← seg sm ss_after; Ok (ss_start s =? end_) else Ok false);
  if (merge_before : bool) && (merge_after : bool) then
    t ← tr_remove (sm_root sm) ss_before;
    let sm := with_root sm t in
    sm ← pp_remove sm ss_before;
    sm ← pp_remove sm ss_after;
    b ← seg sm ss_before;
    a ← seg sm ss_after;
    sm ← set_seg sm ss_after (SpaceSeg (ss_start b) (ss_end a));
    Ok (seg_free sm ss_before, ss_after)
  else if (merge_before : bool) then
    b ← seg sm ss_before;
    sm ← set_seg sm ss_before (SpaceSeg (ss_start b) end_);
    sm ← pp_remove sm ss_before;
    Ok (sm, ss_before)
  else if (merge_after : bool) then
    a ← seg sm ss_after;
    sm ← set_seg sm ss_after (SpaceSeg start (ss_end a));
    sm ← pp_remove sm ss_after;
    Ok (sm, ss_after)
  else
    let ss := kmem_alloc (dom (sm_segs sm)) in
    let sm := with_segs sm (<[ss := SpaceSeg start end_]> (sm_segs sm)) in
    t ← tr_insert (sm_root sm) ss where_;
    Ok (with_root sm t, ss).

Definition space_map_add sm (start size : Z) : res (space_map T O) :=
  let end_ := u64 (start + size) in
  _ ← verify (negb (size =? 0));
  _ ← verify (sm_start sm <=? start);
  _ ← verify (end_ <=? u64 (sm_start sm + sm_size sm));
  _ ← verify (u64 (sm_space sm + size) <=? sm_size sm);
  _ ← verify (P2PHASE start (unit_of sm) =? 0);
  _ ← verify (P2PHASE size (unit_of sm) =? 0);
  '(ss, where_) ← seg_find sm (SpaceSeg start end_);
  inside ← (if negb (ss =? NULL) then s ← seg sm ss; Ok ((ss_start s <=? start) && (end_ <=? ss_end s)) else Ok false);
  if (inside : bool) then zfs_panic_recover sm
  else
    _ ← verify (ss =? NULL);
    '(sm, ss) ← add_merge sm start end_ where_;
    sm ← pp_add sm ss;
    Ok (with_space sm (u64 (sm_space sm + size))).

(** ** Removal *)

(** Cut a range out of the segment [ss]; what is left of it, or [NULL]. *)
Definition remove_cut sm (ss start end_ : Z) : res (space_map T O * Z) :=
  s ← seg sm ss;
  let left_over := negb (ss_start s =? start) in
  let right_over := negb (ss_end s =? end_) in
  if left_over && right_over then
    let newseg := kmem_alloc (dom (sm_segs sm)) in
    let sm := with_segs sm (<[newseg := SpaceSeg end_ (ss_end s)]> (sm_segs sm)) in
    sm ← set_seg sm ss (SpaceSeg (ss_start s) start);
    t ← tr_insert_here (sm_root sm) newseg ss AVL_AFTER;
    sm ← pp_add (with_root sm t) newseg;
    Ok (sm, ss)
  else if left_over then
    sm ← set_seg sm ss (SpaceSeg (ss_start s) start); Ok (sm, ss)
  else if right_over then
    sm ← set_seg sm ss (SpaceSeg end_ (ss_end s)); Ok (sm, ss)
  else
    t ← tr_remove (sm_root sm) ss;
    Ok (seg_free (with_root sm t) ss, NULL).

Definition space_map_remove sm (start size : Z) : res (space_map T O) :=
  let end_ := u64 (start + size) in
  _ ← verify (negb (size =? 0));
  _ ← verify (P2PHASE start (unit_of sm) =? 0);
  _ ← verify (P2PHASE size (unit_of sm) =? 0);
  '(ss, _) ← seg_find sm (SpaceSeg start end_);
  if ss =? NULL then zfs_panic_recover sm
  else
    s ← seg sm ss;
    _ ← verify (ss_start s <=? start);
    _ ← verify (end_ <=? ss_end s);
    _ ← verify (u64 (sm_space sm - size) <=? sm_size sm);
    sm ← pp_remove sm ss;
    '(sm, ss) ← remove_cut sm ss start end_;
    sm ← (if negb (ss =? NULL) then pp_add sm ss else Ok sm);
    Ok (with_space sm (u64 (sm_space sm - size))).

(** ** Queries and walks *)

Definition space_map_contains sm (start size : Z) : res bool :=
  let end_ := u64 (start + size) in
  _ ← verify (negb (size =? 0));
  _ ← verify (P2PHASE start (unit_of sm) =? 0);
  _ ← verify (P2PHASE size (unit_of sm) =? 0);
  '(ss, _) ← seg_find sm (SpaceSeg start end_);
  if negb (ss =? NULL) then s ← seg sm ss; Ok ((ss_start s <=? start) && (end_ <=? ss_end s)) else Ok false.

(** Empty a map; [func], if given, is applied to each segment and some other
    state, usually another map. *)
Definition space_map_vacate {M} sm (func : option (M -> Z -> Z -> res M)) (mdest : M) : res (space_map T O * M) :=
  '(t, (segs, mdest)) ← tr_drain true (sm_root sm) (fun p '(segs, mdest) =>
      match segs !! p with
      | None => Fault FOob
      | Some s =>
          mdest ← (match func with Some f => f mdest (ss_start s) (u64 (ss_end s - ss_start s)) | None => Ok mdest end);
          Ok (delete p segs, mdest)
      end) (sm_segs sm, mdest);
  Ok (with_space (with_segs (with_root sm t) segs) 0, mdest).

Definition space_map_walk {M} sm (func : M -> Z -> Z -> res M) (mdest : M) : res M :=
  tr_each (sm_root sm) (fun p mdest => s ← seg sm p; func mdest (ss_start s) (u64 (ss_end s - ss_start s))) mdest.
End map.
End SpaceMap.
