(* ===== verification/SpaceSet.v ===== *)
(** Sequences of segments that stand for sets of integers: sorted, apart from
    each other, aligned.  The specification of what [SpaceMap] does to its
    segments. *)

From S2P Require Import Prelude OrdTree SpaceMap.
Import SpaceMap.
Open Scope Z_scope.

Module SpaceSet.

(** ** Sets of integers *)

Abbreviation within s x := (ss_start s <= x < ss_end s).

Definition covers (rs : list space_seg) (x : Z) : Prop := exists s, s ∈ rs /\ within s x.

Fixpoint total (rs : list space_seg) : Z := match rs with [] => 0 | s :: rs => ss_end s - ss_start s + total rs end.

(** A segment of the map from [lo] to [hi] in units of [u]. *)
Definition proper (lo hi u : Z) (s : space_seg) : Prop :=
  lo <= ss_start s /\ ss_start s < ss_end s /\ ss_end s <= hi /\ ss_start s mod u = 0 /\ ss_end s mod u = 0.

(** Segments that touch have been joined. *)
Definition canon (lo hi u : Z) (rs : list space_seg) : Prop :=
  StronglySorted (fun a b => ss_end a < ss_start b) rs /\ Forall (proper lo hi u) rs.

Section sets.
Context (lo hi u : Z).
Abbreviation ok := (canon lo hi u).

Lemma covers_app a b x : covers (a ++ b) x <-> covers a x \/ covers b x.
Proof. unfold covers. split; [intros (s & [H|H]%elem_of_app & Hx); eauto|]. intros [(s & H & Hx)|(s & H & Hx)]; exists s; set_solver. Qed.

Lemma covers_cons s b x : covers (s :: b) x <-> within s x \/ covers b x.
Proof. unfold covers. split; [intros (y & [->|H]%elem_of_cons & Hx); eauto|]. intros [H|(y & H & Hx)]; [exists s|exists y]; set_solver. Qed.

Lemma covers_nil x : covers [] x <-> False.
Proof. unfold covers. set_solver. Qed.

Lemma total_app a b : total (a ++ b) = total a + total b.
Proof. induction a; cbn; lia. Qed.

Lemma canon_nil : ok [].
Proof. repeat constructor. Qed.

Lemma canon_app a b : ok (a ++ b) <-> ok a /\ ok b /\ forall x y, x ∈ a -> y ∈ b -> ss_end x < ss_start y.
Proof. unfold canon. rewrite StronglySorted_app, Forall_app. tauto. Qed.

Lemma canon_proper a s : ok a -> s ∈ a -> proper lo hi u s.
Proof. intros [_ H]. by apply Forall_forall. Qed.

Lemma canon_cons s b : ok (s :: b) <-> proper lo hi u s /\ ok b /\ forall y, y ∈ b -> ss_end s < ss_start y.
Proof.
  unfold canon. rewrite Forall_cons, StronglySorted_cons, (Forall_forall _ b). tauto.
Qed.

Lemma canon_mid a s b : ok (a ++ s :: b) <->
  ok a /\ proper lo hi u s /\ ok b /\ (forall x, x ∈ a -> ss_end x < ss_start s) /\ (forall y, y ∈ b -> ss_end s < ss_start y).
Proof.
  rewrite canon_app, canon_cons. split.
  - intros (Ha & (Hs & Hb & Hsb) & Hab). split_and!; try done. intros x Hx. apply Hab; set_solver.
  - intros (Ha & Hs & Hb & Has & Hsb). split_and!; try done. intros x y Hx [->|Hy]%elem_of_cons; [auto|].
    specialize (Has x Hx). specialize (Hsb y Hy). destruct Hs as (_ & ? & _). lia.
Qed.

Lemma canon_size a : ok a -> lo <= hi -> 2 * Z.of_nat (length a) <= hi - lo + 1 /\ Z.of_nat (length a) <= total a <= hi - lo.
Proof.
  intros Ha Hl. assert (Gen : forall a k, lo <= k -> k <= hi + 1 -> ok a -> (forall x, x ∈ a -> k <= ss_start x) -> 2 * Z.of_nat (length a) <= hi - k + 1 /\ Z.of_nat (length a) <= total a <= Z.max 0 (hi - k)).
  - clear a Ha. induction a as [|s a IH]; intros k Hk Hk' Ha Hx; cbn [length total]; [lia|]. apply canon_cons in Ha as ((? & ? & ? & _) & Ha & Hs).
    specialize (IH (ss_end s + 1) ltac:(lia) ltac:(lia) Ha). destruct IH as [? ?]; [intros x Hin; specialize (Hs x Hin); lia|]. specialize (Hx s ltac:(set_solver)). lia.
  - destruct (Gen a lo ltac:(lia) ltac:(lia) Ha); [|lia]. intros x Hx. by destruct (canon_proper a x Ha Hx).
Qed.

(** ** Comparison *)

Lemma compare_cases s x : ss_start s < ss_end s -> ss_start x < ss_end x ->
  (space_map_seg_compare s x = 1 /\ ss_end x <= ss_start s) \/ (space_map_seg_compare s x = -1 /\ ss_end s <= ss_start x) \/
  (space_map_seg_compare s x = 0 /\ ss_start s < ss_end x /\ ss_start x < ss_end s).
Proof. intros H1 H2. unfold space_map_seg_compare. case_ifs; lia. Qed.

Lemma canon_sifts s a (f : Z -> space_seg) l : ss_start s < ss_end s -> a = f <$> l -> ok a -> sifts (fun q => space_map_seg_compare s (f q)) l.
Proof.
  intros Hs -> Hok. split.
  - apply Forall_forall. intros q Hq. destruct (canon_proper _ (f q) Hok) as (_ & ? & _); [set_solver|].
    destruct (compare_cases s (f q)) as [[-> _]|[[-> _]|[-> _]]]; cbn in *; lia.
  - induction l as [|q l IH]; [constructor|]. cbn in Hok. apply canon_cons in Hok as ((_ & Pq & _) & Hok & Hq). constructor; [auto|].
    apply Forall_forall. intros r Hr. specialize (Hq (f r) ltac:(set_solver)). destruct (canon_proper _ (f r) Hok) as (_ & P & _); [set_solver|]. cbn beta.
    destruct (compare_cases s (f q) Hs Pq) as [[-> ?]|[[-> ?]|[-> ?]]], (compare_cases s (f r) Hs P) as [[-> ?]|[[-> ?]|[-> ?]]]; lia.
Qed.

(** ** Addition *)

(** What a range that starts at [start] makes of the segments before it, and one
    that ends at [end_] of those after it: neighbours it touches are joined. *)
Definition merge_left (a : list space_seg) (start : Z) : list space_seg * Z :=
  match last a with Some x => if ss_end x =? start then (removelast a, ss_start x) else (a, start) | None => (a, start) end.
Definition merge_right (end_ : Z) (b : list space_seg) : Z * list space_seg :=
  match b with y :: b' => if ss_start y =? end_ then (ss_end y, b') else (end_, b) | [] => (end_, b) end.
Definition merge (a : list space_seg) (start end_ : Z) (b : list space_seg) : list space_seg :=
  let '(a, start) := merge_left a start in let '(end_, b) := merge_right end_ b in a ++ SpaceSeg start end_ :: b.

Lemma merge_left_ok a start : ok a -> lo <= start -> start mod u = 0 -> (forall x, x ∈ a -> ss_end x <= start) ->
  exists a' start', merge_left a start = (a', start') /\ ok a' /\ (forall x, x ∈ a' -> x ∈ a /\ ss_end x < start') /\ lo <= start' <= start /\ start' mod u = 0 /\
    (forall x, covers a' x \/ start' <= x < start <-> covers a x) /\ total a' + (start - start') = total a.
Proof.
  intros Oa H1 H2 H3. unfold merge_left. destruct (decide (a = [])) as [->|Hne].
  { exists [], start. split_and!; try done; try lia; [set_solver|]. intros x. rewrite covers_nil. lia. }
  destruct (exists_last Hne) as (k & s & ->). rewrite last_snoc. pose proof Oa as Oa'. apply canon_mid in Oa as (Ok & (P1 & P2 & P3 & P4 & P5) & _ & Hks & _).
  destruct (Z.eqb_spec (ss_end s) start) as [E|E].
  - rewrite removelast_last. exists k, (ss_start s). split_and!; try done; try lia.
    + intros x Hx. split; [set_solver|]. specialize (Hks x Hx). lia.
    + intros x. rewrite covers_app, covers_cons, covers_nil. subst start. tauto.
    + rewrite total_app. cbn. lia.
  - pose proof (H3 s ltac:(set_solver)). exists (k ++ [s]), start. split_and!; try done; try lia.
    + intros x Hx. split; [done|]. apply elem_of_app in Hx as [Hx|Hx]; [specialize (Hks x Hx); lia|]. apply list_elem_of_singleton in Hx as ->. lia.
    + intros x. intuition lia.
Qed.

Lemma merge_right_ok end_ b : ok b -> end_ <= hi -> end_ mod u = 0 -> (forall y, y ∈ b -> end_ <= ss_start y) ->
  exists end' b', merge_right end_ b = (end', b') /\ ok b' /\ (forall y, y ∈ b' -> y ∈ b /\ end' < ss_start y) /\ end_ <= end' <= hi /\ end' mod u = 0 /\
    (forall x, covers b' x \/ end_ <= x < end' <-> covers b x) /\ total b' + (end' - end_) = total b.
Proof.
  intros Ob H1 H2 H3. unfold merge_right. destruct b as [|s k].
  { exists end_, []. split_and!; try done; try lia; [set_solver|]. intros x. rewrite covers_nil. lia. }
  pose proof Ob as Ok. apply canon_cons in Ok as ((P1 & P2 & P3 & P4 & P5) & Ok & Hks). destruct (Z.eqb_spec (ss_start s) end_) as [E|E].
  - exists (ss_end s), k. split_and!; try done; try lia.
    + intros x Hx. split; [set_solver|]. specialize (Hks x Hx). lia.
    + intros x. rewrite covers_cons. subst end_. tauto.
    + cbn. lia.
  - pose proof (H3 s ltac:(set_solver)). exists end_, (s :: k). split_and!; try done; try lia.
    + intros x Hx. split; [done|]. apply elem_of_cons in Hx as [->|Hx]; [lia|]. specialize (Hks x Hx). lia.
    + intros x. intuition lia.
Qed.

Lemma merge_ok a start end_ b : ok (a ++ b) -> proper lo hi u (SpaceSeg start end_) ->
  (forall x, x ∈ a -> ss_end x <= start) -> (forall y, y ∈ b -> end_ <= ss_start y) ->
  ok (merge a start end_ b) /\ (forall x, covers (merge a start end_ b) x <-> covers (a ++ b) x \/ start <= x < end_) /\
  total (merge a start end_ b) = total (a ++ b) + (end_ - start).
Proof.
  intros Hok (P1 & P2 & P3 & P4 & P5) Ha Hb. cbn in P1, P2, P3, P4, P5. apply canon_app in Hok as (Oa & Ob & _).
  destruct (merge_left_ok a start Oa P1 P4 Ha) as (a' & st' & Ea & Oa' & Ha' & La & Ma & Ca & Ta).
  destruct (merge_right_ok end_ b Ob P3 P5 Hb) as (en' & b' & Eb & Ob' & Hb' & Lb & Mb & Cb & Tb).
  unfold merge. rewrite Ea, Eb. split_and!.
  - apply canon_mid. split_and!; try done; [split_and!; cbn; lia|intros x Hx; by apply Ha'|intros y Hy; by apply Hb'].
  - intros x. rewrite !covers_app, covers_cons, <- Ca, <- Cb. cbn. destruct (decide (start <= x < end_)); intuition lia.
  - rewrite !total_app. cbn. lia.
Qed.

(** ** Removal *)

Definition cut (a : list space_seg) (s : space_seg) (b : list space_seg) (start end_ : Z) : list space_seg :=
  a ++ (if ss_start s =? start then [] else [SpaceSeg (ss_start s) start]) ++ (if ss_end s =? end_ then [] else [SpaceSeg end_ (ss_end s)]) ++ b.

Lemma cut_ok a s b start end_ : ok (a ++ s :: b) -> start mod u = 0 -> end_ mod u = 0 -> ss_start s <= start -> start < end_ -> end_ <= ss_end s ->
  ok (cut a s b start end_) /\ (forall x, covers (cut a s b start end_) x <-> covers (a ++ s :: b) x /\ ~ start <= x < end_) /\
  total (cut a s b start end_) = total (a ++ s :: b) - (end_ - start).
Proof.
  intros Hok M1 M2 L1 L2 L3. pose proof Hok as Hok'. apply canon_mid in Hok' as (Oa & (P1 & P2 & P3 & P4 & P5) & Ob & Has & Hsb). unfold cut.
  assert (Ca : forall x, covers a x -> x < ss_start s) by (intros x (y & Hy & Hx); specialize (Has y Hy); lia).
  assert (Cb : forall x, covers b x -> ss_end s <= x) by (intros x (y & Hy & Hx); specialize (Hsb y Hy); lia).
  split_and!.
  - assert (Om : ok ((if ss_end s =? end_ then [] else [SpaceSeg end_ (ss_end s)]) ++ b)).
    { case_if as E; [done|]. cbn. apply canon_cons. cbn. split_and!; [split_and!; cbn; lia|done|done]. }
    case_if as E; cbn [app].
    + apply canon_app. split_and!; try done. intros x y Hx Hy. specialize (Has x Hx). apply elem_of_app in Hy as [Hy|Hy]; [|specialize (Hsb y Hy); lia].
      destruct (Z.eqb_spec (ss_end s) end_); [set_solver|]. apply list_elem_of_singleton in Hy as ->. cbn. lia.
    + apply canon_mid. split_and!; try done; [split_and!; cbn; lia|].
      intros y Hy. cbn. apply elem_of_app in Hy as [Hy|Hy]; [|specialize (Hsb y Hy); lia]. destruct (Z.eqb_spec (ss_end s) end_); [set_solver|]. apply list_elem_of_singleton in Hy as ->. cbn. lia.
  - intros x. specialize (Ca x). specialize (Cb x). rewrite !covers_app, !covers_cons. case_ifs; rewrite ?covers_cons, ?covers_nil; cbn; intuition lia.
  - rewrite !total_app. cbn. case_ifs; cbn; lia.
Qed.

(** ** Equal sets have equal sequences *)

Lemma canon_unique : 0 < u -> forall a b, ok a -> ok b -> (forall x, covers a x <-> covers b x) -> a = b.
Proof.
  intros Hu. induction a as [|s a IH]; intros b Oa Ob Hc.
  - destruct b as [|y b]; [done|]. apply canon_cons in Ob as ((_ & ? & _) & _). destruct (proj2 (Hc (ss_start y))) as (z & Hz & _); [apply covers_cons; lia|set_solver].
  - destruct b as [|y b]; [apply canon_cons in Oa as ((_ & ? & _) & _); destruct (proj1 (Hc (ss_start s))) as (z & Hz & _); [apply covers_cons; lia|set_solver]|].
    apply canon_cons in Oa as ((_ & Ps & _) & Oa & Hsa). apply canon_cons in Ob as ((_ & Py & _) & Ob & Hyb).
    assert (Ha : forall x, covers a x -> ss_end s < x) by (intros x (z & Hz & Hx); specialize (Hsa z Hz); lia).
    assert (Hb : forall x, covers b x -> ss_end y < x) by (intros x (z & Hz & Hx); specialize (Hyb z Hz); lia).
    assert (Hc' : forall x, within s x \/ covers a x <-> within y x \/ covers b x) by (intros x; by rewrite <- !covers_cons). clear Hc.
    assert (E : s = y).
    { assert (E1 : ss_start s = ss_start y).
      { apply Z.le_antisymm.
        - destruct (proj2 (Hc' (ss_start y))) as [?|H]; [left; lia|lia|apply Ha in H; lia].
        - destruct (proj1 (Hc' (ss_start s))) as [?|H]; [left; lia|lia|apply Hb in H; lia]. }
      assert (E2 : ss_end s = ss_end y).
      { apply Z.le_antisymm; apply Z.le_ngt; intros L.
        - destruct (proj1 (Hc' (ss_end y))) as [?|H]; [left; lia|lia|apply Hb in H; lia].
        - destruct (proj2 (Hc' (ss_end s))) as [?|H]; [left; lia|lia|apply Ha in H; lia]. }
      destruct s, y; cbn in *; congruence. }
    subst y. f_equal. apply IH; [done|done|]. intros x. pose proof (Hc' x). specialize (Ha x). specialize (Hb x). intuition lia.
Qed.

(** ** Segments and ranges *)

Lemma canon_disjoint a s y x : ok a -> s ∈ a -> y ∈ a -> within s x -> within y x -> s = y.
Proof.
  intros Oa Hs Hy. apply list_elem_of_split in Hs as (l1 & l2 & ->). apply canon_mid in Oa as (_ & _ & _ & H1 & H2).
  apply elem_of_app in Hy as [Hy|[->|Hy]%elem_of_cons]; [specialize (H1 y Hy); lia|done|specialize (H2 y Hy); lia].
Qed.

(** A range of covered integers lies in one segment. *)
Lemma canon_contains a start end_ : ok a -> start < end_ -> (forall x, start <= x < end_ -> covers a x) ->
  exists s, s ∈ a /\ ss_start s <= start /\ end_ <= ss_end s.
Proof.
  intros Oa Hse Hx. destruct (Hx start ltac:(lia)) as (s & Hs & Hin). exists s. split; [done|]. split; [lia|]. destruct (Z.le_gt_cases end_ (ss_end s)) as [|Hgt]; [done|exfalso].
  destruct (Hx (ss_end s) ltac:(lia)) as (y & Hy & Hin'). apply list_elem_of_split in Hs as (l1 & l2 & ->). apply canon_mid in Oa as (_ & _ & _ & H1 & H2).
  apply elem_of_app in Hy as [Hy|[->|Hy]%elem_of_cons]; [specialize (H1 y Hy); lia|lia|specialize (H2 y Hy); lia].
Qed.

(** No two segments start at the same offset. *)
Lemma canon_distinct (f : Z -> space_seg) l p q : ok (f <$> l) -> p ∈ l -> q ∈ l -> ss_start (f p) = ss_start (f q) -> p <> q -> False.
Proof.
  intros Ol Hp Hq E Hne. apply list_elem_of_split in Hp as (l1 & l2 & ->). rewrite fmap_app in Ol. cbn in Ol. apply canon_mid in Ol as (O1 & (_ & Pp & _) & O2 & H1 & H2).
  apply elem_of_app in Hq as [Hq|[->|Hq]%elem_of_cons]; [|done|].
  - assert (Hi : f q ∈ f <$> l1) by set_solver. specialize (H1 _ Hi). destruct (canon_proper _ _ O1 Hi) as (_ & ? & _). lia.
  - assert (Hi : f q ∈ f <$> l2) by set_solver. specialize (H2 _ Hi). lia.
Qed.
End sets.
End SpaceSet.
