(* ===== verification/SpaceMapOk.v ===== *)
(** The invariant of a space map in memory, and what the operations of [SpaceMap]
    do to the set of integers it stands for. *)

From S2P Require Import Prelude Avl AvlSpec OrdTree SpaceMap SpaceSet.
Import SpaceMap SpaceSet.
Open Scope Z_scope.

Module SpaceMapOk.

(** ** The picker's order *)

(** What a map needs of the comparison function of a picker: an order, in which
    segments that start at different offsets are different. *)
Class PpCompare (cmp : space_seg -> space_seg -> Z) : Prop := {
  pp_range a b : -1 <= cmp a b <= 1;
  pp_sym a b : cmp b a = - cmp a b;
  pp_trans a b c : cmp a b = -1 -> cmp b c = -1 -> cmp a c = -1;
  pp_zero a b : cmp a b = 0 -> ss_start a = ss_start b }.

#[export] Instance pp_compares cmp (f : Z -> space_seg) : PpCompare cmp -> AvlSpec.Compares (fun a b => cmp (f a) (f b)).
Proof. intros H. constructor; intros; [apply pp_range|apply pp_sym|by eapply pp_trans]. Qed.

(** The integers of a range. *)
Abbreviation inside start size x := (start <= x < start + size).

Section ok.
Context {T I O : Type} {HT : Tree T I} {HK : Kmem} {HTL : TreeLaws T I} {HKL : KmemLaws}.
Implicit Types (sm : space_map T O) (h : gmap Z space_seg).

(** ** The invariant *)

Definition looks h (l : list Z) : list space_seg := (fun p => h !!! p) <$> l.

Definition pp_inv h (l : list Z) (pp : option (pp_tree T)) : Prop :=
  match pp with
  | None => True
  | Some t => PpCompare (pp_compar t) /\ exists l', l' ≡ₚ l /\ tr_seq (pp_root t) l' /\ AvlSpec.sorted (fun a b => pp_compar t (h !!! a) (h !!! b)) l'
  end.

(** The picker's tree keeps its comparison function. *)
Definition same_cmp (pp pp' : option (pp_tree T)) : Prop := pp_compar <$> pp' = pp_compar <$> pp.

Record sm_ok sm (l : list Z) : Prop := {
  ok_seq : tr_seq (sm_root sm) l;
  ok_dom : dom (sm_segs sm) = list_to_set l;
  ok_canon : canon (sm_start sm) (sm_start sm + sm_size sm) (2 ^ sm_shift sm) (looks (sm_segs sm) l);
  ok_space : sm_space sm = total (looks (sm_segs sm) l);
  ok_geom : 0 <= sm_start sm /\ 0 <= sm_size sm /\ sm_start sm + sm_size sm < 2 ^ 64 /\ 0 <= sm_shift sm < 64;
  ok_pp : pp_inv (sm_segs sm) l (sm_pp_root sm) }.

(** The set of integers of a map. *)
Definition space sm (x : Z) : Prop := exists p s, sm_segs sm !! p = Some s /\ within s x.

Lemma looks_in h l p : p ∈ l -> h !!! p ∈ looks h l.
Proof. intros H. apply list_elem_of_fmap. by exists p. Qed.

Lemma looks_elem h l s : s ∈ looks h l -> exists p, p ∈ l /\ s = h !!! p.
Proof. intros (p & -> & Hp)%list_elem_of_fmap. by exists p. Qed.

Lemma looks_app h l l' : looks h (l ++ l') = looks h l ++ looks h l'.
Proof. apply fmap_app. Qed.

Lemma looks_cons h p l : looks h (p :: l) = h !!! p :: looks h l.
Proof. done. Qed.

Lemma looks_ext h h' l : (forall p, p ∈ l -> h' !! p = h !! p) -> looks h' l = looks h l.
Proof. intros H. apply list_fmap_ext. intros i p Hp. rewrite !lookup_total_alt, H; [done|]. by apply list_elem_of_lookup_2 in Hp. Qed.

Lemma looks_insert h p s lo hi : NoDup (lo ++ p :: hi) -> looks (<[p := s]> h) (lo ++ p :: hi) = looks h lo ++ s :: looks h hi.
Proof.
  intros Hn. apply NoDup_app in Hn as (_ & H1 & H2). apply NoDup_cons in H2 as [H2 _]. rewrite looks_app. cbn. rewrite lookup_total_insert.
  rewrite decide_True by done. f_equal; [|f_equal]; apply looks_ext; intros q Hq; apply lookup_insert_ne; intros ->; set_solver.
Qed.

Lemma dom_present sm l p : dom (sm_segs sm) = list_to_set l -> p ∈ l -> sm_segs sm !! p = Some (sm_segs sm !!! p).
Proof.
  intros Hd Hp. assert (H : p ∈ dom (sm_segs sm)) by (rewrite Hd; by apply elem_of_list_to_set). apply elem_of_dom in H as [s E]. rewrite lookup_total_alt, E. done.
Qed.

Lemma space_covers sm l x : dom (sm_segs sm) = list_to_set l -> space sm x <-> covers (looks (sm_segs sm) l) x.
Proof.
  intros Hd. split.
  - intros (p & s & E & Hx). exists s. split; [|done]. assert (Hp : p ∈ l) by (apply (elem_of_list_to_set (C := gset Z)); rewrite <- Hd; by apply elem_of_dom_2 in E).
    pose proof (looks_in (sm_segs sm) l p Hp) as H. rewrite (dom_present sm l p Hd Hp) in E. by injection E as <-.
  - intros (s & (p & Hp & ->)%looks_elem & Hx). exists p, (sm_segs sm !!! p). split; [by apply (dom_present sm l)|done].
Qed.

Lemma ok_room sm l : sm_ok sm l -> room l.
Proof.
  intros [_ _ Hc _ (G1 & G2 & G3 & _) _]. apply canon_size in Hc as [Hc _]; [|lia]. unfold looks in Hc. rewrite length_fmap in Hc. unfold room. lia.
Qed.

(** ** Searches *)

Lemma seg_find_ok sm l start end_ : sm_ok sm l -> start < end_ ->
  (exists q w, seg_find sm (SpaceSeg start end_) = Ok (q, w) /\ q <> NULL /\ q ∈ l /\ start < ss_end (sm_segs sm !!! q) /\ ss_start (sm_segs sm !!! q) < end_) \/
  (exists w lo hi, seg_find sm (SpaceSeg start end_) = Ok (NULL, w) /\ l = lo ++ hi /\ tr_gap (sm_root sm) w lo hi /\
    (forall x, x ∈ looks (sm_segs sm) lo -> ss_end x <= start) /\ (forall y, y ∈ looks (sm_segs sm) hi -> end_ <= ss_start y)).
Proof.
  intros Hok Hse. unfold seg_find. pose proof (ok_canon _ _ Hok) as Hc. pose proof (canon_sifts _ _ _ (SpaceSeg start end_) _ (fun q => sm_segs sm !!! q) l Hse eq_refl Hc) as Hs.
  assert (P : forall q, q ∈ l -> ss_start (sm_segs sm !!! q) < ss_end (sm_segs sm !!! q)) by (intros q Hq; by destruct (canon_proper _ _ _ _ _ Hc (looks_in _ _ _ Hq)) as (_ & ? & _)).
  destruct (tr_find_ok _ l _ (ok_seq _ _ Hok) Hs) as [(q & w & E & Hq & Eq & Hn)|(w & lo & hi & E & -> & Hlo & Hhi & Hg)].
  - left. exists q, w. split; [done|]. split; [done|]. split; [done|]. destruct (compare_cases (SpaceSeg start end_) (sm_segs sm !!! q) Hse (P q Hq)) as [[? _]|[[? _]|[_ ?]]]; cbn in *; lia.
  - right. exists w, lo, hi. split; [done|]. split; [done|]. split; [done|]. rewrite Forall_forall in Hlo, Hhi. split; intros s (q & Hq & ->)%looks_elem.
    + specialize (Hlo q Hq). destruct (compare_cases (SpaceSeg start end_) (sm_segs sm !!! q) Hse (P q ltac:(set_solver))) as [[? ?]|[[? _]|[? _]]]; cbn in *; lia.
    + specialize (Hhi q Hq). destruct (compare_cases (SpaceSeg start end_) (sm_segs sm !!! q) Hse (P q ltac:(set_solver))) as [[? _]|[[? ?]|[? _]]]; cbn in *; lia.
Qed.

(** ** The picker's tree *)

Lemma pp_inv_perm h l l' pp : l ≡ₚ l' -> pp_inv h l pp -> pp_inv h l' pp.
Proof. intros Hp. destruct pp as [t|]; [|done]. cbn. by setoid_rewrite Hp. Qed.

Lemma sorted_ext (cmp : space_seg -> space_seg -> Z) h h' l : (forall q, q ∈ l -> h' !! q = h !! q) ->
  AvlSpec.sorted (fun a b => cmp (h !!! a) (h !!! b)) l -> AvlSpec.sorted (fun a b => cmp (h' !!! a) (h' !!! b)) l.
Proof.
  intros Hq. induction 1 as [|a l Hs IH Ha]; [constructor|]. constructor; [apply IH; set_solver|]. rewrite Forall_forall in Ha |- *. intros b Hb. specialize (Ha b Hb).
  cbn in *. rewrite !lookup_total_alt in *. by rewrite !Hq by set_solver.
Qed.

Lemma pp_inv_ext h h' l pp : (forall q, q ∈ l -> h' !! q = h !! q) -> pp_inv h l pp -> pp_inv h' l pp.
Proof.
  intros Hq. destruct pp as [t|]; [|done]. cbn. intros (Hc & l' & Hp & Hs & Ho). split; [done|]. exists l'. split; [done|]. split; [done|].
  eapply sorted_ext; [|exact Ho]. intros q. rewrite Hp. apply Hq.
Qed.

Lemma with_pp_same sm : with_pp sm (sm_pp_root sm) = sm.
Proof. by destruct sm. Qed.

Lemma pp_remove_ok sm h h' p l : pp_inv h (p :: l) (sm_pp_root sm) -> (forall q, q ∈ l -> h' !! q = h !! q) ->
  exists pp', pp_remove sm p = Ok (with_pp sm pp') /\ pp_inv h' l pp' /\ same_cmp (sm_pp_root sm) pp'.
Proof.
  intros Hi Hq. unfold pp_remove. destruct (sm_pp_root sm) as [t|] eqn:E; [|exists None; split; [by rewrite <- E, with_pp_same|done]].
  destruct Hi as (Hc & l' & Hp & Hs & Ho). assert (Hin : p ∈ l') by (rewrite Hp; set_solver). apply list_elem_of_split in Hin as (lo & hi & ->).
  destruct (tr_remove_ok _ lo p hi Hs) as (t' & -> & Hs'). bnd. eexists. split; [done|]. split; [|done]. apply (pp_inv_ext h); [done|]. split; [done|]. exists (lo ++ hi).
  split; [rewrite <- Permutation_middle in Hp; by apply Permutation_cons_inv in Hp|]. split; [done|]. cbn. by apply (AvlSpec.sorted_drop _ p).
Qed.

Lemma pp_add_ok sm p l : pp_inv (sm_segs sm) l (sm_pp_root sm) -> p <> NULL -> (p ∉ l) -> room l ->
  (forall q, q ∈ l -> ss_start (sm_segs sm !!! q) <> ss_start (sm_segs sm !!! p)) ->
  exists pp', pp_add sm p = Ok (with_pp sm pp') /\ pp_inv (sm_segs sm) (p :: l) pp' /\ same_cmp (sm_pp_root sm) pp'.
Proof.
  intros Hi Hp Hin Hr Hd. unfold pp_add. destruct (sm_pp_root sm) as [t|] eqn:E; [|exists None; split; [by rewrite <- E, with_pp_same|done]].
  destruct Hi as (Hc & l' & Hl & Hs & Ho). set (cmp := fun a b => pp_compar t (sm_segs sm !!! a) (sm_segs sm !!! b)) in *.
  assert (HC : AvlSpec.Compares cmp) by (by apply pp_compares).
  destruct (tr_add_ok (pp_root t) l' cmp p Hs) as (t' & lo & hi & -> & -> & Hlo & Hhi & Hs').
  - by apply AvlSpec.sorted_sifts.
  - apply Forall_forall. intros q Hq E0. apply (pp_zero (cmp := pp_compar t)) in E0. apply (Hd q); [by rewrite <- Hl|done].
  - done.
  - by rewrite Hl.
  - unfold room. by rewrite (Permutation_length Hl).
  - bnd. eexists. split; [done|]. split; [|done]. split; [done|]. exists (lo ++ p :: hi). split; [by rewrite <- Permutation_middle, Hl|]. split; [done|]. by apply AvlSpec.sorted_insert.
Qed.

Lemma pp_free_ok h l p (pp : option (pp_tree T)) : pp_inv h l pp -> (p ∉ l) ->
  pp_inv (delete p h) l ((fun pp => PpTree (tr_free (pp_root pp) p) (pp_compar pp)) <$> pp).
Proof.
  intros Hi Hp. destruct pp as [t|]; [|done]. cbn in *. destruct Hi as (Hc & l' & Hl & Hs & Ho). split; [done|]. exists l'. split; [done|].
  split; [apply tr_free_ok; [done|by rewrite Hl]|]. eapply sorted_ext; [|exact Ho]. intros q. rewrite Hl. intros Hq. apply lookup_delete_ne. by intros ->.
Qed.

(** ** Addition *)

Definition remade sm (t : T) h (pp : option (pp_tree T)) : space_map T O := with_pp (with_segs (with_root sm t) h) pp.

Lemma seg_ok sm l p : dom (sm_segs sm) = list_to_set l -> p ∈ l -> seg sm p = Ok (sm_segs sm !!! p).
Proof. intros Hd Hp. unfold seg. by rewrite (dom_present sm l p Hd Hp). Qed.

(** Whether the range joins the segment before it, or the one after it. *)
Lemma before_cases sm lo start : (forall q, q ∈ lo -> q <> NULL /\ sm_segs sm !! q = Some (sm_segs sm !!! q)) ->
  let p := List.last lo NULL in let test := if negb (p =? NULL) then s ← seg sm p; Ok (ss_end s =? start) else Ok false in
  (exists lo0, lo = lo0 ++ [p] /\ test = Ok true /\ merge_left (looks (sm_segs sm) lo) start = (looks (sm_segs sm) lo0, ss_start (sm_segs sm !!! p))) \/
  (test = Ok false /\ merge_left (looks (sm_segs sm) lo) start = (looks (sm_segs sm) lo, start)).
Proof.
  intros Hp. cbv zeta. destruct (decide (lo = [])) as [->|Hne]; [by right|]. destruct (exists_last Hne) as (lo0 & p & ->). rewrite List.last_last.
  destruct (Hp p ltac:(set_solver)) as [Hn Es]. rewrite (proj2 (Z.eqb_neq p NULL)) by done. unfold seg. rewrite Es. cbn [negb]. bnd. unfold merge_left. rewrite looks_app.
  change (looks (sm_segs sm) [p]) with [sm_segs sm !!! p]. rewrite last_snoc. rewrite removelast_last. destruct (_ =? start); [left; by exists lo0|by right].
Qed.

Lemma after_cases sm hi end_ : (forall q, q ∈ hi -> q <> NULL /\ sm_segs sm !! q = Some (sm_segs sm !!! q)) ->
  let p := hd NULL hi in let test := if negb (p =? NULL) then s ← seg sm p; Ok (ss_start s =? end_) else Ok false in
  (exists hi0, hi = p :: hi0 /\ test = Ok true /\ merge_right end_ (looks (sm_segs sm) hi) = (ss_end (sm_segs sm !!! p), looks (sm_segs sm) hi0)) \/
  (test = Ok false /\ merge_right end_ (looks (sm_segs sm) hi) = (end_, looks (sm_segs sm) hi)).
Proof.
  intros Hp. cbv zeta. destruct hi as [|p hi]; [by right|]. cbn [hd]. destruct (Hp p ltac:(set_solver)) as [Hn Es]. rewrite (proj2 (Z.eqb_neq p NULL)) by done. unfold seg. rewrite Es. cbn [negb].
  bnd. unfold merge_right. cbn [looks fmap list_fmap]. destruct (_ =? end_); [left; by exists hi|by right].
Qed.

Lemma set_seg_ok sm l p s : dom (sm_segs sm) = list_to_set l -> p ∈ l -> set_seg sm p s = Ok (with_segs sm (<[p := s]> (sm_segs sm))).
Proof. intros Hd Hp. unfold set_seg. by rewrite (dom_present sm l p Hd Hp). Qed.

(** The map with the segments [rs], one of which is not yet in the picker's tree. *)
Definition added sm (rs : list space_seg) (r : res (space_map T O * Z)) : Prop :=
  exists t' h' pp' p l' l0, r = Ok (remade sm t' h' pp', p) /\ tr_seq t' l' /\ dom h' = list_to_set l' /\
    looks h' l' = rs /\ l' ≡ₚ p :: l0 /\ pp_inv h' l0 pp' /\ same_cmp (sm_pp_root sm) pp'.

(** A segment changed in place. *)
Lemma stretch_ok sm lo p hi s : sm_ok sm (lo ++ p :: hi) ->
  exists pp', (sm ← set_seg sm p s; sm ← pp_remove sm p; Ok (sm, p)) = Ok (remade sm (sm_root sm) (<[p := s]> (sm_segs sm)) pp', p) /\
    dom (<[p := s]> (sm_segs sm)) = list_to_set (lo ++ p :: hi) /\ looks (<[p := s]> (sm_segs sm)) (lo ++ p :: hi) = looks (sm_segs sm) lo ++ s :: looks (sm_segs sm) hi /\
    pp_inv (<[p := s]> (sm_segs sm)) (lo ++ hi) pp' /\ same_cmp (sm_pp_root sm) pp'.
Proof.
  intros [Hs Hd _ _ _ Hpp]. destruct (tr_seq_facts _ _ Hs) as (Hn & Hnn & _). rewrite (set_seg_ok sm (lo ++ p :: hi)) by (done || set_solver). bnd.
  destruct (pp_remove_ok (with_segs sm (<[p := s]> (sm_segs sm))) (sm_segs sm) (<[p := s]> (sm_segs sm)) p (lo ++ hi)) as (pp' & -> & Hpp' & Hcmp).
  - eapply pp_inv_perm; [|exact Hpp]. by rewrite Permutation_middle.
  - intros q Hq. apply lookup_insert_ne. intros ->. apply NoDup_app in Hn as (_ & Hn1 & Hn2). apply NoDup_cons in Hn2. set_solver.
  - bnd. exists pp'. split; [done|]. split; [rewrite dom_insert_L, Hd; set_solver|]. split; [by apply looks_insert|]. by split.
Qed.

(** Two segments joined by what lies between them. *)
Lemma bridge_ok sm lo b a hi : sm_ok sm (lo ++ b :: a :: hi) ->
  added sm (looks (sm_segs sm) lo ++ SpaceSeg (ss_start (sm_segs sm !!! b)) (ss_end (sm_segs sm !!! a)) :: looks (sm_segs sm) hi) (
    t ← tr_remove (sm_root sm) b;
    let sm := with_root sm t in
    sm ← pp_remove sm b;
    sm ← pp_remove sm a;
    b' ← seg sm b;
    a' ← seg sm a;
    sm ← set_seg sm a (SpaceSeg (ss_start b') (ss_end a'));
    Ok (seg_free sm b, a)).
Proof.
  intros [Hs Hd _ _ _ Hpp]. destruct (tr_seq_facts _ _ Hs) as (Hn & Hnn & _). destruct (tr_remove_ok _ lo b (a :: hi) Hs) as (t & -> & Hs'). bnd.
  assert (Hab : a <> b /\ (a ∉ lo ++ hi) /\ b ∉ lo ++ hi).
  { rewrite <- !Permutation_middle in Hn. rewrite !NoDup_cons in Hn. set_solver. }
  destruct Hab as (Hab & Ha & Hb). unfold added. set (h := sm_segs sm) in *.
  destruct (pp_remove_ok (with_root sm t) h h b (a :: lo ++ hi)) as (pp1 & -> & Hp1 & Hc1); [eapply pp_inv_perm; [|exact Hpp]; by rewrite <- !Permutation_middle|done|]. bnd.
  set (s' := SpaceSeg (ss_start (h !!! b)) (ss_end (h !!! a))). set (h' := delete b (<[a := s']> h)).
  assert (Hh' : forall q, q ∈ lo ++ hi -> h' !! q = h !! q) by (intros q Hq; unfold h'; rewrite lookup_delete_ne, lookup_insert_ne; set_solver).
  assert (Ha' : h' !! a = Some s') by (unfold h'; by rewrite lookup_delete_ne, lookup_insert_eq).
  destruct (pp_remove_ok (with_pp (with_root sm t) pp1) h (<[a := s']> h) a (lo ++ hi)) as (pp2 & -> & Hp2 & Hc2); [done|intros q Hq; apply lookup_insert_ne; set_solver|]. bnd.
  set (sm1 := with_pp _ pp2). assert (Hd1 : dom (sm_segs sm1) = list_to_set (lo ++ b :: a :: hi)) by exact Hd.
  rewrite (seg_ok sm1 _ b Hd1), (seg_ok sm1 _ a Hd1) by set_solver. bnd. rewrite (set_seg_ok sm1 _ a _ Hd1) by set_solver. bnd.
  eexists (tr_free t b), h', _, a, (lo ++ a :: hi), (lo ++ hi). split; [done|]. split; [apply tr_free_ok; [done|set_solver]|]. split; [|split; [|split]].
  - unfold h'. rewrite dom_delete_L, dom_insert_L, Hd. apply set_eq. intros q. rewrite elem_of_difference, elem_of_union, !elem_of_list_to_set, !elem_of_singleton.
    rewrite !elem_of_app, !elem_of_cons. rewrite !elem_of_app in Hb. naive_solver.
  - rewrite looks_app. cbn [looks fmap list_fmap]. fold (looks h' hi). rewrite (lookup_total_correct _ _ _ Ha').
    f_equal; [|f_equal]; apply looks_ext; intros q Hq; apply Hh'; set_solver.
  - by rewrite Permutation_middle.
  - split; [by apply pp_free_ok; [|set_solver]|]. unfold same_cmp in *. cbn in Hc1, Hc2. rewrite <- Hc1, <- Hc2. unfold sm1. by destruct pp2.
Qed.

Lemma kmem_new sm l : sm_ok sm l -> kmem_alloc (dom (sm_segs sm)) <> NULL /\ kmem_alloc (dom (sm_segs sm)) ∉ l.
Proof. intros Hok. destruct (kmem_alloc_fresh (dom (sm_segs sm))) as [H1 H2]. split; [done|]. rewrite (ok_dom _ _ Hok) in H2 |- *. by rewrite elem_of_list_to_set in H2. Qed.

Lemma add_merge_ok sm lo hi w start end_ : sm_ok sm (lo ++ hi) -> tr_gap (sm_root sm) w lo hi -> 
  added sm (merge (looks (sm_segs sm) lo) start end_ (looks (sm_segs sm) hi)) (add_merge sm start end_ w).
Proof.
  intros Hok Hg. pose proof (ok_room _ _ Hok) as Hroom. pose proof Hok as [Hs Hd _ _ _ Hpp]. destruct (tr_seq_facts _ _ Hs) as (Hn & Hnn & _).
  destruct (tr_nearest_ok _ _ _ _ Hg) as [Eb Ea]. unfold add_merge. rewrite Eb, Ea. bnd.
  assert (Hpres : forall q, q ∈ lo ++ hi -> q <> NULL /\ sm_segs sm !! q = Some (sm_segs sm !!! q)) by (intros q Hq; split; [auto|by apply (dom_present sm (lo ++ hi))]).
  destruct (before_cases sm lo start) as [(lo0 & Elo & -> & Ml)|[-> Ml]]; [set_solver| |];
    (destruct (after_cases sm hi end_) as [(hi0 & Ehi & -> & Mr)|[-> Mr]]; [set_solver| |]); bnd; cbn [andb];
    [set (b := List.last lo NULL) in *; set (a := hd NULL hi) in *; clearbody a b; subst lo hi|set (b := List.last lo NULL) in *; clearbody b; subst lo|
     set (a := hd NULL hi) in *; clearbody a; subst hi|].
  - rewrite <- app_assoc in Hok. unfold merge. rewrite Ml, Mr. exact (bridge_ok sm lo0 b a hi0 Hok).
  - rewrite <- app_assoc in Hok, Hd. cbn in Hok, Hd. rewrite (seg_ok sm _ b Hd) by set_solver. bnd. destruct (stretch_ok sm lo0 b hi (SpaceSeg (ss_start (sm_segs sm !!! b)) end_) Hok) as (pp' & -> & H1 & H2 & H3 & H4).
    rewrite <- app_assoc in Hs. eexists _, _, _, b, (lo0 ++ b :: hi), (lo0 ++ hi). split_and!; try done; [|by rewrite Permutation_middle]. unfold merge. by rewrite Ml, Mr.
  - rewrite (seg_ok sm _ a Hd) by set_solver. bnd. destruct (stretch_ok sm lo a hi0 (SpaceSeg start (ss_end (sm_segs sm !!! a))) Hok) as (pp' & -> & H1 & H2 & H3 & H4).
    eexists _, _, _, a, (lo ++ a :: hi0), (lo ++ hi0). split_and!; try done; [|by rewrite Permutation_middle]. unfold merge. by rewrite Ml, Mr.
  - destruct (kmem_new sm _ Hok) as [Kn Ki]. set (p := kmem_alloc _) in *. destruct (tr_insert_ok _ w lo hi p Hg Kn Ki Hroom) as (t & Et & Hs'). match goal with |- context [tr_insert ?r _ _] => change r with (sm_root sm) end. rewrite Et. bnd.
    assert (Hn' : NoDup (lo ++ p :: hi)) by (by destruct (tr_seq_facts _ _ Hs')).
    exists t, (<[p := SpaceSeg start end_]> (sm_segs sm)), (sm_pp_root sm), p, (lo ++ p :: hi), (lo ++ hi). split; [reflexivity|]. split_and!; try done.
    + rewrite dom_insert_L, Hd. set_solver.
    + rewrite looks_insert by done. unfold merge. by rewrite Ml, Mr.
    + by rewrite Permutation_middle.
    + eapply pp_inv_ext; [|exact Hpp]. intros q Hq. apply lookup_insert_ne. by intros ->.
Qed.

(** What no operation on segments changes. *)
Definition framed sm sm' : Prop :=
  sm_start sm' = sm_start sm /\ sm_size sm' = sm_size sm /\ sm_shift sm' = sm_shift sm /\ sm_loaded sm' = sm_loaded sm /\ sm_loading sm' = sm_loading sm /\
  sm_ops sm' = sm_ops sm /\ sm_ppd sm' = sm_ppd sm /\ same_cmp (sm_pp_root sm) (sm_pp_root sm').

(** A range that can be in the map. *)
Definition fits sm (start size : Z) : Prop :=
  0 < size /\ sm_start sm <= start /\ start + size <= sm_start sm + sm_size sm /\ start mod 2 ^ sm_shift sm = 0 /\ size mod 2 ^ sm_shift sm = 0.

Lemma unit_pow2 sm l : sm_ok sm l -> unit_of sm = 2 ^ sm_shift sm.
Proof.
  intros Hok. destruct (ok_geom _ _ Hok) as (_ & _ & _ & Hs). unfold unit_of. rewrite Z.shiftl_1_l. apply Z.mod_small. split; [lia|]. apply Z.pow_lt_mono_r; lia.
Qed.

Lemma phase_ok sm l x : sm_ok sm l -> x mod 2 ^ sm_shift sm = 0 -> (P2PHASE x (unit_of sm) =? 0) = true.
Proof. intros Hok E. pose proof (ok_geom _ _ Hok) as (_ & _ & _ & Hs). rewrite (unit_pow2 sm l Hok), P2PHASE_pow2, E by lia. done. Qed.

Lemma fits_facts sm l start size : sm_ok sm l -> fits sm start size ->
  u64 (start + size) = start + size /\ u64 (sm_start sm + sm_size sm) = sm_start sm + sm_size sm /\
  proper (sm_start sm) (sm_start sm + sm_size sm) (2 ^ sm_shift sm) (SpaceSeg start (start + size)).
Proof.
  intros Hok (F1 & F2 & F3 & F4 & F5). destruct (ok_geom _ _ Hok) as (G1 & G2 & G3 & G4). assert (0 < 2 ^ sm_shift sm) by auto with bits.
  split_and!; [apply Z.mod_small; lia|apply Z.mod_small; lia|]. split_and!; cbn; try lia. rewrite Z.add_mod, F4, F5 by lia. done.
Qed.

(** The segment that has changed goes back into the picker's tree. *)
Lemma settle_ok sm t h pp p l l0 (f : Z -> Z) : sm_ok sm l -> forall l' rs, tr_seq t l' -> dom h = list_to_set l' -> looks h l' = rs -> l' ≡ₚ p :: l0 -> pp_inv h l0 pp ->
  same_cmp (sm_pp_root sm) pp -> canon (sm_start sm) (sm_start sm + sm_size sm) (2 ^ sm_shift sm) rs -> f (sm_space sm) = total rs ->
  exists sm', (sm ← pp_add (remade sm t h pp) p; Ok (with_space sm (f (sm_space sm)))) = Ok sm' /\ sm_ok sm' l' /\ framed sm sm' /\ sm_space sm' = f (sm_space sm) /\ sm_segs sm' = h.
Proof.
  intros Hok l' rs Hs Hd Hl Hp Hpp Hcmp Hc Hn. destruct (tr_seq_facts _ _ Hs) as (Hnd & Hnn & _). destruct (ok_geom _ _ Hok) as (G1 & G2 & G3 & G4).
  pose proof Hnd as Hnd'. rewrite Hp in Hnd'. apply NoDup_cons in Hnd' as [Hpi _].
  assert (Hr : room l0). { apply canon_size in Hc as [Hc _]; [|lia]. rewrite <- Hl in Hc. unfold looks in Hc. rewrite length_fmap, (Permutation_length Hp) in Hc. cbn in Hc. unfold room. lia. }
  destruct (pp_add_ok (remade sm t h pp) p l0) as (pp' & -> & Hpp' & Hcmp'); [done|apply Hnn; rewrite Hp; set_solver|done|done| |].
  - intros q Hq E. cbn in E. subst rs. apply (canon_distinct _ _ _ (fun p => h !!! p) l' q p Hc); [rewrite Hp; set_solver|rewrite Hp; set_solver|done|by intros ->].
  - bnd. eexists. split; [done|]. split; [|split; [|done]].
    + constructor; cbn; try done; [by rewrite Hl|by rewrite Hl|]. by eapply pp_inv_perm; [|exact Hpp'].
    + repeat split; try done. unfold same_cmp in *. cbn in *. congruence.
Qed.

Lemma space_map_add_ok sm l start size : sm_ok sm l -> fits sm start size -> (forall x, inside start size x -> ~ space sm x) ->
  exists sm' l', space_map_add sm start size = Ok sm' /\ sm_ok sm' l' /\ framed sm sm' /\ sm_space sm' = sm_space sm + size /\
    (forall x, space sm' x <-> space sm x \/ inside start size x).
Proof.
  intros Hok Hf Hdis. destruct (fits_facts sm l start size Hok Hf) as (E1 & E2 & Hp). pose proof Hf as (F1 & F2 & F3 & F4 & F5). destruct (ok_geom _ _ Hok) as (G1 & G2 & G3 & G4).
  assert (Hx : forall x, space sm x <-> covers (looks (sm_segs sm) l) x) by (intros x; by apply space_covers, ok_dom).
  destruct (seg_find_ok sm l start (start + size) Hok ltac:(lia)) as [(q & w & _ & _ & Hq & O1 & O2)|(w & lo & hi & Ef & -> & Hg & Hlo & Hhi)].
  { exfalso. pose proof (looks_in (sm_segs sm) _ q Hq) as Hin. destruct (canon_proper _ _ _ _ _ (ok_canon _ _ Hok) Hin) as (_ & ? & _).
    apply (Hdis (Z.max start (ss_start (sm_segs sm !!! q)))); [lia|]. apply Hx. eexists. split; [exact Hin|]. lia. }
  pose proof (ok_canon _ _ Hok) as Hc. rewrite looks_app in Hc. destruct (merge_ok _ _ _ _ start (start + size) _ Hc Hp Hlo Hhi) as (Mc & Mx & Mt). rewrite <- looks_app in Mx, Mt.
  assert (Et : sm_space sm + size = total (merge (looks (sm_segs sm) lo) start (start + size) (looks (sm_segs sm) hi))) by (rewrite Mt, (ok_space _ _ Hok); lia).
  pose proof (canon_size _ _ _ _ Mc ltac:(lia)) as [_ Hsz]. pose proof (canon_size _ _ _ _ (ok_canon _ _ Hok) ltac:(lia)) as [_ Hsz0]. rewrite <- (ok_space _ _ Hok) in Hsz0.
  assert (E3 : u64 (sm_space sm + size) = sm_space sm + size) by (apply Z.mod_small; lia).
  unfold space_map_add. rewrite E1, E2, E3. rewrite (proj2 (Z.eqb_neq size 0)), (proj2 (Z.leb_le (sm_start sm) start)), (proj2 (Z.leb_le (start + size) _)), (proj2 (Z.leb_le (sm_space sm + size) _)) by lia.
  rewrite !(phase_ok sm _ _ Hok) by done. cbn [negb verify]. bnd. rewrite Ef. bnd. rewrite Z.eqb_refl. cbn [negb verify]. bnd.
  destruct (add_merge_ok sm lo hi w start (start + size) Hok Hg) as (t & h & pp & p & l' & l0 & -> & Hs & Hd & Hl & Hperm & Hpp & Hcmp). bnd.
  rewrite <- E3 in Et. destruct (settle_ok sm t h pp p _ l0 (fun n => u64 (n + size)) Hok l' _ Hs Hd Hl Hperm Hpp Hcmp Mc Et) as (sm' & Es & Hok' & Hfr & Hn' & Hh). exists sm', l'.
  split; [exact Es|split; [done|split; [done|split; [by rewrite Hn'|]]]].
  intros x. rewrite (space_covers sm' l') by (apply Hok'). rewrite Hx, Hh, Hl. apply Mx.
Qed.
End ok.
End SpaceMapOk.
