(* ===== verification/SpaceMapWalk.v ===== *)
(** Removal from a space map in memory, queries and walks.

    Queries, faults and walks of a space map in memory, and the theorems about
    the operations on one map. *)

From S2P Require Import Prelude Avl AvlSpec OrdTree SpaceMap SpaceSet SpaceMapOk.
Import SpaceMap SpaceSet SpaceMapOk.
Open Scope Z_scope.

Module SpaceMapCut.
Section ok.
Context {T I O : Type} {HT : Tree T I} {HK : Kmem} {HTL : TreeLaws T I} {HKL : KmemLaws}.
Implicit Types (sm : space_map T O) (h : gmap Z space_seg).

(** ** Removal *)

Section cut.
Context (sm : space_map T O) (lo hi : list Z) (q start end_ : Z) (pp1 : option (pp_tree T)).
Abbreviation h := (sm_segs sm).
Abbreviation s := (h !!! q).
Context (Hok : sm_ok sm (lo ++ q :: hi)) (Hpp : pp_inv h (lo ++ hi) pp1) (Hcmp : same_cmp (sm_pp_root sm) pp1).
Context (Hin : ss_start s <= start /\ start < end_ /\ end_ <= ss_end s) (Hal : start mod 2 ^ sm_shift sm = 0 /\ end_ mod 2 ^ sm_shift sm = 0).

(** The map with the range cut out; what is left of the segment is not yet in the
    picker's tree. *)
Definition cut_out (r : res (space_map T O * Z)) : Prop :=
  exists t' h' pp' l' p, r = Ok (remade sm t' h' pp', p) /\ tr_seq t' l' /\ dom h' = list_to_set l' /\
    looks h' l' = cut (looks h lo) s (looks h hi) start end_ /\ same_cmp (sm_pp_root sm) pp' /\
    ((p = NULL /\ pp_inv h' l' pp') \/ (p <> NULL /\ exists l0, l' ≡ₚ p :: l0 /\ pp_inv h' l0 pp')).

Lemma cut_nodup : NoDup (lo ++ q :: hi) /\ q <> NULL /\ (q ∉ lo ++ hi).
Proof using All.
  destruct (tr_seq_facts _ _ (ok_seq _ _ Hok)) as (Hn & Hnn & _). split; [done|]. split; [apply Hnn; set_solver|]. rewrite <- Permutation_middle in Hn. by apply NoDup_cons in Hn as [? _].
Qed.

Lemma cut_canon : canon (sm_start sm) (sm_start sm + sm_size sm) (2 ^ sm_shift sm) (cut (looks h lo) s (looks h hi) start end_).
Proof using All.
  pose proof (ok_canon _ _ Hok) as Hc. rewrite looks_app in Hc. destruct Hin as (? & ? & ?), Hal. by destruct (cut_ok _ _ _ _ s _ start end_ Hc) as [? _].
Qed.

(** One end is cut off. *)
Lemma cut_end s' : (if ss_start s =? start then [] else [SpaceSeg (ss_start s) start]) ++ (if ss_end s =? end_ then [] else [SpaceSeg end_ (ss_end s)]) = [s'] ->
  cut_out (sm ← set_seg (with_pp sm pp1) q s'; Ok (sm, q)).
Proof using All.
  intros E. destruct cut_nodup as (Hn & Hq & Hqi). rewrite (set_seg_ok (with_pp sm pp1) (lo ++ q :: hi)) by (by apply Hok || set_solver). bnd.
  exists (sm_root sm), (<[q := s']> h), pp1, (lo ++ q :: hi), q. split; [done|]. split; [apply Hok|]. split; [rewrite dom_insert_L, (ok_dom _ _ Hok); set_solver|].
  split; [rewrite looks_insert by done; unfold cut; by rewrite (app_assoc _ _ (looks h hi)), E|]. split; [done|]. right. split; [done|]. exists (lo ++ hi).
  split; [by rewrite Permutation_middle|]. eapply pp_inv_ext; [|exact Hpp]. intros p Hp. apply lookup_insert_ne. by intros ->.
Qed.

(** The whole segment goes. *)
Lemma cut_all : ss_start s = start -> ss_end s = end_ -> cut_out (t ← tr_remove (sm_root sm) q; Ok (seg_free (with_root (with_pp sm pp1) t) q, NULL)).
Proof using All.
  intros E1 E2. destruct cut_nodup as (Hn & Hq & Hqi). destruct (tr_remove_ok _ lo q hi (ok_seq _ _ Hok)) as (t & -> & Hs). bnd.
  eexists (tr_free t q), (delete q h), _, (lo ++ hi), NULL. split; [done|]. split; [by apply tr_free_ok|]. split.
  - rewrite dom_delete_L, (ok_dom _ _ Hok). apply set_eq. intros p. rewrite elem_of_difference, !elem_of_list_to_set, elem_of_singleton. set_solver.
  - split; [|split; [|left; split; [done|by apply pp_free_ok]]].
    + unfold cut. rewrite E1, E2, !Z.eqb_refl. cbn [app]. rewrite looks_app. f_equal; apply looks_ext; intros p Hp; apply lookup_delete_ne; set_solver.
    + unfold same_cmp in *. cbn. rewrite <- Hcmp. by destruct pp1.
Qed.

(** The middle goes: the rest becomes two segments. *)
Lemma cut_middle : ss_start s <> start -> ss_end s <> end_ ->
  cut_out (let newseg := kmem_alloc (dom h) in
    let sm := with_segs (with_pp sm pp1) (<[newseg := SpaceSeg end_ (ss_end s)]> h) in
    sm ← set_seg sm q (SpaceSeg (ss_start s) start);
    t ← tr_insert_here (sm_root sm) newseg q AVL_AFTER;
    sm ← pp_add (with_root sm t) newseg;
    Ok (sm, q)).
Proof using All.
  intros E1 E2. destruct cut_nodup as (Hn & Hq & Hqi). destruct (kmem_new sm _ Hok) as [Kn Ki]. set (p := kmem_alloc _) in *. cbv zeta.
  assert (Hpq : p <> q) by set_solver. pose proof (dom_present sm _ q (ok_dom _ _ Hok) ltac:(set_solver)) as Eq.
  set (h1 := <[p := SpaceSeg end_ (ss_end s)]> h). set (h' := <[q := SpaceSeg (ss_start s) start]> h1).
  assert (Es : set_seg (with_segs (with_pp sm pp1) h1) q (SpaceSeg (ss_start s) start) = Ok (with_segs (with_pp sm pp1) h')).
  { unfold set_seg. cbn [sm_segs with_segs]. unfold h1 at 1. by rewrite lookup_insert_ne, Eq. }
  rewrite Es. bnd. destruct (tr_insert_here_ok _ lo q hi p (ok_seq _ _ Hok) Kn Ki (ok_room _ _ Hok)) as (t & Et & Hs).
  match goal with |- context [tr_insert_here ?r _ _ _] => change r with (sm_root sm) end. rewrite Et. bnd. destruct (tr_seq_facts _ _ Hs) as (Hn' & _).
  assert (Hsame : forall k, k ∈ lo ++ hi -> h' !! k = h !! k) by (intros k Hk; unfold h', h1; rewrite !lookup_insert_ne; set_solver).
  assert (Hl : looks h' (lo ++ q :: p :: hi) = cut (looks h lo) s (looks h hi) start end_).
  { unfold cut. rewrite (proj2 (Z.eqb_neq _ _) E1), (proj2 (Z.eqb_neq _ _) E2), looks_app. cbn [looks fmap list_fmap app]. fold (looks h' hi).
    rewrite (lookup_total_correct h' q (SpaceSeg (ss_start s) start)) by (unfold h'; by rewrite lookup_insert_eq).
    rewrite (lookup_total_correct h' p (SpaceSeg end_ (ss_end s))) by (unfold h', h1; by rewrite lookup_insert_ne, lookup_insert_eq).
    f_equal; [|do 2 f_equal]; apply looks_ext; intros k Hk; apply Hsame; set_solver. }
  set (sm1 := with_root (with_segs (with_pp sm pp1) h') t).
  destruct (pp_add_ok sm1 p (lo ++ hi)) as (pp2 & -> & Hp2 & Hc2).
  - eapply pp_inv_ext; [|exact Hpp]. exact Hsame.
  - done.
  - set_solver.
  - pose proof (ok_room _ _ Hok) as R. unfold room in *. rewrite !length_app in *. cbn [length] in R. lia.
  - intros k Hk E. pose proof cut_canon as Hc. rewrite <- Hl in Hc. eapply (canon_distinct _ _ _ (fun p => h' !!! p) _ k p Hc); [set_solver|set_solver|exact E|set_solver].
  - bnd. exists t, h', pp2, (lo ++ q :: p :: hi), q. split; [done|]. split; [done|]. split; [unfold h', h1; rewrite !dom_insert_L, (ok_dom _ _ Hok); set_solver|].
    split; [done|]. split; [unfold same_cmp in *; cbn in Hc2; congruence|]. right. split; [done|]. exists (p :: lo ++ hi). split; [|done].
    by rewrite <- !Permutation_middle.
Qed.

Lemma remove_cut_ok : cut_out (remove_cut (with_pp sm pp1) q start end_).
Proof using All.
  unfold remove_cut. rewrite (seg_ok (with_pp sm pp1) (lo ++ q :: hi)) by (by apply Hok || set_solver). bnd.
  change (sm_segs (with_pp sm pp1)) with h. destruct (Z.eqb_spec (ss_start s) start) as [E1|E1], (Z.eqb_spec (ss_end s) end_) as [E2|E2]; cbn [negb andb].
  - by apply cut_all.
  - apply cut_end. rewrite E1, Z.eqb_refl. by rewrite (proj2 (Z.eqb_neq _ _) E2).
  - apply cut_end. rewrite E2, Z.eqb_refl. by rewrite (proj2 (Z.eqb_neq _ _) E1).
  - by apply cut_middle.
Qed.
End cut.

(** A range of the map lies in one segment. *)
Lemma whole_find sm l start size : sm_ok sm l -> 0 < size -> (forall x, inside start size x -> space sm x) ->
  exists q w, seg_find sm (SpaceSeg start (start + size)) = Ok (q, w) /\ q ∈ l /\ q <> NULL /\ ss_start (sm_segs sm !!! q) <= start /\ start + size <= ss_end (sm_segs sm !!! q).
Proof using All.
  intros Hok Hs Hx. assert (Hc : forall x, inside start size x -> covers (looks (sm_segs sm) l) x) by (intros x Hin; apply space_covers; [apply Hok|auto]).
  destruct (canon_contains _ _ _ _ start (start + size) (ok_canon _ _ Hok) ltac:(lia) Hc) as (s & Hsi & L1 & L2).
  destruct (seg_find_ok sm l start (start + size) Hok ltac:(lia)) as [(q & w & E & Hn & Hq & O1 & O2)|(w & lo & hi & _ & -> & _ & Hlo & Hhi)].
  - exists q, w. split; [done|]. split; [done|]. split; [done|]. pose proof (looks_in (sm_segs sm) l q Hq) as Hqi. destruct (canon_proper _ _ _ _ _ (ok_canon _ _ Hok) Hqi) as (_ & P & _).
    assert (Eq : s = sm_segs sm !!! q); [|by rewrite <- Eq]. apply (canon_disjoint _ _ _ _ _ _ (Z.max start (ss_start (sm_segs sm !!! q))) (ok_canon _ _ Hok)); (done || lia).
  - exfalso. rewrite looks_app in Hsi. apply elem_of_app in Hsi as [H|H]; [specialize (Hlo s H)|specialize (Hhi s H)]; lia.
Qed.

Lemma space_map_remove_ok sm l start size : sm_ok sm l -> fits sm start size -> (forall x, inside start size x -> space sm x) ->
  exists sm' l', space_map_remove sm start size = Ok sm' /\ sm_ok sm' l' /\ framed sm sm' /\ sm_space sm' = sm_space sm - size /\
    (forall x, space sm' x <-> space sm x /\ ~ inside start size x).
Proof using All.
  intros Hok Hf Hall. destruct (fits_facts sm l start size Hok Hf) as (E1 & E2 & _ & _ & _ & M1 & M2). cbn in M1, M2. pose proof Hf as (F1 & F2 & F3 & F4 & F5).
  destruct (ok_geom _ _ Hok) as (G1 & G2 & G3 & G4). destruct (whole_find sm l start size Hok F1 Hall) as (q & w & Ef & Hq & Hqn & L1 & L2).
  apply list_elem_of_split in Hq as (lo & hi & ->). pose proof (ok_canon _ _ Hok) as Hc. rewrite looks_app, looks_cons in Hc.
  destruct (cut_ok _ _ _ _ (sm_segs sm !!! q) _ start (start + size) Hc M1 M2 L1 ltac:(lia) L2) as (Cc & Cx & Ct).
  pose proof (canon_size _ _ _ _ Cc ltac:(lia)) as [_ Hsz]. pose proof (canon_size _ _ _ _ (ok_canon _ _ Hok) ltac:(lia)) as [_ Hsz0]. rewrite <- (ok_space _ _ Hok) in Hsz0.
  assert (Et : sm_space sm - size = total (cut (looks (sm_segs sm) lo) (sm_segs sm !!! q) (looks (sm_segs sm) hi) start (start + size))).
  { rewrite Ct, (ok_space _ _ Hok), looks_app, looks_cons. lia. }
  assert (E3 : u64 (sm_space sm - size) = sm_space sm - size) by (apply Z.mod_small; lia).
  unfold space_map_remove. rewrite E1, E3, (proj2 (Z.eqb_neq size 0)) by lia. rewrite !(phase_ok sm _ _ Hok) by done. cbn [negb verify]. bnd. rewrite Ef. bnd.
  rewrite (proj2 (Z.eqb_neq q NULL)) by done. rewrite (seg_ok sm _ q (ok_dom _ _ Hok)) by set_solver. bnd.
  rewrite (proj2 (Z.leb_le _ start)), (proj2 (Z.leb_le (start + size) _)), (proj2 (Z.leb_le (sm_space sm - size) _)) by lia. cbn [verify]. bnd.
  destruct (pp_remove_ok sm (sm_segs sm) (sm_segs sm) q (lo ++ hi)) as (pp1 & -> & Hp1 & Hc1); [eapply pp_inv_perm; [|apply Hok]; by rewrite Permutation_middle|done|]. bnd.
  destruct (remove_cut_ok sm lo hi q start (start + size) pp1 Hok Hp1 Hc1 ltac:(lia) ltac:(done)) as (t & h & pp & l' & p & -> & Hs & Hd & Hl & Hcmp & Hp). bnd.
  assert (Fin : exists sm', (sm ← (if negb (p =? NULL) then pp_add (remade sm t h pp) p else Ok (remade sm t h pp)); Ok (with_space sm (u64 (sm_space sm - size)))) = Ok sm' /\
    sm_ok sm' l' /\ framed sm sm' /\ sm_space sm' = sm_space sm - size /\ sm_segs sm' = h).
  { destruct Hp as [[-> Hp]|(Hpn & l0 & Hperm & Hp)].
    - rewrite Z.eqb_refl. cbn [negb]. bnd. eexists. split; [done|]. cbn [sm_space with_space]. split; [|split; [|done]].
      + constructor; cbn; rewrite ?Hl; try done. by rewrite E3.
      + by repeat split.
    - rewrite (proj2 (Z.eqb_neq p NULL)) by done. cbn [negb]. rewrite <- E3 in Et.
      destruct (settle_ok sm t h pp p _ l0 (fun n => u64 (n - size)) Hok l' _ Hs Hd Hl Hperm Hp Hcmp Cc Et) as (sm' & Es & H1 & H2 & H3 & H4). exists sm'. by rewrite <- E3. }
  destruct Fin as (sm' & Es & Hok' & Hfr & Hn' & Hh). exists sm', l'. split; [exact Es|]. split; [done|]. split; [done|]. split; [done|].
  intros x. rewrite (space_covers sm' l') by (apply Hok'). rewrite (space_covers sm (lo ++ q :: hi)) by (apply Hok). rewrite Hh, Hl, looks_app, looks_cons. apply Cx.
Qed.
End ok.
End SpaceMapCut.

Import SpaceMapCut.

Module SpaceMapWalk.
Section ok.
Context {T I O : Type} {HT : Tree T I} {HK : Kmem} {HTL : TreeLaws T I} {HKL : KmemLaws}.
Implicit Types (sm : space_map T O) (h : gmap Z space_seg).

(** A range that makes sense, in the map or not. *)
Definition ranged sm (start size : Z) : Prop :=
  0 < size /\ 0 <= start /\ start + size < 2 ^ 64 /\ start mod 2 ^ sm_shift sm = 0 /\ size mod 2 ^ sm_shift sm = 0.

Lemma fits_ranged sm l start size : sm_ok sm l -> fits sm start size -> ranged sm start size.
Proof. intros Hok (F1 & F2 & F3 & F4 & F5). destruct (ok_geom _ _ Hok) as (G1 & G2 & G3 & G4). split_and!; try done; lia. Qed.

(** The search for a range, and what it says of the set. *)
Lemma range_find sm l start size : sm_ok sm l -> 0 < size ->
  exists q w, seg_find sm (SpaceSeg start (start + size)) = Ok (q, w) /\
    ((q = NULL /\ forall x, inside start size x -> ~ space sm x) \/
     (q <> NULL /\ seg sm q = Ok (sm_segs sm !!! q) /\ (exists x, inside start size x /\ space sm x) /\
       ((ss_start (sm_segs sm !!! q) <= start /\ start + size <= ss_end (sm_segs sm !!! q)) <-> forall x, inside start size x -> space sm x))).
Proof using All.
  intros Hok Hs. assert (Hx : forall x, space sm x <-> covers (looks (sm_segs sm) l) x) by (intros x; apply space_covers, Hok).
  destruct (seg_find_ok sm l start (start + size) Hok ltac:(lia)) as [(q & w & E & Hn & Hq & O1 & O2)|(w & lo & hi & E & -> & _ & Hlo & Hhi)].
  - exists q, w. split; [done|right]. split; [done|]. split; [by apply (seg_ok sm l); [apply Hok|]|]. pose proof (looks_in (sm_segs sm) l q Hq) as Hqi.
    destruct (canon_proper _ _ _ _ _ (ok_canon _ _ Hok) Hqi) as (_ & P & _). split.
    + exists (Z.max start (ss_start (sm_segs sm !!! q))). split; [lia|]. apply Hx. eexists. split; [exact Hqi|lia].
    + split; [intros [L1 L2] x Hin; apply Hx; eexists; split; [exact Hqi|lia]|]. intros Hall.
      destruct (whole_find sm l start size Hok Hs Hall) as (q' & w' & E' & _ & _ & L). rewrite E in E'. by injection E' as -> ->.
  - exists NULL, w. split; [done|left]. split; [done|]. intros x Hin (s & Hs' & Hsx)%Hx. rewrite looks_app in Hs'. apply elem_of_app in Hs' as [H|H]; [specialize (Hlo s H)|specialize (Hhi s H)]; lia.
Qed.

Lemma space_map_contains_ok sm l start size : sm_ok sm l -> ranged sm start size ->
  exists b, space_map_contains sm start size = Ok b /\ (b = true <-> forall x, inside start size x -> space sm x).
Proof using All.
  intros Hok (R1 & R2 & R3 & R4 & R5). unfold space_map_contains. assert (E1 : u64 (start + size) = start + size) by (apply Z.mod_small; lia). rewrite E1.
  rewrite (proj2 (Z.eqb_neq size 0)) by lia. rewrite !(phase_ok sm _ _ Hok) by done. cbn [negb verify]. bnd.
  destruct (range_find sm l start size Hok R1) as (q & w & -> & [[-> Hno]|(Hn & Es & _ & Hiff)]); bnd.
  - rewrite Z.eqb_refl. exists false. split; [done|]. split; [done|]. intros Hall. exfalso. apply (Hno start); [lia|apply Hall; lia].
  - rewrite (proj2 (Z.eqb_neq q NULL)), Es by done. cbn [negb]. bnd. eexists. split; [done|]. rewrite andb_true_iff, !Z.leb_le. done.
Qed.

Lemma space_map_add_bad sm l start size : sm_ok sm l -> fits sm start size -> (exists x, inside start size x /\ space sm x) ->
  space_map_add sm start size = Fault FPanic \/ (zfs_recover = true /\ (forall x, inside start size x -> space sm x) /\ space_map_add sm start size = Ok sm).
Proof using All.
  intros Hok Hf (x & Hin & Hx). destruct (fits_facts sm l start size Hok Hf) as (E1 & E2 & _). pose proof Hf as (F1 & F2 & F3 & F4 & F5).
  unfold space_map_add. rewrite E1, E2, (proj2 (Z.eqb_neq size 0)), (proj2 (Z.leb_le (sm_start sm) start)), (proj2 (Z.leb_le (start + size) _)) by lia. cbn [negb verify]. bnd.
  destruct (u64 (sm_space sm + size) <=? sm_size sm); cbn [verify]; bnd; [|by left]. rewrite !(phase_ok sm _ _ Hok) by done. cbn [verify]. bnd.
  destruct (range_find sm l start size Hok F1) as (q & w & -> & [[-> Hno]|(Hn & Es & _ & Hiff)]); [by destruct (Hno x Hin)|]. bnd.
  rewrite (proj2 (Z.eqb_neq q NULL)), Es by done. cbn [negb]. bnd. destruct ((_ <=? start) && (start + size <=? _)) eqn:Eb.
  - unfold zfs_panic_recover. destruct zfs_recover; [right|by left]. split; [done|]. split; [|done]. apply Hiff. zbool. done.
  - by left.
Qed.

Lemma space_map_remove_bad sm l start size : sm_ok sm l -> ranged sm start size -> ~ (forall x, inside start size x -> space sm x) ->
  space_map_remove sm start size = Fault FPanic \/ (zfs_recover = true /\ (forall x, inside start size x -> ~ space sm x) /\ space_map_remove sm start size = Ok sm).
Proof using All.
  intros Hok (R1 & R2 & R3 & R4 & R5) Hno. unfold space_map_remove. assert (E1 : u64 (start + size) = start + size) by (apply Z.mod_small; lia). rewrite E1.
  rewrite (proj2 (Z.eqb_neq size 0)) by lia. rewrite !(phase_ok sm _ _ Hok) by done. cbn [negb verify]. bnd.
  destruct (range_find sm l start size Hok R1) as (q & w & -> & [[-> Hn]|(Hn & Es & _ & Hiff)]); bnd.
  - rewrite Z.eqb_refl. unfold zfs_panic_recover. destruct zfs_recover; [right|by left]. done.
  - left. rewrite (proj2 (Z.eqb_neq q NULL)), Es by done. bnd. destruct (Z.leb_spec (ss_start (sm_segs sm !!! q)) start); cbn [verify]; bnd; [|done].
    destruct (Z.leb_spec (start + size) (ss_end (sm_segs sm !!! q))); cbn [verify]; bnd; [|done]. exfalso. by apply Hno, Hiff.
Qed.

(** ** Walks *)

(** The function of a walk applied to one segment. *)
Definition apply_seg {M} (func : M -> Z -> Z -> res M) h (p : Z) (m : M) : res M := func m (ss_start (h !!! p)) (u64 (ss_end (h !!! p) - ss_start (h !!! p))).

Lemma each_ext {A S} (f g : A -> S -> res S) l s : (forall p s, p ∈ l -> f p s = g p s) -> each f l s = each g l s.
Proof.
  revert s. induction l as [|p l IH]; intros s H; [done|]. cbn. rewrite H by set_solver. destruct (g p s); [|done]. cbn. apply IH. intros. apply H. set_solver.
Qed.

Lemma space_map_walk_ok {M} sm l (func : M -> Z -> Z -> res M) m : sm_ok sm l -> space_map_walk sm func m = each (apply_seg func (sm_segs sm)) l m.
Proof using All.
  intros Hok. unfold space_map_walk. rewrite (tr_each_ok _ l) by apply Hok. apply each_ext. intros p m' Hp. by rewrite (seg_ok sm l) by (apply Hok || done).
Qed.

(** An empty map with the fields of another. *)
Definition emptied sm (t : T) : space_map T O := with_space (with_segs (with_root sm t) ∅) 0.

Lemma space_map_vacate_ok {M} sm l (func : option (M -> Z -> Z -> res M)) m : sm_ok sm l -> sm_pp_root sm = None ->
  exists todo t, todo ≡ₚ l /\ sm_ok (emptied sm t) [] /\
    space_map_vacate sm func m = m' ← each (apply_seg (default (fun m _ _ => Ok m) func) (sm_segs sm)) todo m; Ok (emptied sm t, m').
Proof using All.
  intros Hok Hpp. destruct (ok_geom _ _ Hok) as (G1 & G2 & G3 & G4). unfold space_map_vacate.
  match goal with |- context [tr_drain true _ ?f ?s] => destruct (tr_drain_ok true (sm_root sm) l f s (ok_seq _ _ Hok)) as (todo & t & Hp & Hs & ->) end.
  exists todo, t. split; [done|]. split.
  { constructor; cbn; [done|apply dom_empty_L|apply canon_nil|done|done|by rewrite Hpp]. }
  assert (Hd : dom (sm_segs sm) = list_to_set todo) by (rewrite (ok_dom _ _ Hok); apply set_eq; intros q; by rewrite !elem_of_list_to_set, Hp).
  assert (Hn : NoDup todo) by (rewrite Hp; by destruct (tr_seq_facts _ _ (ok_seq _ _ Hok))).
  assert (Gen : forall todo h m, NoDup todo -> dom h = list_to_set todo -> (forall q, q ∈ todo -> h !! q = sm_segs sm !! q) ->
    each (fun p '(segs, mdest) => match segs !! p with
        | None => Fault FOob
        | Some s => mdest ← (match func with Some f => f mdest (ss_start s) (u64 (ss_end s - ss_start s)) | None => Ok mdest end); Ok (delete p segs, mdest)
        end) todo (h, m) = m' ← each (apply_seg (default (fun m _ _ => Ok m) func) (sm_segs sm)) todo m; Ok (∅, m')).
  - clear. induction todo as [|p todo IH]; intros h m Hn Hd Hq; cbn [each].
    { cbn in Hd. apply dom_empty_inv_L in Hd as ->. done. }
    apply NoDup_cons in Hn as [Hp Hn]. assert (Hpd : p ∈ dom h) by (rewrite Hd; set_solver). apply elem_of_dom in Hpd as [s Es]. rewrite Es.
    assert (Et : sm_segs sm !!! p = s) by (apply lookup_total_correct; rewrite <- Hq by set_solver; done). 
    assert (Ea : apply_seg (default (fun m _ _ => Ok m) func) (sm_segs sm) p m = default (fun m _ _ => Ok m) func m (ss_start s) (u64 (ss_end s - ss_start s))) by (unfold apply_seg; by rewrite Et).
    rewrite Ea. clear Ea.
    destruct func as [f|]; cbn [default from_option id].
    + destruct (f m (ss_start s) (u64 (ss_end s - ss_start s))) as [m1|fa]; [|reflexivity]. cbn [mbind res_bind]. apply IH; [done|rewrite dom_delete_L, Hd; set_solver|].
      intros q Hqi. rewrite lookup_delete_ne by (by intros ->). apply Hq. set_solver.
    + cbn [mbind res_bind]. apply IH; [done|rewrite dom_delete_L, Hd; set_solver|]. intros q Hqi. rewrite lookup_delete_ne by (by intros ->). apply Hq. set_solver.
  - cbn beta. rewrite (Gen todo (sm_segs sm) m Hn Hd) by done. destruct (each _ todo m) as [m'|]; done.
Qed.
End ok.
End SpaceMapWalk.
