(* ===== verification/SpaceMapRanges.v ===== *)
(** Many ranges added to or removed from a space map, one after the other. *)

From S2P Require Import Prelude Avl AvlSpec OrdTree SpaceMap SpaceSet SpaceMapOk SpaceMapWalk.
Import SpaceMap SpaceSet SpaceMapOk SpaceMapCut SpaceMapWalk.
Open Scope Z_scope.

Module SpaceMapRanges.

(** ** Lists of ranges *)

Abbreviation in_range r x := (r.1 <= x < r.1 + r.2).

Definition in_ranges (rs : list (Z * Z)) (x : Z) : Prop := exists r, r ∈ rs /\ in_range r x.
Definition sizes (rs : list (Z * Z)) : Z := foldr (fun r n => r.2 + n) 0 rs.

Fixpoint disj (rs : list (Z * Z)) : Prop :=
  match rs with [] => True | r :: rs => (forall x, in_range r x -> ~ in_ranges rs x) /\ disj rs end.

Lemma in_ranges_nil x : in_ranges [] x <-> False.
Proof. unfold in_ranges. set_solver. Qed.

Lemma in_ranges_cons r rs x : in_ranges (r :: rs) x <-> in_range r x \/ in_ranges rs x.
Proof. unfold in_ranges. split; [intros (y & [->|H]%elem_of_cons & Hx); eauto|]. intros [H|(y & H & Hx)]; [exists r|exists y]; set_solver. Qed.

Lemma in_ranges_app rs rs' x : in_ranges (rs ++ rs') x <-> in_ranges rs x \/ in_ranges rs' x.
Proof. induction rs as [|r rs IH]; cbn; [rewrite in_ranges_nil; tauto|]. rewrite !in_ranges_cons, IH. tauto. Qed.

Lemma sizes_app rs rs' : sizes (rs ++ rs') = sizes rs + sizes rs'.
Proof. induction rs as [|r rs IH]; cbn; [done|]. unfold sizes in *. lia. Qed.

Lemma disj_app rs rs' : disj (rs ++ rs') <-> disj rs /\ disj rs' /\ forall x, in_ranges rs x -> ~ in_ranges rs' x.
Proof.
  induction rs as [|r rs IH]; cbn; [split; [intros; split_and!; try done; intros x; by rewrite in_ranges_nil|tauto]|].
  rewrite IH. setoid_rewrite in_ranges_app. setoid_rewrite in_ranges_cons. split; [|naive_solver].
  intros (H1 & H2 & H3 & H4). split_and!; try done; [naive_solver|]. intros x [H|H] H'; [by apply (H1 x H); right|by apply (H4 x H)].
Qed.

(** The segments of a map as ranges. *)
Definition range_of (h : gmap Z space_seg) (p : Z) : Z * Z := (ss_start (h !!! p), ss_end (h !!! p) - ss_start (h !!! p)).

Lemma each_cons {A S} (f : A -> S -> res S) x l s : each f (x :: l) s = (s' ← f x s; each f l s').
Proof. done. Qed.

Section ranges.
Context {T I O : Type} {HT : Tree T I} {HK : Kmem} {HTL : TreeLaws T I} {HKL : KmemLaws}.
Implicit Types (sm : space_map T O).

Lemma fits_framed sm sm' start size : framed sm sm' -> fits sm start size -> fits sm' start size.
Proof. intros (E1 & E2 & E3 & _). unfold fits. by rewrite E1, E2, E3. Qed.

Lemma framed_refl sm : framed sm sm.
Proof. by repeat split. Qed.

Lemma framed_trans sm sm1 sm2 : framed sm sm1 -> framed sm1 sm2 -> framed sm sm2.
Proof. unfold framed, same_cmp. intuition congruence. Qed.

(** ** Ranges into a map *)

Definition add_range (r : Z * Z) sm := space_map_add sm r.1 r.2.
Definition remove_range (r : Z * Z) sm := space_map_remove sm r.1 r.2.

Lemma adds_ok rs : forall sm l, sm_ok sm l -> Forall (fun r => fits sm r.1 r.2) rs -> disj rs -> (forall x, in_ranges rs x -> ~ space sm x) ->
  exists sm' l', each add_range rs sm = Ok sm' /\ sm_ok sm' l' /\ framed sm sm' /\ sm_space sm' = sm_space sm + sizes rs /\
    (forall x, space sm' x <-> space sm x \/ in_ranges rs x).
Proof using All.
  induction rs as [|r rs IH]; intros sm l Hok Hf Hd Hx.
  { exists sm, l. split; [done|]. split; [done|]. split; [apply framed_refl|]. split; [cbn; lia|]. intros x. rewrite in_ranges_nil. tauto. }
  apply Forall_cons in Hf as [Hfr Hf]. destruct Hd as [Hdr Hd].
  destruct (space_map_add_ok sm l r.1 r.2 Hok Hfr) as (sm1 & l1 & E1 & Hok1 & Hfr1 & Es1 & Hx1); [intros x Hr; apply Hx, in_ranges_cons; by left|].
  destruct (IH sm1 l1 Hok1) as (sm2 & l2 & E2 & Hok2 & Hfr2 & Es2 & Hx2); [eapply Forall_impl; [exact Hf|]; intros r'; by apply fits_framed|done| |].
  - intros x Hr. rewrite Hx1. intros [H|H]; [by apply (Hx x); [apply in_ranges_cons; right|]|by apply (Hdr x)].
  - exists sm2, l2. split; [rewrite each_cons; change (add_range r sm) with (space_map_add sm r.1 r.2); by rewrite E1|]. split; [done|]. split; [by eapply framed_trans|]. split; [cbn; unfold sizes in *; lia|].
    intros x. rewrite Hx2, Hx1, in_ranges_cons. tauto.
Qed.

Lemma removes_ok rs : forall sm l, sm_ok sm l -> Forall (fun r => fits sm r.1 r.2) rs -> disj rs -> (forall x, in_ranges rs x -> space sm x) ->
  exists sm' l', each remove_range rs sm = Ok sm' /\ sm_ok sm' l' /\ framed sm sm' /\ sm_space sm' = sm_space sm - sizes rs /\
    (forall x, space sm' x <-> space sm x /\ ~ in_ranges rs x).
Proof using All.
  induction rs as [|r rs IH]; intros sm l Hok Hf Hd Hx.
  { exists sm, l. split; [done|]. split; [done|]. split; [apply framed_refl|]. split; [cbn; lia|]. intros x. rewrite in_ranges_nil. tauto. }
  apply Forall_cons in Hf as [Hfr Hf]. destruct Hd as [Hdr Hd].
  destruct (space_map_remove_ok sm l r.1 r.2 Hok Hfr) as (sm1 & l1 & E1 & Hok1 & Hfr1 & Es1 & Hx1); [intros x Hr; apply Hx, in_ranges_cons; by left|].
  destruct (IH sm1 l1 Hok1) as (sm2 & l2 & E2 & Hok2 & Hfr2 & Es2 & Hx2); [eapply Forall_impl; [exact Hf|]; intros r'; by apply fits_framed|done| |].
  - intros x Hr. rewrite Hx1. split; [apply Hx, in_ranges_cons; by right|]. intros H. by apply (Hdr x).
  - exists sm2, l2. split; [rewrite each_cons; change (remove_range r sm) with (space_map_remove sm r.1 r.2); by rewrite E1|]. split; [done|]. split; [by eapply framed_trans|]. split; [cbn; unfold sizes in *; lia|].
    intros x. rewrite Hx2, Hx1, in_ranges_cons. tauto.
Qed.

(** ** The ranges of a map *)

Lemma seg_len sm l p : sm_ok sm l -> p ∈ l -> u64 (ss_end (sm_segs sm !!! p) - ss_start (sm_segs sm !!! p)) = ss_end (sm_segs sm !!! p) - ss_start (sm_segs sm !!! p).
Proof using All.
  intros Hok Hp. destruct (canon_proper _ _ _ _ _ (ok_canon _ _ Hok) (looks_in _ _ _ Hp)) as (? & ? & ? & _). destruct (ok_geom _ _ Hok) as (? & ? & ? & _). apply Z.mod_small. lia.
Qed.

Lemma ranges_of sm l todo : sm_ok sm l -> todo ≡ₚ l ->
  let rs := range_of (sm_segs sm) <$> todo in
  disj rs /\ Forall (fun r => fits sm r.1 r.2) rs /\ sizes rs = sm_space sm /\ (forall x, in_ranges rs x <-> space sm x).
Proof using All.
  intros Hok Hp rs. pose proof (ok_canon _ _ Hok) as Hc.
  assert (Hin : forall x, in_ranges rs x <-> exists p, p ∈ todo /\ within (sm_segs sm !!! p) x).
  { intros x. unfold in_ranges, rs. split.
    - intros (r & (p & -> & Hpi)%list_elem_of_fmap & Hx). exists p. split; [done|]. cbn in Hx. lia.
    - intros (p & Hpi & Hx). exists (range_of (sm_segs sm) p). split; [set_solver|]. cbn. lia. }
  split; [|split; [|split]].
  - clear Hin. unfold rs. clear rs. assert (Hn : NoDup todo) by (rewrite Hp; by destruct (tr_seq_facts _ _ (ok_seq _ _ Hok))).
    assert (Hsub : forall p, p ∈ todo -> p ∈ l) by (intros p; by rewrite Hp). clear Hp. induction todo as [|p todo IH]; cbn; [done|]. apply NoDup_cons in Hn as [Hpn Hn].
    split; [|apply IH; [done|set_solver]]. intros x Hx (r & (q & -> & Hq)%list_elem_of_fmap & Hx'). cbn in Hx, Hx'.
    apply (canon_distinct _ _ _ (fun p => sm_segs sm !!! p) l p q Hc); [set_solver|set_solver| |by intros ->].
    f_equal. apply (canon_disjoint _ _ _ _ _ _ x Hc); [apply looks_in; set_solver|apply looks_in; set_solver|lia|lia].
  - apply Forall_fmap, Forall_forall. intros p Hpi. rewrite Hp in Hpi. destruct (canon_proper _ _ _ _ _ Hc (looks_in _ _ _ Hpi)) as (P1 & P2 & P3 & P4 & P5). cbn.
    destruct (ok_geom _ _ Hok) as (_ & _ & _ & G4). assert (0 < 2 ^ sm_shift sm) by auto with bits. split_and!; try lia. rewrite Zminus_mod, P4, P5. done.
  - rewrite (ok_space _ _ Hok). unfold rs. clear Hin rs Hok Hc. transitivity (sizes (range_of (sm_segs sm) <$> l)).
    + induction Hp as [|p l1 l2 Hp IH|p q l1|l1 l2 l3 _ IH1 _ IH2]; cbn; unfold sizes in *; cbn in *; lia.
    + clear Hp. induction l as [|p l IH]; [done|]. rewrite looks_cons. cbn. unfold sizes in *. cbn in *. lia.
  - intros x. rewrite Hin, (space_covers sm l) by apply Hok. unfold covers. split.
    + intros (p & Hpi & Hx). exists (sm_segs sm !!! p). split; [apply looks_in; by rewrite <- Hp|done].
    + intros (s & (p & Hpi & ->)%looks_elem & Hx). exists p. by rewrite Hp.
Qed.

(** Walks as lists of ranges. *)
Lemma each_ranges {M} sm l todo (func : M -> Z -> Z -> res M) m : sm_ok sm l -> (forall p, p ∈ todo -> p ∈ l) ->
  each (apply_seg func (sm_segs sm)) todo m = each (fun r m => func m r.1 r.2) (range_of (sm_segs sm) <$> todo) m.
Proof using All.
  intros Hok. revert m. induction todo as [|p todo IH]; intros m Hp; [done|]. rewrite fmap_cons, !each_cons. replace (apply_seg func (sm_segs sm) p m) with (func m (range_of (sm_segs sm) p).1 (range_of (sm_segs sm) p).2) by (unfold apply_seg; by rewrite (seg_len sm l p) by (done || set_solver)).
  cbn [range_of fst snd]. destruct (func m _ _); [|done]. apply IH. set_solver.
Qed.

(** ** Whole maps *)

(** [space_map_vacate(sm, NULL, NULL)]. *)
Lemma vacate_all sm l : sm_ok sm l -> sm_pp_root sm = None -> exists t, sm_ok (emptied sm t) [] /\ space_map_vacate sm (None : option (unit -> Z -> Z -> res unit)) tt = Ok (emptied sm t, tt).
Proof using All.
  intros Hok Hpp. destruct (space_map_vacate_ok sm l (None : option (unit -> Z -> Z -> res unit)) tt Hok Hpp) as (todo & t & _ & Hem & ->). exists t. split; [done|].
  assert (E : each (apply_seg (fun m _ _ => Ok m) (sm_segs sm)) todo tt = Ok tt) by (clear; induction todo as [|p todo IH]; [done|]; by rewrite each_cons). cbn [default]. by rewrite E.
Qed.

Lemma sm_ok_same sm sm' l : sm_ok sm l -> sm_root sm' = sm_root sm -> sm_segs sm' = sm_segs sm -> sm_space sm' = sm_space sm -> sm_start sm' = sm_start sm -> sm_size sm' = sm_size sm ->
  sm_shift sm' = sm_shift sm -> sm_pp_root sm' = sm_pp_root sm -> sm_ok sm' l.
Proof. intros [H1 H2 H3 H4 H5 H6] E1 E2 E3 E4 E5 E6 E7. constructor; congruence. Qed.

Lemma space_empty sm : sm_ok sm [] -> sm_space sm = 0 /\ forall x, ~ space sm x.
Proof using All.
  intros Hok. split; [by rewrite (ok_space _ _ Hok)|]. intros x (p & s & Hp & _). apply elem_of_dom_2 in Hp. rewrite (ok_dom _ _ Hok) in Hp. set_solver.
Qed.

Lemma no_space sm l : sm_ok sm l -> sm_space sm = 0 -> l = [].
Proof using All.
  intros Hok Hz. destruct (ok_geom _ _ Hok) as (G1 & G2 & _). pose proof (canon_size _ _ _ _ (ok_canon _ _ Hok) ltac:(lia)) as [_ Hc]. rewrite <- (ok_space _ _ Hok), Hz in Hc.
  unfold looks in Hc. rewrite length_fmap in Hc. destruct l; [done|cbn in Hc; lia].
Qed.

(** The set of a map lies in its bounds. *)
Lemma space_inside sm l x : sm_ok sm l -> space sm x -> inside (sm_start sm) (sm_size sm) x.
Proof using All.
  intros Hok Hx. rewrite (space_covers sm l) in Hx by apply Hok. destruct Hx as (s & Hs & Hx). destruct (canon_proper _ _ _ _ _ (ok_canon _ _ Hok) Hs) as (? & ? & ? & _). lia.
Qed.
End ranges.
End SpaceMapRanges.
