(* ===== verification/SpaceMapSpec.v ===== *)
(** The theorems about space maps in memory. *)

From S2P Require Import Prelude Avl OrdTree SpaceMap SpaceSet SpaceMapOk SpaceMapWalk SpaceMapRanges.
Import SpaceMap SpaceSet SpaceMapOk SpaceMapCut SpaceMapWalk SpaceMapRanges.
Open Scope Z_scope.

Module SpaceMapSpec.
Section spec.
Context {T I O : Type} {HT : Tree T I} {HK : Kmem} {HTL : TreeLaws T I} {HKL : KmemLaws}.
Implicit Types (sm dest : space_map T O).

Lemma space_map_create_ok start size shift : 0 <= start -> 0 <= size -> start + size < 2 ^ 64 -> 0 <= shift < 64 -> sm_ok (space_map_create (O := O) start size shift) [].
Proof using All. intros. constructor; cbn; [apply tr_create_ok|apply dom_empty_L|apply canon_nil|done|done|done]. Qed.

(** ** One range *)

(** C11: [space_map_add] of a range that fits the map: when no integer of the range is
    in the map, it returns, the map stays well formed and becomes the union, the size
    of the range is added to [sm_space] and no other field changes; when some integer
    of the range is in the map, the call panics, except that with [zfs_recover] set a
    range that is in the map as a whole leaves it as it is. *)
Theorem space_map_add_correct sm l start size : sm_ok sm l -> fits sm start size ->
  ((forall x, inside start size x -> ~ space sm x) ->
    exists sm' l', space_map_add sm start size = Ok sm' /\ sm_ok sm' l' /\ framed sm sm' /\ sm_space sm' = sm_space sm + size /\
      forall x, space sm' x <-> space sm x \/ inside start size x) /\
  ((exists x, inside start size x /\ space sm x) ->
    space_map_add sm start size = Fault FPanic \/
    (zfs_recover = true /\ (forall x, inside start size x -> space sm x) /\ space_map_add sm start size = Ok sm)).
Proof using All. intros Hok Hf. split; [by apply (space_map_add_ok sm l)|by apply (space_map_add_bad sm l)]. Qed.

(** C12: [space_map_remove]: when the map contains the range, it returns, the map stays
    well formed and becomes the difference, and the size of the range is taken from
    [sm_space]; otherwise the call panics, except that with [zfs_recover] set a
    range that has no integer in the map leaves it as it is. *)
Theorem space_map_remove_correct sm l start size : sm_ok sm l ->
  (fits sm start size -> (forall x, inside start size x -> space sm x) ->
    exists sm' l', space_map_remove sm start size = Ok sm' /\ sm_ok sm' l' /\ framed sm sm' /\ sm_space sm' = sm_space sm - size /\
      forall x, space sm' x <-> space sm x /\ ~ inside start size x) /\
  (ranged sm start size -> ~ (forall x, inside start size x -> space sm x) ->
    space_map_remove sm start size = Fault FPanic \/
    (zfs_recover = true /\ (forall x, inside start size x -> ~ space sm x) /\ space_map_remove sm start size = Ok sm)).
Proof using All. intros Hok. split; [by apply (space_map_remove_ok sm l)|by apply (space_map_remove_bad sm l)]. Qed.

(** [space_map_contains] answers, and says whether every integer of the range is in
    the map. *)
Theorem space_map_contains_correct sm l start size : sm_ok sm l -> ranged sm start size ->
  exists b, space_map_contains sm start size = Ok b /\ (b = true <-> forall x, inside start size x -> space sm x).
Proof using All. by apply (space_map_contains_ok sm l). Qed.

Lemma same_segs sm sm' l l' : sm_ok sm l -> sm_ok sm' l' -> sm_start sm' = sm_start sm -> sm_size sm' = sm_size sm -> sm_shift sm' = sm_shift sm ->
  (forall x, space sm x <-> space sm' x) -> looks (sm_segs sm') l' = looks (sm_segs sm) l /\ sm_space sm' = sm_space sm.
Proof using All.
  intros Hok Hok' E1 E2 E3 Hx. pose proof (ok_canon _ _ Hok') as Hc'. rewrite E1, E2, E3 in Hc'. rewrite (ok_space _ _ Hok'), (ok_space _ _ Hok).
  assert (E : looks (sm_segs sm') l' = looks (sm_segs sm) l); [|by rewrite E]. eapply canon_unique; [|exact Hc'|apply Hok|]; [apply Z.pow_pos_nonneg; [lia|apply (ok_geom _ _ Hok)]|].
  intros x. rewrite <- (space_covers sm l), <- (space_covers sm' l') by (apply Hok || apply Hok'). by rewrite Hx.
Qed.

(** The segments are determined by the set: two well formed maps with the same
    geometry and the same integers have the same segments in the same order, and the
    same [sm_space], whatever operations built them. *)
Theorem space_map_canonical sm sm' l l' : sm_ok sm l -> sm_ok sm' l' -> sm_start sm' = sm_start sm -> sm_size sm' = sm_size sm -> sm_shift sm' = sm_shift sm ->
  (forall x, space sm x <-> space sm' x) -> looks (sm_segs sm') l' = looks (sm_segs sm) l /\ sm_space sm' = sm_space sm.
Proof using All. apply same_segs. Qed.

(** ** One map into another *)

(** The two maps have the same geometry. *)
Definition alike sm dest : Prop := sm_start dest = sm_start sm /\ sm_size dest = sm_size sm /\ sm_shift dest = sm_shift sm.

Lemma alike_fits sm dest rs : alike sm dest -> Forall (fun r => fits sm r.1 r.2) rs -> Forall (fun r => fits dest r.1 r.2) rs.
Proof. intros (E1 & E2 & E3) H. eapply Forall_impl; [exact H|]. intros r. unfold fits. by rewrite E1, E2, E3. Qed.

(** What a walk that adds each segment to [dest], or removes it, makes of [dest]. *)
Definition becomes dest dest' (n : Z) (S : Z -> Prop) : Prop :=
  exists l', sm_ok dest' l' /\ framed dest dest' /\ sm_space dest' = n /\ forall x, space dest' x <-> S x.

Lemma walk_add sm l todo dest l2 : sm_ok sm l -> todo ≡ₚ l -> sm_ok dest l2 -> alike sm dest -> (forall x, space sm x -> ~ space dest x) ->
  exists dest', each (apply_seg space_map_add (sm_segs sm)) todo dest = Ok dest' /\ becomes dest dest' (sm_space dest + sm_space sm) (fun x => space dest x \/ space sm x).
Proof using All.
  intros Hok Hp Hok2 Ha Hd. destruct (ranges_of sm l todo Hok Hp) as (R1 & R2 & R3 & R4). rewrite (each_ranges sm l) by (done || (intros p; by rewrite Hp)).
  destruct (adds_ok (range_of (sm_segs sm) <$> todo) dest l2 Hok2) as (dest' & l' & E & H1 & H2 & H3 & H4); [by eapply alike_fits|done|intros x; rewrite R4; apply Hd|].
  exists dest'. split; [exact E|]. exists l'. split; [done|]. split; [done|]. split; [lia|]. intros x. by rewrite H4, R4.
Qed.

Lemma walk_remove sm l todo dest l2 : sm_ok sm l -> todo ≡ₚ l -> sm_ok dest l2 -> alike sm dest -> (forall x, space sm x -> space dest x) ->
  exists dest', each (apply_seg space_map_remove (sm_segs sm)) todo dest = Ok dest' /\ becomes dest dest' (sm_space dest - sm_space sm) (fun x => space dest x /\ ~ space sm x).
Proof using All.
  intros Hok Hp Hok2 Ha Hd. destruct (ranges_of sm l todo Hok Hp) as (R1 & R2 & R3 & R4). rewrite (each_ranges sm l) by (done || (intros p; by rewrite Hp)).
  destruct (removes_ok (range_of (sm_segs sm) <$> todo) dest l2 Hok2) as (dest' & l' & E & H1 & H2 & H3 & H4); [by eapply alike_fits|done|intros x; rewrite R4; apply Hd|].
  exists dest'. split; [exact E|]. exists l'. split; [done|]. split; [done|]. split; [lia|]. intros x. by rewrite H4, R4.
Qed.

(** Walks into another map: [space_map_walk] with [space_map_remove] takes the set
    of a map out of a map that contains it, and [space_map_vacate] with
    [space_map_add] moves the set of a map without a picker's tree into a disjoint
    map, and leaves the first map well formed and empty. *)
Theorem space_map_transfer sm l dest l2 : sm_ok sm l -> sm_ok dest l2 -> alike sm dest ->
  ((forall x, space sm x -> space dest x) -> exists dest', space_map_walk sm space_map_remove dest = Ok dest' /\
    becomes dest dest' (sm_space dest - sm_space sm) (fun x => space dest x /\ ~ space sm x)) /\
  (sm_pp_root sm = None -> (forall x, space sm x -> ~ space dest x) -> exists sm' dest', space_map_vacate sm (Some space_map_add) dest = Ok (sm', dest') /\
    becomes sm sm' 0 (fun _ => False) /\ becomes dest dest' (sm_space dest + sm_space sm) (fun x => space dest x \/ space sm x)).
Proof using All.
  intros Hok Hok2 Ha. split; intros Hd.
  - rewrite (space_map_walk_ok sm l) by done. by eapply walk_remove.
  - intros Hdj. destruct (space_map_vacate_ok sm l (Some (space_map_add (T := T) (O := O))) dest Hok Hd) as (todo & t & Hp & Hem & ->).
    destruct (walk_add sm l todo dest l2 Hok Hp Hok2 Ha Hdj) as (dest' & E & Hb). cbn [default from_option id]. rewrite E. exists (emptied sm t), dest'. split; [done|]. split; [|done].
    exists []. split; [done|]. split; [by repeat split|]. split; [done|]. intros x. split; [|done]. intros (p & s & Hp' & _). cbn in Hp'. by rewrite lookup_empty in Hp'.
Qed.
End spec.

(** ** Concrete maps *)

Definition ex_kmem : Kmem := {| kmem_alloc used := fresh ({[NULL]} ∪ used); zfs_recover := false |}.

Lemma ex_kmem_laws : @KmemLaws ex_kmem.
Proof. constructor. intros used. pose proof (is_fresh ({[NULL]} ∪ used : gset Z)) as H. cbn. set_solver. Qed.

#[local] Existing Instance ex_kmem.
#[local] Existing Instance ex_kmem_laws.

(** A map of eight units of 512 bytes, kept in an AVL tree. *)
Definition ex_empty : space_map Avl.avl_tree unit := space_map_create 4096 4096 9.

Lemma ex_empty_ok : sm_ok ex_empty [].
Proof. by apply space_map_create_ok. Qed.

Lemma ex_empty_space x : ~ space ex_empty x.
Proof. intros (p & s & Hp & _). change (sm_segs ex_empty) with (∅ : gmap Z space_seg) in Hp. by rewrite lookup_empty in Hp. Qed.

(** The map with the units 1 to 4. *)
Lemma ex_some : exists sm l, space_map_add ex_empty 4608 2048 = Ok sm /\ sm_ok sm l /\ framed ex_empty sm /\ forall x, space sm x <-> inside 4608 2048 x.
Proof.
  destruct (space_map_add_ok ex_empty [] 4608 2048 ex_empty_ok) as (sm & l & E & Hok & Hf & _ & Hx); [done|intros x _; apply ex_empty_space|].
  exists sm, l. split; [done|]. split; [done|]. split; [done|]. intros x. rewrite Hx. pose proof (ex_empty_space x). tauto.
Qed.

Lemma space_map_add_witness : exists sm', space_map_add ex_empty 4608 2048 = Ok sm' /\ forall x, space sm' x <-> inside 4608 2048 x.
Proof.
  destruct (proj1 (space_map_add_correct ex_empty [] 4608 2048 ex_empty_ok ltac:(done)) ltac:(intros x _; apply ex_empty_space)) as (sm' & l' & E & _ & _ & _ & Hx).
  exists sm'. split; [done|]. intros x. rewrite Hx. pose proof (ex_empty_space x). tauto.
Defined.

Lemma space_map_remove_witness : exists sm sm', space_map_add ex_empty 4608 2048 = Ok sm /\ space_map_remove sm 5120 512 = Ok sm' /\
  (forall x, space sm' x <-> inside 4608 512 x \/ inside 5632 1024 x) /\ space_map_remove sm 5120 2048 = Fault FPanic.
Proof.
  destruct ex_some as (sm & l & E & Hok & (F1 & F2 & F3 & _) & Hx). assert (Hf : fits sm 5120 512) by (unfold fits; by rewrite F1, F2, F3). assert (Hr : ranged sm 5120 2048) by (unfold ranged; by rewrite F3).
  destruct (proj1 (space_map_remove_correct sm l 5120 512 Hok) Hf) as (sm' & l' & E' & _ & _ & _ & Hx'); [intros x Hin; apply Hx; lia|].
  destruct (proj2 (space_map_remove_correct sm l 5120 2048 Hok) Hr) as [Ep|[Ep _]]; [intros Hall; assert (Hin : space sm 7000) by (apply Hall; lia); apply Hx in Hin; lia| |done].
  exists sm, sm'. split; [done|]. split; [done|]. split; [|done]. intros x. rewrite Hx', Hx. lia.
Defined.

Lemma space_map_contains_witness : exists sm, space_map_add ex_empty 4608 2048 = Ok sm /\ space_map_contains sm 5120 1024 = Ok true /\ space_map_contains sm 6144 1024 = Ok false.
Proof.
  destruct ex_some as (sm & l & E & Hok & (F1 & F2 & F3 & _) & Hx). exists sm. split; [done|]. split.
  - destruct (space_map_contains_correct sm l 5120 1024 Hok) as (b & -> & Hb); [unfold ranged; by rewrite F3|]. f_equal. apply Hb. intros x Hin. apply Hx. lia.
  - destruct (space_map_contains_correct sm l 6144 1024 Hok) as (b & -> & Hb); [unfold ranged; by rewrite F3|]. f_equal. destruct b; [|done]. assert (Hin : space sm 7000) by (apply (proj1 Hb); [done|lia]). apply Hx in Hin. lia.
Defined.

(** Units 1 to 4 added at once, or unit by unit from the middle: one segment. *)
Lemma space_map_canonical_witness : exists sm sm', space_map_add ex_empty 4608 2048 = Ok sm /\
  (s ← space_map_add ex_empty 5632 512; s ← space_map_add s 4608 512; s ← space_map_add s 5120 512; space_map_add s 6144 512) = Ok sm' /\ sm_space sm' = sm_space sm.
Proof.
  destruct ex_some as (sm & l & E & Hok & (F1 & F2 & F3 & _) & Hx). exists sm.
  destruct (adds_ok [(5632, 512); (4608, 512); (5120, 512); (6144, 512)] ex_empty [] ex_empty_ok) as (sm' & l' & E' & Hok' & (K1 & K2 & K3 & _) & _ & Hx').
  { by repeat constructor. }
  { cbn [disj]. split_and!; try done; intros x; rewrite ?in_ranges_cons, in_ranges_nil; cbn [fst snd]; lia. }
  { intros x _. apply ex_empty_space. }
  exists sm'. split; [done|]. split.
  - revert E'. cbn [each add_range fst snd]. unfold add_range. cbn [fst snd]. intros <-. repeat (match goal with |- context [space_map_add ?a ?b ?c] => destruct (space_map_add a b c); [|done] end; cbn [mbind res_bind]). done.
  - apply (space_map_canonical sm sm' l l' Hok Hok'); [congruence..|]. intros x. rewrite Hx, Hx', !in_ranges_cons, in_ranges_nil. cbn [fst snd]. clear. split; [intros Hi; right; lia|intros [Hi|Hi]; [destruct (ex_empty_space x Hi)|lia]].
Defined.

Lemma space_map_transfer_witness : exists sm sm' dest', space_map_add ex_empty 4608 2048 = Ok sm /\ space_map_vacate sm (Some space_map_add) ex_empty = Ok (sm', dest') /\ forall x, space dest' x <-> space sm x.
Proof.
  destruct ex_some as (sm & l & E & Hok & (F1 & F2 & F3 & _ & _ & _ & _ & F8) & Hx). exists sm.
  destruct (proj2 (space_map_transfer sm l ex_empty [] Hok ex_empty_ok (conj (eq_sym F1) (conj (eq_sym F2) (eq_sym F3))))) as (sm' & dest' & E' & _ & (_ & _ & _ & _ & Hx')).
  - unfold same_cmp in F8. destruct (sm_pp_root sm); [discriminate F8|reflexivity].
  - intros x _. apply ex_empty_space.
  - exists sm', dest'. split; [exact E|]. split; [exact E'|]. intros x. rewrite Hx'. pose proof (ex_empty_space x). tauto.
Defined.
End SpaceMapSpec.
