(* ===== verification/SpaceLog.v ===== *)
(** Space maps on disk (module/zfs/space_map.c, include/sys/space_map.h): the log of
    entries that [space_map_sync] appends to and [space_map_load] replays, and the
    calls of the block picker's operations. *)

From S2P Require Import Prelude OrdTree SpaceMap.
Import SpaceMap.
Open Scope Z_scope.

Module SpaceLog.

(** ** Entries *)

Definition SM_RUN_DECODE (x : Z) : Z := u64 (BF64_DECODE x 0 15 + 1).
Definition SM_RUN_ENCODE (x : Z) : Z := BF64_ENCODE (u64 (x - 1)) 0 15.
Definition SM_TYPE_DECODE (x : Z) : Z := BF64_DECODE x 15 1.
Definition SM_TYPE_ENCODE (x : Z) : Z := BF64_ENCODE x 15 1.
Definition SM_OFFSET_DECODE (x : Z) : Z := BF64_DECODE x 16 47.
Definition SM_OFFSET_ENCODE (x : Z) : Z := BF64_ENCODE x 16 47.
Definition SM_DEBUG_DECODE (x : Z) : Z := BF64_DECODE x 63 1.
Definition SM_DEBUG_ENCODE (x : Z) : Z := BF64_ENCODE x 63 1.
Definition SM_DEBUG_ACTION_ENCODE (x : Z) : Z := BF64_ENCODE x 60 3.
Definition SM_DEBUG_SYNCPASS_ENCODE (x : Z) : Z := BF64_ENCODE x 50 10.
Definition SM_DEBUG_TXG_ENCODE (x : Z) : Z := BF64_ENCODE x 0 50.
Definition SM_RUN_MAX : Z := SM_RUN_DECODE (2 ^ 64 - 1).

Definition SM_ALLOC : Z := 0.
Definition SM_FREE : Z := 1.
Definition SPACE_MAP_BLOCKSHIFT : Z := 12.

Record space_map_obj := SpaceMapObj { smo_object : Z; smo_objsize : Z; smo_alloc : Z }.

(** ** The environment *)

(** The operations of a block picker ([struct space_map_ops]). *)
Class SpaceMapOps (T O : Type) := {
  smop_load : O -> space_map T O -> res (space_map T O);
  smop_unload : O -> space_map T O -> res (space_map T O);
  smop_alloc : O -> space_map T O -> Z -> res (space_map T O * Z);
  smop_claim : O -> space_map T O -> Z -> Z -> res (space_map T O);
  smop_free : O -> space_map T O -> Z -> Z -> res (space_map T O);
  smop_max : O -> space_map T O -> res Z;
  smop_fragmented : O -> space_map T O -> res bool }.

(** The DMU, for buffers of 64-bit words; offsets and sizes are in bytes.
    [dmu_read] returns an error and the words it has put into the buffer. *)
Class Dmu (D : Type) := {
  dmu_read : D -> Z -> Z -> Z -> Z * list Z;
  dmu_write : D -> Z -> Z -> Z -> list Z -> D;
  dmu_free_range : D -> Z -> Z -> Z -> Z * D }.

(** An object is an array of words; [dmu_word d o i] is word [i] of object [o]. *)
Class DmuLaws (D : Type) `{!Dmu D} := {
  dmu_word : D -> Z -> Z -> Z;
  dmu_write_ok d o off size buf i : 0 <= off -> off mod 8 = 0 -> 0 <= size <= 8 * zlen buf -> size mod 8 = 0 ->
    dmu_word (dmu_write d o off size buf) o i = if (off / 8 <=? i) && (i <? off / 8 + size / 8) then nth (Z.to_nat (i - off / 8)) buf 0 else dmu_word d o i;
  dmu_read_ok d o off size ws : 0 <= off -> off mod 8 = 0 -> 0 <= size -> size mod 8 = 0 -> dmu_read d o off size = (0, ws) ->
    ws = tab (Z.to_nat (size / 8)) (fun i => dmu_word d o (off / 8 + Z.of_nat i)) }.

Section log.
Context {T I O D : Type} {HT : Tree T I} {HK : Kmem} {HO : SpaceMapOps T O} {HD : Dmu D}.
Implicit Types (sm : space_map T O) (smo : space_map_obj) (d : D).

(** ** Loading *)

Definition load_entry (maptype mapstart e : Z) sm : res (space_map T O) :=
  if negb (SM_DEBUG_DECODE e =? 0) then Ok sm
  else (if SM_TYPE_DECODE e =? maptype then space_map_add else space_map_remove) sm
         (u64 (u64 (Z.shiftl (SM_OFFSET_DECODE e) (sm_shift sm)) + mapstart)) (u64 (Z.shiftl (SM_RUN_DECODE e) (sm_shift sm))).

(** One block of the object; the loop ends with an error of [dmu_read], or 0, and
    the map. *)
Definition load_block (maptype mapstart object end_ : Z) d (s : Z * space_map T O) : res (Z * space_map T O + Z * space_map T O) :=
  let '(offset, sm) := s in
  let bufsize := Z.shiftl 1 SPACE_MAP_BLOCKSHIFT in
  if offset <? end_ then
    let size := Z.min (u64 (end_ - offset)) bufsize in
    _ ← verify (P2PHASE size 8 =? 0);
    _ ← verify (negb (size =? 0));
    let '(error, entry_map) := dmu_read d object offset size in
    if negb (error =? 0) then Ok (inr (error, sm))
    else sm ← each (load_entry maptype mapstart) entry_map sm; Ok (inl (u64 (offset + bufsize), sm))
  else Ok (inr (0, sm)).

Definition load_blocks (maptype object end_ : Z) d sm : res (Z * space_map T O) :=
  loop (Z.to_nat (end_ / Z.shiftl 1 SPACE_MAP_BLOCKSHIFT) + 2) (load_block maptype (sm_start sm) object end_ d) (0, sm).

(** The error of [dmu_read], or 0, and the map. *)
Definition space_map_load sm (ops : option O) (maptype : Z) smo d : res (Z * space_map T O) :=
  let sm := with_loading sm true in
  let end_ := smo_objsize smo in
  _ ← verify (sm_space sm =? 0);
  sm ← (if maptype =? SM_FREE then space_map_add sm (sm_start sm) (sm_size sm) else Ok sm);
  let space := if maptype =? SM_FREE then u64 (sm_size sm - smo_alloc smo) else smo_alloc smo in
  '(error, sm) ← load_blocks maptype (smo_object smo) end_ d sm;
  sm ← (if error =? 0 then
      _ ← verify (sm_space sm =? space);
      let sm := with_ops (with_loaded sm true) ops in
      match ops with Some o => smop_load o sm | None => Ok sm end
    else '(sm, _) ← space_map_vacate sm None tt; Ok sm);
  Ok (error, with_loading sm false).

Definition space_map_unload sm : res (space_map T O) :=
  sm ← (if sm_loaded sm then match sm_ops sm with Some o => smop_unload o sm | None => Ok sm end else Ok sm);
  let sm := with_ops (with_loaded sm false) None in
  '(sm, _) ← space_map_vacate sm None tt;
  Ok sm.

(** ** The block picker *)

Definition ops_of sm : res O := match sm_ops sm with Some o => Ok o | None => Fault FOob end.

Definition space_map_maxsize sm : res Z := o ← ops_of sm; smop_max o sm.

Definition space_map_alloc sm (size : Z) : res (space_map T O * Z) :=
  o ← ops_of sm;
  '(sm, start) ← smop_alloc o sm size;
  if negb (start =? 2 ^ 64 - 1) then sm ← space_map_remove sm start size; Ok (sm, start) else Ok (sm, start).

Definition space_map_claim sm (start size : Z) : res (space_map T O) :=
  o ← ops_of sm; sm ← smop_claim o sm start size; space_map_remove sm start size.

Definition space_map_free sm (start size : Z) : res (space_map T O) :=
  sm ← space_map_add sm start size; o ← ops_of sm; smop_free o sm start size.

(** ** Writing *)

(** What the loops of [space_map_sync] change; [sy_buf] are the entries from
    [entry_map] to [entry]. *)
Record sync_state := Sync { sy_segs : gmap Z space_seg; sy_space : Z; sy_smo : space_map_obj; sy_dmu : D; sy_buf : list Z }.

(** [*entry++ = e] in a buffer of [cap] entries. *)
Definition put_entry (cap : Z) (buf : list Z) (e : Z) : res (list Z) := if zlen buf <? cap then Ok (buf ++ [e]) else Fault FWrite.

Definition sync_write smo d (size : Z) (buf : list Z) : space_map_obj * D :=
  (SpaceMapObj (smo_object smo) (u64 (smo_objsize smo + size)) (smo_alloc smo), dmu_write d (smo_object smo) (smo_objsize smo) size buf).

(** [while (size)]: the runs of one segment. *)
Definition sync_runs (maptype bufsize start size : Z) smo d (buf : list Z) : res (space_map_obj * D * list Z) :=
  loop (Z.to_nat (size / SM_RUN_MAX) + 2) (fun '(start, size, smo, d, buf) =>
    if size =? 0 then Ok (inr (smo, d, buf))
    else
      let run_len := Z.min size SM_RUN_MAX in
      let '(smo, d, buf) := if zlen buf =? bufsize / 8 then let '(smo, d) := sync_write smo d bufsize buf in (smo, d, []) else (smo, d, buf) in
      buf ← put_entry (bufsize / 8) buf (Z.lor (Z.lor (SM_OFFSET_ENCODE start) (SM_TYPE_ENCODE maptype)) (SM_RUN_ENCODE run_len));
      Ok (inl (u64 (start + run_len), u64 (size - run_len), smo, d, buf))) (start, size, smo, d, buf).

Definition sync_seg (sm_start_ shift maptype bufsize p : Z) (s : sync_state) : res sync_state :=
  match sy_segs s !! p with
  | None => Fault FOob
  | Some ss =>
      let size := u64 (ss_end ss - ss_start ss) in
      let start := Z.shiftr (u64 (ss_start ss - sm_start_)) shift in
      '(smo, d, buf) ← sync_runs maptype bufsize start (Z.shiftr size shift) (sy_smo s) (sy_dmu s) (sy_buf s);
      Ok (Sync (delete p (sy_segs s)) (u64 (sy_space s - size)) smo d buf)
  end.

(** [pass] is [spa_sync_pass(spa)], [txg] is [dmu_tx_get_txg(tx)]. *)
Definition space_map_sync sm (maptype : Z) smo d (pass txg : Z) : res (space_map T O * space_map_obj * D) :=
  if sm_space sm =? 0 then Ok (sm, smo, d)
  else
    let alloc := if maptype =? SM_ALLOC then u64 (smo_alloc smo + sm_space sm) else u64 (smo_alloc smo - sm_space sm) in
    let smo := SpaceMapObj (smo_object smo) (smo_objsize smo) alloc in
    let bufsize := Z.min (u64 (u64 (8 + tr_numnodes (sm_root sm)) * 8)) (Z.shiftl 1 SPACE_MAP_BLOCKSHIFT) in
    buf ← put_entry (bufsize / 8) [] (Z.lor (Z.lor (Z.lor (SM_DEBUG_ENCODE 1) (SM_DEBUG_ACTION_ENCODE maptype)) (SM_DEBUG_SYNCPASS_ENCODE pass)) (SM_DEBUG_TXG_ENCODE txg));
    '(t, s) ← tr_drain true (sm_root sm) (sync_seg (sm_start sm) (sm_shift sm) maptype bufsize) (Sync (sm_segs sm) (sm_space sm) smo d buf);
    let sm := with_space (with_segs (with_root sm t) (sy_segs s)) (sy_space s) in
    let '(smo, d) := if negb (zlen (sy_buf s) =? 0) then sync_write (sy_smo s) (sy_dmu s) (zlen (sy_buf s) * 8) (sy_buf s) else (sy_smo s, sy_dmu s) in
    _ ← verify (sm_space sm =? 0);
    Ok (sm, smo, d).

Definition space_map_truncate smo d : res (space_map_obj * D) :=
  let '(error, d) := dmu_free_range d (smo_object smo) 0 (2 ^ 64 - 1) in
  _ ← verify (error =? 0);
  Ok (SpaceMapObj (smo_object smo) 0 0, d).
End log.
Arguments Sync {D}.
End SpaceLog.
