(* ===== verification/SpaceSync.v ===== *)
(** Entries of a space map's log, and the words of the log in its object.

    What [space_map_sync] appends to the log of a space map. *)

From S2P Require Import Prelude OrdTree SpaceMap SpaceSet SpaceMapRanges SpaceLog SpaceMapOk SpaceMapWalk.
Import SpaceMap SpaceSet SpaceMapRanges SpaceLog.
Open Scope Z_scope.

Module SpaceEntry.

(** ** Bit fields *)

Lemma bf64_unit len : 0 <= len < 64 -> u64 (Z.shiftl 1 len) = 2 ^ len.
Proof. intros H. rewrite Z.shiftl_1_l. apply Z.mod_small. split; [lia|]. apply Z.pow_lt_mono_r; lia. Qed.

Lemma bf64_decode x low len : 0 <= low -> 0 <= len < 64 -> BF64_DECODE x low len = (x / 2 ^ low) mod 2 ^ len.
Proof. intros H1 H2. unfold BF64_DECODE. by rewrite bf64_unit, P2PHASE_pow2, Z.shiftr_div_pow2 by lia. Qed.

Lemma bf64_encode x low len : 0 <= low -> 0 <= len < 64 -> low + len <= 64 -> BF64_ENCODE x low len = (x mod 2 ^ len) * 2 ^ low.
Proof.
  intros H1 H2 H3. unfold BF64_ENCODE. rewrite bf64_unit, P2PHASE_pow2, Z.shiftl_mul_pow2 by lia. apply Z.mod_small.
  pose proof (Z.mod_pos_bound x (2 ^ len) ltac:(apply Z.pow_pos_nonneg; lia)). assert (2 ^ (low + len) <= 2 ^ 64) by (apply Z.pow_le_mono_r; lia).
  rewrite Z.pow_add_r in * by lia. assert (0 < 2 ^ low) by auto with bits. nia.
Qed.

(** ** Entries of a run *)

Definition run_entry (maptype start run_len : Z) : Z := Z.lor (Z.lor (SM_OFFSET_ENCODE start) (SM_TYPE_ENCODE maptype)) (SM_RUN_ENCODE run_len).

Lemma run_entry_eq maptype start run_len : 0 <= start < 2 ^ 47 -> 0 <= maptype <= 1 -> 1 <= run_len <= 32768 ->
  run_entry maptype start run_len = start * 65536 + maptype * 32768 + (run_len - 1).
Proof.
  intros H1 H2 H3. unfold run_entry, SM_OFFSET_ENCODE, SM_TYPE_ENCODE, SM_RUN_ENCODE. rewrite !bf64_encode by lia.
  rewrite (Z.mod_small start), (Z.mod_small maptype), (Z.mod_small (run_len - 1) (2 ^ 64)), (Z.mod_small (run_len - 1)) by lia.
  rewrite <- Z.lor_assoc, (Z.lor_comm (maptype * 2 ^ 15)), Z.mul_1_r, lor_low_high by lia.
  rewrite (Z.lor_comm (start * _)), lor_low_high by lia. lia.
Qed.

Lemma run_entry_fields maptype start run_len : 0 <= start < 2 ^ 47 -> 0 <= maptype <= 1 -> 1 <= run_len <= 32768 ->
  let e := run_entry maptype start run_len in
  SM_DEBUG_DECODE e = 0 /\ SM_TYPE_DECODE e = maptype /\ SM_OFFSET_DECODE e = start /\ SM_RUN_DECODE e = run_len.
Proof.
  intros H1 H2 H3 e. unfold e. rewrite run_entry_eq by done. unfold SM_DEBUG_DECODE, SM_TYPE_DECODE, SM_OFFSET_DECODE, SM_RUN_DECODE. rewrite !bf64_decode by lia.
  split_and!; [dlia|dlia|dlia|]. rewrite Z.mod_small; dlia.
Qed.

Lemma run_decode e : SM_RUN_DECODE e = e mod 32768 + 1.
Proof. unfold SM_RUN_DECODE. rewrite bf64_decode, Z.div_1_r by lia. apply Z.mod_small. dlia. Qed.

Lemma offset_decode e : 0 <= SM_OFFSET_DECODE e < 2 ^ 47.
Proof. unfold SM_OFFSET_DECODE. rewrite bf64_decode by lia. dlia. Qed.

Lemma run_max : SM_RUN_MAX = 32768.
Proof. done. Qed.

Definition debug_entry (maptype pass txg : Z) : Z :=
  Z.lor (Z.lor (Z.lor (SM_DEBUG_ENCODE 1) (SM_DEBUG_ACTION_ENCODE maptype)) (SM_DEBUG_SYNCPASS_ENCODE pass)) (SM_DEBUG_TXG_ENCODE txg).

Lemma debug_entry_debug maptype pass txg : SM_DEBUG_DECODE (debug_entry maptype pass txg) = 1.
Proof.
  unfold SM_DEBUG_DECODE. rewrite bf64_decode by lia. change (2 ^ 1) with 2. apply Z.testbit_true; [lia|]. unfold debug_entry. by rewrite !Z.lor_spec.
Qed.

(** The range of an entry. *)
Definition entry_range (mapstart shift e : Z) : Z * Z := (mapstart + SM_OFFSET_DECODE e * 2 ^ shift, SM_RUN_DECODE e * 2 ^ shift).

(** ** The words of a log *)

Lemma tab_plus {A} n m (f : nat -> A) : tab (n + m) f = tab n f ++ tab m (fun i => f (n + i)%nat).
Proof. induction m as [|m IH]; [by rewrite Nat.add_0_r, app_nil_r|]. by rewrite Nat.add_succ_r, !tab_S, IH, app_assoc. Qed.

Section words.
Context {D : Type} {HD : Dmu D} {HDL : DmuLaws D}.
Implicit Types (smo : space_map_obj) (d : D).

Definition log smo d : list Z := tab (Z.to_nat (smo_objsize smo / 8)) (fun i => dmu_word d (smo_object smo) (Z.of_nat i)).
Definition sized smo : Prop := 0 <= smo_objsize smo < 2 ^ 64 /\ smo_objsize smo mod 8 = 0.

Lemma zlen_log smo d : sized smo -> zlen (log smo d) = smo_objsize smo / 8.
Proof using HD. intros [H _]. unfold log. rewrite length_tab. apply Z2Nat.id, Z.div_pos; lia. Qed.

Lemma sync_write_ok smo d buf : sized smo -> smo_objsize smo + zlen buf * 8 < 2 ^ 64 ->
  exists smo' d', sync_write smo d (zlen buf * 8) buf = (smo', d') /\ sized smo' /\ log smo' d' = log smo d ++ buf /\
    smo_object smo' = smo_object smo /\ smo_alloc smo' = smo_alloc smo /\ smo_objsize smo' = smo_objsize smo + zlen buf * 8.
Proof using HDL.
  intros [H1 H2] H3. assert (0 <= zlen buf) by apply Nat2Z.is_nonneg. unfold sync_write. rewrite (Z.mod_small (smo_objsize smo + zlen buf * 8)) by lia. do 2 eexists. split; [done|]. cbn.
  split; [unfold sized; cbn; split; dlia|]. split; [|done]. unfold log. cbn [smo_objsize smo_object].
  assert (Hn : exists n : nat, smo_objsize smo = 8 * Z.of_nat n) by (exists (Z.to_nat (smo_objsize smo / 8)); rewrite Z2Nat.id by (apply Z.div_pos; lia); dlia).
  destruct Hn as [n Hn]. rewrite Hn in *. replace (8 * Z.of_nat n + zlen buf * 8) with (8 * (Z.of_nat (n + length buf))) by (lia).
  rewrite !(Z.mul_comm 8), !Z.div_mul, !Nat2Z.id by done. rewrite tab_plus. f_equal.
  - apply tab_ext. intros j Hj. rewrite dmu_write_ok by (done || (split; lia) || dlia). rewrite Z.div_mul by done. rewrite (proj2 (Z.leb_gt _ _)) by lia. done.
  - etrans; [|apply tab_nth]. apply tab_ext. intros j Hj. rewrite dmu_write_ok by (done || (split; lia) || dlia). rewrite !Z.div_mul by done.
    rewrite (proj2 (Z.leb_le _ _)), (proj2 (Z.ltb_lt _ _)) by (lia). cbn. f_equal. lia.
Qed.
End words.
End SpaceEntry.

Import SpaceMapOk SpaceMapWalk SpaceEntry.

Module SpaceSync.

(** ** Runs *)

(** The entries for [size] units from unit [start] on. *)
Inductive runs (maptype : Z) : Z -> Z -> list Z -> Prop :=
  | runs_nil start : runs maptype start 0 []
  | runs_cons start size n es : 0 <= start -> 1 <= n <= 32768 -> start + n <= 2 ^ 47 -> runs maptype (start + n) (size - n) es ->
      runs maptype start size (run_entry maptype start n :: es).

(** Entries of one type. *)
Definition typed (maptype : Z) (es : list Z) : Prop := Forall (fun e => SM_DEBUG_DECODE e = 0 /\ SM_TYPE_DECODE e = maptype) es.

Lemma runs_typed maptype start size es : 0 <= maptype <= 1 -> runs maptype start size es -> typed maptype es.
Proof.
  intros Hm. induction 1 as [|start size n es H1 H2 H3 _ IH]; constructor; [|done]. destruct (run_entry_fields maptype start n) as (? & ? & _); [lia..|done].
Qed.

Lemma runs_len maptype start size es : runs maptype start size es -> zlen es <= size.
Proof. induction 1 as [|start size n es H1 H2 H3 _ IH]; cbn; lia. Qed.

Lemma runs_ranges maptype mapstart shift start size es : 0 <= maptype <= 1 -> 0 <= shift -> runs maptype start size es ->
  let rs := entry_range mapstart shift <$> es in
  disj rs /\ sizes rs = size * 2 ^ shift /\ forall x, in_ranges rs x <-> mapstart + start * 2 ^ shift <= x < mapstart + (start + size) * 2 ^ shift.
Proof.
  intros Hm Hs. assert (0 < 2 ^ shift) by auto with bits. induction 1 as [start|start size n es H1 H2 H3 Hr (IH1 & IH2 & IH3)]; intros rs.
  { split; [done|]. split; [done|]. intros x. unfold rs. cbn. rewrite in_ranges_nil. lia. }
  pose proof (runs_len _ _ _ _ Hr). destruct (run_entry_fields maptype start n) as (_ & _ & E1 & E2); [lia..|].
  assert (E : entry_range mapstart shift (run_entry maptype start n) = (mapstart + start * 2 ^ shift, n * 2 ^ shift)) by (unfold entry_range; by rewrite E1, E2).
  unfold rs. rewrite fmap_cons, E. split; [|split].
  - split; [|done]. intros x Hx. rewrite IH3. cbn in Hx. lia.
  - change (n * 2 ^ shift + sizes (entry_range mapstart shift <$> es) = size * 2 ^ shift). rewrite IH2. lia.
  - intros x. rewrite in_ranges_cons, IH3. cbn. nia.
Qed.

Section sync.
Context {T I O D : Type} {HT : Tree T I} {HK : Kmem} {HO : SpaceMapOps T O} {HD : Dmu D} {HTL : TreeLaws T I} {HKL : KmemLaws} {HDL : DmuLaws D}.
Implicit Types (sm : space_map T O) (smo : space_map_obj) (d : D).

(** ** The buffer *)

(** [J] is the log and what the buffer holds. *)
Record holds (cap : Z) (smo0 smo : space_map_obj) d (buf J : list Z) : Prop := {
  h_sized : sized smo;
  h_buf : zlen buf <= cap;
  h_log : log smo d ++ buf = J;
  h_object : smo_object smo = smo_object smo0;
  h_alloc : smo_alloc smo = smo_alloc smo0 }.

Definition room_for cap smo d buf : space_map_obj * D * list Z :=
  if zlen buf =? cap * 8 / 8 then let '(smo, d) := sync_write smo d (cap * 8) buf in (smo, d, []) else (smo, d, buf).

Lemma room_for_ok cap smo0 smo d buf J e : 1 <= cap -> holds cap smo0 smo d buf J -> zlen J * 8 < 2 ^ 64 ->
  exists smo' d' buf' buf2, room_for cap smo d buf = (smo', d', buf') /\ put_entry (cap * 8 / 8) buf' e = Ok buf2 /\ holds cap smo0 smo' d' buf2 (J ++ [e]).
Proof using All.
  intros Hc [H1 H2 H3 H4 H5] HJ. unfold room_for, put_entry. rewrite Z.div_mul by done. destruct (Z.eqb_spec (zlen buf) cap) as [E|E].
  - rewrite <- E. destruct (sync_write_ok smo d buf H1) as (smo' & d' & -> & Hs & Hl & Ho & Ha & _).
    { pose proof (zlen_log smo d H1) as El. rewrite <- H3, length_app, Nat2Z.inj_add in HJ. rewrite El in HJ. destruct H1 as [_ Hm]. pose proof (Z.div_mod (smo_objsize smo) 8). lia. }
    exists smo', d', [], [e]. rewrite (proj2 (Z.ltb_lt _ _)) by (cbn; lia). split; [done|]. split; [done|]. constructor; [done|cbn; lia|by rewrite Hl, H3|congruence..].
  - exists smo, d, buf, (buf ++ [e]). rewrite (proj2 (Z.ltb_lt _ _)) by lia. split; [done|]. split; [done|]. constructor; [done|rewrite length_app; cbn; lia|by rewrite app_assoc, H3|done..].
Qed.

Lemma sync_runs_ok cap smo0 maptype start size smo d buf J : 1 <= cap -> 0 <= start -> 0 <= size -> start + size <= 2 ^ 47 ->
  holds cap smo0 smo d buf J -> (zlen J + size) * 8 < 2 ^ 64 ->
  exists es smo' d' buf', sync_runs maptype (cap * 8) start size smo d buf = Ok (smo', d', buf') /\ holds cap smo0 smo' d' buf' (J ++ es) /\ runs maptype start size es.
Proof using All.
  intros Hc H1 H2 H3 Hh HJ. unfold sync_runs. rewrite run_max. assert (Hk : size <= 32768 * (Z.of_nat (Z.to_nat (size / 32768) + 2) - 1)).
  { rewrite Nat2Z.inj_add, Z2Nat.id by (apply Z.div_pos; lia). dlia. }
  revert Hk. generalize (Z.to_nat (size / 32768) + 2)%nat as k. intros k. revert start size smo d buf J H1 H2 H3 Hh HJ.
  induction k as [|k IH]; intros start size smo d buf J H1 H2 H3 Hh HJ Hk; [lia|]. cbn [loop].
  destruct (Z.eqb_spec size 0) as [->|Hne]; [exists [], smo, d, buf; rewrite app_nil_r; split; [done|]; split; [done|constructor]|].
  set (n := Z.min size 32768). assert (Hn : 1 <= n <= 32768 /\ n <= size) by lia.
  destruct (room_for_ok cap smo0 smo d buf J (run_entry maptype start n) Hc Hh ltac:(lia)) as (smo1 & d1 & buf1 & buf2 & E1 & E2 & Hh1). unfold room_for in E1. rewrite E1.
  unfold run_entry in E2 at 1. rewrite E2. cbn [mbind res_bind]. rewrite (Z.mod_small (start + n)), (Z.mod_small (size - n)) by lia.
  destruct (IH (start + n) (size - n) smo1 d1 buf2 (J ++ [run_entry maptype start n])) as (es & smo' & d' & buf' & E & Hh' & Hr); [lia..|done|rewrite length_app; cbn; lia|lia|].
  exists (run_entry maptype start n :: es), smo', d', buf'. split; [exact E|]. split; [by rewrite <- app_assoc in Hh'|]. constructor; [lia..|done].
Qed.

(** ** Segments *)

(** A map whose units can be numbered in an entry. *)
Definition loggable sm : Prop := sm_start sm mod 2 ^ sm_shift sm = 0 /\ forall x, space sm x -> x < sm_start sm + 2 ^ 47 * 2 ^ sm_shift sm.

(** A range of such a map. *)
Definition fits_entry sm (r : Z * Z) : Prop := fits sm r.1 r.2 /\ r.1 + r.2 <= sm_start sm + 2 ^ 47 * 2 ^ sm_shift sm.

Lemma loggable_ranges sm rs : loggable sm -> (forall x, in_ranges rs x -> space sm x) -> Forall (fun r => fits sm r.1 r.2) rs -> Forall (fits_entry sm) rs.
Proof.
  intros [_ HL] Hx Hf. apply Forall_forall. intros r Hr. rewrite Forall_forall in Hf. specialize (Hf r Hr). split; [done|]. destruct Hf as (F1 & _).
  assert (r.1 + r.2 - 1 < sm_start sm + 2 ^ 47 * 2 ^ sm_shift sm) by (apply HL, Hx; exists r; split; [done|lia]). lia.
Qed.

Lemma fits_units sm start size : 0 <= sm_start sm -> sm_start sm + sm_size sm < 2 ^ 64 -> 0 <= sm_shift sm -> sm_start sm mod 2 ^ sm_shift sm = 0 -> fits_entry sm (start, size) ->
  exists k n, 0 <= k /\ 0 < n <= size /\ k + n <= 2 ^ 47 /\ start = sm_start sm + k * 2 ^ sm_shift sm /\ size = n * 2 ^ sm_shift sm /\
    Z.shiftr (u64 (start - sm_start sm)) (sm_shift sm) = k /\ Z.shiftr size (sm_shift sm) = n.
Proof.
  intros G1 G2 G3 L1 [(F1 & F2 & F3 & F4 & F5) L2]. cbn [fst snd] in *. assert (Hu : 0 < 2 ^ sm_shift sm) by auto with bits.
  assert (E : (start - sm_start sm) mod 2 ^ sm_shift sm = 0) by (by rewrite Zminus_mod, F4, L1). apply Z.mod_divide in E as [k Ek]; [|lia]. apply Z.mod_divide in F5 as [n En]; [|lia].
  exists k, n. rewrite (Z.mod_small (start - _)), !Z.shiftr_div_pow2, Ek, En, !Z.div_mul by lia. split_and!; nia || lia.
Qed.

(** Entries that stand for the ranges [rs]. *)
Record stands (maptype mapstart shift : Z) (rs : list (Z * Z)) (es : list Z) : Prop := {
  st_typed : typed maptype es;
  st_disj : disj (entry_range mapstart shift <$> es);
  st_sizes : sizes (entry_range mapstart shift <$> es) = sizes rs;
  st_in x : in_ranges (entry_range mapstart shift <$> es) x <-> in_ranges rs x;
  st_len : zlen es <= sizes rs }.

Lemma stands_nil maptype mapstart shift : stands maptype mapstart shift [] [].
Proof. constructor; try done. constructor. Qed.

Lemma stands_cons maptype mapstart shift r rs es1 es2 : stands maptype mapstart shift [r] es1 -> stands maptype mapstart shift rs es2 -> disj (r :: rs) ->
  stands maptype mapstart shift (r :: rs) (es1 ++ es2).
Proof.
  intros [A1 A2 A3 A4 A5] [B1 B2 B3 B4 B5] [Hd _]. constructor.
  - by apply Forall_app.
  - rewrite fmap_app. apply disj_app. split_and!; [done..|]. intros x. rewrite A4, B4, in_ranges_cons, in_ranges_nil. intros [H|[]]. by apply Hd.
  - rewrite fmap_app, sizes_app, A3, B3. cbn. unfold sizes. lia.
  - intros x. rewrite fmap_app, in_ranges_app, A4, B4, !in_ranges_cons, in_ranges_nil. tauto.
  - rewrite length_app. cbn in *. unfold sizes in *. lia.
Qed.

Lemma runs_stand maptype mapstart shift k n es : 0 <= maptype <= 1 -> 0 <= shift -> runs maptype k n es ->
  stands maptype mapstart shift [(mapstart + k * 2 ^ shift, n * 2 ^ shift)] es.
Proof.
  intros Hm Hs Hr. assert (0 < 2 ^ shift) by auto with bits. destruct (runs_ranges maptype mapstart shift k n es Hm Hs Hr) as (R1 & R2 & R3). pose proof (runs_len _ _ _ _ Hr).
  constructor; [by eapply runs_typed|done|rewrite R2; cbn; lia| |cbn; nia]. intros x. rewrite R3, in_ranges_cons, in_ranges_nil. cbn. split; [left|intros [?|[]]]; lia.
Qed.

(** One segment, with its range. *)
Lemma sync_seg_ok cap smo0 maptype sm p s J : 1 <= cap -> 0 <= maptype <= 1 -> 0 <= sm_start sm -> sm_start sm + sm_size sm < 2 ^ 64 -> 0 <= sm_shift sm -> sm_start sm mod 2 ^ sm_shift sm = 0 ->
  holds cap smo0 (sy_smo s) (sy_dmu s) (sy_buf s) J -> p ∈ dom (sy_segs s) -> sy_segs s !!! p = sm_segs sm !!! p ->
  let r := range_of (sm_segs sm) p in fits_entry sm r -> (zlen J + r.2) * 8 < 2 ^ 64 ->
  exists es smo d buf, sync_seg (sm_start sm) (sm_shift sm) maptype (cap * 8) p s = Ok (Sync (delete p (sy_segs s)) (u64 (sy_space s - r.2)) smo d buf) /\
    holds cap smo0 smo d buf (J ++ es) /\ stands maptype (sm_start sm) (sm_shift sm) [r] es.
Proof using All.
  intros Hc Hm G1 G2 G3 HL Hh [ss Es]%elem_of_dom Ess r Hf HJ. rewrite (lookup_total_correct _ _ _ Es) in Ess. unfold sync_seg. rewrite Es, Ess.
  destruct (fits_units sm _ _ G1 G2 G3 HL Hf) as (k & n & K1 & K2 & K3 & K4 & K5 & K6 & K7). cbn in HJ, K2, K4, K5, K6, K7.
  rewrite (Z.mod_small (ss_end _ - ss_start _)) by (destruct Hf as [(F1 & F2 & F3 & _) _]; cbn in F1, F2, F3; lia). rewrite K6, K7.
  destruct (sync_runs_ok cap smo0 maptype k n (sy_smo s) (sy_dmu s) (sy_buf s) J Hc K1 ltac:(lia) K3 Hh ltac:(lia)) as (es & smo & d & buf & -> & Hh1 & Hr).
  exists es, smo, d, buf. split; [done|]. split; [done|]. pose proof (runs_stand maptype (sm_start sm) (sm_shift sm) k n es Hm G3 Hr) as Hst. by rewrite <- K4, <- K5 in Hst.
Qed.

Lemma sync_segs_ok cap smo0 maptype sm todo : 1 <= cap -> 0 <= maptype <= 1 -> 0 <= sm_start sm -> sm_start sm + sm_size sm < 2 ^ 64 -> 0 <= sm_shift sm -> sm_start sm mod 2 ^ sm_shift sm = 0 ->
  forall s J, holds cap smo0 (sy_smo s) (sy_dmu s) (sy_buf s) J ->
  NoDup todo -> dom (sy_segs s) = list_to_set todo -> (forall p, p ∈ todo -> sy_segs s !!! p = sm_segs sm !!! p) ->
  let rs := range_of (sm_segs sm) <$> todo in
  Forall (fits_entry sm) rs -> disj rs -> sy_space s = sizes rs -> (zlen J + sizes rs) * 8 < 2 ^ 64 ->
  exists es smo d buf, each (sync_seg (sm_start sm) (sm_shift sm) maptype (cap * 8)) todo s = Ok (Sync ∅ 0 smo d buf) /\ holds cap smo0 smo d buf (J ++ es) /\
    stands maptype (sm_start sm) (sm_shift sm) rs es.
Proof using All.
  intros Hc Hm G1 G2 G3 HL. induction todo as [|p todo IH]; intros s J Hh Hn Hd Hs rs Hf Hdj Hsp HJ.
  { exists [], (sy_smo s), (sy_dmu s), (sy_buf s). rewrite app_nil_r. split; [|split; [done|apply stands_nil]]. apply dom_empty_inv_L in Hd. destruct s. cbn in *. by rewrite Hd, Hsp. }
  unfold rs in *. clear rs. rewrite fmap_cons in Hf, Hdj, Hsp, HJ. apply Forall_cons in Hf as [Hfp Hf]. apply NoDup_cons in Hn as [Hpn Hn].
  set (r := range_of (sm_segs sm) p) in *. set (rs := range_of (sm_segs sm) <$> todo) in *. assert (Esz : sizes (r :: rs) = r.2 + sizes rs) by done.
  assert (Hnn : 0 <= sizes rs) by (clear -Hf; induction Hf as [|r rs [[H _] _] _ IH]; cbn; unfold sizes in *; lia). assert (Hr : 0 < r.2) by apply Hfp.
  destruct (sync_seg_ok cap smo0 maptype sm p s J Hc Hm G1 G2 G3 HL Hh) as (es1 & smo1 & d1 & buf1 & E1 & Hh1 & Hst); [rewrite Hd; set_solver|apply Hs; set_solver|done|fold r; lia|].
  fold r in E1, Hst. rewrite each_cons, E1, Hsp, Esz. cbn [mbind res_bind]. rewrite (Z.mod_small (r.2 + sizes rs - r.2)) by lia.
  destruct (IH (Sync (delete p (sy_segs s)) (r.2 + sizes rs - r.2) smo1 d1 buf1) (J ++ es1)) as (es2 & smo' & d' & buf' & E & Hh' & Hst'); cbn [sy_smo sy_dmu sy_buf sy_segs sy_space]; try done.
  - rewrite dom_delete_L, Hd. set_solver.
  - intros q Hq. rewrite lookup_total_delete_ne by (by intros ->). apply Hs. set_solver.
  - apply Hdj.
  - fold rs. lia.
  - fold rs. destruct Hst as [_ _ _ _ Hlen]. change (sizes [r]) with (r.2 + 0) in Hlen. rewrite length_app. lia.
  - exists (es1 ++ es2), smo', d', buf'. split; [exact E|]. split; [by rewrite app_assoc|]. by apply stands_cons.
Qed.

(** ** The whole map *)

Lemma sizes_len sm rs : Forall (fun r => fits sm r.1 r.2) rs -> zlen rs <= sizes rs.
Proof. induction 1 as [|r rs [H _] _ IH]; cbn; unfold sizes in *; lia. Qed.

(** The size of the buffer. *)
Lemma sync_buf sm l : sm_ok sm l -> (8 + sm_space sm) * 8 < 2 ^ 64 ->
  exists cap, 1 <= cap /\ Z.min (u64 (u64 (8 + tr_numnodes (sm_root sm)) * 8)) (Z.shiftl 1 SPACE_MAP_BLOCKSHIFT) = cap * 8.
Proof using All.
  intros Hok HJ. destruct (tr_seq_facts _ _ (ok_seq _ _ Hok)) as (_ & _ & _ & ->). destruct (ranges_of sm l l Hok (reflexivity l)) as (_ & Hf & Hsz & _).
  pose proof (sizes_len sm _ Hf) as Hl. rewrite length_fmap in Hl. exists (Z.min (8 + zlen l) 512). rewrite (Z.mod_small (8 + _)), (Z.mod_small (_ * 8)) by lia. change (Z.shiftl 1 SPACE_MAP_BLOCKSHIFT) with 4096. lia.
Qed.

Lemma space_map_sync_ok sm l maptype smo d pass txg : sm_ok sm l -> sm_pp_root sm = None -> loggable sm -> 0 <= maptype <= 1 -> sized smo ->
  smo_objsize smo + (8 + sm_space sm) * 8 < 2 ^ 64 -> sm_space sm <> 0 ->
  exists t smo' d' es, space_map_sync sm maptype smo d pass txg = Ok (emptied sm t, smo', d') /\ sm_ok (emptied sm t) [] /\ sized smo' /\
    smo_object smo' = smo_object smo /\ smo_alloc smo' = (if maptype =? SM_ALLOC then u64 (smo_alloc smo + sm_space sm) else u64 (smo_alloc smo - sm_space sm)) /\
    log smo' d' = log smo d ++ debug_entry maptype pass txg :: es /\
    exists rs, stands maptype (sm_start sm) (sm_shift sm) rs es /\ sizes rs = sm_space sm /\ forall x, in_ranges rs x <-> space sm x.
Proof using All.
  intros Hok Hpp HL Hm Hsz HJ Hne. destruct (ok_geom _ _ Hok) as (G1 & G2 & G3 & G4). unfold space_map_sync. rewrite (proj2 (Z.eqb_neq _ _) Hne). destruct Hsz as [Hsz1 Hsz2].
  destruct (sync_buf sm l Hok ltac:(lia)) as (cap & Hc & ->). set (alloc := if maptype =? SM_ALLOC then _ else _). set (smo0 := SpaceMapObj (smo_object smo) (smo_objsize smo) alloc).
  unfold put_entry. cbn [length]. change (Z.of_nat 0) with 0. rewrite Z.div_mul, (proj2 (Z.ltb_lt 0 cap)) by lia. cbn [mbind res_bind app]. fold (debug_entry maptype pass txg).
  match goal with |- context [tr_drain true _ ?f ?s] => destruct (tr_drain_ok true (sm_root sm) l f s (ok_seq _ _ Hok)) as (todo & t & Hp & Hs & ->) end.
  destruct (ranges_of sm l todo Hok Hp) as (Rd & Rf & Rs & Rx). pose proof (zlen_log smo0 d (conj Hsz1 Hsz2)) as El. change (smo_objsize smo0) with (smo_objsize smo) in El.
  destruct (sync_segs_ok cap smo0 maptype sm todo Hc Hm G1 G3 ltac:(lia) (proj1 HL) (Sync (sm_segs sm) (sm_space sm) smo0 d [debug_entry maptype pass txg]) (log smo d ++ [debug_entry maptype pass txg])) as (es & smo1 & d1 & buf & -> & Hh & Hst); try done.
  - rewrite Hp. by destruct (tr_seq_facts _ _ (ok_seq _ _ Hok)).
  - cbn. rewrite (ok_dom _ _ Hok). apply set_eq. intros q. by rewrite !elem_of_list_to_set, Hp.
  - apply loggable_ranges; [done|intros x; apply Rx|done].
  - rewrite Rs, length_app. change (log smo d) with (log smo0 d). rewrite Nat2Z.inj_add, El. cbn [length]. dlia.
  - cbn [mbind res_bind sy_buf sy_smo sy_dmu sy_segs sy_space]. destruct Hh as [H1 H2 H3 H4 H5]. exists t.
    assert (Hb : zlen buf * 8 + smo_objsize smo1 < 2 ^ 64).
    { pose proof (zlen_log smo1 d1 H1) as El1. apply (f_equal length) in H3. rewrite !length_app in H3. change (log smo d) with (log smo0 d) in H3. cbn [length] in H3. destruct Hst as [_ _ _ _ Hlen].
      destruct H1 as [_ H1]. rewrite Rs in Hlen. dlia. }
    assert (Hem : sm_ok (emptied sm t) []) by (constructor; cbn; [done|apply dom_empty_L|apply canon_nil|done|done|by rewrite Hpp]).
    assert (Hres : exists smo' d', (if negb (zlen buf =? 0) then sync_write smo1 d1 (zlen buf * 8) buf else (smo1, d1)) = (smo', d') /\ sized smo' /\ log smo' d' = log smo1 d1 ++ buf /\
      smo_object smo' = smo_object smo1 /\ smo_alloc smo' = smo_alloc smo1).
    { destruct (Z.eqb_spec (zlen buf) 0) as [E|E]; cbn [negb].
      - exists smo1, d1. destruct buf; [|done]. by rewrite app_nil_r.
      - destruct (sync_write_ok smo1 d1 buf H1 ltac:(lia)) as (smo' & d' & ? & ? & ? & ? & ? & _). by exists smo', d'. }
    destruct Hres as (smo' & d' & -> & R1 & R2 & R3 & R4). exists smo', d', es. cbn. split; [done|]. split; [done|]. split; [done|]. split; [by rewrite R3, H4|]. split; [by rewrite R4, H5|].
    split; [by rewrite R2, H3, <- app_assoc|]. by exists (range_of (sm_segs sm) <$> todo).
Qed.
End sync.
End SpaceSync.
