(* ===== verification/SpaceLoad.v ===== *)
(** The meaning of a space map's log, and [space_map_load]. *)

From S2P Require Import Prelude OrdTree SpaceMap SpaceSet SpaceMapOk SpaceMapWalk SpaceMapRanges SpaceLog SpaceSync.
Import SpaceMap SpaceSet SpaceMapOk SpaceMapCut SpaceMapWalk SpaceMapRanges SpaceLog SpaceEntry SpaceSync.
Open Scope Z_scope.

Module SpaceLoad.

(** ** Logs *)

(** [logged lo size shift es A n]: the entries [es], for a map of [size] bytes from
    [lo] on with units of [2 ^ shift] bytes, allocate only what is free and free only
    what is allocated; [A] is what is allocated after them, [n] is its size. *)
Inductive logged (lo size shift : Z) : list Z -> (Z -> Prop) -> Z -> Prop :=
  | logged_nil A : (forall x, ~ A x) -> logged lo size shift [] A 0
  | logged_debug es e A n : logged lo size shift es A n -> SM_DEBUG_DECODE e <> 0 -> logged lo size shift (es ++ [e]) A n
  | logged_alloc es e A A' n : logged lo size shift es A n ->
      let r := entry_range lo shift e in
      SM_DEBUG_DECODE e = 0 -> SM_TYPE_DECODE e = SM_ALLOC -> r.1 + r.2 <= lo + size ->
      (forall x, in_range r x -> ~ A x) -> (forall x, A' x <-> A x \/ in_range r x) -> logged lo size shift (es ++ [e]) A' (n + r.2)
  | logged_free es e A A' n : logged lo size shift es A n ->
      let r := entry_range lo shift e in
      SM_DEBUG_DECODE e = 0 -> SM_TYPE_DECODE e = SM_FREE -> r.1 + r.2 <= lo + size ->
      (forall x, in_range r x -> A x) -> (forall x, A' x <-> A x /\ ~ in_range r x) -> logged lo size shift (es ++ [e]) A' (n - r.2).

Section logs.
Context {lo size shift : Z}.

Lemma logged_ext es A A' n : (forall x, A' x <-> A x) -> logged lo size shift es A n -> logged lo size shift es A' n.
Proof.
  intros Hx H. revert A' Hx. induction H as [A H|es e A n H IH Hd|es e A A1 n H IH r Hd Ht Hb Ha H1|es e A A1 n H IH r Hd Ht Hb Ha H1]; intros A' Hx.
  - constructor. intros x. by rewrite Hx.
  - constructor; [by apply IH|done].
  - eapply logged_alloc; try done. intros x. by rewrite Hx, H1.
  - eapply logged_free; try done. intros x. by rewrite Hx, H1.
Qed.

Lemma range_pos e : 0 <= shift -> let r := entry_range lo shift e in lo <= r.1 /\ 0 < r.2.
Proof. intros Hs. assert (0 < 2 ^ shift) by auto with bits. pose proof (offset_decode e). unfold entry_range. cbn. rewrite run_decode. split; [nia|dlia]. Qed.

Lemma logged_inside es A n : 0 <= shift -> logged lo size shift es A n -> forall x, A x -> inside lo size x.
Proof.
  intros Hs. induction 1 as [A H|es e A n H IH Hd|es e A A1 n H IH r Hd Ht Hb Ha H1|es e A A1 n H IH r Hd Ht Hb Ha H1]; intros x Hx.
  - by destruct (H x).
  - by apply IH.
  - apply H1 in Hx as [Hx|Hx]; [by apply IH|]. pose proof (range_pos e Hs) as Hp. cbv zeta in Hp. fold r in Hp. lia.
  - apply IH, H1, Hx.
Qed.

Lemma logged_prefix es1 es2 A n : logged lo size shift (es1 ++ es2) A n -> exists A' n', logged lo size shift es1 A' n'.
Proof.
  revert A n. induction es2 as [|e es2 IH] using rev_ind; intros A n H; [rewrite app_nil_r in H; eauto|].
  rewrite app_assoc in H. inversion H as [A1 H1 E|es e' A1 n1 H1 Hd E|es e' A1 A2 n1 H1 r Hd Ht Hb Ha Hx E|es e' A1 A2 n1 H1 r Hd Ht Hb Ha Hx E]; subst.
  - by destruct (app_cons_not_nil _ _ _ E).
  - apply app_inj_tail in E as [-> ->]. by eapply IH.
  - apply app_inj_tail in E as [-> ->]. by eapply IH.
  - apply app_inj_tail in E as [-> ->]. by eapply IH.
Qed.

(** Entries of one type at the end of a log. *)
Lemma logged_allocs es' : forall es A n, logged lo size shift es A n -> typed SM_ALLOC es' ->
  let rs := entry_range lo shift <$> es' in Forall (fun r => r.1 + r.2 <= lo + size) rs -> disj rs -> (forall x, in_ranges rs x -> ~ A x) ->
  logged lo size shift (es ++ es') (fun x => A x \/ in_ranges rs x) (n + sizes rs).
Proof.
  induction es' as [|e es' IH]; intros es A n H Ht rs Hb Hd Hx.
  { rewrite app_nil_r, Z.add_0_r. eapply logged_ext; [|exact H]. intros x. unfold rs. cbn. rewrite in_ranges_nil. tauto. }
  apply Forall_cons in Ht as [[Hde Hty] Ht]. unfold rs in *. rewrite fmap_cons in *. apply Forall_cons in Hb as [Hbr Hb]. destruct Hd as [Hdr Hd]. set (r := entry_range lo shift e) in *.
  change (e :: es') with ([e] ++ es'). rewrite app_assoc. replace (n + sizes (r :: _)) with (n + r.2 + sizes (entry_range lo shift <$> es')) by (cbn; unfold sizes; lia).
  eapply logged_ext; [|apply (IH (es ++ [e]) (fun x => A x \/ in_range r x)); try done].
  - intros x. cbn beta. rewrite in_ranges_cons. tauto.
  - eapply logged_alloc; try done. intros x Hr. apply Hx, in_ranges_cons. by left.
  - intros x Hr [HA|Hr']; [by apply (Hx x); [apply in_ranges_cons; right|]|by apply (Hdr x)].
Qed.

Lemma logged_frees es' : forall es A n, logged lo size shift es A n -> typed SM_FREE es' ->
  let rs := entry_range lo shift <$> es' in Forall (fun r => r.1 + r.2 <= lo + size) rs -> disj rs -> (forall x, in_ranges rs x -> A x) ->
  logged lo size shift (es ++ es') (fun x => A x /\ ~ in_ranges rs x) (n - sizes rs).
Proof.
  induction es' as [|e es' IH]; intros es A n H Ht rs Hb Hd Hx.
  { rewrite app_nil_r, Z.sub_0_r. eapply logged_ext; [|exact H]. intros x. unfold rs. cbn. rewrite in_ranges_nil. tauto. }
  apply Forall_cons in Ht as [[Hde Hty] Ht]. unfold rs in *. rewrite fmap_cons in *. apply Forall_cons in Hb as [Hbr Hb]. destruct Hd as [Hdr Hd]. set (r := entry_range lo shift e) in *.
  change (e :: es') with ([e] ++ es'). rewrite app_assoc. replace (n - sizes (r :: _)) with (n - r.2 - sizes (entry_range lo shift <$> es')) by (cbn; unfold sizes; lia).
  eapply logged_ext; [|apply (IH (es ++ [e]) (fun x => A x /\ ~ in_range r x)); try done].
  - intros x. cbn beta. rewrite in_ranges_cons. tauto.
  - eapply logged_free; try done. intros x Hr. apply Hx, in_ranges_cons. by left.
  - intros x Hr. split; [apply Hx, in_ranges_cons; by right|]. intros Hr'. by apply (Hdr x).
Qed.

Lemma ranges_bound es : 0 <= shift -> let rs := entry_range lo shift <$> es in (forall x, in_ranges rs x -> inside lo size x) -> Forall (fun r => r.1 + r.2 <= lo + size) rs.
Proof.
  intros Hs rs Hx. apply Forall_forall. intros r Hr. assert (Hp : 0 < r.2) by (apply list_elem_of_fmap in Hr as (e & -> & _); by apply range_pos).
  assert (inside lo size (r.1 + r.2 - 1)) by (apply Hx; exists r; split; [done|lia]). lia.
Qed.
End logs.

(** What is allocated once the ranges [S] have been allocated or freed. *)
Definition applied (maptype : Z) (A S : Z -> Prop) (x : Z) : Prop := if maptype =? SM_ALLOC then A x \/ S x else A x /\ ~ S x.

(** What can be allocated or freed. *)
Definition applies (maptype : Z) (A S : Z -> Prop) : Prop := forall x, S x -> if maptype =? SM_ALLOC then ~ A x else A x.

Lemma logged_stands lo size shift maptype es A n es' rs (S : Z -> Prop) m : 0 <= shift -> 0 <= maptype <= 1 -> logged lo size shift es A n ->
  stands maptype lo shift rs es' -> sizes rs = m -> (forall x, in_ranges rs x <-> S x) -> (forall x, S x -> inside lo size x) -> applies maptype A S ->
  logged lo size shift (es ++ es') (applied maptype A S) (if maptype =? SM_ALLOC then n + m else n - m).
Proof.
  intros Hs Hm H [Ht Hd Hz Hi _] <- Hr Hb Ha. assert (HF : Forall (fun r => r.1 + r.2 <= lo + size) (entry_range lo shift <$> es')).
  { apply ranges_bound; [done|]. intros x. rewrite Hi, Hr. apply Hb. }
  unfold applied, applies in *. rewrite <- Hz. destruct (Z.eqb_spec maptype SM_ALLOC) as [->|E].
  - eapply logged_ext; [|apply logged_allocs; try done]; [intros x; cbn beta; by rewrite Hi, Hr|]. intros x. rewrite Hi, Hr. apply Ha.
  - assert (maptype = SM_FREE) as -> by (unfold SM_ALLOC, SM_FREE in *; lia).
    eapply logged_ext; [|apply logged_frees; try done]; [intros x; cbn beta; by rewrite Hi, Hr|]. intros x. rewrite Hi, Hr. apply Ha.
Qed.

Section load.
Context {T I O D : Type} {HT : Tree T I} {HK : Kmem} {HO : SpaceMapOps T O} {HD : Dmu D} {HTL : TreeLaws T I} {HKL : KmemLaws} {HDL : DmuLaws D}.
Implicit Types (sm : space_map T O) (smo : space_map_obj) (d : D).

(** ** Replay *)

(** What the map shows of the allocated set. *)
Definition shown sm (maptype : Z) (A : Z -> Prop) (x : Z) : Prop := if maptype =? SM_ALLOC then A x else inside (sm_start sm) (sm_size sm) x /\ ~ A x.
Definition shown_size sm (maptype n : Z) : Z := if maptype =? SM_ALLOC then n else sm_size sm - n.

(** [sm] is the replay of a log that leaves [A] allocated. *)
Definition replayed sm0 (maptype : Z) (A : Z -> Prop) (n : Z) sm : Prop :=
  exists l, sm_ok sm l /\ framed sm0 sm /\ sm_space sm = shown_size sm0 maptype n /\ forall x, space sm x <-> shown sm0 maptype A x.

Lemma load_entry_range sm l maptype e : sm_ok sm l -> SM_DEBUG_DECODE e = 0 -> let r := entry_range (sm_start sm) (sm_shift sm) e in r.1 + r.2 <= sm_start sm + sm_size sm ->
  load_entry maptype (sm_start sm) e sm = (if SM_TYPE_DECODE e =? maptype then space_map_add sm r.1 r.2 else space_map_remove sm r.1 r.2).
Proof using All.
  intros Hok Hd r Hb. destruct (ok_geom _ _ Hok) as (G1 & G2 & G3 & G4). pose proof (range_pos (lo := sm_start sm) e (proj1 G4)) as Hp. unfold load_entry. rewrite Hd. cbn [negb Z.eqb].
  rewrite !Z.shiftl_mul_pow2 by lia. unfold r, entry_range in *. cbn in *. assert (0 < 2 ^ sm_shift sm) by auto with bits. pose proof (offset_decode e).
  rewrite (Z.mod_small (SM_OFFSET_DECODE e * _)), (Z.mod_small (SM_RUN_DECODE e * _)), (Z.mod_small (_ + _)), Z.add_comm by nia. by case_match.
Qed.

Lemma entry_fits sm l e : sm_ok sm l -> sm_start sm mod 2 ^ sm_shift sm = 0 -> let r := entry_range (sm_start sm) (sm_shift sm) e in r.1 + r.2 <= sm_start sm + sm_size sm -> fits sm r.1 r.2.
Proof.
  intros Hok Ha r Hb. destruct (ok_geom _ _ Hok) as (_ & _ & _ & G4). pose proof (range_pos (lo := sm_start sm) e (proj1 G4)) as [H1 H2]. fold r in H1, H2.
  split_and!; try done; unfold r, entry_range; cbn; [|by apply Z_mod_mult]. by rewrite Z_mod_plus_full.
Qed.

Lemma load_entry_ok sm0 maptype es e A n A' n' sm : 0 <= maptype <= 1 -> sm_start sm0 mod 2 ^ sm_shift sm0 = 0 -> 0 <= sm_shift sm0 ->
  logged (sm_start sm0) (sm_size sm0) (sm_shift sm0) es A n -> replayed sm0 maptype A n sm ->
  SM_DEBUG_DECODE e = 0 -> let r := entry_range (sm_start sm0) (sm_shift sm0) e in r.1 + r.2 <= sm_start sm0 + sm_size sm0 ->
  (SM_TYPE_DECODE e = SM_ALLOC /\ (forall x, in_range r x -> ~ A x) /\ (forall x, A' x <-> A x \/ in_range r x) /\ n' = n + r.2) \/
  (SM_TYPE_DECODE e = SM_FREE /\ (forall x, in_range r x -> A x) /\ (forall x, A' x <-> A x /\ ~ in_range r x) /\ n' = n - r.2) ->
  exists sm', load_entry maptype (sm_start sm0) e sm = Ok sm' /\ replayed sm0 maptype A' n' sm'.
Proof using All.
  intros Hm Ha Hs Hl (l & Hok & Hf & Hz & Hx) Hd r Hb Hc. pose proof Hf as (E1 & E2 & E3 & _). pose proof (logged_inside _ _ _ Hs Hl) as HA. pose proof (range_pos (lo := sm_start sm0) e Hs) as Hp. cbv zeta in Hp. fold r in Hp.
  pose proof (load_entry_range sm l maptype e Hok Hd) as El. pose proof (entry_fits sm l e Hok) as Hfit. rewrite E1, E2, E3 in El, Hfit. cbv zeta in El, Hfit. fold r in El, Hfit. specialize (Hfit Ha Hb). rewrite El by done. clear El. clearbody r.
  assert (Hdec : (SM_TYPE_DECODE e =? maptype) = true /\ (forall x, in_range r x -> ~ space sm x) \/ (SM_TYPE_DECODE e =? maptype) = false /\ (forall x, in_range r x -> space sm x)).
  { setoid_rewrite Hx. unfold shown. destruct Hc as [(-> & Hc & _)|(-> & Hc & _)]; assert (maptype = 0 \/ maptype = 1) as [->| ->] by lia; cbn.
    - by left.
    - right. split; [done|]. intros x Hr. split; [lia|by apply Hc].
    - right. done.
    - left. split; [done|]. intros x Hr [_ Hn]. by apply Hn, Hc. }
  assert (Hset : if SM_TYPE_DECODE e =? maptype then shown_size sm0 maptype n' = shown_size sm0 maptype n + r.2 /\ (forall x, shown sm0 maptype A' x <-> shown sm0 maptype A x \/ in_range r x)
    else shown_size sm0 maptype n' = shown_size sm0 maptype n - r.2 /\ (forall x, shown sm0 maptype A' x <-> shown sm0 maptype A x /\ ~ in_range r x)).
  { unfold shown, shown_size. destruct Hc as [(-> & Hc & Hx' & ->)|(-> & Hc & Hx' & ->)]; assert (maptype = 0 \/ maptype = 1) as [->| ->] by lia; cbn; (split; [lia|]); try done.
    - intros x. rewrite Hx'. tauto.
    - intros x. rewrite Hx'. destruct (decide (in_range r x)) as [Hr|Hr]; [|tauto]. specialize (Hc x Hr). assert (inside (sm_start sm0) (sm_size sm0) x) by lia. tauto. }
  destruct Hdec as [[E Hn]|[E Hn]]; rewrite E in *; destruct Hset as [Hset1 Hset2].
  - destruct (space_map_add_ok sm l r.1 r.2 Hok Hfit Hn) as (sm' & l' & -> & Hok' & Hf' & Hz' & Hx'). exists sm'. split; [done|]. exists l'. split; [done|]. split; [by eapply framed_trans|]. split; [lia|].
    intros x. by rewrite Hx', Hset2, Hx.
  - destruct (space_map_remove_ok sm l r.1 r.2 Hok Hfit Hn) as (sm' & l' & -> & Hok' & Hf' & Hz' & Hx'). exists sm'. split; [done|]. exists l'. split; [done|]. split; [by eapply framed_trans|]. split; [lia|].
    intros x. by rewrite Hx', Hset2, Hx.
Qed.

Lemma replay_ok sm0 maptype es A n sm : 0 <= maptype <= 1 -> sm_start sm0 mod 2 ^ sm_shift sm0 = 0 -> 0 <= sm_shift sm0 ->
  logged (sm_start sm0) (sm_size sm0) (sm_shift sm0) es A n -> replayed sm0 maptype (fun _ => False) 0 sm ->
  exists sm', each (load_entry maptype (sm_start sm0)) es sm = Ok sm' /\ replayed sm0 maptype A n sm'.
Proof using All.
  intros Hm Ha Hs Hl Hr. induction Hl as [A H|es e A n H IH Hd|es e A A' n H IH r Hd Ht Hb Hc Hx|es e A A' n H IH r Hd Ht Hb Hc Hx].
  - exists sm. split; [done|]. destruct Hr as (l & R1 & R2 & R3 & R4). exists l. split_and!; [done..|]. intros x. rewrite R4. unfold shown. specialize (H x). destruct (maptype =? SM_ALLOC); tauto.
  - destruct IH as (sm1 & E1 & H1). exists sm1. rewrite each_app, E1. split; [|done]. cbn. unfold load_entry. by rewrite (proj2 (Z.eqb_neq _ _) Hd).
  - destruct IH as (sm1 & E1 & H1). rewrite each_app, E1. destruct (load_entry_ok sm0 maptype es e A n A' (n + r.2) sm1 Hm Ha Hs H H1 Hd Hb) as (sm' & E & H'); [by left|]. exists sm'. cbn. by rewrite E.
  - destruct IH as (sm1 & E1 & H1). rewrite each_app, E1. destruct (load_entry_ok sm0 maptype es e A n A' (n - r.2) sm1 Hm Ha Hs H H1 Hd Hb) as (sm' & E & H'); [by right|]. exists sm'. cbn. by rewrite E.
Qed.

(** ** Blocks *)

Lemma read_words smo d off m : sized smo -> (off + m <= Z.to_nat (smo_objsize smo / 8))%nat ->
  tab m (fun i => dmu_word d (smo_object smo) (Z.of_nat off + Z.of_nat i)) = take m (drop off (log smo d)).
Proof using HDL.
  intros _ Hb. unfold log. replace (Z.to_nat (smo_objsize smo / 8)) with (off + (m + (Z.to_nat (smo_objsize smo / 8) - off - m)))%nat by lia.
  rewrite tab_plus, drop_app_length' by (by rewrite length_tab). rewrite tab_plus, take_app_length' by (by rewrite length_tab). apply tab_ext. intros j _. f_equal. lia.
Qed.

(** What the loop over the blocks has done when it stops. *)
Definition blocks_end d (object : Z) (f : Z -> space_map T O -> res (space_map T O)) todo sm (o : Z * space_map T O) : Prop :=
  (o.1 = 0 /\ each f todo sm = Ok o.2) \/
  (o.1 <> 0 /\ (exists off size, (dmu_read d object off size).1 = o.1) /\ exists es1 es2, todo = es1 ++ es2 /\ each f es1 sm = Ok o.2).

Lemma blocks_end_app d object f es todo sm sm1 o : each f es sm = Ok sm1 -> blocks_end d object f todo sm1 o -> blocks_end d object f (es ++ todo) sm o.
Proof.
  intros E [[H1 H2]|(H1 & H2 & es1 & es2 & -> & H3)]; [left|right]; (split; [done|]); [by rewrite each_app, E|]. split; [done|]. exists (es ++ es1), es2. split; [by rewrite app_assoc|]. by rewrite each_app, E.
Qed.

Lemma phase8 k : (P2PHASE (8 * k) 8 =? 0) = true.
Proof. apply Z.eqb_eq. unfold P2PHASE. change (8 - 1) with (2 ^ 3 - 1). rewrite land_pred_pow2, Z.mul_comm by done. apply Z_mod_mult. Qed.

Lemma load_block_ok maptype lo smo d j sm : sized smo -> smo_objsize smo + 4096 <= 2 ^ 64 -> 8 * Z.of_nat j < smo_objsize smo ->
  (exists sm', each (load_entry maptype lo) (drop j (log smo d)) sm = Ok sm') ->
  (exists err size, err <> 0 /\ (dmu_read d (smo_object smo) (8 * Z.of_nat j) size).1 = err /\
    load_block maptype lo (smo_object smo) (smo_objsize smo) d (8 * Z.of_nat j, sm) = Ok (inr (err, sm))) \/
  (exists sm', each (load_entry maptype lo) (take 512 (drop j (log smo d))) sm = Ok sm' /\ (exists sm2, each (load_entry maptype lo) (drop (j + 512) (log smo d)) sm' = Ok sm2) /\
    load_block maptype lo (smo_object smo) (smo_objsize smo) d (8 * Z.of_nat j, sm) = Ok (inl (8 * Z.of_nat (j + 512), sm'))).
Proof using HDL.
  intros Hsz Hb Hj [sme He]. pose proof Hsz as [Hsz1 Hsz2]. set (end_ := smo_objsize smo) in *.
  assert (HN : exists N, end_ = 8 * Z.of_nat N /\ Z.to_nat (smo_objsize smo / 8) = N) by (exists (Z.to_nat (end_ / 8)); rewrite Z2Nat.id by (apply Z.div_pos; lia); split; [dlia|done]).
  destruct HN as (N & HN & EN). assert (Hlen : length (log smo d) = N) by (unfold log; rewrite length_tab; done).
  unfold load_block. change (Z.shiftl 1 SPACE_MAP_BLOCKSHIFT) with 4096. rewrite (proj2 (Z.ltb_lt _ _)), (Z.mod_small (end_ - _)), (Z.mod_small (_ + 4096)) by lia.
  set (m := Nat.min (N - j) 512). replace (Z.min (end_ - 8 * Z.of_nat j) 4096) with (8 * Z.of_nat m) by lia.
  rewrite phase8, (proj2 (Z.eqb_neq (8 * Z.of_nat m) 0)) by lia. cbn [negb verify]. rewrite !bind_Ok. destruct (dmu_read _ _ _ _) as [err ws] eqn:Er. destruct (Z.eqb_spec err 0) as [->|Hne]; cbn [negb].
  2: { left. exists err, (8 * Z.of_nat m). split; [done|]. by rewrite Er. }
  right. apply dmu_read_ok in Er; [|lia|dlia|lia|dlia]. rewrite !(Z.mul_comm 8), !Z.div_mul, Nat2Z.id, read_words in Er by (done || lia).
  assert (Ew : ws = take 512 (drop j (log smo d))) by (rewrite Er; unfold m; destruct (Nat.min_spec (N - j) 512) as [[? ->]|[? ->]]; [|done]; rewrite !take_ge by len; done).
  rewrite Ew. rewrite <- (take_drop 512 (drop j (log smo d))), each_app in He. destruct (each _ (take 512 _) sm) as [sm'|] eqn:E1; [|done]. exists sm'. split; [done|].
  split; [exists sme; by rewrite drop_drop in He|]. cbn. do 3 f_equal. lia.
Qed.

Lemma load_blocks_ok maptype smo d sm : sized smo -> smo_objsize smo + 4096 <= 2 ^ 64 -> (exists sm', each (load_entry maptype (sm_start sm)) (log smo d) sm = Ok sm') ->
  exists o, load_blocks maptype (smo_object smo) (smo_objsize smo) d sm = Ok o /\ blocks_end d (smo_object smo) (load_entry maptype (sm_start sm)) (log smo d) sm o.
Proof using HDL.
  intros Hsz Hb. unfold load_blocks. change (Z.shiftl 1 SPACE_MAP_BLOCKSHIFT) with 4096. generalize (sm_start sm). intros lo. pose proof (zlen_log smo d Hsz) as Hlen. pose proof Hsz as [Hs1 Hs2].
  assert (Gen : forall k j sm, (0 < k)%nat -> smo_objsize smo - 8 * Z.of_nat j <= 4096 * (Z.of_nat k - 1) -> (exists sm', each (load_entry maptype lo) (drop j (log smo d)) sm = Ok sm') ->
    exists o, loop k (load_block maptype lo (smo_object smo) (smo_objsize smo) d) (8 * Z.of_nat j, sm) = Ok o /\ blocks_end d (smo_object smo) (load_entry maptype lo) (drop j (log smo d)) sm o).
  2: { intros He. apply (Gen _ 0%nat); [lia| |by rewrite drop_0]. rewrite Nat2Z.inj_add, Z2Nat.id by (apply Z.div_pos; lia). dlia. }
  clear sm. induction k as [|k IH]; intros j sm Hk0 Hk He; [lia|]. destruct (Z.lt_ge_cases (8 * Z.of_nat j) (smo_objsize smo)) as [Hj|Hj].
  - destruct (load_block_ok maptype lo smo d j sm Hsz Hb Hj He) as [(err & size & Hne & Er & E)|(sm' & E1 & He' & E)]; cbn [loop]; rewrite E.
    + exists (err, sm). split; [done|]. right. split; [done|]. split; [eauto|]. by exists [], (drop j (log smo d)).
    + destruct (IH (j + 512)%nat sm') as (o & Eo & Ho); [lia..|done|]. exists o. split; [exact Eo|]. rewrite <- (take_drop 512 (drop j (log smo d))), drop_drop. by eapply blocks_end_app.
  - exists (0, sm). cbn [loop load_block]. rewrite (proj2 (Z.ltb_ge _ _)) by done. split; [done|]. left. split; [done|]. rewrite drop_ge by dlia. done.
Qed.

(** ** The whole log *)

(** A map that can be filled from its log. *)
Definition loadable sm (maptype : Z) : Prop := sm_start sm mod 2 ^ sm_shift sm = 0 /\ sm_size sm mod 2 ^ sm_shift sm = 0 /\ (maptype = SM_FREE -> 0 < sm_size sm).

(** The end of a load that has read everything: the picker's turn. *)
Definition finish (ops : option O) sm : res (Z * space_map T O) :=
  sm ← (let sm := with_ops (with_loaded sm true) ops in match ops with Some o => smop_load o sm | None => Ok sm end);
  Ok (0, with_loading sm false).

(** The map before the first entry. *)
Lemma load_start sm maptype : sm_ok sm [] -> 0 <= maptype <= 1 -> loadable sm maptype ->
  exists sm1, (if maptype =? SM_FREE then space_map_add sm (sm_start sm) (sm_size sm) else Ok sm) = Ok sm1 /\ replayed sm maptype (fun _ => False) 0 sm1.
Proof using All.
  intros Hok Hm (L1 & L2 & L3). destruct (space_empty sm Hok) as [Hz Hx]. unfold replayed, shown, shown_size. assert (maptype = 0 \/ maptype = 1) as [->| ->] by lia; cbn.
  - exists sm. split; [done|]. exists []. split; [done|]. split; [apply framed_refl|]. split; [done|]. intros x. split; [apply Hx|done].
  - destruct (space_map_add_ok sm [] (sm_start sm) (sm_size sm) Hok) as (sm1 & l & E & Hok1 & Hf & Hz1 & Hx1); [split_and!; try done; by apply L3|intros x _; apply Hx|].
    exists sm1. split; [done|]. exists l. split; [done|]. split; [done|]. split; [lia|]. intros x. rewrite Hx1. specialize (Hx x). tauto.
Qed.

Lemma space_map_load_ok sm ops maptype smo d A : sm_ok sm [] -> sm_pp_root sm = None -> 0 <= maptype <= 1 -> loadable sm maptype ->
  sized smo -> smo_objsize smo + 4096 <= 2 ^ 64 -> logged (sm_start sm) (sm_size sm) (sm_shift sm) (log smo d) A (smo_alloc smo) ->
  (exists sm1, replayed (with_loading sm true) maptype A (smo_alloc smo) sm1 /\ space_map_load sm ops maptype smo d = finish ops sm1) \/
  (exists err sm1, err <> 0 /\ (exists off size, (dmu_read d (smo_object smo) off size).1 = err) /\ space_map_load sm ops maptype smo d = Ok (err, sm1) /\
    sm_ok sm1 [] /\ framed (with_loading sm false) sm1).
Proof using All.
  intros Hok Hpp Hm HL Hsz Hb Hlog. set (sm0 := with_loading sm true). assert (Hok0 : sm_ok sm0 []) by (by eapply sm_ok_same). destruct (ok_geom _ _ Hok) as (G1 & G2 & G3 & G4).
  destruct (load_start sm0 maptype Hok0 Hm HL) as (sm1 & E1 & H1). assert (Est : sm_start sm1 = sm_start sm0) by (destruct H1 as (l & _ & (? & _) & _); done).
  destruct (replay_ok sm0 maptype (log smo d) A (smo_alloc smo) sm1 Hm (proj1 HL) (proj1 G4) Hlog H1) as (sm2 & E2 & H2). rewrite <- Est in E2.
  destruct (load_blocks_ok maptype smo d sm1 Hsz Hb (ex_intro _ sm2 E2)) as ([err sme] & Eb & [[H0 He]|(Hne & Hrd & es1 & es2 & Es & He)]); cbn [fst snd] in *;
  unfold space_map_load; fold sm0; rewrite (proj1 (space_empty sm0 Hok0)); cbn [Z.eqb verify]; rewrite bind_Ok, E1, bind_Ok, Eb, bind_Ok.
  - left. subst err. rewrite E2 in He. injection He as ->. exists sme. split; [done|]. cbn [Z.eqb]. destruct H2 as (l2 & Hok2 & Hf2 & Hz2 & _).
    assert (Hle : 0 <= sm_space sme <= sm_size sm).
    { rewrite (ok_space _ _ Hok2). destruct Hf2 as (_ & F2 & _). destruct (ok_geom _ _ Hok2) as (K1 & K2 & _). pose proof (canon_size _ _ _ _ (ok_canon _ _ Hok2) ltac:(lia)) as [_ Hc]. rewrite F2 in Hc. cbn in Hc. lia. }
    assert (Hver : (sm_space sme =? (if maptype =? SM_FREE then u64 (sm_size sm1 - smo_alloc smo) else smo_alloc smo)) = true).
    { apply Z.eqb_eq. destruct H1 as (l1 & _ & (_ & F2 & _) & _). change (sm_size sm0) with (sm_size sm) in F2. unfold shown_size in Hz2. change (sm_size sm0) with (sm_size sm) in Hz2. rewrite F2.
      assert (maptype = 0 \/ maptype = 1) as [->| ->] by lia; cbn in *; [done|]. rewrite Z.mod_small; lia. }
    rewrite Hver. cbn [verify]. rewrite bind_Ok. done.
  - right. rewrite (proj2 (Z.eqb_neq err 0)) by done. rewrite Es in Hlog. destruct (logged_prefix _ _ _ _ Hlog) as (A' & n' & Hlog').
    destruct (replay_ok sm0 maptype es1 A' n' sm1 Hm (proj1 HL) (proj1 G4) Hlog' H1) as (sm3 & E3 & (l3 & Hok3 & Hf3 & _)). rewrite <- Est, He in E3. injection E3 as ->.
    assert (Hpp3 : sm_pp_root sm3 = None) by (destruct Hf3 as (_ & _ & _ & _ & _ & _ & _ & Hc); unfold same_cmp in Hc; change (sm_pp_root sm0) with (sm_pp_root sm) in Hc; rewrite Hpp in Hc; by destruct (sm_pp_root sm3)).
    destruct (vacate_all sm3 l3 Hok3 Hpp3) as (t & Hem & ->). exists err, (with_loading (emptied sm3 t) false). split; [done|]. split; [done|]. split; [done|]. split; [by eapply sm_ok_same|].
    destruct Hf3 as (? & ? & ? & ? & ? & ? & ? & ?). by repeat split.
Qed.
End load.
End SpaceLoad.
