(* ===== verification/SpaceLogSpec.v ===== *)
(** The theorems about space maps on disk. *)

From S2P Require Import Prelude Avl OrdTree SpaceMap SpaceSet SpaceMapOk SpaceMapWalk SpaceMapRanges SpaceMapSpec SpaceLog SpaceSync SpaceLoad.
Import SpaceMap SpaceSet SpaceMapOk SpaceMapWalk SpaceMapRanges SpaceMapSpec SpaceLog SpaceEntry SpaceSync SpaceLoad.
Open Scope Z_scope.

Module SpaceLogSpec.
Section spec.
Context {T I O D : Type} {HT : Tree T I} {HK : Kmem} {HO : SpaceMapOps T O} {HD : Dmu D} {HTL : TreeLaws T I} {HKL : KmemLaws} {HDL : DmuLaws D}.
Implicit Types (sm : space_map T O) (smo : space_map_obj) (d : D).

Lemma logged_size sm l es A n : sm_ok sm l -> sm_start sm mod 2 ^ sm_shift sm = 0 -> logged (sm_start sm) (sm_size sm) (sm_shift sm) es A n -> 0 <= n < 2 ^ 64.
Proof using All.
  intros Hok Ha Hl. destruct (ok_geom _ _ Hok) as (G1 & G2 & G3 & G4). pose proof (space_map_create_ok (O := O) (sm_start sm) (sm_size sm) (sm_shift sm) G1 G2 G3 G4) as Hok0. set (sm0 := space_map_create _ _ _) in Hok0.
  destruct (replay_ok sm0 SM_ALLOC es A n sm0) as (sm' & _ & (l' & Hok' & (_ & F2 & _) & Hz & _)); [done|done|apply G4|done| |].
  - destruct (space_empty sm0 Hok0) as [E1 E2]. exists []. split; [done|]. split; [apply framed_refl|]. split; [done|]. intros x. split; [apply E2|done].
  - unfold shown_size in Hz. cbn in Hz. destruct (ok_geom _ _ Hok') as (K1 & K2 & K3 & _). pose proof (canon_size _ _ _ _ (ok_canon _ _ Hok') ltac:(lia)) as [_ Hc]. rewrite <- (ok_space _ _ Hok'), Hz in Hc. lia.
Qed.

(** What [space_map_sync] needs of a map and of the log it is appended to. *)
Record syncs sm (maptype : Z) smo d (A : Z -> Prop) : Prop := {
  sn_type : 0 <= maptype <= 1;
  sn_pp : sm_pp_root sm = None;
  sn_map : loggable sm;
  sn_sized : sized smo;
  sn_room : smo_objsize smo + (8 + sm_space sm) * 8 < 2 ^ 64;
  sn_log : logged (sm_start sm) (sm_size sm) (sm_shift sm) (log smo d) A (smo_alloc smo);
  sn_set : applies maptype A (space sm) }.

Lemma space_map_sync_log sm l maptype smo d pass txg A : sm_ok sm l -> syncs sm maptype smo d A ->
  exists sm' smo' d', space_map_sync sm maptype smo d pass txg = Ok (sm', smo', d') /\ sm_ok sm' [] /\ framed sm sm' /\ sized smo' /\ smo_object smo' = smo_object smo /\
    smo_objsize smo <= smo_objsize smo' <= smo_objsize smo + (8 + sm_space sm) * 8 /\ logged (sm_start sm) (sm_size sm) (sm_shift sm) (log smo' d') (applied maptype A (space sm)) (smo_alloc smo').
Proof using All.
  intros Hok [Hm Hpp HL Hsz Hr Hlog Hset]. destruct (ok_geom _ _ Hok) as (G1 & G2 & G3 & G4). destruct (Z.eq_dec (sm_space sm) 0) as [E0|E0].
  - pose proof (no_space sm l Hok E0) as ->. destruct (space_empty sm Hok) as [_ Hx]. exists sm, smo, d. unfold space_map_sync. rewrite E0. split; [done|]. split; [done|]. split; [apply framed_refl|].
    split; [done|]. split; [done|]. split; [lia|]. eapply logged_ext; [|exact Hlog]. intros x. unfold applied. specialize (Hx x). destruct (maptype =? SM_ALLOC); tauto.
  - destruct (space_map_sync_ok sm l maptype smo d pass txg Hok Hpp HL Hm Hsz Hr E0) as (t & smo' & d' & es & E & Hem & Hsz' & Ho & Hal & Hl & rs & Hst & Hsi & Hin).
    assert (H1 : logged (sm_start sm) (sm_size sm) (sm_shift sm) (log smo d ++ [debug_entry maptype pass txg]) A (smo_alloc smo)) by (constructor; [done|by rewrite debug_entry_debug]).
    pose proof (logged_stands _ _ _ maptype _ _ _ es rs (space sm) (sm_space sm) (proj1 G4) Hm H1 Hst Hsi Hin (fun x => space_inside sm l x Hok) Hset) as H2.
    pose proof (logged_size sm l _ _ _ Hok (proj1 HL) H2) as Hn. rewrite <- app_assoc in H2. cbn [app] in H2. rewrite <- Hl in H2.
    exists (emptied sm t), smo', d'. split; [done|]. split; [done|]. split; [by repeat split|]. split; [done|]. split; [done|]. split.
    + pose proof (zlen_log smo' d' Hsz') as L1. pose proof (zlen_log smo d Hsz) as L2. pose proof (st_len _ _ _ _ _ Hst) as L3. rewrite Hl, length_app in L1. cbn [length] in L1. destruct Hsz as [? ?], Hsz' as [? ?]. split; dlia.
    + rewrite Hal. destruct (maptype =? SM_ALLOC); by rewrite Z.mod_small.
Qed.

(** C18: [space_map_sync] of a well formed map onto a log: if the log leaves [A]
    allocated, with [smo_alloc] its size, and the map is disjoint from [A] (to
    allocate) or part of it (to free), then it returns, the map is left empty, and the
    new log, which extends the object, leaves the union or the difference allocated,
    with the new [smo_alloc] its size. *)
Theorem space_map_sync_correct sm l maptype smo d pass txg A : sm_ok sm l -> syncs sm maptype smo d A ->
  exists sm' smo' d', space_map_sync sm maptype smo d pass txg = Ok (sm', smo', d') /\ sm_ok sm' [] /\ framed sm sm' /\ sized smo' /\ smo_object smo' = smo_object smo /\
    smo_objsize smo <= smo_objsize smo' <= smo_objsize smo + (8 + sm_space sm) * 8 /\ logged (sm_start sm) (sm_size sm) (sm_shift sm) (log smo' d') (applied maptype A (space sm)) (smo_alloc smo').
Proof using All. by apply space_map_sync_log. Qed.

(** [space_map_load] of a log that leaves [A] allocated, into an empty map: either
    every read succeeds, and the map becomes [A] ([SM_ALLOC]) or its complement
    ([SM_FREE]) before the picker's [smop_load] runs on it; or some read fails, its
    error is returned, and the map is empty, well formed and neither loaded nor
    loading. *)
Theorem space_map_load_correct sm ops maptype smo d A : sm_ok sm [] -> sm_pp_root sm = None -> sm_loaded sm = false -> 0 <= maptype <= 1 -> loadable sm maptype ->
  sized smo -> smo_objsize smo + 4096 <= 2 ^ 64 -> logged (sm_start sm) (sm_size sm) (sm_shift sm) (log smo d) A (smo_alloc smo) ->
  (exists sm1, replayed (with_loading sm true) maptype A (smo_alloc smo) sm1 /\ space_map_load sm ops maptype smo d = finish ops sm1) \/
  (exists err sm1, err <> 0 /\ (exists off size, (dmu_read d (smo_object smo) off size).1 = err) /\ space_map_load sm ops maptype smo d = Ok (err, sm1) /\
    sm_ok sm1 [] /\ sm_loaded sm1 = false /\ sm_loading sm1 = false /\ forall x, ~ space sm1 x).
Proof using All.
  intros Hok Hpp Hld Hm HL Hsz Hb Hlog. destruct (space_map_load_ok sm ops maptype smo d A Hok Hpp Hm HL Hsz Hb Hlog) as [H|(err & sm1 & H1 & H2 & H3 & H4 & F)]; [by left|right].
  exists err, sm1. destruct F as (_ & _ & _ & F4 & F5 & _). split_and!; try done; [by rewrite F4|apply (space_empty sm1 H4)].
Qed.

(** C17: what is written is read back: a map synced onto a log and the log then loaded,
    with no read error, gives a loaded map with exactly the allocated set, or the free
    set, that the log and the map together describe. *)
Theorem sync_load_roundtrip sm l maptype smo d pass txg A sm0 maptype0 : sm_ok sm l -> syncs sm maptype smo d A ->
  sm_ok sm0 [] -> sm_pp_root sm0 = None -> alike sm sm0 -> 0 <= maptype0 <= 1 -> loadable sm0 maptype0 -> smo_objsize smo + (8 + sm_space sm) * 8 + 4096 <= 2 ^ 64 ->
  exists sm' smo' d', space_map_sync sm maptype smo d pass txg = Ok (sm', smo', d') /\
    ((forall off size, (dmu_read d' (smo_object smo) off size).1 = 0) ->
      exists sm1 l1, space_map_load sm0 None maptype0 smo' d' = Ok (0, sm1) /\ sm_ok sm1 l1 /\ sm_loaded sm1 = true /\ sm_loading sm1 = false /\
        forall x, space sm1 x <-> shown sm0 maptype0 (applied maptype A (space sm)) x).
Proof using All.
  intros Hok Hs Hok0 Hpp0 (A1 & A2 & A3) Hm0 HL0 Hr. destruct (space_map_sync_log sm l maptype smo d pass txg A Hok Hs) as (sm' & smo' & d' & E & _ & _ & Hsz & Ho & Hlen & Hlog).
  exists sm', smo', d'. split; [done|]. intros Hrd. assert (Hb : smo_objsize smo' + 4096 <= 2 ^ 64) by lia. rewrite <- A1, <- A2, <- A3 in Hlog.
  destruct (space_map_load_ok sm0 None maptype0 smo' d' _ Hok0 Hpp0 Hm0 HL0 Hsz Hb Hlog) as [(sm1 & (l1 & H1 & H2 & H3 & H4) & El)|(err & sm1 & H1 & (off & size & H2) & _)].
  - exists (with_loading (with_ops (with_loaded sm1 true) None) false), l1. split; [exact El|]. split; [by eapply sm_ok_same|]. done.
  - rewrite Ho, Hrd in H2. done.
Qed.
End spec.

(** ** Concrete logs *)

#[local] Existing Instance ex_kmem.
#[local] Existing Instance ex_kmem_laws.

(** Objects in memory, and no picker. *)
#[local] Instance ex_dmu : Dmu (Z -> Z -> Z) := {|
  dmu_read d o off size := (0, tab (Z.to_nat (size / 8)) (fun i => d o (off / 8 + Z.of_nat i)));
  dmu_write d o off size buf := fun o' i => if (o' =? o) && ((off / 8 <=? i) && (i <? off / 8 + size / 8)) then nth (Z.to_nat (i - off / 8)) buf 0 else d o' i;
  dmu_free_range d o off size := (0, fun o' i => if o' =? o then 0 else d o' i) |}.

#[local] Program Instance ex_dmu_laws : DmuLaws (Z -> Z -> Z) := { dmu_word d o i := d o i }.
Next Obligation. intros. cbn. by rewrite Z.eqb_refl. Qed.
Next Obligation. intros d o off size ws _ _ _ _ [= <-]. done. Qed.

#[local] Instance ex_ops : SpaceMapOps Avl.avl_tree unit := {|
  smop_load _ sm := Ok sm; smop_unload _ sm := Ok sm; smop_alloc _ sm _ := Ok (sm, 2 ^ 64 - 1); smop_claim _ sm _ _ := Ok sm; smop_free _ sm _ _ := Ok sm;
  smop_max _ _ := Ok 0; smop_fragmented _ _ := Ok true |}.

Definition ex_smo : space_map_obj := SpaceMapObj 7 0 0.
Definition ex_disk : Z -> Z -> Z := fun _ _ => 0.

(** The units 1 to 4 of an empty map, to be allocated in an empty log. *)
Lemma ex_syncs : exists (sm : space_map Avl.avl_tree unit) l, sm_ok sm l /\ alike ex_empty sm /\ (forall x, space sm x <-> inside 4608 2048 x) /\ sm_space sm <= 4096 /\ syncs sm SM_ALLOC ex_smo ex_disk (fun _ => False).
Proof.
  destruct ex_some as (sm & l & _ & Hok & (F1 & F2 & F3 & _ & _ & _ & _ & F8) & Hx). destruct (ok_geom _ _ Hok) as (G1 & G2 & _).
  pose proof (canon_size _ _ _ _ (ok_canon _ _ Hok) ltac:(lia)) as [_ Hc]. rewrite <- (ok_space _ _ Hok), F2 in Hc. change (sm_size ex_empty) with 4096 in Hc.
  exists sm, l. split; [exact Hok|]. split; [exact (conj F1 (conj F2 F3))|]. split; [exact Hx|]. split; [lia|]. constructor.
  - done.
  - unfold same_cmp in F8. destruct (sm_pp_root sm); [discriminate F8|reflexivity].
  - unfold loggable. rewrite F1, F3. split; [done|]. intros x Hxx. apply Hx in Hxx. change (sm_start ex_empty) with 4096. change (sm_shift ex_empty) with 9. lia.
  - done.
  - cbn. lia.
  - apply logged_nil. intros x [].
  - intros x _ [].
Qed.

Lemma space_map_sync_witness : exists (sm : space_map Avl.avl_tree unit) sm' smo' d', (forall x, space sm x <-> inside 4608 2048 x) /\ space_map_sync sm SM_ALLOC ex_smo ex_disk 1 5 = Ok (sm', smo', d') /\
  logged 4096 4096 9 (log smo' d') (applied SM_ALLOC (fun _ => False) (space sm)) (smo_alloc smo').
Proof.
  destruct ex_syncs as (sm & l & Hok & (F1 & F2 & F3) & Hx & _ & Hs). destruct (space_map_sync_correct sm l SM_ALLOC ex_smo ex_disk 1 5 (fun _ => False) Hok Hs) as (sm' & smo' & d' & E & _ & _ & _ & _ & _ & Hl).
  exists sm, sm', smo', d'. split; [exact Hx|]. split; [exact E|]. rewrite F1, F2, F3 in Hl. exact Hl.
Defined.

Lemma space_map_load_witness : exists sm1, replayed (with_loading ex_empty true) SM_FREE (fun _ => False) 0 sm1 /\ space_map_load ex_empty None SM_FREE ex_smo ex_disk = finish None sm1.
Proof.
  destruct (space_map_load_correct ex_empty None SM_FREE ex_smo ex_disk (fun _ => False) ex_empty_ok eq_refl eq_refl) as [H|(err & sm1 & H1 & (off & size & H2) & _)]; [done|done|done|done| |exact H|cbn in H2; congruence].
  apply logged_nil. intros x [].
Defined.

Lemma sync_load_witness : exists (sm : space_map Avl.avl_tree unit) sm' smo' d' sm1, (forall x, space sm x <-> inside 4608 2048 x) /\ space_map_sync sm SM_ALLOC ex_smo ex_disk 1 5 = Ok (sm', smo', d') /\
  space_map_load ex_empty None SM_ALLOC smo' d' = Ok (0, sm1) /\ forall x, space sm1 x <-> inside 4608 2048 x.
Proof.
  destruct ex_syncs as (sm & l & Hok & (F1 & F2 & F3) & Hx & Hle & Hs).
  destruct (sync_load_roundtrip sm l SM_ALLOC ex_smo ex_disk 1 5 (fun _ => False) ex_empty SM_ALLOC Hok Hs ex_empty_ok eq_refl (conj (eq_sym F1) (conj (eq_sym F2) (eq_sym F3)))) as (sm' & smo' & d' & E & H); [done|done|cbn; lia|].
  destruct H as (sm1 & l1 & E1 & _ & _ & _ & Hx1); [done|]. exists sm, sm', smo', d', sm1. split; [exact Hx|]. split; [exact E|]. split; [exact E1|].
  intros x. rewrite Hx1. unfold shown, applied. cbn [SM_ALLOC Z.eqb]. rewrite Hx. clear. tauto.
Defined.
End SpaceLogSpec.
