(* ===== verification/SpaceRef.v ===== *)
(** Space map reference trees (module/zfs/space_map.c): integers with reference
    counts, for unions and intersections of space maps. *)

From S2P Require Import Prelude Avl AvlSpec OrdTree SpaceMap SpaceSet SpaceMapOk SpaceMapWalk SpaceMapRanges.
Import SpaceMap SpaceSet SpaceMapOk SpaceMapCut SpaceMapWalk SpaceMapRanges.
Open Scope Z_scope.

Module SpaceRef.

(** 64-bit signed integers. *)
Definition s64 (x : Z) : Z := (x + 2 ^ 63) mod 2 ^ 64 - 2 ^ 63.

Record space_ref := SpaceRef { sr_offset : Z; sr_refcnt : Z }.

#[export] Instance space_ref_inhabited : Inhabited space_ref := populate (SpaceRef 0 0).

(** A tree, and the memory of its nodes. *)
Record ref_tree (T : Type) := RefTree { rt_root : T; rt_refs : gmap Z space_ref }.
Arguments RefTree {T}.
Arguments rt_root {T}.
Arguments rt_refs {T}.

(** The comparison of the nodes at two addresses: nodes with the same offset are
    ordered by address. *)
Definition space_map_ref_compare (h : gmap Z space_ref) (x1 x2 : Z) : Z :=
  if sr_offset (h !!! x1) <? sr_offset (h !!! x2) then -1
  else if sr_offset (h !!! x1) >? sr_offset (h !!! x2) then 1
  else if x1 <? x2 then -1
  else if x1 >? x2 then 1
  else 0.

Section ref.
Context {T I O : Type} {HT : Tree T I} {HK : Kmem}.
Implicit Types (sm : space_map T O) (t : ref_tree T).

Definition space_map_ref_create : ref_tree T := RefTree tr_create ∅.

Definition space_map_ref_destroy t : res (ref_tree T) :=
  '(r, h) ← tr_drain true (rt_root t) (fun p h => Ok (delete p h)) (rt_refs t);
  Ok (RefTree r h).

Definition space_map_ref_add_node t (offset refcnt : Z) : res (ref_tree T) :=
  let sr := kmem_alloc (dom (rt_refs t)) in
  let h := <[sr := SpaceRef offset refcnt]> (rt_refs t) in
  r ← tr_add (rt_root t) (space_map_ref_compare h) sr;
  Ok (RefTree r h).

Definition space_map_ref_add_seg t (start end_ refcnt : Z) : res (ref_tree T) :=
  t ← space_map_ref_add_node t start refcnt;
  space_map_ref_add_node t end_ (s64 (- refcnt)).

Definition space_map_ref_add_map t sm (refcnt : Z) : res (ref_tree T) :=
  tr_each (sm_root sm) (fun p t => s ← seg sm p; space_map_ref_add_seg t (ss_start s) (ss_end s) refcnt) t.

(** One node: [start], the references so far and the map. *)
Definition generate_step (h : gmap Z space_ref) (minref p : Z) (s : Z * Z * space_map T O) : res (Z * Z * space_map T O) :=
  let '(start, refcnt, sm) := s in
  sr ← match h !! p with Some sr => Ok sr | None => Fault FOob end;
  let refcnt := s64 (refcnt + sr_refcnt sr) in
  if minref <=? refcnt then Ok (if start =? 2 ^ 64 - 1 then sr_offset sr else start, refcnt, sm)
  else if negb (start =? 2 ^ 64 - 1) then
    sm ← (if sr_offset sr >? start then space_map_add sm start (u64 (sr_offset sr - start)) else Ok sm);
    Ok (2 ^ 64 - 1, refcnt, sm)
  else Ok (start, refcnt, sm).

Definition space_map_ref_generate_map t sm (minref : Z) : res (space_map T O) :=
  '(sm, _) ← space_map_vacate sm None tt;
  '(_, _, sm) ← tr_each (rt_root t) (generate_step (rt_refs t) minref) (2 ^ 64 - 1, 0, sm);
  Ok sm.
End ref.

(** ** Reference counts *)

(** The count that some nodes give to the integer [x]. *)
Definition refs (rs : list space_ref) (x : Z) : Z := foldr (fun r n => (if sr_offset r <=? x then sr_refcnt r else 0) + n) 0 rs.

(** The largest value that a sum of some of the counts can have. *)
Definition weight (rs : list space_ref) : Z := foldr (fun r n => Z.abs (sr_refcnt r) + n) 0 rs.

Lemma refs_cons r rs x : refs (r :: rs) x = (if sr_offset r <=? x then sr_refcnt r else 0) + refs rs x.
Proof. done. Qed.

Lemma refs_app rs rs' x : refs (rs ++ rs') x = refs rs x + refs rs' x.
Proof. induction rs as [|r rs IH]; [done|]. cbn [app]. rewrite !refs_cons. lia. Qed.

#[export] Instance refs_proper : Proper ((≡ₚ) ==> eq ==> eq) refs.
Proof. intros rs rs' H x y ->. induction H; rewrite ?refs_cons; lia. Qed.

Lemma refs_below rs x : Forall (fun r => x < sr_offset r) rs -> refs rs x = 0.
Proof. induction 1 as [|r rs H _ IH]; [done|]. by rewrite refs_cons, IH, (proj2 (Z.leb_gt _ _)). Qed.

Lemma refs_above rs x y : Forall (fun r => sr_offset r <= x) rs -> x <= y -> refs rs y = refs rs x.
Proof. intros H Hy. induction H as [|r rs H _ IH]; [done|]. rewrite !refs_cons, IH, !(proj2 (Z.leb_le _ _)) by lia. done. Qed.

#[export] Instance weight_proper : Proper ((≡ₚ) ==> eq) weight.
Proof. intros rs rs' H. induction H; cbn in *; unfold weight in *; lia. Qed.

Lemma weight_app rs rs' : weight (rs ++ rs') = weight rs + weight rs'.
Proof. induction rs as [|r rs IH]; cbn; [done|]. unfold weight in *. lia. Qed.

Lemma weight_nonneg rs : 0 <= weight rs.
Proof. induction rs as [|r rs IH]; cbn; [done|]. unfold weight in *. lia. Qed.

Lemma refs_weight rs x : Z.abs (refs rs x) <= weight rs.
Proof. induction rs as [|r rs IH]; [done|]. rewrite refs_cons. cbn. unfold weight in *. case_match; lia. Qed.

Lemma s64_small x : - 2 ^ 63 <= x < 2 ^ 63 -> s64 x = x.
Proof. intros H. unfold s64. rewrite Z.mod_small; lia. Qed.

#[export] Instance ref_compares h : AvlSpec.Compares (space_map_ref_compare h).
Proof. constructor; intros; unfold space_map_ref_compare in *; repeat case_match; zbool; lia. Qed.

(** ** Trees *)

Definition nodes (h : gmap Z space_ref) (l : list Z) : list space_ref := (fun p => h !!! p) <$> l.

Lemma nodes_ext h h' l : (forall p, p ∈ l -> h' !! p = h !! p) -> nodes h' l = nodes h l.
Proof. intros H. apply list_fmap_ext. intros i p Hp%list_elem_of_lookup_2. unfold lookup_total, map_lookup_total. by rewrite H. Qed.

Section ok.
Context {T I : Type} {HT : Tree T I} {HK : Kmem} {HTL : TreeLaws T I} {HKL : KmemLaws}.
Implicit Types (t : ref_tree T).

Record ref_ok t (l : list Z) : Prop := {
  ro_seq : tr_seq (rt_root t) l;
  ro_dom : dom (rt_refs t) = list_to_set l;
  ro_sorted : AvlSpec.sorted (space_map_ref_compare (rt_refs t)) l }.

(** The tree holds the nodes [rs], in some order. *)
Definition holds t (rs : list space_ref) : Prop := exists l, ref_ok t l /\ nodes (rt_refs t) l ≡ₚ rs.

Lemma holds_create : holds space_map_ref_create [].
Proof using HTL HKL. exists []. split; [|done]. constructor; cbn; [apply tr_create_ok|apply dom_empty_L|constructor]. Qed.

Lemma add_node_ok t rs offset refcnt : holds t rs -> zlen rs + 1 < 2 ^ 64 -> exists t', space_map_ref_add_node t offset refcnt = Ok t' /\ holds t' (SpaceRef offset refcnt :: rs).
Proof using All.
  intros (l & [Hs Hd Ho] & Hl) Hr. unfold space_map_ref_add_node. destruct (kmem_alloc_fresh (dom (rt_refs t))) as [Hn Hf]. set (p := kmem_alloc _) in *. set (h := <[p := _]> (rt_refs t)).
  assert (Hpl : p ∉ l) by (rewrite Hd in Hf; set_solver). assert (Hext : forall q, q ∈ l -> h !! q = rt_refs t !! q) by (intros q Hq; apply lookup_insert_ne; by intros ->).
  assert (Ho' : AvlSpec.sorted (space_map_ref_compare h) l).
  { unfold AvlSpec.sorted in *. clear -Ho Hext. induction Ho as [|a l Ho IH HF]; constructor; [apply IH; set_solver|]. apply Forall_forall. intros b Hb. rewrite Forall_forall in HF. specialize (HF b Hb).
    unfold space_map_ref_compare in *. unfold lookup_total, map_lookup_total in *. rewrite !Hext by set_solver. done. }
  destruct (tr_add_ok (rt_root t) l (space_map_ref_compare h) p Hs) as (r & lo & hi & -> & -> & Hlo & Hhi & Hs'); [exact (AvlSpec.sorted_sifts (space_map_ref_compare h) p l Ho')| |done|done| |].
  - apply Forall_forall. intros q Hq. assert (p <> q) by (by intros ->). unfold space_map_ref_compare. repeat case_match; zbool; lia.
  - unfold room. apply Permutation_length in Hl. unfold nodes in Hl. rewrite length_fmap in Hl. lia.
  - cbn [mbind res_bind]. eexists. split; [done|]. exists (lo ++ p :: hi). split.
    + constructor; cbn; [done| |exact (AvlSpec.sorted_insert (space_map_ref_compare h) p lo hi Ho' Hlo Hhi)]. unfold h. rewrite dom_insert_L, Hd. set_solver.
    + cbn. unfold nodes. rewrite <- Permutation_middle, fmap_cons. unfold h at 1. rewrite lookup_total_insert_eq. apply perm_skip. fold (nodes h (lo ++ hi)). by rewrite (nodes_ext (rt_refs t)).
Qed.

Lemma add_seg_ok t rs start end_ refcnt : holds t rs -> zlen rs + 2 < 2 ^ 64 -> - 2 ^ 63 < refcnt < 2 ^ 63 ->
  exists t', space_map_ref_add_seg t start end_ refcnt = Ok t' /\ holds t' (SpaceRef end_ (- refcnt) :: SpaceRef start refcnt :: rs).
Proof using All.
  intros Hh Hr Hc. unfold space_map_ref_add_seg. destruct (add_node_ok t rs start refcnt Hh ltac:(lia)) as (t1 & -> & Hh1). cbn [mbind res_bind]. rewrite s64_small by lia. apply add_node_ok; [done|cbn; lia].
Qed.

Lemma space_map_ref_destroy_ok t rs : holds t rs -> exists t', space_map_ref_destroy t = Ok t' /\ holds t' [] /\ rt_refs t' = ∅.
Proof using All.
  intros (l & [Hs Hd Ho] & Hl). unfold space_map_ref_destroy. match goal with |- context [tr_drain true _ ?f ?s] => destruct (tr_drain_ok true (rt_root t) l f s Hs) as (todo & r & Hp & Hs' & ->) end.
  assert (Hdt : dom (rt_refs t) = list_to_set todo) by (rewrite Hd; apply set_eq; intros q; by rewrite !elem_of_list_to_set, Hp).
  assert (Gen : forall todo h, dom h = list_to_set todo -> NoDup todo -> each (fun p (h : gmap Z space_ref) => Ok (delete p h)) todo h = Ok ∅).
  { clear. induction todo as [|p todo IH]; intros h Hd Hn; cbn; [f_equal; by apply dom_empty_inv_L|]. apply NoDup_cons in Hn as [Hp Hn]. apply IH; [|done]. rewrite dom_delete_L, Hd. set_solver. }
  rewrite (Gen todo) by (done || (rewrite Hp; by destruct (tr_seq_facts _ _ Hs))). cbn. eexists. split; [done|]. split; [|done]. exists []. split; [|done]. constructor; cbn; [done|apply dom_empty_L|constructor].
Qed.
End ok.
End SpaceRef.
