(* ===== verification/SpaceRefOk.v ===== *)
(** What a space map reference tree counts, and the map generated from it. *)

From S2P Require Import Prelude Avl AvlSpec OrdTree SpaceMap SpaceSet SpaceMapOk SpaceMapWalk SpaceMapRanges SpaceMapSpec SpaceRef.
Import SpaceMap SpaceSet SpaceMapOk SpaceMapCut SpaceMapWalk SpaceMapRanges SpaceMapSpec SpaceRef.
Open Scope Z_scope.

Module SpaceRefOk.

(** ** Maps into a tree *)

(** The nodes for some segments. *)
Definition edges (c : Z) (ss : list space_seg) : list space_ref := concat ((fun s => [SpaceRef (ss_end s) (- c); SpaceRef (ss_start s) c]) <$> ss).

Lemma edges_cons c s ss : edges c (s :: ss) = SpaceRef (ss_end s) (- c) :: SpaceRef (ss_start s) c :: edges c ss.
Proof. done. Qed.

Lemma edges_refs lo hi u c ss x : canon lo hi u ss -> (covers ss x -> refs (edges c ss) x = c) /\ (~ covers ss x -> refs (edges c ss) x = 0).
Proof.
  induction ss as [|s ss IH]; intros Hc; [split; [intros (s & Hs & _); set_solver|done]|]. apply canon_cons in Hc as ((_ & Hp & _) & Hc & Hlt). destruct (IH Hc) as [IH1 IH2]. rewrite edges_cons, !refs_cons, covers_cons. cbn [sr_offset sr_refcnt].
  assert (Hd : within s x -> ~ covers ss x) by (intros Hx (y & Hy & Hyx); specialize (Hlt y Hy); lia).
  destruct (Z.leb_spec (ss_end s) x), (Z.leb_spec (ss_start s) x); split; intros H'; try lia.
  - destruct H' as [?|H']; [lia|]. rewrite IH1 by done. lia.
  - rewrite IH2 by tauto. lia.
  - rewrite IH2 by (apply Hd; lia). lia.
  - destruct H' as [?|H']; [lia|]. rewrite IH1 by done. lia.
  - rewrite IH2 by tauto. lia.
Qed.

Lemma edges_weight c ss : weight (edges c ss) = 2 * Z.abs c * zlen ss.
Proof. induction ss as [|s ss IH]; [cbn; lia|]. rewrite edges_cons. change (weight (?a :: ?b :: ?l)) with (Z.abs (sr_refcnt a) + (Z.abs (sr_refcnt b) + weight l)). rewrite IH. cbn. lia. Qed.

Lemma edges_length c ss : length (edges c ss) = (2 * length ss)%nat.
Proof. induction ss as [|s ss IH]; [done|]. rewrite edges_cons. cbn [length]. rewrite IH. lia. Qed.

(** An offset of a node that makes sense for a map. *)
Definition edge_ok (lo hi u : Z) (r : space_ref) : Prop := lo <= sr_offset r <= hi /\ sr_offset r mod u = 0.

Lemma edges_ok lo hi u c ss : canon lo hi u ss -> Forall (edge_ok lo hi u) (edges c ss).
Proof.
  induction ss as [|s ss IH]; intros Hc; [constructor|]. apply canon_cons in Hc as ((P1 & P2 & P3 & P4 & P5) & Hc & _). rewrite edges_cons. repeat constructor; cbn; try lia; try done. by apply IH.
Qed.

Section ok.
Context {T I O : Type} {HT : Tree T I} {HK : Kmem} {HTL : TreeLaws T I} {HKL : KmemLaws}.
Implicit Types (sm : space_map T O) (t : ref_tree T).

Lemma holds_perm t rs rs' : rs ≡ₚ rs' -> SpaceRef.holds t rs -> SpaceRef.holds t rs'.
Proof. intros Hp (l & H & Hl). exists l. split; [done|]. by rewrite Hl. Qed.

Lemma add_map_ok sm l t rs c : sm_ok sm l -> SpaceRef.holds t rs -> zlen rs + 2 * zlen l + 1 < 2 ^ 64 -> - 2 ^ 63 < c < 2 ^ 63 ->
  exists t', space_map_ref_add_map t sm c = Ok t' /\ SpaceRef.holds t' (edges c (looks (sm_segs sm) l) ++ rs).
Proof using All.
  intros Hok Hh Hr Hc. unfold space_map_ref_add_map. rewrite (tr_each_ok _ l) by apply Hok.
  assert (Hl : forall p, p ∈ l -> seg sm p = Ok (sm_segs sm !!! p)) by (intros p Hp; by apply (seg_ok sm l); [apply Hok|]). clear Hok.
  revert t rs Hh Hr. induction l as [|p l IH]; intros t rs Hh Hr; [by exists t|]. rewrite each_cons, Hl by set_solver. cbn [mbind res_bind length] in *.
  destruct (add_seg_ok t rs (ss_start (sm_segs sm !!! p)) (ss_end (sm_segs sm !!! p)) c Hh ltac:(lia) Hc) as (t1 & -> & Hh1). cbn [mbind res_bind].
  destruct (IH ltac:(set_solver) t1 _ Hh1) as (t2 & E & Hh2); [cbn [length]; lia|]. exists t2. split; [exact E|]. eapply holds_perm; [|exact Hh2]. rewrite looks_cons, edges_cons. cbn [app]. by rewrite <- !Permutation_middle.
Qed.

(** ** A map from a tree *)

(** Offsets in order. *)
Definition ordered (rs : list space_ref) : Prop := StronglySorted (fun a b => sr_offset a <= sr_offset b) rs.

Lemma nodes_ordered h l : AvlSpec.sorted (space_map_ref_compare h) l -> ordered (nodes h l).
Proof.
  unfold AvlSpec.sorted, ordered. induction 1 as [|a l Hs IH HF]; [constructor|]. cbn. constructor; [done|]. apply Forall_fmap. eapply Forall_impl; [exact HF|].
  intros b. cbn. unfold space_map_ref_compare. repeat case_match; zbool; lia.
Qed.

(** [generate_step] for the node itself. *)
Definition gen_node (minref : Z) (r : space_ref) (s : Z * Z * space_map T O) : res (Z * Z * space_map T O) := generate_step {[0 := r]} minref 0 s.

Lemma gen_nodes h minref l s : (forall p, p ∈ l -> is_Some (h !! p)) -> each (generate_step h minref) l s = each (gen_node minref) (nodes h l) s.
Proof.
  intros Hd. revert s. induction l as [|p l IH]; intros s; [done|]. cbn [nodes fmap list_fmap]. rewrite !each_cons.
  assert (E : generate_step h minref p s = gen_node minref (h !!! p) s).
  { unfold gen_node, generate_step. rewrite lookup_singleton_eq. destruct (Hd p ltac:(set_solver)) as [r Er]. by rewrite (lookup_total_correct _ _ _ Er), Er. }
  rewrite E. destruct (gen_node _ _ s); [|done]. apply IH. set_solver.
Qed.

(** What is in the map at [lim] when [n] references hold there: an open segment from [start], or none. *)
Definition settled sm0 (minref lim : Z) (done : list space_ref) (n start : Z) (sm : space_map T O) : Prop :=
  if minref <=? n then
    sm_start sm0 <= start <= lim /\ start mod 2 ^ sm_shift sm0 = 0 /\ (forall x, start <= x < lim -> minref <= refs done x) /\
    forall x, space sm x <-> x < start /\ minref <= refs done x
  else start = 2 ^ 64 - 1 /\ forall x, space sm x <-> x < lim /\ minref <= refs done x.

(** The state of the walk over the tree after the nodes [done], all at or before [lim]. *)
Definition walked sm0 (minref lim : Z) (done : list space_ref) (s : Z * Z * space_map T O) : Prop :=
  let '(start, refcnt, sm) := s in
  refcnt = refs done lim /\ Forall (fun r => sr_offset r <= lim) done /\ sm_start sm0 <= lim <= sm_start sm0 + sm_size sm0 /\ lim mod 2 ^ sm_shift sm0 = 0 /\
  (exists l, sm_ok sm l) /\ framed sm0 sm /\ settled sm0 minref lim done refcnt start sm.

Lemma refs_before dn r x : x < sr_offset r -> refs (dn ++ [r]) x = refs dn x.
Proof. intros Hx. rewrite refs_app, refs_cons, (proj2 (Z.leb_gt _ _)) by done. cbn. lia. Qed.

Lemma refs_snoc dn r lim x : Forall (fun r => sr_offset r <= lim) dn -> lim <= sr_offset r <= x -> refs (dn ++ [r]) x = refs dn lim + sr_refcnt r.
Proof. intros HF Hx. rewrite refs_app, refs_cons, (proj2 (Z.leb_le _ _)), (refs_above dn lim x) by (done || lia). cbn. lia. Qed.

(** A node ends the stretch before it: what is settled there without it stays so with it. *)
Lemma walked_snoc sm0 minref lim dn r n start sm : Forall (fun r => sr_offset r <= lim) dn -> lim <= sr_offset r ->
  edge_ok (sm_start sm0) (sm_start sm0 + sm_size sm0) (2 ^ sm_shift sm0) r -> n = refs dn lim + sr_refcnt r ->
  (exists l, sm_ok sm l) -> framed sm0 sm -> settled sm0 minref (sr_offset r) dn n start sm -> walked sm0 minref (sr_offset r) (dn ++ [r]) (start, n, sm).
Proof.
  intros HF Hle [[E1 E2] E3] En Hok Hf H. unfold walked. rewrite (refs_snoc dn r lim) by (done || lia).
  assert (HF' : Forall (fun r' => sr_offset r' <= sr_offset r) (dn ++ [r])) by (apply Forall_app; split; [eapply Forall_impl; [exact HF|]; cbn; lia|by constructor]).
  do 6 (split; [done || lia|]). unfold settled in *. destruct (minref <=? n).
  - destruct H as (H1 & H2 & H3 & H4). do 2 (split; [done|]). split; [intros x Hx; rewrite refs_before by lia; by apply H3|].
    intros x. rewrite H4. split; intros [? H]; (split; [done|]); [rewrite refs_before by lia|rewrite refs_before in H by lia]; done.
  - destruct H as (H1 & H4). split; [done|]. intros x. rewrite H4.
    split; intros [? H]; (split; [done|]); [rewrite refs_before by lia|rewrite refs_before in H by lia]; done.
Qed.

Lemma gen_step sm0 minref lim done s r : sm_start sm0 + sm_size sm0 < 2 ^ 64 -> 0 <= sm_start sm0 -> walked sm0 minref lim done s -> weight (done ++ [r]) < 2 ^ 63 ->
  edge_ok (sm_start sm0) (sm_start sm0 + sm_size sm0) (2 ^ sm_shift sm0) r -> lim <= sr_offset r ->
  exists s', gen_node minref r s = Ok s' /\ walked sm0 minref (sr_offset r) (done ++ [r]) s'.
Proof using All.
  destruct s as [[start refcnt] sm]. intros Hg Hg0 (Er & HF & Hlim & Hla & (l & Hok) & Hf & Hc) Hw He Hle. unfold gen_node, generate_step. rewrite lookup_singleton_eq. cbn [mbind res_bind].
  assert (Hmid : forall x, lim <= x -> refs done x = refcnt) by (intros x Hx; rewrite Er; by apply refs_above).
  pose proof (refs_weight (done ++ [r]) (sr_offset r)) as Hbw. rewrite (refs_snoc done r lim), <- Er in Hbw by (done || lia). rewrite s64_small by lia.
  pose proof (fun start' sm' => walked_snoc sm0 minref lim done r (refcnt + sr_refcnt r) start' sm' HF Hle He ltac:(by rewrite Er)) as W.
  destruct He as [[E1 E2] E3]. set (o := sr_offset r) in *. unfold settled in *.
  destruct (Z.leb_spec minref refcnt) as [Hold|Hold].
  - destruct Hc as (S1 & S2 & S3 & S4). assert (Hs : forall x, start <= x < o -> minref <= refs done x) by (intros x Hx; destruct (Z.lt_ge_cases x lim); [apply S3; lia|by rewrite Hmid]).
    destruct (Z.eqb_spec start (2 ^ 64 - 1)) as [Emax|_].
    { assert (o = start) as Eo by lia. rewrite Eo in *. destruct (Z.leb_spec minref (refcnt + sr_refcnt r)) as [Hnew|Hnew]; cbn [negb]; eexists; (split; [done|]); (apply W; [by exists l|done|]); [|done].
      split; [lia|]. split; [done|]. split; [intros x ?; lia|done]. }
    cbn [negb]. destruct (Z.leb_spec minref (refcnt + sr_refcnt r)) as [Hnew|Hnew].
    + eexists. split; [done|]. apply W; [by exists l|done|]. split_and!; try done; lia.
    + destruct (Z.gtb_spec o start) as [Hgt|Hgt].
      * rewrite Z.mod_small by lia. destruct (space_map_add_ok sm l start (o - start) Hok) as (sm' & l' & -> & Hok' & Hf' & _ & Hx').
        { eapply fits_framed; [exact Hf|]. split_and!; try done; [lia..|]. by rewrite Zminus_mod, E3, S2. }
        { intros x Hx [? _]%S4. lia. }
        cbn [mbind res_bind]. eexists. split; [done|]. apply W; [by exists l'|by eapply framed_trans|]. split; [done|]. intros x. rewrite Hx', S4. split; [|intros [? ?]; destruct (Z.lt_ge_cases x start); [by left|right; lia]].
        intros [[? ?]|?]; [split; [lia|done]|]. split; [lia|]. apply Hs. lia.
      * cbn [mbind res_bind]. eexists. split; [done|]. apply W; [by exists l|done|]. split; [done|]. assert (o = start) as -> by lia. done.
  - destruct Hc as (-> & S4). assert (Hx : forall x, space sm x <-> x < o /\ minref <= refs done x).
    { intros x. rewrite S4. split; intros [? ?]; (split; [|done]); [lia|]. destruct (Z.lt_ge_cases x lim) as [?|Hx]; [done|]. rewrite Hmid in * by done. lia. }
    rewrite Z.eqb_refl. cbn [negb]. destruct (Z.leb_spec minref (refcnt + sr_refcnt r)) as [Hnew|Hnew]; eexists; (split; [done|]); (apply W; [by exists l|done|]).
    + split; [lia|]. split; [done|]. split; [intros x ?; lia|done].
    + done.
Qed.

Lemma gen_all sm0 minref : sm_start sm0 + sm_size sm0 < 2 ^ 64 -> 0 <= sm_start sm0 -> forall todo done lim s, walked sm0 minref lim done s -> weight (done ++ todo) < 2 ^ 63 ->
  ordered todo -> Forall (edge_ok (sm_start sm0) (sm_start sm0 + sm_size sm0) (2 ^ sm_shift sm0)) todo -> Forall (fun r => lim <= sr_offset r) todo ->
  exists lim' s', each (gen_node minref) todo s = Ok s' /\ walked sm0 minref lim' (done ++ todo) s'.
Proof using All.
  intros Hg Hg0. induction todo as [|r todo IH]; intros dn lim s Hs Hw Ho He Hl; [exists lim, s; by rewrite app_nil_r|].
  apply StronglySorted_inv in Ho as [Ho Hr]. apply Forall_cons in He as [Her He]. apply Forall_cons in Hl as [Hlr _]. change (r :: todo) with ([r] ++ todo) in *. rewrite app_assoc in *.
  destruct (gen_step sm0 minref lim dn s r Hg Hg0 Hs) as (s1 & E1 & H1); [rewrite weight_app in Hw; pose proof (weight_nonneg todo); lia|done|done|].
  destruct (IH (dn ++ [r]) (sr_offset r) s1 H1 Hw Ho He Hr) as (lim' & s' & E & H'). exists lim', s'. split; [|done]. cbn [app]. by rewrite each_cons, E1.
Qed.

Lemma generate_map_ok t rs sm l minref : SpaceRef.holds t rs -> sm_ok sm l -> sm_pp_root sm = None -> sm_start sm mod 2 ^ sm_shift sm = 0 ->
  Forall (edge_ok (sm_start sm) (sm_start sm + sm_size sm) (2 ^ sm_shift sm)) rs -> weight rs < 2 ^ 63 -> 1 <= minref -> (forall x, sm_start sm + sm_size sm <= x -> refs rs x < minref) ->
  exists sm' l', space_map_ref_generate_map t sm minref = Ok sm' /\ sm_ok sm' l' /\ framed sm sm' /\ forall x, space sm' x <-> minref <= refs rs x.
Proof using All.
  intros (lt & [Hs Hd Ho] & Hl) Hok Hpp Ha He Hw Hm Hend. destruct (ok_geom _ _ Hok) as (G1 & G2 & Hg & _). unfold space_map_ref_generate_map.
  destruct (space_map_vacate_ok sm l (None : option (unit -> Z -> Z -> res unit)) tt Hok Hpp) as (todo & t0 & _ & Hem & ->).
  assert (E : each (apply_seg (default (fun m _ _ => Ok m) None) (sm_segs sm)) todo tt = Ok tt) by (clear; induction todo as [|p todo IH]; [done|]; by rewrite each_cons). rewrite E. cbn [mbind res_bind]. clear E.
  rewrite (tr_each_ok _ lt) by done. rewrite gen_nodes by (intros p Hp; apply elem_of_dom; rewrite Hd; set_solver).
  destruct (gen_all sm minref Hg G1 (nodes (rt_refs t) lt) [] (sm_start sm) (2 ^ 64 - 1, 0, emptied sm t0)) as (lim & [[start refcnt] sm'] & E & H).
  - cbn. do 2 (split; [done|]). split; [lia|]. split; [done|]. split; [by exists []|]. split; [by repeat split|]. unfold settled. rewrite (proj2 (Z.leb_gt _ _)) by lia. cbn. split; [done|].
    intros x. split; [|lia]. intros (p & s & Hp & _). cbn in Hp. by rewrite lookup_empty in Hp.
  - cbn [app]. by rewrite Hl.
  - by apply nodes_ordered.
  - by rewrite Hl.
  - rewrite Hl. eapply Forall_impl; [exact He|]. intros r [? _]. lia.
  - cbn [app] in H. destruct H as (Er & HF & Hlim & _ & (l' & Hok') & Hf' & Hc). rewrite E. cbn. exists sm', l'. split; [done|]. split; [done|]. split; [done|].
    assert (Hlast : refcnt < minref) by (rewrite Er, <- (refs_above _ lim (sm_start sm + sm_size sm) HF) by lia; rewrite Hl; apply Hend; lia).
    unfold settled in Hc. rewrite (proj2 (Z.leb_gt _ _)) in Hc by done. destruct Hc as [_ Hc]. intros x. rewrite Hc, <- Hl. split; [tauto|]. intros Hx. split; [|done].
    destruct (Z.lt_ge_cases x lim) as [?|Hx']; [done|]. rewrite (refs_above _ lim x HF) in Hx by done. lia.
Qed.
End ok.
End SpaceRefOk.
