(* ===== verification/Metaslab.v ===== *)
(** The block allocators of metaslabs (module/zfs/metaslab.c): the pickers that choose
    free space in a space map, and the vectors of their operations. *)

From S2P Require Import Prelude OrdTree SpaceMap SpaceLog.
Import SpaceMap SpaceLog.
Open Scope Z_scope.

Module Metaslab.

(** ** Tunables and bits *)

Definition SPA_MAXBLOCKSHIFT : Z := 17.
Definition SPA_MAXBLOCKSIZE : Z := Z.shiftl 1 SPA_MAXBLOCKSHIFT.
Definition metaslab_df_alloc_threshold : Z := SPA_MAXBLOCKSIZE.
Definition metaslab_df_free_pct : Z := 4.
Definition metaslab_min_alloc_size : Z := Z.shiftl 10 20.
Definition metaslab_ndf_clump_shift : Z := 4.

(** One test of [highbit]: the half of the word that holds the highest bit. *)
Definition highbit_half (mask by_ : Z) (s : Z * Z) : Z * Z :=
  let '(h, i) := s in if negb (Z.land i mask =? 0) then (h + by_, Z.shiftr i by_) else (h, i).

Definition highbit (i : Z) : Z :=
  if i =? 0 then 0
  else
    let s := highbit_half 0xffffffff00000000 32 (1, i) in
    let s := highbit_half 0xffff0000 16 s in
    let s := highbit_half 0xff00 8 s in
    let s := highbit_half 0xf0 4 s in
    let '(h, i) := highbit_half 0xc 2 s in
    if negb (Z.land i 0x2 =? 0) then h + 1 else h.

(** Conversion to a 32-bit signed integer. *)
Definition int32 (x : Z) : Z := (x + 2 ^ 31) mod 2 ^ 32 - 2 ^ 31.

Definition metaslab_segsize_compare (s1 s2 : space_seg) : Z :=
  let ss_size1 := u64 (ss_end s1 - ss_start s1) in
  let ss_size2 := u64 (ss_end s2 - ss_start s2) in
  if ss_size1 <? ss_size2 then -1
  else if ss_size1 >? ss_size2 then 1
  else if ss_start s1 <? ss_start s2 then -1
  else if ss_start s1 >? ss_start s2 then 1
  else 0.

(** The vectors of operations. *)
Inductive metaslab_ops := metaslab_ff_ops | metaslab_df_ops | metaslab_cdf_ops | metaslab_ndf_ops.

Definition zfs_metaslab_ops : metaslab_ops := metaslab_df_ops.

Section metaslab.
Context {T I O : Type} {HT : Tree T I}.
Implicit Types (sm : space_map T O) (h : gmap Z space_seg).

(** ** Picking *)

Definition seg_at h (p : Z) : res space_seg := match h !! p with Some s => Ok s | None => Fault FOob end.

(** The search of a tree from a cursor on: the offset found, if any. *)
Definition picker_scan (t : T) (compar : space_seg -> space_seg -> Z) h (cursor size align : Z) : res (option Z) :=
  let ssearch := SpaceSeg cursor (u64 (cursor + size)) in
  '(ss, where_) ← tr_find t (fun q => compar ssearch (h !!! q));
  ss ← (if ss =? NULL then tr_nearest t where_ AVL_AFTER else Ok ss);
  loop (tr_fuel t) (fun ss =>
    if ss =? NULL then Ok (inr None)
    else
      s ← seg_at h ss;
      let offset := P2ROUNDUP (ss_start s) align in
      if u64 (offset + size) <=? ss_end s then Ok (inr (Some offset))
      else ss ← tr_walk t ss AVL_AFTER; Ok (inl ss)) ss.

(** The new cursor and the offset. *)
Fixpoint metaslab_block_picker (fuel : nat) (t : T) (compar : space_seg -> space_seg -> Z) h (cursor size align : Z) : res (Z * Z) :=
  match fuel with
  | 0%nat => Fault FFuel
  | S fuel =>
      r ← picker_scan t compar h cursor size align;
      match r with
      | Some offset => Ok (u64 (offset + size), offset)
      | None => if cursor =? 0 then Ok (cursor, 2 ^ 64 - 1) else metaslab_block_picker fuel t compar h 0 size align
      end
  end.

(** The cursors in the picker's private data. *)
Definition cursor_at sm (i : Z) : res Z := match sm_ppd sm with Some d => rd d i | None => Fault FOob end.
Definition set_cursor sm (i v : Z) : res (space_map T O) :=
  match sm_ppd sm with Some d => d ← wr d i v; Ok (with_ppd sm (Some d)) | None => Fault FOob end.

(** Pick in one of the map's trees, with the cursor [i]. *)
Definition pick_root sm (i size align : Z) : res (space_map T O * Z) :=
  cursor ← cursor_at sm i;
  '(cursor, offset) ← metaslab_block_picker 2 (sm_root sm) space_map_seg_compare (sm_segs sm) cursor size align;
  sm ← set_cursor sm i cursor;
  Ok (sm, offset).
Definition pick_pp sm (i size align : Z) : res (space_map T O * Z) :=
  match sm_pp_root sm with
  | None => Fault FOob
  | Some pp =>
      cursor ← cursor_at sm i;
      '(cursor, offset) ← metaslab_block_picker 2 (pp_root pp) (pp_compar pp) (sm_segs sm) cursor size align;
      sm ← set_cursor sm i cursor;
      Ok (sm, offset)
  end.

(** ** Common operations *)

Definition metaslab_pp_load sm : res (space_map T O) :=
  let sm := with_ppd sm (Some (replicate 64 0)) in
  let sm := with_pp sm (Some (PpTree tr_create metaslab_segsize_compare)) in
  tr_each (sm_root sm) (fun p sm => pp_add sm p) sm.

Definition metaslab_pp_unload sm : res (space_map T O) :=
  match sm_ppd sm, sm_pp_root sm with
  | Some _, Some pp => _ ← tr_drain false (pp_root pp) (fun _ u => Ok u) tt; Ok (with_pp (with_ppd sm None) None)
  | _, _ => Fault FOob
  end.

Definition metaslab_pp_claim sm (start size : Z) : space_map T O := sm.
Definition metaslab_pp_free sm (start size : Z) : space_map T O := sm.

Definition metaslab_pp_maxsize sm : res Z :=
  match sm_pp_root sm with
  | None => Ok 0
  | Some pp =>
      ss ← tr_last (pp_root pp);
      if ss =? NULL then Ok 0 else s ← seg_at (sm_segs sm) ss; Ok (u64 (ss_end s - ss_start s))
  end.

Definition free_pct sm : res Z := if sm_size sm =? 0 then Fault FPanic else Ok (int32 (u64 (sm_space sm * 100) / sm_size sm)).

(** ** First fit *)

Definition metaslab_ff_alloc sm (size : Z) : res (space_map T O * Z) :=
  let align := Z.land size (u64 (- size)) in
  pick_root sm (highbit align - 1) size align.

Definition metaslab_ff_fragmented sm : res bool := Ok true.

(** ** Dynamic fit *)

Definition metaslab_df_alloc sm (size : Z) : res (space_map T O * Z) :=
  let align := Z.land size (u64 (- size)) in
  let cursor := highbit align - 1 in
  max_size ← metaslab_pp_maxsize sm;
  free_pct ← free_pct sm;
  if max_size <? size then Ok (sm, 2 ^ 64 - 1)
  else if (max_size <? metaslab_df_alloc_threshold) || (free_pct <? metaslab_df_free_pct) then
    sm ← set_cursor sm cursor 0;
    pick_pp sm cursor size 1
  else pick_root sm cursor size 1.

Definition metaslab_df_fragmented sm : res bool :=
  max_size ← metaslab_pp_maxsize sm;
  free_pct ← free_pct sm;
  Ok (negb ((metaslab_df_alloc_threshold <=? max_size) && (metaslab_df_free_pct <=? free_pct))).

(** ** Cursor fit *)

Definition metaslab_cdf_alloc sm (size : Z) : res (space_map T O * Z) :=
  max_size ← metaslab_pp_maxsize sm;
  if max_size <? size then Ok (sm, 2 ^ 64 - 1)
  else
    cursor ← cursor_at sm 0;
    extent_end ← cursor_at sm 1;
    if u64 (cursor + size) >? extent_end then
      sm ← set_cursor sm 1 0;
      sm ← set_cursor sm 0 0;
      let rsize := if max_size >? 2 * SPA_MAXBLOCKSIZE then Z.min metaslab_min_alloc_size max_size else size in
      '(sm, offset) ← pick_pp sm 1 rsize 1;
      sm ← (if negb (offset =? 2 ^ 64 - 1) then set_cursor sm 0 (u64 (offset + size)) else Ok sm);
      Ok (sm, offset)
    else pick_root sm 0 size 1.

Definition metaslab_cdf_fragmented sm : res bool :=
  max_size ← metaslab_pp_maxsize sm; Ok (negb (max_size >? metaslab_min_alloc_size * 10)).

(** ** New dynamic fit *)

(** The search of the tree by size. *)
Definition ndf_search sm (hbit max_size : Z) : res Z :=
  match sm_pp_root sm with
  | None => Fault FOob
  | Some pp =>
      let ssearch := SpaceSeg 0 (Z.min max_size (u64 (Z.shiftl 1 (hbit + metaslab_ndf_clump_shift)))) in
      '(ss, where_) ← tr_find (pp_root pp) (fun q => pp_compar pp ssearch (sm_segs sm !!! q));
      if ss =? NULL then tr_nearest (pp_root pp) where_ AVL_AFTER else Ok ss
  end.

Definition metaslab_ndf_alloc sm (size : Z) : res (space_map T O * Z) :=
  let hbit := highbit size in
  max_size ← metaslab_pp_maxsize sm;
  if max_size <? size then Ok (sm, 2 ^ 64 - 1)
  else
    cursor ← cursor_at sm (hbit - 1);
    '(ss, _) ← seg_find sm (SpaceSeg cursor (u64 (cursor + size)));
    again ← (if ss =? NULL then Ok true else s ← seg sm ss; Ok (u64 (ss_start s + size) >? ss_end s));
    ss ← (if (again : bool) then ndf_search sm hbit max_size else Ok ss);
    if negb (ss =? NULL) then
      s ← seg sm ss;
      if u64 (ss_start s + size) <=? ss_end s then sm ← set_cursor sm (hbit - 1) (u64 (ss_start s + size)); Ok (sm, ss_start s)
      else Ok (sm, 2 ^ 64 - 1)
    else Ok (sm, 2 ^ 64 - 1).

Definition metaslab_ndf_fragmented sm : res bool :=
  max_size ← metaslab_pp_maxsize sm; Ok (negb (max_size >? u64 (Z.shiftl metaslab_min_alloc_size metaslab_ndf_clump_shift))).
End metaslab.

(** ** The vectors *)

#[export] Instance metaslab_SpaceMapOps {T I : Type} {HT : Tree T I} : SpaceMapOps T metaslab_ops := {
  smop_load _ sm := metaslab_pp_load sm;
  smop_unload _ sm := metaslab_pp_unload sm;
  smop_alloc o sm size := match o with
    | metaslab_ff_ops => metaslab_ff_alloc sm size | metaslab_df_ops => metaslab_df_alloc sm size
    | metaslab_cdf_ops => metaslab_cdf_alloc sm size | metaslab_ndf_ops => metaslab_ndf_alloc sm size end;
  smop_claim _ sm start size := Ok (metaslab_pp_claim sm start size);
  smop_free _ sm start size := Ok (metaslab_pp_free sm start size);
  smop_max _ sm := metaslab_pp_maxsize sm;
  smop_fragmented o sm := match o with
    | metaslab_ff_ops => metaslab_ff_fragmented sm | metaslab_df_ops => metaslab_df_fragmented sm
    | metaslab_cdf_ops => metaslab_cdf_fragmented sm | metaslab_ndf_ops => metaslab_ndf_fragmented sm end }.
End Metaslab.
