(* ===== verification/MetaslabOk.v ===== *)
(** What the pickers find: bits, orders and the search of one tree.

    The block allocators: the invariant of a loaded metaslab's map, and what its
    operations return. *)

From S2P Require Import Prelude Avl AvlWalk AvlSpec OrdTree SpaceMap SpaceSet SpaceMapOk SpaceMapRanges Metaslab SpaceMapWalk SpaceLog SpaceLoad.
Import SpaceMap SpaceSet SpaceMapOk SpaceMapRanges Metaslab.
Open Scope Z_scope.

Module MetaslabPick.

(** ** Bits *)

Lemma land_shiftl_high i m b : 0 <= b -> Z.land i (Z.shiftl m b) = Z.shiftl (Z.land (Z.shiftr i b) m) b.
Proof.
  intros Hb. apply Z.bits_inj'. intros n Hn. rewrite Z.land_spec. destruct (Z.lt_ge_cases n b).
  - by rewrite !Z.shiftl_spec_low, andb_false_r by done.
  - rewrite !Z.shiftl_spec_high, Z.land_spec, Z.shiftr_spec by lia. do 2 f_equal. lia.
Qed.

(** One halving keeps the highest bit. *)
Lemma highbit_half_ok b mask h i : 0 < b -> mask = Z.shiftl (Z.ones b) b -> 0 < i < 2 ^ (2 * b) ->
  exists h' i', highbit_half mask b (h, i) = (h', i') /\ 0 < i' < 2 ^ b /\ h' + Z.log2 i' = h + Z.log2 i.
Proof.
  intros Hb -> Hi. unfold highbit_half. assert (Hp : 0 < 2 ^ b) by auto with bits. assert (E2 : 2 ^ (2 * b) = 2 ^ b * 2 ^ b) by (rewrite <- Z.pow_add_r by lia; f_equal; lia).
  rewrite land_shiftl_high, Z.land_ones, Z.shiftl_mul_pow2, !Z.shiftr_div_pow2 by lia.
  assert (Hd : 0 <= i / 2 ^ b < 2 ^ b) by (split; [apply Z.div_pos; lia|apply Z.div_lt_upper_bound; lia]). rewrite (Z.mod_small (i / 2 ^ b)) by done.
  destruct (Z.eqb_spec (i / 2 ^ b * 2 ^ b) 0) as [E|E]; cbn [negb].
  - exists h, i. split; [done|]. assert (i / 2 ^ b = 0) by nia. split; [|done]. split; [lia|]. pose proof (Z.mod_pos_bound i (2 ^ b) Hp). pose proof (Z.div_mod i (2 ^ b)). nia.
  - exists (h + b), (i / 2 ^ b). split; [done|]. assert (0 < i / 2 ^ b) by nia. split; [lia|]. rewrite <- Z.shiftr_div_pow2, Z.log2_shiftr by lia.
    assert (b <= Z.log2 i); [|lia]. apply Z.log2_le_pow2; [lia|]. pose proof (Z.mul_div_le i (2 ^ b) Hp). nia.
Qed.

Lemma highbit_ok i : 0 < i < 2 ^ 64 -> highbit i = Z.log2 i + 1.
Proof.
  intros Hi. unfold highbit. rewrite (proj2 (Z.eqb_neq i 0)) by lia.
  destruct (highbit_half_ok 32 0xffffffff00000000 1 i) as (h1 & i1 & -> & H1 & E1); [done|done|exact Hi|].
  destruct (highbit_half_ok 16 0xffff0000 h1 i1) as (h2 & i2 & -> & H2 & E2); [done|done|exact H1|].
  destruct (highbit_half_ok 8 0xff00 h2 i2) as (h3 & i3 & -> & H3 & E3); [done|done|exact H2|].
  destruct (highbit_half_ok 4 0xf0 h3 i3) as (h4 & i4 & -> & H4 & E4); [done|done|exact H3|].
  destruct (highbit_half_ok 2 0xc h4 i4) as (h5 & i5 & -> & H5 & E5); [done|done|exact H4|].
  assert (i5 = 1 \/ i5 = 2 \/ i5 = 3) as [-> |[-> | ->]] by lia.
  - change (Z.log2 1) with 0 in E5. change (negb (Z.land 1 2 =? 0)) with false. cbv iota. lia.
  - change (Z.log2 2) with 1 in E5. change (negb (Z.land 2 2 =? 0)) with true. cbv iota. lia.
  - change (Z.log2 3) with 1 in E5. change (negb (Z.land 3 2 =? 0)) with true. cbv iota. lia.
Qed.

(** The lowest bit of a size. *)
Lemma low_bit x : 0 < x -> exists k m, 0 <= k /\ 0 <= m /\ x = 2 ^ k * (2 * m + 1).
Proof.
  intros Hx. destruct x as [|p|p]; [lia| |lia]. clear Hx. induction p as [p IH|p IH|].
  - exists 0, (Zpos p). lia.
  - destruct IH as (k & m & Hk & Hm & E). exists (k + 1), m. split; [lia|]. split; [done|]. rewrite Z.pow_add_r by lia. lia.
  - exists 0, 0. done.
Qed.

Lemma align_ok size : 0 < size < 2 ^ 64 -> exists k, 0 <= k < 64 /\ Z.land size (u64 (- size)) = 2 ^ k /\ 2 ^ k <= size /\ (2 ^ k | size) /\
  (forall j, 0 <= j -> (2 ^ j | size) -> (2 ^ j | 2 ^ k)).
Proof.
  intros Hs. destruct (low_bit size ltac:(lia)) as (k & m & Hk & Hm & E). assert (Hp : 0 < 2 ^ k) by auto with bits. assert (Hk64 : k < 64) by (apply (Z.pow_lt_mono_r_iff 2); [lia|lia|nia]).
  exists k. split; [lia|]. split; [|split; [nia|split; [exists (2 * m + 1); lia|]]].
  - rewrite <- (Z.land_ones (- size) 64), (Z.land_comm (- size)), Z.land_assoc, (Z.land_ones size), (Z.mod_small size) by lia. rewrite E.
    replace (- (2 ^ k * (2 * m + 1))) with (Z.shiftl (- (2 * m + 1)) k) by (rewrite Z.shiftl_mul_pow2 by lia; lia).
    rewrite (Z.mul_comm (2 ^ k)), <- Z.shiftl_mul_pow2, <- Z.shiftl_land by lia.
    assert (Eo : Z.land (2 * m + 1) (- (2 * m + 1)) = 1); [|rewrite Eo; by rewrite Z.shiftl_1_l].
    replace (- (2 * m + 1)) with (Z.lnot (2 * m)) by (unfold Z.lnot; lia). rewrite <- Z.ldiff_land. apply Z.bits_inj'. intros n Hn. rewrite Z.ldiff_spec. destruct (Z.eq_dec n 0) as [->|Hn0].
    + by rewrite Z.testbit_odd_0, Z.testbit_even_0.
    + replace n with (Z.succ (n - 1)) by lia. rewrite Z.testbit_odd_succ, Z.testbit_even_succ by lia. rewrite andb_negb_r. symmetry. apply (testbit_small 1 1); [done|lia].
  - intros j Hj Hd. destruct (Z.le_gt_cases j k) as [Hle|Hgt]; [exists (2 ^ (k - j)); rewrite <- Z.pow_add_r by lia; f_equal; lia|]. exfalso.
    destruct Hd as [q Hq]. rewrite E in Hq. replace j with (k + (1 + (j - k - 1))) in Hq by lia. rewrite !Z.pow_add_r in Hq by lia.
    assert (2 * m + 1 = q * (2 * 2 ^ (j - k - 1))) by (apply (Z.mul_reg_l _ _ (2 ^ k)); [lia|]; rewrite Hq; ring). lia.
Qed.

(** ** Orders *)

#[export] Instance segsize_PpCompare : PpCompare metaslab_segsize_compare.
Proof.
  constructor; unfold metaslab_segsize_compare; intros.
  - repeat case_match; lia.
  - repeat case_match; zbool; lia.
  - repeat case_match; zbool; lia.
  - repeat case_match; zbool; lia.
Qed.

Lemma pp_sifts cmp key (f : Z -> space_seg) l : PpCompare cmp -> AvlSpec.sorted (fun a b => cmp (f a) (f b)) l -> sifts (fun q => cmp key (f q)) l.
Proof.
  intros Hc Hs. split; [apply Forall_forall; intros q _; apply pp_range|]. unfold AvlSpec.sorted in Hs. induction Hs as [|a l Hs IH HF]; constructor; [done|].
  eapply Forall_impl; [exact HF|]. intros b Hab. cbn beta in *. pose proof (pp_range key (f a)). pose proof (pp_range key (f b)).
  destruct (Z.eq_dec (cmp key (f b)) (-1)) as [->|Hn]; [lia|]. destruct (Z.eq_dec (cmp key (f a)) (-1)) as [Ha|Ha]; [by destruct Hn; apply (pp_trans key (f a) (f b))|].
  destruct (Z.eq_dec (cmp key (f b)) 1) as [Eb|Eb]; [|lia]. assert (cmp (f b) key = -1) by (rewrite (pp_sym key (f b)); lia). assert (cmp (f a) key = -1) by (by apply (pp_trans (f a) (f b) key)).
  rewrite (pp_sym (f a) key) in *. lia.
Qed.

(** ** One search *)

(** The segment has room for [size] bytes at an aligned offset. *)
Definition roomy (s : space_seg) (size align : Z) : Prop := u64 (P2ROUNDUP (ss_start s) align + size) <= ss_end s.

Section scan.
Context {T I : Type} {HT : Tree T I} {HTL : TreeLaws T I}.

(** What a search of the sequence [l] from a cursor on has found. *)
Definition scanned (compar : space_seg -> space_seg -> Z) (h : gmap Z space_seg) l (cursor size align : Z) (r : option Z) : Prop :=
  let key := SpaceSeg cursor (u64 (cursor + size)) in
  match r with
  | Some offset => exists p, p ∈ l /\ offset = P2ROUNDUP (ss_start (h !!! p)) align /\ roomy (h !!! p) size align
  | None => exists lo hi, l = lo ++ hi /\ Forall (fun q => ~ roomy (h !!! q) size align) hi /\
      Forall (fun q => compar key (h !!! q) = 1 \/ (compar key (h !!! q) = 0 /\ exists b, b ∈ hi /\ compar key (h !!! b) = 0)) lo
  end.

Lemma scan_loop t h l lo hi k size align : tr_seq t l -> l = lo ++ hi -> (forall p, p ∈ l -> h !! p = Some (h !!! p)) -> (length hi < k)%nat ->
  exists r, loop k (fun ss => if ss =? NULL then Ok (inr None) else s ← seg_at h ss; let offset := P2ROUNDUP (ss_start s) align in
      if u64 (offset + size) <=? ss_end s then Ok (inr (Some offset)) else ss ← tr_walk t ss AVL_AFTER; Ok (inl ss)) (hd NULL hi) = Ok r /\
    match r with Some offset => exists p, p ∈ hi /\ offset = P2ROUNDUP (ss_start (h !!! p)) align /\ roomy (h !!! p) size align | None => Forall (fun q => ~ roomy (h !!! q) size align) hi end.
Proof using HTL.
  intros Hs. revert lo k. induction hi as [|p hi IH]; intros lo k E Hd Hk; (destruct k as [|k]; [cbn in Hk; lia|]); cbn [loop hd].
  { rewrite Z.eqb_refl. by exists None. }
  destruct (tr_seq_facts t l Hs) as (_ & Hn & _). rewrite (proj2 (Z.eqb_neq p NULL)) by (apply Hn; rewrite E; set_solver). unfold seg_at at 1. rewrite Hd by (rewrite E; set_solver). cbn [mbind res_bind].
  destruct (Z.leb_spec (u64 (P2ROUNDUP (ss_start (h !!! p)) align + size)) (ss_end (h !!! p))) as [Hle|Hgt].
  - eexists (Some _). split; [done|]. exists p. split; [set_solver|]. done.
  - rewrite E in Hs. rewrite (proj2 (tr_walk_ok t lo p hi Hs)). cbn [mbind res_bind]. rewrite <- E in Hs. destruct (IH (lo ++ [p]) k) as (r & Er & Hr); [by rewrite E, <- app_assoc|done|cbn in Hk; lia|].
    exists r. split; [exact Er|]. destruct r as [off|]; [destruct Hr as (q & ? & ?); exists q; split; [set_solver|done]|]. constructor; [unfold roomy; lia|done].
Qed.

Lemma picker_scan_ok t compar h l cursor size align : tr_seq t l -> (forall p, p ∈ l -> h !! p = Some (h !!! p)) ->
  sifts (fun q => compar (SpaceSeg cursor (u64 (cursor + size))) (h !!! q)) l -> exists r, picker_scan t compar h cursor size align = Ok r /\ scanned compar h l cursor size align r.
Proof using HTL.
  intros Hs Hd Hsi. unfold picker_scan, scanned. set (key := SpaceSeg cursor _) in *. destruct (tr_seq_facts t l Hs) as (Hnd & Hn & Hf & _).
  destruct (tr_find_ok t l _ Hs Hsi) as [(q & w & -> & Hq & Eq & Hqn)|(w & lo & hi & -> & -> & Hlo & Hhi & Hg)]; cbn [mbind res_bind].
  - rewrite (proj2 (Z.eqb_neq q NULL)) by done. cbn [mbind res_bind]. apply list_elem_of_split in Hq as (lo & hi & ->). assert (Hk : (length (q :: hi) < tr_fuel t)%nat) by (rewrite length_app in Hf; cbn in *; lia).
    destruct (scan_loop t h _ lo (q :: hi) (tr_fuel t) size align Hs eq_refl Hd Hk) as (r & E & Hr). exists r. split; [exact E|]. destruct r as [off|].
    + destruct Hr as (p & Hp & H). exists p. split; [set_solver|done].
    + exists lo, (q :: hi). split; [done|]. split; [done|]. destruct Hsi as [Hr' Hss]. apply StronglySorted_app in Hss as (Hss & _ & _). apply Forall_forall. intros a Ha. specialize (Hss a q Ha ltac:(set_solver)). cbn beta in Hss.
      rewrite Forall_forall in Hr'. specialize (Hr' a ltac:(set_solver)). cbn beta in Hr'. destruct (Z.eq_dec (compar key (h !!! a)) 1); [by left|right]. split; [lia|]. exists q. split; [set_solver|done].
  - rewrite Z.eqb_refl, (proj2 (tr_nearest_ok t w lo hi Hg)). cbn [mbind res_bind]. assert (Hk : (length hi < tr_fuel t)%nat) by (rewrite length_app in Hf; lia).
    destruct (scan_loop t h _ lo hi (tr_fuel t) size align Hs eq_refl Hd Hk) as (r & E & Hr). exists r. split; [exact E|]. destruct r as [off|].
    + destruct Hr as (p & Hp & H). exists p. split; [set_solver|done].
    + exists lo, hi. split; [done|]. split; [done|]. eapply Forall_impl; [exact Hlo|]. by left.
Qed.

Lemma picker_ok t compar h l cursor size align : tr_seq t l -> (forall p, p ∈ l -> h !! p = Some (h !!! p)) ->
  (forall c, c = cursor \/ c = 0 -> sifts (fun q => compar (SpaceSeg c (u64 (c + size))) (h !!! q)) l) ->
  exists c offset, metaslab_block_picker 2 t compar h cursor size align = Ok (c, offset) /\
    ((c = u64 (offset + size) /\ exists p, p ∈ l /\ offset = P2ROUNDUP (ss_start (h !!! p)) align /\ roomy (h !!! p) size align) \/
     (c = 0 /\ offset = 2 ^ 64 - 1 /\ scanned compar h l 0 size align None)).
Proof using HTL.
  intros Hs Hd Hsi. cbn [metaslab_block_picker]. destruct (picker_scan_ok t compar h l cursor size align Hs Hd (Hsi _ (or_introl eq_refl))) as ([off|] & -> & H1); cbn [mbind res_bind].
  { do 2 eexists. split; [done|]. by left. }
  destruct (Z.eqb_spec cursor 0) as [->|Hne]; [do 2 eexists; split; [done|]; by right|].
  destruct (picker_scan_ok t compar h l 0 size align Hs Hd (Hsi _ (or_intror eq_refl))) as ([off|] & -> & H2); cbn [mbind res_bind Z.eqb]; do 2 eexists; (split; [done|]); [by left|by right].
Qed.
End scan.
End MetaslabPick.

Import SpaceMapCut SpaceMapWalk SpaceLog SpaceLoad MetaslabPick.

Module MetaslabOk.

Section ok.
Context {T I O : Type} {HT : Tree T I} {HK : Kmem} {HTL : TreeLaws T I} {HKL : KmemLaws}.
Implicit Types (sm : space_map T O) (l : list Z).

(** ** The invariant *)

Definition cursors_ok (d : list Z) : Prop := length d = 64%nat /\ Forall (fun c => 0 <= c <= 2 ^ 62) d.

(** A map that lies below 2^62, with a tree of its segments by size and 64 cursors. *)
Record ms_ok sm l : Prop := {
  ms_map : sm_ok sm l;
  ms_geom : 0 < sm_size sm /\ sm_start sm + sm_size sm <= 2 ^ 62;
  ms_tree : exists pp, sm_pp_root sm = Some pp /\ pp_compar pp = metaslab_segsize_compare;
  ms_ppd : exists d, sm_ppd sm = Some d /\ cursors_ok d }.

(** A size that can be asked for. *)
Definition sizable sm (size : Z) : Prop := 0 < size <= 2 ^ 62 /\ size mod 2 ^ sm_shift sm = 0.

Lemma ms_tree_seq sm l : ms_ok sm l -> exists pp l', sm_pp_root sm = Some pp /\ pp_compar pp = metaslab_segsize_compare /\ l' ≡ₚ l /\ tr_seq (pp_root pp) l' /\
  AvlSpec.sorted (fun a b => metaslab_segsize_compare (sm_segs sm !!! a) (sm_segs sm !!! b)) l'.
Proof using All.
  intros [Hok _ (pp & E & Ec) _]. pose proof (ok_pp _ _ Hok) as H. rewrite E in H. destruct H as (_ & l' & H1 & H2 & H3). exists pp, l'. rewrite Ec in H3. done.
Qed.

Lemma ms_seg sm l p : ms_ok sm l -> p ∈ l -> let s := sm_segs sm !!! p in
  sm_segs sm !! p = Some s /\ 0 <= ss_start s /\ ss_start s < ss_end s /\ ss_end s <= 2 ^ 62 /\ ss_end s <= sm_start sm + sm_size sm /\ sm_start sm <= ss_start s /\
  ss_start s mod 2 ^ sm_shift sm = 0.
Proof using All.
  intros [Hok [_ Hg] _ _] Hp s. destruct (canon_proper _ _ _ _ _ (ok_canon _ _ Hok) (looks_in _ _ _ Hp)) as (P1 & P2 & P3 & P4 & P5). destruct (ok_geom _ _ Hok) as (G1 & _).
  fold s in P1, P2, P3, P4, P5. split; [apply (dom_present sm l); [apply Hok|done]|]. split_and!; try done; lia.
Qed.

(** A range of a segment is a range of the map. *)
Lemma seg_range sm l p offset size : ms_ok sm l -> p ∈ l -> 0 < size -> size mod 2 ^ sm_shift sm = 0 -> ss_start (sm_segs sm !!! p) <= offset -> offset + size <= ss_end (sm_segs sm !!! p) -> offset mod 2 ^ sm_shift sm = 0 ->
  fits sm offset size /\ forall x, inside offset size x -> space sm x.
Proof using All.
  intros Hms Hp Hs Hm H1 H2 H3. destruct (ms_seg sm l p Hms Hp) as (E & _ & _ & _ & P5 & P6 & _). split; [split_and!; try done; lia|]. intros x Hx. exists p, (sm_segs sm !!! p). split; [done|lia].
Qed.

(** A free range lies in one segment. *)
Lemma range_seg sm l start size : ms_ok sm l -> 0 < size -> (forall x, inside start size x -> space sm x) ->
  exists p, p ∈ l /\ ss_start (sm_segs sm !!! p) <= start /\ start + size <= ss_end (sm_segs sm !!! p).
Proof using All.
  intros [Hok _ _ _] Hs Hx. destruct (whole_find sm l start size Hok Hs Hx) as (q & w & E & Hn & Hq & L). by exists q.
Qed.

Lemma roundup_ok x k : 0 <= k <= 62 -> 0 <= x <= 2 ^ 62 -> let o := P2ROUNDUP x (2 ^ k) in x <= o < x + 2 ^ k /\ o mod 2 ^ k = 0.
Proof.
  intros Hk Hx o. assert (Hp : 0 < 2 ^ k <= 2 ^ 62) by (split; [apply Z.pow_pos_nonneg; lia|apply Z.pow_le_mono_r; lia]). unfold o. rewrite P2ROUNDUP_pow2 by lia. split; [|by apply Z_mod_mult].
  pose proof (Z.mul_div_le (x + (2 ^ k - 1)) (2 ^ k)). pose proof (Z.mul_succ_div_gt (x + (2 ^ k - 1)) (2 ^ k)). lia.
Qed.

(** Room in a segment, without the machine arithmetic. *)
Lemma roomy_ok sm l p size k : ms_ok sm l -> p ∈ l -> 0 < size <= 2 ^ 62 -> 0 <= k -> 2 ^ k <= size ->
  let s := sm_segs sm !!! p in let o := P2ROUNDUP (ss_start s) (2 ^ k) in
  u64 (o + size) = o + size /\ (roomy s size (2 ^ k) <-> o + size <= ss_end s).
Proof using All.
  intros Hms Hp Hs Hk Hle s o. destruct (ms_seg sm l p Hms Hp) as (_ & P1 & P2 & P3 & _). fold s in P1, P2, P3. assert (Hk62 : k <= 62) by (apply (Z.pow_le_mono_r_iff 2); lia).
  destruct (roundup_ok (ss_start s) k) as [[R1 R2] _]; [lia..|]. fold o in R1, R2. assert (E : u64 (o + size) = o + size) by (apply Z.mod_small; lia). unfold roomy. fold o. by rewrite E.
Qed.

(** A free range anywhere means room in a segment. *)
Lemma range_roomy sm l start size : ms_ok sm l -> 0 < size <= 2 ^ 62 -> (forall x, inside start size x -> space sm x) -> exists p, p ∈ l /\ roomy (sm_segs sm !!! p) size (2 ^ 0).
Proof using All.
  intros Hms Hs Hx. destruct (range_seg sm l start size Hms ltac:(lia) Hx) as (p & Hp & L1 & L2). exists p. split; [done|]. apply (roomy_ok sm l p size 0 Hms Hp Hs ltac:(lia) ltac:(lia)).
  destruct (ms_seg sm l p Hms Hp) as (_ & P1 & P2 & P3 & _). destruct (roundup_ok (ss_start (sm_segs sm !!! p)) 0) as [[R1 R2] _]; [lia..|]. change (2 ^ 0) with 1 in *. lia.
Qed.

(** ** Searches that fail *)

Lemma root_sifts sm l c size : ms_ok sm l -> 0 <= c <= 2 ^ 62 -> 0 < size <= 2 ^ 62 -> sifts (fun q => space_map_seg_compare (SpaceSeg c (u64 (c + size))) (sm_segs sm !!! q)) l.
Proof using All.
  intros [Hok _ _ _] Hc Hs. rewrite Z.mod_small by lia. eapply canon_sifts; [cbn; lia|reflexivity|apply Hok].
Qed.

Lemma root_none sm l size k : ms_ok sm l -> 0 < size <= 2 ^ 62 -> 0 <= k -> 2 ^ k <= size -> scanned space_map_seg_compare (sm_segs sm) l 0 size (2 ^ k) None ->
  forall p, p ∈ l -> ~ roomy (sm_segs sm !!! p) size (2 ^ k).
Proof using All.
  intros Hms Hs Hk Hle (lo & hi & -> & Hhi & Hlo) p Hp. apply elem_of_app in Hp as [Hp|Hp]; [|by apply (proj1 (Forall_forall _ hi) Hhi)]. assert (Hpl : p ∈ lo ++ hi) by set_solver.
  rewrite (proj2 (roomy_ok sm _ p size k Hms Hpl Hs Hk Hle)). destruct (ms_seg sm _ p Hms Hpl) as (_ & P1 & P2 & P3 & _). assert (Hk62 : k <= 62) by (apply (Z.pow_le_mono_r_iff 2); lia).
  destruct (roundup_ok (ss_start (sm_segs sm !!! p)) k) as [[R1 R2] _]; [lia..|]. pose proof (proj1 (Forall_forall _ lo) Hlo p Hp) as [E|(E & b & Hb & Eb)]; rewrite Z.mod_small in * by lia.
  - destruct (compare_cases (SpaceSeg 0 (0 + size)) (sm_segs sm !!! p)) as [[? ?]|[[? ?]|[? ?]]]; cbn in *; lia.
  - destruct (ms_seg sm _ b Hms ltac:(set_solver)) as (_ & Q1 & Q2 & Q3 & _).
    destruct (compare_cases (SpaceSeg 0 (0 + size)) (sm_segs sm !!! b)) as [[? ?]|[[? ?]|[? [? ?]]]]; cbn in *; try lia.
    pose proof (ok_canon _ _ (ms_map _ _ Hms)) as Hc. rewrite looks_app in Hc. apply canon_app in Hc as (_ & _ & Hlt). specialize (Hlt _ _ (looks_in _ _ _ Hp) (looks_in _ _ _ Hb)). lia.
Qed.

Lemma segsize_cases sm l p q : ms_ok sm l -> q ∈ l -> 0 <= ss_start p -> ss_start p <= ss_end p < 2 ^ 64 -> let s := sm_segs sm !!! q in
  (metaslab_segsize_compare p s = 1 -> ss_end s - ss_start s < ss_end p - ss_start p \/ ss_end s - ss_start s = ss_end p - ss_start p /\ ss_start s < ss_start p) /\
  (metaslab_segsize_compare p s = 0 -> ss_end s - ss_start s = ss_end p - ss_start p) /\
  (metaslab_segsize_compare p s = -1 -> ss_end p - ss_start p <= ss_end s - ss_start s).
Proof using All.
  intros Hms Hq H1 H2 s. destruct (ms_seg sm l q Hms Hq) as (_ & P1 & P2 & P3 & _). fold s in P1, P2, P3. unfold metaslab_segsize_compare. rewrite !Z.mod_small by lia. repeat case_match; zbool; lia.
Qed.

(** A best-fit search, without alignment. *)
Lemma pp_none sm l l' size : ms_ok sm l -> l' ≡ₚ l -> 0 < size <= 2 ^ 62 -> scanned metaslab_segsize_compare (sm_segs sm) l' 0 size 1 None ->
  forall p, p ∈ l -> ~ roomy (sm_segs sm !!! p) size 1.
Proof using All.
  intros Hms Hl Hs (lo & hi & -> & Hhi & Hlo) p Hp. assert (Hin : forall q, q ∈ lo ++ hi <-> q ∈ l) by (intros q; by rewrite Hl). pose proof Hp as Hp'. rewrite <- Hin in Hp'. apply elem_of_app in Hp' as [Hpl|Hpl]; [|by apply (proj1 (Forall_forall _ hi) Hhi)].
  change 1 with (2 ^ 0). rewrite (proj2 (roomy_ok sm l p size 0 Hms Hp Hs ltac:(lia) ltac:(lia))). destruct (ms_seg sm l p Hms Hp) as (_ & P1 & P2 & P3 & _).
  destruct (roundup_ok (ss_start (sm_segs sm !!! p)) 0) as [[R1 R2] _]; [lia..|]. pose proof (proj1 (Forall_forall _ lo) Hlo p Hpl) as [E|(E & b & Hb & Eb)]; rewrite Z.mod_small in * by lia.
  - apply (segsize_cases sm l (SpaceSeg 0 (0 + size)) p Hms Hp) in E; cbn in *; lia.
  - exfalso. assert (Hbl : b ∈ l) by (apply Hin; set_solver). apply (segsize_cases sm l (SpaceSeg 0 (0 + size)) b Hms Hbl) in Eb; [|cbn; lia..]. cbn in Eb. pose proof (proj1 (Forall_forall _ hi) Hhi b Hb) as Hnr. apply Hnr.
    change 1 with (2 ^ 0). apply (roomy_ok sm l b size 0 Hms Hbl Hs ltac:(lia) ltac:(lia)). destruct (ms_seg sm l b Hms Hbl) as (_ & Q1 & Q2 & Q3 & _). destruct (roundup_ok (ss_start (sm_segs sm !!! b)) 0) as [[S1 S2] _]; [lia..|]. lia.
Qed.

(** ** The largest segment *)

Lemma maxsize_ok sm l : ms_ok sm l -> exists n, metaslab_pp_maxsize sm = Ok n /\ 0 <= n <= 2 ^ 62 /\
  (forall p, p ∈ l -> ss_end (sm_segs sm !!! p) - ss_start (sm_segs sm !!! p) <= n) /\ (n <> 0 -> exists p, p ∈ l /\ n = ss_end (sm_segs sm !!! p) - ss_start (sm_segs sm !!! p)).
Proof using All.
  intros Hms. destruct (ms_tree_seq sm l Hms) as (pp & l' & E & Ec & Hl & Hs & Ho). unfold metaslab_pp_maxsize. rewrite E, (proj2 (tr_ends_ok _ _ Hs)). cbn [mbind res_bind].
  destruct l' as [|x l' _] using rev_ind; [cbn; exists 0; split; [done|]; split; [lia|]; split; [|done]; intros p; rewrite <- Hl; set_solver|]. rewrite last_last.
  assert (Hx : x ∈ l) by (rewrite <- Hl; set_solver). destruct (tr_seq_facts _ _ Hs) as (_ & Hn & _). rewrite (proj2 (Z.eqb_neq x NULL)) by (apply Hn; set_solver). destruct (ms_seg sm l x Hms Hx) as (Ex & P1 & P2 & P3 & _).
  unfold seg_at. rewrite Ex. cbn [mbind res_bind]. rewrite Z.mod_small by lia. eexists. split; [done|]. split; [lia|]. split; [|intros _; by exists x].
  intros p Hp. pose proof Hp as Hp'. rewrite <- Hl in Hp'. apply elem_of_app in Hp' as [Hp'|Hp']; [|assert (p = x) as -> by set_solver; lia].
  unfold AvlSpec.sorted in Ho. apply StronglySorted_app in Ho as (Ho & _ & _). specialize (Ho p x Hp' ltac:(set_solver)). cbn beta in Ho. destruct (ms_seg sm l p Hms Hp) as (_ & Q1 & Q2 & Q3 & _).
  apply (segsize_cases sm l (sm_segs sm !!! p) x Hms Hx) in Ho; lia.
Qed.

(** ** Picks *)

(** What an allocator returns: the map with other cursors, and a free range of the
    map or, if there is none with the alignment, -1. *)
Record picked sm l (size k : Z) sm' (offset : Z) : Prop := {
  pk_map : exists d, cursors_ok d /\ sm' = with_ppd sm (Some d);
  pk_range : (offset <> 2 ^ 64 - 1 /\ fits sm offset size /\ (forall x, inside offset size x -> space sm x) /\ offset mod 2 ^ k = 0) \/
    (offset = 2 ^ 64 - 1 /\ forall p, p ∈ l -> ~ roomy (sm_segs sm !!! p) size (2 ^ k)) }.

Lemma with_ppd_ms sm l d : ms_ok sm l -> cursors_ok d -> ms_ok (with_ppd sm (Some d)) l.
Proof using All. intros [H1 H2 H3 _] Hd. constructor; [by eapply sm_ok_same|done|done|by exists d]. Qed.

Lemma cursor_ok sm l i : ms_ok sm l -> 0 <= i < 64 -> exists c, cursor_at sm i = Ok c /\ 0 <= c <= 2 ^ 62.
Proof using All.
  intros [_ _ _ (d & E & Hl & Hd)] Hi. unfold cursor_at. rewrite E. destruct (rd_in_bounds d i) as (c & Ec & Hc); [rewrite Hl; lia|]. exists c. split; [done|]. rewrite Forall_forall in Hd. apply Hd. by eapply list_elem_of_lookup_2.
Qed.

Lemma set_cursor_ok sm l i v : ms_ok sm l -> 0 <= i < 64 -> 0 <= v <= 2 ^ 62 -> exists d, set_cursor sm i v = Ok (with_ppd sm (Some d)) /\ cursors_ok d.
Proof using All.
  intros [_ _ _ (d & E & Hl & Hd)] Hi Hv. unfold set_cursor. rewrite E, wr_in_bounds by (rewrite Hl; lia). eexists. split; [done|]. split; [by rewrite length_insert|]. by apply Forall_insert.
Qed.

(** An offset found in one of the trees. *)
Lemma found_ok sm l p size k : ms_ok sm l -> p ∈ l -> sizable sm size -> 0 <= k -> 2 ^ k <= size -> (k = 0 \/ (2 ^ sm_shift sm | 2 ^ k)) -> let offset := P2ROUNDUP (ss_start (sm_segs sm !!! p)) (2 ^ k) in
  roomy (sm_segs sm !!! p) size (2 ^ k) -> 0 <= u64 (offset + size) <= 2 ^ 62 /\ offset <> 2 ^ 64 - 1 /\ fits sm offset size /\ (forall x, inside offset size x -> space sm x) /\ offset mod 2 ^ k = 0.
Proof using All.
  intros Hms Hp [Hs Hm] Hk Hle Hu offset Hr. destruct (roomy_ok sm l p size k Hms Hp Hs Hk Hle) as [E Hiff]. fold offset in E, Hiff. apply Hiff in Hr. destruct (ms_seg sm l p Hms Hp) as (_ & P1 & P2 & P3 & _ & _ & P7).
  assert (Hk62 : k <= 62) by (apply (Z.pow_le_mono_r_iff 2); lia). destruct (roundup_ok (ss_start (sm_segs sm !!! p)) k) as [[R1 R2] R3]; [lia..|]. fold offset in R1, R2, R3. rewrite E.
  assert (Ho : offset mod 2 ^ sm_shift sm = 0).
  { destruct Hu as [->|Hu]; [assert (offset = ss_start (sm_segs sm !!! p)) as -> by lia; done|]. destruct (ok_geom _ _ (ms_map _ _ Hms)) as (_ & _ & _ & G4).
    assert (0 < 2 ^ k) by auto with bits. apply Z.mod_divide; [lia|]. etrans; [exact Hu|]. apply Z.mod_divide; [lia|done]. }
  destruct (seg_range sm l p offset size Hms Hp ltac:(lia) Hm R1 Hr Ho) as [F1 F2]. split_and!; try done; lia.
Qed.

Lemma pick_root_ok sm l i size k : ms_ok sm l -> 0 <= i < 64 -> sizable sm size -> 0 <= k -> 2 ^ k <= size -> (k = 0 \/ (2 ^ sm_shift sm | 2 ^ k)) ->
  exists sm' offset, pick_root sm i size (2 ^ k) = Ok (sm', offset) /\ picked sm l size k sm' offset.
Proof using All.
  intros Hms Hi Hsz Hk Hle Hu. unfold pick_root. destruct (cursor_ok sm l i Hms Hi) as (c0 & -> & Hc0). cbn [mbind res_bind]. pose proof Hsz as [Hs _].
  destruct (picker_ok (sm_root sm) space_map_seg_compare (sm_segs sm) l c0 size (2 ^ k)) as (c & off & -> & Hr); [apply Hms|intros p Hp; by apply (ms_seg sm l p Hms)|intros c [->| ->]; apply root_sifts; (done || lia)|]. cbn [mbind res_bind].
  destruct Hr as [(-> & p & Hp & -> & Hr)|(-> & -> & Hr)].
  - destruct (found_ok sm l p size k Hms Hp Hsz Hk Hle Hu Hr) as (F1 & F2). destruct (set_cursor_ok sm l i _ Hms Hi F1) as (d & -> & Hd). do 2 eexists. split; [done|]. constructor; [by exists d|by left].
  - destruct (set_cursor_ok sm l i 0 Hms Hi ltac:(lia)) as (d & -> & Hd). do 2 eexists. split; [done|]. constructor; [by exists d|right]. split; [done|]. by apply root_none.
Qed.

Lemma pick_pp_ok sm l i size : ms_ok sm l -> 0 <= i < 64 -> 0 < size <= 2 ^ 62 ->
  exists d offset, pick_pp sm i size 1 = Ok (with_ppd sm (Some d), offset) /\ cursors_ok d /\
    ((exists p, p ∈ l /\ offset = ss_start (sm_segs sm !!! p) /\ offset + size <= ss_end (sm_segs sm !!! p)) \/ (offset = 2 ^ 64 - 1 /\ forall p, p ∈ l -> ~ roomy (sm_segs sm !!! p) size 1)).
Proof using All.
  intros Hms Hi Hs. destruct (ms_tree_seq sm l Hms) as (pp & l' & E & Ec & Hl & Hseq & Ho). unfold pick_pp. rewrite E, Ec. destruct (cursor_ok sm l i Hms Hi) as (c0 & -> & Hc0). cbn [mbind res_bind].
  destruct (picker_ok (pp_root pp) metaslab_segsize_compare (sm_segs sm) l' c0 size 1) as (c & off & -> & Hr); [done|intros p Hp; apply (ms_seg sm l p Hms); by rewrite <- Hl|intros c _; apply (pp_sifts metaslab_segsize_compare _ (fun q => sm_segs sm !!! q)); [apply _|exact Ho]|]. cbn [mbind res_bind].
  destruct Hr as [(-> & p & Hp & -> & Hr)|(-> & -> & Hr)].
  - rewrite Hl in Hp. change 1 with (2 ^ 0) in Hr. destruct (roomy_ok sm l p size 0 Hms Hp Hs ltac:(lia) ltac:(lia)) as [E1 Hiff]. apply Hiff in Hr. destruct (ms_seg sm l p Hms Hp) as (_ & P1 & P2 & P3 & _).
    destruct (roundup_ok (ss_start (sm_segs sm !!! p)) 0) as [[R1 R2] _]; [lia..|]. change (2 ^ 0) with 1 in *. rewrite E1. assert (Es : P2ROUNDUP (ss_start (sm_segs sm !!! p)) 1 = ss_start (sm_segs sm !!! p)) by lia.
    rewrite Es in Hr |- *. assert (Hv : 0 <= ss_start (sm_segs sm !!! p) + size <= 2 ^ 62) by lia. destruct (set_cursor_ok sm l i _ Hms Hi Hv) as (d & -> & Hd). do 2 eexists. split; [done|]. split; [done|]. left. by exists p.
  - destruct (set_cursor_ok sm l i 0 Hms Hi ltac:(lia)) as (d & -> & Hd). do 2 eexists. split; [done|]. split; [done|]. right. split; [done|]. by apply (pp_none sm l l').
Qed.

(** ** The allocators *)

Lemma align_index size : 0 < size <= 2 ^ 62 -> exists k, Z.land size (u64 (- size)) = 2 ^ k /\ 0 <= k /\ 2 ^ k <= size /\ 0 <= highbit (2 ^ k) - 1 < 64 /\ forall j, 0 <= j -> size mod 2 ^ j = 0 -> (2 ^ j | 2 ^ k).
Proof.
  intros Hs. destruct (align_ok size ltac:(lia)) as (k & Hk & E & Hle & _ & Hj). exists k. split; [done|]. split; [lia|]. split; [done|]. split.
  - assert (0 < 2 ^ k < 2 ^ 64) by (split; [apply Z.pow_pos_nonneg; lia|apply Z.pow_lt_mono_r; lia]). rewrite highbit_ok, Z.log2_pow2 by lia. lia.
  - intros j Hj0 Hm. apply Hj; [done|]. apply Z.mod_divide; [|done]. assert (0 < 2 ^ j) by auto with bits. lia.
Qed.

(** No segment has room once the largest is too small. *)
Lemma small_none sm l n size k : ms_ok sm l -> 0 < size <= 2 ^ 62 -> 0 <= k -> 2 ^ k <= size -> (forall p, p ∈ l -> ss_end (sm_segs sm !!! p) - ss_start (sm_segs sm !!! p) <= n) -> n < size ->
  forall p, p ∈ l -> ~ roomy (sm_segs sm !!! p) size (2 ^ k).
Proof using All.
  intros Hms Hs Hk Hle Hn Hlt p Hp. rewrite (proj2 (roomy_ok sm l p size k Hms Hp Hs Hk Hle)). specialize (Hn p Hp). destruct (ms_seg sm l p Hms Hp) as (_ & P1 & P2 & P3 & _).
  assert (Hk62 : k <= 62) by (apply (Z.pow_le_mono_r_iff 2); lia). destruct (roundup_ok (ss_start (sm_segs sm !!! p)) k) as [[R1 R2] _]; lia.
Qed.

Lemma with_ppd_same sm d : sm_ppd sm = Some d -> with_ppd sm (Some d) = sm.
Proof. destruct sm. cbn. by intros ->. Qed.

Lemma none_picked sm l size k : ms_ok sm l -> (forall p, p ∈ l -> ~ roomy (sm_segs sm !!! p) size (2 ^ k)) -> picked sm l size k sm (2 ^ 64 - 1).
Proof using All. intros [_ _ _ (d & E & Hd)] Hn. constructor; [exists d; by rewrite with_ppd_same|by right]. Qed.

Lemma ff_alloc_ok sm l size : ms_ok sm l -> sizable sm size -> exists sm' offset k, metaslab_ff_alloc sm size = Ok (sm', offset) /\ 2 ^ k = Z.land size (u64 (- size)) /\ picked sm l size k sm' offset.
Proof using All.
  intros Hms Hsz. destruct (align_index size (proj1 Hsz)) as (k & E & Hk & Hle & Hi & Hj). unfold metaslab_ff_alloc. rewrite E. destruct (ok_geom _ _ (ms_map _ _ Hms)) as (_ & _ & _ & G4).
  destruct (pick_root_ok sm l (highbit (2 ^ k) - 1) size k Hms Hi Hsz Hk Hle) as (sm' & off & Ep & Hp); [right; apply Hj; [lia|apply Hsz]|]. by exists sm', off, k.
Qed.

Lemma df_alloc_ok sm l size : ms_ok sm l -> sizable sm size -> exists sm' offset, metaslab_df_alloc sm size = Ok (sm', offset) /\ picked sm l size 0 sm' offset.
Proof using All.
  intros Hms Hsz. pose proof Hsz as [Hs Hm]. destruct (align_index size Hs) as (k & E & Hk & Hle & Hi & Hj). unfold metaslab_df_alloc, free_pct. rewrite E. destruct (maxsize_ok sm l Hms) as (n & -> & Hn & Hmax & _). cbn [mbind res_bind].
  rewrite (proj2 (Z.eqb_neq (sm_size sm) 0)) by (destruct (ms_geom _ _ Hms); lia). cbn [mbind res_bind]. destruct (Z.ltb_spec n size) as [Hlt|Hge].
  { do 2 eexists. split; [done|]. apply none_picked; [done|]. apply (small_none sm l n size 0); done || lia. }
  case_match; [|exact (pick_root_ok sm l (highbit (2 ^ k) - 1) size 0 Hms Hi Hsz ltac:(lia) ltac:(lia) (or_introl eq_refl))].
  destruct (set_cursor_ok sm l (highbit (2 ^ k) - 1) 0 Hms Hi ltac:(lia)) as (d & -> & Hd). cbn [mbind res_bind]. pose proof (with_ppd_ms sm l d Hms Hd) as Hms'.
  destruct (pick_pp_ok (with_ppd sm (Some d)) l (highbit (2 ^ k) - 1) size Hms' Hi Hs) as (d' & off & -> & Hd' & Hr). change (sm_segs (with_ppd sm (Some d))) with (sm_segs sm) in Hr.
  do 2 eexists. split; [done|]. constructor; [by exists d'|]. destruct Hr as [(p & Hp & -> & Hle')|Hr]; [left|by right].
  destruct (ms_seg sm l p Hms Hp) as (_ & P1 & P2 & P3 & _ & _ & P7). destruct (seg_range sm l p (ss_start (sm_segs sm !!! p)) size Hms Hp ltac:(lia) Hm (Z.le_refl _) Hle' P7) as [F1 F2]. split; [lia|]. split; [done|]. split; [done|]. by rewrite Z.mod_1_r.
Qed.

(** What every allocator promises. *)
Definition sound sm (size : Z) sm' (offset : Z) : Prop :=
  (exists d, cursors_ok d /\ sm' = with_ppd sm (Some d)) /\ (offset = 2 ^ 64 - 1 \/ (offset <> 2 ^ 64 - 1 /\ fits sm offset size /\ forall x, inside offset size x -> space sm x)).

Lemma picked_sound sm l size k sm' offset : picked sm l size k sm' offset -> sound sm size sm' offset.
Proof. intros [H1 [(H2 & H3 & H4 & _)|[H2 _]]]; (split; [done|]); [by right|by left]. Qed.

Lemma none_sound sm l size : ms_ok sm l -> sound sm size sm (2 ^ 64 - 1).
Proof using All. intros [_ _ _ (d & E & Hd)]. split; [exists d; by rewrite with_ppd_same|by left]. Qed.

(** The start of a segment that is large enough. *)
Lemma start_sound sm l p size d : ms_ok sm l -> sizable sm size -> cursors_ok d -> p ∈ l -> ss_start (sm_segs sm !!! p) + size <= ss_end (sm_segs sm !!! p) ->
  sound sm size (with_ppd sm (Some d)) (ss_start (sm_segs sm !!! p)).
Proof using All.
  intros Hms [Hs Hm] Hd Hp Hle. destruct (ms_seg sm l p Hms Hp) as (_ & P1 & P2 & P3 & _ & _ & P7). destruct (seg_range sm l p _ size Hms Hp ltac:(lia) Hm (Z.le_refl _) Hle P7) as [F1 F2].
  split; [by exists d|right]. split; [lia|done].
Qed.

Lemma cdf_alloc_ok sm l size : ms_ok sm l -> sizable sm size -> size <= metaslab_min_alloc_size -> exists sm' offset, metaslab_cdf_alloc sm size = Ok (sm', offset) /\ sound sm size sm' offset.
Proof using All.
  intros Hms Hsz Hmin. pose proof Hsz as [Hs Hm]. unfold metaslab_cdf_alloc. destruct (maxsize_ok sm l Hms) as (n & -> & Hn & Hmax & _). cbn [mbind res_bind]. destruct (Z.ltb_spec n size) as [Hlt|Hge].
  { do 2 eexists. split; [done|]. by apply (none_sound sm l). }
  destruct (cursor_ok sm l 0 Hms ltac:(lia)) as (c & -> & Hc), (cursor_ok sm l 1 Hms ltac:(lia)) as (e & -> & He). cbn [mbind res_bind]. rewrite (Z.mod_small (c + size)) by lia. destruct (Z.gtb_spec (c + size) e) as [Hgt|Hle].
  2: { destruct (pick_root_ok sm l 0 size 0 Hms ltac:(lia) Hsz ltac:(lia) ltac:(lia) (or_introl eq_refl)) as (sm' & off & E & Hp). exists sm', off. split; [exact E|by eapply picked_sound]. }
  destruct (set_cursor_ok sm l 1 0 Hms ltac:(lia) ltac:(lia)) as (d1 & -> & Hd1). cbn [mbind res_bind]. pose proof (with_ppd_ms sm l d1 Hms Hd1) as Hms1.
  destruct (set_cursor_ok _ l 0 0 Hms1 ltac:(lia) ltac:(lia)) as (d2 & -> & Hd2). cbn [mbind res_bind]. pose proof (with_ppd_ms _ l d2 Hms1 Hd2) as Hms2.
  set (rsize := if _ >? _ then _ else size). assert (Hr : size <= rsize <= 2 ^ 62) by (unfold rsize; case_match; zbool; lia).
  destruct (pick_pp_ok _ l 1 rsize Hms2 ltac:(lia) ltac:(lia)) as (d3 & off & -> & Hd3 & Hr3). cbn [mbind res_bind]. change (sm_segs (with_ppd (with_ppd sm (Some d1)) (Some d2))) with (sm_segs sm) in Hr3. pose proof (with_ppd_ms _ l d3 Hms2 Hd3) as Hms3.
  destruct Hr3 as [(p & Hp & -> & Hle)|[-> _]].
  - destruct (ms_seg sm l p Hms Hp) as (_ & P1 & P2 & P3 & _). rewrite (proj2 (Z.eqb_neq _ _)) by lia. cbn [negb]. rewrite Z.mod_small by lia.
    assert (Hv : 0 <= ss_start (sm_segs sm !!! p) + size <= 2 ^ 62) by (clearbody rsize; lia).
    destruct (set_cursor_ok _ l 0 _ Hms3 ltac:(lia) Hv) as (d4 & -> & Hd4). do 2 eexists. split; [done|]. apply (start_sound sm l p size d4 Hms Hsz Hd4 Hp). lia.
  - cbn. do 2 eexists. split; [done|]. split; [by exists d3|by left].
Qed.

Lemma ndf_search_ok sm l hbit n : ms_ok sm l -> exists ss, ndf_search sm hbit n = Ok ss /\ (ss = NULL \/ ss ∈ l).
Proof using All.
  intros Hms. destruct (ms_tree_seq sm l Hms) as (pp & l' & Er & Ec & Hl & Hseq & Ho). unfold ndf_search. rewrite Er, Ec. set (key := SpaceSeg 0 _). cbv zeta.
  destruct (tr_find_ok (pp_root pp) l' (fun q => metaslab_segsize_compare key (sm_segs sm !!! q)) Hseq (pp_sifts _ key (fun q => sm_segs sm !!! q) l' _ Ho)) as [(q & w & -> & Hq & _ & Hqn)|(w & lo & hi & -> & -> & _ & _ & Hg)]; cbn [mbind res_bind].
  - rewrite (proj2 (Z.eqb_neq q NULL)) by done. exists q. split; [done|right]. by rewrite <- Hl.
  - rewrite Z.eqb_refl, (proj2 (tr_nearest_ok _ w lo hi Hg)). exists (hd NULL hi). split; [done|]. destruct hi as [|q hi]; [by left|right]. rewrite <- Hl. cbn. set_solver.
Qed.

Lemma ndf_alloc_ok sm l size : ms_ok sm l -> sizable sm size -> exists sm' offset, metaslab_ndf_alloc sm size = Ok (sm', offset) /\ sound sm size sm' offset.
Proof using All.
  intros Hms Hsz. pose proof Hsz as [Hs Hm]. unfold metaslab_ndf_alloc. destruct (maxsize_ok sm l Hms) as (n & -> & Hn & Hmax & _). cbn [mbind res_bind]. destruct (Z.ltb_spec n size) as [Hlt|Hge].
  { do 2 eexists. split; [done|]. by apply (none_sound sm l). }
  assert (Hi : 0 <= highbit size - 1 < 64) by (rewrite highbit_ok by lia; pose proof (Z.log2_nonneg size); assert (Z.log2 size < 64) by (apply Z.log2_lt_pow2; lia); lia).
  destruct (cursor_ok sm l _ Hms Hi) as (c & -> & Hc). cbn [mbind res_bind]. rewrite (Z.mod_small (c + size)) by lia.
  assert (Hend : forall ss, ss = NULL \/ ss ∈ l -> exists sm' offset, (if negb (ss =? NULL) then s ← seg sm ss; if u64 (ss_start s + size) <=? ss_end s then
      sm ← set_cursor sm (highbit size - 1) (u64 (ss_start s + size)); Ok (sm, ss_start s) else Ok (sm, 2 ^ 64 - 1) else Ok (sm, 2 ^ 64 - 1)) = Ok (sm', offset) /\ sound sm size sm' offset).
  { intros ss [->|Hss]; [rewrite Z.eqb_refl; do 2 eexists; split; [done|]; by apply (none_sound sm l)|]. destruct (tr_seq_facts _ _ (ok_seq _ _ (ms_map _ _ Hms))) as (_ & Hnn & _). rewrite (proj2 (Z.eqb_neq ss NULL)) by (by apply Hnn).
    destruct (ms_seg sm l ss Hms Hss) as (E & P1 & P2 & P3 & _). unfold seg. rewrite E. cbn [mbind res_bind negb]. rewrite Z.mod_small by lia. destruct (Z.leb_spec (ss_start (sm_segs sm !!! ss) + size) (ss_end (sm_segs sm !!! ss))) as [Hle|Hgt].
    - assert (Hv : 0 <= ss_start (sm_segs sm !!! ss) + size <= 2 ^ 62) by lia. destruct (set_cursor_ok sm l (highbit size - 1) _ Hms Hi Hv) as (d & -> & Hd). do 2 eexists. split; [done|]. by apply (start_sound sm l ss).
    - do 2 eexists. split; [done|]. by apply (none_sound sm l). }
  destruct (ndf_search_ok sm l (highbit size) n Hms) as (ss' & Epp & Hss').
  destruct (seg_find_ok sm l c (c + size) (ms_map _ _ Hms) ltac:(lia)) as [(q & w & -> & Hqn & Hq & _)|(w & lo & hi & -> & _)]; cbn [mbind res_bind].
  - rewrite (proj2 (Z.eqb_neq q NULL)) by done. assert (Es : seg sm q = Ok (sm_segs sm !!! q)) by (unfold seg; by rewrite (proj1 (ms_seg sm l q Hms Hq))). rewrite Es. cbn [mbind res_bind]. destruct (u64 (ss_start (sm_segs sm !!! q) + size) >? ss_end (sm_segs sm !!! q)); [rewrite Epp|]; cbn [mbind res_bind]; apply Hend; [done|by right].
  - rewrite Z.eqb_refl. cbn [mbind res_bind]. rewrite Epp. cbn [mbind res_bind]. by apply Hend.
Qed.
End ok.
End MetaslabOk.
