(* ===== verification/MetaslabSpec.v ===== *)
(** The theorems about the block allocators, on their own and with the maps they
    allocate from. *)

From S2P Require Import Prelude Avl AvlWalk AvlSpec OrdTree SpaceMap SpaceSet SpaceMapOk SpaceMapWalk SpaceMapRanges SpaceMapSpec SpaceLog SpaceSync SpaceLoad SpaceLogSpec Metaslab MetaslabOk.
Import SpaceMap SpaceSet SpaceMapOk SpaceMapCut SpaceMapWalk SpaceMapRanges SpaceMapSpec SpaceLog SpaceEntry SpaceSync SpaceLoad SpaceLogSpec Metaslab MetaslabPick MetaslabOk.
Open Scope Z_scope.

Module MetaslabSpec.

Section spec.
Context {T I D : Type} {HT : Tree T I} {HK : Kmem} {HD : Dmu D} {HTL : TreeLaws T I} {HKL : KmemLaws} {HDL : DmuLaws D}.
Implicit Types (sm : space_map T metaslab_ops) (l : list Z).

(** ** Loading and unloading *)

Lemma pp_load_ok sm l : sm_ok sm l -> sm_pp_root sm = None -> 0 < sm_size sm -> sm_start sm + sm_size sm <= 2 ^ 62 ->
  exists pp, metaslab_pp_load sm = Ok (with_pp (with_ppd sm (Some (replicate 64 0))) (Some pp)) /\ ms_ok (with_pp (with_ppd sm (Some (replicate 64 0))) (Some pp)) l.
Proof using All.
  intros Hok Hpp G1 G2. unfold metaslab_pp_load. set (sm0 := with_ppd sm (Some (replicate 64 0))). set (pp0 := PpTree tr_create metaslab_segsize_compare).
  rewrite (tr_each_ok _ l) by apply Hok. destruct (tr_seq_facts _ _ (ok_seq _ _ Hok)) as (Hnd & Hnn & _).
  destruct (each_ind (fun p sm => pp_add sm p) (fun dn s => exists pp, s = with_pp sm0 (Some pp) /\ pp_inv (sm_segs sm) dn (Some pp) /\ pp_compar pp = metaslab_segsize_compare) l (with_pp sm0 (Some pp0))) as (s' & E & pp & -> & Hi & Ec).
  - exists pp0. split; [done|]. split; [|done]. split; [apply segsize_PpCompare|]. exists []. split; [done|]. split; [apply tr_create_ok|constructor].
  - intros dn p todo s -> (pp & -> & Hi & Ec). apply NoDup_app in Hnd as (_ & Hnd & _). pose proof (ok_room _ _ Hok) as Hr. unfold room in Hr. rewrite length_app in Hr.
    destruct (pp_add_ok (with_pp sm0 (Some pp)) p dn) as (pp' & E & Hi' & Hc'); [done|apply Hnn; set_solver|intros Hp; by apply (Hnd p Hp); left|unfold room; lia| |].
    + intros q Hq Es. apply (canon_distinct _ _ _ (fun p => sm_segs sm !!! p) _ q p (ok_canon _ _ Hok)); [set_solver|set_solver|done|]. intros ->. by apply (Hnd p Hq); left.
    + unfold same_cmp in Hc'. cbn in Hc'. destruct pp' as [pp'|]; [|done]. injection Hc' as Hc'. exists (with_pp sm0 (Some pp')). split; [exact E|]. exists pp'. split; [done|]. split; [|by rewrite Hc'].
      destruct Hi' as (H1 & l' & H2 & H3). split; [done|]. exists l'. split; [|done]. by rewrite H2, Permutation_app_comm.
  - exists pp. split; [exact E|]. constructor; [|done|by exists pp|exists (replicate 64 0); split; [done|split; [done|by apply Forall_replicate]]].
    destruct Hok as [H1 H2 H3 H4 H5 H6]. by constructor.
Qed.

Lemma pp_unload_ok sm l : ms_ok sm l -> metaslab_pp_unload sm = Ok (with_pp (with_ppd sm None) None) /\ sm_ok (with_pp (with_ppd sm None) None) l.
Proof using All.
  intros Hms. destruct (ms_tree_seq sm l Hms) as (pp & l' & E & Ec & Hl & Hs & Ho), (ms_ppd _ _ Hms) as (d & Ed & _). unfold metaslab_pp_unload. rewrite E, Ed. split.
  - destruct (tr_drain_ok false (pp_root pp) l' (fun _ (u : unit) => Ok u) tt Hs) as (todo & t' & _ & _ & ->). assert (Ee : each (fun _ (u : unit) => Ok u) todo tt = Ok tt) by (clear; induction todo; done). by rewrite Ee.
  - destruct (ms_map _ _ Hms) as [H1 H2 H3 H4 H5 H6]. by constructor.
Qed.

(** Loading a map with an allocator, unless a read fails. *)
Lemma ms_load_ok sm o smo (d : D) A : sm_ok sm [] -> sm_pp_root sm = None -> loadable sm SM_FREE -> 0 < sm_size sm -> sm_start sm + sm_size sm <= 2 ^ 62 ->
  sized smo -> smo_objsize smo + 4096 <= 2 ^ 64 -> logged (sm_start sm) (sm_size sm) (sm_shift sm) (log smo d) A (smo_alloc smo) ->
  (exists sm1 l1, space_map_load sm (Some o) SM_FREE smo d = Ok (0, sm1) /\ ms_ok sm1 l1 /\ sm_loaded sm1 = true /\ sm_loading sm1 = false /\ sm_ops sm1 = Some o /\ alike sm sm1 /\
    forall x, space sm1 x <-> inside (sm_start sm) (sm_size sm) x /\ ~ A x) \/
  (exists err sm1, err <> 0 /\ (exists off size, (dmu_read d (smo_object smo) off size).1 = err) /\ space_map_load sm (Some o) SM_FREE smo d = Ok (err, sm1) /\ sm_ok sm1 [] /\ framed (with_loading sm false) sm1).
Proof using All.
  intros Hok Hpp HL G1 G2 Hsz Hb Hlog. destruct (space_map_load_ok sm (Some o) SM_FREE smo d A Hok Hpp ltac:(unfold SM_FREE; lia) HL Hsz Hb Hlog) as [(sm1 & (l1 & H1 & H2 & H3 & H4) & El)|H]; [left|by right].
  destruct H2 as (F1 & F2 & F3 & F4 & F5 & F6 & F7 & F8). set (sm1' := with_ops (with_loaded sm1 true) (Some o)). assert (Hok1 : sm_ok sm1' l1) by (by eapply sm_ok_same).
  assert (Hpp1 : sm_pp_root sm1' = None) by (unfold same_cmp in F8; cbn in F8; rewrite Hpp in F8; cbn in *; by destruct (sm_pp_root sm1)).
  destruct (pp_load_ok sm1' l1 Hok1 Hpp1) as (pp & Ep & Hms); [by cbn; rewrite F2|cbn; by rewrite F1, F2|].
  set (sm2 := with_pp (with_ppd sm1' (Some (replicate 64 0))) (Some pp)) in *. assert (Hms2 : ms_ok (with_loading sm2 false) l1) by (destruct Hms; constructor; try done; by eapply sm_ok_same).
  exists (with_loading sm2 false), l1. split; [rewrite El; unfold finish; cbn [smop_load metaslab_SpaceMapOps]; fold sm1'; by rewrite Ep|].
  split; [done|]. split; [done|]. split; [done|]. split; [done|]. split; [done|]. exact H4.
Qed.

Lemma ms_unload_ok sm l o : ms_ok sm l -> sm_loaded sm = true -> sm_ops sm = Some o ->
  exists sm', space_map_unload sm = Ok sm' /\ sm_ok sm' [] /\ alike sm sm' /\ sm_loading sm' = sm_loading sm /\ sm_loaded sm' = false /\ sm_ops sm' = None /\ sm_pp_root sm' = None /\ sm_ppd sm' = None.
Proof using All.
  intros Hms El Eo. destruct (pp_unload_ok sm l Hms) as [Eu Hoku]. set (sm3 := with_pp (with_ppd sm None) None) in *.
  destruct (vacate_all (with_ops (with_loaded sm3 false) None) l ltac:(by eapply sm_ok_same) eq_refl) as (t & Hem & Ev).
  exists (emptied (with_ops (with_loaded sm3 false) None) t). split; [|done]. unfold space_map_unload. rewrite El, Eo. cbn [smop_unload metaslab_SpaceMapOps]. rewrite Eu. cbn [mbind res_bind]. by rewrite Ev.
Qed.

(** A metaslab's life: the log of an allocated set is loaded with one of the
    allocators; unless a read fails, the map is loaded with the complement of the set,
    its tree by size and its cursors are in order, and unloading it leaves it empty
    and without them. *)
Theorem metaslab_load_unload sm o smo (d : D) A : sm_ok sm [] -> sm_pp_root sm = None -> loadable sm SM_FREE -> 0 < sm_size sm -> sm_start sm + sm_size sm <= 2 ^ 62 ->
  sized smo -> smo_objsize smo + 4096 <= 2 ^ 64 -> logged (sm_start sm) (sm_size sm) (sm_shift sm) (log smo d) A (smo_alloc smo) -> (forall off size, (dmu_read d (smo_object smo) off size).1 = 0) ->
  exists sm1 l1 sm2, space_map_load sm (Some o) SM_FREE smo d = Ok (0, sm1) /\ ms_ok sm1 l1 /\ sm_loaded sm1 = true /\ sm_loading sm1 = false /\ sm_ops sm1 = Some o /\
    (forall x, space sm1 x <-> inside (sm_start sm) (sm_size sm) x /\ ~ A x) /\
    space_map_unload sm1 = Ok sm2 /\ sm_ok sm2 [] /\ sm_loaded sm2 = false /\ sm_ops sm2 = None /\ sm_pp_root sm2 = None /\ sm_ppd sm2 = None.
Proof using All.
  intros Hok Hpp HL G1 G2 Hsz Hb Hlog Hrd. destruct (ms_load_ok sm o smo d A Hok Hpp HL G1 G2 Hsz Hb Hlog) as [(sm1 & l1 & El & Hms & L1 & L2 & L3 & _ & Hx)|(err & sm1 & H1 & (off & size & H2) & _)]; [|by rewrite Hrd in H2].
  destruct (ms_unload_ok sm1 l1 o Hms L1 L3) as (sm2 & Eu & Hok2 & _ & _ & U1 & U2 & U3 & U4). exists sm1, l1, sm2. by split_and!.
Qed.

(** ** Allocation *)

Lemma framed_ms sm sm' l l' : ms_ok sm l -> sm_ok sm' l' -> framed sm sm' -> ms_ok sm' l'.
Proof using All.
  intros [H1 H2 (pp & E & Ec) (d & Ed & Hd)] Hok (F1 & F2 & F3 & _ & _ & _ & F7 & F8). constructor; [done|by rewrite F1, F2| |exists d; by rewrite F7].
  unfold same_cmp in F8. rewrite E in F8. cbn in F8. destruct (sm_pp_root sm') as [pp'|]; [|done]. injection F8 as F8. exists pp'. by rewrite F8.
Qed.

(** What is left once a picked range has been taken out. *)
Definition took sm (size : Z) sm' (offset : Z) : Prop :=
  offset <> 2 ^ 64 - 1 /\ fits sm offset size /\ (forall x, inside offset size x -> space sm x) /\ sm_space sm' = sm_space sm - size /\ forall x, space sm' x <-> space sm x /\ ~ inside offset size x.

(** The fields that an allocation keeps. *)
Definition same_load sm sm' : Prop := alike sm sm' /\ sm_loaded sm' = sm_loaded sm /\ sm_loading sm' = sm_loading sm.

Lemma take_ok sm l size d offset : ms_ok sm l -> cursors_ok d -> offset <> 2 ^ 64 - 1 -> fits sm offset size -> (forall x, inside offset size x -> space sm x) ->
  exists sm' l', space_map_remove (with_ppd sm (Some d)) offset size = Ok sm' /\ ms_ok sm' l' /\ sm_ops sm' = sm_ops sm /\ same_load sm sm' /\ took sm size sm' offset.
Proof using All.
  intros Hms Hd Ho Hf Hin. pose proof (with_ppd_ms sm l d Hms Hd) as Hms1. destruct (space_map_remove_ok _ l offset size (ms_map _ _ Hms1) Hf Hin) as (sm' & l' & E & Hok & Hfr & Hz & Hx).
  exists sm', l'. split; [exact E|]. split; [by eapply framed_ms|]. pose proof Hfr as (F1 & F2 & F3 & F4 & F5 & F6 & _). split; [exact F6|]. split; [done|]. done.
Qed.

Lemma alloc_sound sm l o size sm1 offset : ms_ok sm l -> sm_ops sm = Some o -> smop_alloc o sm size = Ok (sm1, offset) -> sound sm size sm1 offset ->
  exists sm' l', space_map_alloc sm size = Ok (sm', offset) /\ ms_ok sm' l' /\ sm_ops sm' = Some o /\ same_load sm sm' /\ (took sm size sm' offset \/ (offset = 2 ^ 64 - 1 /\ l' = l /\ sm' = sm1)).
Proof using All.
  intros Hms Eo Ea [(d & Hd & ->) Hr]. unfold space_map_alloc, ops_of. rewrite Eo. cbn [mbind res_bind]. rewrite Ea. cbn [mbind res_bind]. destruct Hr as [->|(Hne & Hf & Hin)].
  - cbn. exists (with_ppd sm (Some d)), l. split; [done|]. split; [by apply with_ppd_ms|]. split; [done|]. split; [done|]. by right.
  - rewrite (proj2 (Z.eqb_neq _ _)) by done. cbn [negb]. destruct (take_ok sm l size d offset Hms Hd Hne Hf Hin) as (sm' & l' & -> & H1 & H2 & H3 & H4). exists sm', l'. rewrite <- Eo. split; [done|]. split; [done|]. split; [done|]. split; [done|]. by left.
Qed.

(** The dynamic-fit allocator. *)
Lemma df_take sm l size : ms_ok sm l -> sm_ops sm = Some zfs_metaslab_ops -> sizable sm size ->
  exists sm' l' offset, space_map_alloc sm size = Ok (sm', offset) /\ ms_ok sm' l' /\ sm_ops sm' = Some zfs_metaslab_ops /\ same_load sm sm' /\
    (took sm size sm' offset \/ (offset = 2 ^ 64 - 1 /\ (forall x, space sm' x <-> space sm x) /\ forall start, ~ (forall x, inside start size x -> space sm x))).
Proof using All.
  intros Hms Eo Hsz. destruct (df_alloc_ok sm l size Hms Hsz) as (sm1 & offset & E & Hp). destruct (alloc_sound sm l _ size sm1 offset Hms Eo E (picked_sound _ _ _ _ _ _ Hp)) as (sm' & l' & Ea & Hms' & Eo' & Ha & Hr).
  exists sm', l', offset. split; [done|]. split; [done|]. split; [done|]. split; [done|]. destruct Hr as [Hr|(-> & -> & ->)]; [by left|right]. destruct Hp as [(d & _ & ->) [(Hne & _)|[_ Hno]]]; [done|]. split; [done|]. split; [done|].
  intros start Hall. destruct (range_roomy sm l start size Hms (proj1 Hsz) Hall) as (p & Hp & Hr). by apply (Hno p Hp).
Qed.

(** C10: [space_map_alloc] with the dynamic-fit allocator, the one that is built in: it
    returns, the invariant is kept, and either the result is an aligned range that was
    free and is now exactly what the map has lost, or the result is -1, the map is as
    it was and it has no free range of the size anywhere. *)
Theorem metaslab_df_alloc_correct sm l size : ms_ok sm l -> sm_ops sm = Some zfs_metaslab_ops -> sizable sm size ->
  exists sm' l' offset, space_map_alloc sm size = Ok (sm', offset) /\ ms_ok sm' l' /\ sm_ops sm' = Some zfs_metaslab_ops /\
    (took sm size sm' offset \/ (offset = 2 ^ 64 - 1 /\ (forall x, space sm' x <-> space sm x) /\ forall start, ~ (forall x, inside start size x -> space sm x))).
Proof using All.
  intros Hms Eo Hsz. destruct (df_take sm l size Hms Eo Hsz) as (sm' & l' & offset & H1 & H2 & H3 & _ & H4). by exists sm', l', offset.
Qed.

(** Whichever of the four allocators a map uses, [space_map_alloc] of a block never
    panics or loops, keeps the invariant, and returns -1 or a range that was free and
    is now exactly what the map has lost. *)
Theorem metaslab_alloc_safe sm l o size : ms_ok sm l -> sm_ops sm = Some o -> sizable sm size -> size <= metaslab_min_alloc_size ->
  exists sm' l' offset, space_map_alloc sm size = Ok (sm', offset) /\ ms_ok sm' l' /\ sm_ops sm' = Some o /\ (took sm size sm' offset \/ (offset = 2 ^ 64 - 1 /\ forall x, space sm' x <-> space sm x)).
Proof using All.
  intros Hms Eo Hsz Hmin. assert (H : exists sm1 offset, smop_alloc o sm size = Ok (sm1, offset) /\ sound sm size sm1 offset).
  { destruct o; cbn [smop_alloc metaslab_SpaceMapOps].
    - destruct (ff_alloc_ok sm l size Hms Hsz) as (sm1 & off & k & E & _ & Hp). exists sm1, off. split; [done|by eapply picked_sound].
    - destruct (df_alloc_ok sm l size Hms Hsz) as (sm1 & off & E & Hp). exists sm1, off. split; [done|by eapply picked_sound].
    - by apply (cdf_alloc_ok sm l).
    - by apply (ndf_alloc_ok sm l). }
  destruct H as (sm1 & offset & E & Hs). destruct (alloc_sound sm l o size sm1 offset Hms Eo E Hs) as (sm' & l' & Ea & Hms' & Eo' & _ & Hr). exists sm', l', offset. split; [done|]. split; [done|]. split; [done|].
  destruct Hr as [Hr|(-> & _ & ->)]; [by left|right]. split; [done|]. destruct Hs as [(d & _ & ->) _]. done.
Qed.

(** What [space_map_alloc] hands out can be given back: [space_map_free] of the range
    returns, and the map has the free set, the segments and the free space it had
    before. *)
Theorem metaslab_alloc_free sm l size : ms_ok sm l -> sm_ops sm = Some zfs_metaslab_ops -> sizable sm size -> (exists start, forall x, inside start size x -> space sm x) ->
  exists sm' offset sm'' l'', space_map_alloc sm size = Ok (sm', offset) /\ offset <> 2 ^ 64 - 1 /\ space_map_free sm' offset size = Ok sm'' /\ ms_ok sm'' l'' /\
    looks (sm_segs sm'') l'' = looks (sm_segs sm) l /\ sm_space sm'' = sm_space sm.
Proof using All.
  intros Hms Eo Hsz [start Hst]. destruct (df_alloc_ok sm l size Hms Hsz) as (sm1 & offset & E & Hp). destruct (alloc_sound sm l _ size sm1 offset Hms Eo E (picked_sound _ _ _ _ _ _ Hp)) as (sm' & l' & Ea & Hms' & Eo' & Ha & Hr).
  pose proof (pk_range _ _ _ _ _ _ Hp) as [(Hne & Hf & Hin & _)|[-> Hno]].
  2: { destruct (range_roomy sm l start size Hms (proj1 Hsz) Hst) as (p & Hpi & Hro). by destruct (Hno p Hpi). }
  destruct Hr as [(_ & _ & _ & Hz & Hx)|[? _]]; [|done]. destruct Ha as ((A1 & A2 & A3) & _).
  destruct (space_map_add_ok sm' l' offset size (ms_map _ _ Hms')) as (sm'' & l'' & Ef & Hok & Hfr & Hz2 & Hx2); [unfold fits in *; by rewrite A1, A2, A3|intros x Hi [_ Hn]%Hx; done|].
  exists sm', offset, sm'', l''. pose proof Hfr as (F1 & F2 & F3 & _ & _ & F6 & _). split; [done|]. split; [done|]. split; [unfold space_map_free, ops_of; rewrite Ef; cbn [mbind res_bind]; by rewrite F6, Eo'|]. split; [by eapply framed_ms|].
  assert (Hs : forall x, space sm x <-> space sm'' x).
  { intros x. rewrite Hx2, Hx. split; [intros H; destruct (decide (inside offset size x)); tauto|]. intros [[H _]|H]; [done|by apply Hin]. }
  apply (same_segs sm sm'' l l''); [apply Hms|done|congruence..|done].
Qed.
End spec.

(** ** A concrete metaslab *)

#[local] Existing Instance ex_kmem.
#[local] Existing Instance ex_kmem_laws.
#[local] Existing Instance ex_dmu.
#[local] Existing Instance ex_dmu_laws.

Definition ex_slab : space_map Avl.avl_tree metaslab_ops := space_map_create 4096 4096 9.

Lemma ex_slab_ok : sm_ok ex_slab [].
Proof. by apply space_map_create_ok. Qed.

(** A slab with the units 1 to 4 free. *)
Lemma ex_ms (o : metaslab_ops) : exists (sm : space_map Avl.avl_tree metaslab_ops) l, ms_ok sm l /\ sm_ops sm = Some o /\ sm_shift sm = 9 /\ forall x, space sm x <-> inside 4608 2048 x.
Proof.
  destruct (space_map_add_ok ex_slab [] 4608 2048 ex_slab_ok) as (sm & l & E & Hok & (F1 & F2 & F3 & _ & _ & _ & _ & F8) & _ & Hx); [done|intros x _; apply (space_empty ex_slab ex_slab_ok)|].
  assert (Hok1 : sm_ok (with_ops sm (Some o)) l) by (by eapply sm_ok_same). assert (Hpp : sm_pp_root (with_ops sm (Some o)) = None) by (unfold same_cmp in F8; cbn; by destruct (sm_pp_root sm)).
  destruct (pp_load_ok (with_ops sm (Some o)) l Hok1 Hpp) as (pp & _ & Hms); [cbn; by rewrite F2|cbn; by rewrite F1, F2|]. eexists _, l. split; [exact Hms|]. split; [done|]. split; [exact F3|].
  intros x. cbn. etrans; [apply Hx|]. pose proof (proj2 (space_empty ex_slab ex_slab_ok) x). tauto.
Qed.

Lemma metaslab_df_alloc_witness : exists (sm : space_map Avl.avl_tree metaslab_ops) sm' offset, (forall x, space sm x <-> inside 4608 2048 x) /\ space_map_alloc sm 1024 = Ok (sm', offset) /\ took sm 1024 sm' offset /\
  exists sm2, space_map_alloc sm 4096 = Ok (sm2, 2 ^ 64 - 1).
Proof.
  destruct (ex_ms zfs_metaslab_ops) as (sm & l & Hms & Eo & Es & Hx). assert (Hz : sizable sm 1024) by (unfold sizable; rewrite Es; done). assert (Hz2 : sizable sm 4096) by (unfold sizable; rewrite Es; done).
  destruct (metaslab_df_alloc_correct sm l 1024 Hms Eo Hz) as (sm' & l' & off & E & _ & _ & [Ht|(_ & _ & Hno)]); [|destruct (Hno 4608); intros x Hi; apply Hx; lia].
  destruct (metaslab_df_alloc_correct sm l 4096 Hms Eo Hz2) as (sm2 & l2 & off2 & E2 & _ & _ & [(_ & _ & Hin & _)|(-> & _)]).
  { assert (H1 : space sm off2) by (apply Hin; lia). assert (H2 : space sm (off2 + 4095)) by (apply Hin; lia). apply Hx in H1, H2. lia. }
  exists sm, sm', off. split; [exact Hx|]. split; [exact E|]. split; [exact Ht|]. by exists sm2.
Defined.

Lemma metaslab_alloc_safe_witness : exists (sm : space_map Avl.avl_tree metaslab_ops) sm' offset, space_map_alloc sm 1024 = Ok (sm', offset) /\ (took sm 1024 sm' offset \/ (offset = 2 ^ 64 - 1 /\ forall x, space sm' x <-> space sm x)).
Proof.
  destruct (ex_ms metaslab_ndf_ops) as (sm & l & Hms & Eo & Es & Hx). assert (Hz : sizable sm 1024) by (unfold sizable; rewrite Es; done).
  destruct (metaslab_alloc_safe sm l metaslab_ndf_ops 1024 Hms Eo Hz ltac:(done)) as (sm' & l' & off & E & _ & _ & Hr). by exists sm, sm', off.
Defined.

Lemma metaslab_alloc_free_witness : exists (sm : space_map Avl.avl_tree metaslab_ops) sm' offset sm'', space_map_alloc sm 1024 = Ok (sm', offset) /\ space_map_free sm' offset 1024 = Ok sm'' /\ sm_space sm'' = sm_space sm.
Proof.
  destruct (ex_ms zfs_metaslab_ops) as (sm & l & Hms & Eo & Es & Hx). assert (Hz : sizable sm 1024) by (unfold sizable; rewrite Es; done).
  destruct (metaslab_alloc_free sm l 1024 Hms Eo Hz) as (sm' & off & sm'' & l'' & E1 & _ & E2 & _ & _ & E3); [exists 4608; intros x Hi; apply Hx; lia|]. by exists sm, sm', off, sm''.
Defined.

Lemma metaslab_load_unload_witness : exists sm1 sm2, space_map_load ex_slab (Some zfs_metaslab_ops) SM_FREE ex_smo ex_disk = Ok (0, sm1) /\ (forall x, space sm1 x <-> inside 4096 4096 x) /\ space_map_unload sm1 = Ok sm2.
Proof.
  destruct (metaslab_load_unload ex_slab zfs_metaslab_ops ex_smo ex_disk (fun _ => False) ex_slab_ok eq_refl) as (sm1 & l1 & sm2 & E1 & _ & _ & _ & _ & Hx & E2 & _); [done|done|done|done|done|apply logged_nil; intros x []|done|].
  exists sm1, sm2. split; [exact E1|]. split; [|exact E2]. intros x. rewrite Hx. change (sm_start ex_slab) with 4096. change (sm_size ex_slab) with 4096. clear. tauto.
Defined.
End MetaslabSpec.
