(* ===== verification/TxgList.v ===== *)
(** Lists of objects per transaction group (module/zfs/txg.c, include/sys/txg.h):
    what is dirty in each of the groups that can be open, quiescing or syncing. *)

From stdpp Require Import gmap.
From S2P Require Import Prelude OrdTree.
Open Scope Z_scope.

Module TxgList.

Definition TXG_CONCURRENT_STATES : Z := 3.
Definition TXG_SIZE : Z := 4.
Definition TXG_MASK : Z := TXG_SIZE - 1.
Definition TXG_INITIAL : Z := TXG_SIZE.
Definition TXG_DEFER_SIZE : Z := 2.
Definition TXG_CLEAN (txg : Z) : Z := u64 (txg - 1).

(** [txg & TXG_MASK] *)
Definition TXG_IDX (txg : Z) : Z := Z.land txg TXG_MASK.

(** The chain from each [tl_head] along [tn_next]; an object is on a chain exactly when
    its [tn_member] is set. *)
Definition txg_list : Type := list (list Z).

Definition txg_list_create : txg_list := replicate 4 [].

Definition txg_list_empty (tl : txg_list) (txg : Z) : res bool :=
  l ← rd tl (TXG_IDX txg); Ok (bool_decide (l = [])).

(** Whether the object was on the list already. *)
Definition txg_list_add (tl : txg_list) (p txg : Z) : res (txg_list * bool) :=
  l ← rd tl (TXG_IDX txg);
  if bool_decide (p ∈ l) then Ok (tl, true) else tl ← wr tl (TXG_IDX txg) (p :: l); Ok (tl, false).

Definition txg_list_add_tail (tl : txg_list) (p txg : Z) : res (txg_list * bool) :=
  l ← rd tl (TXG_IDX txg);
  if bool_decide (p ∈ l) then Ok (tl, true) else tl ← wr tl (TXG_IDX txg) (l ++ [p]); Ok (tl, false).

(** The head of the list, or [NULL]. *)
Definition txg_list_remove (tl : txg_list) (txg : Z) : res (txg_list * Z) :=
  l ← rd tl (TXG_IDX txg);
  match l with
  | [] => Ok (tl, NULL)
  | p :: l => tl ← wr tl (TXG_IDX txg) l; Ok (tl, p)
  end.

(** A chain without the first occurrence of an object. *)
Fixpoint unlink (p : Z) (l : list Z) : list Z :=
  match l with [] => [] | q :: l => if q =? p then l else q :: unlink p l end.

Definition txg_list_remove_this (tl : txg_list) (p txg : Z) : res (txg_list * Z) :=
  l ← rd tl (TXG_IDX txg);
  if bool_decide (p ∈ l) then tl ← wr tl (TXG_IDX txg) (unlink p l); Ok (tl, p) else Ok (tl, NULL).

Definition txg_list_member (tl : txg_list) (p txg : Z) : res bool :=
  l ← rd tl (TXG_IDX txg); Ok (bool_decide (p ∈ l)).

Definition txg_list_head (tl : txg_list) (txg : Z) : res Z := l ← rd tl (TXG_IDX txg); Ok (hd NULL l).

(** What follows an object. *)
Fixpoint after (p : Z) (l : list Z) : Z :=
  match l with [] => NULL | q :: l => if q =? p then hd NULL l else after p l end.

Definition txg_list_next (tl : txg_list) (p txg : Z) : res Z := l ← rd tl (TXG_IDX txg); Ok (after p l).

(** ** Slots *)

Lemma TXG_IDX_mod txg : TXG_IDX txg = txg mod 4.
Proof. unfold TXG_IDX, TXG_MASK, TXG_SIZE. change (4 - 1) with (2 ^ 2 - 1). by rewrite land_pred_pow2. Qed.

Lemma TXG_IDX_range txg : 0 <= TXG_IDX txg < 4.
Proof. rewrite TXG_IDX_mod. apply Z.mod_pos_bound. lia. Qed.

Lemma TXG_CLEAN_idx txg : TXG_IDX (TXG_CLEAN txg) = (txg + 3) mod 4.
Proof. rewrite TXG_IDX_mod. unfold TXG_CLEAN. dlia. Qed.

(** ** Members *)

Record tl_ok (tl : txg_list) : Prop := { tl_len : length tl = 4%nat; tl_nodup : Forall (@NoDup Z) tl }.

(** The chain of a group. *)
Definition chain (tl : txg_list) (txg : Z) : list Z := nth (Z.to_nat (TXG_IDX txg)) tl [].

Lemma chain_rd tl txg : tl_ok tl -> rd tl (TXG_IDX txg) = Ok (chain tl txg).
Proof.
  intros [Hl _]. pose proof (TXG_IDX_range txg). destruct (rd_in_bounds tl (TXG_IDX txg)) as (l & E & Hl'); [rewrite Hl; lia|]. rewrite E. f_equal. unfold chain.
  symmetry. by apply nth_lookup_Some.
Qed.

Lemma chain_nodup tl txg : tl_ok tl -> NoDup (chain tl txg).
Proof.
  intros Hok. pose proof (TXG_IDX_range txg). destruct Hok as [Hl Hn]. destruct (rd_in_bounds tl (TXG_IDX txg)) as (l & _ & Hl'); [rewrite Hl; lia|]. unfold chain. rewrite (nth_lookup_Some _ _ _ _ Hl').
  rewrite list.Forall_forall in Hn. apply Hn. by eapply list_elem_of_lookup_2.
Qed.

Lemma chain_wr tl txg l : tl_ok tl -> NoDup l ->
  exists tl', wr tl (TXG_IDX txg) l = Ok tl' /\ tl_ok tl' /\ forall txg', chain tl' txg' = if TXG_IDX txg' =? TXG_IDX txg then l else chain tl txg'.
Proof.
  intros [Hl Hn] Hd. pose proof (TXG_IDX_range txg) as Hr. rewrite wr_in_bounds by (rewrite Hl; lia). eexists. split; [done|]. split.
  - constructor; [by rewrite length_insert|]. by apply Forall_insert.
  - intros txg'. unfold chain. pose proof (TXG_IDX_range txg') as Hr'. destruct (Z.eqb_spec (TXG_IDX txg') (TXG_IDX txg)) as [->|Hne].
    + apply nth_lookup_Some, list_lookup_insert_eq. rewrite Hl. lia.
    + rewrite !nth_lookup, list_lookup_insert_ne by lia. done.
Qed.

(** The chains after an addition. *)
Lemma chain_add_ok tl p txg : tl_ok tl -> exists tl' b, txg_list_add tl p txg = Ok (tl', b) /\ tl_ok tl' /\
  forall txg' q, q ∈ chain tl' txg' <-> q ∈ chain tl txg' \/ (q = p /\ TXG_IDX txg' = TXG_IDX txg).
Proof.
  intros Hok. unfold txg_list_add. rewrite (chain_rd tl txg Hok). bnd. case_bool_decide as Hp.
  - exists tl, true. split; [done|]. split; [done|]. intros txg' q. split; [by left|]. intros [H|[-> E]]; [done|]. unfold chain in *. by rewrite E.
  - destruct (chain_wr tl txg (p :: chain tl txg) Hok) as (tl' & -> & Hok' & Hc); [constructor; [done|by apply chain_nodup]|]. bnd. exists tl', false. split; [done|]. split; [done|].
    intros txg' q. rewrite Hc. destruct (Z.eqb_spec (TXG_IDX txg') (TXG_IDX txg)) as [E|E]; [|naive_solver]. rewrite elem_of_cons. unfold chain. rewrite E. naive_solver.
Qed.

Lemma chain_remove_ok tl txg : tl_ok tl -> exists tl' p, txg_list_remove tl txg = Ok (tl', p) /\ tl_ok tl' /\
  ((chain tl txg = [] /\ p = NULL /\ tl' = tl) \/ (chain tl txg = p :: chain tl' txg /\ forall txg', TXG_IDX txg' <> TXG_IDX txg -> chain tl' txg' = chain tl txg')).
Proof.
  intros Hok. unfold txg_list_remove. rewrite (chain_rd tl txg Hok). bnd. pose proof (chain_nodup tl txg Hok) as Hn. destruct (chain tl txg) as [|p l] eqn:E.
  - exists tl, NULL. split; [done|]. split; [done|]. by left.
  - apply list.NoDup_cons in Hn as [_ Hn]. destruct (chain_wr tl txg l Hok Hn) as (tl' & -> & Hok' & Hc). bnd. exists tl', p. split; [done|]. split; [done|]. right. split; [by rewrite Hc, Z.eqb_refl|].
    intros txg' Hne. rewrite Hc. by rewrite (proj2 (Z.eqb_neq _ _)).
Qed.

Lemma create_ok : tl_ok txg_list_create /\ forall txg, chain txg_list_create txg = [].
Proof.
  split; [split; [done|repeat constructor]|]. intros txg. unfold chain, txg_list_create. apply nth_lookup_Some, lookup_replicate. split; [done|]. pose proof (TXG_IDX_range txg). lia.
Qed.
End TxgList.
