(* ===== verification/MetaslabSync.v ===== *)
(** Metaslabs (module/zfs/metaslab.c): the maps of what is free, what is allocated and
    freed in each transaction group and what is freed but not yet to be used again,
    their groups in the order of weight, and their life from one transaction group to
    the next. *)

From S2P Require Import Prelude OrdTree SpaceMap SpaceLog Metaslab TxgList.
Import SpaceMap SpaceLog Metaslab TxgList.
Open Scope Z_scope.

Module MetaslabSync.

(** Conversion to a 64-bit signed integer. *)
Abbreviation i64 x := ((x + 2 ^ 63) mod 2 ^ 64 - 2 ^ 63).

(** Tunable globals, with the values they are initialised to; nothing in the code assigns
    to them. *)
Definition metaslab_debug : bool := false.
Definition metaslab_smo_bonus_pct : Z := 150.
Definition METASLAB_WEIGHT_PRIMARY : Z := u64 (Z.shiftl 1 63).
Definition METASLAB_WEIGHT_SECONDARY : Z := u64 (Z.shiftl 1 62).
Definition METASLAB_ACTIVE_MASK : Z := Z.lor METASLAB_WEIGHT_PRIMARY METASLAB_WEIGHT_SECONDARY.

(** [vdev_dirty] flags. *)
Definition VDD_METASLAB : Z := 1.
Definition VDD_DTL : Z := 2.

(** ** State *)

Record metaslab (T : Type) := MkMetaslab {
  ms_smo : space_map_obj;
  ms_smo_syncing : space_map_obj;
  ms_allocmap : list (space_map T metaslab_ops);
  ms_freemap : list (space_map T metaslab_ops);
  ms_defermap : list (space_map T metaslab_ops);
  ms_map : space_map T metaslab_ops;
  ms_deferspace : Z;
  ms_weight : Z }.
Arguments MkMetaslab {T}.
Arguments ms_smo {T}.
Arguments ms_smo_syncing {T}.
Arguments ms_allocmap {T}.
Arguments ms_freemap {T}.
Arguments ms_defermap {T}.
Arguments ms_map {T}.
Arguments ms_deferspace {T}.
Arguments ms_weight {T}.

Record vdev_stat := VdevStat { vs_alloc : Z; vs_space : Z; vs_dspace : Z; vs_write_errors : Z }.

(** The operations of a vdev: those of RAID-Z, and of anything else. *)
Inductive vdev_ops_t := vdev_raidz_ops | vdev_other_ops.

(** A vdev below a top-level one that is not RAID-Z. *)
#[warnings="-register-all"]
Inductive vdev_node := VdevNode (children : list vdev_node).

(** The part of a top-level vdev that metaslabs use; the length of [vdev_ms] is
    [vdev_ms_count] and that of [vdev_child] is [vdev_children]. *)
Record top_vdev := TopVdev {
  vdev_asize : Z;
  vdev_ashift : Z;
  vdev_state : Z;
  vdev_ops : vdev_ops_t;
  vdev_nparity : Z;
  vdev_child : list vdev_node;
  vdev_stat_ : vdev_stat;
  vdev_ms_array : Z;
  vdev_ms_shift : Z;
  vdev_ms : list Z;
  vdev_pending_fastwrite : Z;
  vdev_ms_list : txg_list;
  vdev_dtl_list : txg_list;
  vdev_deflate_ratio : Z;
  vdev_ishole : bool;
  vdev_removing : bool;
  vdev_cant_write : bool;
  vdev_dtl_smo : space_map_obj }.

(** Groups and vdevs are known by the number of the vdev; [mg_slabs] is the memory of the
    metaslabs, and [mg_class] the number of a class. *)
Record metaslab_group (T : Type) := MkGroup {
  mg_metaslab_tree : T;
  mg_aliquot : Z;
  mg_bonus_area : Z;
  mg_alloc_failures : Z;
  mg_bias : Z;
  mg_activation_count : Z;
  mg_class : Z;
  mg_vd : top_vdev;
  mg_prev : option Z;
  mg_next : option Z;
  mg_slabs : gmap Z (metaslab T) }.
Arguments MkGroup {T}.
Arguments mg_metaslab_tree {T}.
Arguments mg_aliquot {T}.
Arguments mg_bonus_area {T}.
Arguments mg_alloc_failures {T}.
Arguments mg_bias {T}.
Arguments mg_activation_count {T}.
Arguments mg_class {T}.
Arguments mg_vd {T}.
Arguments mg_prev {T}.
Arguments mg_next {T}.
Arguments mg_slabs {T}.

Record metaslab_class := MkClass {
  mc_rotor : option Z;
  mc_ops : metaslab_ops;
  mc_aliquot : Z;
  mc_alloc : Z;
  mc_deferred : Z;
  mc_space : Z;
  mc_dspace : Z }.

(** A pool: its objects, its classes (the first is the normal one), the statistics of
    the root vdev, the groups of the top-level vdevs, and the vdevs that are dirty. *)
Record pool (T D : Type) := Pool {
  spa_mos : D;
  spa_classes : list metaslab_class;
  spa_root_stat : vdev_stat;
  spa_tops : list (metaslab_group T);
  spa_vdev_txg_list : txg_list }.
Arguments Pool {T D}.
Arguments spa_mos {T D}.
Arguments spa_classes {T D}.
Arguments spa_root_stat {T D}.
Arguments spa_tops {T D}.
Arguments spa_vdev_txg_list {T D}.

(** ** Fields *)

Definition with_weight {T} (m : metaslab T) (w : Z) : metaslab T := MkMetaslab (ms_smo m) (ms_smo_syncing m) (ms_allocmap m) (ms_freemap m) (ms_defermap m) (ms_map m) (ms_deferspace m) w.
Definition with_map {T} (m : metaslab T) (sm : space_map T metaslab_ops) : metaslab T := MkMetaslab (ms_smo m) (ms_smo_syncing m) (ms_allocmap m) (ms_freemap m) (ms_defermap m) sm (ms_deferspace m) (ms_weight m).
Definition with_allocmap {T} (m : metaslab T) (l : list (space_map T metaslab_ops)) : metaslab T := MkMetaslab (ms_smo m) (ms_smo_syncing m) l (ms_freemap m) (ms_defermap m) (ms_map m) (ms_deferspace m) (ms_weight m).
Definition with_freemap {T} (m : metaslab T) (l : list (space_map T metaslab_ops)) : metaslab T := MkMetaslab (ms_smo m) (ms_smo_syncing m) (ms_allocmap m) l (ms_defermap m) (ms_map m) (ms_deferspace m) (ms_weight m).

Definition with_smo {T} (m : metaslab T) (smo : space_map_obj) : metaslab T := MkMetaslab smo (ms_smo_syncing m) (ms_allocmap m) (ms_freemap m) (ms_defermap m) (ms_map m) (ms_deferspace m) (ms_weight m).

Definition with_vd_stat (vd : top_vdev) (s : vdev_stat) : top_vdev := TopVdev (vdev_asize vd) (vdev_ashift vd) (vdev_state vd) (vdev_ops vd) (vdev_nparity vd) (vdev_child vd) s (vdev_ms_array vd) (vdev_ms_shift vd) (vdev_ms vd) (vdev_pending_fastwrite vd) (vdev_ms_list vd) (vdev_dtl_list vd) (vdev_deflate_ratio vd) (vdev_ishole vd) (vdev_removing vd) (vdev_cant_write vd) (vdev_dtl_smo vd).
Definition with_ms (vd : top_vdev) (l : list Z) : top_vdev := TopVdev (vdev_asize vd) (vdev_ashift vd) (vdev_state vd) (vdev_ops vd) (vdev_nparity vd) (vdev_child vd) (vdev_stat_ vd) (vdev_ms_array vd) (vdev_ms_shift vd) l (vdev_pending_fastwrite vd) (vdev_ms_list vd) (vdev_dtl_list vd) (vdev_deflate_ratio vd) (vdev_ishole vd) (vdev_removing vd) (vdev_cant_write vd) (vdev_dtl_smo vd).
Definition with_array (vd : top_vdev) (o : Z) : top_vdev := TopVdev (vdev_asize vd) (vdev_ashift vd) (vdev_state vd) (vdev_ops vd) (vdev_nparity vd) (vdev_child vd) (vdev_stat_ vd) o (vdev_ms_shift vd) (vdev_ms vd) (vdev_pending_fastwrite vd) (vdev_ms_list vd) (vdev_dtl_list vd) (vdev_deflate_ratio vd) (vdev_ishole vd) (vdev_removing vd) (vdev_cant_write vd) (vdev_dtl_smo vd).
Definition with_lists (vd : top_vdev) (ms dtl : txg_list) : top_vdev := TopVdev (vdev_asize vd) (vdev_ashift vd) (vdev_state vd) (vdev_ops vd) (vdev_nparity vd) (vdev_child vd) (vdev_stat_ vd) (vdev_ms_array vd) (vdev_ms_shift vd) (vdev_ms vd) (vdev_pending_fastwrite vd) ms dtl (vdev_deflate_ratio vd) (vdev_ishole vd) (vdev_removing vd) (vdev_cant_write vd) (vdev_dtl_smo vd).
Definition with_fastwrite (vd : top_vdev) (n : Z) : top_vdev := TopVdev (vdev_asize vd) (vdev_ashift vd) (vdev_state vd) (vdev_ops vd) (vdev_nparity vd) (vdev_child vd) (vdev_stat_ vd) (vdev_ms_array vd) (vdev_ms_shift vd) (vdev_ms vd) n (vdev_ms_list vd) (vdev_dtl_list vd) (vdev_deflate_ratio vd) (vdev_ishole vd) (vdev_removing vd) (vdev_cant_write vd) (vdev_dtl_smo vd).

Definition with_shift (vd : top_vdev) (n : Z) : top_vdev := TopVdev (vdev_asize vd) (vdev_ashift vd) (vdev_state vd) (vdev_ops vd) (vdev_nparity vd) (vdev_child vd) (vdev_stat_ vd) (vdev_ms_array vd) n (vdev_ms vd) (vdev_pending_fastwrite vd) (vdev_ms_list vd) (vdev_dtl_list vd) (vdev_deflate_ratio vd) (vdev_ishole vd) (vdev_removing vd) (vdev_cant_write vd) (vdev_dtl_smo vd).
Definition with_dtl_smo (vd : top_vdev) (smo : space_map_obj) : top_vdev := TopVdev (vdev_asize vd) (vdev_ashift vd) (vdev_state vd) (vdev_ops vd) (vdev_nparity vd) (vdev_child vd) (vdev_stat_ vd) (vdev_ms_array vd) (vdev_ms_shift vd) (vdev_ms vd) (vdev_pending_fastwrite vd) (vdev_ms_list vd) (vdev_dtl_list vd) (vdev_deflate_ratio vd) (vdev_ishole vd) (vdev_removing vd) (vdev_cant_write vd) smo.

Definition with_tree {T} (mg : metaslab_group T) (t : T) : metaslab_group T := MkGroup t (mg_aliquot mg) (mg_bonus_area mg) (mg_alloc_failures mg) (mg_bias mg) (mg_activation_count mg) (mg_class mg) (mg_vd mg) (mg_prev mg) (mg_next mg) (mg_slabs mg).
Definition with_bonus_area {T} (mg : metaslab_group T) (n : Z) : metaslab_group T := MkGroup (mg_metaslab_tree mg) (mg_aliquot mg) n (mg_alloc_failures mg) (mg_bias mg) (mg_activation_count mg) (mg_class mg) (mg_vd mg) (mg_prev mg) (mg_next mg) (mg_slabs mg).
Definition with_failures {T} (mg : metaslab_group T) (n : Z) : metaslab_group T := MkGroup (mg_metaslab_tree mg) (mg_aliquot mg) (mg_bonus_area mg) n (mg_bias mg) (mg_activation_count mg) (mg_class mg) (mg_vd mg) (mg_prev mg) (mg_next mg) (mg_slabs mg).
Definition with_vd {T} (mg : metaslab_group T) (vd : top_vdev) : metaslab_group T := MkGroup (mg_metaslab_tree mg) (mg_aliquot mg) (mg_bonus_area mg) (mg_alloc_failures mg) (mg_bias mg) (mg_activation_count mg) (mg_class mg) vd (mg_prev mg) (mg_next mg) (mg_slabs mg).
Definition with_slabs {T} (mg : metaslab_group T) (h : gmap Z (metaslab T)) : metaslab_group T := MkGroup (mg_metaslab_tree mg) (mg_aliquot mg) (mg_bonus_area mg) (mg_alloc_failures mg) (mg_bias mg) (mg_activation_count mg) (mg_class mg) (mg_vd mg) (mg_prev mg) (mg_next mg) h.

(** ** The environment *)

(** More of the DMU: new objects, freeing an object (the callers ignore the error), and the
    bonus buffer of an object, which holds a [space_map_obj_t]; [dmu_bonus_hold] returns an
    error and its content. *)
Class DmuObjects (D : Type) := {
  dmu_object_alloc : D -> Z * D;
  dmu_object_free : D -> Z -> D;
  dmu_bonus_hold : D -> Z -> Z * space_map_obj;
  dmu_set_bonus : D -> Z -> space_map_obj -> D }.

Section sync.
Context {T I D : Type} {HT : Tree T I} {HK : Kmem} {HD : Dmu D} {HB : DmuObjects D}.
Implicit Types (pl : pool T D) (mg : metaslab_group T) (msp : metaslab T) (sm : space_map T metaslab_ops) (d : D).

#[export] Instance metaslab_inhabited : Inhabited (metaslab T) :=
  populate (MkMetaslab (SpaceMapObj 0 0 0) (SpaceMapObj 0 0 0) [] [] [] (space_map_create 0 0 0) 0 0).

Definition get_mg pl (g : Z) : res (metaslab_group T) := rd (spa_tops pl) g.
Definition set_mg pl (g : Z) mg : res (pool T D) := l ← wr (spa_tops pl) g mg; Ok (Pool (spa_mos pl) (spa_classes pl) (spa_root_stat pl) l (spa_vdev_txg_list pl)).
Definition set_mos pl d : pool T D := Pool d (spa_classes pl) (spa_root_stat pl) (spa_tops pl) (spa_vdev_txg_list pl).
Definition get_mc pl (c : Z) : res metaslab_class := rd (spa_classes pl) c.
Definition set_mc pl (c : Z) (mc : metaslab_class) : res (pool T D) := l ← wr (spa_classes pl) c mc; Ok (Pool (spa_mos pl) l (spa_root_stat pl) (spa_tops pl) (spa_vdev_txg_list pl)).
Definition get_ms mg (p : Z) : res (metaslab T) := match mg_slabs mg !! p with Some m => Ok m | None => Fault FOob end.
Definition set_ms mg (p : Z) msp : metaslab_group T := with_slabs mg (<[p := msp]> (mg_slabs mg)).

(** ** Space accounting *)

Definition metaslab_class_space_update (mc : metaslab_class) (alloc_delta defer_delta space_delta dspace_delta : Z) : metaslab_class :=
  MkClass (mc_rotor mc) (mc_ops mc) (mc_aliquot mc) (u64 (mc_alloc mc + alloc_delta)) (u64 (mc_deferred mc + defer_delta)) (u64 (mc_space mc + space_delta)) (u64 (mc_dspace mc + dspace_delta)).

Definition stat_update (s : vdev_stat) (alloc_delta space_delta dspace_delta : Z) : vdev_stat :=
  VdevStat (u64 (vs_alloc s + alloc_delta)) (u64 (vs_space s + space_delta)) (u64 (vs_dspace s + dspace_delta)) (vs_write_errors s).

Definition vdev_space_update pl (g alloc_delta defer_delta space_delta : Z) : res (pool T D) :=
  mg ← get_mg pl g;
  let vd := mg_vd mg in
  let dspace_delta := i64 (Z.shiftr space_delta 9 * vdev_deflate_ratio vd) in
  pl ← set_mg pl g (with_vd mg (with_vd_stat vd (stat_update (vdev_stat_ vd) alloc_delta space_delta dspace_delta)));
  let pl := if mg_class mg =? 0 then Pool (spa_mos pl) (spa_classes pl) (stat_update (spa_root_stat pl) alloc_delta space_delta dspace_delta) (spa_tops pl) (spa_vdev_txg_list pl) else pl in
  mc ← get_mc pl (mg_class mg);
  set_mc pl (mg_class mg) (metaslab_class_space_update mc alloc_delta defer_delta space_delta dspace_delta).

Definition vdev_dirty pl (g flags arg txg : Z) : res (pool T D) :=
  mg ← get_mg pl g;
  let vd := mg_vd mg in
  ms ← (if negb (Z.land flags VDD_METASLAB =? 0) then '(l, _) ← txg_list_add (vdev_ms_list vd) arg txg; Ok l else Ok (vdev_ms_list vd));
  dtl ← (if negb (Z.land flags VDD_DTL =? 0) then '(l, _) ← txg_list_add (vdev_dtl_list vd) arg txg; Ok l else Ok (vdev_dtl_list vd));
  pl ← set_mg pl g (with_vd mg (with_lists vd ms dtl));
  '(l, _) ← txg_list_add (spa_vdev_txg_list pl) g txg;
  Ok (Pool (spa_mos pl) (spa_classes pl) (spa_root_stat pl) (spa_tops pl) l).

(** ** Groups *)

Definition metaslab_compare (m1 m2 : metaslab T) : Z :=
  if ms_weight m1 <? ms_weight m2 then 1
  else if ms_weight m1 >? ms_weight m2 then -1
  else if sm_start (ms_map m1) <? sm_start (ms_map m2) then -1
  else if sm_start (ms_map m1) >? sm_start (ms_map m2) then 1
  else 0.

(** [avl_add] of a metaslab. *)
Definition tree_add mg (p : Z) : res (metaslab_group T) :=
  t ← tr_add (mg_metaslab_tree mg) (fun a b => metaslab_compare (mg_slabs mg !!! a) (mg_slabs mg !!! b)) p; Ok (with_tree mg t).

Definition metaslab_group_add mg (p : Z) : res (metaslab_group T) :=
  msp ← get_ms mg p; tree_add (set_ms mg p (with_weight msp 0)) p.

Definition metaslab_group_remove mg (p : Z) : res (metaslab_group T) :=
  t ← tr_remove (mg_metaslab_tree mg) p; Ok (with_tree mg t).

Definition metaslab_group_sort mg (p weight : Z) : res (metaslab_group T) :=
  t ← tr_remove (mg_metaslab_tree mg) p;
  msp ← get_ms mg p;
  tree_add (set_ms (with_tree mg t) p (with_weight msp weight)) p.

(** ** Weights *)

Definition metaslab_weight mg msp : res Z :=
  let sm := ms_map msp in
  let vd := mg_vd mg in
  let space := u64 (sm_size sm - smo_alloc (ms_smo msp)) in
  let weight := space in
  _ ← verify (negb (zlen (vdev_ms vd) =? 0));
  let weight := u64 (2 * weight - u64 (Z.shiftr (sm_start sm) (vdev_ms_shift vd) * weight) / zlen (vdev_ms vd)) in
  let weight := if sm_start sm <=? mg_bonus_area mg then u64 (weight * (metaslab_smo_bonus_pct / 100)) else weight in
  if sm_loaded sm then
    o ← ops_of sm;
    frag ← smop_fragmented o sm;
    Ok (if (frag : bool) then weight else Z.lor weight (Z.land (ms_weight msp) METASLAB_ACTIVE_MASK))
  else Ok weight.

(** ** Activation *)

(** Wait until no other thread is loading the map: the loop does not end by itself. *)
Definition space_map_load_wait sm : res unit := if sm_loading sm then Fault FFuel else Ok tt.

(** Load the map of free space, without what is deferred: the error, and the map. *)
Definition activate_load msp (ops : metaslab_ops) d : res (Z * metaslab T) :=
  let sm := ms_map msp in
  _ ← space_map_load_wait sm;
  if sm_loaded sm then Ok (0, msp)
  else
    '(error, sm) ← space_map_load sm (Some ops) SM_FREE (ms_smo msp) d;
    if negb (error =? 0) then Ok (error, with_map msp sm)
    else
      sm ← for_range 0 TXG_DEFER_SIZE (fun t sm => m ← rd (ms_defermap msp) t; space_map_walk m space_map_claim sm) sm;
      Ok (0, with_map msp sm).

(** [ops] are those of the class of the group. *)
Definition metaslab_activate mg (ops : metaslab_ops) d (p activation_weight : Z) : res (metaslab_group T * Z) :=
  msp ← get_ms mg p;
  if Z.land (ms_weight msp) METASLAB_ACTIVE_MASK =? 0 then
    '(error, msp) ← activate_load msp ops d;
    let mg := set_ms mg p msp in
    if negb (error =? 0) then mg ← metaslab_group_sort mg p 0; Ok (mg, error)
    else
      let mg := if sm_start (ms_map msp) >? mg_bonus_area mg then with_bonus_area mg (sm_start (ms_map msp)) else mg in
      mg ← metaslab_group_sort mg p (Z.lor (ms_weight msp) activation_weight);
      Ok (mg, 0)
  else Ok (mg, 0).

Definition metaslab_passivate mg (p size : Z) : res (metaslab_group T) :=
  msp ← get_ms mg p; metaslab_group_sort mg p (Z.min (ms_weight msp) size).

(** ** Writing *)

(** The allocated set from first principles, to replace the log; [allocmap], [freemap] and
    [freed_map] are those of [txg]. *)
Definition metaslab_condense msp (txg : Z) (allocmap freemap freed_map : space_map T metaslab_ops) (smo : space_map_obj) d :
    res (space_map T metaslab_ops * space_map T metaslab_ops * space_map_obj * D) :=
  '(allocmap, _) ← space_map_vacate allocmap None tt;
  '(freemap, _) ← space_map_vacate freemap None tt;
  allocmap ← space_map_add allocmap (sm_start allocmap) (sm_size allocmap);
  allocmap ← space_map_walk (ms_map msp) space_map_remove allocmap;
  allocmap ← space_map_walk freed_map space_map_remove allocmap;
  allocmap ← for_range 0 TXG_DEFER_SIZE (fun t a => m ← rd (ms_defermap msp) t; space_map_walk m space_map_remove a) allocmap;
  allocmap ← for_range 1 TXG_CONCURRENT_STATES (fun t a => m ← rd (ms_allocmap msp) (TXG_IDX (u64 (txg + t))); space_map_walk m space_map_remove a) allocmap;
  '(smo, d) ← space_map_truncate smo d;
  Ok (allocmap, freemap, smo, d).

(** An object for the log, if there is none yet, entered into the array of the vdev. *)
Definition sync_object (vd : top_vdev) msp d : space_map_obj * D :=
  let smo := ms_smo_syncing msp in
  if smo_object smo =? 0 then
    let '(o, d) := dmu_object_alloc d in
    (SpaceMapObj o (smo_objsize smo) (smo_alloc smo),
     dmu_write d (vdev_ms_array vd) (u64 (8 * Z.shiftr (sm_start (ms_map msp)) (vdev_ms_shift vd))) 8 [o])
  else (smo, d).

Definition metaslab_sync (vd : top_vdev) (pass txg : Z) msp d : res (metaslab T * D) :=
  allocmap ← rd (ms_allocmap msp) (TXG_IDX txg);
  freemap ← rd (ms_freemap msp) (TXG_IDX txg);
  if (sm_space allocmap =? 0) && (sm_space freemap =? 0) then Ok (msp, d)
  else
    let '(smo, d) := sync_object vd msp d in
    freed_map ← rd (ms_freemap msp) (TXG_IDX (TXG_CLEAN txg));
    freed_map ← space_map_walk freemap space_map_add freed_map;
    let sm := ms_map msp in
    '(allocmap, freemap, smo, d) ←
      (if sm_loaded sm && (pass =? 1) && (u64 (2 * 8 * tr_numnodes (sm_root sm)) <=? smo_objsize smo)
       then metaslab_condense msp txg allocmap freemap freed_map smo d
       else Ok (allocmap, freemap, smo, d));
    '(allocmap, smo, d) ← space_map_sync allocmap SM_ALLOC smo d pass txg;
    '(freemap, smo, d) ← space_map_sync freemap SM_FREE smo d pass txg;
    _ ← verify ((dmu_bonus_hold d (smo_object smo)).1 =? 0);
    let d := dmu_set_bonus d (smo_object smo) smo in
    allocs ← wr (ms_allocmap msp) (TXG_IDX txg) allocmap;
    frees ← wr (ms_freemap msp) (TXG_IDX (TXG_CLEAN txg)) freed_map;
    frees ← wr frees (TXG_IDX txg) freemap;
    Ok (MkMetaslab (ms_smo msp) smo allocs frees (ms_defermap msp) sm (ms_deferspace msp) (ms_weight msp), d).

(** ** Between transaction groups *)

(** The maps of a metaslab that has just become available. *)
Definition sync_done_create msp : metaslab T :=
  let sm := ms_map msp in
  let m := space_map_create (sm_start sm) (sm_size sm) (sm_shift sm) in
  MkMetaslab (ms_smo msp) (ms_smo_syncing msp) (replicate 4 m) (replicate 4 m) (replicate 2 m) sm (ms_deferspace msp) (ms_weight msp).

(** The oldest deferred frees become free, and the frees of [txg] are deferred. *)
Definition sync_done_maps msp (txg defer_delta : Z) : res (metaslab T) :=
  freed_map ← rd (ms_freemap msp) (TXG_IDX (TXG_CLEAN txg));
  defer_map ← rd (ms_defermap msp) (txg mod TXG_DEFER_SIZE);
  _ ← space_map_load_wait (ms_map msp);
  '(defer_map, sm) ← space_map_vacate defer_map (if sm_loaded (ms_map msp) then Some space_map_free else None) (ms_map msp);
  '(freed_map, defer_map) ← space_map_vacate freed_map (Some space_map_add) defer_map;
  frees ← wr (ms_freemap msp) (TXG_IDX (TXG_CLEAN txg)) freed_map;
  defers ← wr (ms_defermap msp) (txg mod TXG_DEFER_SIZE) defer_map;
  Ok (MkMetaslab (ms_smo_syncing msp) (ms_smo_syncing msp) (ms_allocmap msp) frees defers sm (i64 (ms_deferspace msp + defer_delta)) (ms_weight msp)).

(** A map that is loaded and not active is unloaded once its allocations are synced. *)
Definition sync_done_evict msp (txg : Z) : res (metaslab T) :=
  let sm := ms_map msp in
  if sm_loaded sm && (Z.land (ms_weight msp) METASLAB_ACTIVE_MASK =? 0) then
    evictable ← for_range 1 TXG_CONCURRENT_STATES (fun t b => m ← rd (ms_allocmap msp) (TXG_IDX (u64 (txg + t))); Ok (if negb (sm_space m =? 0) then false else b)) true;
    if (evictable : bool) && negb metaslab_debug then sm ← space_map_unload sm; Ok (with_map msp sm) else Ok msp
  else Ok msp.

Definition metaslab_sync_done pl (g p txg : Z) : res (pool T D) :=
  mg ← get_mg pl g;
  msp ← get_ms mg p;
  freed_map ← rd (ms_freemap msp) (TXG_IDX (TXG_CLEAN txg));
  let msp' := if sm_size freed_map =? 0 then sync_done_create msp else msp in
  pl ← (if sm_size freed_map =? 0 then vdev_space_update pl g 0 0 (sm_size (ms_map msp)) else Ok pl);
  freed_map ← rd (ms_freemap msp') (TXG_IDX (TXG_CLEAN txg));
  defer_map ← rd (ms_defermap msp') (txg mod TXG_DEFER_SIZE);
  let alloc_delta := i64 (smo_alloc (ms_smo_syncing msp') - smo_alloc (ms_smo msp')) in
  let defer_delta := i64 (sm_space freed_map - sm_space defer_map) in
  pl ← vdev_space_update pl g (i64 (alloc_delta + defer_delta)) defer_delta 0;
  msp' ← sync_done_maps msp' txg defer_delta;
  pl ← (if negb (ms_deferspace msp' =? 0) then vdev_dirty pl g VDD_METASLAB p (u64 (txg + 1)) else Ok pl);
  msp' ← sync_done_evict msp' txg;
  mg ← get_mg pl g;
  w ← metaslab_weight mg msp';
  mg ← metaslab_group_sort (set_ms mg p msp') p w;
  set_mg pl g mg.

(** [metaslab_sync_reassess], without the prefetches. *)
Definition metaslab_sync_reassess mg : res (metaslab_group T) :=
  let failures := mg_alloc_failures mg in
  mg ← loop (S (length (vdev_ms (mg_vd mg)))) (fun '(m, mg) =>
    if m <? zlen (vdev_ms (mg_vd mg)) then
      p ← rd (vdev_ms (mg_vd mg)) m;
      msp ← get_ms mg p;
      if sm_start (ms_map msp) >? mg_bonus_area mg then Ok (inr mg)
      else w ← metaslab_weight mg msp; mg ← metaslab_group_sort mg p w; Ok (inl (m + 1, mg))
    else Ok (inr mg)) (0, mg);
  Ok (with_failures mg (u64 (mg_alloc_failures mg - failures))).

(** ** Creation and destruction *)

Definition metaslab_init pl (g : Z) (smo : space_map_obj) (start size txg : Z) : res (pool T D * Z) :=
  mg ← get_mg pl g;
  let p := kmem_alloc (dom (mg_slabs mg)) in
  let zeroed := space_map_create 0 0 0 in
  let msp := MkMetaslab (SpaceMapObj 0 0 0) smo (replicate 4 zeroed) (replicate 4 zeroed) (replicate 2 zeroed) (space_map_create start size (vdev_ashift (mg_vd mg))) 0 0 in
  mg ← metaslab_group_add (set_ms mg p msp) p;
  pl ← set_mg pl g mg;
  pl ← (if txg <=? TXG_INITIAL then metaslab_sync_done pl g p 0 else Ok pl);
  pl ← (if negb (txg =? 0) then pl ← vdev_dirty pl g 0 NULL txg; vdev_dirty pl g VDD_METASLAB p txg else Ok pl);
  Ok (pl, p).

Definition metaslab_fini pl (g p : Z) : res (pool T D) :=
  mg ← get_mg pl g;
  msp ← get_ms mg p;
  pl ← vdev_space_update pl g (i64 (- smo_alloc (ms_smo msp))) 0 (i64 (- sm_size (ms_map msp)));
  mg ← get_mg pl g;
  mg ← metaslab_group_remove mg p;
  sm ← space_map_unload (ms_map msp);
  _ ← space_map_destroy sm;
  _ ← each (fun m _ => space_map_destroy m) (ms_allocmap msp) tt;
  _ ← each (fun m _ => space_map_destroy m) (ms_freemap msp) tt;
  _ ← each (fun m _ => space_map_destroy m) (ms_defermap msp) tt;
  set_mg pl g (with_slabs (with_tree mg (tr_free (mg_metaslab_tree mg) p)) (delete p (mg_slabs mg))).

(** ** The metaslabs of a vdev *)

(** The number of metaslabs is [asize >> ms_shift]; on an existing pool ([txg] is 0) the
    object of each log is looked up in the array of the vdev. *)
Definition init_smo (vd : top_vdev) d (m txg : Z) : Z * space_map_obj :=
  if txg =? 0 then
    let '(error, ws) := dmu_read d (vdev_ms_array vd) (u64 (m * 8)) 8 in
    let object := hd 0 ws in
    if negb (error =? 0) then (error, SpaceMapObj 0 0 0)
    else if negb (object =? 0) then dmu_bonus_hold d object
    else (0, SpaceMapObj 0 0 0)
  else (0, SpaceMapObj 0 0 0).

(** The array of the objects of the logs. *)
Definition vdev_sync_array pl (g : Z) : res (pool T D) :=
  mg ← get_mg pl g;
  let vd := mg_vd mg in
  if (vdev_ms_array vd =? 0) && negb (vdev_ms_shift vd =? 0) then
    let '(o, d) := dmu_object_alloc (spa_mos pl) in
    pl ← set_mg pl g (with_vd mg (with_array vd o));
    Ok (set_mos pl d)
  else Ok pl.

(** The next dirty metaslab, which is then on the list of those to be finished. *)
Definition vdev_sync_next pl (g pass txg : Z) : res (pool T D + pool T D) :=
  mg ← get_mg pl g;
  let vd := mg_vd mg in
  '(l, p) ← txg_list_remove (vdev_ms_list vd) txg;
  if p =? NULL then Ok (inr pl)
  else
    msp ← get_ms mg p;
    '(msp, d) ← metaslab_sync vd pass txg msp (spa_mos pl);
    '(l, _) ← txg_list_add l p (TXG_CLEAN txg);
    pl ← set_mg pl g (with_vd (set_ms mg p msp) (with_lists vd l (vdev_dtl_list vd)));
    Ok (inl (set_mos pl d)).

Definition vdev_sync_metaslabs pl (g pass txg : Z) : res (pool T D) :=
  mg ← get_mg pl g;
  loop (S (length (chain (vdev_ms_list (mg_vd mg)) txg))) (fun pl => vdev_sync_next pl g pass txg) pl.

Definition set_vdev_list pl (l : txg_list) : pool T D := Pool (spa_mos pl) (spa_classes pl) (spa_root_stat pl) (spa_tops pl) l.

(** The objects of the logs of a vdev are freed, and the array of them. *)
Definition without_object (smo : space_map_obj) : space_map_obj := SpaceMapObj 0 (smo_objsize smo) (smo_alloc smo).

Definition remove_logs mg d : res (metaslab_group T * D) :=
  for_range 0 (zlen (vdev_ms (mg_vd mg))) (fun m '(mg, d) =>
    p ← rd (vdev_ms (mg_vd mg)) m;
    if p =? NULL then Ok (mg, d)
    else
      msp ← get_ms mg p;
      if smo_object (ms_smo msp) =? 0 then Ok (mg, d)
      else Ok (set_ms mg p (with_smo msp (without_object (ms_smo msp))), dmu_object_free d (smo_object (ms_smo msp)))) (mg, d).

Definition vdev_remove pl (g : Z) : res (pool T D) :=
  mg ← get_mg pl g;
  let vd := mg_vd mg in
  let smo := vdev_dtl_smo vd in
  let '(vd, d) := if smo_object smo =? 0 then (vd, spa_mos pl) else (with_dtl_smo vd (without_object smo), dmu_object_free (spa_mos pl) (smo_object smo)) in
  '(mg, d) ← remove_logs (with_vd mg vd) d;
  let '(vd, d) := if vdev_ms_array vd =? 0 then (vd, d) else (with_shift (with_array vd 0) 0, dmu_object_free d (vdev_ms_array vd)) in
  pl ← set_mg pl g (with_vd mg vd);
  Ok (set_mos pl d).

(** The vdevs whose time logs are dirty. [vdev_dtl_sync], which stores a log, is not
    modelled: a pool with one to be stored goes no further. *)
Definition vdev_sync_dtls pl (g txg : Z) : res (pool T D) :=
  mg ← get_mg pl g;
  '(_, lvd) ← txg_list_remove (vdev_dtl_list (mg_vd mg)) txg;
  if lvd =? NULL then Ok pl else Fault FPanic.

Definition vdev_sync pl (g pass txg : Z) : res (pool T D) :=
  pl ← vdev_sync_array pl g;
  mg ← get_mg pl g;
  pl ← (if (vs_alloc (vdev_stat_ (mg_vd mg)) =? 0) && vdev_removing (mg_vd mg) then vdev_remove pl g else Ok pl);
  pl ← vdev_sync_metaslabs pl g pass txg;
  pl ← vdev_sync_dtls pl g txg;
  '(l, _) ← txg_list_add (spa_vdev_txg_list pl) g (TXG_CLEAN txg);
  Ok (set_vdev_list pl l).

(** The next metaslab to be finished. *)
Definition vdev_done_next pl (g txg : Z) : res (pool T D + pool T D) :=
  mg ← get_mg pl g;
  let vd := mg_vd mg in
  '(l, p) ← txg_list_remove (vdev_ms_list vd) (TXG_CLEAN txg);
  if p =? NULL then Ok (inr pl)
  else
    pl ← set_mg pl g (with_vd mg (with_lists vd l (vdev_dtl_list vd)));
    pl ← metaslab_sync_done pl g p txg;
    Ok (inl pl).

Definition vdev_sync_done pl (g txg : Z) : res (pool T D) :=
  mg ← get_mg pl g;
  empty ← txg_list_empty (vdev_ms_list (mg_vd mg)) (TXG_CLEAN txg);
  pl ← loop (S (length (chain (vdev_ms_list (mg_vd mg)) (TXG_CLEAN txg)))) (fun pl => vdev_done_next pl g txg) pl;
  if (empty : bool) then Ok pl
  else mg ← get_mg pl g; mg ← metaslab_sync_reassess mg; set_mg pl g mg.

(** ** The vdevs of a pool *)

(** The list of dirty vdevs holds their numbers; the loops end when it is empty. *)
Definition spa_sync_vdevs pl (pass txg : Z) : res (pool T D) :=
  loop (S (length (chain (spa_vdev_txg_list pl) txg))) (fun pl =>
    l ← rd (spa_vdev_txg_list pl) (TXG_IDX txg);
    match l with
    | [] => Ok (inr pl)
    | g :: _ =>
        '(l, _) ← txg_list_remove (spa_vdev_txg_list pl) txg;
        pl ← vdev_sync (set_vdev_list pl l) g pass txg;
        Ok (inl pl)
    end) pl.

Definition spa_sync_vdevs_done pl (txg : Z) : res (pool T D) :=
  loop (S (length (chain (spa_vdev_txg_list pl) (TXG_CLEAN txg)))) (fun pl =>
    l ← rd (spa_vdev_txg_list pl) (TXG_IDX (TXG_CLEAN txg));
    match l with
    | [] => Ok (inr pl)
    | g :: _ =>
        '(l, _) ← txg_list_remove (spa_vdev_txg_list pl) (TXG_CLEAN txg);
        pl ← vdev_sync_done (set_vdev_list pl l) g txg;
        Ok (inl pl)
    end) pl.
End sync.
End MetaslabSync.
