(* ===== verification/MetaslabInv.v ===== *)
(** What the log of a space map leaves alone: [space_map_sync] changes its own object
    only, and in it nothing that had been written before.

    One metaslab: who owns each of its bytes, and how the maps and the log of
    [MetaslabSync] say so.

    The invariant of a metaslab, and what writing its changes to its log does. *)

From S2P Require Import Prelude OrdTree SpaceMap SpaceSet SpaceMapOk SpaceMapWalk SpaceMapRanges SpaceLog SpaceSync SpaceLoad Avl SpaceMapSpec SpaceLogSpec Metaslab MetaslabOk MetaslabSpec TxgList MetaslabSync.
Import SpaceMap SpaceSet SpaceMapOk SpaceMapWalk SpaceMapRanges SpaceLog SpaceEntry SpaceSync SpaceLoad.
Open Scope Z_scope.

Module SpaceFrame.

Section frame.
Context {T I O D : Type} {HT : Tree T I} {HK : Kmem} {HO : SpaceMapOps T O} {HD : Dmu D}.
Implicit Types (sm : space_map T O) (smo : space_map_obj) (d : D).

(** [d'] is [d] after some writes to the object [o]. *)
Inductive writes (o : Z) : D -> D -> Prop :=
  | writes_refl d : writes o d d
  | writes_step d d' off size buf : writes o d d' -> writes o d (dmu_write d' o off size buf).

(** The object of a log in the course of [space_map_sync]. *)
Definition sync_inv smo d (s : space_map_obj * D) : Prop := smo_object s.1 = smo_object smo /\ writes (smo_object smo) d s.2.

Lemma sync_write_inv smo0 d0 smo d size buf : sync_inv smo0 d0 (smo, d) -> sync_inv smo0 d0 (sync_write smo d size buf).
Proof. intros [H1 H2]. split; [exact H1|]. cbn in *. rewrite H1. by constructor. Qed.

Lemma sync_runs_inv smo0 d0 maptype bufsize start size smo d buf smo' d' buf' : sync_inv smo0 d0 (smo, d) ->
  sync_runs maptype bufsize start size smo d buf = Ok (smo', d', buf') -> sync_inv smo0 d0 (smo', d').
Proof.
  intros Hi. unfold sync_runs. intros E.
  apply (loop_keeps (fun '(_, _, smo, d, _) => sync_inv smo0 d0 (smo, d)) (fun '(smo, d, _) => sync_inv smo0 d0 (smo, d))) in E; [done| |done].
  intros [[[[start1 size1] smo1] d1] buf1] x H1 Ex. destruct (size1 =? 0); [by injection Ex as <-|]. destruct (zlen buf1 =? bufsize / 8).
  - pose proof (sync_write_inv smo0 d0 smo1 d1 bufsize buf1 H1) as H2. destruct (sync_write smo1 d1 bufsize buf1) as [smo2 d2]. binv Ex. by injection Ex as <-.
  - binv Ex. by injection Ex as <-.
Qed.

Lemma space_map_sync_inv sm maptype smo d pass txg sm' smo' d' : space_map_sync sm maptype smo d pass txg = Ok (sm', smo', d') -> sync_inv smo d (smo', d').
Proof.
  unfold space_map_sync. destruct (sm_space sm =? 0); [intros [= <- <- <-]; split; [done|constructor]|]. set (alloc := if maptype =? SM_ALLOC then _ else _). cbv zeta. intros E. binv E. destruct a0 as [t s].
  assert (Hs : sync_inv smo d (sy_smo s, sy_dmu s)).
  { unfold tr_drain in E1. apply (loop_keeps (fun '(_, _, s) => sync_inv smo d (sy_smo s, sy_dmu s)) (fun '(_, s) => sync_inv smo d (sy_smo s, sy_dmu s))) in E1; [done| |split; [done|constructor]].
    intros [[t1 ck] s1] x H1 Ex. binv Ex. destruct a0 as [[t2 ck2] p]. destruct (p =? NULL); [by injection Ex as <-|]. binv Ex. injection Ex as <-. unfold sync_seg in E3. destruct (sy_segs s1 !! p) as [ss|]; [|done]. binv E3.
    destruct a1 as [[smo2 d2] buf2]. injection E3 as <-. cbn. by eapply sync_runs_inv. }
  destruct (negb (zlen (sy_buf s) =? 0)).
  - pose proof (sync_write_inv smo d (sy_smo s) (sy_dmu s) (zlen (sy_buf s) * 8) (sy_buf s) Hs) as Hw. destruct (sync_write _ _ _ _) as [smo2 d2]. binv E. by injection E as <- <- <-.
  - binv E. by injection E as <- <- <-.
Qed.

Context {HTL : TreeLaws T I} {HKL : KmemLaws} {HDL : DmuLaws D}.

(** A log that has only grown still has its old entries. *)
Lemma log_grows smo smo' d d' es n : log smo' d' = log smo d ++ es -> sized smo' -> sized smo -> smo_object smo' = smo_object smo -> 0 <= n <= smo_objsize smo ->
  log (SpaceMapObj (smo_object smo) n 0) d' = log (SpaceMapObj (smo_object smo) n 0) d.
Proof using All.
  intros E Hs' Hs Ho Hn. pose proof (zlen_log smo' d' Hs') as L'. pose proof (zlen_log smo d Hs) as L. apply (f_equal length) in E as El. rewrite length_app in El.
  unfold log. cbn [smo_objsize smo_object]. apply tab_ext. intros j Hj. destruct Hs as [Hs1 Hs2], Hs' as [Hs1' Hs2'].
  assert (Hj1 : (j < length (log smo d))%nat) by (assert (n / 8 <= smo_objsize smo / 8) by (apply Z.div_le_mono; lia); lia).
  assert (Hlt : (j < Z.to_nat (smo_objsize smo / 8))%nat) by lia. assert (Hlt' : (j < Z.to_nat (smo_objsize smo' / 8))%nat) by lia.
  assert (E1 : nth j (log smo' d') 0 = nth j (log smo d) 0) by (rewrite E; by apply app_nth1). unfold log in E1. rewrite !nth_tab, !decide_True in E1 by done. by rewrite Ho in E1.
Qed.

Lemma log_alloc smo n d : log (SpaceMapObj (smo_object smo) (smo_objsize smo) n) d = log smo d.
Proof. done. Qed.
End frame.
End SpaceFrame.

Import SpaceMapCut SpaceMapSpec SpaceLogSpec SpaceFrame Metaslab MetaslabPick MetaslabOk MetaslabSpec TxgList MetaslabSync.

Module MetaslabSlab.

(** ** Owners *)

(** A byte is free to be allocated, freed in a transaction group that has been synced but
    still to be left alone, freed in the group that is syncing, allocated in a group that
    has not been synced, or allocated as far as the log goes. *)
Inductive owner := OFree | ODefer (b : Z) | OFreed | OAlloc (txg : Z) | OLog.
#[export] Instance owner_eq : EqDecision owner.
Proof. solve_decision. Defined.

(** [dead x] is the group in which an allocated byte was freed. *)
Record ghost := Ghost { own : Z -> owner; dead : Z -> option Z }.

(** [s] is the group that is syncing, or syncs next. *)
Record valid (s : Z) (gh : ghost) : Prop := {
  va_alloc x t : own gh x = OAlloc t -> s <= t <= s + 2;
  va_defer x b : own gh x = ODefer b -> 0 <= b <= 1;
  va_dead x t : dead gh x = Some t -> s <= t <= s + 2 /\ (own gh x = OLog \/ exists b, own gh x = OAlloc b /\ b <= t) }.

(** The sets of the maps in the slots of [ms_allocmap] and [ms_freemap]. *)
Definition alloc_set (gh : ghost) (i x : Z) : Prop := exists t, own gh x = OAlloc t /\ t mod 4 = i.
Definition free_set (s : Z) (gh : ghost) (i x : Z) : Prop := if i =? (s + 3) mod 4 then own gh x = OFreed else exists t, dead gh x = Some t /\ t mod 4 = i.

(** Syncing the group [s]: what is dead is freed, the rest is in the log. *)
Definition synced (s : Z) (gh : ghost) : ghost := Ghost
  (fun x => match own gh x with
    | OLog => if decide (dead gh x = Some s) then OFreed else OLog
    | OAlloc t => if decide (t = s) then if decide (dead gh x = Some s) then OFreed else OLog else OAlloc t
    | o => o end)
  (fun x => if decide (dead gh x = Some s) then None else dead gh x).

(** The end of the group [s]. *)
Definition turned (s : Z) (gh : ghost) : ghost := Ghost
  (fun x => match own gh x with ODefer b => if decide (b = s mod 2) then OFree else ODefer b | OFreed => ODefer (s mod 2) | o => o end) (dead gh).

Definition assigned (start size : Z) (o : owner) (gh : ghost) : ghost := Ghost (fun x => if decide (start <= x < start + size) then o else own gh x) (dead gh).
Definition buried (start size t : Z) (gh : ghost) : ghost := Ghost (own gh) (fun x => if decide (start <= x < start + size) then Some t else dead gh x).

Lemma slot_inj s t t' : s <= t <= s + 2 -> s <= t' <= s + 2 -> t mod 4 = t' mod 4 -> t = t'.
Proof. intros. dlia. Qed.

Lemma slot_clean s t : s <= t <= s + 2 -> t mod 4 <> (s + 3) mod 4.
Proof. intros. dlia. Qed.

(** Membership after syncing. *)
Lemma synced_alloc s gh x t : own (synced s gh) x = OAlloc t <-> own gh x = OAlloc t /\ t <> s.
Proof. cbn. destruct (own gh x); repeat case_decide; split; intros Ho; simplify_eq; try done; destruct Ho; congruence. Qed.

Lemma synced_free s gh x : own (synced s gh) x = OFree <-> own gh x = OFree.
Proof. cbn. destruct (own gh x); repeat case_decide; done. Qed.

Lemma synced_defer s gh x b : own (synced s gh) x = ODefer b <-> own gh x = ODefer b.
Proof. cbn. destruct (own gh x); repeat case_decide; done. Qed.

Lemma synced_dead s gh x t : dead (synced s gh) x = Some t <-> dead gh x = Some t /\ t <> s.
Proof. cbn. case_decide as E; [rewrite E|]; split; [done|intros [[= ->] ?]; done|intros H; split; congruence|by intros []]. Qed.

Lemma dead_here s gh x : valid s gh -> dead gh x = Some s -> own gh x = OLog \/ own gh x = OAlloc s.
Proof. intros Hv E. destruct (va_dead _ _ Hv x s E) as [_ [H|(b & H & Hb)]]; [by left|right]. pose proof (va_alloc _ _ Hv x b H). by replace s with b by lia. Qed.

Lemma synced_freed s gh x : valid s gh -> own (synced s gh) x = OFreed <-> own gh x = OFreed \/ dead gh x = Some s.
Proof.
  intros Hv. split; [|intros [H|H]].
  - cbn. destruct (own gh x) eqn:E; repeat case_decide; auto; congruence.
  - cbn. by rewrite H.
  - destruct (dead_here s gh x Hv H) as [E|E]; cbn; rewrite E, ?decide_True by done; done.
Qed.

Lemma synced_log s gh x : own (synced s gh) x = OLog <-> (own gh x = OLog \/ own gh x = OAlloc s) /\ dead gh x <> Some s.
Proof.
  cbn. destruct (own gh x) eqn:E; repeat case_decide; (split; [intros Ho; try discriminate Ho|intros [[Ho|Ho] Hd]; try discriminate Ho]); try done; try (by split; [left|]); try (split; [right; congruence|done]); congruence.
Qed.

Lemma synced_valid s gh : valid s gh -> valid s (synced s gh).
Proof.
  intros Hv. constructor; intros x t.
  - intros [H _]%synced_alloc. by apply (va_alloc _ _ Hv x).
  - intros H%synced_defer. by apply (va_defer _ _ Hv x).
  - intros [H Hne]%synced_dead. destruct (va_dead _ _ Hv x t H) as [Ht Ho]. split; [done|]. rewrite synced_log. setoid_rewrite synced_alloc.
    assert (Hd : dead gh x <> Some s) by congruence. destruct Ho as [Ho|(b & Ho & Hb)]; [tauto|]. destruct (decide (b = s)) as [->|Hbs]; [tauto|right]. by exists b.
Qed.

Lemma turned_alloc s gh x t : own (turned s gh) x = OAlloc t <-> own gh x = OAlloc t.
Proof. cbn. destruct (own gh x); repeat case_decide; done. Qed.

Lemma turned_log s gh x : own (turned s gh) x = OLog <-> own gh x = OLog.
Proof. cbn. destruct (own gh x); repeat case_decide; done. Qed.

Lemma turned_free s gh x : own (turned s gh) x = OFree <-> own gh x = OFree \/ own gh x = ODefer (s mod 2).
Proof. cbn. destruct (own gh x) eqn:E; repeat case_decide; subst; split; intros Ho; try done; try tauto; (destruct Ho as [Ho|Ho]; [done|]); congruence. Qed.

Lemma turned_freed s gh x : own (turned s gh) x <> OFreed.
Proof. cbn. destruct (own gh x); repeat case_decide; done. Qed.

Lemma turned_defer s gh x b : own (turned s gh) x = ODefer b <-> (own gh x = ODefer b /\ b <> s mod 2) \/ (own gh x = OFreed /\ b = s mod 2).
Proof. cbn. destruct (own gh x) eqn:E; repeat case_decide; subst; split; intros Ho; simplify_eq; try tauto; try (left; split; congruence); destruct Ho as [[Ho1 Ho2]|[Ho1 Ho2]]; congruence. Qed.

Lemma turned_valid s gh : valid s gh -> (forall x, own gh x <> OAlloc s) -> (forall x, dead gh x <> Some s) -> valid (s + 1) (turned s gh).
Proof.
  intros [H1 H2 H3] Ha Hd. constructor; intros x t.
  - intros E%turned_alloc. specialize (H1 x t E). assert (t <> s) by (intros ->; by apply (Ha x)). lia.
  - intros [[E _]|[_ ->]]%turned_defer; [by apply (H2 x)|dlia].
  - cbn [dead turned]. intros E. destruct (H3 x t E) as [Ht Ho]. assert (t <> s) by (intros ->; by apply (Hd x)). split; [lia|]. rewrite turned_log. setoid_rewrite turned_alloc. done.
Qed.

(** ** Maps of a metaslab *)

(** The place of a metaslab on its vdev. *)
Record geo := Geo { g_lo : Z; g_size : Z; g_shift : Z }.

(** A metaslab below 2^62 of at most 2^56 bytes, all of which an entry of a log can
    name. *)
Record geo_ok (g : geo) : Prop := {
  ge_lo : 0 <= g_lo g;
  ge_size : 0 < g_size g <= 2 ^ 56;
  ge_end : g_lo g + g_size g <= 2 ^ 62;
  ge_shift : 0 <= g_shift g < 64;
  ge_align : g_lo g mod 2 ^ g_shift g = 0 /\ g_size g mod 2 ^ g_shift g = 0;
  ge_units : g_size g <= 2 ^ 47 * 2 ^ g_shift g }.

Definition in_geo (g : geo) (x : Z) : Prop := inside (g_lo g) (g_size g) x.

(** A range of whole units. *)
Definition geo_fits (g : geo) (start size : Z) : Prop :=
  0 < size /\ g_lo g <= start /\ start + size <= g_lo g + g_size g /\ start mod 2 ^ g_shift g = 0 /\ size mod 2 ^ g_shift g = 0.

Section slab.
Context {T I D : Type} {HT : Tree T I} {HK : Kmem} {HD : Dmu D} {HTL : TreeLaws T I} {HKL : KmemLaws} {HDL : DmuLaws D}.
Implicit Types (m sm : space_map T metaslab_ops) (P Q : Z -> Prop).

Definition has_geo (g : geo) m : Prop := sm_start m = g_lo g /\ sm_size m = g_size g /\ sm_shift m = g_shift g.

(** A map without a picker's tree that holds a set. *)
Record plain (g : geo) m P : Prop := {
  pn_ok : exists l, sm_ok m l;
  pn_pp : sm_pp_root m = None;
  pn_geo : has_geo g m;
  pn_set x : space m x <-> in_geo g x /\ P x }.

Lemma has_geo_alike g m m' : has_geo g m -> has_geo g m' -> alike m m'.
Proof. intros (A1 & A2 & A3) (B1 & B2 & B3). unfold alike. by rewrite A1, A2, A3, B1, B2, B3. Qed.

Lemma has_geo_framed g m m' : has_geo g m -> framed m m' -> has_geo g m'.
Proof. intros (A1 & A2 & A3) (B1 & B2 & B3 & _). unfold has_geo. by rewrite B1, B2, B3. Qed.

Lemma has_geo_fits g m start size : has_geo g m -> geo_fits g start size -> fits m start size.
Proof. intros (A1 & A2 & A3) H. unfold fits. by rewrite A1, A2, A3. Qed.

Lemma framed_pp m m' : framed m m' -> sm_pp_root m = None -> sm_pp_root m' = None.
Proof. intros (_ & _ & _ & _ & _ & _ & _ & H) E. unfold same_cmp in H. rewrite E in H. by destruct (sm_pp_root m'). Qed.

Lemma plain_ext g m P Q : plain g m P -> (forall x, in_geo g x -> P x <-> Q x) -> plain g m Q.
Proof. intros [H1 H2 H3 H4] H. constructor; try done. intros x. rewrite H4. split; (intros [Hx HP]; split; [done|by apply (H x Hx)]). Qed.

Lemma plain_create g : geo_ok g -> plain g (space_map_create (g_lo g) (g_size g) (g_shift g)) (fun _ => False).
Proof using All.
  intros [H1 H2 H3 H4 _ _]. pose proof (space_map_create_ok (O := metaslab_ops) (g_lo g) (g_size g) (g_shift g) H1 ltac:(lia) ltac:(lia) H4) as Hok. constructor; [by exists []|done|done|].
  intros x. pose proof (proj2 (space_empty _ Hok) x). tauto.
Qed.

Lemma plain_some g m P : plain g m P -> sm_space m <> 0 -> exists x, in_geo g x /\ P x.
Proof using All.
  intros [[l Hok] _ Hg Hs] Hne. destruct l as [|p l]; [by destruct Hne; apply (space_empty m)|]. destruct (canon_proper _ _ _ _ _ (ok_canon _ _ Hok) (looks_in _ (p :: l) p ltac:(by left))) as (_ & P2 & _).
  exists (ss_start (sm_segs m !!! p)). apply Hs. exists p, (sm_segs m !!! p). split; [apply (dom_present m (p :: l)); [apply Hok|by left]|lia].
Qed.

Lemma plain_empty g m P : plain g m P -> sm_space m = 0 <-> forall x, in_geo g x -> ~ P x.
Proof using All.
  intros Hp. split.
  - intros E x Hx HP. destruct Hp as [[l Hok] _ Hg Hs]. pose proof (no_space m l Hok E) as ->. apply (proj2 (space_empty m Hok) x). by apply Hs.
  - intros Hn. destruct (decide (sm_space m = 0)) as [|Hne]; [done|exfalso]. destruct (plain_some g m P Hp Hne) as (x & Hx & HP). by apply (Hn x).
Qed.

Lemma plain_bound g m P : plain g m P -> 0 <= sm_space m <= g_size g.
Proof using All.
  intros [[l Hok] _ (_ & Hg & _) _]. destruct (ok_geom _ _ Hok) as (K1 & K2 & _). pose proof (canon_size _ _ _ _ (ok_canon _ _ Hok) ltac:(lia)) as [_ Hc]. rewrite <- (ok_space _ _ Hok), Hg in Hc. lia.
Qed.

Lemma plain_add g m P start size : plain g m P -> geo_fits g start size -> (forall x, inside start size x -> ~ P x) ->
  exists m', space_map_add m start size = Ok m' /\ plain g m' (fun x => P x \/ inside start size x) /\ sm_space m' = sm_space m + size.
Proof using All.
  intros [[l Hok] Hpp Hg Hs] Hf Hn. destruct (space_map_add_ok m l start size Hok) as (m' & l' & E & Hok' & Hfr & Hz & Hx); [by eapply has_geo_fits|intros x Hi [_ HP]%Hs; by apply (Hn x)|].
  exists m'. split; [done|]. split; [|done]. constructor; [by exists l'|by eapply framed_pp|by eapply has_geo_framed|]. intros x. rewrite Hx, Hs. destruct Hf as (F1 & F2 & F3 & _). unfold in_geo.
  split; [intros [[? ?]|?]; split; try tauto; lia|tauto].
Qed.

Lemma plain_remove g m P start size : plain g m P -> geo_fits g start size -> (forall x, inside start size x -> P x) ->
  exists m', space_map_remove m start size = Ok m' /\ plain g m' (fun x => P x /\ ~ inside start size x) /\ sm_space m' = sm_space m - size.
Proof using All.
  intros [[l Hok] Hpp Hg Hs] Hf Hin. destruct (space_map_remove_ok m l start size Hok) as (m' & l' & E & Hok' & Hfr & Hz & Hx); [by eapply has_geo_fits| |].
  { intros x Hi. apply Hs. split; [|by apply Hin]. destruct Hf as (F1 & F2 & F3 & _). unfold in_geo. lia. }
  exists m'. split; [done|]. split; [|done]. constructor; [by exists l'|by eapply framed_pp|by eapply has_geo_framed|]. intros x. rewrite Hx, Hs. tauto.
Qed.

(** A whole map into another. *)
Lemma plain_walk_add g m P m2 Q : plain g m P -> plain g m2 Q -> (forall x, in_geo g x -> P x -> ~ Q x) ->
  exists m2', space_map_walk m space_map_add m2 = Ok m2' /\ plain g m2' (fun x => Q x \/ P x) /\ sm_space m2' = sm_space m2 + sm_space m.
Proof using All.
  intros [[l Hok] _ Hg Hs] [[l2 Hok2] Hpp2 Hg2 Hs2] Hd. rewrite (space_map_walk_ok m l) by done.
  destruct (walk_add m l l m2 l2 Hok ltac:(done) Hok2 (has_geo_alike _ _ _ Hg Hg2)) as (m2' & E & (l' & Hok' & Hf & Hz & Hx)); [intros x [Hx HP]%Hs [_ HQ]%Hs2; by apply (Hd x)|].
  exists m2'. split; [done|]. split; [|done]. constructor; [by exists l'|by eapply framed_pp|by eapply has_geo_framed|]. intros x. rewrite Hx, Hs, Hs2. tauto.
Qed.

Lemma plain_walk_remove g m l m2 Q (P : Z -> Prop) : sm_ok m l -> has_geo g m -> (forall x, space m x <-> in_geo g x /\ P x) -> plain g m2 Q -> (forall x, in_geo g x -> P x -> Q x) ->
  exists m2', space_map_walk m space_map_remove m2 = Ok m2' /\ plain g m2' (fun x => Q x /\ ~ P x).
Proof using All.
  intros Hok Hg Hs [[l2 Hok2] Hpp2 Hg2 Hs2] Hd. rewrite (space_map_walk_ok m l) by done.
  destruct (walk_remove m l l m2 l2 Hok ltac:(done) Hok2 (has_geo_alike _ _ _ Hg Hg2)) as (m2' & E & (l' & Hok' & Hf & Hz & Hx)); [intros x [Hx HP]%Hs; apply Hs2; split; [done|by apply Hd]|].
  exists m2'. split; [done|]. constructor; [by exists l'|by eapply framed_pp|by eapply has_geo_framed|]. intros x. rewrite Hx, Hs, Hs2. tauto.
Qed.

Lemma plain_emptied g m P t : plain g m P -> sm_ok (emptied m t) [] -> plain g (emptied m t) (fun _ => False) /\ sm_space (emptied m t) = 0.
Proof using All.
  intros [_ Hpp Hg _] Hok. split; [|done]. constructor; [by exists []|done|done|]. intros x. pose proof (proj2 (space_empty _ Hok) x). tauto.
Qed.

Lemma plain_vacate g m P : plain g m P -> exists m', space_map_vacate m (None : option (unit -> Z -> Z -> res unit)) tt = Ok (m', tt) /\ plain g m' (fun _ => False).
Proof using All.
  intros Hp. pose proof Hp as [[l Hok] Hpp Hg Hs]. destruct (vacate_all m l Hok Hpp) as (t & Hem & E). exists (emptied m t). split; [done|]. exact (proj1 (plain_emptied g m P t Hp Hem)).
Qed.

Lemma plain_vacate_add g m P m2 Q : plain g m P -> plain g m2 Q -> (forall x, in_geo g x -> P x -> ~ Q x) ->
  exists m' m2', space_map_vacate m (Some space_map_add) m2 = Ok (m', m2') /\ plain g m' (fun _ => False) /\ plain g m2' (fun x => Q x \/ P x) /\ sm_space m2' = sm_space m2 + sm_space m.
Proof using All.
  intros Hp [[l2 Hok2] Hpp2 Hg2 Hs2] Hd. pose proof Hp as [[l Hok] Hpp Hg Hs].
  destruct (space_map_vacate_ok m l (Some (space_map_add (T := T) (O := metaslab_ops))) m2 Hok Hpp) as (todo & t & Hpm & Hem & ->).
  destruct (walk_add m l todo m2 l2 Hok Hpm Hok2 (has_geo_alike _ _ _ Hg Hg2)) as (m2' & E & (l' & Hok' & Hf & Hz & Hx)); [intros x [Hx HP]%Hs [_ HQ]%Hs2; by apply (Hd x)|].
  cbn [default from_option id]. rewrite E. exists (emptied m t), m2'. split; [done|]. split; [exact (proj1 (plain_emptied g m P t Hp Hem))|]. split; [|done].
  constructor; [by exists l'|by eapply framed_pp|exact (has_geo_framed _ _ _ Hg2 Hf)|]. intros x. rewrite Hx, Hs, Hs2. tauto.
Qed.
End slab.
End MetaslabSlab.

Import MetaslabSlab.

Module MetaslabInv.

(** ** Objects *)

(** Objects exist from their allocation on, and writes to one change no other.  For an
    object that exists the bonus buffer can be held, and an object can be truncated. *)
Class DmuObjectLaws (D : Type) {HD : Dmu D} {HB : DmuObjects D} {HDL : DmuLaws D} := {
  dmu_has : D -> Z -> Prop;
  dmu_bonus : D -> Z -> space_map_obj;
  dmu_object_alloc_ok d o d' : dmu_object_alloc d = (o, d') -> o <> 0 /\ ~ dmu_has d o /\ (forall o', dmu_has d' o' <-> dmu_has d o' \/ o' = o) /\
    forall o', o' <> o -> dmu_bonus d' o' = dmu_bonus d o' /\ forall i, dmu_word d' o' i = dmu_word d o' i;
  dmu_write_frame d o off size buf o' : (dmu_has (dmu_write d o off size buf) o' <-> dmu_has d o') /\ dmu_bonus (dmu_write d o off size buf) o' = dmu_bonus d o' /\
    (o' <> o -> forall i, dmu_word (dmu_write d o off size buf) o' i = dmu_word d o' i);
  dmu_free_range_ok d o : dmu_has d o -> exists d', dmu_free_range d o 0 (2 ^ 64 - 1) = (0, d') /\
    forall o', (dmu_has d' o' <-> dmu_has d o') /\ dmu_bonus d' o' = dmu_bonus d o' /\ (o' <> o -> forall i, dmu_word d' o' i = dmu_word d o' i);
  dmu_bonus_hold_ok d o : dmu_has d o -> dmu_bonus_hold d o = (0, dmu_bonus d o);
  dmu_set_bonus_ok d o smo o' : (dmu_has (dmu_set_bonus d o smo) o' <-> dmu_has d o') /\ dmu_bonus (dmu_set_bonus d o smo) o' = (if o' =? o then smo else dmu_bonus d o') /\
    forall i, dmu_word (dmu_set_bonus d o smo) o' i = dmu_word d o' i }.

Section inv.
Context {T I D : Type} {HT : Tree T I} {HK : Kmem} {HD : Dmu D} {HB : DmuObjects D} {HTL : TreeLaws T I} {HKL : KmemLaws} {HDL : DmuLaws D} {HBL : DmuObjectLaws D}.
Implicit Types (m sm : space_map T metaslab_ops) (P Q : Z -> Prop) (msp : metaslab T) (gh : ghost) (d : D).

(** What existed and is none of the objects [X] has stayed as it was. *)
Definition untouched (X : Z -> Prop) d d' : Prop := forall o, dmu_has d o -> dmu_has d' o /\
  (~ X o -> dmu_bonus d' o = dmu_bonus d o /\ forall i, dmu_word d' o i = dmu_word d o i).

Lemma untouched_refl X d : untouched X d d.
Proof. by intros o Ho. Qed.

Lemma untouched_trans X d1 d2 d3 : untouched X d1 d2 -> untouched X d2 d3 -> untouched X d1 d3.
Proof.
  intros H1 H2 o Ho. destruct (H1 o Ho) as [Ho2 E1]. destruct (H2 o Ho2) as [Ho3 E2]. split; [done|]. intros HX. destruct (E1 HX) as [B1 W1], (E2 HX) as [B2 W2].
  split; [by rewrite B2|]. intros i. by rewrite W2.
Qed.

Lemma untouched_weaken X Y d d' : (forall o, X o -> Y o) -> untouched X d d' -> untouched Y d d'.
Proof. intros H H1 o Ho. destruct (H1 o Ho) as [H2 H3]. split; [done|]. intros HY. apply H3. intros HX. by apply HY, H. Qed.

Lemma writes_untouched o d d' : writes o d d' -> untouched (eq o) d d' /\ forall o', dmu_bonus d' o' = dmu_bonus d o'.
Proof using HBL.
  induction 1 as [d|d d' off size buf H [IH1 IH2]]; [split; [apply untouched_refl|done]|]. split.
  - eapply untouched_trans; [exact IH1|]. intros o' Ho. destruct (dmu_write_frame d' o off size buf o') as (W1 & W2 & W3). split; [by apply W1|]. intros Hne. split; [done|]. apply W3. congruence.
  - intros o'. by rewrite (proj1 (proj2 (dmu_write_frame d' o off size buf o'))).
Qed.

(** ** The invariant *)

Record map_ok (g : geo) sm gh : Prop := {
  mo_geo : has_geo g sm;
  mo_loading : sm_loading sm = false;
  mo_loaded : sm_loaded sm = true -> exists l, ms_ok sm l /\ sm_ops sm = Some zfs_metaslab_ops /\ forall x, space sm x <-> in_geo g x /\ own gh x = OFree;
  mo_unloaded : sm_loaded sm = false -> sm_ok sm [] /\ sm_pp_root sm = None /\ sm_ops sm = None /\ sm_ppd sm = None }.

(** The slots of a list of maps. *)
Definition slots (g : geo) (n : nat) (l : list (space_map T metaslab_ops)) (S : Z -> Z -> Prop) : Prop :=
  length l = n /\ forall i m, l !! i = Some m -> plain g m (S (Z.of_nat i)).

(** A log of a set. *)
Definition log_of (g : geo) (smo : space_map_obj) d P : Prop := sized smo /\ logged (g_lo g) (g_size g) (g_shift g) (log smo d) (fun x => in_geo g x /\ P x) (smo_alloc smo).

(** [A] is what was allocated when the last group was synced; the log that says so is
    overwritten only while the map is loaded. *)
Record slab_inv (g : geo) (s : Z) d msp gh (A : Z -> Prop) : Prop := {
  si_geo : geo_ok g;
  si_txg : 4 <= s < 2 ^ 63;
  si_valid : valid s gh;
  si_out x : ~ in_geo g x -> own gh x = OFree /\ dead gh x = None;
  si_alloc : slots g 4 (ms_allocmap msp) (alloc_set gh);
  si_free : slots g 4 (ms_freemap msp) (free_set s gh);
  si_defer : slots g 2 (ms_defermap msp) (fun i x => own gh x = ODefer i);
  si_map : map_ok g (ms_map msp) gh;
  si_log : log_of g (ms_smo_syncing msp) d (fun x => own gh x = OLog);
  si_room : smo_objsize (ms_smo_syncing msp) <= 2 ^ 63;
  si_smo : 0 <= smo_alloc (ms_smo msp) <= g_size g;
  si_A x : in_geo g x -> A x -> own gh x = OLog \/ own gh x = OFreed;
  si_unloaded : sm_loaded (ms_map msp) = false -> log_of g (ms_smo msp) d A /\ smo_objsize (ms_smo msp) <= smo_objsize (ms_smo_syncing msp) /\
    (smo_objsize (ms_smo msp) = 0 \/ smo_object (ms_smo msp) = smo_object (ms_smo_syncing msp)) /\
    (forall x, in_geo g x -> own gh x = OLog \/ own gh x = OFreed -> A x) /\ forall x t, in_geo g x -> own gh x <> OAlloc t;
  si_deferspace : exists m0 m1, ms_defermap msp = [m0; m1] /\ ms_deferspace msp = sm_space m0 + sm_space m1 }.

(** The log has its object, and the disk knows. *)
Record disk_inv (arr k : Z) d (smo : space_map_obj) : Prop := {
  di_arr : dmu_has d arr /\ smo_object smo <> arr;
  di_none : smo_object smo = 0 -> smo_objsize smo = 0 /\ smo_alloc smo = 0;
  di_word : dmu_word d arr k = smo_object smo;
  di_has : smo_object smo <> 0 -> dmu_has d (smo_object smo) /\ dmu_bonus d (smo_object smo) = smo }.

(** ** Slots *)

Lemma slots_rd g n l S i : slots g n l S -> 0 <= i < Z.of_nat n -> exists m, rd l i = Ok m /\ plain g m (S i) /\ l !! Z.to_nat i = Some m.
Proof.
  intros [Hl Hs] Hi. destruct (rd_in_bounds l i) as (m & E & Hm); [lia|]. exists m. split; [done|]. split; [|done]. specialize (Hs _ _ Hm). by rewrite Z2Nat.id in Hs by lia.
Qed.

Lemma slots_wr g n l (S S' : Z -> Z -> Prop) i m : slots g n l S -> 0 <= i < Z.of_nat n -> plain g m (S' i) -> (forall j x, 0 <= j < Z.of_nat n -> j <> i -> in_geo g x -> S j x <-> S' j x) ->
  wr l i m = Ok (<[Z.to_nat i := m]> l) /\ slots g n (<[Z.to_nat i := m]> l) S'.
Proof.
  intros [Hl Hs] Hi Hp Ho. split; [apply wr_in_bounds; lia|]. split; [by rewrite length_insert|]. intros j m' Hj. pose proof (lookup_lt_Some _ _ _ Hj) as Hlt. rewrite length_insert in Hlt.
  destruct (decide (j = Z.to_nat i)) as [->|Hne].
  - rewrite list_lookup_insert_eq in Hj by lia. injection Hj as <-. by rewrite Z2Nat.id by lia.
  - rewrite list_lookup_insert_ne in Hj by done. eapply plain_ext; [by apply Hs|]. intros x Hx. apply Ho; [lia|lia|done].
Qed.

Lemma slots_ext g n l (S S' : Z -> Z -> Prop) : slots g n l S -> (forall j x, 0 <= j < Z.of_nat n -> in_geo g x -> S j x <-> S' j x) -> slots g n l S'.
Proof. intros [Hl Hs] H. split; [done|]. intros i m Hi. eapply plain_ext; [by apply Hs|]. intros x Hx. apply H; [|done]. pose proof (lookup_lt_Some _ _ _ Hi). lia. Qed.

Lemma slots_create g n : geo_ok g -> slots g n (replicate n (space_map_create (g_lo g) (g_size g) (g_shift g))) (fun _ _ => False).
Proof using All. intros Hg. split; [apply length_replicate|]. intros i m [-> _]%lookup_replicate. by apply plain_create. Qed.

(** ** Writing a map *)

Lemma log_of_ext g smo d P Q : log_of g smo d P -> (forall x, in_geo g x -> P x <-> Q x) -> log_of g smo d Q.
Proof. intros [H1 H2] H. split; [done|]. eapply logged_ext; [|exact H2]. intros x. split; (intros [Hx HP]; split; [done|by apply (H x Hx)]). Qed.

(** No more is allocated than there is. *)
Lemma log_bound g smo d P : geo_ok g -> log_of g smo d P -> 0 <= smo_alloc smo <= g_size g.
Proof using All.
  intros Hg [_ Hl]. pose proof (plain_create g Hg) as Hp. pose proof Hg as [K1 K2 K3 K4 [K5 K6] K7]. set (sm0 := space_map_create (T := T) (O := metaslab_ops) (g_lo g) (g_size g) (g_shift g)) in *.
  destruct (pn_ok _ _ _ Hp) as [l Hok]. pose proof (space_map_create_ok (T := T) (O := metaslab_ops) (g_lo g) (g_size g) (g_shift g) K1 ltac:(lia) ltac:(lia) K4) as Hok0.
  destruct (load_start sm0 SM_ALLOC Hok0 ltac:(unfold SM_ALLOC; lia)) as (sm1 & _ & Hr); [by split_and!|]. destruct (replay_ok sm0 SM_ALLOC (log smo d) _ _ sm1 ltac:(unfold SM_ALLOC; lia) K5 (proj1 K4) Hl Hr) as (sm2 & _ & (l2 & Hok2 & (_ & F2 & _) & Hz & _)).
  cbn in Hz. rewrite <- Hz, (ok_space _ _ Hok2). destruct (ok_geom _ _ Hok2) as (G1 & G2 & _). pose proof (canon_size _ _ _ _ (ok_canon _ _ Hok2) ltac:(lia)) as [H1 H2]. rewrite F2 in H2. cbn in H2. lia.
Qed.

(** What is kept of a log by an operation that extends it. *)
Definition extends (smo : space_map_obj) d (smo' : space_map_obj) d' : Prop :=
  smo_object smo' = smo_object smo /\ smo_objsize smo <= smo_objsize smo' /\ forall n, 0 <= n <= smo_objsize smo -> log (SpaceMapObj (smo_object smo) n 0) d' = log (SpaceMapObj (smo_object smo) n 0) d.

Lemma extends_refl smo d : extends smo d smo d.
Proof. by split_and!. Qed.

Lemma extends_trans smo1 d1 smo2 d2 smo3 d3 : extends smo1 d1 smo2 d2 -> extends smo2 d2 smo3 d3 -> extends smo1 d1 smo3 d3.
Proof. intros (A1 & A2 & A3) (B1 & B2 & B3). split; [congruence|]. split; [lia|]. intros n Hn. rewrite A1 in B3. rewrite B3 by lia. by apply A3. Qed.

Lemma plain_sync g m P maptype smo d pass txg L : geo_ok g -> plain g m P -> 0 <= maptype <= 1 -> log_of g smo d L -> smo_objsize smo <= 2 ^ 62 + 2 ^ 61 ->
  (forall x, in_geo g x -> P x -> if maptype =? SM_ALLOC then ~ L x else L x) ->
  exists m' smo' d', space_map_sync m maptype smo d pass txg = Ok (m', smo', d') /\ plain g m' (fun _ => False) /\
    log_of g smo' d' (applied maptype L P) /\ smo_objsize smo' <= smo_objsize smo + 2 ^ 60 /\ extends smo d smo' d' /\ writes (smo_object smo) d d'.
Proof using All.
  intros Hg Hp Hm [Hsz Hlog] Hroom Ha. pose proof Hp as [[l Hok] Hpp Hgeo Hs]. pose proof Hgeo as (G1 & G2 & G3). pose proof (plain_bound g m P Hp) as Hb. destruct Hg as [K1 K2 K3 K4 [K5 K6] K7].
  assert (HL : loggable m) by (split; [by rewrite G1, G3|]; intros x [Hx _]%Hs; rewrite G1, G3; unfold in_geo in Hx; lia). assert (Hap : applies maptype (fun x => in_geo g x /\ L x) (space m)).
  { intros x [Hx HP]%Hs. specialize (Ha x Hx HP). destruct (maptype =? SM_ALLOC); [by intros []|done]. }
  destruct (space_map_sync_log m l maptype smo d pass txg (fun x => in_geo g x /\ L x) Hok) as (m' & smo' & d' & E & Hok' & Hf & Hsz' & Ho & Hlen & Hl'); [constructor; try done; [lia|by rewrite G1, G2, G3]|].
  exists m', smo', d'. split; [done|]. split; [constructor; [by exists []|by eapply framed_pp|by eapply has_geo_framed|]; intros x; pose proof (proj2 (space_empty _ Hok') x); tauto|].
  split; [split; [done|]|split; [lia|split]].
  - rewrite <- G1, <- G2, <- G3. eapply logged_ext; [|exact Hl']. intros x. unfold applied. specialize (Hs x). destruct (maptype =? SM_ALLOC); tauto.
  - split; [done|]. split; [lia|]. intros n Hn. destruct (Z.eq_dec (sm_space m) 0) as [E0|E0].
    + unfold space_map_sync in E. rewrite E0 in E. by injection E as <- <- <-.
    + destruct (space_map_sync_ok m l maptype smo d pass txg Hok Hpp HL Hm Hsz ltac:(lia) E0) as (t & smo2 & d2 & es & E2 & _ & Hsz2 & Ho2 & _ & El & _). rewrite E in E2. injection E2 as -> <- <-. by eapply log_grows.
  - by apply (space_map_sync_inv _ _ _ _ _ _ _ _ _ E).
Qed.
End inv.
End MetaslabInv.
