(* ===== verification/MetaslabCycle.v ===== *)
(** [metaslab_sync]: the changes of a transaction group go to the log of the metaslab.

    The maps of a metaslab between transaction groups: loading and unloading the map of
    free space, and what [metaslab_sync_done] moves.

    Allocating from, freeing to and claiming in one metaslab. *)

From S2P Require Import Prelude Avl OrdTree SpaceMap SpaceSet SpaceMapOk SpaceMapWalk SpaceMapRanges SpaceMapSpec SpaceLog SpaceSync SpaceLoad SpaceLogSpec MetaslabInv Metaslab MetaslabOk MetaslabSpec TxgList MetaslabSync.
Import SpaceMap SpaceSet SpaceMapOk SpaceMapCut SpaceMapWalk SpaceMapRanges SpaceMapSpec SpaceLog SpaceEntry SpaceSync SpaceLoad SpaceLogSpec SpaceFrame Metaslab MetaslabPick MetaslabOk MetaslabSpec TxgList MetaslabSync MetaslabSlab MetaslabInv.
Open Scope Z_scope.

Module MetaslabWrite.

Lemma idx_at s t : 4 <= s < 2 ^ 63 -> 0 <= t <= 3 -> TXG_IDX (u64 (s + t)) = (s + t) mod 4.
Proof. intros. rewrite TXG_IDX_mod. by rewrite (Z.mod_small (s + t)) by lia. Qed.

Lemma idx_0 s : TXG_IDX s = s mod 4.
Proof. apply TXG_IDX_mod. Qed.

Section write.
Context {T I D : Type} {HT : Tree T I} {HK : Kmem} {HD : Dmu D} {HB : DmuObjects D} {HTL : TreeLaws T I} {HKL : KmemLaws} {HDL : DmuLaws D} {HBL : DmuObjectLaws D}.
Implicit Types (m sm : space_map T metaslab_ops) (P Q : Z -> Prop) (msp : metaslab T) (gh : ghost) (d : D).

(** ** The object of the log *)

(** What [metaslab_sync] may change on disk. *)
Record disk_step (arr k : Z) d (smo : space_map_obj) d' (smo' : space_map_obj) : Prop := {
  ds_disk : disk_inv arr k d' smo';
  ds_object : smo_object smo' = smo_object smo \/ (smo_object smo = 0 /\ ~ dmu_has d (smo_object smo'));
  ds_frame : untouched (fun o => o = smo_object smo' \/ o = arr) d d';
  ds_arr i : i <> k -> dmu_word d' arr i = dmu_word d arr i }.

Lemma log_nil o n d : log (SpaceMapObj o 0 n) d = [].
Proof. done. Qed.

Lemma object_ok (vd : top_vdev) msp d g L (k := Z.shiftr (sm_start (ms_map msp)) (vdev_ms_shift vd)) : 0 <= k < 2 ^ 61 -> disk_inv (vdev_ms_array vd) k d (ms_smo_syncing msp) -> log_of g (ms_smo_syncing msp) d L ->
  exists smo d1, sync_object vd msp d = (smo, d1) /\ smo_object smo <> 0 /\ dmu_has d1 (smo_object smo) /\ smo_object smo <> vdev_ms_array vd /\ smo_objsize smo = smo_objsize (ms_smo_syncing msp) /\
    log_of g smo d1 L /\ dmu_word d1 (vdev_ms_array vd) k = smo_object smo /\ dmu_has d1 (vdev_ms_array vd) /\
    (smo_object smo = smo_object (ms_smo_syncing msp) \/ (smo_object (ms_smo_syncing msp) = 0 /\ ~ dmu_has d (smo_object smo))) /\
    untouched (fun o => o = smo_object smo \/ o = vdev_ms_array vd) d d1 /\ (forall i, i <> k -> dmu_word d1 (vdev_ms_array vd) i = dmu_word d (vdev_ms_array vd) i) /\
    (smo_objsize (ms_smo_syncing msp) = 0 \/ extends (ms_smo_syncing msp) d smo d1).
Proof using All.
  intros Hk [[Ha Hne] Hnone Hw Hhas] [Hsz Hlog]. unfold sync_object. fold k. destruct (Z.eqb_spec (smo_object (ms_smo_syncing msp)) 0) as [E|E].
  - destruct (Hnone E) as [E1 E2]. destruct (dmu_object_alloc d) as [o d0] eqn:Eo. destruct (dmu_object_alloc_ok d o d0 Eo) as (O1 & O2 & O3 & O4). rewrite (Z.mod_small (8 * k)) by lia.
    set (d1 := dmu_write d0 _ _ _ _). assert (Hoa : o <> vdev_ms_array vd) by (intros ->; done). pose proof (fun o' => dmu_write_frame d0 (vdev_ms_array vd) (8 * k) 8 [o] o') as W. fold d1 in W.
    assert (W1 : forall i, dmu_word d1 (vdev_ms_array vd) i = if decide (i = k) then o else dmu_word d (vdev_ms_array vd) i).
    { intros i. unfold d1. rewrite dmu_write_ok by (cbn; (lia || dlia)). rewrite (Z.mul_comm 8 k), Z.div_mul by done. change (8 / 8) with 1. rewrite (proj2 (O4 _ (not_eq_sym Hoa))). case_decide as Hi.
      - subst i. rewrite (proj2 (Z.leb_le k k)), (proj2 (Z.ltb_lt k (k + 1))), Z.sub_diag by lia. done.
      - destruct (Z.leb_spec k i), (Z.ltb_spec i (k + 1)); done || lia. }
    eexists _, d1. split; [done|]. cbn [smo_object smo_objsize smo_alloc]. split; [done|]. split; [apply W, O3; by right|]. split; [done|]. split; [done|].
    split; [split; [done|]; cbn [smo_alloc]; rewrite E1, log_nil; by rewrite <- (log_nil (smo_object (ms_smo_syncing msp)) (smo_alloc (ms_smo_syncing msp)) d), <- E1; destruct (ms_smo_syncing msp)|].
    split; [by rewrite W1, decide_True|]. split; [apply W, O3; by left|]. split; [right; done|]. split; [|split; [intros i Hi; by rewrite W1, decide_False|by left]].
    intros o' Ho'. split; [apply W, O3; by left|]. intros Hn. assert (H1 : o' <> o) by (intros ->; by apply Hn; left). assert (H2 : o' <> vdev_ms_array vd) by (intros ->; by apply Hn; right).
    destruct (W o') as (_ & B & C). rewrite B. split; [by apply O4|]. intros i. rewrite C by done. by apply O4.
  - eexists _, d. split; [done|]. split; [done|]. destruct (Hhas E) as [H1 H2]. split; [done|]. split; [done|]. split; [done|]. split; [by split|]. split; [done|]. split; [done|]. split; [by left|].
    split; [apply untouched_refl|]. split; [done|]. right. apply extends_refl.
Qed.

(** ** The maps of a group *)

(** The owners that the maps of the slots stand for. *)
Lemma alloc_slot s gh t x : valid s gh -> s <= t <= s + 2 -> alloc_set gh (t mod 4) x <-> own gh x = OAlloc t.
Proof. intros Hv Ht. split; [|by exists t]. intros (t' & E & Em). pose proof (va_alloc _ _ Hv x t' E). by rewrite <- (slot_inj s t' t) by done. Qed.

Lemma free_slot s gh t x : valid s gh -> s <= t <= s + 2 -> free_set s gh (t mod 4) x <-> dead gh x = Some t.
Proof.
  intros Hv Ht. unfold free_set. rewrite (proj2 (Z.eqb_neq _ _)) by (by apply slot_clean). split; [|by exists t]. intros (t' & E & Em). destruct (va_dead _ _ Hv x t' E) as [Ht' _]. by rewrite <- (slot_inj s t' t) by done.
Qed.

Lemma clean_slot s gh x : free_set s gh ((s + 3) mod 4) x <-> own gh x = OFreed.
Proof. unfold free_set. by rewrite Z.eqb_refl. Qed.

(** What is left of a metaslab when everything that is not in the log is taken away. *)
Lemma only_log s gh x : valid s gh -> (forall x, own gh x <> OAlloc s) ->
  own gh x = OLog <-> own gh x <> OFree /\ own gh x <> OFreed /\ own gh x <> ODefer 0 /\ own gh x <> ODefer 1 /\ own gh x <> OAlloc (s + 1) /\ own gh x <> OAlloc (s + 2).
Proof.
  intros Hv Hs. split; [intros ->; by split_and!|]. intros (H1 & H2 & H3 & H4 & H5 & H6). destruct (own gh x) as [|b| |t|] eqn:E; try done.
  - pose proof (va_defer _ _ Hv x b E). assert (b = 0 \/ b = 1) as [->| ->] by lia; done.
  - pose proof (va_alloc _ _ Hv x t E). assert (t = s \/ t = s + 1 \/ t = s + 2) as [->|[->| ->]] by lia; [by destruct (Hs x)|done|done].
Qed.

(** Take the set of an owner out of a map. *)
Lemma take_away g m gh o m2 Q : plain g m (fun x => own gh x = o) -> plain g m2 Q -> (forall x, in_geo g x -> own gh x = o -> Q x) ->
  exists m2', space_map_walk m space_map_remove m2 = Ok m2' /\ plain g m2' (fun x => Q x /\ own gh x <> o).
Proof using All. intros [[l Hok] _ Hg Hs] H2 Hd. by apply (plain_walk_remove g m l m2 Q (fun x => own gh x = o)). Qed.

Lemma for_two {S} (f : Z -> S -> res S) a s : for_range a (a + 2) f s = (s ← f a s; f (a + 1) s).
Proof. unfold for_range. replace (Z.to_nat (a + 2 - a)) with 2%nat by lia. cbn. destruct (f a s) as [s'|]; [|done]. cbn. by destruct (f (a + 1) s'). Qed.

Lemma condense_ok g s dd d msp gh A allocmap freemap freed_map smo gh' : slab_inv g s dd msp gh A -> gh' = synced s gh -> sm_loaded (ms_map msp) = true -> plain g allocmap (fun x => own gh x = OAlloc s) ->
  plain g freemap (fun x => dead gh x = Some s) -> plain g freed_map (fun x => own gh' x = OFreed) -> dmu_has d (smo_object smo) ->
  exists a f d', metaslab_condense msp s allocmap freemap freed_map smo d = Ok (a, f, SpaceMapObj (smo_object smo) 0 0, d') /\ plain g a (fun x => own gh' x = OLog) /\ plain g f (fun _ => False) /\
    forall o, (dmu_has d' o <-> dmu_has d o) /\ dmu_bonus d' o = dmu_bonus d o /\ (o <> smo_object smo -> forall i, dmu_word d' o i = dmu_word d o i).
Proof using All.
  intros Hi Hgh Hld Ha Hf Hr Hhas. destruct Hi as [Hg Htx Hv _ Sa _ Sd Hm _ _ _ _ _ _]. pose proof Hg as [K1 K2 K3 K4 K5 K6].
  assert (Hv' : valid s gh') by (subst; by apply synced_valid). assert (Hns : forall x, own gh' x <> OAlloc s) by (subst; intros x [_ []]%synced_alloc; done).
  unfold metaslab_condense. destruct (plain_vacate g allocmap _ Ha) as (a0 & -> & Ha0). destruct (plain_vacate g freemap _ Hf) as (f0 & -> & Hf0). bnd. cbn [mbind res_bind].
  destruct (pn_geo _ _ _ Ha0) as (A1 & A2 & _). rewrite A1, A2. destruct (plain_add g a0 _ (g_lo g) (g_size g) Ha0) as (a1 & -> & Ha1 & _); [split_and!; try lia; apply K5|intros x _ []|]. bnd. cbn [mbind res_bind].
  destruct (mo_loaded _ _ _ Hm Hld) as (l & Hms & _ & Hsp). assert (Hsp' : forall x, space (ms_map msp) x <-> in_geo g x /\ own gh' x = OFree) by (intros x; by rewrite Hsp, Hgh, synced_free).
  destruct (plain_walk_remove g (ms_map msp) l a1 _ _ (MetaslabOk.ms_map _ _ Hms) (mo_geo _ _ _ Hm) Hsp' Ha1) as (a2 & -> & Ha2); [by right|]. bnd. cbn [mbind res_bind].
  destruct (take_away g freed_map gh' OFreed a2 _ Hr Ha2) as (a3 & -> & Ha3); [intros x Hx E; split; [by right|by rewrite E]|]. bnd. cbn [mbind res_bind].
  change TXG_DEFER_SIZE with (0 + 2). rewrite for_two. change (0 + 1) with 1. destruct (slots_rd _ _ _ _ 0 Sd ltac:(lia)) as (d0 & -> & Hd0 & _). destruct (slots_rd _ _ _ _ 1 Sd ltac:(lia)) as (d1 & -> & Hd1 & _). bnd. cbn [mbind res_bind].
  assert (Hde : forall b m, plain g m (fun x => own gh x = ODefer b) -> plain g m (fun x => own gh' x = ODefer b)) by (intros b m H; eapply plain_ext; [exact H|]; intros x _; by rewrite Hgh, synced_defer).
  destruct (take_away g d0 gh' (ODefer 0) a3 _ (Hde _ _ Hd0) Ha3) as (a4 & -> & Ha4); [intros x Hx E; rewrite E; split_and!; (by right) || done|]. bnd. cbn [mbind res_bind].
  destruct (take_away g d1 gh' (ODefer 1) a4 _ (Hde _ _ Hd1) Ha4) as (a5 & -> & Ha5); [intros x Hx E; rewrite E; split_and!; (by right) || done|]. bnd. cbn [mbind res_bind].
  change TXG_CONCURRENT_STATES with (1 + 2). rewrite for_two. change (1 + 1) with 2. cbv beta. rewrite (idx_at s 1), (idx_at s 2) by lia.
  destruct (slots_rd _ _ _ _ ((s + 1) mod 4) Sa (Z.mod_pos_bound _ 4 eq_refl)) as (m1 & -> & Hm1 & _). destruct (slots_rd _ _ _ _ ((s + 2) mod 4) Sa (Z.mod_pos_bound _ 4 eq_refl)) as (m2 & -> & Hm2 & _). bnd. cbn [mbind res_bind].
  assert (Hal : forall t m, s < t <= s + 2 -> plain g m (alloc_set gh (t mod 4)) -> plain g m (fun x => own gh' x = OAlloc t)).
  { intros t m Ht H. eapply plain_ext; [exact H|]. intros x _. rewrite (alloc_slot s) by (done || lia). rewrite Hgh, synced_alloc. split; [|tauto]. intros E. split; [done|lia]. }
  destruct (take_away g m1 gh' (OAlloc (s + 1)) a5 _ (Hal (s + 1) _ ltac:(lia) Hm1) Ha5) as (a6 & -> & Ha6); [intros x Hx E; rewrite E; split_and!; (by right) || done|]. bnd. cbn [mbind res_bind].
  destruct (take_away g m2 gh' (OAlloc (s + 2)) a6 _ (Hal (s + 2) _ ltac:(lia) Hm2) Ha6) as (a7 & -> & Ha7); [intros x Hx E; rewrite E; split_and!; (by right) || done || (intros [=]; lia)|]. bnd. cbn [mbind res_bind].
  destruct (dmu_free_range_ok d (smo_object smo) Hhas) as (d' & Ed & Hd'). unfold space_map_truncate. rewrite Ed. cbn [Z.eqb verify mbind res_bind]. exists a7, f0, d'. split; [done|]. split; [|done].
  eapply plain_ext; [exact Ha7|]. intros x Hx. cbn beta. rewrite (only_log s gh' x Hv' Hns). unfold in_geo in Hx. tauto.
Qed.

(** The maps to be written, condensed or not. *)
Record prepared (g : geo) gh' d (smo : space_map_obj) (a f : space_map T metaslab_ops) (smo2 : space_map_obj) d2 (PA PF L0 : Z -> Prop) : Prop := {
  pr_a : plain g a PA;
  pr_f : plain g f PF;
  pr_log : log_of g smo2 d2 L0;
  pr_object : smo_object smo2 = smo_object smo /\ smo_objsize smo2 <= smo_objsize smo;
  pr_disk o : (dmu_has d2 o <-> dmu_has d o) /\ dmu_bonus d2 o = dmu_bonus d o /\ (o <> smo_object smo -> forall i, dmu_word d2 o i = dmu_word d o i);
  pr_alloc x : in_geo g x -> PA x -> ~ L0 x;
  pr_free x : in_geo g x -> PF x -> L0 x \/ PA x;
  pr_result x : in_geo g x -> (L0 x \/ PA x) /\ ~ PF x <-> own gh' x = OLog }.

Lemma log_of_empty g o d : log_of g (SpaceMapObj o 0 0) d (fun _ => False).
Proof. split; [done|]. rewrite log_nil. apply logged_nil. tauto. Qed.

Lemma prepare_ok g s d msp gh A d1 smo allocmap freemap freed_map pass : slab_inv g s d msp gh A -> plain g allocmap (fun x => own gh x = OAlloc s) -> plain g freemap (fun x => dead gh x = Some s) ->
  plain g freed_map (fun x => own (synced s gh) x = OFreed) -> dmu_has d1 (smo_object smo) -> log_of g smo d1 (fun x => own gh x = OLog) ->
  exists a f smo2 d2 PA PF L0, (if sm_loaded (ms_map msp) && (pass =? 1) && (u64 (2 * 8 * tr_numnodes (sm_root (ms_map msp))) <=? smo_objsize smo) then metaslab_condense msp s allocmap freemap freed_map smo d1 else Ok (allocmap, freemap, smo, d1)) = Ok (a, f, smo2, d2) /\
    prepared g (synced s gh) d1 smo a f smo2 d2 PA PF L0 /\ (sm_loaded (ms_map msp) = false -> smo2 = smo /\ d2 = d1).
Proof using All.
  intros Hi Ha Hf Hr Hhas Hl. pose proof (si_valid _ _ _ _ _ _ Hi) as Hv. case_match eqn:Et; [rewrite !andb_true_iff in Et|clear Et].
  - destruct Et as [[Et _] _]. destruct (condense_ok g s d d1 msp gh A allocmap freemap freed_map smo (synced s gh)) as (a & f & d' & E & C1 & C2 & C3); try done.
    exists a, f, (SpaceMapObj (smo_object smo) 0 0), d', (fun x => own (synced s gh) x = OLog), (fun _ => False), (fun _ => False). split; [done|]. split; [|congruence].
    constructor; try done; [apply log_of_empty|split; [done|apply Hl]| |]; intros x _; tauto.
  - exists allocmap, freemap, smo, d1, (fun x => own gh x = OAlloc s), (fun x => dead gh x = Some s), (fun x => own gh x = OLog). split; [done|]. split; [|done]. constructor; try done.
    + congruence.
    + intros x _ Hd. by apply dead_here.
    + intros x _. by rewrite synced_log.
Qed.

(** The two maps go to the log. *)
Lemma write_ok g gh' d smo a f smo2 d2 PA PF L0 pass txg : geo_ok g -> prepared g gh' d smo a f smo2 d2 PA PF L0 -> smo_objsize smo <= 2 ^ 62 ->
  exists a' smo3 d3 f' smo4 d4, space_map_sync a SM_ALLOC smo2 d2 pass txg = Ok (a', smo3, d3) /\ space_map_sync f SM_FREE smo3 d3 pass txg = Ok (f', smo4, d4) /\
    plain g a' (fun _ => False) /\ plain g f' (fun _ => False) /\ log_of g smo4 d4 (fun x => own gh' x = OLog) /\ extends smo2 d2 smo4 d4 /\ untouched (eq (smo_object smo)) d2 d4 /\ smo_objsize smo4 <= 2 ^ 63.
Proof using All.
  intros Hg [Pa Pf Pl [Po1 Po2] Pd Pal Pfr Pre] Hroom. destruct (plain_sync g a PA SM_ALLOC smo2 d2 pass txg L0 Hg Pa) as (a' & smo3 & d3 & E3 & A1 & A2 & A3 & A4 & A5); [done|done|lia|done|].
  pose proof (proj1 A4) as Eo. destruct (plain_sync g f PF SM_FREE smo3 d3 pass txg _ Hg Pf ltac:(done) A2) as (f' & smo4 & d4 & E4 & B1 & B2 & B3 & B4 & B5); [lia|done|].
  exists a', smo3, d3, f', smo4, d4. split; [done|]. split; [done|]. split; [done|]. split; [done|]. split; [|split].
  - eapply log_of_ext; [exact B2|]. intros x Hx. rewrite <- Pre by done. unfold applied. cbn. tauto.
  - by eapply extends_trans.
  - split; [|lia]. rewrite <- Po1. eapply untouched_trans; [apply (writes_untouched _ _ _ A5)|]. rewrite <- Eo. apply (writes_untouched _ _ _ B5).
Qed.

(** A log that another one extends is still there. *)
Lemma log_of_extends g smo0 smo d smo' d' A : extends smo d smo' d' -> smo_objsize smo0 <= smo_objsize smo -> smo_objsize smo0 = 0 \/ smo_object smo0 = smo_object smo -> log_of g smo0 d A -> log_of g smo0 d' A.
Proof.
  intros (_ & _ & E3) Hle Ho [Hsz Hlog]. split; [done|]. destruct smo0 as [o n a]. cbn in *. destruct Ho as [-> | ->]; [by rewrite log_nil in *|]. replace (log _ d') with (log (SpaceMapObj (smo_object smo) n a) d); [done|].
  symmetry. apply (E3 n). split; [apply Hsz|done].
Qed.

(** What [metaslab_sync] leaves as it is. *)
Definition same_rest msp msp' : Prop :=
  ms_smo msp' = ms_smo msp /\ ms_defermap msp' = ms_defermap msp /\ ms_map msp' = ms_map msp /\ ms_deferspace msp' = ms_deferspace msp /\ ms_weight msp' = ms_weight msp.

Lemma valid_ext s gh gh' : valid s gh -> (forall x, own gh' x = own gh x /\ dead gh' x = dead gh x) -> valid s gh'.
Proof. intros [H1 H2 H3] He. constructor; intros x t; destruct (He x) as [Eo Ed]; rewrite ?Ed; [rewrite Eo; apply H1|rewrite Eo; apply H2|]. intros E%H3. by setoid_rewrite Eo. Qed.

Lemma slab_inv_ext g s d msp gh gh' A : slab_inv g s d msp gh A -> (forall x, own gh' x = own gh x /\ dead gh' x = dead gh x) -> slab_inv g s d msp gh' A.
Proof using All.
  intros [H1 H2 H3 H3' H4 H5 H6 H7 H8 H8' H8'' H9 H10 H11] He. pose proof (fun x => proj1 (He x)) as Eo. pose proof (fun x => proj2 (He x)) as Ed. constructor; try done.
  - by apply (valid_ext s gh).
  - intros x Hx. rewrite Eo, Ed. by apply H3'.
  - eapply slots_ext; [exact H4|]. intros j x _ Hx. unfold alloc_set. by rewrite Eo.
  - eapply slots_ext; [exact H5|]. intros j x _ Hx. unfold free_set. by rewrite Eo, Ed.
  - eapply slots_ext; [exact H6|]. intros j x _ Hx. by rewrite Eo.
  - destruct H7 as [M1 M2 M3 M4]. constructor; try done. intros E. destruct (M3 E) as (l & L1 & L2 & L3). exists l. split; [done|]. split; [done|]. intros x. by rewrite Eo.
  - eapply log_of_ext; [exact H8|]. intros x Hx. by rewrite Eo.
  - intros x Hx HA. rewrite Eo. by apply H9.
  - intros E. destruct (H10 E) as (U1 & U2 & U3 & U4 & U5). split_and!; try done; intros x; rewrite Eo; [apply U4|apply U5].
Qed.

(** The bonus buffer of the object is updated last. *)
Lemma bonus_ok arr k d smo0 d1 smo d4 smo4 : smo_object smo <> 0 -> dmu_has d1 (smo_object smo) -> smo_object smo <> arr -> dmu_word d1 arr k = smo_object smo -> dmu_has d1 arr ->
  smo_object smo = smo_object smo0 \/ (smo_object smo0 = 0 /\ ~ dmu_has d (smo_object smo)) -> untouched (fun o => o = smo_object smo \/ o = arr) d d1 ->
  (forall i, i <> k -> dmu_word d1 arr i = dmu_word d arr i) -> untouched (eq (smo_object smo)) d1 d4 -> smo_object smo4 = smo_object smo ->
  verify ((dmu_bonus_hold d4 (smo_object smo4)).1 =? 0) = Ok tt /\ disk_step arr k d smo0 (dmu_set_bonus d4 (smo_object smo4) smo4) smo4.
Proof using HBL.
  intros O1 O2 O3 O6 O7 O8 O9 O10 Hu E. set (d5 := dmu_set_bonus _ _ _). assert (B : forall o', (dmu_has d5 o' <-> dmu_has d4 o') /\ dmu_bonus d5 o' = (if o' =? smo_object smo4 then smo4 else dmu_bonus d4 o') /\ forall i, dmu_word d5 o' i = dmu_word d4 o' i) by (intros o'; apply dmu_set_bonus_ok).
  assert (Hu5 : untouched (eq (smo_object smo)) d4 d5).
  { intros o Ho. destruct (B o) as (B1 & B2 & B3). split; [by apply B1|]. intros Hne. split; [|done]. rewrite B2. rewrite (proj2 (Z.eqb_neq _ _)); [done|congruence]. }
  pose proof (untouched_trans _ _ _ _ Hu Hu5) as Hu'. destruct (Hu' _ O7) as [Ha Hw]. destruct (Hw O3) as [_ Hw']. destruct (Hu' _ O2) as [Hh _].
  split; [rewrite dmu_bonus_hold_ok; [done|]; rewrite E; by apply (Hu _ O2)|]. constructor.
  - constructor; [by rewrite E|by rewrite E|by rewrite Hw', E|]. intros _. rewrite E at 1. split; [done|]. rewrite (proj1 (proj2 (B _))). by rewrite Z.eqb_refl.
  - by rewrite E.
  - rewrite E. eapply untouched_trans; [exact O9|]. eapply untouched_weaken; [|exact Hu']. intros o ->. by left.
  - intros i Hi. rewrite Hw'. by apply O10.
Qed.

Lemma log_of_words g smo d d' P : (forall i, dmu_word d' (smo_object smo) i = dmu_word d (smo_object smo) i) -> log_of g smo d P -> log_of g smo d' P.
Proof. intros E [Hsz Hl]. split; [done|]. replace (log smo d') with (log smo d); [done|]. unfold log. apply tab_ext. intros i _. by rewrite E. Qed.

(** ** The metaslab after it *)

Lemma alloc_others s gh j x : j <> s mod 4 -> alloc_set gh j x <-> alloc_set (synced s gh) j x.
Proof. intros Hj. unfold alloc_set. setoid_rewrite synced_alloc. split; intros (t & E & Em); exists t; [|tauto]. split; [split; [done|]; intros ->; lia|done]. Qed.

Lemma free_others s gh j x : j <> s mod 4 -> j <> (s + 3) mod 4 -> free_set s gh j x <-> free_set s (synced s gh) j x.
Proof.
  intros Hj Hc. unfold free_set. rewrite (proj2 (Z.eqb_neq _ _) Hc). setoid_rewrite synced_dead. split; intros (t & E & Em); exists t; [|tauto]. split; [split; [done|]; intros ->; lia|done].
Qed.

Lemma slots_synced g s msp gh a' fr' f' : valid s gh -> slots g 4 (ms_allocmap msp) (alloc_set gh) -> slots g 4 (ms_freemap msp) (free_set s gh) ->
  plain g a' (fun _ => False) -> plain g f' (fun _ => False) -> plain g fr' (fun x => own (synced s gh) x = OFreed) ->
  exists allocs frees frees', wr (ms_allocmap msp) (s mod 4) a' = Ok allocs /\ wr (ms_freemap msp) ((s + 3) mod 4) fr' = Ok frees /\ wr frees (s mod 4) f' = Ok frees' /\
    slots g 4 allocs (alloc_set (synced s gh)) /\ slots g 4 frees' (free_set s (synced s gh)).
Proof.
  intros Hv Sa Sf Ha Hf Hr. pose proof (synced_valid _ _ Hv) as Hv'.
  destruct (slots_wr g 4 _ _ (alloc_set (synced s gh)) (s mod 4) a' Sa (Z.mod_pos_bound _ 4 eq_refl)) as [E1 S1]; [|intros j x _ Hj _; by apply alloc_others|].
  { eapply plain_ext; [exact Ha|]. intros x _. rewrite (alloc_slot s) by (done || lia). rewrite synced_alloc. tauto. }
  destruct (slots_wr g 4 _ _ (fun i x => if i =? (s + 3) mod 4 then own (synced s gh) x = OFreed else free_set s gh i x) ((s + 3) mod 4) fr' Sf (Z.mod_pos_bound _ 4 eq_refl)) as [E2 S2]; [by rewrite Z.eqb_refl|intros j x _ Hj _; by rewrite (proj2 (Z.eqb_neq _ _) Hj)|].
  destruct (slots_wr g 4 _ _ (free_set s (synced s gh)) (s mod 4) f' S2 (Z.mod_pos_bound _ 4 eq_refl)) as [E3 S3].
  { eapply plain_ext; [exact Hf|]. intros x _. rewrite (free_slot s) by (done || lia). rewrite synced_dead. tauto. }
  { intros j x _ Hj _. destruct (Z.eqb_spec j ((s + 3) mod 4)) as [->|Hc]; [by rewrite clean_slot|by apply free_others]. }
  eexists _, _, _. by split_and!.
Qed.

(** Only what is in the log, or was just freed, was in the log. *)
Lemma synced_inv g s d d' msp gh A allocs frees smo' : slab_inv g s d msp gh A -> slots g 4 allocs (alloc_set (synced s gh)) -> slots g 4 frees (free_set s (synced s gh)) -> log_of g smo' d' (fun x => own (synced s gh) x = OLog) -> smo_objsize smo' <= 2 ^ 63 ->
  (sm_loaded (ms_map msp) = false -> log_of g (ms_smo msp) d' A /\ smo_objsize (ms_smo msp) <= smo_objsize smo' /\ (smo_objsize (ms_smo msp) = 0 \/ smo_object (ms_smo msp) = smo_object smo')) ->
  slab_inv g s d' (MkMetaslab (ms_smo msp) smo' allocs frees (ms_defermap msp) (ms_map msp) (ms_deferspace msp) (ms_weight msp)) (synced s gh) A.
Proof.
  intros [Hg Htx Hv Hou Sa Sf Sd Hm Hl Hrm Hsmo HA Hun Hds] S1 S2 Hl' Hr' Hu. constructor; cbn [ms_smo ms_smo_syncing ms_allocmap ms_freemap ms_defermap ms_map ms_deferspace]; try done.
  - by apply synced_valid.
  - intros x [Eo Ed]%Hou. cbn. rewrite Eo, Ed. done.
  - eapply slots_ext; [exact Sd|]. intros j x _ _. symmetry. apply synced_defer.
  - destruct Hm as [M1 M2 M3 M4]. constructor; try done. intros E. destruct (M3 E) as (l & L1 & L2 & L3). exists l. split; [done|]. split; [done|]. intros x. by rewrite synced_free.
  - intros x Hx HAx. rewrite synced_log, synced_freed by done. destruct (HA x Hx HAx) as [E|E]; [|tauto]. destruct (decide (dead gh x = Some s)); tauto.
  - intros E. destruct (Hun E) as (_ & _ & _ & U4 & U5), (Hu E) as (V1 & V2 & V3). split_and!; try done.
    + intros x Hx. rewrite synced_log, synced_freed by done. intros [[[Ho|Ho] _]|[Ho|Ho]]; [apply U4; tauto|by destruct (U5 x s Hx)|apply U4; tauto|]. apply (dead_here s gh x Hv) in Ho as [Ho|Ho]; [apply U4; tauto|by destruct (U5 x s Hx)].
    + intros x t Hx [Ho _]%synced_alloc. by destruct (U5 x t Hx).
Qed.

Lemma synced_same s gh x : own gh x <> OAlloc s -> dead gh x <> Some s -> own (synced s gh) x = own gh x /\ dead (synced s gh) x = dead gh x.
Proof. intros Ha Hd. cbn. destruct (decide (dead gh x = Some s)) as [|_]; [done|]. split; [|done]. destruct (own gh x); try done. rewrite decide_False; [done|congruence]. Qed.

Lemma metaslab_sync_ok (vd : top_vdev) pass g s d msp gh A (k := Z.shiftr (g_lo g) (vdev_ms_shift vd)) : 0 <= k < 2 ^ 61 -> slab_inv g s d msp gh A ->
  disk_inv (vdev_ms_array vd) k d (ms_smo_syncing msp) -> smo_objsize (ms_smo_syncing msp) <= 2 ^ 62 ->
  exists msp' d', metaslab_sync vd pass s msp d = Ok (msp', d') /\ slab_inv g s d' msp' (synced s gh) A /\ disk_step (vdev_ms_array vd) k d (ms_smo_syncing msp) d' (ms_smo_syncing msp') /\ same_rest msp msp'.
Proof using All.
  intros Hk Hi Hd Hroom. pose proof Hi as [Hg Htx Hv Hou Sa Sf Sd Hm Hl Hrm Hsmo HA Hun Hds]. pose proof (synced_valid _ _ Hv) as Hv'.
  unfold metaslab_sync. rewrite TXG_CLEAN_idx, idx_0.
  destruct (slots_rd _ _ _ _ (s mod 4) Sa (Z.mod_pos_bound _ 4 eq_refl)) as (am & -> & Ham & _). destruct (slots_rd _ _ _ _ (s mod 4) Sf (Z.mod_pos_bound _ 4 eq_refl)) as (fm & -> & Hfm & _).
  bnd. cbn [mbind res_bind]. apply (plain_ext _ _ _ (fun x => own gh x = OAlloc s)) in Ham; [|intros x _; apply (alloc_slot s); [done|lia]]. apply (plain_ext _ _ _ (fun x => dead gh x = Some s)) in Hfm; [|intros x _; apply (free_slot s); [done|lia]].
  case_match eqn:E0; [apply andb_true_iff in E0 as [E1%Z.eqb_eq E2%Z.eqb_eq]|].
  - rewrite (plain_empty _ _ _ Ham) in E1. rewrite (plain_empty _ _ _ Hfm) in E2. exists msp, d. split; [done|]. split; [|split; [|done]].
    + apply (slab_inv_ext _ _ _ _ gh); [done|]. intros x. destruct (decide (in_geo g x)) as [Hx|Hx]; [apply synced_same; [by apply E1|by apply E2]|]. destruct (Hou x Hx) as [Eo Ed]. cbn. by rewrite Eo, Ed.
    + constructor; [done|by left|apply untouched_refl|done].
  - clear E0. pose proof (proj1 (mo_geo _ _ _ Hm)) as Ek. destruct (object_ok vd msp d g (fun x => own gh x = OLog)) as (smo & d1 & -> & O1 & O2 & O3 & O4 & O5 & O6 & O7 & O8 & O9 & O10 & O11); [by rewrite Ek|by rewrite Ek|done|]. rewrite Ek in O6, O10. fold k in O6, O10.
    destruct (slots_rd _ _ _ _ ((s + 3) mod 4) Sf (Z.mod_pos_bound _ 4 eq_refl)) as (fr & -> & Hfr & _). bnd. cbn [mbind res_bind].
    apply (plain_ext _ _ _ (fun x => own gh x = OFreed)) in Hfr; [|intros x _; apply (clean_slot s gh x)]. destruct (plain_walk_add g fm _ fr _ Hfm Hfr) as (fr' & -> & Hfr' & _); [intros x _ Hx E; destruct (dead_here s gh x Hv Hx); congruence|]. bnd. cbn [mbind res_bind].
    apply (plain_ext _ _ _ (fun x => own (synced s gh) x = OFreed)) in Hfr'; [|intros x _; by rewrite synced_freed].
    destruct (prepare_ok g s d msp gh A d1 smo am fm fr' pass Hi Ham Hfm Hfr' O2 O5) as (a & f & smo2 & d2 & PA & PF & L0 & -> & Hpr & Hnl). bnd. cbn [mbind res_bind].
    destruct (write_ok _ _ _ _ _ _ _ _ _ _ _ pass s Hg Hpr ltac:(lia)) as (a' & smo3 & d3 & f' & smo4 & d4 & -> & W & Ha' & Hf' & Hl4 & Hex & Hun4 & Hrm4). bnd. cbn [mbind res_bind]. rewrite W. bnd. cbn [mbind res_bind].
    destruct (pr_object _ _ _ _ _ _ _ _ _ _ _ Hpr) as [Eo2 _]. pose proof (proj1 Hex) as Eo4. rewrite Eo2 in Eo4.
    assert (Hu24 : untouched (eq (smo_object smo)) d1 d4).
    { eapply untouched_trans; [|exact Hun4]. intros o Ho. destruct (pr_disk _ _ _ _ _ _ _ _ _ _ _ Hpr o) as (D1 & D2 & D3). split; [by apply D1|]. intros Hne. split; [done|]. apply D3. congruence. }
    destruct (bonus_ok _ _ _ _ _ _ _ smo4 O1 O2 O3 O6 O7 O8 O9 O10 Hu24 Eo4) as [-> Hstep]. bnd. cbn [mbind res_bind].
    destruct (slots_synced g s msp gh a' fr' f' Hv Sa Sf Ha' Hf' Hfr') as (allocs & frees & frees' & -> & -> & Efr & S1 & S2). bnd. cbn [mbind res_bind]. rewrite Efr. bnd. cbn [mbind res_bind].
    eexists _, _. split; [done|]. split; [|split; [exact Hstep|done]]. assert (Hw : forall o i, dmu_word (dmu_set_bonus d4 (smo_object smo4) smo4) o i = dmu_word d4 o i) by (intros o; apply dmu_set_bonus_ok).
    apply (synced_inv _ _ d); try done; [by eapply log_of_words; [intros i; apply Hw|]|]. intros E. destruct (Hnl E) as [-> ->], (Hun E) as (U1 & U2 & U3 & _). pose proof (proj1 (proj2 Hex)). split; [|split; [lia|]].
    + eapply log_of_words; [intros i; apply Hw|]. destruct O11 as [E0|Hex0]; [|by eapply (log_of_extends _ _ (ms_smo_syncing msp)); [eapply extends_trans| | |]]. pose proof (proj1 (proj1 (proj1 U1))).
      eapply (log_of_extends _ _ smo); [exact Hex|lia|left; lia|]. destruct U1 as [U1 U1']. split; [done|]. assert (E1 : smo_objsize (ms_smo msp) = 0) by lia. destruct (ms_smo msp) as [o n a2]. cbn in *. subst n. done.
    + destruct U3 as [U3|U3]; [by left|]. destruct O11 as [E0|Hex0]; [left; pose proof (proj1 (proj1 (proj1 U1))); lia|right]. rewrite Eo4, U3. symmetry. apply Hex0.
Qed.
End write.
End MetaslabWrite.

Import MetaslabWrite.

Module MetaslabTurn.

(** A loop that does what another one does as long as an invariant holds. *)
Lemma each_follow {A S} (I : S -> Prop) (f g : A -> S -> res S) l s s' : I s -> (forall p s s1, I s -> g p s = Ok s1 -> I s1 /\ f p s = Ok s1) -> each g l s = Ok s' -> each f l s = Ok s'.
Proof.
  intros Hs Hf. revert s Hs. induction l as [|p l IH]; intros s Hs; [done|]. cbn. destruct (g p s) as [s1|] eqn:E; [|done]. destruct (Hf p s s1 Hs E) as [H1 ->]. cbn. by apply IH.
Qed.

Section turn.
Context {T I D : Type} {HT : Tree T I} {HK : Kmem} {HD : Dmu D} {HB : DmuObjects D} {HTL : TreeLaws T I} {HKL : KmemLaws} {HDL : DmuLaws D} {HBL : DmuObjectLaws D}.
Implicit Types (m sm : space_map T metaslab_ops) (P Q : Z -> Prop) (msp : metaslab T) (gh : ghost) (d : D).

(** ** The operations of the picker are kept *)

Lemma pp_remove_ops sm p sm' : pp_remove sm p = Ok sm' -> sm_ops sm' = sm_ops sm.
Proof. unfold pp_remove. destruct (sm_pp_root sm); [|by intros [= <-]]. intros H. binv H. by injection H as <-. Qed.

Lemma pp_add_ops sm p sm' : pp_add sm p = Ok sm' -> sm_ops sm' = sm_ops sm.
Proof. unfold pp_add. destruct (sm_pp_root sm); [|by intros [= <-]]. intros H. binv H. by injection H as <-. Qed.

Lemma set_seg_ops sm p s sm' : set_seg sm p s = Ok sm' -> sm_ops sm' = sm_ops sm.
Proof. unfold set_seg. destruct (sm_segs sm !! p); [|done]. by intros [= <-]. Qed.

Ltac ops_step := match goal with
  | H : pp_remove _ _ = Ok _ |- _ => apply pp_remove_ops in H
  | H : pp_add _ _ = Ok _ |- _ => apply pp_add_ops in H
  | H : set_seg _ _ _ = Ok _ |- _ => apply set_seg_ops in H
  | H : Ok (_, _) = Ok (_, _) |- _ => injection H as <- <-
  | H : Ok _ = Ok _ |- _ => injection H as <-
  end.

Lemma add_merge_ops sm start end_ w sm' ss : add_merge sm start end_ w = Ok (sm', ss) -> sm_ops sm' = sm_ops sm.
Proof. unfold add_merge. intros E. binv E. destruct a1, a2; cbn [andb] in E; binv E; repeat ops_step; cbn in *; congruence. Qed.

Lemma remove_cut_ops sm p start end_ sm' ss : remove_cut sm p start end_ = Ok (sm', ss) -> sm_ops sm' = sm_ops sm.
Proof. unfold remove_cut. intros E. binv E. destruct (_ && _); [|destruct (negb _); [|destruct (negb _)]]; binv E; repeat ops_step; cbn in *; congruence. Qed.

Lemma add_ops sm start size sm' : space_map_add sm start size = Ok sm' -> sm_ops sm' = sm_ops sm.
Proof.
  unfold space_map_add. intros H. binv H. destruct a5 as [ss w]. binv H. destruct a5; [unfold zfs_panic_recover in H; destruct zfs_recover; [by injection H as <-|done]|]. binv H. destruct a6 as [sm1 ss1]. binv H. injection H as <-. apply pp_add_ops in E9. apply add_merge_ops in E8. cbn. congruence.
Qed.

Lemma remove_ops sm start size sm' : space_map_remove sm start size = Ok sm' -> sm_ops sm' = sm_ops sm.
Proof.
  unfold space_map_remove. intros H. binv H. destruct a2 as [ss w]. destruct (ss =? NULL); [unfold zfs_panic_recover in H; destruct zfs_recover; [by injection H as <-|done]|]. binv H. destruct a7 as [sm1 ss1]. binv H. injection H as <-. cbn.
  apply remove_cut_ops in E8. apply pp_remove_ops in E7. destruct (negb (ss1 =? NULL)); repeat ops_step; congruence.
Qed.

(** ** A loaded map *)

(** A map with the tree by size that holds a set. *)
Definition loaded_map (g : geo) sm P : Prop := has_geo g sm /\ sm_loading sm = false /\ sm_loaded sm = true /\ sm_ops sm = Some zfs_metaslab_ops /\ exists l, ms_ok sm l /\ forall x, space sm x <-> in_geo g x /\ P x.

Lemma loaded_framed g sm l P l' sm' Q : loaded_map g sm P -> ms_ok sm l -> sm_ok sm' l' -> framed sm sm' -> (forall x, space sm' x <-> in_geo g x /\ Q x) -> loaded_map g sm' Q.
Proof using All.
  intros (H1 & H2 & H3 & H4 & _) Hms Hok Hf Hq. pose proof Hf as (F1 & F2 & F3 & F4 & F5 & F6 & F7 & F8). unfold loaded_map. rewrite F4, F5, F6. split; [by eapply has_geo_framed|]. split_and!; try done. exists l'. split; [by eapply framed_ms|done].
Qed.

(** [space_map_claim] and [space_map_free] are the plain operations. *)
Lemma claim_plain sm start size : sm_ops sm = Some zfs_metaslab_ops -> space_map_claim sm start size = space_map_remove sm start size.
Proof. intros E. unfold space_map_claim, ops_of. by rewrite E. Qed.

Lemma free_plain sm start size sm' : sm_ops sm = Some zfs_metaslab_ops -> space_map_add sm start size = Ok sm' -> space_map_free sm start size = Ok sm'.
Proof. intros E Ea. unfold space_map_free, ops_of. rewrite Ea. cbn [mbind res_bind]. by rewrite (add_ops _ _ _ _ Ea), E. Qed.

Lemma walk_claims g m P sm Q : plain g m P -> loaded_map g sm Q -> (forall x, in_geo g x -> P x -> Q x) ->
  exists sm', space_map_walk m space_map_claim sm = Ok sm' /\ loaded_map g sm' (fun x => Q x /\ ~ P x).
Proof using All.
  intros [[l Hok] _ Hg Hs] HL Hd. pose proof HL as (Hg2 & _ & _ & Eo & l2 & Hms & Hs2). rewrite (space_map_walk_ok m l) by done.
  destruct (walk_remove m l l sm l2 Hok ltac:(done) (MetaslabOk.ms_map _ _ Hms) (has_geo_alike _ _ _ Hg Hg2)) as (sm' & E & (l' & Hok' & Hf & _ & Hx)); [intros x [Hx HP]%Hs; apply Hs2; split; [done|by apply Hd]|].
  exists sm'. split; [|eapply loaded_framed; [exact HL|done|done|done|]; intros x; rewrite Hx, Hs, Hs2; tauto].
  eapply (each_follow (fun sm => sm_ops sm = Some zfs_metaslab_ops)); [exact Eo| |exact E]. intros p s s1 H1 H2. split; [unfold apply_seg in H2; by rewrite (remove_ops _ _ _ _ H2)|]. unfold apply_seg in *. by rewrite claim_plain.
Qed.

Lemma vacate_frees g m P sm Q : plain g m P -> loaded_map g sm Q -> (forall x, in_geo g x -> P x -> ~ Q x) ->
  exists m' sm', space_map_vacate m (Some space_map_free) sm = Ok (m', sm') /\ plain g m' (fun _ => False) /\ loaded_map g sm' (fun x => Q x \/ P x).
Proof using All.
  intros Hp HL Hd. pose proof Hp as [[l Hok] Hpp Hg Hs]. pose proof HL as (Hg2 & _ & _ & Eo & l2 & Hms & Hs2).
  destruct (space_map_vacate_ok m l (Some (space_map_free (T := T) (O := metaslab_ops))) sm Hok Hpp) as (todo & t & Hpm & Hem & ->).
  destruct (walk_add m l todo sm l2 Hok Hpm (MetaslabOk.ms_map _ _ Hms) (has_geo_alike _ _ _ Hg Hg2)) as (sm' & E & (l' & Hok' & Hf & _ & Hx)); [intros x [Hx HP]%Hs [_ HQ]%Hs2; by apply (Hd x)|].
  cbn [default from_option id]. rewrite (each_follow (fun sm => sm_ops sm = Some zfs_metaslab_ops) _ _ _ _ _ Eo) with (2 := E).
  - exists (emptied m t), sm'. split; [done|]. split; [exact (proj1 (plain_emptied g m P t Hp Hem))|]. eapply loaded_framed; [exact HL|done|done|done|]; intros x; rewrite Hx, Hs, Hs2; tauto.
  - intros p s s1 H1 H2. unfold apply_seg in *. split; [by rewrite (add_ops _ _ _ _ H2)|]. by apply free_plain.
Qed.

Lemma map_loaded g sm gh : map_ok g sm gh -> sm_loaded sm = true -> loaded_map g sm (fun x => own gh x = OFree).
Proof. intros [M1 M2 M3 _] E. destruct (M3 E) as (l & L1 & L2 & L3). by split_and!; [..|exists l]. Qed.

Lemma loaded_map_ok g sm gh : loaded_map g sm (fun x => own gh x = OFree) -> map_ok g sm gh.
Proof. intros (L1 & L2 & L3 & L4 & l & L5 & L6). constructor; try done; [by exists l|congruence]. Qed.

Lemma loaded_ext g sm P Q : loaded_map g sm P -> (forall x, in_geo g x -> P x <-> Q x) -> loaded_map g sm Q.
Proof. intros (L1 & L2 & L3 & L4 & l & L5 & L6) H. split_and!; try done. exists l. split; [done|]. intros x. rewrite L6. split; (intros [Hx HP]; split; [done|by apply (H x Hx)]). Qed.

(** The map of a metaslab is replaced. *)
Lemma with_map_inv g s d msp gh A sm : slab_inv g s d msp gh A -> map_ok g sm gh -> (sm_loaded sm = false -> sm_loaded (ms_map msp) = false) -> slab_inv g s d (with_map msp sm) gh A.
Proof. intros [Hg Htx Hv Hou Sa Sf Sd Hm Hl Hrm Hsmo HA Hun Hds] Hm' Hun'. constructor; try done. intros E%Hun'. by apply Hun. Qed.

(** ** Loading *)

(** What is free when everything that the log does not have is. *)
Lemma unloaded_free g s d msp gh A x : slab_inv g s d msp gh A -> sm_loaded (ms_map msp) = false -> in_geo g x ->
  own gh x = OFree <-> (~ A x /\ own gh x <> ODefer 0) /\ own gh x <> ODefer 1.
Proof.
  intros Hi E Hx. destruct (si_unloaded _ _ _ _ _ _ Hi E) as (_ & _ & _ & U4 & U5). split.
  - intros Eo. rewrite Eo. split_and!; try done. intros [H|H]%(si_A _ _ _ _ _ _ Hi x Hx); congruence.
  - intros [[HnA H0] H1]. destruct (own gh x) as [|b| |t|] eqn:Eo; try done; [|by destruct HnA; apply U4; [|right]|by destruct (U5 x t Hx)|by destruct HnA; apply U4; [|left]].
    pose proof (va_defer _ _ (si_valid _ _ _ _ _ _ Hi) x b Eo). assert (b = 0 \/ b = 1) as [->| ->] by lia; done.
Qed.

Lemma activate_load_ok g s d msp gh A : slab_inv g s d msp gh A ->
  exists err sm, activate_load msp zfs_metaslab_ops d = Ok (err, with_map msp sm) /\ slab_inv g s d (with_map msp sm) gh A /\
    ((err = 0 /\ sm_loaded sm = true) \/ (err <> 0 /\ sm_loaded sm = false /\ exists off size, (dmu_read d (smo_object (ms_smo msp)) off size).1 = err)).
Proof using All.
  intros Hi. pose proof Hi as [Hg Htx Hv Hou Sa Sf Sd Hm Hl Hrm Hsmo HA Hun Hds]. unfold activate_load, space_map_load_wait. rewrite (mo_loading _ _ _ Hm). cbn [mbind res_bind]. destruct (sm_loaded (ms_map msp)) eqn:E.
  { exists 0, (ms_map msp). destruct msp. split; [done|]. split; [done|by left]. }
  destruct (Hun eq_refl) as ([U1 U1'] & U2 & _). destruct (mo_unloaded _ _ _ Hm E) as (M1 & M2 & M3 & M4). destruct (mo_geo _ _ _ Hm) as (G1 & G2 & G3). pose proof Hg as [K1 K2 K3 K4 [K5 K6] K7].
  destruct (ms_load_ok (ms_map msp) zfs_metaslab_ops (ms_smo msp) d (fun x => in_geo g x /\ A x) M1 M2) as [(sm1 & l1 & El & Hms & L1 & L2 & L3 & (L4 & L5 & L6) & Hx)|(err & sm1 & H1 & H2 & H3 & H4 & H5)];
    [unfold loadable; rewrite G1, G2, G3; split_and!; [done|done|lia]|lia|lia|done|lia|by rewrite G1, G2, G3| |].
  - rewrite El. cbn [mbind res_bind Z.eqb negb]. assert (HL : loaded_map g sm1 (fun x => ~ A x)).
    { split_and!; try done; [unfold has_geo; by rewrite L4, L5, L6|]. exists l1. split; [done|]. intros x. rewrite Hx, G1, G2. unfold in_geo. tauto. }
    change TXG_DEFER_SIZE with (0 + 2). rewrite for_two. change (0 + 1) with 1. destruct (slots_rd _ _ _ _ 0 Sd ltac:(lia)) as (d0 & -> & Hd0 & _). destruct (slots_rd _ _ _ _ 1 Sd ltac:(lia)) as (d1 & -> & Hd1 & _). cbn [mbind res_bind].
    assert (Hdf : forall x b, in_geo g x -> own gh x = ODefer b -> ~ A x) by (intros x b Hin Eo [HA'|HA']%(HA x Hin); congruence).
    destruct (walk_claims g d0 _ sm1 _ Hd0 HL) as (sm2 & -> & HL2); [intros x Hin Eo; by apply (Hdf x 0)|]. cbn [mbind res_bind].
    destruct (walk_claims g d1 _ sm2 _ Hd1 HL2) as (sm3 & -> & HL3); [intros x Hin Eo; split; [by apply (Hdf x 1)|by rewrite Eo]|]. cbn [mbind res_bind].
    exists 0, sm3. split; [done|]. split; [|left; split; [done|apply HL3]]. apply with_map_inv; [done| |by intros _]. apply loaded_map_ok. eapply loaded_ext; [exact HL3|]. intros x Hin. cbn beta. by rewrite (unloaded_free g s d msp gh A x Hi E Hin).
  - rewrite H3. cbn [mbind res_bind]. rewrite (proj2 (Z.eqb_neq err 0)) by done. cbn [negb]. exists err, sm1. split; [done|]. destruct H5 as (F1 & F2 & F3 & F4 & F5 & F6 & F7 & F8). cbn in *.
    split; [|right; split; [done|]; split; [congruence|done]]. apply with_map_inv; [done| |done]. constructor; [unfold has_geo; by rewrite F1, F2, F3|done|congruence|]. intros _. split_and!; [done| |congruence|congruence].
    unfold same_cmp in F8. rewrite M2 in F8. by destruct (sm_pp_root sm1).
Qed.

(** ** The end of a group *)

Lemma plain_drop {M} g m P (dest : M) : plain g m P -> exists m', space_map_vacate m None dest = Ok (m', dest) /\ plain g m' (fun _ => False).
Proof using All.
  intros Hp. pose proof Hp as [[l Hok] Hpp Hg Hs]. destruct (space_map_vacate_ok m l (None : option (M -> Z -> Z -> res M)) dest Hok Hpp) as (todo & t & _ & Hem & ->). exists (emptied m t).
  replace (each _ todo dest) with (Ok dest); [|symmetry; clear; induction todo; done]. split; [done|]. exact (proj1 (plain_emptied g m P t Hp Hem)).
Qed.

(** The oldest deferred frees go to the map of free space, if it is loaded. *)
Lemma vacate_defer g s gh m sm : plain g m (fun x => own gh x = ODefer (s mod 2)) -> map_ok g sm gh ->
  exists m' sm', space_map_vacate m (if sm_loaded sm then Some space_map_free else None) sm = Ok (m', sm') /\ plain g m' (fun _ => False) /\ map_ok g sm' (turned s gh) /\ sm_loaded sm' = sm_loaded sm.
Proof using All.
  intros Hp Hm. destruct (sm_loaded sm) eqn:E.
  - destruct (vacate_frees g m _ sm _ Hp (map_loaded _ _ _ Hm E)) as (m' & sm' & -> & H1 & H2); [congruence|]. exists m', sm'. split; [done|]. split; [done|]. split; [|apply H2].
    apply loaded_map_ok. eapply loaded_ext; [exact H2|]. intros x _. cbn beta. by rewrite turned_free.
  - destruct (plain_drop g m _ sm Hp) as (m' & -> & H1). exists m', sm. split; [done|]. split; [done|]. split; [|done]. destruct Hm as [M1 M2 M3 M4]. constructor; try done. congruence.
Qed.

Lemma slots_turned g s msp gh fr df : valid s gh -> (forall x, own gh x <> OAlloc s) -> (forall x, dead gh x <> Some s) -> slots g 4 (ms_freemap msp) (free_set s gh) -> slots g 2 (ms_defermap msp) (fun i x => own gh x = ODefer i) ->
  plain g fr (fun _ => False) -> plain g df (fun x => own gh x = OFreed) ->
  exists frees defers, wr (ms_freemap msp) ((s + 3) mod 4) fr = Ok frees /\ wr (ms_defermap msp) (s mod 2) df = Ok defers /\
    slots g 4 frees (free_set (s + 1) (turned s gh)) /\ slots g 2 defers (fun i x => own (turned s gh) x = ODefer i) /\ defers = <[Z.to_nat (s mod 2) := df]> (ms_defermap msp).
Proof.
  intros Hv Ha Hd Sf Sd Hfr Hdf. destruct (slots_wr g 4 _ _ (free_set (s + 1) (turned s gh)) ((s + 3) mod 4) fr Sf (Z.mod_pos_bound _ 4 eq_refl)) as [E1 S1].
  - eapply plain_ext; [exact Hfr|]. intros x _. unfold free_set. rewrite (proj2 (Z.eqb_neq _ _)) by dlia. split; [done|]. intros (t & Ed & Et). destruct (va_dead _ _ Hv x t Ed) as [Ht _]. dlia.
  - intros j x Hj Hne _. unfold free_set. rewrite (proj2 (Z.eqb_neq _ _) Hne). destruct (Z.eqb_spec j ((s + 1 + 3) mod 4)) as [->|Hj2]; [|done]. split.
    + intros (t & Ed & Et). destruct (va_dead _ _ Hv x t Ed) as [Ht _]. assert (t = s) as -> by dlia. by destruct (Hd x).
    + by intros H%turned_freed.
  - destruct (slots_wr g 2 _ _ (fun i x => own (turned s gh) x = ODefer i) (s mod 2) df Sd (Z.mod_pos_bound _ 2 eq_refl)) as [E2 S2].
    + eapply plain_ext; [exact Hdf|]. intros x _. rewrite turned_defer. tauto.
    + intros j x _ Hne _. rewrite turned_defer. tauto.
    + by eexists _, _.
Qed.

(** The space of a list of two maps when one of them is replaced. *)
Lemma defer_sum (l ls : list (space_map T metaslab_ops)) i df df' m0 m1 : 0 <= i <= 1 -> l = [m0; m1] -> l !! Z.to_nat i = Some df -> <[Z.to_nat i := df']> l = ls ->
  exists m0' m1', ls = [m0'; m1'] /\ sm_space m0' + sm_space m1' = sm_space m0 + sm_space m1 - sm_space df + sm_space df'.
Proof. intros Hi -> Hl <-. assert (i = 0 \/ i = 1) as [->| ->] by lia; cbn in Hl; injection Hl as <-; cbn; eexists _, _; (split; [done|lia]). Qed.

Lemma sync_done_maps_ok g s d msp gh A : slab_inv g s d msp gh A -> s + 1 < 2 ^ 63 -> (forall x, own gh x <> OAlloc s) -> (forall x, dead gh x <> Some s) ->
  exists fr df msp', rd (ms_freemap msp) ((s + 3) mod 4) = Ok fr /\ rd (ms_defermap msp) (s mod 2) = Ok df /\ 0 <= sm_space fr <= g_size g /\ 0 <= sm_space df <= g_size g /\
    sync_done_maps msp s (i64 (sm_space fr - sm_space df)) = Ok msp' /\ slab_inv g (s + 1) d msp' (turned s gh) (fun x => own gh x = OLog) /\
    ms_smo msp' = ms_smo_syncing msp /\ ms_smo_syncing msp' = ms_smo_syncing msp /\ ms_weight msp' = ms_weight msp /\ sm_loaded (ms_map msp') = sm_loaded (ms_map msp) /\
    ms_deferspace msp' = ms_deferspace msp + (sm_space fr - sm_space df) /\ ms_allocmap msp' = ms_allocmap msp.
Proof using All.
  intros Hi Hs1 Ha Hd. pose proof Hi as [Hg Htx Hv Hou Sa Sf Sd Hm Hl Hrm Hsmo HA Hun (m0 & m1 & Em & Eds)].
  destruct (slots_rd _ _ _ _ ((s + 3) mod 4) Sf (Z.mod_pos_bound _ 4 eq_refl)) as (fr & Efr & Hfr & _). destruct (slots_rd _ _ _ _ (s mod 2) Sd (Z.mod_pos_bound _ 2 eq_refl)) as (df & Edf & Hdf & Ldf).
  apply (plain_ext _ _ _ (fun x => own gh x = OFreed)) in Hfr; [|intros x _; apply (clean_slot s gh x)]. pose proof (plain_bound _ _ _ Hfr) as Bfr. pose proof (plain_bound _ _ _ Hdf) as Bdf.
  destruct (vacate_defer g s gh df (ms_map msp) Hdf Hm) as (df' & sm' & Ev & Hdf' & Hm' & Eld). destruct (plain_vacate_add g fr _ df' _ Hfr Hdf') as (fr' & df2 & Ev2 & Hfr' & Hdf2 & Esp); [tauto|].
  apply (plain_ext _ _ _ (fun x => own gh x = OFreed)) in Hdf2; [|intros x _; tauto]. destruct (slots_turned g s msp gh fr' df2 Hv Ha Hd Sf Sd Hfr' Hdf2) as (frees & defers & W1 & W2 & S1 & S2 & Edef).
  assert (E0 : sm_space df' = 0) by (apply (plain_empty _ _ _ Hdf'); tauto). destruct (defer_sum _ defers (s mod 2) df df2 m0 m1 ltac:(dlia) Em Ldf (eq_sym Edef)) as (m0' & m1' & Ed' & Esum).
  assert (Bs : 0 <= sm_space m0 <= g_size g /\ 0 <= sm_space m1 <= g_size g) by (rewrite Em in Sd; destruct Sd as [_ Sd]; split; eapply plain_bound; [apply (Sd 0%nat)|apply (Sd 1%nat)]; done).
  pose proof (ge_size _ Hg). assert (Ei : i64 (ms_deferspace msp + i64 (sm_space fr - sm_space df)) = ms_deferspace msp + (sm_space fr - sm_space df)) by dlia.
  exists fr, df. eexists. split; [done|]. split; [done|]. split; [done|]. split; [done|]. split; [|split].
  { unfold sync_done_maps. rewrite TXG_CLEAN_idx. change TXG_DEFER_SIZE with 2. rewrite Efr, Edf. unfold space_map_load_wait. rewrite (mo_loading _ _ _ Hm). cbn [mbind res_bind]. rewrite Ev. cbn [mbind res_bind]. rewrite Ev2. cbn [mbind res_bind]. rewrite W1, W2. cbn [mbind res_bind]. done. }
  2: { rewrite Ei. by split_and!. }
  rewrite Ei. constructor; cbn [ms_smo ms_smo_syncing ms_allocmap ms_freemap ms_defermap ms_map ms_deferspace]; try done; [lia|by apply turned_valid|intros x [Eo Ed]%Hou; cbn; by rewrite Eo|..].
  - eapply slots_ext; [exact Sa|]. intros j x _ _. unfold alloc_set. by setoid_rewrite turned_alloc.
  - eapply log_of_ext; [exact Hl|]. intros x _. by rewrite turned_log.
  - by eapply log_bound.
  - intros x _. rewrite turned_log. tauto.
  - intros E. rewrite Eld in E. destruct (Hun E) as (_ & _ & _ & _ & U5). split_and!; try done; [by right|intros x _; rewrite turned_log; pose proof (turned_freed s gh x); tauto|intros x t Hx; rewrite turned_alloc; by apply U5].
  - exists m0', m1'. split; [done|]. lia.
Qed.

(** Whether the allocations of the two groups that follow are synced. *)
Lemma evictable_ok g s d msp gh A : slab_inv g (s + 1) d msp gh A -> 4 <= s -> (forall x t, own gh x = OAlloc t -> t <= s + 2) ->
  exists b, for_range 1 TXG_CONCURRENT_STATES (fun t b => m ← rd (ms_allocmap msp) (TXG_IDX (u64 (s + t))); Ok (if negb (sm_space m =? 0) then false else b)) true = Ok b /\
    (b = true <-> forall x t, in_geo g x -> own gh x <> OAlloc t).
Proof using All.
  intros Hi Hs Ht. pose proof Hi as [Hg Htx Hv Hou Sa _ _ _ _ _ _ _ _ _]. change TXG_CONCURRENT_STATES with (1 + 2). rewrite for_two. change (1 + 1) with 2. cbv beta. rewrite (idx_at s 1), (idx_at s 2) by lia.
  destruct (slots_rd _ _ _ _ ((s + 1) mod 4) Sa (Z.mod_pos_bound _ 4 eq_refl)) as (m1 & -> & Hm1 & _). destruct (slots_rd _ _ _ _ ((s + 2) mod 4) Sa (Z.mod_pos_bound _ 4 eq_refl)) as (m2 & -> & Hm2 & _). cbn [mbind res_bind].
  pose proof (plain_empty _ _ _ Hm1) as E1. pose proof (plain_empty _ _ _ Hm2) as E2. eexists. split; [done|]. split.
  - intros Hb x t Hx Eo. pose proof (va_alloc _ _ Hv x t Eo). pose proof (Ht x t Eo). destruct (Z.eqb_spec (sm_space m1) 0) as [Z1|Z1], (Z.eqb_spec (sm_space m2) 0) as [Z2|Z2]; cbn in Hb; try done.
    assert (t = s + 1 \/ t = s + 2) as [->| ->] by lia; [apply (proj1 E1 Z1 x Hx)|apply (proj1 E2 Z2 x Hx)]; by eexists.
  - intros Hn. rewrite (proj2 E1), (proj2 E2); [done|intros x Hx (t & Eo & _); by apply (Hn x t)..].
Qed.

Lemma evict_ok g s d msp gh : slab_inv g (s + 1) d msp gh (fun x => own gh x = OLog) -> 4 <= s -> ms_smo msp = ms_smo_syncing msp -> (forall x, own gh x <> OFreed) -> (forall x t, own gh x = OAlloc t -> t <= s + 2) ->
  exists sm, sync_done_evict msp s = Ok (with_map msp sm) /\ slab_inv g (s + 1) d (with_map msp sm) gh (fun x => own gh x = OLog) /\
    (Z.land (ms_weight msp) METASLAB_ACTIVE_MASK <> 0 -> sm = ms_map msp) /\ (sm_loaded sm = true -> sm_loaded (ms_map msp) = true).
Proof using All.
  intros Hi Hs Esm Hnf Ht. assert (Hsame : with_map msp (ms_map msp) = msp) by (by destruct msp). unfold sync_done_evict. destruct (sm_loaded (ms_map msp) && _) eqn:E; [|exists (ms_map msp); by rewrite Hsame].
  apply andb_true_iff in E as [El Ew%Z.eqb_eq]. destruct (evictable_ok g s d msp gh _ Hi Hs Ht) as (b & -> & Hb). cbn [mbind res_bind]. destruct b; cbn [andb negb metaslab_debug]; [|exists (ms_map msp); by rewrite Hsame].
  pose proof Hi as [Hg Htx Hv Hou Sa Sf Sd Hm Hl Hrm Hsmo HA Hun Hds]. destruct (mo_loaded _ _ _ Hm El) as (l & Hms & Eo & _). destruct (ms_unload_ok _ l _ Hms El Eo) as (sm & -> & Hok & (A1 & A2 & A3) & U1 & U2 & U3 & U4 & U5). cbn [mbind res_bind].
  exists sm. split; [done|]. split; [|split; [done|congruence]]. constructor; try done.
  - constructor; cbn; [|by rewrite U1, (mo_loading _ _ _ Hm)|congruence|done]. destruct (mo_geo _ _ _ Hm) as (G1 & G2 & G3). unfold has_geo. by rewrite A1, A2, A3.
  - intros _. cbn. rewrite Esm. split_and!; try done; [by right|intros x _ [?|?]; [done|by destruct (Hnf x)]|]. by apply Hb.
Qed.
End turn.
End MetaslabTurn.

Import MetaslabTurn.

Module MetaslabTake.

Section take.
Context {T I D : Type} {HT : Tree T I} {HK : Kmem} {HD : Dmu D} {HB : DmuObjects D} {HTL : TreeLaws T I} {HKL : KmemLaws} {HDL : DmuLaws D} {HBL : DmuObjectLaws D}.
Implicit Types (m sm : space_map T metaslab_ops) (P Q : Z -> Prop) (msp : metaslab T) (gh : ghost) (d : D).

(** ** Owners of a range *)

Lemma assigned_in start size o gh x : inside start size x -> own (assigned start size o gh) x = o.
Proof. intros H. cbn. by rewrite decide_True. Qed.

Lemma assigned_out start size o gh x : ~ inside start size x -> own (assigned start size o gh) x = own gh x.
Proof. intros H. cbn. by rewrite decide_False. Qed.

Lemma assigned_iff start size o gh x o' : own (assigned start size o gh) x = o' <-> (inside start size x /\ o = o') \/ (~ inside start size x /\ own gh x = o').
Proof. destruct (decide (inside start size x)) as [H|H]; [rewrite assigned_in by done|rewrite assigned_out by done]; tauto. Qed.

Lemma buried_iff start size t gh x t' : dead (buried start size t gh) x = Some t' <-> (inside start size x /\ t = t') \/ (~ inside start size x /\ dead gh x = Some t').
Proof. cbn. destruct (decide (inside start size x)) as [H|H]; [|tauto]. split; [intros [= ->]; tauto|]. intros [[_ ->]|[H' _]]; [done|done]. Qed.

(** Nothing that is free is waiting to be freed. *)
Lemma free_not_dead s gh x : valid s gh -> own gh x = OFree -> dead gh x = None.
Proof. intros Hv E. destruct (dead gh x) as [t|] eqn:Ed; [|done]. destruct (va_dead _ _ Hv x t Ed) as [_ [H|(b & H & _)]]; congruence. Qed.

(** Free space is allocated in [t]. *)
Lemma taken_valid s gh start size t : valid s gh -> s <= t <= s + 2 -> (forall x, inside start size x -> own gh x = OFree) -> valid s (assigned start size (OAlloc t) gh).
Proof.
  intros Hv Ht Hf. constructor; intros x u.
  - intros [[_ [= <-]]|[_ H]]%assigned_iff; [done|]. by apply (va_alloc _ _ Hv x).
  - intros [[_ ?]|[_ H]]%assigned_iff; [done|]. by apply (va_defer _ _ Hv x).
  - cbn [dead assigned]. intros H. destruct (va_dead _ _ Hv x u H) as [Hu Ho]. split; [done|]. assert (Hn : ~ inside start size x) by (intros Hi; destruct Ho as [Ho|(b & Ho & _)]; rewrite (Hf x Hi) in Ho; done).
    by rewrite assigned_out.
Qed.

Lemma dropped_valid s gh start size t : valid s gh -> (forall x, inside start size x -> own gh x = OAlloc t /\ dead gh x = None) -> valid s (assigned start size OFree gh).
Proof.
  intros Hv Hf. constructor; intros x u.
  - intros [[_ ?]|[_ H]]%assigned_iff; [done|]. by apply (va_alloc _ _ Hv x).
  - intros [[_ ?]|[_ H]]%assigned_iff; [done|]. by apply (va_defer _ _ Hv x).
  - cbn [dead assigned]. intros H. destruct (va_dead _ _ Hv x u H) as [Hu Ho]. split; [done|]. assert (Hn : ~ inside start size x) by (intros [_ Hd]%Hf; congruence).
    by rewrite assigned_out.
Qed.

Lemma buried_valid s gh start size t : valid s gh -> s <= t <= s + 2 -> (forall x, inside start size x -> own gh x = OLog \/ exists b, own gh x = OAlloc b /\ b <= t) -> valid s (buried start size t gh).
Proof.
  intros Hv Ht Hf. constructor; intros x u; [apply (va_alloc _ _ Hv x)|apply (va_defer _ _ Hv x)|]. intros [[Hi <-]|[_ H]]%buried_iff; [split; [done|by apply Hf]|]. by apply (va_dead _ _ Hv x).
Qed.

Lemma assigned_same start size o1 o2 gh x o : (forall x, inside start size x -> own gh x = o1) -> o <> o1 -> o <> o2 -> own (assigned start size o2 gh) x = o <-> own gh x = o.
Proof. intros Hf H1 H2. rewrite assigned_iff. destruct (decide (inside start size x)) as [Hi|Hi]; [|tauto]. rewrite (Hf x Hi). split; [intros [[_ ?]|[? _]]; congruence|congruence]. Qed.

Lemma geo_in g start size x : geo_fits g start size -> inside start size x -> in_geo g x.
Proof. intros (H1 & H2 & H3 & _) Hi. unfold in_geo. lia. Qed.

(** ** Taking *)

(** What changes of a metaslab when a range changes hands between free and allocated. *)
Lemma exchange_inv g s d msp gh A start size o1 o2 t sm l gh' : slab_inv g s d msp gh A -> gh' = assigned start size o2 gh -> (forall x, inside start size x -> in_geo g x) -> (forall x, inside start size x -> own gh x = o1) ->
  (o1 = OFree /\ o2 = OAlloc t \/ o1 = OAlloc t /\ o2 = OFree) -> valid s gh' -> (forall x, inside start size x -> dead gh x = None) -> slots g 4 l (alloc_set gh') -> map_ok g sm gh' -> sm_loaded sm = true ->
  slab_inv g s d (with_allocmap (with_map msp sm) l) gh' A.
Proof.
  intros [Hg Htx Hv Hou Sa Sf Sd Hm Hl Hrm Hsmo HA Hun Hds] -> Hin Hf Ho Hv' Hdd Hl' Hm' El. assert (Hs : forall x o, o <> OFree -> (forall u, o <> OAlloc u) -> own (assigned start size o2 gh) x = o <-> own gh x = o).
  { intros x o H1 H2. apply (assigned_same start size o1); [done|..]; destruct Ho as [[-> ->]|[-> ->]]; done || apply H2. }
  constructor; try done.
  - intros x Hx. assert (Hn : ~ inside start size x) by (intros Hi; by apply Hx, Hin). rewrite assigned_out by done. by apply Hou.
  - eapply slots_ext; [exact Sf|]. intros j x _ _. unfold free_set. destruct (j =? _); [by rewrite Hs|done].
  - eapply slots_ext; [exact Sd|]. intros j x _ _. by rewrite Hs.
  - eapply log_of_ext; [exact Hl|]. intros x _. by rewrite Hs.
  - intros x Hx HAx. rewrite !Hs by done. by apply HA.
  - intros E. cbn in E. congruence.
Qed.

Lemma take_inv g s d msp gh A sm off size t : slab_inv g s d msp gh A -> geo_fits g off size -> s <= t <= s + 2 -> (forall x, inside off size x -> own gh x = OFree) ->
  loaded_map g sm (fun x => own gh x = OFree /\ ~ inside off size x) ->
  exists am am' l, rd (ms_allocmap msp) (t mod 4) = Ok am /\ space_map_add am off size = Ok am' /\ wr (ms_allocmap msp) (t mod 4) am' = Ok l /\
    slab_inv g s d (with_allocmap (with_map msp sm) l) (assigned off size (OAlloc t) gh) A /\ (sm_space am = 0 \/ exists x, own gh x = OAlloc t).
Proof using All.
  intros Hi Hf Ht Hfree HL. pose proof (si_valid _ _ _ _ _ _ Hi) as Hv. pose proof (si_alloc _ _ _ _ _ _ Hi) as Sa. destruct (slots_rd _ _ _ _ (t mod 4) Sa (Z.mod_pos_bound _ 4 eq_refl)) as (am & Eam & Ham & _).
  destruct (plain_add g am _ off size Ham Hf) as (am' & Eadd & Ham' & _); [intros x Hx (u & E & _); rewrite (Hfree x Hx) in E; done|].
  destruct (slots_wr g 4 _ _ (alloc_set (assigned off size (OAlloc t) gh)) (t mod 4) am' Sa (Z.mod_pos_bound _ 4 eq_refl)) as [Ewr Hl].
  - eapply plain_ext; [exact Ham'|]. intros x _. unfold alloc_set. setoid_rewrite assigned_iff. split.
    + intros [(u & E & Eu)|Hx]; [|exists t; split; [by left|done]]. exists u. split; [|done]. right. split; [|done]. intros Hx. rewrite (Hfree x Hx) in E. done.
    + intros (u & [[Hx _]|[_ E]] & Eu); [by right|left; by exists u].
  - intros j x _ Hj _. unfold alloc_set. setoid_rewrite assigned_iff. split.
    + intros (u & E & Eu). exists u. split; [|done]. right. split; [|done]. intros Hx. rewrite (Hfree x Hx) in E. done.
    + intros (u & [[_ [= <-]]|[_ E]] & Eu); [congruence|by exists u].
  - exists am, am', (<[Z.to_nat (t mod 4) := am']> (ms_allocmap msp)). split; [done|]. split; [done|]. split; [done|]. split.
    + eapply (exchange_inv g s d msp gh A off size OFree (OAlloc t) t); try done; [intros x; by apply geo_in|by left|by apply taken_valid|intros x Hx; apply (free_not_dead s); [done|by apply Hfree]| |apply HL].
      apply loaded_map_ok. eapply loaded_ext; [exact HL|]. intros x _. cbn beta. rewrite assigned_iff. split; [tauto|]. intros [[_ ?]|?]; [done|tauto].
    + destruct (decide (sm_space am = 0)) as [|Hne]; [by left|right]. destruct (plain_some _ _ _ Ham Hne) as (x & _ & Hx). exists x. by apply (alloc_slot s gh t x Hv Ht).
Qed.

(** [space_map_alloc] of a loaded metaslab: a free range, or nothing, and then what is left
    of the largest free range is smaller than what was asked for. *)
Lemma alloc_slab_ok g s d msp gh A size : slab_inv g s d msp gh A -> sm_loaded (ms_map msp) = true -> 0 < size <= 2 ^ 62 -> size mod 2 ^ g_shift g = 0 ->
  exists sm off, space_map_alloc (ms_map msp) size = Ok (sm, off) /\
    ((off <> 2 ^ 64 - 1 /\ geo_fits g off size /\ (forall x, inside off size x -> own gh x = OFree) /\ loaded_map g sm (fun x => own gh x = OFree /\ ~ inside off size x)) \/
     (off = 2 ^ 64 - 1 /\ slab_inv g s d (with_map msp sm) gh A /\ sm_loaded sm = true /\ (forall start, ~ (forall x, inside start size x -> in_geo g x /\ own gh x = OFree)) /\
      exists n, space_map_maxsize sm = Ok n /\ 0 <= n < size)).
Proof using All.
  intros Hi El Hs Hm. pose proof (map_loaded _ _ _ (si_map _ _ _ _ _ _ Hi) El) as HL. pose proof HL as (Hgeo & Hld & _ & Eo & l & Hms & Hsp). pose proof Hgeo as (G1 & G2 & G3).
  destruct (df_take (ms_map msp) l size Hms Eo) as (sm & l' & off & E & Hms' & Eo' & ((A1 & A2 & A3) & A4 & A5) & Hr); [split; [done|by rewrite G3]|].
  assert (Hg' : has_geo g sm) by (unfold has_geo; by rewrite A1, A2, A3). exists sm, off. split; [done|]. destruct Hr as [(Hne & Hf & Hin & _ & Hx)|(-> & Hx & Hno)]; [left|right].
  - split; [done|]. split; [unfold fits in Hf; rewrite G1, G2, G3 in Hf; done|]. split; [intros x Hi'; by apply Hsp, Hin|]. split_and!; try done; [congruence|congruence|]. exists l'. split; [done|]. intros x. rewrite Hx, Hsp. tauto.
  - split; [done|]. assert (HL' : loaded_map g sm (fun x => own gh x = OFree)) by (split_and!; try done; [congruence|congruence|]; exists l'; split; [done|]; intros x; by rewrite Hx).
    split; [apply with_map_inv; [done|by apply loaded_map_ok|congruence]|]. split; [congruence|]. split; [intros start Hall; apply (Hno start); intros x Hi'; apply Hsp; by apply Hall|].
    destruct (maxsize_ok sm l' Hms') as (n & En & Hn & _ & Hp). exists n. split; [unfold space_map_maxsize, ops_of; by rewrite Eo'|]. split; [lia|]. destruct (Z.lt_ge_cases n size) as [|Hge]; [done|exfalso].
    destruct Hp as (p & Hpl & En'); [lia|]. destruct (ms_seg sm l' p Hms' Hpl) as (Ep & P1 & P2 & _). apply (Hno (ss_start (sm_segs sm !!! p))). intros x Hi'. apply Hx. exists p, (sm_segs sm !!! p). split; [done|]. lia.
Qed.

Lemma drop_inv g s d msp gh A off size t : slab_inv g s d msp gh A -> geo_fits g off size -> s <= t <= s + 2 -> (forall x, inside off size x -> own gh x = OAlloc t /\ dead gh x = None) ->
  exists am am' l sm, rd (ms_allocmap msp) (t mod 4) = Ok am /\ space_map_remove am off size = Ok am' /\ wr (ms_allocmap msp) (t mod 4) am' = Ok l /\ space_map_free (ms_map msp) off size = Ok sm /\
    slab_inv g s d (with_map (with_allocmap msp l) sm) (assigned off size OFree gh) A /\ sm_loaded sm = true /\ sm_loaded (ms_map msp) = true.
Proof using All.
  intros Hi Hf Ht Hal. pose proof Hi as [Hg Htx Hv Hou Sa Sf Sd Hm Hl Hrm Hsmo HA Hun Hds]. destruct (slots_rd _ _ _ _ (t mod 4) Sa (Z.mod_pos_bound _ 4 eq_refl)) as (am & Eam & Ham & _).
  assert (Hin : forall x, inside off size x -> in_geo g x) by (intros x; by apply geo_in). assert (El : sm_loaded (ms_map msp) = true).
  { destruct (sm_loaded (ms_map msp)) eqn:E; [done|]. destruct (Hun eq_refl) as (_ & _ & _ & _ & U5). destruct Hf as (F1 & _). destruct (Hal off ltac:(lia)) as [Ho _]. by destruct (U5 off t (Hin off ltac:(lia))). }
  destruct (plain_remove g am _ off size Ham Hf) as (am' & Erm & Ham' & _); [intros x Hx; exists t; split; [by apply Hal|done]|].
  pose proof (map_loaded _ _ _ Hm El) as HL. pose proof HL as (Hgeo & _ & _ & Eo & lm & Hms & Hsp). destruct (space_map_add_ok (ms_map msp) lm off size (MetaslabOk.ms_map _ _ Hms)) as (sm & l' & Ea & Hok & Hfr & _ & Hx).
  { by eapply has_geo_fits. } { intros x Hx [_ E]%Hsp. destruct (Hal x Hx). congruence. }
  assert (HL' : loaded_map g sm (fun x => own gh x = OFree \/ inside off size x)).
  { eapply loaded_framed; [exact HL|done|done|done|]. intros x. rewrite Hx, Hsp. split; [intros [?|Hi']; [tauto|]; split; [by apply Hin|by right]|tauto]. }
  destruct (slots_wr g 4 _ _ (alloc_set (assigned off size OFree gh)) (t mod 4) am' Sa (Z.mod_pos_bound _ 4 eq_refl)) as [Ewr Hsl].
  - eapply plain_ext; [exact Ham'|]. intros x _. unfold alloc_set. setoid_rewrite assigned_iff. split.
    + intros [(u & E & Eu) Hn]. exists u. split; [by right|done].
    + intros (u & [[_ ?]|[Hn E]] & Eu); [done|]. split; [by exists u|done].
  - intros j x _ Hj _. unfold alloc_set. setoid_rewrite assigned_iff. split.
    + intros (u & E & Eu). exists u. split; [|done]. right. split; [|done]. intros Hx'. destruct (Hal x Hx'). congruence.
    + intros (u & [[_ ?]|[_ E]] & Eu); [done|by exists u].
  - eexists am, am', _, sm. split; [done|]. split; [done|]. split; [done|]. split; [by apply free_plain|]. split; [|split; [apply HL'|done]].
    eapply (exchange_inv g s d msp gh A off size (OAlloc t) OFree t); try done; [intros x Hx'; by apply Hal|by right|by apply (dropped_valid s gh off size t)|intros x Hx'; by apply Hal| |apply HL'].
    apply loaded_map_ok. eapply loaded_ext; [exact HL'|]. intros x _. cbn beta. rewrite assigned_iff. destruct (decide (inside off size x)); tauto.
Qed.

Lemma bury_inv g s d msp gh A off size t : slab_inv g s d msp gh A -> geo_fits g off size -> s <= t <= s + 2 ->
  (forall x, inside off size x -> dead gh x = None /\ (own gh x = OLog \/ exists b, own gh x = OAlloc b /\ b <= t)) ->
  exists fm fm' l, rd (ms_freemap msp) (t mod 4) = Ok fm /\ space_map_add fm off size = Ok fm' /\ wr (ms_freemap msp) (t mod 4) fm' = Ok l /\
    slab_inv g s d (with_freemap msp l) (buried off size t gh) A /\ (sm_space fm = 0 \/ exists x, dead gh x = Some t).
Proof using All.
  intros Hi Hf Ht Hal. pose proof Hi as [Hg Htx Hv Hou Sa Sf Sd Hm Hl Hrm Hsmo HA Hun Hds]. destruct (slots_rd _ _ _ _ (t mod 4) Sf (Z.mod_pos_bound _ 4 eq_refl)) as (fm & Efm & Hfm & _).
  apply (plain_ext _ _ _ (fun x => dead gh x = Some t)) in Hfm; [|intros x _; by apply (free_slot s)]. destruct (plain_add g fm _ off size Hfm Hf) as (fm' & Eadd & Hfm' & _); [intros x Hx; destruct (Hal x Hx); congruence|].
  assert (Hv' : valid s (buried off size t gh)) by (apply buried_valid; [done|done|intros x Hx; by apply Hal]).
  destruct (slots_wr g 4 _ _ (free_set s (buried off size t gh)) (t mod 4) fm' Sf (Z.mod_pos_bound _ 4 eq_refl)) as [Ewr Hsl].
  - eapply plain_ext; [exact Hfm'|]. intros x _. rewrite (free_slot s) by done. rewrite buried_iff. destruct (decide (inside off size x)); tauto.
  - intros j x _ Hj _. unfold free_set. cbn [own buried]. destruct (j =? (s + 3) mod 4); [done|]. setoid_rewrite buried_iff. split.
    + intros (u & E & Eu). exists u. split; [|done]. right. split; [|done]. intros Hx. destruct (Hal x Hx). congruence.
    + intros (u & [[_ <-]|[_ E]] & Eu); [congruence|by exists u].
  - eexists fm, fm', _. split; [done|]. split; [done|]. split; [done|]. split; [|destruct (decide (sm_space fm = 0)) as [|Hne]; [by left|right]; destruct (plain_some _ _ _ Hfm Hne) as (x & _ & Hx); by exists x].
    constructor; try done; [|by destruct Hm]. intros x Hx. destruct (Hou x Hx) as [Eo Ed]. split; [done|]. cbn. case_decide as Hx'; [|done]. destruct Hx. by eapply geo_in.
Qed.
End take.
End MetaslabTake.
