(* ===== verification/Blkptr.v ===== *)
(** Block pointers (include/sys/spa.h): the fields packed into the words of a DVA and of
    the properties of a block, and what setting one of them does to the others. *)

From S2P Require Import Prelude SpaceSync.
Import SpaceEntry.
Open Scope Z_scope.

Module Blkptr.

Definition SPA_MINBLOCKSHIFT : Z := 9.
Definition SPA_MINBLOCKSIZE : Z := Z.shiftl 1 SPA_MINBLOCKSHIFT.

(** ** Bit fields *)

Definition BF64_GET (x low len : Z) : Z := BF64_DECODE x low len.
Definition BF64_SET (x low len val : Z) : Z := Z.lxor x (BF64_ENCODE (Z.lxor (Z.shiftr x low) val) low len).
Definition BF64_GET_SB (x low len shift bias : Z) : Z := u64 (Z.shiftl (u64 (BF64_GET x low len + bias)) shift).
Definition BF64_SET_SB (x low len shift bias val : Z) : Z := BF64_SET x low len (u64 (Z.shiftr val shift - bias)).

(** ** Data *)

Record dva_t := Dva { dva_word0 : Z; dva_word1 : Z }.

(** A block pointer, without its padding, fill count and checksum, which no operation here
    uses; [blk_dva] has three elements. *)
Record blkptr_t := Blkptr { blk_dva : list dva_t; blk_prop : Z; blk_phys_birth : Z; blk_birth : Z }.

Definition dva_zero : dva_t := Dva 0 0.

(** ** The fields of a DVA *)

Definition DVA_GET_ASIZE (dva : dva_t) : Z := BF64_GET_SB (dva_word0 dva) 0 24 SPA_MINBLOCKSHIFT 0.
Definition DVA_SET_ASIZE (dva : dva_t) (x : Z) : dva_t := Dva (BF64_SET_SB (dva_word0 dva) 0 24 SPA_MINBLOCKSHIFT 0 x) (dva_word1 dva).
Definition DVA_GET_GRID (dva : dva_t) : Z := BF64_GET (dva_word0 dva) 24 8.
Definition DVA_SET_GRID (dva : dva_t) (x : Z) : dva_t := Dva (BF64_SET (dva_word0 dva) 24 8 x) (dva_word1 dva).
Definition DVA_GET_VDEV (dva : dva_t) : Z := BF64_GET (dva_word0 dva) 32 32.
Definition DVA_SET_VDEV (dva : dva_t) (x : Z) : dva_t := Dva (BF64_SET (dva_word0 dva) 32 32 x) (dva_word1 dva).
Definition DVA_GET_OFFSET (dva : dva_t) : Z := BF64_GET_SB (dva_word1 dva) 0 63 SPA_MINBLOCKSHIFT 0.
Definition DVA_SET_OFFSET (dva : dva_t) (x : Z) : dva_t := Dva (dva_word0 dva) (BF64_SET_SB (dva_word1 dva) 0 63 SPA_MINBLOCKSHIFT 0 x).
Definition DVA_GET_GANG (dva : dva_t) : Z := BF64_GET (dva_word1 dva) 63 1.
Definition DVA_SET_GANG (dva : dva_t) (x : Z) : dva_t := Dva (dva_word0 dva) (BF64_SET (dva_word1 dva) 63 1 x).
Definition DVA_IS_VALID (dva : dva_t) : bool := negb (DVA_GET_ASIZE dva =? 0).
Definition DVA_EQUAL (dva1 dva2 : dva_t) : bool := (dva_word1 dva1 =? dva_word1 dva2) && (dva_word0 dva1 =? dva_word0 dva2).

(** ** The fields of a block pointer *)

Definition with_prop (bp : blkptr_t) (x : Z) : blkptr_t := Blkptr (blk_dva bp) x (blk_phys_birth bp) (blk_birth bp).

Definition BP_GET_LSIZE (bp : blkptr_t) : Z := BF64_GET_SB (blk_prop bp) 0 16 SPA_MINBLOCKSHIFT 1.
Definition BP_SET_LSIZE (bp : blkptr_t) (x : Z) : blkptr_t := with_prop bp (BF64_SET_SB (blk_prop bp) 0 16 SPA_MINBLOCKSHIFT 1 x).
Definition BP_GET_PSIZE (bp : blkptr_t) : Z := BF64_GET_SB (blk_prop bp) 16 16 SPA_MINBLOCKSHIFT 1.
Definition BP_SET_PSIZE (bp : blkptr_t) (x : Z) : blkptr_t := with_prop bp (BF64_SET_SB (blk_prop bp) 16 16 SPA_MINBLOCKSHIFT 1 x).
Definition BP_GET_COMPRESS (bp : blkptr_t) : Z := BF64_GET (blk_prop bp) 32 8.
Definition BP_SET_COMPRESS (bp : blkptr_t) (x : Z) : blkptr_t := with_prop bp (BF64_SET (blk_prop bp) 32 8 x).
Definition BP_GET_CHECKSUM (bp : blkptr_t) : Z := BF64_GET (blk_prop bp) 40 8.
Definition BP_SET_CHECKSUM (bp : blkptr_t) (x : Z) : blkptr_t := with_prop bp (BF64_SET (blk_prop bp) 40 8 x).
Definition BP_GET_TYPE (bp : blkptr_t) : Z := BF64_GET (blk_prop bp) 48 8.
Definition BP_SET_TYPE (bp : blkptr_t) (x : Z) : blkptr_t := with_prop bp (BF64_SET (blk_prop bp) 48 8 x).
Definition BP_GET_LEVEL (bp : blkptr_t) : Z := BF64_GET (blk_prop bp) 56 5.
Definition BP_SET_LEVEL (bp : blkptr_t) (x : Z) : blkptr_t := with_prop bp (BF64_SET (blk_prop bp) 56 5 x).
Definition BP_GET_DEDUP (bp : blkptr_t) : Z := BF64_GET (blk_prop bp) 62 1.
Definition BP_SET_DEDUP (bp : blkptr_t) (x : Z) : blkptr_t := with_prop bp (BF64_SET (blk_prop bp) 62 1 x).
Definition BP_GET_BYTEORDER (bp : blkptr_t) : Z := u64 (0 - BF64_GET (blk_prop bp) 63 1).
Definition BP_SET_BYTEORDER (bp : blkptr_t) (x : Z) : blkptr_t := with_prop bp (BF64_SET (blk_prop bp) 63 1 x).

Definition BP_PHYSICAL_BIRTH (bp : blkptr_t) : Z := if negb (blk_phys_birth bp =? 0) then blk_phys_birth bp else blk_birth bp.
Definition BP_SET_BIRTH (bp : blkptr_t) (logical physical : Z) : blkptr_t := Blkptr (blk_dva bp) (blk_prop bp) (if logical =? physical then 0 else physical) logical.
Definition BP_GET_NDVAS (bp : blkptr_t) : Z := Z.of_nat (length (filter (fun dva => DVA_IS_VALID dva = true) (blk_dva bp))).
Definition BP_IS_HOLE (bp : blkptr_t) : bool := blk_birth bp =? 0.

(** ** Bits *)

Lemma encode_bits x low len i : 0 <= low -> 0 <= len < 64 -> low + len <= 64 -> 0 <= i ->
  Z.testbit (BF64_ENCODE x low len) i = (low <=? i) && (i <? low + len) && Z.testbit x (i - low).
Proof.
  intros H1 H2 H3 Hi. rewrite bf64_encode by done. rewrite <- Z.shiftl_mul_pow2, Z.shiftl_spec by lia. destruct (Z.leb_spec low i); cbn [andb]; [|by rewrite Z.testbit_neg_r by lia].
  rewrite <- Z.land_ones, Z.land_spec by lia. rewrite Z.testbit_ones_nonneg by lia. rewrite andb_comm. f_equal. destruct (Z.ltb_spec i (low + len)), (Z.ltb_spec (i - low) len); lia || done.
Qed.

Lemma get_bits x low len i : 0 <= low -> 0 <= len < 64 -> 0 <= i -> Z.testbit (BF64_GET x low len) i = (i <? len) && Z.testbit x (i + low).
Proof.
  intros H1 H2 Hi. unfold BF64_GET. rewrite bf64_decode by done. rewrite <- Z.land_ones, Z.land_spec, Z.testbit_ones_nonneg by lia. rewrite <- Z.shiftr_div_pow2, Z.shiftr_spec by lia. apply andb_comm.
Qed.

Lemma get_range x low len : 0 <= low -> 0 <= len < 64 -> 0 <= BF64_GET x low len < 2 ^ len.
Proof. intros H1 H2. unfold BF64_GET. rewrite bf64_decode by done. apply Z.mod_pos_bound. apply Z.pow_pos_nonneg; lia. Qed.

(** A field that has been set, and the others. *)
Lemma get_set x low len v : 0 <= low -> 0 <= len < 64 -> low + len <= 64 -> BF64_GET (BF64_SET x low len v) low len = v mod 2 ^ len.
Proof.
  intros H1 H2 H3. apply Z.bits_inj'. intros i Hi. rewrite get_bits by done. unfold BF64_SET. rewrite <- Z.land_ones, Z.land_spec, Z.testbit_ones_nonneg by lia. rewrite (andb_comm (Z.testbit v i)).
  destruct (Z.ltb_spec i len); cbn [andb]; [|done]. rewrite Z.lxor_spec, encode_bits, Z.lxor_spec, Z.shiftr_spec by lia. rewrite (proj2 (Z.leb_le _ _)), (proj2 (Z.ltb_lt _ _)) by lia. cbn [andb].
  replace (i + low - low) with i by lia. by destruct (Z.testbit x (i + low)), (Z.testbit v i).
Qed.

Lemma get_set_other x low len v low' len' : 0 <= low -> 0 <= len < 64 -> low + len <= 64 -> 0 <= low' -> 0 <= len' < 64 -> low' + len' <= low \/ low + len <= low' ->
  BF64_GET (BF64_SET x low len v) low' len' = BF64_GET x low' len'.
Proof.
  intros H1 H2 H3 H4 H5 Hd. apply Z.bits_inj'. intros i Hi. rewrite !get_bits by done. destruct (Z.ltb_spec i len'); cbn [andb]; [|done]. unfold BF64_SET. rewrite Z.lxor_spec, encode_bits by lia.
  destruct (Z.leb_spec low (i + low')), (Z.ltb_spec (i + low') (low + len)); cbn [andb]; try apply xorb_false_r. lia.
Qed.

(** Sizes are stored in units of the smallest block, less a bias. *)
Lemma get_set_sb x low len bias v : 0 <= low -> 0 <= len < 64 -> low + len <= 64 -> 0 <= bias <= 1 -> 0 <= v < 2 ^ 64 -> v mod 512 = 0 -> bias <= v / 512 < 2 ^ len + bias ->
  BF64_GET_SB (BF64_SET_SB x low len 9 bias v) low len 9 bias = v.
Proof.
  intros H1 H2 H3 H4 H5 H6 H7. unfold BF64_GET_SB, BF64_SET_SB. rewrite get_set by done. rewrite Z.shiftr_div_pow2 by done. change (2 ^ 9) with 512.
  assert (2 ^ len <= 2 ^ 63) by (apply Z.pow_le_mono_r; lia). rewrite (Z.mod_small (v / 512 - bias) (2 ^ 64)) by lia. rewrite (Z.mod_small (v / 512 - bias)) by lia.
  replace (v / 512 - bias + bias) with (v / 512) by lia. rewrite Z.shiftl_mul_pow2 by done. change (2 ^ 9) with 512. rewrite (Z.mod_small (v / 512)) by dlia. rewrite Z.mod_small by dlia. dlia.
Qed.

(** ** Addresses *)

(** The fields that an allocation sets. *)
Definition dva_set (dva : dva_t) (vdev offset gang asize : Z) : dva_t := DVA_SET_ASIZE (DVA_SET_GANG (DVA_SET_OFFSET (DVA_SET_VDEV dva vdev) offset) gang) asize.

Ltac other := rewrite get_set_other by lia.

Lemma dva_set_get dva vdev offset gang asize : 0 <= vdev < 2 ^ 32 -> 0 <= offset < 2 ^ 64 -> offset mod 512 = 0 -> 0 <= gang <= 1 -> 0 <= asize < 2 ^ 33 -> asize mod 512 = 0 ->
  let dva' := dva_set dva vdev offset gang asize in
  DVA_GET_VDEV dva' = vdev /\ DVA_GET_OFFSET dva' = offset /\ DVA_GET_GANG dva' = gang /\ DVA_GET_ASIZE dva' = asize /\ DVA_GET_GRID dva' = DVA_GET_GRID dva.
Proof.
  intros Hv Ho Ho2 Hg Ha Ha2 dva'. unfold dva', dva_set. split_and!; unfold DVA_GET_VDEV, DVA_GET_OFFSET, DVA_GET_GANG, DVA_GET_ASIZE, DVA_GET_GRID, SPA_MINBLOCKSHIFT; cbn [DVA_SET_VDEV DVA_SET_ASIZE DVA_SET_GANG DVA_SET_OFFSET dva_word0 dva_word1].
  - unfold BF64_SET_SB. other. rewrite get_set by lia. by apply Z.mod_small.
  - unfold BF64_GET_SB at 1. other. by apply (get_set_sb _ 0 63 0); [..|dlia].
  - rewrite get_set by lia. apply Z.mod_small. lia.
  - apply get_set_sb; [..|dlia]; lia.
  - unfold BF64_SET_SB. other. by other.
Qed.

(** C36: an address of whole blocks whose vdev and size are small enough for their fields is
    stored and read back, whatever the words held before, and the RAID-Z layout field
    is left as it was. *)
Theorem dva_roundtrip dva vdev offset gang asize : 0 <= vdev < 2 ^ 32 -> 0 <= offset < 2 ^ 64 -> offset mod 512 = 0 -> 0 <= gang <= 1 -> 0 <= asize < 2 ^ 33 -> asize mod 512 = 0 ->
  let dva' := dva_set dva vdev offset gang asize in
  DVA_GET_VDEV dva' = vdev /\ DVA_GET_OFFSET dva' = offset /\ DVA_GET_GANG dva' = gang /\ DVA_GET_ASIZE dva' = asize /\ DVA_GET_GRID dva' = DVA_GET_GRID dva.
Proof. apply dva_set_get. Qed.

Lemma dva_roundtrip_witness : DVA_GET_OFFSET (dva_set (Dva 12345 678) 3 (5 * 512) 1 1024) = 2560 /\ DVA_GET_VDEV (dva_set (Dva 12345 678) 3 (5 * 512) 1 1024) = 3.
Proof. destruct (dva_roundtrip (Dva 12345 678) 3 (5 * 512) 1 1024) as (H1 & H2 & _); [by split|by split|reflexivity|by split|by split|reflexivity|]. split; [exact H2|exact H1]. Defined.

(** Sizes of blocks of up to 2^16 units are stored and read back, and none of the fields
    of the properties of a block overlap. *)
Theorem bp_prop_roundtrip bp lsize psize compress checksum type level dedup order :
  0 < lsize <= 2 ^ 25 -> lsize mod 512 = 0 -> 0 < psize <= 2 ^ 25 -> psize mod 512 = 0 -> 0 <= compress < 256 -> 0 <= checksum < 256 -> 0 <= type < 256 -> 0 <= level < 32 -> 0 <= dedup <= 1 -> 0 <= order <= 1 ->
  let bp' := BP_SET_BYTEORDER (BP_SET_DEDUP (BP_SET_LEVEL (BP_SET_TYPE (BP_SET_CHECKSUM (BP_SET_COMPRESS (BP_SET_PSIZE (BP_SET_LSIZE bp lsize) psize) compress) checksum) type) level) dedup) order in
  BP_GET_LSIZE bp' = lsize /\ BP_GET_PSIZE bp' = psize /\ BP_GET_COMPRESS bp' = compress /\ BP_GET_CHECKSUM bp' = checksum /\ BP_GET_TYPE bp' = type /\ BP_GET_LEVEL bp' = level /\
  BP_GET_DEDUP bp' = dedup /\ BP_GET_BYTEORDER bp' = u64 (- order) /\ blk_dva bp' = blk_dva bp /\ blk_birth bp' = blk_birth bp.
Proof.
  intros. unfold bp'. split_and!; try done; unfold BP_GET_LSIZE, BP_GET_PSIZE, BP_GET_COMPRESS, BP_GET_CHECKSUM, BP_GET_TYPE, BP_GET_LEVEL, BP_GET_DEDUP, BP_GET_BYTEORDER, SPA_MINBLOCKSHIFT;
    cbn [BP_SET_LSIZE BP_SET_PSIZE BP_SET_COMPRESS BP_SET_CHECKSUM BP_SET_TYPE BP_SET_LEVEL BP_SET_DEDUP BP_SET_BYTEORDER with_prop blk_prop].
  - unfold BF64_GET_SB at 1. other. other. other. other. other. other. unfold BF64_SET_SB at 1. other. apply (get_set_sb _ 0 16 1); (done || lia || dlia).
  - unfold BF64_GET_SB at 1. other. other. other. other. other. other. apply (get_set_sb _ 16 16 1); (done || lia || dlia).
  - other. other. other. other. other. rewrite get_set by lia. by apply Z.mod_small.
  - other. other. other. other. rewrite get_set by lia. by apply Z.mod_small.
  - other. other. other. rewrite get_set by lia. by apply Z.mod_small.
  - other. other. rewrite get_set by lia. by apply Z.mod_small.
  - other. rewrite get_set by lia. apply Z.mod_small. lia.
  - rewrite get_set by lia. rewrite (Z.mod_small order) by lia. done.
Qed.
End Blkptr.
