(* ===== verification/MetaslabGroup.v ===== *)
(** Allocation from a pool (module/zfs/metaslab.c, module/zfs/vdev.c): the groups of
    metaslabs of a class on their rotor, the choice of a group and of a metaslab for a
    block, and the block pointers that are allocated, freed and claimed. *)

From S2P Require Import Prelude OrdTree SpaceMap SpaceLog Metaslab TxgList MetaslabSync RaidzMap Blkptr.
Import SpaceMap SpaceLog Metaslab TxgList MetaslabSync RaidzMap Blkptr.
Open Scope Z_scope.

Module MetaslabGroup.

Definition METASLAB_HINTBP_AVOID : Z := 0x1.
Definition METASLAB_GANG_HEADER : Z := 0x2.
Definition METASLAB_GANG_CHILD : Z := 0x4.
Definition METASLAB_GANG_AVOID : Z := 0x8.
Definition METASLAB_FASTWRITE : Z := 0x10.

Definition SPA_GANGBLOCKSIZE : Z := SPA_MINBLOCKSIZE.
Definition metaslab_aliquot : Z := Z.shiftl 512 10.
Definition metaslab_gang_bang : Z := SPA_MAXBLOCKSIZE + 1.

Definition VDEV_STATE_CLOSED_ : Z := 1.
Definition VDEV_STATE_DEGRADED_ : Z := 6.
Definition VDEV_STATE_HEALTHY_ : Z := 7.

Definition ENOENT : Z := 2.
Definition ENXIO : Z := 6.
Definition ENOSPC : Z := 28.

Definition has_flag (flags flag : Z) : bool := negb (Z.land flags flag =? 0).

Definition CAN_FASTGANG (flags : Z) : bool := negb (has_flag flags (Z.lor (Z.lor METASLAB_GANG_CHILD METASLAB_GANG_HEADER) METASLAB_GANG_AVOID)).

(** What the code reads of the rest of the pool and of the system; [lbolt] is the value of
    [ddi_get_lbolt]. *)
Class SpaEnv := { zfs_mg_alloc_failures : Z; lbolt : Z; spa_freeze_txg : Z; spa_writeable : bool }.

(** ** Sizes *)

(** The largest of what the children ask for; all of them round to the sector of the
    top-level vdev. *)
Fixpoint vdev_default_asize (ashift : Z) (vd : vdev_node) (psize : Z) : Z :=
  match vd with VdevNode children => foldl (fun asize c => Z.max asize (vdev_default_asize ashift c psize)) (P2ROUNDUP psize (u64 (Z.shiftl 1 ashift))) children end.

Definition vdev_psize_to_asize (vd : top_vdev) (psize : Z) : Z :=
  match vdev_ops vd with
  | vdev_raidz_ops => vdev_raidz_asize (vdev_ashift vd) (zlen (vdev_child vd)) (vdev_nparity vd) psize
  | vdev_other_ops => vdev_default_asize (vdev_ashift vd) (VdevNode (vdev_child vd)) psize
  end.

Definition vdev_allocatable (vd : top_vdev) : bool :=
  negb ((vdev_state vd <? VDEV_STATE_DEGRADED_) && negb (vdev_state vd =? VDEV_STATE_CLOSED_)) && negb (vdev_cant_write vd) && negb (vdev_ishole vd).

(** ** Fields *)

Definition with_ring {T} (mg : metaslab_group T) (prev next : option Z) : metaslab_group T := MkGroup (mg_metaslab_tree mg) (mg_aliquot mg) (mg_bonus_area mg) (mg_alloc_failures mg) (mg_bias mg) (mg_activation_count mg) (mg_class mg) (mg_vd mg) prev next (mg_slabs mg).
Definition with_count {T} (mg : metaslab_group T) (n : Z) : metaslab_group T := MkGroup (mg_metaslab_tree mg) (mg_aliquot mg) (mg_bonus_area mg) (mg_alloc_failures mg) (mg_bias mg) n (mg_class mg) (mg_vd mg) (mg_prev mg) (mg_next mg) (mg_slabs mg).
Definition with_aliquot {T} (mg : metaslab_group T) (n : Z) : metaslab_group T := MkGroup (mg_metaslab_tree mg) n (mg_bonus_area mg) (mg_alloc_failures mg) (mg_bias mg) (mg_activation_count mg) (mg_class mg) (mg_vd mg) (mg_prev mg) (mg_next mg) (mg_slabs mg).
Definition with_bias {T} (mg : metaslab_group T) (n : Z) : metaslab_group T := MkGroup (mg_metaslab_tree mg) (mg_aliquot mg) (mg_bonus_area mg) (mg_alloc_failures mg) n (mg_activation_count mg) (mg_class mg) (mg_vd mg) (mg_prev mg) (mg_next mg) (mg_slabs mg).
Definition with_rotor (mc : metaslab_class) (r : option Z) (aliquot : Z) : metaslab_class := MkClass r (mc_ops mc) aliquot (mc_alloc mc) (mc_deferred mc) (mc_space mc) (mc_dspace mc).

Definition pointer {A} (p : option A) : res A := match p with Some a => Ok a | None => Fault FOob end.

Section group.
Context {T I D : Type} {HT : Tree T I} {HK : Kmem} {HD : Dmu D} {HB : DmuObjects D} {HE : SpaEnv}.
Implicit Types (pl : pool T D) (mg : metaslab_group T) (msp : metaslab T) (dva : list dva_t).

(** ** The rotor *)

Definition metaslab_class_create (ops : metaslab_ops) : metaslab_class := MkClass None ops 0 0 0 0 0.

Definition metaslab_group_create (mc : Z) (vd : top_vdev) : metaslab_group T := MkGroup tr_create 0 0 0 0 0 mc vd None None ∅.

(** [mg->mg_next = p] and [mg->mg_prev = p]. *)
Definition set_next pl (g : Z) (p : option Z) : res (pool T D) := mg ← get_mg pl g; set_mg pl g (with_ring mg (mg_prev mg) p).
Definition set_prev pl (g : Z) (p : option Z) : res (pool T D) := mg ← get_mg pl g; set_mg pl g (with_ring mg p (mg_next mg)).
Definition set_rotor pl (c : Z) (r : option Z) : res (pool T D) := mc ← get_mc pl c; set_mc pl c (with_rotor mc r (mc_aliquot mc)).

Definition metaslab_group_activate pl (g : Z) : res (pool T D) :=
  mg ← get_mg pl g;
  let count := i64 (mg_activation_count mg + 1) in
  pl ← set_mg pl g (with_count mg count);
  if count <=? 0 then Ok pl
  else
    mg ← get_mg pl g;
    pl ← set_mg pl g (with_aliquot mg (u64 (metaslab_aliquot * Z.max 1 (zlen (vdev_child (mg_vd mg))))));
    mc ← get_mc pl (mg_class mg);
    pl ← (match mc_rotor mc with
      | None => pl ← set_prev pl g (Some g); set_next pl g (Some g)
      | Some mgprev =>
          m ← get_mg pl mgprev;
          mgnext ← pointer (mg_next m);
          pl ← set_prev pl g (Some mgprev);
          pl ← set_next pl g (Some mgnext);
          pl ← set_next pl mgprev (Some g);
          set_prev pl mgnext (Some g)
      end);
    set_rotor pl (mg_class mg) (Some g).

Definition metaslab_group_passivate pl (g : Z) : res (pool T D) :=
  mg ← get_mg pl g;
  let count := i64 (mg_activation_count mg - 1) in
  pl ← set_mg pl g (with_count mg count);
  if negb (count =? 0) then Ok pl
  else
    mgprev ← pointer (mg_prev mg);
    mgnext ← pointer (mg_next mg);
    pl ← (if g =? mgnext then set_rotor pl (mg_class mg) None
      else
        pl ← set_rotor pl (mg_class mg) (Some mgnext);
        pl ← set_next pl mgprev (Some mgnext);
        set_prev pl mgnext (Some mgprev));
    pl ← set_prev pl g None;
    set_next pl g None.

(** ** The metaslabs of a vdev *)

Definition with_deflate (vd : top_vdev) (n : Z) : top_vdev := TopVdev (vdev_asize vd) (vdev_ashift vd) (vdev_state vd) (vdev_ops vd) (vdev_nparity vd) (vdev_child vd) (vdev_stat_ vd) (vdev_ms_array vd) (vdev_ms_shift vd) (vdev_ms vd) (vdev_pending_fastwrite vd) (vdev_ms_list vd) (vdev_dtl_list vd) n (vdev_ishole vd) (vdev_removing vd) (vdev_cant_write vd) (vdev_dtl_smo vd).

(** Divisions of 64-bit integers. *)
Definition div_u64 (a b : Z) : res Z := if b =? 0 then Fault FPanic else Ok (a / b).

(** The pool and the error; the metaslabs that do not exist yet are null pointers. *)
Definition vdev_metaslab_init pl (g txg : Z) : res (pool T D * Z) :=
  mg ← get_mg pl g;
  let vd := mg_vd mg in
  let oldc := zlen (vdev_ms vd) in
  let newc := Z.shiftr (vdev_asize vd) (vdev_ms_shift vd) in
  if vdev_ms_shift vd =? 0 then Ok (pl, 0)
  else
    ratio ← div_u64 (Z.shiftl 1 17) (Z.shiftr (vdev_psize_to_asize vd (Z.shiftl 1 17)) SPA_MINBLOCKSHIFT);
    if newc <? oldc then Fault FOob
    else
      let vd := with_ms (with_deflate vd ratio) (vdev_ms vd ++ replicate (Z.to_nat (newc - oldc)) NULL) in
      pl ← set_mg pl g (with_vd mg vd);
      '(pl, error) ← loop (S (Z.to_nat (newc - oldc))) (fun '(m, pl) =>
        if m <? newc then
          let '(error, smo) := init_smo vd (spa_mos pl) m txg in
          if negb (error =? 0) then Ok (inr (pl, error))
          else
            '(pl, p) ← metaslab_init pl g smo (u64 (Z.shiftl m (vdev_ms_shift vd))) (u64 (Z.shiftl 1 (vdev_ms_shift vd))) txg;
            mg ← get_mg pl g;
            ms ← wr (vdev_ms (mg_vd mg)) m p;
            pl ← set_mg pl g (with_vd mg (with_ms (mg_vd mg) ms));
            Ok (inl (m + 1, pl))
        else Ok (inr (pl, 0))) (oldc, pl);
      if negb (error =? 0) then Ok (pl, error)
      else if (oldc =? 0) && negb (vdev_removing vd) then pl ← metaslab_group_activate pl g; Ok (pl, 0)
      else Ok (pl, 0).

(** The array [vdev_ms] is a null pointer when the list is empty, as it is afterwards; its
    length stands for [vdev_ms_count], which the code leaves as it is. The vdev is freed
    next. *)
Definition vdev_metaslab_fini pl (g : Z) : res (pool T D) :=
  mg ← get_mg pl g;
  match vdev_ms (mg_vd mg) with
  | [] => Ok pl
  | ms =>
      pl ← metaslab_group_passivate pl g;
      pl ← each (fun p pl => if negb (p =? NULL) then metaslab_fini pl g p else Ok pl) ms pl;
      mg ← get_mg pl g;
      set_mg pl g (with_vd mg (with_ms (mg_vd mg) []))
  end.

(** ** A metaslab of a group *)

Definition metaslab_distance (id : Z) mg msp (dva : dva_t) : Z :=
  let ms_shift := vdev_ms_shift (mg_vd mg) in
  let offset := Z.shiftr (DVA_GET_OFFSET dva) ms_shift in
  let start := Z.shiftr (sm_start (ms_map msp)) ms_shift in
  if negb (id =? DVA_GET_VDEV dva) then u64 (Z.shiftl 1 63)
  else if offset <? start then u64 (Z.shiftl (u64 (start - offset)) ms_shift)
  else if offset >? start then u64 (Z.shiftl (u64 (offset - start)) ms_shift)
  else 0.

(** The walk down the tree of metaslabs: the one to try, and [was_active], which is 32 bits
    wide; nothing, when a metaslab is too light or there are no more. *)
Definition group_search (id : Z) mg dva (asize activation_weight min_distance : Z) : res (option (Z * Z)) :=
  p ← tr_first (mg_metaslab_tree mg);
  loop (tr_fuel (mg_metaslab_tree mg)) (fun p =>
    if p =? NULL then Ok (inr None)
    else
      msp ← get_ms mg p;
      if ms_weight msp <? asize then Ok (inr None)
      else
        let was_active := Z.land (ms_weight msp) METASLAB_ACTIVE_MASK mod 2 ^ 32 in
        let target_distance := u64 (min_distance + (if negb (smo_alloc (ms_smo msp) =? 0) then 0 else Z.shiftr min_distance 1)) in
        if (activation_weight =? METASLAB_WEIGHT_PRIMARY) || negb (existsb (fun a => metaslab_distance id mg msp a <? target_distance) dva) then Ok (inr (Some (p, was_active)))
        else p ← tr_walk (mg_metaslab_tree mg) p AVL_AFTER; Ok (inl p)) p.

(** Record an allocation of [txg]. *)
Definition record_alloc pl (g p txg offset asize : Z) : res (pool T D) :=
  mg ← get_mg pl g;
  msp ← get_ms mg p;
  m ← rd (ms_allocmap msp) (TXG_IDX txg);
  pl ← (if sm_space m =? 0 then vdev_dirty pl g VDD_METASLAB p txg else Ok pl);
  m ← space_map_add m offset asize;
  l ← wr (ms_allocmap msp) (TXG_IDX txg) m;
  mg ← get_mg pl g;
  set_mg pl g (set_ms mg p (with_allocmap msp l)).

(** One try; [dva] are the addresses of the copies before this one. *)
Definition group_try pl (g psize asize txg min_distance : Z) dva (flags activation_weight : Z) : res (pool T D + pool T D * Z) :=
  mg ← get_mg pl g;
  r ← group_search g mg dva asize activation_weight min_distance;
  match r with
  | None => Ok (inr (pl, 2 ^ 64 - 1))
  | Some (p, was_active) =>
      if (mg_alloc_failures mg >? u64 zfs_mg_alloc_failures) && CAN_FASTGANG flags && (psize >? SPA_GANGBLOCKSIZE) && (activation_weight =? METASLAB_WEIGHT_PRIMARY)
      then Ok (inr (pl, 2 ^ 64 - 1))
      else
        msp ← get_ms mg p;
        if (ms_weight msp <? asize) ||
           (negb (was_active =? 0) && (Z.land (ms_weight msp) METASLAB_ACTIVE_MASK =? 0) && (activation_weight =? METASLAB_WEIGHT_PRIMARY)) then Ok (inl pl)
        else if negb (Z.land (ms_weight msp) METASLAB_WEIGHT_SECONDARY =? 0) && (activation_weight =? METASLAB_WEIGHT_PRIMARY) then
          mg ← metaslab_passivate mg p (Z.ldiff (ms_weight msp) METASLAB_ACTIVE_MASK);
          pl ← set_mg pl g mg; Ok (inl pl)
        else
          mc ← get_mc pl (mg_class mg);
          '(mg, error) ← metaslab_activate mg (mc_ops mc) (spa_mos pl) p activation_weight;
          if negb (error =? 0) then pl ← set_mg pl g mg; Ok (inl pl)
          else
            msp ← get_ms mg p;
            '(sm, offset) ← space_map_alloc (ms_map msp) asize;
            let mg := set_ms mg p (with_map msp sm) in
            if negb (offset =? 2 ^ 64 - 1) then
              pl ← set_mg pl g mg;
              pl ← record_alloc pl g p txg offset asize;
              Ok (inr (pl, offset))
            else
              let mg := with_failures mg (u64 (mg_alloc_failures mg + 1)) in
              n ← space_map_maxsize sm;
              mg ← metaslab_passivate mg p n;
              pl ← set_mg pl g mg; Ok (inl pl)
  end.

Definition metaslab_group_alloc pl (g psize asize txg min_distance : Z) dva (flags : Z) : res (pool T D * Z) :=
  let activation_weight := if existsb (fun a => DVA_GET_VDEV a =? g) dva then METASLAB_WEIGHT_SECONDARY else METASLAB_WEIGHT_PRIMARY in
  loop (S (2 * match spa_tops pl !! Z.to_nat g with Some mg => size (mg_slabs mg) | None => 0 end))
    (fun pl => group_try pl g psize asize txg min_distance dva flags activation_weight) pl.

(** ** A group of a class *)

(** The group to start with; [dva] are the addresses so far, [hintdva] those to stay close
    to. *)
Definition pick_group pl (c : Z) dva (d : Z) (hintdva : option (list dva_t)) (flags : Z) : res Z :=
  mc ← get_mc pl c;
  g ← (match hintdva with
    | Some hint =>
        h ← rd hint d;
        if DVA_GET_VDEV h <? zlen (spa_tops pl) then
          mg ← get_mg pl (DVA_GET_VDEV h);
          Ok (if has_flag flags METASLAB_HINTBP_AVOID then default (DVA_GET_VDEV h) (mg_next mg) else DVA_GET_VDEV h)
        else pointer (mc_rotor mc)
    | None =>
        if negb (d =? 0) then
          a ← rd dva (d - 1);
          mg ← get_mg pl (DVA_GET_VDEV a);
          pointer (mg_next mg)
        else if has_flag flags METASLAB_FASTWRITE then
          rotor ← pointer (mc_rotor mc);
          loop (S (length (spa_tops pl))) (fun '(mg, fast_mg) =>
            f ← get_mg pl fast_mg;
            m ← get_mg pl mg;
            let mg := if vdev_pending_fastwrite (mg_vd f) <? vdev_pending_fastwrite (mg_vd m) then fast_mg else mg in
            fast_mg ← pointer (mg_next f);
            Ok (if fast_mg =? rotor then inr mg else inl (mg, fast_mg))) (rotor, rotor)
        else pointer (mc_rotor mc)
    end);
  mg ← get_mg pl g;
  if negb (mg_class mg =? c) || (mg_activation_count mg <=? 0) then pointer (mc_rotor mc) else Ok g.

(** What a successful allocation from a group does to the rotor. *)
Definition turn_rotor pl (c g asize flags : Z) : res (pool T D) :=
  mc ← get_mc pl c;
  mg ← get_mg pl g;
  let vs := vdev_stat_ (mg_vd mg) in
  bias ← (if mc_aliquot mc =? 0 then
      vu ← div_u64 (u64 (vs_alloc vs * 100)) (u64 (vs_space vs + 1));
      cu ← div_u64 (u64 (mc_alloc mc * 100)) (u64 (mc_space mc + 1));
      Ok (i64 (Z.quot (i64 (i64 (cu - vu) * i64 (mg_aliquot mg))) 100))
    else Ok (mg_bias mg));
  pl ← set_mg pl g (with_bias mg bias);
  let aliquot := if has_flag flags METASLAB_FASTWRITE then mc_aliquot mc else u64 (mc_aliquot mc + asize) in
  set_mc pl c (if has_flag flags METASLAB_FASTWRITE || (u64 (mg_aliquot mg + bias) <=? aliquot) then with_rotor mc (mg_next mg) 0 else with_rotor mc (mc_rotor mc) aliquot).

(** One group: whether all distances so far are 0, whether the vdev can be allocated from,
    and the addresses if there was space. *)
Definition alloc_group pl (c g psize : Z) dva (d txg flags dshift : Z) (all_zero : bool) : res (pool T D * bool * bool * option (list dva_t)) :=
  mg ← get_mg pl g;
  let vd := mg_vd mg in
  if negb (vdev_allocatable vd) then Ok (pl, all_zero, false, None)
  else if ((vs_write_errors (vdev_stat_ vd) >? 0) || (vdev_state vd <? VDEV_STATE_HEALTHY_)) && (d =? 0) && (dshift =? 3) then Ok (pl, false, true, None)
  else
    let distance := Z.shiftr (vdev_asize vd) dshift in
    let near := distance <=? u64 (Z.shiftl 1 (vdev_ms_shift vd)) in
    let distance := if near then 0 else distance in
    let all_zero := if near then all_zero else false in
    let asize := vdev_psize_to_asize vd psize in
    '(pl, offset) ← metaslab_group_alloc pl g psize asize txg distance (take (Z.to_nat d) dva) flags;
    if negb (offset =? 2 ^ 64 - 1) then
      pl ← turn_rotor pl c g asize flags;
      a ← rd dva d;
      dva ← wr dva d (dva_set a g offset (if has_flag flags METASLAB_GANG_HEADER then 1 else 0) asize);
      mg ← get_mg pl g;
      pl ← (if has_flag flags METASLAB_FASTWRITE then set_mg pl g (with_vd mg (with_fastwrite (mg_vd mg) (u64 (vdev_pending_fastwrite (mg_vd mg) + psize)))) else Ok pl);
      Ok (pl, all_zero, true, Some dva)
    else Ok (pl, all_zero, true, None).

(** Once around the rotor. *)
Definition alloc_round pl (c rotor psize : Z) dva (d txg flags dshift : Z) : res (pool T D * bool * bool * option (list dva_t)) :=
  loop (S (length (spa_tops pl))) (fun '(g, all_zero, pl) =>
    '(pl, all_zero, allocatable, r) ← alloc_group pl c g psize dva d txg flags dshift all_zero;
    match r with
    | Some dva => Ok (inr (pl, all_zero, allocatable, Some dva))
    | None =>
        mg ← get_mg pl g;
        mc ← get_mc pl c;
        pl ← set_mc pl c (with_rotor mc (mg_next mg) 0);
        next ← pointer (mg_next mg);
        Ok (if next =? rotor then inr (pl, all_zero, allocatable, None) else inl (next, all_zero, pl))
    end) (rotor, true, pl).

(** Allocate the copy [d] of a block: the pool, the addresses and the error.  [dshift] goes
    up to the number of bits at most, once before and once after the locks are taken. *)
Definition metaslab_alloc_dva pl (c psize : Z) dva (d : Z) (hintdva : option (list dva_t)) (txg flags : Z) : res (pool T D * list dva_t * Z) :=
  if (metaslab_gang_bang <=? psize) && (Z.land lbolt 3 =? 0) then Ok (pl, dva, ENOSPC)
  else
    rotor ← pick_group pl c dva d hintdva flags;
    loop 130 (fun '(dshift, zio_lock, pl) =>
      '(pl, all_zero, allocatable, r) ← alloc_round pl c rotor psize dva d txg flags dshift;
      match r with
      | Some dva => Ok (inr (pl, dva, 0))
      | None =>
          if negb all_zero then Ok (inl (dshift + 1, zio_lock, pl))
          else if negb allocatable && negb zio_lock then Ok (inl (3, true, pl))
          else dva ← wr dva d dva_zero; Ok (inr (pl, dva, ENOSPC))
      end) (3, false, pl).

(** ** Blocks *)

(** The metaslab of an address; nothing for an address outside of the pool. *)
Definition dva_metaslab pl (dva : dva_t) : res (option (Z * Z)) :=
  if DVA_GET_VDEV dva <? zlen (spa_tops pl) then
    mg ← get_mg pl (DVA_GET_VDEV dva);
    let m := Z.shiftr (DVA_GET_OFFSET dva) (vdev_ms_shift (mg_vd mg)) in
    if zlen (vdev_ms (mg_vd mg)) <=? m then Ok None
    else p ← rd (vdev_ms (mg_vd mg)) m; Ok (Some (DVA_GET_VDEV dva, p))
  else Ok None.

Definition dva_size mg (dva : dva_t) : Z := if negb (DVA_GET_GANG dva =? 0) then vdev_psize_to_asize (mg_vd mg) SPA_GANGBLOCKSIZE else DVA_GET_ASIZE dva.

Definition metaslab_free_dva pl (dva : dva_t) (txg : Z) (now : bool) : res (pool T D) :=
  if txg >? spa_freeze_txg then Ok pl
  else
    r ← dva_metaslab pl dva;
    match r with
    | None => Ok pl
    | Some (g, p) =>
        mg ← get_mg pl g;
        msp ← get_ms mg p;
        let offset := DVA_GET_OFFSET dva in
        let size := dva_size mg dva in
        if now then
          m ← rd (ms_allocmap msp) (TXG_IDX txg);
          m ← space_map_remove m offset size;
          l ← wr (ms_allocmap msp) (TXG_IDX txg) m;
          sm ← space_map_free (ms_map msp) offset size;
          set_mg pl g (set_ms mg p (with_map (with_allocmap msp l) sm))
        else
          m ← rd (ms_freemap msp) (TXG_IDX txg);
          pl ← (if sm_space m =? 0 then vdev_dirty pl g VDD_METASLAB p txg else Ok pl);
          m ← space_map_add m offset size;
          l ← wr (ms_freemap msp) (TXG_IDX txg) m;
          mg ← get_mg pl g;
          set_mg pl g (set_ms mg p (with_freemap msp l))
    end.

Definition metaslab_claim_dva pl (dva : dva_t) (txg : Z) : res (pool T D * Z) :=
  r ← dva_metaslab pl dva;
  match r with
  | None => Ok (pl, ENXIO)
  | Some (g, p) =>
      mg ← get_mg pl g;
      msp ← get_ms mg p;
      let offset := DVA_GET_OFFSET dva in
      let size := dva_size mg dva in
      mc ← get_mc pl (mg_class mg);
      '(mg, error) ← (if (negb (txg =? 0) && spa_writeable) || negb (sm_loaded (ms_map msp)) then metaslab_activate mg (mc_ops mc) (spa_mos pl) p METASLAB_WEIGHT_SECONDARY else Ok (mg, 0));
      pl ← set_mg pl g mg;
      msp ← get_ms mg p;
      error ← (if error =? 0 then b ← space_map_contains (ms_map msp) offset size; Ok (if (b : bool) then 0 else ENOENT) else Ok error);
      if negb (error =? 0) || (txg =? 0) then Ok (pl, error)
      else
        sm ← space_map_claim (ms_map msp) offset size;
        pl ← set_mg pl g (set_ms mg p (with_map msp sm));
        if spa_writeable then pl ← record_alloc pl g p txg offset size; Ok (pl, 0) else Ok (pl, 0)
  end.

(** The block pointer, and the error. *)
Definition metaslab_alloc pl (c psize : Z) (bp : blkptr_t) (ndvas txg : Z) (hintdva : option (list dva_t)) (flags : Z) : res (pool T D * blkptr_t * Z) :=
  mc ← get_mc pl c;
  if negb (bool_decide (is_Some (mc_rotor mc))) then Ok (pl, bp, ENOSPC)
  else
    '(pl, dva, error) ← loop (S (Z.to_nat ndvas)) (fun '(d, pl, dva) =>
      if d <? ndvas then
        '(pl, dva, error) ← metaslab_alloc_dva pl c psize dva d hintdva txg flags;
        if negb (error =? 0) then
          '(_, pl, dva) ← for_range 0 d (fun _ '(i, pl, dva) =>
            a ← rd dva i;
            pl ← metaslab_free_dva pl a txg true;
            dva ← wr dva i dva_zero;
            Ok (i - 1, pl, dva)) (d - 1, pl, dva);
          Ok (inr (pl, dva, error))
        else Ok (inl (d + 1, pl, dva))
      else Ok (inr (pl, dva, 0))) (0, pl, blk_dva bp);
    let bp := Blkptr dva (blk_prop bp) (blk_phys_birth bp) (blk_birth bp) in
    Ok (if negb (error =? 0) then (pl, bp, error) else (pl, BP_SET_BIRTH bp txg txg, 0)).

Definition metaslab_free pl (bp : blkptr_t) (txg : Z) (now : bool) : res (pool T D) :=
  for_range 0 (BP_GET_NDVAS bp) (fun d pl => a ← rd (blk_dva bp) d; metaslab_free_dva pl a txg now) pl.

Definition claim_dvas pl (bp : blkptr_t) (txg : Z) : res (pool T D * Z) :=
  loop (S (Z.to_nat (BP_GET_NDVAS bp))) (fun '(d, pl) =>
    if d <? BP_GET_NDVAS bp then
      a ← rd (blk_dva bp) d;
      '(pl, error) ← metaslab_claim_dva pl a txg;
      Ok (if negb (error =? 0) then inr (pl, error) else inl (d + 1, pl))
    else Ok (inr (pl, 0))) (0, pl).

Definition metaslab_claim pl (bp : blkptr_t) (txg : Z) : res (pool T D * Z) :=
  '(pl, error) ← (if negb (txg =? 0) then claim_dvas pl bp 0 else Ok (pl, 0));
  if negb (error =? 0) then Ok (pl, error) else claim_dvas pl bp txg.

(** Add to, or take from, the pending fast writes of the vdevs of a block. *)
Definition fastwrite_add pl (bp : blkptr_t) (delta : Z) : res (pool T D) :=
  for_range 0 (BP_GET_NDVAS bp) (fun d pl =>
    a ← rd (blk_dva bp) d;
    if DVA_GET_VDEV a <? zlen (spa_tops pl) then
      mg ← get_mg pl (DVA_GET_VDEV a);
      set_mg pl (DVA_GET_VDEV a) (with_vd mg (with_fastwrite (mg_vd mg) (u64 (vdev_pending_fastwrite (mg_vd mg) + delta))))
    else Ok pl) pl.

Definition metaslab_fastwrite_mark pl (bp : blkptr_t) : res (pool T D) := fastwrite_add pl bp (BP_GET_PSIZE bp).
Definition metaslab_fastwrite_unmark pl (bp : blkptr_t) : res (pool T D) := fastwrite_add pl bp (- BP_GET_PSIZE bp).
End group.
End MetaslabGroup.
