(* ===== verification/MetaslabTree.v ===== *)
(** The metaslabs of a group in the order of their weight: what [metaslab_group_sort] and
    the search for a metaslab do to, and find in, the tree. *)

From S2P Require Import Prelude Avl AvlSpec OrdTree SpaceMap SpaceLog Metaslab TxgList MetaslabSync RaidzMap Blkptr MetaslabGroup.
Import SpaceMap SpaceLog Metaslab TxgList MetaslabSync Blkptr MetaslabGroup.
Open Scope Z_scope.

Module MetaslabTree.

Section tree.
Context {T I D : Type} {HT : Tree T I} {HK : Kmem} {HD : Dmu D} {HB : DmuObjects D} {HE : SpaEnv} {HTL : TreeLaws T I}.
Implicit Types (mg : metaslab_group T) (msp : metaslab T) (h : gmap Z (metaslab T)).

(** ** The order *)

Definition slab_cmp h (a b : Z) : Z := metaslab_compare (h !!! a) (h !!! b).

(** Heavier metaslabs first, and those of the same weight from the start of the vdev. *)
Definition before msp1 msp2 : Prop := ms_weight msp2 < ms_weight msp1 \/ ms_weight msp1 = ms_weight msp2 /\ sm_start (ms_map msp1) < sm_start (ms_map msp2).

Lemma slab_compare_cases msp1 msp2 : let c := metaslab_compare msp1 msp2 in
  (c = -1 /\ before msp1 msp2) \/ (c = 1 /\ before msp2 msp1) \/ (c = 0 /\ ms_weight msp1 = ms_weight msp2 /\ sm_start (ms_map msp1) = sm_start (ms_map msp2)).
Proof.
  unfold metaslab_compare, before. destruct (Z.ltb_spec (ms_weight msp1) (ms_weight msp2)); [right; left; lia|]. destruct (Z.gtb_spec (ms_weight msp1) (ms_weight msp2)); [left; lia|].
  destruct (Z.ltb_spec (sm_start (ms_map msp1)) (sm_start (ms_map msp2))); [left; lia|]. destruct (Z.gtb_spec (sm_start (ms_map msp1)) (sm_start (ms_map msp2))); lia.
Qed.

#[export] Instance slab_compares h : AvlSpec.Compares (slab_cmp h).
Proof.
  constructor; unfold slab_cmp; intros a b.
  - destruct (slab_compare_cases (h !!! a) (h !!! b)) as [[-> _]|[[-> _]|[-> _]]]; lia.
  - destruct (slab_compare_cases (h !!! a) (h !!! b)) as [[-> H1]|[[-> H1]|[-> H1]]], (slab_compare_cases (h !!! b) (h !!! a)) as [[-> H2]|[[-> H2]|[-> H2]]]; unfold before in *; lia.
  - intros c. destruct (slab_compare_cases (h !!! a) (h !!! b)) as [[-> H1]|[[-> H1]|[-> H1]]], (slab_compare_cases (h !!! b) (h !!! c)) as [[-> H2]|[[-> H2]|[-> H2]]], (slab_compare_cases (h !!! a) (h !!! c)) as [[-> H3]|[[-> H3]|[-> H3]]]; unfold before in *; lia.
Qed.

(** ** The invariant *)

(** No two metaslabs start at the same place. *)
Definition apart h : Prop := forall p q m1 m2, h !! p = Some m1 -> h !! q = Some m2 -> sm_start (ms_map m1) = sm_start (ms_map m2) -> p = q.

Record tree_at (mg : metaslab_group T) (l : list Z) : Prop := {
  ta_seq : tr_seq (mg_metaslab_tree mg) l;
  ta_sorted : AvlSpec.sorted (slab_cmp (mg_slabs mg)) l;
  ta_members p : p ∈ l <-> is_Some (mg_slabs mg !! p);
  ta_starts : apart (mg_slabs mg);
  ta_room : Z.of_nat (size (mg_slabs mg)) + 1 < 2 ^ 64 }.

Definition tree_ok mg : Prop := exists l, tree_at mg l.

Lemma tree_length mg l : tree_at mg l -> length l = size (mg_slabs mg).
Proof.
  intros [H1 _ H3 _ _]. destruct (tr_seq_facts _ _ H1) as (Hn & _). rewrite <- (size_dom (D := gset Z)), <- (size_list_to_set (C := gset Z)) by done. f_equal. apply set_eq. intros p.
  by rewrite elem_of_list_to_set, H3, elem_of_dom.
Qed.

Lemma slab_sorted_ext h h' l : (forall p, p ∈ l -> ms_weight (h' !!! p) = ms_weight (h !!! p) /\ sm_start (ms_map (h' !!! p)) = sm_start (ms_map (h !!! p))) -> AvlSpec.sorted (slab_cmp h) l -> AvlSpec.sorted (slab_cmp h') l.
Proof.
  intros He Hs. unfold AvlSpec.sorted in *. induction Hs as [|a l Hs IH Ha]; constructor; [apply IH; intros p Hp; apply He; by right|]. rewrite list.Forall_forall in *. intros b Hb. specialize (Ha b Hb).
  unfold slab_cmp, metaslab_compare in *. destruct (He a ltac:(by left)) as [-> ->], (He b ltac:(by right)) as [-> ->]. done.
Qed.

Lemma starts_set h p msp msp' : apart h -> h !! p = Some msp -> sm_start (ms_map msp') = sm_start (ms_map msp) -> apart (<[p := msp']> h).
Proof.
  intros H4 Hp Es a b m1 m2. destruct (decide (a = p)) as [->|Ha], (decide (b = p)) as [->|Hb]; rewrite ?lookup_insert_eq, ?lookup_insert_ne by done; [done|..].
  - intros [= <-] E2. rewrite Es. by apply (H4 p b).
  - intros E1 [= <-]. rewrite Es. by apply (H4 a p).
  - by apply H4.
Qed.

(** A metaslab may change, but for its weight and place. *)
Lemma tree_set mg l p msp msp' : tree_at mg l -> mg_slabs mg !! p = Some msp -> ms_weight msp' = ms_weight msp -> sm_start (ms_map msp') = sm_start (ms_map msp) -> tree_at (set_ms mg p msp') l.
Proof.
  intros [H1 H2 H3 H4 H5] Hp Ew Es. constructor; cbn; try done.
  - eapply slab_sorted_ext; [|exact H2]. intros q _. destruct (decide (q = p)) as [->|Hne]; [|by rewrite lookup_total_insert_ne]. rewrite lookup_total_insert_eq. by rewrite (lookup_total_correct _ _ _ Hp).
  - intros q. rewrite H3. destruct (decide (q = p)) as [->|Hne]; [rewrite lookup_insert_eq, Hp|by rewrite lookup_insert_ne]. split; by eexists.
  - by apply (starts_set _ p msp).
  - rewrite map_size_insert_Some; [done|by exists msp].
Qed.

(** Fields of the group that the tree does not depend on. *)
Lemma tree_same mg mg' l : mg_metaslab_tree mg' = mg_metaslab_tree mg -> mg_slabs mg' = mg_slabs mg -> tree_at mg l -> tree_at mg' l.
Proof. intros E1 E2 [H1 H2 H3 H4 H5]. constructor; rewrite ?E1, ?E2; done. Qed.

(** ** Sorting *)

(** The last metaslab goes into the tree. *)
Lemma tree_add_ok mg l p : tr_seq (mg_metaslab_tree mg) l -> AvlSpec.sorted (slab_cmp (mg_slabs mg)) l -> (forall q, q ∈ l <-> q <> p /\ is_Some (mg_slabs mg !! q)) -> is_Some (mg_slabs mg !! p) -> p <> NULL ->
  apart (mg_slabs mg) -> Z.of_nat (size (mg_slabs mg)) + 1 < 2 ^ 64 ->
  exists t l', tree_add mg p = Ok (with_tree mg t) /\ tree_at (with_tree mg t) l' /\ l' ≡ₚ p :: l.
Proof using All.
  intros Hs Ho Hm Hp Hpn Hst Hr. assert (Hin : p ∉ l) by (intros [Hne _]%Hm; done). destruct (tr_seq_facts _ _ Hs) as (Hnd & _).
  assert (Hle : (length l <= size (mg_slabs mg))%nat).
  { rewrite <- (size_dom (D := gset Z)), <- (size_list_to_set (C := gset Z)) by done. apply subseteq_size. intros q. rewrite elem_of_list_to_set, elem_of_dom. by intros [_ H]%Hm. }
  destruct (tr_add_ok (mg_metaslab_tree mg) l (slab_cmp (mg_slabs mg)) p Hs) as (t & lo & hi & E & -> & Hlo & Hhi & Hs'); [exact (AvlSpec.sorted_sifts _ p l Ho)| |done|done|unfold room; lia|].
  - rewrite list.Forall_forall. intros q [Hne [m2 Hq]]%Hm E0. destruct Hp as [m1 Hp]. unfold slab_cmp in E0. rewrite (lookup_total_correct _ _ _ Hp), (lookup_total_correct _ _ _ Hq) in E0.
    destruct (slab_compare_cases m1 m2) as [[Ec _]|[[Ec _]|(_ & _ & Es)]]; [congruence|congruence|]. apply Hne. symmetry. by eapply Hst.
  - exists t, (lo ++ p :: hi). unfold tree_add. change (fun a b => metaslab_compare (mg_slabs mg !!! a) (mg_slabs mg !!! b)) with (slab_cmp (mg_slabs mg)). rewrite E. split; [done|]. split; [|by rewrite <- Permutation_middle].
    constructor; cbn; try done; [exact (AvlSpec.sorted_insert _ p lo hi Ho Hlo Hhi)|]. intros q. rewrite elem_of_app, elem_of_cons. specialize (Hm q). rewrite elem_of_app in Hm. destruct (decide (q = p)) as [->|Hne]; tauto.
Qed.

Lemma sort_ok mg l p msp w : tree_at mg l -> mg_slabs mg !! p = Some msp ->
  exists t l', metaslab_group_sort mg p w = Ok (with_tree (set_ms mg p (with_weight msp w)) t) /\ tree_at (with_tree (set_ms mg p (with_weight msp w)) t) l' /\ l' ≡ₚ l.
Proof using All.
  intros [H1 H2 H3 H4 H5] Hp. assert (Hin : p ∈ l) by (apply H3; by eexists). apply list_elem_of_split in Hin as (lo & hi & ->). destruct (tr_remove_ok _ lo p hi H1) as (t0 & E0 & Hs0).
  destruct (tr_seq_facts _ _ H1) as (Hnd & Hnn & _). unfold metaslab_group_sort, get_ms. rewrite E0, Hp. cbn [mbind res_bind]. set (mg1 := set_ms (with_tree mg t0) p (with_weight msp w)).
  assert (Hnp : p ∉ lo ++ hi) by (rewrite <- Permutation_middle in Hnd; by apply list.NoDup_cons in Hnd as [? _]).
  destruct (tree_add_ok mg1 (lo ++ hi) p Hs0) as (t & l' & E & Hta & Hl').
  - eapply (slab_sorted_ext (mg_slabs mg)); [|exact (AvlSpec.sorted_drop _ p lo hi H2)]. intros q Hq. cbn. rewrite lookup_total_insert_ne; [done|]. intros ->. done.
  - intros q. cbn. specialize (H3 q). rewrite elem_of_app, elem_of_cons in H3. rewrite elem_of_app. split.
    + intros Hq. assert (q <> p) by (intros ->; by apply Hnp, elem_of_app). split; [done|]. rewrite lookup_insert_ne by done. apply H3. tauto.
    + intros [Hne Hs]. rewrite lookup_insert_ne in Hs by done. apply H3 in Hs. tauto.
  - cbn. rewrite lookup_insert_eq. by eexists.
  - apply Hnn, elem_of_app. right. by left.
  - by apply (starts_set _ p msp).
  - cbn. by rewrite map_size_insert_Some by (by exists msp).
  - exists t, l'. split; [exact E|]. split; [exact Hta|]. by rewrite Hl', Permutation_middle.
Qed.

Lemma group_add_ok mg l p msp : tree_at mg l -> mg_slabs mg !! p = None -> p <> NULL -> (forall q m, mg_slabs mg !! q = Some m -> sm_start (ms_map m) <> sm_start (ms_map msp)) -> Z.of_nat (size (mg_slabs mg)) + 2 < 2 ^ 64 ->
  exists t l', metaslab_group_add (set_ms mg p msp) p = Ok (with_tree (set_ms mg p (with_weight msp 0)) t) /\ tree_at (with_tree (set_ms mg p (with_weight msp 0)) t) l' /\ l' ≡ₚ p :: l.
Proof using All.
  intros [H1 H2 H3 H4 H5] Hp Hpn Hst Hr. unfold metaslab_group_add, get_ms. cbn [mg_slabs set_ms with_slabs]. rewrite lookup_insert_eq. cbn [mbind res_bind].
  assert (Hin : p ∉ l) by (rewrite H3, Hp; by intros []). set (mg1 := set_ms (set_ms mg p msp) p (with_weight msp 0)). assert (Eh : mg_slabs mg1 = <[p := with_weight msp 0]> (mg_slabs mg)) by (cbn; apply insert_insert_eq).
  destruct (tree_add_ok mg1 l p H1) as (t & l' & E & Hta & Hl'); rewrite ?Eh.
  - eapply (slab_sorted_ext (mg_slabs mg)); [|exact H2]. intros q Hq. rewrite lookup_total_insert_ne; [done|]. intros ->. done.
  - intros q. rewrite H3. destruct (decide (q = p)) as [->|Hne]; [rewrite Hp; split; [by intros []|by intros []]|]. rewrite lookup_insert_ne by done. tauto.
  - rewrite lookup_insert_eq. by eexists.
  - done.
  - intros a b m1 m2. destruct (decide (a = p)) as [->|Ha], (decide (b = p)) as [->|Hb]; rewrite ?lookup_insert_eq, ?lookup_insert_ne by done; [done|..].
    + intros [= <-] E2 E. by destruct (Hst b m2 E2).
    + intros E1 [= <-] E. by destruct (Hst a m1 E1).
    + by apply H4.
  - rewrite map_size_insert_None by done. lia.
  - exists t, l'. assert (Em : with_tree mg1 t = with_tree (set_ms mg p (with_weight msp 0)) t) by (unfold with_tree, set_ms, with_slabs; cbn; f_equal; apply insert_insert_eq). rewrite <- Em. by split_and!.
Qed.

Lemma group_remove_ok mg l p : tree_at mg l -> is_Some (mg_slabs mg !! p) ->
  exists t l', metaslab_group_remove mg p = Ok (with_tree mg t) /\ l ≡ₚ p :: l' /\ tree_at (with_slabs (with_tree mg (tr_free t p)) (delete p (mg_slabs mg))) l'.
Proof using All.
  intros [H1 H2 H3 H4 H5] Hp. assert (Hin : p ∈ l) by (by apply H3). apply list_elem_of_split in Hin as (lo & hi & ->). destruct (tr_remove_ok _ lo p hi H1) as (t & E & Hs).
  destruct (tr_seq_facts _ _ H1) as (Hnd & _). rewrite <- Permutation_middle in Hnd. apply list.NoDup_cons in Hnd as [Hnp Hnd].
  exists t, (lo ++ hi). unfold metaslab_group_remove. rewrite E. split; [done|]. split; [by rewrite Permutation_middle|]. constructor; cbn.
  - by apply tr_free_ok.
  - eapply (slab_sorted_ext (mg_slabs mg)); [|exact (AvlSpec.sorted_drop _ p lo hi H2)]. intros q Hq. rewrite !lookup_total_alt, lookup_delete_ne; [done|]. intros ->. done.
  - intros q. specialize (H3 q). rewrite elem_of_app, elem_of_cons in H3. rewrite elem_of_app in Hnp |- *. destruct (decide (q = p)) as [->|Hne]; [rewrite lookup_delete_eq; split; [tauto|by intros []]|]. rewrite lookup_delete_ne by done. tauto.
  - intros a b m1 m2 [_ Ha]%lookup_delete_Some [_ Hb]%lookup_delete_Some. by apply H4.
  - rewrite map_size_delete_Some by done. lia.
Qed.

(** ** Searching *)

(** The bits of the mask do not fit into a [boolean_t]. *)
Lemma was_active_lost w : Z.land w METASLAB_ACTIVE_MASK mod 2 ^ 32 = 0.
Proof.
  rewrite <- Z.land_ones by done. apply Z.bits_inj'. intros i Hi. rewrite !Z.land_spec, Z.bits_0, Z.testbit_ones_nonneg by lia. destruct (Z.ltb_spec i 32) as [Hlt|Hge]; [|apply andb_false_r].
  assert (E : Z.testbit METASLAB_ACTIVE_MASK i = false); [|by rewrite E, andb_false_r]. change METASLAB_ACTIVE_MASK with (3 * 2 ^ 62). rewrite Z.mul_pow2_bits_low by lia. done.
Qed.

(** A metaslab that is too close to one of the copies. *)
Definition too_close (id : Z) mg msp (dva : list dva_t) (min_distance : Z) : bool :=
  existsb (fun a => metaslab_distance id mg msp a <? u64 (min_distance + (if negb (smo_alloc (ms_smo msp) =? 0) then 0 else Z.shiftr min_distance 1))) dva.

Lemma get_ms_ok mg p msp : mg_slabs mg !! p = Some msp -> get_ms mg p = Ok msp.
Proof. intros E. unfold get_ms. by rewrite E. Qed.

(** Those after a metaslab are not heavier. *)
Lemma sorted_lighter h lo p hi q : AvlSpec.sorted (slab_cmp h) (lo ++ p :: hi) -> q ∈ hi -> ms_weight (h !!! q) <= ms_weight (h !!! p).
Proof.
  intros Hs Hq. unfold AvlSpec.sorted in Hs. apply StronglySorted_app in Hs as (_ & _ & Hs). inversion Hs as [|? ? _ HF]; subst. rewrite list.Forall_forall in HF. specialize (HF q Hq). unfold slab_cmp in HF.
  destruct (slab_compare_cases (h !!! p) (h !!! q)) as [[_ H]|[[E _]|[E _]]]; [unfold before in H; lia|congruence|congruence].
Qed.

(** The search finds the first metaslab that is heavy enough, and far enough away if there
    are copies on the vdev; or there is none. *)
Lemma group_search_ok id mg l dva asize aw md : tree_at mg l ->
  (exists lo p hi msp, group_search id mg dva asize aw md = Ok (Some (p, 0)) /\ l = lo ++ p :: hi /\ mg_slabs mg !! p = Some msp /\ asize <= ms_weight msp /\
    (aw = METASLAB_WEIGHT_PRIMARY -> lo = []) /\ (aw <> METASLAB_WEIGHT_PRIMARY -> too_close id mg msp dva md = false)) \/
  (group_search id mg dva asize aw md = Ok None /\ forall p msp, mg_slabs mg !! p = Some msp -> asize <= ms_weight msp -> aw <> METASLAB_WEIGHT_PRIMARY /\ too_close id mg msp dva md = true).
Proof using All.
  intros [H1 H2 H3 H4 H5]. unfold group_search. rewrite (proj1 (tr_ends_ok _ _ H1)). cbn [mbind res_bind]. destruct (tr_seq_facts _ _ H1) as (_ & Hnn & Hfu & _).
  set (skip := fun p => aw <> METASLAB_WEIGHT_PRIMARY /\ forall msp, mg_slabs mg !! p = Some msp -> too_close id mg msp dva md = true).
  assert (Gen : forall hi lo k, l = lo ++ hi -> (length hi < k)%nat -> Forall skip lo ->
    let r := loop k (fun p => if p =? NULL then Ok (inr None) else msp ← get_ms mg p; if ms_weight msp <? asize then Ok (inr None) else
        let was_active := Z.land (ms_weight msp) METASLAB_ACTIVE_MASK mod 2 ^ 32 in
        if (aw =? METASLAB_WEIGHT_PRIMARY) || negb (too_close id mg msp dva md) then Ok (inr (Some (p, was_active))) else p ← tr_walk (mg_metaslab_tree mg) p AVL_AFTER; Ok (inl p)) (hd NULL hi) in
    (exists lo p hi msp, r = Ok (Some (p, 0)) /\ l = lo ++ p :: hi /\ mg_slabs mg !! p = Some msp /\ asize <= ms_weight msp /\ (aw = METASLAB_WEIGHT_PRIMARY -> lo = []) /\ (aw <> METASLAB_WEIGHT_PRIMARY -> too_close id mg msp dva md = false)) \/
    (r = Ok None /\ forall p msp, mg_slabs mg !! p = Some msp -> asize <= ms_weight msp -> aw <> METASLAB_WEIGHT_PRIMARY /\ too_close id mg msp dva md = true)); [|by apply (Gen l [])].
  induction hi as [|p hi IH]; intros lo k E Hk Hlo r; subst r; (destruct k as [|k]; [cbn in Hk; lia|]); cbn [loop hd].
  - right. rewrite Z.eqb_refl. split; [done|]. intros p msp Hp _. rewrite app_nil_r in E. subst l. rewrite list.Forall_forall in Hlo. destruct (Hlo p) as [Ha Hc]; [apply H3; by eexists|]. by split; [|apply Hc].
  - assert (Hin : p ∈ l) by (rewrite E, elem_of_app; right; by left). rewrite (proj2 (Z.eqb_neq p NULL)) by (by apply Hnn). destruct (proj1 (H3 p) Hin) as [msp Hp]. rewrite (get_ms_ok mg p msp Hp). cbn [mbind res_bind].
    destruct (Z.ltb_spec (ms_weight msp) asize) as [Hlt|Hge].
    + right. split; [reflexivity|]. intros q m Hq Hw. assert (Hql : q ∈ l) by (apply H3; by eexists). rewrite E, elem_of_app, elem_of_cons in Hql. rewrite list.Forall_forall in Hlo. destruct Hql as [Hq1|[->|Hq1]].
      * destruct (Hlo q Hq1) as [Ha Hc]. by split; [|apply Hc].
      * rewrite Hp in Hq. injection Hq as <-. lia.
      * subst l. pose proof (sorted_lighter _ _ _ _ q H2 Hq1) as Hl. rewrite (lookup_total_correct _ _ _ Hq), (lookup_total_correct _ _ _ Hp) in Hl. lia.
    + cbv zeta. rewrite was_active_lost. destruct (Z.eqb_spec aw METASLAB_WEIGHT_PRIMARY) as [Ea|Ea]; cbn [orb].
      * left. exists lo, p, hi, msp. split_and!; try done. intros _. destruct lo as [|q lo]; [done|]. apply list.Forall_cons in Hlo as [[? _] _]. done.
      * destruct (too_close id mg msp dva md) eqn:Ec; cbn [negb].
        -- rewrite E in H1. rewrite (proj2 (tr_walk_ok _ lo p hi H1)). cbn [mbind res_bind]. apply (IH (lo ++ [p])); [by rewrite <- app_assoc|cbn in Hk; lia|]. apply Forall_app. split; [done|]. constructor; [|done].
           split; [done|]. intros m Hm. rewrite Hp in Hm. by injection Hm as <-.
        -- left. exists lo, p, hi, msp. by split_and!.
Qed.
End tree.
End MetaslabTree.
