(* ===== verification/MetaslabPool.v ===== *)
(** The invariant of the metaslabs of a pool, and how an operation on one of them keeps
    it.

    A pool at work: the invariant of its metaslabs and of the lists of those that are dirty,
    and the operations on the pool that keep it. *)

From S2P Require Import Prelude Avl AvlSpec OrdTree SpaceMap SpaceSet SpaceMapOk SpaceMapWalk SpaceMapRanges SpaceMapSpec SpaceLog SpaceSync SpaceLoad SpaceLogSpec MetaslabInv Metaslab MetaslabOk MetaslabSpec TxgList MetaslabSync MetaslabCycle RaidzMap Blkptr MetaslabGroup MetaslabTree.
Import SpaceMap SpaceSet SpaceMapOk SpaceMapCut SpaceMapWalk SpaceMapRanges SpaceMapSpec SpaceLog SpaceEntry SpaceSync SpaceLoad SpaceLogSpec SpaceFrame Metaslab MetaslabPick MetaslabOk MetaslabSpec TxgList MetaslabSync MetaslabSlab MetaslabInv MetaslabWrite MetaslabTurn MetaslabTake Blkptr MetaslabGroup MetaslabTree.
Open Scope Z_scope.

Module MetaslabPool.

(** ** Ghosts *)

(** The owners of the bytes of a metaslab, and what was allocated when each of the last
    three groups was synced, the last one first. *)
Record sx := Sx { x_gh : ghost; x_A : Z -> Prop; x_A1 : Z -> Prop; x_A2 : Z -> Prop }.

(** What one of those three groups needs is not up for allocation. *)
Definition hist_ok (g : geo) (s : Z) (x : sx) : Prop := forall y, in_geo g y ->
  (x_A1 x y -> own (x_gh x) y = OLog \/ own (x_gh x) y = OFreed \/ own (x_gh x) y = ODefer ((s + 1) mod 2)) /\
  (x_A2 x y -> own (x_gh x) y = OLog \/ own (x_gh x) y = OFreed \/ exists b, own (x_gh x) y = ODefer b).

Definition x_sync (s : Z) (x : sx) : sx := Sx (synced s (x_gh x)) (x_A x) (x_A1 x) (x_A2 x).
Definition x_turn (s : Z) (x : sx) : sx := Sx (turned s (x_gh x)) (fun y => own (x_gh x) y = OLog) (x_A x) (x_A1 x).
Definition x_with (x : sx) (gh : ghost) : sx := Sx gh (x_A x) (x_A1 x) (x_A2 x).

(** Owners that are kept, or exchanged within the log and what was just freed. *)
Lemma hist_keep g s x gh : hist_ok g s x -> (forall y, in_geo g y -> own (x_gh x) y = OLog \/ own (x_gh x) y = OFreed -> own gh y = OLog \/ own gh y = OFreed) ->
  (forall y b, in_geo g y -> own (x_gh x) y = ODefer b -> own gh y = ODefer b) -> hist_ok g s (x_with x gh).
Proof.
  intros Hh H1 H2 y Hy. destruct (Hh y Hy) as [Ha Hb]. specialize (H1 y Hy). pose proof (fun b => H2 y b Hy) as H2'. cbn. split.
  - intros HA. destruct (Ha HA) as [E|[E|E]]; [..|right; right; by apply H2']; destruct (H1 ltac:(tauto)); tauto.
  - intros HA. destruct (Hb HA) as [E|[E|[b E]]]; [..|right; right; exists b; by apply H2']; destruct (H1 ltac:(tauto)); tauto.
Qed.

Lemma hist_synced g s x : valid s (x_gh x) -> hist_ok g s x -> hist_ok g s (x_sync s x).
Proof.
  intros Hv Hh. apply (hist_keep g s x (synced s (x_gh x)) Hh); [|intros y b _; by rewrite synced_defer]. intros y _ H. rewrite synced_log, synced_freed by done.
  destruct H as [E|E]; [|tauto]. destruct (decide (dead (x_gh x) y = Some s)); tauto.
Qed.

Lemma hist_turned g s x : valid s (x_gh x) -> (forall y, in_geo g y -> x_A x y -> own (x_gh x) y = OLog \/ own (x_gh x) y = OFreed) -> hist_ok g s x -> hist_ok g (s + 1) (x_turn s x).
Proof.
  intros Hv HA Hh y Hy. destruct (Hh y Hy) as [H1 _]. cbn [x_gh x_A1 x_A2 x_turn]. rewrite turned_log, turned_defer. setoid_rewrite turned_defer. replace ((s + 1 + 1) mod 2) with (s mod 2) by dlia. split.
  - intros [E|E]%(HA y Hy); tauto.
  - intros [E|[E|E]]%H1; [by left|right; right; exists (s mod 2); tauto|right; right; exists ((s + 1) mod 2)]. left. split; [done|]. dlia.
Qed.

(** ** Weights *)

Section pool.
Context {T I D : Type} {HT : Tree T I} {HK : Kmem} {HD : Dmu D} {HB : DmuObjects D} {HE : SpaEnv} {HTL : TreeLaws T I} {HKL : KmemLaws} {HDL : DmuLaws D} {HBL : DmuObjectLaws D}.
Implicit Types (pl : pool T D) (mg : metaslab_group T) (msp : metaslab T) (d : D).

Definition active (w : Z) : Prop := Z.land w METASLAB_ACTIVE_MASK <> 0.

(** An active metaslab is loaded. *)
Definition weight_ok msp : Prop := 0 <= ms_weight msp < 2 ^ 64 /\ (active (ms_weight msp) -> sm_loaded (ms_map msp) = true).

Lemma mask_eq : METASLAB_ACTIVE_MASK = 3 * 2 ^ 62.
Proof. done. Qed.

Lemma inactive w : 0 <= w < 2 ^ 62 -> ~ active w.
Proof.
  intros Hw Ha. apply Ha. apply Z.bits_inj'. intros i Hi. rewrite Z.land_spec, Z.bits_0, mask_eq. destruct (Z.lt_ge_cases i 62); [rewrite Z.mul_pow2_bits_low by lia; apply andb_false_r|].
  assert (Eb : Z.testbit w i = false); [|by rewrite Eb]. rewrite Z.testbit_false by done. rewrite Z.div_small; [done|]. split; [lia|]. apply Z.lt_le_trans with (2 ^ 62); [lia|]. apply Z.pow_le_mono_r; lia.
Qed.

Lemma lor_pow2_bound w v n : 0 <= w < 2 ^ n -> 0 <= v < 2 ^ n -> 0 <= n -> 0 <= Z.lor w v < 2 ^ n.
Proof.
  intros Hw Hv Hn. split; [apply Z.lor_nonneg; lia|]. destruct (Z.eq_dec (Z.lor w v) 0) as [->|Hne]; [apply Z.pow_pos_nonneg; lia|]. apply Z.log2_lt_pow2; [pose proof (proj2 (Z.lor_nonneg w v)); lia|].
  rewrite Z.log2_lor by lia. destruct (Z.eq_dec n 0) as [->|]; [change (2 ^ 0) with 1 in *; assert (w = 0) by lia; assert (v = 0) by lia; subst; done|]. assert (Hl : forall u, 0 <= u < 2 ^ n -> Z.log2 u < n).
  { intros u Hu. destruct (Z.eq_dec u 0) as [->|]; [cbn; lia|]. apply Z.log2_lt_pow2; lia. } pose proof (Hl w Hw). pose proof (Hl v Hv). lia.
Qed.

Lemma mask_bound v : 0 <= Z.land v METASLAB_ACTIVE_MASK < 2 ^ 64.
Proof.
  assert (H : Z.land v METASLAB_ACTIVE_MASK = Z.land (Z.land v METASLAB_ACTIVE_MASK) (Z.ones 64)) by (rewrite <- Z.land_assoc; done). rewrite H, Z.land_ones by lia. apply Z.mod_pos_bound. done.
Qed.

(** The place of a metaslab on its vdev. *)
Definition slab_geo (vd : top_vdev) (k : Z) : geo := Geo (k * 2 ^ vdev_ms_shift vd) (2 ^ vdev_ms_shift vd) (vdev_ashift vd).

(** A vdev that stays, with no time log to be stored. *)
Definition quiet (vd : top_vdev) : Prop := vdev_removing vd = false /\ tl_ok (vdev_dtl_list vd) /\ forall t, chain (vdev_dtl_list vd) t = [].

(** A sector is of 512 bytes at least. *)
Record vd_ok (vd : top_vdev) : Prop := {
  vo_shift : 9 <= vdev_ashift vd <= vdev_ms_shift vd;
  vo_size : vdev_ms_shift vd <= 56 /\ vdev_ms_shift vd <= 47 + vdev_ashift vd;
  vo_count : zlen (vdev_ms vd) * 2 ^ vdev_ms_shift vd <= 2 ^ 62;
  vo_list : tl_ok (vdev_ms_list vd);
  vo_quiet : quiet vd }.

Lemma metaslab_weight_ok mg msp k s d gh A : vd_ok (mg_vd mg) -> 0 <= k < zlen (vdev_ms (mg_vd mg)) -> slab_inv (slab_geo (mg_vd mg) k) s d msp gh A -> weight_ok msp ->
  exists w, metaslab_weight mg msp = Ok w /\ weight_ok (with_weight msp w).
Proof using All.
  intros [V1 [V2 V3] V4 _] Hk Hi [Hw Hact]. pose proof (si_smo _ _ _ _ _ _ Hi) as Hsmo. destruct (mo_geo _ _ _ (si_map _ _ _ _ _ _ Hi)) as (G1 & G2 & _). cbn in Hsmo, G1, G2. set (S := 2 ^ vdev_ms_shift (mg_vd mg)) in *. set (n := zlen (vdev_ms (mg_vd mg))) in *.
  assert (HS : 0 < S <= 2 ^ 56) by (split; [apply Z.pow_pos_nonneg; lia|apply Z.pow_le_mono_r; lia]).
  unfold metaslab_weight. rewrite G1, G2. fold n. set (space := u64 (S - smo_alloc (ms_smo msp))). assert (Hsp : 0 <= space <= S) by (unfold space; rewrite Z.mod_small; lia).
  rewrite (proj2 (Z.eqb_neq n 0)) by lia. cbn [negb verify mbind res_bind]. rewrite Z.shiftr_div_pow2 by lia. fold S. rewrite Z.div_mul by lia. rewrite (Z.mod_small (k * space)) by nia.
  assert (Hq : 0 <= k * space / n <= space) by (split; [apply Z.div_pos; nia|apply Z.div_le_upper_bound; nia]). rewrite (Z.mod_small (2 * space - _)) by lia. set (w0 := 2 * space - _). assert (H0 : 0 <= w0 < 2 ^ 62) by (unfold w0; lia).
  set (w := if _ <=? _ then _ else w0). assert (Ew : w = w0) by (unfold w; case_match; [|done]; change (metaslab_smo_bonus_pct / 100) with 1; rewrite Z.mul_1_r; apply Z.mod_small; lia). rewrite Ew. clearbody w0. clear w Ew.
  destruct (sm_loaded (ms_map msp)) eqn:El.
  - destruct (mo_loaded _ _ _ (si_map _ _ _ _ _ _ Hi) El) as (l & Hms & Eo & _). unfold ops_of. rewrite Eo. cbn [mbind res_bind smop_fragmented metaslab_SpaceMapOps zfs_metaslab_ops]. unfold metaslab_df_fragmented.
    destruct (maxsize_ok _ _ Hms) as (m & -> & _). unfold free_pct. rewrite G2, (proj2 (Z.eqb_neq S 0)) by lia. cbn [mbind res_bind]. case_match; (eexists; split; [done|]); split; cbn; try done; [lia|].
    apply (lor_pow2_bound _ _ 64); [lia|apply mask_bound|lia].
  - eexists. split; [done|]. split; cbn; [lia|]. intros Ha. by destruct (inactive w0).
Qed.

(** ** Groups *)

Record slab_ok (vd : top_vdev) (s : Z) d (k : Z) msp (x : sx) : Prop := {
  so_inv : slab_inv (slab_geo vd k) s d msp (x_gh x) (x_A x);
  so_disk : disk_inv (vdev_ms_array vd) k d (ms_smo_syncing msp);
  so_weight : weight_ok msp;
  so_hist : hist_ok (slab_geo vd k) s x }.

(** [S] says which group a metaslab is about to sync. *)
Record group_ok (S : Z -> Z) d mg (X : Z -> sx) : Prop := {
  go_vd : vd_ok (mg_vd mg);
  go_tree : tree_ok mg;
  go_ms p : p ∈ vdev_ms (mg_vd mg) <-> is_Some (mg_slabs mg !! p);
  go_slab k p msp : vdev_ms (mg_vd mg) !! k = Some p -> mg_slabs mg !! p = Some msp -> slab_ok (mg_vd mg) (S p) d (Z.of_nat k) msp (X p) }.

(** What the metaslabs depend on of a vdev. *)
Definition vd_same (vd vd' : top_vdev) : Prop :=
  vdev_ashift vd' = vdev_ashift vd /\ vdev_ms_shift vd' = vdev_ms_shift vd /\ vdev_ms_array vd' = vdev_ms_array vd /\ vdev_ms vd' = vdev_ms vd /\ vdev_removing vd' = vdev_removing vd /\ vdev_dtl_list vd' = vdev_dtl_list vd.

(** A figure of 64 bits that has not changed. *)
Definition same_space (a b : Z) : Prop := 0 <= a < 2 ^ 64 -> b = a.

#[export] Instance same_space_preorder : PreOrder same_space.
Proof. split; [done|]. intros a b c H1 H2 Ha. rewrite H2; rewrite (H1 Ha); done. Qed.

(** A vdev with other lists and statistics, but of the same size. *)
Definition vd_like (vd vd' : top_vdev) : Prop := exists l st fw, vd' = with_fastwrite (with_vd_stat (with_lists vd l (vdev_dtl_list vd)) st) fw /\ same_space (vs_space (vdev_stat_ vd)) (vs_space st).

Lemma vd_like_same vd vd' : vd_like vd vd' -> vd_same vd vd'.
Proof. by intros (l & st & fw & -> & _). Qed.

Lemma vd_like_refl vd : vd_like vd vd.
Proof. exists (vdev_ms_list vd), (vdev_stat_ vd), (vdev_pending_fastwrite vd). by destruct vd. Qed.

Lemma vd_like_trans vd1 vd2 vd3 : vd_like vd1 vd2 -> vd_like vd2 vd3 -> vd_like vd1 vd3.
Proof. intros (l & st & fw & -> & S1) (l' & st' & fw' & -> & S2). exists l', st', fw'. split; [done|]. cbn in S2. by etrans. Qed.

Lemma vd_like_lists vd l : vd_like vd (with_lists vd l (vdev_dtl_list vd)).
Proof. exists l, (vdev_stat_ vd), (vdev_pending_fastwrite vd). by destruct vd. Qed.

Lemma vd_same_ok vd vd' : vd_same vd vd' -> tl_ok (vdev_ms_list vd') -> vd_ok vd -> vd_ok vd'.
Proof. intros (E1 & E2 & E3 & E4 & E5 & E6) Hl [H1 H2 H3 H4 H5]. constructor; unfold quiet; rewrite ?E1, ?E2, ?E4, ?E5, ?E6; done. Qed.

Lemma slab_ok_same vd vd' s d k msp x : vd_same vd vd' -> slab_ok vd s d k msp x -> slab_ok vd' s d k msp x.
Proof. intros (E1 & E2 & E3 & E4) [H1 H2 H3 H4]. assert (Eg : slab_geo vd' k = slab_geo vd k) by (unfold slab_geo; by rewrite E1, E2). constructor; rewrite ?Eg, ?E3; done. Qed.

(** The number of a metaslab. *)
Lemma group_index S d mg X p msp : group_ok S d mg X -> mg_slabs mg !! p = Some msp -> exists k, vdev_ms (mg_vd mg) !! k = Some p /\ 0 <= Z.of_nat k < zlen (vdev_ms (mg_vd mg)) /\ slab_ok (mg_vd mg) (S p) d (Z.of_nat k) msp (X p).
Proof.
  intros Hg Hp. destruct (proj1 (list_elem_of_lookup _ _) (proj2 (go_ms _ _ _ _ Hg p) ltac:(by eexists))) as [k Hk]. exists k. split; [done|]. split; [|by apply (go_slab _ _ _ _ Hg)].
  pose proof (lookup_lt_Some _ _ _ Hk). lia.
Qed.

(** One metaslab of a group changes. *)
Lemma group_upd S S' d mg mg' X X' k p msp' : group_ok S d mg X -> vd_same (mg_vd mg) (mg_vd mg') -> tl_ok (vdev_ms_list (mg_vd mg')) -> tree_ok mg' -> vdev_ms (mg_vd mg) !! k = Some p ->
  mg_slabs mg' = <[p := msp']> (mg_slabs mg) -> slab_ok (mg_vd mg) (S' p) d (Z.of_nat k) msp' (X' p) -> (forall q, q <> p -> S' q = S q /\ X' q = X q) -> group_ok S' d mg' X'.
Proof.
  intros Hg Hvd Hl Ht Hk Es Hs Ho. pose proof Hvd as (_ & Eshift & _ & Ems & _). constructor; [by eapply vd_same_ok, go_vd|done|..].
  - intros q. rewrite Ems, Es, (go_ms _ _ _ _ Hg q). destruct (decide (q = p)) as [->|Hne]; [|by rewrite lookup_insert_ne]. rewrite lookup_insert_eq. split; [by eexists|]. intros _. apply (go_ms _ _ _ _ Hg). by eapply list_elem_of_lookup_2.
  - intros j q m Hj Hm. rewrite Ems in Hj. rewrite Es in Hm. apply (slab_ok_same (mg_vd mg)); [done|]. destruct (decide (q = p)) as [->|Hne].
    + rewrite lookup_insert_eq in Hm. injection Hm as <-. assert (j = k) as ->; [|done]. destruct (proj1 (go_ms _ _ _ _ Hg p) ltac:(by eapply list_elem_of_lookup_2)) as [m Hm].
      pose proof (proj1 (mo_geo _ _ _ (si_map _ _ _ _ _ _ (so_inv _ _ _ _ _ _ (go_slab _ _ _ _ Hg j p m Hj Hm))))) as E1. pose proof (proj1 (mo_geo _ _ _ (si_map _ _ _ _ _ _ (so_inv _ _ _ _ _ _ (go_slab _ _ _ _ Hg k p m Hk Hm))))) as E2.
      cbn in E1, E2. assert (0 < 2 ^ vdev_ms_shift (mg_vd mg)) by (apply Z.pow_pos_nonneg; [lia|]; pose proof (vo_shift _ (go_vd _ _ _ _ Hg)); lia). nia.
    + rewrite lookup_insert_ne in Hm by done. destruct (Ho q Hne) as [-> ->]. by apply (go_slab _ _ _ _ Hg).
Qed.

Lemma group_ext S S' d mg mg' X X' : group_ok S d mg X -> vd_same (mg_vd mg) (mg_vd mg') -> tl_ok (vdev_ms_list (mg_vd mg')) -> mg_metaslab_tree mg' = mg_metaslab_tree mg -> mg_slabs mg' = mg_slabs mg ->
  (forall q, S' q = S q /\ X' q = X q) -> group_ok S' d mg' X'.
Proof.
  intros Hg Hvd Hl Et Es Ho. pose proof Hvd as (_ & _ & _ & Ems & _). constructor; [by eapply vd_same_ok, go_vd|destruct (go_tree _ _ _ _ Hg) as [l Ht]; exists l; by apply (tree_same mg)|..].
  - intros q. rewrite Ems, Es. apply (go_ms _ _ _ _ Hg).
  - intros j q m Hj Hm. rewrite Ems in Hj. rewrite Es in Hm. apply (slab_ok_same (mg_vd mg)); [done|]. destruct (Ho q) as [-> ->]. by apply (go_slab _ _ _ _ Hg).
Qed.

(** ** Activation *)

Lemma with_weight_inv g s d msp gh A w : slab_inv g s d msp gh A -> slab_inv g s d (with_weight msp w) gh A.
Proof. by intros [Hg Htx Hv Hou Sa Sf Sd Hm Hl Hrm Hsmo HA Hun Hds]. Qed.

(** The fields of a group that operations on its metaslabs keep. *)
Definition ring_same mg mg' : Prop :=
  mg_vd mg' = mg_vd mg /\ mg_class mg' = mg_class mg /\ mg_prev mg' = mg_prev mg /\ mg_next mg' = mg_next mg /\ mg_activation_count mg' = mg_activation_count mg /\ mg_aliquot mg' = mg_aliquot mg.

Lemma ring_refl mg : ring_same mg mg.
Proof. by split_and!. Qed.

Lemma ring_trans mg1 mg2 mg3 : ring_same mg1 mg2 -> ring_same mg2 mg3 -> ring_same mg1 mg3.
Proof. intros (A1 & A2 & A3 & A4 & A5 & A6) (B1 & B2 & B3 & B4 & B5 & B6). unfold ring_same. by rewrite B1, B2, B3, B4, B5, B6. Qed.

Lemma vd_refl vd : vd_same vd vd.
Proof. by split_and!. Qed.

(** A metaslab and its new weight. *)
Lemma sort_group S d mg X p msp w : group_ok S d mg X -> mg_slabs mg !! p = Some msp -> weight_ok (with_weight msp w) ->
  exists mg', metaslab_group_sort mg p w = Ok mg' /\ group_ok S d mg' X /\ ring_same mg mg' /\ mg_slabs mg' = <[p := with_weight msp w]> (mg_slabs mg) /\
    mg_bonus_area mg' = mg_bonus_area mg /\ mg_alloc_failures mg' = mg_alloc_failures mg.
Proof using All.
  intros Hg Hp Hw. destruct (go_tree _ _ _ _ Hg) as [l Ht]. destruct (sort_ok mg l p msp w Ht Hp) as (t & l' & E & Ht' & _). destruct (group_index _ _ _ _ _ _ Hg Hp) as (k & Hk & _ & [H1 H2 H3 H4]).
  eexists. split; [exact E|]. split; [|done]. eapply (group_upd S S d mg _ X X k p (with_weight msp w)); try done; [apply (vo_list _ (go_vd _ _ _ _ Hg))|by exists l'|]. constructor; try done. by apply with_weight_inv.
Qed.

(** The map of a metaslab is replaced. *)
Lemma map_group S d mg X k p msp sm : group_ok S d mg X -> mg_slabs mg !! p = Some msp -> vdev_ms (mg_vd mg) !! k = Some p ->
  slab_inv (slab_geo (mg_vd mg) (Z.of_nat k)) (S p) d (with_map msp sm) (x_gh (X p)) (x_A (X p)) -> (active (ms_weight msp) -> sm_loaded sm = true) -> group_ok S d (set_ms mg p (with_map msp sm)) X.
Proof using All.
  intros Hg Hp Hk Hi Ha. destruct (go_slab _ _ _ _ Hg k p msp Hk Hp) as [H1 H2 H3 H4]. destruct (go_tree _ _ _ _ Hg) as [l Ht].
  eapply (group_upd S S d mg _ X X k p (with_map msp sm)); try done; [apply (vo_list _ (go_vd _ _ _ _ Hg))| |]. 2: { constructor; try done. split; [apply H3|done]. }
  exists l. eapply tree_set; try done. rewrite (proj1 (mo_geo _ _ _ (si_map _ _ _ _ _ _ Hi))). by rewrite (proj1 (mo_geo _ _ _ (si_map _ _ _ _ _ _ H1))).
Qed.

Lemma active_lor w : 0 <= w < 2 ^ 64 -> forall aw, aw = METASLAB_WEIGHT_PRIMARY \/ aw = METASLAB_WEIGHT_SECONDARY -> 0 <= Z.lor w aw < 2 ^ 64 /\ active (Z.lor w aw).
Proof.
  intros Hw aw Haw. split; [apply (lor_pow2_bound _ _ 64); [done|destruct Haw as [->| ->]; done|lia]|]. unfold active. intros E. assert (Hb : Z.testbit (Z.land (Z.lor w aw) METASLAB_ACTIVE_MASK) (if decide (aw = METASLAB_WEIGHT_PRIMARY) then 63 else 62) = true).
  { rewrite Z.land_spec, Z.lor_spec. destruct Haw as [->| ->]; cbn; by rewrite orb_true_r. } rewrite E, Z.bits_0 in Hb. done.
Qed.

Lemma activate_ok S d mg X p msp aw : group_ok S d mg X -> mg_slabs mg !! p = Some msp -> aw = METASLAB_WEIGHT_PRIMARY \/ aw = METASLAB_WEIGHT_SECONDARY ->
  exists mg' err msp', metaslab_activate mg zfs_metaslab_ops d p aw = Ok (mg', err) /\ group_ok S d mg' X /\ ring_same mg mg' /\ mg_alloc_failures mg' = mg_alloc_failures mg /\
    mg_slabs mg' = <[p := msp']> (mg_slabs mg) /\ (exists sm, msp' = with_weight (with_map msp sm) (ms_weight msp')) /\
    ((err = 0 /\ sm_loaded (ms_map msp') = true /\ ms_weight msp' = (if Z.land (ms_weight msp) METASLAB_ACTIVE_MASK =? 0 then Z.lor (ms_weight msp) aw else ms_weight msp)) \/
     (err <> 0 /\ ms_weight msp' = 0 /\ exists off size, (dmu_read d (smo_object (ms_smo msp)) off size).1 = err)).
Proof using All.
  intros Hg Hp Haw. destruct (group_index _ _ _ _ _ _ Hg Hp) as (k & Hk & Hkb & [H1 H2 H3 H4]). unfold metaslab_activate. rewrite (get_ms_ok _ _ _ Hp). cbn [mbind res_bind].
  destruct (Z.eqb_spec (Z.land (ms_weight msp) METASLAB_ACTIVE_MASK) 0) as [Ea|Ea].
  2: { exists mg, 0, msp. rewrite insert_id by done. split; [done|]. split; [done|]. split; [apply ring_refl|]. split; [done|]. split; [done|]. split; [exists (ms_map msp); by destruct msp|]. left. split; [done|]. split; [by apply H3|done]. }
  destruct (activate_load_ok _ _ _ _ _ _ H1) as (err & sm & -> & Hi & Hr). cbn [mbind res_bind]. assert (Hg1 : group_ok S d (set_ms mg p (with_map msp sm)) X).
  { by apply (map_group S d mg X k). }
  set (mg1 := set_ms mg p (with_map msp sm)) in *. assert (Hp1 : mg_slabs mg1 !! p = Some (with_map msp sm)) by apply lookup_insert_eq. destruct Hr as [[-> El]|(Hne & El & Hrd)].
  - cbn [Z.eqb negb]. set (mg2 := if _ >? _ then _ else mg1). assert (Hg2 : group_ok S d mg2 X) by (unfold mg2; case_match; [|done]; eapply (group_ext S S d mg1); try done; apply (vo_list _ (go_vd _ _ _ _ Hg))).
    assert (Em2 : mg_slabs mg2 = mg_slabs mg1 /\ ring_same mg1 mg2 /\ mg_alloc_failures mg2 = mg_alloc_failures mg1) by (unfold mg2; by case_match). destruct Em2 as (Em2 & Er2 & Ef2). clearbody mg2.
    destruct (active_lor (ms_weight msp) (proj1 H3) aw Haw) as [Hb Hact]. destruct (sort_group S d mg2 X p (with_map msp sm) (Z.lor (ms_weight msp) aw) Hg2) as (mg3 & Es & Hg3 & Er3 & Em3 & _ & Ef3); [by rewrite Em2|by split|].
    cbn [ms_weight with_map]. rewrite Es. cbn [mbind res_bind]. exists mg3, 0, (with_weight (with_map msp sm) (Z.lor (ms_weight msp) aw)). split; [done|]. split; [done|].
    split; [eapply ring_trans; [|exact Er3]; exact Er2|]. split; [by rewrite Ef3, Ef2|]. split; [rewrite Em3, Em2; apply insert_insert_eq|]. split; [by exists sm|by left].
  - rewrite (proj2 (Z.eqb_neq err 0)) by done. cbn [negb]. destruct (sort_group S d mg1 X p (with_map msp sm) 0 Hg1 Hp1) as (mg3 & Es & Hg3 & Er3 & Em3 & _ & Ef3); [split; [done|]; by intros []|]. rewrite Es. cbn [mbind res_bind].
    exists mg3, err, (with_weight (with_map msp sm) 0). split; [done|]. split; [done|]. split; [exact Er3|]. split; [exact Ef3|]. split; [rewrite Em3; apply insert_insert_eq|]. split; [by exists sm|by right].
Qed.

Lemma passivate_ok S d mg X p msp n : group_ok S d mg X -> mg_slabs mg !! p = Some msp -> 0 <= n < 2 ^ 62 ->
  exists mg', metaslab_passivate mg p n = Ok mg' /\ group_ok S d mg' X /\ ring_same mg mg' /\ mg_slabs mg' = <[p := with_weight msp (Z.min (ms_weight msp) n)]> (mg_slabs mg) /\ mg_alloc_failures mg' = mg_alloc_failures mg.
Proof using All.
  intros Hg Hp Hn. destruct (group_index _ _ _ _ _ _ Hg Hp) as (k & Hk & Hkb & [H1 H2 H3 H4]). unfold metaslab_passivate. rewrite (get_ms_ok _ _ _ Hp). cbn [mbind res_bind]. destruct H3 as [H3 _].
  destruct (sort_group S d mg X p msp (Z.min (ms_weight msp) n) Hg Hp) as (mg' & E & G1 & G2 & G3 & _ & G4); [|by exists mg']. split; cbn; [lia|]. intros Ha. by destruct (inactive (Z.min (ms_weight msp) n)); [lia|].
Qed.
End pool.
End MetaslabPool.

Import MetaslabPool.

Module MetaslabState.

(** A function changed at one place. *)
Definition upd {A} (f : Z -> Z -> A) (g p : Z) (a : A) : Z -> Z -> A := fun g' p' => if decide (g' = g /\ p' = p) then a else f g' p'.

Lemma upd_eq {A} (f : Z -> Z -> A) g p a : upd f g p a g p = a.
Proof. unfold upd. by rewrite decide_True. Qed.

Lemma upd_ne {A} (f : Z -> Z -> A) g p a g' p' : g' <> g \/ p' <> p -> upd f g p a g' p' = f g' p'.
Proof. intros H. unfold upd. rewrite decide_False; [done|]. intros [-> ->]. by destruct H. Qed.

Section state.
Context {T I D : Type} {HT : Tree T I} {HK : Kmem} {HD : Dmu D} {HB : DmuObjects D} {HE : SpaEnv} {HTL : TreeLaws T I} {HKL : KmemLaws} {HDL : DmuLaws D} {HBL : DmuObjectLaws D}.
Implicit Types (pl : pool T D) (mg : metaslab_group T) (msp : metaslab T) (d : D).

(** ** Groups of a pool *)

Definition top pl (g : Z) : option (metaslab_group T) := if decide (0 <= g) then spa_tops pl !! Z.to_nat g else None.
Definition put pl (g : Z) mg : pool T D := Pool (spa_mos pl) (spa_classes pl) (spa_root_stat pl) (<[Z.to_nat g := mg]> (spa_tops pl)) (spa_vdev_txg_list pl).

Lemma get_mg_ok pl g mg : top pl g = Some mg -> get_mg pl g = Ok mg.
Proof. unfold top. case_decide as H; [|done]. intros E. unfold get_mg. by apply rd_Some. Qed.

Lemma set_mg_ok pl g mg mg' : top pl g = Some mg -> set_mg pl g mg' = Ok (put pl g mg') /\ forall g', top (put pl g mg') g' = if decide (g' = g) then Some mg' else top pl g'.
Proof.
  unfold top. case_decide as H; [|done]. intros E. pose proof (lookup_lt_Some _ _ _ E) as Hlt. split; [unfold set_mg; rewrite wr_in_bounds by lia; done|]. intros g'. cbn. destruct (decide (g' = g)) as [->|Hne].
  - rewrite decide_True by done. by apply list_lookup_insert_eq.
  - case_decide; [|done]. apply list_lookup_insert_ne. lia.
Qed.

(** ** The invariant *)

(** The log of a metaslab. *)
Definition object_of pl (g p o : Z) : Prop := exists mg msp, top pl g = Some mg /\ mg_slabs mg !! p = Some msp /\ smo_object (ms_smo_syncing msp) = o.

Record pool_inv (S : Z -> Z -> Z) pl (X : Z -> Z -> sx) : Prop := {
  pi_group g mg : top pl g = Some mg -> group_ok (S g) (spa_mos pl) mg (X g);
  pi_object g p g' p' o : object_of pl g p o -> object_of pl g' p' o -> o <> 0 -> g = g' /\ p = p';
  pi_array g p o g' mg' : object_of pl g p o -> top pl g' = Some mg' -> o <> vdev_ms_array (mg_vd mg');
  pi_arrays g g' mg mg' : top pl g = Some mg -> top pl g' = Some mg' -> vdev_ms_array (mg_vd mg) = vdev_ms_array (mg_vd mg') -> g = g';
  pi_nonzero g mg : top pl g = Some mg -> vdev_ms_array (mg_vd mg) <> 0 /\ dmu_has (spa_mos pl) (vdev_ms_array (mg_vd mg));
  pi_class g mg : top pl g = Some mg -> exists mc, get_mc pl (mg_class mg) = Ok mc /\ mc_ops mc = zfs_metaslab_ops;
  pi_list : tl_ok (spa_vdev_txg_list pl);
  pi_tops t g : g ∈ chain (spa_vdev_txg_list pl) t -> is_Some (top pl g) }.

(** A group is replaced by one with the same logs. *)
Lemma pool_put S S' pl X X' g mg mg' : pool_inv S pl X -> top pl g = Some mg -> group_ok (S' g) (spa_mos pl) mg' (X' g) -> vdev_ms_array (mg_vd mg') = vdev_ms_array (mg_vd mg) -> mg_class mg' = mg_class mg ->
  (forall p msp', mg_slabs mg' !! p = Some msp' -> exists msp, mg_slabs mg !! p = Some msp /\ smo_object (ms_smo_syncing msp') = smo_object (ms_smo_syncing msp)) ->
  (forall g' p, g' <> g -> S' g' p = S g' p /\ X' g' p = X g' p) -> pool_inv S' (put pl g mg') X'.
Proof.
  intros Hi Hg Hok Ea Ec Ho Hx. destruct (set_mg_ok pl g mg mg' Hg) as [_ Ht]. assert (Hob : forall g' p o, object_of (put pl g mg') g' p o -> object_of pl g' p o).
  { intros g' p o (m & msp & Em & Ep & Eo). rewrite Ht in Em. case_decide as Hgg; [|by exists m, msp]. subst g'. injection Em as <-. destruct (Ho p msp Ep) as (msp0 & Ep0 & Eo0). exists mg, msp0. split; [done|]. split; [done|]. congruence. }
  assert (Htop : forall g' m, top (put pl g mg') g' = Some m -> exists m0, top pl g' = Some m0 /\ vdev_ms_array (mg_vd m) = vdev_ms_array (mg_vd m0) /\ mg_class m = mg_class m0).
  { intros g' m Em. rewrite Ht in Em. case_decide as Hgg; [|by exists m]. subst g'. injection Em as <-. by exists mg. }
  constructor.
  - intros g' m Em. rewrite Ht in Em. case_decide as Hgg; [subst g'; by injection Em as <-|]. pose proof (pi_group _ _ _ Hi g' m Em) as Hm. eapply group_ext; try done; [apply (vo_list _ (go_vd _ _ _ _ Hm))|]. intros q. by apply Hx.
  - intros g1 p1 g2 p2 o H1%Hob H2%Hob. by apply (pi_object _ _ _ Hi).
  - intros g1 p1 o g2 m H1%Hob (m0 & E0 & -> & _)%Htop. by apply (pi_array _ _ _ Hi g1 p1 o g2).
  - intros g1 g2 m1 m2 (n1 & E1 & -> & _)%Htop (n2 & E2 & -> & _)%Htop. by apply (pi_arrays _ _ _ Hi).
  - intros g1 m1 (n1 & E1 & -> & _)%Htop. by apply (pi_nonzero _ _ _ Hi g1).
  - intros g1 m1 (n1 & E1 & _ & ->)%Htop. by apply (pi_class _ _ _ Hi g1).
  - apply Hi.
  - intros t q Hq%(pi_tops _ _ _ Hi). rewrite Ht. case_decide; [by eexists|done].
Qed.

(** ** Dirty metaslabs *)

(** There is something to sync in the group [t]. *)
Definition need (x : sx) (t : Z) : Prop := exists y, own (x_gh x) y = OAlloc t \/ dead (x_gh x) y = Some t.

(** Nothing has happened since the last group. *)
Record idle msp (x : sx) : Prop := {
  id_A y : x_A x y <-> own (x_gh x) y = OLog;
  id_freed y : own (x_gh x) y <> OFreed;
  id_defer y b : own (x_gh x) y <> ODefer b;
  id_smo : ms_smo msp = ms_smo_syncing msp }.

(** A metaslab with something to sync is on the list of the group; one that is neither on
    the list of the group that is syncing nor on that of those synced already is idle. *)
Record group_dirty (s : Z) (R : Z -> Prop) mg (X : Z -> sx) : Prop := {
  gd_need p t : is_Some (mg_slabs mg !! p) -> s <= t <= s + 2 -> need (X p) t -> p ∈ chain (vdev_ms_list (mg_vd mg)) t;
  gd_idle p msp : mg_slabs mg !! p = Some msp -> (p ∉ chain (vdev_ms_list (mg_vd mg)) s) -> (p ∉ chain (vdev_ms_list (mg_vd mg)) (s + 3)) -> idle msp (X p);
  gd_member p t : p ∈ chain (vdev_ms_list (mg_vd mg)) t -> is_Some (mg_slabs mg !! p) /\ R t }.

Definition on_list pl (g : Z) (t : Z) : Prop := g ∈ chain (spa_vdev_txg_list pl) t.

Definition dirty_ok (s : Z) pl (X : Z -> Z -> sx) : Prop := forall g mg, top pl g = Some mg -> group_dirty s (on_list pl g) mg (X g).

(** A pool whose next group to sync is [s]. *)
Definition pool_ok (s : Z) pl (X : Z -> Z -> sx) : Prop := pool_inv (fun _ _ => s) pl X /\ dirty_ok s pl X.

(** A metaslab of a group changes, but for its logs. *)
Lemma dirty_upd s R mg mg' X p msp msp' : group_dirty s R mg X -> vdev_ms_list (mg_vd mg') = vdev_ms_list (mg_vd mg) -> mg_slabs mg !! p = Some msp -> mg_slabs mg' = <[p := msp']> (mg_slabs mg) ->
  ms_smo msp' = ms_smo msp -> ms_smo_syncing msp' = ms_smo_syncing msp -> group_dirty s R mg' X.
Proof.
  intros [H1 H2 H3] El Hp Es E1 E2. assert (Hd : forall q, is_Some (mg_slabs mg' !! q) <-> is_Some (mg_slabs mg !! q)).
  { intros q. rewrite Es. destruct (decide (q = p)) as [->|Hne]; [rewrite lookup_insert_eq, Hp; split; by eexists|by rewrite lookup_insert_ne]. }
  constructor; rewrite ?El.
  - intros q t. rewrite Hd. apply H1.
  - intros q m. rewrite Es. destruct (decide (q = p)) as [->|Hne]; [rewrite lookup_insert_eq; intros [= <-]|rewrite lookup_insert_ne by done; apply H2]. intros N1 N2. destruct (H2 p msp Hp N1 N2) as [I1 I2 I3 I4]. constructor; try done. congruence.
  - intros q t. rewrite Hd. apply H3.
Qed.

(** The lists of what is dirty. *)
Definition with_ms_list mg (l : txg_list) : metaslab_group T := with_vd mg (with_lists (mg_vd mg) l (vdev_dtl_list (mg_vd mg))).

Lemma vdev_dirty_ok pl g mg p t : top pl g = Some mg -> tl_ok (vdev_ms_list (mg_vd mg)) -> tl_ok (spa_vdev_txg_list pl) ->
  exists l l', vdev_dirty pl g VDD_METASLAB p t = Ok (set_vdev_list (put pl g (with_ms_list mg l)) l') /\ tl_ok l /\ tl_ok l' /\
    (forall t' q, q ∈ chain l t' <-> q ∈ chain (vdev_ms_list (mg_vd mg)) t' \/ (q = p /\ TXG_IDX t' = TXG_IDX t)) /\ (forall t' q, q ∈ chain l' t' <-> q ∈ chain (spa_vdev_txg_list pl) t' \/ (q = g /\ TXG_IDX t' = TXG_IDX t)).
Proof.
  intros Hg H1 H2. unfold vdev_dirty. rewrite (get_mg_ok _ _ _ Hg). cbn [mbind res_bind]. change (Z.land VDD_METASLAB VDD_METASLAB =? 0) with false. change (Z.land VDD_METASLAB VDD_DTL =? 0) with true. cbn [negb].
  destruct (chain_add_ok _ p t H1) as (l & b & -> & Hl & Hc). cbn [mbind res_bind]. rewrite (proj1 (set_mg_ok pl g mg _ Hg)). cbn [mbind res_bind put spa_vdev_txg_list]. destruct (chain_add_ok _ g t H2) as (l' & b' & -> & Hl' & Hc'). cbn [mbind res_bind].
  exists l, l'. by split_and!.
Qed.

Lemma pool_list S pl X l : pool_inv S pl X -> tl_ok l -> (forall t g, g ∈ chain l t -> is_Some (top pl g)) -> pool_inv S (set_vdev_list pl l) X.
Proof. by intros [H1 H2 H3 H4 H5 H6 H7 H8] Hl Ht. Qed.

Lemma idx_inj s t t' : s <= t <= s + 3 -> s <= t' <= s + 3 -> TXG_IDX t = TXG_IDX t' -> t = t'.
Proof. intros H1 H2. rewrite !TXG_IDX_mod. dlia. Qed.

Lemma chain_idx l t t' : TXG_IDX t = TXG_IDX t' -> chain l t = chain l t'.
Proof. intros E. unfold chain. by rewrite E. Qed.

(** ** Steps *)

Lemma put_put pl g mg mg' : put (put pl g mg) g mg' = put pl g mg'.
Proof. unfold put. cbn. f_equal. apply list_insert_insert_eq. Qed.

Lemma set_list_same pl : set_vdev_list pl (spa_vdev_txg_list pl) = pl.
Proof. by destruct pl. Qed.

Lemma dirty_mono s (R R' : Z -> Prop) mg X X' : (forall t, R t -> R' t) -> (forall q, X' q = X q) -> group_dirty s R mg X -> group_dirty s R' mg X'.
Proof.
  intros HR HX [H1 H2 H3]. constructor; intros q; rewrite ?HX; [apply H1|apply H2|]. intros t Hq. destruct (H3 q t Hq) as [A B]. split; [done|by apply HR].
Qed.

(** One group changes, and the list of the dirty vdevs grows. *)
Lemma pool_step s pl X X' g mg mg' l' : pool_ok s pl X -> top pl g = Some mg -> group_ok (fun _ => s) (spa_mos pl) mg' (X' g) -> vdev_ms_array (mg_vd mg') = vdev_ms_array (mg_vd mg) -> mg_class mg' = mg_class mg ->
  (forall p msp', mg_slabs mg' !! p = Some msp' -> exists msp, mg_slabs mg !! p = Some msp /\ smo_object (ms_smo_syncing msp') = smo_object (ms_smo_syncing msp)) ->
  (forall g' p, g' <> g -> X' g' p = X g' p) -> tl_ok l' -> (forall t q, q ∈ chain (spa_vdev_txg_list pl) t -> q ∈ chain l' t) -> (forall t q, q ∈ chain l' t -> is_Some (top pl q)) -> group_dirty s (fun t => g ∈ chain l' t) mg' (X' g) ->
  pool_ok s (set_vdev_list (put pl g mg') l') X'.
Proof.
  intros [Hi Hd] Hg Hok Ea Ec Ho Hx Hl Hmono Hts Hdg. split.
  - apply pool_list; [|done|intros t q Hq%Hts; rewrite (proj2 (set_mg_ok pl g mg mg' Hg)); case_decide; [by eexists|done]]. eapply pool_put; try done. intros g' p Hne. split; [done|by apply Hx].
  - intros g' m Em. change (top (put pl g mg') g' = Some m) in Em. rewrite (proj2 (set_mg_ok pl g mg mg' Hg)) in Em. case_decide as Hgg; [subst g'; injection Em as <-; exact Hdg|].
    eapply dirty_mono; [| |exact (Hd g' m Em)]; [intros t; apply Hmono|]. intros q. by apply Hx.
Qed.

(** One metaslab of a group: its logs stay. *)
Lemma objects_upd (mg mg' : metaslab_group T) p msp msp' : mg_slabs mg !! p = Some msp -> mg_slabs mg' = <[p := msp']> (mg_slabs mg) -> ms_smo_syncing msp' = ms_smo_syncing msp ->
  forall q m', mg_slabs mg' !! q = Some m' -> exists m, mg_slabs mg !! q = Some m /\ smo_object (ms_smo_syncing m') = smo_object (ms_smo_syncing m).
Proof.
  intros Hp Es Eo q m'. rewrite Es. destruct (decide (q = p)) as [->|Hne]; [rewrite lookup_insert_eq; intros [= <-]; exists msp; by rewrite Eo|]. rewrite lookup_insert_ne by done. intros E. by exists m'.
Qed.

(** The fields of a pool that allocations keep. *)
Definition group_frame mg mg' : Prop :=
  mg_class mg' = mg_class mg /\ mg_prev mg' = mg_prev mg /\ mg_next mg' = mg_next mg /\ mg_activation_count mg' = mg_activation_count mg /\ mg_aliquot mg' = mg_aliquot mg /\
  (exists l, mg_vd mg' = with_lists (mg_vd mg) l (vdev_dtl_list (mg_vd mg))) /\ dom (mg_slabs mg') = dom (mg_slabs mg).

Definition pool_frame pl pl' : Prop := spa_mos pl' = spa_mos pl /\ spa_classes pl' = spa_classes pl /\ length (spa_tops pl') = length (spa_tops pl) /\
  forall g mg, top pl g = Some mg -> exists mg', top pl' g = Some mg' /\ group_frame mg mg'.

Lemma group_frame_refl mg : group_frame mg mg.
Proof. split_and!; try done. exists (vdev_ms_list (mg_vd mg)). by destruct (mg_vd mg). Qed.

Lemma group_frame_trans mg1 mg2 mg3 : group_frame mg1 mg2 -> group_frame mg2 mg3 -> group_frame mg1 mg3.
Proof.
  intros (A1 & A2 & A3 & A4 & A5 & (l & A6) & A7) (B1 & B2 & B3 & B4 & B5 & (l' & B6) & B7). unfold group_frame. rewrite B1, B2, B3, B4, B5, B7. split_and!; try done. exists l'. by rewrite B6, A6.
Qed.

Lemma pool_frame_refl pl : pool_frame pl pl.
Proof. split_and!; try done. intros g mg E. exists mg. split; [done|apply group_frame_refl]. Qed.

Lemma pool_frame_trans pl1 pl2 pl3 : pool_frame pl1 pl2 -> pool_frame pl2 pl3 -> pool_frame pl1 pl3.
Proof.
  intros (A1 & A2 & A3 & A4) (B1 & B2 & B3 & B4). split_and!; try congruence. intros g mg E. destruct (A4 g mg E) as (mg2 & E2 & F2). destruct (B4 g mg2 E2) as (mg3 & E3 & F3). exists mg3. split; [done|by eapply group_frame_trans].
Qed.

Lemma pool_frame_put pl g mg mg' l' : top pl g = Some mg -> group_frame mg mg' -> pool_frame pl (set_vdev_list (put pl g mg') l').
Proof.
  intros Hg Hf. split_and!; try done; [cbn; apply length_insert|]. intros g' m Em. change (top (set_vdev_list (put pl g mg') l') g') with (top (put pl g mg') g'). rewrite (proj2 (set_mg_ok pl g mg mg' Hg)).
  case_decide as Hgg; [subst g'; exists mg'; split; [done|]; congruence|]. exists m. split; [done|apply group_frame_refl].
Qed.
End state.
End MetaslabState.
