(* ===== verification/MetaslabBlock.v ===== *)
(** Allocating from a group, and freeing and claiming addresses, in a pool.

    [metaslab_group_alloc]: it ends, and what it returns.

    Freeing and claiming the addresses of a block. *)

From S2P Require Import Prelude Avl AvlSpec OrdTree SpaceMap SpaceSet SpaceMapOk SpaceMapWalk SpaceMapRanges SpaceMapSpec SpaceLog SpaceSync SpaceLoad SpaceLogSpec MetaslabInv Metaslab MetaslabOk MetaslabSpec TxgList MetaslabSync MetaslabCycle RaidzMap Blkptr MetaslabGroup MetaslabTree MetaslabPool.
Import SpaceMap SpaceSet SpaceMapOk SpaceMapCut SpaceMapWalk SpaceMapRanges SpaceMapSpec SpaceLog SpaceEntry SpaceSync SpaceLoad SpaceLogSpec SpaceFrame Metaslab MetaslabPick MetaslabOk MetaslabSpec TxgList MetaslabSync MetaslabSlab MetaslabInv MetaslabWrite MetaslabTurn MetaslabTake Blkptr MetaslabGroup MetaslabTree MetaslabPool MetaslabState.
Open Scope Z_scope.

Module MetaslabUse.

Section use.
Context {T I D : Type} {HT : Tree T I} {HK : Kmem} {HD : Dmu D} {HB : DmuObjects D} {HE : SpaEnv} {HTL : TreeLaws T I} {HKL : KmemLaws} {HDL : DmuLaws D} {HBL : DmuObjectLaws D}.
Implicit Types (pl : pool T D) (mg : metaslab_group T) (msp : metaslab T) (d : D).

(** A metaslab is marked dirty if nothing of the group was to be synced before. *)
Lemma dirty_if_ok pl g mg p t b : top pl g = Some mg -> tl_ok (vdev_ms_list (mg_vd mg)) -> tl_ok (spa_vdev_txg_list pl) ->
  exists mg' l', (if (b : bool) then vdev_dirty pl g VDD_METASLAB p t else Ok pl) = Ok (set_vdev_list (put pl g mg') l') /\ top (set_vdev_list (put pl g mg') l') g = Some mg' /\
    (exists l, mg' = with_ms_list mg l) /\ tl_ok (vdev_ms_list (mg_vd mg')) /\ tl_ok l' /\
    (forall t' q, q ∈ chain (vdev_ms_list (mg_vd mg')) t' <-> q ∈ chain (vdev_ms_list (mg_vd mg)) t' \/ (b = true /\ q = p /\ TXG_IDX t' = TXG_IDX t)) /\
    (forall t' q, q ∈ chain l' t' <-> q ∈ chain (spa_vdev_txg_list pl) t' \/ (b = true /\ q = g /\ TXG_IDX t' = TXG_IDX t)).
Proof.
  intros Hg H1 H2. destruct b.
  - destruct (vdev_dirty_ok pl g mg p t Hg H1 H2) as (l & l' & E & L1 & L2 & C1 & C2). exists (with_ms_list mg l), l'. split; [done|]. split; [change (top (put pl g (with_ms_list mg l)) g = Some (with_ms_list mg l)); rewrite (proj2 (set_mg_ok pl g mg _ Hg)); by rewrite decide_True|].
    split; [by exists l|]. split; [done|]. split; [done|]. split; [intros t' q; etrans; [apply C1|]; tauto|intros t' q; rewrite C2; tauto].
  - exists mg, (spa_vdev_txg_list pl). assert (E : put pl g mg = pl).
    { unfold put. rewrite list_insert_id; [by destruct pl|]. unfold top in Hg. by case_decide. }
    rewrite E, set_list_same. split; [done|]. split; [done|]. split; [exists (vdev_ms_list (mg_vd mg)); destruct mg as [? ? ? ? ? ? ? vd]; unfold with_ms_list, with_vd; cbn; by destruct vd|]. split; [done|]. split; [done|]. split; intros t' q; naive_solver.
Qed.

(** The dirty lists of a group after something has been added to what one of its metaslabs
    has to sync in [t]. *)
Lemma dirty_need s R R' mg mg' X X' p msp msp' t b : group_dirty s R mg X -> mg_slabs mg !! p = Some msp -> mg_slabs mg' = <[p := msp']> (mg_slabs mg) -> ms_smo msp' = ms_smo msp -> ms_smo_syncing msp' = ms_smo_syncing msp ->
  s <= t <= s + 2 -> (forall t' q, q ∈ chain (vdev_ms_list (mg_vd mg')) t' <-> q ∈ chain (vdev_ms_list (mg_vd mg)) t' \/ (b = true /\ q = p /\ TXG_IDX t' = TXG_IDX t)) ->
  (forall t', R' t' <-> R t' \/ (b = true /\ TXG_IDX t' = TXG_IDX t)) -> (b = true \/ need (X p) t) -> (forall q, q <> p -> X' q = X q) -> (forall t', need (X' p) t' -> t' = t \/ need (X p) t') ->
  (idle msp (X p) -> idle msp' (X' p)) -> group_dirty s R' mg' X'.
Proof.
  intros [H1 H2 H3] Hp Es E1 E2 Ht Hc HR Hb Ho Hn Hid. assert (Hd : forall q, is_Some (mg_slabs mg' !! q) <-> is_Some (mg_slabs mg !! q)).
  { intros q. rewrite Es. destruct (decide (q = p)) as [->|Hne]; [rewrite lookup_insert_eq, Hp; split; by eexists|by rewrite lookup_insert_ne]. }
  constructor.
  - intros q t' Hq Ht' Hnd. rewrite Hc. apply Hd in Hq. destruct (decide (q = p)) as [->|Hne]; [|rewrite Ho in Hnd by done; left; by apply H1]. destruct (Hn t' Hnd) as [->|Hnd']; [|left; by apply H1].
    destruct Hb as [->|Hb]; [by right|left; by apply H1].
  - intros q m. rewrite Es, !Hc. destruct (decide (q = p)) as [->|Hne]; [rewrite lookup_insert_eq; intros [= <-]|rewrite lookup_insert_ne, Ho by done]; intros N1 N2; [apply Hid, H2; [done|tauto|tauto]|]. intros N3. apply H2; [done|tauto|tauto].
  - intros q t'. rewrite Hc, Hd, HR. intros [Hq|(-> & -> & E)]; [destruct (H3 q t' Hq); tauto|]. split; [by eexists|]. by right.
Qed.

(** A range of metaslab [p] of group [g] has another owner. *)
Definition x_assign (X : Z -> Z -> sx) (g p off size : Z) (o : owner) : Z -> Z -> sx := upd X g p (x_with (X g p) (assigned off size o (x_gh (X g p)))).
Definition x_bury (X : Z -> Z -> sx) (g p off size t : Z) : Z -> Z -> sx := upd X g p (x_with (X g p) (buried off size t (x_gh (X g p)))).

Lemma hist_assigned g s x off size o1 o2 : hist_ok g s x -> (forall y, inside off size y -> own (x_gh x) y = o1) -> o1 <> OLog -> o1 <> OFreed -> (forall b, o1 <> ODefer b) -> o2 <> OLog -> o2 <> OFreed -> (forall b, o2 <> ODefer b) ->
  hist_ok g s (x_with x (assigned off size o2 (x_gh x))).
Proof.
  intros Hh Hf N1 N2 N3 N4 N5 N6. apply hist_keep; [done| |].
  - intros y _. rewrite !(assigned_same off size o1) by done. done.
  - intros y b _ E. by rewrite (assigned_same off size o1).
Qed.

Lemma idle_assigned msp msp' x off size o1 o2 : idle msp x -> ms_smo msp' = ms_smo msp -> ms_smo_syncing msp' = ms_smo_syncing msp -> (forall y, inside off size y -> own (x_gh x) y = o1) ->
  o1 <> OLog -> o2 <> OLog -> o2 <> OFreed -> (forall b, o2 <> ODefer b) -> idle msp' (x_with x (assigned off size o2 (x_gh x))).
Proof.
  intros [I1 I2 I3 I4] E1 E2 Hf N1 N2 N3 N4. constructor; cbn [x_gh x_A x_with].
  - intros y. rewrite I1. by rewrite (assigned_same off size o1).
  - intros y [[_ ?]|[_ E]]%assigned_iff; [done|by destruct (I2 y)].
  - intros y b [[_ E]|[_ E]]%assigned_iff; [by destruct (N4 b)|by destruct (I3 y b)].
  - congruence.
Qed.

(** A slab whose range is allocated. *)
Lemma slab_taken vd s d k msp x sm l off size t : slab_ok vd s d k msp x -> slab_inv (slab_geo vd k) s d (with_allocmap (with_map msp sm) l) (assigned off size (OAlloc t) (x_gh x)) (x_A x) -> sm_loaded sm = true ->
  (forall y, inside off size y -> own (x_gh x) y = OFree) -> slab_ok vd s d k (with_allocmap (with_map msp sm) l) (x_with x (assigned off size (OAlloc t) (x_gh x))).
Proof. intros [H1 H2 H3 H4] Hi El Hf. constructor; try done; [split; [apply H3|done]|]. by apply (hist_assigned _ _ _ _ _ OFree). Qed.

Lemma need_assigned x off size o t : need (x_with x (assigned off size (OAlloc t) (x_gh x))) o -> o = t \/ need x o.
Proof. intros (y & [[[_ [= ->]]|[_ E]]%assigned_iff|E]); [by left|right; exists y; by left|right; exists y; by right]. Qed.

(** What a group keeps when a metaslab and the list of dirty metaslabs change. *)
Record group_step mg mg' (p : Z) msp' (lm : txg_list) : Prop := {
  gs_vd : mg_vd mg' = with_lists (mg_vd mg) lm (vdev_dtl_list (mg_vd mg));
  gs_slabs : mg_slabs mg' = <[p := msp']> (mg_slabs mg);
  gs_tree : mg_metaslab_tree mg' = mg_metaslab_tree mg;
  gs_rest : mg_class mg' = mg_class mg /\ mg_prev mg' = mg_prev mg /\ mg_next mg' = mg_next mg /\ mg_activation_count mg' = mg_activation_count mg /\ mg_aliquot mg' = mg_aliquot mg }.

(** A metaslab has changed, and is on the list of the group in which it did. *)
Lemma commit_ok s pl X g mg mg' k p msp msp' x' t b lm l' : pool_ok s pl X -> top pl g = Some mg -> vdev_ms (mg_vd mg) !! k = Some p -> mg_slabs mg !! p = Some msp -> s <= t <= s + 2 ->
  group_step mg mg' p msp' lm -> tl_ok lm -> tl_ok l' ->
  (forall t' q, q ∈ chain lm t' <-> q ∈ chain (vdev_ms_list (mg_vd mg)) t' \/ (b = true /\ q = p /\ TXG_IDX t' = TXG_IDX t)) ->
  (forall t' q, q ∈ chain l' t' <-> q ∈ chain (spa_vdev_txg_list pl) t' \/ (b = true /\ q = g /\ TXG_IDX t' = TXG_IDX t)) ->
  slab_ok (mg_vd mg) s (spa_mos pl) (Z.of_nat k) msp' x' -> ms_weight msp' = ms_weight msp -> ms_smo msp' = ms_smo msp -> ms_smo_syncing msp' = ms_smo_syncing msp ->
  (b = true \/ need (X g p) t) -> (forall t', need x' t' -> t' = t \/ need (X g p) t') -> (idle msp (X g p) -> idle msp' x') ->
  pool_ok s (set_vdev_list (put pl g mg') l') (upd X g p x') /\ pool_frame pl (set_vdev_list (put pl g mg') l').
Proof using All.
  intros Hok Hg Hk Hp Ht [Evd Es Etr (R1 & R2 & R3 & R4 & R5)] L1 L2 C1 C2 Hsl' Ew E1 E2 Hb Hn Hid. pose proof Hok as [Hi Hd]. pose proof (pi_group _ _ _ Hi g mg Hg) as Hgr. pose proof (go_slab _ _ _ _ Hgr k p msp Hk Hp) as Hsl.
  assert (Hdom : dom (mg_slabs mg') = dom (mg_slabs mg)) by (rewrite Es; apply dom_insert_lookup_L; by eexists).
  split; [|apply (pool_frame_put pl g mg); [done|]; split_and!; try done; by exists lm].
  destruct (go_tree _ _ _ _ Hgr) as [tl Htr]. assert (Htree : tree_ok mg').
  { exists tl. apply (tree_same (set_ms mg p msp')); [done|by rewrite Es|]. eapply tree_set; try done. rewrite (proj1 (mo_geo _ _ _ (si_map _ _ _ _ _ _ (so_inv _ _ _ _ _ _ Hsl')))). symmetry. apply (mo_geo _ _ _ (si_map _ _ _ _ _ _ (so_inv _ _ _ _ _ _ Hsl))). }
  apply (pool_step s pl X _ g mg); try done; [|by rewrite Evd|by eapply objects_upd|intros g' q Hne; apply upd_ne; by left|intros t' q Hq; rewrite C2; by left|intros t' q [Hq|(_ & -> & _)]%C2; [by apply (pi_tops _ _ _ Hi t')|by eexists]|].
  - apply (group_upd (fun _ => s) _ _ mg mg' (X g) _ k p msp' Hgr); try done; [rewrite Evd; by split_and!|by rewrite Evd|by rewrite upd_eq|]. intros q Hne. split; [done|]. apply upd_ne. by right.
  - apply (dirty_need s (on_list pl g) _ mg mg' (X g) _ p msp msp' t b (Hd g mg Hg) Hp Es E1 E2 Ht); try done; rewrite ?upd_eq; try done.
    + intros t' q. rewrite Evd. apply C1.
    + intros t'. unfold on_list. rewrite C2. tauto.
    + intros q Hne. apply upd_ne. by right.
Qed.

Lemma record_alloc_ok s pl X g mg k p msp sm off size t : pool_ok s pl X -> top pl g = Some mg -> vdev_ms (mg_vd mg) !! k = Some p -> mg_slabs mg !! p = Some msp -> s <= t <= s + 2 ->
  geo_fits (slab_geo (mg_vd mg) (Z.of_nat k)) off size -> (forall y, inside off size y -> own (x_gh (X g p)) y = OFree) -> loaded_map (slab_geo (mg_vd mg) (Z.of_nat k)) sm (fun y => own (x_gh (X g p)) y = OFree /\ ~ inside off size y) ->
  exists pl', record_alloc (put pl g (set_ms mg p (with_map msp sm))) g p t off size = Ok pl' /\ pool_ok s pl' (x_assign X g p off size (OAlloc t)) /\ pool_frame pl pl'.
Proof using All.
  intros Hok Hg Hk Hp Ht Hf Hfree HL. pose proof Hok as [Hi Hd]. pose proof (pi_group _ _ _ Hi g mg Hg) as Hgr. pose proof (go_slab _ _ _ _ Hgr k p msp Hk Hp) as Hsl.
  destruct (take_inv _ _ _ _ _ _ sm off size t (so_inv _ _ _ _ _ _ Hsl) Hf Ht Hfree HL) as (am & am' & l & E1 & E2 & E3 & Hinv & Hemp). set (mg1 := set_ms mg p (with_map msp sm)). set (msp' := with_allocmap (with_map msp sm) l) in *.
  assert (Hg1 : top (put pl g mg1) g = Some mg1) by (rewrite (proj2 (set_mg_ok pl g mg mg1 Hg)); by rewrite decide_True). pose proof (vo_list _ (go_vd _ _ _ _ Hgr)) as Hl1. pose proof (pi_list _ _ _ Hi) as Hl2.
  destruct (dirty_if_ok (put pl g mg1) g mg1 p t (sm_space am =? 0) Hg1 Hl1 Hl2) as (mg2 & l' & Ed & Hg2 & (lm & ->) & L1 & L2 & C1 & C2). unfold record_alloc. rewrite (get_mg_ok _ _ _ Hg1). cbn [mbind res_bind].
  rewrite (get_ms_ok mg1 p (with_map msp sm)) by apply lookup_insert_eq. cbn [mbind res_bind ms_allocmap with_map]. rewrite idx_0, E1. cbn [mbind res_bind]. rewrite Ed. cbn [mbind res_bind]. rewrite E2. cbn [mbind res_bind]. rewrite E3. cbn [mbind res_bind].
  rewrite (get_mg_ok _ _ _ Hg2). cbn [mbind res_bind]. fold msp'. set (mg3 := set_ms (with_ms_list mg1 lm) p msp'). rewrite (proj1 (set_mg_ok _ g _ mg3 Hg2)). eexists. split; [done|].
  replace (put (set_vdev_list (put (put pl g mg1) g _) l') g mg3) with (set_vdev_list (put pl g mg3) l') by (unfold set_vdev_list, put; cbn; f_equal; by rewrite !list_insert_insert_eq).
  apply (commit_ok s pl X g mg mg3 k p msp msp' _ t (sm_space am =? 0) lm l'); try done.
  - split; try done. cbn. by rewrite insert_insert_eq.
  - by eapply slab_taken; [..|apply HL|].
  - destruct Hemp as [->|(y & Hy)]; [by left|right]. exists y. by left.
  - intros t'. apply need_assigned.
  - intros Hid. by apply (idle_assigned msp msp' _ _ _ OFree).
Qed.
End use.
End MetaslabUse.

Import MetaslabUse.

Module MetaslabPlace.

Section place.
Context {T I D : Type} {HT : Tree T I} {HK : Kmem} {HD : Dmu D} {HB : DmuObjects D} {HE : SpaEnv} {HTL : TreeLaws T I} {HKL : KmemLaws} {HDL : DmuLaws D} {HBL : DmuObjectLaws D}.
Implicit Types (pl : pool T D) (mg : metaslab_group T) (msp : metaslab T) (d : D) (h : gmap Z (metaslab T)).

(** ** A measure *)

(** How often a metaslab can be tried for [asize] bytes. *)
Definition rank (asize w : Z) : nat := if w <? asize then 0 else if Z.land w METASLAB_WEIGHT_SECONDARY =? 0 then 1 else 2.
Definition ranks (asize : Z) h : nat := map_fold (fun _ msp n => (rank asize (ms_weight msp) + n)%nat) 0%nat h.

Lemma ranks_insert asize h p msp : h !! p = None -> ranks asize (<[p := msp]> h) = (rank asize (ms_weight msp) + ranks asize h)%nat.
Proof. intros E. unfold ranks. rewrite map_fold_insert_L; [done|intros; lia|done]. Qed.

Lemma ranks_set asize h p msp msp' : h !! p = Some msp -> (ranks asize (<[p := msp']> h) + rank asize (ms_weight msp) = ranks asize h + rank asize (ms_weight msp'))%nat.
Proof.
  intros E. rewrite <- insert_delete_eq, ranks_insert by apply lookup_delete_eq. rewrite <- (insert_delete_id h p msp E) at 2. rewrite ranks_insert by apply lookup_delete_eq. lia.
Qed.

Lemma ranks_bound asize h : (ranks asize h <= 2 * size h)%nat.
Proof.
  induction h as [|p msp h Hp IH] using map_ind; [done|]. rewrite ranks_insert, map_size_insert_None by done. unfold rank. repeat case_match; lia.
Qed.

(** The weight of a metaslab that is passivated. *)
Lemma ldiff_mask w : 0 <= w < 2 ^ 64 -> 0 <= Z.ldiff w METASLAB_ACTIVE_MASK < 2 ^ 62 /\ Z.ldiff w METASLAB_ACTIVE_MASK <= w.
Proof.
  intros Hw. assert (E : Z.ldiff w METASLAB_ACTIVE_MASK = w mod 2 ^ 62).
  { apply Z.bits_inj'. intros i Hi. rewrite Z.ldiff_spec, <- Z.land_ones, Z.land_spec, Z.testbit_ones_nonneg by lia. change METASLAB_ACTIVE_MASK with (Z.shiftl 3 62). rewrite Z.shiftl_spec by lia. destruct (Z.ltb_spec i 62); [by rewrite (Z.testbit_neg_r 3) by lia|].
    rewrite andb_false_r. destruct (Z.lt_ge_cases i 64) as [Hlt|Hge].
    - assert (i = 62 \/ i = 63) as [->| ->] by lia; apply andb_false_r.
    - assert (Eb : Z.testbit w i = false); [|by rewrite Eb]. apply Z.testbit_false; [done|]. rewrite Z.div_small; [done|]. split; [lia|]. apply Z.lt_le_trans with (2 ^ 64); [lia|]. apply Z.pow_le_mono_r; lia. }
  rewrite E. dlia.
Qed.

(** ** One try *)

Lemma pool_group s pl X g mg mg1 p msp msp1 : pool_ok s pl X -> top pl g = Some mg -> group_ok (fun _ => s) (spa_mos pl) mg1 (X g) -> ring_same mg mg1 -> mg_slabs mg !! p = Some msp -> mg_slabs mg1 = <[p := msp1]> (mg_slabs mg) ->
  ms_smo msp1 = ms_smo msp -> ms_smo_syncing msp1 = ms_smo_syncing msp -> set_mg pl g mg1 = Ok (put pl g mg1) /\ pool_ok s (put pl g mg1) X /\ pool_frame pl (put pl g mg1) /\ top (put pl g mg1) g = Some mg1.
Proof using All.
  intros Hok Hg Hgr (R1 & R2 & R3 & R4 & R5 & R6) Hp Es E1 E2. pose proof Hok as [Hi Hd]. pose proof (set_list_same (put pl g mg1)) as El. split; [by apply (set_mg_ok pl g mg)|]. split; [|split].
  - rewrite <- El. apply (pool_step s pl X X g mg); try done; [by rewrite R1|by eapply objects_upd|apply Hi|apply Hi|]. eapply (dirty_upd s (on_list pl g) mg mg1 (X g) p msp msp1); try done; [by apply Hd|by rewrite R1].
  - rewrite <- El. apply (pool_frame_put pl g mg); [done|]. split_and!; try done; [exists (vdev_ms_list (mg_vd mg)); rewrite R1; by destruct (mg_vd mg)|]. rewrite Es. apply dom_insert_lookup_L. by eexists.
  - rewrite (proj2 (set_mg_ok pl g mg mg1 Hg)). by rewrite decide_True.
Qed.

(** A range of a metaslab of the group was free and is now allocated; or there was none. *)
Definition placed (s : Z) (X : Z -> Z -> sx) (g : Z) mg (asize t : Z) pl' (off : Z) : Prop :=
  (off = 2 ^ 64 - 1 /\ pool_ok s pl' X) \/
  (off <> 2 ^ 64 - 1 /\ exists k p, vdev_ms (mg_vd mg) !! k = Some p /\ is_Some (mg_slabs mg !! p) /\ geo_fits (slab_geo (mg_vd mg) (Z.of_nat k)) off asize /\ (forall y, inside off asize y -> own (x_gh (X g p)) y = OFree) /\
    pool_ok s pl' (x_assign X g p off asize (OAlloc t))).

Lemma rank_pos asize w : asize <= w -> (0 < rank asize w)%nat.
Proof. intros H. unfold rank. rewrite (proj2 (Z.ltb_ge _ _)) by done. case_match; lia. Qed.

Lemma rank_zero asize w : w < asize -> rank asize w = 0%nat.
Proof. intros H. unfold rank. by rewrite (proj2 (Z.ltb_lt _ _)). Qed.

Lemma secondary_low w : 0 <= w < 2 ^ 62 -> Z.land w METASLAB_WEIGHT_SECONDARY = 0.
Proof.
  intros Hw. apply Z.bits_inj'. intros i Hi. rewrite Z.land_spec, Z.bits_0. change METASLAB_WEIGHT_SECONDARY with (2 ^ 62). destruct (Z.eq_dec i 62) as [->|Hne]; [|rewrite Z.pow2_bits_false by lia; apply andb_false_r].
  assert (E : Z.testbit w 62 = false); [|by rewrite E]. apply Z.testbit_false; [done|]. by rewrite Z.div_small.
Qed.

Lemma group_try_ok s pl X g mg psize asize t md dva flags aw : pool_ok s pl X -> top pl g = Some mg -> s <= t <= s + 2 -> 0 < asize <= 2 ^ 62 -> asize mod 2 ^ vdev_ashift (mg_vd mg) = 0 ->
  aw = METASLAB_WEIGHT_PRIMARY \/ aw = METASLAB_WEIGHT_SECONDARY ->
  exists r, group_try pl g psize asize t md dva flags aw = Ok r /\ match r with
    | inl pl1 => pool_ok s pl1 X /\ pool_frame pl pl1 /\ exists mg1, top pl1 g = Some mg1 /\ (ranks asize (mg_slabs mg1) < ranks asize (mg_slabs mg))%nat
    | inr (pl1, off) => pool_frame pl pl1 /\ placed s X g mg asize t pl1 off end.
Proof using All.
  intros Hok Hg Ht Hsz Hal Haw. pose proof Hok as [Hi Hd]. pose proof (pi_group _ _ _ Hi g mg Hg) as Hgr. unfold group_try. rewrite (get_mg_ok _ _ _ Hg). cbn [mbind res_bind]. destruct (go_tree _ _ _ _ Hgr) as [tl Htr].
  destruct (group_search_ok g mg tl dva asize aw md Htr) as [(lo & p & hi & msp & -> & _ & Hp & Hw & _)|[-> _]]; cbn [mbind res_bind]; [|eexists; split; [done|]; split; [apply pool_frame_refl|by left]].
  case_match eqn:Ef; [eexists; split; [done|]; split; [apply pool_frame_refl|by left]|]. clear Ef. rewrite (get_ms_ok _ _ _ Hp). cbn [mbind res_bind]. rewrite (proj2 (Z.ltb_ge _ _)) by done. cbn [orb andb negb Z.eqb].
  destruct (group_index _ _ _ _ _ _ Hgr Hp) as (k & Hk & Hkb & Hsl). pose proof (proj1 (so_weight _ _ _ _ _ _ Hsl)) as Hwb. pose proof (rank_pos _ _ Hw) as Hrk. destruct (negb _ && _) eqn:Es.
  - apply andb_true_iff in Es as [Es%negb_true_iff%Z.eqb_neq _]. destruct (ldiff_mask _ Hwb) as [Hl1 Hl2]. destruct (passivate_ok _ _ mg (X g) p msp _ Hgr Hp Hl1) as (mg1 & -> & Hg1 & R1 & Es1 & _). cbn [mbind res_bind].
    destruct (pool_group s pl X g mg mg1 p msp _ Hok Hg Hg1 R1 Hp Es1 eq_refl eq_refl) as (-> & Hok1 & Hf1 & Ht1). cbn [mbind res_bind]. eexists. split; [done|]. split; [done|]. split; [done|]. exists mg1. split; [done|].
    rewrite Es1. pose proof (ranks_set asize _ p msp (with_weight msp (Z.min (ms_weight msp) (Z.ldiff (ms_weight msp) METASLAB_ACTIVE_MASK))) Hp) as Hr. cbn [ms_weight with_weight] in Hr. rewrite Z.min_r in Hr by done. rewrite Z.min_r by done.
    assert (rank asize (ms_weight msp) = 2%nat) by (unfold rank; by rewrite (proj2 (Z.ltb_ge _ _)), (proj2 (Z.eqb_neq _ _)) by done). assert (rank asize (Z.ldiff (ms_weight msp) METASLAB_ACTIVE_MASK) <= 1)%nat by (unfold rank; rewrite secondary_low by done; case_match; cbn; lia). lia.
  - clear Es. destruct (pi_class _ _ _ Hi g mg Hg) as (mc & -> & Emc). cbn [mbind res_bind]. rewrite Emc. destruct (activate_ok _ _ mg (X g) p msp aw Hgr Hp Haw) as (mg1 & err & msp1 & -> & Hg1 & R1 & _ & Es1 & (sm1 & Em1) & Hr). cbn [mbind res_bind].
    assert (Hp1 : mg_slabs mg1 !! p = Some msp1) by (rewrite Es1; apply lookup_insert_eq). assert (Esmo : ms_smo msp1 = ms_smo msp /\ ms_smo_syncing msp1 = ms_smo_syncing msp) by (rewrite Em1; done). destruct Esmo as [Esmo1 Esmo2].
    destruct (pool_group s pl X g mg mg1 p msp msp1 Hok Hg Hg1 R1 Hp Es1 Esmo1 Esmo2) as (Eset & Hok1 & Hf1 & Ht1). pose proof (ranks_set asize _ p msp msp1 Hp) as Hrs. rewrite <- Es1 in Hrs. destruct Hr as [(-> & El & Ew)|(Hne & Ew & _)].
    2: { rewrite (proj2 (Z.eqb_neq err 0)) by done. cbn [negb]. rewrite Eset. cbn [mbind res_bind]. eexists. split; [done|]. split; [done|]. split; [done|]. exists mg1. split; [done|]. rewrite Ew, (rank_zero asize 0) in Hrs by lia. lia. }
    cbn [Z.eqb negb]. rewrite (get_ms_ok _ _ _ Hp1). cbn [mbind res_bind]. pose proof R1 as (Evd & _). assert (Hk1 : vdev_ms (mg_vd mg1) !! k = Some p) by (by rewrite Evd). pose proof (go_slab _ _ _ _ Hg1 k p msp1 Hk1 Hp1) as Hsl1.
    destruct (alloc_slab_ok _ _ _ _ _ _ asize (so_inv _ _ _ _ _ _ Hsl1) El Hsz) as (sm & off & -> & Ha); [change (asize mod 2 ^ vdev_ashift (mg_vd mg1) = 0); by rewrite Evd|]. cbn [mbind res_bind]. destruct Ha as [(Hno & Hfit & Hfree & HL)|(-> & Hinv & El' & _ & n & En & Hn)].
    + rewrite (proj2 (Z.eqb_neq _ _)) by done. cbn [negb]. rewrite (proj1 (set_mg_ok pl g mg _ Hg)). cbn [mbind res_bind]. rewrite <- (put_put pl g mg1). destruct (record_alloc_ok s _ X g mg1 k p msp1 sm off asize t Hok1 Ht1 Hk1 Hp1 Ht Hfit Hfree HL) as (pl2 & -> & Hok2 & Hf2). cbn [mbind res_bind].
      eexists. split; [done|]. split; [by eapply pool_frame_trans|]. right. split; [done|]. exists k, p. rewrite Evd in Hfit. by split_and!.
    + rewrite Z.eqb_refl. cbn [negb]. rewrite En. cbn [mbind res_bind]. set (mg2 := with_failures _ _). assert (Hg2 : group_ok (fun _ => s) (spa_mos pl) mg2 (X g)).
      { eapply (group_ext (fun _ => s)); [apply (map_group (fun _ => s) (spa_mos pl) mg1 (X g) k p msp1 sm Hg1 Hp1 Hk1 Hinv); by intros _|..]; try done. apply (vo_list _ (go_vd _ _ _ _ Hg1)). }
      assert (Hp2 : mg_slabs mg2 !! p = Some (with_map msp1 sm)) by apply lookup_insert_eq. destruct (passivate_ok _ _ mg2 (X g) p _ n Hg2 Hp2 ltac:(lia)) as (mg3 & -> & Hg3 & R3 & Es3 & _). cbn [mbind res_bind].
      assert (Es3' : mg_slabs mg3 = <[p := with_weight (with_map msp1 sm) (Z.min (ms_weight msp1) n)]> (mg_slabs mg1)) by (rewrite Es3; cbn; apply insert_insert_eq).
      destruct (pool_group s (put pl g mg1) X g mg1 mg3 p msp1 _ Hok1 Ht1 Hg3 R3 Hp1 Es3' eq_refl eq_refl) as (_ & Hok3 & Hf3 & Ht3). rewrite (proj1 (set_mg_ok pl g mg mg3 Hg)). cbn [mbind res_bind]. rewrite put_put in Hok3, Hf3, Ht3.
      eexists. split; [done|]. split; [done|]. split; [by eapply pool_frame_trans|]. exists mg3. split; [done|]. pose proof (ranks_set asize _ p msp1 (with_weight (with_map msp1 sm) (Z.min (ms_weight msp1) n)) Hp1) as Hr3. rewrite <- Es3' in Hr3. cbn [ms_weight with_weight] in Hr3.
      rewrite (rank_zero asize (Z.min _ n)) in Hr3 by lia. lia.
Qed.

(** ** All of them *)

(** What is placed in a pool that has changed only in ways that allocation does not see. *)
Lemma placed_frame s X g mg mg1 asize t pl' off : group_frame mg mg1 -> placed s X g mg1 asize t pl' off -> placed s X g mg asize t pl' off.
Proof.
  intros (_ & _ & _ & _ & _ & (l & Evd) & Edom) [H|(Hne & k & p & Hk & Hp & Hf & Hfr & Hok)]; [by left|right]. split; [done|]. exists k, p. rewrite Evd in Hk, Hf. split_and!; try done. apply elem_of_dom. rewrite <- Edom. by apply elem_of_dom.
Qed.

Lemma try_loop_ok s X g psize asize t md dva flags aw : s <= t <= s + 2 -> 0 < asize <= 2 ^ 62 -> aw = METASLAB_WEIGHT_PRIMARY \/ aw = METASLAB_WEIGHT_SECONDARY -> forall fuel pl mg, pool_ok s pl X -> top pl g = Some mg -> asize mod 2 ^ vdev_ashift (mg_vd mg) = 0 -> (ranks asize (mg_slabs mg) < fuel)%nat ->
  exists pl' off, loop fuel (fun pl => group_try pl g psize asize t md dva flags aw) pl = Ok (pl', off) /\ pool_frame pl pl' /\ placed s X g mg asize t pl' off.
Proof using All.
  intros Ht Hsz Haw fuel. induction fuel as [|fuel IH]; intros pl mg Hok Hg Hal Hr; [lia|]. cbn [loop]. destruct (group_try_ok s pl X g mg psize asize t md dva flags aw Hok Hg Ht Hsz Hal Haw) as (r & -> & Hpost).
  destruct r as [pl1|[pl1 off]]; [|destruct Hpost as [Hf Hp]; by exists pl1, off]. destruct Hpost as (Hok1 & Hf1 & mg1 & Hg1 & Hlt). destruct (proj2 (proj2 (proj2 Hf1)) g mg Hg) as (mg1' & E & Hgf). rewrite Hg1 in E. injection E as <-.
  pose proof Hgf as (_ & _ & _ & _ & _ & (l & Evd) & _). destruct (IH pl1 mg1 Hok1 Hg1) as (pl2 & off & E2 & Hf2 & Hp2); [by rewrite Evd|lia|]. exists pl2, off. split; [done|]. split; [by eapply pool_frame_trans|by eapply placed_frame].
Qed.

(** [metaslab_group_alloc] of a pool at work returns, without running out of metaslabs to
    try before it has tried them all: with a range that was free, and now belongs to the
    group it was allocated in, or with -1. *)
Lemma group_alloc_ok s pl X g mg psize asize t md dva flags : pool_ok s pl X -> top pl g = Some mg -> s <= t <= s + 2 -> 0 < asize <= 2 ^ 62 -> asize mod 2 ^ vdev_ashift (mg_vd mg) = 0 ->
  exists pl' off, metaslab_group_alloc pl g psize asize t md dva flags = Ok (pl', off) /\ pool_frame pl pl' /\ placed s X g mg asize t pl' off.
Proof using All.
  intros Hok Hg Ht Hsz Hal. unfold metaslab_group_alloc. assert (Eg : spa_tops pl !! Z.to_nat g = Some mg) by (unfold top in Hg; by case_decide). rewrite Eg. apply try_loop_ok; try done; [case_match; tauto|]. pose proof (ranks_bound asize (mg_slabs mg)). lia.
Qed.
End place.
End MetaslabPlace.

Import MetaslabPlace.

Module MetaslabBlock.

Section block.
Context {T I D : Type} {HT : Tree T I} {HK : Kmem} {HD : Dmu D} {HB : DmuObjects D} {HE : SpaEnv} {HTL : TreeLaws T I} {HKL : KmemLaws} {HDL : DmuLaws D} {HBL : DmuObjectLaws D}.
Implicit Types (pl : pool T D) (mg : metaslab_group T) (msp : metaslab T) (d : D).

(** ** Addresses *)

(** The address is a range of the metaslab [p] of group [g]. *)
Record dva_at pl (dva : dva_t) (g : Z) mg (k : nat) (p off size : Z) : Prop := {
  da_vdev : DVA_GET_VDEV dva = g;
  da_top : top pl g = Some mg;
  da_ms : vdev_ms (mg_vd mg) !! k = Some p;
  da_offset : DVA_GET_OFFSET dva = off;
  da_size : dva_size mg dva = size;
  da_fits : geo_fits (slab_geo (mg_vd mg) (Z.of_nat k)) off size }.

Lemma top_lt pl g mg : top pl g = Some mg -> 0 <= g < zlen (spa_tops pl).
Proof. unfold top. case_decide; [|done]. intros E%lookup_lt_Some. lia. Qed.

Lemma dva_metaslab_ok S pl X dva g mg k p off size : pool_inv S pl X -> dva_at pl dva g mg k p off size -> dva_metaslab pl dva = Ok (Some (g, p)).
Proof.
  intros Hi [E1 Hg Hk E2 E3 (F1 & F2 & F3 & _)]. pose proof (go_vd _ _ _ _ (pi_group _ _ _ Hi g mg Hg)) as Hvd. pose proof (top_lt _ _ _ Hg). pose proof (lookup_lt_Some _ _ _ Hk) as Hlt. destruct Hvd as [V1 [V2 V3] V4 _]. cbn in F2, F3.
  unfold dva_metaslab. rewrite E1, (proj2 (Z.ltb_lt _ _)) by lia. rewrite (get_mg_ok _ _ _ Hg). cbn [mbind res_bind]. rewrite E2, Z.shiftr_div_pow2 by lia. set (U := 2 ^ vdev_ms_shift (mg_vd mg)) in *. assert (0 < U) by (apply Z.pow_pos_nonneg; lia).
  assert (Ek : off / U = Z.of_nat k) by (symmetry; apply (Z.div_unique off U (Z.of_nat k) (off - Z.of_nat k * U)); lia). rewrite Ek, (proj2 (Z.leb_gt _ _)) by lia. rewrite (rd_Some _ _ p) by (lia || by rewrite Nat2Z.id). done.
Qed.

(** ** Freeing *)

Lemma free_dva_later s pl X dva g mg k p off size t : pool_ok s pl X -> dva_at pl dva g mg k p off size -> s <= t <= s + 2 -> t <= spa_freeze_txg ->
  (forall y, inside off size y -> dead (x_gh (X g p)) y = None /\ (own (x_gh (X g p)) y = OLog \/ exists b, own (x_gh (X g p)) y = OAlloc b /\ b <= t)) ->
  exists pl', metaslab_free_dva pl dva t false = Ok pl' /\ pool_ok s pl' (x_bury X g p off size t) /\ pool_frame pl pl'.
Proof using All.
  intros Hok Hda Ht Hfz Hal. pose proof Hok as [Hi Hd]. pose proof Hda as [E1 Hg Hk E2 E3 Hfit]. pose proof (pi_group _ _ _ Hi g mg Hg) as Hgr. pose proof (vo_list _ (go_vd _ _ _ _ Hgr)) as Hl1. pose proof (pi_list _ _ _ Hi) as Hl2.
  destruct (proj1 (go_ms _ _ _ _ Hgr p) ltac:(by eapply list_elem_of_lookup_2)) as [msp Hp]. pose proof (go_slab _ _ _ _ Hgr k p msp Hk Hp) as Hsl.
  destruct (bury_inv _ _ _ _ _ _ off size t (so_inv _ _ _ _ _ _ Hsl) Hfit Ht Hal) as (fm & fm' & l & F1 & F2 & F3 & Hinv & Hemp). set (msp' := with_freemap msp l) in *.
  destruct (dirty_if_ok pl g mg p t (sm_space fm =? 0) Hg Hl1 Hl2) as (mg2 & l' & Ed & Hg2 & (lm & ->) & L1 & L2 & C1 & C2).
  unfold metaslab_free_dva. rewrite Z.gtb_ltb, (proj2 (Z.ltb_ge _ _)) by done. rewrite (dva_metaslab_ok _ _ _ _ _ _ _ _ _ _ Hi Hda). cbn [mbind res_bind]. rewrite (get_mg_ok _ _ _ Hg). cbn [mbind res_bind]. rewrite (get_ms_ok _ _ _ Hp). cbn [mbind res_bind].
  rewrite E2, E3, idx_0, F1. cbn [mbind res_bind]. rewrite Ed. cbn [mbind res_bind]. rewrite F2. cbn [mbind res_bind]. rewrite F3. cbn [mbind res_bind]. rewrite (get_mg_ok _ _ _ Hg2). cbn [mbind res_bind]. fold msp'.
  set (mg3 := set_ms (with_ms_list mg lm) p msp'). rewrite (proj1 (set_mg_ok _ g _ mg3 Hg2)). eexists. split; [done|].
  replace (put (set_vdev_list (put pl g _) l') g mg3) with (set_vdev_list (put pl g mg3) l') by (unfold set_vdev_list, put; cbn; f_equal; by rewrite !list_insert_insert_eq).
  apply (commit_ok s pl X g mg mg3 k p msp msp' _ t (sm_space fm =? 0) lm l'); try done.
  - by destruct Hsl as [S1 S2 S3 S4].
  - destruct Hemp as [->|(y & Hy)]; [by left|right]. exists y. by right.
  - intros t' (y & [Ho|[[_ ->]|[_ Hdd]]%buried_iff]); [right; exists y; by left|by left|right; exists y; by right].
  - by intros [I1 I2 I3 I4].
Qed.

Lemma free_dva_now s pl X dva g mg k p off size t : pool_ok s pl X -> dva_at pl dva g mg k p off size -> s <= t <= s + 2 -> t <= spa_freeze_txg ->
  (forall y, inside off size y -> own (x_gh (X g p)) y = OAlloc t /\ dead (x_gh (X g p)) y = None) ->
  exists pl', metaslab_free_dva pl dva t true = Ok pl' /\ pool_ok s pl' (x_assign X g p off size OFree) /\ pool_frame pl pl'.
Proof using All.
  intros Hok Hda Ht Hfz Hal. pose proof Hok as [Hi Hd]. pose proof Hda as [E1 Hg Hk E2 E3 Hfit]. pose proof (pi_group _ _ _ Hi g mg Hg) as Hgr.
  destruct (proj1 (go_ms _ _ _ _ Hgr p) ltac:(by eapply list_elem_of_lookup_2)) as [msp Hp]. pose proof (go_slab _ _ _ _ Hgr k p msp Hk Hp) as Hsl.
  destruct (drop_inv _ _ _ _ _ _ off size t (so_inv _ _ _ _ _ _ Hsl) Hfit Ht Hal) as (am & am' & l & sm & F1 & F2 & F3 & F4 & Hinv & El & _). set (msp' := with_map (with_allocmap msp l) sm) in *. set (mg3 := set_ms mg p msp').
  unfold metaslab_free_dva. rewrite Z.gtb_ltb, (proj2 (Z.ltb_ge _ _)) by done. rewrite (dva_metaslab_ok _ _ _ _ _ _ _ _ _ _ Hi Hda). cbn [mbind res_bind]. rewrite (get_mg_ok _ _ _ Hg). cbn [mbind res_bind]. rewrite (get_ms_ok _ _ _ Hp). cbn [mbind res_bind].
  rewrite E2, E3, idx_0, F1. cbn [mbind res_bind]. rewrite F2. cbn [mbind res_bind]. rewrite F3. cbn [mbind res_bind]. rewrite F4. cbn [mbind res_bind]. fold msp'. fold mg3. rewrite (proj1 (set_mg_ok pl g mg mg3 Hg)). eexists. split; [done|].
  rewrite <- (set_list_same (put pl g mg3)). apply (commit_ok s pl X g mg mg3 k p msp msp' _ t false (vdev_ms_list (mg_vd mg)) (spa_vdev_txg_list pl)); try done; [split; try done; cbn; by destruct (mg_vd mg)|apply (vo_list _ (go_vd _ _ _ _ Hgr))|apply Hi|naive_solver|naive_solver|..].
  - destruct Hsl as [S1 S2 S3 S4]. constructor; try done; [split; [apply S3|done]|]. apply (hist_assigned _ _ _ _ _ (OAlloc t)); try done. intros y Hy. by apply Hal.
  - right. exists off. left. apply Hal. destruct Hfit as (F & _). lia.
  - intros t' (y & [[[_ ?]|[_ Ho]]%assigned_iff|Ho]); [done|right; exists y; by left|right; exists y; by right].
  - intros Hid. apply (idle_assigned msp msp' _ _ _ (OAlloc t)); try done. intros y Hy. by apply Hal.
Qed.

(** ** Claiming *)

Lemma claim_slab_ok g s d msp gh A off size : slab_inv g s d msp gh A -> sm_loaded (ms_map msp) = true -> geo_fits g off size ->
  exists b, space_map_contains (ms_map msp) off size = Ok b /\ (b = true <-> forall y, inside off size y -> own gh y = OFree) /\
    (b = true -> exists sm, space_map_claim (ms_map msp) off size = Ok sm /\ loaded_map g sm (fun y => own gh y = OFree /\ ~ inside off size y)).
Proof using All.
  intros Hi El Hf. pose proof (map_loaded _ _ _ (si_map _ _ _ _ _ _ Hi) El) as HL. pose proof HL as (Hgeo & _ & _ & Eo & l & Hms & Hsp). pose proof (MetaslabOk.ms_map _ _ Hms) as Hok. pose proof (has_geo_fits _ _ _ _ Hgeo Hf) as Hfit.
  destruct (space_map_contains_ok (ms_map msp) l off size Hok) as (b & E & Hb).
  { destruct Hfit as (F1 & F2 & F3 & F4 & F5), Hf as (_ & G2 & G3 & _). destruct (si_geo _ _ _ _ _ _ Hi) as [K1 K2 K3 K4 K5 K6]. split_and!; try done; lia. }
  exists b. split; [done|]. assert (Hiff : b = true <-> forall y, inside off size y -> own gh y = OFree).
  { rewrite Hb. split; intros H y Hy; [by apply Hsp, H|]. apply Hsp. split; [by eapply geo_in|by apply H]. }
  split; [done|]. intros Hbt. destruct (space_map_remove_ok (ms_map msp) l off size Hok Hfit) as (sm & l' & Er & Hok' & Hfr & _ & Hx); [by apply Hb|]. exists sm. rewrite claim_plain by done. split; [done|].
  eapply loaded_framed; [exact HL|done|done|done|]. intros y. rewrite Hx, Hsp. tauto.
Qed.

(** The group of a metaslab that is claimed: activated if it is to be written, loaded in
    any case. *)
Lemma claim_load_ok s pl X g mg k p msp t : pool_ok s pl X -> top pl g = Some mg -> vdev_ms (mg_vd mg) !! k = Some p -> mg_slabs mg !! p = Some msp ->
  exists mg' msp' err, (if (negb (t =? 0) && spa_writeable) || negb (sm_loaded (ms_map msp)) then metaslab_activate mg zfs_metaslab_ops (spa_mos pl) p METASLAB_WEIGHT_SECONDARY else Ok (mg, 0)) = Ok (mg', err) /\
    top (put pl g mg') g = Some mg' /\ pool_ok s (put pl g mg') X /\ pool_frame pl (put pl g mg') /\ mg_slabs mg' !! p = Some msp' /\ vdev_ms (mg_vd mg') !! k = Some p /\ mg_vd mg' = mg_vd mg /\
    ((err = 0 /\ sm_loaded (ms_map msp') = true) \/ (err <> 0 /\ exists off size, (dmu_read (spa_mos pl) (smo_object (ms_smo msp)) off size).1 = err)).
Proof using All.
  intros Hok Hg Hk Hp. pose proof Hok as [Hi Hd]. pose proof (pi_group _ _ _ Hi g mg Hg) as Hgr. destruct (_ || _) eqn:Eb.
  - destruct (activate_ok _ _ _ _ p msp METASLAB_WEIGHT_SECONDARY Hgr Hp ltac:(by right)) as (mg' & err & msp' & E & Hg' & Hr & Hf & Es & (sm & Em) & Hc). exists mg', msp', err. pose proof Hr as (R1 & R2 & R3 & R4 & R5 & R6).
    assert (E1 : ms_smo msp' = ms_smo msp /\ ms_smo_syncing msp' = ms_smo_syncing msp) by (by rewrite Em). destruct E1 as [E1 E2].
    split; [done|]. split; [rewrite (proj2 (set_mg_ok pl g mg mg' Hg)); by rewrite decide_True|]. rewrite <- (set_list_same (put pl g mg')).
    split_and!; [|apply (pool_frame_put pl g mg); [done|]|rewrite Es; apply lookup_insert_eq|by rewrite R1|done|destruct Hc as [(-> & El & _)|(Hne & _ & Hrd)]; [by left|by right]].
    + apply (pool_step s pl X X g mg mg'); try done; [by rewrite R1|by eapply objects_upd|apply Hi|apply Hi|]. apply (dirty_upd s _ mg mg' (X g) p msp msp'); try done; [by apply Hd|by rewrite R1].
    + split_and!; try done; [exists (vdev_ms_list (mg_vd mg)); rewrite R1; by destruct (mg_vd mg)|]. rewrite Es. apply dom_insert_lookup_L. by eexists.
  - apply orb_false_iff in Eb as [_ El]. apply negb_false_iff in El. exists mg, msp, 0. assert (Ep : put pl g mg = pl).
    { unfold put. rewrite list_insert_id; [by destruct pl|]. unfold top in Hg. by case_decide. }
    rewrite Ep. split_and!; try done; [apply pool_frame_refl|by left].
Qed.

(** A claim finds the range free or fails; with a group [t] it is allocated in it. *)
Lemma claim_dva_ok s pl X dva g mg k p msp off size t : pool_ok s pl X -> dva_at pl dva g mg k p off size -> mg_slabs mg !! p = Some msp -> t = 0 \/ s <= t <= s + 2 -> spa_writeable = true ->
  exists pl' err, metaslab_claim_dva pl dva t = Ok (pl', err) /\ pool_frame pl pl' /\
    ((err = 0 /\ (forall y, inside off size y -> own (x_gh (X g p)) y = OFree) /\ pool_ok s pl' (if t =? 0 then X else x_assign X g p off size (OAlloc t))) \/
     (err = ENOENT /\ ~ (forall y, inside off size y -> own (x_gh (X g p)) y = OFree) /\ pool_ok s pl' X) \/
     (err <> 0 /\ pool_ok s pl' X /\ exists off size, (dmu_read (spa_mos pl) (smo_object (ms_smo msp)) off size).1 = err)).
Proof using All.
  intros Hok Hda Hp Ht Hw. pose proof Hok as [Hi Hd]. pose proof Hda as [E1 Hg Hk E2 E3 Hfit]. destruct (pi_class _ _ _ Hi g mg Hg) as (mc & Emc & Eops). pose proof (si_txg _ _ _ _ _ _ (so_inv _ _ _ _ _ _ (go_slab _ _ _ _ (pi_group _ _ _ Hi g mg Hg) k p msp Hk Hp))) as Hs.
  unfold metaslab_claim_dva. rewrite (dva_metaslab_ok _ _ _ _ _ _ _ _ _ _ Hi Hda). cbn [mbind res_bind]. rewrite (get_mg_ok _ _ _ Hg). cbn [mbind res_bind]. rewrite (get_ms_ok _ _ _ Hp). cbn [mbind res_bind]. rewrite Emc. cbn [mbind res_bind]. rewrite Eops, E2, E3.
  destruct (claim_load_ok s pl X g mg k p msp t Hok Hg Hk Hp) as (mg' & msp' & err & Ea & Hg' & Hok' & Hfr & Hp' & Hk' & Evd & Hc). rewrite Ea. cbn [mbind res_bind]. rewrite (proj1 (set_mg_ok pl g mg mg' Hg)). cbn [mbind res_bind]. rewrite (get_ms_ok _ _ _ Hp'). cbn [mbind res_bind].
  destruct Hc as [[-> El]|[Hne Hrd]].
  2: { rewrite (proj2 (Z.eqb_neq err 0)) by done. cbn [mbind res_bind]. rewrite (proj2 (Z.eqb_neq err 0)) by done. cbn [negb orb]. eexists _, err. split; [done|]. split; [done|]. right. right. by split_and!. }
  pose proof (go_slab _ _ _ _ (pi_group _ _ _ (proj1 Hok') g mg' Hg') k p msp' Hk' Hp') as Hsl. rewrite <- Evd in Hfit. destruct (claim_slab_ok _ _ _ _ _ _ off size (so_inv _ _ _ _ _ _ Hsl) El Hfit) as (b & Eb & Hb & Hcl). cbn [Z.eqb]. rewrite Eb. cbn [mbind res_bind].
  destruct b; [|eexists _, ENOENT; split; [done|]; split; [done|]; right; left; split; [done|]; split; [by intros ?%Hb|done]]. pose proof (proj1 Hb eq_refl) as Hfree. cbn [Z.eqb negb orb]. destruct (Z.eqb_spec t 0) as [->|Hnt].
  { eexists _, 0. split; [done|]. split; [done|]. left. by split_and!. }
  destruct (Hcl eq_refl) as (sm & Ec & HL). rewrite Ec. cbn [mbind res_bind]. rewrite (proj1 (set_mg_ok (put pl g mg') g mg' _ Hg')). cbn [mbind res_bind]. rewrite Hw. destruct Ht as [|Ht]; [done|].
  destruct (record_alloc_ok s (put pl g mg') X g mg' k p msp' sm off size t Hok' Hg' Hk' Hp' Ht Hfit Hfree HL) as (pl' & Er & Hok2 & Hfr2). rewrite Er. cbn [mbind res_bind]. exists pl', 0. split; [done|]. split; [by eapply pool_frame_trans|]. left. by split_and!.
Qed.
End block.
End MetaslabBlock.
