(* ===== verification/MetaslabPass.v ===== *)
(** Syncing the metaslabs of a pool: each writes to its own log.

    The passes of a transaction group over the vdevs and metaslabs that are dirty. *)

From S2P Require Import Prelude Avl AvlSpec OrdTree SpaceMap SpaceSet SpaceMapOk SpaceMapWalk SpaceMapRanges SpaceMapSpec SpaceLog SpaceSync SpaceLoad SpaceLogSpec MetaslabInv Metaslab MetaslabOk MetaslabSpec TxgList MetaslabSync MetaslabCycle RaidzMap Blkptr MetaslabGroup MetaslabTree MetaslabPool MetaslabBlock.
Import SpaceMap SpaceSet SpaceMapOk SpaceMapCut SpaceMapWalk SpaceMapRanges SpaceMapSpec SpaceLog SpaceEntry SpaceSync SpaceLoad SpaceLogSpec SpaceFrame Metaslab MetaslabPick MetaslabOk MetaslabSpec TxgList MetaslabSync MetaslabSlab MetaslabInv MetaslabWrite MetaslabTurn MetaslabTake Blkptr MetaslabGroup MetaslabTree MetaslabPool MetaslabState MetaslabUse MetaslabPlace MetaslabBlock.
Open Scope Z_scope.

Module MetaslabRound.

(** ** The same ghosts *)

Record x_same (x y : sx) : Prop := {
  xs_gh a : own (x_gh y) a = own (x_gh x) a /\ dead (x_gh y) a = dead (x_gh x) a;
  xs_A a : x_A y a <-> x_A x a;
  xs_A1 a : x_A1 y a <-> x_A1 x a;
  xs_A2 a : x_A2 y a <-> x_A2 x a }.

#[export] Instance x_same_equiv : Equivalence x_same.
Proof.
  split; [by split|intros x y [H1 H2 H3 H4]; split; intros a; [destruct (H1 a); by split|by rewrite H2|by rewrite H3|by rewrite H4]|].
  intros x y z [H1 H2 H3 H4] [J1 J2 J3 J4]. split; intros a; [destruct (H1 a), (J1 a); split; congruence|by rewrite J2|by rewrite J3|by rewrite J4].
Qed.

#[export] Instance x_sync_proper s : Proper (x_same ==> x_same) (x_sync s).
Proof. intros x y [H1 H2 H3 H4]. split; try done. intros a. cbn. by destruct (H1 a) as [-> ->]. Qed.

#[export] Instance x_turn_proper s : Proper (x_same ==> x_same) (x_turn s).
Proof. intros x y [H1 H2 H3 H4]. split; [|..|done|done]; intros a; cbn; destruct (H1 a) as [E1 E2]; by rewrite E1, ?E2. Qed.

#[export] Instance need_proper : Proper (x_same ==> eq ==> iff) need.
Proof. intros x y [H1 _ _ _] t _ <-. unfold need. split; intros [a Ha]; exists a; destruct (H1 a) as [E1 E2]; congruence. Qed.

#[export] Instance hist_proper g s : Proper (x_same ==> iff) (hist_ok g s).
Proof.
  intros x y [H1 H2 H3 H4]. unfold hist_ok. split; intros H a Ha; specialize (H a Ha).
  - by rewrite H3, H4, (proj1 (H1 a)).
  - by rewrite <- H3, <- H4, <- (proj1 (H1 a)).
Qed.

Lemma x_sync_idle s x : ~ need x s -> x_same x (x_sync s x).
Proof.
  intros Hn. split; try done. intros a. apply synced_same; intros E; apply Hn; exists a; tauto.
Qed.

Lemma x_sync_done s x : ~ need (x_sync s x) s.
Proof. intros [a [[_ H]%synced_alloc|[_ H]%synced_dead]]; done. Qed.

Lemma x_sync_twice s x : x_same (x_sync s x) (x_sync s (x_sync s x)).
Proof. apply x_sync_idle, x_sync_done. Qed.

Section round.
Context {T I D : Type} {HT : Tree T I} {HK : Kmem} {HD : Dmu D} {HB : DmuObjects D} {HE : SpaEnv} {HTL : TreeLaws T I} {HKL : KmemLaws} {HDL : DmuLaws D} {HBL : DmuObjectLaws D}.
Implicit Types (pl : pool T D) (mg : metaslab_group T) (msp : metaslab T) (d : D).

#[export] Instance idle_proper msp : Proper (x_same ==> iff) (idle msp).
Proof.
  intros x y Hs. assert (Himp : forall x y, x_same x y -> idle msp x -> idle msp y); [|split; apply Himp; [done|by symmetry]].
  clear x y Hs. intros x y [H1 H2 _ _] [I1 I2 I3 I4]. split; [|..|done].
  - intros a. by rewrite H2, (proj1 (H1 a)).
  - intros a. by rewrite (proj1 (H1 a)).
  - intros a b. by rewrite (proj1 (H1 a)).
Qed.

Lemma slab_same vd s d k msp x y : x_same x y -> slab_ok vd s d k msp x -> slab_ok vd s d k msp y.
Proof using All.
  intros Hs [Hi Hd Hw Hh]. constructor; try done; [|by rewrite <- Hs]. apply (slab_inv_ext _ _ _ _ (x_gh x)); [|apply Hs]. destruct Hi as [Hg Htx Hv Hou Sa Sf Sd Hm Hl Hrm Hsmo HA Hun Hds]. constructor; try done.
  - intros a Ha. rewrite (xs_A _ _ Hs). by apply HA.
  - intros E. destruct (Hun E) as (U1 & U2 & U3 & U4 & U5). split_and!; try done; [|intros a Ha; rewrite (xs_A _ _ Hs); by apply U4]. eapply log_of_ext; [exact U1|]. intros a _. by rewrite (xs_A _ _ Hs).
Qed.

(** The ghosts of a pool are known up to what does not matter. *)
Lemma pool_same S S' pl X Y : (forall g mg p, top pl g = Some mg -> is_Some (mg_slabs mg !! p) -> S' g p = S g p /\ x_same (X g p) (Y g p)) -> pool_inv S pl X -> pool_inv S' pl Y.
Proof using All.
  intros Hs [H1 H2 H3 H4 H5 H6 H7 H8]. constructor; try done. intros g mg Hg. destruct (H1 g mg Hg) as [G1 G2 G3 G4]. constructor; try done. intros k p msp Hk Hp.
  destruct (Hs g mg p Hg ltac:(by eexists)) as [-> Hx]. eapply slab_same; [exact Hx|]. by apply G4.
Qed.

Lemma dirty_same s R R' mg X Y : (forall t, R t -> R' t) -> (forall p, is_Some (mg_slabs mg !! p) -> x_same (X p) (Y p)) -> group_dirty s R mg X -> group_dirty s R' mg Y.
Proof using All.
  intros HR Hs [H1 H2 H3]. constructor.
  - intros p t Hp Ht. rewrite <- (Hs p Hp). by apply H1.
  - intros p msp Hp. rewrite <- (Hs p ltac:(by eexists)). by apply H2.
  - intros p t Hp. destruct (H3 p t Hp). split; [done|by apply HR].
Qed.

(** ** The frame of a log *)

Lemma slab_frame vd s d d' k msp x (W : Z -> Prop) : slab_ok vd s d k msp x -> untouched W d d' -> (smo_object (ms_smo_syncing msp) <> 0 -> ~ W (smo_object (ms_smo_syncing msp))) ->
  dmu_word d' (vdev_ms_array vd) k = dmu_word d (vdev_ms_array vd) k -> slab_ok vd s d' k msp x.
Proof using All.
  intros [Hi Hd Hw Hh] Hu Ho Ea. pose proof Hd as [[D1 D1'] D2 D3 D4]. destruct (Hu _ D1) as [D1'' _]. set (o := smo_object (ms_smo_syncing msp)) in *.
  assert (Hlog : forall smo P, smo_objsize smo = 0 \/ (smo_object smo = o /\ o <> 0) -> log_of (slab_geo vd k) smo d P -> log_of (slab_geo vd k) smo d' P).
  { intros smo P [E|[E Hne]] HL; [destruct smo as [o1 n1 a1]; cbn in E; subst n1; destruct HL as [L1 L2]; by split|]. eapply log_of_words; [|exact HL]. rewrite E. apply (Hu _ (proj1 (D4 Hne))). by apply Ho. }
  assert (Hsy : smo_objsize (ms_smo_syncing msp) = 0 \/ o <> 0) by (destruct (decide (o = 0)) as [E|]; [left; by apply D2|by right]).
  constructor; try done.
  - destruct Hi as [Hg Htx Hv Hou Sa Sf Sd Hm Hl Hrm Hsmo HA Hun Hds]. constructor; try done; [apply Hlog; [tauto|done]|]. intros E. destruct (Hun E) as (U1 & U2 & U3 & U4). split; [|done]. apply Hlog; [|done].
    destruct U3 as [U3|U3]; [by left|]. destruct Hsy as [Hsy|Hsy]; [left|by right]. pose proof (proj1 (proj1 (proj1 U1))). lia.
  - constructor; [done|done|by rewrite Ea|]. intros Hne. destruct (D4 Hne) as [D5 D6]. destruct (Hu _ D5) as [D7 D8]. split; [done|]. etrans; [apply (D8 (Ho Hne))|done].
Qed.

(** A log is of no other metaslab and is not an array. *)
Lemma step_objects S pl X g mg k p msp d' smo' : pool_inv S pl X -> top pl g = Some mg -> mg_slabs mg !! p = Some msp -> disk_step (vdev_ms_array (mg_vd mg)) k (spa_mos pl) (ms_smo_syncing msp) d' smo' ->
  (forall g' mg', top pl g' = Some mg' -> smo_object smo' <> vdev_ms_array (mg_vd mg')) /\
  (forall g' p' o, object_of pl g' p' o -> o <> 0 -> g' <> g \/ p' <> p -> o <> smo_object smo').
Proof using All.
  intros Hi Hg Hp [D1 D2 D3 D4]. assert (Hobj : object_of pl g p (smo_object (ms_smo_syncing msp))) by by exists mg, msp. split.
  - intros g' mg' Hg'. destruct D2 as [->|[E Hn]]; [by apply (pi_array _ _ _ Hi g p _ g')|]. intros E'. apply Hn. rewrite E'. by apply (pi_nonzero _ _ _ Hi g').
  - intros g' p' o (mg' & msp' & Hg' & Hp' & Eo) Hne Hgp. destruct D2 as [->|[E Hn]].
    + intros ->. destruct (pi_object _ _ _ Hi g p g' p' _ Hobj) as [-> ->]; [by exists mg', msp'|done|]. tauto.
    + intros ->. apply Hn. destruct (group_index _ _ _ _ _ _ (pi_group _ _ _ Hi g' mg' Hg') Hp') as (k' & _ & _ & Hsl). rewrite <- Eo. apply (di_has _ _ _ _ (so_disk _ _ _ _ _ _ Hsl)). congruence.
Qed.

Lemma index_inj S d mg X j k p : group_ok S d mg X -> vdev_ms (mg_vd mg) !! j = Some p -> vdev_ms (mg_vd mg) !! k = Some p -> j = k.
Proof.
  intros Hg Hj Hk. destruct (proj1 (go_ms _ _ _ _ Hg p) ltac:(by eapply list_elem_of_lookup_2)) as [m Hm].
  pose proof (proj1 (mo_geo _ _ _ (si_map _ _ _ _ _ _ (so_inv _ _ _ _ _ _ (go_slab _ _ _ _ Hg j p m Hj Hm))))) as E1. pose proof (proj1 (mo_geo _ _ _ (si_map _ _ _ _ _ _ (so_inv _ _ _ _ _ _ (go_slab _ _ _ _ Hg k p m Hk Hm))))) as E2.
  cbn in E1, E2. assert (0 < 2 ^ vdev_ms_shift (mg_vd mg)) by (apply Z.pow_pos_nonneg; [lia|]; pose proof (vo_shift _ (go_vd _ _ _ _ Hg)); lia). nia.
Qed.

(** A metaslab of the pool is synced, and moves to the list [l]. *)
Definition moved mg (p : Z) msp' (l : txg_list) : metaslab_group T := with_vd (set_ms mg p msp') (with_lists (mg_vd mg) l (vdev_dtl_list (mg_vd mg))).

Lemma moved_top pl g mg p msp' l d' g' : top pl g = Some mg -> top (set_mos (put pl g (moved mg p msp' l)) d') g' = if decide (g' = g) then Some (moved mg p msp' l) else top pl g'.
Proof. intros Hg. change (top (set_mos _ _) g') with (top (put pl g (moved mg p msp' l)) g'). apply (set_mg_ok pl g mg _ Hg). Qed.

Section one.
Variables (s : Z) (pl : pool T D) (X : Z -> Z -> sx) (g : Z) (mg : metaslab_group T) (k : nat) (p : Z) (msp msp' : metaslab T) (d' : D) (l : txg_list).
Hypotheses (Hi : pool_inv (fun _ _ => s) pl X) (Hg : top pl g = Some mg) (Hk : vdev_ms (mg_vd mg) !! k = Some p) (Hp : mg_slabs mg !! p = Some msp)
  (Hinv : slab_inv (slab_geo (mg_vd mg) (Z.of_nat k)) s d' msp' (synced s (x_gh (X g p))) (x_A (X g p)))
  (Hst : disk_step (vdev_ms_array (mg_vd mg)) (Z.of_nat k) (spa_mos pl) (ms_smo_syncing msp) d' (ms_smo_syncing msp'))
  (Hre : same_rest msp msp') (Hl : tl_ok l).

Lemma others_frame g' mg' k' p' m' : top pl g' = Some mg' -> vdev_ms (mg_vd mg') !! k' = Some p' -> mg_slabs mg' !! p' = Some m' -> g' <> g \/ p' <> p -> slab_ok (mg_vd mg') s d' (Z.of_nat k') m' (X g' p').
Proof using All.
  intros Hg' Hk' Hp' Hne. pose proof (step_objects _ _ _ _ _ _ _ _ _ _ Hi Hg Hp Hst) as [O1 O2]. pose proof (go_slab _ _ _ _ (pi_group _ _ _ Hi g' mg' Hg') k' p' m' Hk' Hp') as Hsl.
  destruct Hst as [D1 D2 D3 D4]. eapply slab_frame; [exact Hsl|exact D3|..].
  - intros Hnz [E|E]; [apply (O2 g' p' _) in E; try done; by exists mg', m'|]. revert E. apply (pi_array _ _ _ Hi g' p' _ g); [by exists mg', m'|done].
  - destruct (decide (g' = g)) as [->|Hgg].
    + assert (mg' = mg) as -> by congruence. apply D4. intros E%Nat2Z.inj. subst k'. assert (p' = p) by congruence. tauto.
    + apply (D3 _ (proj2 (pi_nonzero _ _ _ Hi g' mg' Hg'))). intros [E|E]; [by apply (O1 g' mg' Hg')|]. apply Hgg. by eapply (pi_arrays _ _ _ Hi).
Qed.

Lemma one_group : group_ok (fun _ => s) d' (moved mg p msp' l) (upd X g p (x_sync s (X g p)) g).
Proof using All.
  pose proof (pi_group _ _ _ Hi g mg Hg) as Hgr. pose proof (go_slab _ _ _ _ Hgr k p msp Hk Hp) as [S1 S2 S3 S4]. pose proof Hre as (R1 & R2 & R3 & R4 & R5). constructor.
  - eapply vd_same_ok; [| |apply (go_vd _ _ _ _ Hgr)]; [done|exact Hl].
  - destruct (go_tree _ _ _ _ Hgr) as [tl Ht]. exists tl. apply (tree_same (set_ms mg p msp')); try done. eapply tree_set; try done. by rewrite R3.
  - intros q. cbn. rewrite (go_ms _ _ _ _ Hgr q). destruct (decide (q = p)) as [->|Hne]; [rewrite lookup_insert_eq, Hp; split; by eexists|by rewrite lookup_insert_ne].
  - intros j q m Hj Hm. change (vdev_ms (mg_vd mg) !! j = Some q) in Hj. change (<[p := msp']> (mg_slabs mg) !! q = Some m) in Hm. destruct (decide (q = p)) as [->|Hne].
    + rewrite lookup_insert_eq in Hm. injection Hm as <-. rewrite (index_inj _ _ _ _ _ _ _ Hgr Hj Hk), upd_eq. constructor; [exact Hinv|exact (ds_disk _ _ _ _ _ _ Hst)| |by apply hist_synced; [apply S1|]].
      unfold weight_ok. rewrite R3, R5. exact S3.
    + rewrite lookup_insert_ne in Hm by done. rewrite upd_ne by (by right). apply (slab_ok_same (mg_vd mg)); [done|]. apply others_frame; try done. by right.
Qed.

Lemma one_object g' p' o : object_of (set_mos (put pl g (moved mg p msp' l)) d') g' p' o -> (object_of pl g' p' o /\ (g' <> g \/ p' <> p)) \/ (g' = g /\ p' = p /\ o = smo_object (ms_smo_syncing msp')).
Proof using Hg.
  intros (m & x & Em & Ex & Eo). rewrite (moved_top _ _ _ _ _ _ _ _ Hg) in Em. case_decide as Hgg; [|left; split; [by exists m, x|by left]]. subst g'. injection Em as <-. cbn in Ex. destruct (decide (p' = p)) as [->|Hne].
  - rewrite lookup_insert_eq in Ex. injection Ex as <-. by right.
  - rewrite lookup_insert_ne in Ex by done. left. split; [by exists mg, x|by right].
Qed.

Lemma one_array g' m : top (set_mos (put pl g (moved mg p msp' l)) d') g' = Some m -> exists m0, top pl g' = Some m0 /\ vdev_ms_array (mg_vd m) = vdev_ms_array (mg_vd m0) /\ mg_class m = mg_class m0.
Proof using Hg. rewrite (moved_top _ _ _ _ _ _ _ _ Hg). case_decide as Hgg; [|intros E; by exists m]. subst g'. intros [= <-]. by exists mg. Qed.

Lemma one_synced : pool_inv (fun _ _ => s) (set_mos (put pl g (moved mg p msp' l)) d') (upd X g p (x_sync s (X g p))).
Proof using All.
  pose proof (step_objects _ _ _ _ _ _ _ _ _ _ Hi Hg Hp Hst) as [O1 O2]. constructor; try apply Hi.
  - intros g' m Em. rewrite (moved_top _ _ _ _ _ _ _ _ Hg) in Em. case_decide as Hgg; [subst g'; injection Em as <-; exact one_group|]. destruct (pi_group _ _ _ Hi g' m Em) as [G1 G2 G3 G4]. constructor; try done.
    intros j q mm Hj Hq. rewrite upd_ne by (by left). apply others_frame; try done. by left.
  - intros g1 p1 g2 p2 o [[H1 N1]|(-> & -> & E1)]%one_object [[H2 N2]|(-> & -> & E2)]%one_object Ho; [by apply (pi_object _ _ _ Hi g1 p1 g2 p2 o)|..|done]; exfalso; [by apply (O2 g1 p1 o)|by apply (O2 g2 p2 o)].
  - intros g1 p1 o g2 m [[H1 _]|(-> & -> & ->)]%one_object (m0 & E0 & -> & _)%one_array; [by apply (pi_array _ _ _ Hi g1 p1 o g2)|by apply (O1 g2)].
  - intros g1 g2 m1 m2 (n1 & E1 & -> & _)%one_array (n2 & E2 & -> & _)%one_array. by apply (pi_arrays _ _ _ Hi).
  - intros g1 m1 (n1 & E1 & -> & _)%one_array. destruct (pi_nonzero _ _ _ Hi g1 n1 E1) as [N1 N2]. split; [done|]. by apply (ds_frame _ _ _ _ _ _ Hst).
  - intros g1 m1 (n1 & E1 & _ & ->)%one_array. by apply (pi_class _ _ _ Hi g1).
  - intros t q Hq%(pi_tops _ _ _ Hi). rewrite (moved_top _ _ _ _ _ _ _ _ Hg). case_decide; [by eexists|done].
Qed.
End one.
End round.
End MetaslabRound.

Import MetaslabRound.

Module MetaslabPass.

Section pass.
Context {T I D : Type} {HT : Tree T I} {HK : Kmem} {HD : Dmu D} {HB : DmuObjects D} {HE : SpaEnv} {HTL : TreeLaws T I} {HKL : KmemLaws} {HDL : DmuLaws D} {HBL : DmuObjectLaws D}.
Implicit Types (pl : pool T D) (mg : metaslab_group T) (msp : metaslab T) (d : D).

Lemma member_null S d mg X p : group_ok S d mg X -> is_Some (mg_slabs mg !! p) -> p <> NULL.
Proof. intros Hg Hp. destruct (go_tree _ _ _ _ Hg) as [l Ht]. apply (tr_seq_facts _ _ (ta_seq _ _ Ht)). by apply (ta_members _ _ Ht). Qed.

Lemma clean_idx s : TXG_IDX (TXG_CLEAN s) = TXG_IDX (s + 3).
Proof. by rewrite TXG_CLEAN_idx, TXG_IDX_mod. Qed.

Lemma clean_chain l s : chain l (TXG_CLEAN s) = chain l (s + 3).
Proof. apply chain_idx, clean_idx. Qed.

(** While the vdev [g] is on no list. *)
Definition loose (s g : Z) pl (g' t : Z) : Prop := on_list pl g' t \/ (g' = g /\ (TXG_IDX t = TXG_IDX s \/ TXG_IDX t = TXG_IDX (s + 3))).

(** Those of the metaslabs of [X] that were dirty in [s] are being synced. *)
Record syncing (R : pool T D -> Z -> Z -> Prop) (s : Z) (X : Z -> Z -> sx) pl (Y : Z -> Z -> sx) : Prop := {
  sy_inv : pool_inv (fun _ _ => s) pl Y;
  sy_dirty g mg : top pl g = Some mg -> group_dirty s (R pl g) mg (Y g);
  sy_x g p : x_same (x_sync s (X g p)) (x_sync s (Y g p));
  sy_room g mg p msp : top pl g = Some mg -> mg_slabs mg !! p = Some msp -> p ∈ chain (vdev_ms_list (mg_vd mg)) s -> smo_objsize (ms_smo_syncing msp) <= 2 ^ 62 }.

(** What syncing keeps. *)
Definition sync_frame pl pl' : Prop := spa_classes pl' = spa_classes pl /\ spa_root_stat pl' = spa_root_stat pl /\ length (spa_tops pl') = length (spa_tops pl) /\
  forall g mg, top pl g = Some mg -> exists mg', top pl' g = Some mg' /\ group_frame mg mg'.

Lemma sync_frame_refl pl : sync_frame pl pl.
Proof. split_and!; try done. intros g mg E. exists mg. split; [done|apply group_frame_refl]. Qed.

Lemma sync_frame_trans pl1 pl2 pl3 : sync_frame pl1 pl2 -> sync_frame pl2 pl3 -> sync_frame pl1 pl3.
Proof.
  intros (A1 & A2 & A3 & A4) (B1 & B2 & B3 & B4). split_and!; try congruence. intros g mg E. destruct (A4 g mg E) as (mg2 & E2 & F2). destruct (B4 g mg2 E2) as (mg3 & E3 & F3). exists mg3. split; [done|by eapply group_frame_trans].
Qed.

(** Adding to one list changes no other. *)
Lemma add_other l p t l' b t' : tl_ok l -> txg_list_add l p t = Ok (l', b) -> TXG_IDX t' <> TXG_IDX t -> chain l' t' = chain l t'.
Proof.
  intros Hl. unfold txg_list_add. rewrite (chain_rd l t Hl). bnd. case_bool_decide as Hp; [by intros [= <- <-]|]. destruct (chain_wr l t (p :: chain l t) Hl) as (l2 & -> & _ & Hc); [constructor; [done|by apply chain_nodup]|]. bnd.
  intros [= <- <-] Hne. rewrite Hc. by rewrite (proj2 (Z.eqb_neq _ _)).
Qed.

(** The lists when the head of that of [s] has moved to that of the groups that are done. *)
Lemma move_list l s p rest : tl_ok l -> chain l s = p :: rest -> p <> NULL -> exists l1 l2 b, txg_list_remove l s = Ok (l1, p) /\ txg_list_add l1 p (TXG_CLEAN s) = Ok (l2, b) /\ tl_ok l2 /\ chain l2 s = rest /\ (p ∉ rest) /\
  forall t q, q ∈ chain l2 t <-> (q ∈ chain l t /\ ~ (q = p /\ TXG_IDX t = TXG_IDX s)) \/ (q = p /\ TXG_IDX t = TXG_IDX (s + 3)).
Proof.
  intros Hl Hc Hp. pose proof (chain_nodup l s Hl) as Hnd. rewrite Hc in Hnd. apply list.NoDup_cons in Hnd as [Hnr Hnd]. assert (Hn3 : TXG_IDX (s + 3) <> TXG_IDX s) by (rewrite !TXG_IDX_mod; dlia).
  destruct (chain_remove_ok l s Hl) as (l1 & p' & E1 & Hl1 & [(Hc' & _)|(Hc' & Ho)]); [congruence|]. rewrite Hc in Hc'. injection Hc' as <- Hr. 
  assert (Hm : forall t q, q ∈ chain l1 t <-> q ∈ chain l t /\ ~ (q = p /\ TXG_IDX t = TXG_IDX s)).
  { intros t q. destruct (decide (TXG_IDX t = TXG_IDX s)) as [E|E]; [|rewrite (Ho t E); tauto]. rewrite !(chain_idx _ t s E), <- Hr, Hc, elem_of_cons. split; [intros Hq; split; [by right|intros [-> _]; done]|]. intros [[->|Hq] Hn]; [|done]. by destruct Hn. }
  destruct (chain_add_ok l1 p (TXG_CLEAN s) Hl1) as (l2 & b & E2 & Hl2 & Hc2). exists l1, l2, b. split; [done|]. split; [done|]. split; [done|]. split; [rewrite (add_other _ _ _ _ _ s Hl1 E2); [done|]; rewrite clean_idx; congruence|]. split; [done|].
  intros t q. rewrite Hc2, Hm, clean_idx. done.
Qed.

(** The dirty lists of a group one of whose metaslabs has been synced. *)
Lemma dirty_synced s (R R' : Z -> Prop) mg X Y p msp msp' l rest : group_dirty s R mg X -> mg_slabs mg !! p = Some msp -> (forall t q, q ∈ chain l t <-> (q ∈ chain (vdev_ms_list (mg_vd mg)) t /\ ~ (q = p /\ TXG_IDX t = TXG_IDX s)) \/ (q = p /\ TXG_IDX t = TXG_IDX (s + 3))) ->
  chain (vdev_ms_list (mg_vd mg)) s = p :: rest -> (forall t, R t -> R' t) -> R' (s + 3) -> (forall t t', TXG_IDX t = TXG_IDX t' -> R' t -> R' t') ->
  Y p = x_sync s (X p) -> (forall q, q <> p -> Y q = X q) -> group_dirty s R' (moved mg p msp' l) Y.
Proof using All.
  intros [H1 H2 H3] Hp Hc Hs HR HR3 HRe Ep Eq. assert (Hd : forall q, is_Some (mg_slabs (moved mg p msp' l) !! q) <-> is_Some (mg_slabs mg !! q)).
  { intros q. cbn. destruct (decide (q = p)) as [->|Hne]; [rewrite lookup_insert_eq, Hp; split; by eexists|by rewrite lookup_insert_ne]. }
  constructor.
  - intros q t Hq Ht Hn. apply Hd in Hq. change (q ∈ chain l t). rewrite Hc. destruct (decide (q = p)) as [->|Hne].
    + left. rewrite Ep in Hn. assert (Hts : t <> s) by (intros ->; by apply (x_sync_done s (X p))). split; [|intros [_ E]; apply Hts, (idx_inj s); try done; lia]. apply H1; [done|done|]. destruct Hn as [a [[Ha _]%synced_alloc|[Ha _]%synced_dead]]; exists a; tauto.
    + left. split; [|tauto]. rewrite Eq in Hn by done. by apply H1.
  - intros q m Hm N1 N2. change (q ∉ chain l s) in N1. change (q ∉ chain l (s + 3)) in N2. rewrite Hc in N1, N2. destruct (decide (q = p)) as [->|Hne]; [by destruct N2; right|]. cbn in Hm. rewrite lookup_insert_ne in Hm by done. rewrite Eq by done. apply H2; [done|..]; intros Hin; [apply N1|apply N2]; left; (split; [done|]); tauto.
  - intros q t Hq. change (q ∈ chain l t) in Hq. rewrite Hd. apply Hc in Hq as [[Hq _]|[-> E]]; [destruct (H3 q t Hq) as [Ha Hb]; split; [done|by apply HR]|]. split; [by eexists|]. by apply (HRe (s + 3)).
Qed.

Lemma slab_shift S d mg X k p : group_ok S d mg X -> vdev_ms (mg_vd mg) !! k = Some p -> Z.shiftr (g_lo (slab_geo (mg_vd mg) (Z.of_nat k))) (vdev_ms_shift (mg_vd mg)) = Z.of_nat k /\ 0 <= Z.of_nat k < 2 ^ 61.
Proof.
  intros Hg Hk. pose proof (lookup_lt_Some _ _ _ Hk) as Hlt. destruct (go_vd _ _ _ _ Hg) as [V1 V2 V3 _]. cbn. rewrite Z.shiftr_div_pow2, Z.div_mul by (try apply Z.pow_nonzero; lia). split; [done|].
  assert (2 ^ 1 <= 2 ^ vdev_ms_shift (mg_vd mg)) by (apply Z.pow_le_mono_r; lia). nia.
Qed.

Lemma sync_next_ok s X pl Y g mg pass p rest : syncing (loose s g) s X pl Y -> top pl g = Some mg -> chain (vdev_ms_list (mg_vd mg)) s = p :: rest ->
  exists pl' Y' mg', vdev_sync_next pl g pass s = Ok (inl pl') /\ syncing (loose s g) s X pl' Y' /\ top pl' g = Some mg' /\ chain (vdev_ms_list (mg_vd mg')) s = rest /\ spa_vdev_txg_list pl' = spa_vdev_txg_list pl /\ sync_frame pl pl'.
Proof using All.
  intros [Hi Hd Hx Hr] Hg Hc. pose proof (pi_group _ _ _ Hi g mg Hg) as Hgr. pose proof (Hd g mg Hg) as Hdg. destruct (gd_member _ _ _ _ Hdg p s) as [[msp Hp] _]; [rewrite Hc; left|]. pose proof (member_null _ _ _ _ p Hgr ltac:(by eexists)) as Hnp.
  destruct (group_index _ _ _ _ _ _ Hgr Hp) as (k & Hk & Hkb & Hsl). destruct (slab_shift _ _ _ _ _ _ Hgr Hk) as [Esh Hk61]. destruct (move_list _ s p rest (vo_list _ (go_vd _ _ _ _ Hgr)) Hc Hnp) as (l1 & l2 & b & E1 & E2 & Hl2 & Hc2 & Hnr & Hm).
  destruct (metaslab_sync_ok (mg_vd mg) pass (slab_geo (mg_vd mg) (Z.of_nat k)) s (spa_mos pl) msp (x_gh (Y g p)) (x_A (Y g p))) as (msp' & d' & Es & Hinv & Hst & Hre); [by rewrite Esh|apply Hsl|rewrite Esh; apply Hsl|apply (Hr g mg p); try done; rewrite Hc; left|]. rewrite Esh in Hst.
  unfold vdev_sync_next. rewrite (get_mg_ok _ _ _ Hg). cbn [mbind res_bind]. rewrite E1. cbn [mbind res_bind]. rewrite (proj2 (Z.eqb_neq _ _) Hnp), (get_ms_ok _ _ _ Hp). cbn [mbind res_bind]. rewrite Es. cbn [mbind res_bind]. rewrite E2. cbn [mbind res_bind]. fold (moved mg p msp' l2). rewrite (proj1 (set_mg_ok pl g mg _ Hg)). cbn [mbind res_bind].
  exists (set_mos (put pl g (moved mg p msp' l2)) d'), (upd Y g p (x_sync s (Y g p))), (moved mg p msp' l2). pose proof (moved_top pl g mg p msp' l2 d') as Htop. split; [done|]. split_and!; [|by rewrite Htop, decide_True|done|done|].
  - constructor.
    + by apply (one_synced s pl Y g mg k p msp msp' d' l2).
    + intros g' m Em. rewrite Htop in Em by done. case_decide as Hgg.
      * subst g'. injection Em as <-. eapply (dirty_synced s _ _ mg (Y g) _ p msp msp' l2 rest); try done; [by right; split; [|right]| |by rewrite upd_eq|intros q Hq; apply upd_ne; by right].
        intros t t' E [Ho|[_ Ho]]; [left; unfold on_list in *; by rewrite <- (chain_idx _ t t' E)|right; by rewrite <- E].
      * eapply dirty_mono; [| |exact (Hd g' m Em)]; [done|]. intros q. apply upd_ne. by left.
    + intros g' q. rewrite (Hx g' q). unfold upd. case_decide as Hq; [destruct Hq as [-> ->]; apply x_sync_twice|done].
    + intros g' m q mm Em Hq Hin. rewrite Htop in Em by done. case_decide as Hgg; [|by apply (Hr g' m q)]. subst g'. injection Em as <-. change (q ∈ chain l2 s) in Hin. rewrite Hc2 in Hin. cbn in Hq.
      rewrite lookup_insert_ne in Hq by (intros ->; done). apply (Hr g mg q); try done. rewrite Hc. by right.
  - split_and!; try done; [apply length_insert|]. intros g' m Em. rewrite Htop by done. case_decide as Hgg; [|exists m; split; [done|apply group_frame_refl]]. subst g'. eexists. split; [done|]. assert (m = mg) as -> by congruence.
    split_and!; try done; [by exists l2|]. cbn. apply dom_insert_lookup_L. by eexists.
Qed.

Lemma sync_metaslabs_ok s X g pass pl Y mg : syncing (loose s g) s X pl Y -> top pl g = Some mg ->
  exists pl' Y' mg', vdev_sync_metaslabs pl g pass s = Ok pl' /\ syncing (loose s g) s X pl' Y' /\ top pl' g = Some mg' /\ chain (vdev_ms_list (mg_vd mg')) s = [] /\ spa_vdev_txg_list pl' = spa_vdev_txg_list pl /\ sync_frame pl pl'.
Proof using All.
  unfold vdev_sync_metaslabs. intros Hs Hg. rewrite (get_mg_ok _ _ _ Hg). cbn [mbind res_bind]. assert (Hf : (length (chain (vdev_ms_list (mg_vd mg)) s) < S (length (chain (vdev_ms_list (mg_vd mg)) s)))%nat) by lia. revert Hf Hs Hg.
  generalize (S (length (chain (vdev_ms_list (mg_vd mg)) s))). intros fuel. revert pl Y mg. induction fuel as [|fuel IH]; intros pl Y mg Hf Hs Hg; [lia|]. cbn [loop]. destruct (chain (vdev_ms_list (mg_vd mg)) s) as [|p rest] eqn:Hc.
  - assert (En : vdev_sync_next pl g pass s = Ok (inr pl)).
    { unfold vdev_sync_next. rewrite (get_mg_ok _ _ _ Hg). cbn [mbind res_bind]. destruct (chain_remove_ok _ s (vo_list _ (go_vd _ _ _ _ (pi_group _ _ _ (sy_inv _ _ _ _ _ Hs) g mg Hg)))) as (l & p & -> & _ & [(_ & -> & _)|(Hc' & _)]); [done|congruence]. }
    rewrite En. exists pl, Y, mg. split_and!; try done. apply sync_frame_refl.
  - destruct (sync_next_ok s X pl Y g mg pass p rest Hs Hg Hc) as (pl1 & Y1 & mg1 & -> & Hs1 & Hg1 & Hc1 & El1 & Hf1). destruct (IH pl1 Y1 mg1) as (pl2 & Y2 & mg2 & E2 & Hs2 & Hg2 & Hc2 & El2 & Hf2); [rewrite Hc1; cbn in Hf; lia|done|done|].
    exists pl2, Y2, mg2. split_and!; try done; [congruence|by eapply sync_frame_trans].
Qed.

(** ** The vdevs *)

Lemma syncing_list (R R' : pool T D -> Z -> Z -> Prop) s X pl Y l : syncing R s X pl Y -> tl_ok l -> (forall t g, g ∈ chain l t -> is_Some (top pl g)) ->
  (forall g mg p t, top pl g = Some mg -> p ∈ chain (vdev_ms_list (mg_vd mg)) t -> R pl g t -> R' (set_vdev_list pl l) g t) -> syncing R' s X (set_vdev_list pl l) Y.
Proof.
  intros [H1 H2 H3 H4] Hl Ht HR. constructor; try done; [by apply pool_list|]. intros g mg Hg. destruct (H2 g mg Hg) as [G1 G2 G3]. constructor; try done. intros p t Hp. destruct (G3 p t Hp) as [Ha Hb]. split; [done|]. by eapply HR.
Qed.

Lemma quiet_dtls pl g mg t : top pl g = Some mg -> quiet (mg_vd mg) -> vdev_sync_dtls pl g t = Ok pl.
Proof.
  intros Hg (_ & Hl & Hc). unfold vdev_sync_dtls. rewrite (get_mg_ok _ _ _ Hg). cbn [mbind res_bind]. destruct (chain_remove_ok _ t Hl) as (l & p & -> & _ & [(_ & -> & _)|[E _]]); [done|]. by rewrite Hc in E.
Qed.

Lemma vdev_sync_ok s X pl Y g mg pass : syncing (loose s g) s X pl Y -> top pl g = Some mg ->
  exists pl' Y', vdev_sync pl g pass s = Ok pl' /\ syncing on_list s X pl' Y' /\ chain (spa_vdev_txg_list pl') s = chain (spa_vdev_txg_list pl) s /\ sync_frame pl pl'.
Proof using All.
  intros Hs Hg. unfold vdev_sync, vdev_sync_array. rewrite (get_mg_ok _ _ _ Hg). cbn [mbind res_bind]. rewrite (proj2 (Z.eqb_neq _ _) (proj1 (pi_nonzero _ _ _ (sy_inv _ _ _ _ _ Hs) g mg Hg))). cbn [andb mbind res_bind].
  rewrite (get_mg_ok _ _ _ Hg). cbn [mbind res_bind]. destruct (vo_quiet _ (go_vd _ _ _ _ (pi_group _ _ _ (sy_inv _ _ _ _ _ Hs) g mg Hg))) as [-> _]. rewrite andb_false_r. cbn [mbind res_bind].
  destruct (sync_metaslabs_ok s X g pass pl Y mg Hs Hg) as (pl1 & Y1 & mg1 & -> & Hs1 & Hg1 & Hc1 & El1 & Hf1). cbn [mbind res_bind]. rewrite (quiet_dtls pl1 g mg1 s Hg1 (vo_quiet _ (go_vd _ _ _ _ (pi_group _ _ _ (sy_inv _ _ _ _ _ Hs1) g mg1 Hg1)))). cbn [mbind res_bind]. pose proof (pi_list _ _ _ (sy_inv _ _ _ _ _ Hs1)) as Hl.
  destruct (chain_add_ok _ g (TXG_CLEAN s) Hl) as (l & b & E & Hl' & Hc). rewrite E. cbn [mbind res_bind]. exists (set_vdev_list pl1 l), Y1. split; [done|]. split; [|split; [|done]].
  - eapply syncing_list; [exact Hs1|done|intros t q [Hq|[-> _]]%Hc; [by apply (pi_tops _ _ _ (sy_inv _ _ _ _ _ Hs1) t)|by eexists]|]. intros g' m p t Em Hp Hlo. unfold on_list. cbn [spa_vdev_txg_list set_vdev_list]. rewrite Hc, clean_idx.
    destruct Hlo as [Ho|[-> [Et|Et]]]; [by left| |by right]. assert (m = mg1) as -> by congruence. rewrite (chain_idx _ t s Et), Hc1 in Hp. by apply not_elem_of_nil in Hp.
  - change (chain l s = chain (spa_vdev_txg_list pl) s). rewrite (add_other _ _ _ _ _ s Hl E), El1; [done|]. rewrite clean_idx, !TXG_IDX_mod. dlia.
Qed.

Lemma sync_vdevs_ok s X pass pl Y : syncing on_list s X pl Y ->
  exists pl' Y', spa_sync_vdevs pl pass s = Ok pl' /\ syncing on_list s X pl' Y' /\ chain (spa_vdev_txg_list pl') s = [] /\ sync_frame pl pl'.
Proof using All.
  unfold spa_sync_vdevs. intros Hs. assert (Hf : (length (chain (spa_vdev_txg_list pl) s) < S (length (chain (spa_vdev_txg_list pl) s)))%nat) by lia. revert Hf Hs. generalize (S (length (chain (spa_vdev_txg_list pl) s))). intros fuel.
  revert pl Y. induction fuel as [|fuel IH]; intros pl Y Hf Hs; [lia|]. cbn [loop]. pose proof (pi_list _ _ _ (sy_inv _ _ _ _ _ Hs)) as Hl. rewrite (chain_rd _ s Hl). cbn [mbind res_bind]. destruct (chain (spa_vdev_txg_list pl) s) as [|g rest] eqn:Hc.
  - exists pl, Y. split_and!; try done. apply sync_frame_refl.
  - destruct (chain_remove_ok _ s Hl) as (l & g' & E & Hl' & [(Hc' & _)|(Hc' & Ho)]); [congruence|]. rewrite Hc in Hc'. injection Hc' as <- Hr. rewrite E. cbn [mbind res_bind]. destruct (pi_tops _ _ _ (sy_inv _ _ _ _ _ Hs) s g) as [mg Hg]; [rewrite Hc; left|].
    assert (Hm : forall t q, q ∈ chain (spa_vdev_txg_list pl) t <-> q ∈ chain l t \/ (q = g /\ TXG_IDX t = TXG_IDX s)).
    { intros t q. destruct (decide (TXG_IDX t = TXG_IDX s)) as [Et|Et]; [rewrite !(chain_idx _ t s Et), Hc, Hr, elem_of_cons; tauto|rewrite (Ho t Et); tauto]. }
    assert (Hs1 : syncing (loose s g) s X (set_vdev_list pl l) Y).
    { eapply syncing_list; [exact Hs|done|intros t q Hq; apply (pi_tops _ _ _ (sy_inv _ _ _ _ _ Hs) t); apply Hm; by left|]. intros q m p t _ _ [Hq|[-> Et]]%Hm; [by left|right; tauto]. }
    destruct (vdev_sync_ok s X (set_vdev_list pl l) Y g mg pass Hs1 Hg) as (pl1 & Y1 & -> & Hs2 & Hc2 & Hf1). cbn [mbind res_bind]. change (chain (spa_vdev_txg_list pl1) s = chain l s) in Hc2. destruct (IH pl1 Y1) as (pl2 & Y2 & E2 & Hs3 & Hc3 & Hf2); [rewrite Hc2, <- Hr; cbn in Hf; lia|done|].
    exists pl2, Y2. split_and!; try done. by eapply sync_frame_trans.
Qed.

(** Room for what is to be written to the logs. *)
Definition log_room (s : Z) pl : Prop := forall g mg p msp, top pl g = Some mg -> mg_slabs mg !! p = Some msp -> p ∈ chain (vdev_ms_list (mg_vd mg)) s -> smo_objsize (ms_smo_syncing msp) <= 2 ^ 62.

(** Every pass of a group leaves the pool in order, with nothing left to sync. *)
Lemma spa_sync_vdevs_ok s pass pl X : pool_ok s pl X -> log_room s pl ->
  exists pl', spa_sync_vdevs pl pass s = Ok pl' /\ pool_ok s pl' (fun g p => x_sync s (X g p)) /\ chain (spa_vdev_txg_list pl') s = [] /\ sync_frame pl pl'.
Proof using All.
  intros [Hi Hd] Hr. destruct (sync_vdevs_ok s X pass pl X) as (pl' & Y & E & [Hi' Hd' Hx Hr'] & Hc & Hf); [by constructor|]. exists pl'. split; [done|]. split; [|done].
  assert (Hsame : forall g mg p, top pl' g = Some mg -> is_Some (mg_slabs mg !! p) -> x_same (Y g p) (x_sync s (X g p))).
  { intros g mg p Hg Hp. rewrite (Hx g p). apply x_sync_idle. intros Hn. pose proof (Hd' g mg Hg) as Hdg. pose proof (gd_need _ _ _ _ Hdg p s Hp ltac:(lia) Hn) as Hin.
    destruct (gd_member _ _ _ _ Hdg p s Hin) as [_ Ho]. unfold on_list in Ho. rewrite Hc in Ho. by apply not_elem_of_nil in Ho. }
  split; [eapply (pool_same (fun _ _ => s)); [|exact Hi']; intros g mg p Hg Hp; split; [done|by eapply Hsame]|]. intros g mg Hg. eapply dirty_same; [| |exact (Hd' g mg Hg)]; [done|]. intros p Hp. by eapply Hsame.
Qed.
End pass.
End MetaslabPass.
