(* ===== verification/MetaslabFinish.v ===== *)
(** The end of a transaction group: every metaslab that was written is turned to the next
    group, the others follow by themselves.

    The loops that end a transaction group. *)

From S2P Require Import Prelude Avl AvlSpec OrdTree SpaceMap SpaceSet SpaceMapOk SpaceMapWalk SpaceMapRanges SpaceMapSpec SpaceLog SpaceSync SpaceLoad SpaceLogSpec MetaslabInv Metaslab MetaslabOk MetaslabSpec TxgList MetaslabSync MetaslabCycle RaidzMap Blkptr MetaslabGroup MetaslabTree MetaslabPool MetaslabBlock MetaslabPass.
Import SpaceMap SpaceSet SpaceMapOk SpaceMapCut SpaceMapWalk SpaceMapRanges SpaceMapSpec SpaceLog SpaceEntry SpaceSync SpaceLoad SpaceLogSpec SpaceFrame Metaslab MetaslabPick MetaslabOk MetaslabSpec TxgList MetaslabSync MetaslabSlab MetaslabInv MetaslabWrite MetaslabTurn MetaslabTake Blkptr MetaslabGroup MetaslabTree MetaslabPool MetaslabState MetaslabUse MetaslabPlace MetaslabBlock MetaslabRound MetaslabPass.
Open Scope Z_scope.

Module MetaslabDone.

Section done.
Context {T I D : Type} {HT : Tree T I} {HK : Kmem} {HD : Dmu D} {HB : DmuObjects D} {HE : SpaEnv} {HTL : TreeLaws T I} {HKL : KmemLaws} {HDL : DmuLaws D} {HBL : DmuObjectLaws D}.
Implicit Types (pl : pool T D) (mg : metaslab_group T) (msp : metaslab T) (d : D).

(** ** Idle metaslabs *)

Lemma idle_turn vd s d k msp x : slab_ok vd s d k msp x -> idle msp x -> ~ need x s -> s + 1 < 2 ^ 63 -> slab_ok vd (s + 1) d k msp (x_turn s x) /\ idle msp (x_turn s x).
Proof using All.
  intros [Hi Hdk Hw Hh] [I1 I2 I3 I4] Hn Hs. pose proof Hi as [Hg Htx Hv Hou Sa Sf Sd Hm Hl Hrm Hsmo HA Hun Hds].
  assert (Ha : forall y, own (x_gh x) y <> OAlloc s) by (intros y E; apply Hn; exists y; by left). assert (Hde : forall y, dead (x_gh x) y <> Some s) by (intros y E; apply Hn; exists y; by right).
  assert (Eo : forall y, own (turned s (x_gh x)) y = own (x_gh x) y) by (intros y; cbn; specialize (I2 y); specialize (I3 y); destruct (own (x_gh x) y) as [|b| | |]; try done; by destruct (I3 b)).
  split; [|by constructor; cbn [x_A x_gh x_turn]; intros; rewrite ?Eo]. constructor; [|done|done|by apply hist_turned]. cbn [x_gh x_A x_turn]. constructor; try done; [lia|by apply turned_valid|intros y Hy; rewrite Eo; by apply Hou|..].
  - eapply slots_ext; [exact Sa|]. intros j y _ _. unfold alloc_set. by rewrite Eo.
  - eapply slots_ext; [exact Sf|]. intros j y Hj _. unfold free_set. destruct (Z.eqb_spec j ((s + 3) mod 4)) as [->|N1].
    + rewrite (proj2 (Z.eqb_neq _ _)) by dlia. split; [by intros E; destruct (I2 y)|]. intros (t & Ed & Et). destruct (va_dead _ _ Hv y t Ed) as [Ht _]. dlia.
    + destruct (Z.eqb_spec j ((s + 1 + 3) mod 4)) as [->|N2]; [|done]. split; [|by intros E%turned_freed]. intros (t & Ed & Et). destruct (va_dead _ _ Hv y t Ed) as [Ht _]. assert (t = s) as -> by dlia. by destruct (Hde y).
  - eapply slots_ext; [exact Sd|]. intros j y _ _. by rewrite Eo.
  - destruct Hm as [M1 M2 M3 M4]. constructor; try done. intros E. destruct (M3 E) as (l & L1 & L2 & L3). exists l. split_and!; try done. intros y. rewrite Eo. apply L3.
  - eapply log_of_ext; [exact Hl|]. intros y _. by rewrite Eo.
  - intros y _. rewrite Eo. tauto.
  - intros E. destruct (Hun E) as (U1 & U2 & U3 & U4 & U5). split_and!; try done; [eapply log_of_ext; [exact U1|]; intros y _; apply I1|intros y _; rewrite Eo; intros [?|?]; [done|by destruct (I2 y)]|intros y t Hy; rewrite Eo; by apply U5].
Qed.

(** ** Accounting *)

(** A class with other figures. *)
Definition class_like (mc mc' : metaslab_class) : Prop := mc_rotor mc' = mc_rotor mc /\ mc_ops mc' = mc_ops mc /\ same_space (mc_space mc) (mc_space mc').

#[export] Instance class_like_preorder : PreOrder class_like.
Proof. split; [done|]. intros a b c (A1 & A2 & A3) (B1 & B2 & B3). split_and!; [congruence|congruence|by etrans]. Qed.

Lemma pool_classes S pl X cl rs : pool_inv S pl X -> (forall c mc, get_mc pl c = Ok mc -> exists mc', rd cl c = Ok mc' /\ mc_ops mc' = mc_ops mc) -> pool_inv S (Pool (spa_mos pl) cl rs (spa_tops pl) (spa_vdev_txg_list pl)) X.
Proof.
  intros [H1 H2 H3 H4 H5 H6 H7 H8] Hc. constructor; try done. intros g mg Hg. destruct (H6 g mg Hg) as (mc & E1 & E2). destruct (Hc _ _ E1) as (mc' & E3 & E4). exists mc'. split; [exact E3|congruence].
Qed.

Lemma space_update_ok S pl X g mg a df : pool_inv S pl X -> top pl g = Some mg ->
  exists pl' st, vdev_space_update pl g a df 0 = Ok pl' /\ same_space (vs_space (vdev_stat_ (mg_vd mg))) (vs_space st) /\ pool_inv S pl' X /\ top pl' g = Some (with_vd mg (with_vd_stat (mg_vd mg) st)) /\ (forall g', g' <> g -> top pl' g' = top pl g') /\
    spa_mos pl' = spa_mos pl /\ spa_vdev_txg_list pl' = spa_vdev_txg_list pl /\ length (spa_tops pl') = length (spa_tops pl) /\ Forall2 class_like (spa_classes pl) (spa_classes pl').
Proof using All.
  intros Hi Hg. unfold vdev_space_update. rewrite (get_mg_ok _ _ _ Hg). cbn [mbind res_bind]. set (st := stat_update _ _ _ _). set (mg' := with_vd mg (with_vd_stat (mg_vd mg) st)). destruct (set_mg_ok pl g mg mg' Hg) as [-> Ht]. cbn [mbind res_bind].
  set (rs := if mg_class mg =? 0 then stat_update (spa_root_stat pl) a 0 (i64 (Z.shiftr 0 9 * vdev_deflate_ratio (mg_vd mg))) else spa_root_stat pl).
  replace (if mg_class mg =? 0 then _ else _) with (Pool (spa_mos pl) (spa_classes pl) rs (spa_tops (put pl g mg')) (spa_vdev_txg_list pl)) by (unfold rs; by case_match). destruct (pi_class _ _ _ Hi g mg Hg) as (mc & Emc & Eops).
  change (get_mc _ (mg_class mg)) with (get_mc pl (mg_class mg)) at 1. rewrite Emc. cbn [mbind res_bind]. unfold set_mc. destruct (rd_ok_inv _ _ _ Emc) as [Hb Hlk]. rewrite wr_in_bounds by done. cbn [mbind res_bind].
  eexists _, st. split; [done|]. split; [unfold st, same_space; cbn; intros ?; rewrite Z.add_0_r; by apply Z.mod_small|]. split_and!; [|change (top (put pl g mg') g = Some mg'); rewrite Ht; by rewrite decide_True|intros g' Hne; change (top (put pl g mg') g' = top pl g'); rewrite Ht; by rewrite decide_False|done|done|apply length_insert|].
  2: { cbn. rewrite <- (list_insert_id (spa_classes pl) _ mc Hlk) at 1. apply Forall2_insert; [reflexivity|]. split_and!; try done. unfold same_space. cbn. intros ?. rewrite Z.add_0_r. by apply Z.mod_small. }
  apply (pool_classes S (put pl g mg')).
  - eapply pool_put; try done; [|intros p m Hm; by exists m]. eapply (group_ext (S g)); [exact (pi_group _ _ _ Hi g mg Hg)|..]; try done. apply (vo_list _ (go_vd _ _ _ _ (pi_group _ _ _ Hi g mg Hg))).
  - intros c mc' Emc'. change (get_mc pl c = Ok mc') in Emc'. destruct (rd_ok_inv _ _ _ Emc') as [Hb' Hlk']. destruct (decide (c = mg_class mg)) as [->|Hne].
    + eexists. split; [apply rd_Some; [lia|]; apply list_lookup_insert_eq; change (Z.to_nat (mg_class mg) < length (spa_classes pl))%nat; lia|]. rewrite Emc in Emc'. by injection Emc' as <-.
    + exists mc'. split; [|done]. apply rd_Some; [lia|]. rewrite list_lookup_insert_ne by lia. done.
Qed.

(** ** One metaslab *)

Lemma undeferred g s d msp gh A : slab_inv g s d msp gh A -> ms_deferspace msp = 0 -> forall y b, own gh y <> ODefer b.
Proof using All.
  intros Hi E0 y b E. destruct (decide (in_geo g y)) as [Hy|Hy]; [|destruct (si_out _ _ _ _ _ _ Hi y Hy); congruence]. destruct (si_deferspace _ _ _ _ _ _ Hi) as (m0 & m1 & Em & Es). pose proof (si_defer _ _ _ _ _ _ Hi) as [_ Sd]. rewrite Em in Sd.
  pose proof (Sd 0%nat m0 eq_refl) as P0. pose proof (Sd 1%nat m1 eq_refl) as P1. pose proof (plain_bound _ _ _ P0). pose proof (plain_bound _ _ _ P1). assert (Z0 : sm_space m0 = 0) by lia. assert (Z1 : sm_space m1 = 0) by lia.
  rewrite (plain_empty _ _ _ P0) in Z0. rewrite (plain_empty _ _ _ P1) in Z1. pose proof (va_defer _ _ (si_valid _ _ _ _ _ _ Hi) y b E). assert (b = 0 \/ b = 1) as [->| ->] by lia; [by apply (Z0 y)|by apply (Z1 y)].
Qed.

Lemma turn_slab vd s d k msp x : slab_ok vd s d k msp x -> ~ need x s -> s + 1 < 2 ^ 63 ->
  exists fr df msp2 msp3, rd (ms_freemap msp) ((s + 3) mod 4) = Ok fr /\ rd (ms_defermap msp) (s mod 2) = Ok df /\ sm_size fr <> 0 /\ sync_done_maps msp s (i64 (sm_space fr - sm_space df)) = Ok msp2 /\ sync_done_evict msp2 s = Ok msp3 /\
    slab_ok vd (s + 1) d k msp3 (x_turn s x) /\ ms_smo_syncing msp3 = ms_smo_syncing msp /\ ms_weight msp3 = ms_weight msp /\ (ms_deferspace msp2 = 0 -> idle msp3 (x_turn s x)).
Proof using All.
  intros [Hi Hdk Hw Hh] Hn Hs. assert (Ha : forall y, own (x_gh x) y <> OAlloc s) by (intros y E; apply Hn; exists y; by left). assert (Hde : forall y, dead (x_gh x) y <> Some s) by (intros y E; apply Hn; exists y; by right).
  destruct (sync_done_maps_ok _ _ _ _ _ _ Hi Hs Ha Hde) as (fr & df & msp2 & E1 & E2 & B1 & B2 & E3 & Hi2 & S1 & S2 & S3 & S4 & S5 & S6).
  assert (Hi2' : slab_inv (slab_geo vd k) (s + 1) d msp2 (turned s (x_gh x)) (fun y => own (turned s (x_gh x)) y = OLog)).
  { assert (Hx : x_same (x_turn s x) (Sx (turned s (x_gh x)) (fun y => own (turned s (x_gh x)) y = OLog) (x_A x) (x_A1 x))) by (split; try done; intros y; cbn [x_A x_turn]; apply turned_log).
    apply (so_inv _ _ _ _ _ _ (slab_same vd (s + 1) d k msp2 _ _ Hx ltac:(constructor; [exact Hi2|by rewrite S2|unfold weight_ok; by rewrite S3, S4|apply hist_turned; [apply Hi|apply Hi|exact Hh]]))). }
  destruct (evict_ok _ s _ _ _ Hi2') as (sm & E4 & Hi3 & Hev1 & Hev2); [apply Hi|congruence|intros y; apply turned_freed|intros y t E%turned_alloc; apply (va_alloc _ _ (si_valid _ _ _ _ _ _ Hi) y t E)|].
  exists fr, df, msp2, (with_map msp2 sm). split; [done|]. split; [done|]. split.
  { destruct (slots_rd _ _ _ _ ((s + 3) mod 4) (si_free _ _ _ _ _ _ Hi) (Z.mod_pos_bound _ 4 eq_refl)) as (fr' & E' & Hp & _). rewrite E1 in E'. injection E' as <-. rewrite (proj1 (proj2 (pn_geo _ _ _ Hp))). pose proof (ge_size _ (si_geo _ _ _ _ _ _ Hi)). lia. }
  split; [done|]. split; [done|]. split_and!; [|done|done|].
  - assert (Hx : x_same (Sx (turned s (x_gh x)) (fun y => own (turned s (x_gh x)) y = OLog) (x_A x) (x_A1 x)) (x_turn s x)) by (split; try done; intros y; cbn [x_A x_turn]; by rewrite turned_log).
    eapply slab_same; [exact Hx|]. constructor; [exact Hi3|cbn; by rewrite S2| |apply hist_turned; [apply Hi|apply Hi|exact Hh]]. destruct Hw as [W1 W2]. split; cbn [ms_weight ms_map with_map]; rewrite S3; [done|]. intros Hact. rewrite Hev1 by (by rewrite S3). rewrite S4. by apply W2.
  - intros E0. constructor; cbn [x_A x_gh x_turn]; [intros y; by rewrite turned_log|intros y; apply turned_freed|by eapply undeferred|cbn; congruence].
Qed.

(** ** One metaslab of the pool *)

(** What stays of a group when a metaslab is done. *)
Definition done_frame mg mg' : Prop := mg_class mg' = mg_class mg /\ mg_prev mg' = mg_prev mg /\ mg_next mg' = mg_next mg /\ mg_activation_count mg' = mg_activation_count mg /\ mg_aliquot mg' = mg_aliquot mg /\ vd_like (mg_vd mg) (mg_vd mg') /\ dom (mg_slabs mg') = dom (mg_slabs mg).

Lemma metaslab_sync_done_ok S pl X g mg k p msp s : pool_inv S pl X -> top pl g = Some mg -> vdev_ms (mg_vd mg) !! k = Some p -> mg_slabs mg !! p = Some msp -> S g p = s -> ~ need (X g p) s -> s + 1 < 2 ^ 63 ->
  exists pl' mg' msp' b, metaslab_sync_done pl g p s = Ok pl' /\ pool_inv (upd S g p (s + 1)) pl' (upd X g p (x_turn s (X g p))) /\ top pl' g = Some mg' /\ (forall g', g' <> g -> top pl' g' = top pl g') /\
    mg_slabs mg' = <[p := msp']> (mg_slabs mg) /\ done_frame mg mg' /\ (b = false -> idle msp' (x_turn s (X g p))) /\ spa_mos pl' = spa_mos pl /\ length (spa_tops pl') = length (spa_tops pl) /\ Forall2 class_like (spa_classes pl) (spa_classes pl') /\
    (forall t q, q ∈ chain (vdev_ms_list (mg_vd mg')) t <-> q ∈ chain (vdev_ms_list (mg_vd mg)) t \/ (b = true /\ q = p /\ TXG_IDX t = TXG_IDX (s + 1))) /\
    (forall t q, q ∈ chain (spa_vdev_txg_list pl') t <-> q ∈ chain (spa_vdev_txg_list pl) t \/ (b = true /\ q = g /\ TXG_IDX t = TXG_IDX (s + 1))).
Proof using All.
  intros Hi Hg Hk Hp ES Hn Hs. pose proof (pi_group _ _ _ Hi g mg Hg) as Hgr. pose proof (go_slab _ _ _ _ Hgr k p msp Hk Hp) as Hsl. rewrite ES in Hsl. pose proof (si_txg _ _ _ _ _ _ (so_inv _ _ _ _ _ _ Hsl)) as Htx.
  destruct (turn_slab _ _ _ _ _ _ Hsl Hn Hs) as (fr & df & msp2 & msp3 & E1 & E2 & Ez & E3 & E4 & Hsl3 & Esy & Ew & Hid). unfold metaslab_sync_done. rewrite (get_mg_ok _ _ _ Hg). cbn [mbind res_bind]. rewrite (get_ms_ok _ _ _ Hp). cbn [mbind res_bind].
  rewrite TXG_CLEAN_idx. change TXG_DEFER_SIZE with 2. rewrite E1. cbn [mbind res_bind]. rewrite (proj2 (Z.eqb_neq _ _) Ez). cbn [mbind res_bind]. rewrite E1. cbn [mbind res_bind]. rewrite E2. cbn [mbind res_bind].
  match goal with |- context [vdev_space_update pl g ?a ?b 0] => destruct (space_update_ok S pl X g mg a b Hi Hg) as (plA & st & -> & Hst & HiA & HgA & HoA & EmA & ElA & EnA & EcA) end. cbn [mbind res_bind]. rewrite E3. cbn [mbind res_bind].
  set (mgA := with_vd mg (with_vd_stat (mg_vd mg) st)) in *. rewrite (Z.mod_small (s + 1)) by lia. destruct (dirty_if_ok plA g mgA p (s + 1) (negb (ms_deferspace msp2 =? 0)) HgA) as (mgB & l' & -> & HgB & (lm & EB) & L1 & L2 & C1 & C2); [apply (vo_list _ (go_vd _ _ _ _ Hgr))|apply HiA|].
  cbn [mbind res_bind]. rewrite E4. cbn [mbind res_bind]. rewrite (get_mg_ok _ _ _ HgB). cbn [mbind res_bind]. assert (Hvs : vd_same (mg_vd mg) (mg_vd mgB)) by (by rewrite EB). assert (HvB : vd_ok (mg_vd mgB)) by (by eapply vd_same_ok, go_vd).
  assert (Egeo : slab_geo (mg_vd mgB) (Z.of_nat k) = slab_geo (mg_vd mg) (Z.of_nat k)) by (by rewrite EB). pose proof (lookup_lt_Some _ _ _ Hk) as Hlt. destruct (metaslab_weight_ok mgB msp3 (Z.of_nat k) (s + 1) (spa_mos pl) (turned s (x_gh (X g p))) (fun y => own (x_gh (X g p)) y = OLog) HvB) as (w & -> & Hw); [rewrite (proj1 (proj2 (proj2 (proj2 Hvs)))); lia|rewrite Egeo; apply Hsl3|apply Hsl3|]. cbn [mbind res_bind].
  set (S' := upd S g p (s + 1)). set (X' := upd X g p (x_turn s (X g p))). assert (Hgr3 : group_ok (S' g) (spa_mos pl) (set_ms mgB p msp3) (X' g)).
  { eapply (group_upd (S g) (S' g) (spa_mos pl) mg _ (X g) (X' g) k p msp3 Hgr); try done; [|by rewrite EB|unfold S', X'; rewrite !upd_eq; done|intros q Hq; unfold S', X'; rewrite !upd_ne by (by right); done].
    destruct (go_tree _ _ _ _ Hgr) as [tl Htr]. exists tl. apply (tree_same (set_ms mg p msp3)); [by rewrite EB|by rewrite EB|]. eapply tree_set; try done. rewrite (proj1 (mo_geo _ _ _ (si_map _ _ _ _ _ _ (so_inv _ _ _ _ _ _ Hsl3)))). symmetry. apply (mo_geo _ _ _ (si_map _ _ _ _ _ _ (so_inv _ _ _ _ _ _ Hsl))). }
  destruct (sort_group (S' g) (spa_mos pl) (set_ms mgB p msp3) (X' g) p msp3 w Hgr3) as (mg4 & -> & Hg4 & (R1 & R2 & R3 & R4 & R5 & R6) & Es4 & _ & _); [apply lookup_insert_eq|done|]. cbn [mbind res_bind].
  rewrite (proj1 (set_mg_ok _ g mgB mg4 HgB)). assert (Es : mg_slabs mg4 = <[p := with_weight msp3 w]> (mg_slabs mg)) by (rewrite Es4, EB; cbn; apply insert_insert_eq).
  exists (set_vdev_list (put plA g mg4) l'), mg4, (with_weight msp3 w), (negb (ms_deferspace msp2 =? 0)).
  pose proof (set_mg_ok plA g mgA mg4 HgA) as [_ Htop]. assert (Hdom : dom (mg_slabs mg4) = dom (mg_slabs mg)) by (rewrite Es; apply dom_insert_lookup_L; by eexists).
  split; [f_equal; unfold set_vdev_list, put; cbn; f_equal; by rewrite list_insert_insert_eq|]. split.
  - apply pool_list; [|done|].
    + eapply (pool_put S S' plA X X' g mgA mg4); try done; [by rewrite EmA|by rewrite R1, EB|by rewrite R2, EB| |intros g' q Hne; unfold S', X'; by rewrite !upd_ne by (by left)].
      intros q m Hq. rewrite Es in Hq. destruct (decide (q = p)) as [->|Hne]; [rewrite lookup_insert_eq in Hq; injection Hq as <-; exists msp; split; [done|]; cbn; by rewrite Esy|rewrite lookup_insert_ne in Hq by done; by exists m].
    + intros t q. rewrite C2, Htop. intros [Hq|(_ & -> & _)]; [case_decide; [by eexists|by apply (pi_tops _ _ _ HiA t)]|rewrite decide_True by done; by eexists].
  - split_and!; [change (top (put plA g mg4) g = Some mg4); by rewrite Htop, decide_True|intros g' Hne; change (top (put plA g mg4) g' = top pl g'); rewrite Htop, decide_False by done; by apply HoA|done| | |done|cbn; by rewrite length_insert|done| |].
    + split_and!; try done; [by rewrite R2, EB|by rewrite R3, EB|by rewrite R4, EB|by rewrite R5, EB|by rewrite R6, EB|]. rewrite R1, EB. exists lm, st, (vdev_pending_fastwrite (mg_vd mg)). split; [by destruct (mg_vd mg)|done].
    + intros Eb. destruct (Hid ltac:(apply negb_false_iff, Z.eqb_eq in Eb; done)) as [I1 I2 I3 I4]. by constructor.
    + intros t q. rewrite R1. apply C1.
    + intros t q. rewrite <- ElA. apply C2.
Qed.
End done.
End MetaslabDone.

Import MetaslabDone.

Module MetaslabFinish.

Section finish.
Context {T I D : Type} {HT : Tree T I} {HK : Kmem} {HD : Dmu D} {HB : DmuObjects D} {HE : SpaEnv} {HTL : TreeLaws T I} {HKL : KmemLaws} {HDL : DmuLaws D} {HBL : DmuObjectLaws D}.
Implicit Types (pl : pool T D) (mg : metaslab_group T) (msp : metaslab T) (d : D).

(** The metaslabs on the list of those to be finished are still in the group [s], the
    others are in the next one. *)
Record group_done (s : Z) (R : Z -> Prop) mg (S : Z -> Z) (X Y : Z -> sx) : Prop := {
  gn_need p t : is_Some (mg_slabs mg !! p) -> need (Y p) t -> s + 1 <= t <= s + 2 /\ p ∈ chain (vdev_ms_list (mg_vd mg)) t;
  gn_idle p msp : mg_slabs mg !! p = Some msp -> (p ∉ chain (vdev_ms_list (mg_vd mg)) (s + 3)) -> (p ∉ chain (vdev_ms_list (mg_vd mg)) (s + 1)) -> idle msp (Y p);
  gn_empty p : p ∉ chain (vdev_ms_list (mg_vd mg)) s;
  gn_member p t : p ∈ chain (vdev_ms_list (mg_vd mg)) t -> is_Some (mg_slabs mg !! p) /\ R t;
  gn_stage p : is_Some (mg_slabs mg !! p) -> S p = if decide (p ∈ chain (vdev_ms_list (mg_vd mg)) (s + 3)) then s else s + 1;
  gn_x p : is_Some (mg_slabs mg !! p) -> x_same (if decide (p ∈ chain (vdev_ms_list (mg_vd mg)) (s + 3)) then X p else x_turn s (X p)) (Y p) }.

Record finishing (R : pool T D -> Z -> Z -> Prop) (s : Z) (X : Z -> Z -> sx) pl (S : Z -> Z -> Z) (Y : Z -> Z -> sx) : Prop := {
  fi_inv : pool_inv S pl Y;
  fi_done g mg : top pl g = Some mg -> group_done s (R pl g) mg (S g) (X g) (Y g) }.

(** ** The start and the end *)

(** Once the dirty vdevs are synced, the metaslabs that are not to be finished are idle. *)
Lemma finish_start s pl X : pool_ok s pl X -> chain (spa_vdev_txg_list pl) s = [] -> s + 1 < 2 ^ 63 -> exists S Y, finishing on_list s X pl S Y.
Proof using All.
  intros [Hi Hd] Hc Hs. set (w g p := match top pl g with Some mg => bool_decide (p ∈ chain (vdev_ms_list (mg_vd mg)) (s + 3)) | None => true end).
  set (S := fun g p : Z => if w g p then s else s + 1). set (Y := fun g p => if w g p then X g p else x_turn s (X g p)).
  assert (He : forall g mg p, top pl g = Some mg -> p ∉ chain (vdev_ms_list (mg_vd mg)) s).
  { intros g mg p Hg Hin. destruct (gd_member _ _ _ _ (Hd g mg Hg) p s Hin) as [_ Ho]. unfold on_list in Ho. rewrite Hc in Ho. by apply not_elem_of_nil in Ho. }
  assert (Hn : forall g mg p, top pl g = Some mg -> is_Some (mg_slabs mg !! p) -> ~ need (X g p) s) by (intros g mg p Hg Hp Hn; apply (He g mg p Hg); apply (gd_need _ _ _ _ (Hd g mg Hg)); [done|lia|done]).
  assert (Hw : forall g mg p, top pl g = Some mg -> w g p = bool_decide (p ∈ chain (vdev_ms_list (mg_vd mg)) (s + 3))) by (intros g mg p Hg; unfold w; by rewrite Hg).
  assert (Hidle : forall g mg p msp k, top pl g = Some mg -> vdev_ms (mg_vd mg) !! k = Some p -> mg_slabs mg !! p = Some msp -> (p ∉ chain (vdev_ms_list (mg_vd mg)) (s + 3)) -> slab_ok (mg_vd mg) (s + 1) (spa_mos pl) (Z.of_nat k) msp (x_turn s (X g p)) /\ idle msp (x_turn s (X g p))).
  { intros g mg p msp k Hg Hk Hp N. apply idle_turn; [by apply (go_slab _ _ _ _ (pi_group _ _ _ Hi g mg Hg))|apply (gd_idle _ _ _ _ (Hd g mg Hg)); [done|by apply (He g)|done]|by eapply Hn; [|eexists]|done]. }
  exists S, Y. constructor.
  - destruct Hi as [H1 H2 H3 H4 H5 H6 H7 H8]. constructor; try done. intros g mg Hg. destruct (H1 g mg Hg) as [G1 G2 G3 G4]. constructor; try done. intros k p msp Hk Hp. unfold S, Y. rewrite (Hw g mg p Hg). case_bool_decide; [by apply G4|by apply Hidle].
  - intros g mg Hg. pose proof (Hd g mg Hg) as Hdg. constructor; unfold S, Y.
    + intros p t Hp. rewrite (Hw g mg p Hg). intros Hnd. assert (Hnx : need (X g p) t) by (case_bool_decide; [done|]; destruct Hnd as [y [E%turned_alloc|E]]; exists y; tauto).
      destruct Hp as [msp Hp]. destruct (group_index _ _ _ _ _ _ (pi_group _ _ _ Hi g mg Hg) Hp) as (k & _ & _ & Hsl). pose proof (si_valid _ _ _ _ _ _ (so_inv _ _ _ _ _ _ Hsl)) as Hv.
      assert (Ht : s <= t <= s + 2) by (destruct Hnx as [y [E|E]]; [by apply (va_alloc _ _ Hv y)|by apply (va_dead _ _ Hv y)]). assert (t <> s) by (intros ->; apply (Hn g mg p Hg); [by eexists|done]). split; [lia|]. apply (gd_need _ _ _ _ Hdg); [by eexists|done|done].
    + intros p msp Hp N _. rewrite (Hw g mg p Hg), bool_decide_eq_false_2 by done. destruct (group_index _ _ _ _ _ _ (pi_group _ _ _ Hi g mg Hg) Hp) as (k & Hk & _). by apply (Hidle g mg p msp k).
    + intros p. by apply (He g).
    + apply Hdg.
    + intros p _. rewrite (Hw g mg p Hg). case_bool_decide; [by rewrite decide_True|by rewrite decide_False].
    + intros p _. rewrite (Hw g mg p Hg). case_bool_decide; [by rewrite decide_True|by rewrite decide_False].
Qed.

Lemma finish_end s pl X S Y : finishing on_list s X pl S Y -> chain (spa_vdev_txg_list pl) (s + 3) = [] -> pool_ok (s + 1) pl (fun g p => x_turn s (X g p)).
Proof using All.
  intros [Hi Hd] Hc. assert (He : forall g mg p, top pl g = Some mg -> p ∉ chain (vdev_ms_list (mg_vd mg)) (s + 3)).
  { intros g mg p Hg Hin. destruct (gn_member _ _ _ _ _ _ (Hd g mg Hg) p _ Hin) as [_ Ho]. unfold on_list in Ho. rewrite Hc in Ho. by apply not_elem_of_nil in Ho. }
  assert (Hx : forall g mg p, top pl g = Some mg -> is_Some (mg_slabs mg !! p) -> s + 1 = S g p /\ x_same (Y g p) (x_turn s (X g p))).
  { intros g mg p Hg Hp. rewrite (gn_stage _ _ _ _ _ _ (Hd g mg Hg) p Hp), decide_False by (by apply (He g)). split; [done|]. pose proof (gn_x _ _ _ _ _ _ (Hd g mg Hg) p Hp) as E. rewrite decide_False in E by (by apply (He g)). by symmetry. }
  split; [by eapply pool_same; [|exact Hi]|]. intros g mg Hg. pose proof (Hd g mg Hg) as Hdg. eapply (dirty_same (s + 1) (on_list pl g) _ mg (Y g)); [done|intros p Hp; by eapply Hx|]. constructor; [|..|apply Hdg].
  - intros p t Hp Ht Hn. by apply (gn_need _ _ _ _ _ _ Hdg).
  - intros p msp Hp N1 _. apply (gn_idle _ _ _ _ _ _ Hdg); try done. by apply (He g).
Qed.

(** ** One vdev *)

(** While the vdev [g] is on no list. *)
Definition loose_done (s g : Z) pl (g' t : Z) : Prop := on_list pl g' t \/ (g' = g /\ TXG_IDX t = TXG_IDX (s + 3)).

(** What stays of a pool. *)
Definition tops_frame pl pl' : Prop := spa_mos pl' = spa_mos pl /\ length (spa_tops pl') = length (spa_tops pl) /\ Forall2 class_like (spa_classes pl) (spa_classes pl') /\
  forall g mg, top pl g = Some mg -> exists mg', top pl' g = Some mg' /\ done_frame mg mg'.
Definition finish_frame (s : Z) pl pl' : Prop := tops_frame pl pl' /\ forall g, g ∈ chain (spa_vdev_txg_list pl') (s + 3) <-> g ∈ chain (spa_vdev_txg_list pl) (s + 3).

Lemma done_frame_refl mg : done_frame mg mg.
Proof. split_and!; try done. apply vd_like_refl. Qed.

Lemma done_frame_trans mg1 mg2 mg3 : done_frame mg1 mg2 -> done_frame mg2 mg3 -> done_frame mg1 mg3.
Proof. intros (A1 & A2 & A3 & A4 & A5 & V & A6) (B1 & B2 & B3 & B4 & B5 & W & B6). unfold done_frame. rewrite B1, B2, B3, B4, B5, B6. split_and!; try done. by eapply vd_like_trans. Qed.

Lemma tops_frame_refl pl : tops_frame pl pl.
Proof. split_and!; try done. intros g mg E. exists mg. split; [done|apply done_frame_refl]. Qed.

Lemma tops_frame_trans pl1 pl2 pl3 : tops_frame pl1 pl2 -> tops_frame pl2 pl3 -> tops_frame pl1 pl3.
Proof.
  intros (A1 & A2 & A3 & A4) (B1 & B2 & B3 & B4). split; [congruence|]. split; [congruence|]. split; [by etrans|]. intros g mg E. destruct (A4 g mg E) as (mg2 & E2 & F2). destruct (B4 g mg2 E2) as (mg3 & E3 & F3). exists mg3. split; [done|by eapply done_frame_trans].
Qed.

Lemma finish_frame_refl s pl : finish_frame s pl pl.
Proof. split; [apply tops_frame_refl|done]. Qed.

Lemma finish_frame_trans s pl1 pl2 pl3 : finish_frame s pl1 pl2 -> finish_frame s pl2 pl3 -> finish_frame s pl1 pl3.
Proof. intros [A1 A2] [B1 B2]. split; [by eapply tops_frame_trans|]. intros g. by rewrite B2. Qed.

(** The group when its metaslab [p] has left the list of those to be finished. *)
Lemma group_done_next s R R' mg mg' S X Y p msp' b l rest : group_done s R mg S X Y -> chain (vdev_ms_list (mg_vd mg)) (s + 3) = p :: rest -> chain l (s + 3) = rest -> (p ∉ rest) -> (forall t, TXG_IDX t <> TXG_IDX (s + 3) -> chain l t = chain (vdev_ms_list (mg_vd mg)) t) ->
  mg_slabs mg' = <[p := msp']> (mg_slabs mg) -> (forall t q, q ∈ chain (vdev_ms_list (mg_vd mg')) t <-> q ∈ chain l t \/ (b = true /\ q = p /\ TXG_IDX t = TXG_IDX (s + 1))) -> (b = false -> idle msp' (x_turn s (Y p))) ->
  (forall t, R t -> R' t) -> (forall t, b = true -> TXG_IDX t = TXG_IDX (s + 1) -> R' t) ->
  group_done s R' mg' (fun q => if decide (q = p) then s + 1 else S q) X (fun q => if decide (q = p) then x_turn s (Y p) else Y q).
Proof using All.
  intros [H1 H2 H3 H4 H5 H6] Hc Hl Hnr Ho Es Hm Hid HR HRb. destruct (H4 p (s + 3)) as [Hp _]; [rewrite Hc; left|]. assert (Hd : forall q, is_Some (mg_slabs mg' !! q) <-> is_Some (mg_slabs mg !! q)).
  { intros q. rewrite Es. destruct (decide (q = p)) as [->|Hne]; [rewrite lookup_insert_eq; split; [done|by eexists]|by rewrite lookup_insert_ne]. }
  assert (N0 : TXG_IDX s <> TXG_IDX (s + 3)) by (rewrite !TXG_IDX_mod; dlia). assert (N1 : TXG_IDX (s + 1) <> TXG_IDX (s + 3)) by (rewrite !TXG_IDX_mod; dlia). assert (N2 : TXG_IDX s <> TXG_IDX (s + 1)) by (rewrite !TXG_IDX_mod; dlia).
  assert (Hm3 : forall q, q ∈ chain (vdev_ms_list (mg_vd mg')) (s + 3) <-> q ∈ chain (vdev_ms_list (mg_vd mg)) (s + 3) /\ q <> p).
  { intros q. rewrite Hm, Hl, Hc, elem_of_cons. split; [intros [Hq|(_ & _ & E)]; [split; [by right|by intros ->]|by destruct N1]|]. intros [[->|Hq] Hne]; [done|by left]. }
  assert (Hxp : x_same (X p) (Y p)) by (specialize (H6 p Hp); rewrite decide_True in H6 by (rewrite Hc; left); done).
  constructor.
  - intros q t Hq%Hd Hn. rewrite Hm. assert (Hny : need (Y q) t) by (case_decide as E; [subst q; destruct Hn as [y [Ey%turned_alloc|Ey]]; exists y; tauto|done]). destruct (H1 q t Hq Hny) as [Ht Hin]. split; [done|left]. rewrite Ho; [done|]. rewrite !TXG_IDX_mod. dlia.
  - intros q m Hq. rewrite Hm3, Hm. rewrite Es in Hq. case_decide as E.
    + subst q. rewrite lookup_insert_eq in Hq. injection Hq as <-. intros _ N. apply Hid. destruct b; [|done]. exfalso. apply N. by right.
    + rewrite lookup_insert_ne in Hq by done. intros Na Nb. apply H2; [done|tauto|]. intros Hin. apply Nb. left. by rewrite Ho.
  - intros q. rewrite Hm. rewrite (Ho s N0). intros [Hq|(_ & _ & E)]; [by apply (H3 q)|done].
  - intros q t. rewrite Hm, Hd. intros [Hq|(Eb & -> & Et)]; [|split; [done|by apply HRb]]. destruct (decide (TXG_IDX t = TXG_IDX (s + 3))) as [Et|Et]; [|rewrite Ho in Hq by done; destruct (H4 q t Hq) as [Ha Hb]; split; [done|by apply HR]].
    assert (Hin : q ∈ chain (vdev_ms_list (mg_vd mg)) t) by (rewrite (chain_idx _ _ _ Et), Hc; right; by rewrite <- Hl, <- (chain_idx l _ _ Et)). destruct (H4 q t Hin). split; [done|by apply HR].
  - intros q Hq%Hd. case_decide as E; [subst q; rewrite decide_False; [done|]; rewrite Hm3; tauto|]. rewrite (H5 q Hq). destruct (decide (q ∈ chain (vdev_ms_list (mg_vd mg)) (s + 3))); [rewrite decide_True; [done|]; by apply Hm3|rewrite decide_False; [done|]; rewrite Hm3; tauto].
  - intros q Hq%Hd. destruct (decide (q = p)) as [->|E]; [rewrite decide_False; [|rewrite Hm3; tauto]; by apply x_turn_proper|]. specialize (H6 q Hq). destruct (decide (q ∈ chain (vdev_ms_list (mg_vd mg)) (s + 3))); [rewrite decide_True; [done|]; by apply Hm3|rewrite decide_False; [done|]; rewrite Hm3; tauto].
Qed.

Lemma group_done_ext s (R R' : Z -> Prop) mg S S' X Y Y' : group_done s R mg S X Y -> (forall t, R t -> R' t) -> (forall q, S' q = S q) -> (forall q, Y' q = Y q) -> group_done s R' mg S' X Y'.
Proof. intros [H1 H2 H3 H4 H5 H6] HR HS HY. constructor; intros q; rewrite ?HS, ?HY; auto. intros t Hq. destruct (H4 q t Hq). split; [done|by apply HR]. Qed.

Lemma done_next_ok s X pl S Y g mg p rest : finishing (loose_done s g) s X pl S Y -> s + 1 < 2 ^ 63 -> top pl g = Some mg -> chain (vdev_ms_list (mg_vd mg)) (s + 3) = p :: rest ->
  exists pl' S' Y' mg', vdev_done_next pl g s = Ok (inl pl') /\ finishing (loose_done s g) s X pl' S' Y' /\ top pl' g = Some mg' /\ (forall q, q ∈ chain (vdev_ms_list (mg_vd mg')) (s + 3) <-> q ∈ rest) /\ finish_frame s pl pl'.
Proof using All.
  intros [Hi Hd] Hs Hg Hc. pose proof (pi_group _ _ _ Hi g mg Hg) as Hgr. pose proof (Hd g mg Hg) as Hdg. destruct (gn_member _ _ _ _ _ _ Hdg p (s + 3)) as [[msp Hp] _]; [rewrite Hc; left|]. pose proof (member_null _ _ _ _ p Hgr ltac:(by eexists)) as Hnp.
  destruct (group_index _ _ _ _ _ _ Hgr Hp) as (k & Hk & _ & Hsl). pose proof (vo_list _ (go_vd _ _ _ _ Hgr)) as Hl. destruct (chain_remove_ok _ (TXG_CLEAN s) Hl) as (l & p' & E1 & Hl' & [(Hc' & _)|(Hc' & Ho)]); rewrite clean_chain, Hc in Hc'; [done|]. injection Hc' as <- Hr. rewrite clean_chain in Hr.
  pose proof (chain_nodup _ (s + 3) Hl) as Hnd. rewrite Hc in Hnd. apply list.NoDup_cons in Hnd as [Hnr _]. set (mg1 := with_ms_list mg l). assert (Hi1 : pool_inv S (put pl g mg1) Y).
  { eapply pool_put; try done; [|intros q m Hm; by exists m]. eapply (group_ext (S g)); [exact Hgr|..]; done. }
  destruct (set_mg_ok pl g mg mg1 Hg) as [E2 Ht1]. assert (Hg1 : top (put pl g mg1) g = Some mg1) by (by rewrite Ht1, decide_True). assert (ES : S g p = s) by (rewrite (gn_stage _ _ _ _ _ _ Hdg p) by (by eexists); rewrite decide_True; [done|rewrite Hc; left]).
  assert (Hn : ~ need (Y g p) s) by (intros Hn; destruct (gn_need _ _ _ _ _ _ Hdg p s); [by eexists|done|lia]).
  destruct (metaslab_sync_done_ok S (put pl g mg1) Y g mg1 k p msp s Hi1 Hg1 Hk Hp ES Hn Hs) as (pl' & mg' & msp' & b & E3 & Hi' & Hg' & Ho' & Es & Hf & Hid & Em & En & Ec & C1 & C2).
  unfold vdev_done_next. rewrite (get_mg_ok _ _ _ Hg). cbn [mbind res_bind]. rewrite E1. cbn [mbind res_bind]. rewrite (proj2 (Z.eqb_neq _ _) Hnp). fold (with_ms_list mg l). fold mg1. rewrite E2. cbn [mbind res_bind]. rewrite E3. cbn [mbind res_bind].
  exists pl', (upd S g p (s + 1)), (upd Y g p (x_turn s (Y g p))), mg'. split; [done|]. split; [constructor; [done|]|split; [done|split]].
  - intros g' m Em'. destruct (decide (g' = g)) as [->|Hne].
    + rewrite Hg' in Em'. injection Em' as <-. eapply group_done_ext; [eapply (group_done_next s (loose_done s g pl g) (loose_done s g pl' g) mg mg' (S g) (X g) (Y g) p msp' b l rest); try done|done|..].
      * by rewrite <- clean_idx.
      * intros t [Hq|[_ Et]]; [left; apply C2; by left|by right].
      * intros t Eb Et. left. apply C2. by right.
      * intros q. unfold upd. destruct (decide (q = p)); [by rewrite decide_True|rewrite decide_False; [done|tauto]].
      * intros q. unfold upd. destruct (decide (q = p)); [by rewrite decide_True|rewrite decide_False; [done|tauto]].
    + rewrite Ho', Ht1, decide_False in Em' by done. eapply group_done_ext; [exact (Hd g' m Em')|..]; [|intros q; apply upd_ne; by left|intros q; apply upd_ne; by left]. intros t [Hq|Hq]; [left; apply C2; by left|by right].
  - intros q. rewrite C1. change (vdev_ms_list (mg_vd mg1)) with l. rewrite <- Hr. split; [intros [|(_ & _ & E)]; [done|]; rewrite !TXG_IDX_mod in E; exfalso; dlia|by left].
  - split; [split; [done|]; split; [rewrite En; apply length_insert|]; split; [done|]|].
    + intros g' m Em'. destruct (decide (g' = g)) as [->|Hne]; [exists mg'; split; [done|]; assert (m = mg) as -> by congruence; exact Hf|]. exists m. rewrite Ho', Ht1, decide_False by done. split; [done|apply done_frame_refl].
    + intros q. rewrite C2. split; [intros [|(_ & _ & E)]; [done|]; rewrite !TXG_IDX_mod in E; exfalso; dlia|by left].
Qed.

Lemma same_length (l1 l2 : list Z) : NoDup l1 -> NoDup l2 -> (forall q, q ∈ l1 <-> q ∈ l2) -> length l1 = length l2.
Proof. intros H1 H2 H. by apply Permutation_length, NoDup_Permutation. Qed.

Lemma done_loop_ok s X g : s + 1 < 2 ^ 63 -> forall fuel pl S Y mg, (length (chain (vdev_ms_list (mg_vd mg)) (s + 3)) < fuel)%nat -> finishing (loose_done s g) s X pl S Y -> top pl g = Some mg ->
  exists pl' S' Y' mg', loop fuel (fun pl => vdev_done_next pl g s) pl = Ok pl' /\ finishing (loose_done s g) s X pl' S' Y' /\ top pl' g = Some mg' /\ chain (vdev_ms_list (mg_vd mg')) (s + 3) = [] /\ finish_frame s pl pl'.
Proof using All.
  intros Hs fuel. induction fuel as [|fuel IH]; intros pl S Y mg Hf Hfi Hg; [lia|]. cbn [loop]. pose proof (vo_list _ (go_vd _ _ _ _ (pi_group _ _ _ (fi_inv _ _ _ _ _ _ Hfi) g mg Hg))) as Hl. destruct (chain (vdev_ms_list (mg_vd mg)) (s + 3)) as [|p rest] eqn:Hc.
  - assert (En : vdev_done_next pl g s = Ok (inr pl)).
    { unfold vdev_done_next. rewrite (get_mg_ok _ _ _ Hg). cbn [mbind res_bind]. destruct (chain_remove_ok _ (TXG_CLEAN s) Hl) as (l & p & -> & _ & [(_ & -> & _)|(Hc' & _)]); [done|]. rewrite clean_chain in Hc'. congruence. }
    rewrite En. exists pl, S, Y, mg. split; [done|]. split; [done|]. split; [done|]. split; [done|apply finish_frame_refl].
  - destruct (done_next_ok s X pl S Y g mg p rest Hfi Hs Hg Hc) as (pl1 & S1 & Y1 & mg1 & -> & Hfi1 & Hg1 & Hc1 & Hf1). pose proof (vo_list _ (go_vd _ _ _ _ (pi_group _ _ _ (fi_inv _ _ _ _ _ _ Hfi1) g mg1 Hg1))) as Hl1.
    pose proof (chain_nodup _ (s + 3) Hl) as Hnd. rewrite Hc in Hnd. apply list.NoDup_cons in Hnd as [_ Hnd]. pose proof (same_length _ _ (chain_nodup _ _ Hl1) Hnd Hc1) as El. destruct (IH pl1 S1 Y1 mg1) as (pl2 & S2 & Y2 & mg2 & E2 & Hfi2 & Hg2 & Hc2 & Hf2); [cbn in Hf; lia|done|done|].
    exists pl2, S2, Y2, mg2. split; [done|]. split; [done|]. split; [done|]. split; [done|by eapply finish_frame_trans].
Qed.

(** ** Reassessment *)

(** The same metaslabs with other weights. *)
Definition reweighted mg mg' : Prop := ring_same mg mg' /\ forall p, (exists w, mg_slabs mg' !! p = (fun m => with_weight m w) <$> (mg_slabs mg !! p)).

Lemma reweighted_refl mg : reweighted mg mg.
Proof. split; [apply ring_refl|]. intros p. destruct (mg_slabs mg !! p) as [m|] eqn:E; [exists (ms_weight m)|exists 0]; cbn; [by destruct m|done]. Qed.

Lemma reweighted_trans mg1 mg2 mg3 : reweighted mg1 mg2 -> reweighted mg2 mg3 -> reweighted mg1 mg3.
Proof. intros [R1 H1] [R2 H2]. split; [by eapply ring_trans|]. intros p. destruct (H1 p) as [w1 E1], (H2 p) as [w2 E2]. exists w2. rewrite E2, E1. by destruct (mg_slabs mg1 !! p). Qed.

Lemma reweighted_set mg mg' p msp w : ring_same mg mg' -> mg_slabs mg !! p = Some msp -> mg_slabs mg' = <[p := with_weight msp w]> (mg_slabs mg) -> reweighted mg mg'.
Proof.
  intros Hr Hp Es. split; [done|]. intros q. rewrite Es. destruct (decide (q = p)) as [->|Hne]; [exists w; by rewrite lookup_insert_eq, Hp|]. rewrite lookup_insert_ne by done. destruct (reweighted_refl mg) as [_ H]. apply H.
Qed.

Lemma reassess_loop S d X : forall fuel m mg, group_ok S d mg X -> 0 <= m <= zlen (vdev_ms (mg_vd mg)) -> zlen (vdev_ms (mg_vd mg)) - m < Z.of_nat fuel ->
  exists mg', loop fuel (fun '(m, mg) =>
    if m <? zlen (vdev_ms (mg_vd mg)) then
      p ← rd (vdev_ms (mg_vd mg)) m;
      msp ← get_ms mg p;
      if sm_start (ms_map msp) >? mg_bonus_area mg then Ok (inr mg)
      else w ← metaslab_weight mg msp; mg ← metaslab_group_sort mg p w; Ok (inl (m + 1, mg))
    else Ok (inr mg)) (m, mg) = Ok mg' /\ group_ok S d mg' X /\ reweighted mg mg'.
Proof using All.
  intros fuel. induction fuel as [|fuel IH]; intros m mg Hg Hm Hf; [lia|]. cbn [loop]. destruct (Z.ltb_spec m (zlen (vdev_ms (mg_vd mg)))); [|exists mg; split; [done|]; split; [done|apply reweighted_refl]].
  destruct (rd_in_bounds (vdev_ms (mg_vd mg)) m ltac:(lia)) as (p & -> & Hk). cbn [mbind res_bind]. destruct (proj1 (go_ms _ _ _ _ Hg p) ltac:(by eapply list_elem_of_lookup_2)) as [msp Hp]. rewrite (get_ms_ok _ _ _ Hp). cbn [mbind res_bind].
  destruct (sm_start (ms_map msp) >? mg_bonus_area mg); [exists mg; split; [done|]; split; [done|apply reweighted_refl]|]. destruct (go_slab _ _ _ _ Hg _ p msp Hk Hp) as [Hi _ Hw _]. rewrite Z2Nat.id in Hi by lia. destruct (metaslab_weight_ok mg msp m _ _ _ _ (go_vd _ _ _ _ Hg) ltac:(lia) Hi Hw) as (w & -> & Hw'). cbn [mbind res_bind].
  destruct (sort_group S d mg X p msp w Hg Hp Hw') as (mg1 & -> & Hg1 & R1 & Es1 & _ & _). cbn [mbind res_bind]. pose proof (proj1 R1) as Ev. destruct (IH (m + 1) mg1 Hg1) as (mg2 & E2 & Hg2 & R2); [rewrite Ev; lia|rewrite Ev; lia|]. exists mg2. split; [done|]. split; [done|].
  eapply reweighted_trans; [by eapply reweighted_set|done].
Qed.

Lemma reassess_ok S d mg X : group_ok S d mg X -> exists mg', metaslab_sync_reassess mg = Ok mg' /\ group_ok S d mg' X /\ reweighted mg mg'.
Proof using All.
  intros Hg. unfold metaslab_sync_reassess. destruct (reassess_loop S d X (Datatypes.S (length (vdev_ms (mg_vd mg)))) 0 mg Hg) as (mg1 & -> & Hg1 & R1); [lia|lia|]. cbn [mbind res_bind]. eexists. split; [done|].
  split; [|exact R1]. eapply (group_ext S S d mg1); try done. apply (vo_list _ (go_vd _ _ _ _ Hg1)).
Qed.

(** A group of the pool gets other weights. *)
Lemma finishing_reweighted R s X pl S Y g mg mg' : finishing (R s g) s X pl S Y -> (forall pl pl' g' t, spa_vdev_txg_list pl = spa_vdev_txg_list pl' -> R s g pl g' t -> R s g pl' g' t) -> top pl g = Some mg -> group_ok (S g) (spa_mos pl) mg' (Y g) -> reweighted mg mg' ->
  finishing (R s g) s X (put pl g mg') S Y /\ finish_frame s pl (put pl g mg').
Proof using All.
  intros [Hi Hd] HR Hg Hg' [(R1 & R2 & R3 & R4 & R5 & R6) Hs]. destruct (set_mg_ok pl g mg mg' Hg) as [_ Ht]. assert (Hsome : forall q, is_Some (mg_slabs mg' !! q) <-> is_Some (mg_slabs mg !! q)) by (intros q; destruct (Hs q) as [w ->]; apply fmap_is_Some).
  split; [constructor|].
  - eapply (pool_put S S pl Y Y g mg mg' Hi Hg Hg'); [by rewrite R1|exact R2| |done]. intros q m Hq. destruct (Hs q) as [w E]. rewrite Hq in E. symmetry in E. apply fmap_Some in E as (m0 & E0 & ->). by exists m0.
  - intros g' m Em. rewrite Ht in Em. case_decide as Hgg; [|destruct (Hd g' m Em) as [H1 H2 H3 H4 H5 H6]; constructor; try done; intros p t Hq; destruct (H4 p t Hq); (split; [done|]); by apply (HR pl)]. subst g'. injection Em as <-. destruct (Hd g mg Hg) as [H1 H2 H3 H4 H5 H6].
    constructor; rewrite ?R1.
    + intros q t. rewrite Hsome. apply H1.
    + intros q m Hq. destruct (Hs q) as [w E]. rewrite Hq in E. symmetry in E. apply fmap_Some in E as (m0 & E0 & ->). intros N1 N2. destruct (H2 q m0 E0 N1 N2) as [I1 I2 I3 I4]. by constructor.
    + done.
    + intros q t Hq. rewrite Hsome. destruct (H4 q t Hq). split; [done|]. by apply (HR pl).
    + intros q. rewrite Hsome. apply H5.
    + intros q. rewrite Hsome. apply H6.
  - split; [|done]. split; [done|]. split; [apply length_insert|]. split; [reflexivity|]. intros g' m Em. rewrite Ht. case_decide as Hgg; [|exists m; split; [done|apply done_frame_refl]]. subst g'. assert (m = mg) as -> by congruence. exists mg'. split; [done|]. split_and!; try done; [rewrite R1; apply vd_like_refl|].
    apply set_eq. intros q. rewrite !elem_of_dom. apply Hsome.
Qed.

Lemma finishing_list (R R' : pool T D -> Z -> Z -> Prop) s X pl S Y l : finishing R s X pl S Y -> tl_ok l -> (forall t g, g ∈ chain l t -> is_Some (top pl g)) ->
  (forall g mg p t, top pl g = Some mg -> p ∈ chain (vdev_ms_list (mg_vd mg)) t -> R pl g t -> R' (set_vdev_list pl l) g t) -> finishing R' s X (set_vdev_list pl l) S Y.
Proof.
  intros [H1 H2] Hl Ht HR. constructor; [by apply pool_list|]. intros g mg Hg. destruct (H2 g mg Hg) as [G1 G2 G3 G4 G5 G6]. constructor; try done. intros p t Hp. destruct (G4 p t Hp) as [Ha Hb]. split; [done|]. by eapply HR.
Qed.

Lemma vdev_sync_done_ok s X pl S Y g mg : finishing (loose_done s g) s X pl S Y -> s + 1 < 2 ^ 63 -> top pl g = Some mg ->
  exists pl' S' Y', vdev_sync_done pl g s = Ok pl' /\ finishing on_list s X pl' S' Y' /\ finish_frame s pl pl'.
Proof using All.
  intros Hfi Hs Hg. pose proof (vo_list _ (go_vd _ _ _ _ (pi_group _ _ _ (fi_inv _ _ _ _ _ _ Hfi) g mg Hg))) as Hl. unfold vdev_sync_done. rewrite (get_mg_ok _ _ _ Hg). cbn [mbind res_bind]. unfold txg_list_empty. rewrite (chain_rd _ (TXG_CLEAN s) Hl). cbn [mbind res_bind].
  set (e := bool_decide _). clearbody e. rewrite clean_chain. destruct (done_loop_ok s X g Hs (Datatypes.S (length (chain (vdev_ms_list (mg_vd mg)) (s + 3)))) pl S Y mg ltac:(lia) Hfi Hg) as (pl1 & S1 & Y1 & mg1 & -> & Hfi1 & Hg1 & Hc1 & Hf1). cbn [mbind res_bind].
  assert (Hend : forall pl' mg', finishing (loose_done s g) s X pl' S1 Y1 -> top pl' g = Some mg' -> chain (vdev_ms_list (mg_vd mg')) (s + 3) = [] -> finishing on_list s X pl' S1 Y1).
  { intros pl' mg' Hfi' Hg' Hc'. pose proof Hfi' as [Hi' _]. rewrite <- (set_list_same pl'). eapply finishing_list; [exact Hfi'|apply Hi'|apply Hi'|]. intros g' m p t Em Hp [Ho|[-> Et]]; [done|]. assert (m = mg') as -> by congruence. rewrite (chain_idx _ _ _ Et), Hc' in Hp. by apply not_elem_of_nil in Hp. }
  destruct e; [exists pl1, S1, Y1; split; [done|]; split; [by eapply Hend|done]|]. rewrite (get_mg_ok _ _ _ Hg1). cbn [mbind res_bind]. destruct (reassess_ok _ _ _ _ (pi_group _ _ _ (fi_inv _ _ _ _ _ _ Hfi1) g mg1 Hg1)) as (mg2 & -> & Hg2 & Hr2). cbn [mbind res_bind].
  destruct (set_mg_ok pl1 g mg1 mg2 Hg1) as [-> Ht2]. destruct (finishing_reweighted loose_done s X pl1 S1 Y1 g mg1 mg2 Hfi1) as [Hfi2 Hf2]; try done; [intros p1 p2 g' t El [Ho|Ho]; [left; unfold on_list in *; by rewrite <- El|by right]|].
  exists (put pl1 g mg2), S1, Y1. split; [done|]. split; [|by eapply finish_frame_trans]. apply (Hend _ mg2 Hfi2); [by rewrite Ht2, decide_True|]. by rewrite (proj1 (proj1 Hr2)).
Qed.

Lemma finish_loop s X : s + 1 < 2 ^ 63 -> forall fuel pl S Y, (length (chain (spa_vdev_txg_list pl) (s + 3)) < fuel)%nat -> finishing on_list s X pl S Y ->
  exists pl' S' Y', loop fuel (fun pl =>
    l ← rd (spa_vdev_txg_list pl) (TXG_IDX (TXG_CLEAN s));
    match l with
    | [] => Ok (inr pl)
    | g :: _ =>
        '(l, _) ← txg_list_remove (spa_vdev_txg_list pl) (TXG_CLEAN s);
        pl ← vdev_sync_done (set_vdev_list pl l) g s;
        Ok (inl pl)
    end) pl = Ok pl' /\ finishing on_list s X pl' S' Y' /\ chain (spa_vdev_txg_list pl') (s + 3) = [] /\ tops_frame pl pl'.
Proof using All.
  intros Hs fuel. induction fuel as [|fuel IH]; intros pl S Y Hf Hfi; [lia|]. cbn [loop]. pose proof (pi_list _ _ _ (fi_inv _ _ _ _ _ _ Hfi)) as Hl. rewrite (chain_rd _ (TXG_CLEAN s) Hl). cbn [mbind res_bind]. rewrite clean_chain. destruct (chain (spa_vdev_txg_list pl) (s + 3)) as [|g rest] eqn:Hc.
  - exists pl, S, Y. split; [done|]. split; [done|]. split; [done|apply tops_frame_refl].
  - destruct (chain_remove_ok _ (TXG_CLEAN s) Hl) as (l & g' & E & Hl' & [(Hc' & _)|(Hc' & Ho)]); rewrite clean_chain, Hc in Hc'; [done|]. injection Hc' as <- Hr. rewrite clean_chain in Hr. rewrite clean_idx in Ho. rewrite E. cbn [mbind res_bind]. destruct (pi_tops _ _ _ (fi_inv _ _ _ _ _ _ Hfi) (s + 3) g) as [mg Hg]; [rewrite Hc; left|].
    assert (Hm : forall t q, q ∈ chain (spa_vdev_txg_list pl) t <-> q ∈ chain l t \/ (q = g /\ TXG_IDX t = TXG_IDX (s + 3))).
    { intros t q. destruct (decide (TXG_IDX t = TXG_IDX (s + 3))) as [Et|Et]; [rewrite !(chain_idx _ t (s + 3) Et), Hc, Hr, elem_of_cons; tauto|rewrite (Ho t Et); tauto]. }
    assert (Hs1 : finishing (loose_done s g) s X (set_vdev_list pl l) S Y).
    { eapply finishing_list; [exact Hfi|done|intros t q Hq; apply (pi_tops _ _ _ (fi_inv _ _ _ _ _ _ Hfi) t); apply Hm; by left|]. intros q m p t _ _ [Hq|[-> Et]]%Hm; [by left|right; tauto]. }
    destruct (vdev_sync_done_ok s X (set_vdev_list pl l) S Y g mg Hs1 Hs Hg) as (pl1 & S1 & Y1 & -> & Hfi1 & (A1 & A4)). cbn [mbind res_bind]. change (spa_vdev_txg_list (set_vdev_list pl l)) with l in A4.
    pose proof (same_length _ _ (chain_nodup _ (s + 3) (pi_list _ _ _ (fi_inv _ _ _ _ _ _ Hfi1))) (chain_nodup _ (s + 3) Hl') A4) as El. rewrite <- Hr in El.
    destruct (IH pl1 S1 Y1) as (pl2 & S2 & Y2 & E2 & Hfi2 & Hc2 & B1); [cbn in Hf; lia|done|]. exists pl2, S2, Y2. split; [done|]. split; [done|]. split; [done|by eapply tops_frame_trans].
Qed.

(** The end of a group: what was deferred longest is free, and the group that follows is
    the next to be synced. *)
Lemma spa_sync_vdevs_done_ok s pl X : pool_ok s pl X -> chain (spa_vdev_txg_list pl) s = [] -> s + 1 < 2 ^ 63 ->
  exists pl', spa_sync_vdevs_done pl s = Ok pl' /\ pool_ok (s + 1) pl' (fun g p => x_turn s (X g p)) /\ tops_frame pl pl'.
Proof using All.
  intros Hok Hc Hs. destruct (finish_start s pl X Hok Hc Hs) as (S & Y & Hfi). unfold spa_sync_vdevs_done. rewrite clean_chain. destruct (finish_loop s X Hs _ pl S Y (Nat.lt_succ_diag_r _) Hfi) as (pl' & S' & Y' & E & Hfi' & Hc' & R). exists pl'. split; [exact E|]. split; [by eapply finish_end|done].
Qed.
End finish.
End MetaslabFinish.
