(* ===== verification/MetaslabRotor.v ===== *)
(** The rotor: the groups of a class that are active, in a circle.

    Groups become active and passive: the circle of a class grows and shrinks. *)

From S2P Require Import Prelude Avl AvlSpec OrdTree SpaceMap SpaceSet SpaceMapOk SpaceMapWalk SpaceMapRanges SpaceMapSpec SpaceLog SpaceSync SpaceLoad SpaceLogSpec MetaslabInv Metaslab MetaslabOk MetaslabSpec TxgList MetaslabSync MetaslabCycle RaidzMap Blkptr MetaslabGroup MetaslabTree MetaslabPool MetaslabBlock MetaslabPass MetaslabFinish.
Import SpaceMap SpaceSet SpaceMapOk SpaceMapCut SpaceMapWalk SpaceMapRanges SpaceMapSpec SpaceLog SpaceEntry SpaceSync SpaceLoad SpaceLogSpec SpaceFrame Metaslab MetaslabPick MetaslabOk MetaslabSpec TxgList MetaslabSync MetaslabSlab MetaslabInv MetaslabWrite MetaslabTurn MetaslabTake Blkptr MetaslabGroup MetaslabTree MetaslabPool MetaslabState MetaslabUse MetaslabPlace MetaslabBlock MetaslabRound MetaslabPass MetaslabDone MetaslabFinish.
Open Scope Z_scope.

Module MetaslabRing.

(** ** Circles *)

(** Each element with the one that follows; the first follows the last. *)
Definition pairs (L : list Z) : list (Z * Z) := match L with [] => [] | x :: l => zip L (l ++ [x]) end.

Lemma pairs_rot x l : pairs (l ++ [x]) ≡ₚ pairs (x :: l).
Proof.
  destruct l as [|y l]; [done|]. change (zip ((y :: l) ++ [x]) ((l ++ [x]) ++ [y]) ≡ₚ (x, y) :: zip (y :: l) (l ++ [x])). rewrite zip_with_app by (rewrite length_app; cbn; lia). cbn [zip_with]. by rewrite <- Permutation_cons_append.
Qed.

Lemma pairs_rotate L1 L2 : pairs (L1 ++ L2) ≡ₚ pairs (L2 ++ L1).
Proof.
  revert L2. induction L1 as [|x L1 IH]; intros L2; [by rewrite app_nil_r|]. cbn [app]. rewrite <- pairs_rot, <- app_assoc, IH. by rewrite <- app_assoc.
Qed.

Record ringed (nx pv : Z -> option Z) (L : list Z) : Prop := {
  rg_nodup : NoDup L;
  rg_pairs a b : (a, b) ∈ pairs L -> nx a = Some b /\ pv b = Some a }.

Lemma ringed_rotate nx pv L1 L2 : ringed nx pv (L1 ++ L2) -> ringed nx pv (L2 ++ L1).
Proof. intros [H1 H2]. split; [by rewrite (Permutation_app_comm L2 L1)|]. intros a b. rewrite pairs_rotate. apply H2. Qed.

(** A circle can start anywhere. *)
Lemma ringed_from nx pv L r : ringed nx pv L -> r ∈ L -> exists l, ringed nx pv (r :: l) /\ L ≡ₚ r :: l.
Proof. intros Hr (L1 & L2 & ->)%list_elem_of_split. exists (L2 ++ L1). split; [exact (ringed_rotate _ _ _ _ Hr)|]. rewrite (Permutation_app_comm L1). done. Qed.

Lemma ringed_ext nx pv nx' pv' L : ringed nx pv L -> (forall a, a ∈ L -> nx' a = nx a /\ pv' a = pv a) -> ringed nx' pv' L.
Proof.
  intros [H1 H2] He. split; [done|]. intros a b Hab. destruct (H2 a b Hab) as [E1 E2]. destruct L as [|x l]; [by apply not_elem_of_nil in Hab|]. apply elem_of_zip_l in Hab as Ha. apply elem_of_zip_r in Hab as Hb.
  rewrite (proj1 (He a Ha)), (proj2 (He b ltac:(rewrite elem_of_app, list_elem_of_singleton in Hb; rewrite elem_of_cons; tauto))). done.
Qed.

Lemma ringed_next nx pv L1 g L2 r : ringed nx pv (L1 ++ g :: L2) -> hd g (L1 ++ [g]) = r -> nx g = Some (hd r L2).
Proof.
  intros [_ H] Er. apply (H g (hd r L2)). destruct L1 as [|x L1]; cbn in Er; subst r.
  - cbn [app pairs]. destruct L2; left.
  - change (pairs ((x :: L1) ++ g :: L2)) with (zip ((x :: L1) ++ g :: L2) ((L1 ++ g :: L2) ++ [x])). apply elem_of_lookup_zip_with. exists (S (length L1)), g, (hd x L2). split; [done|]. split; [by apply list_lookup_middle|]. destruct L2 as [|y L2]; cbn [hd].
    + change ((L1 ++ [g]) ++ [x]) with ((L1 ++ [g]) ++ x :: []). apply list_lookup_middle. rewrite length_app. cbn. lia.
    + replace ((L1 ++ g :: y :: L2) ++ [x]) with ((L1 ++ [g]) ++ y :: (L2 ++ [x])) by (by rewrite <- !app_assoc). apply list_lookup_middle. rewrite length_app. cbn. lia.
Qed.

(** An element is put in after the first one. *)
Lemma ringed_insert nx pv nx' pv' r l g h : ringed nx pv (r :: l) -> (g ∉ r :: l) -> nx r = Some h -> (forall x, nx' x = if decide (x = r) then Some g else if decide (x = g) then Some h else nx x) ->
  (forall x, pv' x = if decide (x = h) then Some g else if decide (x = g) then Some r else pv x) -> ringed nx' pv' (r :: g :: l).
Proof.
  intros Hr Hg Hh En Ep. pose proof (ringed_next nx pv [] r l r Hr eq_refl) as Enx. rewrite Hh in Enx. injection Enx as Eh. destruct Hr as [Hnd Hpr]. apply list.NoDup_cons in Hnd as [Hrl Hnd]. apply not_elem_of_cons in Hg as [Hgr Hgl].
  assert (Em : exists m, l ++ [r] = h :: m) by (subst h; destruct l as [|y l]; [by exists []|by exists (l ++ [r])]). destruct Em as [m Em]. assert (Hndm : NoDup (h :: m)) by (rewrite <- Em; rewrite <- Permutation_cons_append; by constructor). apply list.NoDup_cons in Hndm as [Hhm _].
  assert (Hhin : h ∈ l ++ [r]) by (rewrite Em; left). assert (Hhg : h <> g) by (intros ->; rewrite elem_of_app, list_elem_of_singleton in Hhin; tauto). split; [constructor; [rewrite elem_of_cons; intros [->|]; done|by constructor]|]. intros a b. cbn [pairs]. rewrite <- app_comm_cons, Em. cbn [zip_with]. rewrite !elem_of_cons. intros [[= -> ->]|[[= -> ->]|Hab]].
  - rewrite En, Ep, decide_True, decide_False, decide_True by (done || congruence). done.
  - rewrite En, Ep, decide_False, !decide_True by (done || congruence). done.
  - destruct (Hpr a b) as [E1 E2]; [cbn [pairs]; rewrite Em; by right|]. apply elem_of_zip_l in Hab as Ha. apply elem_of_zip_r in Hab as Hb. assert (Hbin : b ∈ l ++ [r]) by (rewrite Em; by right). rewrite elem_of_app, list_elem_of_singleton in Hbin.
    assert (a <> r) by (by intros ->). assert (a <> g) by (by intros ->). assert (b <> h) by (by intros ->). assert (b <> g) by (intros ->; tauto). rewrite En, Ep, !decide_False by done. done.
Qed.

(** The first element is taken out. *)
Lemma ringed_remove nx pv nx' pv' g h l0 p : ringed nx pv (g :: h :: l0) -> pv g = Some p -> (forall x, x <> g -> nx' x = if decide (x = p) then Some h else nx x) -> (forall x, x <> g -> pv' x = if decide (x = h) then Some p else pv x) -> ringed nx' pv' (h :: l0).
Proof.
  intros [Hnd Hpr] Hp En Ep. apply list.NoDup_cons in Hnd as [Hgl Hnd]. assert (El : exists l1 q, h :: l0 = l1 ++ [q]) by (destruct (exists_last (l := h :: l0) ltac:(done)) as (l1 & q & E); by exists l1, q). destruct El as (l1 & q & El). assert (Hlen : length l1 = length l0) by (apply (f_equal length) in El; rewrite length_app in El; cbn in El; lia).
  assert (Hz : zip (h :: l0) (l0 ++ [g]) = zip l1 l0 ++ [(q, g)]) by (rewrite El, zip_with_app by done; done). assert (Hz' : zip (h :: l0) (l0 ++ [h]) = zip l1 l0 ++ [(q, h)]) by (rewrite El, zip_with_app by done; done).
  assert (Hpr' : forall a b, (a, b) ∈ zip l1 l0 ++ [(q, g)] -> nx a = Some b /\ pv b = Some a) by (intros a b Hab; apply Hpr; change (pairs (g :: h :: l0)) with ((g, h) :: zip (h :: l0) (l0 ++ [g])); right; by rewrite Hz). destruct (Hpr' q g) as [_ Eq]; [rewrite elem_of_app; right; left|]. rewrite Hp in Eq. injection Eq as <-.
  assert (Hndl : NoDup (l1 ++ [p])) by (by rewrite <- El). apply list.NoDup_app in Hndl as (_ & Hdis & _). apply list.NoDup_cons in Hnd as Hnd'. destruct Hnd' as [Hhl Hndl0]. assert (Hpl : p ∈ h :: l0) by (rewrite El, elem_of_app; right; left). assert (Hpg : p <> g) by (by intros ->). assert (Hhg : h <> g) by (intros ->; apply Hgl; left).
  split; [done|]. intros a b. change (pairs (h :: l0)) with (zip (h :: l0) (l0 ++ [h])). rewrite Hz', elem_of_app. intros [Hab|[= -> ->]%list_elem_of_singleton].
  - destruct (Hpr' a b) as [E1 E2]; [rewrite elem_of_app; by left|]. apply elem_of_zip_l in Hab as Ha. apply elem_of_zip_r in Hab as Hb. assert (a <> p) by (intros ->; apply (Hdis p Ha); left). assert (b <> h) by (by intros ->).
    assert (a <> g) by (intros ->; apply Hgl; rewrite El, elem_of_app; by left). assert (b <> g) by (intros ->; apply Hgl; by right). rewrite En, Ep, !decide_False by done. done.
  - rewrite En, Ep, !decide_True by done. done.
Qed.

(** A class with another rotor. *)
Definition same_ops (mc mc' : metaslab_class) : Prop := mc_ops mc' = mc_ops mc /\ mc_space mc' = mc_space mc.

#[export] Instance same_ops_preorder : PreOrder same_ops.
Proof. split; [done|]. intros a b c [A1 A2] [B1 B2]. split; congruence. Qed.

Section ring.
Context {T I D : Type} {HT : Tree T I} {HK : Kmem} {HD : Dmu D} {HB : DmuObjects D} {HE : SpaEnv} {HTL : TreeLaws T I} {HKL : KmemLaws} {HDL : DmuLaws D} {HBL : DmuObjectLaws D}.
Implicit Types (pl : pool T D) (mg : metaslab_group T) (msp : metaslab T) (d : D).

(** ** Pools that differ in the rotors *)

(** A group with other links and aliquots. *)
Definition group_but mg mg' : Prop := exists prev next n a b fw, mg' = with_vd (with_bias (with_aliquot (with_count (with_ring mg prev next) n) a) b) (with_fastwrite (mg_vd mg) fw).

Record pool_but pl pl' : Prop := {
  pb_mos : spa_mos pl' = spa_mos pl;
  pb_list : spa_vdev_txg_list pl' = spa_vdev_txg_list pl;
  pb_tops : length (spa_tops pl') = length (spa_tops pl);
  pb_classes : Forall2 same_ops (spa_classes pl) (spa_classes pl');
  pb_group g mg : top pl g = Some mg -> exists mg', top pl' g = Some mg' /\ group_but mg mg' }.

Lemma group_but_refl mg : group_but mg mg.
Proof. exists (mg_prev mg), (mg_next mg), (mg_activation_count mg), (mg_aliquot mg), (mg_bias mg), (vdev_pending_fastwrite (mg_vd mg)). destruct mg as [? ? ? ? ? ? ? []]. done. Qed.

Lemma group_but_trans mg1 mg2 mg3 : group_but mg1 mg2 -> group_but mg2 mg3 -> group_but mg1 mg3.
Proof. intros (p & n & c & a & b & f & ->) (p' & n' & c' & a' & b' & f' & ->). by exists p', n', c', a', b', f'. Qed.

Lemma pool_but_refl pl : pool_but pl pl.
Proof. split; try done. intros g mg E. exists mg. split; [done|apply group_but_refl]. Qed.

Lemma pool_but_trans pl1 pl2 pl3 : pool_but pl1 pl2 -> pool_but pl2 pl3 -> pool_but pl1 pl3.
Proof.
  intros [A1 A2 A3 A4 A5] [B1 B2 B3 B4 B5]. split; try congruence.
  - by etrans.
  - intros g mg E. destruct (A5 g mg E) as (mg2 & E2 & F2). destruct (B5 g mg2 E2) as (mg3 & E3 & F3). exists mg3. split; [done|by eapply group_but_trans].
Qed.

Lemma pool_but_put pl g mg mg' : top pl g = Some mg -> group_but mg mg' -> pool_but pl (put pl g mg').
Proof.
  intros Hg Hb. split; try done; [apply length_insert|]. intros g' m Em. rewrite (proj2 (set_mg_ok pl g mg mg' Hg)). case_decide as Hgg; [subst g'; exists mg'; split; [done|]; congruence|]. exists m. split; [done|apply group_but_refl].
Qed.

Lemma pool_but_top pl pl' g mg' : pool_but pl pl' -> top pl' g = Some mg' -> exists mg, top pl g = Some mg /\ group_but mg mg'.
Proof.
  intros Hb Hg. assert (Hlt : 0 <= g < zlen (spa_tops pl)) by (rewrite <- (pb_tops _ _ Hb); unfold top in Hg; case_decide; [|done]; apply lookup_lt_Some in Hg; lia). destruct (lookup_lt_is_Some_2 (spa_tops pl) (Z.to_nat g)) as [mg E]; [lia|].
  assert (Et : top pl g = Some mg) by (unfold top; by rewrite decide_True by lia). exists mg. split; [done|]. destruct (pb_group _ _ Hb g mg Et) as (mg2 & E2 & F2). congruence.
Qed.

Lemma pool_but_class pl pl' c mc : pool_but pl pl' -> get_mc pl c = Ok mc -> exists mc', get_mc pl' c = Ok mc' /\ same_ops mc mc'.
Proof.
  intros Hb [Hc Hl]%rd_ok_inv. destruct (Forall2_lookup_l _ _ _ _ _ (pb_classes _ _ Hb) Hl) as (mc' & Hl' & E). exists mc'. split; [by apply rd_Some; [lia|]|done].
Qed.

Lemma pool_but_ok s pl pl' X : pool_but pl pl' -> pool_ok s pl X -> pool_ok s pl' X.
Proof using All.
  intros Hb [[H1 H2 H3 H4 H5 H6 H7 H8] Hd]. assert (Hob : forall g p o, object_of pl' g p o -> object_of pl g p o).
  { intros g p o (m & x & Em & Ex & Eo). destruct (pool_but_top _ _ _ _ Hb Em) as (mg & Eg & (? & ? & ? & ? & ? & ? & ->)). by exists mg, x. }
  split; [constructor|].
  - intros g m Em. destruct (pool_but_top _ _ _ _ Hb Em) as (mg & Eg & (p & n & c & a & b & f & ->)). rewrite (pb_mos _ _ Hb). eapply group_ext; [exact (H1 g mg Eg)|done|apply (vo_list _ (go_vd _ _ _ _ (H1 g mg Eg)))|done|done|done].
  - intros g1 p1 g2 p2 o A%Hob B%Hob. by apply H2.
  - intros g1 p1 o g2 m A%Hob Em. destruct (pool_but_top _ _ _ _ Hb Em) as (mg & Eg & (p & n & c & a & b & f & ->)). by apply (H3 g1 p1 o g2 mg).
  - intros g1 g2 m1 m2 E1 E2. destruct (pool_but_top _ _ _ _ Hb E1) as (mg1 & Eg1 & (? & ? & ? & ? & ? & ? & ->)). destruct (pool_but_top _ _ _ _ Hb E2) as (mg2 & Eg2 & (? & ? & ? & ? & ? & ? & ->)). exact (H4 g1 g2 mg1 mg2 Eg1 Eg2).
  - intros g m Em. destruct (pool_but_top _ _ _ _ Hb Em) as (mg & Eg & (p & n & c & a & b & f & ->)). rewrite (pb_mos _ _ Hb). exact (H5 g mg Eg).
  - intros g m Em. destruct (pool_but_top _ _ _ _ Hb Em) as (mg & Eg & (p & n & c & a & b & f & ->)). destruct (H6 g mg Eg) as (mc & Ec & Eo). destruct (pool_but_class _ _ _ _ Hb Ec) as (mc' & Ec' & Eo' & _). exists mc'. split; [exact Ec'|]. congruence.
  - by rewrite (pb_list _ _ Hb).
  - intros t q. rewrite (pb_list _ _ Hb). intros Hq. destruct (H8 t q Hq) as [mg Eg]. destruct (pb_group _ _ Hb q mg Eg) as (mg' & E & _). by eexists.
  - intros g m Em. destruct (pool_but_top _ _ _ _ Hb Em) as (mg & Eg & (p & n & c & a & b & f & ->)). pose proof (Hd g mg Eg) as [D1 D2 D3]. constructor; [exact D1|exact D2|]. intros q t Hq. unfold on_list. rewrite (pb_list _ _ Hb). by apply D3.
Qed.

(** ** The rotors of a pool *)

Definition nextof pl (g : Z) : option Z := mg ← top pl g; mg_next mg.
Definition prevof pl (g : Z) : option Z := mg ← top pl g; mg_prev mg.
Definition countof pl (g : Z) : option Z := mg_activation_count <$> top pl g.

Record ring_at pl (c : Z) (rotor : option Z) (L : list Z) : Prop := {
  ra_ring : ringed (nextof pl) (prevof pl) L;
  ra_member g : g ∈ L <-> exists mg, top pl g = Some mg /\ mg_class mg = c /\ 0 < mg_activation_count mg;
  ra_rotor : match rotor with None => L = [] | Some r => r ∈ L end }.

(** The active groups of every class are in a circle, the others in none. *)
Record rings pl : Prop := {
  ri_ring c mc : get_mc pl c = Ok mc -> exists L, ring_at pl c (mc_rotor mc) L;
  ri_class g mg : top pl g = Some mg -> exists mc, get_mc pl (mg_class mg) = Ok mc;
  ri_count g mg : top pl g = Some mg -> - 2 ^ 63 < mg_activation_count mg <= 1;
  ri_off g mg : top pl g = Some mg -> mg_activation_count mg <= 0 -> mg_next mg = None /\ mg_prev mg = None }.

(** ** Links *)

(** The links and the counts of a pool that [f] has changed. *)
Definition links pl pl' (nx pv : Z -> option Z) : Prop := pool_but pl pl' /\ (forall x, nextof pl' x = nx x) /\ (forall x, prevof pl' x = pv x) /\ (forall x, countof pl' x = countof pl x) /\ spa_classes pl' = spa_classes pl.

Lemma links_put pl g mg prev next : top pl g = Some mg ->
  links pl (put pl g (with_ring mg prev next)) (fun x => if decide (x = g) then next else nextof pl x) (fun x => if decide (x = g) then prev else prevof pl x).
Proof.
  intros Hg. pose proof (proj2 (set_mg_ok pl g mg (with_ring mg prev next) Hg)) as Ht. split; [apply (pool_but_put pl g mg); [done|]; exists prev, next, (mg_activation_count mg), (mg_aliquot mg), (mg_bias mg), (vdev_pending_fastwrite (mg_vd mg)); destruct mg as [? ? ? ? ? ? ? []]; done|].
  split_and!; [..|done]; intros x; [unfold nextof|unfold prevof|unfold countof]; rewrite Ht; case_decide as E; try done. subst x. by rewrite Hg.
Qed.

Lemma set_next_ok pl g v : is_Some (top pl g) -> exists pl', set_next pl g v = Ok pl' /\ links pl pl' (fun x => if decide (x = g) then v else nextof pl x) (prevof pl).
Proof.
  intros [mg Hg]. unfold set_next. rewrite (get_mg_ok _ _ _ Hg). cbn [mbind res_bind]. rewrite (proj1 (set_mg_ok pl g mg _ Hg)). eexists. split; [done|]. destruct (links_put pl g mg (mg_prev mg) v Hg) as (L1 & L2 & L3 & L4 & L5). split_and!; try done.
  - intros x. rewrite L3. case_decide as E; [|done]. subst x. unfold prevof. by rewrite Hg.
Qed.

Lemma set_prev_ok pl g v : is_Some (top pl g) -> exists pl', set_prev pl g v = Ok pl' /\ links pl pl' (nextof pl) (fun x => if decide (x = g) then v else prevof pl x).
Proof.
  intros [mg Hg]. unfold set_prev. rewrite (get_mg_ok _ _ _ Hg). cbn [mbind res_bind]. rewrite (proj1 (set_mg_ok pl g mg _ Hg)). eexists. split; [done|]. destruct (links_put pl g mg v (mg_next mg) Hg) as (L1 & L2 & L3 & L4 & L5). split_and!; try done.
  - intros x. rewrite L2. case_decide as E; [|done]. subst x. unfold nextof. by rewrite Hg.
Qed.

Lemma links_trans pl1 pl2 pl3 nx pv nx' pv' : links pl1 pl2 nx pv -> links pl2 pl3 nx' pv' -> links pl1 pl3 nx' pv'.
Proof. intros (A1 & A2 & A3 & A4 & A5) (B1 & B2 & B3 & B4 & B5). split_and!; [by eapply pool_but_trans|done|done|intros x; by rewrite B4|congruence]. Qed.

Lemma links_some pl pl' nx pv g : links pl pl' nx pv -> is_Some (top pl g) -> is_Some (top pl' g).
Proof. intros (A1 & _) [mg Hg]. destruct (pb_group _ _ A1 g mg Hg) as (mg' & E & _). by eexists. Qed.

(** The rotor of a class is set. *)
Definition rotors pl pl' (c : Z) (r : option Z) : Prop := pool_but pl pl' /\ (forall x, top pl' x = top pl x) /\ (forall c' mc', get_mc pl' c' = Ok mc' -> exists mc, get_mc pl c' = Ok mc /\ mc_rotor mc' = if decide (c' = c) then r else mc_rotor mc).

Lemma set_class_ok pl c mc r a : get_mc pl c = Ok mc -> exists pl', set_mc pl c (with_rotor mc r a) = Ok pl' /\ rotors pl pl' c r /\ get_mc pl' c = Ok (with_rotor mc r a).
Proof.
  intros E. pose proof (rd_ok_inv _ _ _ E) as [Hb Hl]. unfold set_mc. rewrite wr_in_bounds by done. cbn [mbind res_bind]. eexists. split; [done|]. split; [|apply rd_Some; [lia|]; cbn; apply list_lookup_insert_eq; lia]. split; [|split].
  - split; try done. 2: { intros g mg Hg. exists mg. split; [done|apply group_but_refl]. } cbn. rewrite <- (list_insert_id (spa_classes pl) _ mc Hl) at 1. apply Forall2_insert; [reflexivity|done].
  - done.
  - intros c' mc' [Hb' Hl']%rd_ok_inv. cbn in Hb', Hl'. rewrite length_insert in Hb'. destruct (decide (c' = c)) as [->|Hne]; [rewrite list_lookup_insert_eq in Hl' by lia; injection Hl' as <-; by exists mc|]. rewrite list_lookup_insert_ne in Hl' by lia. exists mc'. split; [|done]. by apply rd_Some; [lia|].
Qed.

Lemma but_class pl pl' g mg mg' : pool_but pl pl' -> top pl g = Some mg -> top pl' g = Some mg' -> mg_class mg' = mg_class mg.
Proof. intros Hb Hg Hg'. destruct (pb_group _ _ Hb g mg Hg) as (m & E & (? & ? & ? & ? & ? & ? & Em)). assert (mg' = m) as -> by congruence. by rewrite Em. Qed.

(** The circle of one class changes. *)
Lemma rings_change pl pl' g mg n rot L : rings pl -> pool_but pl pl' -> top pl g = Some mg -> (forall x, countof pl' x = if decide (x = g) then Some n else countof pl x) -> - 2 ^ 63 < n <= 1 ->
  (forall c mc', get_mc pl' c = Ok mc' -> exists mc, get_mc pl c = Ok mc /\ mc_rotor mc' = if decide (c = mg_class mg) then rot else mc_rotor mc) -> ring_at pl' (mg_class mg) rot L ->
  (forall x m, top pl x = Some m -> mg_class m <> mg_class mg -> nextof pl' x = nextof pl x /\ prevof pl' x = prevof pl x) ->
  (forall x m', top pl' x = Some m' -> mg_class m' = mg_class mg -> mg_activation_count m' <= 0 -> mg_next m' = None /\ mg_prev m' = None) -> rings pl'.
Proof using All.
  intros [R1 R2 R3 R4] Hb Hg Hc Hn Hr HL Hl Ho. assert (Hback : forall x m', top pl' x = Some m' -> exists m, top pl x = Some m /\ mg_class m' = mg_class m /\ (x <> g -> mg_activation_count m' = mg_activation_count m)).
  { intros x m' Hx. destruct (pool_but_top _ _ _ _ Hb Hx) as (m & Em & _). exists m. split; [done|]. split; [by eapply but_class|]. intros Hne. specialize (Hc x). unfold countof in Hc. rewrite Hx, Em, decide_False in Hc by done. by injection Hc. }
  constructor.
  - intros c mc' Emc'. destruct (Hr c mc' Emc') as (mc & Emc & Er). case_decide as Ecc; [subst c; rewrite Er; by exists L|]. destruct (R1 c mc Emc) as (L0 & [A1 A2 A3]). exists L0. rewrite Er. constructor; [|..|done].
    + eapply ringed_ext; [exact A1|]. intros x Hx. apply A2 in Hx as (m & Em & Emc1 & _). apply (Hl x m Em). congruence.
    + intros x. rewrite A2. split.
      * intros (m & Em & Ec1 & Ec2). destruct (pb_group _ _ Hb x m Em) as (m' & Em' & _). destruct (Hback x m' Em') as (m2 & Em2 & Ec3 & Ec4). assert (m2 = m) as -> by congruence. exists m'. split; [done|]. split; [congruence|]. rewrite Ec4; [done|]. intros ->. congruence.
      * intros (m' & Em' & Ec1 & Ec2). destruct (Hback x m' Em') as (m & Em & Ec3 & Ec4). exists m. split; [done|]. split; [congruence|]. rewrite <- Ec4; [done|]. intros ->. congruence.
  - intros x m' Hx. destruct (Hback x m' Hx) as (m & Em & -> & _). destruct (R2 x m Em) as [mc Emc]. destruct (pool_but_class _ _ _ _ Hb Emc) as (mc' & E & _). by exists mc'.
  - intros x m' Hx. destruct (Hback x m' Hx) as (m & Em & _ & Ec). destruct (decide (x = g)) as [->|Hne]; [|rewrite Ec by done; by apply (R3 x)]. specialize (Hc g). unfold countof in Hc. rewrite Hx, decide_True in Hc by done. injection Hc as ->. done.
  - intros x m' Hx Hle. destruct (Hback x m' Hx) as (m & Em & Ecl & Ec). destruct (decide (mg_class m' = mg_class mg)) as [E|E]; [by apply (Ho x)|]. destruct (Hl x m Em) as [En Ep]; [congruence|]. assert (x <> g) by (intros ->; congruence). rewrite Ec in Hle by done. destruct (R4 x m Em Hle) as [E1 E2].
    unfold nextof in En. unfold prevof in Ep. rewrite Hx, Em in En, Ep. cbn in En, Ep. split; congruence.
Qed.

(** The count and the aliquot of a group are set. *)
Lemma count_put pl g mg n a : top pl g = Some mg -> pool_but pl (put pl g (with_aliquot (with_count mg n) a)) /\ (forall x, nextof (put pl g (with_aliquot (with_count mg n) a)) x = nextof pl x) /\ (forall x, prevof (put pl g (with_aliquot (with_count mg n) a)) x = prevof pl x) /\
  (forall x, countof (put pl g (with_aliquot (with_count mg n) a)) x = if decide (x = g) then Some n else countof pl x).
Proof.
  intros Hg. set (mg' := with_aliquot (with_count mg n) a). pose proof (proj2 (set_mg_ok pl g mg mg' Hg)) as Ht. split; [apply (pool_but_put pl g mg); [done|]; exists (mg_prev mg), (mg_next mg), n, a, (mg_bias mg), (vdev_pending_fastwrite (mg_vd mg)); destruct mg as [? ? ? ? ? ? ? []]; done|].
  split_and!; intros x; [unfold nextof|unfold prevof|unfold countof]; rewrite Ht; case_decide as E; try done; subst x; by rewrite Hg.
Qed.
End ring.
End MetaslabRing.

Import MetaslabRing.

Module MetaslabRotor.

Section rotor.
Context {T I D : Type} {HT : Tree T I} {HK : Kmem} {HD : Dmu D} {HB : DmuObjects D} {HE : SpaEnv} {HTL : TreeLaws T I} {HKL : KmemLaws} {HDL : DmuLaws D} {HBL : DmuObjectLaws D}.
Implicit Types (pl : pool T D) (mg : metaslab_group T).

Lemma i64_small x : - 2 ^ 63 <= x < 2 ^ 63 -> i64 x = x.
Proof. intros. dlia. Qed.

(** The members of the circle of a class once the count of [g] has become [n]. *)
Lemma members_count pl pl' g mg n : pool_but pl pl' -> top pl g = Some mg -> (forall x, countof pl' x = if decide (x = g) then Some n else countof pl x) -> forall x, (exists m, top pl' x = Some m /\ mg_class m = mg_class mg /\ 0 < mg_activation_count m) <->
  (x = g /\ 0 < n) \/ (x <> g /\ exists m, top pl x = Some m /\ mg_class m = mg_class mg /\ 0 < mg_activation_count m).
Proof using All.
  intros Hb Hg Hc x. specialize (Hc x). unfold countof in Hc. split.
  - intros (m' & Hx & E1 & E2). destruct (pool_but_top _ _ _ _ Hb Hx) as (m & Em & _). rewrite Hx, Em in Hc. case_decide as E; cbn in Hc; injection Hc as Hc; [left; split; [done|lia]|]. right. split; [done|]. exists m. split; [done|]. split; [rewrite <- E1; symmetry; by eapply but_class|lia].
  - intros [[-> Hn]|(Hne & m & Em & E1 & E2)].
    + destruct (pb_group _ _ Hb g mg Hg) as (m' & Em' & _). rewrite Em', decide_True in Hc by done. injection Hc as Hc. exists m'. split; [done|]. split; [by eapply but_class|lia].
    + destruct (pb_group _ _ Hb x m Em) as (m' & Em' & _). rewrite Em', Em, decide_False in Hc by done. injection Hc as Hc. exists m'. split; [done|]. split; [rewrite <- E1; by eapply but_class|lia].
Qed.

(** Only the count of a group that is and stays passive changes. *)
Lemma rings_count pl g mg n : rings pl -> top pl g = Some mg -> mg_activation_count mg <= 0 -> - 2 ^ 63 < n <= 0 -> rings (put pl g (with_count mg n)) /\ pool_but pl (put pl g (with_count mg n)).
Proof using All.
  intros Hr Hg Hc Hn. assert (Em : with_count mg n = with_aliquot (with_count mg n) (mg_aliquot mg)) by (by destruct mg). rewrite Em. destruct (count_put pl g mg n (mg_aliquot mg) Hg) as (Hb & Hnx & Hpv & Hct). split; [|done]. destruct (ri_class _ Hr g mg Hg) as [mc Emc]. destruct (ri_ring _ Hr _ _ Emc) as (L & [A1 A2 A3]).
  eapply (rings_change pl _ g mg n (mc_rotor mc) L Hr Hb Hg Hct); [lia|..].
  - intros c mc' Emc'. change (get_mc pl c = Ok mc') in Emc'. exists mc'. split; [done|]. case_decide as E; [subst c; congruence|done].
  - constructor; [eapply ringed_ext; [exact A1|]; intros x _; by rewrite Hnx, Hpv| |done]. intros x. rewrite A2, (members_count pl _ g mg n Hb Hg Hct). split; [|intros [[_ ?]|[_ ?]]; [lia|done]]. intros (m & Em' & E1 & E2). right. split; [|by exists m]. intros ->. assert (m = mg) by congruence. subst m. lia.
  - intros x m _ _. by rewrite Hnx, Hpv.
  - intros x m' Hx _ Hle. specialize (Hnx x). specialize (Hpv x). specialize (Hct x). destruct (pool_but_top _ _ _ _ Hb Hx) as (m & Ex & _). unfold nextof, prevof, countof in *. rewrite Hx, Ex in *. cbn in Hnx, Hpv, Hct. rewrite Hnx, Hpv. apply (ri_off _ Hr x m Ex). case_decide as E; [subst x; congruence|]. injection Hct as Hct. lia.
Qed.

(** The links of a circle with the group [g] in it, and the rotor on it. *)
Lemma joined pl g mg pl2 pl3 pl4 nx pv L : rings pl -> top pl g = Some mg -> mg_activation_count mg = 0 -> (exists a, pl2 = put pl g (with_aliquot (with_count mg 1) a)) -> links pl2 pl3 nx pv -> rotors pl3 pl4 (mg_class mg) (Some g) -> ringed nx pv L ->
  (forall x, x ∈ L <-> x = g \/ exists m, top pl x = Some m /\ mg_class m = mg_class mg /\ 0 < mg_activation_count m) -> (forall x, x ∉ L -> nx x = nextof pl x /\ pv x = prevof pl x) ->
  rings pl4 /\ pool_but pl pl4 /\ forall x, countof pl4 x = if decide (x = g) then Some 1 else countof pl x.
Proof using All.
  intros Hr Hg H0 [a ->] (B1 & Hnx & Hpv & Hct & Ecl) (B2 & Ht & Hro) HL Hm Hl. destruct (count_put pl g mg 1 a Hg) as (B0 & _ & _ & Hct0). assert (Hb : pool_but pl pl4) by (by eapply pool_but_trans, pool_but_trans).
  assert (Et : forall x, nextof pl4 x = nx x /\ prevof pl4 x = pv x /\ countof pl4 x = if decide (x = g) then Some 1 else countof pl x).
  { intros x. unfold nextof, prevof, countof in *. rewrite Ht. split; [apply Hnx|]. split; [apply Hpv|]. by rewrite Hct. }
  assert (Hct4 : forall x, countof pl4 x = if decide (x = g) then Some 1 else countof pl x) by (intros x; apply Et). split; [|split; done].
  eapply (rings_change pl pl4 g mg 1 (Some g) L Hr Hb Hg Hct4); [lia|..].
  - intros c mc' Emc'. destruct (Hro c mc' Emc') as (mc & Emc & Er). exists mc. split; [|done]. unfold get_mc in *. by rewrite Ecl in Emc.
  - constructor; [eapply ringed_ext; [exact HL|]; intros x _; destruct (Et x) as (-> & -> & _); done| |apply Hm; by left]. intros x. rewrite Hm, (members_count pl pl4 g mg 1 Hb Hg Hct4). destruct (decide (x = g)) as [->|]; [split; [left; split; [done|lia]|by left]|]. split; [intros [|]; [done|by right]|intros [[? _]|[_ ?]]; [done|by right]].
  - intros x m Ex Hne. destruct (Et x) as (-> & -> & _). apply Hl. rewrite Hm. intros [->|(m2 & E2 & E3 & _)]; congruence.
  - intros x m' Hx Ecm Hle. destruct (Et x) as (E1 & E2 & E3). destruct (pool_but_top _ _ _ _ Hb Hx) as (m & Ex & _). unfold countof in E3. rewrite Hx, Ex in E3. assert (Hxg : x <> g) by (intros ->; rewrite decide_True in E3 by done; injection E3 as E3; lia). rewrite decide_False in E3 by done. injection E3 as E3.
    destruct (Hl x) as [F1 F2]; [rewrite Hm; intros [->|(m2 & F2 & F3 & F4)]; [done|]; assert (m2 = m) as -> by congruence; lia|]. unfold nextof, prevof in *. rewrite Hx, Ex in *. cbn in E1, E2, F1, F2. rewrite E1, E2, F1, F2. apply (ri_off _ Hr x m Ex). lia.
Qed.

Lemma activate_ring pl g mg : rings pl -> top pl g = Some mg -> mg_activation_count mg <= 0 ->
  exists pl', metaslab_group_activate pl g = Ok pl' /\ rings pl' /\ pool_but pl pl' /\ forall x, countof pl' x = if decide (x = g) then Some (mg_activation_count mg + 1) else countof pl x.
Proof using All.
  intros Hr Hg Hc. pose proof (ri_count _ Hr g mg Hg) as Hcb. unfold metaslab_group_activate. rewrite (get_mg_ok _ _ _ Hg). cbn [mbind res_bind]. rewrite i64_small by lia. destruct (set_mg_ok pl g mg (with_count mg (mg_activation_count mg + 1)) Hg) as [-> Ht1]. cbn [mbind res_bind].
  destruct (Z.leb_spec (mg_activation_count mg + 1) 0) as [Hle|Hgt].
  { destruct (rings_count pl g mg (mg_activation_count mg + 1) Hr Hg Hc ltac:(lia)) as [R1 R2]. eexists. split; [done|]. split; [done|]. split; [done|]. intros x. unfold countof. rewrite Ht1. by case_decide. }
  assert (H0 : mg_activation_count mg = 0) by lia. rewrite H0 in Hcb, Hgt, Ht1 |- *. change (0 + 1) with 1 in *. assert (Hg1 : top (put pl g (with_count mg 1)) g = Some (with_count mg 1)) by (by rewrite Ht1, decide_True). rewrite (get_mg_ok _ _ _ Hg1). cbn [mbind res_bind]. set (a := u64 _).
  rewrite (proj1 (set_mg_ok _ g _ (with_aliquot (with_count mg 1) a) Hg1)). cbn [mbind res_bind]. rewrite put_put. set (pl2 := put pl g (with_aliquot (with_count mg 1) a)). destruct (count_put pl g mg 1 a Hg) as (B2 & Hnx2 & Hpv2 & Hct2). fold pl2 in B2, Hnx2, Hpv2, Hct2.
  assert (Hg2 : is_Some (top pl2 g)) by (destruct (pb_group _ _ B2 g mg Hg) as (m & E & _); by eexists). destruct (ri_class _ Hr g mg Hg) as [mc Emc]. change (mg_class (with_count mg 1)) with (mg_class mg). change (get_mc pl2 (mg_class mg)) with (get_mc pl (mg_class mg)). rewrite Emc. cbn [mbind res_bind].
  destruct (ri_ring _ Hr _ _ Emc) as (L & [A1 A2 A3]). assert (HgL : g ∉ L) by (rewrite A2; intros (m & E & _ & Hm); assert (m = mg) by congruence; subst m; lia).
  assert (Hfin : forall pl3 nx pv L', links pl2 pl3 nx pv -> ringed nx pv L' -> (forall x, x ∈ L' <-> x = g \/ x ∈ L) -> (forall x, x ∉ L' -> nx x = nextof pl x /\ pv x = prevof pl x) ->
    exists pl', set_rotor pl3 (mg_class mg) (Some g) = Ok pl' /\ rings pl' /\ pool_but pl pl' /\ forall x, countof pl' x = if decide (x = g) then Some 1 else countof pl x).
  { intros pl3 nx pv L' Hlk HL' Hm' Hl'. unfold set_rotor. assert (Emc3 : get_mc pl3 (mg_class mg) = Ok mc) by (unfold get_mc; by rewrite (proj2 (proj2 (proj2 (proj2 Hlk))))). rewrite Emc3. cbn [mbind res_bind]. destruct (set_class_ok pl3 _ mc (Some g) (mc_aliquot mc) Emc3) as (pl4 & E4 & Hro & _). exists pl4. split; [done|].
    eapply (joined pl g mg pl2 pl3 pl4 nx pv L' Hr Hg H0); try done; [by exists a|]. intros x. by rewrite Hm', A2. }
  destruct (mc_rotor mc) as [r|] eqn:Er.
  - destruct (ringed_from _ _ _ _ A1 A3) as (l & Hrl & HLl). pose proof (ringed_next _ _ [] r l r Hrl eq_refl) as Enr. set (h := hd r l) in *. assert (Hr2 : exists m, top pl2 r = Some m /\ mg_next m = Some h).
    { specialize (Hnx2 r). rewrite Enr in Hnx2. unfold nextof in Hnx2. destruct (top pl2 r) as [m|]; [by exists m|done]. } destruct Hr2 as (m & Em & Enm). rewrite (get_mg_ok _ _ _ Em). cbn [mbind res_bind]. rewrite Enm. cbn [pointer mbind res_bind].
    assert (Hh2 : is_Some (top pl2 h)). { assert (Hin : h ∈ L) by (rewrite HLl; unfold h; destruct l; [left|right; left]). apply A2 in Hin as (mh & Eh & _). destruct (pb_group _ _ B2 h mh Eh) as (mh' & E & _). by eexists. }
    destruct (set_prev_ok pl2 g (Some r) Hg2) as (p3 & -> & L3). cbn [mbind res_bind]. destruct (set_next_ok p3 g (Some h) (links_some _ _ _ _ _ L3 Hg2)) as (p4 & -> & L4). cbn [mbind res_bind]. pose proof (links_trans _ _ _ _ _ _ _ L3 L4) as L34.
    destruct (set_next_ok p4 r (Some g) (links_some _ _ _ _ _ L34 ltac:(by eexists))) as (p5 & -> & L5). cbn [mbind res_bind]. pose proof (links_trans _ _ _ _ _ _ _ L34 L5) as L35. destruct (set_prev_ok p5 h (Some g) (links_some _ _ _ _ _ L35 Hh2)) as (p6 & -> & L6). cbn [mbind res_bind]. pose proof (links_trans _ _ _ _ _ _ _ L35 L6) as L36.
    destruct L3 as (_ & N3 & P3 & _), L4 as (_ & N4 & P4 & _), L5 as (_ & N5 & P5 & _). eapply (Hfin p6 _ _ (r :: g :: l)); [exact L36| | |].
    + eapply (ringed_insert (nextof pl) (prevof pl) _ _ r l g h Hrl); [by rewrite <- HLl|done|intros x; rewrite N5, N4, N3, Hnx2; done|intros x; rewrite P5, P4, P3, Hpv2; done].
    + intros x. rewrite HLl, !elem_of_cons. tauto.
    + intros x. rewrite !not_elem_of_cons. intros (X1 & X2 & X3). assert (x <> h) by (unfold h; intros ->; destruct l; [done|]; apply X3; left). rewrite N5, N4, N3, Hnx2, P5, P4, P3, Hpv2, !decide_False by done. done.
  - destruct (set_prev_ok pl2 g (Some g) Hg2) as (p3 & -> & L3). cbn [mbind res_bind]. destruct (set_next_ok p3 g (Some g) (links_some _ _ _ _ _ L3 Hg2)) as (p4 & -> & L4). cbn [mbind res_bind]. pose proof (links_trans _ _ _ _ _ _ _ L3 L4) as L34. destruct L3 as (_ & N3 & P3 & _).
    eapply (Hfin p4 _ _ [g]); [exact L34| |intros x; rewrite A3, list_elem_of_singleton, elem_of_nil; tauto|].
    + split; [apply NoDup_singleton|]. intros x y [= -> ->]%list_elem_of_singleton. rewrite P3, !decide_True by done. done.
    + intros x. rewrite list_elem_of_singleton. intros Hne. rewrite N3, Hnx2, P3, Hpv2, !decide_False by done. done.
Qed.

Lemma ringed_prev nx pv g l : ringed nx pv (g :: l) -> exists p, pv g = Some p /\ (l = [] \/ p ∈ l).
Proof.
  intros [_ H]. destruct (lookup_lt_is_Some_2 (g :: l) (length l)) as [p Hp]; [cbn; lia|]. exists p. split; [|destruct l as [|y l]; [by left|right]; exact (list_elem_of_lookup_2 (y :: l) (length l) p Hp)]. apply (H p g). change (pairs (g :: l)) with (zip (g :: l) (l ++ [g])). apply elem_of_lookup_zip_with. exists (length l), p, g. split; [done|]. split; [done|].
  by apply list_lookup_middle.
Qed.

(** The links of a circle without the group [g]. *)
Lemma parted pl g mg pl2 pl3 nx pv rot L : rings pl -> top pl g = Some mg -> rotors (put pl g (with_count mg 0)) pl2 (mg_class mg) rot -> links pl2 pl3 nx pv -> ringed nx pv L -> match rot with None => L = [] | Some r => r ∈ L end ->
  (forall x, x ∈ L <-> x <> g /\ exists m, top pl x = Some m /\ mg_class m = mg_class mg /\ 0 < mg_activation_count m) -> (forall x, x <> g -> x ∉ L -> nx x = nextof pl x /\ pv x = prevof pl x) -> nx g = None -> pv g = None ->
  rings pl3 /\ pool_but pl pl3 /\ forall x, countof pl3 x = if decide (x = g) then Some 0 else countof pl x.
Proof using All.
  intros Hr Hg (B1 & Ht & Hro) (B2 & Hnx & Hpv & Hct & Ecl) HL Hrot Hm Hl En Ep. assert (Em : with_count mg 0 = with_aliquot (with_count mg 0) (mg_aliquot mg)) by (by destruct mg). rewrite Em in *. destruct (count_put pl g mg 0 (mg_aliquot mg) Hg) as (B0 & _ & _ & Hct0).
  assert (Hb : pool_but pl pl3) by (by eapply pool_but_trans, pool_but_trans). assert (Hct3 : forall x, countof pl3 x = if decide (x = g) then Some 0 else countof pl x) by (intros x; rewrite Hct, <- Hct0; unfold countof; by rewrite Ht). split; [|split; done].
  eapply (rings_change pl pl3 g mg 0 rot L Hr Hb Hg Hct3); [lia|..].
  - intros c mc' Emc'. apply Hro. unfold get_mc in *. by rewrite Ecl in Emc'.
  - constructor; [eapply ringed_ext; [exact HL|]; intros x _; by rewrite Hnx, Hpv| |done]. intros x. rewrite Hm, (members_count pl pl3 g mg 0 Hb Hg Hct3). split; [by right|]. intros [[_ ?]|]; [lia|done].
  - intros x m Ex Hne. rewrite Hnx, Hpv. apply Hl; [intros ->; congruence|]. rewrite Hm. intros (_ & m2 & E2 & E3 & _). congruence.
  - intros x m' Hx Ecm Hle. specialize (Hnx x). specialize (Hpv x). destruct (decide (x = g)) as [->|Hxg]; [unfold nextof, prevof in *; rewrite Hx in *; cbn in Hnx, Hpv; split; congruence|].
    destruct (pool_but_top _ _ _ _ Hb Hx) as (m & Ex & _). specialize (Hct3 x). unfold countof in Hct3. rewrite Hx, Ex, decide_False in Hct3 by done. injection Hct3 as E3.
    destruct (Hl x Hxg) as [F1 F2]; [rewrite Hm; intros (_ & m2 & F2 & F3 & F4); assert (m2 = m) as -> by congruence; lia|]. unfold nextof, prevof in *. rewrite Hx, Ex in *. cbn in Hnx, Hpv, F1, F2. rewrite Hnx, Hpv, F1, F2. apply (ri_off _ Hr x m Ex). lia.
Qed.

Lemma passivate_ring pl g mg : rings pl -> top pl g = Some mg -> - 2 ^ 63 + 1 < mg_activation_count mg ->
  exists pl', metaslab_group_passivate pl g = Ok pl' /\ rings pl' /\ pool_but pl pl' /\ forall x, countof pl' x = if decide (x = g) then Some (mg_activation_count mg - 1) else countof pl x.
Proof using All.
  intros Hr Hg Hc. pose proof (ri_count _ Hr g mg Hg) as Hcb. unfold metaslab_group_passivate. rewrite (get_mg_ok _ _ _ Hg). cbn [mbind res_bind]. rewrite i64_small by lia. destruct (set_mg_ok pl g mg (with_count mg (mg_activation_count mg - 1)) Hg) as [-> Ht1]. cbn [mbind res_bind].
  destruct (Z.eqb_spec (mg_activation_count mg - 1) 0) as [Hz|Hz]; cbn [negb].
  2: { destruct (rings_count pl g mg (mg_activation_count mg - 1) Hr Hg ltac:(lia) ltac:(lia)) as [R1 R2]. eexists. split; [done|]. split; [done|]. split; [done|]. intros x. unfold countof. rewrite Ht1. by case_decide. }
  assert (H1 : mg_activation_count mg = 1) by lia. rewrite Hz in Ht1 |- *. set (pl1 := put pl g (with_count mg 0)) in *. destruct (ri_class _ Hr g mg Hg) as [mc Emc]. assert (Emc1 : get_mc pl1 (mg_class mg) = Ok mc) by done. destruct (ri_ring _ Hr _ _ Emc) as (L & [A1 A2 A3]).
  assert (HgL : g ∈ L) by (apply A2; exists mg; split_and!; [done|done|lia]). destruct (ringed_from _ _ _ _ A1 HgL) as (l & Hrl & HLl). pose proof (ringed_next _ _ [] g l g Hrl eq_refl) as Eng. destruct (ringed_prev _ _ _ _ Hrl) as (p & Epg & Hpin). set (h := hd g l) in *.
  assert (E1 : mg_next mg = Some h /\ mg_prev mg = Some p) by (unfold nextof, prevof in *; rewrite Hg in *; done). destruct E1 as [-> ->]. cbn [pointer mbind res_bind].
  assert (Hn1 : forall x, nextof pl1 x = nextof pl x /\ prevof pl1 x = prevof pl x) by (intros x; unfold nextof, prevof; rewrite Ht1; case_decide as E; [subst x; by rewrite Hg|done]).
  assert (Hs1 : forall x, x ∈ L -> is_Some (top pl1 x)) by (intros x (m & Em & _)%A2; rewrite Ht1; case_decide; by eexists). pose proof (rg_nodup _ _ _ Hrl) as Hnd. apply list.NoDup_cons in Hnd as [Hgl Hnd].
  assert (Hset : forall r, exists pl2, set_rotor pl1 (mg_class mg) r = Ok pl2 /\ rotors pl1 pl2 (mg_class mg) r) by (intros r; unfold set_rotor; rewrite Emc1; cbn [mbind res_bind]; destruct (set_class_ok pl1 _ mc r (mc_aliquot mc) Emc1) as (pl2 & E2 & Hro & _); by exists pl2).
  assert (Hm : forall x, x ∈ l <-> x <> g /\ exists m, top pl x = Some m /\ mg_class m = mg_class mg /\ 0 < mg_activation_count m) by (intros x; rewrite <- A2, HLl, elem_of_cons; split; [intros Hx; split; [by intros ->|by right]|tauto]).
  destruct (Z.eqb_spec g h) as [Egh|Egh].
  - assert (l = []) as -> by (destruct l as [|y l]; [done|]; exfalso; apply Hgl; unfold h in Egh; cbn in Egh; subst y; left). destruct (Hset None) as (pl2 & -> & Hro). cbn [mbind res_bind]. pose proof Hro as (_ & Ht2 & _).
    assert (Hs2 : is_Some (top pl2 g)) by (rewrite Ht2; by apply Hs1). destruct (set_prev_ok pl2 g None Hs2) as (p3 & -> & L3). cbn [mbind res_bind]. destruct (set_next_ok p3 g None (links_some _ _ _ _ _ L3 Hs2)) as (p4 & -> & L4). pose proof (links_trans _ _ _ _ _ _ _ L3 L4) as L34.
    exists p4. split; [done|]. destruct L3 as (_ & N3 & P3 & _). assert (Hv : forall x, nextof pl2 x = nextof pl x /\ prevof pl2 x = prevof pl x) by (intros x; unfold nextof, prevof; rewrite Ht2; apply Hn1).
    eapply (parted pl g mg pl2 p4 _ _ None [] Hr Hg Hro L34); try done; [split; [constructor|]; by intros a b ?%not_elem_of_nil|intros x Hx _; rewrite N3, P3, !decide_False by done; apply Hv|by rewrite decide_True|by rewrite P3, decide_True].
  - destruct l as [|y l0]; [done|]. cbn in h. subst h. assert (Hpl : p ∈ y :: l0) by (by destruct Hpin).
    destruct (Hset (Some y)) as (pl2 & -> & Hro). cbn [mbind res_bind]. pose proof Hro as (_ & Ht2 & _). assert (Hs2 : forall x, x ∈ L -> is_Some (top pl2 x)) by (intros x Hx; rewrite Ht2; by apply Hs1). assert (Hin : forall x, x ∈ y :: l0 -> x ∈ L) by (intros x Hx; rewrite HLl; by right).
    destruct (set_next_ok pl2 p (Some y) (Hs2 _ (Hin _ Hpl))) as (p3 & -> & L3). cbn [mbind res_bind]. destruct (set_prev_ok p3 y (Some p) (links_some _ _ _ _ _ L3 (Hs2 _ (Hin y ltac:(left))))) as (p4 & -> & L4). cbn [mbind res_bind]. pose proof (links_trans _ _ _ _ _ _ _ L3 L4) as L34.
    destruct (set_prev_ok p4 g None (links_some _ _ _ _ _ L34 (Hs2 g HgL))) as (p5 & -> & L5). cbn [mbind res_bind]. pose proof (links_trans _ _ _ _ _ _ _ L34 L5) as L35. destruct (set_next_ok p5 g None (links_some _ _ _ _ _ L35 (Hs2 g HgL))) as (p6 & -> & L6). pose proof (links_trans _ _ _ _ _ _ _ L35 L6) as L36. exists p6. split; [done|].
    destruct L3 as (_ & N3 & P3 & _), L4 as (_ & N4 & P4 & _), L5 as (_ & N5 & P5 & _). assert (Hv : forall x, nextof pl2 x = nextof pl x /\ prevof pl2 x = prevof pl x) by (intros x; unfold nextof, prevof; rewrite Ht2; apply Hn1).
    eapply (parted pl g mg pl2 p6 _ _ (Some y) (y :: l0) Hr Hg Hro L36); try done; [|left| |by rewrite decide_True|by rewrite P5, decide_True].
    + eapply (ringed_remove (nextof pl) (prevof pl) _ _ g y l0 p Hrl Epg); intros x Hx; [rewrite decide_False, N5, N4, N3 by done; case_decide; [done|apply Hv]|rewrite P5, decide_False, P4, P3 by done; case_decide; [done|apply Hv]].
    + intros x Hx HxL. assert (x <> p) by (by intros ->). assert (x <> y) by (intros ->; apply HxL; left). rewrite decide_False, N5, N4, N3, P5, !decide_False, P4, P3, !decide_False by done. apply Hv.
Qed.
End rotor.
End MetaslabRotor.
