(* ===== verification/MetaslabCircle.v ===== *)
(** Allocating a copy of a block from a group of the rotor.

    Allocating a copy of a block from a class: around the rotor until a group has space. *)

From S2P Require Import Prelude Avl AvlSpec OrdTree SpaceMap SpaceSet SpaceMapOk SpaceMapWalk SpaceMapRanges SpaceMapSpec SpaceLog SpaceSync SpaceLoad SpaceLogSpec MetaslabInv Metaslab MetaslabOk MetaslabSpec TxgList MetaslabSync MetaslabCycle RaidzMap Blkptr MetaslabGroup MetaslabTree MetaslabPool MetaslabBlock MetaslabPass MetaslabFinish MetaslabRotor.
Import RaidzMap SpaceMap SpaceSet SpaceMapOk SpaceMapCut SpaceMapWalk SpaceMapRanges SpaceMapSpec SpaceLog SpaceEntry SpaceSync SpaceLoad SpaceLogSpec SpaceFrame Metaslab MetaslabPick MetaslabOk MetaslabSpec TxgList MetaslabSync MetaslabSlab MetaslabInv MetaslabWrite MetaslabTurn MetaslabTake Blkptr MetaslabGroup MetaslabTree MetaslabPool MetaslabState MetaslabUse MetaslabPlace MetaslabBlock MetaslabRound MetaslabPass MetaslabDone MetaslabFinish MetaslabRing MetaslabRotor.
Open Scope Z_scope.

Module MetaslabChoose.

(** ** Sizes *)

(** What a block takes on a vdev is in whole sectors and fits an address. *)
Definition asize_ok (vd : top_vdev) (psize : Z) : Prop := 0 < vdev_psize_to_asize vd psize < 2 ^ 33 /\ vdev_psize_to_asize vd psize mod 2 ^ vdev_ashift vd = 0.

Lemma default_asize ashift psize : forall vd, vdev_default_asize ashift vd psize = P2ROUNDUP psize (u64 (Z.shiftl 1 ashift)).
Proof.
  fix IH 1. intros [children]. cbn. set (r := P2ROUNDUP _ _). induction children as [|c l IHl]; [done|]. cbn. rewrite IH. fold r. rewrite Z.max_id. exact IHl.
Qed.

(** A configuration of the vdev that the sizes of blocks fit. *)
Definition vdev_sized (vd : top_vdev) : Prop := 9 <= vdev_ashift vd <= 24 /\ (vdev_ops vd = vdev_raidz_ops -> 1 <= vdev_nparity vd <= 3 /\ vdev_nparity vd < zlen (vdev_child vd) <= 255).

Lemma asize_fits vd psize : vdev_sized vd -> 0 < psize <= SPA_MAXBLOCKSIZE -> asize_ok vd psize.
Proof.
  change SPA_MAXBLOCKSIZE with 131072. intros [Ha Hr] Hp. unfold asize_ok, vdev_psize_to_asize. set (U := 2 ^ vdev_ashift vd). assert (HU : 512 <= U <= 2 ^ 24) by (split; [change 512 with (2 ^ 9)|]; apply Z.pow_le_mono_r; lia). destruct (vdev_ops vd).
  - destruct (Hr eq_refl) as [Hn Hc]. unfold vdev_raidz_asize. rewrite (Z.mod_small (psize - 1)) by lia. rewrite Z.shiftr_div_pow2 by lia. fold U. set (n := (psize - 1) / U). assert (Hnb : 0 <= n <= psize - 1) by (split; [apply Z.div_pos; lia|apply Z.div_le_upper_bound; nia]).
    rewrite (Z.mod_small (n + 1)) by lia. rewrite (Z.mod_small (n + 1 + _ - _ - 1)) by lia. set (q := (n + 1 + zlen (vdev_child vd) - vdev_nparity vd - 1) / (zlen (vdev_child vd) - vdev_nparity vd)). assert (Hq : 0 <= q <= n + 1) by (split; [apply Z.div_pos; lia|]; apply Z.div_le_upper_bound; nia).
    rewrite (Z.mod_small (vdev_nparity vd * q)) by nia. rewrite (Z.mod_small (n + 1 + _)) by nia. set (m := n + 1 + vdev_nparity vd * q). assert (HnU : n * U <= psize - 1) by (unfold n; rewrite Z.mul_comm; apply Z.mul_div_le; lia).
    assert (Hmb : 0 <= m < 2 ^ 32) by (unfold m; nia). assert (Hrn : m <= roundup m (vdev_nparity vd + 1) <= m + vdev_nparity vd) by (unfold roundup; rewrite (Z.mod_small (m + _)) by nia; pose proof (Z.div_mod (m + (vdev_nparity vd + 1 - 1)) (vdev_nparity vd + 1) ltac:(lia)); pose proof (Z.mod_pos_bound (m + (vdev_nparity vd + 1 - 1)) (vdev_nparity vd + 1) ltac:(lia)); rewrite Z.mod_small; nia). rewrite Z.shiftl_mul_pow2 by lia. fold U. assert (Hm4 : 0 < m <= 4 * (n + 1)) by (unfold m; nia). assert (HmU : m * U <= 4 * (psize + U)) by nia. rewrite Z.mod_small by nia. split; [nia|apply Z_mod_mult].
  - rewrite default_asize, Z.shiftl_mul_pow2, Z.mul_1_l by lia. fold U. rewrite (Z.mod_small U) by lia. destruct (roundup_ok psize (vdev_ashift vd)) as [R1 R2]; [lia|lia|]. fold U in R1, R2. split; [lia|done].
Qed.

Section choose.
Context {T I D : Type} {HT : Tree T I} {HK : Kmem} {HD : Dmu D} {HB : DmuObjects D} {HE : SpaEnv} {HTL : TreeLaws T I} {HKL : KmemLaws} {HDL : DmuLaws D} {HBL : DmuObjectLaws D}.
Implicit Types (pl : pool T D) (mg : metaslab_group T) (msp : metaslab T) (dva : list dva_t).

(** ** Pools with rotors *)

(** The figures that the choice of a group divides by and shifts. *)
Record spaces pl : Prop := {
  sp_vdev g mg : top pl g = Some mg -> 0 <= vs_space (vdev_stat_ (mg_vd mg)) < 2 ^ 64 - 1 /\ 0 <= vdev_asize (mg_vd mg) < 2 ^ 64;
  sp_class c mc : get_mc pl c = Ok mc -> 0 <= mc_space mc < 2 ^ 64 - 1 }.

Record pool_live (s : Z) pl (X : Z -> Z -> sx) : Prop := { pv_ok : pool_ok s pl X; pv_rings : rings pl; pv_spaces : spaces pl }.

(** What an allocation keeps. *)
Definition pool_kept pl pl' : Prop := spa_mos pl' = spa_mos pl /\ length (spa_tops pl') = length (spa_tops pl) /\ length (spa_classes pl') = length (spa_classes pl) /\
  forall g mg, top pl g = Some mg -> exists mg', top pl' g = Some mg' /\ mg_class mg' = mg_class mg /\ mg_activation_count mg' = mg_activation_count mg /\ mg_next mg' = mg_next mg /\ mg_prev mg' = mg_prev mg /\ vd_like (mg_vd mg) (mg_vd mg') /\ dom (mg_slabs mg') = dom (mg_slabs mg).

Lemma pool_kept_refl pl : pool_kept pl pl.
Proof. split_and!; try done. intros g mg E. exists mg. split_and!; try done. apply vd_like_refl. Qed.

Lemma pool_kept_trans pl1 pl2 pl3 : pool_kept pl1 pl2 -> pool_kept pl2 pl3 -> pool_kept pl1 pl3.
Proof.
  intros (A1 & A2 & A3 & A4) (B1 & B2 & B3 & B4). split; [congruence|]. split; [congruence|]. split; [congruence|]. intros g mg E. destruct (A4 g mg E) as (mg2 & E2 & C1 & C2 & C3 & C4 & C5 & C6). destruct (B4 g mg2 E2) as (mg3 & E3 & D1 & D2 & D3 & D4 & D5 & D6).
  exists mg3. split_and!; try congruence. by eapply vd_like_trans.
Qed.

Lemma frame_kept pl pl' : pool_frame pl pl' -> pool_kept pl pl'.
Proof.
  intros (A1 & A2 & A3 & A4). split; [done|]. split; [done|]. split; [by rewrite A2|]. intros g mg E. destruct (A4 g mg E) as (mg' & E' & B1 & B2 & B3 & B4 & B5 & (l & B6) & B7). exists mg'. split_and!; try done. rewrite B6. apply vd_like_lists.
Qed.

(** The groups are those of before. *)
Lemma kept_back pl pl' g mg' : pool_kept pl pl' -> top pl' g = Some mg' -> exists mg, top pl g = Some mg /\ mg_class mg' = mg_class mg /\ mg_activation_count mg' = mg_activation_count mg /\ mg_next mg' = mg_next mg /\ mg_prev mg' = mg_prev mg /\ vd_like (mg_vd mg) (mg_vd mg').
Proof.
  intros (_ & A2 & _ & A4) Hg. pose proof (top_lt _ _ _ Hg) as Hlt. rewrite A2 in Hlt. destruct (lookup_lt_is_Some_2 (spa_tops pl) (Z.to_nat g)) as [mg E]; [lia|]. assert (Et : top pl g = Some mg) by (unfold top; by rewrite decide_True by lia).
  destruct (A4 g mg Et) as (mg2 & E2 & B1 & B2 & B3 & B4 & B5 & _). assert (mg2 = mg') as -> by congruence. by exists mg.
Qed.

Lemma kept_links pl pl' x : pool_kept pl pl' -> nextof pl' x = nextof pl x /\ prevof pl' x = prevof pl x /\ countof pl' x = countof pl x.
Proof.
  intros Hk. unfold nextof, prevof, countof. destruct (top pl' x) as [m'|] eqn:E'.
  - destruct (kept_back _ _ _ _ Hk E') as (m & -> & _ & E2 & E3 & E4 & _). cbn. by rewrite E2, E3, E4.
  - destruct (top pl x) as [m|] eqn:E; [|done]. destruct Hk as (_ & _ & _ & Hk). destruct (Hk x m E) as (m' & E2 & _). congruence.
Qed.

(** Circles depend on the links, the counts and the rotors only. *)
Lemma rings_kept pl pl' : pool_kept pl pl' -> (forall c mc', get_mc pl' c = Ok mc' -> exists mc, get_mc pl c = Ok mc /\ mc_rotor mc' = mc_rotor mc) -> rings pl -> rings pl'.
Proof using All.
  intros Hk Hc [R1 R2 R3 R4]. assert (Hm : forall c x, (exists mg, top pl' x = Some mg /\ mg_class mg = c /\ 0 < mg_activation_count mg) <-> (exists mg, top pl x = Some mg /\ mg_class mg = c /\ 0 < mg_activation_count mg)).
  { intros c x. split; [intros (m' & E & E1 & E2); destruct (kept_back _ _ _ _ Hk E) as (m & Em & F1 & F2 & _); exists m; split_and!; [done|congruence|lia]|]. intros (m & E & E1 & E2). destruct Hk as (_ & _ & _ & Hk). destruct (Hk x m E) as (m' & Em & F1 & F2 & _). exists m'. split_and!; [done|congruence|lia]. }
  constructor.
  - intros c mc' Ec'. destruct (Hc c mc' Ec') as (mc & Ec & Er). destruct (R1 c mc Ec) as (L & [A1 A2 A3]). exists L. rewrite Er. constructor; [eapply ringed_ext; [exact A1|]; intros x _; split; apply (kept_links _ _ x Hk)| |done]. intros x. by rewrite Hm.
  - intros g m' E. destruct (kept_back _ _ _ _ Hk E) as (m & Em & -> & _). destruct (R2 g m Em) as [mc Emc]. destruct (rd_ok_inv _ _ _ Emc) as [Hb _]. destruct (rd_in_bounds (spa_classes pl') (mg_class m)) as (mc' & Emc' & _); [by rewrite (proj1 (proj2 (proj2 Hk)))|]. by exists mc'.
  - intros g m' E. destruct (kept_back _ _ _ _ Hk E) as (m & Em & _ & -> & _). by apply (R3 g).
  - intros g m' E. destruct (kept_back _ _ _ _ Hk E) as (m & Em & _ & -> & -> & -> & _). by apply (R4 g).
Qed.

Lemma spaces_kept pl pl' : pool_kept pl pl' -> (forall c mc', get_mc pl' c = Ok mc' -> exists mc, get_mc pl c = Ok mc /\ mc_space mc' = mc_space mc) -> spaces pl -> spaces pl'.
Proof using All.
  intros Hk Hc [S1 S2]. constructor.
  - intros g m' E. destruct (kept_back _ _ _ _ Hk E) as (m & Em & _ & _ & _ & _ & (l & st & fw & -> & Hs)). destruct (S1 g m Em) as [B1 B2]. cbn. rewrite Hs by lia. done.
  - intros c mc' Ec'. destruct (Hc c mc' Ec') as (mc & Ec & ->). by apply (S2 c).
Qed.

Lemma live_frame s pl pl' X X' : pool_live s pl X -> pool_frame pl pl' -> pool_ok s pl' X' -> pool_live s pl' X'.
Proof using All.
  intros [H1 H2 H3] Hf Hok. pose proof (frame_kept _ _ Hf) as Hk. assert (Ec : forall c, get_mc pl' c = get_mc pl c) by (intros c; unfold get_mc; by rewrite (proj1 (proj2 Hf))). split; [done|..].
  - apply (rings_kept pl); try done. intros c mc'. rewrite Ec. intros E. by exists mc'.
  - apply (spaces_kept pl); try done. intros c mc'. rewrite Ec. intros E. by exists mc'.
Qed.

(** ** Moving the rotor *)

Lemma rotors_kept pl pl' c r : rotors pl pl' c r -> pool_kept pl pl'.
Proof.
  intros (Hb & Ht & _). split; [apply Hb|]. split; [apply Hb|]. split; [symmetry; eapply Forall2_length, Hb|]. intros g mg E. exists mg. rewrite Ht. split_and!; try done. apply vd_like_refl.
Qed.

Lemma rings_rotors pl pl' c mc r : rings pl -> rotors pl pl' c r -> get_mc pl c = Ok mc -> (forall L, ring_at pl c (mc_rotor mc) L -> match r with None => L = [] | Some x => x ∈ L end) -> rings pl'.
Proof using All.
  intros [R1 R2 R3 R4] (Hb & Ht & Hr) Ec Hin. assert (Hn : forall x, nextof pl' x = nextof pl x /\ prevof pl' x = prevof pl x) by (intros x; unfold nextof, prevof; by rewrite Ht). constructor.
  - intros c' mc' Ec'. destruct (Hr c' mc' Ec') as (mc0 & Ec0 & Er). destruct (R1 c' mc0 Ec0) as (L & HL). exists L. pose proof HL as [A1 A2 A3]. constructor; [eapply ringed_ext; [exact A1|]; intros x _; apply Hn|intros x; rewrite Ht; apply A2|]. rewrite Er. case_decide as E; [|done]. subst c'. apply Hin. congruence.
  - intros g mg. rewrite Ht. intros E. destruct (R2 g mg E) as [mc0 E0]. destruct (pool_but_class _ _ _ _ Hb E0) as (mc1 & E1 & _). by exists mc1.
  - intros g mg. rewrite Ht. apply R3.
  - intros g mg. rewrite Ht. apply R4.
Qed.

Lemma set_rotor_live s pl X c mc r a : pool_live s pl X -> get_mc pl c = Ok mc -> (forall L, ring_at pl c (mc_rotor mc) L -> match r with None => L = [] | Some x => x ∈ L end) ->
  exists pl', set_mc pl c (with_rotor mc r a) = Ok pl' /\ pool_live s pl' X /\ pool_kept pl pl' /\ (forall x, top pl' x = top pl x) /\ get_mc pl' c = Ok (with_rotor mc r a).
Proof using All.
  intros [H1 H2 H3] Ec Hin. destruct (set_class_ok pl c mc r a Ec) as (pl' & E & Hr & Ec'). exists pl'. pose proof Hr as (Hb & Ht & _). split; [done|]. split; [|split; [by eapply rotors_kept|done]]. split; [by eapply pool_but_ok|by eapply rings_rotors|].
  eapply spaces_kept; [by eapply rotors_kept| |done]. intros c' mc' Emc'. pose proof (rd_ok_inv _ _ _ Emc') as [Hb' Hl']. destruct (Forall2_lookup_r _ _ _ _ _ (pb_classes _ _ Hb) Hl') as (mc0 & Hl0 & _ & Es). exists mc0. split; [by apply rd_Some; [lia|]|done].
Qed.

(** The group that follows is in the circle. *)
Lemma next_member pl c rot L g mg : ring_at pl c rot L -> top pl g = Some mg -> g ∈ L -> exists h, mg_next mg = Some h /\ h ∈ L.
Proof.
  intros [A1 A2 A3] Hg Hin. destruct (ringed_from _ _ _ _ A1 Hin) as (l & Hrl & HLl). pose proof (ringed_next _ _ [] g l g Hrl eq_refl) as En. exists (hd g l). unfold nextof in En. rewrite Hg in En. split; [done|]. rewrite HLl. destruct l; [left|right; left].
Qed.

(** A group gets another bias, or pending fast writes. *)
Lemma group_live s pl X g mg b fw : pool_live s pl X -> top pl g = Some mg -> let mg' := with_vd (with_bias mg b) (with_fastwrite (mg_vd mg) fw) in
  set_mg pl g mg' = Ok (put pl g mg') /\ pool_live s (put pl g mg') X /\ pool_kept pl (put pl g mg') /\ (forall x, top (put pl g mg') x = if decide (x = g) then Some mg' else top pl x).
Proof using All.
  intros [H1 H2 H3] Hg mg'. destruct (set_mg_ok pl g mg mg' Hg) as [E Ht]. split; [done|]. assert (Hb : pool_but pl (put pl g mg')) by (apply (pool_but_put pl g mg); [done|]; exists (mg_prev mg), (mg_next mg), (mg_activation_count mg), (mg_aliquot mg), b, fw; unfold mg'; by destruct mg).
  assert (Hk : pool_kept pl (put pl g mg')).
  { split; [done|]. split; [apply length_insert|]. split; [done|]. intros x m Ex. rewrite Ht. case_decide as E2; [|exists m; split_and!; try done; apply vd_like_refl]. subst x. assert (m = mg) as -> by congruence. exists mg'. split_and!; try done.
    exists (vdev_ms_list (mg_vd mg)), (vdev_stat_ (mg_vd mg)), fw. split; [unfold mg'; cbn; by destruct (mg_vd mg)|done]. }
  split; [|done]. split; [by eapply pool_but_ok|..].
  - eapply rings_kept; [exact Hk| |done]. intros c mc Ec. by exists mc.
  - eapply spaces_kept; [exact Hk| |done]. intros c mc Ec. by exists mc.
Qed.

Lemma turn_rotor_ok s pl X c mc g mg asize flags : pool_live s pl X -> get_mc pl c = Ok mc -> top pl g = Some mg -> mg_class mg = c -> 0 < mg_activation_count mg ->
  exists pl', turn_rotor pl c g asize flags = Ok pl' /\ pool_live s pl' X /\ pool_kept pl pl'.
Proof using All.
  intros Hl Ec Hg Ecl Hct. unfold turn_rotor. rewrite Ec. cbn [mbind res_bind]. rewrite (get_mg_ok _ _ _ Hg). cbn [mbind res_bind]. pose proof (sp_vdev _ (pv_spaces _ _ _ Hl) g mg Hg) as [Hv _]. pose proof (sp_class _ (pv_spaces _ _ _ Hl) c mc Ec) as Hc.
  assert (Hb : exists b, (if mc_aliquot mc =? 0 then vu ← div_u64 (u64 (vs_alloc (vdev_stat_ (mg_vd mg)) * 100)) (u64 (vs_space (vdev_stat_ (mg_vd mg)) + 1)); cu ← div_u64 (u64 (mc_alloc mc * 100)) (u64 (mc_space mc + 1)); Ok (i64 (Z.quot (i64 (i64 (cu - vu) * i64 (mg_aliquot mg))) 100)) else Ok (mg_bias mg)) = Ok b).
  { destruct (mc_aliquot mc =? 0); [|by eexists]. unfold div_u64. rewrite !(Z.mod_small (_ + 1)) by lia. rewrite !(proj2 (Z.eqb_neq (_ + 1) 0)) by lia. cbn [mbind res_bind]. by eexists. }
  destruct Hb as [b ->]. cbn [mbind res_bind]. destruct (group_live s pl X g mg b (vdev_pending_fastwrite (mg_vd mg)) Hl Hg) as (E1 & Hl1 & Hk1 & Ht1). replace (with_vd (with_bias mg b) _) with (with_bias mg b) in E1, Hl1, Hk1, Ht1 by (destruct mg as [? ? ? ? ? ? ? []]; done). rewrite E1. cbn [mbind res_bind].
  set (pl1 := put pl g (with_bias mg b)) in *. assert (Ec1 : get_mc pl1 c = Ok mc) by done. assert (Hg1 : top pl1 g = Some (with_bias mg b)) by (by rewrite Ht1, decide_True).
  assert (Hmv : forall r a, r = mg_next mg \/ r = mc_rotor mc -> exists pl', set_mc pl1 c (with_rotor mc r a) = Ok pl' /\ pool_live s pl' X /\ pool_kept pl pl').
  { intros r a Hr. destruct (set_rotor_live s pl1 X c mc r a Hl1 Ec1) as (pl2 & E2 & Hl2 & Hk2 & _); [|exists pl2; split; [done|]; split; [done|by eapply pool_kept_trans]].
    intros L HL. destruct Hr as [->| ->]; [|apply HL]. destruct (next_member pl1 c _ L g _ HL Hg1) as (h & Eh & Hh); [|cbn in Eh; rewrite Eh; done]. apply HL. exists (with_bias mg b). by split_and!. }
  match goal with |- context [if ?x then with_rotor mc (mg_next mg) 0 else _] => destruct x end; [by apply Hmv; left|by apply Hmv; right].
Qed.

(** ** One group *)

(** The distances to keep are not all 0 yet. *)
Definition far (vd : top_vdev) (dshift : Z) : Prop := dshift = 3 \/ 2 ^ vdev_ms_shift vd < Z.shiftr (vdev_asize vd) dshift.

(** The copy [d] of a block of class [c] has been allocated in [t]. *)
Definition allocated (s : Z) (X : Z -> Z -> sx) pl' (c psize t : Z) dva (d : Z) dva' : Prop := exists g mg k p off a, top pl' g = Some mg /\ mg_class mg = c /\ 0 < mg_activation_count mg /\ dva' = <[Z.to_nat d := a]> dva /\
  dva_at pl' a g mg k p off (vdev_psize_to_asize (mg_vd mg) psize) /\ (forall y, inside off (vdev_psize_to_asize (mg_vd mg) psize) y -> own (x_gh (X g p)) y = OFree) /\ pool_live s pl' (x_assign X g p off (vdev_psize_to_asize (mg_vd mg) psize) (OAlloc t)).

Lemma like_asize vd vd' psize : vd_like vd vd' -> vdev_psize_to_asize vd' psize = vdev_psize_to_asize vd psize.
Proof. by intros (l & st & fw & -> & _). Qed.

Lemma mod_512 x k : 9 <= k -> x mod 2 ^ k = 0 -> x mod 512 = 0.
Proof.
  intros Hk H. apply Z.mod_divide in H; [|by apply Z.pow_nonzero; lia]. apply Z.mod_divide; [done|]. eapply Z.divide_trans; [|exact H]. exists (2 ^ (k - 9)). change 512 with (2 ^ 9). rewrite <- Z.pow_add_r by lia. f_equal. lia.
Qed.

(** An address that has just been written. *)
Lemma dva_at_set pl g mg k p off a psize flags : vd_ok (mg_vd mg) -> zlen (vdev_ms (mg_vd mg)) * 2 ^ vdev_ms_shift (mg_vd mg) <= 2 ^ 62 -> top pl g = Some mg -> vdev_ms (mg_vd mg) !! k = Some p -> g < 2 ^ 32 -> asize_ok (mg_vd mg) psize -> (has_flag flags METASLAB_GANG_HEADER = true -> psize = SPA_GANGBLOCKSIZE) ->
  geo_fits (slab_geo (mg_vd mg) (Z.of_nat k)) off (vdev_psize_to_asize (mg_vd mg) psize) ->
  dva_at pl (dva_set a g off (if has_flag flags METASLAB_GANG_HEADER then 1 else 0) (vdev_psize_to_asize (mg_vd mg) psize)) g mg k p off (vdev_psize_to_asize (mg_vd mg) psize).
Proof.
  intros Hv Hc Hg Hk H32 [Ha1 Ha2] Hgang Hf. pose proof Hf as (F1 & F2 & F3 & F4 & F5). cbn in F2, F3, F4, F5. pose proof (lookup_lt_Some _ _ _ Hk) as Hlt. pose proof (vo_shift _ Hv) as Hsh. pose proof (top_lt _ _ _ Hg) as H0. set (U := 2 ^ vdev_ms_shift (mg_vd mg)) in *. assert (0 < U) by (apply Z.pow_pos_nonneg; lia).
  destruct (dva_set_get a g off (if has_flag flags METASLAB_GANG_HEADER then 1 else 0) (vdev_psize_to_asize (mg_vd mg) psize)) as (D1 & D2 & D3 & D4 & _); [lia|nia|by eapply mod_512; [|exact F4]; lia|case_match; lia|lia|by eapply mod_512; [|exact F5]; lia|].
  constructor; try done. unfold dva_size. rewrite D3, D4. destruct (has_flag flags METASLAB_GANG_HEADER); cbn [Z.eqb negb]; [by rewrite <- Hgang|done].
Qed.

Lemma alloc_group_ok s pl X c mc g mg psize dva d t flags dshift az : pool_live s pl X -> get_mc pl c = Ok mc -> top pl g = Some mg -> mg_class mg = c -> 0 < mg_activation_count mg -> s <= t <= s + 2 -> asize_ok (mg_vd mg) psize ->
  (has_flag flags METASLAB_GANG_HEADER = true -> psize = SPA_GANGBLOCKSIZE) -> g < 2 ^ 32 -> 0 <= d < zlen dva ->
  exists pl' az' al r, alloc_group pl c g psize dva d t flags dshift az = Ok (pl', az', al, r) /\ pool_kept pl pl' /\
    match r with
    | None => pool_live s pl' X /\ spa_classes pl' = spa_classes pl /\ (az' = false -> az = false \/ far (mg_vd mg) dshift)
    | Some dva' => allocated s X pl' c psize t dva d dva'
    end.
Proof using All.
  intros Hl Ec Hg Ecl Hct Ht Has Hgang H32 Hd. unfold alloc_group. rewrite (get_mg_ok _ _ _ Hg). cbn [mbind res_bind]. pose proof (go_vd _ _ _ _ (pi_group _ _ _ (proj1 (pv_ok _ _ _ Hl)) g mg Hg)) as Hv. destruct (vdev_allocatable (mg_vd mg)); cbn [negb].
  2: { exists pl, az, false, None. split; [done|]. split; [apply pool_kept_refl|]. split; [done|]. split; [done|by left]. }
  destruct (_ && (dshift =? 3)) eqn:E3.
  { exists pl, false, true, None. split; [done|]. split; [apply pool_kept_refl|]. split; [done|]. split; [done|]. intros _. right. left. apply andb_true_iff in E3 as [_ E3%Z.eqb_eq]. done. }
  clear E3. set (near := _ <=? _). destruct (group_alloc_ok s pl X g mg psize (vdev_psize_to_asize (mg_vd mg) psize) t (if near then 0 else Z.shiftr (vdev_asize (mg_vd mg)) dshift) (take (Z.to_nat d) dva) flags (pv_ok _ _ _ Hl) Hg Ht ltac:(destruct Has; lia) ltac:(apply Has)) as (pl1 & off & -> & Hf1 & Hp). cbn [mbind res_bind]. pose proof (frame_kept _ _ Hf1) as Hk1.
  destruct Hp as [[-> Hok1]|(Hne & k & p & Hk & Hpp & Hfit & Hfree & Hok1)].
  { cbn. eexists pl1, _, true, None. split; [done|]. split; [done|]. split; [by eapply live_frame|]. split; [apply Hf1|]. unfold near. intros E. destruct (Z.leb_spec (Z.shiftr (vdev_asize (mg_vd mg)) dshift) (u64 (Z.shiftl 1 (vdev_ms_shift (mg_vd mg))))) as [|Hgt]; [by left|]. right. right.
    destruct Hv as [V1 [V2 V3] _ _]. rewrite Z.shiftl_mul_pow2, Z.mul_1_l, Z.mod_small in Hgt; [done| |lia]. split; [apply Z.pow_nonneg; lia|]. apply Z.le_lt_trans with (2 ^ 56); [apply Z.pow_le_mono_r; lia|done]. }
  rewrite (proj2 (Z.eqb_neq _ _) Hne). cbn [negb]. pose proof (live_frame _ _ _ _ _ Hl Hf1 Hok1) as Hl1. set (X' := x_assign X g p off _ _) in *. destruct (proj2 (proj2 (proj2 Hk1)) g mg Hg) as (mg1 & Hg1 & C1 & C2 & _ & _ & C5 & _). assert (Ec1 : get_mc pl1 c = Ok mc) by (unfold get_mc in *; by rewrite (proj1 (proj2 Hf1))).
  destruct (turn_rotor_ok s pl1 X' c mc g mg1 (vdev_psize_to_asize (mg_vd mg) psize) flags Hl1 Ec1 Hg1) as (pl2 & -> & Hl2 & Hk2); [congruence|lia|]. cbn [mbind res_bind]. destruct (rd_in_bounds dva d Hd) as (a & -> & _). cbn [mbind res_bind]. rewrite wr_in_bounds by done. cbn [mbind res_bind].
  destruct (proj2 (proj2 (proj2 Hk2)) g mg1 Hg1) as (mg2 & Hg2 & D1 & D2 & _ & _ & D5 & _). rewrite (get_mg_ok _ _ _ Hg2). cbn [mbind res_bind].
  assert (Hfw : exists pl3 mg3, (if has_flag flags METASLAB_FASTWRITE then set_mg pl2 g (with_vd mg2 (with_fastwrite (mg_vd mg2) (u64 (vdev_pending_fastwrite (mg_vd mg2) + psize)))) else Ok pl2) = Ok pl3 /\ pool_live s pl3 X' /\ pool_kept pl2 pl3 /\ top pl3 g = Some mg3).
  { destruct (has_flag flags METASLAB_FASTWRITE); [|exists pl2, mg2; split; [done|]; split; [done|]; split; [apply pool_kept_refl|done]]. destruct (group_live s pl2 X' g mg2 (mg_bias mg2) (u64 (vdev_pending_fastwrite (mg_vd mg2) + psize)) Hl2 Hg2) as (E1 & L1 & K1 & T1).
    replace (with_bias mg2 (mg_bias mg2)) with mg2 in E1, L1, K1, T1 by (by destruct mg2). eexists _, _. split; [exact E1|]. split; [done|]. split; [done|]. by rewrite T1, decide_True. }
  destruct Hfw as (pl3 & mg3 & -> & Hl3 & Hk3 & Hg3). cbn [mbind res_bind]. destruct (kept_back _ _ _ _ Hk3 Hg3) as (mg2' & Hg2' & F1 & F2 & _ & _ & F5). assert (mg2' = mg2) as -> by congruence. eexists pl3, _, true, (Some _). split; [done|]. split; [by eapply pool_kept_trans, pool_kept_trans|].
  assert (Hlk : vd_like (mg_vd mg) (mg_vd mg3)) by (by eapply vd_like_trans, vd_like_trans). pose proof (vd_like_same _ _ Hlk) as (S1 & S2 & S3 & S4 & _). pose proof (go_vd _ _ _ _ (pi_group _ _ _ (proj1 (pv_ok _ _ _ Hl3)) g mg3 Hg3)) as Hv3. pose proof (like_asize _ _ psize Hlk) as Eas.
  assert (Egeo : slab_geo (mg_vd mg3) (Z.of_nat k) = slab_geo (mg_vd mg) (Z.of_nat k)) by (unfold slab_geo; by rewrite S1, S2). exists g, mg3, k, p, off. eexists. split; [done|]. split; [congruence|]. split; [lia|]. split; [done|]. rewrite Eas. split; [|split; [done|exact Hl3]].
  rewrite <- Eas. apply dva_at_set; try done; [apply Hv3|by rewrite S4|by split; rewrite Eas, ?S1; apply Has|by rewrite Eas, Egeo].
Qed.
End choose.
End MetaslabChoose.

Import MetaslabChoose.

Module MetaslabCircle.

Section circle.
Context {T I D : Type} {HT : Tree T I} {HK : Kmem} {HD : Dmu D} {HB : DmuObjects D} {HE : SpaEnv} {HTL : TreeLaws T I} {HKL : KmemLaws} {HDL : DmuLaws D} {HBL : DmuObjectLaws D}.
Implicit Types (pl : pool T D) (mg : metaslab_group T) (msp : metaslab T) (dva : list dva_t).

(** A block that can be allocated from every active group of the class. *)
Definition block_ok pl (c psize flags : Z) : Prop := (forall g mg, top pl g = Some mg -> mg_class mg = c -> asize_ok (mg_vd mg) psize) /\ (has_flag flags METASLAB_GANG_HEADER = true -> psize = SPA_GANGBLOCKSIZE) /\ zlen (spa_tops pl) <= 2 ^ 32.

Lemma block_kept pl pl' c psize flags : pool_kept pl pl' -> block_ok pl c psize flags -> block_ok pl' c psize flags.
Proof.
  intros Hk (B1 & B2 & B3). split; [|split; [done|by rewrite (proj1 (proj2 Hk))]]. intros g mg Hg Ec. destruct (kept_back _ _ _ _ Hk Hg) as (m & Em & E1 & _ & _ & _ & Hv). unfold asize_ok. rewrite (like_asize _ _ _ Hv), (proj1 (vd_like_same _ _ Hv)). apply (B1 g); [done|congruence].
Qed.

(** The circle, from the group [r] on. *)
Record around pl (c r : Z) (l : list Z) : Prop := {
  ar_ring : ringed (nextof pl) (prevof pl) (r :: l);
  ar_member g : g ∈ r :: l -> exists mg, top pl g = Some mg /\ mg_class mg = c /\ 0 < mg_activation_count mg }.

Lemma around_kept pl pl' c r l : pool_kept pl pl' -> around pl c r l -> around pl' c r l.
Proof.
  intros Hk [A1 A2]. constructor; [eapply ringed_ext; [exact A1|]; intros x _; split; apply (kept_links _ _ x Hk)|]. intros g Hg. destruct (A2 g Hg) as (mg & E & E1 & E2). destruct Hk as (_ & _ & _ & Hk). destruct (Hk g mg E) as (mg' & E' & F1 & F2 & _). exists mg'. split_and!; [done|congruence|lia].
Qed.

Lemma ring_around pl c rot L r : ring_at pl c rot L -> r ∈ L -> exists l, around pl c r l /\ L ≡ₚ r :: l.
Proof. intros [A1 A2 A3] Hr. destruct (ringed_from _ _ _ _ A1 Hr) as (l & H1 & H2). exists l. split; [|done]. constructor; [done|]. intros g. rewrite <- H2. apply A2. Qed.

(** No circle is longer than the number of vdevs. *)
Lemma around_length pl c r l : around pl c r l -> (length (r :: l) <= length (spa_tops pl))%nat.
Proof.
  intros [A1 A2]. assert (Hsub : (Z.to_nat <$> r :: l) ⊆+ seq 0 (length (spa_tops pl))).
  { apply NoDup_submseteq.
    - apply NoDup_fmap_2_strong; [|apply A1]. intros x y Hx Hy E. destruct (A2 x Hx) as (m1 & E1 & _). destruct (A2 y Hy) as (m2 & E2 & _). apply top_lt in E1, E2. lia.
    - intros n (x & -> & Hx)%list_elem_of_fmap. destruct (A2 x Hx) as (m & E & _). apply top_lt in E. apply elem_of_seq. lia. }
  apply submseteq_length in Hsub. by rewrite length_fmap, length_seq in Hsub.
Qed.

Section round.
Variables (s : Z) (X : Z -> Z -> sx) (c psize t flags d dshift : Z) (dva : list dva_t) (r : Z) (l : list Z).
Hypotheses (Ht : s <= t <= s + 2) (Hd : 0 <= d < zlen dva).

(** What a round that found no space says of the distances. *)
Definition round_result pl pl' (az : bool) (res : option (list dva_t)) : Prop := pool_kept pl pl' /\
  match res with
  | None => pool_live s pl' X /\ (az = false -> exists g mg, top pl g = Some mg /\ far (mg_vd mg) dshift)
  | Some dva' => allocated s X pl' c psize t dva d dva'
  end.

Lemma round_loop : forall fuel done g todo pl az, pool_live s pl X -> block_ok pl c psize flags -> around pl c r l -> r :: l = done ++ g :: todo -> (exists mc, get_mc pl c = Ok mc) -> (length todo < fuel)%nat -> (az = false -> exists g mg, top pl g = Some mg /\ far (mg_vd mg) dshift) ->
  exists pl' az' al res, loop fuel (fun '(g, all_zero, pl) =>
    '(pl, all_zero, allocatable, r0) ← alloc_group pl c g psize dva d t flags dshift all_zero;
    match r0 with
    | Some dva => Ok (inr (pl, all_zero, allocatable, Some dva))
    | None =>
        mg ← get_mg pl g;
        mc ← get_mc pl c;
        pl ← set_mc pl c (with_rotor mc (mg_next mg) 0);
        next ← pointer (mg_next mg);
        Ok (if next =? r then inr (pl, all_zero, allocatable, None) else inl (next, all_zero, pl))
    end) (g, az, pl) = Ok (pl', az', al, res) /\ round_result pl pl' az' res.
Proof using All.
  intros fuel. induction fuel as [|fuel IH]; intros dn g todo pl az Hl Hb Ha EL [mc Emc] Hf Haz; [lia|]. cbn [loop]. destruct (ar_member _ _ _ _ Ha g) as (mg & Hg & Ecl & Hct); [rewrite EL, elem_of_app; right; left|]. destruct Hb as (B1 & B2 & B3). pose proof (top_lt _ _ _ Hg) as Hlt.
  destruct (alloc_group_ok s pl X c mc g mg psize dva d t flags dshift az Hl Emc Hg Ecl Hct Ht (B1 g mg Hg Ecl) B2 ltac:(lia) Hd) as (pl1 & az1 & al & r1 & -> & Hk1 & Hr1). cbn [mbind res_bind]. destruct r1 as [dva'|]; [exists pl1, az1, al, (Some dva'); split; [done|]; by split|].
  destruct Hr1 as (Hl1 & Ecs & Haz1). destruct (proj2 (proj2 (proj2 Hk1)) g mg Hg) as (mg1 & Hg1 & C1 & C2 & C3 & C4 & C5 & _). rewrite (get_mg_ok _ _ _ Hg1). cbn [mbind res_bind]. assert (Emc1 : get_mc pl1 c = Ok mc) by (unfold get_mc in *; by rewrite Ecs). rewrite Emc1. cbn [mbind res_bind].
  pose proof (around_kept _ _ _ _ _ Hk1 Ha) as Ha1. assert (Enx : mg_next mg1 = Some (hd r todo)).
  { pose proof (ar_ring _ _ _ _ Ha1) as Hr. rewrite EL in Hr. pose proof (ringed_next _ _ dn g todo r Hr ltac:(destruct dn; cbn in EL |- *; congruence)) as E. unfold nextof in E. by rewrite Hg1 in E. }
  rewrite Enx. destruct (set_rotor_live s pl1 X c mc (Some (hd r todo)) 0 Hl1 Emc1) as (pl2 & -> & Hl2 & Hk2 & Ht2 & Ec2).
  { intros L HL. destruct (next_member pl1 c _ L g mg1 HL Hg1) as (h & Eh & Hh); [|by congruence]. apply HL. exists mg1. split_and!; [done|congruence|lia]. }
  cbn [pointer mbind res_bind]. pose proof (pool_kept_trans _ _ _ Hk1 Hk2) as Hk. assert (Haz' : az1 = false -> exists g mg, top pl g = Some mg /\ far (mg_vd mg) dshift) by (intros E; destruct (Haz1 E) as [E0|E0]; [by apply Haz|by exists g, mg]).
  destruct todo as [|g' todo]; cbn [hd].
  - rewrite Z.eqb_refl. exists pl2, az1, al, None. split; [done|]. by split.
  - assert (Hne : g' <> r). { intros ->. pose proof (rg_nodup _ _ _ (ar_ring _ _ _ _ Ha)) as Hnd. rewrite EL in Hnd. destruct dn as [|x dn]; cbn in EL; injection EL as -> ->; apply list.NoDup_cons in Hnd as [Hn _]; apply Hn; [left|rewrite elem_of_app; right; right; left]. }
    rewrite (proj2 (Z.eqb_neq _ _) Hne). destruct (IH (dn ++ [g]) g' todo pl2 az1) as (pl3 & az3 & al3 & r3 & E3 & (Hk3 & Hr3)); [done|by eapply block_kept|by eapply around_kept|by rewrite <- app_assoc|by eexists|cbn in Hf; lia| |].
    + intros E. destruct (Haz' E) as (x & m & Em & Hfar). destruct (proj2 (proj2 (proj2 Hk)) x m Em) as (m' & Em' & _ & _ & _ & _ & (l0 & st & fw & Ev & _) & _). exists x, m'. split; [done|]. unfold far in *. rewrite Ev. done.
    + exists pl3, az3, al3, r3. split; [done|]. split; [by eapply pool_kept_trans|]. destruct r3 as [dva'|]; [done|]. destruct Hr3 as [L3 F3]. split; [done|]. intros E. destruct (F3 E) as (x & m & Em & Hfar). destruct (kept_back _ _ _ _ Hk Em) as (m0 & Em0 & _ & _ & _ & _ & (l0 & st & fw & Ev & _)). exists x, m0. split; [done|]. unfold far in *. rewrite Ev in Hfar. done.
Qed.

Lemma alloc_round_ok pl : pool_live s pl X -> block_ok pl c psize flags -> around pl c r l -> (exists mc, get_mc pl c = Ok mc) ->
  exists pl' az al res, alloc_round pl c r psize dva d t flags dshift = Ok (pl', az, al, res) /\ round_result pl pl' az res.
Proof using All. intros Hl Hb Ha Hc. pose proof (around_length _ _ _ _ Ha) as Hn. cbn in Hn. by apply (round_loop _ [] r l); [..|lia|]. Qed.
End round.

(** ** The group to start with *)

Definition member pl (c g : Z) : Prop := exists mg, top pl g = Some mg /\ mg_class mg = c /\ 0 < mg_activation_count mg.

Lemma next_top pl g mg n : rings pl -> top pl g = Some mg -> mg_next mg = Some n -> is_Some (top pl n).
Proof using All.
  intros Hr Hg En. destruct (Z.le_gt_cases (mg_activation_count mg) 0) as [Hle|Hgt]; [destruct (ri_off _ Hr g mg Hg Hle); congruence|]. destruct (ri_class _ Hr g mg Hg) as [mc Emc]. destruct (ri_ring _ Hr _ _ Emc) as (L & HL). destruct (next_member _ _ _ _ g mg HL Hg) as (h & Eh & Hh); [apply HL; by exists mg|].
  assert (h = n) as -> by congruence. apply HL in Hh as (m & Em & _). by eexists.
Qed.

Lemma fast_loop pl c r l : around pl c r l -> forall fuel done g todo m, r :: l = done ++ g :: todo -> (length todo < fuel)%nat -> member pl c m ->
  exists g', loop fuel (fun '(mg, fast_mg) =>
    f ← get_mg pl fast_mg;
    m ← get_mg pl mg;
    let mg := if vdev_pending_fastwrite (mg_vd f) <? vdev_pending_fastwrite (mg_vd m) then fast_mg else mg in
    fast_mg ← pointer (mg_next f);
    Ok (if fast_mg =? r then inr mg else inl (mg, fast_mg))) (m, g) = Ok g' /\ member pl c g'.
Proof using All.
  intros Ha fuel. induction fuel as [|fuel IH]; intros dn g todo m EL Hf Hm; [lia|]. cbn [loop]. pose proof (ar_member _ _ _ _ Ha g ltac:(rewrite EL, elem_of_app; right; left)) as Hgm. pose proof Hgm as (f & Hg & Ecl & Hct). pose proof Hm as (mm & Hmm & _).
  rewrite (get_mg_ok _ _ _ Hg). cbn [mbind res_bind]. rewrite (get_mg_ok _ _ _ Hmm). cbn [mbind res_bind]. set (m' := if _ <? _ then g else m). assert (Hm' : member pl c m') by (unfold m'; by case_match).
  assert (Enx : mg_next f = Some (hd r todo)).
  { pose proof (ar_ring _ _ _ _ Ha) as Hr. rewrite EL in Hr. pose proof (ringed_next _ _ dn g todo r Hr ltac:(destruct dn; cbn in EL |- *; congruence)) as E. unfold nextof in E. by rewrite Hg in E. }
  rewrite Enx. cbn [pointer mbind res_bind]. destruct todo as [|g' todo]; cbn [hd]; [rewrite Z.eqb_refl; by exists m'|].
  assert (Hne : g' <> r). { intros ->. pose proof (rg_nodup _ _ _ (ar_ring _ _ _ _ Ha)) as Hnd. rewrite EL in Hnd. destruct dn as [|x dn]; cbn in EL; injection EL as -> ->; apply list.NoDup_cons in Hnd as [Hn _]; apply Hn; [left|rewrite elem_of_app; right; right; left]. }
  rewrite (proj2 (Z.eqb_neq _ _) Hne). apply (IH (dn ++ [g]) g' todo); [by rewrite <- app_assoc|cbn in Hf; lia|done].
Qed.

(** The hints, or the copy before, are of the pool. *)
Definition hint_ok pl dva (d : Z) (hintdva : option (list dva_t)) : Prop :=
  match hintdva with Some hint => 0 <= d < zlen hint | None => 0 <= d /\ (d = 0 \/ exists a c, dva !! Z.to_nat (d - 1) = Some a /\ member pl c (DVA_GET_VDEV a)) end.

Lemma pick_group_ok s pl X c mc r dva d hintdva flags : pool_live s pl X -> get_mc pl c = Ok mc -> mc_rotor mc = Some r -> hint_ok pl dva d hintdva -> exists g, pick_group pl c dva d hintdva flags = Ok g /\ member pl c g.
Proof using All.
  intros Hl Ec Er Hh. pose proof (pv_rings _ _ _ Hl) as Hri. destruct (ri_ring _ Hri c mc Ec) as (L & HL). pose proof (ra_rotor _ _ _ _ HL) as HrL. rewrite Er in HrL. assert (Hrm : member pl c r) by (by apply HL).
  assert (Hfin : forall g, is_Some (top pl g) -> exists g', (mg ← get_mg pl g; if negb (mg_class mg =? c) || (mg_activation_count mg <=? 0) then Ok r else Ok g) = Ok g' /\ member pl c g').
  { intros g [mg Hg]. rewrite (get_mg_ok _ _ _ Hg). cbn [mbind res_bind]. destruct (_ || _) eqn:E; [by exists r|]. apply orb_false_iff in E as [E1%negb_false_iff%Z.eqb_eq E2%Z.leb_gt]. exists g. split; [done|]. by exists mg. }
  unfold pick_group. rewrite Ec, bind_Ok, Er. change (pointer (Some r)) with (Ok r). assert (Hrt : is_Some (top pl r)) by (destruct Hrm as (m & E & _); by eexists). destruct hintdva as [hint|].
  - destruct (rd_in_bounds hint d Hh) as (h & -> & _). cbn [mbind res_bind]. destruct (Z.ltb_spec (DVA_GET_VDEV h) (zlen (spa_tops pl))) as [Hlt|Hge]; [|cbn [mbind res_bind]; by apply Hfin].
    assert (Hv : is_Some (top pl (DVA_GET_VDEV h))). { assert (0 <= DVA_GET_VDEV h) by (apply get_range; lia). unfold top. rewrite decide_True by done. apply lookup_lt_is_Some_2. lia. } destruct Hv as [mg Hg]. rewrite (get_mg_ok _ _ _ Hg). cbn [mbind res_bind]. apply Hfin.
    destruct (has_flag flags METASLAB_HINTBP_AVOID); [|by eexists]. destruct (mg_next mg) as [n|] eqn:En; [by eapply next_top|by eexists].
  - destruct Hh as [Hd0 Hh]. destruct (Z.eqb_spec d 0) as [->|Hd]; cbn [negb].
    + destruct (has_flag flags METASLAB_FASTWRITE); [|cbn [mbind res_bind]; by apply Hfin]. rewrite bind_Ok. cbv beta. destruct (ring_around _ _ _ _ _ HL HrL) as (l & Ha & _). pose proof (around_length _ _ _ _ Ha) as Hn. cbn in Hn.
      destruct (fast_loop pl c r l Ha (S (length (spa_tops pl))) [] r l r eq_refl ltac:(lia) Hrm) as (g' & E & Hg'). cbv zeta in E. rewrite E. cbn [mbind res_bind]. apply Hfin. destruct Hg' as (m & Em & _). by eexists.
    + destruct Hh as [|(a & c' & Ea & (mg & Hg & Ecl & Hct))]; [done|]. rewrite (rd_Some _ _ a) by (lia || done). cbn [mbind res_bind]. rewrite (get_mg_ok _ _ _ Hg). cbn [mbind res_bind]. destruct (ri_class _ Hri _ _ Hg) as [mc' Emc']. destruct (ri_ring _ Hri _ _ Emc') as (L' & HL'). destruct (next_member _ _ _ _ _ mg HL' Hg) as (h & Eh & Hh); [apply HL'; by exists mg|].
      rewrite Eh. cbn [pointer mbind res_bind]. apply Hfin. apply HL' in Hh as (m & E & _). by eexists.
Qed.

(** ** One copy *)

(** Distances are 0 once they are shifted far enough. *)
Lemma far_bound s pl X g mg dshift : pool_live s pl X -> top pl g = Some mg -> 0 <= dshift -> far (mg_vd mg) dshift -> dshift <= 54.
Proof using All.
  intros Hl Hg Hd Hfar. destruct (sp_vdev _ (pv_spaces _ _ _ Hl) g mg Hg) as [_ Ha]. pose proof (vo_shift _ (go_vd _ _ _ _ (pi_group _ _ _ (proj1 (pv_ok _ _ _ Hl)) g mg Hg))) as Hs. destruct Hfar as [->|Hfar]; [lia|]. rewrite Z.shiftr_div_pow2 in Hfar by done. destruct (Z.le_gt_cases dshift 54) as [|Hgt]; [done|exfalso].
  assert (H9 : 2 ^ 9 <= 2 ^ vdev_ms_shift (mg_vd mg)) by (apply Z.pow_le_mono_r; lia). assert (H55 : 2 ^ 55 <= 2 ^ dshift) by (apply Z.pow_le_mono_r; lia). assert (vdev_asize (mg_vd mg) / 2 ^ dshift < 2 ^ 9); [|lia]. apply Z.div_lt_upper_bound; [lia|]. nia.
Qed.

Definition dva_result (s : Z) (X : Z -> Z -> sx) pl (c psize t : Z) dva (d : Z) pl' dva' (err : Z) : Prop := pool_kept pl pl' /\
  ((err = 0 /\ allocated s X pl' c psize t dva d dva') \/ (err = ENOSPC /\ pool_live s pl' X /\ (dva' = dva \/ dva' = <[Z.to_nat d := dva_zero]> dva))).

Lemma dva_loop s X c psize dva d t flags rotor l : s <= t <= s + 2 -> 0 <= d < zlen dva -> forall fuel dshift (lock : bool) pl, 3 <= dshift <= 55 -> (if lock then 0 else 60) + (60 - dshift) < Z.of_nat fuel ->
  pool_live s pl X -> block_ok pl c psize flags -> around pl c rotor l -> (exists mc, get_mc pl c = Ok mc) ->
  exists pl' dva' err, loop fuel (fun '(dshift, zio_lock, pl) =>
      '(pl, all_zero, allocatable, r) ← alloc_round pl c rotor psize dva d t flags dshift;
      match r with
      | Some dva => Ok (inr (pl, dva, 0))
      | None =>
          if negb all_zero then Ok (inl (dshift + 1, zio_lock, pl))
          else if negb allocatable && negb zio_lock then Ok (inl (3, true, pl))
          else dva ← wr dva d dva_zero; Ok (inr (pl, dva, ENOSPC))
      end) (dshift, lock, pl) = Ok (pl', dva', err) /\ dva_result s X pl c psize t dva d pl' dva' err.
Proof using All.
  intros Ht Hd fuel. induction fuel as [|fuel IH]; intros dshift lock pl Hds Hf Hl Hb Ha Hc; [destruct lock; lia|]. cbn [loop]. destruct (alloc_round_ok s X c psize t flags d dshift dva rotor l Ht Hd pl Hl Hb Ha Hc) as (pl1 & az & al & r & -> & Hk & Hr). cbn [mbind res_bind]. destruct r as [dva'|].
  { exists pl1, dva', 0. split; [done|]. split; [done|by left]. }
  destruct Hr as [Hl1 Hfar]. assert (Hnext : forall dshift' lock', 3 <= dshift' <= 55 -> (if lock' : bool then 0 else 60) + (60 - dshift') < Z.of_nat fuel -> exists pl' dva' err, loop fuel (fun '(dshift, zio_lock, pl) =>
      '(pl, all_zero, allocatable, r) ← alloc_round pl c rotor psize dva d t flags dshift;
      match r with
      | Some dva => Ok (inr (pl, dva, 0))
      | None =>
          if negb all_zero then Ok (inl (dshift + 1, zio_lock, pl))
          else if negb allocatable && negb zio_lock then Ok (inl (3, true, pl))
          else dva ← wr dva d dva_zero; Ok (inr (pl, dva, ENOSPC))
      end) (dshift', lock', pl1) = Ok (pl', dva', err) /\ dva_result s X pl c psize t dva d pl' dva' err).
  { intros dshift' lock' Hds' Hf'. destruct (IH dshift' lock' pl1 Hds' Hf' Hl1) as (pl2 & dva2 & err & E2 & Hk2 & Hr2); [by eapply block_kept|by eapply around_kept| |exists pl2, dva2, err; split; [done|]; split; [by eapply pool_kept_trans|done]].
    destruct Hc as [mc Ec]. pose proof (rd_ok_inv _ _ _ Ec) as [Hcb _]. destruct (rd_in_bounds (spa_classes pl1) c) as (mc' & E' & _); [by rewrite (proj1 (proj2 (proj2 Hk)))|by exists mc']. }
  destruct az; cbn [negb].
  - destruct (negb al && negb lock) eqn:Eb; [apply andb_true_iff in Eb as [_ El%negb_true_iff]; subst lock; apply Hnext; cbv iota in Hf |- *; lia|]. rewrite wr_in_bounds by done. cbn [mbind res_bind]. eexists _, _, ENOSPC. split; [done|]. split; [done|]. right. split; [done|]. split; [done|by right].
  - destruct (Hfar eq_refl) as (g & mg & Hg & Hfg). pose proof (far_bound s pl X g mg dshift Hl Hg ltac:(lia) Hfg). apply Hnext; [lia|destruct lock; lia].
Qed.

Lemma alloc_dva_ok s pl X c mc r psize dva d hintdva t flags : pool_live s pl X -> get_mc pl c = Ok mc -> mc_rotor mc = Some r -> block_ok pl c psize flags -> hint_ok pl dva d hintdva -> s <= t <= s + 2 -> 0 <= d < zlen dva ->
  exists pl' dva' err, metaslab_alloc_dva pl c psize dva d hintdva t flags = Ok (pl', dva', err) /\ dva_result s X pl c psize t dva d pl' dva' err.
Proof using All.
  intros Hl Ec Er Hb Hh Ht Hd. unfold metaslab_alloc_dva. destruct (_ && _).
  { exists pl, dva, ENOSPC. split; [done|]. split; [apply pool_kept_refl|]. right. split; [done|]. split; [done|by left]. }
  destruct (pick_group_ok s pl X c mc r dva d hintdva flags Hl Ec Er Hh) as (g & -> & Hg). rewrite bind_Ok. cbv beta. destruct (ri_ring _ (pv_rings _ _ _ Hl) c mc Ec) as (L & HL). destruct (ring_around _ _ _ _ g HL) as (l & Ha & _); [by apply HL|].
  apply (dva_loop s X c psize dva d t flags g l Ht Hd 130 3 false pl); try done. by exists mc.
Qed.
End circle.
End MetaslabCircle.
