(* ===== verification/MetaslabSystem.v ===== *)
(** Allocating and freeing the copies of a block.

    A pool in use: the calls of the rest of the system, what they promise, and what the
    promises say of sequences of them. *)

From S2P Require Import Prelude Avl AvlSpec OrdTree SpaceMap SpaceSet SpaceMapOk SpaceMapWalk SpaceMapRanges SpaceMapSpec SpaceLog SpaceSync SpaceLoad SpaceLogSpec MetaslabInv Metaslab MetaslabOk MetaslabSpec TxgList MetaslabSync MetaslabCycle RaidzMap Blkptr MetaslabGroup MetaslabTree MetaslabPool MetaslabBlock MetaslabPass MetaslabFinish MetaslabRotor MetaslabCircle.
Import RaidzMap SpaceMap SpaceSet SpaceMapOk SpaceMapCut SpaceMapWalk SpaceMapRanges SpaceMapSpec SpaceLog SpaceEntry SpaceSync SpaceLoad SpaceLogSpec SpaceFrame Metaslab MetaslabPick MetaslabOk MetaslabSpec TxgList MetaslabSync MetaslabSlab MetaslabInv MetaslabWrite MetaslabTurn MetaslabTake Blkptr MetaslabGroup MetaslabTree MetaslabPool MetaslabState MetaslabUse MetaslabPlace MetaslabBlock MetaslabRound MetaslabPass MetaslabDone MetaslabFinish MetaslabRing MetaslabRotor MetaslabChoose MetaslabCircle.
Open Scope Z_scope.

Module MetaslabAlloc.

(** A range of metaslab [r_p], the [r_k]th of group [r_g]. *)
Record range := Rg { r_g : Z; r_k : nat; r_p : Z; r_off : Z; r_size : Z }.

Definition r_assign (X : Z -> Z -> sx) (r : range) (o : owner) : Z -> Z -> sx := x_assign X (r_g r) (r_p r) (r_off r) (r_size r) o.

(** Free ranges are allocated in [t], one after the other. *)
Inductive picks (t : Z) (X : Z -> Z -> sx) : list range -> (Z -> Z -> sx) -> Prop :=
| picks_nil : picks t X [] X
| picks_snoc rs Y r : picks t X rs Y -> (forall y, inside (r_off r) (r_size r) y -> own (x_gh (Y (r_g r) (r_p r))) y = OFree /\ dead (x_gh (Y (r_g r) (r_p r))) y = None) -> picks t X (rs ++ [r]) (r_assign Y r (OAlloc t)).

(** What was picked is allocated now and was free before, and the rest is as it was. *)
Lemma picks_own t X rs Y : picks t X rs Y -> forall g p y,
  ((exists r, r ∈ rs /\ r_g r = g /\ r_p r = p /\ inside (r_off r) (r_size r) y) /\ own (x_gh (Y g p)) y = OAlloc t /\ own (x_gh (X g p)) y = OFree) \/
  (~ (exists r, r ∈ rs /\ r_g r = g /\ r_p r = p /\ inside (r_off r) (r_size r) y) /\ own (x_gh (Y g p)) y = own (x_gh (X g p)) y).
Proof.
  induction 1 as [|rs Y r H IH Hf]; intros g p y; [right; split; [|done]; by intros (r & ?%not_elem_of_nil & _)|]. unfold r_assign, x_assign, upd. destruct (decide (g = r_g r /\ p = r_p r)) as [[-> ->]|Hne]; cbn [x_gh x_with].
  - destruct (decide (inside (r_off r) (r_size r) y)) as [Hy|Hy].
    + left. split; [exists r; split; [rewrite elem_of_app; right; left|done]|]. rewrite assigned_in by done. split; [done|]. destruct (Hf y Hy) as [Ho _]. destruct (IH (r_g r) (r_p r) y) as [(_ & E & _)|[_ E]]; congruence.
    + rewrite assigned_out by done. destruct (IH (r_g r) (r_p r) y) as [((r' & Hr & Hr') & E)|[Hn E]]; [left; split; [exists r'; split; [rewrite elem_of_app; by left|done]|done]|right]. split; [|done]. intros (r' & [Hr| ->%list_elem_of_singleton]%elem_of_app & E1 & E2 & E3); [apply Hn; by exists r'|done].
  - destruct (IH g p y) as [((r' & Hr & Hr') & E)|[Hn E]]; [left; split; [exists r'; split; [rewrite elem_of_app; by left|done]|done]|right]. split; [|done]. intros (r' & [Hr| ->%list_elem_of_singleton]%elem_of_app & E1 & E2 & E3); [apply Hn; by exists r'|naive_solver].
Qed.

(** Giving back the last one. *)
Lemma r_assign_same Y Z r : (forall g p, x_same (Y g p) (Z g p)) -> forall o g p, x_same (r_assign Y r o g p) (r_assign Z r o g p).
Proof.
  intros H o g p. unfold r_assign, x_assign, upd. case_decide; [|done]. destruct (H (r_g r) (r_p r)) as [H1 H2 H3 H4]. split; try done. intros a. cbn. destruct (H1 a) as [-> ->]. done.
Qed.

Lemma unpick Y t r : (forall y, inside (r_off r) (r_size r) y -> own (x_gh (Y (r_g r) (r_p r))) y = OFree) -> forall g p, x_same (Y g p) (r_assign (r_assign Y r (OAlloc t)) r OFree g p).
Proof.
  intros Hf g p. unfold r_assign, x_assign, upd. case_decide as E; [|done]. destruct E as [-> ->]. rewrite decide_True by done. split; try done. intros a. cbn. split; [|done]. case_decide as Ha; [|done]. symmetry. by apply Hf.
Qed.

Section alloc.
Context {T I D : Type} {HT : Tree T I} {HK : Kmem} {HD : Dmu D} {HB : DmuObjects D} {HE : SpaEnv} {HTL : TreeLaws T I} {HKL : KmemLaws} {HDL : DmuLaws D} {HBL : DmuObjectLaws D}.
Implicit Types (pl : pool T D) (mg : metaslab_group T) (msp : metaslab T) (dva : list dva_t).

Definition dva_of pl (a : dva_t) (r : range) : Prop := exists mg, dva_at pl a (r_g r) mg (r_k r) (r_p r) (r_off r) (r_size r).

Lemma dva_kept pl pl' a r : pool_kept pl pl' -> dva_of pl a r -> dva_of pl' a r.
Proof.
  intros Hk (mg & [E1 Hg Hms E2 E3 Hf]). destruct (proj2 (proj2 (proj2 Hk)) _ mg Hg) as (mg' & Hg' & _ & _ & _ & _ & Hv & _). pose proof (vd_like_same _ _ Hv) as (S1 & S2 & S3 & S4 & _). exists mg'. constructor; [done|done|by rewrite S4|done| |unfold slab_geo; by rewrite S1, S2].
  rewrite <- E3. unfold dva_size. by rewrite (like_asize _ _ _ Hv).
Qed.

Lemma dva_back pl pl' a r : pool_kept pl pl' -> dva_of pl' a r -> dva_of pl a r.
Proof.
  intros Hk (mg & [E1 Hg Hms E2 E3 Hf]). destruct (kept_back _ _ _ _ Hk Hg) as (mg' & Hg' & _ & _ & _ & _ & Hv). pose proof (vd_like_same _ _ Hv) as (S1 & S2 & S3 & S4 & _). exists mg'. constructor; [done|done|by rewrite <- S4|done| |unfold slab_geo in *; by rewrite <- S1, <- S2].
  rewrite <- E3. unfold dva_size. by rewrite (like_asize _ _ _ Hv).
Qed.

Lemma live_same s pl X Y : (forall g p, x_same (X g p) (Y g p)) -> pool_live s pl X -> pool_live s pl Y.
Proof using All.
  intros Hs [[Hi Hd] H2 H3]. split; [|done|done]. split; [eapply (pool_same (fun _ _ => s)); [|exact Hi]; done|]. intros g mg Hg. eapply dirty_same; [| |exact (Hd g mg Hg)]; done.
Qed.

(** Free space is not to be freed. *)
Lemma free_dead s pl X a r y : pool_ok s pl X -> dva_of pl a r -> own (x_gh (X (r_g r) (r_p r))) y = OFree -> dead (x_gh (X (r_g r) (r_p r))) y = None.
Proof using All.
  intros [Hi _] (mg & [_ Hg Hms _ _ _]) Eo. pose proof (pi_group _ _ _ Hi _ mg Hg) as Hgr. destruct (proj1 (go_ms _ _ _ _ Hgr (r_p r)) ltac:(by eapply list_elem_of_lookup_2)) as [msp Hp]. pose proof (go_slab _ _ _ _ Hgr _ _ _ Hms Hp) as Hsl.
  eapply free_not_dead; [apply (si_valid _ _ _ _ _ _ (so_inv _ _ _ _ _ _ Hsl))|done].
Qed.

(** ** Undoing *)

Lemma give_back s pl Y a r t : pool_live s pl Y -> dva_of pl a r -> s <= t <= s + 2 -> t <= spa_freeze_txg -> (forall y, inside (r_off r) (r_size r) y -> own (x_gh (Y (r_g r) (r_p r))) y = OAlloc t /\ dead (x_gh (Y (r_g r) (r_p r))) y = None) ->
  exists pl', metaslab_free_dva pl a t true = Ok pl' /\ pool_live s pl' (r_assign Y r OFree) /\ pool_kept pl pl'.
Proof using All.
  intros Hl (mg & Ha) Ht Hfz Hal. destruct (free_dva_now s pl Y a _ mg _ _ _ _ t (pv_ok _ _ _ Hl) Ha Ht Hfz Hal) as (pl' & E & Hok & Hf). exists pl'. split; [done|]. split; [by eapply live_frame|by apply frame_kept].
Qed.

Lemma undo_loop s X t : s <= t <= s + 2 -> t <= spa_freeze_txg -> forall rs Y, picks t X rs Y -> forall lo pl dva Z, (forall g p, x_same (Y g p) (Z g p)) -> pool_live s pl Z -> Forall2 (dva_of pl) (take (length rs) dva) rs ->
  exists pl' dva', for_n (length rs) lo (fun _ '(i, pl, dva) =>
    a ← rd dva i;
    pl ← metaslab_free_dva pl a t true;
    dva ← wr dva i dva_zero;
    Ok (i - 1, pl, dva)) (Z.of_nat (length rs) - 1, pl, dva) = Ok (-1, pl', dva') /\ pool_live s pl' X /\ pool_kept pl pl'.
Proof using All.
  intros Ht Hfz rs Y Hp. induction Hp as [|rs Y r Hp IH Hf]; intros lo pl dva Z HZ Hl Hd.
  - exists pl, dva. split; [done|]. split; [by eapply live_same; [intros g p; symmetry; apply HZ|]|apply pool_kept_refl].
  - pose proof (Forall2_length _ _ _ Hd) as Hlen. rewrite length_take, length_app in Hlen. cbn in Hlen. rewrite length_app. cbn [length]. rewrite Nat.add_1_r. cbn [for_n]. replace (Z.of_nat (S (length rs)) - 1) with (Z.of_nat (length rs)) by lia.
    rewrite length_app, Nat.add_1_r in Hd. destruct (lookup_lt_is_Some_2 dva (length rs)) as [a Ea]; [lia|]. rewrite (take_S_r _ _ a Ea) in Hd. apply Forall2_app_inv in Hd as [Hd1 Hd2]; [|rewrite length_take; lia]. inversion Hd2 as [|? ? ? ? Ha _]; subst.
    rewrite (rd_Some _ _ a) by (lia || by rewrite Nat2Z.id). cbn [mbind res_bind]. destruct (give_back s pl Z a r t Hl Ha Ht Hfz) as (pl1 & -> & Hl1 & Hk1).
    { intros y Hy. destruct (xs_gh _ _ (HZ (r_g r) (r_p r)) y) as [-> ->]. unfold r_assign, x_assign. rewrite upd_eq. cbn [x_gh x_with]. rewrite assigned_in by done. split; [done|]. by apply Hf. }
    cbn [mbind res_bind]. rewrite wr_in_bounds by lia. cbn [mbind res_bind]. destruct (IH (lo + 1) pl1 (<[Z.to_nat (Z.of_nat (length rs)) := dva_zero]> dva) (r_assign Z r OFree)) as (pl2 & dva2 & E2 & Hl2 & Hk2).
    + intros g p. etrans; [apply (unpick Y t r)|by apply r_assign_same]. intros y Hy. by apply Hf.
    + done.
    + rewrite Nat2Z.id, take_insert_ge by lia. eapply Forall2_impl; [exact Hd1|]. intros b q Hb. by eapply dva_kept.
    + exists pl2, dva2. split; [exact E2|]. split; [done|by eapply pool_kept_trans].
Qed.

(** ** Blocks *)

Lemma member_kept pl pl' c g : pool_kept pl pl' -> member pl c g -> member pl' c g.
Proof. intros Hk (mg & E & E1 & E2). destruct (proj2 (proj2 (proj2 Hk)) g mg E) as (mg' & E' & F1 & F2 & _). exists mg'. split_and!; [done|congruence|lia]. Qed.

Lemma member_rotor pl c mc g : rings pl -> get_mc pl c = Ok mc -> member pl c g -> exists r, mc_rotor mc = Some r.
Proof. intros Hr Ec Hg. destruct (ri_ring _ Hr c mc Ec) as (L & HL). apply HL in Hg. pose proof (ra_rotor _ _ _ _ HL) as Ho. destruct (mc_rotor mc) as [r|]; [by exists r|]. rewrite Ho in Hg. by apply not_elem_of_nil in Hg. Qed.

Lemma class_kept pl pl' c mc : pool_kept pl pl' -> get_mc pl c = Ok mc -> exists mc', get_mc pl' c = Ok mc'.
Proof. intros (_ & _ & Hc & _) [Hb _]%rd_ok_inv. destruct (rd_in_bounds (spa_classes pl') c) as (mc' & E & _); [by rewrite Hc|by exists mc']. Qed.

(** The copies allocated so far. *)
Definition copies pl (c t : Z) X dva rs Y : Prop := picks t X rs Y /\ Forall2 (dva_of pl) (take (length rs) dva) rs /\ Forall (fun r => member pl c (r_g r) /\ 0 < r_size r < 2 ^ 33) rs.

Lemma copies_kept pl pl' c t X dva rs Y : pool_kept pl pl' -> copies pl c t X dva rs Y -> copies pl' c t X dva rs Y.
Proof. intros Hk (H1 & H2 & H3). split; [done|]. split; [eapply Forall2_impl; [exact H2|]; intros a r; by apply dva_kept|eapply Forall_impl; [exact H3|]; intros r [A B]; split; [by eapply member_kept|done]]. Qed.

Lemma copies_next s pl pl' c psize t X dva rs Y dva' flags : pool_kept pl pl' -> block_ok pl' c psize flags -> pool_ok s pl Y -> copies pl c t X dva rs Y -> (length rs < length dva)%nat -> allocated s Y pl' c psize t dva (Z.of_nat (length rs)) dva' ->
  exists r, copies pl' c t X dva' (rs ++ [r]) (r_assign Y r (OAlloc t)) /\ pool_live s pl' (r_assign Y r (OAlloc t)) /\ length dva' = length dva /\ (forall i, (length rs < i)%nat -> dva' !! i = dva !! i).
Proof using All.
  intros Hk (B1 & _ & _) Hok Hc Hlen (g & mg & k & p & off & a & Hg & Ecl & Hct & -> & Ha & Hf & Hl). destruct (copies_kept _ _ _ _ _ _ _ _ Hk Hc) as (C1 & C2 & C3). set (r := Rg g k p off (vdev_psize_to_asize (mg_vd mg) psize)). exists r. assert (Hda : dva_of pl' a r) by (by exists mg).
  split; [|split; [exact Hl|split; [apply length_insert|intros i Hi; rewrite Nat2Z.id; apply list_lookup_insert_ne; lia]]]. split; [|split].
  - apply picks_snoc; [done|]. intros y Hy. split; [by apply Hf|]. apply (free_dead s pl Y a r); [done|by eapply dva_back|by apply Hf].
  - rewrite length_app, Nat.add_1_r, Nat2Z.id. rewrite (take_S_r _ _ a) by (by apply list_lookup_insert_eq). rewrite take_insert_ge by lia. apply Forall2_app; [done|by constructor].
  - apply list.Forall_app. split; [done|]. constructor; [|done]. split; [by exists mg|apply (B1 g mg Hg Ecl)].
Qed.

(** Either all the copies are allocated or none is. *)
Definition block_result (s : Z) X pl (c psize t ndvas : Z) dva pl' dva' (err : Z) : Prop := pool_kept pl pl' /\
  ((err = 0 /\ exists rs Y, copies pl' c t X dva' rs Y /\ Z.of_nat (length rs) = ndvas /\ pool_live s pl' Y /\ length dva' = length dva /\ (forall i, ndvas <= Z.of_nat i -> dva' !! i = dva !! i)) \/ (err = ENOSPC /\ pool_live s pl' X)).

Section block.
Variables (s : Z) (X : Z -> Z -> sx) (c psize t ndvas flags : Z) (hintdva : option (list dva_t)) (dva0 : list dva_t).
Hypotheses (Ht : s <= t <= s + 2) (Hfz : t <= spa_freeze_txg) (Hn : 0 <= ndvas <= zlen dva0) (Hh : match hintdva with Some hint => ndvas <= zlen hint | None => True end).

Lemma alloc_loop : forall fuel pl dva rs Y, pool_live s pl Y -> block_ok pl c psize flags -> (exists mc, get_mc pl c = Ok mc) -> (exists g, member pl c g) -> copies pl c t X dva rs Y -> Z.of_nat (length rs) <= ndvas -> length dva = length dva0 -> (forall i, (length rs <= i)%nat -> dva !! i = dva0 !! i) -> ndvas - Z.of_nat (length rs) < Z.of_nat fuel ->
  exists pl' dva' err, loop fuel (fun '(d, pl, dva) =>
      if d <? ndvas then
        '(pl, dva, error) ← metaslab_alloc_dva pl c psize dva d hintdva t flags;
        if negb (error =? 0) then
          '(_, pl, dva) ← for_range 0 d (fun _ '(i, pl, dva) =>
            a ← rd dva i;
            pl ← metaslab_free_dva pl a t true;
            dva ← wr dva i dva_zero;
            Ok (i - 1, pl, dva)) (d - 1, pl, dva);
          Ok (inr (pl, dva, error))
        else Ok (inl (d + 1, pl, dva))
      else Ok (inr (pl, dva, 0))) (Z.of_nat (length rs), pl, dva) = Ok (pl', dva', err) /\ block_result s X pl c psize t ndvas dva0 pl' dva' err.
Proof using All.
  intros fuel. induction fuel as [|fuel IH]; intros pl dva rs Y Hl Hb [mc Emc] [g0 Hg0] Hc Hle Hld Hrest Hf; [lia|]. cbn [loop]. destruct (Z.ltb_spec (Z.of_nat (length rs)) ndvas) as [Hlt|Hge].
  2: { exists pl, dva, 0. split; [done|]. split; [apply pool_kept_refl|]. left. split; [done|]. exists rs, Y. split; [done|]. split; [lia|]. split; [done|]. split; [done|]. intros i Hi. apply Hrest. lia. }
  destruct (member_rotor _ _ _ _ (pv_rings _ _ _ Hl) Emc Hg0) as [r Er]. assert (Hhint : hint_ok pl dva (Z.of_nat (length rs)) hintdva).
  { unfold hint_ok. destruct hintdva as [hint|]; [lia|]. split; [lia|]. destruct (decide (rs = [])) as [->|Hne]; [by left|right]. destruct (exists_last Hne) as (rs0 & q & ->). destruct Hc as (_ & C2 & C3). rewrite length_app in *. cbn in *. destruct (lookup_lt_is_Some_2 dva (length rs0)) as [a Ea]; [lia|].
    exists a, c. split; [by replace (Z.to_nat _) with (length rs0) by lia|]. rewrite Nat.add_1_r, (take_S_r _ _ a Ea) in C2. apply Forall2_app_inv in C2 as [_ C2]; [|rewrite length_take; lia]. inversion C2 as [|? ? ? ? (mg & Ha) _]; subst. rewrite (da_vdev _ _ _ _ _ _ _ _ Ha). apply list.Forall_app in C3 as [_ C3]. inversion C3 as [|? ? [Hm _] _]; subst. done. }
  destruct (alloc_dva_ok s pl Y c mc r psize dva (Z.of_nat (length rs)) hintdva t flags Hl Emc Er Hb Hhint Ht ltac:(lia)) as (pl1 & dva1 & err & -> & Hk1 & Hres). cbn [mbind res_bind]. destruct Hres as [[-> Hal]|(-> & Hl1 & Hdv)].
  - cbn [Z.eqb negb]. destruct (copies_next s pl pl1 c psize t X dva rs Y dva1 flags Hk1 ltac:(by eapply block_kept) (pv_ok _ _ _ Hl) Hc ltac:(lia) Hal) as (q & Hc1 & Hl1 & Hlen1 & Hr1). destruct (IH pl1 dva1 (rs ++ [q]) (r_assign Y q (OAlloc t))) as (pl2 & dva2 & err & E2 & Hk2 & Hres2); try done.
    + by eapply block_kept.
    + by eapply class_kept.
    + exists g0. by eapply member_kept.
    + rewrite length_app. cbn. lia.
    + congruence.
    + intros i. rewrite length_app. cbn. intros Hi. rewrite Hr1 by lia. apply Hrest. lia.
    + rewrite length_app. cbn. lia.
    + rewrite length_app in E2. cbn [length] in E2. rewrite Nat2Z.inj_add in E2. exists pl2, dva2, err. split; [exact E2|]. split; [by eapply pool_kept_trans|done].
  - change (negb (ENOSPC =? 0)) with true. cbn [negb]. destruct (copies_kept _ _ _ _ _ _ _ _ Hk1 Hc) as (C1 & C2 & C3). assert (Htk : take (length rs) dva1 = take (length rs) dva) by (destruct Hdv as [->| ->]; [done|]; rewrite Nat2Z.id; by apply take_insert_ge).
    destruct (undo_loop s X t Ht Hfz rs Y C1 0 pl1 dva1 Y ltac:(done) Hl1) as (pl2 & dva2 & E2 & Hl2 & Hk2); [by rewrite Htk|]. unfold for_range. rewrite Z.sub_0_r, Nat2Z.id, E2. cbn [mbind res_bind]. exists pl2, dva2, ENOSPC. split; [done|]. split; [by eapply pool_kept_trans|]. by right.
Qed.
End block.

Lemma block_alloc_ok s pl X c mc psize bp ndvas t hintdva flags : pool_live s pl X -> get_mc pl c = Ok mc -> block_ok pl c psize flags -> s <= t <= s + 2 -> t <= spa_freeze_txg -> 0 <= ndvas <= zlen (blk_dva bp) -> match hintdva with Some hint => ndvas <= zlen hint | None => True end ->
  exists pl' bp' err, metaslab_alloc pl c psize bp ndvas t hintdva flags = Ok (pl', bp', err) /\ block_result s X pl c psize t ndvas (blk_dva bp) pl' (blk_dva bp') err /\ blk_prop bp' = blk_prop bp /\ (err = 0 -> blk_birth bp' = t /\ blk_phys_birth bp' = 0).
Proof using All.
  intros Hl Ec Hb Ht Hfz Hn Hh. unfold metaslab_alloc. rewrite Ec, bind_Ok. cbv beta. case_bool_decide as Hr; cbn [negb].
  - assert (Hg : exists g, member pl c g). { destruct (ri_ring _ (pv_rings _ _ _ Hl) c mc Ec) as (L & HL). pose proof (ra_rotor _ _ _ _ HL) as Ho. destruct Hr as [r Er]. rewrite Er in Ho. exists r. by apply HL. }
    destruct (alloc_loop s X c psize t ndvas flags hintdva (blk_dva bp) Ht Hfz Hn Hh (S (Z.to_nat ndvas)) pl (blk_dva bp) [] X Hl Hb ltac:(by exists mc) Hg) as (pl' & dva' & err & E & Hres); [split; [constructor|]; split; constructor|cbn; lia|done|done|cbn; lia|].
    change (Z.of_nat (length (@nil range))) with 0 in E. rewrite E. cbn [mbind res_bind]. destruct (Z.eqb_spec err 0) as [->|Hne]; cbn [negb]; (eexists _, _, _; split; [done|]; split; [exact Hres|]; split; [done|]); intros; [|done]. cbn. by rewrite Z.eqb_refl.
  - exists pl, bp, ENOSPC. split; [done|]. split; [split; [apply pool_kept_refl|by right]|]. split; [done|]. by intros.
Qed.

(** ** Freeing a block *)

(** What may be freed, at once or with the group [t], and what becomes of it. *)
Definition free_pre (now : bool) (t : Z) (X : Z -> Z -> sx) (r : range) : Prop := forall y, inside (r_off r) (r_size r) y -> let gh := x_gh (X (r_g r) (r_p r)) in
  dead gh y = None /\ if now then own gh y = OAlloc t else own gh y = OLog \/ exists b, own gh y = OAlloc b /\ b <= t.
Definition free_post (now : bool) (t : Z) (X : Z -> Z -> sx) (r : range) : Z -> Z -> sx := if now then r_assign X r OFree else x_bury X (r_g r) (r_p r) (r_off r) (r_size r) t.

Fixpoint frees (now : bool) (t : Z) (X : Z -> Z -> sx) (rs : list range) : Prop :=
  match rs with [] => True | r :: rs => free_pre now t X r /\ frees now t (free_post now t X r) rs end.

Lemma free_step s pl X a r now t : pool_live s pl X -> dva_of pl a r -> s <= t <= s + 2 -> t <= spa_freeze_txg -> free_pre now t X r ->
  exists pl', metaslab_free_dva pl a t now = Ok pl' /\ pool_live s pl' (free_post now t X r) /\ pool_kept pl pl'.
Proof using All.
  intros Hl Ha Ht Hfz Hp. destruct now; [apply (give_back s pl X a r t); try done; intros y Hy; by apply and_comm, Hp|]. destruct Ha as (mg & Ha). destruct (free_dva_later s pl X a _ mg _ _ _ _ t (pv_ok _ _ _ Hl) Ha Ht Hfz) as (pl' & E & Hok & Hf); [intros y Hy; by apply Hp|]. exists pl'. split; [done|]. split; [by eapply live_frame|by apply frame_kept].
Qed.

Lemma block_free_ok s bp now t rs : s <= t <= s + 2 -> t <= spa_freeze_txg -> BP_GET_NDVAS bp = Z.of_nat (length rs) -> forall pl X, pool_live s pl X -> Forall2 (dva_of pl) (take (length rs) (blk_dva bp)) rs -> frees now t X rs ->
  exists pl', metaslab_free pl bp t now = Ok pl' /\ pool_live s pl' (foldl (free_post now t) X rs) /\ pool_kept pl pl'.
Proof using All.
  intros Ht Hfz Hn pl X Hl Hd Hfr. unfold metaslab_free, for_range. rewrite Hn, Z.sub_0_r, Nat2Z.id. cut (forall rs2 rs1 pl X, rs = rs1 ++ rs2 -> pool_live s pl X -> Forall2 (dva_of pl) (take (length rs) (blk_dva bp)) rs -> frees now t X rs2 ->
    exists pl', for_n (length rs2) (Z.of_nat (length rs1)) (fun d pl => a ← rd (blk_dva bp) d; metaslab_free_dva pl a t now) pl = Ok pl' /\ pool_live s pl' (foldl (free_post now t) X rs2) /\ pool_kept pl pl').
  { intros H. by apply (H rs [] pl X). } clear pl X Hl Hd Hfr. intros rs2. induction rs2 as [|r rs2 IH]; intros rs1 pl X Er Hl Hd Hfr; [exists pl; split; [done|]; split; [done|apply pool_kept_refl]|].
  destruct Hfr as [Hp Hfr]. cbn [length for_n foldl]. assert (Hlk : rs !! length rs1 = Some r) by (rewrite Er; by apply list_lookup_middle). destruct (Forall2_lookup_r _ _ _ _ _ Hd Hlk) as (a & Ea & Ha). rewrite lookup_take in Ea. case_decide as Hlt; [|done]. rewrite (rd_Some _ _ a) by (lia || by rewrite Nat2Z.id). cbn [mbind res_bind].
  destruct (free_step s pl X a r now t Hl Ha Ht Hfz Hp) as (pl1 & -> & Hl1 & Hk1). cbn [mbind res_bind]. destruct (IH (rs1 ++ [r]) pl1 (free_post now t X r)) as (pl2 & E2 & Hl2 & Hk2); [by rewrite <- app_assoc|done|eapply Forall2_impl; [exact Hd|]; intros b q; by apply dva_kept|done|].
  exists pl2. split; [rewrite length_app, Nat2Z.inj_add in E2; exact E2|]. split; [done|by eapply pool_kept_trans].
Qed.

(** ** Claiming a block *)

Lemma claim_step s pl X a r t : pool_live s pl X -> dva_of pl a r -> t = 0 \/ s <= t <= s + 2 -> spa_writeable = true ->
  exists pl' err, metaslab_claim_dva pl a t = Ok (pl', err) /\ pool_kept pl pl' /\
    ((err = 0 /\ (forall y, inside (r_off r) (r_size r) y -> own (x_gh (X (r_g r) (r_p r))) y = OFree /\ dead (x_gh (X (r_g r) (r_p r))) y = None) /\ pool_live s pl' (if t =? 0 then X else r_assign X r (OAlloc t))) \/ (err <> 0 /\ pool_live s pl' X)).
Proof using All.
  intros Hl Hda Ht Hw. pose proof Hda as (mg & Ha). pose proof Ha as [_ Hg Hms _ _ _]. pose proof (pi_group _ _ _ (proj1 (pv_ok _ _ _ Hl)) _ mg Hg) as Hgr. destruct (proj1 (go_ms _ _ _ _ Hgr (r_p r)) ltac:(by eapply list_elem_of_lookup_2)) as [msp Hp].
  destruct (claim_dva_ok s pl X a _ mg _ _ msp _ _ t (pv_ok _ _ _ Hl) Ha Hp Ht Hw) as (pl' & err & E & Hf & Hc). exists pl', err. split; [done|]. split; [by apply frame_kept|]. destruct Hc as [(-> & Hfree & Hok)|[(-> & _ & Hok)|(Hne & Hok & _)]].
  - left. split; [done|]. split; [intros y Hy; split; [by apply Hfree|eapply free_dead; [apply Hl|exact Hda|by apply Hfree]]|by eapply live_frame].
  - right. split; [done|by eapply live_frame].
  - right. split; [done|by eapply live_frame].
Qed.

Section claim.
Variables (s t : Z) (bp : blkptr_t) (rs : list range) (X : Z -> Z -> sx).
Hypotheses (Ht : t = 0 \/ s <= t <= s + 2) (Hw : spa_writeable = true) (Hn : BP_GET_NDVAS bp = Z.of_nat (length rs)).

(** The copies are claimed in turn, up to the first that fails. *)
Lemma claim_loop : forall rs2 rs1 pl Y, rs = rs1 ++ rs2 -> pool_live s pl Y -> Forall2 (dva_of pl) (take (length rs) (blk_dva bp)) rs -> (if t =? 0 then Y = X else picks t X rs1 Y) -> (t = 0 -> forall r y, r ∈ rs1 -> inside (r_off r) (r_size r) y -> own (x_gh (X (r_g r) (r_p r))) y = OFree) ->
  exists pl' err rs1' Y', loop (S (length rs2)) (fun '(d, pl) =>
    if d <? BP_GET_NDVAS bp then
      a ← rd (blk_dva bp) d;
      '(pl, error) ← metaslab_claim_dva pl a t;
      Ok (if negb (error =? 0) then inr (pl, error) else inl (d + 1, pl))
    else Ok (inr (pl, 0))) (Z.of_nat (length rs1), pl) = Ok (pl', err) /\ pool_kept pl pl' /\ pool_live s pl' Y' /\ (if t =? 0 then Y' = X else picks t X rs1' Y') /\
    (t = 0 -> forall r y, r ∈ rs1' -> inside (r_off r) (r_size r) y -> own (x_gh (X (r_g r) (r_p r))) y = OFree) /\ (err = 0 -> rs1' = rs) /\ rs1' `prefix_of` rs.
Proof using All.
  intros rs2. induction rs2 as [|r rs2 IH]; intros rs1 pl Y Er Hl Hd HY Hfree; cbn [length loop]; rewrite Hn.
  - rewrite app_nil_r in Er. subst rs1. rewrite Z.ltb_irrefl. exists pl, 0, rs, Y. split; [done|]. split; [apply pool_kept_refl|]. by split_and!.
  - rewrite (proj2 (Z.ltb_lt _ _)) by (rewrite Er, length_app; cbn; lia). assert (Hlk : rs !! length rs1 = Some r) by (rewrite Er; by apply list_lookup_middle). destruct (Forall2_lookup_r _ _ _ _ _ Hd Hlk) as (a & Ea & Ha). rewrite lookup_take in Ea. case_decide as Hlt; [|done]. rewrite (rd_Some _ _ a) by (lia || by rewrite Nat2Z.id). cbn [mbind res_bind].
    destruct (claim_step s pl Y a r t Hl Ha Ht Hw) as (pl1 & err & -> & Hk1 & Hc). cbn [mbind res_bind]. destruct Hc as [(-> & Hfr & Hl1)|[Hne Hl1]].
    + cbn [Z.eqb negb]. destruct (IH (rs1 ++ [r]) pl1 (if t =? 0 then Y else r_assign Y r (OAlloc t))) as (pl2 & err2 & rs1' & Y' & E2 & Hk2 & H2); [by rewrite <- app_assoc|done|eapply Forall2_impl; [exact Hd|]; intros b q; by apply dva_kept|destruct (t =? 0); [done|by apply picks_snoc]| |].
      * intros E0 q y [Hq| ->%list_elem_of_singleton]%elem_of_app; [by apply Hfree|]. rewrite E0 in HY. cbn in HY. subst Y. intros Hy. by apply Hfr.
      * exists pl2, err2, rs1', Y'. split; [rewrite length_app, Nat2Z.inj_add in E2; rewrite Hn in E2; exact E2|]. split; [by eapply pool_kept_trans|done].
    + rewrite (proj2 (Z.eqb_neq _ _) Hne). cbn [negb]. exists pl1, err, rs1, Y. split; [done|]. split; [done|]. split; [done|]. split; [done|]. split; [done|]. split; [done|]. exists (r :: rs2). done.
Qed.
End claim.

Lemma block_claim_ok s pl X bp t rs : pool_live s pl X -> s <= t <= s + 2 -> 0 < t -> spa_writeable = true -> BP_GET_NDVAS bp = Z.of_nat (length rs) -> Forall2 (dva_of pl) (take (length rs) (blk_dva bp)) rs ->
  exists pl' err rs' Y, metaslab_claim pl bp t = Ok (pl', err) /\ pool_kept pl pl' /\ pool_live s pl' Y /\ picks t X rs' Y /\ rs' `prefix_of` rs /\ (err = 0 -> rs' = rs) /\
    ((exists r y, r ∈ rs /\ inside (r_off r) (r_size r) y /\ own (x_gh (X (r_g r) (r_p r))) y <> OFree) -> err <> 0 /\ rs' = []).
Proof using All.
  intros Hl Ht Ht0 Hw Hn Hd. unfold metaslab_claim. rewrite (proj2 (Z.eqb_neq t 0)) by lia. cbn [negb]. unfold claim_dvas. replace (Z.to_nat (BP_GET_NDVAS bp)) with (length rs) by (rewrite Hn; lia). destruct (claim_loop s 0 bp rs X ltac:(by left) Hw Hn rs [] pl X eq_refl Hl Hd eq_refl) as (pl1 & err1 & rs1 & Y1 & E1 & Hk1 & Hl1 & HY1 & Hf1 & He1 & Hp1).
  { intros _ r y Hr. by apply not_elem_of_nil in Hr. } change (Z.of_nat (length (@nil range))) with 0 in E1. rewrite E1. cbn [mbind res_bind]. cbn in HY1. subst Y1. destruct (Z.eqb_spec err1 0) as [->|Hne]; cbn [negb].
  - specialize (He1 eq_refl). subst rs1. assert (Hd1 : Forall2 (dva_of pl1) (take (length rs) (blk_dva bp)) rs) by (eapply Forall2_impl; [exact Hd|]; intros b q; by apply dva_kept).
    destruct (claim_loop s t bp rs X ltac:(by right) Hw Hn rs [] pl1 X eq_refl Hl1 Hd1) as (pl2 & err2 & rs2 & Y2 & E2 & Hk2 & Hl2 & HY2 & _ & He2 & Hp2); [rewrite (proj2 (Z.eqb_neq t 0)) by lia; constructor|lia|].
    rewrite (proj2 (Z.eqb_neq t 0)) in HY2 by lia. exists pl2, err2, rs2, Y2. split; [exact E2|]. split; [by eapply pool_kept_trans|]. split_and!; try done. intros (r & y & Hr & Hy & Hno). destruct Hno. by apply (Hf1 eq_refl r y).
  - exists pl1, err1, [], X. split; [done|]. split; [done|]. split; [done|]. split; [constructor|]. split; [apply prefix_nil|]. split; [done|]. done.
Qed.
End alloc.
End MetaslabAlloc.

Import MetaslabAlloc.

Module MetaslabSystem.

(** Blocks are allocated, freed and claimed in a transaction group, groups of metaslabs are
    activated and passivated, the dirty vdevs are synced in passes, and a transaction group
    ends. *)
Inductive call :=
| CAlloc (c psize : Z) (bp : blkptr_t) (ndvas txg : Z) (hintdva : option (list dva_t)) (flags : Z)
| CFree (bp : blkptr_t) (txg : Z) (now : bool)
| CClaim (bp : blkptr_t) (txg : Z)
| CActivate (g : Z)
| CPassivate (g : Z)
| CSync (pass : Z)
| CDone.

Definition no_block : blkptr_t := Blkptr (replicate 3 dva_zero) 0 0 0.

Section system.
Context {T I D : Type} {HT : Tree T I} {HK : Kmem} {HD : Dmu D} {HB : DmuObjects D} {HE : SpaEnv} {HTL : TreeLaws T I} {HKL : KmemLaws} {HDL : DmuLaws D} {HBL : DmuObjectLaws D}.
Implicit Types (pl : pool T D) (mg : metaslab_group T) (msp : metaslab T) (X Y : Z -> Z -> sx).

(** The group that is syncing, the pool, and what a call returns. *)
Definition perform (s : Z) pl (e : call) : res (Z * pool T D * (blkptr_t * Z)) :=
  match e with
  | CAlloc c psize bp ndvas txg hintdva flags => '(pl, bp, err) ← metaslab_alloc pl c psize bp ndvas txg hintdva flags; Ok (s, pl, (bp, err))
  | CFree bp txg now => pl ← metaslab_free pl bp txg now; Ok (s, pl, (bp, 0))
  | CClaim bp txg => '(pl, err) ← metaslab_claim pl bp txg; Ok (s, pl, (bp, err))
  | CActivate g => pl ← metaslab_group_activate pl g; Ok (s, pl, (no_block, 0))
  | CPassivate g => pl ← metaslab_group_passivate pl g; Ok (s, pl, (no_block, 0))
  | CSync pass => pl ← spa_sync_vdevs pl pass s; Ok (s, pl, (no_block, 0))
  | CDone => pl ← spa_sync_vdevs_done pl s; Ok (s + 1, pl, (no_block, 0))
  end.

(** The addresses of a block are ranges of the pool. *)
Definition block_of pl (bp : blkptr_t) (rs : list range) : Prop := BP_GET_NDVAS bp = Z.of_nat (length rs) /\ Forall2 (dva_of pl) (take (length rs) (blk_dva bp)) rs.

(** What the callers keep to, whoever owns the space. *)
Definition ready (s : Z) pl (e : call) : Prop :=
  match e with
  | CAlloc c psize bp ndvas t hintdva flags => (exists mc, get_mc pl c = Ok mc) /\ block_ok pl c psize flags /\ s <= t <= s + 2 /\ t <= spa_freeze_txg /\ 0 <= ndvas <= zlen (blk_dva bp) /\ match hintdva with Some hint => ndvas <= zlen hint | None => True end
  | CFree bp t now => s <= t <= s + 2 /\ t <= spa_freeze_txg
  | CClaim bp t => s <= t <= s + 2 /\ 0 < t /\ spa_writeable = true /\ exists rs, block_of pl bp rs
  | CActivate g => exists mg, top pl g = Some mg /\ mg_activation_count mg <= 0
  | CPassivate g => exists mg, top pl g = Some mg /\ - 2 ^ 63 + 1 < mg_activation_count mg
  | CSync _ => log_room s pl
  | CDone => chain (spa_vdev_txg_list pl) s = [] /\ s + 1 < 2 ^ 63
  end.

(** And they free only what is allocated and has not been freed. *)
Definition allowed (s : Z) pl X (e : call) : Prop :=
  match e with
  | CFree bp t now => ready s pl e /\ exists rs, block_of pl bp rs /\ frees now t X rs
  | _ => ready s pl e
  end.

(** The specification: an allocation takes free ranges for all the copies or fails and
    takes none, a free marks them for the group or frees them, a claim takes the ranges
    it names if they are free, syncing turns what was freed and allocated in the group, and
    the end of the group frees what was freed two groups ago. *)
Inductive spec pl (s : Z) X : call -> blkptr_t * Z -> Z -> (Z -> Z -> sx) -> Prop :=
| sp_alloc c psize bp ndvas t hintdva flags bp' rs Y : picks t X rs Y -> Z.of_nat (length rs) = ndvas -> Forall2 (dva_of pl) (take (length rs) (blk_dva bp')) rs -> blk_birth bp' = t -> spec pl s X (CAlloc c psize bp ndvas t hintdva flags) (bp', 0) s Y
| sp_full c psize bp ndvas t hintdva flags bp' : spec pl s X (CAlloc c psize bp ndvas t hintdva flags) (bp', ENOSPC) s X
| sp_free bp t now rs : block_of pl bp rs -> frees now t X rs -> spec pl s X (CFree bp t now) (bp, 0) s (foldl (free_post now t) X rs)
| sp_claim bp t rs rs' Y err : block_of pl bp rs -> picks t X rs' Y -> rs' `prefix_of` rs -> (err = 0 -> rs' = rs) -> ((exists r y, r ∈ rs /\ inside (r_off r) (r_size r) y /\ own (x_gh (X (r_g r) (r_p r))) y <> OFree) -> err <> 0 /\ rs' = []) -> spec pl s X (CClaim bp t) (bp, err) s Y
| sp_activate g : spec pl s X (CActivate g) (no_block, 0) s X
| sp_passivate g : spec pl s X (CPassivate g) (no_block, 0) s X
| sp_sync pass : spec pl s X (CSync pass) (no_block, 0) s (fun g p => x_sync s (X g p))
| sp_done : spec pl s X CDone (no_block, 0) (s + 1) (fun g p => x_turn s (X g p)).

(** ** Rotors and sizes over a transaction group *)

Lemma rings_mos pl d : rings (set_mos pl d) -> rings pl.
Proof.
  intros [H1 H2 H3 H4]. constructor; [|exact H2|exact H3|exact H4]. intros c mc Ec. destruct (H1 c mc Ec) as (L & [A1 A2 A3]). by exists L.
Qed.

Lemma sync_live s pl pl' X Y : pool_live s pl X -> sync_frame pl pl' -> pool_ok s pl' Y -> pool_live s pl' Y.
Proof using All.
  intros [H1 H2 H3] (F1 & F2 & F3 & F4) Hok. assert (Hk : pool_kept pl (set_mos pl' (spa_mos pl))).
  { split; [done|]. split; [done|]. split; [cbn; by rewrite F1|]. intros g mg E. destruct (F4 g mg E) as (mg' & E' & B1 & B2 & B3 & B4 & B5 & (l & B6) & B7). exists mg'. split_and!; try done. rewrite B6. apply vd_like_lists. }
  split; [done|..].
  - apply (rings_mos pl' (spa_mos pl)). eapply rings_kept; [exact Hk| |done]. intros c mc Ec. exists mc. split; [|done]. change (rd (spa_classes pl') c = Ok mc) in Ec. by rewrite F1 in Ec.
  - assert (Hs : spaces (set_mos pl' (spa_mos pl))); [|destruct Hs as [S1 S2]; by constructor]. eapply spaces_kept; [exact Hk| |done]. intros c mc Ec. exists mc. split; [|done]. change (rd (spa_classes pl') c = Ok mc) in Ec. by rewrite F1 in Ec.
Qed.

Lemma done_live s pl pl' X Y : pool_live s pl X -> tops_frame pl pl' -> pool_ok (s + 1) pl' Y -> pool_live (s + 1) pl' Y.
Proof using All.
  intros [H1 H2 H3] (F1 & F2 & F3 & F4) Hok. assert (Hk : pool_kept pl pl').
  { split; [done|]. split; [done|]. split; [symmetry; by eapply Forall2_length|]. intros g mg E. destruct (F4 g mg E) as (mg' & E' & B1 & B2 & B3 & B4 & B5 & B6 & B7). exists mg'. by split_and!. }
  assert (Hc : forall c mc', get_mc pl' c = Ok mc' -> exists mc, get_mc pl c = Ok mc /\ class_like mc mc') by (intros c mc' [Hb Hl]%rd_ok_inv; destruct (Forall2_lookup_r _ _ _ _ _ F3 Hl) as (mc & Hl' & E); exists mc; split; [by apply rd_Some; [lia|]|done]).
  split; [done|..].
  - eapply rings_kept; [exact Hk| |done]. intros c mc' Ec. destruct (Hc c mc' Ec) as (mc & E & R & _). by exists mc.
  - eapply spaces_kept; [exact Hk| |done]. intros c mc' Ec. destruct (Hc c mc' Ec) as (mc & E & _ & _ & Hs). exists mc. split; [done|]. pose proof (sp_class _ H3 c mc E). apply Hs. lia.
Qed.

Lemma but_live s pl pl' X : pool_live s pl X -> pool_but pl pl' -> rings pl' -> pool_live s pl' X.
Proof using All.
  intros [H1 H2 [H3 H4]] Hb Hr. split; [by eapply pool_but_ok|done|]. constructor.
  - intros g mg Hg. destruct (pool_but_top _ _ _ _ Hb Hg) as (m & Em & (p & n & c & a & b & f & ->)). exact (H3 g m Em).
  - intros c mc Ec. pose proof (rd_ok_inv _ _ _ Ec) as [Hbd Hl]. destruct (Forall2_lookup_r _ _ _ _ _ (pb_classes _ _ Hb) Hl) as (mc0 & Hl0 & _ & Es). rewrite Es. apply (H4 c). by apply rd_Some; [lia|].
Qed.

(** ** Refinement *)

(** The vdevs and their metaslabs stay where they are. *)
Definition like pl pl' : Prop := forall g mg, top pl g = Some mg -> exists mg', top pl' g = Some mg' /\ vd_like (mg_vd mg) (mg_vd mg').

#[export] Instance like_preorder : PreOrder like.
Proof.
  split; [intros pl g mg E; exists mg; split; [done|apply vd_like_refl]|]. intros pl1 pl2 pl3 H1 H2 g mg E. destruct (H1 g mg E) as (mg2 & E2 & L2). destruct (H2 g mg2 E2) as (mg3 & E3 & L3). exists mg3. split; [done|by eapply vd_like_trans].
Qed.

Lemma like_kept pl pl' : pool_kept pl pl' -> like pl pl'.
Proof. intros (_ & _ & _ & H) g mg E. destruct (H g mg E) as (mg' & E' & _ & _ & _ & _ & Hv & _). by exists mg'. Qed.

Lemma like_sync pl pl' : sync_frame pl pl' -> like pl pl'.
Proof. intros (_ & _ & _ & H) g mg E. destruct (H g mg E) as (mg' & E' & _ & _ & _ & _ & _ & (l & B6) & _). exists mg'. split; [done|]. rewrite B6. apply vd_like_lists. Qed.

Lemma like_done pl pl' : tops_frame pl pl' -> like pl pl'.
Proof. intros (_ & _ & _ & H) g mg E. destruct (H g mg E) as (mg' & E' & _ & _ & _ & _ & _ & Hv & _). by exists mg'. Qed.

Lemma like_but pl pl' : pool_but pl pl' -> like pl pl'.
Proof.
  intros Hb g mg E. destruct (pb_group _ _ Hb g mg E) as (mg' & E' & (p & n & c & a & b & f & ->)). eexists. split; [exact E'|]. exists (vdev_ms_list (mg_vd mg)), (vdev_stat_ (mg_vd mg)), f. split; [by destruct (mg_vd mg)|done].
Qed.

Lemma call_runs s pl X e : pool_live s pl X -> allowed s pl X e -> exists s' pl' out Y, perform s pl e = Ok (s', pl', out) /\ spec pl s X e out s' Y /\ pool_live s' pl' Y /\ like pl pl'.
Proof using All.
  intros Hl Ha. destruct e as [c psize bp ndvas t hintdva flags|bp t now|bp t|g|g|pass|]; cbn [perform allowed ready] in *.
  - destruct Ha as ([mc Ec] & Hb & Ht & Hfz & Hn & Hh). destruct (block_alloc_ok s pl X c mc psize bp ndvas t hintdva flags Hl Ec Hb Ht Hfz Hn Hh) as (pl' & bp' & err & -> & (Hk & Hr) & _ & Hbirth). cbn [mbind res_bind]. destruct Hr as [(-> & rs & Y & (Hp & Hd & _) & El & Hl' & _)|[-> Hl']].
    + eexists _, _, _, Y. split; [done|]. split; [|split; [done|by apply like_kept]]. eapply sp_alloc; [exact Hp|done|eapply Forall2_impl; [exact Hd|]; intros a r; by apply dva_back|by apply Hbirth].
    + eexists _, _, _, X. split; [done|]. split; [constructor|split; [done|by apply like_kept]].
  - destruct Ha as ((Ht & Hfz) & rs & [Hn Hd] & Hfr). destruct (block_free_ok s bp now t rs Ht Hfz Hn pl X Hl Hd Hfr) as (pl' & -> & Hl' & Hk). cbn [mbind res_bind]. eexists _, _, _, _. split; [done|]. split; [by constructor|split; [done|by apply like_kept]].
  - destruct Ha as (Ht & Ht0 & Hw & rs & [Hn Hd]). destruct (block_claim_ok s pl X bp t rs Hl Ht Ht0 Hw Hn Hd) as (pl' & err & rs' & Y & -> & Hk & Hl' & Hp & Hpre & He & Hno). cbn [mbind res_bind]. eexists _, _, _, Y. split; [done|]. split; [by eapply sp_claim|split; [done|by apply like_kept]].
  - destruct Ha as (mg & Hg & Hc). destruct (activate_ring pl g mg (pv_rings _ _ _ Hl) Hg Hc) as (pl' & -> & Hr & Hb & _). cbn [mbind res_bind]. eexists _, _, _, X. split; [done|]. split; [constructor|split; [by eapply but_live|by apply like_but]].
  - destruct Ha as (mg & Hg & Hc). destruct (passivate_ring pl g mg (pv_rings _ _ _ Hl) Hg Hc) as (pl' & -> & Hr & Hb & _). cbn [mbind res_bind]. eexists _, _, _, X. split; [done|]. split; [constructor|split; [by eapply but_live|by apply like_but]].
  - destruct (spa_sync_vdevs_ok s pass pl X (pv_ok _ _ _ Hl) Ha) as (pl' & -> & Hok & _ & Hf). cbn [mbind res_bind]. eexists _, _, _, _. split; [done|]. split; [constructor|split; [by eapply sync_live|by apply like_sync]].
  - destruct Ha as [Hc Hs]. destruct (spa_sync_vdevs_done_ok s pl X (pv_ok _ _ _ Hl) Hc Hs) as (pl' & -> & Hok & Hf). cbn [mbind res_bind]. eexists _, _, _, _. split; [done|]. split; [constructor|split; [by eapply done_live|by apply like_done]].
Qed.

Lemma call_ok s pl X e : pool_live s pl X -> allowed s pl X e -> exists s' pl' out Y, perform s pl e = Ok (s', pl', out) /\ spec pl s X e out s' Y /\ pool_live s' pl' Y.
Proof using All. intros Hl Ha. destruct (call_runs s pl X e Hl Ha) as (s' & pl' & out & Y & H1 & H2 & H3 & _). by exists s', pl', out, Y. Qed.

Lemma picks_dead t X rs Y : picks t X rs Y -> forall g p y, dead (x_gh (Y g p)) y = dead (x_gh (X g p)) y.
Proof. induction 1 as [|rs Y r H IH Hf]; intros g p y; [done|]. unfold r_assign, x_assign, upd. case_decide as E; [|apply IH]. destruct E as [-> ->]. cbn. apply IH. Qed.

(** One copy. *)
Lemma alloc_one s pl X c psize bp t hint flags s' pl' bp' : pool_live s pl X -> allowed s pl X (CAlloc c psize bp 1 t hint flags) -> perform s pl (CAlloc c psize bp 1 t hint flags) = Ok (s', pl', (bp', 0)) ->
  exists r Y, Forall2 (dva_of pl) (take 1 (blk_dva bp')) [r] /\ pool_live s' pl' Y /\ 0 < r_size r /\
    forall y, inside (r_off r) (r_size r) y -> own (x_gh (Y (r_g r) (r_p r))) y = OAlloc t /\ dead (x_gh (Y (r_g r) (r_p r))) y = dead (x_gh (X (r_g r) (r_p r))) y.
Proof using All.
  intros Hl Ha He. destruct (call_ok s pl X _ Hl Ha) as (s1 & pl1 & out & Y & E & Hs & Hl1). rewrite He in E. injection E as <- <- <-. inversion Hs as [? ? ? ? ? ? ? ? rs Y' Hp Hn Hd _| | | | | | |]; subst. destruct rs as [|r [|]]; [cbn in Hn; lia| |cbn in Hn; lia]. exists r, Y. split; [done|]. split; [done|].
  split; [inversion Hd as [|a ? ? ? (mg & Hr)]; subst; apply (da_fits _ _ _ _ _ _ _ _ Hr)|]. intros y Hy. rewrite (picks_dead _ _ _ _ Hp). split; [|done]. destruct (picks_own _ _ _ _ Hp (r_g r) (r_p r) y) as [(_ & ? & _)|[Hno _]]; [done|]. destruct Hno. exists r. split; [left|done].
Qed.

Lemma sync_call s pl X pass s' pl' out : pool_live s pl X -> log_room s pl -> perform s pl (CSync pass) = Ok (s', pl', out) -> pool_live s pl' (fun g p => x_sync s (X g p)).
Proof using All. intros Hl Ha He. destruct (call_ok s pl X (CSync pass) Hl Ha) as (s1 & pl1 & o & Y & E & Hs & Hl1). rewrite He in E. injection E as <- <- <-. by inversion Hs; subst. Qed.

(** ** Sequences of calls *)

(** The owners along the calls of [es], for use in proofs. *)
Inductive run : Z -> pool T D -> (Z -> Z -> sx) -> list call -> Z -> pool T D -> (Z -> Z -> sx) -> Prop :=
| run_nil s pl X : run s pl X [] s pl X
| run_cons s pl X e es s1 pl1 out X1 s2 pl2 X2 : perform s pl e = Ok (s1, pl1, out) -> spec pl s X e out s1 X1 -> pool_live s1 pl1 X1 -> run s1 pl1 X1 es s2 pl2 X2 -> run s pl X (e :: es) s2 pl2 X2.

Lemma run_live s pl X es s' pl' X' : run s pl X es s' pl' X' -> pool_live s pl X -> pool_live s' pl' X'.
Proof. induction 1; auto. Qed.

(** ** Earlier groups *)

(** What is known of earlier groups. *)
Definition same_hist X Y : Prop := forall g p y, (x_A (Y g p) y <-> x_A (X g p) y) /\ (x_A1 (Y g p) y <-> x_A1 (X g p) y) /\ (x_A2 (Y g p) y <-> x_A2 (X g p) y).

#[export] Instance same_hist_preorder : PreOrder same_hist.
Proof. split; [intros X g p y; by split_and!|]. intros X Y Z H1 H2 g p y. destruct (H1 g p y) as (A1 & A2 & A3), (H2 g p y) as (B1 & B2 & B3). by rewrite B1, B2, B3. Qed.

Lemma hist_upd X g p x : x_A x = x_A (X g p) -> x_A1 x = x_A1 (X g p) -> x_A2 x = x_A2 (X g p) -> same_hist X (upd X g p x).
Proof. intros E1 E2 E3 g' p' y. unfold upd. case_decide as E; [destruct E as [-> ->]; by rewrite E1, E2, E3|by split_and!]. Qed.

Lemma hist_picks t X rs Y : picks t X rs Y -> same_hist X Y.
Proof. induction 1 as [|rs Y r Hp IH Hf]; [done|]. etrans; [exact IH|]. by apply hist_upd. Qed.

Lemma hist_frees now t rs : forall X, same_hist X (foldl (free_post now t) X rs).
Proof. induction rs as [|r rs IH]; intros X; [done|]. cbn [foldl]. etrans; [|apply IH]. unfold free_post. destruct now; by apply hist_upd. Qed.

(** A call changes it only at the end of a group. *)
Lemma spec_history pl s X e out s' Y : spec pl s X e out s' Y -> (s' = s /\ same_hist X Y) \/ (s' = s + 1 /\ Y = fun g p => x_turn s (X g p)).
Proof.
  destruct 1; try (left; split; [done|]; done); [left..|by right]; (split; [done|]); [by eapply hist_picks|apply hist_frees|by eapply hist_picks].
Qed.

(** What was allocated at the end of the group [s], [n] groups later. *)
Definition tree_of (n : Z) (x : sx) (y : Z) : Prop := if n =? 1 then x_A x y else if n =? 2 then x_A1 x y else x_A2 x y.

(** The number of groups that end. *)
Fixpoint ends (es : list call) : Z := match es with [] => 0 | CDone :: es => 1 + ends es | _ :: es => ends es end.

Lemma ends_nonneg es : 0 <= ends es.
Proof. induction es as [|e es IH]; [done|]. destruct e; cbn [ends]; lia. Qed.

Lemma run_ends s pl X es s' pl' X' : run s pl X es s' pl' X' -> s' = s + ends es.
Proof. induction 1 as [|s pl X e es s1 pl1 out X1 s2 pl2 X2 He Hs Hl Hr IH]; [cbn; lia|]. destruct Hs; cbn [ends]; lia. Qed.

Lemma run_tree s0 s pl X es s' pl' X' g p y : run s pl X es s' pl' X' -> s0 + 1 <= s -> s' <= s0 + 3 -> tree_of (s - s0) (X g p) y -> tree_of (s' - s0) (X' g p) y.
Proof.
  intros Hr. induction Hr as [s pl X|s pl X e es s1 pl1 out X1 s2 pl2 X2 He Hs Hl Hr IH]; intros H1 H2 Ht; [done|]. pose proof (run_ends _ _ _ _ _ _ _ Hr). pose proof (ends_nonneg es). destruct (spec_history _ _ _ _ _ _ _ Hs) as [[-> Hh]|[-> ->]].
  - apply IH; [done|done|]. destruct (Hh g p y) as (A1 & A2 & A3). unfold tree_of in *. destruct (s - s0 =? 1); [by apply A1|]. destruct (s - s0 =? 2); [by apply A2|by apply A3].
  - apply IH; [lia|done|]. unfold tree_of in *. assert (s - s0 = 1 \/ s - s0 = 2) as [E|E] by lia; rewrite E in Ht; [replace (s + 1 - s0) with 2 by lia|replace (s + 1 - s0) with 3 by lia]; exact Ht.
Qed.

(** A byte of the tree is not free while it may be needed. *)
Lemma tree_kept s pl X s0 g mg k p msp y : pool_live s pl X -> s0 + 1 <= s <= s0 + 3 -> top pl g = Some mg -> vdev_ms (mg_vd mg) !! k = Some p -> mg_slabs mg !! p = Some msp -> in_geo (slab_geo (mg_vd mg) (Z.of_nat k)) y -> tree_of (s - s0) (X g p) y -> own (x_gh (X g p)) y <> OFree.
Proof using All.
  intros Hl Hs Hg Hk Hp Hy Ht. pose proof (go_slab _ _ _ _ (pi_group _ _ _ (proj1 (pv_ok _ _ _ Hl)) g mg Hg) k p msp Hk Hp) as [Hi _ _ Hh]. destruct (Hh y Hy) as [H1 H2]. pose proof (si_A _ _ _ _ _ _ Hi y Hy) as HA. unfold tree_of in Ht.
  assert (s - s0 = 1 \/ s - s0 = 2 \/ s - s0 = 3) as [E|[E|E]] by lia; rewrite E in Ht; cbn in Ht; intros Eo.
  - destruct (HA Ht); congruence.
  - destruct (H1 Ht) as [|[|]]; congruence.
  - destruct (H2 Ht) as [|[|[b ?]]]; congruence.
Qed.
End system.
End MetaslabSystem.
