(* ===== verification/MetaslabLedger.v ===== *)
(** The callers of a pool: what they hold, kept from what the calls return, and what they
    can rely on for any sequence of calls. *)

From S2P Require Import Prelude Avl AvlSpec OrdTree SpaceMap SpaceSet SpaceMapOk SpaceMapWalk SpaceMapRanges SpaceMapSpec SpaceLog SpaceSync SpaceLoad SpaceLogSpec MetaslabInv Metaslab MetaslabOk MetaslabSpec TxgList MetaslabSync MetaslabCycle RaidzMap Blkptr MetaslabGroup MetaslabTree MetaslabPool MetaslabBlock MetaslabPass MetaslabFinish MetaslabRotor MetaslabCircle MetaslabSystem.
Import RaidzMap SpaceMap SpaceSet SpaceMapOk SpaceMapCut SpaceMapWalk SpaceMapRanges SpaceMapSpec SpaceLog SpaceEntry SpaceSync SpaceLoad SpaceLogSpec SpaceFrame Metaslab MetaslabPick MetaslabOk MetaslabSpec TxgList MetaslabSync MetaslabSlab MetaslabInv MetaslabWrite MetaslabTurn MetaslabTake Blkptr MetaslabGroup MetaslabTree MetaslabPool MetaslabState MetaslabUse MetaslabPlace MetaslabBlock MetaslabRound MetaslabPass MetaslabDone MetaslabFinish MetaslabRing MetaslabRotor MetaslabChoose MetaslabCircle MetaslabAlloc MetaslabSystem.
Open Scope Z_scope.

Module MetaslabLedger.

#[export] Instance dva_eq_dec : EqDecision dva_t.
Proof. solve_decision. Defined.

(** ** Lists whose elements are pairwise related *)

Section pairs.
Context {A : Type} (R : A -> A -> Prop).

Lemma pairs_app l l' : ForallOrdPairs R l -> ForallOrdPairs R l' -> (forall x y, x ∈ l -> y ∈ l' -> R x y) -> ForallOrdPairs R (l ++ l').
Proof.
  induction 1 as [|x l Hx Hl IH]; intros Hl' Hxy; [done|]. cbn. constructor; [|apply IH; [done|]; intros a b Ha; apply Hxy; by right].
  apply Forall_app. split; [done|]. apply Forall_forall. intros y Hy. apply Hxy; [left|done].
Qed.

Lemma pairs_filter P `{forall x, Decision (P x)} l : ForallOrdPairs R l -> ForallOrdPairs R (filter P l).
Proof.
  induction 1 as [|x l Hx Hl IH]; [constructor|]. rewrite filter_cons. case_decide; [|done]. constructor; [|done]. apply Forall_forall. intros y [_ Hy]%list_elem_of_filter. by apply (proj1 (Forall_forall _ _) Hx).
Qed.

Lemma pairs_lookup l i j x y : ForallOrdPairs R l -> (i < j)%nat -> l !! i = Some x -> l !! j = Some y -> R x y.
Proof.
  intros Hl. revert i j. induction Hl as [|z l Hz Hl IH]; intros i j Hij Hi Hj; [done|]. destruct j as [|j]; [lia|]. destruct i as [|i]; cbn in *; [|by apply (IH i j); [lia|..]]. injection Hi as <-. apply (proj1 (Forall_forall _ _) Hz). by eapply list_elem_of_lookup_2.
Qed.

Lemma pairs_elem l x y : (forall a b, R a b -> R b a) -> ForallOrdPairs R l -> x ∈ l -> y ∈ l -> x <> y -> R x y.
Proof.
  intros Hs Hl [i Hi]%list_elem_of_lookup_1 [j Hj]%list_elem_of_lookup_1 Hne. assert (i <> j) by congruence. destruct (decide (i < j)%nat); [by apply (pairs_lookup l i j)|]. apply Hs. by apply (pairs_lookup l j i); [|lia|..].
Qed.

Lemma pairs_fmap {B} (f : B -> A) l : ForallOrdPairs R (f <$> l) -> ForallOrdPairs (fun x y => R (f x) (f y)) l.
Proof. induction l as [|x l IH]; intros H; [constructor|]. inversion H as [|? ? H1 H2]; subst. constructor; [exact (proj1 (Forall_fmap _ _ _) H1)|by apply IH]. Qed.

Lemma pairs_map {B} (f : B -> A) l : ForallOrdPairs (fun x y => R (f x) (f y)) l -> ForallOrdPairs R (f <$> l).
Proof. induction 1 as [|x l Hx Hl IH]; [constructor|]. cbn. constructor; [exact (proj2 (Forall_fmap _ _ _) Hx)|done]. Qed.
End pairs.

Lemma filter_fst {A B} (P : A -> Prop) `{forall x, Decision (P x)} (l : list (A * B)) : filter P l.*1 = (filter (fun x => P x.1) l).*1.
Proof. induction l as [|[a b] l IH]; [done|]. cbn [fmap list_fmap fst]. rewrite !filter_cons. cbn [fst]. case_decide; cbn; by rewrite ?IH. Qed.

(** ** The code and its callers *)

(** What the callers hold: the addresses of their blocks, each with the transaction group
    it was allocated in until this is synced. *)
Definition ledger : Type := list (dva_t * option Z).

Definition block_dvas (bp : blkptr_t) : list dva_t := take (Z.to_nat (BP_GET_NDVAS bp)) (blk_dva bp).

(** How a call and what it returned change it, while the group [s] is syncing. *)
Definition book (s : Z) (e : call) (out : blkptr_t * Z) (L : ledger) : ledger :=
  match e with
  | CAlloc _ _ _ ndvas t _ _ => if out.2 =? 0 then ((fun a => (a, Some t)) <$> take (Z.to_nat ndvas) (blk_dva out.1)) ++ L else L
  | CFree bp _ _ => filter (fun l => l.1 ∉ block_dvas bp) L
  | CClaim bp t => if out.2 =? 0 then ((fun a => (a, Some t)) <$> block_dvas bp) ++ L else L
  | CSync _ => (fun l => (l.1, if decide (l.2 = Some s) then None else l.2)) <$> L
  | CActivate _ | CPassivate _ | CDone => L
  end.

Section ledger.
Context {T I D : Type} {HT : Tree T I} {HK : Kmem} {HD : Dmu D} {HB : DmuObjects D} {HE : SpaEnv} {HTL : TreeLaws T I} {HKL : KmemLaws} {HDL : DmuLaws D} {HBL : DmuObjectLaws D}.
Implicit Types (pl : pool T D) (mg : metaslab_group T) (X Y : Z -> Z -> sx) (L : ledger).

(** The calls of [es] in turn, and the ledger that is kept of them. *)
Fixpoint execute (s : Z) pl L (es : list call) : res (Z * pool T D * ledger) :=
  match es with
  | [] => Ok (s, pl, L)
  | e :: es => '(s', pl', out) ← perform s pl e; execute s' pl' (book s e out L) es
  end.

(** A caller may free the addresses it holds, each once, and at once only those that are
    not synced yet. *)
Definition may (s : Z) pl L (e : call) : Prop :=
  ready s pl e /\
  match e with
  | CFree bp t now => NoDup (block_dvas bp) /\ forall a, a ∈ block_dvas bp -> exists o, (a, o) ∈ L /\ if now then o = Some t else forall b, o = Some b -> b <= t
  | _ => True
  end.

(** Each call of [es] is one that the callers may make where it is made. *)
Fixpoint obeys (s : Z) pl L (es : list call) : Prop :=
  match es with
  | [] => True
  | e :: es => may s pl L e /\ forall s' pl' out, perform s pl e = Ok (s', pl', out) -> obeys s' pl' (book s e out L) es
  end.

(** The bytes of the vdev [v] that an address stands for. *)
Definition covers pl (a : dva_t) (v y : Z) : Prop := exists mg, DVA_GET_VDEV a = v /\ top pl v = Some mg /\ inside (DVA_GET_OFFSET a) (dva_size mg a) y.

(** No byte is held twice. *)
Definition apart pl L : Prop := forall i j a b v y, i <> j -> L.*1 !! i = Some a -> L.*1 !! j = Some b -> covers pl a v y -> ~ covers pl b v y.

(** The bytes of a range belong to the group [o], or are in the log. *)
Definition leased X (o : option Z) (r : range) : Prop := forall y, inside (r_off r) (r_size r) y ->
  let gh := x_gh (X (r_g r) (r_p r)) in dead gh y = None /\ own gh y = match o with Some t => OAlloc t | None => OLog end.

Definition overlap (r r' : range) : Prop := r_g r = r_g r' /\ r_p r = r_p r' /\ exists y, inside (r_off r) (r_size r) y /\ inside (r_off r') (r_size r') y.

Definition clear_of (q q' : dva_t * option Z * range) : Prop := ~ overlap q.2 q'.2.

(** The ledger is right: its addresses stand for ranges that are allocated, no two of which
    overlap. *)
Definition leases pl X L : Prop := exists Q : list (dva_t * option Z * range), L = Q.*1 /\ (forall q, q ∈ Q -> dva_of pl q.1.1 q.2 /\ leased X q.1.2 q.2) /\ ForallOrdPairs clear_of Q.

Lemma overlap_sym r r' : overlap r r' -> overlap r' r.
Proof. intros (E1 & E2 & y & H1 & H2). split; [done|]. split; [done|]. by exists y. Qed.

Lemma clear_sym q q' : clear_of q q' -> clear_of q' q.
Proof. intros H Ho. by apply H, overlap_sym. Qed.

(** ** Addresses and ranges *)

Lemma slab_unique (vd : top_vdev) k k' y : in_geo (slab_geo vd (Z.of_nat k)) y -> in_geo (slab_geo vd (Z.of_nat k')) y -> k = k'.
Proof. unfold in_geo, slab_geo. cbn. intros H1 H2. nia. Qed.

Lemma fits_in g off size y : geo_fits g off size -> inside off size y -> in_geo g y.
Proof. intros (F1 & F2 & F3 & _) Hy. unfold in_geo. lia. Qed.

(** Ranges that share a byte of a vdev are in the same metaslab. *)
Lemma dva_meet pl a a' r r' y : dva_of pl a r -> dva_of pl a' r' -> r_g r = r_g r' -> inside (r_off r) (r_size r) y -> inside (r_off r') (r_size r') y -> r_k r = r_k r' /\ r_p r = r_p r'.
Proof.
  intros (mg & [D1 D2 D3 D4 D5 D6]) (mg' & [E1 E2 E3 E4 E5 E6]) Hg Hy Hy'. rewrite Hg in D2. assert (mg' = mg) as -> by congruence.
  assert (Hk : r_k r = r_k r') by (eapply slab_unique; eapply fits_in; [exact D6|done|exact E6|done]). split; [done|]. rewrite Hk in D3. congruence.
Qed.

Lemma dva_fun pl a r r' : dva_of pl a r -> dva_of pl a r' -> r = r'.
Proof.
  intros H H'. pose proof H as (mg & [D1 D2 D3 D4 D5 D6]). pose proof H' as (mg' & [E1 E2 E3 E4 E5 E6]). assert (Hg : r_g r = r_g r') by congruence. rewrite Hg in D2. assert (mg' = mg) as -> by congruence. pose proof (proj1 D6). pose proof (proj1 E6).
  destruct (dva_meet pl a a r r' (r_off r) H H' Hg) as [Hk Hp]; [lia|lia|]. destruct r, r'; cbn in *. congruence.
Qed.

Lemma covers_dva pl a r v y : dva_of pl a r -> covers pl a v y -> r_g r = v /\ inside (r_off r) (r_size r) y.
Proof. intros (mg & [D1 D2 D3 D4 D5 D6]) (mg' & <- & Ht & Hy). rewrite D1 in Ht. assert (mg' = mg) as -> by congruence. split; [done|]. by rewrite D4, D5 in Hy. Qed.

Lemma dva_like pl pl' a r : like pl pl' -> dva_of pl a r -> dva_of pl' a r.
Proof.
  intros Hk (mg & [E1 Hg Hms E2 E3 Hf]). destruct (Hk _ mg Hg) as (mg' & Hg' & Hv). pose proof (vd_like_same _ _ Hv) as (S1 & S2 & S3 & S4 & _). exists mg'. constructor; [done|done|by rewrite S4|done| |unfold slab_geo; by rewrite S1, S2].
  rewrite <- E3. unfold dva_size. by rewrite (like_asize _ _ _ Hv).
Qed.

Lemma leases_like pl pl' X L : like pl pl' -> leases pl X L -> leases pl' X L.
Proof. intros Hk (Q & E & HQ & Hp). exists Q. split; [done|]. split; [|done]. intros q Hq. destruct (HQ q Hq) as [H1 H2]. split; [by eapply dva_like|done]. Qed.

(** What a right ledger says about the addresses. *)
Lemma leases_apart pl X L : leases pl X L -> apart pl L /\ forall a, a ∈ L.*1 -> exists r, dva_of pl a r.
Proof.
  intros (Q & -> & HQ & Hp). split.
  - assert (Hlt : forall i j a b v y, (i < j)%nat -> Q.*1.*1 !! i = Some a -> Q.*1.*1 !! j = Some b -> covers pl a v y -> ~ covers pl b v y).
    { intros i j a b v y Hij Hi Hj Ha Hb. apply list_lookup_fmap_Some in Hi as (l & -> & Hi). apply list_lookup_fmap_Some in Hi as (q & -> & Hi). apply list_lookup_fmap_Some in Hj as (l' & -> & Hj). apply list_lookup_fmap_Some in Hj as (q' & -> & Hj).
      destruct (HQ q ltac:(by eapply list_elem_of_lookup_2)) as [Da _]. destruct (HQ q' ltac:(by eapply list_elem_of_lookup_2)) as [Db _]. destruct (covers_dva _ _ _ _ _ Da Ha) as [Eg Hy]. destruct (covers_dva _ _ _ _ _ Db Hb) as [Eg' Hy'].
      apply (pairs_lookup clear_of Q i j q q' Hp Hij Hi Hj). destruct (dva_meet _ _ _ _ _ y Da Db ltac:(congruence) Hy Hy') as [_ Ep]. split; [congruence|]. split; [done|]. by exists y. }
    intros i j a b v y Hne Hi Hj Ha Hb. destruct (decide (i < j)%nat); [by eapply (Hlt i j)|]. eapply (Hlt j i); try done. lia.
  - intros a (l & -> & Hl)%list_elem_of_fmap. apply list_elem_of_fmap in Hl as (q & -> & Hq). exists q.2. by apply HQ.
Qed.

(** ** The owners of what is held *)

Lemma leased_picks t X rs Y o r : picks t X rs Y -> leased X o r -> leased Y o r /\ forall r', r' ∈ rs -> ~ overlap r' r.
Proof.
  intros Hp Hh. split.
  - intros y Hy. destruct (Hh y Hy) as [H1 H2]. cbn. rewrite (picks_dead _ _ _ _ Hp). split; [done|]. destruct (picks_own _ _ _ _ Hp (r_g r) (r_p r) y) as [(_ & _ & E)|[_ ->]]; [|done]. destruct o; congruence.
  - intros r' Hr' (E1 & E2 & y & Hy' & Hy). destruct (Hh y Hy) as [_ H2]. rewrite <- E1, <- E2 in H2. destruct (picks_own _ _ _ _ Hp (r_g r') (r_p r') y) as [(_ & _ & E)|[Hn _]]; [destruct o; congruence|apply Hn; by exists r'].
Qed.

(** What an allocation has picked. *)
Lemma picks_leased t X rs Y : picks t X rs Y -> (forall r, r ∈ rs -> leased Y (Some t) r) /\ ForallOrdPairs (fun r r' => ~ overlap r r') rs.
Proof.
  induction 1 as [|rs Y r Hp [IH1 IH2] Hf]; [split; [by intros r ?%not_elem_of_nil|constructor]|]. split.
  - intros r' [Hr'| ->%list_elem_of_singleton]%elem_of_app y Hy; unfold r_assign, x_assign, upd.
    + destruct (IH1 r' Hr' y Hy) as [H1 H2]. case_decide as E; [|done]. destruct E as [Eg Ep]. cbn. rewrite <- Eg, <- Ep. split; [done|]. by case_decide.
    + destruct (Hf y Hy) as [H1 H2]. rewrite decide_True by done. cbn. split; [done|]. by rewrite decide_True.
  - apply pairs_app; [done|repeat constructor|]. intros r' r2 Hr' ->%list_elem_of_singleton (E1 & E2 & y & Hy' & Hy). destruct (IH1 r' Hr' y Hy') as [_ H1]. destruct (Hf y Hy) as [H2 _]. rewrite E1, E2 in H1. congruence.
Qed.

Lemma leased_free now t o r rs : forall X, (forall r', r' ∈ rs -> ~ overlap r' r) -> leased X o r -> leased (foldl (free_post now t) X rs) o r.
Proof.
  induction rs as [|r' rs IH]; intros X Hno Hh; [done|]. cbn [foldl]. apply IH; [intros r2 Hr2; apply Hno; by right|]. intros y Hy. destruct (Hh y Hy) as [H1 H2]. assert (Hy' : r_g r = r_g r' /\ r_p r = r_p r' -> ~ inside (r_off r') (r_size r') y) by (intros [E1 E2] Hin; apply (Hno r'); [left|]; split; [done|]; split; [done|]; by exists y).
  unfold free_post, r_assign, x_assign, x_bury, upd. destruct now; (case_decide as E; [|done]); specialize (Hy' E); destruct E as [<- <-]; cbn; by rewrite !(decide_False (P := _ <= y < _)).
Qed.

(** What is held may be freed. *)
Lemma leased_frees (now : bool) t rs : forall X, (forall r, r ∈ rs -> exists o, leased X o r /\ if now then o = Some t else forall b, o = Some b -> b <= t) -> ForallOrdPairs (fun r r' => ~ overlap r r') rs -> frees now t X rs.
Proof.
  induction rs as [|r rs IH]; intros X Hr Hp; [done|]. inversion Hp as [|? ? Hx Hp']; subst. split.
  - intros y Hy. destruct (Hr r ltac:(left)) as (o & Hl & Ho). destruct (Hl y Hy) as [H1 H2]. split; [done|]. destruct now; [by subst o|]. destruct o as [b|]; [right; exists b; split; [done|by apply Ho]|by left].
  - apply IH; [|done]. intros r' Hr'. destruct (Hr r' ltac:(by right)) as (o & Hl & Ho). exists o. split; [|done]. apply (leased_free now t o r' [r]); [|done]. intros r2 ->%list_elem_of_singleton. by apply (proj1 (Forall_forall _ _) Hx).
Qed.

(** ** The ledger along the calls *)

Lemma leases_picks pl X L t rs Y : picks t X rs Y -> leases pl X L -> leases pl Y L.
Proof. intros Hp (Q & E & HQ & Hc). exists Q. split; [done|]. split; [|done]. intros q Hq. destruct (HQ q Hq) as [H1 H2]. split; [done|by eapply leased_picks]. Qed.

Lemma leases_add pl X L t rs Y l : picks t X rs Y -> Forall2 (dva_of pl) l rs -> leases pl X L -> leases pl Y (((fun a => (a, Some t)) <$> l) ++ L).
Proof.
  intros Hp Hd HL. destruct (leases_picks _ _ _ _ _ _ Hp HL) as (Q & E & HQ & Hc). destruct (picks_leased _ _ _ _ Hp) as [Hl Ho].
  assert (exists Q0 : list (dva_t * option Z * range), Q0.*1 = (fun a => (a, Some t)) <$> l /\ Q0.*2 = rs /\ forall q, q ∈ Q0 -> dva_of pl q.1.1 q.2 /\ q.1.2 = Some t) as (Q0 & E1 & E2 & HQ0).
  { clear -Hd. induction Hd as [|a r l rs Ha Hd (Q0 & E1 & E2 & H)]; [exists []; split_and!; try done; by intros q ?%not_elem_of_nil|]. exists ((a, Some t, r) :: Q0). cbn. rewrite E1, E2. split_and!; try done. intros q [->|Hq]%elem_of_cons; [done|by apply H]. }
  exists (Q0 ++ Q). rewrite fmap_app, E1, E. split; [done|]. split.
  - intros q [Hq|Hq]%elem_of_app; [|by apply HQ]. destruct (HQ0 q Hq) as [H1 ->]. split; [done|]. apply Hl. rewrite <- E2. by apply list_elem_of_fmap_2.
  - apply pairs_app; [apply (pairs_fmap (fun r r' => ~ overlap r r') snd); by rewrite E2|done|]. intros q q' Hq Hq' Hov. destruct HL as (QX & EX & HX & _). rewrite E in EX.
    assert (Hin : q'.1 ∈ QX.*1) by (rewrite <- EX; by apply list_elem_of_fmap_2). apply list_elem_of_fmap in Hin as (q2 & E3 & Hq2). destruct (HX q2 Hq2) as [D2 L2]. destruct (HQ q' Hq') as [D1 _]. rewrite <- E3 in D2, L2. rewrite (dva_fun _ _ _ _ D2 D1) in L2.
    apply (proj2 (leased_picks _ _ _ _ _ _ Hp L2) q.2); [rewrite <- E2; by apply list_elem_of_fmap_2|done].
Qed.

(** The ranges of addresses that are held. *)
Lemma held_ranges (C : option Z -> Prop) (Q : list (dva_t * option Z * range)) l : ForallOrdPairs clear_of Q -> NoDup l -> (forall a, a ∈ l -> exists o, (a, o) ∈ Q.*1 /\ C o) ->
  exists rs, Forall2 (fun a r => exists o, (a, o, r) ∈ Q /\ C o) l rs /\ ForallOrdPairs (fun r r' => ~ overlap r r') rs.
Proof.
  intros Hc. induction 1 as [|a l Ha Hl IH]; intros Hh; [exists []; split; constructor|]. destruct IH as (rs & Hd & Ho); [intros b Hb; apply Hh; by right|]. destruct (Hh a ltac:(left)) as (o & Hq & HC). apply list_elem_of_fmap in Hq as ([[a' o'] r] & [= <- <-] & Hq).
  exists (r :: rs). split; [constructor; [by exists o|done]|]. constructor; [|done]. apply Forall_forall. intros r' Hr'. apply list_elem_of_lookup_1 in Hr' as [i Hi]. destruct (Forall2_lookup_r _ _ _ _ _ Hd Hi) as (b & Hb & o2 & Hq2 & _).
  apply (pairs_elem clear_of Q (a, o, r) (b, o2, r') clear_sym Hc Hq Hq2). intros [= <- _ _]. apply Ha. by eapply list_elem_of_lookup_2.
Qed.

Lemma block_dvas_length bp : Z.of_nat (length (block_dvas bp)) = BP_GET_NDVAS bp.
Proof. unfold block_dvas, BP_GET_NDVAS. rewrite Nat2Z.id, length_take. pose proof (length_filter (fun dva => DVA_IS_VALID dva = true) (blk_dva bp)). lia. Qed.

Lemma block_ranges pl bp rs : block_of pl bp rs <-> Forall2 (dva_of pl) (block_dvas bp) rs.
Proof.
  unfold block_of. pose proof (block_dvas_length bp) as Hb. split; [intros [E H]; unfold block_dvas; by rewrite E, Nat2Z.id|]. intros H. pose proof (Forall2_length _ _ _ H) as E. split; [lia|]. by replace (take (length rs) (blk_dva bp)) with (block_dvas bp) by (unfold block_dvas at 1; f_equal; lia).
Qed.

(** What a caller may do keeps to what the pool expects. *)
Lemma may_allowed s pl X L e : leases pl X L -> may s pl L e -> allowed s pl X e.
Proof.
  intros (Q & -> & HQ & Hc) [Hr Hm]. destruct e as [| bp t now | | | | |]; try exact Hr. destruct Hm as [Hn Hh]. split; [exact Hr|].
  destruct (held_ranges (fun o => if now then o = Some t else forall b, o = Some b -> b <= t) Q (block_dvas bp) Hc Hn Hh) as (rs & Hd & Ho). exists rs. split.
  - apply block_ranges. eapply Forall2_impl; [exact Hd|]. intros a r (o & Hq & _). by apply (HQ (a, o, r)).
  - apply leased_frees; [|done]. intros r [i Hi]%list_elem_of_lookup_1. destruct (Forall2_lookup_r _ _ _ _ _ Hd Hi) as (a & _ & o & Hq & HC). exists o. split; [|done]. by apply (HQ (a, o, r)).
Qed.

Lemma book_free pl X L bp rs now t : Forall2 (dva_of pl) (block_dvas bp) rs -> (forall a, a ∈ block_dvas bp -> a ∈ L.*1) -> leases pl X L -> leases pl (foldl (free_post now t) X rs) (filter (fun l => l.1 ∉ block_dvas bp) L).
Proof.
  intros Hd Hh (Q & -> & HQ & Hc). rewrite (filter_fst (fun l : dva_t * option Z => l.1 ∉ block_dvas bp)). eexists. split; [reflexivity|]. split; [|by apply pairs_filter]. intros q [Hq Hin]%list_elem_of_filter. destruct (HQ q Hin) as [H1 H2]. split; [done|]. apply leased_free; [|done].
  intros r [i Hi]%list_elem_of_lookup_1. destruct (Forall2_lookup_r _ _ _ _ _ Hd Hi) as (a & Ha & Dr). apply list_elem_of_lookup_2 in Ha. pose proof (Hh a Ha) as Hl. apply list_elem_of_fmap in Hl as (l & -> & Hl). apply list_elem_of_fmap in Hl as (q' & -> & Hq').
  destruct (HQ q' Hq') as [D' _]. rewrite (dva_fun _ _ _ _ Dr D'). apply (pairs_elem clear_of Q q' q clear_sym Hc Hq' Hin). intros ->. done.
Qed.

Lemma book_sync s pl X L : leases pl X L -> leases pl (fun g p => x_sync s (X g p)) ((fun l => (l.1, if decide (l.2 = Some s) then None else l.2)) <$> L).
Proof.
  intros (Q & -> & HQ & Hc). exists ((fun q => (q.1.1, if decide (q.1.2 = Some s) then None else q.1.2, q.2)) <$> Q). split; [by rewrite <- !list_fmap_compose|]. split; [|by apply pairs_map].
  intros q (q0 & -> & Hq)%list_elem_of_fmap. destruct (HQ q0 Hq) as [H1 H2]. split; [done|]. intros y Hy. destruct (H2 y Hy) as [Hd Ho]. cbn in *. rewrite Hd, Ho, !(decide_False (P := None = Some s)) by done. split; [done|]. destruct q0.1.2 as [t|]; [|by rewrite decide_False]. destruct (decide (t = s)) as [->|]; [by rewrite decide_True|by rewrite decide_False by congruence].
Qed.

Lemma book_done s pl X L : leases pl X L -> leases pl (fun g p => x_turn s (X g p)) L.
Proof. intros (Q & E & HQ & Hc). exists Q. split; [done|]. split; [|done]. intros q Hq. destruct (HQ q Hq) as [H1 H2]. split; [done|]. intros y Hy. destruct (H2 y Hy) as [Hd Ho]. cbn. rewrite Ho. split; [done|]. by destruct q.1.2. Qed.

Lemma book_ok s pl X L e out s' Y : leases pl X L -> may s pl L e -> spec pl s X e out s' Y -> leases pl Y (book s e out L).
Proof.
  intros HL [_ Hm] Hs. destruct Hs as [c psize bp ndvas t hint fl bp' rs Y Hp En Hd _|c psize bp ndvas t hint fl bp'|bp t now rs Hb _|bp t rs rs' Y err Hb Hp _ He _|g|g|pass|]; cbn [book fst snd].
  - cbn. subst ndvas. rewrite Nat2Z.id. by eapply leases_add.
  - done.
  - apply book_free; [by apply block_ranges| |done]. intros a Ha. destruct (proj2 Hm a Ha) as (o & Ho & _). apply list_elem_of_fmap. by exists (a, o).
  - destruct (Z.eqb_spec err 0) as [->|]; [|by eapply leases_picks]. rewrite (He eq_refl) in Hp. eapply leases_add; [done|by apply block_ranges|done].
  - done.
  - done.
  - by apply book_sync.
  - by apply book_done.
Qed.

(** ** Sequences of calls *)

Lemma execute_runs es : forall s pl X L, pool_live s pl X -> leases pl X L -> obeys s pl L es ->
  exists s1 pl1 L1 X1, execute s pl L es = Ok (s1, pl1, L1) /\ run s pl X es s1 pl1 X1 /\ leases pl1 X1 L1 /\ like pl pl1.
Proof using All.
  induction es as [|e es IH]; intros s pl X L Hl HL Hob; [exists s, pl, L, X; split_and!; try done; constructor|]. destruct Hob as [Hm Hob]. destruct (call_runs s pl X e Hl (may_allowed _ _ _ _ _ HL Hm)) as (s1 & pl1 & out & X1 & E & Hs & Hl1 & Hk).
  destruct (IH s1 pl1 X1 (book s e out L) Hl1 (leases_like _ _ _ _ Hk (book_ok _ _ _ _ _ _ _ _ HL Hm Hs)) (Hob _ _ _ E)) as (s2 & pl2 & L2 & X2 & E2 & Hr & HL2 & Hk2). exists s2, pl2, L2, X2. cbn [execute]. rewrite E. split; [exact E2|]. split; [by econstructor|]. split; [done|]. by etrans.
Qed.

Lemma obeys_snoc es e : forall s pl L s1 pl1 L1, obeys s pl L (es ++ [e]) -> execute s pl L es = Ok (s1, pl1, L1) -> obeys s pl L es /\ may s1 pl1 L1 e.
Proof.
  induction es as [|e' es IH]; intros s pl L s1 pl1 L1 Hob Hex; [injection Hex as <- <- <-; split; [done|apply Hob]|]. destruct Hob as [Hm Hob]. cbn [execute] in Hex. apply bind_inv in Hex as ([[s' pl'] out] & E & Hex). destruct (IH _ _ _ _ _ _ (Hob _ _ _ E) Hex) as [H1 H2].
  split; [|done]. split; [done|]. intros s2 pl2 out2 E'. rewrite E in E'. by injection E' as <- <- <-.
Qed.

Lemma obeys_prefix es e : forall s pl L, obeys s pl L (es ++ [e]) -> obeys s pl L es.
Proof. induction es as [|e' es IH]; intros s pl L Hob; [done|]. destruct Hob as [Hm Hob]. split; [done|]. intros s' pl' out E. by apply IH, Hob. Qed.

(** One call after the other. *)
Lemma obeys_call s pl L e es s' pl' out : may s pl L e -> perform s pl e = Ok (s', pl', out) -> obeys s' pl' (book s e out L) es -> obeys s pl L (e :: es).
Proof. intros Hm E Hob. split; [done|]. intros s2 pl2 out2 E2. rewrite E in E2. by injection E2 as <- <- <-. Qed.

(** The vdev of an address, and the first address of a block. *)
Lemma dva_vdev pl a r : dva_of pl a r -> DVA_GET_VDEV a = r_g r.
Proof. by intros (mg & [? _ _ _ _ _]). Qed.

Lemma Forall2_head {A B} (R : A -> B -> Prop) l r : Forall2 R (take 1 l) [r] -> exists a, l !! 0%nat = Some a /\ R a r.
Proof. destruct l as [|a l]; cbn; inversion 1; subst. by exists a. Qed.

Lemma leases_nil pl X : leases pl X [].
Proof. exists []. split; [done|]. split; [by intros q ?%not_elem_of_nil|constructor]. Qed.

(** A byte of the vdev [v] that is in the log of its metaslab. *)
Definition logged pl X (v y : Z) : Prop := exists mg k p, top pl v = Some mg /\ vdev_ms (mg_vd mg) !! k = Some p /\ in_geo (slab_geo (mg_vd mg) (Z.of_nat k)) y /\ own (x_gh (X v p)) y = OLog.

(** A byte that was in the log when the group [s0] ended is in no address that is allocated. *)
Lemma logged_kept s0 s pl pl0 X0 X t rs Y l a v y : pool_live s pl X -> like pl0 pl -> s0 + 1 <= s <= s0 + 3 -> (forall p, own (x_gh (X0 v p)) y = OLog -> tree_of (s - s0) (X v p) y) -> picks t X rs Y -> Forall2 (dva_of pl) l rs -> a ∈ l -> covers pl a v y -> ~ logged pl0 X0 v y.
Proof using All.
  intros Hl Hk Hs Ht Hp Hd Ha Hcov (mg0 & k & p & Hg0 & Hms & Hy & Hlog). apply list_elem_of_lookup_1 in Ha as [i Hi]. destruct (Forall2_lookup_l _ _ _ _ _ Hd Hi) as (r & Hr & Dr). destruct (covers_dva _ _ _ _ _ Dr Hcov) as [Eg Hin]. destruct (Hk v mg0 Hg0) as (mg & Hg & Hv). pose proof (vd_like_same _ _ Hv) as (S1 & S2 & _ & S4 & _).
  pose proof Dr as (mg' & [D1 D2 D3 D4 D5 D6]). rewrite Eg in D2. assert (mg' = mg) as -> by congruence. assert (Hy' : in_geo (slab_geo (mg_vd mg) (Z.of_nat k)) y) by (unfold slab_geo; by rewrite S1, S2). rewrite <- S4 in Hms.
  assert (Ek : r_k r = k) by (eapply slab_unique; [eapply fits_in; [exact D6|done]|done]). assert (Ep : r_p r = p) by (rewrite Ek in D3; congruence). pose proof (pi_group _ _ _ (proj1 (pv_ok _ _ _ Hl)) v mg Hg) as Hgr. destruct (proj1 (go_ms _ _ _ _ Hgr p)) as [msp Hm]; [by eapply list_elem_of_lookup_2|].
  apply (tree_kept s pl X s0 v mg k p msp y Hl Hs Hg Hms Hm Hy' (Ht p Hlog)). destruct (picks_own _ _ _ _ Hp v p y) as [(_ & _ & E)|[Hn _]]; [done|]. destruct Hn. exists r. split; [by eapply list_elem_of_lookup_2|]. exact (conj Eg (conj Ep Hin)).
Qed.
End ledger.
End MetaslabLedger.
