(* ===== verification/MetaslabOpen.v ===== *)
(** Opening a pool: the metaslabs of its vdevs are made from what is on disk. *)

From S2P Require Import Prelude Avl AvlSpec OrdTree SpaceMap SpaceSet SpaceMapOk SpaceMapWalk SpaceMapRanges SpaceMapSpec SpaceLog SpaceSync SpaceLoad SpaceLogSpec MetaslabInv Metaslab MetaslabOk MetaslabSpec TxgList MetaslabSync MetaslabCycle RaidzMap Blkptr MetaslabGroup MetaslabTree MetaslabPool MetaslabBlock MetaslabPass MetaslabFinish MetaslabRotor MetaslabCircle MetaslabSystem.
Import RaidzMap SpaceMap SpaceSet SpaceMapOk SpaceMapCut SpaceMapWalk SpaceMapRanges SpaceMapSpec SpaceLog SpaceEntry SpaceSync SpaceLoad SpaceLogSpec SpaceFrame Metaslab MetaslabPick MetaslabOk MetaslabSpec TxgList MetaslabSync MetaslabSlab MetaslabInv MetaslabWrite MetaslabTurn MetaslabTake Blkptr MetaslabGroup MetaslabTree MetaslabPool MetaslabState MetaslabUse MetaslabPlace MetaslabBlock MetaslabRound MetaslabPass MetaslabDone MetaslabFinish MetaslabRing MetaslabRotor MetaslabChoose MetaslabCircle MetaslabAlloc MetaslabSystem.
Open Scope Z_scope.

Module MetaslabOpen.

Section load.
Context {T I D : Type} {HT : Tree T I} {HK : Kmem} {HD : Dmu D} {HB : DmuObjects D} {HE : SpaEnv}.
Implicit Types (pl : pool T D).

(** The part of [vdev_load] for a top-level vdev; the result says whether its state is set
    to [VDEV_STATE_CANT_OPEN]. *)
Definition vdev_load_top pl (g : Z) : res (pool T D * bool) :=
  mg ← get_mg pl g;
  let vd := mg_vd mg in
  if negb (vdev_ishole vd) then
    if (vdev_ashift vd =? 0) || (vdev_asize vd =? 0) then Ok (pl, true)
    else '(pl, error) ← vdev_metaslab_init pl g 0; Ok (pl, negb (error =? 0))
  else Ok (pl, false).

(** [vdev_load] of the root: its children in turn. *)
Definition vdev_load pl : res (pool T D * bool) :=
  for_range 0 (zlen (spa_tops pl)) (fun c '(pl, bad) => '(pl, b) ← vdev_load_top pl c; Ok (pl, bad || b)) (pl, false).
End load.

(** The owners after opening: what the log has is allocated, the rest is free. *)
Definition opened (L : Z -> bool) : sx := Sx (Ghost (fun y => if L y then OLog else OFree) (fun _ => None)) (fun y => L y = true) (fun _ => False) (fun _ => False).

(** A figure that grows by [n], where it fits in 64 bits. *)
Definition grown (n a b : Z) : Prop := 0 <= a -> a + n < 2 ^ 64 -> b = a + n.

Lemma grown_0 a : grown 0 a a.
Proof. intros ? ?. lia. Qed.

Lemma grown_add n m a b c : 0 <= n -> 0 <= m -> grown n a b -> grown m b c -> grown (n + m) a c.
Proof. intros Hn Hm H1 H2 Ha Hb. rewrite H2; rewrite ?H1; lia. Qed.

Section open.
Context {T I D : Type} {HT : Tree T I} {HK : Kmem} {HD : Dmu D} {HB : DmuObjects D} {HE : SpaEnv} {HTL : TreeLaws T I} {HKL : KmemLaws} {HDL : DmuLaws D} {HBL : DmuObjectLaws D}.
Implicit Types (pl : pool T D) (mg : metaslab_group T) (msp : metaslab T) (d : D).

(** ** Statistics *)

(** The pool but for the group [g] and the statistics; the class [c] grew by [n]. *)
Record counted (g c n : Z) pl pl' : Prop := {
  ct_mos : spa_mos pl' = spa_mos pl;
  ct_list : spa_vdev_txg_list pl' = spa_vdev_txg_list pl;
  ct_top x : x <> g -> top pl' x = top pl x;
  ct_len : length (spa_classes pl') = length (spa_classes pl) /\ length (spa_tops pl') = length (spa_tops pl);
  ct_class c' mc : get_mc pl c' = Ok mc -> exists mc', get_mc pl' c' = Ok mc' /\ mc_rotor mc' = mc_rotor mc /\ mc_ops mc' = mc_ops mc /\ grown (if decide (c' = c) then n else 0) (mc_space mc) (mc_space mc') }.

Lemma counted_trans g c n m pl1 pl2 pl3 : 0 <= n -> 0 <= m -> counted g c n pl1 pl2 -> counted g c m pl2 pl3 -> counted g c (n + m) pl1 pl3.
Proof.
  intros Hn Hm [A1 A2 A3 [A4 A4'] A5] [B1 B2 B3 [B4 B4'] B5]. split; [congruence|congruence|intros x Hx; rewrite B3 by done; by apply A3|split; congruence|]. intros c' mc E. destruct (A5 c' mc E) as (mc1 & E1 & R1 & O1 & G1). destruct (B5 c' mc1 E1) as (mc2 & E2 & R2 & O2 & G2).
  exists mc2. split; [done|]. split; [congruence|]. split; [congruence|]. destruct (decide (c' = c)); [by eapply grown_add|]. by eapply (grown_add 0 0).
Qed.

Lemma counted_put g c pl mg mg' : top pl g = Some mg -> counted g c 0 pl (put pl g mg').
Proof.
  intros Hg. destruct (set_mg_ok pl g mg mg' Hg) as [_ Ht]. split; try done; [intros x Hx; by rewrite Ht, decide_False|split; [done|apply length_insert]|]. intros c' mc E. exists mc. split; [done|]. split; [done|]. split; [done|]. case_decide; apply grown_0.
Qed.

Lemma u64_grown n a : 0 <= n -> grown n a (u64 (a + n)).
Proof. intros Hn Ha Hb. apply Z.mod_small. lia. Qed.

Lemma update_ok pl g mg mc a df sp : top pl g = Some mg -> get_mc pl (mg_class mg) = Ok mc -> 0 <= sp ->
  exists pl' st, vdev_space_update pl g a df sp = Ok pl' /\ counted g (mg_class mg) sp pl pl' /\ top pl' g = Some (with_vd mg (with_vd_stat (mg_vd mg) st)) /\ grown sp (vs_space (vdev_stat_ (mg_vd mg))) (vs_space st).
Proof using All.
  intros Hg Emc Hsp. unfold vdev_space_update. rewrite (get_mg_ok _ _ _ Hg). cbn [mbind res_bind]. set (st := stat_update _ _ _ _). set (mg' := with_vd mg (with_vd_stat (mg_vd mg) st)). destruct (set_mg_ok pl g mg mg' Hg) as [-> Ht]. cbn [mbind res_bind].
  set (rs := if mg_class mg =? 0 then stat_update (spa_root_stat pl) a sp (i64 (Z.shiftr sp 9 * vdev_deflate_ratio (mg_vd mg))) else spa_root_stat pl).
  replace (if mg_class mg =? 0 then _ else _) with (Pool (spa_mos pl) (spa_classes pl) rs (spa_tops (put pl g mg')) (spa_vdev_txg_list pl)) by (unfold rs; by case_match).
  change (get_mc _ (mg_class mg)) with (get_mc pl (mg_class mg)) at 1. rewrite Emc. cbn [mbind res_bind]. unfold set_mc. destruct (rd_ok_inv _ _ _ Emc) as [Hb Hlk]. rewrite wr_in_bounds by done. cbn [mbind res_bind].
  eexists _, st. split; [done|]. split; [|split; [change (top (put pl g mg') g = Some mg'); by rewrite Ht, decide_True|by apply u64_grown]].
  split; try done; [intros x Hx; change (top (put pl g mg') x = top pl x); by rewrite Ht, decide_False|split; apply length_insert|]. intros c' mc' Emc'. destruct (rd_ok_inv _ _ _ Emc') as [Hb' Hlk']. destruct (decide (c' = mg_class mg)) as [->|Hne].
  - eexists. split; [apply rd_Some; [lia|]; apply list_lookup_insert_eq; change (Z.to_nat (mg_class mg) < length (spa_classes pl))%nat; lia|]. rewrite Emc in Emc'. injection Emc' as <-. split; [done|]. split; [done|]. by apply u64_grown.
  - exists mc'. split; [apply rd_Some; [lia|]; cbn [spa_classes]; rewrite list_lookup_insert_ne by lia; done|]. split; [done|]. split; [done|apply grown_0].
Qed.

(** ** A metaslab *)

(** A metaslab and its log as they are on disk. *)
Record on_disk (vd : top_vdev) (s : Z) d (k : Z) (smo : space_map_obj) (L : Z -> bool) : Prop := {
  od_disk : disk_inv (vdev_ms_array vd) k d smo;
  od_log : log_of (slab_geo vd k) smo d (fun y => L y = true);
  od_room : smo_objsize smo <= 2 ^ 63;
  od_out y : L y = true -> in_geo (slab_geo vd k) y }.

Lemma slab_geo_ok vd k : vd_ok vd -> 0 <= k < zlen (vdev_ms vd) -> geo_ok (slab_geo vd k).
Proof.
  intros [V1 [V2 V3] V4 _] Hk. assert (HS : 0 < 2 ^ vdev_ms_shift vd <= 2 ^ 56) by (split; [apply Z.pow_pos_nonneg; lia|apply Z.pow_le_mono_r; lia]).
  assert (Hm : 2 ^ vdev_ms_shift vd mod 2 ^ vdev_ashift vd = 0) by (replace (vdev_ms_shift vd) with (vdev_ms_shift vd - vdev_ashift vd + vdev_ashift vd) by lia; rewrite Z.pow_add_r by lia; apply Z.mod_mul, Z.pow_nonzero; lia).
  constructor; cbn; [nia|done|nia|lia|split; [|done]|].
  - rewrite Z.mul_mod, Hm, Z.mul_0_r by (apply Z.pow_nonzero; lia). apply Z.mod_0_l, Z.pow_nonzero; lia.
  - rewrite <- Z.pow_add_r by lia. apply Z.pow_le_mono_r; lia.
Qed.
(** The metaslab [metaslab_init] makes, before and after its maps are created. *)
Definition blank (vd : top_vdev) (k : Z) (smo : space_map_obj) : metaslab T :=
  let zeroed := space_map_create 0 0 0 in
  MkMetaslab (SpaceMapObj 0 0 0) smo (replicate 4 zeroed) (replicate 4 zeroed) (replicate 2 zeroed) (space_map_create (k * 2 ^ vdev_ms_shift vd) (2 ^ vdev_ms_shift vd) (vdev_ashift vd)) 0 0.

Lemma blank_ok vd s d k smo L msp frees defers m0 m1 : vd_ok vd -> 0 <= k < zlen (vdev_ms vd) -> 4 <= s < 2 ^ 63 -> on_disk vd s d k smo L ->
  slots (slab_geo vd k) 4 frees (fun _ _ => False) -> slots (slab_geo vd k) 2 defers (fun _ _ => False) -> defers = [m0; m1] -> sm_space m0 + sm_space m1 = 0 ->
  msp = MkMetaslab smo smo (ms_allocmap (sync_done_create (blank vd k smo))) frees defers (ms_map (blank vd k smo)) 0 0 ->
  slab_ok vd s d k msp (opened L) /\ idle msp (opened L).
Proof using All.
  intros Hv Hk Hs [D1 D2 D3 D4] Hf Hd Ed E0 ->. pose proof (slab_geo_ok vd k Hv Hk) as Hg. pose proof Hg as [K1 [K2 K2'] K3 K4 [K5 K6] K7].
  assert (Hlog : forall y, own (x_gh (opened L)) y = OLog <-> L y = true) by (intros y; cbn; by destruct (L y)). assert (Hno : forall y o, own (x_gh (opened L)) y = o -> o = OLog \/ o = OFree) by (intros y o <-; cbn; destruct (L y); tauto).
  assert (Hsmo : log_of (slab_geo vd k) smo d (fun y => own (x_gh (opened L)) y = OLog)) by (eapply log_of_ext; [exact D2|]; intros y _; by rewrite Hlog).
  split; [|constructor; cbn; try done; intros y; [by destruct (L y)|by destruct (L y)|by intros b; destruct (L y)]]. constructor; [|done|split; cbn; [done|]; intros []; by apply Z.land_0_l|intros y _; by split]. constructor; cbn [ms_allocmap ms_freemap ms_defermap ms_map ms_smo ms_smo_syncing ms_deferspace]; try done.
  - constructor; [intros x t E|intros x b E|done]; by destruct (Hno _ _ E).
  - intros y Hy. split; [|done]. cbn. destruct (L y) eqn:E; [by destruct Hy; apply D4|done].
  - eapply slots_ext; [by apply slots_create|]. intros j x _ _. split; [done|]. intros (t & E & _). by destruct (Hno _ _ E).
  - eapply slots_ext; [exact Hf|]. intros j x _ _. split; [done|]. unfold free_set. case_match; [intros E; by destruct (Hno _ _ E)|by intros (t & E & _)].
  - eapply slots_ext; [exact Hd|]. intros j x _ _. split; [done|]. intros E. by destruct (Hno _ _ E).
  - constructor; try done. intros _. split; [apply space_map_create_ok; cbn in *; [lia|lia|lia|done]|done].
  - by apply (log_bound _ _ _ _ Hg D2).
  - intros y _ Hy. left. by apply Hlog.
  - intros _. split; [exact D2|]. split; [done|]. split; [by right|]. split; [intros y _ [E|E]; [by apply Hlog|by destruct (Hno _ _ E)]|intros y t _ E; by destruct (Hno _ _ E)].
  - exists m0, m1. by split.
Qed.

Lemma blank_maps vd s d k smo L : vd_ok vd -> 0 <= k < zlen (vdev_ms vd) -> 4 <= s < 2 ^ 63 -> on_disk vd s d k smo L ->
  let m := space_map_create (k * 2 ^ vdev_ms_shift vd) (2 ^ vdev_ms_shift vd) (vdev_ashift vd) in
  exists msp, sync_done_maps (sync_done_create (blank vd k smo)) 0 0 = Ok msp /\ slab_ok vd s d k msp (opened L) /\ idle msp (opened L) /\ ms_smo_syncing msp = smo /\ ms_deferspace msp = 0 /\ ms_weight msp = 0 /\ ms_map msp = m.
Proof using All.
  intros Hv Hk Hs Hd m. pose proof (slab_geo_ok vd k Hv Hk) as Hg. pose proof (slots_create (slab_geo vd k) 4 Hg) as Hf. pose proof (slots_create (slab_geo vd k) 2 Hg) as Hdf. pose proof (plain_create (slab_geo vd k) Hg) as Hp. cbn [slab_geo g_lo g_size g_shift] in Hf, Hdf, Hp. fold m in Hf, Hdf, Hp.
  unfold sync_done_maps. change (rd (ms_freemap _) _) with (Ok m). change (rd (ms_defermap _) _) with (Ok m). change (sm_loaded _) with false. cbn [mbind res_bind]. unfold space_map_load_wait. change (sm_loading _) with false. cbn [mbind res_bind].
  destruct (plain_drop (slab_geo vd k) m _ (ms_map (sync_done_create (blank vd k smo))) Hp) as (dm & -> & Hdm). cbn [mbind res_bind]. destruct (plain_vacate_add _ m _ dm _ Hp Hdm) as (fm & dm' & -> & Hfm & Hdm' & Esp); [done|]. cbn [mbind res_bind].
  assert (Ed : sm_space dm' = 0) by (rewrite Esp, (proj2 (plain_empty _ _ _ Hdm)) by (by intros ? ? []); done).
  destruct (slots_wr _ 4 _ _ (fun _ _ => False) ((0 + 3) mod 4) fm Hf) as [Ef Hf']; [done|done|done|]. destruct (slots_wr _ 2 _ _ (fun _ _ => False) 0 dm' Hdf) as [Ed' Hdf']; [done|eapply plain_ext; [exact Hdm'|]; tauto|done|].
  eexists. split; [done|]. rewrite (and_assoc (slab_ok _ _ _ _ _ _)). split; [|done]. eapply blank_ok; try done. cbn. rewrite Ed. done.
Qed.
(** The metaslab joins the tree, and its space the statistics. *)
Lemma blank_done pl g mg mc l p k smo s L : top pl g = Some mg -> get_mc pl (mg_class mg) = Ok mc -> vd_ok (mg_vd mg) -> 0 <= k < zlen (vdev_ms (mg_vd mg)) -> 4 <= s < 2 ^ 63 -> on_disk (mg_vd mg) s (spa_mos pl) k smo L ->
  tree_at mg l -> mg_slabs mg !! p = Some (blank (mg_vd mg) k smo) ->
  exists pl' msp t l' st, metaslab_sync_done pl g p 0 = Ok pl' /\ counted g (mg_class mg) (2 ^ vdev_ms_shift (mg_vd mg)) pl pl' /\
    let mg' := with_tree (set_ms (with_vd mg (with_vd_stat (mg_vd mg) st)) p msp) t in top pl' g = Some mg' /\ tree_at mg' l' /\
    slab_ok (mg_vd mg) s (spa_mos pl) k msp (opened L) /\ idle msp (opened L) /\ ms_smo_syncing msp = smo /\ sm_start (ms_map msp) = k * 2 ^ vdev_ms_shift (mg_vd mg) /\ grown (2 ^ vdev_ms_shift (mg_vd mg)) (vs_space (vdev_stat_ (mg_vd mg))) (vs_space st).
Proof using All.
  intros Hg Emc Hv Hk Hs Hd Htr Hp. assert (H0 : 0 <= 2 ^ vdev_ms_shift (mg_vd mg)) by (apply Z.pow_nonneg; lia). destruct (blank_maps _ _ _ _ _ _ Hv Hk Hs Hd) as (msp & Em & Hsl & Hid & Esy & Eds & Ew & Emap). unfold metaslab_sync_done. rewrite (get_mg_ok _ _ _ Hg). cbn [mbind res_bind]. rewrite (get_ms_ok _ _ _ Hp). cbn [mbind res_bind].
  change (rd (ms_freemap (blank _ _ _)) _) with (Ok (A := space_map T metaslab_ops) (space_map_create 0 0 0)). cbn [mbind res_bind]. change (sm_size (space_map_create 0 0 0) =? 0) with true. cbn iota. change (sm_size (ms_map (blank (mg_vd mg) k smo))) with (2 ^ vdev_ms_shift (mg_vd mg)).
  destruct (update_ok pl g mg mc 0 0 (2 ^ vdev_ms_shift (mg_vd mg)) Hg Emc H0) as (pl1 & st1 & -> & Hc1 & Hg1 & Hs1). cbn [mbind res_bind]. set (m := space_map_create (k * 2 ^ vdev_ms_shift (mg_vd mg)) (2 ^ vdev_ms_shift (mg_vd mg)) (vdev_ashift (mg_vd mg))) in *.
  change (rd (ms_freemap (sync_done_create _)) _) with (Ok m). change (rd (ms_defermap (sync_done_create _)) _) with (Ok m). cbn [mbind res_bind]. change (i64 (sm_space m - sm_space m)) with 0. set (a := i64 (_ + 0)).
  destruct (ct_class _ _ _ _ _ Hc1 _ _ Emc) as (mc1 & Emc1 & _). destruct (update_ok pl1 g _ mc1 a 0 0 Hg1 Emc1 ltac:(done)) as (pl2 & st2 & -> & Hc2 & Hg2 & Hs2). cbn [mbind res_bind]. rewrite Em. cbn [mbind res_bind]. rewrite Eds. cbn [Z.eqb negb mbind res_bind].
  unfold sync_done_evict. rewrite Emap. change (sm_loaded m) with false. cbn [andb mbind res_bind]. rewrite (get_mg_ok _ _ _ Hg2). cbn [mbind res_bind]. set (mg2 := with_vd (with_vd mg _) _) in *. assert (Hvs : vd_same (mg_vd mg) (mg_vd mg2)) by done.
  assert (Emg2 : mg2 = with_vd mg (with_vd_stat (mg_vd mg) st2)) by done. clearbody mg2. assert (Hsl2 : slab_ok (mg_vd mg2) s (spa_mos pl) k msp (opened L)) by (by eapply slab_ok_same).
  destruct (metaslab_weight_ok mg2 msp k s (spa_mos pl) (x_gh (opened L)) (x_A (opened L))) as (w & -> & Hw); [eapply vd_same_ok; [done|by rewrite Emg2; apply (vo_list _ Hv)|done]|by rewrite Emg2|apply Hsl2|apply Hsl2|]. cbn [mbind res_bind].
  assert (Htr2 : tree_at (set_ms mg2 p msp) l) by (apply (tree_same (set_ms mg p msp)); [by rewrite Emg2|by rewrite Emg2|]; eapply tree_set; [exact Htr|exact Hp|by rewrite Ew|by rewrite Emap]).
  destruct (sort_ok _ l p msp w Htr2) as (t & l' & -> & Ht' & Hl'); [apply lookup_insert_eq|]. cbn [mbind res_bind]. rewrite (proj1 (set_mg_ok pl2 g mg2 _ Hg2)). assert (Ein : set_ms (set_ms mg2 p msp) p (with_weight msp w) = set_ms mg2 p (with_weight msp w)) by (unfold set_ms, with_slabs; cbn; f_equal; apply insert_insert_eq). rewrite Ein in *.
  eexists _, (with_weight msp w), t, l', st2. split; [done|]. rewrite <- Emg2. split; [|split; [by rewrite (proj2 (set_mg_ok pl2 g mg2 _ Hg2)), decide_True|split; [exact Ht'|split; [|split; [|split; [done|split; [cbn; by rewrite Emap|]]]]]]].
  - rewrite <- (Z.add_0_r (2 ^ _)), <- (Z.add_0_r (2 ^ _)). eapply counted_trans; [lia|done|eapply counted_trans; [done|done|exact Hc1|exact Hc2]|by eapply counted_put].
  - destruct Hsl as [S1 S2 S3 S4]. constructor; [destruct S1; by constructor|done|exact Hw|done].
  - destruct Hid as [I1 I2 I3 I4]. by constructor.
  - rewrite <- (Z.add_0_r (2 ^ _)). by eapply grown_add.
Qed.

Lemma metaslab_init_ok pl g mg mc l k smo s L : top pl g = Some mg -> get_mc pl (mg_class mg) = Ok mc -> vd_ok (mg_vd mg) -> 0 <= k < zlen (vdev_ms (mg_vd mg)) -> 4 <= s < 2 ^ 63 -> on_disk (mg_vd mg) s (spa_mos pl) k smo L ->
  tree_at mg l -> Z.of_nat (size (mg_slabs mg)) + 2 < 2 ^ 64 -> (forall q m, mg_slabs mg !! q = Some m -> sm_start (ms_map m) <> k * 2 ^ vdev_ms_shift (mg_vd mg)) ->
  exists pl' p msp t l' st, metaslab_init pl g smo (u64 (Z.shiftl k (vdev_ms_shift (mg_vd mg)))) (u64 (Z.shiftl 1 (vdev_ms_shift (mg_vd mg)))) 0 = Ok (pl', p) /\ mg_slabs mg !! p = None /\ counted g (mg_class mg) (2 ^ vdev_ms_shift (mg_vd mg)) pl pl' /\
    let mg' := with_tree (set_ms (with_vd mg (with_vd_stat (mg_vd mg) st)) p msp) t in top pl' g = Some mg' /\ tree_at mg' l' /\
    slab_ok (mg_vd mg) s (spa_mos pl) k msp (opened L) /\ idle msp (opened L) /\ ms_smo_syncing msp = smo /\ grown (2 ^ vdev_ms_shift (mg_vd mg)) (vs_space (vdev_stat_ (mg_vd mg))) (vs_space st).
Proof using All.
  intros Hg Emc Hv Hk Hs Hd Htr Hsz Hst. pose proof (slab_geo_ok _ k Hv Hk) as [K1 [K2 K2'] K3 K4 _ _]. cbn in K1, K2, K2', K3. unfold metaslab_init. rewrite (get_mg_ok _ _ _ Hg). cbn [mbind res_bind]. rewrite !Z.shiftl_mul_pow2, Z.mul_1_l, !(Z.mod_small _ (2 ^ 64)) by (destruct Hv as [[] _ _ _]; lia).
  destruct (kmem_alloc_fresh (dom (mg_slabs mg))) as [Hn Hnew%not_elem_of_dom]. set (p := kmem_alloc _) in *. destruct (group_add_ok mg l p (blank (mg_vd mg) k smo) Htr Hnew Hn) as (t & l1 & E1 & Ht1 & _); [exact Hst|done|].
  change (MkMetaslab _ _ _ _ _ _ _ _) with (blank (mg_vd mg) k smo). rewrite E1. cbn [mbind res_bind]. change (with_weight (blank (mg_vd mg) k smo) 0) with (blank (mg_vd mg) k smo) in *. set (mg1 := with_tree _ t) in *. destruct (set_mg_ok pl g mg mg1 Hg) as [-> Htop]. cbn [mbind res_bind]. change (0 <=? TXG_INITIAL) with true. cbn iota.
  destruct (blank_done (put pl g mg1) g mg1 mc l1 p k smo s L) as (pl' & msp & t' & l' & st & -> & Hc & Hg' & Ht' & Hsl & Hid & Esy & Est & Hgr); try done; [by rewrite Htop, decide_True|apply lookup_insert_eq|]. cbn [mbind res_bind].
  exists pl', p, msp, t', l', st. split; [done|]. split; [done|]. split; [rewrite <- (Z.add_0_l (2 ^ _)); eapply counted_trans; [done|lia|by eapply counted_put|done]|].
  assert (Emg : with_tree (set_ms (with_vd mg1 (with_vd_stat (mg_vd mg1) st)) p msp) t' = with_tree (set_ms (with_vd mg (with_vd_stat (mg_vd mg) st)) p msp) t') by (unfold mg1, with_tree, set_ms, with_slabs, with_vd; cbn; f_equal; apply insert_insert_eq). rewrite <- Emg. done.
Qed.
(** ** The metaslabs of a vdev *)

(** What [dmu_read] reports for the object of a metaslab. *)
Definition read_error d (arr e : Z) : Prop := exists k, (dmu_read d arr (u64 (k * 8)) 8).1 = e /\ e <> 0.

Lemma init_smo_ok vd d k smo : 0 <= k < 2 ^ 60 -> disk_inv (vdev_ms_array vd) k d smo ->
  (exists e smo', init_smo vd d k 0 = (e, smo') /\ read_error d (vdev_ms_array vd) e) \/ init_smo vd d k 0 = (0, smo).
Proof using All.
  intros Hk [D1 D2 D3 D4]. unfold init_smo. change (0 =? 0) with true. cbn iota. destruct (dmu_read d (vdev_ms_array vd) (u64 (k * 8)) 8) as [e ws] eqn:E. destruct (Z.eqb_spec e 0) as [->|He]; cbn [negb].
  - right. rewrite Z.mod_small in E by lia. apply dmu_read_ok in E; [|lia|dlia|done|done]. assert (Eh : hd 0 ws = smo_object smo) by (rewrite E, <- D3; change (Z.to_nat (8 / 8)) with 1%nat; cbn; f_equal; rewrite Z.div_mul; lia). rewrite Eh. destruct (Z.eqb_spec (smo_object smo) 0) as [E0|E0]; cbn [negb].
    + destruct (D2 E0) as [E1 E2]. f_equal. destruct smo as [o a b]. cbn in E0, E1, E2. by rewrite E0, E1, E2.
    + destruct (D4 E0) as [H1 H2]. rewrite (dmu_bonus_hold_ok _ _ H1). by rewrite H2.
  - left. exists e, (SpaceMapObj 0 0 0). split; [done|]. exists k. split; [by rewrite E|done].
Qed.

(** The first [m] metaslabs have been made. *)
Record part (s : Z) d (smo : Z -> space_map_obj) (L : Z -> Z -> bool) mg (m : Z) : Prop := {
  pt_vd : vd_ok (mg_vd mg);
  pt_tree : tree_ok mg;
  pt_size : Z.of_nat (size (mg_slabs mg)) = m;
  pt_slab k p : vdev_ms (mg_vd mg) !! k = Some p -> Z.of_nat k < m -> exists msp, mg_slabs mg !! p = Some msp /\ slab_ok (mg_vd mg) s d (Z.of_nat k) msp (opened (L (Z.of_nat k))) /\ idle msp (opened (L (Z.of_nat k))) /\ ms_smo_syncing msp = smo (Z.of_nat k);
  pt_index p : is_Some (mg_slabs mg !! p) -> exists k, vdev_ms (mg_vd mg) !! k = Some p /\ Z.of_nat k < m }.

(** What making metaslabs keeps of a group. *)
Definition opens mg mg' : Prop := mg_class mg' = mg_class mg /\ mg_activation_count mg' = mg_activation_count mg /\ mg_next mg' = mg_next mg /\ mg_prev mg' = mg_prev mg /\
  exists st ms, mg_vd mg' = with_ms (with_vd_stat (mg_vd mg) st) ms /\ length ms = length (vdev_ms (mg_vd mg)).

Lemma opens_refl mg : opens mg mg.
Proof. split_and!; try done. exists (vdev_stat_ (mg_vd mg)), (vdev_ms (mg_vd mg)). split; [by destruct (mg_vd mg)|done]. Qed.

Lemma opens_trans mg1 mg2 mg3 : opens mg1 mg2 -> opens mg2 mg3 -> opens mg1 mg3.
Proof.
  intros (A1 & A2 & A3 & A4 & st & ms & A5 & A6) (B1 & B2 & B3 & B4 & st' & ms' & B5 & B6). split_and!; try congruence. exists st', ms'. rewrite B5, A5. split; [by destruct (mg_vd mg1)|]. rewrite B6, A5. exact A6.
Qed.

(** An invariant of a metaslab depends on its place only. *)
Lemma slab_ok_place vd st ms s d k msp x : slab_ok vd s d k msp x <-> slab_ok (with_ms (with_vd_stat vd st) ms) s d k msp x.
Proof. split; intros [H1 H2 H3 H4]; by constructor. Qed.

(** The places of the metaslabs made so far. *)
Lemma part_start s d smo L mg m k q msp : part s d smo L mg m -> mg_slabs mg !! q = Some msp -> m <= k -> sm_start (ms_map msp) <> k * 2 ^ vdev_ms_shift (mg_vd mg).
Proof using All.
  intros Hp Hq Hk. destruct (pt_index _ _ _ _ _ _ Hp q ltac:(by eexists)) as (j & Hj & Hjm). destruct (pt_slab _ _ _ _ _ _ Hp j q Hj Hjm) as (msp' & Hq' & Hsl & _). assert (msp' = msp) as -> by congruence. rewrite (proj1 (mo_geo _ _ _ (si_map _ _ _ _ _ _ (so_inv _ _ _ _ _ _ Hsl)))). cbn.
  destruct (vo_shift _ (pt_vd _ _ _ _ _ _ Hp)). assert (0 < 2 ^ vdev_ms_shift (mg_vd mg)) by (apply Z.pow_pos_nonneg; lia). nia.
Qed.

Lemma part_step s d smo L mg m p msp t l st : part s d smo L mg m -> 0 <= m < zlen (vdev_ms (mg_vd mg)) -> mg_slabs mg !! p = None ->
  let mg' := with_tree (set_ms (with_vd mg (with_vd_stat (mg_vd mg) st)) p msp) t in
  tree_at mg' l -> slab_ok (mg_vd mg) s d m msp (opened (L m)) -> idle msp (opened (L m)) -> ms_smo_syncing msp = smo m ->
  let ms := <[Z.to_nat m := p]> (vdev_ms (mg_vd mg)) in part s d smo L (with_vd mg' (with_ms (mg_vd mg') ms)) (m + 1).
Proof using All.
  intros [P1 P2 P3 P4 P5] Hm Hp mg' Ht Hsl Hid Esy ms. assert (Hlen : length ms = length (vdev_ms (mg_vd mg))) by apply length_insert. assert (Hlk : forall k q, ms !! k = Some q -> (Z.of_nat k = m /\ q = p) \/ (Z.of_nat k <> m /\ vdev_ms (mg_vd mg) !! k = Some q)).
  { intros k q. unfold ms. destruct (decide (k = Z.to_nat m)) as [->|Hne]; [rewrite list_lookup_insert_eq by lia; intros [= <-]; left; lia|rewrite list_lookup_insert_ne by done; right; split; [lia|done]]. }
  constructor; cbn [mg_vd with_vd mg_slabs with_tree set_ms with_slabs].
  - destruct P1 as [V1 V2 V3 V4]. constructor; try done. cbn. by rewrite Hlen.
  - exists l. by apply (tree_same mg').
  - cbn. rewrite map_size_insert_None by done. lia.
  - intros k q Hk Hlt. cbn in Hk. cbn [mg_slabs mg' with_tree set_ms with_slabs with_vd]. destruct (Hlk k q Hk) as [[Ek ->]|[Hne Hk']].
    + exists msp. rewrite Ek. split; [apply lookup_insert_eq|]. split; [|done]. by apply (slab_ok_place (mg_vd mg)).
    + destruct (P4 k q Hk') as (m2 & Hq & H2 & H3); [lia|]. exists m2. split; [rewrite lookup_insert_ne; [done|congruence]|]. split; [|done]. by apply (slab_ok_place (mg_vd mg)).
  - intros q. cbn. destruct (decide (q = p)) as [->|Hne]; [intros _; exists (Z.to_nat m); split; [apply list_lookup_insert_eq; lia|lia]|]. rewrite lookup_insert_ne by done. intros Hq. destruct (P5 q Hq) as (k & Hk & Hlt). exists k. split; [|lia]. unfold ms. rewrite list_lookup_insert_ne by lia. done.
Qed.
(** A round of the loop of [vdev_metaslab_init] when a pool is opened. *)
Definition open_next (g : Z) (vd : top_vdev) (newc : Z) : Z * pool T D -> res (Z * pool T D + pool T D * Z) := fun '(m, pl) =>
  if m <? newc then
    let '(error, smo) := init_smo vd (spa_mos pl) m 0 in
    if negb (error =? 0) then Ok (inr (pl, error))
    else
      '(pl, p) ← metaslab_init pl g smo (u64 (Z.shiftl m (vdev_ms_shift vd))) (u64 (Z.shiftl 1 (vdev_ms_shift vd))) 0;
      mg ← get_mg pl g;
      ms ← wr (vdev_ms (mg_vd mg)) m p;
      pl ← set_mg pl g (with_vd mg (with_ms (mg_vd mg) ms));
      Ok (inl (m + 1, pl))
  else Ok (inr (pl, 0)).

(** The metaslabs from [m] on remain to be made. *)
Record making (s : Z) (smo : Z -> space_map_obj) (L : Z -> Z -> bool) (g : Z) mg0 pl0 (m : Z) pl mg : Prop := {
  mk_top : top pl g = Some mg;
  mk_part : part s (spa_mos pl) smo L mg m;
  mk_opens : opens mg0 mg;
  mk_counted : counted g (mg_class mg0) (m * 2 ^ vdev_ms_shift (mg_vd mg0)) pl0 pl;
  mk_space : grown (m * 2 ^ vdev_ms_shift (mg_vd mg0)) (vs_space (vdev_stat_ (mg_vd mg0))) (vs_space (vdev_stat_ (mg_vd mg))) }.

Lemma open_step s smo L g mg0 mc pl0 m pl mg : making s smo L g mg0 pl0 m pl mg -> get_mc pl0 (mg_class mg0) = Ok mc -> 4 <= s < 2 ^ 63 -> 0 <= m < zlen (vdev_ms (mg_vd mg0)) -> on_disk (mg_vd mg0) s (spa_mos pl) m (smo m) (L m) ->
  (exists e, open_next g (mg_vd mg0) (zlen (vdev_ms (mg_vd mg0))) (m, pl) = Ok (inr (pl, e)) /\ read_error (spa_mos pl) (vdev_ms_array (mg_vd mg0)) e) \/
  exists pl' mg', open_next g (mg_vd mg0) (zlen (vdev_ms (mg_vd mg0))) (m, pl) = Ok (inl (m + 1, pl')) /\ making s smo L g mg0 pl0 (m + 1) pl' mg'.
Proof using All.
  intros [Hg Hp Ho Hc Hsp] Emc Hs Hm Hd. pose proof Ho as (O1 & O2 & O3 & O4 & st0 & ms0 & Ev & El). assert (Ezl : zlen (vdev_ms (mg_vd mg)) = zlen (vdev_ms (mg_vd mg0))) by (rewrite Ev; cbn; by rewrite El). assert (Esh : vdev_ms_shift (mg_vd mg) = vdev_ms_shift (mg_vd mg0)) by (by rewrite Ev).
  pose proof (pt_vd _ _ _ _ _ _ Hp) as Hv. pose proof (vo_shift _ Hv) as Vs. pose proof (vo_count _ Hv) as Vc. set (U := 2 ^ vdev_ms_shift (mg_vd mg)) in *. assert (HU : 2 ^ 9 <= U) by (apply Z.pow_le_mono_r; lia).
  unfold open_next. rewrite (proj2 (Z.ltb_lt m _)) by lia. destruct (init_smo_ok (mg_vd mg0) (spa_mos pl) m (smo m) ltac:(nia) (od_disk _ _ _ _ _ _ Hd)) as [(e & sm & -> & He)| ->].
  { left. exists e. pose proof He as (k & _ & Hne). rewrite (proj2 (Z.eqb_neq e 0) Hne). by split. }
  right. cbn [Z.eqb negb]. destruct (pt_tree _ _ _ _ _ _ Hp) as [l Ht]. destruct (ct_class _ _ _ _ _ Hc _ _ Emc) as (mc' & Emc' & _). rewrite <- O1 in Emc'. rewrite <- Esh.
  destruct (metaslab_init_ok pl g mg mc' l m (smo m) s (L m) Hg Emc' Hv) as (pl1 & p & msp & t & l' & st & -> & Hnew & Hc1 & Hg1 & Ht1 & Hsl & Hid & Esy & Hgr); [lia|done|destruct Hd as [D1 D2 D3 D4]; rewrite Ev; by constructor|done|rewrite (pt_size _ _ _ _ _ _ Hp); nia|intros q mq Hq; by eapply part_start|].
  cbn [mbind res_bind]. rewrite (get_mg_ok _ _ _ Hg1). cbn [mbind res_bind mg_vd with_tree set_ms with_slabs with_vd vdev_ms with_vd_stat]. rewrite wr_in_bounds by lia. cbn [mbind res_bind].
  set (mg1 := with_tree _ t) in *. match goal with |- context [set_mg pl1 g ?x] => destruct (set_mg_ok pl1 g mg1 x Hg1) as [-> Htop]; set (mg2 := x) in * end. cbn [mbind res_bind]. exists (put pl1 g mg2), mg2. split; [done|]. split.
  - by rewrite Htop, decide_True.
  - cbn [put spa_mos]. rewrite (ct_mos _ _ _ _ _ Hc1). eapply (part_step s (spa_mos pl) smo L mg m p msp t l' st); try done. lia.
  - eapply opens_trans; [exact Ho|]. split; [done|]. split; [done|]. split; [done|]. split; [done|]. eexists st, _. split; [done|apply length_insert].
  - rewrite Z.mul_add_distr_r, Z.mul_1_l. rewrite <- Esh in *. fold U in Hc1 |- *. rewrite O1 in Hc1. eapply counted_trans; [nia|lia|exact Hc|]. rewrite <- (Z.add_0_r U). eapply counted_trans; [lia|done|exact Hc1|by eapply counted_put].
  - rewrite Z.mul_add_distr_r, Z.mul_1_l. rewrite <- Esh in *. fold U in Hgr |- *. eapply grown_add; [nia|lia|exact Hsp|done].
Qed.

Lemma open_loop s smo L g mg0 mc pl0 : get_mc pl0 (mg_class mg0) = Ok mc -> 4 <= s < 2 ^ 63 -> forall fuel m pl mg, making s smo L g mg0 pl0 m pl mg -> 0 <= m <= zlen (vdev_ms (mg_vd mg0)) -> zlen (vdev_ms (mg_vd mg0)) - m < Z.of_nat fuel ->
  (forall k, 0 <= k < zlen (vdev_ms (mg_vd mg0)) -> on_disk (mg_vd mg0) s (spa_mos pl) k (smo k) (L k)) ->
  exists pl' mg' e n, loop fuel (open_next g (mg_vd mg0) (zlen (vdev_ms (mg_vd mg0)))) (m, pl) = Ok (pl', e) /\ making s smo L g mg0 pl0 n pl' mg' /\ 0 <= n <= zlen (vdev_ms (mg_vd mg0)) /\ ((e = 0 /\ n = zlen (vdev_ms (mg_vd mg0))) \/ read_error (spa_mos pl0) (vdev_ms_array (mg_vd mg0)) e).
Proof using All.
  intros Emc Hs. induction fuel as [|fuel IH]; intros m pl mg Hmk Hm Hf Hd; [lia|]. pose proof (ct_mos _ _ _ _ _ (mk_counted _ _ _ _ _ _ _ _ _ Hmk)) as Emos. destruct (decide (m < zlen (vdev_ms (mg_vd mg0)))) as [Hlt|Hge].
  - destruct (open_step s smo L g mg0 mc pl0 m pl mg Hmk Emc Hs ltac:(lia) (Hd m ltac:(lia))) as [(e & E & He)|(pl1 & mg1 & E & Hmk1)]; cbn [loop]; rewrite E; cbn [mbind res_bind].
    + exists pl, mg, e, m. rewrite <- Emos. auto.
    + apply (IH (m + 1) pl1 mg1 Hmk1); [lia|lia|]. rewrite (ct_mos _ _ _ _ _ (mk_counted _ _ _ _ _ _ _ _ _ Hmk1)), <- Emos. done.
  - exists pl, mg, 0, m. cbn [loop]. unfold open_next. rewrite (proj2 (Z.ltb_ge m _)) by lia. split; [done|]. split; [done|]. split; [done|]. left. split; [done|lia].
Qed.
(** ** A vdev *)

(** The place of a vdev. *)
Definition placed (v v' : top_vdev) : Prop := vdev_asize v' = vdev_asize v /\ vdev_ashift v' = vdev_ashift v /\ vdev_ms_shift v' = vdev_ms_shift v /\ vdev_ms_array v' = vdev_ms_array v /\
  vdev_ops v' = vdev_ops v /\ vdev_nparity v' = vdev_nparity v /\ vdev_child v' = vdev_child v.
Definition slab_count (v : top_vdev) : Z := vdev_asize v / 2 ^ vdev_ms_shift v.

Lemma on_disk_placed v v' s d k smo L : placed v v' -> on_disk v s d k smo L -> on_disk v' s d k smo L.
Proof. intros (E1 & E2 & E3 & E4 & _) [D1 D2 D3 D4]. assert (Eg : slab_geo v' k = slab_geo v k) by (unfold slab_geo; by rewrite E2, E3). by constructor; rewrite ?E4, ?Eg. Qed.

(** Sizes within which the arithmetic is exact. *)
Record size_ok (v : top_vdev) : Prop := {
  sz_sized : vdev_sized v;
  sz_shift : vdev_ashift v <= vdev_ms_shift v <= 56 /\ vdev_ms_shift v <= 47 + vdev_ashift v;
  sz_asize : 0 < vdev_asize v <= 2 ^ 62 }.

(** A group without metaslabs yet. *)
Record closed mg : Prop := {
  cl_slabs : mg_slabs mg = ∅;
  cl_tree : tr_seq (mg_metaslab_tree mg) [];
  cl_ms : vdev_ms (mg_vd mg) = [];
  cl_list : tl_ok (vdev_ms_list (mg_vd mg)) /\ forall t, chain (vdev_ms_list (mg_vd mg)) t = [];
  cl_count : mg_activation_count mg = 0;
  cl_on : vdev_ishole (mg_vd mg) = false /\ quiet (mg_vd mg);
  cl_space : vs_space (vdev_stat_ (mg_vd mg)) = 0 }.

(** A group with all its metaslabs. *)
Record made (s : Z) d (smo : Z -> space_map_obj) (L : Z -> Z -> bool) mg : Prop := {
  md_part : part s d smo L mg (zlen (vdev_ms (mg_vd mg)));
  md_count : zlen (vdev_ms (mg_vd mg)) = slab_count (mg_vd mg);
  md_list : forall t, chain (vdev_ms_list (mg_vd mg)) t = [];
  md_space : 0 <= vs_space (vdev_stat_ (mg_vd mg)) <= 2 ^ 62 }.

(** The circles depend on the links, the counts and the rotors. *)
Definition ring_part mg : Z * Z * option Z * option Z := (mg_class mg, mg_activation_count mg, mg_next mg, mg_prev mg).

Lemma rings_links pl pl' : (forall x, ring_part <$> top pl' x = ring_part <$> top pl x) -> (forall c mc', get_mc pl' c = Ok mc' -> exists mc, get_mc pl c = Ok mc /\ mc_rotor mc' = mc_rotor mc) -> length (spa_classes pl') = length (spa_classes pl) -> rings pl -> rings pl'.
Proof using All.
  intros Hl Hc Hlen [R1 R2 R3 R4]. assert (Hb : forall x m', top pl' x = Some m' -> exists m, top pl x = Some m /\ ring_part m' = ring_part m) by (intros x m' E; specialize (Hl x); rewrite E in Hl; destruct (top pl x) as [m|]; [|done]; exists m; split; [done|cbn in Hl; congruence]).
  assert (Hf : forall x m, top pl x = Some m -> exists m', top pl' x = Some m' /\ ring_part m' = ring_part m) by (intros x m E; specialize (Hl x); rewrite E in Hl; destruct (top pl' x) as [m'|]; [|done]; exists m'; split; [done|cbn in Hl; congruence]).
  assert (Hn : forall x, nextof pl' x = nextof pl x /\ prevof pl' x = prevof pl x) by (intros x; unfold nextof, prevof; specialize (Hl x); destruct (top pl' x), (top pl x); try done; cbn in Hl |- *; unfold ring_part in Hl; by injection Hl as _ _ -> ->). constructor.
  - intros c mc' Ec'. destruct (Hc c mc' Ec') as (mc & Ec & Er). destruct (R1 c mc Ec) as (l & [A1 A2 A3]). exists l. rewrite Er. constructor; [eapply ringed_ext; [exact A1|]; intros x _; apply Hn| |done]. intros x. rewrite A2. split; intros (m & E & E1 & E2); [destruct (Hf x m E) as (m' & E' & Ep)|destruct (Hb x m E) as (m' & E' & Ep)]; exists m'; unfold ring_part in Ep; injection Ep as P1 P2 _ _; (split; [done|]; split; [congruence|lia]).
  - intros x m' E. destruct (Hb x m' E) as (m & Em & Ep). unfold ring_part in Ep. injection Ep as -> _ _ _. destruct (R2 x m Em) as [mc Emc]. destruct (rd_ok_inv _ _ _ Emc) as [Hi _]. destruct (rd_in_bounds (spa_classes pl') (mg_class m)) as (mc' & Emc' & _); [by rewrite Hlen|]. by exists mc'.
  - intros x m' E. destruct (Hb x m' E) as (m & Em & Ep). unfold ring_part in Ep. injection Ep as _ -> _ _. by apply (R3 x).
  - intros x m' E. destruct (Hb x m' E) as (m & Em & Ep). unfold ring_part in Ep. injection Ep as _ -> -> ->. by apply (R4 x).
Qed.

Lemma counted_rings g c n pl pl' mg mg' : counted g c n pl pl' -> top pl g = Some mg -> top pl' g = Some mg' -> ring_part mg' = ring_part mg -> rings pl -> rings pl'.
Proof using All.
  intros Hc Hg Hg' Ep. apply rings_links; [|..|apply Hc].
  - intros x. destruct (decide (x = g)) as [->|Hne]; [rewrite Hg, Hg'; cbn; by rewrite Ep|by rewrite (ct_top _ _ _ _ _ Hc)].
  - intros c' mc' Ec'. destruct (rd_ok_inv _ _ _ Ec') as [Hi _]. rewrite (proj1 (ct_len _ _ _ _ _ Hc)) in Hi. destruct (rd_in_bounds (spa_classes pl) c' Hi) as (mc & Ec & _). exists mc. split; [done|]. destruct (ct_class _ _ _ _ _ Hc c' mc Ec) as (mc2 & Ec2 & Er & _). assert (mc2 = mc') as -> by (unfold get_mc in *; congruence). done.
Qed.
(** Making a group active changes nothing of that. *)
Lemma slab_ok_but mg mg' s d k msp x : group_but mg mg' -> slab_ok (mg_vd mg) s d k msp x -> slab_ok (mg_vd mg') s d k msp x.
Proof. intros (prev & next & n & a & b & fw & ->) [H1 H2 H3 H4]. by constructor. Qed.

Lemma part_but s d smo L mg mg' m : group_but mg mg' -> part s d smo L mg m -> part s d smo L mg' m.
Proof.
  intros Hb [P1 P2 P3 P4 P5]. assert (Hsl := fun k msp x => slab_ok_but mg mg' s d k msp x Hb). destruct Hb as (prev & next & n & a & b & fw & ->). constructor; try done.
  - by destruct P1; constructor.
  - destruct P2 as [l Hl]. exists l. by apply (tree_same mg).
  - intros k p Hk Hlt. destruct (P4 k p Hk Hlt) as (msp & H1 & H2 & H3). exists msp. split; [done|]. split; [by apply Hsl|done].
Qed.

Lemma made_but s d smo L mg mg' : group_but mg mg' -> made s d smo L mg -> made s d smo L mg'.
Proof. intros Hb [H1 H2 H3 H4]. pose proof (part_but _ _ _ _ _ _ _ Hb H1) as Hp. destruct Hb as (prev & next & n & a & b & fw & ->). by constructor. Qed.

Lemma closed_but mg mg' : group_but mg mg' -> mg_activation_count mg' = mg_activation_count mg -> closed mg -> closed mg'.
Proof. intros (prev & next & n & a & b & fw & ->) Ec [H1 H2 H3 H4 H5 H6 H7]. constructor; try done. congruence. Qed.

Lemma placed_but mg mg' : group_but mg mg' -> placed (mg_vd mg) (mg_vd mg').
Proof. by intros (prev & next & n & a & b & fw & ->). Qed.

Lemma placed_trans v1 v2 v3 : placed v1 v2 -> placed v2 v3 -> placed v1 v3.
Proof. intros (A1 & A2 & A3 & A4 & A5 & A6 & A7) (B1 & B2 & B3 & B4 & B5 & B6 & B7). split_and!; congruence. Qed.

(** What opening the vdev [g] does to a pool. *)
Record vdev_opened (g : Z) mg pl pl' : Prop := {
  vp_rings : rings pl';
  vp_mos : spa_mos pl' = spa_mos pl;
  vp_list : spa_vdev_txg_list pl' = spa_vdev_txg_list pl;
  vp_tops : length (spa_tops pl') = length (spa_tops pl);
  vp_class c mc' : get_mc pl' c = Ok mc' -> exists mc n, get_mc pl c = Ok mc /\ mc_ops mc' = mc_ops mc /\ 0 <= n <= vdev_asize (mg_vd mg) /\ grown n (mc_space mc) (mc_space mc');
  vp_other x m : x <> g -> top pl x = Some m -> exists m', top pl' x = Some m' /\ group_but m m' /\ mg_activation_count m' = mg_activation_count m }.

Lemma counted_back g c n pl pl' c' mc' : counted g c n pl pl' -> get_mc pl' c' = Ok mc' -> exists mc, get_mc pl c' = Ok mc /\ mc_rotor mc' = mc_rotor mc /\ mc_ops mc' = mc_ops mc /\ grown (if decide (c' = c) then n else 0) (mc_space mc) (mc_space mc').
Proof.
  intros Hc Ec'. destruct (rd_ok_inv _ _ _ Ec') as [Hi _]. rewrite (proj1 (ct_len _ _ _ _ _ Hc)) in Hi. destruct (rd_in_bounds (spa_classes pl) c' Hi) as (mc & Ec & _). exists mc. split; [done|]. destruct (ct_class _ _ _ _ _ Hc c' mc Ec) as (mc2 & Ec2 & H). assert (mc2 = mc') as -> by (unfold get_mc in *; congruence). done.
Qed.

Lemma counted_opened g mg n pl pl' : counted g (mg_class mg) n pl pl' -> 0 <= n <= vdev_asize (mg_vd mg) -> rings pl' -> vdev_opened g mg pl pl'.
Proof.
  intros Hc Hn Hr. split; [done|apply Hc|apply Hc|apply Hc|..].
  - intros c mc' Ec'. destruct (counted_back _ _ _ _ _ _ _ Hc Ec') as (mc & Ec & _ & Eo & Hg). exists mc, (if decide (c = mg_class mg) then n else 0). split; [done|]. split; [done|]. split; [case_decide; lia|done].
  - intros x m Hx E. exists m. rewrite (ct_top _ _ _ _ _ Hc) by done. split; [done|]. split; [|done]. exists (mg_prev m), (mg_next m), (mg_activation_count m), (mg_aliquot m), (mg_bias m), (vdev_pending_fastwrite (mg_vd m)). by destruct m as [? ? ? ? ? ? ? []].
Qed.

Lemma opened_but g mg mg' n pl pl1 pl2 : counted g (mg_class mg) n pl pl1 -> 0 <= n <= vdev_asize (mg_vd mg) -> top pl1 g = Some mg' -> rings pl2 -> pool_but pl1 pl2 -> (forall x, x <> g -> countof pl2 x = countof pl1 x) -> vdev_opened g mg pl pl2.
Proof.
  intros Hc Hn Hg Hr Hb Hct. pose proof Hb as [B1 B2 B3 B4 B5]. split; [done|by rewrite B1; apply Hc|by rewrite B2; apply Hc|by rewrite B3; apply Hc|..].
  - intros c mc2 Ec2. destruct (rd_ok_inv _ _ _ Ec2) as [_ Hl2]. destruct (Forall2_lookup_r _ _ _ _ _ B4 Hl2) as (mc1 & Hl1 & Eo & Es). destruct (rd_ok_inv _ _ _ Ec2) as [Hi _]. assert (Ec1 : get_mc pl1 c = Ok mc1) by (apply rd_Some; [lia|done]).
    destruct (counted_back _ _ _ _ _ _ _ Hc Ec1) as (mc & Ec & _ & Eo1 & Hgr). exists mc, (if decide (c = mg_class mg) then n else 0). split; [done|]. split; [congruence|]. split; [case_decide; lia|by rewrite Es].
  - intros x m Hx E. rewrite <- (ct_top _ _ _ _ _ Hc x Hx) in E. destruct (B5 x m E) as (m' & E' & Hm). exists m'. split; [done|]. split; [done|]. specialize (Hct x Hx). unfold countof in Hct. rewrite E, E' in Hct. by injection Hct.
Qed.
(** The group when [vdev_metaslab_init] starts to make its metaslabs. *)
Definition started mg (ratio : Z) : metaslab_group T := with_vd mg (with_ms (with_deflate (mg_vd mg) ratio) (replicate (Z.to_nat (slab_count (mg_vd mg))) NULL)).

Lemma closed_start s pl g mg ratio smo L : top pl g = Some mg -> closed mg -> size_ok (mg_vd mg) -> zlen (vdev_ms (mg_vd (started mg ratio))) = slab_count (mg_vd mg) /\ making s smo L g (started mg ratio) (put pl g (started mg ratio)) 0 (put pl g (started mg ratio)) (started mg ratio).
Proof using All.
  intros Hg Hc Hz. pose proof Hc as [C1 C2 C3 [C4 C4'] C5 C6 C7]. destruct Hz as [[Z1 _] [Z2 Z3] Z4]. assert (HU : 0 < 2 ^ vdev_ms_shift (mg_vd mg)) by (apply Z.pow_pos_nonneg; lia). assert (Hn : 0 <= slab_count (mg_vd mg)) by (apply Z.div_pos; lia).
  assert (El : zlen (vdev_ms (mg_vd (started mg ratio))) = slab_count (mg_vd mg)) by (cbn; rewrite length_replicate; lia). split; [done|]. destruct (set_mg_ok pl g mg (started mg ratio) Hg) as [_ Ht]. split; [by rewrite Ht, decide_True| |apply opens_refl| |rewrite Z.mul_0_l; apply grown_0].
  - constructor; [constructor; [cbn; lia|cbn; lia| |done|exact (proj2 C6)]; rewrite El; cbn; pose proof (Z.mul_div_le (vdev_asize (mg_vd mg)) _ HU); unfold slab_count; lia|exists []|by cbn; rewrite C1|intros k p _ ?; lia|intros p; cbn; rewrite C1; by intros []].
    constructor; cbn; rewrite ?C1; try done; [constructor|]. intros p. rewrite elem_of_nil. split; [done|by intros []].
  - rewrite Z.mul_0_l. split; try done. intros c' mc E. exists mc. split; [done|]. split; [done|]. split; [done|]. case_decide; apply grown_0.
Qed.

Lemma vdev_open_ok s pl g mg smo L : top pl g = Some mg -> closed mg -> size_ok (mg_vd mg) -> rings pl -> 4 <= s < 2 ^ 63 -> (forall k, 0 <= k < slab_count (mg_vd mg) -> on_disk (mg_vd mg) s (spa_mos pl) k (smo k) (L k)) ->
  exists pl' e mg', vdev_metaslab_init pl g 0 = Ok (pl', e) /\ vdev_opened g mg pl pl' /\ top pl' g = Some mg' /\ mg_class mg' = mg_class mg /\ placed (mg_vd mg) (mg_vd mg') /\ ((e = 0 /\ made s (spa_mos pl) smo L mg') \/ read_error (spa_mos pl) (vdev_ms_array (mg_vd mg)) e).
Proof using All.
  intros Hg Hc Hz Hr Hs Hd. pose proof Hc as [C1 C2 C3 [C4 C4'] C5 [C6 C6'] C7]. destruct (asize_fits (mg_vd mg) SPA_MAXBLOCKSIZE (sz_sized _ Hz) ltac:(done)) as [[Ha _] Ha']. pose proof Hz as [[Z1 _] [Z2 Z3] Z4]. unfold vdev_metaslab_init. rewrite (get_mg_ok _ _ _ Hg). cbn [mbind res_bind]. rewrite (proj2 (Z.eqb_neq (vdev_ms_shift (mg_vd mg)) 0)) by lia.
  assert (Er : exists r, div_u64 (Z.shiftl 1 17) (Z.shiftr (vdev_psize_to_asize (mg_vd mg) (Z.shiftl 1 17)) SPA_MINBLOCKSHIFT) = Ok r).
  { change (Z.shiftl 1 17) with SPA_MAXBLOCKSIZE. unfold div_u64. rewrite Z.shiftr_div_pow2 by done. apply (mod_512 _ (vdev_ashift (mg_vd mg))) in Ha'; [|lia]. change (2 ^ SPA_MINBLOCKSHIFT) with 512. rewrite (proj2 (Z.eqb_neq _ 0)) by dlia. by eexists. }
  destruct Er as [r ->]. cbn [mbind res_bind]. rewrite C3. cbn [length app]. change (Z.of_nat 0) with 0. rewrite Z.shiftr_div_pow2 by lia. fold (slab_count (mg_vd mg)). rewrite Z.sub_0_r. assert (HU : 0 < 2 ^ vdev_ms_shift (mg_vd mg)) by (apply Z.pow_pos_nonneg; lia). assert (Hn : 0 <= slab_count (mg_vd mg)) by (apply Z.div_pos; lia). rewrite (proj2 (Z.ltb_ge _ 0)) by lia.
  fold (started mg r). destruct (set_mg_ok pl g mg (started mg r) Hg) as [-> Ht]. cbn [mbind res_bind]. destruct (closed_start s pl g mg r smo L Hg Hc Hz) as [El Hmk]. set (mg0 := started mg r) in *. set (pl0 := put pl g mg0) in *. destruct (ri_class _ Hr g mg Hg) as [mc Emc].
  change (with_ms (with_deflate (mg_vd mg) r) _) with (mg_vd mg0). match goal with |- context [loop _ ?f _] => change f with (open_next g (mg_vd mg0) (slab_count (mg_vd mg))) end. rewrite <- El.
  destruct (open_loop s smo L g mg0 mc pl0 Emc Hs (S (Z.to_nat (zlen (vdev_ms (mg_vd mg0))))) 0 pl0 mg0 Hmk) as (pl1 & mg1 & e & n & -> & [M1 M2 M3 M4 M5] & Hnn & He); [lia|lia|intros k Hk; rewrite El in Hk; eapply on_disk_placed; [|apply Hd, Hk]; done|]. cbn [mbind res_bind].
  assert (Hcnt : counted g (mg_class mg) (n * 2 ^ vdev_ms_shift (mg_vd mg)) pl pl1) by (rewrite <- (Z.add_0_l (n * _)); eapply counted_trans; [done|nia|by eapply counted_put|exact M4]). pose proof M3 as (O1 & O2 & O3 & O4 & st & ms & Ev & Elm).
  assert (Hn2 : 0 <= n * 2 ^ vdev_ms_shift (mg_vd mg) <= vdev_asize (mg_vd mg)) by (rewrite El in Hnn; pose proof (Z.mul_div_le (vdev_asize (mg_vd mg)) _ HU); unfold slab_count in Hnn; nia). assert (Hr1 : rings pl1) by (eapply counted_rings; [exact Hcnt|exact Hg|exact M1| |done]; unfold ring_part; by rewrite O1, O2, O3, O4).
  assert (Hpl1 : placed (mg_vd mg) (mg_vd mg1)) by (by rewrite Ev). destruct He as [[-> ->]|He].
  2: { pose proof He as (k & _ & Hne). rewrite (proj2 (Z.eqb_neq e 0) Hne). cbn [negb]. exists pl1, e, mg1. split; [done|]. split; [by eapply counted_opened|]. split; [done|]. split; [done|]. split; [done|by right]. }
  cbn [Z.eqb negb andb]. cbn [mg0 started mg_vd with_vd vdev_removing with_ms with_deflate]. rewrite (proj1 C6'). cbn [negb]. destruct (activate_ring pl1 g mg1 Hr1 M1 ltac:(rewrite O2; cbn; lia)) as (pl2 & -> & Hr2 & Hb & Hct). cbn [mbind res_bind]. destruct (pb_group _ _ Hb g mg1 M1) as (mg2 & Hg2 & Hm2).
  exists pl2, 0, mg2. split; [done|]. split; [eapply opened_but; try done; intros x Hx; by rewrite Hct, decide_False|]. split; [done|]. split; [by destruct Hm2 as (? & ? & ? & ? & ? & ? & ->)|]. split; [eapply placed_trans; [exact Hpl1|by apply placed_but]|]. left. split; [done|]. eapply made_but; [done|]. assert (Elz : zlen (vdev_ms (mg_vd mg1)) = zlen (vdev_ms (mg_vd mg0))) by (rewrite Ev; cbn; by rewrite Elm).
  constructor; [by rewrite Elz, <- (ct_mos _ _ _ _ _ Hcnt)|by rewrite Elz, El; unfold slab_count; destruct Hpl1 as (-> & _ & -> & _)|by rewrite Ev|]. change (vs_space (vdev_stat_ (mg_vd mg0))) with (vs_space (vdev_stat_ (mg_vd mg))) in M5. change (vdev_ms_shift (mg_vd mg0)) with (vdev_ms_shift (mg_vd mg)) in M5. rewrite C7 in M5. rewrite M5; lia.
Qed.
End open.
End MetaslabOpen.
