(* ===== verification/MetaslabImage.v ===== *)
(** Opening a whole pool, and that the pool that has been opened is at work again.

    A concrete pool: objects in memory, one vdev, and nothing allocated yet. *)

From S2P Require Import Prelude Avl AvlSpec OrdTree SpaceMap SpaceSet SpaceMapOk SpaceMapWalk SpaceMapRanges SpaceMapSpec SpaceLog SpaceSync SpaceLoad SpaceLogSpec MetaslabInv Metaslab MetaslabOk MetaslabSpec TxgList MetaslabSync MetaslabCycle RaidzMap Blkptr MetaslabGroup MetaslabTree MetaslabPool MetaslabBlock MetaslabPass MetaslabFinish MetaslabRotor MetaslabCircle MetaslabSystem MetaslabLedger MetaslabOpen.
Import RaidzMap SpaceMap SpaceSet SpaceMapOk SpaceMapCut SpaceMapWalk SpaceMapRanges SpaceMapSpec SpaceLog SpaceEntry SpaceSync SpaceLoad SpaceLogSpec SpaceFrame Metaslab MetaslabPick MetaslabOk MetaslabSpec TxgList MetaslabSync MetaslabSlab MetaslabInv MetaslabWrite MetaslabTurn MetaslabTake Blkptr MetaslabGroup MetaslabTree MetaslabPool MetaslabState MetaslabUse MetaslabPlace MetaslabBlock MetaslabRound MetaslabPass MetaslabDone MetaslabFinish MetaslabRing MetaslabRotor MetaslabChoose MetaslabCircle MetaslabAlloc MetaslabSystem MetaslabLedger MetaslabOpen.
Open Scope Z_scope.

Module MetaslabImage.

Section image.
Context {T I D : Type} {HT : Tree T I} {HK : Kmem} {HD : Dmu D} {HB : DmuObjects D} {HE : SpaEnv} {HTL : TreeLaws T I} {HKL : KmemLaws} {HDL : DmuLaws D} {HBL : DmuObjectLaws D}.
Implicit Types (pl : pool T D) (mg : metaslab_group T) (msp : metaslab T) (d : D).

(** ** What is on disk *)

(** The [N] vdevs [V] of a pool: their metaslabs, the objects of their logs, and the bytes
    the logs have. *)
Record image (s : Z) d (N : Z) (V : Z -> top_vdev) (smo : Z -> Z -> space_map_obj) (L : Z -> Z -> Z -> bool) : Prop := {
  im_txg : 4 <= s < 2 ^ 63;
  im_size g : 0 <= g < N -> size_ok (V g);
  im_disk g k : 0 <= g < N -> 0 <= k < slab_count (V g) -> on_disk (V g) s d k (smo g k) (L g k);
  im_object g k g' k' : 0 <= g < N -> 0 <= k < slab_count (V g) -> 0 <= g' < N -> 0 <= k' < slab_count (V g') -> smo_object (smo g k) = smo_object (smo g' k') -> smo_object (smo g k) <> 0 -> g = g' /\ k = k';
  im_array g k g' : 0 <= g < N -> 0 <= k < slab_count (V g) -> 0 <= g' < N -> smo_object (smo g k) <> vdev_ms_array (V g');
  im_arrays g g' : 0 <= g < N -> 0 <= g' < N -> vdev_ms_array (V g) = vdev_ms_array (V g') -> g = g';
  im_nonzero g : 0 <= g < N -> vdev_ms_array (V g) <> 0 /\ dmu_has d (vdev_ms_array (V g)) }.

(** The pool when the vdevs before [n] have been opened, without an error unless [bad]; no
    vdev is larger than [B]. *)
Record opening (s : Z) (V : Z -> top_vdev) (smo : Z -> Z -> space_map_obj) (L : Z -> Z -> Z -> bool) (B : Z) (bad : bool) (n : Z) pl : Prop := {
  op_rings : rings pl;
  op_list : tl_ok (spa_vdev_txg_list pl) /\ forall t, chain (spa_vdev_txg_list pl) t = [];
  op_class g mg : top pl g = Some mg -> exists mc, get_mc pl (mg_class mg) = Ok mc /\ mc_ops mc = zfs_metaslab_ops;
  op_space c mc : get_mc pl c = Ok mc -> 0 <= mc_space mc <= n * B;
  op_place g mg : top pl g = Some mg -> placed (V g) (mg_vd mg);
  op_done g mg : g < n -> top pl g = Some mg -> bad = false -> made s (spa_mos pl) (smo g) (L g) mg;
  op_rest g mg : n <= g -> top pl g = Some mg -> closed mg }.

Lemma size_ok_placed v v' : placed v v' -> size_ok v -> size_ok v'.
Proof. intros (E1 & E2 & E3 & E4 & E5 & E6 & E7) [[Z1 Z1'] Z2 Z3]. constructor; [split|..]; rewrite ?E1, ?E2, ?E3, ?E5, ?E6, ?E7; done. Qed.

Lemma slab_count_placed v v' : placed v v' -> slab_count v' = slab_count v.
Proof. intros (E1 & _ & E3 & _). unfold slab_count. by rewrite E1, E3. Qed.

(** Every group of the pool after opening [g] was there before. *)
Lemma vdev_opened_back g mg0 pl pl' mg' x m' : vdev_opened g mg0 pl pl' -> top pl' g = Some mg' -> top pl' x = Some m' -> (x = g /\ m' = mg') \/ (x <> g /\ exists m, top pl x = Some m /\ group_but m m' /\ mg_activation_count m' = mg_activation_count m).
Proof.
  intros Hv Hg Hx. destruct (decide (x = g)) as [->|Hne]; [left; split; [done|congruence]|right]. split; [done|]. pose proof (top_lt _ _ _ Hx) as Hlt. rewrite (vp_tops _ _ _ _ Hv) in Hlt. destruct (lookup_lt_is_Some_2 (spa_tops pl) (Z.to_nat x)) as [m E]; [lia|]. assert (Et : top pl x = Some m) by (unfold top; by rewrite decide_True by lia).
  exists m. split; [done|]. destruct (vp_other _ _ _ _ Hv x m Hne Et) as (m2 & E2 & H). assert (m2 = m') as -> by congruence. done.
Qed.

(** ** Opening *)

Section opening.
Context (s N B : Z) (V : Z -> top_vdev) (smo : Z -> Z -> space_map_obj) (L : Z -> Z -> Z -> bool).
Hypothesis (HsB : forall g, 0 <= g < N -> 0 <= vdev_asize (V g) <= B) (HsN : N * B < 2 ^ 64 - 1).

(** A vdev could not be opened. *)
Definition unread d (e : Z) : Prop := exists g, 0 <= g < N /\ read_error d (vdev_ms_array (V g)) e.

Lemma opened_next n bad pl pl' mg mg' e : image s (spa_mos pl) N V smo L -> opening s V smo L B bad n pl -> 0 <= n < N -> top pl n = Some mg -> vdev_opened n mg pl pl' -> top pl' n = Some mg' -> mg_class mg' = mg_class mg -> placed (mg_vd mg) (mg_vd mg') ->
  (e = 0 -> made s (spa_mos pl) (smo n) (L n) mg') -> opening s V smo L B (bad || negb (e =? 0)) (n + 1) pl'.
Proof using HsB HsN.
  intros Him [O1 O2 O3 O4 O5 O6 O7] Hn Hg Hv Hg' Ec Hpl Hmd. pose proof Hv as [V1 V2 V3 V4 V5 V6]. assert (Hback := fun x m' => vdev_opened_back n mg pl pl' mg' x m' Hv Hg'). assert (HB0 := HsB n Hn).
  constructor; [done|by rewrite V3|..].
  - intros x m' Hx. destruct (ri_class _ V1 x m' Hx) as [mc' E']. exists mc'. split; [done|]. destruct (V5 _ mc' E') as (mc & k & E & Eo & _). rewrite Eo. destruct (Hback x m' Hx) as [[-> ->]|(Hne & m & Em & Hb & _)].
    + destruct (O3 n mg Hg) as (mc0 & E0 & Eo0). rewrite Ec in E. assert (mc0 = mc) as -> by (unfold get_mc in *; congruence). done.
    + destruct (O3 x m Em) as (mc0 & E0 & Eo0). assert (Ecl : mg_class m' = mg_class m) by (by destruct Hb as (? & ? & ? & ? & ? & ? & ->)). rewrite Ecl in E. assert (mc0 = mc) as -> by (unfold get_mc in *; congruence). done.
  - intros c mc' E'. destruct (V5 c mc' E') as (mc & k & E & _ & Hk & Hgr). pose proof (O4 c mc E) as Hm. rewrite (proj1 (O5 n mg Hg)) in Hk. rewrite Hgr; nia.
  - intros x m' Hx. destruct (Hback x m' Hx) as [[-> ->]|(Hne & m & Em & Hb & _)]; eapply placed_trans; [by apply (O5 n mg)|done|by apply (O5 x m)|by apply placed_but].
  - intros x m' Hlt Hx [Ebad Ee%negb_false_iff%Z.eqb_eq]%orb_false_iff. rewrite V2. destruct (Hback x m' Hx) as [[-> ->]|(Hne & m & Em & Hb & _)]; [by apply Hmd|]. eapply made_but; [done|]. apply O6; [lia|done|done].
  - intros x m' Hge Hx. destruct (Hback x m' Hx) as [[-> ->]|(Hne & m & Em & Hb & Hct)]; [lia|]. eapply closed_but; [done|done|]. apply (O7 x); [lia|done].
Qed.

Lemma load_top_ok n bad pl : image s (spa_mos pl) N V smo L -> opening s V smo L B bad n pl -> 0 <= n < N -> zlen (spa_tops pl) = N ->
  exists pl' b, vdev_load_top pl n = Ok (pl', b) /\ opening s V smo L B (bad || b) (n + 1) pl' /\ spa_mos pl' = spa_mos pl /\ zlen (spa_tops pl') = N /\ (b = true -> exists e, unread (spa_mos pl) e).
Proof using All.
  intros Him Hop Hn HN. destruct (lookup_lt_is_Some_2 (spa_tops pl) (Z.to_nat n)) as [mg E]; [lia|]. assert (Hg : top pl n = Some mg) by (unfold top; by rewrite decide_True by lia). pose proof (op_place _ _ _ _ _ _ _ _ Hop n mg Hg) as Hpl. pose proof (op_rest _ _ _ _ _ _ _ _ Hop n mg ltac:(lia) Hg) as Hcl. pose proof (size_ok_placed _ _ Hpl (im_size _ _ _ _ _ _ Him n Hn)) as Hz.
  unfold vdev_load_top. rewrite (get_mg_ok _ _ _ Hg). cbn [mbind res_bind]. rewrite (proj1 (cl_on _ Hcl)). cbn [negb]. pose proof Hz as [[Z1 _] _ Z3]. rewrite (proj2 (Z.eqb_neq (vdev_ashift (mg_vd mg)) 0)), (proj2 (Z.eqb_neq (vdev_asize (mg_vd mg)) 0)) by lia. cbn [orb].
  destruct (vdev_open_ok s pl n mg (smo n) (L n) Hg Hcl Hz (op_rings _ _ _ _ _ _ _ _ Hop) (im_txg _ _ _ _ _ _ Him)) as (pl' & e & mg' & -> & Hv & Hg' & Ec & Hp' & He); [intros k Hk; rewrite (slab_count_placed _ _ Hpl) in Hk; eapply on_disk_placed; [done|]; by apply Him|].
  cbn [mbind res_bind]. exists pl', (negb (e =? 0)). split; [done|]. split; [|split; [apply Hv|split; [by rewrite (vp_tops _ _ _ _ Hv)|]]].
  - eapply opened_next; try done. intros ->. destruct He as [[_ Hm]|(k & _ & Hne)]; done.
  - intros Hb%negb_true_iff%Z.eqb_neq. destruct He as [[? _]|He]; [done|]. exists e, n. split; [done|]. destruct Hpl as (_ & _ & _ & <- & _). done.
Qed.

Lemma vdev_load_ok pl : image s (spa_mos pl) N V smo L -> opening s V smo L B false 0 pl -> zlen (spa_tops pl) = N ->
  exists pl' bad, vdev_load pl = Ok (pl', bad) /\ opening s V smo L B bad N pl' /\ spa_mos pl' = spa_mos pl /\ zlen (spa_tops pl') = N /\ (bad = true -> exists e, unread (spa_mos pl) e).
Proof using All.
  intros Him Hop HN. unfold vdev_load. rewrite HN. set (d := spa_mos pl) in *. pose (J := fun n '(pl', bad) => opening s V smo L B bad n pl' /\ spa_mos pl' = d /\ zlen (spa_tops pl') = N /\ (bad = true -> exists e, unread d e)).
  assert (Hw : wp (for_range 0 N (fun c '(pl, bad) => '(pl, b) ← vdev_load_top pl c; Ok (pl, bad || b)) (pl, false)) (J N)).
  { apply (wp_for_range J); [lia|by split_and!| |done]. intros n [pl1 bad] Hn (H1 & H2 & H3 & H4). destruct (load_top_ok n bad pl1 ltac:(by rewrite H2) H1 Hn H3) as (pl2 & b & -> & Ho2 & Em2 & El2 & Hb2). cbn [mbind res_bind wp].
    split; [done|]. split; [congruence|]. split; [done|]. intros [|]%orb_true_iff; [by apply H4|]. rewrite <- H2. by apply Hb2. }
  destruct (for_range _ _ _ _) as [[pl' bad]|]; [|done]. exists pl', bad. split; [done|]. exact Hw.
Qed.

(** ** The opened pool *)

(** The owners of the bytes of the opened pool. *)
Definition owners pl (g p : Z) : sx :=
  match top pl g with
  | Some mg => match list_find (eq p) (vdev_ms (mg_vd mg)) with Some (k, _) => opened (L g (Z.of_nat k)) | None => opened (fun _ => false) end
  | None => opened (fun _ => false)
  end.

Lemma made_slab mg d g k p : made s d (smo g) (L g) mg -> vdev_ms (mg_vd mg) !! k = Some p -> exists msp, mg_slabs mg !! p = Some msp /\ slab_ok (mg_vd mg) s d (Z.of_nat k) msp (opened (L g (Z.of_nat k))) /\ idle msp (opened (L g (Z.of_nat k))) /\ ms_smo_syncing msp = smo g (Z.of_nat k).
Proof. intros Hm Hk. apply (pt_slab _ _ _ _ _ _ (md_part _ _ _ _ _ Hm) k p Hk). apply lookup_lt_Some in Hk. lia. Qed.

Lemma made_index mg d g p msp : made s d (smo g) (L g) mg -> mg_slabs mg !! p = Some msp -> exists k, vdev_ms (mg_vd mg) !! k = Some p /\ 0 <= Z.of_nat k < slab_count (mg_vd mg).
Proof. intros Hm Hp. destruct (pt_index _ _ _ _ _ _ (md_part _ _ _ _ _ Hm) p ltac:(by eexists)) as (k & Hk & Hlt). exists k. rewrite <- (md_count _ _ _ _ _ Hm). split; [done|lia]. Qed.

Lemma owners_at pl d g mg k p : top pl g = Some mg -> made s d (smo g) (L g) mg -> vdev_ms (mg_vd mg) !! k = Some p -> owners pl g p = opened (L g (Z.of_nat k)).
Proof using All.
  intros Hg Hm Hk. unfold owners. rewrite Hg. destruct (list_find (eq p) (vdev_ms (mg_vd mg))) as [[j q]|] eqn:E.
  - apply list_find_Some in E as (Hj & <- & _). destruct (made_slab _ _ _ _ _ Hm Hj) as (m1 & H1 & S1 & _), (made_slab _ _ _ _ _ Hm Hk) as (m2 & H2 & S2 & _). assert (m2 = m1) as -> by congruence.
    pose proof (proj1 (mo_geo _ _ _ (si_map _ _ _ _ _ _ (so_inv _ _ _ _ _ _ S1)))) as G1. rewrite (proj1 (mo_geo _ _ _ (si_map _ _ _ _ _ _ (so_inv _ _ _ _ _ _ S2)))) in G1. cbn in G1. destruct (vo_shift _ (pt_vd _ _ _ _ _ _ (md_part _ _ _ _ _ Hm))). apply Z.mul_cancel_r in G1; [by rewrite G1|]. apply Z.pow_nonzero; lia.
  - apply list_find_None in E. rewrite list.Forall_forall in E. destruct (E p); [by eapply list_elem_of_lookup_2|done].
Qed.

Lemma made_group pl g mg : top pl g = Some mg -> made s (spa_mos pl) (smo g) (L g) mg -> group_ok (fun _ => s) (spa_mos pl) mg (owners pl g) /\ forall R, group_dirty s R mg (owners pl g).
Proof using All.
  intros Hg Hm. pose proof Hm as [[P1 P2 P3 P4 P5] M2 M3 M4]. split.
  - constructor; [done|done|..].
    + intros p. split; [intros (k & Hk)%list_elem_of_lookup_1; destruct (made_slab _ _ _ _ _ Hm Hk) as (msp & H1 & _); by eexists|intros [msp Hp]; destruct (made_index _ _ _ _ _ Hm Hp) as (k & Hk & _); by eapply list_elem_of_lookup_2].
    + intros k p msp Hk Hp. destruct (made_slab _ _ _ _ _ Hm Hk) as (m & H1 & S1 & _). assert (m = msp) as -> by congruence. by erewrite owners_at.
  - intros R. constructor; try (setoid_rewrite M3).
    + intros p t [msp Hp] _ (y & Hy). destruct (made_index _ _ _ _ _ Hm Hp) as (k & Hk & _). erewrite owners_at in Hy by done. cbn in Hy. destruct Hy as [Hy|Hy]; [by destruct (L g (Z.of_nat k) y)|done].
    + intros p msp Hp _ _. destruct (made_index _ _ _ _ _ Hm Hp) as (k & Hk & _). erewrite owners_at by done. destruct (made_slab _ _ _ _ _ Hm Hk) as (m & H1 & _ & H3 & _). assert (m = msp) as -> by congruence. done.
    + intros p t Hp. by apply elem_of_nil in Hp.
Qed.

Lemma opened_live pl : image s (spa_mos pl) N V smo L -> opening s V smo L B false N pl -> zlen (spa_tops pl) = N -> pool_live s pl (owners pl).
Proof using All.
  intros Him Hop HN. pose proof Hop as [O1 [O2 O2'] O3 O4 O5 O6 O7]. assert (Hrng : forall g mg, top pl g = Some mg -> 0 <= g < N) by (intros g mg H; apply top_lt in H; by rewrite HN in H). assert (Hmd : forall g mg, top pl g = Some mg -> made s (spa_mos pl) (smo g) (L g) mg) by (intros g mg H; apply O6; [by apply (Hrng g mg)|done|done]).
  assert (Hob : forall g p o, object_of pl g p o -> exists mg k, top pl g = Some mg /\ vdev_ms (mg_vd mg) !! k = Some p /\ 0 <= Z.of_nat k < slab_count (V g) /\ o = smo_object (smo g (Z.of_nat k))).
  { intros g p o (mg & msp & Hg & Hp & <-). destruct (made_index _ _ _ _ _ (Hmd g mg Hg) Hp) as (k & Hk & Hlt). exists mg, k. split; [done|]. split; [done|]. rewrite (slab_count_placed _ _ (O5 g mg Hg)) in Hlt. split; [done|]. destruct (made_slab _ _ _ _ _ (Hmd g mg Hg) Hk) as (m & H1 & _ & _ & H4). assert (m = msp) as -> by congruence. by rewrite H4. }
  assert (Harr : forall g mg, top pl g = Some mg -> vdev_ms_array (mg_vd mg) = vdev_ms_array (V g)) by (intros g mg H; by destruct (O5 g mg H) as (_ & _ & _ & -> & _)).
  split; [split|done|constructor].
  - constructor.
    + intros g mg Hg. by apply made_group, Hmd.
    + intros g p g' p' o (mg & k & Hg & Hk & Hlt & ->)%Hob (mg' & k' & Hg' & Hk' & Hlt' & Eo)%Hob Hne. destruct (im_object _ _ _ _ _ _ Him g (Z.of_nat k) g' (Z.of_nat k')) as [<- Ek]; [by eapply Hrng|done|by eapply Hrng|done|done|done|]. apply Nat2Z.inj in Ek. subst k'. split; [done|]. congruence.
    + intros g p o g' mg' (mg & k & Hg & Hk & Hlt & ->)%Hob Hg'. rewrite (Harr g' mg' Hg'). apply Him; [by eapply Hrng|done|by eapply Hrng].
    + intros g g' mg mg' Hg Hg'. rewrite (Harr g mg Hg), (Harr g' mg' Hg'). apply Him; by eapply Hrng.
    + intros g mg Hg. rewrite (Harr g mg Hg). apply Him. by eapply Hrng.
    + done.
    + done.
    + intros t g. rewrite O2'. by intros ?%elem_of_nil.
  - intros g mg Hg. by apply made_group, Hmd.
  - intros g mg Hg. pose proof (md_space _ _ _ _ _ (Hmd g mg Hg)). destruct (sz_asize _ (size_ok_placed _ _ (O5 g mg Hg) (im_size _ _ _ _ _ _ Him g (Hrng g mg Hg)))). lia.
  - intros c mc E. pose proof (O4 c mc E). lia.
Qed.
End opening.
(** ** The image of a pool at work *)

(** The vdevs of a pool, the objects of their logs and what these have. *)
Definition vdev_at pl (g : Z) : top_vdev := match top pl g with Some mg => mg_vd mg | None => TopVdev 0 0 0 vdev_other_ops 0 [] (VdevStat 0 0 0 0) 0 0 [] 0 [] [] 0 false false false (SpaceMapObj 0 0 0) end.
Definition slab_at pl (g k : Z) : Z := nth (Z.to_nat k) (vdev_ms (vdev_at pl g)) NULL.
Definition smo_at pl (g k : Z) : space_map_obj := match top pl g with Some mg => match mg_slabs mg !! slab_at pl g k with Some msp => ms_smo_syncing msp | None => SpaceMapObj 0 0 0 end | None => SpaceMapObj 0 0 0 end.
Definition logged_at pl (X : Z -> Z -> sx) (g k y : Z) : bool := bool_decide (own (x_gh (X g (slab_at pl g k))) y = OLog).

(** All of the vdevs are in use, and are of sizes within which the arithmetic is exact. *)
Definition in_use (B : Z) pl : Prop := (forall g mg, top pl g = Some mg -> size_ok (mg_vd mg) /\ zlen (vdev_ms (mg_vd mg)) = slab_count (mg_vd mg) /\ vdev_asize (mg_vd mg) <= B /\ vdev_ishole (mg_vd mg) = false /\ vdev_removing (mg_vd mg) = false) /\ zlen (spa_tops pl) * B < 2 ^ 64 - 1.

Lemma top_some pl g : 0 <= g < zlen (spa_tops pl) -> exists mg, top pl g = Some mg.
Proof. intros Hg. destruct (lookup_lt_is_Some_2 (spa_tops pl) (Z.to_nat g)) as [mg E]; [lia|]. exists mg. unfold top. by rewrite decide_True by lia. Qed.

Lemma slab_at_ok S pl X g mg k : pool_inv S pl X -> top pl g = Some mg -> 0 <= k < zlen (vdev_ms (mg_vd mg)) ->
  exists msp, vdev_ms (mg_vd mg) !! Z.to_nat k = Some (slab_at pl g k) /\ mg_slabs mg !! slab_at pl g k = Some msp /\ smo_at pl g k = ms_smo_syncing msp /\ slab_ok (mg_vd mg) (S g (slab_at pl g k)) (spa_mos pl) k msp (X g (slab_at pl g k)).
Proof using All.
  intros Hi Hg Hk. destruct (lookup_lt_is_Some_2 (vdev_ms (mg_vd mg)) (Z.to_nat k)) as [p Hp]; [lia|]. assert (Ep : slab_at pl g k = p) by (unfold slab_at, vdev_at; rewrite Hg; by apply nth_lookup_Some). rewrite Ep. pose proof (pi_group _ _ _ Hi g mg Hg) as Hgr.
  destruct (proj1 (go_ms _ _ _ _ Hgr p)) as [msp Hm]; [by eapply list_elem_of_lookup_2|]. exists msp. split; [done|]. split; [done|]. split; [unfold smo_at; by rewrite Hg, Ep, Hm|]. pose proof (go_slab _ _ _ _ Hgr _ p msp Hp Hm) as Hs. by rewrite Z2Nat.id in Hs by lia.
Qed.

Lemma live_image s pl X B : pool_live s pl X -> 4 <= s < 2 ^ 63 -> in_use B pl -> image s (spa_mos pl) (zlen (spa_tops pl)) (vdev_at pl) (smo_at pl) (logged_at pl X).
Proof using All.
  intros [[Hi _] _ _] Hs [Hu _]. assert (Hv : forall g, 0 <= g < zlen (spa_tops pl) -> exists mg, top pl g = Some mg /\ vdev_at pl g = mg_vd mg /\ slab_count (mg_vd mg) = zlen (vdev_ms (mg_vd mg)) /\ size_ok (mg_vd mg)).
  { intros g Hg. destruct (top_some pl g Hg) as [mg Em]. exists mg. destruct (Hu g mg Em) as (H1 & H2 & _). split; [done|]. split; [unfold vdev_at; by rewrite Em|done]. }
  assert (Hob : forall g k, 0 <= g < zlen (spa_tops pl) -> 0 <= k < slab_count (vdev_at pl g) -> object_of pl g (slab_at pl g k) (smo_object (smo_at pl g k))).
  { intros g k Hg Hk. destruct (Hv g Hg) as (mg & Em & Ev & Ec & _). rewrite Ev, Ec in Hk. destruct (slab_at_ok _ pl X g mg k Hi Em Hk) as (msp & _ & H2 & -> & _). by exists mg, msp. }
  constructor; [done|..].
  - intros g Hg. destruct (Hv g Hg) as (mg & Em & -> & _ & Hz). done.
  - intros g k Hg Hk. destruct (Hv g Hg) as (mg & Em & Ev & Ec & _). rewrite Ev in Hk |- *. rewrite Ec in Hk. destruct (slab_at_ok _ pl X g mg k Hi Em Hk) as (msp & _ & H2 & -> & [I1 I2 _ _]). unfold logged_at. constructor; [done| |apply I1|].
    + eapply log_of_ext; [apply I1|]. intros y _. by rewrite bool_decide_eq_true.
    + intros y. rewrite bool_decide_eq_true. intros Ey. destruct (decide (in_geo (slab_geo (mg_vd mg) k) y)) as [|Hn]; [done|]. destruct (si_out _ _ _ _ _ _ I1 y Hn) as [E _]. congruence.
  - intros g k g' k' Hg Hk Hg' Hk' Eo Hne. pose proof (Hob g k Hg Hk) as H1. pose proof (Hob g' k' Hg' Hk') as H2. rewrite Eo in H1, Hne. destruct (pi_object _ _ _ Hi _ _ _ _ _ H1 H2 Hne) as [<- Ep]. split; [done|].
    destruct (Hv g Hg) as (mg & Em & Ev & Ec & _). rewrite Ev, Ec in Hk, Hk'. destruct (slab_at_ok _ pl X g mg k Hi Em Hk) as (m1 & K1 & _), (slab_at_ok _ pl X g mg k' Hi Em Hk') as (m2 & K2 & _). rewrite <- Ep in K2.
    destruct (slab_at_ok _ pl X g mg k Hi Em Hk) as (m3 & _ & M3 & _ & S3), (slab_at_ok _ pl X g mg k' Hi Em Hk') as (m4 & _ & M4 & _ & S4). rewrite <- Ep in M4, S4. assert (m4 = m3) as -> by congruence.
    pose proof (proj1 (mo_geo _ _ _ (si_map _ _ _ _ _ _ (so_inv _ _ _ _ _ _ S3)))) as G1. rewrite (proj1 (mo_geo _ _ _ (si_map _ _ _ _ _ _ (so_inv _ _ _ _ _ _ S4)))) in G1. cbn in G1. destruct (vo_shift _ (go_vd _ _ _ _ (pi_group _ _ _ Hi g mg Em))). symmetry. apply Z.mul_cancel_r in G1; [done|]. apply Z.pow_nonzero; lia.
  - intros g k g' Hg Hk Hg'. destruct (Hv g' Hg') as (mg' & Em' & -> & _). exact (pi_array _ _ _ Hi _ _ _ g' mg' (Hob g k Hg Hk) Em').
  - intros g g' Hg Hg'. destruct (Hv g Hg) as (mg & Em & -> & _), (Hv g' Hg') as (mg' & Em' & -> & _). by apply (pi_arrays _ _ _ Hi).
  - intros g Hg. destruct (Hv g Hg) as (mg & Em & -> & _). by apply (pi_nonzero _ _ _ Hi g).
Qed.
(** ** A pool that is opened again *)

(** The pool made of the configuration of [pl] and its disk: the classes are new
    ([spa_activate]), and so are the vdevs and their groups ([vdev_alloc]). *)
Definition vdev_new (v : top_vdev) : top_vdev :=
  TopVdev (vdev_asize v) (vdev_ashift v) (vdev_state v) (vdev_ops v) (vdev_nparity v) (vdev_child v) (VdevStat 0 0 0 0) (vdev_ms_array v) (vdev_ms_shift v) [] 0 txg_list_create txg_list_create 0 (vdev_ishole v) (vdev_removing v) (vdev_cant_write v) (vdev_dtl_smo v).
Definition reimport pl : pool T D :=
  Pool (spa_mos pl) (map (fun _ => metaslab_class_create zfs_metaslab_ops) (spa_classes pl)) (VdevStat 0 0 0 0) (map (fun mg => metaslab_group_create (mg_class mg) (vdev_new (mg_vd mg))) (spa_tops pl)) txg_list_create.

Lemma reimport_top pl g m : top (reimport pl) g = Some m <-> exists mg, top pl g = Some mg /\ m = metaslab_group_create (mg_class mg) (vdev_new (mg_vd mg)).
Proof. unfold top. case_decide; [|split; [done|by intros (? & ? & _)]]. cbn [reimport spa_tops]. rewrite list_lookup_fmap, fmap_Some. split; intros (x & E & ->); by exists x. Qed.

Lemma reimport_class pl c mc : get_mc (reimport pl) c = Ok mc <-> mc = metaslab_class_create zfs_metaslab_ops /\ exists mc0, get_mc pl c = Ok mc0.
Proof.
  unfold get_mc. split.
  - intros [Hb Hl]%rd_ok_inv. cbn [reimport spa_classes] in Hb, Hl. rewrite length_map in Hb. rewrite list_lookup_fmap, fmap_Some in Hl. destruct Hl as (mc0 & Hl & ->). split; [done|]. exists mc0. by apply rd_Some; [lia|].
  - intros (-> & mc0 & [Hb Hl]%rd_ok_inv). apply rd_Some; [lia|]. cbn [reimport spa_classes]. by rewrite list_lookup_fmap, Hl.
Qed.

(** Every group has its class, and the vdevs are in use. *)
Definition configured pl : Prop := forall g mg, top pl g = Some mg -> (exists mc, get_mc pl (mg_class mg) = Ok mc) /\ vdev_ishole (mg_vd mg) = false /\ vdev_removing (mg_vd mg) = false.

Lemma reimport_rings pl : configured pl -> rings (reimport pl).
Proof using All.
  intros Hc. constructor.
  - intros c mc (-> & mc0 & E0)%reimport_class. exists []. constructor; [split; [constructor|by intros x y ?%elem_of_nil]| |done]. intros x. rewrite elem_of_nil. split; [done|]. intros (m & (mg & _ & ->)%reimport_top & _ & Hlt). cbn in Hlt. lia.
  - intros g m (mg & Eg & ->)%reimport_top. destruct (Hc g mg Eg) as [[mc E] _]. eexists. apply reimport_class. split; [done|]. by exists mc.
  - intros g m (mg & Eg & ->)%reimport_top. cbn. lia.
  - intros g m (mg & Eg & ->)%reimport_top _. done.
Qed.

Lemma reimport_opening s pl B smo L : configured pl -> opening s (vdev_at pl) smo L B false 0 (reimport pl).
Proof using All.
  intros Hcf. pose proof create_ok as [Hc1 Hc2]. constructor; [by apply reimport_rings|by split|..].
  - intros g m (mg & Eg & ->)%reimport_top. destruct (Hcf g mg Eg) as [[mc E] _]. exists (metaslab_class_create zfs_metaslab_ops). split; [|done]. apply reimport_class. split; [done|]. by exists mc.
  - intros c mc (-> & _)%reimport_class. cbn. lia.
  - intros g m (mg & Eg & ->)%reimport_top. unfold vdev_at. rewrite Eg. by split_and!.
  - intros g m Hg (mg & Eg & ->)%reimport_top. apply top_lt in Eg. lia.
  - intros g m _ (mg & Eg & ->)%reimport_top. destruct (Hcf g mg Eg) as (_ & H1 & H2). constructor; try done. apply tr_create_ok.
Qed.

(** What was freed or allocated since the last group was synced is forgotten, and the rest
    is as it was. *)
Lemma reopen_ok s pl X B : pool_live s pl X -> 4 <= s < 2 ^ 63 -> in_use B pl ->
  exists pl' bad, vdev_load (reimport pl) = Ok (pl', bad) /\ spa_mos pl' = spa_mos pl /\ (bad = true -> exists e, unread (zlen (spa_tops pl)) (vdev_at pl) (spa_mos pl) e) /\
    (bad = false -> exists X', pool_live s pl' X' /\ forall g mg mg' k p p', top pl g = Some mg -> vdev_ms (mg_vd mg) !! k = Some p -> top pl' g = Some mg' -> vdev_ms (mg_vd mg') !! k = Some p' ->
      forall y, own (x_gh (X' g p')) y = if decide (own (x_gh (X g p)) y = OLog) then OLog else OFree).
Proof using All.
  intros Hl Hs Hu. pose proof (live_image s pl X B Hl Hs Hu) as Him. assert (Hcf : configured pl) by (intros g mg Hg; destruct (pi_class _ _ _ (proj1 (pv_ok _ _ _ Hl)) g mg Hg) as (mc & E & _), (proj1 Hu g mg Hg) as (_ & _ & _ & H1 & H2); split; [by exists mc|done]). pose proof (reimport_opening s pl B (smo_at pl) (logged_at pl X) Hcf) as Hop. set (N := zlen (spa_tops pl)) in *.
  assert (HV : forall g, 0 <= g < N -> 0 <= vdev_asize (vdev_at pl g) <= B) by (intros g Hg; destruct (top_some pl g Hg) as [mg Em]; unfold vdev_at; rewrite Em; destruct (proj1 Hu g mg Em) as ([_ _ Hz] & _ & Hb & _); lia). assert (EN : zlen (spa_tops (reimport pl)) = N) by (cbn; by rewrite length_map).
  destruct (vdev_load_ok s N B (vdev_at pl) (smo_at pl) (logged_at pl X) HV (proj2 Hu) (reimport pl) Him Hop EN) as (pl' & bad & E & Hop' & Em' & EN' & Hbad). exists pl', bad. split; [done|]. split; [done|]. split; [done|]. intros ->. rewrite <- Em' in Him || (change (spa_mos pl) with (spa_mos (reimport pl)) in Him; rewrite <- Em' in Him).
  exists (owners (logged_at pl X) pl'). split; [by apply (opened_live s N B (vdev_at pl) (smo_at pl) (logged_at pl X) HV (proj2 Hu) pl' Him)|]. intros g mg mg' k p p' Hg Hk Hg' Hk' y.
  assert (Hmd : made s (spa_mos pl') (smo_at pl g) (logged_at pl X g) mg') by (apply (op_done _ _ _ _ _ _ _ _ Hop'); [apply top_lt in Hg'; rewrite EN' in Hg'; lia|done|done]).
  rewrite (owners_at s N B (vdev_at pl) (smo_at pl) (logged_at pl X) HV (proj2 Hu) pl' (spa_mos pl') g mg' k p' Hg' Hmd Hk'). cbn. unfold logged_at, slab_at, vdev_at. rewrite Hg, Nat2Z.id. rewrite (nth_lookup_Some _ _ NULL _ Hk). case_bool_decide as Eb; [by rewrite decide_True|by rewrite decide_False].
Qed.
End image.
End MetaslabImage.

Import MetaslabImage.

Module MetaslabExample.

(** ** Objects in memory *)

Record store := Store { st_words : Z -> Z -> Z; st_objects : gset Z; st_bonus : Z -> space_map_obj }.

#[export] Existing Instance ex_kmem.
#[export] Existing Instance ex_kmem_laws.

#[export] Instance mem_dmu : Dmu store := {|
  dmu_read d o off size := (0, tab (Z.to_nat (size / 8)) (fun i => st_words d o (off / 8 + Z.of_nat i)));
  dmu_write d o off size buf := Store (fun o' i => if (o' =? o) && ((off / 8 <=? i) && (i <? off / 8 + size / 8)) then nth (Z.to_nat (i - off / 8)) buf 0 else st_words d o' i) (st_objects d) (st_bonus d);
  dmu_free_range d o off size := (0, Store (fun o' i => if o' =? o then 0 else st_words d o' i) (st_objects d) (st_bonus d)) |}.

#[export] Program Instance mem_dmu_laws : DmuLaws store := { dmu_word d o i := st_words d o i }.
Next Obligation. intros. cbn. by rewrite Z.eqb_refl. Qed.
Next Obligation. intros d o off size ws _ _ _ _ [= <-]. done. Qed.

#[export] Instance mem_objects : DmuObjects store := {|
  dmu_object_alloc d := let o := fresh ({[0]} ∪ st_objects d) in (o, Store (fun o' i => if o' =? o then 0 else st_words d o' i) ({[o]} ∪ st_objects d) (fun o' => if o' =? o then SpaceMapObj 0 0 0 else st_bonus d o'));
  dmu_object_free d o := Store (st_words d) (st_objects d ∖ {[o]}) (st_bonus d);
  dmu_bonus_hold d o := if decide (o ∈ st_objects d) then (0, st_bonus d o) else (ENOENT, SpaceMapObj 0 0 0);
  dmu_set_bonus d o smo := Store (st_words d) (st_objects d) (fun o' => if o' =? o then smo else st_bonus d o') |}.

#[export] Program Instance mem_object_laws : DmuObjectLaws store := { dmu_has d o := o ∈ st_objects d; dmu_bonus := st_bonus }.
Next Obligation.
  intros d o d' [= <- <-]. set (o := fresh _). assert (Hf : o ∉ ({[0]} ∪ st_objects d)) by apply is_fresh. split; [set_solver|]. split; [set_solver|]. split; [intros o'; cbn; set_solver|]. intros o' Hne. cbn. by rewrite (proj2 (Z.eqb_neq o' o) Hne).
Qed.
Next Obligation. intros. cbn. split; [done|]. split; [done|]. intros Hne i. by rewrite (proj2 (Z.eqb_neq o' o) Hne). Qed.
Next Obligation. intros d o Ho. eexists. split; [done|]. intros o'. cbn. split; [done|]. split; [done|]. intros Hne i. by rewrite (proj2 (Z.eqb_neq o' o) Hne). Qed.
Next Obligation. intros d o Ho. cbn. by rewrite decide_True. Qed.
Next Obligation. done. Qed.

#[export] Instance mem_env : SpaEnv := {| zfs_mg_alloc_failures := 0; lbolt := 0; spa_freeze_txg := 2 ^ 64 - 1; spa_writeable := true |}.

(** ** A pool *)

(** A disk of four metaslabs of 1 MiB, with the array of the objects of their logs. *)
Definition ex_vdev : top_vdev := TopVdev (2 ^ 22) 9 7 vdev_other_ops 0 [] (VdevStat 0 0 0 0) 1 20 [] 0 txg_list_create txg_list_create 0 false false false (SpaceMapObj 0 0 0).
Definition ex_store : store := Store (fun _ _ => 0) {[1]} (fun _ => SpaceMapObj 0 0 0).
Definition ex_new : pool Avl.avl_tree store := Pool ex_store [metaslab_class_create zfs_metaslab_ops] (VdevStat 0 0 0 0) [metaslab_group_create 0 ex_vdev] txg_list_create.

Definition ex_pool : pool Avl.avl_tree store := Eval vm_compute in match vdev_load ex_new with Ok (pl, false) => pl | _ => ex_new end.

Lemma ex_loads : vdev_load ex_new = Ok (ex_pool, false).
Proof. vm_compute. reflexivity. Qed.

Definition ex_none : Z -> Z -> Z -> bool := fun _ _ _ => false.
Definition ex_logs : Z -> Z -> space_map_obj := fun _ _ => SpaceMapObj 0 0 0.
Definition ex_owners : Z -> Z -> sx := owners ex_none ex_pool.

Lemma ex_image : image 4 ex_store 1 (vdev_at ex_new) ex_logs ex_none.
Proof.
  constructor; [lia|..].
  - intros g Hg. assert (g = 0) as -> by lia. repeat split; done.
  - intros g k Hg Hk. assert (g = 0) as -> by lia. assert (0 <= k < 4) by exact Hk. constructor; [by constructor| |done|done]. split; [by split|]. apply logged_nil. intros x. by intros [_ ?].
  - done.
  - intros g k g' Hg _ Hg'. assert (g' = 0) as -> by lia. done.
  - lia.
  - intros g Hg. assert (g = 0) as -> by lia. by split.
Qed.

Lemma ex_live : pool_live 4 ex_pool ex_owners.
Proof.
  assert (HB : forall g, 0 <= g < 1 -> 0 <= vdev_asize (vdev_at ex_new g) <= 2 ^ 22) by (intros g Hg; assert (g = 0) as -> by lia; done). assert (Hcf : configured ex_new).
  { intros g mg Hg. assert (g = 0) as -> by (apply top_lt in Hg; cbn in Hg; lia). injection Hg as <-. split; [by eexists|done]. }
  pose proof (reimport_opening 4 ex_new (2 ^ 22) ex_logs ex_none Hcf) as Hop. change (reimport ex_new) with ex_new in Hop. destruct (vdev_load_ok 4 1 (2 ^ 22) (vdev_at ex_new) ex_logs ex_none HB ltac:(done) ex_new ex_image Hop eq_refl) as (pl & bad & E & Hop' & Em & El & _). rewrite ex_loads in E. injection E as <- <-.
  apply (opened_live 4 1 (2 ^ 22) (vdev_at ex_new) ex_logs ex_none HB ltac:(done) ex_pool); [exact ex_image|exact Hop'|done].
Qed.
(** ** Calls *)

(** A block of 512 bytes, allocated in the group 4, synced, and the end of the group. *)
Definition ex_call : call := CAlloc 0 512 no_block 1 4 None 0.
Definition ex_result (m : res (Z * pool Avl.avl_tree store * (blkptr_t * Z))) : pool Avl.avl_tree store * (blkptr_t * Z) := match m with Ok (_, pl, out) => (pl, out) | _ => (ex_pool, (no_block, 1)) end.
Definition ex_returns (m : res (Z * pool Avl.avl_tree store * (blkptr_t * Z))) (s : Z) : bool := match m with Ok (s', _, (_, e)) => (s' =? s) && (e =? 0) | _ => false end.

Lemma ex_returns_ok m s : ex_returns m s = true -> m = Ok (s, (ex_result m).1, ((ex_result m).2.1, 0)).
Proof. destruct m as [[[s' pl] [bp e]]|]; [|done]. cbn. intros [->%Z.eqb_eq ->%Z.eqb_eq]%andb_true_iff. done. Qed.

Definition ex_pool1 : pool Avl.avl_tree store := (ex_result (perform 4 ex_pool ex_call)).1.
Definition ex_block : blkptr_t := (ex_result (perform 4 ex_pool ex_call)).2.1.
Definition ex_pool2 : pool Avl.avl_tree store := (ex_result (perform 4 ex_pool1 (CSync 1))).1.
Definition ex_pool3 : pool Avl.avl_tree store := (ex_result (perform 4 ex_pool2 CDone)).1.

Lemma ex_allocates : perform 4 ex_pool ex_call = Ok (4, ex_pool1, (ex_block, 0)).
Proof. unfold ex_pool1, ex_block. apply ex_returns_ok. vm_compute. reflexivity. Qed.

Lemma ex_syncs_ok : exists bp, perform 4 ex_pool1 (CSync 1) = Ok (4, ex_pool2, (bp, 0)).
Proof. eexists. unfold ex_pool2. apply ex_returns_ok. vm_compute. reflexivity. Qed.

Lemma ex_done_ok : exists bp, perform 4 ex_pool2 CDone = Ok (5, ex_pool3, (bp, 0)).
Proof. eexists. unfold ex_pool3. apply ex_returns_ok. vm_compute. reflexivity. Qed.
(** The vdev is as it was configured. *)
Definition ex_slabs : list Z := match spa_tops ex_pool with [mg] => vdev_ms (mg_vd mg) | _ => [] end.
Definition ex_fit (pl : pool Avl.avl_tree store) : bool :=
  match spa_tops pl, spa_classes pl with
  | [mg], [mc] => let vd := mg_vd mg in bool_decide (vdev_ms vd = ex_slabs) && (vdev_ms_shift vd =? 20) && (vdev_ashift vd =? 9) && (vdev_asize vd =? 2 ^ 22) && negb (vdev_ishole vd) && negb (vdev_removing vd) && match vdev_ops vd with vdev_raidz_ops => false | vdev_other_ops => true end &&
      bool_decide (map_Forall (fun _ msp => smo_objsize (ms_smo_syncing msp) <= 2 ^ 62) (mg_slabs mg))
  | _, _ => false
  end.

Lemma ex_fit_ok pl : ex_fit pl = true -> exists mg mc, spa_tops pl = [mg] /\ spa_classes pl = [mc] /\ vdev_ms (mg_vd mg) = ex_slabs /\ vdev_ms_shift (mg_vd mg) = 20 /\ vdev_ashift (mg_vd mg) = 9 /\ vdev_ops (mg_vd mg) = vdev_other_ops /\
  vdev_asize (mg_vd mg) = 2 ^ 22 /\ vdev_ishole (mg_vd mg) = false /\ vdev_removing (mg_vd mg) = false /\
  (forall p msp, mg_slabs mg !! p = Some msp -> smo_objsize (ms_smo_syncing msp) <= 2 ^ 62).
Proof.
  unfold ex_fit. destruct (spa_tops pl) as [|mg [|]]; try done. destruct (spa_classes pl) as [|mc [|]]; try done. cbv zeta. intros [[[[[[[H1%bool_decide_eq_true H2%Z.eqb_eq]%andb_true_iff H3%Z.eqb_eq]%andb_true_iff Ha%Z.eqb_eq]%andb_true_iff Hh%negb_true_iff]%andb_true_iff Hr%negb_true_iff]%andb_true_iff H4]%andb_true_iff H5%bool_decide_eq_true]%andb_true_iff.
  exists mg, mc. split_and!; try done. by destruct (vdev_ops (mg_vd mg)).
Qed.

Lemma ex_top (pl : pool Avl.avl_tree store) g mg m : spa_tops pl = [mg] -> top pl g = Some m -> g = 0 /\ m = mg.
Proof. intros E Hg. assert (g = 0) as -> by (apply top_lt in Hg; rewrite E in Hg; cbn in Hg; lia). unfold top in Hg. rewrite E in Hg. by injection Hg. Qed.

(** A block may be allocated in any of the next groups, and the dirty vdevs may be synced. *)
Lemma ex_may pl s X : ex_fit pl = true -> 4 <= s <= 6 -> allowed s pl X (CAlloc 0 512 no_block 1 s None 0) /\ log_room s pl.
Proof.
  intros (mg & mc & Et & Ec & _ & _ & Ea & Eo & _ & _ & _ & Hr)%ex_fit_ok Hs. split.
  - split; [exists mc; unfold get_mc; by rewrite Ec|]. split; [|split; [lia|split; [cbn; lia|split; [done|done]]]]. split; [|split; [done|by rewrite Et]]. intros g m Hg _. destruct (ex_top _ _ _ _ Et Hg) as [-> ->]. apply asize_fits; [|done]. split; [by rewrite Ea|by rewrite Eo].
  - intros g m p msp Hg Hp _. destruct (ex_top _ _ _ _ Et Hg) as [-> ->]. by apply (Hr p).
Qed.

Lemma ex_fits : ex_fit ex_pool = true /\ ex_fit ex_pool1 = true /\ ex_fit ex_pool2 = true /\ ex_fit ex_pool3 = true.
Proof. by vm_compute. Qed.

Lemma ex_in_use pl : ex_fit pl = true -> in_use (2 ^ 22) pl.
Proof.
  intros (mg & mc & Et & Ec & Em & Es & Ea & Eo & Ez & Eh & Er & _)%ex_fit_ok. split; [|by rewrite Et]. intros g m Hg. destruct (ex_top _ _ _ _ Et Hg) as [-> ->]. split; [constructor; [split; [by rewrite Ea|by rewrite Eo]|by rewrite Ea, Es|by rewrite Ez]|]. split; [unfold slab_count; by rewrite Em, Ez, Es|]. by rewrite Ez.
Qed.

(** The pool after it has been opened: its group is active, and its rotor is on it. *)
Lemma ex_active : exists mg mc, top ex_pool 0 = Some mg /\ mg_activation_count mg = 1 /\ get_mc ex_pool 0 = Ok mc /\ mc_rotor mc = Some 0.
Proof. eexists _, _. split; [reflexivity|]. split; [reflexivity|]. by split. Qed.

Lemma ex_search : exists mg p w, top ex_pool 0 = Some mg /\ group_search 0 mg [] 512 METASLAB_WEIGHT_PRIMARY 0 = Ok (Some (p, w)).
Proof. eexists _, _, _. split; [reflexivity|]. vm_compute. reflexivity. Qed.

(** Nothing is dirty when the group ends, and another block can be allocated. *)
Lemma ex_clean : chain (spa_vdev_txg_list ex_pool2) 4 = [].
Proof. by vm_compute. Qed.

Definition ex_call5 : call := CAlloc 0 512 no_block 1 5 None 0.
Definition ex_pool4 : pool Avl.avl_tree store := (ex_result (perform 5 ex_pool3 ex_call5)).1.
Definition ex_block5 : blkptr_t := (ex_result (perform 5 ex_pool3 ex_call5)).2.1.

Lemma ex_allocates5 : perform 5 ex_pool3 ex_call5 = Ok (5, ex_pool4, (ex_block5, 0)).
Proof. unfold ex_pool4, ex_block5. apply ex_returns_ok. vm_compute. reflexivity. Qed.

#[global] Opaque ex_pool ex_pool1 ex_block ex_pool2 ex_pool3 ex_pool4 ex_block5 ex_slabs.

(** The range of the block, and the owners after it has been allocated. *)
Lemma ex_block_range : exists r Y, Forall2 (dva_of ex_pool) (take 1 (blk_dva ex_block)) [r] /\ pool_live 4 ex_pool1 Y /\ 0 < r_size r /\
  forall y, inside (r_off r) (r_size r) y -> own (x_gh (Y (r_g r) (r_p r))) y = OAlloc 4 /\ dead (x_gh (Y (r_g r) (r_p r))) y = None.
Proof.
  destruct (alloc_one 4 ex_pool ex_owners 0 512 no_block 4 None 0 4 ex_pool1 ex_block ex_live (proj1 (ex_may ex_pool 4 _ (proj1 ex_fits) ltac:(lia))) ex_allocates) as (r & Y & H1 & H2 & H3 & H4). exists r, Y. split; [exact H1|]. split; [exact H2|]. split; [exact H3|].
  intros y Hy. destruct (H4 y Hy) as [E1 E2]. split; [exact E1|]. rewrite E2. unfold ex_owners, owners. by repeat case_match.
Qed.
(** The range is in the same metaslab of each of the pools. *)
Lemma ex_range_at pl r a : ex_fit pl = true -> dva_of ex_pool a r -> exists mg, top pl (r_g r) = Some mg /\ vdev_ms (mg_vd mg) !! r_k r = Some (r_p r) /\ forall y, inside (r_off r) (r_size r) y -> in_geo (slab_geo (mg_vd mg) (Z.of_nat (r_k r))) y.
Proof.
  intros (mg & mc & Et & _ & Em & Es & _)%ex_fit_ok (mg0 & [D1 D2 D3 D4 D5 D6]). destruct (ex_fit_ok _ (proj1 ex_fits)) as (m & _ & Et0 & _ & Em0 & Es0 & _). destruct (ex_top _ _ _ _ Et0 D2) as [Eg ->]. exists mg. rewrite Eg. split; [unfold top; by rewrite Et|]. split; [by rewrite Em, <- Em0|].
  intros y Hy. destruct D6 as (F1 & F2 & F3 & _). unfold in_geo. unfold slab_geo in *. cbn [g_lo g_size] in *. rewrite Es0 in F2, F3. rewrite Es. lia.
Qed.

(** The group in which the block was allocated is synced and ends. *)
Lemma ex_synced Y : pool_live 4 ex_pool1 Y -> pool_live 4 ex_pool2 (fun g p => x_sync 4 (Y g p)).
Proof. intros HY. destruct ex_syncs_ok as [bp E]. exact (sync_call 4 ex_pool1 Y 1 4 ex_pool2 (bp, 0) HY (proj2 (ex_may ex_pool1 4 Y (proj1 (proj2 ex_fits)) ltac:(lia))) E). Qed.

Lemma ex_ends X : allowed 4 ex_pool2 X CDone.
Proof. split; [exact ex_clean|lia]. Qed.

(** The calls that the examples make, of which each may be made. *)
Definition ex_calls : list call := [ex_call; CSync 1; CDone; ex_call5].

Lemma ex_obeys5 L : obeys 4 ex_pool2 L [CDone; ex_call5].
Proof.
  destruct ex_done_ok as [bp E]. apply (obeys_call 4 ex_pool2 L CDone [ex_call5] 5 ex_pool3 (bp, 0) (conj (ex_ends ex_owners) Logic.I) E). apply (obeys_call 5 ex_pool3 L ex_call5 [] 5 ex_pool4 (ex_block5, 0)); [|exact ex_allocates5|exact Logic.I].
  exact (conj (proj1 (ex_may ex_pool3 5 ex_owners (proj2 (proj2 (proj2 ex_fits))) ltac:(lia))) Logic.I).
Qed.

Lemma ex_obeys : obeys 4 ex_pool [] ex_calls.
Proof.
  destruct ex_syncs_ok as [bp E]. apply (obeys_call 4 ex_pool [] ex_call _ 4 ex_pool1 (ex_block, 0)); [exact (conj (proj1 (ex_may ex_pool 4 ex_owners (proj1 ex_fits) ltac:(lia))) Logic.I)|exact ex_allocates|].
  apply (obeys_call 4 ex_pool1 _ (CSync 1) _ 4 ex_pool2 (bp, 0)); [exact (conj (proj2 (ex_may ex_pool1 4 ex_owners (proj1 (proj2 ex_fits)) ltac:(lia))) Logic.I)|exact E|]. apply ex_obeys5.
Qed.

(** The block is in the log when its group ends. *)
Lemma ex_logged : exists Y a y, pool_live 4 ex_pool1 Y /\ blk_dva ex_block !! 0%nat = Some a /\ logged ex_pool2 (fun g p => x_sync 4 (Y g p)) (DVA_GET_VDEV a) y.
Proof.
  destruct ex_block_range as (r & Y & Hr & HY & Hsz & Ho). destruct (Forall2_head _ _ _ Hr) as (a & Ha & Hd). destruct (ex_range_at ex_pool2 r a (proj1 (proj2 (proj2 ex_fits))) Hd) as (mg & Hg & Hk & Hy). exists Y, a, (r_off r). split; [exact HY|]. split; [exact Ha|]. exists mg, (r_k r), (r_p r).
  rewrite (dva_vdev _ _ _ Hd). split; [exact Hg|]. split; [exact Hk|]. split; [exact (Hy (r_off r) ltac:(lia))|]. destruct (Ho (r_off r) ltac:(lia)) as [E1 E2]. cbn. by rewrite E1, E2, decide_True, decide_False.
Qed.
End MetaslabExample.
