(* ===== verification/MetaslabTheorems.v ===== *)
(** The correctness of space allocation in a pool: what its callers, and a pool that is
    opened again, can rely on. *)

From S2P Require Import Prelude Avl AvlSpec OrdTree SpaceMap SpaceSet SpaceMapOk SpaceMapWalk SpaceMapRanges SpaceMapSpec SpaceLog SpaceSync SpaceLoad SpaceLogSpec MetaslabInv Metaslab MetaslabOk MetaslabSpec TxgList MetaslabSync MetaslabCycle RaidzMap Blkptr MetaslabGroup MetaslabTree MetaslabPool MetaslabBlock MetaslabPass MetaslabFinish MetaslabRotor MetaslabCircle MetaslabSystem MetaslabLedger MetaslabOpen MetaslabImage.
Import RaidzMap SpaceMap SpaceSet SpaceMapOk SpaceMapCut SpaceMapWalk SpaceMapRanges SpaceMapSpec SpaceLog SpaceEntry SpaceSync SpaceLoad SpaceLogSpec SpaceFrame Metaslab MetaslabPick MetaslabOk MetaslabSpec TxgList MetaslabSync MetaslabSlab MetaslabInv MetaslabWrite MetaslabTurn MetaslabTake Blkptr MetaslabGroup MetaslabTree MetaslabPool MetaslabState MetaslabUse MetaslabPlace MetaslabBlock MetaslabRound MetaslabPass MetaslabDone MetaslabFinish MetaslabRing MetaslabRotor MetaslabChoose MetaslabCircle MetaslabAlloc MetaslabSystem MetaslabLedger MetaslabOpen MetaslabImage MetaslabExample.
Open Scope Z_scope.

Module MetaslabTheorems.

Section theorems.
Context {T I D : Type} {HT : Tree T I} {HK : Kmem} {HD : Dmu D} {HB : DmuObjects D} {HE : SpaEnv} {HTL : TreeLaws T I} {HKL : KmemLaws} {HDL : DmuLaws D} {HBL : DmuObjectLaws D}.
Implicit Types (pl : pool T D) (mg : metaslab_group T) (msp : metaslab T) (X Y : Z -> Z -> sx).

(** C2: every call of the allocator that its callers may make returns, panics nowhere, does
    what the specification of the call says to the owners of the bytes of the pool, and
    leaves the pool in order: [metaslab_alloc], [metaslab_free], [metaslab_claim],
    [metaslab_group_activate] and [metaslab_group_passivate], the passes that sync the dirty
    metaslabs, and the end of a transaction group refine the specification. *)
Theorem pool_refines s pl X e : pool_live s pl X -> allowed s pl X e ->
  exists s' pl' out Y, perform s pl e = Ok (s', pl', out) /\ spec pl s X e out s' Y /\ pool_live s' pl' Y.
Proof using All. apply call_ok. Qed.

(** C3: no space is allocated twice. The callers keep a ledger of the addresses that the
    calls returned or claimed and that they have not freed, and free only addresses of it.
    Then every sequence of calls runs to its end, the addresses of the ledger stand for
    ranges of the vdevs, and no two of them share a byte. *)
Theorem no_double_allocation s pl X L es : pool_live s pl X -> leases pl X L -> obeys s pl L es ->
  exists s1 pl1 L1, execute s pl L es = Ok (s1, pl1, L1) /\ apart pl1 L1 /\ forall a, a ∈ L1.*1 -> exists r, dva_of pl1 a r.
Proof using All.
  intros Hl HL Hob. destruct (execute_runs es s pl X L Hl HL Hob) as (s1 & pl1 & L1 & X1 & E & _ & H1 & _). exists s1, pl1, L1. split; [done|]. by eapply leases_apart.
Qed.

(** C4: what a transaction group leaves on disk stays there while a pool may have to go
    back to it. The group [s] ends, and any calls that the callers may make follow, in which
    two more groups may end. Then no byte that was in the log of its metaslab when the
    group [s] ended is in a block that [metaslab_alloc] returns, whatever was freed,
    allocated, claimed and synced in between. *)
Theorem no_early_reuse s pl X L es c psize bp ndvas t hint flags : pool_live s pl X -> leases pl X L -> obeys s pl L (CDone :: es ++ [CAlloc c psize bp ndvas t hint flags]) -> ends es <= 2 ->
  exists s1 pl1 L1 s2 pl2 bp' err, execute s pl L (CDone :: es) = Ok (s1, pl1, L1) /\ perform s1 pl1 (CAlloc c psize bp ndvas t hint flags) = Ok (s2, pl2, (bp', err)) /\
    (err = 0 -> forall a v y, a ∈ take (Z.to_nat ndvas) (blk_dva bp') -> covers pl1 a v y -> ~ logged pl X v y).
Proof using All.
  intros Hl HL Hob He. destruct (execute_runs (CDone :: es) s pl X L Hl HL (obeys_prefix (CDone :: es) _ _ _ _ Hob)) as (s1 & pl1 & L1 & X1 & E & Hr & HL1 & Hk). pose proof (run_live _ _ _ _ _ _ _ Hr Hl) as Hl1. pose proof (run_ends _ _ _ _ _ _ _ Hr) as Hs. cbn [ends] in Hs. pose proof (ends_nonneg es).
  destruct (call_ok s1 pl1 X1 _ Hl1 (may_allowed _ _ _ _ _ HL1 (proj2 (obeys_snoc (CDone :: es) _ _ _ _ _ _ _ Hob E)))) as (s2 & pl2 & [bp' err] & Y & E2 & Hsp & _). exists s1, pl1, L1, s2, pl2, bp', err. split; [exact E|]. split; [exact E2|]. intros -> a v y Ha Hcov.
  inversion Hsp as [? ? ? ? ? ? ? ? rs ? Hp En Hd _| | | | | | |]; subst. rewrite Nat2Z.id in Ha. eapply (logged_kept s (s + (1 + ends es)) pl1 pl X X1); [done|done|lia| |exact Hp|exact Hd|exact Ha|exact Hcov].
  intros p Hlog. inversion Hr as [|? ? ? ? ? s' pl' o' X' ? ? ? _ Hsd _ Hr']; subst. inversion Hsd; subst. eapply run_tree; [exact Hr'|lia|lia|]. by replace (s + 1 - s) with 1 by lia.
Qed.

(** C5: a pool that is opened again has the space it had when its last group was synced.
    [vdev_load] on the disk of a pool at work, with new in-core structures, reports that a
    vdev cannot be opened only if the array of the objects of its metaslabs cannot be
    read; else the pool is at work again, what the logs had is allocated, and everything
    else is free. *)
Theorem pool_reopens s pl X B : pool_live s pl X -> 4 <= s < 2 ^ 63 -> in_use B pl ->
  exists pl' bad, vdev_load (reimport pl) = Ok (pl', bad) /\ spa_mos pl' = spa_mos pl /\ (bad = true -> exists e, unread (zlen (spa_tops pl)) (vdev_at pl) (spa_mos pl) e) /\
    (bad = false -> exists X', pool_live s pl' X' /\ forall g mg mg' k p p', top pl g = Some mg -> vdev_ms (mg_vd mg) !! k = Some p -> top pl' g = Some mg' -> vdev_ms (mg_vd mg') !! k = Some p' ->
      forall y, own (x_gh (X' g p')) y = if decide (own (x_gh (X g p)) y = OLog) then OLog else OFree).
Proof using All. apply reopen_ok. Qed.

(** C34: a transaction group ends. The first pass over the dirty vdevs writes the changes
    of all of their metaslabs, which leaves no vdev dirty, and [vdev_sync_done] then takes
    the pool to the next group, where what the group allocated is in the logs and what was
    freed two groups ago is free. *)
Theorem txg_ends s pl X pass : pool_live s pl X -> log_room s pl -> s + 1 < 2 ^ 63 ->
  exists pl1 pl2, spa_sync_vdevs pl pass s = Ok pl1 /\ spa_sync_vdevs_done pl1 s = Ok pl2 /\ pool_live (s + 1) pl2 (fun g p => x_turn s (x_sync s (X g p))) /\
    forall g p y, (own (x_gh (X g p)) y = OAlloc s -> dead (x_gh (X g p)) y = None -> own (x_gh (x_turn s (x_sync s (X g p)))) y = OLog) /\ (own (x_gh (X g p)) y = ODefer (s mod 2) -> own (x_gh (x_turn s (x_sync s (X g p)))) y = OFree).
Proof using All.
  intros Hl Hr Hs. destruct (spa_sync_vdevs_ok s pass pl X (pv_ok _ _ _ Hl) Hr) as (pl1 & E1 & Hok & Hc & Hf). pose proof (sync_live _ _ _ _ _ Hl Hf Hok) as Hl1. destruct (spa_sync_vdevs_done_ok s pl1 _ Hok Hc Hs) as (pl2 & E2 & Hok2 & Hf2). exists pl1, pl2. split; [done|]. split; [done|]. split; [by eapply done_live|].
  intros g p y. cbn. split; [intros -> ->; by rewrite decide_True|intros ->; by rewrite decide_True].
Qed.

(** C35: the groups with a positive activation count are on one circle per class, on which
    the rotor is; activating a group puts it on the circle and passivating it takes it off,
    the last one included. *)
Theorem rotor_circle pl g mg : rings pl -> top pl g = Some mg ->
  (mg_activation_count mg <= 0 -> exists pl', metaslab_group_activate pl g = Ok pl' /\ rings pl' /\ pool_but pl pl' /\ forall x, countof pl' x = if decide (x = g) then Some (mg_activation_count mg + 1) else countof pl x) /\
  (- 2 ^ 63 + 1 < mg_activation_count mg -> exists pl', metaslab_group_passivate pl g = Ok pl' /\ rings pl' /\ pool_but pl pl' /\ forall x, countof pl' x = if decide (x = g) then Some (mg_activation_count mg - 1) else countof pl x).
Proof using All. intros Hr Hg. split; intros Hc; [by apply activate_ring|by apply passivate_ring]. Qed.

(** C39: the bonus of [metaslab_weight] for metaslabs within the bonus area has no effect: the
    percentage is divided by 100 as an integer, so that the weight is multiplied by 1. *)
Theorem bonus_without_effect mg msp a : metaslab_weight (with_bonus_area mg a) msp = metaslab_weight mg msp.
Proof.
  unfold metaslab_weight. cbn [mg_vd with_bonus_area mg_bonus_area]. change (metaslab_smo_bonus_pct / 100) with 1. rewrite Z.mul_1_r, Zmod_mod. destruct (verify _); [|done]. cbn [mbind res_bind]. by do 2 destruct (_ <=? _).
Qed.

(** C40: the search for a metaslab never reports that the metaslab was active: the bits of
    the weight that say so are lost when they are stored in a [boolean_t], and the check
    that another thread has passivated the metaslab meanwhile is never made. *)
Theorem was_active_never_set id mg dva asize activation_weight min_distance p was_active : group_search id mg dva asize activation_weight min_distance = Ok (Some (p, was_active)) -> was_active = 0.
Proof.
  unfold group_search. intros H. binv H. refine (loop_keeps (fun _ => True) (fun r => match r with Some (_, w) => w = 0 | None => True end) _ _ _ _ _ Logic.I H). intros q x _ Hx.
  destruct (q =? NULL); [by injection Hx as <-|]. binv Hx. destruct (ms_weight _ <? asize); [by injection Hx as <-|]. cbv zeta in Hx. rewrite was_active_lost in Hx. destruct (_ || _); [by injection Hx as <-|]. binv Hx. by injection Hx as <-.
Qed.
End theorems.
(** ** Concrete pools *)

Lemma pool_refines_witness : exists s' pl' out Y, perform 4 ex_pool ex_call = Ok (s', pl', out) /\ spec ex_pool 4 ex_owners ex_call out s' Y /\ pool_live s' pl' Y.
Proof. exact (pool_refines 4 ex_pool ex_owners ex_call ex_live (proj1 (ex_may ex_pool 4 ex_owners (proj1 ex_fits) ltac:(lia)))). Defined.

Lemma no_double_allocation_witness : obeys 4 ex_pool [] ex_calls /\ exists s1 pl1 L1, execute 4 ex_pool [] ex_calls = Ok (s1, pl1, L1) /\ apart pl1 L1 /\ forall a, a ∈ L1.*1 -> exists r, dva_of pl1 a r.
Proof. split; [exact ex_obeys|]. exact (no_double_allocation 4 ex_pool ex_owners [] ex_calls ex_live (leases_nil ex_pool ex_owners) ex_obeys). Defined.

Lemma no_early_reuse_witness : exists X a y, pool_live 4 ex_pool2 X /\ blk_dva ex_block !! 0%nat = Some a /\ logged ex_pool2 X (DVA_GET_VDEV a) y /\ exists s1 pl1 L1 s2 pl2 bp' err, execute 4 ex_pool2 [] [CDone] = Ok (s1, pl1, L1) /\ perform s1 pl1 ex_call5 = Ok (s2, pl2, (bp', err)) /\
  (err = 0 -> forall a v y, a ∈ take 1 (blk_dva bp') -> covers pl1 a v y -> ~ logged ex_pool2 X v y).
Proof.
  destruct ex_logged as (Y & a & y & HY & Ha & Hy). exists (fun g p => x_sync 4 (Y g p)), a, y. split; [exact (ex_synced Y HY)|]. split; [exact Ha|]. split; [exact Hy|].
  exact (no_early_reuse 4 ex_pool2 (fun g p => x_sync 4 (Y g p)) [] [] 0 512 no_block 1 5 None 0 (ex_synced Y HY) (leases_nil _ _) (ex_obeys5 []) ltac:(cbn; lia)).
Defined.

Lemma pool_reopens_witness : exists X pl' bad, pool_live 4 ex_pool2 X /\ vdev_load (reimport ex_pool2) = Ok (pl', bad) /\ (bad = false -> exists X', pool_live 4 pl' X').
Proof.
  destruct ex_block_range as (r & Y & _ & HY & _). destruct (pool_reopens 4 ex_pool2 (fun g p => x_sync 4 (Y g p)) (2 ^ 22) (ex_synced Y HY) ltac:(lia) (ex_in_use ex_pool2 (proj1 (proj2 (proj2 ex_fits))))) as (pl' & bad & E & _ & _ & H). exists (fun g p => x_sync 4 (Y g p)), pl', bad. split; [exact (ex_synced Y HY)|]. split; [exact E|]. intros Hb. destruct (H Hb) as (X' & HX' & _). exists X'. exact HX'.
Defined.

Lemma txg_ends_witness : exists Y pl1 pl2, pool_live 4 ex_pool1 Y /\ spa_sync_vdevs ex_pool1 1 4 = Ok pl1 /\ spa_sync_vdevs_done pl1 4 = Ok pl2 /\ pool_live 5 pl2 (fun g p => x_turn 4 (x_sync 4 (Y g p))).
Proof.
  destruct ex_block_range as (r & Y & _ & HY & _). destruct (txg_ends 4 ex_pool1 Y 1 HY (proj2 (ex_may ex_pool1 4 Y (proj1 (proj2 ex_fits)) ltac:(lia))) ltac:(lia)) as (pl1 & pl2 & H1 & H2 & H3 & _). exists Y, pl1, pl2. split; [exact HY|]. split; [exact H1|]. split; [exact H2|exact H3].
Defined.

Lemma rotor_circle_witness : exists pl', metaslab_group_passivate ex_pool 0 = Ok pl' /\ rings pl' /\ countof pl' 0 = Some 0.
Proof.
  destruct ex_active as (mg & mc & Hg & Hct & _). destruct (proj2 (rotor_circle ex_pool 0 mg (pv_rings _ _ _ ex_live) Hg) ltac:(lia)) as (pl' & H1 & H2 & _ & H4). exists pl'. split; [exact H1|]. split; [exact H2|]. rewrite H4, Hct. reflexivity.
Defined.

Lemma was_active_never_set_witness : exists mg p w, top ex_pool 0 = Some mg /\ group_search 0 mg [] 512 METASLAB_WEIGHT_PRIMARY 0 = Ok (Some (p, w)) /\ w = 0.
Proof. destruct ex_search as (mg & p & w & H1 & H2). exists mg, p, w. split; [exact H1|]. split; [exact H2|]. exact (was_active_never_set 0 mg [] 512 METASLAB_WEIGHT_PRIMARY 0 p w H2). Defined.
End MetaslabTheorems.
