(* ===== verification/VdevDtl.v ===== *)
(** Dirty time logs (module/zfs/vdev.c): for each vdev, the sets of transaction groups
    that it is missing, has only in part, could not scrub and cannot read now. *)

From S2P Require Import Prelude OrdTree SpaceMap SpaceRef SpaceLog.
Import SpaceMap SpaceRef SpaceLog.
Open Scope Z_scope.

Module VdevDtl.

Definition VDEV_STATE_DEGRADED : Z := 6.

(** ** Vdevs *)

(** The fields of a vdev that matter here.  [vi_root] is [vd == spa->spa_root_vdev],
    [vi_leaf] is [vdev_ops->vdev_op_leaf], [vi_missing_ops] is
    [vdev_ops == &vdev_missing_ops], [vi_aux] is [vdev_aux != NULL]. *)
Record vdev_info := VdevInfo {
  vi_guid : Z; vi_root : bool; vi_leaf : bool; vi_missing_ops : bool; vi_ishole : bool; vi_aux : bool;
  vi_nparity : Z; vi_state : Z; vi_cant_read : bool; vi_cant_write : bool }.

(** [vdev_dtl[DTL_TYPES]], with a name for each type. *)
Record vdev_dtl (M : Type) := VdevDtl { DTL_MISSING : M; DTL_PARTIAL : M; DTL_SCRUB : M; DTL_OUTAGE : M }.
Arguments VdevDtl {M}.
Arguments DTL_MISSING {M}.
Arguments DTL_PARTIAL {M}.
Arguments DTL_SCRUB {M}.
Arguments DTL_OUTAGE {M}.

#[warnings="-register-all"]
Inductive vdev (M : Type) := Vdev (i : vdev_info) (d : vdev_dtl M) (child : list (vdev M)).
Arguments Vdev {M}.

Definition vd_info {M} (vd : vdev M) : vdev_info := let '(Vdev i _ _) := vd in i.
Definition vd_dtl {M} (vd : vdev M) : vdev_dtl M := let '(Vdev _ d _) := vd in d.
Definition vd_child {M} (vd : vdev M) : list (vdev M) := let '(Vdev _ _ ch) := vd in ch.

Definition vdev_is_dead (i : vdev_info) : bool := (vi_state i <? VDEV_STATE_DEGRADED) || vi_ishole i || vi_missing_ops i.
Definition vdev_readable (i : vdev_info) : bool := negb (vdev_is_dead i) && negb (vi_cant_read i).
Definition vdev_writeable (i : vdev_info) : bool := negb (vdev_is_dead i) && negb (vi_cant_write i).

(** What the pool says of the last scrub: [spa_scrub_started], and the errors of the
    scan if there is one. *)
Record scrub_state := ScrubState { spa_scrub_started : bool; scn_errors : option Z }.

Definition scrub_valid (sc : scrub_state) : bool := spa_scrub_started sc || match scn_errors sc with Some n => n =? 0 | None => false end.

Section dtl.
Context {T I O : Type} {HT : Tree T I} {HK : Kmem}.
Abbreviation M := (space_map T O).
Implicit Types (sm : M) (vd : vdev M).

(** [vdev_alloc_common]: empty logs. *)
Definition dtl_create : vdev_dtl M := let sm := space_map_create 0 (2 ^ 64 - 1) 0 in VdevDtl sm sm sm sm.

(** ** One log *)

Definition vdev_dtl_dirty sm (txg size : Z) : res M :=
  b ← space_map_contains sm txg size;
  if negb b then space_map_add sm txg size else Ok sm.

Definition vdev_dtl_contains sm (txg size : Z) : res bool :=
  if negb (sm_space sm =? 0) then space_map_contains sm txg size else Ok false.

Definition vdev_dtl_empty sm : bool := sm_space sm =? 0.

(** [space_map_vacate(sm, NULL, NULL)]. *)
Definition vacate sm : res M := '(sm, _) ← space_map_vacate sm None tt; Ok sm.

(** ** Reassessment *)

(** Excise the scrubbed range from [DTL_MISSING], and fold in [DTL_SCRUB]. *)
Definition fold_scrub (d : vdev_dtl M) (scrub_txg : Z) : res (vdev_dtl M) :=
  t ← space_map_ref_add_map space_map_ref_create (DTL_MISSING d) 1;
  t ← space_map_ref_add_seg t 0 scrub_txg (-1);
  t ← space_map_ref_add_map t (DTL_SCRUB d) 2;
  missing ← space_map_ref_generate_map t (DTL_MISSING d) 1;
  _ ← space_map_ref_destroy t;
  Ok (VdevDtl missing (DTL_PARTIAL d) (DTL_SCRUB d) (DTL_OUTAGE d)).

Definition reassess_leaf (sc : scrub_state) (i : vdev_info) (d : vdev_dtl M) (scrub_txg : Z) (scrub_done : bool) : res (vdev_dtl M) :=
  d ← (if negb (scrub_txg =? 0) && scrub_valid sc then fold_scrub d scrub_txg else Ok d);
  partial ← vacate (DTL_PARTIAL d);
  partial ← space_map_walk (DTL_MISSING d) space_map_add partial;
  scrub ← (if scrub_done then vacate (DTL_SCRUB d) else Ok (DTL_SCRUB d));
  outage ← vacate (DTL_OUTAGE d);
  outage ← (if negb (vdev_readable i) then space_map_add outage 0 (2 ^ 64 - 1) else space_map_walk (DTL_MISSING d) space_map_add outage);
  Ok (VdevDtl (DTL_MISSING d) partial scrub outage).

(** One of the logs of a vdev from the logs [maps] of its children. *)
Definition reassess_from (maps : list M) sm (minref : Z) : res M :=
  t ← each (fun cm t => space_map_ref_add_map t cm 1) maps space_map_ref_create;
  sm ← space_map_ref_generate_map t sm minref;
  _ ← space_map_ref_destroy t;
  Ok sm.

Definition reassess_interior (i : vdev_info) (d : vdev_dtl M) (ch : list (vdev M)) : res (vdev_dtl M) :=
  let minref := if negb (vi_nparity i =? 0) then vi_nparity i + 1 else Z.of_nat (length ch) in
  missing ← reassess_from ((fun c => DTL_OUTAGE (vd_dtl c)) <$> ch) (DTL_MISSING d) minref;
  partial ← reassess_from ((fun c => DTL_PARTIAL (vd_dtl c)) <$> ch) (DTL_PARTIAL d) 1;
  outage ← reassess_from ((fun c => DTL_OUTAGE (vd_dtl c)) <$> ch) (DTL_OUTAGE d) minref;
  Ok (VdevDtl missing partial (DTL_SCRUB d) outage).

(** The vdev, and the guids of the leaves whose logs [vdev_dirty] puts on the list of
    the transaction group. *)
Fixpoint vdev_dtl_reassess (sc : scrub_state) vd (txg scrub_txg : Z) (scrub_done : bool) : res (vdev M * list Z) :=
  let '(Vdev i d ch) := vd in
  '(ch, dirty) ← (fix children (ch : list (vdev M)) : res (list (vdev M) * list Z) :=
      match ch with
      | [] => Ok ([], [])
      | c :: ch => '(c, g1) ← vdev_dtl_reassess sc c txg scrub_txg scrub_done; '(ch, g2) ← children ch; Ok (c :: ch, g1 ++ g2)
      end) ch;
  if vi_root i || vi_ishole i || vi_aux i then Ok (Vdev i d ch, dirty)
  else if vi_leaf i then
    d ← reassess_leaf sc i d scrub_txg scrub_done;
    Ok (Vdev i d ch, dirty ++ if negb (txg =? 0) then [vi_guid i] else [])
  else d ← reassess_interior i d ch; Ok (Vdev i d ch, dirty).

(** ** Queries *)

(** [vd->vdev_cant_read = b] for the vdev with a given guid. *)
Fixpoint set_cant_read (guid : Z) (b : bool) vd : vdev M :=
  let '(Vdev i d ch) := vd in
  let i := if vi_guid i =? guid then VdevInfo (vi_guid i) (vi_root i) (vi_leaf i) (vi_missing_ops i) (vi_ishole i) (vi_aux i) (vi_nparity i) (vi_state i) b (vi_cant_write i) else i in
  Vdev i d (set_cant_read guid b <$> ch).

(** For the vdev with guid [guid], whose [vdev_cant_read] is [cant_read], below the
    top-level vdev [tvd]; [injected] is what fault injection says of it, if it is
    enabled. *)
Definition vdev_dtl_required (sc : scrub_state) (tvd : vdev M) (guid : Z) (is_root cant_read : bool) (injected : option bool) : res (vdev M * bool) :=
  if is_root || (guid =? vi_guid (vd_info tvd)) then Ok (tvd, true)
  else
    '(tvd, _) ← vdev_dtl_reassess sc (set_cant_read guid true tvd) 0 0 false;
    let required := negb (vdev_dtl_empty (DTL_OUTAGE (vd_dtl tvd))) in
    '(tvd, _) ← vdev_dtl_reassess sc (set_cant_read guid cant_read tvd) 0 0 false;
    Ok (tvd, if negb required then match injected with Some b => b | None => required end else required).

(** The range [(thismin, thismax)] of transaction groups, if a resilver is needed. *)
Fixpoint vdev_resilver_needed vd : res (bool * Z * Z) :=
  let '(Vdev i d ch) := vd in
  match ch with
  | [] =>
      let sm := DTL_MISSING d in
      if negb (sm_space sm =? 0) && vdev_writeable i then
        p ← tr_first (sm_root sm); s ← seg sm p;
        q ← tr_last (sm_root sm); s' ← seg sm q;
        Ok (true, u64 (ss_start s - 1), ss_end s')
      else Ok (false, 2 ^ 64 - 1, 0)
  | _ :: _ =>
      (fix children (ch : list (vdev M)) (needed : bool) (thismin thismax : Z) : res (bool * Z * Z) :=
        match ch with
        | [] => Ok (needed, thismin, thismax)
        | c :: ch =>
            '(b, cmin, cmax) ← vdev_resilver_needed c;
            if (b : bool) then children ch true (Z.min thismin cmin) (Z.max thismax cmax) else children ch needed thismin thismax
        end) ch false (2 ^ 64 - 1) 0
  end.
End dtl.
End VdevDtl.
