(* ===== verification/VdevDtlOk.v ===== *)
(** What the reassessment of the dirty time logs computes. *)

From S2P Require Import Prelude Avl AvlSpec OrdTree SpaceMap SpaceSet SpaceMapOk SpaceMapWalk SpaceMapRanges SpaceMapSpec SpaceRef SpaceRefOk VdevDtl.
Import SpaceMap SpaceSet SpaceMapOk SpaceMapCut SpaceMapWalk SpaceMapRanges SpaceMapSpec SpaceRef SpaceRefOk VdevDtl.
Open Scope Z_scope.

Module VdevDtlOk.

(** ** Sets of transaction groups *)

(** A transaction group that is not reached; from there on, a log has all or nothing. *)
Definition horizon : Z := 2 ^ 40.
Definition flat (S : Z -> Prop) : Prop := forall x y, horizon <= x < 2 ^ 64 - 1 -> horizon <= y < 2 ^ 64 - 1 -> S x <-> S y.

(** [n] of the sets contain [x]. *)
Inductive counts : list (Z -> Prop) -> Z -> Z -> Prop :=
  | counts_nil x : counts [] x 0
  | counts_in (S : Z -> Prop) Ss x n : S x -> counts Ss x n -> counts (S :: Ss) x (n + 1)
  | counts_out (S : Z -> Prop) Ss x n : ~ S x -> counts Ss x n -> counts (S :: Ss) x n.

(** At least [k] of the sets contain [x]. *)
Definition at_least (k : Z) (Ss : list (Z -> Prop)) (x : Z) : Prop := exists n, counts Ss x n /\ k <= n.

Lemma counts_unique Ss x n m : counts Ss x n -> counts Ss x m -> n = m.
Proof. intros H. revert m. induction H as [x|S Ss x n Hx _ IH|S Ss x n Hx _ IH]; intros m Hm; inversion Hm; subst; try done; [f_equal|]; auto. Qed.

Lemma counts_iff Ss x y n : Forall (fun S : Z -> Prop => S x <-> S y) Ss -> counts Ss x n -> counts Ss y n.
Proof. intros HF H. revert HF. induction H as [x|S Ss x n Hx _ IH|S Ss x n Hx _ IH]; intros HF; [constructor|..]; apply Forall_cons in HF as [H1 H2]; constructor; tauto || auto. Qed.

Lemma counts_nonneg Ss x n : counts Ss x n -> 0 <= n.
Proof. induction 1; lia. Qed.

(** Some set contains [x]. *)
Lemma at_least_1 Ss x : at_least 1 Ss x -> Exists (fun S : Z -> Prop => S x) Ss.
Proof. intros (n & H & Hn). induction H as [x|S Ss x n Hx _ IH|S Ss x n Hx _ IH]; [lia|by left|right; auto]. Qed.

(** No set is short of [x]. *)
Lemma counts_all Ss x n : counts Ss x n -> Z.of_nat (length Ss) <= n -> Forall (fun S : Z -> Prop => S x) Ss.
Proof.
  intros H. assert (Hle : n <= Z.of_nat (length Ss)) by (induction H; cbn; lia). revert Hle. induction H as [x|S Ss x n Hx Hc IH|S Ss x n Hx Hc IH]; intros H1 H2; cbn in *; [constructor|constructor; [done|]; apply IH; lia|].
  assert (n <= Z.of_nat (length Ss)) by (clear -Hc; induction Hc; cbn; lia). lia.
Qed.

Section ok.
Context {T I O : Type} {HT : Tree T I} {HK : Kmem} {HTL : TreeLaws T I} {HKL : KmemLaws}.
Implicit Types (sm : space_map T O).

(** ** Logs *)

Record dtl_map sm : Prop := {
  dm_ok : exists l, sm_ok sm l;
  dm_geom : sm_start sm = 0 /\ sm_size sm = 2 ^ 64 - 1 /\ sm_shift sm = 0;
  dm_pp : sm_pp_root sm = None;
  dm_flat : flat (space sm) }.

Lemma space_dec sm l x : sm_ok sm l -> space sm x \/ ~ space sm x.
Proof using All.
  intros Hok. rewrite (space_covers sm l) by apply Hok. unfold covers. generalize (looks (sm_segs sm) l). intros ss. induction ss as [|s ss [IH|IH]]; [right; intros (s & Hs & _); set_solver|left; destruct IH as (y & Hy & Hx); exists y; split; [set_solver|done]|].
  destruct (decide (within s x)) as [Hx|Hx]; [left; exists s; split; [set_solver|done]|right]. intros (y & [->|Hy]%elem_of_cons & Hyx); [done|]. apply IH. by exists y.
Qed.

(** A log has few segments. *)
Lemma few_segs sm l : dtl_map sm -> sm_ok sm l -> 2 * zlen l <= 2 ^ 40 + 3.
Proof using All.
  intros [_ (G1 & G2 & G3) _ Hfl] Hok. pose proof (ok_canon _ _ Hok) as Hc. rewrite G1, G2, G3 in Hc. assert (El : zlen l = zlen (looks (sm_segs sm) l)) by (unfold looks; by rewrite length_fmap). rewrite El. clear El.
  assert (Hx : forall x, space sm x <-> covers (looks (sm_segs sm) l) x) by (intros x; apply space_covers, Hok). revert Hc Hx. generalize (looks (sm_segs sm) l). intros ss Hc Hx.
  destruct ss as [|last ss _] using rev_ind; [cbn; lia|]. apply canon_app in Hc as (Hc1 & Hc2 & Hlt). apply canon_cons in Hc2 as ((P1 & P2 & P3 & _) & _).
  assert (Hini : canon 0 horizon (2 ^ 0) ss).
  { split; [apply Hc1|]. apply Forall_forall. intros s Hs. destruct (canon_proper _ _ _ _ _ Hc1 Hs) as (Q1 & Q2 & Q3 & Q4 & Q5). split_and!; try done. destruct (Z.le_gt_cases (ss_end s) horizon) as [?|Hgt]; [done|exfalso].
    pose proof (Hlt s last Hs ltac:(set_solver)) as Hsl. assert (H1 : space sm (ss_end s - 1)) by (apply Hx; exists s; split; [set_solver|lia]).
    apply (Hfl _ (ss_end s)) in H1; [|lia|lia]. apply Hx in H1 as (y & Hy & Hin). apply elem_of_app in Hy as [Hy|Hy]; [|assert (y = last) as -> by set_solver; lia].
    assert (Hsame : s = y \/ s <> y) by (destruct (decide (s = y)); auto). destruct Hsame as [<-|Hne]; [lia|].
    apply list_elem_of_split in Hs as (s1 & s2 & ->). apply canon_mid in Hc1 as (_ & _ & _ & B1 & B2). apply elem_of_app in Hy as [Hy|[->|Hy]%elem_of_cons]; [specialize (B1 y Hy); lia|done|specialize (B2 y Hy); lia]. }
  pose proof (canon_size _ _ _ _ Hini ltac:(unfold horizon; lia)) as [Hn _]. rewrite length_app. cbn. unfold horizon in Hn. lia.
Qed.

(** ** Reference trees of logs *)

(** A tree under construction: its nodes, and the count [c x] of each integer. *)
Record tree_of (t : ref_tree T) (c : Z -> Z -> Prop) (bound : Z) (rs : list space_ref) : Prop := {
  tf_holds : SpaceRef.holds t rs;
  tf_refs x n : c x n -> refs rs x = n;
  tf_edges : Forall (edge_ok 0 (2 ^ 64 - 1) (2 ^ 0)) rs;
  tf_weight : weight rs <= bound;
  tf_len : zlen rs <= bound }.

Lemma tree_create : tree_of space_map_ref_create (fun _ n => n = 0) 0 [].
Proof using All. constructor; [apply holds_create|intros x n ->; done|constructor|done|done]. Qed.

(** The largest number of nodes, and weight, that one log adds with a count of 1 or 2. *)
Definition per_log : Z := 2 ^ 42.

Lemma tree_add_map t c b rs sm k : tree_of t c b rs -> dtl_map sm -> 1 <= k <= 2 -> 0 <= b -> b + per_log < 2 ^ 62 ->
  exists t' rs', space_map_ref_add_map t sm k = Ok t' /\ tree_of t' (fun x n => exists m, c x m /\ (space sm x /\ n = m + k \/ ~ space sm x /\ n = m)) (b + per_log) rs'.
Proof using All.
  intros [H1 H2 H3 H4 H5] Hd Hk Hb0 Hb. destruct (dm_ok _ Hd) as (l & Hok). pose proof (few_segs sm l Hd Hok) as Hf. unfold per_log in *. destruct (add_map_ok sm l t rs k Hok H1) as (t' & E & Hh); [lia..|].
  pose proof (ok_canon _ _ Hok) as Hc. destruct (dm_geom _ Hd) as (G1 & G2 & G3). rewrite G1, G2, G3 in Hc. assert (El : zlen (looks (sm_segs sm) l) = zlen l) by (unfold looks; by rewrite length_fmap).
  exists t', (edges k (looks (sm_segs sm) l) ++ rs). split; [done|]. constructor; [done| | | |].
  - intros x n (m & Hm & Hn). rewrite refs_app, (H2 x m Hm). destruct (edges_refs _ _ _ k _ x Hc) as [E1 E2]. rewrite <- (space_covers sm l) in E1, E2 by apply Hok. destruct Hn as [[Hx ->]|[Hx ->]]; [rewrite E1 by done|rewrite E2 by done]; lia.
  - apply Forall_app. split; [|done]. by apply edges_ok.
  - rewrite weight_app, edges_weight, El. nia.
  - rewrite length_app, edges_length. lia.
Qed.

Lemma tree_add_maps maps : forall t c b rs, tree_of t c b rs -> Forall dtl_map maps -> 0 <= b -> b + per_log * zlen maps < 2 ^ 62 ->
  exists t' rs', each (fun cm t => space_map_ref_add_map t cm 1) maps t = Ok t' /\
    tree_of t' (fun x n => exists m k, c x m /\ counts ((fun cm => space cm) <$> maps) x k /\ n = m + k) (b + per_log * zlen maps) rs'.
Proof using All.
  induction maps as [|cm maps IH]; intros t c b rs Ht Hm Hb0 Hb.
  { exists t, rs. split; [done|]. destruct Ht as [H1 H2 H3 H4 H5]. constructor; try done; [|cbn in *; lia..]. intros x n (m & k & Hc & Hk & ->). cbn in Hk. inversion Hk; subst. rewrite (H2 x m Hc). lia. }
  apply Forall_cons in Hm as [Hcm Hm]. cbn [length] in Hb. destruct (tree_add_map t c b rs cm 1 Ht Hcm ltac:(lia) Hb0 ltac:(unfold per_log in *; lia)) as (t1 & rs1 & E1 & Ht1).
  destruct (IH t1 _ _ rs1 Ht1 Hm) as (t2 & rs2 & E2 & Ht2); [unfold per_log in *; lia..|]. exists t2, rs2. split; [by rewrite each_cons, E1|]. destruct Ht2 as [K1 K2 K3 K4 K5]. constructor; try done; [|cbn [length]; lia..].
  intros x n (m & k & Hc & Hk & ->). apply K2. rewrite fmap_cons in Hk. inversion Hk as [|S Ss x' k' Hx Hk' E1' E2' E3|S Ss x' k' Hx Hk' E1' E2' E3]; subst.
  - exists (m + 1), k'. split; [|split; [done|lia]]. exists m. split; [done|]. by left.
  - exists m, k. split; [|done]. exists m. split; [done|]. by right.
Qed.

Lemma counts_total maps x : Forall dtl_map maps -> exists n, counts ((fun cm => space cm) <$> maps) x n.
Proof using All.
  induction 1 as [|sm maps Hd _ (n & IH)]; [exists 0; constructor|]. destruct (dm_ok _ Hd) as (l & Hok). rewrite fmap_cons. destruct (space_dec sm l x Hok); [exists (n + 1)|exists n]; by constructor.
Qed.

Lemma dtl_inside sm x : dtl_map sm -> space sm x -> inside 0 (2 ^ 64 - 1) x.
Proof using All. intros [(l & Hok) (G1 & G2 & _) _ _] Hx. rewrite <- G1, <- G2. apply (space_inside sm l x Hok Hx). Qed.

(** A map generated from a tree. *)
Lemma tree_generate t c b rs sm minref (S : Z -> Prop) : tree_of t c b rs -> dtl_map sm -> b < 2 ^ 62 -> 1 <= minref -> (forall x, exists n, c x n /\ (S x <-> minref <= n)) ->
  (forall x, S x -> inside 0 (2 ^ 64 - 1) x) -> flat S -> exists sm', space_map_ref_generate_map t sm minref = Ok sm' /\ dtl_map sm' /\ forall x, space sm' x <-> S x.
Proof using All.
  intros [H1 H2 H3 H4 H5] [(l & Hok) (G1 & G2 & G3) Hpp _] Hb Hm HS Hin Hfl.
  destruct (generate_map_ok t rs sm l minref H1 Hok Hpp) as (sm' & l' & E & Hok' & Hf & Hx); [by rewrite G1, G3|by rewrite G1, G2, G3|lia|done| |].
  { intros x Hxx. rewrite G1, G2 in Hxx. destruct (HS x) as (n & Hc & Hn). rewrite (H2 x n Hc). destruct (Z.lt_ge_cases n minref) as [?|Hge]; [done|]. apply Hn, Hin in Hge. lia. }
  assert (Hs : forall x, space sm' x <-> S x) by (intros x; rewrite Hx; destruct (HS x) as (n & Hc & Hn); by rewrite (H2 x n Hc), Hn).
  exists sm'. split; [done|]. split; [|done]. destruct Hf as (F1 & F2 & F3 & _ & _ & _ & _ & F8). constructor; [by exists l'|by rewrite F1, F2, F3| |].
  - unfold same_cmp in F8. rewrite Hpp in F8. by destruct (sm_pp_root sm').
  - intros x y Hx1 Hy1. rewrite !Hs. by apply Hfl.
Qed.

Lemma reassess_from_ok maps sm minref : Forall dtl_map maps -> zlen maps <= 2 ^ 16 -> dtl_map sm -> 1 <= minref ->
  exists sm', reassess_from maps sm minref = Ok sm' /\ dtl_map sm' /\ forall x, space sm' x <-> at_least minref ((fun cm => space cm) <$> maps) x.
Proof using All.
  intros Hm Hlen Hsm Hmr. unfold reassess_from. destruct (tree_add_maps maps _ _ 0 [] tree_create Hm) as (t & rs & -> & Ht); [lia|unfold per_log; lia|]. cbn [mbind res_bind].
  destruct (tree_generate t _ _ rs sm minref (at_least minref ((fun cm => space cm) <$> maps)) Ht Hsm) as (sm' & -> & Hd & Hx); [unfold per_log; lia|done| | | |].
  - intros x. destruct (counts_total maps x Hm) as (n & Hn). exists n. split; [by exists 0, n|]. split; [intros (k & Hk & ?); by rewrite (counts_unique _ _ _ _ Hn Hk)|intros ?; by exists n].
  - intros x (n & Hn & Hge). assert (Hex : at_least 1 ((fun cm => space cm) <$> maps) x) by (exists n; split; [done|lia]). apply at_least_1, Exists_fmap, Exists_exists in Hex as (cm & Hcm & Hx). rewrite Forall_forall in Hm. by apply (dtl_inside cm x (Hm cm Hcm)).
  - intros x y Hx Hy. assert (HF : forall x y, horizon <= x < 2 ^ 64 - 1 -> horizon <= y < 2 ^ 64 - 1 -> Forall (fun S : Z -> Prop => S x <-> S y) ((fun cm => space cm) <$> maps)).
    { intros x' y' Hx' Hy'. apply Forall_fmap. eapply Forall_impl; [exact Hm|]. intros cm Hcm. by apply (dm_flat _ Hcm). }
    split; intros (n & Hn & Hge); exists n; (split; [|done]); (eapply counts_iff; [|exact Hn]); by apply HF.
  - cbn [mbind res_bind]. destruct (space_map_ref_destroy_ok t rs (tf_holds _ _ _ _ Ht)) as (t' & -> & _). by exists sm'.
Qed.

(** ** One leaf *)

Definition empty sm : Prop := dtl_map sm /\ sm_ok sm [].

Lemma vacate_ok sm : dtl_map sm -> exists sm', vacate sm = Ok sm' /\ empty sm'.
Proof using All.
  intros [(l & Hok) G Hpp Hfl]. destruct (vacate_all sm l Hok Hpp) as (t & Hem & E). exists (emptied sm t). unfold vacate. rewrite E. split; [done|]. split; [|done].
  constructor; [by exists []|done|done|]. intros x y _ _. pose proof (proj2 (space_empty _ Hem) x). pose proof (proj2 (space_empty _ Hem) y). tauto.
Qed.

(** A log from an empty one of the same set. *)
Lemma becomes_dtl dest dest' n (S : Z -> Prop) : empty dest -> becomes dest dest' n S -> flat S -> dtl_map dest' /\ forall x, space dest' x <-> S x.
Proof using All.
  intros [[_ (G1 & G2 & G3) Hpp _] _] (l' & Hok' & (F1 & F2 & F3 & _ & _ & _ & _ & F8) & _ & Hx) Hfl. split; [|done]. constructor; [by exists l'|by rewrite F1, F2, F3| |].
  - unfold same_cmp in F8. rewrite Hpp in F8. by destruct (sm_pp_root dest').
  - intros x y H1 H2. rewrite !Hx. by apply Hfl.
Qed.

Lemma copy_ok src dest : dtl_map src -> empty dest -> exists dest', space_map_walk src space_map_add dest = Ok dest' /\ dtl_map dest' /\ forall x, space dest' x <-> space src x.
Proof using All.
  intros Hs He. destruct (dm_ok _ Hs) as (l & Hok). pose proof (space_empty dest (proj2 He)) as [_ Hno]. destruct (dm_geom _ Hs) as (G1 & G2 & G3), (dm_geom _ (proj1 He)) as (K1 & K2 & K3).
  rewrite (space_map_walk_ok src l) by done. destruct (walk_add src l l dest [] Hok (reflexivity l) (proj2 He)) as (dest' & E & Hb); [unfold alike; by rewrite G1, G2, G3, K1, K2, K3|intros x _; apply Hno|].
  exists dest'. split; [done|]. eapply becomes_dtl in Hb as [H1 H2]; [|done|].
  - split; [done|]. intros x. rewrite H2. specialize (Hno x). tauto.
  - intros x y H1 H2. pose proof (dm_flat _ Hs x y H1 H2). pose proof (Hno x). pose proof (Hno y). tauto.
Qed.

Lemma fill_ok sm : empty sm -> exists sm', space_map_add sm 0 (2 ^ 64 - 1) = Ok sm' /\ dtl_map sm' /\ forall x, space sm' x <-> inside 0 (2 ^ 64 - 1) x.
Proof using All.
  intros He. pose proof (space_empty sm (proj2 He)) as [_ Hno]. destruct (dm_geom _ (proj1 He)) as (K1 & K2 & K3).
  destruct (space_map_add_ok sm [] 0 (2 ^ 64 - 1) (proj2 He)) as (sm' & l' & E & H1 & H2 & H3 & H4); [unfold fits; by rewrite K1, K2, K3|intros x _; apply Hno|].
  exists sm'. split; [done|]. apply (becomes_dtl sm sm' (sm_space sm')); [done| |]; [exists l'; split; [done|]; split; [done|]; split; [done|]; intros x; rewrite H4; specialize (Hno x); tauto|].
  intros x y ? ?. unfold horizon in *. lia.
Qed.

Lemma tree_add_seg t c b rs end_ : tree_of t c b rs -> 0 <= end_ <= horizon -> 0 <= b -> b + 2 < 2 ^ 62 ->
  exists t' rs', space_map_ref_add_seg t 0 end_ (-1) = Ok t' /\ tree_of t' (fun x n => exists m, c x m /\ n = m - (if (0 <=? x) && (x <? end_) then 1 else 0)) (b + 2) rs'.
Proof using All.
  intros [H1 H2 H3 H4 H5] He Hb0 Hb. unfold horizon in He. destruct (add_seg_ok t rs 0 end_ (-1) H1) as (t' & E & Hh); [lia..|]. eexists t', _. split; [done|]. constructor; [exact Hh| | | |].
  - intros x n (m & Hm & ->). rewrite !refs_cons, (H2 x m Hm). cbn [sr_offset sr_refcnt]. destruct (Z.leb_spec 0 x), (Z.ltb_spec x end_), (Z.leb_spec end_ x); cbn [andb]; lia.
  - repeat constructor; cbn; try lia; [by rewrite Z.mod_1_r|done].
  - change (Z.abs (- -1) + (Z.abs (-1) + weight rs) <= b + 2). lia.
  - cbn [length]. lia.
Qed.

Record dtls_ok (d : vdev_dtl (space_map T O)) : Prop := { do_missing : dtl_map (DTL_MISSING d); do_partial : dtl_map (DTL_PARTIAL d); do_scrub : dtl_map (DTL_SCRUB d); do_outage : dtl_map (DTL_OUTAGE d) }.

Lemma fold_scrub_ok d scrub_txg : dtls_ok d -> 0 <= scrub_txg <= horizon ->
  exists missing, fold_scrub d scrub_txg = Ok (VdevDtl missing (DTL_PARTIAL d) (DTL_SCRUB d) (DTL_OUTAGE d)) /\ dtl_map missing /\
    forall x, space missing x <-> space (DTL_SCRUB d) x \/ (space (DTL_MISSING d) x /\ scrub_txg <= x).
Proof using All.
  intros [Hm Hp Hs Ho] Ht. unfold fold_scrub. destruct (tree_add_map _ _ _ _ (DTL_MISSING d) 1 tree_create Hm) as (t1 & rs1 & -> & T1); [lia|lia|unfold per_log; lia|]. cbn [mbind res_bind].
  destruct (tree_add_seg _ _ _ _ scrub_txg T1 Ht) as (t2 & rs2 & -> & T2); [unfold per_log; lia..|]. cbn [mbind res_bind].
  destruct (tree_add_map _ _ _ _ (DTL_SCRUB d) 2 T2 Hs) as (t3 & rs3 & -> & T3); [lia|unfold per_log; lia..|]. cbn [mbind res_bind].
  destruct (tree_generate t3 _ _ rs3 (DTL_MISSING d) 1 (fun x => space (DTL_SCRUB d) x \/ (space (DTL_MISSING d) x /\ scrub_txg <= x)) T3 Hm) as (sm' & -> & Hd & Hx); [unfold per_log; lia|lia| | | |].
  - intros x. destruct (dm_ok _ Hm) as (l1 & Hok1), (dm_ok _ Hs) as (l2 & Hok2). set (m := if (0 <=? x) && (x <? scrub_txg) then 1 else 0).
    assert (Hmv : (scrub_txg <= x /\ m = 0) \/ (x < scrub_txg /\ 0 <= m <= 1 /\ (0 <= x -> m = 1))) by (unfold m; destruct (Z.leb_spec 0 x), (Z.ltb_spec x scrub_txg); cbn [andb]; lia).
    assert (Hpos : space (DTL_MISSING d) x -> 0 <= x) by (intros Hx; apply (dtl_inside _ x Hm) in Hx; lia).
    destruct (space_dec _ l1 x Hok1) as [H1|H1], (space_dec _ l2 x Hok2) as [H2|H2].
    + exists (0 + 1 - m + 2). split; [exists (0 + 1 - m); split; [exists (0 + 1); split; [exists 0; split; [done|by left]|done]|by left]|]. split; [lia|by left].
    + exists (0 + 1 - m). split; [exists (0 + 1 - m); split; [exists (0 + 1); split; [exists 0; split; [done|by left]|done]|by right]|]. specialize (Hpos H1). split; [intros [?|[_ ?]]; [done|lia]|intros ?; right; split; [done|lia]].
    + exists (0 - m + 2). split; [exists (0 - m); split; [exists 0; split; [exists 0; split; [done|by right]|done]|by left]|]. split; [lia|by left].
    + exists (0 - m). split; [exists (0 - m); split; [exists 0; split; [exists 0; split; [done|by right]|done]|by right]|]. split; [intros [?|[? _]]; done|lia].
  - intros x [Hx|[Hx _]]; [by apply (dtl_inside _ x Hs)|by apply (dtl_inside _ x Hm)].
  - intros x y Hx Hy. pose proof (dm_flat _ Hs x y Hx Hy). pose proof (dm_flat _ Hm x y Hx Hy). assert (scrub_txg <= x /\ scrub_txg <= y) by lia. tauto.
  - cbn [mbind res_bind]. destruct (space_map_ref_destroy_ok t3 rs3 (tf_holds _ _ _ _ T3)) as (t' & -> & _). by exists sm'.
Qed.
End ok.
End VdevDtlOk.
