(* ===== verification/VdevDtlSpec.v ===== *)
(** The theorems about dirty time logs: the logs of a tree of vdevs after a
    reassessment, what can be detached, and what a resilver must cover. *)

From S2P Require Import Prelude Avl AvlSpec OrdTree SpaceMap SpaceSet SpaceMapOk SpaceMapWalk SpaceMapRanges SpaceMapSpec SpaceRef SpaceRefOk VdevDtl VdevDtlOk.
Import SpaceMap SpaceSet SpaceMapOk SpaceMapCut SpaceMapWalk SpaceMapRanges SpaceMapSpec SpaceRef SpaceRefOk VdevDtl VdevDtlOk.
Open Scope Z_scope.

Module VdevDtlSpec.

(** Induction on trees of vdevs. *)
Fixpoint vdev_ind' {M} (P : vdev M -> Prop) (H : forall i d ch, Forall P ch -> P (Vdev i d ch)) (vd : vdev M) : P vd :=
  let '(Vdev i d ch) := vd in
  H i d ch ((fix all (ch : list (vdev M)) : Forall P ch := match ch with [] => Forall_nil_2 P | c :: ch => Forall_cons_2 P c ch (vdev_ind' P H c) (all ch) end) ch).

Section spec.
Context {T I O : Type} {HT : Tree T I} {HK : Kmem} {HTL : TreeLaws T I} {HKL : KmemLaws}.
Abbreviation M := (space_map T O).
Implicit Types (sm : M) (d : vdev_dtl M) (vd : vdev M).

(** ** What the logs should be *)

(** Vdevs whose logs are left alone. *)
Definition skipped (i : vdev_info) : bool := vi_root i || vi_ishole i || vi_aux i.

(** The number of children that must be out for a vdev to be. *)
Definition minref (i : vdev_info) (ch : list (vdev M)) : Z := if negb (vi_nparity i =? 0) then vi_nparity i + 1 else Z.of_nat (length ch).

Definition leaf_logs (sc : scrub_state) (scrub_txg : Z) (scrub_done : bool) (i : vdev_info) d d' : Prop :=
  (forall x, space (DTL_MISSING d') x <-> if negb (scrub_txg =? 0) && scrub_valid sc then space (DTL_SCRUB d) x \/ (space (DTL_MISSING d) x /\ scrub_txg <= x) else space (DTL_MISSING d) x) /\
  (forall x, space (DTL_PARTIAL d') x <-> space (DTL_MISSING d') x) /\
  (forall x, space (DTL_SCRUB d') x <-> scrub_done = false /\ space (DTL_SCRUB d) x) /\
  (forall x, space (DTL_OUTAGE d') x <-> if vdev_readable i then space (DTL_MISSING d') x else inside 0 (2 ^ 64 - 1) x).

Definition interior_logs (i : vdev_info) d d' (ch : list (vdev M)) : Prop :=
  (forall x, space (DTL_MISSING d') x <-> at_least (minref i ch) ((fun c => space (DTL_OUTAGE (vd_dtl c))) <$> ch) x) /\
  (forall x, space (DTL_PARTIAL d') x <-> at_least 1 ((fun c => space (DTL_PARTIAL (vd_dtl c))) <$> ch) x) /\
  DTL_SCRUB d' = DTL_SCRUB d /\
  (forall x, space (DTL_OUTAGE d') x <-> at_least (minref i ch) ((fun c => space (DTL_OUTAGE (vd_dtl c))) <$> ch) x).

(** A tree of vdevs before and after a reassessment. *)
#[warnings="-register-all"]
Inductive assessed (sc : scrub_state) (scrub_txg : Z) (scrub_done : bool) : vdev M -> vdev M -> Prop :=
  | as_skipped i d ch ch' : Forall2 (assessed sc scrub_txg scrub_done) ch ch' -> skipped i = true -> assessed sc scrub_txg scrub_done (Vdev i d ch) (Vdev i d ch')
  | as_leaf i d d' ch ch' : Forall2 (assessed sc scrub_txg scrub_done) ch ch' -> skipped i = false -> vi_leaf i = true ->
      leaf_logs sc scrub_txg scrub_done i d d' -> assessed sc scrub_txg scrub_done (Vdev i d ch) (Vdev i d' ch')
  | as_interior i d d' ch ch' : Forall2 (assessed sc scrub_txg scrub_done) ch ch' -> skipped i = false -> vi_leaf i = false ->
      interior_logs i d d' ch' -> assessed sc scrub_txg scrub_done (Vdev i d ch) (Vdev i d' ch').

(** Logs in order, and at most 2^16 children for each vdev. *)
#[warnings="-register-all"]
Inductive vdev_ok : vdev M -> Prop :=
  | vdev_ok_intro i d ch : dtls_ok d -> zlen ch <= 2 ^ 16 -> 0 <= vi_nparity i -> (vi_leaf i = false -> ch <> []) -> Forall vdev_ok ch -> vdev_ok (Vdev i d ch).

(** The guids of the leaves whose logs change. *)
Fixpoint dirtied vd : list Z :=
  let '(Vdev i _ ch) := vd in
  (fix children (ch : list (vdev M)) : list Z := match ch with [] => [] | c :: ch => dirtied c ++ children ch end) ch ++
  if skipped i then [] else if vi_leaf i then [vi_guid i] else [].

Lemma vdev_ok_update i d ch d' ch' : vdev_ok (Vdev i d ch) -> dtls_ok d' -> Forall vdev_ok ch' -> length ch = length ch' -> vdev_ok (Vdev i d' ch').
Proof using All.
  intros Hok Hd' Hch' El. inversion Hok as [i0 d0 ch0 Hd Hlen Hn Hne Hch]; subst. apply vdev_ok_intro; [exact Hd'|by rewrite <- El|exact Hn| |exact Hch']. intros Hl ->. apply (Hne Hl). by destruct ch.
Qed.

(** ** Reassessment *)

Lemma reassess_leaf_ok sc i d scrub_txg scrub_done : dtls_ok d -> 0 <= scrub_txg <= horizon ->
  exists d', reassess_leaf sc i d scrub_txg scrub_done = Ok d' /\ dtls_ok d' /\ leaf_logs sc scrub_txg scrub_done i d d'.
Proof using All.
  intros Hd Ht. unfold reassess_leaf. set (b := negb (scrub_txg =? 0) && scrub_valid sc).
  assert (H1 : exists missing, (if b then fold_scrub d scrub_txg else Ok d) = Ok (VdevDtl missing (DTL_PARTIAL d) (DTL_SCRUB d) (DTL_OUTAGE d)) /\ dtl_map missing /\
    forall x, space missing x <-> if b then space (DTL_SCRUB d) x \/ (space (DTL_MISSING d) x /\ scrub_txg <= x) else space (DTL_MISSING d) x).
  { destruct b; [by apply fold_scrub_ok|]. exists (DTL_MISSING d). split; [by destruct d|]. split; [apply Hd|done]. }
  destruct H1 as (missing & -> & Hm & Hmx). cbn [mbind res_bind DTL_PARTIAL DTL_MISSING DTL_SCRUB DTL_OUTAGE].
  destruct (vacate_ok _ (do_partial _ Hd)) as (p0 & -> & Hp0). cbn [mbind res_bind]. destruct (copy_ok missing p0 Hm Hp0) as (p1 & -> & Hp1 & Hpx). cbn [mbind res_bind].
  assert (H2 : exists scrub, (if scrub_done then vacate (DTL_SCRUB d) else Ok (DTL_SCRUB d)) = Ok scrub /\ dtl_map scrub /\ forall x, space scrub x <-> scrub_done = false /\ space (DTL_SCRUB d) x).
  { destruct scrub_done; [|exists (DTL_SCRUB d); split; [done|]; split; [apply Hd|tauto]]. destruct (vacate_ok _ (do_scrub _ Hd)) as (s0 & -> & Hs0). exists s0. split; [done|]. split; [apply Hs0|]. intros x. pose proof (proj2 (space_empty s0 (proj2 Hs0)) x). split; [done|intros [? _]; done]. }
  destruct H2 as (scrub & -> & Hs & Hsx). cbn [mbind res_bind]. destruct (vacate_ok _ (do_outage _ Hd)) as (o0 & -> & Ho0). cbn [mbind res_bind].
  assert (H3 : exists outage, (if negb (vdev_readable i) then space_map_add o0 0 (2 ^ 64 - 1) else space_map_walk missing space_map_add o0) = Ok outage /\ dtl_map outage /\
    forall x, space outage x <-> if vdev_readable i then space missing x else inside 0 (2 ^ 64 - 1) x) by (destruct (vdev_readable i); cbn [negb]; [by apply copy_ok|by apply fill_ok]).
  destruct H3 as (outage & -> & Ho & Hox). cbn [mbind res_bind]. eexists. split; [done|]. split; [by constructor|]. done.
Qed.

Lemma reassess_interior_ok i d ch : dtls_ok d -> Forall vdev_ok ch -> zlen ch <= 2 ^ 16 -> 0 <= vi_nparity i -> ch <> [] ->
  exists d', reassess_interior i d ch = Ok d' /\ dtls_ok d' /\ interior_logs i d d' ch.
Proof using All.
  intros Hd Hch Hlen Hn Hne. unfold reassess_interior. fold (minref i ch). assert (Hmr : 1 <= minref i ch) by (unfold minref; destruct (Z.eqb_spec (vi_nparity i) 0); cbn [negb]; [destruct ch; [done|cbn; lia]|lia]).
  assert (HO : Forall dtl_map ((fun c => DTL_OUTAGE (vd_dtl c)) <$> ch)) by (apply Forall_fmap; eapply Forall_impl; [exact Hch|]; intros c [i' d' ch' H _ _ _ _]; apply H).
  assert (HP : Forall dtl_map ((fun c => DTL_PARTIAL (vd_dtl c)) <$> ch)) by (apply Forall_fmap; eapply Forall_impl; [exact Hch|]; intros c [i' d' ch' H _ _ _ _]; apply H).
  destruct (reassess_from_ok _ (DTL_MISSING d) (minref i ch) HO) as (m & -> & Hm & Hmx); [by rewrite length_fmap|apply Hd|done|]. cbn [mbind res_bind].
  destruct (reassess_from_ok _ (DTL_PARTIAL d) 1 HP) as (p & -> & Hp & Hpx); [by rewrite length_fmap|apply Hd|lia|]. cbn [mbind res_bind].
  destruct (reassess_from_ok _ (DTL_OUTAGE d) (minref i ch) HO) as (o & -> & Ho & Hox); [by rewrite length_fmap|apply Hd|done|]. cbn [mbind res_bind].
  rewrite <- list_fmap_compose in Hmx, Hpx, Hox. eexists. split; [done|]. split; [constructor; try done; apply Hd|]. done.
Qed.

Lemma vdev_dtl_reassess_ok sc txg scrub_txg scrub_done vd : 0 <= scrub_txg <= horizon -> vdev_ok vd ->
  exists vd', vdev_dtl_reassess sc vd txg scrub_txg scrub_done = Ok (vd', if txg =? 0 then [] else dirtied vd) /\ vdev_ok vd' /\ assessed sc scrub_txg scrub_done vd vd'.
Proof using All.
  intros Ht. induction vd as [i d ch IH] using vdev_ind'. intros Hok. inversion Hok as [i' d' ch' Hd Hlen Hn Hne Hch]; subst. cbn [vdev_dtl_reassess].
  set (children := fix children (ch : list (vdev M)) : res (list (vdev M) * list Z) := match ch with [] => Ok ([], []) | c :: ch => '(c, g1) ← vdev_dtl_reassess sc c txg scrub_txg scrub_done; '(ch, g2) ← children ch; Ok (c :: ch, g1 ++ g2) end).
  set (names := fix names (ch : list (vdev M)) : list Z := match ch with [] => [] | c :: ch => dirtied c ++ names ch end).
  assert (H : exists ch', children ch = Ok (ch', if txg =? 0 then [] else names ch) /\ Forall vdev_ok ch' /\ Forall2 (assessed sc scrub_txg scrub_done) ch ch').
  { clear Hok Hlen Hne. induction ch as [|c ch IHc]; [exists []; by destruct (txg =? 0)|]. apply Forall_cons in IH as [IH1 IH]. apply Forall_cons in Hch as [H1 Hch]. destruct (IH1 H1) as (c' & E1 & Hc' & Ha). destruct (IHc IH Hch) as (ch' & E2 & Hch' & HF).
    exists (c' :: ch'). cbn [children]. rewrite E1. cbn [mbind res_bind]. fold children. rewrite E2. cbn [mbind res_bind]. split; [by destruct (txg =? 0)|]. by split; constructor. }
  destruct H as (ch' & -> & Hch' & HF). cbn [mbind res_bind]. pose proof (Forall2_length _ _ _ HF) as El. fold (skipped i). cbn [dirtied]. fold names. destruct (skipped i) eqn:Es.
  - exists (Vdev i d ch'). split; [destruct (txg =? 0); by rewrite ?app_nil_r|]. split; [by eapply vdev_ok_update|by apply as_skipped].
  - destruct (vi_leaf i) eqn:Ell.
    + destruct (reassess_leaf_ok sc i d scrub_txg scrub_done Hd Ht) as (d' & -> & Hd' & HL). cbn [mbind res_bind]. exists (Vdev i d' ch'). split; [by destruct (txg =? 0)|]. split; [by eapply vdev_ok_update|by apply as_leaf].
    + assert (Hne' : ch' <> []) by (intros ->; apply (Hne eq_refl); by destruct ch). destruct (reassess_interior_ok i d ch' Hd Hch') as (d' & -> & Hd' & HL); [by rewrite <- El|done|done|]. cbn [mbind res_bind].
      exists (Vdev i d' ch'). split; [destruct (txg =? 0); by rewrite ?app_nil_r|]. split; [by eapply vdev_ok_update|by apply as_interior].
Qed.

(** C14: [vdev_dtl_reassess] of a tree of vdevs returns, keeps every log well formed, and
    leaves the logs as they are defined, in the whole tree: a leaf's [DTL_MISSING] has
    the scrubbed range replaced by [DTL_SCRUB] when a scrub was valid, its
    [DTL_PARTIAL] is its [DTL_MISSING], its [DTL_OUTAGE] is that too or everything if
    the leaf cannot be read; a RAID-Z vdev is missing, and out of, what more than
    [nparity] of its children are out of, a mirror what all of them are out of, and
    either has in part what any child has in part.  With a transaction group given,
    exactly the leaves' logs are marked dirty. *)
Theorem vdev_dtl_reassess_correct sc txg scrub_txg scrub_done vd : 0 <= scrub_txg <= horizon -> vdev_ok vd ->
  exists vd', vdev_dtl_reassess sc vd txg scrub_txg scrub_done = Ok (vd', if txg =? 0 then [] else dirtied vd) /\ vdev_ok vd' /\ assessed sc scrub_txg scrub_done vd vd'.
Proof using All. apply vdev_dtl_reassess_ok. Qed.

(** ** Detaching *)

Lemma set_cant_read_ok guid b vd : vdev_ok vd -> vdev_ok (set_cant_read guid b vd).
Proof using All.
  induction vd as [i d ch IH] using vdev_ind'. intros Hok. inversion Hok as [i' d' ch' Hd Hlen Hn Hne Hch]; subst. cbn [set_cant_read]. apply vdev_ok_intro; [done|by rewrite length_fmap|by destruct (vi_guid i =? guid)| |].
  - intros Hl. assert (Hl' : vi_leaf i = false) by (by destruct (vi_guid i =? guid)). intros E. apply (Hne Hl'). by destruct ch.
  - apply Forall_fmap. apply Forall_forall. intros c Hc. rewrite Forall_forall in IH, Hch. cbn. by apply IH, Hch.
Qed.

Lemma empty_log sm : dtl_map sm -> vdev_dtl_empty sm = true <-> forall x, ~ space sm x.
Proof using All.
  intros Hd. destruct (dm_ok _ Hd) as (l & Hok). unfold vdev_dtl_empty. rewrite Z.eqb_eq. split.
  - intros E. pose proof (no_space sm l Hok E) as ->. apply (space_empty sm Hok).
  - intros Hno. destruct l as [|p l]; [by apply (space_empty sm Hok)|exfalso]. destruct (canon_proper _ _ _ _ _ (ok_canon _ _ Hok) (looks_in _ _ p (list_elem_of_here p l))) as (_ & Hp & _).
    apply (Hno (ss_start (sm_segs sm !!! p))). exists p, (sm_segs sm !!! p). split; [apply (dom_present sm (p :: l)); [apply Hok|set_solver]|lia].
Qed.

(** C24: [vdev_dtl_required] for a vdev that is not a top-level one, without fault
    injection: it returns, and says that the vdev is not required exactly when the
    top-level vdev, reassessed with that vdev unreadable, is out of no transaction
    group; afterwards the logs are those reassessed with the vdev as it was. *)
Theorem vdev_dtl_required_correct sc tvd guid cant_read : vdev_ok tvd -> guid <> vi_guid (vd_info tvd) ->
  exists tvd1 tvd2 required, vdev_dtl_required sc tvd guid false cant_read None = Ok (tvd2, required) /\
    assessed sc 0 false (set_cant_read guid true tvd) tvd1 /\ (required = false <-> forall x, ~ space (DTL_OUTAGE (vd_dtl tvd1)) x) /\
    vdev_ok tvd2 /\ assessed sc 0 false (set_cant_read guid cant_read tvd1) tvd2.
Proof using All.
  intros Hok Hg. unfold vdev_dtl_required. rewrite (proj2 (Z.eqb_neq _ _) Hg). cbn [orb].
  destruct (vdev_dtl_reassess_ok sc 0 0 false _ ltac:(unfold horizon; lia) (set_cant_read_ok guid true tvd Hok)) as (tvd1 & -> & Hok1 & H1). cbn [mbind res_bind].
  destruct (vdev_dtl_reassess_ok sc 0 0 false _ ltac:(unfold horizon; lia) (set_cant_read_ok guid cant_read tvd1 Hok1)) as (tvd2 & -> & Hok2 & H2). cbn [mbind res_bind].
  exists tvd1, tvd2, (negb (vdev_dtl_empty (DTL_OUTAGE (vd_dtl tvd1)))). assert (Hd : dtl_map (DTL_OUTAGE (vd_dtl tvd1))) by (destruct Hok1 as [i d ch Hd _ _ _ _]; apply Hd).
  split; [by destruct (vdev_dtl_empty _)|]. split; [done|]. split; [|done]. rewrite <- (empty_log _ Hd). by destruct (vdev_dtl_empty _).
Qed.

(** ** Resilvering *)

(** A transaction group that a writeable device below [vd] is missing. *)
Fixpoint wants vd (x : Z) : Prop :=
  let '(Vdev i d ch) := vd in
  match ch with
  | [] => vdev_writeable i = true /\ space (DTL_MISSING d) x
  | _ :: _ => (fix children (ch : list (vdev M)) : Prop := match ch with [] => False | c :: ch => wants c x \/ children ch end) ch
  end.

(** The ends of a set that is not empty. *)
Definition spans (S : Z -> Prop) (b : bool) (lo hi : Z) : Prop :=
  if b then S (lo + 1) /\ S (hi - 1) /\ forall x, S x -> lo < x < hi else (forall x, ~ S x) /\ lo = 2 ^ 64 - 1 /\ hi = 0.

Lemma log_spans sm : dtl_map sm -> (forall x, space sm x -> 1 <= x) -> sm_space sm <> 0 ->
  exists p q, tr_first (sm_root sm) = Ok p /\ tr_last (sm_root sm) = Ok q /\ seg sm p = Ok (sm_segs sm !!! p) /\ seg sm q = Ok (sm_segs sm !!! q) /\
    spans (space sm) true (u64 (ss_start (sm_segs sm !!! p) - 1)) (ss_end (sm_segs sm !!! q)).
Proof using All.
  intros Hd Hpos Hz. destruct (dm_ok _ Hd) as (l & Hok). destruct (tr_ends_ok _ _ (ok_seq _ _ Hok)) as [E1 E2]. assert (Hne : l <> []) by (intros ->; apply Hz, (space_empty sm Hok)).
  destruct l as [|p l1] eqn:El1; [done|]. destruct (exists_last Hne) as (l2 & q & El2). assert (Hp : p ∈ p :: l1) by set_solver. assert (Hq : q ∈ p :: l1) by (rewrite El2; set_solver).
  exists p, q. split; [done|]. split; [rewrite E2, El2; by rewrite last_last|]. split; [by apply (seg_ok sm (p :: l1)); [apply Hok|]|]. split; [by apply (seg_ok sm (p :: l1)); [apply Hok|]|].
  assert (Hin : forall r x, r ∈ p :: l1 -> within (sm_segs sm !!! r) x -> space sm x) by (intros r x Hr Hx; exists r, (sm_segs sm !!! r); split; [apply (dom_present sm (p :: l1)); [apply Hok|done]|done]).
  destruct (canon_proper _ _ _ _ _ (ok_canon _ _ Hok) (looks_in _ _ p Hp)) as (P1 & P2 & P3 & _), (canon_proper _ _ _ _ _ (ok_canon _ _ Hok) (looks_in _ _ q Hq)) as (Q1 & Q2 & Q3 & _). destruct (dm_geom _ Hd) as (G1 & G2 & _).
  assert (Hs1 : 1 <= ss_start (sm_segs sm !!! p)) by (apply Hpos, (Hin p); [done|lia]). rewrite Z.mod_small by lia. split; [apply (Hin p); [done|lia]|]. split; [apply (Hin q); [done|lia]|].
  intros x Hx. rewrite (space_covers sm (p :: l1)) in Hx by apply Hok. destruct Hx as (s & (r & Hr & ->)%looks_elem & Hx). pose proof (ok_canon _ _ Hok) as Hc. split.
  - rewrite looks_cons in Hc. apply canon_cons in Hc as (_ & _ & Hlt). apply elem_of_cons in Hr as [->|Hr]; [lia|]. specialize (Hlt _ (looks_in (sm_segs sm) _ _ Hr)). lia.
  - rewrite El2 in Hc, Hr. rewrite looks_app in Hc. apply canon_app in Hc as (_ & _ & Hlt). apply elem_of_app in Hr as [Hr|Hr]; [|assert (r = q) as -> by set_solver; lia].
    specialize (Hlt _ _ (looks_in (sm_segs sm) _ _ Hr) (looks_in (sm_segs sm) [q] q ltac:(set_solver))). lia.
Qed.

(** Every missing transaction group in the tree is a real one. *)
#[warnings="-register-all"]
Inductive from_one : vdev M -> Prop :=
  | from_one_intro i d ch : (forall x, space (DTL_MISSING d) x -> 1 <= x) -> Forall from_one ch -> from_one (Vdev i d ch).

Lemma spans_join (S1 S2 : Z -> Prop) b1 lo1 hi1 b2 lo2 hi2 : spans S1 b1 lo1 hi1 -> spans S2 b2 lo2 hi2 ->
  spans (fun x => S1 x \/ S2 x) (b1 || b2) (if b2 then if b1 then Z.min lo1 lo2 else lo2 else lo1) (if b2 then if b1 then Z.max hi1 hi2 else hi2 else hi1).
Proof.
  intros H1 H2. destruct b1, b2; cbn in *; destruct H1 as (A1 & A2 & A3), H2 as (B1 & B2 & B3).
  - split; [destruct (Z.min_spec lo1 lo2) as [[_ ->]|[_ ->]]; auto|]. split; [destruct (Z.max_spec hi1 hi2) as [[_ ->]|[_ ->]]; auto|]. intros x [Hx|Hx]; [apply A3 in Hx|apply B3 in Hx]; lia.
  - split; [by left|]. split; [by left|]. intros x [Hx|Hx]; [by apply A3|by destruct (B1 x)].
  - split; [by right|]. split; [by right|]. intros x [Hx|Hx]; [by destruct (A1 x)|by apply B3].
  - split; [|done]. intros x [Hx|Hx]; [by destruct (A1 x)|by destruct (B1 x)].
Qed.

Lemma spans_ext (S S' : Z -> Prop) b lo hi : (forall x, S x <-> S' x) -> spans S b lo hi -> spans S' b lo hi.
Proof.
  intros Hx. unfold spans. destruct b; intros (H1 & H2 & H3); (split; [|split; [by try apply Hx|]]); try done; try (by apply Hx); [intros x ?%Hx; auto|intros x ?%Hx; by apply (H1 x)].
Qed.

Lemma needed_children ch : Forall (fun c => exists b lo hi, vdev_resilver_needed c = Ok (b, lo, hi) /\ spans (wants c) b lo hi /\ (b = true -> lo < 2 ^ 64 /\ 0 <= hi)) ch ->
  forall S b lo hi, spans S b lo hi ->
  exists b' lo' hi', (fix children (ch : list (vdev M)) (needed : bool) (thismin thismax : Z) : res (bool * Z * Z) :=
        match ch with
        | [] => Ok (needed, thismin, thismax)
        | c :: ch => '(b, cmin, cmax) ← vdev_resilver_needed c; if (b : bool) then children ch true (Z.min thismin cmin) (Z.max thismax cmax) else children ch needed thismin thismax
        end) ch b lo hi = Ok (b', lo', hi') /\
    spans (fun x => S x \/ (fix children (ch : list (vdev M)) : Prop := match ch with [] => False | c :: ch => wants c x \/ children ch end) ch) b' lo' hi'.
Proof using All.
  induction 1 as [|c ch (cb & clo & chi & E & Hc & Hbd) _ IH]; intros S b lo hi HS; [exists b, lo, hi; split; [done|]; eapply spans_ext; [|exact HS]; cbn; tauto|].
  rewrite E. cbn [mbind res_bind]. pose proof (spans_join _ _ _ _ _ _ _ _ HS Hc) as HJ. destruct cb.
  - assert (HJ' : spans (fun x => S x \/ wants c x) true (Z.min lo clo) (Z.max hi chi)).
    { destruct b; cbn in HJ; [done|]. destruct HS as (_ & -> & ->). replace (Z.min (2 ^ 64 - 1) clo) with clo by lia. replace (Z.max 0 chi) with chi by lia. done. }
    destruct (IH _ _ _ _ HJ') as (b' & lo' & hi' & E' & H'). exists b', lo', hi'. split; [exact E'|]. eapply spans_ext; [|exact H']. cbn. tauto.
  - rewrite orb_false_r in HJ. destruct (IH _ _ _ _ HJ) as (b' & lo' & hi' & E' & H'). exists b', lo', hi'. split; [exact E'|]. eapply spans_ext; [|exact H']. cbn. tauto.
Qed.

Lemma wants_child i d c ch x : wants (Vdev i d (c :: ch)) x -> exists c', c' ∈ c :: ch /\ wants c' x.
Proof using All.
  change (wants (Vdev i d (c :: ch)) x) with ((fix children (ch : list (vdev M)) : Prop := match ch with [] => False | c :: ch => wants c x \/ children ch end) (c :: ch)).
  generalize (c :: ch). intros cs. induction cs as [|c1 cs IH]; [done|]. intros [Hw|Hw]; [exists c1; split; [set_solver|done]|]. destruct (IH Hw) as (c' & ? & ?). exists c'. split; [set_solver|done].
Qed.

Lemma wants_inside vd x : vdev_ok vd -> wants vd x -> inside 0 (2 ^ 64 - 1) x.
Proof using All.
  induction vd as [i d ch IH] using vdev_ind'. intros Hok Hw. inversion Hok as [i' d' ch' Hd _ _ _ Hch]; subst. destruct ch as [|c ch]; [apply (dtl_inside _ x (do_missing _ Hd)), Hw|].
  apply wants_child in Hw as (c' & Hc' & Hw). rewrite Forall_forall in IH, Hch. by apply (IH c' Hc' (Hch c' Hc')).
Qed.

Lemma vdev_resilver_needed_ok vd : vdev_ok vd -> from_one vd -> exists b lo hi, vdev_resilver_needed vd = Ok (b, lo, hi) /\ spans (wants vd) b lo hi /\ (b = true -> lo < 2 ^ 64 /\ 0 <= hi).
Proof using All.
  intros Hok. assert (Hgoal : from_one vd -> exists b lo hi, vdev_resilver_needed vd = Ok (b, lo, hi) /\ spans (wants vd) b lo hi).
  2: { intros Hf. destruct (Hgoal Hf) as (b & lo & hi & E & Hs). exists b, lo, hi. split; [done|]. split; [done|]. intros ->. destruct Hs as (H1 & H2 & _). apply (wants_inside vd _ Hok) in H1, H2. lia. }
  induction vd as [i d ch IH] using vdev_ind'. intros Hf. inversion Hok as [i' d' ch' Hd _ _ _ Hch]; subst. inversion Hf as [i' d' ch' Hf1 Hfc]; subst. cbn [vdev_resilver_needed wants]. destruct ch as [|c ch].
  - destruct (vdev_writeable i); [|rewrite andb_false_r; do 3 eexists; split; [done|]; cbn; split; [by intros x [? _]|done]]. rewrite andb_true_r. destruct (Z.eqb_spec (sm_space (DTL_MISSING d)) 0) as [E|E]; cbn [negb].
    + do 3 eexists. split; [done|]. cbn. split; [|done]. intros x [_ Hx]. apply (proj1 (empty_log _ (do_missing _ Hd))) in Hx; [done|]. by apply Z.eqb_eq.
    + destruct (log_spans _ (do_missing _ Hd) Hf1 E) as (p & q & -> & -> & E1 & E2 & Hs). cbn [mbind res_bind]. rewrite E1. cbn [mbind res_bind]. rewrite E2. cbn [mbind res_bind]. do 3 eexists. split; [done|]. eapply spans_ext; [|exact Hs]. tauto.
  - assert (HF : Forall (fun c => exists b lo hi, vdev_resilver_needed c = Ok (b, lo, hi) /\ spans (wants c) b lo hi /\ (b = true -> lo < 2 ^ 64 /\ 0 <= hi)) (c :: ch)).
    { rewrite !Forall_forall in *. intros c' Hc'. destruct (IH c' Hc' (Hch c' Hc') (Hfc c' Hc')) as (b & lo & hi & E & Hs). exists b, lo, hi. split; [done|]. split; [done|]. intros ->. destruct Hs as (H1 & H2 & _). apply (wants_inside c' _ (Hch c' Hc')) in H1, H2. lia. }
    destruct (needed_children (c :: ch) HF (fun _ => False) false (2 ^ 64 - 1) 0) as (b & lo & hi & E & Hs); [by cbn; split; [intros x []|]|]. exists b, lo, hi. split; [exact E|]. eapply spans_ext; [|exact Hs]. cbn. tauto.
Qed.

(** [vdev_resilver_needed] returns, says whether a writeable device in the tree is
    missing some transaction group, and gives the tightest open range that holds all
    of them. *)
Theorem vdev_resilver_needed_correct vd : vdev_ok vd -> from_one vd -> exists b lo hi, vdev_resilver_needed vd = Ok (b, lo, hi) /\
  (b = true <-> exists x, wants vd x) /\ (b = true -> wants vd (lo + 1) /\ wants vd (hi - 1) /\ forall x, wants vd x -> lo < x < hi).
Proof using All.
  intros Hok Hf. destruct (vdev_resilver_needed_ok vd Hok Hf) as (b & lo & hi & E & Hs & _). exists b, lo, hi. split; [done|]. destruct b; cbn in Hs.
  - split; [|done]. split; [intros _; exists (lo + 1); apply Hs|done].
  - split; [|done]. split; [done|]. intros [x Hx]. by destruct Hs as [Hno _]; destruct (Hno x).
Qed.
End spec.

(** ** A concrete mirror *)

#[local] Existing Instance ex_kmem.
#[local] Existing Instance ex_kmem_laws.

(** Two devices, the first of which is missing the transaction groups 5 to 9. *)
Definition ex_device (guid : Z) : vdev_info := VdevInfo guid false true false false false 0 7 false false.
Definition ex_mirror : vdev_info := VdevInfo 1 false false false false false 0 7 false false.

Abbreviation ex_M := (space_map Avl.avl_tree unit).

Lemma ex_log : dtl_map (space_map_create 0 (2 ^ 64 - 1) 0 : ex_M).
Proof.
  assert (Hok : sm_ok (space_map_create 0 (2 ^ 64 - 1) 0 : ex_M) []) by (by apply space_map_create_ok). constructor; [by exists []|done|done|].
  intros x y _ _. pose proof (proj2 (space_empty _ Hok) x). pose proof (proj2 (space_empty _ Hok) y). tauto.
Qed.

Lemma ex_dtls : dtls_ok (dtl_create : vdev_dtl ex_M).
Proof. constructor; apply ex_log. Qed.

Lemma ex_tree : exists (missing : ex_M), (forall x, space missing x <-> inside 5 5 x) /\
  vdev_ok (Vdev ex_mirror dtl_create [Vdev (ex_device 2) (VdevDtl missing (DTL_PARTIAL dtl_create) (DTL_SCRUB dtl_create) (DTL_OUTAGE dtl_create)) []; Vdev (ex_device 3) dtl_create []]) /\
  from_one (Vdev ex_mirror dtl_create [Vdev (ex_device 2) (VdevDtl missing (DTL_PARTIAL dtl_create) (DTL_SCRUB dtl_create) (DTL_OUTAGE dtl_create)) []; Vdev (ex_device 3) dtl_create []]).
Proof.
  assert (Hok : sm_ok (space_map_create 0 (2 ^ 64 - 1) 0 : ex_M) []) by (by apply space_map_create_ok). pose proof (proj2 (space_empty _ Hok)) as Hno.
  destruct (space_map_add_ok _ [] 5 5 Hok) as (sm & l & _ & Hok' & (F1 & F2 & F3 & _ & _ & _ & _ & F8) & _ & Hx); [done|intros x _; apply Hno|].
  assert (Hx' : forall x, space sm x <-> inside 5 5 x) by (intros x; rewrite Hx; specialize (Hno x); tauto).
  assert (Hd : dtl_map sm).
  { constructor; [by exists l|by rewrite F1, F2, F3| |]; [unfold same_cmp in F8; by destruct (sm_pp_root sm)|]. intros x y ? ?. rewrite !Hx'. unfold horizon in *. lia. }
  exists sm. split; [done|]. split.
  - apply vdev_ok_intro; [apply ex_dtls|done|done|done|]. constructor; [|constructor; [|constructor]]; (apply vdev_ok_intro; [|done|done|done|constructor]); [|apply ex_dtls]. constructor; [exact Hd|apply ex_log..].
  - constructor; [intros x Hxx; by destruct (Hno x)|]. constructor; [|constructor; [|constructor]]; (constructor; [|constructor]); cbn; intros x Hxx; [apply Hx' in Hxx; lia|by destruct (Hno x)].
Qed.

Lemma vdev_dtl_reassess_witness : exists (vd vd' : vdev ex_M), vdev_dtl_reassess (ScrubState false None) vd 20 0 false = Ok (vd', [2; 3]) /\ (forall x, space (DTL_PARTIAL (vd_dtl vd')) x <-> inside 5 5 x) /\
  forall x, ~ space (DTL_OUTAGE (vd_dtl vd')) x.
Proof.
  destruct ex_tree as (missing & Hx & Hok & _). destruct (vdev_dtl_reassess_correct (ScrubState false None) 20 0 false _ ltac:(unfold horizon; lia) Hok) as (vd' & E & _ & Ha). eexists _, vd'. split; [exact E|]. clear E Hok.
  assert (Hno : forall x, ~ space (DTL_MISSING (dtl_create : vdev_dtl ex_M)) x) by (apply (space_empty (T := Avl.avl_tree) (O := unit)), space_map_create_ok; done).
  inversion Ha as [| |i d d' ch ch' HF _ _ (_ & Hp & _ & Ho)]; subst; [done|done|]. inversion HF as [|c1 c1' r r' H1 HF1]; subst. inversion HF1 as [|c2 c2' r2 r2' H2 HF2]; subst. inversion HF2; subst.
  inversion H1 as [|i1 d1 d1' ch1 ch1' _ _ _ (M1 & P1 & _ & O1)|]; subst; [done| |done]. inversion H2 as [|i2 d2 d2' ch2 ch2' _ _ _ (M2 & P2 & _ & O2)|]; subst; [done| |done]. cbn in *. split.
  - intros x. rewrite Hp. split.
    + intros Hl%at_least_1. inversion Hl as [S Ss Hs|S Ss Hs]; subst; [by apply Hx, M1, P1|]. inversion Hs as [S' Ss' Hs'|S' Ss' Hs']; subst; [|inversion Hs']. by apply P2, M2, Hno in Hs'.
    + intros Hi. exists (0 + 1). split; [|lia]. apply counts_in; [by apply P1, M1, Hx|]. apply counts_out; [|constructor]. intros Hs. by apply P2, M2, Hno in Hs.
  - intros x (n & Hn & Hge)%Ho. apply counts_all in Hn; [|exact Hge]. apply Forall_cons in Hn as [_ [Hn _]%Forall_cons]. by apply O2, M2, Hno in Hn.
Defined.

Lemma vdev_dtl_required_witness : exists (tvd tvd2 : vdev ex_M) required, vdev_dtl_required (ScrubState false None) tvd 3 false false None = Ok (tvd2, required) /\ vdev_ok tvd2.
Proof.
  destruct ex_tree as (missing & Hx & Hok & _). destruct (vdev_dtl_required_correct (ScrubState false None) _ 3 false Hok ltac:(done)) as (tvd1 & tvd2 & required & E & _ & _ & Hok2 & _). eexists _, tvd2, required. split; [exact E|exact Hok2].
Defined.

Lemma vdev_resilver_needed_witness : exists (vd : vdev ex_M), vdev_resilver_needed vd = Ok (true, 4, 10).
Proof.
  destruct ex_tree as (missing & Hx & Hok & Hf). destruct (vdev_resilver_needed_correct _ Hok Hf) as (b & lo & hi & E & Hb & Hs). eexists. rewrite E.
  assert (Hno : forall x, ~ space (DTL_MISSING (dtl_create : vdev_dtl ex_M)) x) by (apply (space_empty (T := Avl.avl_tree) (O := unit)), space_map_create_ok; done).
  assert (Hw : forall x, inside 5 5 x -> wants (Vdev ex_mirror dtl_create [Vdev (ex_device 2) (VdevDtl missing (DTL_PARTIAL dtl_create) (DTL_SCRUB dtl_create) (DTL_OUTAGE dtl_create)) []; Vdev (ex_device 3) dtl_create []]) x) by (intros x Hi; left; split; [done|by apply Hx]).
  assert (b = true) as -> by (apply Hb; exists 5; apply Hw; lia). destruct Hs as (H1 & H2 & H3); [done|]. pose proof (H3 5 (Hw 5 ltac:(lia))). pose proof (H3 9 (Hw 9 ltac:(lia))).
  destruct H1 as [[_ H1%Hx]|[[_ H1%Hno]|[]]]; [|done]. destruct H2 as [[_ H2%Hx]|[[_ H2%Hno]|[]]]; [|done]. assert (lo = 4) as -> by lia. assert (hi = 10) as -> by lia. done.
Defined.
End VdevDtlSpec.
