(* ===== verification/Rrwlock.v ===== *)
(** Re-entrant reader/writer locks (module/zfs/rrwlock.c) in a kernel built without
    DEBUG: the lock, and the threads that enter it, wait for it and leave it.  Each
    stretch of code that holds [rr_lock] is one step; [cv_wait] ends a step and a
    [cv_broadcast] lets every sleeper try again. *)

From stdpp Require Import gmap relations.
From S2P Require Import Prelude.
Open Scope Z_scope.

Module Rrwlock.

Inductive krw := RW_WRITER | RW_READER.
#[export] Instance krw_eq : EqDecision krw.
Proof. solve_decision. Defined.

(** A [kthread_t *]. *)
Abbreviation thread := positive.

Record rrwlock := Lock {
  rr_writer : option thread;
  rr_anon_rcount : Z;
  rr_linked_rcount : Z;
  rr_writer_wanted : bool
}.

(** refcount.h: counts are bare 64-bit words. *)
Definition refcount_create : Z := 0.
Definition refcount_destroy (rc : Z) : Z := 0.
Definition refcount_is_zero (rc : Z) : bool := rc =? 0.
Definition refcount_count (rc : Z) : Z := rc.
Definition refcount_add (rc : Z) : Z := u64 (rc + 1).
Definition refcount_remove (rc : Z) : Z := u64 (rc - 1).

(** What a routine does besides changing the lock. *)
Inductive effect := Broadcast | NodeAlloc.
#[export] Instance effect_eq : EqDecision effect.
Proof. solve_decision. Defined.

(** The walk over the thread's nodes is commented out. *)
Definition rrn_find (rrl : rrwlock) : option unit :=
  if refcount_count (rr_linked_rcount rrl) =? 0 then None else None.

(** The node is allocated, and linked to nothing. *)
Definition rrn_add (rrl : rrwlock) : list effect := [NodeAlloc].

(** So is this walk. *)
Definition rrn_find_and_remove (rrl : rrwlock) : bool :=
  if refcount_count (rr_linked_rcount rrl) =? 0 then false else false.

Definition rrw_init : rrwlock := Lock None refcount_create refcount_create false.

Definition rrw_destroy (rrl : rrwlock) : rrwlock :=
  Lock (rr_writer rrl) (refcount_destroy (rr_anon_rcount rrl)) (refcount_destroy (rr_linked_rcount rrl)) (rr_writer_wanted rrl).

Definition with_anon (rrl : rrwlock) (n : Z) : rrwlock :=
  Lock (rr_writer rrl) n (rr_linked_rcount rrl) (rr_writer_wanted rrl).
Definition with_linked (rrl : rrwlock) (n : Z) : rrwlock :=
  Lock (rr_writer rrl) (rr_anon_rcount rrl) n (rr_writer_wanted rrl).

Definition has_writer (rrl : rrwlock) : bool := match rr_writer rrl with Some _ => true | None => false end.

(** What came of an attempt to enter: the lock, or [cv_wait]. *)
Inductive outcome := Entered (rrl : rrwlock) (ev : list effect) | Sleeps (rrl : rrwlock).

Definition enter_read_loop (rrl : rrwlock) : outcome :=
  if has_writer rrl || (rr_writer_wanted rrl && refcount_is_zero (rr_anon_rcount rrl) && bool_decide (rrn_find rrl = None))
  then Sleeps rrl
  else if rr_writer_wanted rrl
  then Entered (with_linked rrl (refcount_add (rr_linked_rcount rrl))) (rrn_add rrl)
  else Entered (with_anon rrl (refcount_add (rr_anon_rcount rrl))) [].

Definition rrw_enter_read (rrl : rrwlock) : outcome :=
  if negb (has_writer rrl) && negb (rr_writer_wanted rrl)
  then Entered (with_anon rrl (u64 (rr_anon_rcount rrl + 1))) []
  else enter_read_loop rrl.

Definition rrw_enter_write (curthread : thread) (rrl : rrwlock) : outcome :=
  if (0 <? refcount_count (rr_anon_rcount rrl)) || (0 <? refcount_count (rr_linked_rcount rrl)) || has_writer rrl
  then Sleeps (Lock (rr_writer rrl) (rr_anon_rcount rrl) (rr_linked_rcount rrl) true)
  else Entered (Lock (Some curthread) (rr_anon_rcount rrl) (rr_linked_rcount rrl) false) [].

Definition rrw_enter (curthread : thread) (rrl : rrwlock) (rw : krw) : outcome :=
  match rw with RW_READER => rrw_enter_read rrl | RW_WRITER => rrw_enter_write curthread rrl end.

(** Back from [cv_wait]: the test of the loop, once more. *)
Definition rrw_retry (curthread : thread) (rrl : rrwlock) (rw : krw) : outcome :=
  match rw with RW_READER => enter_read_loop rrl | RW_WRITER => rrw_enter_write curthread rrl end.

Definition wake_if (b : bool) : list effect := if b then [Broadcast] else [].

Definition rrw_exit (rrl : rrwlock) : rrwlock * list effect :=
  if negb (has_writer rrl) && (rr_linked_rcount rrl =? 0) then
    let n := u64 (rr_anon_rcount rrl - 1) in (with_anon rrl n, wake_if (n =? 0))
  else if negb (has_writer rrl) then
    if rrn_find_and_remove rrl
    then let n := refcount_remove (rr_linked_rcount rrl) in (with_linked rrl n, wake_if (n =? 0))
    else let n := refcount_remove (rr_anon_rcount rrl) in (with_anon rrl n, wake_if (n =? 0))
  else (Lock None (rr_anon_rcount rrl) (rr_linked_rcount rrl) (rr_writer_wanted rrl), [Broadcast]).

Definition rrw_held (curthread : thread) (rrl : rrwlock) (rw : krw) : bool :=
  match rw with
  | RW_WRITER => bool_decide (rr_writer rrl = Some curthread)
  | RW_READER => negb (refcount_is_zero (rr_anon_rcount rrl)) || negb (refcount_is_zero (rr_linked_rcount rrl))
  end.

(** ** Threads

    The entries that have not been left yet, the threads inside [cv_wait] with what
    they want and whether they have been woken, and the [rrw_node_t]s allocated. *)
Record sys := Sys {
  rrl : rrwlock;
  held : list (thread * krw);
  waiting : gmap thread (krw * bool);
  nodes : nat
}.

Definition idle : sys := Sys rrw_init [] ∅ 0.

Definition woken (ev : list effect) (w : gmap thread (krw * bool)) : gmap thread (krw * bool) :=
  if bool_decide (Broadcast ∈ ev) then (fun p => (p.1, true)) <$> w else w.

Definition allocs (ev : list effect) : nat := length (filter (NodeAlloc =.) ev).

(** A thread calls [rrw_enter] or [rrw_exit], comes back from [cv_wait] after a
    wake-up, or is woken for no reason. *)
Inductive action := AEnter (t : thread) (rw : krw) | AExit (t : thread) (rw : krw) | ARetry (t : thread) | ASpurious (t : thread).

Definition settle (s : sys) (t : thread) (rw : krw) (o : outcome) : sys :=
  match o with
  | Entered l ev => Sys l ((t, rw) :: held s) (woken ev (delete t (waiting s))) (nodes s + allocs ev)
  | Sleeps l => Sys l (held s) (<[t := (rw, false)]> (waiting s)) (nodes s)
  end.

Fixpoint leave (x : thread * krw) (l : list (thread * krw)) : option (list (thread * krw)) :=
  match l with
  | [] => None
  | y :: l => if decide (x = y) then Some l else (fun l => y :: l) <$> leave x l
  end.

Definition exec (s : sys) (a : action) : option sys :=
  match a with
  | AEnter t rw => match waiting s !! t with None => Some (settle s t rw (rrw_enter t (rrl s) rw)) | Some _ => None end
  | ARetry t => match waiting s !! t with Some (rw, true) => Some (settle s t rw (rrw_retry t (rrl s) rw)) | _ => None end
  | AExit t rw => match waiting s !! t, leave (t, rw) (held s) with
      | None, Some held' => let '(l, ev) := rrw_exit (rrl s) in Some (Sys l held' (woken ev (waiting s)) (nodes s + allocs ev))
      | _, _ => None
      end
  | ASpurious t => match waiting s !! t with Some (rw, false) => Some (Sys (rrl s) (held s) (<[t := (rw, true)]> (waiting s)) (nodes s)) | _ => None end
  end.

Inductive step : sys -> sys -> Prop :=
  step_exec s a s' : exec s a = Some s' -> step s s'.

End Rrwlock.
