(* ===== verification/RrwlockOk.v ===== *)
(** What holds of a re-entrant reader/writer lock after any sequence of steps, and
    the theorems about it. *)

From stdpp Require Import gmap relations.
From S2P Require Import Prelude Rrwlock.
Import Rrwlock.
Open Scope Z_scope.

Module RrwlockOk.

(** ** The invariant *)

(** After [n] steps: the counts agree with the entries (the linked readers never
    leave their count), a waiting writer is behind [rr_writer_wanted], and nobody
    sleeps on a free lock unless a writer is about to take it. *)
Record inv (n : Z) (s : sys) : Prop := Inv {
  i_linked : 0 <= rr_linked_rcount (rrl s) <= n;
  i_held : zlen (held s) <= n;
  i_mode : match rr_writer (rrl s) with
    | None => Forall (fun x => x.2 = RW_READER) (held s) /\ rr_anon_rcount (rrl s) = u64 (zlen (held s) - rr_linked_rcount (rrl s))
    | Some t => held s = [(t, RW_WRITER)] /\ rr_linked_rcount (rrl s) = 0 /\ rr_anon_rcount (rrl s) = 0
    end;
  i_want : rr_writer_wanted (rrl s) = true -> exists t b, waiting s !! t = Some (RW_WRITER, b);
  i_wake : rr_linked_rcount (rrl s) = 0 -> held s = [] -> (exists t rw, waiting s !! t = Some (rw, false)) ->
    exists t, waiting s !! t = Some (RW_WRITER, true);
  i_nodes : Z.of_nat (nodes s) = rr_linked_rcount (rrl s)
}.

Lemma inv_idle : inv 0 idle.
Proof. split; cbn; try done; try lia. by intros _ _ (? & ? & ?). Qed.

Lemma has_writer_spec l : has_writer l = match rr_writer l with Some _ => true | None => false end.
Proof. done. Qed.

(** ** Attempts to enter *)

Lemma enter_read_cases (fast : bool) l t : let o := if fast then rrw_enter t l RW_READER else rrw_retry t l RW_READER in
  (o = Sleeps l /\ (rr_writer l = None -> rr_writer_wanted l = true /\ rr_anon_rcount l = 0)) \/
  (o = Entered (with_anon l (u64 (rr_anon_rcount l + 1))) [] /\ rr_writer l = None) \/
  (o = Entered (with_linked l (u64 (rr_linked_rcount l + 1))) [NodeAlloc] /\ rr_writer l = None).
Proof.
  cbv zeta. cbn [rrw_enter rrw_retry]. unfold rrw_enter_read, enter_read_loop, refcount_is_zero, rrn_find, has_writer.
  rewrite (bool_decide_eq_true_2 ((if _ : bool then None else None) = None)) by (by destruct (_ =? _)).
  destruct (rr_writer l); cbn; [by destruct fast; left|].
  destruct (rr_writer_wanted l); cbn; [|by destruct fast; right; left].
  destruct (Z.eqb_spec (rr_anon_rcount l) 0); destruct fast; cbn; auto.
Qed.

Lemma enter_write_cases l t :
  (rrw_enter_write t l = Sleeps (Lock (rr_writer l) (rr_anon_rcount l) (rr_linked_rcount l) true) /\
    (rr_writer l = None -> 0 < rr_anon_rcount l \/ 0 < rr_linked_rcount l)) \/
  (rrw_enter_write t l = Entered (Lock (Some t) (rr_anon_rcount l) (rr_linked_rcount l) false) [] /\
    rr_writer l = None /\ rr_anon_rcount l <= 0 /\ rr_linked_rcount l <= 0).
Proof.
  unfold rrw_enter_write, refcount_count, has_writer. destruct (rr_writer l); cbn; [left; by rewrite orb_true_r|]. rewrite orb_false_r.
  destruct (Z.ltb_spec 0 (rr_anon_rcount l)), (Z.ltb_spec 0 (rr_linked_rcount l)); cbn; auto.
Qed.

Lemma woken_quiet ev w : Broadcast ∉ ev -> woken ev w = w.
Proof. intros H. unfold woken. by rewrite bool_decide_eq_false_2. Qed.

Section enters.
Context (n : Z) (s : sys) (t : thread) (Hinv : inv n s) (Hn : 0 <= n) (Hn1 : n + 1 < 2 ^ 64).

(** The thread is not waiting for anything else. *)
Context (rw : krw) (Hfree : forall rw' b, waiting s !! t = Some (rw', b) -> rw' = rw).

Lemma read_inv fast : rw = RW_READER -> inv (n + 1) (settle s t rw (if fast : bool then rrw_enter t (rrl s) rw else rrw_retry t (rrl s) rw)).
Proof using All.
  intros ->. destruct Hinv as [Hl Hh Hm Hw Hk Hd].
  assert (Hwt : rr_writer_wanted (rrl s) = true -> exists t' b, t <> t' /\ waiting s !! t' = Some (RW_WRITER, b)).
  { intros [t' [b E]]%Hw. exists t', b. split; [intros <-; by specialize (Hfree _ _ E)|done]. }
  destruct (enter_read_cases fast (rrl s) t) as [[-> Hs]|[[-> Hs]|[-> Hs]]]; cbn [settle].
  - split; cbn; [lia|lia|done| | |done].
    + intros (t' & b & Hne & E)%Hwt. exists t', b. by rewrite lookup_insert_ne.
    + intros L H0 _. destruct (rr_writer (rrl s)); [destruct Hm; congruence|]. destruct (Hs eq_refl) as [(t' & b & Hne & E)%Hwt _].
      assert (exists t', waiting s !! t' = Some (RW_WRITER, true)) as [u Hu] by (destruct b; [by exists t'|]; apply Hk; eauto).
      exists u. rewrite lookup_insert_ne; [done|]. intros <-. by specialize (Hfree _ _ Hu).
  - rewrite Hs in Hm. destruct Hm as [HF Ha]. change (allocs []) with 0%nat. split; cbn; rewrite ?Hs; [lia|lia| | |done|lia].
    + split; [by constructor|]. rewrite Ha, Zplus_mod_idemp_l. f_equal. lia.
    + intros (t' & b & Hne & E)%Hwt. exists t', b. by rewrite woken_quiet, lookup_delete_ne by set_solver.
  - rewrite Hs in Hm. destruct Hm as [HF Ha]. rewrite Z.mod_small by lia. change (allocs [NodeAlloc]) with 1%nat. split; cbn; rewrite ?Hs; [lia|lia| | |done|lia].
    + split; [by constructor|]. rewrite Ha. f_equal. lia.
    + intros (t' & b & Hne & E)%Hwt. exists t', b. by rewrite woken_quiet, lookup_delete_ne by set_solver.
Qed.

Lemma write_inv : rw = RW_WRITER -> inv (n + 1) (settle s t rw (rrw_enter_write t (rrl s))).
Proof using All.
  intros ->. destruct Hinv as [Hl Hh Hm Hw Hk Hd].
  destruct (enter_write_cases (rrl s) t) as [[-> Hs]|(-> & Hs & Ha & Hlk)]; cbn [settle].
  - split; cbn; [lia|lia|done| | |done].
    + intros _. exists t, false. by rewrite lookup_insert_eq.
    + intros L H0 _. destruct (rr_writer (rrl s)); [destruct Hm; congruence|]. destruct Hm as [_ Hm].
      rewrite H0, L in Hm. change (rr_anon_rcount (rrl s) = 0) in Hm. specialize (Hs eq_refl). lia.
  - rewrite Hs in Hm. destruct Hm as [_ Hm]. assert (L : rr_linked_rcount (rrl s) = 0) by lia. rewrite L, Z.sub_0_r, Z.mod_small in Hm by lia.
    change (allocs []) with 0%nat. split; cbn; [lia|lia| |done|done|lia]. assert (E : held s = []) by (apply nil_length_inv; lia). rewrite E. split; [done|]. split; [done|]. lia.
Qed.
End enters.

(** ** Leaving *)

Lemma leave_spec x l l' : leave x l = Some l' -> l ≡ₚ x :: l'.
Proof.
  revert l'. induction l as [|y l IH]; intros l'; cbn; [done|]. destruct (decide (x = y)) as [->|]; [by intros [= ->]|].
  intros (l1 & E & ->)%fmap_Some. rewrite (IH _ E). apply Permutation_swap.
Qed.

Lemma woken_lookup ev w t p : woken ev w !! t = Some p -> exists b, w !! t = Some (p.1, b) /\ (b = true -> p.2 = true).
Proof.
  unfold woken. destruct p as [rw b]. case_bool_decide.
  - rewrite lookup_fmap. intros ([rw' b'] & E & [= -> ->])%fmap_Some. by exists b'.
  - intros E. exists b. done.
Qed.

Lemma woken_some ev w t rw b : w !! t = Some (rw, b) -> exists b', woken ev w !! t = Some (rw, b').
Proof. intros E. unfold woken. case_bool_decide; [exists true; by rewrite lookup_fmap, E|by exists b]. Qed.

Lemma woken_all w t rw b : woken [Broadcast] w !! t = Some (rw, b) -> b = true.
Proof. unfold woken. rewrite bool_decide_eq_true_2 by set_solver. rewrite lookup_fmap. by intros ([] & ? & [= -> ->])%fmap_Some. Qed.

(** A reader that leaves is always taken off the anonymous count. *)
Lemma exit_read l : rr_writer l = None ->
  rrw_exit l = (with_anon l (u64 (rr_anon_rcount l - 1)), wake_if (u64 (rr_anon_rcount l - 1) =? 0)).
Proof. intros E. unfold rrw_exit, rrn_find_and_remove, refcount_remove, refcount_count, has_writer. rewrite E. cbn. by destruct (rr_linked_rcount l =? 0). Qed.

Lemma exit_inv n s t rw held' : inv n s -> 0 <= n -> n + 1 < 2 ^ 64 -> leave (t, rw) (held s) = Some held' ->
  inv (n + 1) (Sys (rrw_exit (rrl s)).1 held' (woken (rrw_exit (rrl s)).2 (waiting s)) (nodes s + allocs (rrw_exit (rrl s)).2)).
Proof.
  intros [Hl Hh Hm Hw Hk Hd] Hn Hn1 E%leave_spec. pose proof (Permutation_length E) as Elen. cbn in Elen.
  assert (Hwake : forall ev, rr_writer_wanted (rrl s) = true -> exists t b, woken ev (waiting s) !! t = Some (RW_WRITER, b)).
  { intros ev (t' & b & Et)%Hw. destruct (woken_some ev _ _ _ _ Et) as [b' ?]. by exists t', b'. }
  destruct (rr_writer (rrl s)) as [w|] eqn:Ew.
  - destruct Hm as (Hm & L & A). rewrite Hm in Elen. assert (held' = []) as -> by (apply nil_length_inv; cbn in Elen; lia).
    unfold rrw_exit, has_writer. rewrite Ew. cbn [negb andb fst snd]. change (allocs [Broadcast]) with 0%nat. split; cbn; [lia|lia| |by apply Hwake| |lia].
    + by rewrite A, L.
    + intros _ _ (t' & rw' & E'). by apply woken_all in E'.
  - destruct Hm as [HF Ha]. rewrite E in HF. apply Forall_inv_tail in HF. rewrite exit_read by done. cbn [fst snd].
    assert (Hal : forall b, allocs (wake_if b) = 0%nat) by (by intros []).
    split; cbn; rewrite ?Ew, ?Hal; [lia|lia| |by apply Hwake| |lia].
    + split; [done|]. rewrite Ha, Zminus_mod_idemp_l. f_equal. lia.
    + intros L -> (t' & rw' & E'). exfalso. rewrite Ha, L, Elen in E'. change (woken [Broadcast] (waiting s) !! t' = Some (rw', false)) in E'. by apply woken_all in E'.
Qed.

(** ** Every step *)

Lemma step_inv n s s' : inv n s -> 0 <= n -> n + 1 < 2 ^ 64 -> step s s' -> inv (n + 1) s'.
Proof.
  intros Hi Hn Hn1 Hs. revert Hi. destruct Hs as [s0 a s1 E]. intros Hi. destruct a as [t rw|t rw|t|t]; cbn in E.
  - destruct (waiting s0 !! t) eqn:Et; [done|]. injection E as <-.
    destruct rw; [apply (write_inv n s0 t Hi Hn Hn1 RW_WRITER ltac:(congruence) eq_refl)|]. apply (read_inv n s0 t Hi Hn Hn1 RW_READER ltac:(congruence) true eq_refl).
  - destruct (waiting s0 !! t) eqn:Et; [done|]. destruct (leave (t, rw) (held s0)) as [held'|] eqn:El; [|done].
    pose proof (exit_inv _ _ _ _ _ Hi Hn Hn1 El) as H. destruct (rrw_exit (rrl s0)) as [l ev]. injection E as <-. done.
  - destruct (waiting s0 !! t) as [[rw []]|] eqn:Et; [|done..]. injection E as <-.
    destruct rw; [apply (write_inv n s0 t Hi Hn Hn1 RW_WRITER ltac:(congruence) eq_refl)|]. apply (read_inv n s0 t Hi Hn Hn1 RW_READER ltac:(congruence) false eq_refl).
  - destruct (waiting s0 !! t) as [[rw []]|] eqn:Et; [done| |done]. injection E as <-. destruct Hi as [Hl Hh Hm Hw Hk Hd].
    split; cbn; [lia|lia|done| | |done].
    + intros (t' & b & Et')%Hw. destruct (decide (t = t')) as [<-|]; [|exists t', b; by rewrite lookup_insert_ne].
      exists t, true. rewrite lookup_insert_eq. congruence.
    + intros L H0 (t' & rw' & Et'). destruct (decide (t = t')) as [<-|Hne]; [by rewrite lookup_insert_eq in Et'|].
      rewrite lookup_insert_ne in Et' by done. destruct (Hk L H0) as [u Hu]; [by exists t', rw'|].
      exists u. rewrite lookup_insert_ne; [done|congruence].
Qed.

Lemma steps_inv m n s s' : nsteps step m s s' -> inv n s -> 0 <= n -> n + Z.of_nat m < 2 ^ 64 -> inv (n + Z.of_nat m) s'.
Proof.
  intros Hs. revert n. induction Hs as [s|m s s1 s2 H1 H2 IH]; intros n Hi Hn Hm.
  - by replace (n + Z.of_nat 0) with n by lia.
  - replace (n + Z.of_nat (S m)) with (n + 1 + Z.of_nat m) by lia. apply IH; [|lia|lia]. by apply (step_inv n s); [..|lia|].
Qed.

Lemma run_inv m s : nsteps step m idle s -> Z.of_nat m < 2 ^ 64 -> inv (Z.of_nat m) s.
Proof. intros Hs Hm. by apply (steps_inv m 0 idle); [|apply inv_idle|..]. Qed.

(** ** The theorems *)

(** A writer is alone. *)
Lemma inv_excludes n s t : inv n s -> (t, RW_WRITER) ∈ held s -> held s = [(t, RW_WRITER)] /\ rr_writer (rrl s) = Some t.
Proof.
  intros [_ _ Hm _ _ _] Hin. destruct (rr_writer (rrl s)) as [w|].
  - destruct Hm as [E _]. rewrite E in *. apply list_elem_of_singleton in Hin. by injection Hin as ->.
  - destruct Hm as [HF _]. rewrite Forall_forall in HF. by specialize (HF _ (proj1 (list_elem_of_In _ _) Hin)).
Qed.

(** C21: Mutual exclusion: after any interleaving of fewer than 2^64 steps a thread that
    holds the lock for writing holds it alone, and [rrw_held] answers that a thread
    is the writer exactly when it is, and that there are readers whenever there are. *)
Theorem rrw_mutual_exclusion m s : nsteps step m idle s -> Z.of_nat m < 2 ^ 64 ->
  (forall t, (t, RW_WRITER) ∈ held s -> held s = [(t, RW_WRITER)]) /\
  (forall t, rrw_held t (rrl s) RW_WRITER = true <-> (t, RW_WRITER) ∈ held s) /\
  (forall t, (t, RW_READER) ∈ held s -> forall t', rrw_held t' (rrl s) RW_READER = true).
Proof.
  intros Hs Hm. pose proof (run_inv m s Hs Hm) as Hi. split_and!.
  - intros t Ht. by apply (inv_excludes _ s t Hi).
  - intros t. cbn. rewrite bool_decide_eq_true. split; [|by apply (inv_excludes _ s t Hi)].
    intros E. destruct Hi as [_ _ Hmode _ _ _]. rewrite E in Hmode. destruct Hmode as [-> _]. set_solver.
  - intros t Ht t'. cbn. unfold refcount_is_zero. destruct Hi as [Hl Hh Hmode _ _ _]. destruct (rr_writer (rrl s)).
    { destruct Hmode as [E _]. rewrite E in Ht. by apply list_elem_of_singleton in Ht. }
    destruct Hmode as [_ Ha]. destruct (Z.eqb_spec (rr_linked_rcount (rrl s)) 0) as [L|]; [|by rewrite orb_true_r].
    assert (held s <> []) by (intros E; rewrite E in Ht; by apply not_elem_of_nil in Ht). destruct (held s) as [|h hs] eqn:Eh; [done|].
    rewrite Ha, L, Z.mod_small by (cbn [length] in *; lia). by rewrite (proj2 (Z.eqb_neq _ _)) by (cbn [length]; lia).
Qed.

(** C30: No wake-up is lost: while no reader has been counted as linked, whenever the lock
    is free and threads wait for it, one of them has been woken, and the lock is its
    for the trying. *)
Theorem rrw_progress m s : nsteps step m idle s -> Z.of_nat m < 2 ^ 64 -> rr_linked_rcount (rrl s) = 0 -> held s = [] -> waiting s <> ∅ ->
  exists t rw s', waiting s !! t = Some (rw, true) /\ exec s (ARetry t) = Some s' /\ held s' = [(t, rw)].
Proof.
  intros Hs Hm L H0 Hw. destruct (run_inv m s Hs Hm) as [_ _ Hmode Hwant Hwake _].
  assert (Hn : rr_writer (rrl s) = None) by (destruct (rr_writer (rrl s)); [destruct Hmode; congruence|done]). rewrite Hn, L, H0 in Hmode.
  destruct Hmode as [_ Ha]. change (rr_anon_rcount (rrl s) = 0) in Ha.
  assert (Hwr : forall t, waiting s !! t = Some (RW_WRITER, true) -> exists t rw s', waiting s !! t = Some (rw, true) /\ exec s (ARetry t) = Some s' /\ held s' = [(t, rw)]).
  { intros t E. eexists t, RW_WRITER, _. split; [done|]. unfold exec. rewrite E. split; [done|]. cbn [rrw_retry].
    destruct (enter_write_cases (rrl s) t) as [[-> Hb]|(-> & _)]; [specialize (Hb Hn); lia|]. cbn. by rewrite H0. }
  destruct (map_choose _ Hw) as (t & [rw b] & E). destruct b; [|destruct (Hwake L H0) as [u Hu]; [by exists t, rw|by apply (Hwr u)]].
  destruct rw; [by apply (Hwr t)|]. destruct (enter_read_cases false (rrl s) t) as [[Eo Hb]|Hb].
  - destruct (Hwant (proj1 (Hb Hn))) as (u & [] & Hu); [by apply (Hwr u)|]. destruct (Hwake L H0) as [v Hv]; [by exists u, RW_WRITER|by apply (Hwr v)].
  - eexists t, RW_READER, _. split; [done|]. unfold exec. rewrite E. split; [done|]. destruct Hb as [[-> _]|[-> _]]; cbn; by rewrite H0.
Qed.

(** Once a reader has been counted as linked, the count never falls again. *)
Lemma linked_stays n s s' : inv n s -> 0 <= n -> n + 1 < 2 ^ 64 -> step s s' -> rr_linked_rcount (rrl s) <= rr_linked_rcount (rrl s').
Proof.
  intros Hi Hn Hn1 Hs. pose proof (step_inv n s s' Hi Hn Hn1 Hs) as Hi'. pose proof (i_nodes _ _ Hi). pose proof (i_nodes _ _ Hi').
  assert (nodes s <= nodes s')%nat; [|lia]. destruct Hs as [s a s' E].
  assert (Hset : forall t rw o, (nodes s <= nodes (settle s t rw o))%nat) by (intros t rw []; cbn; lia).
  destruct a as [t rw|t rw|t|t]; cbn in E; destruct (waiting s !! t) as [[rw' []]|]; try done.
  all: try (injection E as <-; apply Hset || (cbn; lia)).
  destruct (leave _ _); [|done]. destruct (rrw_exit _). injection E as <-. cbn. lia.
Qed.

Lemma linked_steps m n s s' : nsteps step m s s' -> inv n s -> 0 <= n -> n + Z.of_nat m < 2 ^ 64 -> rr_linked_rcount (rrl s) <= rr_linked_rcount (rrl s').
Proof.
  intros Hs. revert n. induction Hs as [s|m s s1 s2 H1 H2 IH]; intros n Hi Hn Hm; [lia|].
  etrans; [apply (linked_stays n s s1); [done|done|lia|done]|]. apply (IH (n + 1)); [apply (step_inv n s); [done|done|lia|done]|lia|lia].
Qed.

(** Threads 1 and 3 read; thread 2 asked to write in between. *)
Definition reads_around_writer : list action :=
  [AEnter 1 RW_READER; AEnter 2 RW_WRITER; AEnter 3 RW_READER; AExit 1 RW_READER; AExit 3 RW_READER].

Fixpoint execs (s : sys) (l : list action) : option sys :=
  match l with [] => Some s | a :: l => match exec s a with Some s => execs s l | None => None end end.

Lemma execs_steps l s s' : execs s l = Some s' -> nsteps step (length l) s s'.
Proof.
  revert s. induction l as [|a l IH]; cbn; intros s E; [injection E as <-; constructor|].
  destruct (exec s a) as [s1|] eqn:E1; [|done]. econstructor; [by econstructor|]. by apply IH.
Qed.

(** C31: Writers can be shut out for good: with the lists of nodes gone, a reader that
    enters while a writer waits is added to the linked count and leaves through the
    anonymous one.  After two readers have come and gone around a waiting writer,
    nobody holds the lock, a node has leaked, and no writer enters in any
    continuation. *)
Theorem rrw_writer_starves : exists s, execs idle reads_around_writer = Some s /\ held s = [] /\ nodes s = 1%nat /\
  (exists b, waiting s !! 2%positive = Some (RW_WRITER, b)) /\
  forall m s', nsteps step m s s' -> Z.of_nat m < 2 ^ 64 - 5 -> forall t, (t, RW_WRITER) ∉ held s'.
Proof.
  destruct (execs idle reads_around_writer) as [s|] eqn:E; [|by vm_compute in E].
  pose proof (execs_steps _ _ _ E) as Hs. exists s. split; [done|].
  assert (Hf : held s = [] /\ nodes s = 1%nat /\ waiting s !! 2%positive = Some (RW_WRITER, true) /\ rr_linked_rcount (rrl s) = 1)
    by (vm_compute in E; injection E as <-; by vm_compute).
  destruct Hf as (F1 & F2 & F3 & F4). do 2 (split; [done|]). split; [by exists true|]. intros m s' Hs' Hm t Ht.
  pose proof (run_inv _ s Hs ltac:(done)) as Hi. pose proof (steps_inv _ _ _ _ Hs' Hi ltac:(done) ltac:(cbn; lia)) as Hi'.
  pose proof (linked_steps _ _ _ _ Hs' Hi ltac:(done) ltac:(cbn; lia)) as Hl. destruct (inv_excludes _ _ _ Hi' Ht) as [Eh Ew].
  destruct Hi' as [_ _ Hmode _ _ _]. rewrite Ew in Hmode. lia.
Qed.

(** ** Witnesses *)

Definition after (l : list action) : sys := default idle (execs idle l).

Lemma rrw_mutual_exclusion_witness : let s := after [AEnter 1 RW_WRITER; AEnter 2 RW_READER] in
  rrw_held 1 (rrl s) RW_WRITER = true /\ held s = [(1%positive, RW_WRITER)].
Proof.
  intros s. destruct (rrw_mutual_exclusion 2 s) as (H1 & H2 & _);
    [exact (execs_steps [AEnter 1 RW_WRITER; AEnter 2 RW_READER] idle s eq_refl)|lia|].
  assert (Hin : (1%positive, RW_WRITER) ∈ held s) by (vm_compute; left). split; [by apply H2|by apply H1].
Defined.

Lemma rrw_progress_witness : let s := after [AEnter 1 RW_WRITER; AEnter 2 RW_READER; AExit 1 RW_WRITER] in
  exists t rw s', waiting s !! t = Some (rw, true) /\ exec s (ARetry t) = Some s' /\ held s' = [(t, rw)].
Proof.
  intros s. apply (rrw_progress 3 s);
    [exact (execs_steps [AEnter 1 RW_WRITER; AEnter 2 RW_READER; AExit 1 RW_WRITER] idle s eq_refl)|lia|reflexivity|reflexivity|].
  intros E. apply (f_equal (lookup 2%positive)) in E. by vm_compute in E.
Defined.

End RrwlockOk.
