(* ===== verification/RangeLock.v ===== *)
(** Range locks (module/zfs/zfs_rlock.c): shared and exclusive locks on ranges of a
    file, kept in an AVL tree sorted by offset.  Overlapping readers are held by
    proxies: entries of the tree that stand for the readers which cover them. *)

From stdpp Require Export gmap sorting.
From S2P Require Import Prelude OrdTree SpaceMap.
Import SpaceMap.
Open Scope Z_scope.

Module RangeLock.

(** ** Locks *)

Inductive rl_type := RL_READER | RL_WRITER | RL_APPEND.
#[export] Instance rl_type_eq : EqDecision rl_type.
Proof. solve_decision. Defined.

Record rl := Rl {
  r_off : Z;
  r_len : Z;
  r_cnt : Z;
  r_type : rl_type;
  r_proxy : bool;
  r_write_wanted : bool;
  r_read_wanted : bool
}.
#[export] Instance rl_inhabited : Inhabited rl := populate (Rl 0 0 0 RL_READER false false false).

Definition with_range (r : rl) (off len : Z) : rl := Rl off len (r_cnt r) (r_type r) (r_proxy r) (r_write_wanted r) (r_read_wanted r).
Definition with_cnt (r : rl) (n : Z) : rl := Rl (r_off r) (r_len r) n (r_type r) (r_proxy r) (r_write_wanted r) (r_read_wanted r).
Definition with_type (r : rl) (ty : rl_type) : rl := Rl (r_off r) (r_len r) (r_cnt r) ty (r_proxy r) (r_write_wanted r) (r_read_wanted r).
Definition wants_write (r : rl) : rl := Rl (r_off r) (r_len r) (r_cnt r) (r_type r) (r_proxy r) true (r_read_wanted r).
Definition wants_read (r : rl) : rl := Rl (r_off r) (r_len r) (r_cnt r) (r_type r) (r_proxy r) (r_write_wanted r) true.

Definition UINT64_MAX : Z := 2 ^ 64 - 1.

Definition r_end (r : rl) : Z := u64 (r_off r + r_len r).

Definition zfs_range_compare (rl1 rl2 : rl) : Z :=
  if r_off rl1 >? r_off rl2 then 1 else if r_off rl1 <? r_off rl2 then -1 else 0.

(** A proxy for [cnt] readers. *)
Definition proxy_of (off len cnt : Z) : rl := Rl off len cnt RL_READER true false false.

(** The part of a znode that range locks use; [z_rls] is the memory of the locks. *)
Record znode (T : Type) := Znode {
  z_range_avl : T;
  z_rls : gmap Z rl;
  z_size : Z;
  z_blksz : Z;
  z_max_blksz : Z;
  z_is_zvol : bool
}.
Arguments Znode {T}.
Arguments z_range_avl {T}.
Arguments z_rls {T}.
Arguments z_size {T}.
Arguments z_blksz {T}.
Arguments z_max_blksz {T}.
Arguments z_is_zvol {T}.

Definition ISP2 (x : Z) : bool := Z.land x (x - 1) =? 0.

(** [cv_broadcast] on the condition variable of a lock for writers, or for readers. *)
Definition cv_event : Type := Z * bool.

Definition broadcasts (p : Z) (r : rl) : list cv_event :=
  (if r_write_wanted r then [(p, true)] else []) ++ (if r_read_wanted r then [(p, false)] else []).

Section rlock.
Context {T I : Type} `{!Tree T I} `{!Kmem}.
Implicit Types (zp : znode T).

Definition with_avl zp (t : T) : znode T := Znode t (z_rls zp) (z_size zp) (z_blksz zp) (z_max_blksz zp) (z_is_zvol zp).
Definition with_rls zp (h : gmap Z rl) : znode T := Znode (z_range_avl zp) h (z_size zp) (z_blksz zp) (z_max_blksz zp) (z_is_zvol zp).

Definition get_rl zp (p : Z) : res rl := match z_rls zp !! p with Some r => Ok r | None => Fault FOob end.
Definition set_rl zp (p : Z) (r : rl) : znode T := with_rls zp (<[p := r]> (z_rls zp)).
Definition new_rl zp (r : rl) : znode T * Z :=
  let p := kmem_alloc (dom (z_rls zp)) in (set_rl zp p r, p).
Definition free_rl zp (p : Z) : znode T := with_rls (with_avl zp (tr_free (z_range_avl zp) p)) (delete p (z_rls zp)).

Definition rl_find zp (r : rl) : res (Z * I) := tr_find (z_range_avl zp) (fun q => zfs_range_compare r (z_rls zp !!! q)).
Definition rl_add zp (p : Z) : res (znode T) :=
  t ← tr_add (z_range_avl zp) (fun a b => zfs_range_compare (z_rls zp !!! a) (z_rls zp !!! b)) p; Ok (with_avl zp t).

(** ** Writers *)

(** The range a writer asks for: an append starts at the end of the file, and the
    whole file is locked when its block size may have to grow. *)
Definition writer_range zp (new : rl) (off len : Z) : rl :=
  let new := with_range new off len in
  if z_is_zvol zp then new
  else
    let new := if decide (r_type new = RL_APPEND) then with_range new (z_size zp) len else new in
    let end_size := Z.max (z_size zp) (u64 (r_off new + len)) in
    if (z_blksz zp <? end_size) && (negb (ISP2 (z_blksz zp)) || (z_blksz zp <? z_max_blksz zp))
    then with_range new 0 UINT64_MAX else new.

(** The lock in the way of [new], or [NULL]. *)
Definition writer_blocker zp (new : rl) : res (Z * I) :=
  '(q, where_) ← rl_find zp new;
  if negb (q =? NULL) then Ok (q, where_)
  else
    q ← tr_nearest (z_range_avl zp) where_ AVL_AFTER;
    after ← (if negb (q =? NULL) then r ← get_rl zp q; Ok (r_off r <? r_end new) else Ok false);
    if (after : bool) then Ok (q, where_)
    else
      q ← tr_nearest (z_range_avl zp) where_ AVL_BEFORE;
      before ← (if negb (q =? NULL) then r ← get_rl zp q; Ok (r_off new <? r_end r) else Ok false);
      if (before : bool) then Ok (q, where_) else Ok (NULL, where_).

(** One round of the loop of [zfs_range_lock_writer]: the lock [p] is granted, or
    waits for the lock returned. *)
Definition zfs_range_lock_writer zp (p off len : Z) : res (znode T * Z) :=
  new ← get_rl zp p;
  let new := writer_range zp new off len in
  let zp := set_rl zp p new in
  if tr_numnodes (z_range_avl zp) =? 0 then
    zp ← rl_add (set_rl zp p (with_type new RL_WRITER)) p; Ok (zp, NULL)
  else
    '(q, where_) ← writer_blocker zp new;
    if q =? NULL then
      t ← tr_insert (z_range_avl zp) p where_;
      Ok (with_avl (set_rl zp p (with_type new RL_WRITER)) t, NULL)
    else
      r ← get_rl zp q;
      Ok (set_rl zp q (wants_write r), q).

(** ** Readers *)

Definition zfs_range_proxify zp (p : Z) : res (znode T * Z) :=
  r ← get_rl zp p;
  if r_proxy r then Ok (zp, p)
  else
    t ← tr_remove (z_range_avl zp) p;
    let zp := set_rl (with_avl zp t) p (with_cnt r 0) in
    let '(zp, proxy) := new_rl zp (proxy_of (r_off r) (r_len r) 1) in
    zp ← rl_add zp proxy;
    Ok (zp, proxy).

Definition zfs_range_split zp (p off : Z) : res (znode T * Z) :=
  r ← get_rl zp p;
  let '(zp, rear) := new_rl zp (proxy_of off (u64 (u64 (r_off r + r_len r) - off)) (r_cnt r)) in
  '(zp, front) ← zfs_range_proxify zp p;
  r ← get_rl zp p;
  f ← get_rl zp front;
  let zp := set_rl zp front (with_range f (r_off f) (u64 (off - r_off r))) in
  t ← tr_insert_here (z_range_avl zp) rear front AVL_AFTER;
  Ok (with_avl zp t, front).

Definition zfs_range_new_proxy zp (off len : Z) : res (znode T) :=
  let '(zp, p) := new_rl zp (proxy_of off len 1) in rl_add zp p.

Definition bump zp (p : Z) : res (znode T) := r ← get_rl zp p; Ok (set_rl zp p (with_cnt r (u32 (r_cnt r + 1)))).

(** One round of the loop of [zfs_range_add_reader], for a range that ends at [end_]. *)
Definition add_reader_step (end_ : Z) (st : znode T * Z * Z) : res (znode T * Z * Z + znode T) :=
  let '(zp, prev, next) := st in
  past ← (if next =? NULL then Ok true else n ← get_rl zp next; Ok (end_ <=? r_off n));
  if (past : bool) then
    r ← get_rl zp prev;
    zp ← zfs_range_new_proxy zp (r_end r) (u64 (end_ - r_end r)); Ok (inr zp)
  else
    n ← get_rl zp next;
    zp ← (if prev =? NULL then Ok zp
          else r ← get_rl zp prev;
            if r_end r <? r_off n then zfs_range_new_proxy zp (r_end r) (u64 (r_off n - r_end r)) else Ok zp);
    if end_ =? r_end n then
      '(zp, next) ← zfs_range_proxify zp next; zp ← bump zp next; Ok (inr zp)
    else if end_ <? r_end n then
      '(zp, next) ← zfs_range_split zp next end_; zp ← bump zp next; Ok (inr zp)
    else
      '(zp, next) ← zfs_range_proxify zp next;
      zp ← bump zp next;
      after ← tr_walk (z_range_avl zp) next AVL_AFTER;
      Ok (inl (zp, next, after)).

(** The entries from [next] on. *)
Definition add_reader_loop zp (end_ next : Z) : res (znode T) :=
  loop (tr_fuel (z_range_avl zp)) (add_reader_step end_) (zp, NULL, next).

(** The entry at [off]: [prev], or what is left of it from [off] on, or none. *)
Definition add_reader_prev zp (off prev : Z) : res (znode T * Z) :=
  if negb (prev =? NULL) then
    r ← get_rl zp prev;
    if r_end r <=? off then Ok (zp, NULL)
    else if negb (r_off r =? off) then
      '(zp, prev) ← zfs_range_split zp prev off;
      prev ← tr_walk (z_range_avl zp) prev AVL_AFTER;
      Ok (zp, prev)
    else Ok (zp, prev)
  else Ok (zp, prev).

Definition zfs_range_add_reader zp (p prev : Z) (where_ : I) : res (znode T) :=
  new ← get_rl zp p;
  let off := r_off new in
  let len := r_len new in
  '(zp, prev) ← add_reader_prev zp off prev;
  next ← (if negb (prev =? NULL) then Ok prev else tr_nearest (z_range_avl zp) where_ AVL_AFTER);
  noverlap ← (if next =? NULL then Ok true else n ← get_rl zp next; Ok (u64 (off + len) <=? r_off n));
  if (noverlap : bool) then
    t ← tr_insert (z_range_avl zp) p where_; Ok (with_avl zp t)
  else
    n ← get_rl zp next;
    zp ← (if off <? r_off n then zfs_range_new_proxy zp off (u64 (r_off n - off)) else Ok zp);
    new ← get_rl zp p;
    let zp := set_rl zp p (with_cnt new 0) in
    add_reader_loop zp (u64 (off + len)) next.

(** A lock that a reader does not share. *)
Definition closed_to_readers (r : rl) : bool := bool_decide (r_type r = RL_WRITER) || r_write_wanted r.

(** The first lock from [next] on that bars a reader up to [end_], or [NULL]. *)
Definition reader_scan zp (end_ next : Z) : res Z :=
  loop (tr_fuel (z_range_avl zp)) (fun next =>
    if next =? NULL then Ok (inr NULL)
    else
      n ← get_rl zp next;
      if end_ <=? r_off n then Ok (inr NULL)
      else if closed_to_readers n then Ok (inr next)
      else if end_ <=? r_end n then Ok (inr NULL)
      else after ← tr_walk (z_range_avl zp) next AVL_AFTER; Ok (inl after)) next.

(** The lock that bars the reader [new], or [NULL], after [prev] and, if need be, the
    locks that follow it have been looked at. *)
Definition reader_blocker zp (new : rl) (prev : Z) (where_ : I) : res Z :=
  let from := (
    next ← (if negb (prev =? NULL) then tr_walk (z_range_avl zp) prev AVL_AFTER else tr_nearest (z_range_avl zp) where_ AVL_AFTER);
    reader_scan zp (r_end new) next) in
  if negb (prev =? NULL) then
    r ← get_rl zp prev;
    if r_off new <? r_end r then
      if closed_to_readers r then Ok prev
      else if r_end new <? r_end r then Ok NULL
      else from
    else from
  else from.

(** One round of [zfs_range_lock_reader], from [retry] on. *)
Definition zfs_range_lock_reader zp (p : Z) : res (znode T * Z) :=
  new ← get_rl zp p;
  '(prev, where_) ← rl_find zp new;
  prev ← (if prev =? NULL then tr_nearest (z_range_avl zp) where_ AVL_BEFORE else Ok prev);
  q ← reader_blocker zp new prev where_;
  if q =? NULL then zp ← zfs_range_add_reader zp p prev where_; Ok (zp, NULL)
  else r ← get_rl zp q; Ok (set_rl zp q (wants_read r), q).

(** ** Locking and unlocking *)

(** The first round of a request: the new lock, and the lock it waits for. *)
Definition zfs_range_lock zp (off len : Z) (type : rl_type) : res (znode T * Z * Z) :=
  _ ← verify (negb (len =? 0));
  let len := if u64 (len + off) <? off then UINT64_MAX - off else len in
  let '(zp, p) := new_rl zp (Rl off len 1 type false false false) in
  '(zp, q) ←
    (if decide (type = RL_READER) then
       if tr_numnodes (z_range_avl zp) =? 0 then zp ← rl_add zp p; Ok (zp, NULL)
       else zfs_range_lock_reader zp p
     else zfs_range_lock_writer zp p off len);
  Ok (zp, p, q).

(** One round of the walk over the proxies of a reader: [len] bytes from [p] on. *)
Definition unlock_step (st : znode T * list cv_event * list Z * Z * Z * Z) :
    res (znode T * list cv_event * list Z * Z * Z * Z + znode T * list cv_event * list Z) :=
  let '(zp, ev, freed, len, next, p) := st in
  if len =? 0 then Ok (inr (zp, ev, freed))
  else
    r ← get_rl zp p;
    let len := u64 (len - r_len r) in
    next ← (if negb (len =? 0) then tr_walk (z_range_avl zp) p AVL_AFTER else Ok next);
    let r := with_cnt r (u32 (r_cnt r - 1)) in
    let zp := set_rl zp p r in
    if r_cnt r =? 0 then
      t ← tr_remove (z_range_avl zp) p;
      Ok (inl (with_avl zp t, ev ++ broadcasts p r, freed ++ [p], len, next, next))
    else Ok (inl (zp, ev, freed, len, next, next)).

Definition unlock_loop zp (len p : Z) : res (znode T * list cv_event * list Z) :=
  loop (S (tr_fuel (z_range_avl zp))) unlock_step (zp, [], [], len, NULL, p).

Definition zfs_range_unlock_reader zp (p : Z) : res (znode T * list cv_event * list Z) :=
  r ← get_rl zp p;
  if r_cnt r =? 1 then
    t ← tr_remove (z_range_avl zp) p;
    Ok (with_avl zp t, broadcasts p r, [p])
  else
    '(q, _) ← rl_find zp r;
    '(zp, ev, freed) ← unlock_loop zp (r_len r) q;
    Ok (free_rl zp p, ev, freed).

Definition zfs_range_unlock zp (p : Z) : res (znode T * list cv_event) :=
  r ← get_rl zp p;
  '(zp, ev, freed) ←
    (if decide (r_type r = RL_WRITER) then
       t ← tr_remove (z_range_avl zp) p;
       Ok (with_avl zp t, broadcasts p r, [p])
     else zfs_range_unlock_reader zp p);
  Ok (foldl free_rl zp freed, ev).

Definition zfs_range_reduce zp (p off len : Z) : res (znode T * list cv_event) :=
  r ← get_rl zp p;
  let r := with_range r off len in
  Ok (set_rl zp p r, broadcasts p r).
End rlock.
End RangeLock.
