(* ===== verification/RangeLockSet.v ===== *)
(** Entries of a range lock tree: sorted, apart from each other, and each counting
    the readers that it stands for. *)

From S2P Require Import Prelude OrdTree SpaceMap RangeLock.
Import RangeLock.
Open Scope Z_scope.

Module RangeLockSet.

Abbreviation fin r := (r_off r + r_len r).

(** ** Readers at a position *)

(** How many of the ranges hold [x]. *)
Fixpoint cover (P : list (Z * Z)) (x : Z) : Z :=
  match P with [] => 0 | ab :: P => (if (ab.1 <=? x) && (x <? ab.2) then 1 else 0) + cover P x end.

Lemma cover_bound P x : 0 <= cover P x <= zlen P.
Proof. induction P as [|ab P IH]; cbn [cover length]; [lia|]. case_if as E; lia. Qed.

Lemma cover_perm P P' x : P ≡ₚ P' -> cover P x = cover P' x.
Proof. induction 1; cbn; lia. Qed.

Lemma cover_pos P a b x : (a, b) ∈ P -> a <= x < b -> 0 < cover P x.
Proof.
  intros Hin Hx. apply list_elem_of_split in Hin as (P1 & P2 & ->). rewrite <- (cover_perm _ _ x (Permutation_middle P1 P2 (a, b))). cbn.
  rewrite (proj2 (Z.leb_le a x)), (proj2 (Z.ltb_lt x b)) by lia. cbn. pose proof (cover_bound (P1 ++ P2) x). lia.
Qed.

(** ** Entries *)

Definition rl_wf (r : rl) : Prop := 0 <= r_off r /\ 0 < r_len r /\ fin r < 2 ^ 64.

(** A range does not begin or end inside an entry. *)
Definition edge (r : rl) (ab : Z * Z) : Prop := (ab.1 <= r_off r \/ fin r <= ab.1) /\ (ab.2 <= r_off r \/ fin r <= ab.2).

(** A proxy counts the readers of [P] that cover it; another entry is one lock, and
    no reader of [P] touches it. *)
Record entry (P : list (Z * Z)) (r : rl) : Prop := Entry {
  e_wf : rl_wf r;
  e_kind : if r_proxy r then r_type r = RL_READER /\ r_cnt r = cover P (r_off r) /\ 0 < r_cnt r
           else r_type r <> RL_APPEND /\ r_cnt r = 1 /\ cover P (r_off r) = 0;
  e_edge : Forall (edge r) P;
  e_flag : r_read_wanted r = true -> closed_to_readers r = true
}.

Definition apart (r s : rl) : Prop := fin r <= r_off s.
Abbreviation ord := (StronglySorted apart).
Abbreviation holds x r := (r_off r <= x < fin r).

(** The entries of a tree, for the readers [P] that are held by proxies. *)
Definition ok (rs : list rl) (P : list (Z * Z)) : Prop :=
  ord rs /\ Forall (entry P) rs /\ forall x, 0 < cover P x -> Exists (fun r => holds x r) rs.

Lemma entry_change P P' r : entry P r -> cover P' (r_off r) = cover P (r_off r) -> Forall (edge r) P' -> entry P' r.
Proof. intros [H1 H2 H3 H4] E Hed. split; try done. by rewrite E. Qed.

Lemma cover_const P r x : Forall (edge r) P -> holds x r -> cover P x = cover P (r_off r).
Proof.
  intros He Hx. induction He as [|[a b] P [Ha Hb] He IH]; [done|]. cbn in *. rewrite IH.
  destruct (Z.leb_spec a x), (Z.ltb_spec x b), (Z.leb_spec a (r_off r)), (Z.ltb_spec (r_off r) b); cbn; lia.
Qed.

Lemma ok_perm rs P P' : P ≡ₚ P' -> ok rs P -> ok rs P'.
Proof.
  intros Hp (H1 & H2 & H3). split; [done|]. split.
  - eapply Forall_impl; [exact H2|]. intros r Hr. eapply entry_change; [exact Hr|symmetry; by apply cover_perm|]. rewrite <- Hp. apply Hr.
  - intros x Hx. apply H3. by rewrite (cover_perm _ _ _ Hp).
Qed.

(** ** Order *)

Lemma ord_app l l' : ord (l ++ l') <-> ord l /\ ord l' /\ forall r s, r ∈ l -> s ∈ l' -> fin r <= r_off s.
Proof. rewrite StronglySorted_app. unfold apart. naive_solver. Qed.

Lemma ord_around lo r hi : ord (lo ++ r :: hi) <-> ord (lo ++ hi) /\ Forall (fun s => fin s <= r_off r) lo /\ Forall (fun s => fin r <= r_off s) hi.
Proof.
  rewrite !ord_app, !list.Forall_forall. split.
  - intros (H1 & [H2 H3]%StronglySorted_inv & H4). rewrite list.Forall_forall in H3. split_and!; try done; intros; apply H4; set_solver.
  - intros ((H1 & H2 & H3) & H4 & H5). split_and!; [done|constructor; [done|by apply list.Forall_forall]|]. intros a b Ha [->|Hb]%elem_of_cons; auto.
Qed.

(** ** Changes to a window *)

(** The entries between [A] and [B] are replaced, and the readers change there. *)
Lemma ok_window A B lo old hi mid P P' : ok (lo ++ old ++ hi) P ->
  Forall (fun s => fin s <= A) lo -> Forall (fun s => B <= r_off s) hi -> Forall (fun s => A <= r_off s /\ fin s <= B) old ->
  ord mid -> Forall (fun s => A <= r_off s /\ fin s <= B) mid -> Forall (entry P') mid ->
  (forall s, entry P s -> fin s <= A \/ B <= r_off s -> entry P' s) ->
  (forall x, 0 < cover P' x -> A <= x < B -> Exists (fun r => holds x r) mid) ->
  (forall x, 0 < cover P' x -> x < A \/ B <= x -> 0 < cover P x) -> A <= B ->
  ok (lo ++ mid ++ hi) P'.
Proof.
  intros (Ho & He & Hf) Hlo Hhi Hold Hm Hw Hem Hout Hin Hco HAB. rewrite !ord_app in Ho. destruct Ho as (O1 & (O2 & O3 & O4) & O5).
  rewrite !Forall_app in He. destruct He as (E1 & E2 & E3). rewrite !list.Forall_forall in *. split_and!.
  - rewrite !ord_app. split_and!; try done.
    + intros r s Hr Hs. specialize (Hw r Hr). specialize (Hhi s Hs). lia.
    + intros r s Hr [Hs|Hs]%elem_of_app; [specialize (Hw s Hs); specialize (Hlo r Hr); lia|]. apply O5; set_solver.
  - apply list.Forall_forall. intros s. rewrite !elem_of_app. intros [Hs|[Hs|Hs]]; [apply Hout; [by apply E1|left; by apply Hlo]|by apply Hem|apply Hout; [by apply E3|right; by apply Hhi]].
  - intros x Hx. destruct (decide (A <= x < B)) as [HAx|HAx]; [rewrite !Exists_app; right; left; by apply Hin|].
    assert (Hx' : 0 < cover P x) by (apply Hco; [done|lia]). apply Hf in Hx'. rewrite !Exists_app in *. destruct Hx' as [|[Hx'|]]; [by left| |by right; right].
    exfalso. apply Exists_exists in Hx' as (s & Hs & Hx'). specialize (Hold s Hs). lia.
Qed.

(** What the other entries see of it. *)
Lemma grow_outside a m m' P s : a <= m <= m' -> entry ((a, m) :: P) s -> fin s <= m \/ m' <= r_off s -> entry ((a, m') :: P) s.
Proof.
  intros Ha He Hs. pose proof (e_wf _ _ He) as (W1 & W2 & W3). pose proof (e_edge _ _ He) as Hed. apply Forall_cons in Hed as [[Hd1 Hd2] Hed]. cbn in *.
  apply (entry_change _ _ _ He); [|constructor; [split; cbn; lia|done]]. cbn.
  destruct (Z.leb_spec a (r_off s)), (Z.ltb_spec (r_off s) m), (Z.ltb_spec (r_off s) m'); cbn; lia.
Qed.

Lemma shrink_outside m m' b P s : m <= m' <= b -> entry ((m, b) :: P) s -> fin s <= m \/ m' <= r_off s -> entry ((m', b) :: P) s.
Proof.
  intros Ha He Hs. pose proof (e_wf _ _ He) as (W1 & W2 & W3). pose proof (e_edge _ _ He) as Hed. apply Forall_cons in Hed as [[Hd1 Hd2] Hed]. cbn in *.
  apply (entry_change _ _ _ He); [|constructor; [split; cbn; lia|done]]. cbn.
  destruct (Z.leb_spec m (r_off s)), (Z.leb_spec m' (r_off s)), (Z.ltb_spec (r_off s) b); cbn; lia.
Qed.

Lemma add_outside a b P s : a <= b -> entry P s -> fin s <= a \/ b <= r_off s -> entry ((a, b) :: P) s.
Proof.
  intros Hab He Hs. pose proof (e_wf _ _ He) as (W1 & W2 & W3). apply (entry_change _ _ _ He); [|constructor; [split; cbn; lia|apply He]]. cbn.
  destruct (Z.leb_spec a (r_off s)), (Z.ltb_spec (r_off s) b); cbn; lia.
Qed.

Lemma grow_cover a m m' P x : a <= m <= m' -> x < m \/ m' <= x -> cover ((a, m') :: P) x = cover ((a, m) :: P) x.
Proof. intros Ha Hx. cbn. destruct (Z.leb_spec a x), (Z.ltb_spec x m), (Z.ltb_spec x m'); cbn; lia. Qed.

Lemma shrink_cover m m' b P x : m <= m' <= b -> x < m \/ m' <= x -> cover ((m', b) :: P) x = cover ((m, b) :: P) x.
Proof. intros Ha Hx. cbn. destruct (Z.leb_spec m x), (Z.leb_spec m' x), (Z.ltb_spec x b); cbn; lia. Qed.

(** ** The changes *)

Lemma ok_entry lo r hi P : ok (lo ++ r :: hi) P -> entry P r /\ Forall (fun s => fin s <= r_off r) lo /\ Forall (fun s => fin r <= r_off s) hi.
Proof.
  intros (Ho & He & _). apply ord_around in Ho as (_ & ? & ?). split; [|done]. apply Forall_app in He as [_ He]. by apply Forall_inv in He.
Qed.

(** One more reader on a proxy. *)
Lemma ok_bump lo r hi a m P : ok (lo ++ r :: hi) ((a, m) :: P) -> r_proxy r = true -> r_off r = m -> a <= m ->
  ok (lo ++ with_cnt r (r_cnt r + 1) :: hi) ((a, fin r) :: P).
Proof.
  intros Hok Hp <- Ha. destruct (ok_entry _ _ _ _ Hok) as (He & Hlo & Hhi). pose proof He as [(W1 & W2 & W3) Hk Hed Hfl]. rewrite Hp in Hk. destruct Hk as (K1 & K2 & K3).
  apply Forall_cons in Hed as [_ Hed].
  apply (ok_window (r_off r) (fin r) lo [r] hi [with_cnt r (r_cnt r + 1)] ((a, r_off r) :: P)); try done.
  - by constructor; [lia|].
  - by constructor; [constructor|].
  - by constructor; [cbn; lia|].
  - constructor; [|done]. split; cbn [with_cnt r_off r_len r_proxy r_type r_cnt r_read_wanted]; [done| | |done].
    + rewrite Hp. split; [done|]. cbn in K2 |- *.
      destruct (Z.leb_spec a (r_off r)), (Z.ltb_spec (r_off r) (r_off r)), (Z.ltb_spec (r_off r) (fin r)); cbn in *; lia.
    + constructor; [|done]. split; cbn; lia.
  - intros s Hs Hx. apply (grow_outside a (r_off r) (fin r)); [lia|done|lia].
  - intros x _ Hx. constructor. cbn. lia.
  - intros x Hc Hx. by rewrite (grow_cover a (r_off r)) in Hc by lia.
  - lia.
Qed.

(** Where there is no entry there is no reader. *)
Lemma gap_clear lo hi r P Q : ok (lo ++ hi) Q -> (forall x, cover P x <= cover Q x) -> ord (lo ++ r :: hi) -> Forall (fun ab => ab.1 < ab.2) P -> rl_wf r ->
  (forall x, holds x r -> cover P x = 0) /\ Forall (edge r) P.
Proof.
  intros (_ & _ & Hf) HPQ (_ & Hlo & Hhi)%ord_around Hne (W1 & W2 & W3).
  assert (Hno : forall x, holds x r -> ~ 0 < cover P x).
  { intros x Hx Hc. specialize (HPQ x). assert (Hq : 0 < cover Q x) by lia. clear Hc. rename Hq into Hc. apply Hf in Hc. rewrite Exists_app, !Exists_exists in Hc. rewrite list.Forall_forall in Hlo, Hhi.
    destruct Hc as [(s & Hs & ?)|(s & Hs & ?)]; [specialize (Hlo s Hs)|specialize (Hhi s Hs)]; lia. }
  split; [intros x Hx; pose proof (cover_bound P x); specialize (Hno x Hx); lia|].
  rewrite list.Forall_forall in *. intros [a b] Hab. specialize (Hne _ Hab). cbn in Hne.
  assert (Ha : ~ (r_off r < a < fin r)) by (intros Hx; apply (Hno a); [lia|]; apply (cover_pos _ _ _ _ Hab); lia).
  assert (Hb : ~ (r_off r < b < fin r)) by (intros Hx; apply (Hno (b - 1)); [lia|]; apply (cover_pos _ _ _ _ Hab); lia).
  split; cbn; lia.
Qed.

(** A proxy for a gap. *)
Lemma ok_fill lo hi a m f P : ok (lo ++ hi) ((a, m) :: P) -> Forall (fun ab => ab.1 < ab.2) P -> ord (lo ++ proxy_of m (f - m) 1 :: hi) -> 0 <= a <= m -> m < f < 2 ^ 64 ->
  ok (lo ++ proxy_of m (f - m) 1 :: hi) ((a, f) :: P).
Proof.
  intros Hok Hne Ho Ha Hm. set (r := proxy_of m (f - m) 1) in *. assert (Ef : fin r = f) by (cbn; lia). assert (Hw : rl_wf r) by (split; cbn; lia).
  pose proof Ho as (_ & Hlo & Hhi)%ord_around.
  destruct (gap_clear lo hi r P _ Hok) as [Hc He]; [intros x; cbn; case_if as E; lia|done..|].
  apply (ok_window m f lo [] hi [r] ((a, m) :: P)); try done.
  - by rewrite Ef in Hhi.
  - by constructor; [constructor|].
  - by constructor; [cbn; lia|].
  - constructor; [|done]. split; [done| | |done].
    + cbn. rewrite (proj2 (Z.leb_le a m)), (proj2 (Z.ltb_lt m f)) by lia. split; [done|]. split; [|lia]. cbn. pose proof (Hc m ltac:(cbn; lia)). lia.
    + constructor; [split; cbn; lia|done].
  - intros s Hs Hx. apply (grow_outside a m f); [lia|done|lia].
  - intros x _ Hx. constructor. cbn. lia.
  - intros x Hc' Hx. by rewrite (grow_cover a m) in Hc' by lia.
  - lia.
Qed.

(** A proxy in two. *)
Lemma ok_split lo r hi o P : ok (lo ++ r :: hi) P -> r_proxy r = true -> r_off r < o < fin r ->
  ok (lo ++ with_range r (r_off r) (o - r_off r) :: proxy_of o (fin r - o) (r_cnt r) :: hi) P.
Proof.
  intros Hok Hp Ho. destruct (ok_entry _ _ _ _ Hok) as (He & Hlo & Hhi). pose proof He as [(W1 & W2 & W3) Hk Hed Hfl]. rewrite Hp in Hk. destruct Hk as (K1 & K2 & K3).
  apply (ok_window (r_off r) (fin r) lo [r] hi [with_range r (r_off r) (o - r_off r); proxy_of o (fin r - o) (r_cnt r)] P); try done.
  - by constructor; [lia|].
  - constructor; [by constructor; [constructor|]|]. constructor; [|done]. unfold apart. cbn. lia.
  - constructor; [cbn; lia|]. constructor; [cbn; lia|done].
  - constructor; [|constructor; [|done]]; split.
    + split; cbn; lia.
    + cbn. by rewrite Hp.
    + eapply Forall_impl; [exact Hed|]. intros ab [? ?]. split; cbn; lia.
    + done.
    + split; cbn; lia.
    + cbn. split; [done|]. split; [|done]. rewrite K2. symmetry. apply cover_const; [done|lia].
    + eapply Forall_impl; [exact Hed|]. intros ab [? ?]. split; cbn; lia.
    + done.
  - intros x _ Hx. destruct (Z.lt_ge_cases x o); [by left; cbn; lia|right; left; cbn; lia].
  - lia.
Qed.

(** A reader in the tree becomes one held by a proxy. *)
Lemma ok_proxify lo r hi P : ok (lo ++ r :: hi) P -> r_proxy r = false ->
  ok (lo ++ proxy_of (r_off r) (r_len r) 1 :: hi) ((r_off r, fin r) :: P).
Proof.
  intros Hok Hp. destruct (ok_entry _ _ _ _ Hok) as (He & Hlo & Hhi). pose proof He as [(W1 & W2 & W3) Hk Hed Hfl]. rewrite Hp in Hk. destruct Hk as (K1 & K2 & K3).
  apply (ok_window (r_off r) (fin r) lo [r] hi [proxy_of (r_off r) (r_len r) 1] P); try done.
  - by constructor; [lia|].
  - by constructor; [constructor|].
  - by constructor; [cbn; lia|].
  - constructor; [|done]. split; [done| | |done].
    + cbn. rewrite Z.leb_refl, (proj2 (Z.ltb_lt _ _)), K3 by lia. done.
    + constructor; [split; cbn; lia|done].
  - intros s Hs Hx. apply add_outside; [lia|done|lia].
  - intros x _ Hx. constructor. cbn. lia.
  - intros x Hc Hx. cbn in Hc. destruct (Z.leb_spec (r_off r) x), (Z.ltb_spec x (fin r)); cbn in Hc; lia.
  - lia.
Qed.

(** A lock where there is none. *)
Lemma ok_insert lo r hi P : ok (lo ++ hi) P -> Forall (fun ab => ab.1 < ab.2) P -> ord (lo ++ r :: hi) -> rl_wf r ->
  r_proxy r = false -> r_type r <> RL_APPEND -> r_cnt r = 1 -> r_read_wanted r = false -> ok (lo ++ r :: hi) P.
Proof.
  intros Hok Hne Ho Hw Hp Ht Hc Hr. destruct (gap_clear lo hi r P P Hok) as [Hno Hed]; [done..|]. pose proof Ho as (_ & Hlo & Hhi)%ord_around. pose proof Hw as (W1 & W2 & W3).
  apply (ok_window (r_off r) (fin r) lo [] hi [r] P); try done.
  - by constructor; [constructor|].
  - by constructor; [lia|].
  - constructor; [|done]. split; [done| |done|congruence]. rewrite Hp. split_and!; try done. apply Hno. lia.
  - intros x Hx Hh. rewrite Hno in Hx by done. lia.
  - lia.
Qed.

Lemma ok_remove lo r hi P : ok (lo ++ r :: hi) P -> r_proxy r = false -> ok (lo ++ hi) P.
Proof.
  intros Hok Hp. destruct (ok_entry _ _ _ _ Hok) as (He & Hlo & Hhi). pose proof He as [(W1 & W2 & W3) Hk Hed Hfl]. rewrite Hp in Hk. destruct Hk as (K1 & K2 & K3).
  apply (ok_window (r_off r) (fin r) lo [r] hi [] P); try done.
  - by constructor; [lia|].
  - constructor.
  - intros x Hx Hh. rewrite (cover_const P r x) in Hx by done. lia.
  - lia.
Qed.

(** A reader leaves the first proxy of its range. *)
Lemma ok_leave lo r hi m b P : ok (lo ++ r :: hi) ((m, b) :: P) -> r_off r = m -> m < b ->
  r_proxy r = true /\ fin r <= b /\ ok (lo ++ (if r_cnt r =? 1 then [] else [with_cnt r (r_cnt r - 1)]) ++ hi) ((fin r, b) :: P).
Proof.
  intros Hok <- Hb. destruct (ok_entry _ _ _ _ Hok) as (He & Hlo & Hhi). pose proof He as [(W1 & W2 & W3) Hk Hed Hfl].
  pose proof Hed as [[_ Hd2] Hed']%Forall_cons. cbn in Hd2.
  assert (Hc : cover ((r_off r, b) :: P) (r_off r) = 1 + cover P (r_off r)) by (cbn; by rewrite Z.leb_refl, (proj2 (Z.ltb_lt _ _))).
  pose proof (cover_bound P (r_off r)). destruct (r_proxy r) eqn:Hp; [|lia]. destruct Hk as (K1 & K2 & K3). split; [done|]. split; [lia|].
  apply (ok_window (r_off r) (fin r) lo [r] hi _ ((r_off r, b) :: P)); try done.
  - by constructor; [lia|].
  - case_if as E; by repeat constructor.
  - case_if as E; [constructor|]. by constructor; [cbn; lia|].
  - case_if as E; [constructor|]. constructor; [|done]. split; cbn [with_cnt r_off r_len r_proxy r_type r_cnt r_read_wanted]; [done| | |done].
    + rewrite Hp. split; [done|]. cbn. rewrite (proj2 (Z.leb_gt _ _)) by lia. cbn. lia.
    + constructor; [split; cbn; lia|done].
  - intros s Hs Hx. apply (shrink_outside (r_off r) (fin r)); [lia|done|lia].
  - intros x Hx Hh. case_if as E; [|by constructor; cbn; lia]. exfalso. cbn in Hx. rewrite (proj2 (Z.leb_gt _ x)) in Hx by lia. cbn in Hx.
    rewrite (cover_const P r x) in Hx by done. lia.
  - intros x Hx Hh. by rewrite (shrink_cover (r_off r) (fin r)) in Hx by lia.
  - lia.
Qed.

(** An empty range. *)
Lemma ok_empty rs a P : ok rs ((a, a) :: P) <-> ok rs P /\ Forall (fun r => a <= r_off r \/ fin r <= a) rs.
Proof.
  assert (E : forall x, cover ((a, a) :: P) x = cover P x) by (intros x; cbn; destruct (Z.leb_spec a x), (Z.ltb_spec x a); cbn; lia).
  unfold ok. setoid_rewrite E. rewrite !list.Forall_forall. split.
  - intros (H1 & H2 & H3). split_and!; try done.
    + intros r Hr. specialize (H2 r Hr). eapply entry_change; [exact H2|by rewrite E|]. pose proof (e_edge _ _ H2) as Hd. by apply Forall_cons in Hd as [_ ?].
    + intros r Hr. specialize (H2 r Hr). pose proof (e_edge _ _ H2) as Hd. apply Forall_cons in Hd as [[? _] _]. done.
  - intros ((H1 & H2 & H3) & H4). split_and!; try done. intros r Hr. specialize (H2 r Hr). eapply entry_change; [exact H2|by rewrite E|].
    constructor; [split; by apply H4|apply H2].
Qed.

(** The marks of waiting threads on an entry. *)
Lemma ok_mark lo r hi P r' : ok (lo ++ r :: hi) P -> r_off r' = r_off r -> r_len r' = r_len r -> r_cnt r' = r_cnt r -> r_type r' = r_type r -> r_proxy r' = r_proxy r ->
  (r_read_wanted r' = true -> closed_to_readers r' = true) -> ok (lo ++ r' :: hi) P.
Proof.
  intros Hok Eo El Ec Et Ep Hf. destruct (ok_entry _ _ _ _ Hok) as (He & Hlo & Hhi). pose proof He as [(W1 & W2 & W3) Hk Hed Hfl].
  apply (ok_window (r_off r) (fin r) lo [r] hi [r'] P); try done.
  - by constructor; [lia|].
  - by constructor; [constructor|].
  - constructor; [rewrite Eo, El; lia|done].
  - constructor; [|done]. split; [split; lia| | |done].
    + by rewrite Ep, Et, Ec, Eo.
    + eapply Forall_impl; [exact Hed|]. intros ab Hab. unfold edge in *. by rewrite Eo, El.
  - intros x _ Hx. constructor. lia.
  - lia.
Qed.

End RangeLockSet.
