(* ===== verification/RangeLockOk.v ===== *)
(** The invariant of a range lock tree and the locks it stands for, and what the
    routines that add a reader do to it. *)

From S2P Require Import Prelude Avl AvlWalk OrdTree SpaceMap RangeLock RangeLockSet.
Import SpaceMap RangeLock RangeLockSet.
Open Scope Z_scope.

Module RangeLockOk.

(** ** Readers held by proxies *)

(** The ranges of the locks in [held] that are not in the tree themselves. *)
Definition range_of (h : gmap Z rl) (p : Z) : option (Z * Z) :=
  match h !! p with Some r => if r_cnt r =? 0 then Some (r_off r, fin r) else None | None => None end.
Definition ranges (h : gmap Z rl) (held : list Z) : list (Z * Z) := omap (range_of h) held.

Lemma ranges_ext h h' held : (forall p, p ∈ held -> range_of h p = range_of h' p) -> ranges h held = ranges h' held.
Proof. induction held as [|p held IH]; [done|]. intros E. unfold ranges in *. cbn. rewrite (E p), IH by set_solver. done. Qed.

Lemma ranges_out h held q r : (q ∉ held) -> ranges (<[q := r]> h) held = ranges h held.
Proof. intros Hq. apply ranges_ext. intros p Hp. unfold range_of. rewrite lookup_insert_ne by set_solver. done. Qed.

Lemma ranges_zero h held p r r' : NoDup held -> p ∈ held -> h !! p = Some r -> r_cnt r <> 0 -> r_cnt r' = 0 ->
  ranges (<[p := r']> h) held ≡ₚ (r_off r', fin r') :: ranges h held.
Proof.
  intros Hn Hp Hh Hr Hr'. apply list_elem_of_split in Hp as (l1 & l2 & ->). apply NoDup_app in Hn as (_ & Hd & Hn). apply NoDup_cons in Hn as [Hn _].
  assert (E : range_of (<[p:=r']> h) p = Some (r_off r', fin r')) by (unfold range_of; by rewrite lookup_insert_eq, (proj2 (Z.eqb_eq _ _) Hr')).
  assert (E' : range_of h p = None) by (unfold range_of; by rewrite Hh, (proj2 (Z.eqb_neq _ _) Hr)).
  unfold ranges. rewrite !omap_app. cbn. rewrite E, E'. fold (ranges (<[p:=r']> h) l1) (ranges (<[p:=r']> h) l2) (ranges h l1) (ranges h l2).
  rewrite !ranges_out by set_solver. by rewrite <- Permutation_middle.
Qed.

(** ** The invariant *)

Abbreviation entries := (list (Z * rl)).

(** A lock that has been granted: an entry of the tree, or a reader with proxies. *)
Definition granted (es : entries) (p : Z) (r : rl) : Prop :=
  r_proxy r = false /\ rl_wf r /\ r_type r <> RL_APPEND /\ ((r_cnt r = 1 /\ (p, r) ∈ es) \/ (r_cnt r = 0 /\ (p ∉ es.*1) /\ r_type r = RL_READER)).

(** The same range, locked in the same way. *)
Definition same (r r' : rl) : Prop := r_off r' = r_off r /\ r_len r' = r_len r /\ r_type r' = r_type r.

Section inv.
Context {T I : Type} `{!Tree T I} `{!TreeLaws T I} `{KM : !Kmem} `{KL : !KmemLaws}.
Implicit Types (zp : znode T) (es lo hi : entries) (held : list Z) (G : list (Z * Z)).

(** [es] are the entries of the tree, [held] the locks granted, and [G] ranges of
    readers on their way in or out. *)
Record inv zp es held G : Prop := Inv {
  v_seq : tr_seq (z_range_avl zp) es.*1;
  v_mem : forall p r, (p, r) ∈ es -> z_rls zp !! p = Some r;
  v_ok : ok es.*2 (G ++ ranges (z_rls zp) held);
  v_held : forall p, p ∈ held -> exists r, z_rls zp !! p = Some r /\ granted es p r;
  v_nodup : NoDup held;
  v_own : forall p r, (p, r) ∈ es -> r_proxy r = false -> p ∈ held
}.

(** What adding readers leaves alone: memory that is no entry and none of [held], the
    ranges of the locks in [held], entries that readers do not share, and the file. *)
Record evolves held zp es zp' es' : Prop := Evolves {
  ev_new : forall q, q ∈ es'.*1 -> q ∈ es.*1 \/ q ∈ held \/ z_rls zp !! q = None;
  ev_dom : forall q, is_Some (z_rls zp !! q) -> is_Some (z_rls zp' !! q);
  ev_mem : forall q r, z_rls zp !! q = Some r -> (q ∉ es.*1) -> (q ∉ held) -> z_rls zp' !! q = Some r;
  ev_held : forall q r, z_rls zp !! q = Some r -> q ∈ held -> exists r', z_rls zp' !! q = Some r' /\ same r r';
  ev_keep : forall e, e ∈ es -> closed_to_readers e.2 = true -> e ∈ es';
  ev_file : z_size zp' = z_size zp /\ z_blksz zp' = z_blksz zp /\ z_max_blksz zp' = z_max_blksz zp /\ z_is_zvol zp' = z_is_zvol zp
}.

Lemma evolves_refl held zp es : evolves held zp es zp es.
Proof. split; auto. intros q r Hq _. by exists r. Qed.

Lemma evolves_trans held zp1 es1 zp2 es2 zp3 es3 : evolves held zp1 es1 zp2 es2 -> evolves held zp2 es2 zp3 es3 -> evolves held zp1 es1 zp3 es3.
Proof.
  intros [A1 A0 A2 A8 A3 (A4 & A5 & A6 & A7)] [B1 B0 B2 B8 B3 (B4 & B5 & B6 & B7)]. split; [|auto| | |auto|split_and!; congruence].
  - intros q [Hq|[Hq|Hq]]%B1; [by apply A1|by right; left|]. right; right. destruct (z_rls zp1 !! q) as [r|] eqn:E; [|done]. destruct (A0 q) as [? E']; [by exists r|congruence].
  - intros q r Hq Hes Hh. apply B2; [by apply A2| |done]. intros [?|[?|E]]%A1; [done|done|congruence].
  - intros q r Hq Hh. destruct (A8 q r Hq Hh) as (r1 & Hr1 & ? & ? & ?). destruct (B8 q r1 Hr1 Hh) as (r2 & Hr2 & ? & ? & ?). exists r2. split; [done|]. split_and!; congruence.
Qed.

(** ** Entries in memory *)

Lemma inv_nodup zp es held G : inv zp es held G -> NoDup es.*1 /\ forall p, p ∈ es.*1 -> p <> NULL.
Proof using All. intros [Hs _ _ _ _ _]. destruct (tr_seq_facts _ _ Hs) as (? & ? & _). done. Qed.

Lemma nodup_around lo (p : Z) (r : rl) hi : NoDup (lo ++ (p, r) :: hi).*1 -> (p ∉ (lo ++ hi).*1) /\ NoDup (lo ++ hi).*1.
Proof. rewrite !fmap_app. cbn. rewrite <- Permutation_middle. by intros [? ?]%NoDup_cons. Qed.

Lemma mem_get zp es held G p r : inv zp es held G -> (p, r) ∈ es -> get_rl zp p = Ok r.
Proof using All. intros Hi Hp. unfold get_rl. by rewrite (v_mem _ _ _ _ Hi _ _ Hp). Qed.

Lemma mem_total zp es held G p r : inv zp es held G -> (p, r) ∈ es -> z_rls zp !!! p = r.
Proof using All. intros Hi Hp. apply lookup_total_correct. by apply (v_mem _ _ _ _ Hi). Qed.

Lemma entry_at zp lo p r hi held G : inv zp (lo ++ (p, r) :: hi) held G -> entry (G ++ ranges (z_rls zp) held) r /\ z_rls zp !! p = Some r /\ get_rl zp p = Ok r /\
  (p <> NULL) /\ (p ∉ (lo ++ hi).*1) /\ Forall (fun e => fin e.2 <= r_off r) lo /\ Forall (fun e => fin r <= r_off e.2) hi.
Proof using All.
  intros Hi. destruct (inv_nodup _ _ _ _ Hi) as [Hn Hnn]. assert (Hin : (p, r) ∈ lo ++ (p, r) :: hi) by set_solver.
  pose proof (v_ok _ _ _ _ Hi) as Hok. rewrite fmap_app in Hok. cbn in Hok. destruct (ok_entry _ _ _ _ Hok) as (He & H1 & H2). rewrite Forall_fmap in H1, H2.
  split_and!; try done; [by apply (v_mem _ _ _ _ Hi)|by apply (mem_get _ _ _ _ _ _ Hi)|apply Hnn; rewrite fmap_app; set_solver|by apply nodup_around in Hn as [? _]].
Qed.

(** ** Order and search *)

Lemma offset_cases r s : zfs_range_compare r s = 1 /\ r_off s < r_off r \/ zfs_range_compare r s = 0 /\ r_off s = r_off r \/ zfs_range_compare r s = -1 /\ r_off r < r_off s.
Proof. unfold zfs_range_compare. rewrite Z.gtb_ltb. destruct (Z.ltb_spec (r_off s) (r_off r)); [auto|]. destruct (Z.ltb_spec (r_off r) (r_off s)); [auto|]. right; left. split; [done|lia]. Qed.

(** Entries sorted by their offsets, in some memory. *)
Definition by_off (h : gmap Z rl) es : Prop := (forall p r, (p, r) ∈ es -> h !!! p = r) /\ StronglySorted (fun e e' => r_off e.2 < r_off e'.2) es.

Lemma inv_by_off zp es held G : inv zp es held G -> by_off (z_rls zp) es.
Proof using All.
  intros Hi. split; [intros p r; by apply (mem_total _ _ _ _ _ _ Hi)|]. destruct (v_ok _ _ _ _ Hi) as (Ho & He & _). clear Hi. induction es as [|[p r] es IH]; [constructor|].
  cbn in *. apply StronglySorted_inv in Ho as [Ho Hr]. apply Forall_cons in He as [He Hes]. constructor; [by apply IH|]. rewrite Forall_fmap in Hr. eapply Forall_impl; [exact Hr|].
  intros [q s] Hs. unfold apart in Hs. cbn in *. destruct (e_wf _ _ He) as (_ & ? & _). lia.
Qed.

Lemma by_off_sifts h es r : by_off h es -> sifts (fun q => zfs_range_compare r (h !!! q)) es.*1.
Proof.
  intros [Ht Hs]. split.
  - apply Forall_fmap, list.Forall_forall. intros [q s] Hq. cbn. destruct (offset_cases r (h !!! q)) as [[-> _]|[[-> _]|[-> _]]]; lia.
  - induction Hs as [|[q s] es Hs IH Hq]; [constructor|]. cbn. constructor; [apply IH; intros; apply Ht; set_solver|].
    apply Forall_fmap, list.Forall_forall. intros [q' s'] Hq'. rewrite list.Forall_forall in Hq. specialize (Hq _ Hq'). cbn in *.
    rewrite (Ht q s), (Ht q' s') by set_solver. destruct (offset_cases r s) as [[-> ?]|[[-> ?]|[-> ?]]], (offset_cases r s') as [[-> ?]|[[-> ?]|[-> ?]]]; lia.
Qed.

Lemma rl_find_ok zp es held G r : inv zp es held G ->
  (exists q w rq lo hi, rl_find zp r = Ok (q, w) /\ es = lo ++ (q, rq) :: hi /\ r_off rq = r_off r) \/
  (exists w lo hi, rl_find zp r = Ok (NULL, w) /\ es = lo ++ hi /\ Forall (fun e => r_off e.2 < r_off r) lo /\ Forall (fun e => r_off r < r_off e.2) hi /\ tr_gap (z_range_avl zp) w lo.*1 hi.*1).
Proof using All.
  intros Hi. pose proof (inv_by_off _ _ _ _ Hi) as Hb. pose proof (by_off_sifts _ _ r Hb) as Hs. destruct Hb as [Ht _].
  destruct (tr_find_ok _ _ _ (v_seq _ _ _ _ Hi) Hs) as [(q & w & E & Hq & Hc & _)|(w & l1 & l2 & E & El & H1 & H2 & Hg)].
  - left. apply list_elem_of_fmap in Hq as ([q' rq] & -> & Hq). pose proof Hq as Hq'. apply list_elem_of_split in Hq as (lo & hi & ->). exists q', w, rq, lo, hi. do 2 (split; [done|]).
    cbn in Hc. rewrite (Ht q' rq) in Hc by done. destruct (offset_cases r rq) as [[? ?]|[[? ?]|[? ?]]]; lia.
  - right. apply fmap_app_inv in El as (lo & hi & -> & -> & ->). exists w, lo, hi. do 2 (split; [done|]). rewrite Forall_fmap, !list.Forall_forall in H1, H2.
    split_and!; [..|done]; apply list.Forall_forall; intros [q s] Hq; [specialize (H1 _ Hq)|specialize (H2 _ Hq)]; cbn in *; rewrite (Ht q s) in * by set_solver;
      destruct (offset_cases r s) as [[? ?]|[[? ?]|[? ?]]]; lia.
Qed.

Lemma split_unique {A} (f : A -> Prop) (l1 l2 k1 k2 : list A) : l1 ++ l2 = k1 ++ k2 -> Forall f l1 -> Forall f k1 -> Forall (fun x => ~ f x) l2 -> Forall (fun x => ~ f x) k2 -> l1 = k1 /\ l2 = k2.
Proof.
  revert k1. induction l1 as [|x l1 IH]; intros [|y k1] E H1 H2 H3 H4; cbn in E; [done| | |].
  - subst. apply Forall_inv in H2, H3. done.
  - subst. apply Forall_inv in H1, H4. done.
  - injection E as -> E. destruct (IH k1 E) as [-> ->]; [by apply Forall_inv_tail in H1|by apply Forall_inv_tail in H2|done..].
Qed.

(** Distinct offsets: there is room in the tree. *)
Lemma ord_count rs A : ord rs -> Forall rl_wf rs -> Forall (fun r => A <= r_off r) rs -> A < 2 ^ 64 -> zlen rs <= 2 ^ 64 - 1 - A.
Proof.
  revert A. induction rs as [|r rs IH]; intros A Ho Hw HA Hl; [cbn; lia|]. apply StronglySorted_inv in Ho as [Ho Hr]. apply Forall_cons in Hw as [(W1 & W2 & W3) Hw]. apply Forall_cons in HA as [Ha HA].
  assert (Hz : zlen rs <= 2 ^ 64 - 1 - fin r) by (apply IH; [done|done|exact Hr|done]). cbn [length]. lia.
Qed.

Lemma ord_room lo p r hi : ord (lo ++ (p, r) :: hi).*2 -> Forall rl_wf (lo ++ (p, r) :: hi).*2 -> room (lo ++ hi).*1.
Proof.
  intros Ho Hw. assert (Hz : zlen (lo ++ (p, r) :: hi).*2 <= 2 ^ 64 - 1 - 0).
  { apply ord_count; [done|done| |done]. eapply Forall_impl; [exact Hw|]. by intros s (? & _). }
  unfold room. rewrite !length_fmap, !length_app in *. cbn [length] in *. lia.
Qed.

Lemma rl_add_ok zp lo hi p r : tr_seq (z_range_avl zp) (lo ++ hi).*1 -> by_off (z_rls zp) (lo ++ hi) -> z_rls zp !! p = Some r -> p <> NULL -> (p ∉ (lo ++ hi).*1) ->
  Forall (fun e => r_off e.2 < r_off r) lo -> Forall (fun e => r_off r < r_off e.2) hi -> room (lo ++ hi).*1 ->
  exists t, rl_add zp p = Ok (with_avl zp t) /\ tr_seq t (lo ++ (p, r) :: hi).*1.
Proof using All.
  intros Hs Hb Hp Hn Hin Hlo Hhi Hr. pose proof (by_off_sifts _ _ r Hb) as Hsf. destruct Hb as [Ht _]. unfold rl_add. rewrite list.Forall_forall in Hlo, Hhi.
  assert (Hcl : Forall (fun q => zfs_range_compare r (z_rls zp !!! q) = 1) lo.*1).
  { apply Forall_fmap, list.Forall_forall. intros [q s] Hq. cbn. rewrite (Ht q s) by set_solver. specialize (Hlo _ Hq). cbn in Hlo. destruct (offset_cases r s) as [[? ?]|[[? ?]|[? ?]]]; lia. }
  assert (Hch : Forall (fun q => zfs_range_compare r (z_rls zp !!! q) = -1) hi.*1).
  { apply Forall_fmap, list.Forall_forall. intros [q s] Hq. cbn. rewrite (Ht q s) by set_solver. specialize (Hhi _ Hq). cbn in Hhi. destruct (offset_cases r s) as [[? ?]|[[? ?]|[? ?]]]; lia. }
  rewrite <- (lookup_total_correct _ _ _ Hp) in Hsf, Hcl, Hch.
  destruct (tr_add_ok _ _ (fun a b => zfs_range_compare (z_rls zp !!! a) (z_rls zp !!! b)) p Hs Hsf) as (t & l1 & l2 & E & El & H1 & H2 & Hs'); [|done..|].
  - rewrite fmap_app, Forall_app. split; [eapply Forall_impl; [exact Hcl|]|eapply Forall_impl; [exact Hch|]]; cbn; intros q E; by rewrite E.
  - exists t. rewrite E. split; [done|]. rewrite fmap_app in El.
    destruct (split_unique (fun q => zfs_range_compare (z_rls zp !!! p) (z_rls zp !!! q) = 1) _ _ _ _ El) as [<- <-]; [done|done| | |by rewrite fmap_app].
    + eapply Forall_impl; [exact Hch|]. cbn. intros q Eq. by rewrite Eq.
    + eapply Forall_impl; [exact H2|]. cbn. intros q Eq. by rewrite Eq.
Qed.

(** ** Changes to the tree *)

(** Some entries replaced by others. *)
Lemma inv_change zp zp' lo old hi mid held G G' : inv zp (lo ++ old ++ hi) held G ->
  tr_seq (z_range_avl zp') (lo ++ mid ++ hi).*1 -> (forall x s, (x, s) ∈ lo ++ hi -> z_rls zp' !! x = Some s) -> (forall x s, (x, s) ∈ mid -> z_rls zp' !! x = Some s) ->
  ok (lo ++ mid ++ hi).*2 (G' ++ ranges (z_rls zp') held) ->
  (forall x, x ∈ held -> (x ∉ old.*1) -> (x ∉ mid.*1) /\ z_rls zp' !! x = z_rls zp !! x) ->
  (forall x, x ∈ held -> x ∈ old.*1 -> exists r, z_rls zp' !! x = Some r /\ granted (lo ++ mid ++ hi) x r) ->
  (forall x s, (x, s) ∈ mid -> r_proxy s = false -> x ∈ held) ->
  inv zp' (lo ++ mid ++ hi) held G'.
Proof using All.
  intros [I1 I2 I3 I4 I5 I6] Hs Hm Hm' Hok Hout Hin Hown. split; [done| |done| |done|].
  - intros x s. rewrite !elem_of_app. intros [?|[?|?]]; [apply Hm; set_solver|by apply Hm'|apply Hm; set_solver].
  - intros x Hx. destruct (decide (x ∈ old.*1)) as [Ho|Ho]; [by apply Hin|]. destruct (Hout x Hx Ho) as [Hnm ->]. destruct (I4 x Hx) as (r & Hr & G1 & G2 & G3 & G4).
    exists r. split; [done|]. split_and!; try done. destruct G4 as [[? Hes]|(? & Hes & ?)]; [left|right]; (split; [done|]).
    + rewrite !elem_of_app in *. destruct Hes as [?|[Hes|?]]; [by left| |by right; right]. destruct Ho. apply list_elem_of_fmap. by exists (x, r).
    + split; [|done]. rewrite !fmap_app in *. set_solver.
  - intros x s. rewrite !elem_of_app. intros Hx Hp. destruct Hx as [Hx|[Hx|Hx]]; [|by apply (Hown x s)|]; apply (I6 x s); set_solver.
Qed.

Lemma open_reader P r : entry P r -> closed_to_readers r = false -> r_type r = RL_READER /\ r_write_wanted r = false /\ r_read_wanted r = false.
Proof.
  intros [_ Hk _ Hf] Hc. assert (Hr : r_read_wanted r = false) by (destruct (r_read_wanted r); [rewrite Hf in Hc; done|done]).
  unfold closed_to_readers in Hc. apply orb_false_iff in Hc as [Hc Hw]. apply bool_decide_eq_false in Hc. split; [|done].
  destruct (r_proxy r); [by destruct Hk|]. destruct Hk as (? & _). by destruct (r_type r).
Qed.

Lemma nonempty_ranges zp es held G : inv zp es held G -> Forall (fun ab => ab.1 < ab.2) (ranges (z_rls zp) held).
Proof using All.
  intros [_ _ _ I4 _ _]. apply list.Forall_forall. intros [a b] Hab. apply list_elem_of_omap in Hab as (p & Hp & E). destruct (I4 p Hp) as (r & Hr & _ & (W1 & W2 & W3) & _).
  unfold range_of in E. rewrite Hr in E. destruct (r_cnt r =? 0); [|done]. injection E as <- <-. cbn. lia.
Qed.

Lemma fresh zp : exists q, kmem_alloc (dom (z_rls zp)) = q /\ q <> NULL /\ z_rls zp !! q = None.
Proof using All. exists (kmem_alloc (dom (z_rls zp))). destruct (kmem_alloc_fresh (dom (z_rls zp))) as [? Hn]. split_and!; [done|done|]. by apply not_elem_of_dom. Qed.

Lemma fresh_out zp es held G q : inv zp es held G -> z_rls zp !! q = None -> (q ∉ es.*1) /\ (q ∉ held).
Proof using All.
  intros [_ I2 _ I4 _ _] Hq. split; intros Hin.
  - apply list_elem_of_fmap in Hin as ([q' r] & -> & Hin). apply I2 in Hin. cbn in Hq. congruence.
  - destruct (I4 q Hin) as (r & E & _). congruence.
Qed.

Lemma off_around zp lo p r hi held G : inv zp (lo ++ (p, r) :: hi) held G -> StronglySorted (fun e e' => r_off e.2 < r_off e'.2) (lo ++ hi) /\
  Forall (fun e => r_off e.2 < r_off r) lo /\ Forall (fun e => r_off r < r_off e.2) hi.
Proof using All.
  intros Hi. pose proof (proj2 (inv_by_off _ _ _ _ Hi)) as Hb. rewrite StronglySorted_app in Hb |- *. destruct Hb as (B1 & B2 & [B3 B4]%StronglySorted_inv).
  split_and!; try done; [intros; apply B1; set_solver|]. apply list.Forall_forall. intros e Hx. apply (B1 e (p, r)); [done|set_solver].
Qed.

(** Entries that readers share replaced by others, in memory that only grows. *)
Lemma evolves_change zp zp' lo old hi mid held : (forall e, e ∈ old -> closed_to_readers e.2 = false) ->
  (forall x, x ∈ mid.*1 -> x ∈ old.*1 \/ z_rls zp !! x = None) -> (forall x, is_Some (z_rls zp !! x) -> is_Some (z_rls zp' !! x)) ->
  (forall x r, z_rls zp !! x = Some r -> (x ∉ old.*1) -> z_rls zp' !! x = Some r) ->
  (forall x r, (x, r) ∈ old -> x ∈ held -> z_rls zp !! x = Some r -> exists r', z_rls zp' !! x = Some r' /\ same r r') -> (forall x r, (x, r) ∈ old -> z_rls zp !! x = Some r) ->
  z_size zp' = z_size zp /\ z_blksz zp' = z_blksz zp /\ z_max_blksz zp' = z_max_blksz zp /\ z_is_zvol zp' = z_is_zvol zp ->
  evolves held zp (lo ++ old ++ hi) zp' (lo ++ mid ++ hi).
Proof.
  intros Ho Hm Hd Hk Hh Hold Hf. split; try done.
  - intros x. rewrite !fmap_app, !elem_of_app. intros [?|[?%Hm|?]]; tauto.
  - intros x r Hx Hxe _. apply Hk; [done|]. rewrite !fmap_app in Hxe. set_solver.
  - intros x r Hx Hxh. destruct (decide (x ∈ old.*1)) as [Hxo|Hxo]; [|exists r; split; [by apply Hk|done]]. apply list_elem_of_fmap in Hxo as ([x' r'] & -> & Hxo). cbn in *.
    pose proof (Hold _ _ Hxo). assert (r' = r) as -> by congruence. by apply Hh.
  - intros e. rewrite !elem_of_app. intros [?|[?|?]] Hc; [by left| |by right; right]. by rewrite Ho in Hc.
Qed.

Lemma is_Some_insert (h : gmap Z rl) q r x : is_Some (h !! x) -> is_Some (<[q := r]> h !! x).
Proof. intros Hx. destruct (decide (q = x)) as [->|]; [rewrite lookup_insert_eq; eauto|by rewrite lookup_insert_ne]. Qed.

(** ** Proxies *)

Lemma proxify_ok zp lo p r hi held G : inv zp (lo ++ (p, r) :: hi) held G -> closed_to_readers r = false ->
  exists zp' p' r' rp, zfs_range_proxify zp p = Ok (zp', p') /\ inv zp' (lo ++ (p', r') :: hi) held G /\ evolves held zp (lo ++ (p, r) :: hi) zp' (lo ++ (p', r') :: hi) /\
    r_proxy r' = true /\ r_off r' = r_off r /\ r_len r' = r_len r /\ r_cnt r' = r_cnt r /\ closed_to_readers r' = false /\ get_rl zp' p = Ok rp /\ r_off rp = r_off r.
Proof using All.
  intros Hi Hop. destruct (entry_at _ _ _ _ _ _ _ Hi) as (He & Hp & Eg & Hnn & Hni & Hlo & Hhi). unfold zfs_range_proxify. rewrite Eg. bnd.
  destruct (r_proxy r) eqn:Hpx; [exists zp, p, r, r; by split_and!; [..|apply evolves_refl| | | | | | |]|].
  destruct (open_reader _ _ He Hop) as (Ht & Hw & Hrw). pose proof (e_kind _ _ He) as Hk. rewrite Hpx in Hk. destruct Hk as (_ & Hc & _).
  pose proof (v_seq _ _ _ _ Hi) as Hs. rewrite fmap_app in Hs. cbn in Hs. destruct (tr_remove_ok _ _ _ _ Hs) as (t & -> & Ht'). bnd.
  set (zp1 := set_rl (with_avl zp t) p (with_cnt r 0)). unfold new_rl. destruct (fresh zp1) as (q & -> & Hqn & Hq). cbn in Hq. apply lookup_insert_None in Hq as [Hq Hqp].
  destruct (fresh_out _ _ _ _ _ Hi Hq) as [Hqe Hqh]. set (pr := proxy_of (r_off r) (r_len r) 1). set (zp2 := set_rl zp1 q pr). bnd.
  assert (Hmem : forall x s, (x, s) ∈ lo ++ hi -> z_rls zp2 !! x = Some s).
  { intros x s Hx. cbn. assert (x ∈ (lo ++ hi).*1) by (apply list_elem_of_fmap; by exists (x, s)). rewrite fmap_app in *. cbn in Hqe.
    rewrite !lookup_insert_ne by set_solver. apply (v_mem _ _ _ _ Hi). set_solver. }
  assert (Hord : ok (lo ++ [(q, pr)] ++ hi).*2 (G ++ ranges (z_rls zp2) held)).
  { pose proof (v_ok _ _ _ _ Hi) as Hok. rewrite fmap_app in Hok |- *. cbn in Hok |- *. eapply ok_perm; [|by apply ok_proxify]. rewrite ranges_out by done.
    rewrite (ranges_zero (z_rls zp) held p r (with_cnt r 0) (v_nodup _ _ _ _ Hi) (v_own _ _ _ _ Hi p r ltac:(set_solver) Hpx) Hp ltac:(lia) eq_refl). cbn. by rewrite Permutation_middle. }
  destruct (off_around _ _ _ _ _ _ _ Hi) as (Hst & Holo & Hohi). destruct (rl_add_ok zp2 lo hi q pr) as (t2 & -> & Ht2); try done.
  - by rewrite fmap_app.
  - split; [intros x s Hx; by apply lookup_total_correct, Hmem|done].
  - cbn. by rewrite lookup_insert_eq.
  - rewrite fmap_app in *. set_solver.
  - destruct Hord as (Ho & Hf & _). eapply ord_room; [exact Ho|]. eapply Forall_impl; [exact Hf|]. by intros ? [? _ _ _].
  - bnd. exists (with_avl zp2 t2), q, pr, (with_cnt r 0). split; [done|]. split; [|split; [|split_and!; try done]].
    + apply (inv_change zp _ lo [(p, r)] hi [(q, pr)] held G); try done.
      * intros x s [= -> ->]%list_elem_of_singleton. cbn. by rewrite lookup_insert_eq.
      * intros x Hx Hxo. cbn in *. split; [set_solver|]. by rewrite !lookup_insert_ne by set_solver.
      * intros x Hx ->%list_elem_of_singleton. exists (with_cnt r 0). cbn. rewrite lookup_insert_ne, lookup_insert_eq by done. split; [done|]. split; [done|]. split; [exact (e_wf _ _ He)|]. split; [cbn; congruence|right].
        split_and!; [done| |done]. rewrite fmap_app in *. cbn. set_solver.
      * intros x s [= -> ->]%list_elem_of_singleton. done.
    + apply (evolves_change _ _ lo [(p, r)] hi [(q, pr)]); try done.
      * by intros e ->%list_elem_of_singleton.
      * intros x ->%list_elem_of_singleton. by right.
      * intros x Hx. by do 2 apply is_Some_insert.
      * intros x s Hx Hxp. cbn in *. rewrite !lookup_insert_ne; [done|set_solver|congruence].
      * intros x s [= -> ->]%list_elem_of_singleton _ _. exists (with_cnt r 0). cbn. by rewrite lookup_insert_ne, lookup_insert_eq.
      * by intros x s [= -> ->]%list_elem_of_singleton.
    + unfold get_rl. cbn. by rewrite lookup_insert_ne, lookup_insert_eq.
Qed.

(** A proxy is nobody's lock. *)
Lemma proxy_free zp lo p r hi held G : inv zp (lo ++ (p, r) :: hi) held G -> r_proxy r = true -> (p ∉ held).
Proof using All.
  intros Hi Hp Hh. destruct (v_held _ _ _ _ Hi p Hh) as (r' & Hr & Hx & _). destruct (entry_at _ _ _ _ _ _ _ Hi) as (_ & E & _). congruence.
Qed.

(** An entry changed in place. *)
Lemma inv_set zp lo p r hi held G G' r' : inv zp (lo ++ (p, r) :: hi) held G -> ok (lo ++ (p, r') :: hi).*2 (G' ++ ranges (z_rls zp) held) -> r_proxy r' = r_proxy r ->
  inv (set_rl zp p r') (lo ++ (p, r') :: hi) held G'.
Proof using All.
  intros Hi Hok Hp. destruct (entry_at _ _ _ _ _ _ _ Hi) as (He & Hm & _ & _ & Hni & _). rewrite fmap_app in Hok. cbn in Hok.
  destruct (ok_entry _ _ _ _ Hok) as (He' & _). assert (Er : ranges (<[p := r']> (z_rls zp)) held = ranges (z_rls zp) held).
  { apply ranges_ext. intros x Hx. unfold range_of. destruct (decide (p = x)) as [<-|]; [|by rewrite lookup_insert_ne]. rewrite lookup_insert_eq, Hm.
    destruct (r_proxy r) eqn:Hpx; [by destruct (proxy_free _ _ _ _ _ _ _ Hi Hpx)|]. pose proof (e_kind _ _ He) as Hk. pose proof (e_kind _ _ He') as Hk'. rewrite Hpx in Hk. rewrite Hp in Hk'.
    destruct Hk as (_ & -> & _), Hk' as (_ & -> & _). done. }
  apply (inv_change zp _ lo [(p, r)] hi [(p, r')] held G); [done| | | | | | |].
  - pose proof (v_seq _ _ _ _ Hi) as Hs. rewrite !fmap_app in Hs |- *. done.
  - intros x s Hx. cbn. rewrite lookup_insert_ne; [apply (v_mem _ _ _ _ Hi); set_solver|]. intros ->. apply Hni, list_elem_of_fmap. by exists (x, s).
  - intros x s [= -> ->]%list_elem_of_singleton. cbn. by rewrite lookup_insert_eq.
  - rewrite fmap_app. cbn. by rewrite Er.
  - intros x Hx Hxp. split; [set_solver|]. cbn. rewrite lookup_insert_ne; [done|set_solver].
  - intros x Hx ->%list_elem_of_singleton. exists r'. cbn. rewrite lookup_insert_eq. split; [done|]. destruct (r_proxy r) eqn:Hpx; [by destruct (proxy_free _ _ _ _ _ _ _ Hi Hpx)|].
    pose proof (e_kind _ _ He') as Hk'. rewrite Hp in Hk'. destruct Hk' as (K1 & K2 & _). split; [done|]. split; [apply He'|]. split; [done|]. left. split; [done|set_solver].
  - intros x s [= -> ->]%list_elem_of_singleton Hpx. apply (v_own _ _ _ _ Hi p r); [set_solver|congruence].
Qed.

Lemma set_evolves zp lo p r hi r' held : z_rls zp !! p = Some r -> closed_to_readers r = false -> same r r' -> evolves held zp (lo ++ (p, r) :: hi) (set_rl zp p r') (lo ++ (p, r') :: hi).
Proof.
  intros Hp Hc Hs. apply (evolves_change _ _ lo [(p, r)] hi [(p, r')]); try done.
  - by intros e ->%list_elem_of_singleton.
  - intros x Hx. by left.
  - intros x Hx. by apply is_Some_insert.
  - intros x s Hx Hxp. cbn in *. rewrite lookup_insert_ne; [done|set_solver].
  - intros x s [= -> ->]%list_elem_of_singleton _ _. exists r'. cbn. by rewrite lookup_insert_eq.
  - by intros x s [= -> ->]%list_elem_of_singleton.
Qed.

(** One more reader on the proxy where the range [(a, m)] ends. *)
Lemma bump_ok zp lo p r hi held a m : inv zp (lo ++ (p, r) :: hi) held [(a, m)] -> r_proxy r = true -> closed_to_readers r = false -> r_off r = m -> a <= m -> zlen held + 2 < 2 ^ 32 ->
  exists zp' r', bump zp p = Ok zp' /\ inv zp' (lo ++ (p, r') :: hi) held [(a, fin r)] /\ evolves held zp (lo ++ (p, r) :: hi) zp' (lo ++ (p, r') :: hi) /\ fin r' = fin r /\ closed_to_readers r' = false.
Proof using All.
  intros Hi Hp Hc Ho Ha Hz. destruct (entry_at _ _ _ _ _ _ _ Hi) as (He & Hm & Eg & _). unfold bump. rewrite Eg. bnd. pose proof (e_kind _ _ He) as Hk. rewrite Hp in Hk. destruct Hk as (_ & Hcnt & Hpos).
  pose proof (cover_bound ([(a, m)] ++ ranges (z_rls zp) held) (r_off r)) as Hb. assert (Hl : (length (ranges (z_rls zp) held) <= length held)%nat).
  { clear. induction held as [|x held IH]; [done|]. cbn. destruct (range_of _ x); cbn; unfold ranges in IH; lia. }
  cbn [app length] in Hb, Hcnt. rewrite Z.mod_small by lia. exists (set_rl zp p (with_cnt r (r_cnt r + 1))), (with_cnt r (r_cnt r + 1)). split; [done|]. split; [|split; [by apply set_evolves|done]].
  apply (inv_set zp lo p r hi held [(a, m)]); [done| |done]. pose proof (v_ok _ _ _ _ Hi) as Hok. rewrite fmap_app in Hok |- *. by eapply ok_bump.
Qed.

(** Memory that is neither an entry nor a lock held. *)
Lemma inv_other zp es held G q r : inv zp es held G -> (q ∉ es.*1) -> (q ∉ held) -> inv (set_rl zp q r) es held G.
Proof using All.
  intros [I1 I2 I3 I4 I5 I6] He Hh. split; try done.
  - intros p s Hp. cbn. rewrite lookup_insert_ne; [by apply I2|]. intros ->. apply He, list_elem_of_fmap. by exists (p, s).
  - cbn. by rewrite ranges_out.
  - intros p Hp. cbn. rewrite lookup_insert_ne by set_solver. by apply I4.
Qed.

Lemma alloc_evolves held zp es q r : z_rls zp !! q = None -> evolves held zp es (set_rl zp q r) es.
Proof.
  intros Hq. split; try done.
  - auto.
  - intros x Hx. by apply is_Some_insert.
  - intros x s Hx _ _. cbn. rewrite lookup_insert_ne; [done|congruence].
  - intros x s Hx _. exists s. cbn. rewrite lookup_insert_ne; [done|congruence].
Qed.

(** The same after an object [q] has been allocated that becomes an entry in the end. *)
Lemma evolves_alloc held zp es q rr zp2 lo p r hi r' : z_rls zp !! q = None -> evolves held (set_rl zp q rr) es zp2 (lo ++ (p, r) :: hi) -> (q ∉ es.*1) -> closed_to_readers r = false -> (p ∉ held) ->
  forall t, evolves held zp es (with_avl (set_rl zp2 p r') t) (lo ++ (p, r') :: (q, rr) :: hi).
Proof.
  intros Hq [V1 V2 V3 V6 V4 V5] Hqe Hop Hph t.
  assert (Hnew : forall x, x ∈ (lo ++ (p, r) :: hi).*1 -> x ∈ es.*1 \/ x ∈ held \/ z_rls zp !! x = None).
  { intros x [?|[?|E]]%V1; [by left|by right; left|]. cbn in E. apply lookup_insert_None in E as [? _]. by right; right. }
  split; [| | | | |done].
  - intros x. rewrite fmap_app. cbn. rewrite elem_of_app, !elem_of_cons. intros [?|[->|[->|?]]]; [| |by right; right|]; apply Hnew; rewrite fmap_app; set_solver.
  - intros x Hx. cbn. apply is_Some_insert, V2. cbn. by apply is_Some_insert.
  - intros x s Hx Hxe Hxh. cbn. rewrite lookup_insert_ne; [apply V3; [|done..]|].
    + cbn. rewrite lookup_insert_ne; [done|congruence].
    + intros ->. destruct (Hnew x) as [?|[?|?]]; [rewrite fmap_app; set_solver|done|done|congruence].
  - intros x s Hx Hxh. cbn. rewrite lookup_insert_ne by set_solver. apply V6; [|done]. cbn. rewrite lookup_insert_ne; [done|congruence].
  - intros e He Hc. specialize (V4 e He Hc). rewrite elem_of_app, !elem_of_cons in *. destruct V4 as [?|[->|?]]; [by left|cbn in Hc; congruence|by right; right; right].
Qed.

Lemma split_ok zp lo p r hi held G o : inv zp (lo ++ (p, r) :: hi) held G -> closed_to_readers r = false -> r_off r < o < fin r ->
  exists zp' p1 r1 p2 r2, zfs_range_split zp p o = Ok (zp', p1) /\ inv zp' (lo ++ (p1, r1) :: (p2, r2) :: hi) held G /\
    evolves held zp (lo ++ (p, r) :: hi) zp' (lo ++ (p1, r1) :: (p2, r2) :: hi) /\
    r_proxy r1 = true /\ r_off r1 = r_off r /\ fin r1 = o /\ r_off r2 = o /\ fin r2 = fin r /\ closed_to_readers r1 = false /\ closed_to_readers r2 = false.
Proof using All.
  intros Hi Hop Ho. destruct (entry_at _ _ _ _ _ _ _ Hi) as (He & _ & Eg & _). destruct (e_wf _ _ He) as (W1 & W2 & W3). unfold zfs_range_split. rewrite Eg. bnd.
  rewrite (Z.mod_small (fin r)), (Z.mod_small (fin r - o)) by lia. unfold new_rl. destruct (fresh zp) as (q & -> & Hqn & Hq). destruct (fresh_out _ _ _ _ _ Hi Hq) as [Hqe Hqh]. bnd.
  set (rr := proxy_of o (fin r - o) (r_cnt r)). pose proof (inv_other _ _ _ _ q rr Hi Hqe Hqh) as Hi1.
  destruct (proxify_ok _ _ _ _ _ _ _ Hi1 Hop) as (zp2 & p' & r' & rp & -> & Hi2 & Hv2 & Hp' & Eo & El & Ec & Hop' & Erp & Eop). bnd. rewrite Erp. bnd. rewrite Eop.
  destruct (entry_at _ _ _ _ _ _ _ Hi2) as (_ & _ & -> & _). bnd. rewrite Z.mod_small by lia.
  assert (Hq2 : z_rls zp2 !! q = Some rr) by (apply (ev_mem _ _ _ _ _ Hv2); [by cbn; rewrite lookup_insert_eq|done..]).
  assert (Hqe2 : q ∉ (lo ++ (p', r') :: hi).*1) by (intros [?|[?|E]]%(ev_new _ _ _ _ _ Hv2); [done|done|by cbn in E; rewrite lookup_insert_eq in E]).
  set (f := with_range r' (r_off r') (o - r_off r)). set (zp3 := set_rl zp2 p' f).
  assert (Hok : ok (lo ++ [(p', f); (q, rr)] ++ hi).*2 (G ++ ranges (z_rls zp2) held)).
  { pose proof (v_ok _ _ _ _ Hi2) as Hok. rewrite fmap_app in Hok |- *. cbn in Hok |- *. unfold f, rr. rewrite <- Eo, <- El, <- Ec. apply ok_split; [done|done|]. lia. }
  assert (Hroom : room (lo ++ (p', r') :: hi).*1).
  { destruct Hok as (Hord & Hf & _). replace (lo ++ [(p', f); (q, rr)] ++ hi) with ((lo ++ [(p', f)]) ++ (q, rr) :: hi) in * by (by rewrite <- app_assoc).
    assert (Hr : room ((lo ++ [(p', f)]) ++ hi).*1) by (eapply ord_room; [exact Hord|]; eapply Forall_impl; [exact Hf|]; by intros ? [? _ _ _]). unfold room in *. rewrite !fmap_app in *. by rewrite <- app_assoc in Hr. }
  pose proof (v_seq _ _ _ _ Hi2) as Hs2. rewrite fmap_app in Hs2, Hqe2, Hroom. cbn in Hs2, Hqe2, Hroom.
  destruct (tr_insert_here_ok _ _ _ _ q Hs2 Hqn Hqe2 Hroom) as (t & Et & Ht). change (z_range_avl zp3) with (z_range_avl zp2). rewrite Et. bnd.
  pose proof (proxy_free _ _ _ _ _ _ _ Hi2 Hp') as Hph. exists (with_avl zp3 t), p', f, q, rr. split; [done|]. destruct (entry_at _ _ _ _ _ _ _ Hi2) as (_ & _ & _ & _ & Hni & _).
  split; [|split; [|split_and!; cbn; try done; lia]].
  - apply (inv_change zp2 _ lo [(p', r')] hi [(p', f); (q, rr)] held G); [done| | | | | | |].
    + by rewrite fmap_app.
    + intros x s Hx. assert (x ∈ (lo ++ hi).*1) by (apply list_elem_of_fmap; by exists (x, s)). cbn. rewrite lookup_insert_ne by congruence. apply (v_mem _ _ _ _ Hi2). set_solver.
    + intros x s [[= -> ->]|[= -> ->]%list_elem_of_singleton]%elem_of_cons; cbn; [by rewrite lookup_insert_eq|]. rewrite lookup_insert_ne; [done|set_solver].
    + cbn. by rewrite ranges_out.
    + intros x Hx Hxp. cbn in *. rewrite lookup_insert_ne by set_solver. split; [set_solver|done].
    + intros x Hx ->%list_elem_of_singleton. done.
    + intros x s [[= -> ->]|[= -> ->]%list_elem_of_singleton]%elem_of_cons; [|done]. cbn. congruence.
  - by apply (evolves_alloc held zp _ q rr zp2 lo p' r' hi).
Qed.

Lemma wf_before P lo m : Forall (entry P) lo.*2 -> Forall (fun e => fin e.2 <= m) lo -> Forall (fun e => r_off e.2 < m) lo.
Proof.
  rewrite Forall_fmap, !list.Forall_forall. intros He Hm e Hin. specialize (Hm e Hin). destruct (e_wf _ _ (He e Hin)) as (_ & ? & _). lia.
Qed.

(** A new entry in memory of its own, where there is none. *)
Lemma place_proxy_ok zp lo hi held G G' q r : inv zp (lo ++ hi) held G -> z_rls zp !! q = None -> q <> NULL -> r_proxy r = true ->
  ok (lo ++ (q, r) :: hi).*2 (G' ++ ranges (z_rls zp) held) ->
  exists zp', rl_add (set_rl zp q r) q = Ok zp' /\ inv zp' (lo ++ (q, r) :: hi) held G' /\ evolves held zp (lo ++ hi) zp' (lo ++ (q, r) :: hi).
Proof using All.
  intros Hi Hq Hqn Hp Hok. destruct (fresh_out _ _ _ _ _ Hi Hq) as [Hqe Hqh].
  assert (Hw : Forall rl_wf (lo ++ (q, r) :: hi).*2) by (destruct Hok as (_ & Hf & _); eapply Forall_impl; [exact Hf|]; by intros ? [? _ _ _]).
  pose proof Hok as Hok'. rewrite fmap_app, fmap_cons in Hok'. destruct (ok_entry _ _ _ _ Hok') as (He & Hlo & Hhi). rewrite Forall_fmap in Hlo, Hhi. destruct (e_wf _ _ He) as (W1 & W2 & W3).
  pose proof (inv_other _ _ _ _ q r Hi Hqe Hqh) as Hi1. destruct (rl_add_ok (set_rl zp q r) lo hi q r) as (t & -> & Ht); try done.
  - apply (v_seq _ _ _ _ Hi).
  - by apply inv_by_off in Hi1.
  - cbn. by rewrite lookup_insert_eq.
  - eapply wf_before; [|exact Hlo]. destruct Hok as (_ & Hf & _). rewrite fmap_app, Forall_app in Hf. by destruct Hf.
  - eapply Forall_impl; [exact Hhi|]. intros e Hx. cbn in *. lia.
  - eapply ord_room; [apply Hok|done].
  - eexists. split; [done|]. split.
    + apply (inv_change (set_rl zp q r) _ lo [] hi [(q, r)] held G); try done.
      * apply (v_mem _ _ _ _ Hi1).
      * intros x s [= -> ->]%list_elem_of_singleton. cbn. by rewrite lookup_insert_eq.
      * cbn. by rewrite ranges_out.
      * intros x Hx _. cbn. split; [set_solver|done].
      * intros x _ Hx. by apply not_elem_of_nil in Hx.
      * intros x s [= -> ->]%list_elem_of_singleton. congruence.
    + apply (evolves_change _ _ lo [] hi [(q, r)]); try done.
      * by intros e Hx%not_elem_of_nil.
      * intros x ->%list_elem_of_singleton. by right.
      * intros x Hx. by apply is_Some_insert.
      * intros x s Hx _. cbn. rewrite lookup_insert_ne; [done|congruence].
      * by intros x s Hx%not_elem_of_nil.
      * by intros x s Hx%not_elem_of_nil.
Qed.

Lemma new_proxy_ok zp lo hi held a m f : inv zp (lo ++ hi) held [(a, m)] -> Forall (fun e => fin e.2 <= m) lo -> Forall (fun e => f <= r_off e.2) hi -> 0 <= a <= m -> m < f < 2 ^ 64 ->
  exists zp' q r, zfs_range_new_proxy zp m (u64 (f - m)) = Ok zp' /\ inv zp' (lo ++ (q, r) :: hi) held [(a, f)] /\ evolves held zp (lo ++ hi) zp' (lo ++ (q, r) :: hi) /\ fin r = f.
Proof using All.
  intros Hi Hlo Hhi Ha Hm. rewrite Z.mod_small by lia. unfold zfs_range_new_proxy, new_rl. destruct (fresh zp) as (q & -> & Hqn & Hq). bnd. set (r := proxy_of m (f - m) 1).
  assert (Ef : fin r = f) by (cbn; lia). assert (Hord : ord (lo.*2 ++ r :: hi.*2)).
  { apply ord_around. rewrite !Forall_fmap, Ef. split_and!; try done. rewrite <- fmap_app. apply (v_ok _ _ _ _ Hi). }
  destruct (place_proxy_ok zp lo hi held [(a, m)] [(a, f)] q r Hi Hq Hqn) as (zp' & -> & H1 & H2); [done| |by exists zp', q, r].
  rewrite fmap_app, fmap_cons. apply (ok_fill lo.*2 hi.*2 a m f); try done.
  + rewrite <- fmap_app. apply (v_ok _ _ _ _ Hi).
  + by apply (nonempty_ranges _ _ _ _ Hi).
Qed.
End inv.
End RangeLockOk.
