(* ===== verification/RangeLockAdd.v ===== *)
(** Adding a reader to a range lock tree. *)

From S2P Require Import Prelude Avl AvlWalk OrdTree SpaceMap RangeLock RangeLockSet RangeLockOk.
Import SpaceMap RangeLock RangeLockSet RangeLockOk.
Open Scope Z_scope.

Module RangeLockAdd.

Lemma rev_case {A} (l : list A) : l = [] \/ exists x l', l = l' ++ [x].
Proof. destruct l as [|a l]; [by left|right]. destruct (exists_last (l := a :: l) ltac:(done)) as (l' & x & ->). by exists x, l'. Qed.

Section add.
Context {T I : Type} `{!Tree T I} `{!TreeLaws T I} `{KM : !Kmem} `{KL : !KmemLaws}.
Implicit Types (zp : znode T) (es lo hi : entries) (held : list Z) (G : list (Z * Z)).

(** The loop stands at [m]: at the entry it starts with, or behind the entry [prev]. *)
Definition at_point lo hi (prev m : Z) : Prop :=
  Forall (fun e => fin e.2 <= m) lo /\ Forall (fun e => m <= r_off e.2) hi /\
  ((prev = NULL /\ exists q n hi', hi = (q, n) :: hi' /\ r_off n = m) \/ exists lo' rp, lo = lo' ++ [(prev, rp)] /\ fin rp = m).

Lemma fin_end r : rl_wf r -> r_end r = fin r.
Proof. intros (? & ? & ?). unfold r_end. apply Z.mod_small. lia. Qed.

(** The gap before the next entry is closed. *)
Lemma close_gap zp lo q n hi held a m prev : inv zp (lo ++ (q, n) :: hi) held [(a, m)] -> at_point lo ((q, n) :: hi) prev m -> 0 <= a <= m ->
  exists zp' lo', (if prev =? NULL then Ok zp else r ← get_rl zp prev; if r_end r <? r_off n then zfs_range_new_proxy zp (r_end r) (u64 (r_off n - r_end r)) else Ok zp) = Ok zp' /\
    inv zp' (lo' ++ (q, n) :: hi) held [(a, r_off n)] /\ evolves held zp (lo ++ (q, n) :: hi) zp' (lo' ++ (q, n) :: hi).
Proof using All.
  intros Hi (Hlo & Hhi & Hp) Ha. destruct (entry_at _ _ _ _ _ _ _ Hi) as (He & _ & _ & _ & _ & _ & Hhi'). destruct (e_wf _ _ He) as (W1 & W2 & W3).
  destruct Hp as [(-> & q' & n' & hi' & [= <- <- <-] & <-)|(lo' & rp & -> & Efp)].
  - exists zp, lo. split; [done|]. split; [done|apply evolves_refl].
  - pose proof Hi as Hi'. rewrite <- app_assoc in Hi'. cbn in Hi'. destruct (entry_at _ _ _ _ _ _ _ Hi') as (Hep & _ & Eg & Hpn & _). rewrite (proj2 (Z.eqb_neq _ _) Hpn), Eg. bnd.
    rewrite (fin_end rp (e_wf _ _ Hep)), Efp. apply Forall_inv in Hhi. cbn in Hhi. destruct (Z.ltb_spec m (r_off n)) as [Hgap|Hgap].
    + destruct (new_proxy_ok zp (lo' ++ [(prev, rp)]) ((q, n) :: hi) held a m (r_off n) Hi) as (zp' & g & rg & -> & H1 & H2 & _); [done| |lia|lia|].
      * constructor; [done|]. eapply Forall_impl; [exact Hhi'|]. intros e Hx. cbn in *. lia.
      * exists zp', ((lo' ++ [(prev, rp)]) ++ [(g, rg)]). split; [done|]. rewrite <- (app_assoc _ [(g, rg)]). done.
    + assert (m = r_off n) as -> by lia. exists zp, (lo' ++ [(prev, rp)]). split; [done|]. split; [done|apply evolves_refl].
Qed.

(** The range is extended over the entry [q] up to its end. *)
Lemma take_entry zp lo q n hi held a : inv zp (lo ++ (q, n) :: hi) held [(a, r_off n)] -> closed_to_readers n = false -> 0 <= a <= r_off n -> zlen held + 2 < 2 ^ 32 ->
  exists zp1 p zp' r', zfs_range_proxify zp q = Ok (zp1, p) /\ bump zp1 p = Ok zp' /\ inv zp' (lo ++ (p, r') :: hi) held [(a, fin n)] /\ evolves held zp (lo ++ (q, n) :: hi) zp' (lo ++ (p, r') :: hi) /\ fin r' = fin n.
Proof using All.
  intros Hi Hc Ha Hz. destruct (proxify_ok _ _ _ _ _ _ _ Hi Hc) as (zp1 & p & r & rp & E1 & Hi1 & Hv1 & Hp & Eo & El & _ & Hc' & _).
  destruct (bump_ok zp1 lo p r hi held a (r_off n) Hi1) as (zp' & r' & E2 & Hi2 & Hv2 & Ef & _); [done|done|done|lia|done|].
  exists zp1, p, zp', r'. rewrite Eo, El in Hi2. split; [done|]. split; [done|]. split; [done|]. split; [by eapply evolves_trans|lia].
Qed.

Lemma add_step_ok zp lo hi held a m end_ prev : inv zp (lo ++ hi) held [(a, m)] -> at_point lo hi prev m -> 0 <= a <= m -> m < end_ < 2 ^ 64 ->
  (forall e, e ∈ hi -> r_off e.2 < end_ -> closed_to_readers e.2 = false) -> zlen held + 2 < 2 ^ 32 ->
  (exists zp' es', add_reader_step end_ (zp, prev, hd NULL hi.*1) = Ok (inr zp') /\ inv zp' es' held [(a, end_)] /\ evolves held zp (lo ++ hi) zp' es') \/
  (exists zp' e hi' lo' p m', hi = e :: hi' /\ add_reader_step end_ (zp, prev, hd NULL hi.*1) = Ok (inl (zp', p, hd NULL hi'.*1)) /\ inv zp' (lo' ++ hi') held [(a, m')] /\
     at_point lo' hi' p m' /\ m < m' < end_ /\ evolves held zp (lo ++ hi) zp' (lo' ++ hi')).
Proof using All.
  intros Hi Hat Ha Hm Hop Hz. unfold add_reader_step.
  assert (Hpast : Forall (fun e => end_ <= r_off e.2) hi -> exists zp' es', (r ← get_rl zp prev; zp ← zfs_range_new_proxy zp (r_end r) (u64 (end_ - r_end r)); Ok (inr (znode T * Z * Z) zp)) = Ok (inr zp') /\
    inv zp' es' held [(a, end_)] /\ evolves held zp (lo ++ hi) zp' es').
  { intros Hf. destruct Hat as (Hlo & Hhi & [(_ & q & n & hi' & -> & <-)|(lo' & rp & -> & Efp)]); [apply Forall_inv in Hf; cbn in Hf; lia|].
    pose proof Hi as Hi'. rewrite <- app_assoc in Hi'. cbn in Hi'. destruct (entry_at _ _ _ _ _ _ _ Hi') as (Hep & _ & -> & _). bnd. rewrite (fin_end rp (e_wf _ _ Hep)), Efp.
    destruct (new_proxy_ok zp (lo' ++ [(prev, rp)]) hi held a m end_ Hi Hlo Hf Ha Hm) as (zp' & g & rg & -> & H1 & H2 & _). bnd. by exists zp', ((lo' ++ [(prev, rp)]) ++ (g, rg) :: hi). }
  destruct hi as [|[q n] hi]; [left; by apply Hpast|]. cbn [fmap list_fmap hd fst]. destruct (entry_at _ _ _ _ _ _ _ Hi) as (He & _ & Eg & Hqn & _ & _ & Hafter).
  rewrite (proj2 (Z.eqb_neq _ _) Hqn), Eg. bnd. destruct (Z.leb_spec end_ (r_off n)) as [Hp|Hp].
  { left. apply Hpast. constructor; [done|]. destruct (e_wf _ _ He) as (_ & ? & _). eapply Forall_impl; [exact Hafter|]. intros e Hx. cbn in *. lia. }
  clear Hpast. pose proof (Hop (q, n) ltac:(set_solver) Hp) as Hc. cbn in Hc. assert (Hmn : m <= r_off n) by (destruct Hat as (_ & Hhi & _); by apply Forall_inv in Hhi).
  destruct (close_gap _ _ _ _ _ _ _ _ _ Hi Hat Ha) as (zp1 & lo1 & -> & Hi1 & Hv1). bnd. rewrite (fin_end n (e_wf _ _ He)).
  destruct (Z.eqb_spec end_ (fin n)) as [->|Hne].
  - left. destruct (take_entry _ _ _ _ _ _ _ Hi1 Hc ltac:(lia) Hz) as (zp2 & p & zp3 & r' & -> & E2 & Hi3 & Hv3 & _). bnd. rewrite E2. bnd. exists zp3, (lo1 ++ (p, r') :: hi). split; [done|]. split; [done|by eapply evolves_trans].
  - destruct (Z.ltb_spec end_ (fin n)) as [Hlt|Hlt].
    + left. destruct (split_ok _ _ _ _ _ _ _ end_ Hi1 Hc ltac:(lia)) as (zp2 & p1 & r1 & p2 & r2 & -> & Hi2 & Hv2 & Hp1 & Eo1 & Ef1 & _ & _ & Hc1 & _). bnd.
      destruct (bump_ok zp2 lo1 p1 r1 ((p2, r2) :: hi) held a (r_off n) Hi2) as (zp3 & r' & -> & Hi3 & Hv3 & _); [done|done|done|lia|done|]. bnd. rewrite Ef1 in Hi3.
      eexists _, _. split; [done|]. split; [exact Hi3|]. eapply evolves_trans; [exact Hv1|]. by eapply evolves_trans.
    + right. destruct (take_entry _ _ _ _ _ _ _ Hi1 Hc ltac:(lia) Hz) as (zp2 & p & zp3 & r' & -> & E2 & Hi3 & Hv3 & Ef). bnd. rewrite E2. bnd.
      pose proof (v_seq _ _ _ _ Hi3) as Hs. rewrite fmap_app in Hs. cbn in Hs. rewrite (proj2 (tr_walk_ok _ _ _ _ Hs)). bnd.
      destruct (entry_at _ _ _ _ _ _ _ Hi3) as (He3 & _ & _ & _ & _ & Hb3 & Ha3). destruct (e_wf _ _ He3) as (_ & Hr3 & _).
      exists zp3, (q, n), hi, (lo1 ++ [(p, r')]), p, (fin n). rewrite <- app_assoc. split; [done|]. split; [done|]. split; [done|]. split; [|split; [destruct (e_wf _ _ He) as (_ & ? & _); lia|by eapply evolves_trans]].
      split_and!; [|by rewrite <- Ef|right; by exists lo1, r']. apply Forall_app. split; [|constructor; [cbn; lia|done]]. eapply Forall_impl; [exact Hb3|]. intros e Hx. cbn in *. lia.
Qed.

Lemma add_loop_ok held a end_ : end_ < 2 ^ 64 -> zlen held + 2 < 2 ^ 32 -> forall hi k zp lo m prev, inv zp (lo ++ hi) held [(a, m)] -> at_point lo hi prev m -> 0 <= a <= m -> m < end_ ->
  (forall e, e ∈ hi -> r_off e.2 < end_ -> closed_to_readers e.2 = false) -> (length hi < k)%nat ->
  exists zp' es', loop k (add_reader_step end_) (zp, prev, hd NULL hi.*1) = Ok zp' /\ inv zp' es' held [(a, end_)] /\ evolves held zp (lo ++ hi) zp' es'.
Proof using All.
  intros Hend Hz. induction hi as [|e0 hi IH]; intros k zp lo m prev Hi Hat Ha Hm Hop Hk; (destruct k as [|k]; [cbn in Hk; lia|]); cbn [loop];
    (destruct (add_step_ok _ _ _ _ _ _ _ _ Hi Hat Ha (conj Hm Hend) Hop Hz) as [(zp' & es' & -> & H1 & H2)|(zp' & e & hi' & lo' & p & m' & E & -> & Hi' & Hat' & Hm' & Hv)]; [by exists zp', es'|]); [done|].
  injection E as <- <-. destruct (IH k zp' lo' m' p Hi' Hat') as (zp2 & es2 & E2 & H1 & H2); [lia|lia|intros; apply Hop; [set_solver|done]|cbn in Hk; lia|].
  exists zp2, es2. split; [done|]. split; [done|by eapply evolves_trans].
Qed.

(** ** The place of a range *)

(** Where a search for [off] ends: at the entry with this offset, or with the last
    entry before it and the place behind that. *)
Definition located zp es (off prev : Z) (w : I) : Prop :=
  (exists rp lo hi, es = lo ++ (prev, rp) :: hi /\ r_off rp = off) \/
  (exists lo hi, es = lo ++ hi /\ Forall (fun e => r_off e.2 < off) lo /\ Forall (fun e => off < r_off e.2) hi /\ tr_gap (z_range_avl zp) w lo.*1 hi.*1 /\ prev = List.last lo.*1 NULL).

Lemma locate_ok zp es held G r : inv zp es held G ->
  exists q w prev, rl_find zp r = Ok (q, w) /\ (if q =? NULL then tr_nearest (z_range_avl zp) w AVL_BEFORE else Ok q) = Ok prev /\ located zp es (r_off r) prev w.
Proof using All.
  intros Hi. destruct (rl_find_ok _ _ _ _ r Hi) as [(q & w & rq & lo & hi & E & -> & Eo)|(w & lo & hi & E & -> & Hlo & Hhi & Hg)].
  - exists q, w, q. destruct (entry_at _ _ _ _ _ _ _ Hi) as (_ & _ & _ & Hn & _). rewrite (proj2 (Z.eqb_neq _ _) Hn). split; [done|]. split; [done|]. left. by exists rq, lo, hi.
  - exists NULL, w, (List.last lo.*1 NULL). rewrite Z.eqb_refl. split; [done|]. split; [by apply (tr_nearest_ok _ _ _ _ Hg)|]. right. by exists lo, hi.
Qed.

(** No entry that readers do not share reaches into the range. *)
Definition all_open es (off end_ : Z) : Prop := forall e, e ∈ es -> r_off e.2 < end_ -> off < fin e.2 -> closed_to_readers e.2 = false.

Lemma before_all zp lo p r hi held G off : inv zp (lo ++ (p, r) :: hi) held G -> r_off r <= off -> Forall (fun e => fin e.2 <= off) lo.
Proof using All. intros Hi Ho. destruct (entry_at _ _ _ _ _ _ _ Hi) as (_ & _ & _ & _ & _ & Hlo & _). eapply Forall_impl; [exact Hlo|]. intros e Hx. cbn in *. lia. Qed.

Lemma prev_ok zp es held off end_ prev w : inv zp es held [] -> located zp es off prev w -> all_open es off end_ -> off < end_ ->
  exists zp' lo hi prev', add_reader_prev zp off prev = Ok (zp', prev') /\ inv zp' (lo ++ hi) held [] /\ evolves held zp es zp' (lo ++ hi) /\
    Forall (fun e => fin e.2 <= off) lo /\ Forall (fun e => off <= r_off e.2) hi /\ all_open hi off end_ /\
    ((exists n hi', hi = (prev', n) :: hi' /\ r_off n = off /\ prev' <> NULL) \/ (prev' = NULL /\ tr_gap (z_range_avl zp') w lo.*1 hi.*1)).
Proof using All.
  intros Hi Hl Hop Hend. unfold add_reader_prev. destruct Hl as [(rp & lo & hi & -> & Eo)|(lo & hi & -> & Hlo & Hhi & Hg & ->)].
  { destruct (entry_at _ _ _ _ _ _ _ Hi) as (He & _ & Eg & Hn & _ & _ & Ha). destruct (e_wf _ _ He) as (W1 & W2 & W3). rewrite (proj2 (Z.eqb_neq _ _) Hn), Eg. bnd.
    rewrite (fin_end _ (e_wf _ _ He)), (proj2 (Z.leb_gt _ _)), (proj2 (Z.eqb_eq _ _) Eo) by lia. exists zp, lo, ((prev, rp) :: hi), prev. split; [done|]. split; [done|]. split; [apply evolves_refl|].
    split; [apply (before_all _ _ _ _ _ _ _ _ Hi); lia|]. split; [constructor; [cbn; lia|]; eapply Forall_impl; [exact Ha|]; intros e Hx; cbn in *; lia|].
    split; [intros e Hx; apply Hop; set_solver|]. left. by exists rp, hi. }
  destruct (rev_case lo) as [->|([q r] & lo' & ->)].
  { cbn. exists zp, [], hi, NULL. split; [done|]. split; [done|]. split; [apply evolves_refl|]. split; [constructor|]. split; [eapply Forall_impl; [exact Hhi|]; intros e Hx; cbn in *; lia|]. split; [done|]. by right. }
  rewrite fmap_app in *. cbn in *. rewrite List.last_last. pose proof Hi as Hi'. rewrite <- app_assoc in Hi'. cbn in Hi'.
  destruct (entry_at _ _ _ _ _ _ _ Hi') as (He & _ & Eg & Hn & _ & _ & Ha). destruct (e_wf _ _ He) as (W1 & W2 & W3). rewrite (proj2 (Z.eqb_neq _ _) Hn), Eg. cbn [negb]. bnd. rewrite (fin_end _ (e_wf _ _ He)).
  apply Forall_app in Hlo as [_ Hr]. apply Forall_inv in Hr. cbn in Hr. pose proof (before_all _ _ _ _ _ _ _ off Hi' ltac:(lia)) as Hb.
  assert (Hhi' : Forall (fun e => off <= r_off e.2) hi) by (eapply Forall_impl; [exact Hhi|]; intros e Hx; cbn in *; lia).
  destruct (Z.leb_spec (fin r) off) as [Hf|Hf].
  - exists zp, (lo' ++ [(q, r)]), hi, NULL. split; [done|]. split; [done|]. split; [apply evolves_refl|]. split; [apply Forall_app; split; [done|by constructor]|]. split; [done|].
    split; [intros e Hx; apply Hop; set_solver|]. right. by rewrite fmap_app.
  - rewrite (proj2 (Z.eqb_neq (r_off r) off)) by lia. cbn [negb]. assert (Hc : closed_to_readers r = false) by (apply (Hop (q, r)); [set_solver|cbn; lia|done]).
    destruct (split_ok _ _ _ _ _ _ _ off Hi' Hc ltac:(lia)) as (zp1 & p1 & r1 & p2 & r2 & -> & Hi1 & Hv & Hp1 & Eo1 & Ef1 & Eo2 & Ef2 & Hc1 & Hc2). bnd.
    pose proof (v_seq _ _ _ _ Hi1) as Hs. rewrite fmap_app in Hs. cbn in Hs. rewrite (proj2 (tr_walk_ok _ _ _ _ Hs)). bnd. cbn [hd].
    exists zp1, (lo' ++ [(p1, r1)]), ((p2, r2) :: hi), p2. rewrite <- !app_assoc. cbn. split; [done|]. split; [done|]. split; [done|]. split; [apply Forall_app; split; [done|constructor; [cbn; lia|done]]|].
    split; [constructor; [cbn; lia|done]|]. split; [intros e [->|Hx]%elem_of_cons; [done|apply Hop; set_solver]|]. left. exists r2, hi. split; [done|]. split; [done|].
    replace (lo' ++ (p1, r1) :: (p2, r2) :: hi) with ((lo' ++ [(p1, r1)]) ++ (p2, r2) :: hi) in Hi1 by (by rewrite <- app_assoc). by destruct (entry_at _ _ _ _ _ _ _ Hi1) as (_ & _ & _ & ? & _).
Qed.

(** ** Granting a lock *)

(** A lock that has been asked for. *)
Definition requested (r : rl) : Prop := r_cnt r = 1 /\ r_proxy r = false /\ rl_wf r /\ r_write_wanted r = false /\ r_read_wanted r = false.

Lemma evolves_mono p held zp es zp' es' : evolves held zp es zp' es' -> (p ∉ es.*1) -> (p ∉ held) -> evolves (p :: held) zp es zp' es'.
Proof.
  intros [V1 V2 V3 V6 V4 V5] Hpe Hph. split; try done; [intros q [?|[?|?]]%V1; set_solver| |].
  - intros q r Hq He Hh. apply V3; [done|done|set_solver].
  - intros q r Hq [->|Hh]%elem_of_cons; [|by apply V6]. exists r. split; [by apply V3|done].
Qed.

Lemma inv_ghost zp es held a : inv zp es held [] -> Forall (fun e => a <= r_off e.2 \/ fin e.2 <= a) es -> inv zp es held [(a, a)].
Proof using All. intros [I1 I2 I3 I4 I5 I6] Ha. split; try done. cbn. apply ok_empty. split; [done|]. by apply Forall_fmap. Qed.

(** The new lock is an entry. *)
Lemma inv_enter zp lo hi held p r t : inv zp (lo ++ hi) held [] -> z_rls zp !! p = Some r -> (p ∉ held) -> requested r -> r_type r <> RL_APPEND ->
  Forall (fun e => fin e.2 <= r_off r) lo -> Forall (fun e => fin r <= r_off e.2) hi -> tr_seq t (lo ++ (p, r) :: hi).*1 -> inv (with_avl zp t) (lo ++ (p, r) :: hi) (p :: held) [].
Proof using All.
  intros Hi Hp Hh (R1 & R2 & R3 & R4 & R5) Ht Hlo Hhi Hs. pose proof (nonempty_ranges _ _ _ _ Hi) as Hne. destruct Hi as [I1 I2 I3 I4 I5 I6].
  assert (Er : ranges (z_rls zp) (p :: held) = ranges (z_rls zp) held) by (unfold ranges; cbn; unfold range_of at 1; by rewrite Hp, R1).
  split; [done| | | |by constructor|].
  - intros x s [?|[[= -> ->]|?]%elem_of_cons]%elem_of_app; [apply I2; set_solver|done|apply I2; set_solver].
  - cbn [app z_rls with_avl]. rewrite Er, fmap_app, fmap_cons. apply ok_insert; try done; [by rewrite <- fmap_app|]. apply ord_around. rewrite !Forall_fmap, <- fmap_app. split_and!; [apply I3|done|done].
  - intros x [->|Hx]%elem_of_cons; [exists r; split; [done|]; split; [done|]; split; [done|]; split; [done|]; left; set_solver|].
    destruct (I4 x Hx) as (s & Hs' & G1 & G2 & G3 & G4). exists s. split; [done|]. split; [done|]. split; [done|]. split; [done|]. destruct G4 as [[? ?]|(? & Hn & ?)]; [left; set_solver|right].
    split; [done|]. split; [|done]. rewrite fmap_app in *. cbn. set_solver.
  - intros x s [?|[[= -> ->]|?]%elem_of_cons]%elem_of_app Hpx; [|set_solver|]; apply elem_of_cons; right; apply (I6 x s); set_solver.
Qed.

(** The new lock is a reader with proxies. *)
Lemma inv_join zp es held p r : inv zp es held [(r_off r, fin r)] -> z_rls zp !! p = Some r -> (p ∉ held) -> (p ∉ es.*1) -> r_cnt r = 0 -> r_proxy r = false -> rl_wf r -> r_type r = RL_READER -> inv zp es (p :: held) [].
Proof using All.
  intros [I1 I2 I3 I4 I5 I6] Hp Hh He R1 R2 R3 R4. split; [done|done| | |by constructor|].
  - cbn. unfold ranges. cbn. unfold range_of at 1. rewrite Hp, R1. done.
  - intros x [->|Hx]%elem_of_cons; [|by apply I4]. exists r. split; [done|]. split; [done|]. split; [done|]. split; [congruence|]. by right.
  - intros x s Hx Hpx. apply elem_of_cons. right. by apply (I6 x s).
Qed.

(** Memory of an object outside the tree, after readers were added. *)
Lemma evolves_other held zp es zp' es' p r : evolves held zp es zp' es' -> z_rls zp !! p = Some r -> (p ∉ es.*1) -> (p ∉ held) -> z_rls zp' !! p = Some r /\ (p ∉ es'.*1).
Proof. intros [V1 V2 V3 _ V4 V5] Hp He Hh. split; [by apply V3|]. intros [?|[?|?]]%V1; [done|done|congruence]. Qed.

(** The range [new] is shared with the entries from [q] on. *)
Lemma share_ok zp lo q n hi held p new : inv zp (lo ++ (q, n) :: hi) held [] -> z_rls zp !! p = Some new -> (p ∉ (lo ++ (q, n) :: hi).*1) -> (p ∉ held) -> requested new -> r_type new = RL_READER ->
  Forall (fun e => fin e.2 <= r_off new) lo -> r_off new <= r_off n < fin new -> all_open ((q, n) :: hi) (r_off new) (fin new) -> zlen held + 2 < 2 ^ 32 ->
  exists zp' es', (zp ← (if r_off new <? r_off n then zfs_range_new_proxy zp (r_off new) (u64 (r_off n - r_off new)) else Ok zp);
      r ← get_rl zp p; add_reader_loop (set_rl zp p (with_cnt r 0)) (fin new) q) = Ok zp' /\ inv zp' es' (p :: held) [] /\ evolves (p :: held) zp (lo ++ (q, n) :: hi) zp' es'.
Proof using All.
  intros Hi Hp Hpe Hph (R1 & R2 & R3 & R4 & R5) Ht Hlo Ho Hop Hz. pose proof R3 as (W1 & W2 & W3). destruct (entry_at _ _ _ _ _ _ _ Hi) as (He & _ & _ & _ & _ & Hbe & Haf). destruct (e_wf _ _ He) as (N1 & N2 & N3).
  assert (Hafn : Forall (fun e => r_off n <= r_off e.2) ((q, n) :: hi)) by (constructor; [cbn; lia|eapply Forall_impl; [exact Haf|]; intros e Hx; cbn in *; lia]).
  assert (Hi0 : inv zp (lo ++ (q, n) :: hi) held [(r_off new, r_off new)]).
  { apply inv_ghost; [done|]. apply Forall_app. split; [eapply Forall_impl; [exact Hlo|]; by right|]. eapply Forall_impl; [exact Hafn|]. intros e Hx. cbn in *. lia. }
  assert (exists zp1 lo1, (if r_off new <? r_off n then zfs_range_new_proxy zp (r_off new) (u64 (r_off n - r_off new)) else Ok zp) = Ok zp1 /\
    inv zp1 (lo1 ++ (q, n) :: hi) held [(r_off new, r_off n)] /\ evolves held zp (lo ++ (q, n) :: hi) zp1 (lo1 ++ (q, n) :: hi)) as (zp1 & lo1 & -> & Hi1 & Hv1).
  { destruct (Z.ltb_spec (r_off new) (r_off n)) as [Hlt|Hge].
    - destruct (new_proxy_ok zp lo ((q, n) :: hi) held _ _ (r_off n) Hi0) as (zp' & g & rg & -> & H1 & H2 & _); [done|done|lia|lia|]. exists zp', (lo ++ [(g, rg)]). by rewrite <- app_assoc.
    - exists zp, lo. assert (r_off n = r_off new) as -> by lia. split; [done|]. split; [done|apply evolves_refl]. }
  destruct (evolves_other _ _ _ _ _ _ _ Hv1 Hp Hpe Hph) as [Hp1 Hpe1]. bnd. unfold get_rl. rewrite Hp1. bnd.
  set (zp2 := set_rl zp1 p (with_cnt new 0)). pose proof (inv_other _ _ _ _ _ (with_cnt new 0) Hi1 Hpe1 Hph) as Hi2. fold zp2 in Hi2.
  destruct (add_loop_ok held (r_off new) (fin new) W3 Hz ((q, n) :: hi) (tr_fuel (z_range_avl zp2)) zp2 lo1 (r_off n) NULL Hi2) as (zp' & es' & E & Hi3 & Hv3).
  - destruct (entry_at _ _ _ _ _ _ _ Hi2) as (_ & _ & _ & _ & _ & Hb2 & _). split; [done|]. split; [done|]. left. split; [done|]. by exists q, n, hi.
  - lia.
  - lia.
  - intros e Hx Hf. apply Hop; [done|done|]. rewrite list.Forall_forall in Hafn. specialize (Hafn e Hx). pose proof (v_ok _ _ _ _ Hi) as (_ & Hf' & _). rewrite Forall_fmap, list.Forall_forall in Hf'.
    destruct (e_wf _ _ (Hf' e ltac:(set_solver))) as (_ & ? & _). lia.
  - destruct (tr_seq_facts _ _ (v_seq _ _ _ _ Hi2)) as (_ & _ & Hfl & _). rewrite length_fmap, length_app in Hfl. lia.
  - exists zp', es'. split; [exact E|]. destruct (evolves_other _ _ _ _ _ p (with_cnt new 0) Hv3) as [Hp3 Hpe3]; [cbn; by rewrite lookup_insert_eq|done|done|].
    split; [by apply (inv_join zp' es' held p (with_cnt new 0))|]. eapply evolves_trans; [by apply evolves_mono|]. eapply evolves_trans; [|by apply evolves_mono].
    split; try done; [auto|intros x Hx; by apply is_Some_insert| |].
    + intros x s Hx _ Hxh. cbn. rewrite lookup_insert_ne; [done|set_solver].
    + intros x s Hx _. cbn. destruct (decide (p = x)) as [<-|]; [|exists s; by rewrite lookup_insert_ne]. exists (with_cnt new 0). rewrite lookup_insert_eq. split; [done|]. by assert (s = new) as -> by congruence.
Qed.

Lemma add_reader_ok zp es held p new prev w : inv zp es held [] -> z_rls zp !! p = Some new -> (p ∉ es.*1) -> (p ∉ held) -> p <> NULL -> requested new -> r_type new = RL_READER ->
  located zp es (r_off new) prev w -> all_open es (r_off new) (fin new) -> zlen held + 2 < 2 ^ 32 ->
  exists zp' es', zfs_range_add_reader zp p prev w = Ok zp' /\ inv zp' es' (p :: held) [] /\ evolves (p :: held) zp es zp' es'.
Proof using All.
  intros Hi Hp Hpe Hph Hpn Hreq Ht Hloc Hop Hz. pose proof Hreq as (R1 & R2 & R3 & R4 & R5). pose proof R3 as (W1 & W2 & W3). assert (Eg : get_rl zp p = Ok new) by (unfold get_rl; by rewrite Hp).
  unfold zfs_range_add_reader. rewrite Eg. bnd. clear Eg.
  destruct (prev_ok _ _ _ _ (fin new) _ _ Hi Hloc Hop ltac:(lia)) as (zp1 & lo & hi & prev' & -> & Hi1 & Hv1 & Hlo & Hhi & Hop1 & Hcase). bnd.
  destruct (evolves_other _ _ _ _ _ _ _ Hv1 Hp Hpe Hph) as [Hp1 Hpe1]. rewrite (Z.mod_small (fin new)) by lia.
  assert (En : (if negb (prev' =? NULL) then Ok prev' else tr_nearest (z_range_avl zp1) w AVL_AFTER) = Ok (hd NULL hi.*1)).
  { destruct Hcase as [(n & hi' & -> & _ & Hn)|[-> Hg]]; [by rewrite (proj2 (Z.eqb_neq _ _) Hn)|]. cbn. by apply (tr_nearest_ok _ _ _ _ Hg). }
  rewrite En. bnd. clear En.
  assert (Hins : Forall (fun e => fin new <= r_off e.2) hi -> exists zp' es', (t ← tr_insert (z_range_avl zp1) p w; Ok (with_avl zp1 t)) = Ok zp' /\ inv zp' es' (p :: held) [] /\ evolves (p :: held) zp es zp' es').
  { intros Hf. destruct Hcase as [(n & hi' & -> & Eo & _)|[-> Hg]]; [apply Forall_inv in Hf; cbn in Hf; lia|].
    assert (Hord : ord (lo ++ (p, new) :: hi).*2) by (rewrite fmap_app, fmap_cons; apply ord_around; rewrite !Forall_fmap, <- fmap_app; split_and!; [apply (v_ok _ _ _ _ Hi1)|done|done]).
    destruct (tr_insert_ok _ _ _ _ p Hg Hpn) as (t & -> & Hs); [by rewrite <- fmap_app| |].
    { rewrite <- fmap_app. eapply ord_room; [exact Hord|]. pose proof (v_ok _ _ _ _ Hi1) as (_ & Hf' & _). rewrite fmap_app, !Forall_app in Hf' |- *. destruct Hf' as [F1 F2]. split; [eapply Forall_impl; [exact F1|]; by intros ? [? _ _ _]|].
      constructor; [done|]. eapply Forall_impl; [exact F2|]. by intros ? [? _ _ _]. }
    bnd. exists (with_avl zp1 t), (lo ++ (p, new) :: hi). split; [done|]. split; [apply inv_enter; try done; [by rewrite Ht|by rewrite fmap_app]|]. eapply evolves_trans; [by apply evolves_mono|].
    split; try done; [|intros x s Hx _; by exists s|intros e Hx _; set_solver]. intros x. rewrite !fmap_app. cbn. set_solver. }
  destruct hi as [|[q n] hi]; [by apply Hins|]. cbn [fmap list_fmap hd fst]. destruct (entry_at _ _ _ _ _ _ _ Hi1) as (He & _ & Eg & Hqn & _ & _ & Haf).
  rewrite (proj2 (Z.eqb_neq _ _) Hqn), Eg. bnd. destruct (Z.leb_spec (fin new) (r_off n)) as [Hf|Hf].
  - apply Hins. constructor; [done|]. destruct (e_wf _ _ He) as (_ & ? & _). eapply Forall_impl; [exact Haf|]. intros e Hx. cbn in *. lia.
  - apply Forall_inv in Hhi. cbn in Hhi. destruct (share_ok zp1 lo q n hi held p new Hi1 Hp1) as (zp' & es' & E & H1 & H2); try done.
    exists zp', es'. split; [exact E|]. split; [done|]. eapply evolves_trans; [by apply evolves_mono|done].
Qed.
End add.
End RangeLockAdd.
