(* ===== verification/RangeLockGrant.v ===== *)
(** Requests for range locks: each round grants the lock or finds one in its way. *)

From S2P Require Import Prelude Avl AvlWalk OrdTree SpaceMap RangeLock RangeLockSet RangeLockOk RangeLockAdd.
Import SpaceMap RangeLock RangeLockSet RangeLockOk RangeLockAdd.
Open Scope Z_scope.

Module RangeLockGrant.

(** An entry that writers ([true]) or readers wait for. *)
Definition marked (k : bool) (r : rl) : bool := if k then r_write_wanted r else r_read_wanted r.
Definition target (es : entries) (k : bool) (q : Z) : Prop := exists r, (q, r) ∈ es /\ marked k r = true.

(** A range meets an entry. *)
Definition meets (off end_ : Z) (r : rl) : Prop := r_off r < end_ /\ off < fin r.

Section grant.
Context {T I : Type} `{!Tree T I} `{!TreeLaws T I} `{KM : !Kmem} `{KL : !KmemLaws}.
Implicit Types (zp : znode T) (es lo hi : entries) (held : list Z).

(** What a round leaves alone: memory that is no entry, no lock held and not the
    lock asked for, the ranges of the locks held, the marks, and the file. *)
Record keeps (p : Z) held zp es zp' es' : Prop := Keeps {
  k_new : forall q, q ∈ es'.*1 -> q ∈ es.*1 \/ q ∈ p :: held \/ z_rls zp !! q = None;
  k_mem : forall q r, z_rls zp !! q = Some r -> (q ∉ es.*1) -> (q ∉ p :: held) -> z_rls zp' !! q = Some r;
  k_held : forall q r, z_rls zp !! q = Some r -> q ∈ held -> exists r', z_rls zp' !! q = Some r' /\ same r r';
  k_target : forall k q, target es k q -> target es' k q;
  k_file : z_size zp' = z_size zp /\ z_blksz zp' = z_blksz zp /\ z_max_blksz zp' = z_max_blksz zp /\ z_is_zvol zp' = z_is_zvol zp
}.

Lemma evolves_keeps p zp es zp' es' held G : inv zp es held G -> evolves (p :: held) zp es zp' es' -> keeps p held zp es zp' es'.
Proof using All.
  intros Hi [V1 V2 V3 V6 V4 V5]. split; try done; [intros q r Hq Hh; apply V6; [done|set_solver]|]. intros k q (r & Hr & Hk). exists r. split; [|done]. apply V4; [done|]. cbn. destruct (v_ok _ _ _ _ Hi) as (_ & He & _).
  rewrite Forall_fmap, list.Forall_forall in He. specialize (He _ Hr). destruct k; cbn in Hk; [unfold closed_to_readers; rewrite Hk; apply orb_true_r|by apply (e_flag _ _ He)].
Qed.

(** ** Marks *)

Lemma mark_ok zp es held q r k p : inv zp es held [] -> (q, r) ∈ es -> (k = false -> closed_to_readers r = true) ->
  let r' := if k then wants_write r else wants_read r in
  exists es', inv (set_rl zp q r') es' held [] /\ target es' k q /\ es'.*1 = es.*1 /\ keeps p held zp es (set_rl zp q r') es'.
Proof using All.
  intros Hi Hq Hc r'. apply list_elem_of_split in Hq as (lo & hi & ->). exists (lo ++ (q, r') :: hi). split; [|split; [|split; [by rewrite !fmap_app|]]].
  - apply (inv_set zp lo q r hi held [] []); [done| |by destruct k]. pose proof (v_ok _ _ _ _ Hi) as Hok. rewrite fmap_app, fmap_cons in Hok |- *. destruct (ok_entry _ _ _ _ Hok) as (He & _).
    cbn [snd] in *. eapply ok_mark; [exact Hok|..]; try (by destruct k). unfold r'. destruct k; cbn; [intros Hr; unfold closed_to_readers; cbn; apply orb_true_r|]. intros _. unfold closed_to_readers in *. cbn. by apply Hc.
  - exists r'. split; [set_solver|]. by destruct k.
  - split.
    + intros x. rewrite !fmap_app. cbn. auto.
    + intros x s Hx Hxe _. cbn. rewrite lookup_insert_ne; [done|]. intros ->. apply Hxe. rewrite fmap_app. set_solver.
    + intros x s Hx _. cbn. destruct (decide (q = x)) as [<-|]; [|exists s; by rewrite lookup_insert_ne]. exists r'. rewrite lookup_insert_eq. split; [done|].
      rewrite (v_mem _ _ _ _ Hi q r ltac:(set_solver)) in Hx. injection Hx as <-. by destruct k.
    + intros k' x (s & Hs & Hk). rewrite elem_of_app, elem_of_cons in Hs. destruct Hs as [?|[[= -> ->]|?]]; [exists s; set_solver|exists r'; split; [set_solver|]|exists s; set_solver].
      unfold r'. by destruct k, k'.
    + done.
Qed.

(** ** Readers *)

Lemma scan_ok zp held end_ : forall hi lo k, inv zp (lo ++ hi) held [] -> (length hi < k)%nat ->
  exists q, loop k (fun next =>
    if next =? NULL then Ok (inr NULL)
    else
      n ← get_rl zp next;
      if end_ <=? r_off n then Ok (inr NULL)
      else if closed_to_readers n then Ok (inr next)
      else if end_ <=? r_end n then Ok (inr NULL)
      else after ← tr_walk (z_range_avl zp) next AVL_AFTER; Ok (inl after)) (hd NULL hi.*1) = Ok q /\
  ((q = NULL /\ forall e, e ∈ hi -> r_off e.2 < end_ -> closed_to_readers e.2 = false) \/ (q <> NULL /\ exists r, (q, r) ∈ hi /\ closed_to_readers r = true /\ r_off r < end_)).
Proof using All.
  induction hi as [|[q n] hi IH]; intros lo k Hi Hk; (destruct k as [|k]; [cbn in Hk; lia|]); cbn [loop].
  { exists NULL. split; [done|]. left. split; [done|]. by intros e Hx%not_elem_of_nil. }
  cbn [fmap list_fmap hd fst]. destruct (entry_at _ _ _ _ _ _ _ Hi) as (He & _ & Eg & Hn & _ & _ & Haf). destruct (e_wf _ _ He) as (_ & Hl & _). rewrite (proj2 (Z.eqb_neq _ _) Hn), Eg. bnd.
  rewrite list.Forall_forall in Haf. destruct (Z.leb_spec end_ (r_off n)) as [Hp|Hp].
  { exists NULL. split; [done|]. left. split; [done|]. intros e [->|Hx]%elem_of_cons Hf; [cbn in Hf; lia|]. specialize (Haf e Hx). lia. }
  destruct (closed_to_readers n) eqn:Hc; [exists q; split; [done|]; right; split; [done|]; exists n; set_solver|]. rewrite (fin_end _ (e_wf _ _ He)).
  destruct (Z.leb_spec end_ (fin n)) as [Hf|Hf].
  { exists NULL. split; [done|]. left. split; [done|]. intros e [->|Hx]%elem_of_cons He'; [done|]. specialize (Haf e Hx). lia. }
  pose proof (v_seq _ _ _ _ Hi) as Hs. rewrite fmap_app in Hs. cbn in Hs. rewrite (proj2 (tr_walk_ok _ _ _ _ Hs)). bnd.
  destruct (IH (lo ++ [(q, n)]) k) as (q' & E & Hq'); [by rewrite <- app_assoc|cbn in Hk; lia|]. exists q'. split; [exact E|].
  destruct Hq' as [[-> Ho]|(? & r & ? & ? & ?)]; [left; split; [done|]; intros e [->|Hx]%elem_of_cons ?; [done|by apply Ho]|right; split; [done|]; exists r; set_solver].
Qed.

Lemma located_cases zp es off prev w held : inv zp es held [] -> located zp es off prev w ->
  (prev = NULL /\ Forall (fun e => off < r_off e.2) es /\ tr_nearest (z_range_avl zp) w AVL_AFTER = Ok (hd NULL es.*1)) \/
  (prev <> NULL /\ exists lo r hi, es = lo ++ (prev, r) :: hi /\ r_off r <= off /\ Forall (fun e => off < r_off e.2) hi).
Proof using All.
  intros Hi [(rp & lo & hi & -> & Eo)|(lo & hi & -> & Hlo & Hhi & Hg & ->)].
  - right. destruct (entry_at _ _ _ _ _ _ _ Hi) as (_ & _ & _ & Hn & _). split; [done|]. exists lo, rp, hi. split; [done|]. split; [lia|]. rewrite <- Eo. by apply (off_around _ _ _ _ _ _ _ Hi).
  - destruct (rev_case lo) as [->|([q r] & lo' & ->)]; [left; split; [done|]; split; [done|]; by apply (tr_nearest_ok _ _ _ _ Hg)|right]. rewrite fmap_app. cbn. rewrite List.last_last. rewrite <- app_assoc in Hi |- *. cbn in *.
    destruct (entry_at _ _ _ _ _ _ _ Hi) as (_ & _ & _ & Hn & _). split; [done|]. exists lo', r, hi. split; [done|]. apply Forall_app in Hlo as [_ Hr]. apply Forall_inv in Hr. cbn in Hr. split; [lia|done].
Qed.

Lemma reader_blocker_ok zp es held new prev w : inv zp es held [] -> rl_wf new -> located zp es (r_off new) prev w ->
  exists q, reader_blocker zp new prev w = Ok q /\ ((q = NULL /\ all_open es (r_off new) (fin new)) \/ (q <> NULL /\ exists r, (q, r) ∈ es /\ closed_to_readers r = true /\ meets (r_off new) (fin new) r)).
Proof using All.
  intros Hi Hw Hl. destruct Hw as (W1 & W2 & W3). unfold reader_blocker. rewrite (fin_end new) by (split; lia).
  assert (Hwf : forall e, e ∈ es -> 0 < r_len e.2) by (intros e Hx; destruct (v_ok _ _ _ _ Hi) as (_ & He & _); rewrite Forall_fmap, list.Forall_forall in He; by destruct (e_wf _ _ (He e Hx)) as (_ & ? & _)).
  assert (Hfl : (length es < tr_fuel (z_range_avl zp))%nat) by (destruct (tr_seq_facts _ _ (v_seq _ _ _ _ Hi)) as (_ & _ & Hf & _); by rewrite length_fmap in Hf).
  destruct (located_cases _ _ _ _ _ _ Hi Hl) as [(-> & Ha & En)|(Hn & lo & r & hi & -> & Ho & Hoh)].
  - cbn [negb Z.eqb NULL]. rewrite En. bnd. destruct (scan_ok zp held (fin new) es [] _ Hi Hfl) as (q & E & Hq). exists q. split; [exact E|].
    destruct Hq as [[-> Hq]|(Hqn & s & Hs & Hc & Hf)]; [left; split; [done|]; intros e Hx Hf _; by apply Hq|right]. split; [done|]. exists s. split; [done|]. split; [done|]. split; [done|].
    rewrite list.Forall_forall in Ha. specialize (Ha _ Hs). specialize (Hwf _ Hs). cbn in *. lia.
  - rewrite (proj2 (Z.eqb_neq _ _) Hn). cbn [negb]. destruct (entry_at _ _ _ _ _ _ _ Hi) as (He & _ & -> & _ & _ & Hbe & Haf). bnd. rewrite (fin_end _ (e_wf _ _ He)).
    pose proof (v_seq _ _ _ _ Hi) as Hs. rewrite fmap_app in Hs. cbn in Hs. rewrite (proj2 (tr_walk_ok _ _ _ _ Hs)). bnd. rewrite list.Forall_forall in Hbe, Haf, Hoh.
    destruct (scan_ok zp held (fin new) hi (lo ++ [(prev, r)]) (tr_fuel (z_range_avl zp))) as (q & E & Hq); [by rewrite <- app_assoc|rewrite length_app in Hfl; cbn in Hfl; lia|].
    assert (Hscan : (closed_to_readers r = false \/ fin r <= r_off new) -> exists q, reader_scan zp (fin new) (hd NULL hi.*1) = Ok q /\
      ((q = NULL /\ all_open (lo ++ (prev, r) :: hi) (r_off new) (fin new)) \/ (q <> NULL /\ exists r0, (q, r0) ∈ lo ++ (prev, r) :: hi /\ closed_to_readers r0 = true /\ meets (r_off new) (fin new) r0))).
    { intros Hr. exists q. split; [exact E|]. destruct Hq as [[-> Hq]|(Hqn & s & Hs' & Hc & Hf)]; [left; split; [done|]|right; split; [done|]; exists s; split; [set_solver|]; split; [done|]; split; [done|]].
      - intros e. rewrite elem_of_app, elem_of_cons. intros [Hx|[->|Hx]] H1 H2; [specialize (Hbe e Hx); lia|destruct Hr; [done|cbn in *; lia]|by apply Hq].
      - specialize (Hoh _ Hs'). specialize (Hwf (q, s) ltac:(set_solver)). cbn in *. lia. }
    destruct (Z.ltb_spec (r_off new) (fin r)) as [Hlt|Hge]; [|apply Hscan; by right].
    destruct (closed_to_readers r) eqn:Hc; [exists prev; split; [done|]; right; split; [done|]; exists r; split; [set_solver|]; split; [done|]; split; lia|].
    destruct (Z.ltb_spec (fin new) (fin r)) as [Hlt'|Hge']; [|apply Hscan; by left]. exists NULL. split; [done|]. left. split; [done|].
    intros e. rewrite elem_of_app, elem_of_cons. intros [Hx|[->|Hx]] H1 H2; [specialize (Hbe e Hx); lia|done|specialize (Haf e Hx); lia].
Qed.

(** ** Rounds *)

(** A request that has not been granted. *)
Definition pending zp es held (p : Z) (r : rl) : Prop := z_rls zp !! p = Some r /\ (p ∉ es.*1) /\ (p ∉ held) /\ p <> NULL /\ requested r.

(** A lock serves a request: where an append starts depends on the size of the file. *)
Definition starts zp (off : Z) (ty : rl_type) : Z := if decide (ty = RL_APPEND) then if z_is_zvol zp then off else z_size zp else off.
Definition serves zp (off len : Z) (ty : rl_type) (r : rl) : Prop :=
  r_type r = (if decide (ty = RL_READER) then RL_READER else RL_WRITER) /\ r_off r <= starts zp off ty /\ starts zp off ty + len <= fin r.

(** The request behind a lock. *)
Definition asks (off len : Z) (ty : rl_type) (r : rl) : Prop := r_type r = ty /\ (ty = RL_READER -> r_off r = off /\ r_len r = len).

(** The lock [p] is granted, or waits for an entry in its way. *)
Definition round (off len : Z) (ty : rl_type) zp es held (p : Z) (o : znode T * Z) : Prop :=
  (o.2 = NULL /\ exists es' r, inv o.1 es' (p :: held) [] /\ keeps p held zp es o.1 es' /\ z_rls o.1 !! p = Some r /\ serves zp off len ty r) \/
  (o.2 <> NULL /\ exists es' r, inv o.1 es' held [] /\ keeps p held zp es o.1 es' /\ target es' (bool_decide (ty <> RL_READER)) o.2 /\ o.2 ∈ es.*1 /\ pending o.1 es' held p r /\ asks off len ty r).

Lemma wait_ok zp es held p r q rq k off len ty : inv zp es held [] -> pending zp es held p r -> asks off len ty r -> (q, rq) ∈ es -> q <> NULL -> (k = false -> closed_to_readers rq = true) -> k = bool_decide (ty <> RL_READER) ->
  round off len ty zp es held p (set_rl zp q (if k then wants_write rq else wants_read rq), q).
Proof using All.
  intros Hi (P1 & P2 & P3 & P4 & P5) Ha Hq Hqn Hc Ek. right. split; [done|]. destruct (mark_ok zp es held q rq k p Hi Hq Hc) as (es' & H1 & H2 & H3 & H4). exists es', r. split; [done|]. split; [done|]. split; [by rewrite <- Ek|]. split; [apply list_elem_of_fmap; by exists (q, rq)|]. split; [|done].
  assert (p <> q) by (intros ->; apply P2, list_elem_of_fmap; by exists (q, rq)). split; [cbn; by rewrite lookup_insert_ne|].
  by rewrite H3.
Qed.

Lemma reader_round_ok zp es held p new : inv zp es held [] -> pending zp es held p new -> r_type new = RL_READER -> zlen held + 2 < 2 ^ 32 ->
  exists o, zfs_range_lock_reader zp p = Ok o /\ round (r_off new) (r_len new) RL_READER zp es held p o.
Proof using All.
  intros Hi Hpend Ht Hz. pose proof Hpend as (P1 & P2 & P3 & P4 & P5). unfold zfs_range_lock_reader. assert (Eg : get_rl zp p = Ok new) by (unfold get_rl; by rewrite P1). rewrite Eg. bnd.
  destruct (locate_ok _ _ _ _ new Hi) as (q0 & w & prev & -> & Eprev & Hl). bnd. rewrite Eprev. bnd.
  destruct (reader_blocker_ok _ _ _ _ _ _ Hi (proj1 (proj2 (proj2 P5))) Hl) as (q & -> & [[-> Hop]|(Hqn & r & Hr & Hc & _)]); bnd.
  - destruct (add_reader_ok zp es held p new prev w) as (zp' & es' & -> & H1 & H2); try done. bnd. exists (zp', NULL). split; [done|]. left. split; [done|].
    destruct (ev_held _ _ _ _ _ H2 p new P1 ltac:(set_solver)) as (r & Hr & E1 & E2 & E3). exists es', r. split; [done|]. split; [by eapply evolves_keeps|]. split; [done|]. split; [rewrite decide_True by done; congruence|]. unfold starts. rewrite decide_False by done. lia.
  - rewrite (proj2 (Z.eqb_neq _ _) Hqn), (mem_get _ _ _ _ _ _ Hi Hr). bnd. eexists. split; [done|]. by apply (wait_ok zp es held p new q r false).
Qed.

(** ** Writers *)

Lemma writer_blocker_ok zp es held new : inv zp es held [] -> rl_wf new ->
  exists q w, writer_blocker zp new = Ok (q, w) /\
    ((q = NULL /\ exists lo hi, es = lo ++ hi /\ tr_gap (z_range_avl zp) w lo.*1 hi.*1 /\ Forall (fun e => fin e.2 <= r_off new) lo /\ Forall (fun e => fin new <= r_off e.2) hi) \/
     (q <> NULL /\ exists r, (q, r) ∈ es /\ meets (r_off new) (fin new) r)).
Proof using All.
  intros Hi Hw. pose proof Hw as (W1 & W2 & W3). unfold writer_blocker. rewrite (fin_end _ Hw).
  destruct (rl_find_ok _ _ _ _ new Hi) as [(q & w & rq & lo & hi & -> & -> & Eo)|(w & lo & hi & -> & -> & Hlo & Hhi & Hg)]; bnd.
  { destruct (entry_at _ _ _ _ _ _ _ Hi) as (He & _ & _ & Hn & _). destruct (e_wf _ _ He) as (_ & ? & _). rewrite (proj2 (Z.eqb_neq _ _) Hn). exists q, w. split; [done|]. right. split; [done|]. exists rq. split; [set_solver|]. split; lia. }
  cbn [negb Z.eqb NULL]. destruct (tr_nearest_ok _ _ _ _ Hg) as [-> ->]. bnd.
  assert (Ha : exists b, (if negb (hd NULL hi.*1 =? NULL) then r ← get_rl zp (hd NULL hi.*1); Ok (r_off r <? fin new) else Ok false) = Ok b /\
    if b : bool then exists q r, hd NULL hi.*1 = q /\ q <> NULL /\ (q, r) ∈ lo ++ hi /\ meets (r_off new) (fin new) r else Forall (fun e => fin new <= r_off e.2) hi).
  { destruct hi as [|[q r] hi]; [by exists false|]. cbn. destruct (entry_at _ _ _ _ _ _ _ Hi) as (He & _ & Eg & Hn & _ & _ & Haf). destruct (e_wf _ _ He) as (_ & ? & _). rewrite (proj2 (Z.eqb_neq _ _) Hn), Eg. bnd. cbn.
    apply Forall_inv in Hhi. cbn in Hhi. eexists. split; [done|]. destruct (Z.ltb_spec (r_off r) (fin new)); [exists q, r; split_and!; try done; [set_solver|split; lia]|].
    constructor; [done|]. eapply Forall_impl; [exact Haf|]. intros e Hx. cbn in *. lia. }
  destruct Ha as ([] & -> & Ha); bnd; [destruct Ha as (q & r & -> & Hqn & Hr & Hm); exists q, w; split; [done|]; right; split; [done|]; by exists r|].
  assert (Hb : exists b, (if negb (List.last lo.*1 NULL =? NULL) then r ← get_rl zp (List.last lo.*1 NULL); Ok (r_off new <? r_end r) else Ok false) = Ok b /\
    if b : bool then exists q r, List.last lo.*1 NULL = q /\ q <> NULL /\ (q, r) ∈ lo ++ hi /\ meets (r_off new) (fin new) r else Forall (fun e => fin e.2 <= r_off new) lo).
  { destruct (rev_case lo) as [->|([q r] & lo' & ->)]; [by exists false|]. rewrite fmap_app. cbn. rewrite List.last_last. rewrite <- app_assoc in Hi |- *. cbn in Hi |- *.
    destruct (entry_at _ _ _ _ _ _ _ Hi) as (He & _ & Eg & Hn & _ & Hbe & _). rewrite (proj2 (Z.eqb_neq _ _) Hn), Eg. cbn. rewrite (fin_end _ (e_wf _ _ He)).
    apply Forall_app in Hlo as [_ Hr]. apply Forall_inv in Hr. cbn in Hr. eexists. split; [done|]. destruct (Z.ltb_spec (r_off new) (fin r)); [exists q, r; split_and!; try done; [set_solver|split; lia]|].
    apply Forall_app. split; [eapply Forall_impl; [exact Hbe|]; intros e Hx; cbn in *; lia|by constructor]. }
  destruct Hb as ([] & -> & Hb); bnd; [destruct Hb as (q & r & -> & Hqn & Hr & Hm); exists q, w; split; [done|]; right; split; [done|]; by exists r|].
  exists NULL, w. split; [done|]. left. split; [done|]. by exists lo, hi.
Qed.

(** What a writer may ask for, and the sizes of files. *)
Definition file_ok zp : Prop := 0 <= z_size zp < 2 ^ 63.
Definition fair (off len : Z) (ty : rl_type) : Prop := 0 <= off /\ 0 < len /\ off + len < 2 ^ 64 /\ (ty = RL_APPEND -> len < 2 ^ 63).

Lemma writer_range_ok zp r off len : file_ok zp -> fair off len (r_type r) -> exists o l, writer_range zp r off len = with_range r o l /\
  0 <= o /\ 0 < l /\ o + l < 2 ^ 64 /\ o <= starts zp off (r_type r) /\ starts zp off (r_type r) + len <= o + l.
Proof.
  intros Hf (F1 & F2 & F3 & F4). unfold writer_range, file_ok, starts in *. destruct (z_is_zvol zp); [exists off, len; case_decide; split_and!; done || lia|].
  cbn [r_type with_range]. case_decide as E; [specialize (F4 E)|]; (destruct (_ && _); [exists 0, UINT64_MAX; unfold UINT64_MAX|eexists _, _]; split_and!; try lia; try done).
  all: lia.
Qed.

Lemma keeps_own p held zp es r zp' es' : keeps p held (set_rl zp p r) es zp' es' -> (p ∉ held) -> keeps p held zp es zp' es'.
Proof.
  intros [K1 K2 K5 K3 K4] Hp. split; try done.
  - intros q [?|[?|E]]%K1; [auto|auto|]. cbn in E. apply lookup_insert_None in E as [? _]. auto.
  - intros q x Hq He Hh. apply K2; [|done|done]. cbn. rewrite lookup_insert_ne; [done|set_solver].
  - intros q x Hq Hh. apply K5; [|done]. cbn. rewrite lookup_insert_ne; [done|set_solver].
Qed.

(** The place is free for a writer. *)
Lemma writer_enter zp lo hi held p r t : inv zp (lo ++ hi) held [] -> pending zp (lo ++ hi) held p r ->
  Forall (fun e => fin e.2 <= r_off r) lo -> Forall (fun e => fin r <= r_off e.2) hi -> tr_seq t (lo ++ (p, with_type r RL_WRITER) :: hi).*1 ->
  let zp' := with_avl (set_rl zp p (with_type r RL_WRITER)) t in
  exists es', inv zp' es' (p :: held) [] /\ keeps p held zp (lo ++ hi) zp' es' /\ z_rls zp' !! p = Some (with_type r RL_WRITER).
Proof using All.
  intros Hi (P1 & P2 & P3 & P4 & P5) Hlo Hhi Hs zp'. exists (lo ++ (p, with_type r RL_WRITER) :: hi). split; [|split; [|cbn; by rewrite lookup_insert_eq]].
  - apply inv_enter; try done; [by apply inv_other|cbn; by rewrite lookup_insert_eq].
  - split.
    + intros q. rewrite !fmap_app. cbn. set_solver.
    + intros q s Hq _ Hqo. cbn. rewrite lookup_insert_ne; [done|set_solver].
    + intros q s Hq Hqh. exists s. cbn. rewrite lookup_insert_ne; [done|set_solver].
    + intros k q (s & Hq & Hk). exists s. set_solver.
    + done.
Qed.

Lemma pending_room zp lo hi held (p : Z) r : inv zp (lo ++ hi) held [] -> rl_wf r -> Forall (fun e => fin e.2 <= r_off r) lo -> Forall (fun e => fin r <= r_off e.2) hi -> room (lo ++ hi).*1.
Proof using All.
  intros Hi Hw Hlo Hhi. pose proof (v_ok _ _ _ _ Hi) as (Ho & Hf & _). apply (ord_room lo p r hi).
  - rewrite fmap_app, fmap_cons. apply ord_around. rewrite !Forall_fmap, <- fmap_app. done.
  - rewrite fmap_app, Forall_app in Hf |- *. destruct Hf as [F1 F2]. split; [eapply Forall_impl; [exact F1|]; by intros ? [? _ _ _]|].
    constructor; [done|]. eapply Forall_impl; [exact F2|]. by intros ? [? _ _ _].
Qed.

Lemma round_own off len ty zp es held p r o : round off len ty (set_rl zp p r) es held p o -> (p ∉ held) -> round off len ty zp es held p o.
Proof.
  intros [(E & es' & s & H1 & H2 & H3 & H4)|(E & es' & s & H1 & H2 & H3)] Hp; [left|right]; (split; [done|]); exists es', s; (split; [done|]); (split; [by eapply keeps_own|done]).
Qed.

Lemma writer_round_ok zp es held p r0 off len : inv zp es held [] -> pending zp es held p r0 -> r_type r0 <> RL_READER -> file_ok zp -> fair off len (r_type r0) ->
  exists o, zfs_range_lock_writer zp p off len = Ok o /\ round off len (r_type r0) zp es held p o.
Proof using All.
  intros Hi (P1 & P2 & P3 & P4 & P5) Ht Hf Hfa. unfold zfs_range_lock_writer. assert (Eg : get_rl zp p = Ok r0) by (unfold get_rl; by rewrite P1). rewrite Eg. bnd. clear Eg.
  destruct (writer_range_ok zp r0 off len Hf Hfa) as (o & l & -> & Ho & Hl & Hol & Hst1 & Hst2). set (r := with_range r0 o l) in *. set (zp1 := set_rl zp p r). assert (Hw : rl_wf r) by done.
  pose proof (inv_other _ _ _ _ p r Hi P2 P3) as Hi1. fold zp1 in Hi1. assert (Hpend : pending zp1 es held p r).
  { split; [cbn; by rewrite lookup_insert_eq|]. split; [done|]. split; [done|]. split; [done|]. destruct P5 as (? & ? & _ & ? & ?). done. }
  assert (Hgr : forall zp' es', inv zp' es' (p :: held) [] -> keeps p held zp1 es zp' es' -> z_rls zp' !! p = Some (with_type r RL_WRITER) -> round off len (r_type r0) zp es held p (zp', NULL)).
  { intros zp' es' H1 H2 H3. left. split; [done|]. exists es', (with_type r RL_WRITER). split; [done|]. split; [by eapply keeps_own|]. split; [done|]. split; [by rewrite decide_False|]. cbn. lia. }
  destruct (tr_seq_facts _ _ (v_seq _ _ _ _ Hi1)) as (_ & _ & _ & Enum). rewrite Enum, length_fmap. case_if as Ez.
  - assert (es = []) as -> by (apply nil_length_inv; lia). set (r1 := with_type r RL_WRITER). set (zp2 := set_rl zp1 p r1).
    assert (Hi2 : inv zp2 [] held []) by (by apply inv_other). destruct (rl_add_ok zp2 [] [] p r1) as (t & -> & Hs); [apply (v_seq _ _ _ _ Hi2)|by apply inv_by_off in Hi2|cbn; by rewrite lookup_insert_eq|done|set_solver|done|done|done|].
    bnd. eexists. split; [done|]. destruct (writer_enter zp1 [] [] held p r t) as (es' & H1 & H2 & H3); try done. by apply (Hgr _ es').
  - destruct (writer_blocker_ok zp1 es held r Hi1 Hw) as (q & w & -> & [(-> & lo & hi & -> & Hg & Hlo & Hhi)|(Hqn & s & Hs & _)]); bnd; cbn [Z.eqb NULL].
    + destruct (tr_insert_ok _ _ _ _ p Hg P4) as (t & -> & Hs); [by rewrite <- fmap_app|rewrite <- fmap_app; by apply (pending_room zp1 lo hi held p r)|]. bnd. eexists. split; [done|].
      destruct (writer_enter zp1 lo hi held p r t) as (es' & H1 & H2 & H3); try done; [by rewrite fmap_app|]. by apply (Hgr _ es').
    + rewrite (proj2 (Z.eqb_neq _ _) Hqn), (mem_get _ _ _ _ _ _ Hi1 Hs). bnd. eexists. split; [done|]. apply (round_own _ _ _ zp _ _ _ r); [|done].
      apply (wait_ok zp1 es held p r q s true); try done. symmetry. by apply bool_decide_eq_true.
Qed.

(** ** The first round *)

Lemma lock_ok zp es held off len ty : inv zp es held [] -> file_ok zp -> 0 <= off < UINT64_MAX -> 0 < len < 2 ^ 64 -> (ty = RL_APPEND -> len < 2 ^ 63) -> zlen held + 2 < 2 ^ 32 ->
  let len' := if u64 (len + off) <? off then UINT64_MAX - off else len in
  fair off len' ty /\ exists zp' p q, zfs_range_lock zp off len ty = Ok (zp', p, q) /\ z_rls zp !! p = None /\ p <> NULL /\ round off len' ty zp es held p (zp', q).
Proof using All.
  intros Hi Hf Ho Hl Ha Hz len'. assert (EM : UINT64_MAX = 2 ^ 64 - 1) by done. assert (Hfair : fair off len' ty).
  { unfold len', fair. destruct (Z.lt_ge_cases (len + off) (2 ^ 64)) as [Hlt|Hge].
    - rewrite Z.mod_small, (proj2 (Z.ltb_ge _ _)) by lia. split_and!; try lia. done.
    - replace (u64 (len + off)) with (len + off - 2 ^ 64) by (apply Z.mod_unique_pos with 1; lia). rewrite (proj2 (Z.ltb_lt _ _)) by lia.
      split_and!; try lia. intros E. specialize (Ha E). lia. }
  split; [done|]. unfold zfs_range_lock. rewrite (proj2 (Z.eqb_neq len 0)) by lia. cbn [negb verify]. bnd. fold len'. unfold new_rl. destruct (fresh zp) as (p & -> & Hpn & Hp). bnd.
  set (r := Rl off len' 1 ty false false false). destruct (fresh_out _ _ _ _ _ Hi Hp) as [Hpe Hph]. set (zp1 := set_rl zp p r). pose proof (inv_other _ _ _ _ p r Hi Hpe Hph) as Hi1. fold zp1 in Hi1.
  assert (Hw : rl_wf r) by (destruct Hfair as (? & ? & ? & _); split; cbn; lia).
  assert (Hpend : pending zp1 es held p r) by (split; [cbn; by rewrite lookup_insert_eq|]; by split_and!).
  assert (exists o, (if decide (ty = RL_READER) then if tr_numnodes (z_range_avl zp1) =? 0 then zp ← rl_add zp1 p; Ok (zp, NULL) else zfs_range_lock_reader zp1 p else zfs_range_lock_writer zp1 p off len') = Ok o /\ round off len' ty zp1 es held p o) as ([zp' q] & -> & Hr).
  { case_decide as Et; [|by apply (writer_round_ok zp1 es held p r)]. destruct (tr_seq_facts _ _ (v_seq _ _ _ _ Hi1)) as (_ & _ & _ & Enum). rewrite Enum, length_fmap.
    case_if as Ez; [|subst ty; by apply (reader_round_ok zp1 es held p r)]. assert (es = []) as -> by (apply nil_length_inv; lia).
    destruct (rl_add_ok zp1 [] [] p r) as (t & -> & Hs); [apply (v_seq _ _ _ _ Hi1)|by apply inv_by_off in Hi1|cbn; by rewrite lookup_insert_eq|done|set_solver|done|done|done|].
    bnd. eexists. split; [done|]. left. split; [done|]. exists [(p, r)], r. split; [apply (inv_enter zp1 [] []); try done; [cbn; by rewrite lookup_insert_eq|cbn; congruence]|].
    split; [|split; [cbn; by rewrite lookup_insert_eq|]].
    - split; try done; [set_solver|intros x s Hx _; by exists s|]. intros k q (s & Hs' & _). by apply not_elem_of_nil in Hs'.
    - subst ty. split; [by rewrite decide_True|]. unfold starts. rewrite decide_False by done. cbn. lia. }
  bnd. exists zp', p, q. split; [done|]. split; [done|]. split; [done|]. by apply (round_own _ _ _ zp _ _ _ r).
Qed.
End grant.
End RangeLockGrant.
