(* ===== verification/RangeLockFree.v ===== *)
(** Unlocking ranges. *)

From S2P Require Import Prelude Avl AvlWalk OrdTree SpaceMap RangeLock RangeLockSet RangeLockOk RangeLockAdd RangeLockGrant.
Import SpaceMap RangeLock RangeLockSet RangeLockOk RangeLockAdd RangeLockGrant.
Open Scope Z_scope.

Module RangeLockFree.

Section free.
Context {T I : Type} `{!Tree T I} `{!TreeLaws T I} `{KM : !Kmem} `{KL : !KmemLaws}.
Implicit Types (zp : znode T) (es lo hi : entries) (held : list Z).

(** What unlocking does to the tree: entries leave it, and those who wait for one
    that leaves are woken. *)
Record releases held zp es zp' es' (ev : list cv_event) (freed : list Z) : Prop := Releases {
  rel_old : forall q, q ∈ es'.*1 -> q ∈ es.*1;
  rel_mem : forall q, (q ∉ es.*1) -> z_rls zp' !! q = z_rls zp !! q;
  rel_held : forall q, q ∈ held -> z_rls zp' !! q = z_rls zp !! q;
  rel_target : forall k q, target es k q -> target es' k q \/ (q, k) ∈ ev;
  rel_freed : forall q, q ∈ freed -> q ∈ es.*1 /\ (q ∉ es'.*1) /\ (q ∉ held);
  rel_file : z_size zp' = z_size zp /\ z_blksz zp' = z_blksz zp /\ z_max_blksz zp' = z_max_blksz zp /\ z_is_zvol zp' = z_is_zvol zp
}.

Lemma releases_refl held zp es : releases held zp es zp es [] [].
Proof. split; auto. by intros q Hq%not_elem_of_nil. Qed.

Lemma releases_trans held zp1 es1 zp2 es2 zp3 es3 ev1 ev2 f1 f2 : releases held zp1 es1 zp2 es2 ev1 f1 -> releases held zp2 es2 zp3 es3 ev2 f2 -> releases held zp1 es1 zp3 es3 (ev1 ++ ev2) (f1 ++ f2).
Proof.
  intros [A1 A2 A9 A3 A4 (A5 & A6 & A7 & A8)] [B1 B2 B9 B3 B4 (B5 & B6 & B7 & B8)]. split; [auto| |intros q Hq; by rewrite B9, A9| | |split_and!; congruence].
  - intros q Hq. rewrite B2, A2; [done|done|]. intros Hq'. by apply Hq, A1.
  - intros k q Ht. rewrite elem_of_app. destruct (A3 k q Ht) as [Ht'|]; [destruct (B3 k q Ht'); auto|auto].
  - intros q [Hq|Hq]%elem_of_app; [destruct (A4 q Hq) as (? & Hn & ?); split; [done|]; split; [|done]; intros ?; by apply Hn, B1|]. destruct (B4 q Hq) as (? & ? & ?). auto.
Qed.

Lemma inv_perm zp es held held' G : inv zp es held G -> held ≡ₚ held' -> inv zp es held' G.
Proof using All.
  intros [I1 I2 I3 I4 I5 I6] Hp. split; [done|done| |intros p; rewrite <- Hp; apply I4|by rewrite <- Hp|intros p r; rewrite <- Hp; apply I6].
  eapply ok_perm; [|exact I3]. apply Permutation_app; [done|]. unfold ranges. by rewrite Hp.
Qed.

Lemma broadcast_in p r k : marked k r = true -> (p, k) ∈ broadcasts p r.
Proof. unfold broadcasts, marked. destruct k; intros ->; set_solver. Qed.

(** An entry leaves the tree. *)
Lemma drop_entry zp lo p r hi held G G' t : inv zp (lo ++ (p, r) :: hi) held G -> (p ∉ held) -> tr_seq t (lo ++ hi).*1 -> ok (lo ++ hi).*2 (G' ++ ranges (z_rls zp) held) ->
  forall r', inv (with_avl (set_rl zp p r') t) (lo ++ hi) held G' /\ releases held zp (lo ++ (p, r) :: hi) (with_avl (set_rl zp p r') t) (lo ++ hi) (broadcasts p r) [p].
Proof using All.
  intros Hi Hh Hs Hok r'. destruct (entry_at _ _ _ _ _ _ _ Hi) as (_ & _ & _ & _ & Hni & _). split.
  - apply (inv_change zp _ lo [(p, r)] hi [] held G); [done|done| | | | | |]; try (intros x s Hx; by apply not_elem_of_nil in Hx).
    + intros x s Hx. cbn. rewrite lookup_insert_ne; [apply (v_mem _ _ _ _ Hi); set_solver|]. intros ->. apply Hni, list_elem_of_fmap. by exists (x, s).
    + cbn. by rewrite ranges_out.
    + intros x Hx _. cbn. rewrite lookup_insert_ne by set_solver. split; [set_solver|done].
    + by intros x Hx ->%list_elem_of_singleton.
  - split; [| | | | |done].
    + intros q. rewrite !fmap_app. set_solver.
    + intros q Hq. cbn. rewrite lookup_insert_ne; [done|]. intros ->. apply Hq. rewrite fmap_app. set_solver.
    + intros q Hq. cbn. rewrite lookup_insert_ne; [done|set_solver].
    + intros k q (s & Hq & Hk). rewrite elem_of_app, elem_of_cons in Hq. destruct Hq as [?|[[= -> ->]|?]]; [left; exists s; set_solver|right; by apply broadcast_in|left; exists s; set_solver].
    + intros q ->%list_elem_of_singleton. split; [rewrite fmap_app; set_solver|done].
Qed.

(** The entry where the rest of a range begins. *)
Lemma next_entry zp lo hi held m b : inv zp (lo ++ hi) held [(m, b)] -> m < b -> Forall (fun e => fin e.2 <= m) lo -> Forall (fun e => m <= r_off e.2) hi -> exists q r hi', hi = (q, r) :: hi' /\ r_off r = m.
Proof using All.
  intros Hi Hm Hlo Hhi. destruct (v_ok _ _ _ _ Hi) as (_ & _ & Hf). specialize (Hf m). rewrite list.Forall_forall in Hlo, Hhi.
  assert (Hc : 0 < cover ([(m, b)] ++ ranges (z_rls zp) held) m) by (apply (cover_pos _ m b); [set_solver|lia]). apply Hf in Hc. clear Hf.
  apply Exists_exists in Hc as (s & Hs & Hx). apply list_elem_of_fmap in Hs as ([q r] & -> & Hs). cbn in Hx. apply elem_of_app in Hs as [Hs|Hs]; [specialize (Hlo _ Hs); cbn in Hlo; lia|].
  destruct hi as [|[q1 r1] hi]; [by apply not_elem_of_nil in Hs|]. exists q1, r1, hi. split; [done|]. pose proof (Hhi (q1, r1) ltac:(set_solver)) as H1. cbn in H1.
  destruct (entry_at _ _ _ _ _ _ _ Hi) as (He & _ & _ & _ & _ & _ & Haf). destruct (e_wf _ _ He) as (_ & ? & _). apply elem_of_cons in Hs as [[= -> ->]|Hs]; [lia|].
  rewrite list.Forall_forall in Haf. specialize (Haf _ Hs). cbn in Haf. lia.
Qed.

Lemma inv_unghost zp es held b : inv zp es held [(b, b)] -> inv zp es held [].
Proof using All. intros [I1 I2 I3 I4 I5 I6]. split; try done. by apply ok_empty in I3 as [? _]. Qed.

Lemma set_releases held zp lo p r hi n : (p ∉ held) -> releases held zp (lo ++ (p, r) :: hi) (set_rl zp p (with_cnt r n)) (lo ++ (p, with_cnt r n) :: hi) [] [].
Proof.
  intros Hp. split; [| | | | |done].
  - intros q. rewrite !fmap_app. done.
  - intros q Hq. cbn. rewrite lookup_insert_ne; [done|]. intros ->. apply Hq. rewrite fmap_app. set_solver.
  - intros q Hq. cbn. rewrite lookup_insert_ne; [done|set_solver].
  - intros k q (s & Hq & Hk). left. rewrite elem_of_app, elem_of_cons in Hq. destruct Hq as [?|[[= -> ->]|?]]; [exists s; set_solver|exists (with_cnt r n); split; [set_solver|by destruct k]|exists s; set_solver].
  - by intros q Hq%not_elem_of_nil.
Qed.

Lemma unlock_step_ok zp lo q r hi held m b ev freed next : inv zp (lo ++ (q, r) :: hi) held [(m, b)] -> r_off r = m -> m < b < 2 ^ 64 -> zlen held + 2 < 2 ^ 32 ->
  exists zp' mid next' ev' freed', unlock_step (zp, ev, freed, b - m, next, q) = Ok (inl (zp', ev ++ ev', freed ++ freed', b - fin r, next', next')) /\
    inv zp' ((lo ++ mid) ++ hi) held [(fin r, b)] /\ releases held zp (lo ++ (q, r) :: hi) zp' ((lo ++ mid) ++ hi) ev' freed' /\
    m < fin r <= b /\ (fin r < b -> next' = hd NULL hi.*1) /\ Forall (fun e => fin e.2 <= fin r) (lo ++ mid).
Proof using All.
  intros Hi Ho Hb Hz. destruct (entry_at _ _ _ _ _ _ _ Hi) as (He & _ & Eg & _ & _ & Hbe & _). destruct (e_wf _ _ He) as (W1 & W2 & W3).
  pose proof (v_ok _ _ _ _ Hi) as Hok. rewrite fmap_app, fmap_cons in Hok. cbn [app snd] in Hok. destruct (ok_leave _ _ _ _ _ _ Hok Ho (proj1 Hb)) as (Hp & Hle & Hok').
  pose proof (e_kind _ _ He) as Hk. rewrite Hp in Hk. destruct Hk as (_ & Hc & Hpos). pose proof (cover_bound ([(m, b)] ++ ranges (z_rls zp) held) (r_off r)) as Hcb.
  assert (Hl : (length (ranges (z_rls zp) held) <= length held)%nat) by (unfold ranges; clear; induction held as [|x held IH]; [done|]; cbn; destruct (range_of _ x); cbn; lia).
  cbn [app length] in Hc, Hcb. pose proof (proxy_free _ _ _ _ _ _ _ Hi Hp) as Hqh. pose proof (v_seq _ _ _ _ Hi) as Hs. rewrite fmap_app, fmap_cons in Hs. cbn [fst] in Hs.
  unfold unlock_step. rewrite (proj2 (Z.eqb_neq (b - m) 0)), Eg by lia. bnd. replace (b - m - r_len r) with (b - fin r) by lia. rewrite (Z.mod_small (b - fin r)) by lia.
  assert (exists next', (if negb (b - fin r =? 0) then tr_walk (z_range_avl zp) q AVL_AFTER else Ok next) = Ok next' /\ (fin r < b -> next' = hd NULL hi.*1)) as (next' & -> & Hn).
  { destruct (Z.eqb_spec (b - fin r) 0); [exists next; split; [done|lia]|]. exists (hd NULL hi.*1). split; [by apply (tr_walk_ok _ _ _ _ Hs)|done]. }
  bnd. rewrite (Z.mod_small (r_cnt r - 1)) by lia. change (r_cnt (with_cnt r (r_cnt r - 1))) with (r_cnt r - 1).
  assert (Hbe' : Forall (fun e => fin e.2 <= fin r) lo) by (eapply Forall_impl; [exact Hbe|]; intros e Hx; cbn in *; lia).
  destruct (Z.eqb_spec (r_cnt r) 1) as [E1|E1].
  - rewrite (proj2 (Z.eqb_eq (r_cnt r - 1) 0)) by lia. change (z_range_avl (set_rl zp q _)) with (z_range_avl zp). destruct (tr_remove_ok _ _ _ _ Hs) as (t & -> & Ht). bnd. cbn [app] in Hok'. rewrite <- (fmap_app snd lo hi) in Hok'. rewrite <- (fmap_app fst lo hi) in Ht.
    destruct (drop_entry zp lo q r hi held [(m, b)] [(fin r, b)] t Hi Hqh Ht Hok' (with_cnt r (r_cnt r - 1))) as [H1 H2].
    eexists _, [], next', (broadcasts q r), [q]. rewrite app_nil_r. split; [done|]. split; [done|]. split; [done|]. split; [lia|]. done.
  - rewrite (proj2 (Z.eqb_neq (r_cnt r - 1) 0)) by lia. eexists _, [(q, with_cnt r (r_cnt r - 1))], next', [], []. rewrite !app_nil_r, <- app_assoc. split; [done|]. split; [|split; [by apply set_releases|split; [lia|split; [done|]]]].
    + apply (inv_set zp lo q r hi held [(m, b)]); [done| |done]. rewrite fmap_app. done.
    + apply Forall_app. split; [done|]. constructor; [cbn; lia|done].
Qed.

Lemma unlock_loop_ok held b : b < 2 ^ 64 -> zlen held + 2 < 2 ^ 32 -> forall hi k zp lo m ev freed next p, inv zp (lo ++ hi) held [(m, b)] -> m <= b -> Forall (fun e => fin e.2 <= m) lo -> Forall (fun e => m <= r_off e.2) hi ->
  (m < b -> p = hd NULL hi.*1) -> (length hi + 1 < k)%nat ->
  exists zp' es' ev' freed', loop k unlock_step (zp, ev, freed, b - m, next, p) = Ok (zp', ev ++ ev', freed ++ freed') /\ inv zp' es' held [] /\ releases held zp (lo ++ hi) zp' es' ev' freed'.
Proof using All.
  intros Hb Hz. induction hi as [|[q r] hi IH]; intros k zp lo m ev freed next p Hi Hm Hlo Hhi Hp Hk; (destruct k as [|k]; [cbn in Hk; lia|]); cbn [loop]; (destruct (decide (m = b)) as [->|Hne]).
  1, 3: unfold unlock_step; rewrite Z.sub_diag; cbn [Z.eqb]; eexists zp, _, [], []; rewrite (app_nil_r ev), (app_nil_r freed); split; [done|]; split; [by apply (inv_unghost _ _ _ b)|apply releases_refl].
  - destruct (next_entry _ _ _ _ _ _ Hi ltac:(lia) Hlo Hhi) as (q & r & hi' & E & _). done.
  - destruct (next_entry _ _ _ _ _ _ Hi ltac:(lia) Hlo Hhi) as (q' & r' & hi' & [= <- <- <-] & Eo). rewrite (Hp ltac:(lia)). cbn [fmap list_fmap hd fst].
    destruct (unlock_step_ok zp lo q r hi held m b ev freed next Hi Eo ltac:(lia) Hz) as (zp1 & mid & next' & ev1 & f1 & -> & Hi1 & Hr1 & Hf & Hn & Hlo1).
    destruct (entry_at _ _ _ _ _ _ _ Hi) as (_ & _ & _ & _ & _ & _ & Haf).
    destruct (IH k zp1 (lo ++ mid) (fin r) (ev ++ ev1) (freed ++ f1) next' next' Hi1) as (zp' & es' & ev' & f' & E & Hi' & Hr'); [lia|done|done|done|cbn in Hk; lia|].
    exists zp', es', (ev1 ++ ev'), (f1 ++ f'). rewrite !app_assoc. split; [done|]. split; [done|]. by eapply releases_trans.
Qed.

(** ** Unlocking *)

(** The state after the lock [p] is gone. *)
Record unlocked (p : Z) held zp es zp' es' (ev : list cv_event) : Prop := Unlocked {
  u_old : forall q, q ∈ es'.*1 -> q ∈ es.*1;
  u_mem : forall q, (q ∉ es.*1) -> q <> p -> z_rls zp' !! q = z_rls zp !! q;
  u_held : forall q, q ∈ held -> z_rls zp' !! q = z_rls zp !! q;
  u_target : forall k q, target es k q -> target es' k q \/ (q, k) ∈ ev;
  u_file : z_size zp' = z_size zp /\ z_blksz zp' = z_blksz zp /\ z_max_blksz zp' = z_max_blksz zp /\ z_is_zvol zp' = z_is_zvol zp
}.

Lemma free_ok zp es held p : inv zp es held [] -> (p ∉ es.*1) -> (p ∉ held) -> inv (free_rl zp p) es held [].
Proof using All.
  intros [I1 I2 I3 I4 I5 I6] He Hh. split; try done.
  - cbn. by apply tr_free_ok.
  - intros x s Hx. cbn. rewrite lookup_delete_ne; [by apply I2|]. intros ->. apply He, list_elem_of_fmap. by exists (x, s).
  - cbn. rewrite (ranges_ext (delete p (z_rls zp)) (z_rls zp)); [done|]. intros x Hx. unfold range_of. by rewrite lookup_delete_ne by set_solver.
  - intros x Hx. cbn. rewrite lookup_delete_ne by set_solver. by apply I4.
Qed.

Lemma frees_ok freed : forall zp es held, inv zp es held [] -> (forall q, q ∈ freed -> (q ∉ es.*1) /\ (q ∉ held)) -> inv (foldl free_rl zp freed) es held [] /\
  (forall q, (q ∉ freed) -> z_rls (foldl free_rl zp freed) !! q = z_rls zp !! q) /\
  z_size (foldl free_rl zp freed) = z_size zp /\ z_blksz (foldl free_rl zp freed) = z_blksz zp /\ z_max_blksz (foldl free_rl zp freed) = z_max_blksz zp /\ z_is_zvol (foldl free_rl zp freed) = z_is_zvol zp.
Proof using All.
  induction freed as [|p freed IH]; intros zp es held Hi Hf; [done|]. cbn [foldl]. destruct (Hf p ltac:(set_solver)) as [He Hh].
  destruct (IH (free_rl zp p) es held) as (H1 & H2 & H3); [by apply free_ok|intros; apply Hf; set_solver|]. split; [done|]. split; [|done]. intros q Hq. rewrite H2 by set_solver. cbn. rewrite lookup_delete_ne; [done|set_solver].
Qed.

(** The lock is an entry of its own. *)
Lemma exit_entry zp lo p r hi held t : inv zp (lo ++ (p, r) :: hi) (p :: held) [] -> r_proxy r = false -> tr_seq t (lo ++ hi).*1 -> inv (with_avl zp t) (lo ++ hi) held [] /\ (p ∉ (lo ++ hi).*1) /\ (p ∉ held).
Proof using All.
  intros Hi Hp Hs. destruct (entry_at _ _ _ _ _ _ _ Hi) as (He & Hm & _ & _ & Hni & _). pose proof (e_kind _ _ He) as Hk. rewrite Hp in Hk. destruct Hk as (_ & Hc & _). destruct Hi as [I1 I2 I3 I4 I5 I6].
  apply NoDup_cons in I5 as [Hph I5]. split; [|done]. split; [done|intros x s Hx; apply I2; set_solver| | |done|].
  - cbn [app z_rls with_avl] in *. rewrite fmap_app, fmap_cons in I3. rewrite fmap_app. cbn [snd] in I3. unfold ranges in I3. cbn in I3. unfold range_of in I3 at 1. rewrite Hm, Hc in I3. cbn in I3. by eapply ok_remove.
  - intros x Hx. destruct (I4 x) as (s & Hs' & G1 & G2 & G3 & G4); [set_solver|]. exists s. split; [done|]. split; [done|]. split; [done|]. split; [done|].
    destruct G4 as [[? Hxe]|(? & Hn & ?)]; [left|right]; (split; [done|]); [|split; [|done]].
    + rewrite elem_of_app, elem_of_cons in *. destruct Hxe as [?|[[= -> ->]|?]]; [by left|done|by right].
    + rewrite fmap_app in *. set_solver.
  - intros x s Hx Hpx. assert (Hxp : x ∈ p :: held) by (apply (I6 x s); set_solver). apply elem_of_cons in Hxp as [->|?]; [|done]. destruct Hni. apply list_elem_of_fmap. by exists (p, s).
Qed.

(** The lock is a reader with proxies. *)
Lemma exit_shared zp es p r held : inv zp es (p :: held) [] -> z_rls zp !! p = Some r -> r_cnt r = 0 -> inv zp es held [(r_off r, fin r)] /\ (p ∉ es.*1) /\ (p ∉ held) /\ rl_wf r /\ r_type r = RL_READER.
Proof using All.
  intros [I1 I2 I3 I4 I5 I6] Hm Hc. apply NoDup_cons in I5 as [Hph I5]. destruct (I4 p) as (s & Hs & G1 & G2 & G3 & G4); [set_solver|]. assert (s = r) as -> by congruence.
  destruct G4 as [[? ?]|(_ & Hn & Ht)]; [lia|]. split; [|done]. split; [done|done| |intros; apply I4; set_solver|done|].
  - cbn in I3 |- *. unfold ranges in I3. cbn in I3. unfold range_of in I3 at 1. rewrite Hm, Hc in I3. done.
  - intros x s Hx Hpx. assert (Hxp : x ∈ p :: held) by (by apply (I6 x s)). apply elem_of_cons in Hxp as [->|?]; [|done]. destruct Hn. apply list_elem_of_fmap. by exists (p, s).
Qed.

(** The memory of the entries that have left the tree is given back. *)
Lemma unlock_frees zp es p zp1 es1 ev freed held : inv zp1 es1 held [] -> unlocked p held zp es zp1 es1 ev -> (forall q, q ∈ freed -> (q ∈ es.*1 \/ q = p) /\ (q ∉ es1.*1) /\ (q ∉ held)) ->
  inv (foldl free_rl zp1 freed) es1 held [] /\ unlocked p held zp es (foldl free_rl zp1 freed) es1 ev.
Proof using All.
  intros Hi [R1 R2 R9 R3 (R5 & R6 & R7 & R8)] Hf. destruct (frees_ok freed zp1 es1 held Hi) as (H1 & H2 & H3 & H4 & H5 & H6); [intros q Hq; by apply Hf|].
  split; [done|]. split; [done| | |done|split_and!; congruence].
  - intros q Hq Hqp. rewrite H2, R2; [done|done|done|]. intros Hq'. by destruct (Hf q Hq') as ([?|?] & _).
  - intros q Hq. rewrite H2, R9; [done|done|]. intros Hq'. by apply Hf in Hq' as (_ & _ & ?).
Qed.

Lemma unlock_ok zp es p held : inv zp es (p :: held) [] -> zlen held + 2 < 2 ^ 32 ->
  exists zp' es' ev, zfs_range_unlock zp p = Ok (zp', ev) /\ inv zp' es' held [] /\ unlocked p held zp es zp' es' ev.
Proof using All.
  intros Hi Hz. destruct (v_held _ _ _ _ Hi p ltac:(set_solver)) as (r & Hm & G1 & G2 & G3 & G4). assert (Eg : get_rl zp p = Ok r) by (unfold get_rl; by rewrite Hm).
  unfold zfs_range_unlock. rewrite Eg. bnd. destruct G4 as [[Hc Hin]|(Hc & Hn & Ht)].
  - apply list_elem_of_split in Hin as (lo & hi & ->). pose proof (v_seq _ _ _ _ Hi) as Hs. rewrite fmap_app, fmap_cons in Hs. cbn [fst] in Hs. destruct (tr_remove_ok _ _ _ _ Hs) as (t & Et & Ht). rewrite <- (fmap_app fst lo hi) in Ht.
    assert (E : (if decide (r_type r = RL_WRITER) then t ← tr_remove (z_range_avl zp) p; Ok (with_avl zp t, broadcasts p r, [p]) else zfs_range_unlock_reader zp p) = Ok (with_avl zp t, broadcasts p r, [p])).
    { case_decide; [by rewrite Et|]. unfold zfs_range_unlock_reader. rewrite Eg. bnd. rewrite (proj2 (Z.eqb_eq _ _) Hc). by rewrite Et. }
    rewrite E. bnd. destruct (exit_entry zp lo p r hi held t Hi G1 Ht) as (Hi1 & Hpe & Hph).
    destruct (unlock_frees zp (lo ++ (p, r) :: hi) p (with_avl zp t) (lo ++ hi) (broadcasts p r) [p] held Hi1) as [H1 H2]; [|intros q ->%list_elem_of_singleton; auto|by eexists _, _, _].
    split; [|done|done| |done].
    + intros q. rewrite !fmap_app. set_solver.
    + intros k q (s & Hq & Hk). rewrite elem_of_app, elem_of_cons in Hq. destruct Hq as [?|[[= -> ->]|?]]; [left; exists s; set_solver|right; by apply broadcast_in|left; exists s; set_solver].
  - destruct (exit_shared _ _ _ _ _ Hi Hm Hc) as (Hi1 & _ & Hph & _ & _). destruct G2 as (W1 & W2 & W3). rewrite decide_False by congruence.
    unfold zfs_range_unlock_reader. rewrite Eg. bnd. rewrite (proj2 (Z.eqb_neq (r_cnt r) 1)) by lia.
    assert (exists q w rq lo hi, rl_find zp r = Ok (q, w) /\ es = lo ++ (q, rq) :: hi /\ r_off rq = r_off r) as (q & w & rq & lo & hi & -> & -> & Eo).
    { destruct (rl_find_ok _ _ _ _ r Hi1) as [Hfd|(w & lo & hi & _ & -> & Hlo & Hhi & _)]; [done|exfalso]. pose proof (v_ok _ _ _ _ Hi1) as (_ & He & _). rewrite Forall_fmap, list.Forall_forall in He. rewrite list.Forall_forall in Hlo.
      destruct (next_entry _ _ _ _ _ _ Hi1 ltac:(lia)) as (q & r' & hi' & -> & E); [| |apply Forall_inv in Hhi; cbn in Hhi; lia].
      - apply list.Forall_forall. intros e Hx. specialize (Hlo e Hx). pose proof (e_edge _ _ (He e ltac:(set_solver))) as Hed. apply Forall_inv in Hed. destruct Hed as [? _]. cbn in *. lia.
      - eapply Forall_impl; [exact Hhi|]. intros e Hx. cbn in *. lia. }
    bnd. unfold unlock_loop. destruct (entry_at _ _ _ _ _ _ _ Hi1) as (Heq & _ & _ & _ & _ & Hbe & Haf). destruct (e_wf _ _ Heq) as (_ & ? & _). rewrite Eo in Hbe. replace (r_len r) with (fin r - r_off r) by lia.
    destruct (unlock_loop_ok held (fin r) W3 Hz ((q, rq) :: hi) (S (tr_fuel (z_range_avl zp))) zp lo (r_off r) [] [] NULL q Hi1) as (zp' & es' & ev & freed & -> & Hi2 & Hr); [lia|done| |done| |].
    { constructor; [cbn; lia|]. eapply Forall_impl; [exact Haf|]. intros e Hx. cbn in *. lia. }
    { destruct (tr_seq_facts _ _ (v_seq _ _ _ _ Hi1)) as (_ & _ & Hfl & _). rewrite length_fmap, length_app in Hfl. lia. }
    bnd. cbn [app]. destruct Hr as [R1 R2 R6 R3 R4 R5]. assert (Hpe : p ∉ es'.*1) by (intros Hx; by apply Hn, R1).
    destruct (unlock_frees zp (lo ++ (q, rq) :: hi) p (free_rl zp' p) es' ev freed held) as [H1 H2]; [by apply free_ok| |intros x Hx; destruct (R4 x Hx) as (? & ? & ?); auto|by eexists _, _, _].
    split; [done| | |done|done]; intros x Hx; [intros Hxp|]; cbn; (rewrite lookup_delete_ne; [auto|]); [done|set_solver].
Qed.
End free.
End RangeLockFree.
