(* ===== verification/RangeLockSys.v ===== *)
(** The threads that lock ranges of a file: requests, those granted and those that
    wait.  Each stretch of code that holds [z_range_lock] is one step. *)

From stdpp Require Import relations.
From S2P Require Import Prelude Avl OrdTree SpaceMap RangeLock RangeLockSet RangeLockOk RangeLockAdd RangeLockGrant RangeLockFree.
Import SpaceMap RangeLock RangeLockSet RangeLockOk RangeLockAdd RangeLockGrant RangeLockFree.
Open Scope Z_scope.

Module RangeLockSys.

Record request := Request { q_off : Z; q_len : Z; q_type : rl_type }.

(** The file, the locks granted, what was asked for each lock (for a lock granted:
    from where it starts), and for each request inside [cv_wait] the lock it waits
    for, as a writer or not, and whether it has been woken. *)
Record rsys (T : Type) := RSys {
  rs_zp : znode T;
  rs_held : list Z;
  rs_asked : gmap Z request;
  rs_waiting : gmap Z (Z * bool * bool)
}.
Arguments RSys {T}.
Arguments rs_zp {T}.
Arguments rs_held {T}.
Arguments rs_asked {T}.
Arguments rs_waiting {T}.

(** A thread calls one of the routines, comes back from [cv_wait], is woken for no
    reason, or the file changes its size. *)
Inductive raction :=
  | ALock (off len : Z) (ty : rl_type)
  | ARetry (p : Z)
  | AUnlock (p : Z)
  | AReduce (p off len : Z)
  | ASpurious (p : Z)
  | AFile (size blksz : Z).

Definition woken (ev : list cv_event) (w : gmap Z (Z * bool * bool)) : gmap Z (Z * bool * bool) :=
  (fun x => (x.1, x.2 || bool_decide (x.1 ∈ ev))) <$> w.

Section sys.
Context {T I : Type} `{!Tree T I} `{KM : !Kmem}.
Implicit Types (s : rsys T).

Definition new_file (size blksz max_blksz : Z) (zvol : bool) : rsys T := RSys (Znode tr_create ∅ size blksz max_blksz zvol) [] ∅ ∅.

(** The lock [p] has been granted, or waits for [q]. *)
Definition settle s (zp : znode T) (p q : Z) (rq : request) : rsys T :=
  if q =? NULL then
    RSys zp (p :: rs_held s) (<[p := Request (starts (rs_zp s) (q_off rq) (q_type rq)) (q_len rq) (q_type rq)]> (rs_asked s)) (delete p (rs_waiting s))
  else RSys zp (rs_held s) (<[p := rq]> (rs_asked s)) (<[p := (q, bool_decide (q_type rq <> RL_READER), false)]> (rs_waiting s)).

(** Locks outstanding are few enough for [r_cnt]. *)
Definition few s : bool := zlen (rs_held s) + 2 <? 2 ^ 32.

Definition is_writer (zp : znode T) (p : Z) : bool :=
  match z_rls zp !! p with
  | Some r => (r_off r =? 0) && bool_decide (r_type r = RL_WRITER) && negb (r_proxy r) && (r_len r =? UINT64_MAX) && (r_cnt r =? 1)
  | None => false
  end.

(** What the callers see to: offsets below [UINT64_MAX], lengths that are not 0,
    appends of less than 2^63 bytes; a lock is reduced when its holder has the whole
    file (the assertions of [zfs_range_reduce]). *)
Definition rexec s (a : raction) : option (res (rsys T)) :=
  match a with
  | ALock off len ty =>
      if (0 <=? off) && (off <? UINT64_MAX) && (0 <? len) && (len <? 2 ^ 64) && (bool_decide (ty <> RL_APPEND) || (len <? 2 ^ 63)) && few s then Some (
        '(zp, p, q) ← zfs_range_lock (rs_zp s) off len ty;
        Ok (settle s zp p q (Request off (if u64 (len + off) <? off then UINT64_MAX - off else len) ty)))
      else None
  | ARetry p =>
      match rs_waiting s !! p, rs_asked s !! p with
      | Some (_, _, true), Some rq =>
          if few s then Some (
            '(zp, q) ← (if decide (q_type rq = RL_READER) then zfs_range_lock_reader (rs_zp s) p else zfs_range_lock_writer (rs_zp s) p (q_off rq) (q_len rq));
            Ok (settle s zp p q rq))
          else None
      | _, _ => None
      end
  | AUnlock p =>
      if bool_decide (p ∈ rs_held s) then Some (
        '(zp, ev) ← zfs_range_unlock (rs_zp s) p;
        Ok (RSys zp (filter (fun x => x <> p) (rs_held s)) (rs_asked s) (woken ev (rs_waiting s))))
      else None
  | AReduce p off len =>
      if bool_decide (p ∈ rs_held s) && (tr_numnodes (z_range_avl (rs_zp s)) =? 1) && is_writer (rs_zp s) p && (0 <=? off) && (0 <? len) && (off + len <? 2 ^ 64) then Some (
        '(zp, ev) ← zfs_range_reduce (rs_zp s) p off len;
        Ok (RSys zp (rs_held s) (<[p := Request off len RL_WRITER]> (rs_asked s)) (woken ev (rs_waiting s))))
      else None
  | ASpurious p =>
      match rs_waiting s !! p with
      | Some (q, k, false) => Some (Ok (RSys (rs_zp s) (rs_held s) (rs_asked s) (<[p := (q, k, true)]> (rs_waiting s))))
      | _ => None
      end
  | AFile size blksz =>
      let zp := rs_zp s in
      if (0 <=? size) && (size <? 2 ^ 63) then
        Some (Ok (RSys (Znode (z_range_avl zp) (z_rls zp) size blksz (z_max_blksz zp) (z_is_zvol zp)) (rs_held s) (rs_asked s) (rs_waiting s)))
      else None
  end.

Inductive rstep : rsys T -> rsys T -> Prop :=
  rstep_exec s a s' : rexec s a = Some (Ok s') -> rstep s s'.
End sys.
End RangeLockSys.
