(* ===== verification/RangeLockSpec.v ===== *)
(** The theorems about range locks. *)

From stdpp Require Import relations.
From S2P Require Import Prelude Avl OrdTree SpaceMap SpaceMapSpec RangeLock RangeLockSet RangeLockOk RangeLockAdd RangeLockGrant RangeLockFree RangeLockSys.
Import SpaceMap RangeLock RangeLockSet RangeLockOk RangeLockAdd RangeLockGrant RangeLockFree RangeLockSys.
Open Scope Z_scope.

Module RangeLockSpec.

Section spec.
Context {T I : Type} `{!Tree T I} `{!TreeLaws T I} `{KM : !Kmem} `{KL : !KmemLaws}.
Implicit Types (s : rsys T) (zp : znode T) (es : entries).

(** ** The invariant *)

(** A lock holds what was asked for. *)
Definition covered (rq : request) (r : rl) : Prop :=
  r_type r = (if decide (q_type rq = RL_READER) then RL_READER else RL_WRITER) /\ r_off r <= q_off rq /\ q_off rq + q_len rq <= fin r.

Record rs_inv s es : Prop := RsInv {
  s_inv : inv (rs_zp s) es (rs_held s) [];
  s_file : file_ok (rs_zp s);
  s_few : zlen (rs_held s) + 1 < 2 ^ 32;
  s_held : forall p, p ∈ rs_held s -> exists rq r, rs_asked s !! p = Some rq /\ z_rls (rs_zp s) !! p = Some r /\ covered rq r;
  s_wait : forall p q k aw, rs_waiting s !! p = Some (q, k, aw) -> exists rq r, rs_asked s !! p = Some rq /\ pending (rs_zp s) es (rs_held s) p r /\
    asks (q_off rq) (q_len rq) (q_type rq) r /\ fair (q_off rq) (q_len rq) (q_type rq) /\ k = bool_decide (q_type rq <> RL_READER) /\ (aw = false -> target es k q)
}.

Lemma rs_inv_new size blksz max_blksz zvol : 0 <= size < 2 ^ 63 -> rs_inv (new_file size blksz max_blksz zvol) [].
Proof using All.
  intros Hs. split; cbn; try done.
  - split; cbn; try done; [apply tr_create_ok|by intros p r Hp%not_elem_of_nil| |by intros p Hp%not_elem_of_nil|constructor|by intros p r Hp%not_elem_of_nil].
    split; [constructor|]. split; [constructor|]. intros x Hx. cbn in Hx. lia.
  - by intros p Hp%not_elem_of_nil.
Qed.

Lemma covered_same rq r r' : covered rq r -> same r r' -> covered rq r'.
Proof. intros (C1 & C2 & C3) (E1 & E2 & E3). unfold covered. rewrite E1, E2, E3. done. Qed.

Lemma keeps_pending p held zp es zp' es' p' r held' : keeps p held zp es zp' es' -> pending zp es held p' r -> p' <> p -> (forall x, x ∈ held' -> x ∈ p :: held) -> pending zp' es' held' p' r.
Proof.
  intros [K1 K2 _ _ _] (P1 & P2 & P3 & P4 & P5) Hne Hh. assert (Hn : p' ∉ p :: held) by set_solver. split; [by apply K2|]. split; [|split; [by intros ?%Hh|done]].
  intros [?|[?|?]]%K1; [done|done|congruence].
Qed.

(** ** Requests *)

Lemma settle_request_ok s es zp' p q off len ty : rs_inv s es -> round off len ty (rs_zp s) es (rs_held s) p (zp', q) -> (p ∉ rs_held s) -> fair off len ty -> few s = true ->
  exists es', rs_inv (settle s zp' p q (Request off len ty)) es'.
Proof using All.
  intros [S1 S2 S3 S4 S5] Hr Hp Hf Hfew. unfold few in Hfew. apply Z.ltb_lt in Hfew.
  assert (Hk : forall es' held', keeps p (rs_held s) (rs_zp s) es zp' es' -> (forall x, x ∈ held' -> x ∈ p :: rs_held s) ->
    file_ok zp' /\ (forall x, x ∈ rs_held s -> exists rq r, rs_asked s !! x = Some rq /\ z_rls zp' !! x = Some r /\ covered rq r) /\
    (forall x y k aw, rs_waiting s !! x = Some (y, k, aw) -> x <> p -> exists rq r, rs_asked s !! x = Some rq /\ pending zp' es' held' x r /\
      asks (q_off rq) (q_len rq) (q_type rq) r /\ fair (q_off rq) (q_len rq) (q_type rq) /\ k = bool_decide (q_type rq <> RL_READER) /\ (aw = false -> target es' k y))).
  { intros es' held' Hk Hh. split; [|split].
    - destruct (k_file _ _ _ _ _ _ Hk) as (E & _). unfold file_ok in *. by rewrite E.
    - intros x Hx. destruct (S4 x Hx) as (rq & r & A1 & A2 & A3). destruct (k_held _ _ _ _ _ _ Hk x r A2 Hx) as (r' & A4 & A5). exists rq, r'. split; [done|]. split; [done|]. by eapply covered_same.
    - intros x y k aw Hx Hxp. destruct (S5 x y k aw Hx) as (rq & r & A1 & A2 & A3 & A4 & A5 & A6). exists rq, r. split; [done|]. split; [by eapply keeps_pending|].
      split; [done|]. split; [done|]. split; [done|]. intros Haw. by apply (k_target _ _ _ _ _ _ Hk), A6. }
  unfold settle. destruct Hr as [(E & es' & r & H1 & H2 & H3 & H4)|(E & es' & r & H1 & H2 & H3 & _ & H4 & H5)]; cbn in E; exists es'.
  - rewrite E, Z.eqb_refl. destruct (Hk es' (p :: rs_held s) H2 ltac:(done)) as (K1 & K2 & K3). split; cbn [rs_zp rs_held rs_asked rs_waiting q_off q_len q_type]; [done|done|cbn [length]; lia| |].
    + intros x [->|Hx]%elem_of_cons; [exists (Request (starts (rs_zp s) off ty) len ty), r; rewrite lookup_insert_eq; done|]. rewrite lookup_insert_ne by set_solver. by apply K2.
    + intros x y k aw [Hne Hx]%lookup_delete_Some. rewrite lookup_insert_ne by done. by apply (K3 x y).
  - rewrite (proj2 (Z.eqb_neq _ _) E). destruct (Hk es' (rs_held s) H2 ltac:(set_solver)) as (K1 & K2 & K3). split; cbn [rs_zp rs_held rs_asked rs_waiting q_off q_len q_type]; [done|done|lia| |].
    + intros x Hx. rewrite lookup_insert_ne by set_solver. by apply K2.
    + intros x y k aw [(<- & [= <- <- <-])|[Hne Hx]]%lookup_insert_Some; [exists (Request off len ty), r; rewrite lookup_insert_eq; by split_and!|]. rewrite lookup_insert_ne by done. by apply (K3 x y).
Qed.

Lemma lock_step s es off len ty : rs_inv s es -> 0 <= off < UINT64_MAX -> 0 < len < 2 ^ 64 -> (ty = RL_APPEND -> len < 2 ^ 63) -> few s = true ->
  let len' := if u64 (len + off) <? off then UINT64_MAX - off else len in
  exists zp' p q es', zfs_range_lock (rs_zp s) off len ty = Ok (zp', p, q) /\ rs_inv (settle s zp' p q (Request off len' ty)) es'.
Proof using All.
  intros Hs Ho Hl Ha Hfew len'. pose proof (s_inv _ _ Hs) as Hi. unfold few in Hfew. apply Z.ltb_lt in Hfew as Hz.
  destruct (lock_ok (rs_zp s) es (rs_held s) off len ty Hi (s_file _ _ Hs) Ho Hl Ha Hz) as (Hf & zp' & p & q & E & Hp & _ & Hr). fold len' in Hf, Hr.
  destruct (fresh_out _ _ _ _ _ Hi Hp) as [_ Hph]. destruct (settle_request_ok s es zp' p q off len' ty Hs Hr Hph Hf Hfew) as (es' & Hs'). by exists zp', p, q, es'.
Qed.

Lemma retry_step s es p y k aw rq : rs_inv s es -> rs_waiting s !! p = Some (y, k, aw) -> rs_asked s !! p = Some rq -> few s = true ->
  exists zp' q es', (if decide (q_type rq = RL_READER) then zfs_range_lock_reader (rs_zp s) p else zfs_range_lock_writer (rs_zp s) p (q_off rq) (q_len rq)) = Ok (zp', q) /\
    round (q_off rq) (q_len rq) (q_type rq) (rs_zp s) es (rs_held s) p (zp', q) /\ rs_inv (settle s zp' p q rq) es'.
Proof using All.
  intros Hs Hw Ha Hfew. destruct (s_wait _ _ Hs _ _ _ _ Hw) as (rq' & r & A1 & A2 & [A3 A3'] & A4 & _). assert (rq' = rq) as -> by congruence. pose proof (s_inv _ _ Hs) as Hi.
  pose proof Hfew as Hz. unfold few in Hz. apply Z.ltb_lt in Hz.
  assert (exists o, (if decide (q_type rq = RL_READER) then zfs_range_lock_reader (rs_zp s) p else zfs_range_lock_writer (rs_zp s) p (q_off rq) (q_len rq)) = Ok o /\
    round (q_off rq) (q_len rq) (q_type rq) (rs_zp s) es (rs_held s) p o) as ([zp' q] & E & Hr).
  { case_decide as Et.
    - destruct (A3' Et) as [<- <-]. rewrite Et in *. by apply reader_round_ok.
    - rewrite <- A3 in *. by apply writer_round_ok; [..|apply (s_file _ _ Hs)|]. }
  destruct A2 as (_ & _ & Hph & _). destruct rq as [off len ty]. destruct (settle_request_ok s es zp' p q off len ty Hs Hr Hph A4 Hfew) as (es' & Hs'). by exists zp', q, es'.
Qed.

(** ** Releases *)

Lemma woken_spec ev w p q k aw : woken ev w !! p = Some (q, k, aw) -> exists aw', w !! p = Some (q, k, aw') /\ (aw = false -> aw' = false /\ ((q, k) ∉ ev)).
Proof.
  unfold woken. rewrite lookup_fmap. intros ([[q' k'] aw'] & E & [= -> -> ->])%fmap_Some. exists aw'. split; [done|]. cbn. intros [-> Hn]%orb_false_iff. by apply bool_decide_eq_false in Hn.
Qed.

Lemma held_split (held : list Z) p : NoDup held -> p ∈ held -> held ≡ₚ p :: filter (fun x => x <> p) held.
Proof.
  intros Hn Hp. apply NoDup_Permutation; [done|constructor; [rewrite list_elem_of_filter; tauto|by apply NoDup_filter]|].
  intros x. rewrite elem_of_cons, list_elem_of_filter. destruct (decide (x = p)) as [->|]; tauto.
Qed.

Lemma unlock_step s es p : rs_inv s es -> p ∈ rs_held s ->
  exists zp' ev es', zfs_range_unlock (rs_zp s) p = Ok (zp', ev) /\ rs_inv (RSys zp' (filter (fun x => x <> p) (rs_held s)) (rs_asked s) (woken ev (rs_waiting s))) es'.
Proof using All.
  intros [S1 S2 S3 S4 S5] Hp. pose proof (held_split _ _ (v_nodup _ _ _ _ S1) Hp) as Hperm. set (held' := filter (fun x => x <> p) (rs_held s)) in *.
  pose proof (Permutation_length Hperm) as Hlen. cbn in Hlen. assert (Hsub : forall x, x ∈ held' -> x ∈ rs_held s) by (intros x; rewrite Hperm; set_solver).
  destruct (unlock_ok (rs_zp s) es p held') as (zp' & es' & ev & E & Hi & [U1 U2 U5 U3 (U4 & _)]); [by eapply inv_perm|lia|]. exists zp', ev, es'. split; [done|]. split; cbn; [done| |lia| |].
  - unfold file_ok in *. by rewrite U4.
  - intros x Hx. destruct (S4 x (Hsub x Hx)) as (rq & r & A1 & A2 & A3). exists rq, r. by rewrite U5.
  - intros x q k aw (aw' & Hx & Haw)%woken_spec. destruct (S5 x q k aw' Hx) as (rq & r & A1 & (P1 & P2 & P3 & P4 & P5) & A3 & A4 & A5 & A6). exists rq, r. split; [done|]. split; [|split; [done|]; split; [done|]; split; [done|]].
    + split; [rewrite U2; [done|done|set_solver]|]. split; [by intros ?%U1|]. split; [by intros ?%Hsub|done].
    + intros [-> Hev]%Haw. destruct (U3 k q (A6 eq_refl)); [done|done].
Qed.

(** One entry that is a lock by itself: nobody has proxies. *)
Lemma lone_entry zp p r held : inv zp [(p, r)] held [] -> r_proxy r = false -> ranges (z_rls zp) held = [].
Proof using All.
  intros Hi Hp. pose proof (nonempty_ranges _ _ _ _ Hi) as Hne. destruct (v_ok _ _ _ _ Hi) as (_ & He & Hf). cbn in He, Hf. apply Forall_inv in He. pose proof (e_kind _ _ He) as Hk. rewrite Hp in Hk. destruct Hk as (_ & _ & Hc).
  destruct (ranges (z_rls zp) held) as [|[a b] P]; [done|exfalso]. apply Forall_inv in Hne. cbn in Hne. assert (Ha : 0 < cover ((a, b) :: P) a) by (apply (cover_pos _ a b); [set_solver|lia]).
  pose proof (Hf a Ha) as Hx. apply Exists_cons in Hx as [Hx|Hx]; [|by apply Exists_nil in Hx]. rewrite (cover_const _ r a (e_edge _ _ He) Hx) in Ha. lia.
Qed.

Lemma reduce_step s es p off len : rs_inv s es -> p ∈ rs_held s -> tr_numnodes (z_range_avl (rs_zp s)) = 1 -> is_writer (rs_zp s) p = true -> 0 <= off -> 0 < len -> off + len < 2 ^ 64 ->
  exists zp' ev es', zfs_range_reduce (rs_zp s) p off len = Ok (zp', ev) /\ rs_inv (RSys zp' (rs_held s) (<[p := Request off len RL_WRITER]> (rs_asked s)) (woken ev (rs_waiting s))) es'.
Proof using All.
  intros [S1 S2 S3 S4 S5] Hp Hn Hw Ho Hl Hol. destruct (v_held _ _ _ _ S1 p Hp) as (r & Hm & _ & _ & _ & G). unfold is_writer in Hw. rewrite Hm in Hw. apply andb_prop in Hw as [[[[_ Ht]%andb_prop Hpx]%andb_prop _]%andb_prop Hcn]. apply bool_decide_eq_true in Ht. apply negb_true_iff in Hpx. apply Z.eqb_eq in Hcn.
  destruct G as [[_ Hin]|(? & _)]; [|lia]. destruct (tr_seq_facts _ _ (v_seq _ _ _ _ S1)) as (_ & _ & _ & Enum). rewrite length_fmap in Enum.
  assert (es = [(p, r)]) as -> by (destruct es as [|e [|? ?]]; cbn in Enum; [lia|by apply list_elem_of_singleton in Hin as ->|lia]).
  unfold zfs_range_reduce, get_rl. rewrite Hm. bnd. eexists _, _, [(p, with_range r off len)]. split; [done|].
  assert (Er : ranges (z_rls (rs_zp s)) (rs_held s) = []) by (by eapply lone_entry). pose proof (v_ok _ _ _ _ S1) as (_ & He & _). cbn in He. apply Forall_inv in He. pose proof (e_kind _ _ He) as Hk. rewrite Hpx in Hk. destruct Hk as (K1 & K2 & _).
  split; cbn [rs_zp rs_held rs_asked rs_waiting]; [|done|done| |].
  - apply (inv_set (rs_zp s) [] p r [] (rs_held s) []); [done| |done]. rewrite Er. cbn. split; [by constructor; [constructor|]|]. split; [|intros x Hx; cbn in Hx; lia].
    constructor; [|done]. split; [split; cbn; lia| |constructor|apply He]. cbn. by rewrite Hpx.
  - intros x Hx. cbn. destruct (decide (p = x)) as [<-|Hne].
    + rewrite !lookup_insert_eq. exists (Request off len RL_WRITER), (with_range r off len). split; [done|]. split; [done|]. split; [by rewrite decide_False|]. cbn. lia.
    + rewrite !lookup_insert_ne by done. by apply S4.
  - intros x q k aw (aw' & Hx & Haw)%woken_spec. destruct (S5 x q k aw' Hx) as (rq & r' & A1 & (P1 & P2 & P3 & P4 & P5) & A3 & A4 & A5 & A6). assert (Hne : p <> x) by (intros ->; done).
    exists rq, r'. rewrite lookup_insert_ne by done. split; [done|]. split; [|split; [done|]; split; [done|]; split; [done|]].
    + split; [cbn; by rewrite lookup_insert_ne|]. done.
    + intros [-> Hev]%Haw. destruct (A6 eq_refl) as (t & Ht' & Hk). apply list_elem_of_singleton in Ht' as [= -> ->]. destruct Hev. by apply broadcast_in.
Qed.

(** ** Every step *)

Lemma step_ok s es a o : rs_inv s es -> rexec s a = Some o -> exists s' es', o = Ok s' /\ rs_inv s' es'.
Proof using All.
  intros Hs E. destruct a as [off len ty|p|p|p off len|p|size blksz]; cbn in E.
  - destruct (_ && few s) eqn:G; [|done]. injection E as <-. apply andb_prop in G as [[[[[G1 G2]%andb_prop G3]%andb_prop G4]%andb_prop G5]%andb_prop G6].
    apply Z.leb_le in G1. apply Z.ltb_lt in G2, G3, G4. apply orb_true_iff in G5. rewrite bool_decide_eq_true, Z.ltb_lt in G5.
    destruct (lock_step s es off len ty Hs (conj G1 G2) (conj G3 G4)) as (zp' & p & q & es' & -> & Hs'); [intros ->; by destruct G5|done|]. bnd. eauto.
  - destruct (rs_waiting s !! p) as [[[q k] []]|] eqn:Ew; [|done..]. destruct (rs_asked s !! p) as [rq|] eqn:Ea; [|done]. destruct (few s) eqn:Ef; [|done]. injection E as <-.
    destruct (retry_step s es p q k true rq Hs Ew Ea Ef) as (zp' & q' & es' & -> & _ & Hs'). bnd. eauto.
  - case_bool_decide as Hp; [|done]. injection E as <-. destruct (unlock_step s es p Hs Hp) as (zp' & ev & es' & -> & Hs'). bnd. eauto.
  - destruct (_ && (off + len <? 2 ^ 64)) eqn:G; [|done]. injection E as <-. apply andb_prop in G as [[[[[G1 G2]%andb_prop G3]%andb_prop G4]%andb_prop G5]%andb_prop G6].
    apply bool_decide_eq_true in G1. apply Z.eqb_eq in G2. apply Z.leb_le in G4. apply Z.ltb_lt in G5, G6. destruct (reduce_step s es p off len Hs G1 G2 G3 G4 G5 G6) as (zp' & ev & es' & -> & Hs'). bnd. eauto.
  - destruct (rs_waiting s !! p) as [[[q k] []]|] eqn:Ew; [done| |done]. injection E as <-. eexists _, es. split; [done|]. destruct Hs as [S1 S2 S3 S4 S5]. split; cbn; try done.
    intros x y k' aw [(<- & [= <- <- <-])|[Hne Hx]]%lookup_insert_Some; [|by apply S5]. destruct (S5 p q k false Ew) as (rq & r & ? & ? & ? & ? & ? & _). by exists rq, r.
  - destruct (_ && _) eqn:G; [|done]. injection E as <-. apply andb_prop in G as [G1 G2]. apply Z.leb_le in G1. apply Z.ltb_lt in G2. eexists _, es. split; [done|]. destruct Hs as [[I1 I2 I3 I4 I5 I6] S2 S3 S4 S5].
    split; cbn; [by split|done|done|done|]. intros x y k aw Hx. destruct (S5 x y k aw Hx) as (rq & r & A1 & A2 & A3). by exists rq, r.
Qed.

(** What the threads can bring about, from a file with no locks. *)
Definition reachable s : Prop := exists size blksz max_blksz zvol, 0 <= size < 2 ^ 63 /\ rtc rstep (new_file size blksz max_blksz zvol) s.

Lemma reachable_inv s : reachable s -> exists es, rs_inv s es.
Proof using All.
  intros (size & blksz & mx & zvol & Hs & Hr). assert (Gen : forall s0 s1, rtc rstep s0 s1 -> (exists es, rs_inv s0 es) -> exists es, rs_inv s1 es).
  { induction 1 as [|s0 s1 s2 H1 H2 IH]; intros [es He]; [by exists es|]. apply IH. destruct H1 as [s0 a s1 E]. destruct (step_ok _ _ _ _ He E) as (s' & es' & [= <-] & H'). by exists es'. }
  eapply Gen; [exact Hr|]. exists []. by apply rs_inv_new.
Qed.

(** ** The theorems *)

Lemma inv_exclusive zp es held p q rp rq : inv zp es held [] -> p ∈ held -> q ∈ held -> p <> q -> z_rls zp !! p = Some rp -> z_rls zp !! q = Some rq ->
  r_off rp < fin rq -> r_off rq < fin rp -> r_type rp = RL_READER.
Proof using All.
  intros Hi Hp Hq Hne Hrp Hrq H1 H2. destruct (v_held _ _ _ _ Hi p Hp) as (r & E & P1 & P2 & P3 & [[P4 P5]|(_ & _ & P4)]); (assert (r = rp) as -> by congruence); [|done].
  exfalso. apply list_elem_of_split in P5 as (lo & hi & ->). destruct (entry_at _ _ _ _ _ _ _ Hi) as (He & _ & _ & _ & _ & Hlo & Hhi). rewrite list.Forall_forall in Hlo, Hhi.
  destruct (v_held _ _ _ _ Hi q Hq) as (r' & E' & Q1 & (Q2 & Q3 & Q4) & Q5 & [[Q6 Q7]|(Q6 & _ & _)]); (assert (r' = rq) as -> by congruence).
  - rewrite elem_of_app, elem_of_cons in Q7. destruct Q7 as [Hx|[[= -> ->]|Hx]]; [specialize (Hlo _ Hx); cbn in Hlo; lia|done|specialize (Hhi _ Hx); cbn in Hhi; lia].
  - set (x := Z.max (r_off rp) (r_off rq)). destruct P2 as (W1 & W2 & W3). assert (Hx : holds x rp) by lia. pose proof (cover_const _ _ _ (e_edge _ _ He) Hx) as Hc. pose proof (e_kind _ _ He) as Hk. rewrite P1 in Hk.
    destruct Hk as (_ & _ & Hk). rewrite Hk in Hc. assert (Hin : (r_off rq, fin rq) ∈ [] ++ ranges (z_rls zp) held).
    { cbn. apply list_elem_of_omap. exists q. split; [done|]. unfold range_of. by rewrite Hrq, Q6. }
    pose proof (cover_pos _ _ _ x Hin ltac:(lia)). lia.
Qed.

(** C13: Exclusion: whatever the threads do, two requests that have been granted and
    whose ranges overlap are both requests for reading. *)
Theorem range_locks_exclude s p q rp rq : reachable s -> p ∈ rs_held s -> q ∈ rs_held s -> p <> q -> rs_asked s !! p = Some rp -> rs_asked s !! q = Some rq ->
  q_off rp < q_off rq + q_len rq -> q_off rq < q_off rp + q_len rp -> q_type rp = RL_READER /\ q_type rq = RL_READER.
Proof using All.
  intros [es Hs]%reachable_inv Hp Hq Hne Ep Eq H1 H2. destruct (s_held _ _ Hs p Hp) as (rp' & r & E1 & Hr & (C1 & C2 & C3)). destruct (s_held _ _ Hs q Hq) as (rq' & t & E2 & Ht & (D1 & D2 & D3)).
  assert (rp' = rp) as -> by congruence. assert (rq' = rq) as -> by congruence. pose proof (s_inv _ _ Hs) as Hi.
  pose proof (inv_exclusive _ _ _ p q r t Hi Hp Hq Hne Hr Ht ltac:(lia) ltac:(lia)) as Tp. pose proof (inv_exclusive _ _ _ q p t r Hi Hq Hp (not_eq_sym Hne) Ht Hr ltac:(lia) ltac:(lia)) as Tq.
  rewrite Tp in C1. rewrite Tq in D1. destruct (decide (q_type rp = RL_READER)), (decide (q_type rq = RL_READER)); done.
Qed.

(** C19: Memory safety and termination: no call of the range lock routines that the
    threads can make follows a null pointer, touches memory that was freed, loses its
    way among the proxies or fails to return. *)
Theorem range_locks_safe s a o : reachable s -> rexec s a = Some o -> exists s', o = Ok s'.
Proof using All. intros [es Hs]%reachable_inv E. destruct (step_ok _ _ _ _ Hs E) as (s' & _ & -> & _). by exists s'. Qed.

(** C20: No wake-up is lost: when the last lock on a file is gone, every request that
    waits has been woken, and whichever tries first gets its lock. *)
Theorem range_locks_progress s p q k aw : reachable s -> rs_held s = [] -> rs_waiting s !! p = Some (q, k, aw) ->
  aw = true /\ exists s', rexec s (ARetry p) = Some (Ok s') /\ rs_held s' = [p].
Proof using All.
  intros [es Hs]%reachable_inv H0 Hw. pose proof (s_inv _ _ Hs) as Hi. rewrite H0 in Hi.
  assert (es = []) as ->.
  { destruct es as [|[x r] es]; [done|exfalso]. destruct (entry_at _ [] _ _ _ _ _ Hi) as (He & _). pose proof (e_kind _ _ He) as Hk. destruct (r_proxy r) eqn:Hp; [cbn in Hk; lia|].
    pose proof (v_own _ _ _ _ Hi x r ltac:(set_solver) Hp) as Hx. by apply not_elem_of_nil in Hx. }
  destruct (s_wait _ _ Hs _ _ _ _ Hw) as (rq & r & Ea & _ & _ & _ & _ & Ht).
  assert (aw = true) as -> by (destruct aw; [done|]; destruct (Ht eq_refl) as (t & Ht' & _); by apply not_elem_of_nil in Ht'). split; [done|].
  assert (Hf : few s = true) by (unfold few; by rewrite H0). destruct (retry_step s [] p q k true rq Hs Hw Ea Hf) as (zp' & q' & es' & E & Hr & _).
  exists (settle s zp' p q' rq). unfold rexec. rewrite Hw, Ea, Hf, E. split; [done|]. unfold settle. destruct Hr as [(Eq & _)|(_ & ? & ? & _ & _ & _ & Hin & _)]; [cbn in Eq; rewrite Eq; cbn; by rewrite H0|by apply not_elem_of_nil in Hin].
Qed.

End spec.

(** ** Witnesses *)

#[local] Existing Instance SpaceMapSpec.ex_kmem.
#[local] Existing Instance SpaceMapSpec.ex_kmem_laws.

Fixpoint rexecs (s : rsys Avl.avl_tree) (l : list raction) : option (rsys Avl.avl_tree) :=
  match l with [] => Some s | a :: l => match rexec s a with Some (Ok s) => rexecs s l | _ => None end end.

Lemma rexecs_steps l s s' : rexecs s l = Some s' -> rtc rstep s s'.
Proof.
  revert s. induction l as [|a l IH]; cbn; intros s E; [injection E as <-; apply rtc_refl|].
  destruct (rexec s a) as [[s1|]|] eqn:E1; [|done..]. eapply rtc_l; [by econstructor|]. by apply IH.
Qed.

Definition ex_file : rsys Avl.avl_tree := new_file 1000 512 131072 true.
Definition ex_after (l : list raction) : rsys Avl.avl_tree := default ex_file (rexecs ex_file l).

Lemma ex_reachable l : match rexecs ex_file l with Some _ => true | None => false end = true -> reachable (ex_after l).
Proof.
  intros E. exists 1000, 512, 131072, true. split; [lia|]. apply (rexecs_steps l). unfold ex_after. change (new_file 1000 512 131072 true) with ex_file. by destruct (rexecs ex_file l).
Qed.

(** Two readers that overlap; a writer that waits for them. *)
Definition ex_readers : list raction := [ALock 0 10 RL_READER; ALock 5 10 RL_READER; ALock 7 1 RL_WRITER].

Lemma range_locks_exclude_witness : q_type (Request 0 10 RL_READER) = RL_READER /\ q_type (Request 5 10 RL_READER) = RL_READER.
Proof.
  apply (range_locks_exclude (ex_after ex_readers) 1 2 (Request 0 10 RL_READER) (Request 5 10 RL_READER)).
  - apply ex_reachable. vm_compute. reflexivity.
  - apply (bool_decide_unpack _). vm_compute. exact Logic.I.
  - apply (bool_decide_unpack _). vm_compute. exact Logic.I.
  - discriminate.
  - vm_compute. reflexivity.
  - vm_compute. reflexivity.
  - reflexivity.
  - reflexivity.
Defined.

Lemma range_locks_safe_witness : exists s', rexec (ex_after ex_readers) (AUnlock 1) = Some (Ok s').
Proof.
  destruct (rexec (ex_after ex_readers) (AUnlock 1)) as [o|] eqn:E; [|vm_compute in E; discriminate].
  destruct (range_locks_safe (ex_after ex_readers) (AUnlock 1) o) as [s' ->]; [apply ex_reachable; vm_compute; reflexivity|exact E|]. exists s'. reflexivity.
Defined.

(** A reader waits for a writer, which leaves. *)
Definition ex_handover : list raction := [ALock 0 10 RL_WRITER; ALock 5 10 RL_READER; AUnlock 1].

Lemma range_locks_progress_witness : true = true /\ exists s', rexec (ex_after ex_handover) (ARetry 2) = Some (Ok s') /\ rs_held s' = [2].
Proof.
  apply (range_locks_progress (ex_after ex_handover) 2 1 false true).
  - apply ex_reachable. vm_compute. reflexivity.
  - vm_compute. reflexivity.
  - vm_compute. reflexivity.
Defined.

End RangeLockSpec.
